(* ===== verification/_CoqProject ===== *)
-Q . S2P
Prelude.v
BitBlock.v
BitSet.v
BitSetFacts.v
BitSetOps.v
BitSetRange.v
BitSetGrow.v
BitSetQuery.v
BitSetFind.v
BitSetString.v
BitSetTheorems.v
SegmentTree.v
ChannelKeys.v
Chunks.v
Channel.v
ChannelFacts.v
ChannelSystem.v
ChannelTheorems.v
Retry.v
OtStore.v
OtStoreFacts.v
OtStoreTheorems.v
SparseXor.v
Ge2n.v
Dpf.v
DpfTheorems.v
Dcf.v
DcfTheorems.v
Pprf.v
Cuckoo.v
CuckooTheorems.v
LinkProgram.v
Context.v
LinkGroup.v
Collectives.v
CollectivesFacts.v
CollectivesTheorems.v
ContextTheorems.v
CrHash.v
TwoParty.v
Dialogue.v
Sgrr.v
SgrrFacts.v
SgrrTheorems.v
SgrrFixed.v
Prg.v
LinearCode.v
LinearCodeFacts.v
LinearCodeTheorems.v
SilverCode.v
SilverTheorems.v
Transpose.v
TransposeFacts.v
TransposeSquares.v
TransposeTheorems.v
GaloisField.v
GaloisTheorems.v
Gywz.v
GywzFacts.v
GywzTheorems.v
Mpfss.v
MpfssFacts.v
MpfssRuns.v
MpfssFixedRuns.v
MpfssTheorems.v
Ferret.v
FerretFacts.v
FerretRuns.v
FerretTheorems.v
OtExtension.v
OtExtensionFacts.v
PrgTheorems.v
OtExtensionTheorems.v
Softspoken.v
SoftspokenFacts.v
SoftspokenRuns.v
SoftspokenSetup.v
SoftspokenTheorems.v
