(* ===== verification/Prelude.v ===== *)
(** * A verification of the core of yacl

    yacl is a C++ library for multi-party computation: parties talk over links,
    hold correlated randomness (oblivious transfers), and run protocols on top.
    This development translates the parts of the library that carry its own logic
    into executable definitions and proves what they promise. Paths are under
    src/yacl/.

    ** The parts and the files that model them

    - [dynamic_bitset] (base/dynamic_bitset.h). [BitBlock]: the arithmetic of one
      block at its width (8, 16, 32, 64 and 128 bits). [BitSet]: the class, one
      definition per member function; the state is the vector of blocks and the
      number of bits. [BitSetFacts] (invariant and abstraction to a number),
      [BitSetOps], [BitSetRange], [BitSetGrow], [BitSetQuery],
      [BitSetFind], [BitSetString]: every operation against the abstraction.
      [BitSetTheorems]: the refinement of the abstract specification, and the
      contracts of the queries, the iteration, the order and the text forms.
    - Identifier sets. [SegmentTree] (utils/segment_tree.h): the interface [IdSet], a
      class with laws, the ordered map of segments, and its instance.
    - The link channel (link/transport/channel.h, channel.cc). [ChannelKeys]:
      message names on the wire. [Chunks]: requests, the delegate as the class
      [TransportLink], its implementation of interconnection_link.cc, cutting into
      chunks and reassembly. [Channel]: the state of an endpoint and its handlers in
      a state and exception monad. [ChannelSystem]: two endpoints and a network that
      repeats, reorders and loses, as a step relation with its invariant;
      [ChannelFacts] are the effects of the handlers. [ChannelTheorems]: exactly-once
      delivery, acknowledgements, closing, throttling. [Retry]: the retry loop and
      the window of concurrent chunks.
    - The link context and the collective operations (link/context.cc,
      link/algorithm). [LinkProgram]: programs of sends and receives, many parties
      running them under an arbitrary schedule, and the proof rule "a plan
      completes". [Context]: ranks, names, statistics, [Spawn] and [SubWorld].
      [LinkGroup]: parties whose contexts agree. [Collectives]: the five algorithms;
      [CollectivesFacts]: the calls they make. [CollectivesTheorems],
      [ContextTheorems]: results and absence of deadlock, the barrier, unique names.
      The network of [LinkProgram] offers what [ChannelTheorems] shows of a channel:
      a message is received at most once, under the name it was sent with.
    - Stores of oblivious transfers (kernel/type). [OtStore]: stores and slices over
      a heap of shared buffers. [OtStoreFacts], [OtStoreTheorems]: slices partition,
      writes are seen where windows overlap, transfers are correlated.
    - Function secret sharing (crypto/experimental/dpf). [Ge2n]: the group of
      integers modulo a power of two. [Dpf], [DpfTheorems]: point functions, at a
      point and on the whole domain. [Dcf], [DcfTheorems]: comparison functions.
      [Pprf]: puncturable pseudo-random functions.
    - Single-point protocols (kernel/algorithms). [CrHash]: the correlation-robust
      hashes of crypto/tools/crhash.cc. [TwoParty]: arrays of
      words in messages, and two parties over peer-to-peer messages; the triples [runs] say what a program
      sends, expects and returns, and the runs of the two sides form a dialogue. [Sgrr] (sgrr_ote.cc): the punctured tree,
      over the stores and a context; [SgrrFacts]: its levels and
      messages; [SgrrTheorems], [SgrrFixed]: what both parties get, with a chosen
      index and with the index of the choices. [Gywz] (gywz_ote.cc): the half tree;
      [GywzFacts], [GywzTheorems]: what both parties get, in its three forms.
    - Multi-point functions (kernel/algorithms/mpfss.h, .cc), on the half tree.
      [Mpfss]: the parameters, and the protocol with the receiver's indexes
      and with the indexes of the choices. [MpfssFacts]: the words as a group
      (the class [WordGroup]), the correction of a sum at an index,
      indexes and choice bits. [MpfssRuns],
      [MpfssFixedRuns]: the runs of the two sides. [MpfssTheorems]: the outputs
      are shares of the multi-point function, in the four versions.
    - Linear codes (kernel/code). [SparseXor]: sums of words over sparse index sets,
      and the interface [Encoder] of a linear map computed in place. [LinearCode]
      (linear_code.h, ea_code.h): the local linear code and the expand-accumulate
      code; [LinearCodeFacts], [LinearCodeTheorems]: the encoders compute the product
      with the generated matrix. [SilverCode] (silver_code.cc),
      [SilverTheorems]: the two halves of the dual encoder against the
      sparse matrix they stand for.
    - Galois fields (math/galois_field/gf_intrinsic.h). [GaloisField]: carry-less
      products, their reduction, powers, inverses, inner products and the universal
      hash, and the ring of polynomials over two elements. [GaloisTheorems]:
      its quotients, the class [GfLaws] of the laws the products satisfy,
      spans, hashes and the coefficients of a hash.
    - Ferret, silent extension of correlated transfers (kernel/algorithms/ferret_ote.cc,
      ferret_ote_rn.h, with crypto/tools/common.h), on the half tree, the local linear
      code, the universal hash and the stores. [Dialogue]: a relational logic for the
      programs of two parties. [Ferret]: the parameters, the multi-point transfers and
      their check, the batches and the three forms of the protocol. [FerretFacts]:
      correlated words, compact stores in the heaps of the two parties, a bin and the
      bins; [FerretRuns]: the check and the batches. [FerretTheorems]: the transfers both parties get are correlated.
    - Generators (crypto/tools/prg.h, .cc, ro.h, crypto/block_cipher). [Prg]: cipher objects over
      the contexts of OpenSSL (the class [CipherContexts]), [FillPRand], reductions modulo Mersenne
      primes, the generators with a cache and the random oracles. [PrgTheorems]: the
      generators refine a machine that draws consecutive blocks of the key stream of a
      block cipher (the class [EcbCipher]); the generator of bits, and the bits the
      extensions of transfers take from it; the residues.
    - Transposition of bit matrices (utils/matrix_utils.h, .cc, with base/block.h).
      [Transpose]: the naive version, the one by exchange of blocks, the ones by vector
      instructions (SSE2 and AVX2) and the dispatch on the processor, for 128 by 128 and 128 by 1024 bits. [TransposeFacts],
      [TransposeSquares]: what an exchange, a lane and a square do to the bits.
      [TransposeTheorems]: all versions transpose.
    - Extension of transfers by a matrix (kernel/algorithms/iknp_ote.h, .cc, kos_ote.h,
      .cc), on the stores, the transposition, the hash and the field of 64 bits.
      [OtExtension]: IKNP and KOS, into spans and into stores. [OtExtensionFacts]: the
      columns and rows of the two parties, and their runs under [converse] of [Dialogue].
      [OtExtensionTheorems]: the transfers both parties get, and what the check of KOS accepts.
    - SoftSpoken (kernel/algorithms/softspoken_ote.h, .cc), on the punctured trees of [Sgrr] and on the
      parts above. [Softspoken]: the two objects and their interface. [SoftspokenFacts]: the
      reduction of a block of words, the shape of the trees and the vectors of one
      batch. [SoftspokenRuns]: the batches and the check, for any output that satisfies the
      interface [emits]. [SoftspokenSetup]: the set-up gives both parties the same trees.
      [SoftspokenTheorems]: the transfers of every call of a session.
    - Cuckoo hashing (utils/cuckoo_index.h, .cc). [Cuckoo], [CuckooTheorems].

    ** How code is translated

    Machine integers are [Z] with the wrap-around written out where the code can
    reach it. A body that can leave the defined behaviour of the language, or
    fail an assertion, is in the option monad ([None]), in [res] of [OtStore]
    ([Bad] against the thrown [Err]), in the monad of [Channel], or a [Fault] of
    [LinkProgram]; so "it returns" is a safety statement. Shared buffers are
    locations of a heap. Handlers that hold a mutex are atomic steps; schedules,
    deliveries and failures are chosen by the step relations.

    Code outside the repository is a parameter with its documented law: the
    generators of [Dpf], [Dcf] and [Pprf] (any function), [SimpleAtoi], the
    delegate's limits in [TransportLink], [BitFloor], [BufferSerializer], the
    permutations of [CrHash] and [Sgrr] (functions to blocks), [Blake3] (a function
    to 32 bytes), [WordSerializer], [PrgAesCtr] (the records [outside] of
    [OtExtensionTheorems] and [ss_outside] of [SoftspokenTheorems]), the keyed permutations that generate the codes, random seeds and the
    contents of memory that is not initialised;
    each has an instance that the examples run with. [Prg] has cipher contexts with the
    law of the ECB mode; the protocols keep their generator as a parameter.

    ** Bounds and fuel

    The retry loop and the rounds of the cuckoo index are bounded by the counts the
    code is configured with. [Traverse] of [Dpf] has one unit of fuel per level of
    the key and one more; the loops of the broadcast and of the barrier have one
    per bit of a word and one more; the theorems show that the fuel is never used
    up. The whole-domain evaluation is proved for domains of up to 31 bits (its
    indices are 32-bit), puncturing for trees that can be allocated (fewer than 59
    levels), the stores for fewer than [2 ^ 62] elements, groups for fewer than
    [2 ^ 60] parties, names while the [int] counters do not overflow, the
    single-point protocols for up to [2 ^ 31] outputs (their sizes are 32-bit), the
    codes for dimensions below [2 ^ 31] and up to [2 ^ 32 - 1024] words out (their
    indices are 32-bit). The search for the mask of a code has one unit of fuel per bit
    and one more, the passes of the encoders one per row and one more. Ferret is
    proved for fewer than [2 ^ 31] words a batch and [2 ^ 62] transfers in all, with
    bins of equal sizes; its loop runs at most the number of batches it computes. IKNP,
    KOS and SoftSpoken are proved for fewer than [2 ^ 60] transfers whose messages the counters of the
    link can number, SoftSpoken with trees of up to [2 ^ 30] leaves (an index of more bits is
    shifted out of an [int]) and fewer than [2 ^ 24] batches a message. Generators are proved until their counter
    of 64 bits is used up, for buffers below [2 ^ 60] bytes; the reduction modulo a
    Mersenne prime has 16 rounds, of which the proof uses at most 7.

    ** What is not modelled

    Transports over brpc, timeouts and logging; elliptic curves, pairings, block ciphers,
    hashes and big integers (and [FillPRandWithLtN], which needs them), which wrap other
    libraries or processor instructions;
    the remaining OT extensions (KKRT, and Ferret with uniform noise, which its code refuses) and
    the VOLE protocols; circuits, file
    formats and readers; vendored headers. *)

From Stdlib Require Import ZArith Lia ZifyBool Bool.
From stdpp Require Import base numbers list option.

Local Open Scope Z_scope.

(** ** Partial programs

    Code that can go out of range, violate an [assert] or read through a
    null pointer is modelled in the option monad: [None] is "undefined
    behaviour or failed assertion". A theorem that an operation returns
    [Some _] is therefore a memory-safety theorem as well. *)

Declare Scope yacl_scope.
Delimit Scope yacl_scope with yacl.

Notation "'assert!' b ; k" := (if (b : bool) then k else None)
  (at level 20, b at level 100, k at level 200, right associativity,
   only parsing) : yacl_scope.

Open Scope yacl_scope.

(** ** Checked vector access: [v[i]] and [v[i] = x] of [std::vector]. *)

Definition vget {A} (l : list A) (i : Z) : option A :=
  if 0 <=? i then l !! Z.to_nat i else None.

Definition vset {A} (l : list A) (i : Z) (x : A) : option (list A) :=
  if (0 <=? i) && (i <? Z.of_nat (length l))
  then Some (<[Z.to_nat i := x]> l) else None.

(** The size of a vector as the machine sees it. *)
Definition vsize {A} (l : list A) : Z := Z.of_nat (length l).

(** [v.resize(n, x)]. *)
Definition vresize {A} (l : list A) (n : Z) (x : A) : list A :=
  take (Z.to_nat n) l ++ replicate (Z.to_nat n - length l) x.

(** Skip the longest prefix whose elements satisfy [p]. *)
Fixpoint drop_while {A} (p : A -> bool) (l : list A) : list A :=
  match l with
  | [] => []
  | x :: l' => if p x then drop_while p l' else l
  end.

(** ** Counted loops

    [for_up n i f s] runs [for (k = 0; k < n; ++k) s = f(i + k, s)];
    [for_down n i f s] runs the same loop with a decreasing index. *)

Fixpoint for_up {St : Type} (n : nat) (i : Z) (f : Z -> St -> option St) (s : St)
  : option St :=
  match n with
  | O => Some s
  | S n' => s' ← f i s; for_up n' (i + 1) f s'
  end.

Fixpoint for_down {St : Type} (n : nat) (i : Z) (f : Z -> St -> option St) (s : St)
  : option St :=
  match n with
  | O => Some s
  | S n' => s' ← f i s; for_down n' (i - 1) f s'
  end.

(** Loops that return from inside: [f i] is [Some (Some r)] for [return r],
    [Some None] to go on to the next index. *)
Fixpoint search_up {R : Type} (n : nat) (i : Z) (f : Z -> option (option R))
  : option (option R) :=
  match n with
  | O => Some None
  | S n' => r ← f i;
            match r with
            | Some x => Some (Some x)
            | None => search_up n' (i + 1) f
            end
  end.

Fixpoint search_down {R : Type} (n : nat) (i : Z) (f : Z -> option (option R))
  : option (option R) :=
  match n with
  | O => Some None
  | S n' => r ← f i;
            match r with
            | Some x => Some (Some x)
            | None => search_down n' (i - 1) f
            end
  end.

(** ** Tactics *)

(** Decide the boolean integer tests of the goal and of the hypotheses. *)
Ltac zcase :=
  repeat match goal with
  | |- context [?a =? ?b] => destruct (Z.eqb_spec a b)
  | |- context [?a <? ?b] => destruct (Z.ltb_spec a b)
  | |- context [?a <=? ?b] => destruct (Z.leb_spec a b)
  | H : context [?a =? ?b] |- _ => destruct (Z.eqb_spec a b)
  | H : context [?a <? ?b] |- _ => destruct (Z.ltb_spec a b)
  | H : context [?a <=? ?b] |- _ => destruct (Z.leb_spec a b)
  end.

Create HintDb yacl discriminated.

(** ** Loop rules *)

Lemma for_up_inv {St : Type} (P : Z -> St -> Prop) (f : Z -> St -> option St) n i s :
  P i s ->
  (forall k t, i <= k < i + Z.of_nat n -> P k t ->
     exists t', f k t = Some t' /\ P (k + 1) t') ->
  exists s', for_up n i f s = Some s' /\ P (i + Z.of_nat n) s'.
Proof.
  revert i s. induction n as [|n IH]; intros i s Hs Hstep; cbn [for_up for_down].
  - exists s. split; [done|]. by rewrite Z.add_0_r.
  - destruct (Hstep i s) as (s1 & -> & H1); [lia|done|]. simpl.
    destruct (IH (i + 1) s1) as (s2 & -> & H2); [done| |].
    + intros k t Hk Ht. apply Hstep; [lia|done].
    + exists s2. split; [done|].
      replace (i + Z.of_nat (S n)) with (i + 1 + Z.of_nat n) by lia. done.
Qed.

Lemma for_down_inv {St : Type} (P : Z -> St -> Prop) (f : Z -> St -> option St) n i s :
  P i s ->
  (forall k t, i - Z.of_nat n < k <= i -> P k t ->
     exists t', f k t = Some t' /\ P (k - 1) t') ->
  exists s', for_down n i f s = Some s' /\ P (i - Z.of_nat n) s'.
Proof.
  revert i s. induction n as [|n IH]; intros i s Hs Hstep; cbn [for_up for_down].
  - exists s. split; [done|]. by rewrite Z.sub_0_r.
  - destruct (Hstep i s) as (s1 & -> & H1); [lia|done|]. simpl.
    destruct (IH (i - 1) s1) as (s2 & -> & H2); [done| |].
    + intros k t Hk Ht. apply Hstep; [lia|done].
    + exists s2. split; [done|].
      replace (i - Z.of_nat (S n)) with (i - 1 - Z.of_nat n) by lia. done.
Qed.

(** A search whose body is defined on the whole range returns the first hit,
    or [None] when every index was passed over. *)
Lemma search_up_spec {R : Type} (f : Z -> option (option R)) (g : Z -> option R) n i :
  (forall k, i <= k < i + Z.of_nat n -> f k = Some (g k)) ->
  (search_up n i f = Some None /\ forall k, i <= k < i + Z.of_nat n -> g k = None)
  \/ (exists k r, i <= k < i + Z.of_nat n /\ g k = Some r /\
        search_up n i f = Some (Some r) /\ forall k', i <= k' < k -> g k' = None).
Proof.
  revert i. induction n as [|n IH]; intros i Hf; cbn [search_up].
  - left. split; [done|lia].
  - rewrite Hf by lia. cbn. destruct (g i) as [r|] eqn:E.
    + right. exists i, r. split; [lia|]. split; [done|]. split; [done|lia].
    + destruct (IH (i + 1)) as [[H1 H2]|(k & r & Hk & H1 & H2 & H3)].
      * intros k Hk. apply Hf. lia.
      * left. split; [done|]. intros k Hk.
        destruct (Z.eq_dec k i) as [->|]; [done|apply H2; lia].
      * right. exists k, r. split; [lia|]. split; [done|]. split; [done|].
        intros k' Hk'. destruct (Z.eq_dec k' i) as [->|]; [done|apply H3; lia].
Qed.

(** A search for an index that satisfies a test, with a fixed answer. *)
Lemma search_up_test {R : Type} (f : Z -> option (option R)) (c : Z -> bool) (r : R) n i :
  (forall k, i <= k < i + Z.of_nat n -> f k = Some (if c k then Some r else None)) ->
  (search_up n i f = Some None /\ forall k, i <= k < i + Z.of_nat n -> c k = false)
  \/ (search_up n i f = Some (Some r) /\ exists k, i <= k < i + Z.of_nat n /\ c k = true).
Proof.
  intros Hf. destruct (search_up_spec f (fun k => if c k then Some r else None) n i Hf)
    as [[H1 H2]|(k & r' & Hk & Hg & H1 & _)].
  - left. split; [done|]. intros k Hk. specialize (H2 k Hk). by destruct (c k).
  - right. destruct (c k) eqn:E; [|done]. injection Hg as <-. eauto.
Qed.

Lemma search_down_spec {R : Type} (f : Z -> option (option R)) (g : Z -> option R) n i :
  (forall k, i - Z.of_nat n < k <= i -> f k = Some (g k)) ->
  (search_down n i f = Some None /\ forall k, i - Z.of_nat n < k <= i -> g k = None)
  \/ (exists k r, i - Z.of_nat n < k <= i /\ g k = Some r /\
        search_down n i f = Some (Some r) /\ forall k', k < k' <= i -> g k' = None).
Proof.
  revert i. induction n as [|n IH]; intros i Hf; cbn [search_down].
  - left. split; [done|lia].
  - rewrite Hf by lia. cbn. destruct (g i) as [r|] eqn:E.
    + right. exists i, r. split; [lia|]. split; [done|]. split; [done|lia].
    + destruct (IH (i - 1)) as [[H1 H2]|(k & r & Hk & H1 & H2 & H3)].
      * intros k Hk. apply Hf. lia.
      * left. split; [done|]. intros k Hk.
        destruct (Z.eq_dec k i) as [->|]; [done|apply H2; lia].
      * right. exists k, r. split; [lia|]. split; [done|]. split; [done|].
        intros k' Hk'. destruct (Z.eq_dec k' i) as [->|]; [done|apply H3; lia].
Qed.

(** ** Vectors of integers, read totally

    [blk l i] is the [i]-th element, [0] out of range: the reading the
    specifications use. *)
Definition blk (l : list Z) (i : Z) : Z := default 0 (vget l i).

Lemma vget_Some_iff {A} (l : list A) i :
  (exists x, vget l i = Some x) <-> 0 <= i < vsize l.
Proof.
  unfold vget, vsize. destruct (Z.leb_spec 0 i) as [Hi|Hi].
  - change (is_Some (l !! Z.to_nat i) <-> 0 <= i < Z.of_nat (length l)).
    rewrite lookup_lt_is_Some. lia.
  - split; [by intros [? ?]|lia].
Qed.

Lemma vget_blk (l : list Z) i : 0 <= i < vsize l -> vget l i = Some (blk l i).
Proof.
  intros Hi. destruct (proj2 (vget_Some_iff l i) Hi) as [x Hx].
  unfold blk. by rewrite Hx.
Qed.

Lemma vget_None {A} (l : list A) i : i < 0 \/ vsize l <= i -> vget l i = None.
Proof.
  intros Hi. destruct (vget l i) eqn:E; [|done].
  assert (exists x, vget l i = Some x) as H by eauto.
  apply vget_Some_iff in H. lia.
Qed.

Lemma blk_outside (l : list Z) i : i < 0 \/ vsize l <= i -> blk l i = 0.
Proof. intros Hi. unfold blk. by rewrite vget_None. Qed.

Lemma vget_nat {A} (l : list A) (i : nat) : l !! i = vget l (Z.of_nat i).
Proof. unfold vget. rewrite (proj2 (Z.leb_le _ _)) by lia. by rewrite Nat2Z.id. Qed.

Lemma vset_Some {A} (l : list A) i x :
  0 <= i < vsize l -> vset l i x = Some (<[Z.to_nat i := x]> l).
Proof.
  unfold vset, vsize. intros Hi.
  destruct (Z.leb_spec 0 i), (Z.ltb_spec i (Z.of_nat (length l))); simpl; try done; lia.
Qed.

Lemma vset_None {A} (l : list A) i x :
  i < 0 \/ vsize l <= i -> vset l i x = None.
Proof.
  unfold vset, vsize. intros Hi.
  destruct (Z.leb_spec 0 i), (Z.ltb_spec i (Z.of_nat (length l))); simpl; try done; lia.
Qed.

Lemma blk_insert (l : list Z) i x j :
  0 <= i < vsize l ->
  blk (<[Z.to_nat i := x]> l) j = if j =? i then x else blk l j.
Proof.
  unfold blk, vget, vsize. intros Hi. destruct (Z.eqb_spec j i) as [->|Hne].
  - destruct (Z.leb_spec 0 i); [|lia].
    rewrite list_lookup_insert_eq by lia. done.
  - destruct (Z.leb_spec 0 j); [|done].
    rewrite list_lookup_insert_ne by lia. done.
Qed.

Lemma vsize_insert {A} (l : list A) i x : vsize (<[i := x]> l) = vsize l.
Proof. unfold vsize. by rewrite length_insert. Qed.

Lemma vsize_app {A} (l1 l2 : list A) : vsize (l1 ++ l2) = vsize l1 + vsize l2.
Proof. unfold vsize. rewrite length_app. lia. Qed.

Lemma vsize_nonneg {A} (l : list A) : 0 <= vsize l.
Proof. unfold vsize. lia. Qed.

Lemma vsize_replicate {A} n (x : A) : vsize (replicate n x) = Z.of_nat n.
Proof. unfold vsize. by rewrite length_replicate. Qed.

Lemma vsize_nil_iff {A} (l : list A) : vsize l = 0 <-> l = [].
Proof. unfold vsize. destruct l; simpl; split; try done; lia. Qed.

Lemma blk_app (l1 l2 : list Z) j :
  blk (l1 ++ l2) j = if j <? vsize l1 then blk l1 j else blk l2 (j - vsize l1).
Proof.
  unfold blk, vget, vsize. destruct (Z.ltb_spec j (Z.of_nat (length l1))).
  - destruct (Z.leb_spec 0 j); [|done]. rewrite lookup_app_l by lia. done.
  - destruct (Z.leb_spec 0 j); [|lia].
    destruct (Z.leb_spec 0 (j - Z.of_nat (length l1))); [|lia].
    rewrite lookup_app_r by lia.
    by replace (Z.to_nat j - length l1)%nat
      with (Z.to_nat (j - Z.of_nat (length l1))) by lia.
Qed.

Lemma blk_replicate n x j :
  0 <= j < Z.of_nat n -> blk (replicate n x) j = x.
Proof.
  intros Hj. unfold blk, vget. destruct (Z.leb_spec 0 j); [|lia].
  by rewrite lookup_replicate_2 by lia.
Qed.

Lemma blk_map (f : Z -> Z) (l : list Z) j :
  0 <= j < vsize l -> blk (f <$> l) j = f (blk l j).
Proof.
  intros Hj. pose proof (vget_blk l j Hj) as H. unfold blk in *. unfold vget in *.
  destruct (Z.leb_spec 0 j); [|lia]. rewrite list_lookup_fmap, H. done.
Qed.

Lemma vsize_map {A B} (f : A -> B) (l : list A) : vsize (f <$> l) = vsize l.
Proof. unfold vsize. by rewrite length_fmap. Qed.

Lemma blk_take (l : list Z) n j :
  0 <= j < Z.of_nat n -> blk (take n l) j = blk l j.
Proof.
  intros Hj. unfold blk, vget. destruct (Z.leb_spec 0 j); [|done].
  by rewrite lookup_take_lt by lia.
Qed.

Lemma vsize_resize {A} (l : list A) n x : 0 <= n -> vsize (vresize l n x) = n.
Proof.
  intros Hn. unfold vresize, vsize. rewrite length_app, length_take, length_replicate. lia.
Qed.

Lemma blk_resize (l : list Z) n x j :
  0 <= j < n -> blk (vresize l n x) j = if j <? vsize l then blk l j else x.
Proof.
  intros Hj. unfold vresize. rewrite blk_app.
  assert (E : vsize (take (Z.to_nat n) l) = Z.min n (vsize l)).
  { unfold vsize. rewrite length_take. lia. }
  rewrite E. destruct (Z.ltb_spec j (Z.min n (vsize l))), (Z.ltb_spec j (vsize l));
    try lia.
  - apply blk_take. lia.
  - apply blk_replicate. unfold vsize in *. lia.
Qed.

(** Extensionality: a vector is its size and its elements. *)
Lemma blk_ext (l1 l2 : list Z) :
  vsize l1 = vsize l2 ->
  (forall j, 0 <= j < vsize l1 -> blk l1 j = blk l2 j) ->
  l1 = l2.
Proof.
  intros Hlen H. apply list_eq_same_length with (n := length l1); [| done |].
  { unfold vsize in Hlen. lia. }
  intros i x y Hi Hx Hy. specialize (H (Z.of_nat i)).
  unfold blk, vget, vsize in H.
  destruct (Z.leb_spec 0 (Z.of_nat i)); [|lia].
  rewrite Nat2Z.id, Hx, Hy in H. simpl in H. apply H. lia.
Qed.

Lemma blk_Forall (P : Z -> Prop) (l : list Z) :
  Forall P l <-> forall j, 0 <= j < vsize l -> P (blk l j).
Proof.
  rewrite Forall_lookup. split.
  - intros H j Hj. apply (H (Z.to_nat j)).
    pose proof (vget_blk l j Hj) as E. unfold vget in E.
    destruct (Z.leb_spec 0 j); [done|lia].
  - intros H i x Hx. specialize (H (Z.of_nat i)).
    assert (Hi : (i < length l)%nat) by (by eapply lookup_lt_Some).
    unfold blk, vget, vsize in H. destruct (Z.leb_spec 0 (Z.of_nat i)); [|lia].
    rewrite Nat2Z.id, Hx in H. apply H. lia.
Qed.

#[export] Hint Resolve vsize_nonneg : yacl.

(** Run the checked vector accesses of the goal whose index is in range. *)
Ltac vstep :=
  repeat (first
    [ rewrite vget_blk by (rewrite ?vsize_insert; lia)
    | rewrite vset_Some by (rewrite ?vsize_insert; lia) ];
    cbn [mbind option_bind]).

(** ** Bits of bounded integers *)

Lemma testbit_high w x j : 0 <= x < 2 ^ w -> w <= j -> Z.testbit x j = false.
Proof.
  intros Hx Hj.
  destruct (Z.le_gt_cases 0 w) as [Hw|Hw];
    [|rewrite Z.pow_neg_r in Hx by lia; lia].
  rewrite <- (Z.mod_small x (2 ^ w)) by done.
  apply Z.mod_pow2_bits_high. lia.
Qed.

(** An integer whose bits vanish from [w] on is a [w]-bit integer. *)
Lemma bits_bound w x :
  0 <= w -> 0 <= x -> (forall j, w <= j -> Z.testbit x j = false) -> x < 2 ^ w.
Proof.
  intros Hw Hx H.
  assert (x = x mod 2 ^ w) as ->; [|apply Z.mod_pos_bound; lia].
  apply Z.bits_inj'. intros j Hj. destruct (Z.lt_ge_cases j w).
  - by rewrite Z.mod_pow2_bits_low by lia.
  - rewrite Z.mod_pow2_bits_high by lia. by apply H.
Qed.

Lemma bits_eq w x y :
  0 <= x < 2 ^ w -> 0 <= y < 2 ^ w ->
  (forall j, 0 <= j < w -> Z.testbit x j = Z.testbit y j) -> x = y.
Proof.
  intros Hx Hy H. apply Z.bits_inj'. intros j Hj.
  destruct (Z.lt_ge_cases j w); [apply H; lia|].
  by rewrite !(testbit_high w) by done.
Qed.

Lemma testbit_ones w j :
  0 <= w -> Z.testbit (Z.ones w) j = (0 <=? j) && (j <? w).
Proof.
  intros Hw. destruct (Z.leb_spec 0 j) as [Hj|Hj].
  - destruct (Z.ltb_spec j w); simpl.
    + apply Z.ones_spec_low. lia.
    + apply Z.ones_spec_high. lia.
  - rewrite Z.testbit_neg_r by done. done.
Qed.

Lemma testbit_mod w x j :
  0 <= w -> Z.testbit (x mod 2 ^ w) j = (j <? w) && Z.testbit x j.
Proof.
  intros Hw. destruct (Z.ltb_spec j w); simpl.
  - destruct (Z.le_gt_cases 0 j).
    + by rewrite Z.mod_pow2_bits_low by lia.
    + by rewrite !Z.testbit_neg_r by lia.
  - destruct (Z.le_gt_cases 0 j); [|lia].
    apply Z.mod_pow2_bits_high. lia.
Qed.

Lemma testbit_pow2 n j : 0 <= n -> Z.testbit (2 ^ n) j = (j =? n).
Proof.
  intros Hn. destruct (Z.eqb_spec j n) as [->|Hne].
  - by apply Z.pow2_bits_true.
  - by apply Z.pow2_bits_false.
Qed.

Lemma testbit_shiftl x n j :
  0 <= j -> Z.testbit (Z.shiftl x n) j = Z.testbit x (j - n).
Proof. apply Z.shiftl_spec. Qed.

Lemma testbit_shiftr x n j :
  0 <= j -> Z.testbit (Z.shiftr x n) j = Z.testbit x (j + n).
Proof. apply Z.shiftr_spec. Qed.

(** A nonnegative integer is zero when none of its bits is set. *)
Lemma zero_bits x : (forall j, 0 <= j -> Z.testbit x j = false) -> x = 0.
Proof.
  intros H. apply Z.bits_inj'. intros j Hj. rewrite Z.bits_0. by apply H.
Qed.

Lemma nonzero_bit w x :
  0 <= x < 2 ^ w -> x <> 0 -> exists j, 0 <= j < w /\ Z.testbit x j = true.
Proof.
  intros Hx Hne. exists (Z.log2 x). split.
  - split; [apply Z.log2_nonneg|]. apply Z.log2_lt_pow2; lia.
  - apply Z.bit_log2. lia.
Qed.

Lemma div_mod_pos a w : 0 < w -> a = w * (a / w) + a mod w /\ 0 <= a mod w < w.
Proof.
  intros Hw. split; [apply Z.div_mod; lia|by apply Z.mod_pos_bound].
Qed.

(** The quotient and remainder of a position written as block and offset. *)
Lemma div_mod_split w i j :
  0 <= j < w -> (i * w + j) / w = i /\ (i * w + j) mod w = j.
Proof.
  intros Hj. split.
  - rewrite Z.div_add_l by lia. rewrite Z.div_small by lia. lia.
  - rewrite Z.add_comm, Z.mod_add by lia. by apply Z.mod_small.
Qed.

(** Rewriting the bits of an integer expression. *)
Create Rewrite HintDb zbits.
#[export] Hint Rewrite Z.lor_spec Z.land_spec Z.lxor_spec Z.ldiff_spec Z.bits_0 : zbits.
#[export] Hint Rewrite testbit_shiftl testbit_shiftr testbit_mod testbit_ones testbit_pow2
  using lia : zbits.
