(* ===== verification/BitBlock.v ===== *)
(** The block layer of [yacl::dynamic_bitset] (src/yacl/base/dynamic_bitset.h):
    the arithmetic of one unsigned block of [W] bits - masks, range updates,
    population count and trailing-zero count - at its machine width.

    [W] is [bits_per_block]. Blocks narrower than [int] are promoted to [int]
    before every operator, wider ones wrap at [2^W]; [arith] is that rule and
    [block_type] is the cast back to the block type. *)

From Stdlib Require Import ZArith Lia ZifyBool Bool.
From stdpp Require Import base numbers list option.
From S2P Require Import Prelude.

Local Open Scope Z_scope.

(** The block types the header admits
    ([is_dynamic_bitset_block_type]: an unsigned integer type or [uint128_t]). *)
Class BlockType (W : Z) : Prop :=
  block_width : W = 8 \/ W = 16 \/ W = 32 \/ W = 64 \/ W = 128.

#[export] Instance block_uint8 : BlockType 8 := ltac:(unfold BlockType; lia).
#[export] Instance block_uint16 : BlockType 16 := ltac:(unfold BlockType; lia).
#[export] Instance block_uint32 : BlockType 32 := ltac:(unfold BlockType; lia).
#[export] Instance block_uint64 : BlockType 64 := ltac:(unfold BlockType; lia).
#[export] Instance block_uint128 : BlockType 128 := ltac:(unfold BlockType; lia).

(** [std::numeric_limits<size_type>::max()]. *)
Definition npos : Z := 2 ^ 64 - 1.

Section Block.
Context (W : Z).

(** [block_type(x)], [static_cast<block_type>(x)]. *)
Definition block_type (x : Z) : Z := x mod 2 ^ W.

(** The value of an arithmetic expression on blocks before it is cast back:
    [int] arithmetic for 8 and 16 bits, wrap-around arithmetic otherwise. *)
Definition arith (x : Z) : Z := if W <? 32 then x else x mod 2 ^ W.

Definition shl (x s : Z) : Z := arith (Z.shiftl x s).
Definition shr (x s : Z) : Z := Z.shiftr x s.
Definition bnot (x : Z) : Z := arith (Z.lnot x).

Definition zero_block : Z := block_type 0.
Definition one_block : Z := block_type (bnot zero_block).
Definition block_last_bit_index : Z := W - 1.

Definition blocks_required (nbits : Z) : Z :=
  nbits / W + (if 0 <? nbits mod W then 1 else 0).

Definition block_index (pos : Z) : Z := pos / W.
Definition bit_index (pos : Z) : Z := pos mod W.

Definition bit_mask (pos : Z) : Z := block_type (shl (block_type 1) (bit_index pos)).

Definition bit_mask_range (first last : Z) : Z :=
  let first := bit_index first in
  let last := bit_index last in
  if last =? block_last_bit_index then block_type (shl one_block first)
  else block_type (Z.lxor (arith (shl (block_type 1) (last + 1) - 1))
                          (arith (shl (block_type 1) first - 1))).

Definition set_block_bits (block first last : Z) (val : bool) : Z :=
  if val then Z.lor block (bit_mask_range first last)
  else Z.land block (block_type (bnot (bit_mask_range first last))).

Definition flip_block_bits (block first last : Z) : Z :=
  Z.lxor block (bit_mask_range first last).

(** The compiler builtins: number of one bits and number of trailing zero bits
    of a [k]-bit integer (the latter undefined for 0). *)
Fixpoint popcount_bits (k : nat) (x : Z) : Z :=
  match k with
  | O => 0
  | S k' => popcount_bits k' x + Z.b2z (Z.testbit x (Z.of_nat k'))
  end.

Definition builtin_popcount (k x : Z) : Z := popcount_bits (Z.to_nat k) x.

Fixpoint ctz_from (fuel : nat) (i x : Z) : option Z :=
  match fuel with
  | O => None
  | S fuel' => if Z.testbit x i then Some i else ctz_from fuel' (i + 1) x
  end.

Definition builtin_ctz (k x : Z) : option Z := ctz_from (Z.to_nat k) 0 x.

(** [absl::Uint128High64] and [absl::Uint128Low64]. *)
Definition Uint128High64 (x : Z) : Z := Z.shiftr x 64.
Definition Uint128Low64 (x : Z) : Z := x mod 2 ^ 64.

(** [block_count(block)] as compiled with the GCC builtins. *)
Definition block_count (block : Z) : Z :=
  if block =? zero_block then 0
  else if W <=? 16 then builtin_popcount 32 (block mod 2 ^ 16)
  else if W <=? 32 then builtin_popcount 64 (block mod 2 ^ 32)
  else if W <=? 64 then builtin_popcount 64 (block mod 2 ^ 64)
  else builtin_popcount 64 (Uint128High64 block)
       + builtin_popcount 64 (Uint128Low64 block).

(** [block_count(block, nbits)]: the last branch counts [block] itself. *)
Definition block_count_low (block nbits : Z) : option Z :=
  assert! nbits <=? W;
  let shifted_block := block_type (shl block (W - nbits)) in
  if shifted_block =? zero_block then Some 0
  else if W <=? 16 then Some (builtin_popcount 32 (shifted_block mod 2 ^ 16))
  else if W <=? 32 then Some (builtin_popcount 64 (shifted_block mod 2 ^ 32))
  else if W <=? 64 then Some (builtin_popcount 64 (shifted_block mod 2 ^ 64))
  else Some (builtin_popcount 64 (Uint128High64 block)
             + builtin_popcount 64 (Uint128Low64 block)).

(** The portable loop of [block_count], used without the builtins. *)
Fixpoint block_count_loop (n : nat) (block mask count : Z) : Z :=
  match n with
  | O => count
  | S n' => block_count_loop n' block (block_type (shl mask 1))
              (count + (if negb (Z.land block mask =? zero_block) then 1 else 0))
  end.

Definition block_count_portable (block : Z) : Z :=
  if block =? zero_block then 0
  else block_count_loop (Z.to_nat W) block 1 0.

(** [count_block_trailing_zero] as compiled with the GCC builtins. *)
Definition count_block_trailing_zero (block : Z) : option Z :=
  assert! negb (block =? zero_block);
  if W <=? 16 then builtin_ctz 32 (block mod 2 ^ 16)
  else if W <=? 32 then builtin_ctz 64 (block mod 2 ^ 32)
  else if W <=? 64 then builtin_ctz 64 (block mod 2 ^ 64)
  else if Uint128Low64 block =? 0
  then c ← builtin_ctz 64 (Uint128High64 block); Some (c + 64)
  else builtin_ctz 64 (Uint128Low64 block).

(** The portable loop of [count_block_trailing_zero]; falling out of the loop
    is the [assert(false)]. *)
Fixpoint trailing_zero_loop (n : nat) (block i mask : Z) : option Z :=
  match n with
  | O => None
  | S n' => if negb (Z.land block mask =? zero_block) then Some i
            else trailing_zero_loop n' block (i + 1) (block_type (shl mask 1))
  end.

Definition count_block_trailing_zero_portable (block : Z) : option Z :=
  assert! negb (block =? zero_block);
  trailing_zero_loop (Z.to_nat W) block 0 (block_type 1).
End Block.

(** ** Facts about one block *)

Section BlockFacts.
Context (W : Z) {HW : BlockType W}.

Lemma W_pos : 0 < W.
Proof. destruct HW as [-> | [-> | [-> | [-> | ->]]]]; lia. Qed.

Lemma W_le : 8 <= W <= 128.
Proof. destruct HW as [-> | [-> | [-> | [-> | ->]]]]; lia. Qed.

Lemma W_nonneg : 0 <= W.
Proof. pose proof W_pos. lia. Qed.

Lemma pow_W_pos : 0 < 2 ^ W.
Proof. pose proof W_pos. apply Z.pow_pos_nonneg; lia. Qed.

Lemma testbit_block_type x j :
  Z.testbit (block_type W x) j = (j <? W) && Z.testbit x j.
Proof. apply testbit_mod, W_nonneg. Qed.

Lemma block_type_range x : 0 <= block_type W x < 2 ^ W.
Proof. apply Z.mod_pos_bound, pow_W_pos. Qed.

Lemma block_type_small x : 0 <= x < 2 ^ W -> block_type W x = x.
Proof. apply Z.mod_small. Qed.

(** Below the block width the promotion rule is invisible. *)
Lemma testbit_arith x j : j < W -> Z.testbit (arith W x) j = Z.testbit x j.
Proof.
  intros Hj. unfold arith. destruct (W <? 32); [done|].
  rewrite testbit_mod by apply W_nonneg. by destruct (Z.ltb_spec j W); [|lia].
Qed.

Lemma block_type_arith x : block_type W (arith W x) = block_type W x.
Proof.
  apply Z.bits_inj'. intros j Hj. rewrite !testbit_block_type.
  destruct (Z.ltb_spec j W); simpl; [|done]. by apply testbit_arith.
Qed.

Lemma zero_block_eq : zero_block W = 0.
Proof. apply block_type_small. pose proof pow_W_pos. lia. Qed.

Lemma testbit_one_block j :
  Z.testbit (one_block W) j = (0 <=? j) && (j <? W).
Proof.
  unfold one_block, bnot. rewrite block_type_arith, testbit_block_type, zero_block_eq.
  destruct (Z.leb_spec 0 j).
  - rewrite Z.lnot_spec, Z.bits_0 by done. by rewrite andb_true_r.
  - rewrite Z.testbit_neg_r by done. by rewrite andb_false_r.
Qed.

Lemma one_block_ones : one_block W = Z.ones W.
Proof.
  apply Z.bits_inj'. intros j Hj.
  by rewrite testbit_one_block, testbit_ones by apply W_nonneg.
Qed.

Lemma one_block_range : 0 <= one_block W < 2 ^ W.
Proof. apply block_type_range. Qed.

Lemma testbit_shl_cast x s j :
  0 <= j -> Z.testbit (block_type W (shl W x s)) j = (j <? W) && Z.testbit x (j - s).
Proof.
  intros Hj. unfold shl. rewrite block_type_arith, testbit_block_type.
  by rewrite testbit_shiftl by done.
Qed.

Lemma testbit_bnot_cast x j :
  0 <= j -> Z.testbit (block_type W (bnot W x)) j = (j <? W) && negb (Z.testbit x j).
Proof.
  intros Hj. unfold bnot. rewrite block_type_arith, testbit_block_type.
  by rewrite Z.lnot_spec by done.
Qed.

Lemma bit_index_range pos : 0 <= bit_index W pos < W.
Proof. apply Z.mod_pos_bound, W_pos. Qed.

Lemma block_type_1 : block_type W 1 = 1.
Proof.
  apply block_type_small. pose proof W_pos.
  split; [lia|]. apply Z.pow_gt_1; lia.
Qed.

(** [bit_mask(pos)] has the single bit [bit_index(pos)]. *)
Lemma testbit_bit_mask pos j : Z.testbit (bit_mask W pos) j = (j =? bit_index W pos).
Proof.
  pose proof (bit_index_range pos). unfold bit_mask. rewrite block_type_1.
  destruct (Z.le_gt_cases 0 j) as [Hj|Hj].
  - rewrite testbit_shl_cast by done.
    change 1 with (2 ^ 0). rewrite testbit_pow2 by lia.
    destruct (Z.ltb_spec j W), (Z.eqb_spec (j - bit_index W pos) 0),
      (Z.eqb_spec j (bit_index W pos)); simpl; try done; lia.
  - rewrite Z.testbit_neg_r by done. destruct (Z.eqb_spec j (bit_index W pos)); [lia|done].
Qed.

Lemma bit_mask_bound pos : 0 <= bit_mask W pos < 2 ^ W.
Proof. apply block_type_range. Qed.

Lemma testbit_shl1_pred n j :
  0 <= n < W -> 0 <= j < W ->
  Z.testbit (arith W (shl W (block_type W 1) n - 1)) j = (j <? n).
Proof.
  intros Hn Hj. rewrite block_type_1, testbit_arith by lia.
  assert (shl W 1 n = 2 ^ n) as ->.
  { unfold shl, arith. rewrite Z.shiftl_1_l. destruct (W <? 32); [done|].
    apply Z.mod_small. split; [apply Z.pow_nonneg; lia|].
    apply Z.pow_lt_mono_r; lia. }
  rewrite Z.sub_1_r, <- Z.ones_equiv, testbit_ones by lia.
  by destruct (Z.leb_spec 0 j); [|lia].
Qed.

(** [bit_mask(first, last)] has the bits [first..last] of a block. *)
Lemma testbit_bit_mask_range first last j :
  0 <= first <= last -> last < W ->
  Z.testbit (bit_mask_range W first last) j = (first <=? j) && (j <=? last).
Proof.
  intros Hf Hl. unfold bit_mask_range, bit_index, block_last_bit_index.
  rewrite !Z.mod_small by lia.
  destruct (Z.le_gt_cases 0 j) as [Hj|Hj].
  2: { assert (forall x, Z.testbit x j = false) as -> by (intros; by rewrite Z.testbit_neg_r).
       destruct (Z.leb_spec first j); [lia|done]. }
  destruct (Z.eqb_spec last (W - 1)) as [->|Hne].
  - rewrite testbit_shl_cast, testbit_one_block by done. zcase; simpl; try done; lia.
  - rewrite testbit_block_type, Z.lxor_spec.
    destruct (Z.ltb_spec j W); simpl.
    + rewrite !testbit_shl1_pred by lia. zcase; simpl; try done; lia.
    + zcase; simpl; try done; lia.
Qed.

Lemma bit_mask_range_bound first last : 0 <= bit_mask_range W first last < 2 ^ W.
Proof. unfold bit_mask_range. destruct (_ =? _); apply block_type_range. Qed.

(** Bitwise combinations of blocks are blocks. *)
Lemma lor_range x y :
  0 <= x < 2 ^ W -> 0 <= y < 2 ^ W -> 0 <= Z.lor x y < 2 ^ W.
Proof.
  intros Hx Hy. assert (0 <= Z.lor x y) by (apply Z.lor_nonneg; lia).
  split; [done|]. apply bits_bound; [apply W_nonneg|done|].
  intros j Hj. by rewrite Z.lor_spec, !(testbit_high W) by done.
Qed.

Lemma land_range x y : 0 <= x < 2 ^ W -> 0 <= Z.land x y < 2 ^ W.
Proof.
  intros Hx. assert (0 <= Z.land x y) by (apply Z.land_nonneg; lia).
  split; [done|]. apply bits_bound; [apply W_nonneg|done|].
  intros j Hj. by rewrite Z.land_spec, (testbit_high W x) by done.
Qed.

Lemma lxor_range x y :
  0 <= x < 2 ^ W -> 0 <= y < 2 ^ W -> 0 <= Z.lxor x y < 2 ^ W.
Proof.
  intros Hx Hy. assert (0 <= Z.lxor x y) by (apply Z.lxor_nonneg; lia).
  split; [done|]. apply bits_bound; [apply W_nonneg|done|].
  intros j Hj. by rewrite Z.lxor_spec, !(testbit_high W) by done.
Qed.

Lemma shr_range x s : 0 <= s -> 0 <= x < 2 ^ W -> 0 <= shr x s < 2 ^ W.
Proof.
  intros Hs Hx. assert (0 <= shr x s) by (apply Z.shiftr_nonneg; lia).
  split; [done|]. apply bits_bound; [apply W_nonneg|done|].
  intros j Hj. pose proof W_pos. unfold shr.
  rewrite testbit_shiftr by lia. by rewrite (testbit_high W) by lia.
Qed.

Lemma set_block_bits_range block first last val :
  0 <= block < 2 ^ W -> 0 <= set_block_bits W block first last val < 2 ^ W.
Proof.
  intros H. unfold set_block_bits. destruct val;
    [apply lor_range; [done|apply bit_mask_range_bound]|by apply land_range].
Qed.

Lemma testbit_set_block_bits block first last val j :
  0 <= first <= last -> last < W -> 0 <= j < W ->
  Z.testbit (set_block_bits W block first last val) j
  = if (first <=? j) && (j <=? last) then val else Z.testbit block j.
Proof.
  intros Hf Hl Hj. unfold set_block_bits. destruct val.
  - rewrite Z.lor_spec, testbit_bit_mask_range by lia.
    destruct ((first <=? j) && (j <=? last)); by rewrite ?orb_true_r, ?orb_false_r.
  - rewrite Z.land_spec, testbit_bnot_cast, testbit_bit_mask_range by lia.
    destruct (Z.ltb_spec j W); [|lia]. simpl.
    destruct ((first <=? j) && (j <=? last)); simpl; by rewrite ?andb_true_r, ?andb_false_r.
Qed.

Lemma flip_block_bits_range block first last :
  0 <= block < 2 ^ W -> 0 <= flip_block_bits W block first last < 2 ^ W.
Proof. intros H. apply lxor_range; [done|apply bit_mask_range_bound]. Qed.

Lemma testbit_flip_block_bits block first last j :
  0 <= first <= last -> last < W ->
  Z.testbit (flip_block_bits W block first last) j
  = if (first <=? j) && (j <=? last) then negb (Z.testbit block j) else Z.testbit block j.
Proof.
  intros Hf Hl. unfold flip_block_bits.
  rewrite Z.lxor_spec, testbit_bit_mask_range by lia.
  destruct ((first <=? j) && (j <=? last)); by rewrite ?xorb_true_r, ?xorb_false_r.
Qed.

(** The test [(block & mask) != 0] reads one bit. *)
Lemma land_bit_mask_test block pos :
  (Z.land block (bit_mask W pos) =? zero_block W) = negb (Z.testbit block (bit_index W pos)).
Proof.
  rewrite zero_block_eq. pose proof (bit_index_range pos).
  destruct (Z.testbit block (bit_index W pos)) eqn:E; simpl.
  - apply Z.eqb_neq. intros H0.
    assert (Z.testbit (Z.land block (bit_mask W pos)) (bit_index W pos) = false) as H1
      by (rewrite H0; apply Z.bits_0).
    rewrite Z.land_spec, E, testbit_bit_mask, Z.eqb_refl in H1. done.
  - apply Z.eqb_eq, zero_bits. intros j Hj. rewrite Z.land_spec, testbit_bit_mask.
    destruct (Z.eqb_spec j (bit_index W pos)) as [->|]; [by rewrite E|by rewrite andb_false_r].
Qed.
End BlockFacts.

#[export] Hint Resolve W_pos W_nonneg pow_W_pos block_type_range lor_range land_range
  lxor_range shr_range one_block_range bit_mask_bound set_block_bits_range
  flip_block_bits_range : yacl.

(** ** Population count and trailing zeros *)

(** [c] is the position of the lowest set bit of [x]. *)
Definition lowest_bit (x c : Z) : Prop :=
  0 <= c /\ Z.testbit x c = true /\ forall i, 0 <= i < c -> Z.testbit x i = false.

Lemma popcount_bits_ext k x y :
  (forall j, 0 <= j < Z.of_nat k -> Z.testbit x j = Z.testbit y j) ->
  popcount_bits k x = popcount_bits k y.
Proof.
  induction k as [|k IH]; intros H; [done|]. cbn [popcount_bits].
  rewrite IH, H by (intros; try apply H; lia). done.
Qed.

Lemma popcount_bits_zero k x :
  (forall j, 0 <= j < Z.of_nat k -> Z.testbit x j = false) -> popcount_bits k x = 0.
Proof.
  intros H. rewrite (popcount_bits_ext k x 0).
  - clear H. induction k as [|k IH]; [done|]. cbn [popcount_bits].
    by rewrite IH, Z.bits_0.
  - intros j Hj. rewrite Z.bits_0. by apply H.
Qed.

(** Counting the low [a] bits and then the next [b]. *)
Lemma popcount_bits_split a b x :
  popcount_bits (a + b) x = popcount_bits a x + popcount_bits b (Z.shiftr x (Z.of_nat a)).
Proof.
  induction b as [|b IH]; [rewrite Nat.add_0_r; cbn; lia|].
  rewrite Nat.add_succ_r. cbn [popcount_bits]. rewrite IH.
  rewrite testbit_shiftr by lia.
  replace (Z.of_nat b + Z.of_nat a) with (Z.of_nat (a + b)) by lia. lia.
Qed.

Lemma popcount_bits_wider k k' w x :
  0 <= x < 2 ^ w -> w <= Z.of_nat k -> (k <= k')%nat ->
  popcount_bits k' x = popcount_bits k x.
Proof.
  intros Hx Hw Hk. replace k' with (k + (k' - k))%nat by lia.
  rewrite popcount_bits_split, (popcount_bits_zero (k' - k)); [lia|].
  intros j Hj. rewrite testbit_shiftr by lia. apply (testbit_high w); [done|lia].
Qed.

Lemma popcount_bits_bound k x : 0 <= popcount_bits k x <= Z.of_nat k.
Proof.
  induction k as [|k IH]; [done|]. cbn [popcount_bits].
  destruct (Z.testbit x (Z.of_nat k)); simpl Z.b2z; lia.
Qed.

Lemma ctz_from_spec fuel i x w :
  0 <= i -> 0 <= x < 2 ^ w -> x <> 0 -> w <= i + Z.of_nat fuel ->
  (forall j, 0 <= j < i -> Z.testbit x j = false) ->
  exists c, ctz_from fuel i x = Some c /\ lowest_bit x c.
Proof.
  revert i. induction fuel as [|fuel IH]; intros i Hi Hx Hne Hw Hlow.
  - destruct (nonzero_bit w x Hx Hne) as (j & Hj & E).
    rewrite Hlow in E by lia. done.
  - cbn [ctz_from]. destruct (Z.testbit x i) eqn:E.
    + exists i. by repeat split.
    + apply IH; [lia|done|done|lia|]. intros j Hj.
      destruct (Z.eq_dec j i) as [->|]; [done|apply Hlow; lia].
Qed.

Lemma builtin_ctz_spec k x w :
  0 <= x < 2 ^ w -> x <> 0 -> 0 <= w <= k ->
  exists c, builtin_ctz k x = Some c /\ lowest_bit x c.
Proof.
  intros Hx Hne Hw. apply (ctz_from_spec _ 0 x w); try done; lia.
Qed.

Lemma lowest_bit_unique x c c' : lowest_bit x c -> lowest_bit x c' -> c = c'.
Proof.
  intros (H1 & H2 & H3) (H1' & H2' & H3').
  destruct (Z.lt_trichotomy c c') as [H|[H|H]]; [|done|].
  - rewrite H3' in H2 by lia. done.
  - rewrite H3 in H2' by lia. done.
Qed.

Section BlockCounts.
Context (W : Z) {HW : BlockType W}.

Lemma pow2_mono a b : 0 <= a <= b -> 2 ^ a <= 2 ^ b.
Proof. intros. apply Z.pow_le_mono_r; lia. Qed.

(** Every builtin path counts the one bits of the block. *)
Lemma block_count_spec block :
  0 <= block < 2 ^ W -> block_count W block = popcount_bits (Z.to_nat W) block.
Proof.
  intros Hb. unfold block_count, builtin_popcount. rewrite (zero_block_eq W).
  destruct (Z.eqb_spec block 0) as [->|Hne].
  { symmetry. apply popcount_bits_zero. intros. apply Z.bits_0. }
  destruct HW as [-> | [-> | [-> | [-> | ->]]]]; cbn -[Z.pow popcount_bits].
  - rewrite Z.mod_small by lia. apply (popcount_bits_wider _ _ 8); lia.
  - rewrite Z.mod_small by lia. apply (popcount_bits_wider _ _ 16); lia.
  - rewrite Z.mod_small by lia. apply (popcount_bits_wider _ _ 32); lia.
  - by rewrite Z.mod_small by lia.
  - unfold Uint128High64, Uint128Low64.
    change (Z.to_nat 128) with (64 + 64)%nat. rewrite popcount_bits_split.
    change (Z.to_nat 64) with 64%nat.
    rewrite (popcount_bits_ext 64 (block mod 2 ^ 64) block); [|].
    + change (Z.of_nat 64) with 64. lia.
    + intros j Hj. by rewrite Z.mod_pow2_bits_low by lia.
Qed.

(** The mask of the portable loops at iteration [k]. *)
Lemma mask_step k :
  0 <= k -> block_type W (shl W (block_type W (2 ^ k)) 1) = block_type W (2 ^ (k + 1)).
Proof.
  intros Hk. apply Z.bits_inj'. intros j Hj.
  rewrite testbit_shl_cast, !testbit_block_type, !testbit_pow2 by (done || lia).
  zcase; simpl; try done; lia.
Qed.

Lemma land_mask_test block k :
  0 <= k < W ->
  (Z.land block (block_type W (2 ^ k)) =? zero_block W) = negb (Z.testbit block k).
Proof.
  intros Hk. pose proof (land_bit_mask_test W block k) as E.
  unfold bit_index in E. rewrite (Z.mod_small k W) in E by lia.
  rewrite <- E. do 2 f_equal.
  apply Z.bits_inj'. intros j Hj.
  rewrite testbit_bit_mask, testbit_block_type, testbit_pow2 by (done || lia).
  unfold bit_index. rewrite Z.mod_small by lia. zcase; simpl; try done; lia.
Qed.

Lemma block_count_loop_spec n block k count :
  0 <= k -> k + Z.of_nat n = W ->
  block_count_loop W n block (block_type W (2 ^ k)) count
  = count + popcount_bits n (Z.shiftr block k).
Proof.
  revert k count. induction n as [|n IH]; intros k count Hk Hn; [cbn; lia|].
  cbn [block_count_loop]. rewrite mask_step, IH, land_mask_test, negb_involutive by lia.
  change (S n) with (1 + n)%nat. rewrite popcount_bits_split.
  cbn [popcount_bits]. rewrite Z.shiftr_shiftr by lia.
  change (Z.of_nat 0) with 0. rewrite testbit_shiftr, !Z.add_0_l by lia.
  change (Z.of_nat 1) with 1. destruct (Z.testbit block k); cbv [Z.b2z]; lia.
Qed.

Lemma block_count_portable_spec block :
  0 <= block < 2 ^ W -> block_count_portable W block = popcount_bits (Z.to_nat W) block.
Proof.
  intros Hb. unfold block_count_portable. rewrite (zero_block_eq W).
  destruct (Z.eqb_spec block 0) as [->|Hne].
  { symmetry. apply popcount_bits_zero. intros. apply Z.bits_0. }
  pose proof (W_pos W). pose proof (block_count_loop_spec (Z.to_nat W) block 0 0) as E.
  change (2 ^ 0) with 1 in E. rewrite block_type_1 in E by done.
  rewrite E, Z.shiftr_0_r by lia. lia.
Qed.

Lemma trailing_zero_loop_spec n block k :
  0 <= k -> k + Z.of_nat n = W ->
  trailing_zero_loop W n block k (block_type W (2 ^ k)) = ctz_from n k block.
Proof.
  revert k. induction n as [|n IH]; intros k Hk Hn; [done|].
  cbn [trailing_zero_loop ctz_from].
  rewrite mask_step, IH, land_mask_test, negb_involutive by lia. done.
Qed.

(** The portable loop finds the lowest set bit. *)
Lemma trailing_zero_portable_spec block :
  0 <= block < 2 ^ W -> block <> 0 ->
  exists c, count_block_trailing_zero_portable W block = Some c /\ lowest_bit block c.
Proof.
  intros Hb Hne. pose proof (W_pos W). unfold count_block_trailing_zero_portable.
  rewrite (zero_block_eq W). destruct (Z.eqb_spec block 0); [done|]. simpl.
  change 1 with (2 ^ 0). rewrite trailing_zero_loop_spec by lia.
  apply (ctz_from_spec _ _ _ W); try done; lia.
Qed.

Lemma lowest_bit_mod k x c :
  0 <= k -> lowest_bit (x mod 2 ^ k) c -> lowest_bit x c.
Proof.
  intros Hk (H1 & H2 & H3). rewrite testbit_mod in H2 by done.
  apply andb_true_iff in H2 as [H4 H2]. apply Z.ltb_lt in H4.
  repeat split; [done|done|]. intros i Hi. specialize (H3 i Hi).
  rewrite testbit_mod in H3 by done. destruct (Z.ltb_spec i k); [done|lia].
Qed.

(** Every builtin path finds the lowest set bit. *)
Lemma trailing_zero_spec block :
  0 <= block < 2 ^ W -> block <> 0 ->
  exists c, count_block_trailing_zero W block = Some c /\ lowest_bit block c.
Proof.
  intros Hb Hne. unfold count_block_trailing_zero. rewrite (zero_block_eq W).
  destruct (Z.eqb_spec block 0); [done|]. cbn [negb].
  destruct HW as [-> | [-> | [-> | [-> | ->]]]]; cbn -[Z.pow builtin_ctz].
  1: rewrite Z.mod_small by lia; apply (builtin_ctz_spec _ _ 8); lia.
  1: rewrite Z.mod_small by lia; apply (builtin_ctz_spec _ _ 16); lia.
  1: rewrite Z.mod_small by lia; apply (builtin_ctz_spec _ _ 32); lia.
  1: rewrite Z.mod_small by lia; apply (builtin_ctz_spec _ _ 64); lia.
  unfold Uint128Low64, Uint128High64.
  destruct (Z.eqb_spec (block mod 2 ^ 64) 0) as [E|E].
  - destruct (builtin_ctz_spec 64 (Z.shiftr block 64) 64) as (c & -> & H1 & H2 & H3);
      [| |lia|].
    + rewrite Z.shiftr_div_pow2 by lia.
      pose proof (Z.div_mod block (2 ^ 64) ltac:(lia)). lia.
    + rewrite Z.shiftr_div_pow2 by lia.
      pose proof (Z.div_mod block (2 ^ 64) ltac:(lia)). lia.
    + exists (c + 64). split; [done|].
      rewrite testbit_shiftr in H2 by lia. repeat split; [lia|done|].
      intros i Hi. destruct (Z.lt_ge_cases i 64).
      * assert (Z.testbit (block mod 2 ^ 64) i = false) as F by (rewrite E; apply Z.bits_0).
        rewrite testbit_mod in F by lia. destruct (Z.ltb_spec i 64); [done|lia].
      * specialize (H3 (i - 64)). rewrite testbit_shiftr in H3 by lia.
        replace (i - 64 + 64) with i in H3 by lia. apply H3. lia.
  - destruct (builtin_ctz_spec 64 (block mod 2 ^ 64) 64) as (c & -> & Hc);
      [apply Z.mod_pos_bound; lia|done|lia|].
    exists c. split; [done|]. by apply (lowest_bit_mod 64).
Qed.

(** [block_count(block, nbits)] on a block whose bits from [nbits] on are 0. *)
Lemma block_count_low_spec block nbits :
  0 < nbits <= W -> 0 <= block < 2 ^ nbits ->
  block_count_low W block nbits = Some (popcount_bits (Z.to_nat W) block).
Proof.
  intros Hn Hb. pose proof (W_pos W). pose proof (pow2_mono nbits W).
  pose proof (block_count_spec block ltac:(lia)) as Hc.
  unfold block_count_low. destruct (Z.leb_spec nbits W); [|lia].
  rewrite (zero_block_eq W).
  assert (Hs : block_type W (shl W block (W - nbits)) = Z.shiftl block (W - nbits)).
  { unfold shl. rewrite block_type_arith by done. apply block_type_small.
    rewrite Z.shiftl_mul_pow2 by lia. split; [nia|].
    replace W with (nbits + (W - nbits)) at 2 by lia. rewrite Z.pow_add_r by lia.
    apply Z.mul_lt_mono_pos_r; [apply Z.pow_pos_nonneg|]; lia. }
  rewrite Hs.
  assert (Hpc : popcount_bits (Z.to_nat W) (Z.shiftl block (W - nbits))
                = popcount_bits (Z.to_nat W) block).
  { replace (Z.to_nat W) with (Z.to_nat (W - nbits) + Z.to_nat nbits)%nat at 1 by lia.
    rewrite popcount_bits_split, popcount_bits_zero.
    - rewrite Z2Nat.id, Z.shiftr_shiftl_l, Z.sub_diag, Z.shiftl_0_r by lia.
      rewrite (popcount_bits_wider (Z.to_nat nbits) (Z.to_nat W) nbits); lia.
    - intros j Hj. rewrite testbit_shiftl by lia. apply Z.testbit_neg_r. lia. }
  unfold block_count in Hc. rewrite (zero_block_eq W) in Hc.
  destruct (Z.eqb_spec (Z.shiftl block (W - nbits)) 0) as [E|E].
  { rewrite E in Hpc. rewrite <- Hpc. f_equal. symmetry.
    apply popcount_bits_zero. intros. apply Z.bits_0. }
  pose proof (block_type_range W (shl W block (W - nbits))) as Hr. rewrite Hs in Hr.
  pose proof (block_count_spec (Z.shiftl block (W - nbits)) Hr) as Hs'.
  unfold block_count in Hs'. rewrite (zero_block_eq W) in Hs'.
  destruct (Z.eqb_spec (Z.shiftl block (W - nbits)) 0); [done|].
  destruct (Z.eqb_spec block 0) as [->|]; [by rewrite Z.shiftl_0_l in E|].
  rewrite <- Hpc, <- Hs'. destruct (W <=? 16), (W <=? 32), (W <=? 64); try done.
  by rewrite Hs', Hpc, Hc.
Qed.
End BlockCounts.
