(* ===== verification/BitSet.v ===== *)
(** The operations of [yacl::dynamic_bitset<Block>]
    (src/yacl/base/dynamic_bitset.h), translated one by one.

    The state is the vector of blocks and the number of bits. An operation
    whose C++ body can fail an [assert] or index the vector out of range
    returns [None] there. The capacity of the vector is not part of the state:
    [reserve] and [shrink_to_fit] change nothing observable, and
    [assert(shift < capacity())] is read with the smallest possible capacity.
    Overloads are told apart by a suffix ([set_range], [set_pos], [set_all]). *)

From Stdlib Require Import ZArith Lia ZifyBool Bool.
From stdpp Require Import base numbers list option.
From S2P Require Import Prelude BitBlock.

Local Open Scope Z_scope.

Record dynamic_bitset := mk_bitset {
  m_blocks : list Z;
  m_bits_number : Z
}.

#[export] Instance dynamic_bitset_eq_dec : EqDecision dynamic_bitset.
Proof. solve_decision. Defined.

Module Bitset.

Section Ops.
Context (W : Z).

(** *** Observers *)

Definition size (b : dynamic_bitset) : Z := m_bits_number b.
Definition num_blocks (b : dynamic_bitset) : Z := vsize (m_blocks b).
Definition empty (b : dynamic_bitset) : bool := size b =? 0.

Definition last_block (b : dynamic_bitset) : option Z :=
  vget (m_blocks b) (vsize (m_blocks b) - 1).

Definition set_last_block (b : dynamic_bitset) (x : Z) : option dynamic_bitset :=
  bl ← vset (m_blocks b) (vsize (m_blocks b) - 1) x;
  Some (mk_bitset bl (m_bits_number b)).

Definition extra_bits_number (b : dynamic_bitset) : Z := bit_index W (m_bits_number b).
Definition unused_bits_number (b : dynamic_bitset) : Z := W - extra_bits_number b.

Definition check_unused_bits (b : dynamic_bitset) : option bool :=
  let extra_bits := extra_bits_number b in
  if 0 <? extra_bits
  then l ← last_block b;
       Some (Z.land l (shl W (one_block W) extra_bits) =? zero_block W)
  else Some true.

Definition check_size (b : dynamic_bitset) : bool :=
  blocks_required W (size b) =? vsize (m_blocks b).

Definition check_consistency (b : dynamic_bitset) : option bool :=
  u ← check_unused_bits b; Some (u && check_size b).

(** [assert(check_consistency())] at the end of an operation. *)
Definition checked (b : dynamic_bitset) : option dynamic_bitset :=
  c ← check_consistency b; assert! c; Some b.

Definition sanitize (b : dynamic_bitset) : option dynamic_bitset :=
  let shift := m_bits_number b mod W in
  if 0 <? shift
  then l ← last_block b;
       set_last_block b (Z.land l (block_type W (bnot W (shl W (one_block W) shift))))
  else Some b.

(** *** Single bits and whole-vector updates *)

Definition set_pos (b : dynamic_bitset) (pos : Z) (value : bool) : option dynamic_bitset :=
  assert! pos <? size b;
  x ← vget (m_blocks b) (block_index W pos);
  bl ← vset (m_blocks b) (block_index W pos)
         (if value then Z.lor x (bit_mask W pos)
          else Z.land x (block_type W (bnot W (bit_mask W pos))));
  Some (mk_bitset bl (m_bits_number b)).

Definition reset_pos (b : dynamic_bitset) (pos : Z) : option dynamic_bitset :=
  set_pos b pos false.

Definition flip_pos (b : dynamic_bitset) (pos : Z) : option dynamic_bitset :=
  assert! pos <? size b;
  x ← vget (m_blocks b) (block_index W pos);
  bl ← vset (m_blocks b) (block_index W pos) (Z.lxor x (bit_mask W pos));
  Some (mk_bitset bl (m_bits_number b)).

Definition test (b : dynamic_bitset) (pos : Z) : option bool :=
  assert! pos <? size b;
  x ← vget (m_blocks b) (block_index W pos);
  Some (negb (Z.land x (bit_mask W pos) =? zero_block W)).

Definition test_set (b : dynamic_bitset) (pos : Z) (value : bool)
  : option (bool * dynamic_bitset) :=
  result ← test b pos;
  if negb (Bool.eqb result value)
  then b' ← set_pos b pos value; Some (result, b')
  else Some (result, b).

Definition set_all (b : dynamic_bitset) : option dynamic_bitset :=
  sanitize (mk_bitset (replicate (length (m_blocks b)) (one_block W)) (m_bits_number b)).

Definition reset_all (b : dynamic_bitset) : dynamic_bitset :=
  mk_bitset (replicate (length (m_blocks b)) (zero_block W)) (m_bits_number b).

Definition flip_all (b : dynamic_bitset) : option dynamic_bitset :=
  sanitize (mk_bitset ((fun x => block_type W (bnot W x)) <$> m_blocks b) (m_bits_number b)).

(** *** Ranges of bits *)

Definition set_range (b : dynamic_bitset) (pos len : Z) (value : bool)
  : option dynamic_bitset :=
  assert! pos <? size b;
  if len =? 0 then Some b else
  assert! pos + len - 1 <? size b;
  let first_block := block_index W pos in
  let last_block := block_index W (pos + len - 1) in
  let first_bit_index := bit_index W pos in
  let last_bit_index := bit_index W (pos + len - 1) in
  if first_block =? last_block then
    x ← vget (m_blocks b) first_block;
    bl ← vset (m_blocks b) first_block
           (set_block_bits W x first_bit_index last_bit_index value);
    Some (mk_bitset bl (m_bits_number b))
  else
    '(first_full_block, bl1) ←
      (if negb (first_bit_index =? 0) then
         x ← vget (m_blocks b) first_block;
         bl ← vset (m_blocks b) first_block
                (set_block_bits W x first_bit_index (block_last_bit_index W) value);
         Some (first_block + 1, bl)
       else Some (first_block, m_blocks b));
    '(last_full_block, bl2) ←
      (if negb (last_bit_index =? block_last_bit_index W) then
         x ← vget bl1 last_block;
         bl ← vset bl1 last_block (set_block_bits W x 0 last_bit_index value);
         Some (last_block - 1, bl)
       else Some (last_block, bl1));
    let full_block := if value then one_block W else zero_block W in
    bl3 ← for_up (Z.to_nat (last_full_block - first_full_block + 1)) first_full_block
            (fun i bl => vset bl i full_block) bl2;
    Some (mk_bitset bl3 (m_bits_number b)).

Definition reset_range (b : dynamic_bitset) (pos len : Z) : option dynamic_bitset :=
  set_range b pos len false.

Definition flip_range (b : dynamic_bitset) (pos len : Z) : option dynamic_bitset :=
  assert! pos <? size b;
  if len =? 0 then Some b else
  assert! pos + len - 1 <? size b;
  let first_block := block_index W pos in
  let last_block := block_index W (pos + len - 1) in
  let first_bit_index := bit_index W pos in
  let last_bit_index := bit_index W (pos + len - 1) in
  if first_block =? last_block then
    x ← vget (m_blocks b) first_block;
    bl ← vset (m_blocks b) first_block
           (flip_block_bits W x first_bit_index last_bit_index);
    Some (mk_bitset bl (m_bits_number b))
  else
    '(first_full_block, bl1) ←
      (if negb (first_bit_index =? 0) then
         x ← vget (m_blocks b) first_block;
         bl ← vset (m_blocks b) first_block
                (flip_block_bits W x first_bit_index (block_last_bit_index W));
         Some (first_block + 1, bl)
       else Some (first_block, m_blocks b));
    '(last_full_block, bl2) ←
      (if negb (last_bit_index =? block_last_bit_index W) then
         x ← vget bl1 last_block;
         bl ← vset bl1 last_block (flip_block_bits W x 0 last_bit_index);
         Some (last_block - 1, bl)
       else Some (last_block, bl1));
    bl3 ← for_up (Z.to_nat (last_full_block - first_full_block + 1)) first_full_block
            (fun i bl => x ← vget bl i; vset bl i (block_type W (bnot W x))) bl2;
    Some (mk_bitset bl3 (m_bits_number b)).

(** *** Growing and shrinking *)

Definition resize (b : dynamic_bitset) (nbits : Z) (value : bool)
  : option dynamic_bitset :=
  if nbits =? m_bits_number b then Some b else
  let old_num_blocks := num_blocks b in
  let new_num_blocks := blocks_required W nbits in
  let init_value := if value then one_block W else zero_block W in
  let bl1 := if negb (new_num_blocks =? old_num_blocks)
             then vresize (m_blocks b) new_num_blocks init_value
             else m_blocks b in
  bl2 ← (if value && (m_bits_number b <? nbits) && (0 <? old_num_blocks) then
           let extra_bits := extra_bits_number b in
           if 0 <? extra_bits then
             x ← vget bl1 (old_num_blocks - 1);
             vset bl1 (old_num_blocks - 1)
               (Z.lor x (block_type W (shl W init_value extra_bits)))
           else Some bl1
         else Some bl1);
  b' ← sanitize (mk_bitset bl2 nbits);
  checked b'.

Definition clear (b : dynamic_bitset) : dynamic_bitset := mk_bitset [] 0.

Definition push_back (b : dynamic_bitset) (value : bool) : option dynamic_bitset :=
  let new_last_bit := m_bits_number b in
  let b1 := mk_bitset (m_blocks b) (m_bits_number b + 1) in
  b2 ← (if m_bits_number b1 <=? vsize (m_blocks b1) * W then
          if value then set_pos b1 new_last_bit value else Some b1
        else Some (mk_bitset (m_blocks b1 ++ [block_type W (Z.b2z value)])
                             (m_bits_number b1)));
  t ← test b2 new_last_bit;
  assert! Bool.eqb t value;
  checked b2.

Definition pop_back (b : dynamic_bitset) : option dynamic_bitset :=
  if empty b then Some b else
  let n := m_bits_number b - 1 in
  b' ← (if blocks_required W n <? vsize (m_blocks b)
        then let b1 := mk_bitset (take (length (m_blocks b) - 1) (m_blocks b)) n in
             assert! extra_bits_number b1 =? 0; Some b1
        else sanitize (mk_bitset (m_blocks b) n));
  checked b'.

Definition append_block (b : dynamic_bitset) (block : Z) : option dynamic_bitset :=
  let extra_bits := extra_bits_number b in
  bl ← (if extra_bits =? 0 then Some (m_blocks b ++ [block])
        else l ← last_block b;
             b1 ← set_last_block b (Z.lor l (block_type W (shl W block extra_bits)));
             Some (m_blocks b1 ++ [block_type W (shr block (W - extra_bits))]));
  checked (mk_bitset bl (m_bits_number b + W)).

(** The [while (first != last)] loop of [append(first, last)]: [block] carries
    the high part of the previous input block. *)
Fixpoint append_loop (extra_bits unused_bits : Z) (rest : list Z)
    (bl : list Z) (n block : Z) : list Z * Z :=
  match rest with
  | [] => (bl ++ [block], n + W)
  | x :: rest' =>
      let block := Z.lor block (block_type W (shl W x extra_bits)) in
      append_loop extra_bits unused_bits rest' (bl ++ [block]) (n + W)
        (block_type W (shr x unused_bits))
  end.

(** [append(first, last)] on the blocks between the iterators; the append of an
    initializer list is the same call after its own emptiness test. *)
Definition append_blocks (b : dynamic_bitset) (blocks : list Z) : option dynamic_bitset :=
  match blocks with
  | [] => Some b
  | first :: rest =>
      let extra_bits := extra_bits_number b in
      let unused_bits := unused_bits_number b in
      b' ← (if extra_bits =? 0
            then Some (mk_bitset (m_blocks b ++ blocks)
                                 (m_bits_number b + vsize blocks * W))
            else l ← last_block b;
                 b1 ← set_last_block b (Z.lor l (block_type W (shl W first extra_bits)));
                 let '(bl, n) := append_loop extra_bits unused_bits rest (m_blocks b1)
                                   (m_bits_number b) (block_type W (shr first unused_bits)) in
                 Some (mk_bitset bl n));
      checked b'
  end.

Definition append_init (b : dynamic_bitset) (blocks : list Z) : option dynamic_bitset :=
  if vsize blocks =? 0 then Some b else append_blocks b blocks.

(** [append(other)] with [&other != this]. *)
Definition append_bitset (b other : dynamic_bitset) : option dynamic_bitset :=
  let final_size := size b + size other in
  b' ← append_blocks b (m_blocks other);
  resize b' final_size false.

(** [append( *this)]: the loop reads the vector it is growing. *)
Definition append_self (b : dynamic_bitset) : option dynamic_bitset :=
  let final_size := size b + size b in
  let block_num := num_blocks b in
  b' ← for_up (Z.to_nat block_num) 0
         (fun i b => x ← vget (m_blocks b) i; append_block b x) b;
  resize b' final_size false.

(** *** Constructors *)

Definition ctor_empty : dynamic_bitset := mk_bitset [] 0.

Definition ctor_value (nbits init_val : Z) : option dynamic_bitset :=
  let bl := replicate (Z.to_nat (blocks_required W nbits)) 0 in
  if (nbits =? 0) || (init_val =? 0) then Some (mk_bitset bl nbits) else
  let init_val_required_blocks := 128 / W in
  bl' ← (if init_val_required_blocks =? 1 then vset bl 0 init_val
         else
           let block_mask := one_block W in
           let blocks_to_init := Z.min (vsize bl) init_val_required_blocks in
           for_up (Z.to_nat blocks_to_init) 0
             (fun i bl => vset bl i
                (block_type W (Z.land (Z.shiftr init_val (i * W)) block_mask))) bl);
  sanitize (mk_bitset bl' nbits).

Definition ctor_blocks (init_vals : list Z) : option dynamic_bitset :=
  append_init ctor_empty init_vals.

(** *** Block-wise operators *)

Definition zip_assign (f : Z -> Z -> Z) (b rhs : dynamic_bitset) : option dynamic_bitset :=
  assert! size b =? size rhs;
  bl ← for_up (length (m_blocks b)) 0
         (fun i bl => x ← vget bl i; y ← vget (m_blocks rhs) i; vset bl i (f x y))
         (m_blocks b);
  Some (mk_bitset bl (m_bits_number b)).

Definition and_assign := zip_assign Z.land.
Definition or_assign := zip_assign Z.lor.
Definition xor_assign := zip_assign Z.lxor.
Definition sub_assign := zip_assign (fun x y => Z.land x (block_type W (bnot W y))).

(** *** Shifts *)

Definition apply_left_shift (b : dynamic_bitset) (shift : Z) : option dynamic_bitset :=
  assert! 0 <? shift;
  assert! shift <? vsize (m_blocks b) * W;
  let n := vsize (m_blocks b) in
  let blocks_shift := shift / W in
  let bits_offset := shift mod W in
  bl ← (if bits_offset =? 0 then
          for_down (Z.to_nat (n - blocks_shift)) (n - 1)
            (fun i bl => x ← vget bl (i - blocks_shift); vset bl i x) (m_blocks b)
        else
          let reverse_bits_offset := W - bits_offset in
          bl ← for_down (Z.to_nat (n - 1 - blocks_shift)) (n - 1)
                 (fun i bl => x ← vget bl (i - blocks_shift);
                              y ← vget bl (i - blocks_shift - 1);
                              vset bl i (block_type W
                                (Z.lor (shl W x bits_offset)
                                       (block_type W (shr y reverse_bits_offset)))))
                 (m_blocks b);
          x ← vget bl 0;
          vset bl blocks_shift (block_type W (shl W x bits_offset)));
  bl' ← for_up (Z.to_nat blocks_shift) 0 (fun i bl => vset bl i (zero_block W)) bl;
  Some (mk_bitset bl' (m_bits_number b)).

Definition apply_right_shift (b : dynamic_bitset) (shift : Z) : option dynamic_bitset :=
  assert! 0 <? shift;
  assert! shift <? vsize (m_blocks b) * W;
  let n := vsize (m_blocks b) in
  let blocks_shift := shift / W in
  let bits_offset := shift mod W in
  let last_block_to_shift := n - blocks_shift - 1 in
  bl ← (if bits_offset =? 0 then
          for_up (Z.to_nat (last_block_to_shift + 1)) 0
            (fun i bl => x ← vget bl (i + blocks_shift); vset bl i x) (m_blocks b)
        else
          let reverse_bits_offset := W - bits_offset in
          bl ← for_up (Z.to_nat last_block_to_shift) 0
                 (fun i bl => x ← vget bl (i + blocks_shift);
                              y ← vget bl (i + blocks_shift + 1);
                              vset bl i (block_type W
                                (Z.lor (shr x bits_offset)
                                       (block_type W (shl W y reverse_bits_offset)))))
                 (m_blocks b);
          x ← vget bl (n - 1);
          vset bl last_block_to_shift (block_type W (shr x bits_offset)));
  bl' ← for_up (Z.to_nat (n - (last_block_to_shift + 1))) (last_block_to_shift + 1)
          (fun i bl => vset bl i (zero_block W)) bl;
  Some (mk_bitset bl' (m_bits_number b)).

Definition shl_assign (b : dynamic_bitset) (shift : Z) : option dynamic_bitset :=
  if negb (shift =? 0) then
    if m_bits_number b <=? shift then Some (reset_all b)
    else b' ← apply_left_shift b shift; sanitize b'
  else Some b.

Definition shr_assign (b : dynamic_bitset) (shift : Z) : option dynamic_bitset :=
  if negb (shift =? 0) then
    if m_bits_number b <=? shift then Some (reset_all b)
    else apply_right_shift b shift
  else Some b.

(** *** Queries *)

Definition all (b : dynamic_bitset) : option bool :=
  if empty b then Some true else
  let full_block := one_block W in
  let differs i := x ← vget (m_blocks b) i;
                   Some (if negb (x =? full_block) then Some false else None) in
  if extra_bits_number b =? 0 then
    r ← search_up (length (m_blocks b)) 0 differs; Some (default true r)
  else
    r ← search_up (Z.to_nat (vsize (m_blocks b) - 1)) 0 differs;
    match r with
    | Some v => Some v
    | None => l ← last_block b;
              if negb (l =? shr full_block (unused_bits_number b)) then Some false
              else Some true
    end.

Definition any (b : dynamic_bitset) : option bool :=
  r ← search_up (length (m_blocks b)) 0
        (fun i => x ← vget (m_blocks b) i;
                  Some (if negb (x =? zero_block W) then Some true else None));
  Some (default false r).

Definition none (b : dynamic_bitset) : option bool := a ← any b; Some (negb a).

Definition count (b : dynamic_bitset) : option Z :=
  if empty b then Some 0 else
  c ← for_up (Z.to_nat (vsize (m_blocks b) - 1)) 0
        (fun i c => x ← vget (m_blocks b) i; Some (c + block_count W x)) 0;
  block ← last_block b;
  let extra_bits := extra_bits_number b in
  if extra_bits =? 0 then Some (c + block_count W block)
  else d ← block_count_low W block extra_bits; Some (c + d).

Definition is_subset_of (b bitset : dynamic_bitset) : option bool :=
  assert! size b =? size bitset;
  r ← search_up (length (m_blocks b)) 0
        (fun i => x ← vget (m_blocks b) i; y ← vget (m_blocks bitset) i;
                  Some (if negb (Z.land x (bnot W y) =? zero_block W)
                        then Some false else None));
  Some (default true r).

Fixpoint proper_subset_loop (n : nat) (i : Z) (l1 l2 : list Z) (is_proper : bool)
  : option bool :=
  match n with
  | O => Some is_proper
  | S n' =>
      x ← vget l1 i; y ← vget l2 i;
      if negb (Z.land x (bnot W y) =? zero_block W) then Some false
      else proper_subset_loop n' (i + 1) l1 l2
             (if negb (Z.land (bnot W x) y =? zero_block W) then true else is_proper)
  end.

Definition is_proper_subset_of (b bitset : dynamic_bitset) : option bool :=
  assert! size b =? size bitset;
  proper_subset_loop (length (m_blocks b)) 0 (m_blocks b) (m_blocks bitset) false.

Definition intersects (b bitset : dynamic_bitset) : option bool :=
  let min_blocks_number := Nat.min (length (m_blocks b)) (length (m_blocks bitset)) in
  r ← search_up min_blocks_number 0
        (fun i => x ← vget (m_blocks b) i; y ← vget (m_blocks bitset) i;
                  Some (if negb (Z.land x y =? zero_block W) then Some true else None));
  Some (default false r).

(** The body of the block scans of [find_first] and [find_next]. *)
Definition find_in_block (b : dynamic_bitset) (i : Z) : option (option Z) :=
  x ← vget (m_blocks b) i;
  if negb (x =? zero_block W)
  then c ← count_block_trailing_zero W x; Some (Some (i * W + c))
  else Some None.

Definition find_first (b : dynamic_bitset) : option Z :=
  r ← search_up (length (m_blocks b)) 0 (find_in_block b);
  Some (default npos r).

Definition find_next (b : dynamic_bitset) (prev : Z) : option Z :=
  if empty b || (size b - 1 <=? prev) then Some npos else
  let first_bit := prev + 1 in
  let first_block := block_index W first_bit in
  let first_bit_index := bit_index W first_bit in
  x ← vget (m_blocks b) first_block;
  let first_block_shifted := block_type W (shr x first_bit_index) in
  if negb (first_block_shifted =? zero_block W)
  then c ← count_block_trailing_zero W first_block_shifted; Some (first_bit + c)
  else r ← search_up (Z.to_nat (vsize (m_blocks b) - (first_block + 1))) (first_block + 1)
             (find_in_block b);
       Some (default npos r).

(** [iterate_bits_on(function)]: [function] is called on the set bits in turn
    and stops the iteration by returning [false]; the result is the sequence of
    the calls. A [void] callback is one that always goes on. *)
Fixpoint iterate_loop (fuel : nat) (b : dynamic_bitset) (function : Z -> bool) (i_bit : Z)
  : option (list Z) :=
  match fuel with
  | O => None
  | S fuel' =>
      if i_bit =? npos then Some []
      else if negb (function i_bit) then Some [i_bit]
      else i_bit' ← find_next b i_bit;
           r ← iterate_loop fuel' b function i_bit';
           Some (i_bit :: r)
  end.

Definition iterate_bits_on (b : dynamic_bitset) (function : Z -> bool) : option (list Z) :=
  i_bit ← find_first b;
  iterate_loop (Z.to_nat (size b) + 1) b function i_bit.

(** *** Comparison *)

Definition equal (lhs rhs : dynamic_bitset) : bool :=
  (m_bits_number lhs =? m_bits_number rhs) && bool_decide (m_blocks lhs = m_blocks rhs).

(** The loop [for (i = n - 1; i > 0; --i)] over two block vectors. *)
Definition compare_blocks (n : Z) (l1 l2 : list Z) : option (option bool) :=
  search_down (Z.to_nat (n - 1)) (n - 1)
    (fun i => x ← vget l1 i; y ← vget l2 i;
              Some (if negb (x =? y) then Some (x <? y) else None)).

Definition less (lhs rhs : dynamic_bitset) : option bool :=
  let lhs_size := size lhs in
  let rhs_size := size rhs in
  let lhs_blocks_size := num_blocks lhs in
  let rhs_blocks_size := num_blocks rhs in
  if lhs_size =? rhs_size then
    if lhs_size =? 0 then Some false else
    r ← compare_blocks lhs_blocks_size (m_blocks lhs) (m_blocks rhs);
    match r with
    | Some v => Some v
    | None => x ← vget (m_blocks lhs) 0; y ← vget (m_blocks rhs) 0; Some (x <? y)
    end
  else if lhs_size =? 0 then Some true
  else if rhs_size =? 0 then Some false
  else
    let rhs_longer := lhs_size <? rhs_size in
    let longest_bitset := if rhs_longer then rhs else lhs in
    let longest_blocks_size := Z.max lhs_blocks_size rhs_blocks_size in
    let shortest_blocks_size := Z.min lhs_blocks_size rhs_blocks_size in
    r ← search_down (Z.to_nat (longest_blocks_size - shortest_blocks_size))
          (longest_blocks_size - 1)
          (fun i => x ← vget (m_blocks longest_bitset) i;
                    Some (if negb (x =? block_type W 0) then Some rhs_longer else None));
    match r with
    | Some v => Some v
    | None =>
        r ← compare_blocks shortest_blocks_size (m_blocks lhs) (m_blocks rhs);
        match r with
        | Some v => Some v
        | None =>
            x ← vget (m_blocks lhs) 0; y ← vget (m_blocks rhs) 0;
            if negb (x =? y) then Some (x <? y) else Some (lhs_size <? rhs_size)
        end
    end.

(** *** References to a bit *)

Record reference := mk_reference { ref_block : Z; m_mask : Z }.

Definition ref_of (bit_pos : Z) : reference :=
  mk_reference (block_index W bit_pos) (bit_mask W bit_pos).

Definition ref_update (f : Z -> Z) (b : dynamic_bitset) (r : reference)
  : option dynamic_bitset :=
  x ← vget (m_blocks b) (ref_block r);
  bl ← vset (m_blocks b) (ref_block r) (f x);
  Some (mk_bitset bl (m_bits_number b)).

Definition ref_set (b : dynamic_bitset) (r : reference) :=
  ref_update (fun x => Z.lor x (m_mask r)) b r.
Definition ref_reset (b : dynamic_bitset) (r : reference) :=
  ref_update (fun x => Z.land x (block_type W (bnot W (m_mask r)))) b r.
Definition ref_flip (b : dynamic_bitset) (r : reference) :=
  ref_update (fun x => Z.lxor x (m_mask r)) b r.
Definition ref_assign (b : dynamic_bitset) (r : reference) (v : bool) :=
  if v then ref_set b r else ref_reset b r.
Definition ref_and (b : dynamic_bitset) (r : reference) (v : bool) :=
  if negb v then ref_reset b r else Some b.
Definition ref_or (b : dynamic_bitset) (r : reference) (v : bool) :=
  if v then ref_set b r else Some b.
Definition ref_xor (b : dynamic_bitset) (r : reference) (v : bool) :=
  if v then ref_flip b r else Some b.
Definition ref_sub (b : dynamic_bitset) (r : reference) (v : bool) :=
  if v then ref_reset b r else Some b.
Definition ref_bool (b : dynamic_bitset) (r : reference) : option bool :=
  x ← vget (m_blocks b) (ref_block r);
  Some (negb (Z.land x (m_mask r) =? zero_block W)).
Definition ref_not (b : dynamic_bitset) (r : reference) : option bool :=
  x ← vget (m_blocks b) (ref_block r);
  Some (Z.land x (m_mask r) =? zero_block W).

(** [operator[](pos)] of a mutable bitset. *)
Definition subscript (b : dynamic_bitset) (pos : Z) : option reference :=
  assert! pos <? size b; Some (ref_of pos).

(** *** Strings *)

Section Strings.
Context {C : Type} `{EqDecision C}.

Definition to_string (b : dynamic_bitset) (zero one : C) : option (list C) :=
  let len := size b in
  for_up (length (m_blocks b)) 0
    (fun i_block str =>
       x ← vget (m_blocks b) i_block;
       if x =? zero_block W then Some str else
       let limit := if i_block * W <? len then len - i_block * W else W in
       r ← for_up (Z.to_nat limit) 0
             (fun i_bit (st : list C * Z) =>
                let '(str, mask) := st in
                str' ← (if negb (Z.land x mask =? zero_block W)
                        then vset str (len - (i_block * W + i_bit + 1)) one
                        else Some str);
                Some (str', block_type W (shl W mask 1)))
             (str, block_type W 1);
       Some (fst r))
    (replicate (Z.to_nat len) zero).

(** The bitset built from the characters [pos, pos + n) of a string. *)
Definition init_from_string (str : list C) (pos n : Z) (zero one : C)
  : option dynamic_bitset :=
  assert! pos <? vsize str;
  let sz := Z.min n (vsize str - pos) in
  for_up (Z.to_nat sz) 0
    (fun i b =>
       c ← vget str ((pos + sz - 1) - i);
       assert! bool_decide (c = zero) || bool_decide (c = one);
       if bool_decide (c = one) then set_pos b i true else Some b)
    (mk_bitset (replicate (Z.to_nat (blocks_required W sz)) 0) sz).

(** The characters [operator>>] consumes after the leading white space. *)
Fixpoint read_bits (input : list C) (zero one : C) (reverse_bitset : dynamic_bitset)
  : option (dynamic_bitset * list C) :=
  match input with
  | [] => Some (reverse_bitset, [])
  | val :: input' =>
      if bool_decide (val = one)
      then rb ← push_back reverse_bitset true; read_bits input' zero one rb
      else if bool_decide (val = zero)
      then rb ← push_back reverse_bitset false; read_bits input' zero one rb
      else Some (reverse_bitset, input)
  end.

(** [is >> bitset] on the characters left in the stream: the sentry skips white
    space and gives up at the end of the input. *)
Definition extract (isspace : C -> bool) (input : list C) (zero one : C)
    (bitset : dynamic_bitset) : option (dynamic_bitset * list C) :=
  match drop_while isspace input with
  | [] => Some (bitset, [])
  | input' =>
      '(reverse_bitset, rest) ← read_bits input' zero one ctor_empty;
      if negb (empty reverse_bitset) then
        b1 ← for_down (Z.to_nat (size reverse_bitset - 1)) (size reverse_bitset - 1)
               (fun i b => t ← test reverse_bitset i; push_back b t) (clear bitset);
        t0 ← test reverse_bitset 0;
        b2 ← push_back b1 t0;
        Some (b2, rest)
      else Some (clear bitset, rest)
  end.
End Strings.
End Ops.
End Bitset.
