(* ===== verification/BitSetFacts.v ===== *)
(** The invariant of [dynamic_bitset] and its abstraction.

    A consistent bitset represents one number: bit [p] of the number is bit
    [p mod W] of block [p / W]. [value] is that number, [wf] the invariant that
    the source checks with [check_consistency], and [refines r n v] says that
    an operation returned a consistent bitset of [n] bits and value [v]. The
    lemmas of this file are the ones every operation is verified with. *)

From Stdlib Require Import ZArith Lia ZifyBool Bool.
From stdpp Require Import base numbers list option.
From S2P Require Import Prelude BitBlock BitSet.

Local Open Scope Z_scope.

Section Facts.
Context (W : Z).

(** Bit [p] of the vector of blocks. *)
Definition bit (bl : list Z) (p : Z) : bool := Z.testbit (blk bl (p / W)) (p mod W).

(** The number a vector of blocks represents, least significant block first. *)
Definition blocks_value (bl : list Z) : Z :=
  foldr (fun x acc => Z.lor x (Z.shiftl acc W)) 0 bl.

Definition value (b : dynamic_bitset) : Z := blocks_value (m_blocks b).

Definition blocks_ok (bl : list Z) : Prop := Forall (fun x => 0 <= x < 2 ^ W) bl.

(** The class invariant: as many blocks as the size requires, every block in
    range, and the bits past the end of the bitset are 0. *)
Record wf (b : dynamic_bitset) : Prop := {
  wf_size : 0 <= m_bits_number b;
  wf_len : vsize (m_blocks b) = blocks_required W (m_bits_number b);
  wf_blocks : blocks_ok (m_blocks b);
  wf_unused : forall p, m_bits_number b <= p -> bit (m_blocks b) p = false
}.

Definition refines (r : option dynamic_bitset) (n v : Z) : Prop :=
  exists b, r = Some b /\ wf b /\ m_bits_number b = n /\ value b = v.

Context {HW : BlockType W}.

Lemma blocks_required_bound n :
  0 <= n -> 0 <= blocks_required W n /\ n <= blocks_required W n * W < n + W.
Proof.
  intros Hn. pose proof (W_pos W). destruct (div_mod_pos n W) as [E H1]; [done|].
  pose proof (Z.div_pos n W Hn). unfold blocks_required. zcase; nia.
Qed.

Lemma blocks_required_unique n k :
  0 <= n -> n <= k * W < n + W -> blocks_required W n = k.
Proof.
  intros Hn Hk. destruct (blocks_required_bound n Hn) as [_ H]. pose proof (W_pos W). nia.
Qed.

(** A position below the size lies in a block of the vector. *)
Lemma block_index_bound n p :
  0 <= p < n -> 0 <= block_index W p < blocks_required W n.
Proof.
  intros Hp. pose proof (W_pos W). destruct (blocks_required_bound n) as [H0 H1]; [lia|].
  destruct (div_mod_pos p W) as [E H2]; [done|]. unfold block_index.
  split; [apply Z.div_pos; lia|]. nia.
Qed.

Lemma blk_range bl i : blocks_ok bl -> 0 <= blk bl i < 2 ^ W.
Proof.
  intros H. pose proof (pow_W_pos W). unfold blocks_ok in H. rewrite blk_Forall in H.
  destruct (Z.lt_ge_cases i 0); [rewrite blk_outside by lia; lia|].
  destruct (Z.lt_ge_cases i (vsize bl)); [by apply H|rewrite blk_outside by lia; lia].
Qed.

Lemma blk_cons x bl i :
  0 <= i -> blk (x :: bl) i = if i =? 0 then x else blk bl (i - 1).
Proof.
  intros Hi. change (x :: bl) with ([x] ++ bl). rewrite blk_app.
  change (vsize [x]) with 1. destruct (Z.eqb_spec i 0) as [->|].
  - done.
  - destruct (Z.ltb_spec i 1); [lia|done].
Qed.

Lemma testbit_blocks_value bl p :
  blocks_ok bl -> 0 <= p -> Z.testbit (blocks_value bl) p = bit bl p.
Proof.
  intros H. pose proof (W_pos W). revert p.
  induction H as [|x bl Hx Hbl IH]; intros p Hp; cbn [blocks_value foldr].
  - unfold bit. rewrite blk_outside, !Z.bits_0; [done|]. unfold vsize. simpl.
    pose proof (Z.div_pos p W). lia.
  - rewrite Z.lor_spec, testbit_shiftl by done.
    destruct (div_mod_pos p W) as [E H1]; [done|].
    pose proof (Z.div_pos p W Hp ltac:(done)) as Hq.
    unfold bit. rewrite blk_cons by done.
    destruct (Z.eqb_spec (p / W) 0) as [E0|E0].
    + rewrite (Z.testbit_neg_r _ (p - W)) by nia. rewrite orb_false_r.
      f_equal. nia.
    + rewrite (testbit_high W x) by nia. simpl.
      change (Z.testbit (blocks_value bl) (p - W)
              = Z.testbit (blk bl (p / W - 1)) (p mod W)).
      rewrite IH by nia. unfold bit. f_equal; [f_equal|].
      * replace (p - W) with (p + (-1) * W) by lia. rewrite Z.div_add by lia. lia.
      * replace (p - W) with (p + (-1) * W) by lia. by rewrite Z.mod_add by lia.
Qed.

Lemma blocks_value_nonneg bl : blocks_ok bl -> 0 <= blocks_value bl.
Proof.
  intros H. pose proof (W_pos W). induction H as [|x bl Hx Hbl IH]; cbn [blocks_value foldr]; [done|].
  apply Z.lor_nonneg. split; [lia|]. by apply Z.shiftl_nonneg.
Qed.

(** The value of a consistent bitset fits in its size. *)
Lemma value_range b : wf b -> 0 <= value b < 2 ^ m_bits_number b.
Proof.
  intros [H1 H2 H3 H4]. split; [by apply blocks_value_nonneg|].
  apply bits_bound; [done|by apply blocks_value_nonneg|].
  intros j Hj. unfold value. rewrite testbit_blocks_value by (done || lia). by apply H4.
Qed.

Lemma testbit_value b p :
  wf b -> 0 <= p -> Z.testbit (value b) p = bit (m_blocks b) p.
Proof. intros [] Hp. by apply testbit_blocks_value. Qed.

(** The rule every operation is proved with. *)
Lemma refines_intro bl n v :
  0 <= n -> vsize bl = blocks_required W n -> blocks_ok bl -> 0 <= v < 2 ^ n ->
  (forall p, 0 <= p -> bit bl p = Z.testbit v p) ->
  refines (Some (mk_bitset bl n)) n v.
Proof.
  intros Hn Hl Hb Hv Hbit. exists (mk_bitset bl n). split; [done|].
  split; [|split; [done|]].
  - split; simpl; [done|done|done|]. intros p Hp. rewrite Hbit by lia.
    by apply (testbit_high n).
  - apply Z.bits_inj'. intros p Hp. unfold value. simpl.
    rewrite testbit_blocks_value by done. by apply Hbit.
Qed.

Lemma wf_refines b : wf b -> refines (Some b) (m_bits_number b) (value b).
Proof. intros H. by exists b. Qed.

(** A consistent bitset is determined by its size and its value. *)
Lemma wf_value_inj b1 b2 :
  wf b1 -> wf b2 -> m_bits_number b1 = m_bits_number b2 -> value b1 = value b2 -> b1 = b2.
Proof.
  intros H1 H2 Hn Hv. pose proof (W_pos W). destruct b1 as [l1 n1], b2 as [l2 n2]; simpl in *.
  subst n2. f_equal. destruct H1 as [A1 A2 A3 A4], H2 as [B1 B2 B3 B4]; simpl in *.
  apply blk_ext; [congruence|]. intros i Hi.
  apply (bits_eq W); [by apply blk_range|by apply blk_range|].
  intros j Hj. destruct (div_mod_split W i j Hj) as [E1 E2].
  assert (bit l1 (i * W + j) = bit l2 (i * W + j)) as E.
  { rewrite <- !testbit_blocks_value by (done || nia). unfold value in Hv. simpl in Hv.
    by rewrite Hv. }
  unfold bit in E. by rewrite E1, E2 in E.
Qed.

(** *** Updating one block *)

Lemma blocks_ok_insert bl i x :
  blocks_ok bl -> 0 <= x < 2 ^ W -> blocks_ok (<[i := x]> bl).
Proof. intros H Hx. by apply Forall_insert. Qed.

Lemma bit_insert bl i x p :
  0 <= i < vsize bl ->
  bit (<[Z.to_nat i := x]> bl) p = if p / W =? i then Z.testbit x (p mod W) else bit bl p.
Proof.
  intros Hi. unfold bit. rewrite blk_insert by done. by destruct (_ =? _).
Qed.

Lemma bit_outside bl p : vsize bl * W <= p -> bit bl p = false.
Proof.
  intros Hp. pose proof (W_pos W). destruct (div_mod_pos p W) as [E H1]; [done|].
  unfold bit. rewrite blk_outside, Z.bits_0; [done|]. right. nia.
Qed.

Lemma bit_pos bl p : 0 <= p -> bit bl p = true -> 0 <= p / W < vsize bl.
Proof.
  intros Hp Hb. pose proof (W_pos W). destruct (div_mod_pos p W) as [E H1]; [done|].
  split; [apply Z.div_pos; lia|]. destruct (Z.lt_ge_cases (p / W) (vsize bl)); [done|].
  rewrite bit_outside in Hb by nia. done.
Qed.

(** The offset of a position in its block. *)
Lemma same_position p q : p / W = q / W -> p mod W = q mod W -> p = q.
Proof.
  intros H1 H2. pose proof (W_pos W).
  destruct (div_mod_pos p W) as [E _]; [done|]. destruct (div_mod_pos q W) as [E' _]; [done|].
  rewrite H1, H2 in E. lia.
Qed.

(** Positions are ordered by block, then by offset. *)
Lemma le_position p q :
  p <= q <-> p / W < q / W \/ (p / W = q / W /\ p mod W <= q mod W).
Proof.
  pose proof (W_pos W). destruct (div_mod_pos p W) as [E H1]; [done|].
  destruct (div_mod_pos q W) as [E' H1']; [done|]. nia.
Qed.

(** *** The source's own checks *)

(** The last block of a vector of the required size. *)
Lemma last_block_position n :
  0 <= n -> 0 < n mod W ->
  0 <= blocks_required W n - 1 /\ (blocks_required W n - 1) * W + n mod W = n.
Proof.
  intros Hn He. pose proof (W_pos W). destruct (div_mod_pos n W) as [E H1]; [done|].
  pose proof (Z.div_pos n W Hn). unfold blocks_required.
  destruct (Z.ltb_spec 0 (n mod W)); nia.
Qed.

Lemma full_blocks_position n :
  0 <= n -> n mod W = 0 -> blocks_required W n * W = n.
Proof.
  intros Hn He. pose proof (W_pos W). destruct (div_mod_pos n W) as [E H1]; [done|].
  unfold blocks_required. destruct (Z.ltb_spec 0 (n mod W)); nia.
Qed.

Lemma sanitize_spec bl n :
  0 <= n -> vsize bl = blocks_required W n -> blocks_ok bl ->
  exists bl', Bitset.sanitize W (mk_bitset bl n) = Some (mk_bitset bl' n) /\
    vsize bl' = vsize bl /\ blocks_ok bl' /\
    forall p, 0 <= p -> bit bl' p = (p <? n) && bit bl p.
Proof.
  intros Hn Hl Hb. pose proof (W_pos W). destruct (div_mod_pos n W) as [E H1]; [done|].
  unfold Bitset.sanitize; simpl. destruct (Z.ltb_spec 0 (n mod W)) as [Hs|Hs].
  - destruct (last_block_position n Hn Hs) as [Hk Ek].
    unfold Bitset.last_block, Bitset.set_last_block; simpl.
    vstep.
    eexists; split; [done|]. rewrite vsize_insert. split; [done|].
    split; [apply blocks_ok_insert; [done|]; apply land_range;
            [done|by apply blk_range]|].
    intros p Hp. rewrite bit_insert by lia.
    destruct (div_mod_pos p W) as [Ep Hp1]; [done|]. set (q := vsize bl - 1) in *.
    unfold bit at 2. destruct (Z.eqb_spec (p / W) q) as [Eq|Eq].
    + rewrite Z.land_spec, testbit_bnot_cast by (done || lia).
      rewrite Eq. destruct (Z.ltb_spec (p mod W) W); [|lia]. cbn [andb].
      rewrite andb_comm. f_equal.
      unfold shl. rewrite testbit_arith, testbit_shiftl, testbit_one_block by (done || lia).
      zcase; simpl; try done; nia.
    + change (bit bl p = (p <? n) && bit bl p). destruct (Z.ltb_spec p n); [done|].
      simpl. apply bit_outside. nia.
  - exists bl. split; [done|]. split; [done|]. split; [done|]. intros p Hp.
    destruct (Z.ltb_spec p n); [done|]. simpl. apply bit_outside.
    rewrite Hl, full_blocks_position by lia. lia.
Qed.

(** Sanitizing finishes an operation that may leave junk past the end. *)
Lemma refines_sanitize bl n v :
  0 <= n -> vsize bl = blocks_required W n -> blocks_ok bl -> 0 <= v < 2 ^ n ->
  (forall p, 0 <= p < n -> bit bl p = Z.testbit v p) ->
  refines (Bitset.sanitize W (mk_bitset bl n)) n v.
Proof.
  intros Hn Hl Hb Hv Hbit.
  destruct (sanitize_spec bl n Hn Hl Hb) as (bl' & -> & Hl' & Hb' & Hbit').
  apply refines_intro; [done|congruence|done|done|]. intros p Hp. rewrite Hbit' by done.
  destruct (Z.ltb_spec p n); simpl; [by apply Hbit|]. by rewrite (testbit_high n).
Qed.

(** [check_consistency()] decides the invariant (for blocks of the block type). *)
Lemma check_consistency_wf b :
  0 <= m_bits_number b -> blocks_ok (m_blocks b) ->
  Bitset.check_consistency W b = Some true <-> wf b.
Proof.
  destruct b as [bl n]; simpl. intros Hn Hb. pose proof (W_pos W).
  destruct (div_mod_pos n W) as [E H1]; [done|].
  unfold Bitset.check_consistency, Bitset.check_unused_bits, Bitset.check_size,
    Bitset.size, Bitset.extra_bits_number, bit_index, Bitset.last_block; simpl.
  destruct (Z.ltb_spec 0 (n mod W)) as [Hs|Hs].
  - destruct (last_block_position n Hn Hs) as [Hk Ek].
    assert (Hbits : vsize bl = blocks_required W n ->
      (Z.land (blk bl (vsize bl - 1)) (shl W (one_block W) (n mod W)) =? zero_block W) = true
      <-> forall p, n <= p -> bit bl p = false).
    { intros Hl. rewrite (zero_block_eq W), Z.eqb_eq. split.
      - intros H0 p Hp. destruct (div_mod_pos p W) as [Ep Hp1]; [done|].
        destruct (Z.lt_ge_cases (p / W) (vsize bl)); [|apply bit_outside; nia].
        assert (p / W = vsize bl - 1) as Eq by nia.
        assert (Z.testbit (Z.land (blk bl (vsize bl - 1)) (shl W (one_block W) (n mod W)))
                  (p mod W) = false) as F by (rewrite H0; apply Z.bits_0).
        unfold shl in F. rewrite Z.land_spec, testbit_arith, testbit_shiftl,
          testbit_one_block in F by (done || lia).
        unfold bit. rewrite Eq. destruct (Z.leb_spec 0 (p mod W - n mod W)),
          (Z.ltb_spec (p mod W - n mod W) W); simpl in F; nia.
      - intros Hz. apply zero_bits. intros j Hj. rewrite Z.land_spec.
        destruct (Z.lt_ge_cases j W) as [Hjw|Hjw].
        + unfold shl. rewrite testbit_arith, testbit_shiftl, testbit_one_block by (done || lia).
          destruct (Z.leb_spec 0 (j - n mod W)); [|by rewrite andb_false_r].
          specialize (Hz ((vsize bl - 1) * W + j) ltac:(nia)). unfold bit in Hz.
          destruct (div_mod_split W (vsize bl - 1) j) as [E1 E2]; [lia|].
          rewrite E1, E2 in Hz. by rewrite Hz.
        + by rewrite (testbit_high W) by (done || by apply blk_range). }
    split.
    + intros H0. destruct (vget bl (vsize bl - 1)) as [l|] eqn:El; [|done]. simpl in H0.
      injection H0 as H0. apply andb_true_iff in H0 as [Hu Hl]. apply Z.eqb_eq in Hl.
      split; simpl; [done|done|done|]. apply Hbits; [done|].
      rewrite vget_blk in El by lia. injection El as <-. done.
    + intros [_ Hl _ Hz]; simpl in *. rewrite vget_blk by lia. simpl.
      rewrite (proj2 (Hbits Hl) Hz). simpl. f_equal. by apply Z.eqb_eq.
  - simpl. split.
    + intros H0. injection H0 as H0. apply Z.eqb_eq in H0.
      split; simpl; [done|done|done|]. intros p Hp. apply bit_outside.
      rewrite <- H0, full_blocks_position by lia. lia.
    + intros [_ Hl _ _]; simpl in *. f_equal. by apply Z.eqb_eq.
Qed.

Lemma checked_wf b : wf b -> Bitset.checked W b = Some b.
Proof.
  intros H. unfold Bitset.checked. pose proof H as [H1 H2 H3 H4].
  by rewrite (proj2 (check_consistency_wf b H1 H3) H).
Qed.

Lemma refines_checked r n v :
  refines r n v -> refines (b ← r; Bitset.checked W b) n v.
Proof.
  intros (b & -> & Hwf & Hn & Hv). exists b. simpl. by rewrite checked_wf.
Qed.

Lemma refines_eq r n v n' v' : refines r n v -> n = n' -> v = v' -> refines r n' v'.
Proof. by intros ? -> ->. Qed.

Lemma bit_app bl1 bl2 p :
  bit (bl1 ++ bl2) p
  = if p <? vsize bl1 * W then bit bl1 p else bit bl2 (p - vsize bl1 * W).
Proof.
  pose proof (W_pos W). destruct (div_mod_pos p W) as [E H1]; [done|].
  unfold bit. rewrite blk_app.
  destruct (Z.ltb_spec (p / W) (vsize bl1)), (Z.ltb_spec p (vsize bl1 * W)); try (exfalso; nia); [done|].
  replace (p - vsize bl1 * W) with (p + (- vsize bl1) * W) by lia.
  rewrite Z.div_add, Z.mod_add by lia.
  by replace (p / W + - vsize bl1) with (p / W - vsize bl1) by lia.
Qed.

Lemma bit_single x p : 0 <= p -> bit [x] p = (p <? W) && Z.testbit x p.
Proof.
  intros Hp. pose proof (W_pos W). destruct (div_mod_pos p W) as [E H1]; [done|].
  destruct (Z.ltb_spec p W); simpl.
  - unfold bit. rewrite Z.div_small, Z.mod_small by lia. done.
  - apply bit_outside. change (vsize [x]) with 1. lia.
Qed.

Lemma blocks_ok_app bl1 bl2 : blocks_ok bl1 -> blocks_ok bl2 -> blocks_ok (bl1 ++ bl2).
Proof. intros. by apply Forall_app. Qed.

Lemma blocks_ok_single x : 0 <= x < 2 ^ W -> blocks_ok [x].
Proof. intros. by constructor. Qed.

Lemma blocks_ok_replicate k x : 0 <= x < 2 ^ W -> blocks_ok (replicate k x).
Proof. intros. by apply Forall_replicate. Qed.

Lemma zero_block_range : 0 <= zero_block W < 2 ^ W.
Proof. apply block_type_range; done. Qed.

Lemma blocks_ok_ext bl :
  (forall i, 0 <= i < vsize bl -> 0 <= blk bl i < 2 ^ W) -> blocks_ok bl.
Proof. intros. by apply blk_Forall. Qed.

Lemma bit_replicate_zero k p : bit (replicate k 0) p = false.
Proof.
  unfold bit. destruct (Z.lt_ge_cases (p / W) 0); [by rewrite blk_outside, Z.bits_0 by lia|].
  destruct (Z.lt_ge_cases (p / W) (Z.of_nat k)).
  - by rewrite blk_replicate, Z.bits_0 by lia.
  - rewrite blk_outside, Z.bits_0; [done|]. rewrite vsize_replicate. lia.
Qed.
End Facts.

#[export] Hint Resolve blk_range blocks_ok_insert blocks_ok_app blocks_ok_single
  blocks_ok_replicate zero_block_range : yacl.
