(* ===== verification/BitSetOps.v ===== *)
(** Functional correctness of the updates of [dynamic_bitset]: every operation,
    run on a consistent bitset within its documented precondition, returns
    (no assertion fires, no access is out of range), keeps the invariant, and
    computes the number the specification names. *)

From Stdlib Require Import ZArith Lia ZifyBool Bool.
From stdpp Require Import base numbers list option.
From S2P Require Import Prelude BitBlock BitSet BitSetFacts.

Local Open Scope Z_scope.

Section Ops.
Context (W : Z) {HW : BlockType W}.

Local Abbreviation wf := (wf W).
Local Abbreviation value := (value W).
Local Abbreviation bit := (bit W).
Local Abbreviation refines := (refines W).
Local Abbreviation blocks_ok := (blocks_ok W).

(** Refinement to a number given by its bits. *)
Lemma refines_bits bl n v :
  0 <= n -> vsize bl = blocks_required W n -> blocks_ok bl -> 0 <= v ->
  (forall p, n <= p -> Z.testbit v p = false) ->
  (forall p, 0 <= p -> bit bl p = Z.testbit v p) ->
  refines (Some (mk_bitset bl n)) n v.
Proof.
  intros. apply refines_intro; try done. split; [done|]. by apply bits_bound.
Qed.

Lemma refines_sanitize_bits bl n v :
  0 <= n -> vsize bl = blocks_required W n -> blocks_ok bl -> 0 <= v ->
  (forall p, n <= p -> Z.testbit v p = false) ->
  (forall p, 0 <= p < n -> bit bl p = Z.testbit v p) ->
  refines (Bitset.sanitize W (mk_bitset bl n)) n v.
Proof.
  intros. apply refines_sanitize; try done. split; [done|]. by apply bits_bound.
Qed.

Lemma value_high b p : wf b -> m_bits_number b <= p -> Z.testbit (value b) p = false.
Proof. intros H Hp. apply (testbit_high (m_bits_number b)); [by apply value_range|done]. Qed.

Lemma value_nonneg b : wf b -> 0 <= value b.
Proof. intros H. by apply value_range. Qed.

(** Updating one block of a consistent bitset. *)
Lemma refines_update b i x v :
  wf b -> 0 <= i < vsize (m_blocks b) -> 0 <= x < 2 ^ W -> 0 <= v ->
  (forall p, m_bits_number b <= p -> Z.testbit v p = false) ->
  (forall p, 0 <= p -> Z.testbit v p =
     if p / W =? i then Z.testbit x (p mod W) else Z.testbit (value b) p) ->
  refines (Some (mk_bitset (<[Z.to_nat i := x]> (m_blocks b)) (m_bits_number b)))
    (m_bits_number b) v.
Proof.
  intros H Hi Hx Hv Hhigh Hbits. pose proof H as [H1 H2 H3 H4].
  apply refines_bits; try done; [by rewrite vsize_insert|by apply blocks_ok_insert|].
  intros p Hp. rewrite Hbits, bit_insert by done.
  destruct (_ =? _); [done|]. by rewrite testbit_value.
Qed.

Lemma bits_in_block b p :
  wf b -> 0 <= p -> Z.testbit (blk (m_blocks b) (p / W)) (p mod W) = Z.testbit (value b) p.
Proof. intros H Hp. by rewrite testbit_value. Qed.

(** The common part of the single-bit updates: block [pos / W] is replaced by
    a block that differs from it at most at bit [pos mod W]. *)
Lemma refines_update_bit b pos x v (new : bool) :
  wf b -> 0 <= pos < m_bits_number b -> 0 <= x < 2 ^ W -> 0 <= v ->
  (forall j, 0 <= j < W -> Z.testbit x j =
     if j =? bit_index W pos then new else Z.testbit (blk (m_blocks b) (pos / W)) j) ->
  (forall p, 0 <= p -> Z.testbit v p = if p =? pos then new else Z.testbit (value b) p) ->
  refines (Some (mk_bitset (<[Z.to_nat (block_index W pos) := x]> (m_blocks b))
                           (m_bits_number b)))
    (m_bits_number b) v.
Proof.
  intros H Hpos Hx Hv Hbx Hbv. pose proof (W_pos W).
  apply refines_update; try done.
  - rewrite (wf_len _ _ H). by apply block_index_bound.
  - intros p Hp. rewrite Hbv by lia. destruct (Z.eqb_spec p pos); [lia|].
    by apply value_high.
  - intros p Hp. rewrite Hbv by done. unfold block_index, bit_index in *.
    destruct (div_mod_pos p W) as [Ep Hp1]; [done|].
    destruct (Z.eqb_spec (p / W) (pos / W)) as [E|E].
    + rewrite Hbx by done.
      destruct (Z.eqb_spec (p mod W) (pos mod W)) as [E2|E2], (Z.eqb_spec p pos) as [E3|E3];
        try done.
      * destruct E3. by apply (same_position W).
      * subst p. done.
      * rewrite <- E. by rewrite bits_in_block.
    + destruct (Z.eqb_spec p pos); [congruence|done].
Qed.

Lemma pos_in_range b pos :
  wf b -> 0 <= pos < m_bits_number b -> 0 <= block_index W pos < vsize (m_blocks b).
Proof. intros H Hpos. rewrite (wf_len _ _ H). by apply block_index_bound. Qed.

Lemma set_pos_refines b pos v :
  wf b -> 0 <= pos < m_bits_number b ->
  refines (Bitset.set_pos W b pos v) (m_bits_number b)
    (if v then Z.lor (value b) (2 ^ pos) else Z.ldiff (value b) (2 ^ pos)).
Proof.
  intros H Hpos. pose proof (pos_in_range b pos H Hpos).
  pose proof (value_nonneg b H). pose proof (wf_blocks _ _ H).
  assert (0 <= 2 ^ pos) by (apply Z.pow_nonneg; lia).
  unfold Bitset.set_pos, Bitset.size. destruct (Z.ltb_spec pos (m_bits_number b)); [|lia].
  vstep. apply (refines_update_bit b pos _ _ v); try done.
  - destruct v; eauto with yacl.
  - destruct v; [apply Z.lor_nonneg; lia|apply Z.ldiff_nonneg; lia].
  - intros j Hj. unfold block_index. destruct v.
    + rewrite Z.lor_spec, testbit_bit_mask by done.
      destruct (_ =? _); by rewrite ?orb_true_r, ?orb_false_r.
    + rewrite Z.land_spec, testbit_bnot_cast, testbit_bit_mask by (done || lia).
      destruct (Z.ltb_spec j W); [|lia].
      destruct (_ =? _); simpl; by rewrite ?andb_true_r, ?andb_false_r.
  - intros p Hp. destruct v; autorewrite with zbits; destruct (p =? pos); simpl;
      by rewrite ?orb_true_r, ?orb_false_r, ?andb_true_r, ?andb_false_r.
Qed.

Lemma flip_pos_refines b pos :
  wf b -> 0 <= pos < m_bits_number b ->
  refines (Bitset.flip_pos W b pos) (m_bits_number b) (Z.lxor (value b) (2 ^ pos)).
Proof.
  intros H Hpos. pose proof (pos_in_range b pos H Hpos).
  pose proof (value_nonneg b H). pose proof (wf_blocks _ _ H).
  assert (0 <= 2 ^ pos) by (apply Z.pow_nonneg; lia).
  unfold Bitset.flip_pos, Bitset.size. destruct (Z.ltb_spec pos (m_bits_number b)); [|lia].
  vstep. apply (refines_update_bit b pos _ _ (negb (Z.testbit (value b) pos))); try done.
  - eauto with yacl.
  - apply Z.lxor_nonneg. lia.
  - intros j Hj. unfold block_index. rewrite Z.lxor_spec, testbit_bit_mask by done.
    destruct (Z.eqb_spec j (bit_index W pos)) as [->|]; [|by rewrite xorb_false_r].
    rewrite xorb_true_r. f_equal. apply bits_in_block; [done|lia].
  - intros p Hp. autorewrite with zbits. destruct (Z.eqb_spec p pos) as [->|];
      by rewrite ?xorb_true_r, ?xorb_false_r.
Qed.

Lemma test_spec b pos :
  wf b -> 0 <= pos < m_bits_number b ->
  Bitset.test W b pos = Some (Z.testbit (value b) pos).
Proof.
  intros H Hpos. pose proof (pos_in_range b pos H Hpos).
  unfold Bitset.test, Bitset.size. destruct (Z.ltb_spec pos (m_bits_number b)); [|lia].
  vstep. rewrite land_bit_mask_test, negb_involutive by done. f_equal.
  apply bits_in_block; [done|lia].
Qed.

(** *** Whole-vector updates *)

Lemma set_all_refines b :
  wf b -> refines (Bitset.set_all W b) (m_bits_number b) (Z.ones (m_bits_number b)).
Proof.
  intros H. pose proof H as [H1 H2 H3 H4]. pose proof (W_pos W).
  apply refines_sanitize_bits; try done.
  - by rewrite vsize_replicate.
  - eauto with yacl.
  - rewrite Z.ones_equiv. pose proof (Z.pow_pos_nonneg 2 (m_bits_number b)). lia.
  - intros p Hp. autorewrite with zbits. zcase; simpl; try done; lia.
  - intros p Hp. pose proof (block_index_bound W (m_bits_number b) p Hp) as Hi.
    rewrite <- H2 in Hi. unfold vsize in Hi.
    unfold BitSetFacts.bit. rewrite blk_replicate by done.
    rewrite testbit_one_block by done. autorewrite with zbits.
    destruct (div_mod_pos p W) as [E Hm]; [done|]. zcase; simpl; try done; lia.
Qed.

Lemma reset_all_refines b :
  wf b -> refines (Some (Bitset.reset_all W b)) (m_bits_number b) 0.
Proof.
  intros H. pose proof H as [H1 H2 H3 H4]. unfold Bitset.reset_all.
  rewrite (zero_block_eq W). pose proof (pow_W_pos W).
  apply refines_bits; try done.
  - by rewrite vsize_replicate.
  - apply blocks_ok_replicate. lia.
  - intros p _. apply Z.bits_0.
  - intros p _. by rewrite bit_replicate_zero, Z.bits_0.
Qed.

Lemma flip_all_refines b :
  wf b ->
  refines (Bitset.flip_all W b) (m_bits_number b)
    (Z.lxor (value b) (Z.ones (m_bits_number b))).
Proof.
  intros H. pose proof H as [H1 H2 H3 H4]. pose proof (W_pos W).
  pose proof (value_nonneg b H).
  apply refines_sanitize_bits; try done.
  - by rewrite vsize_map.
  - apply blocks_ok_ext. intros i Hi. rewrite vsize_map in Hi. rewrite blk_map by done.
    by apply block_type_range.
  - apply Z.lxor_nonneg. rewrite Z.ones_equiv.
    pose proof (Z.pow_pos_nonneg 2 (m_bits_number b)). lia.
  - intros p Hp. autorewrite with zbits. rewrite value_high by done.
    zcase; simpl; try done; lia.
  - intros p Hp. pose proof (pos_in_range b p H Hp) as Hi.
    unfold BitSetFacts.bit. rewrite blk_map by done.
    destruct (div_mod_pos p W) as [E Hm]; [done|].
    rewrite testbit_bnot_cast, bits_in_block by (done || lia). autorewrite with zbits.
    zcase; simpl; try (exfalso; lia). by rewrite xorb_true_r.
Qed.

(** *** Block-wise operators *)

(** A loop that overwrites the blocks in increasing order with values that
    depend on the original vector: it may read what it has not yet written. *)
Lemma for_up_rewrite (f : Z -> list Z -> option (list Z)) (g : Z -> Z) k lo bl :
  0 <= lo -> lo + Z.of_nat k <= vsize bl ->
  (forall i l, lo <= i < lo + Z.of_nat k -> vsize l = vsize bl ->
     (forall j, i <= j -> blk l j = blk bl j) ->
     f i l = Some (<[Z.to_nat i := g i]> l)) ->
  exists bl', for_up k lo f bl = Some bl' /\ vsize bl' = vsize bl /\
    forall j, blk bl' j = if (lo <=? j) && (j <? lo + Z.of_nat k) then g j else blk bl j.
Proof.
  intros Hlo Hhi Hf.
  destruct (for_up_inv
    (fun i l => vsize l = vsize bl /\
       forall j, blk l j = if (lo <=? j) && (j <? i) then g j else blk bl j)
    f k lo bl) as (bl' & E & H1 & H2).
  - split; [done|]. intros j. by replace (_ && _) with false by lia.
  - intros i l Hi [Hl Hj].
    eexists. split; [apply Hf; [done|done|]|].
    + intros j Hij. rewrite Hj. by replace (_ && _) with false by lia.
    + rewrite vsize_insert. split; [done|].
      intros j. rewrite blk_insert by lia. destruct (Z.eqb_spec j i) as [->|Hne].
      * by replace ((lo <=? i) && (i <? i + 1)) with true by lia.
      * rewrite Hj. by replace ((lo <=? j) && (j <? i + 1))
          with ((lo <=? j) && (j <? i)) by lia.
  - exists bl'. by split.
Qed.

(** The same with a decreasing index. *)
Lemma for_down_rewrite (f : Z -> list Z -> option (list Z)) (g : Z -> Z) k hi bl :
  0 <= hi - Z.of_nat k + 1 -> hi < vsize bl ->
  (forall i l, hi - Z.of_nat k < i <= hi -> vsize l = vsize bl ->
     (forall j, j <= i -> blk l j = blk bl j) ->
     f i l = Some (<[Z.to_nat i := g i]> l)) ->
  exists bl', for_down k hi f bl = Some bl' /\ vsize bl' = vsize bl /\
    forall j, blk bl' j = if (hi - Z.of_nat k <? j) && (j <=? hi) then g j else blk bl j.
Proof.
  intros Hlo Hhi Hf.
  destruct (for_down_inv
    (fun i l => vsize l = vsize bl /\
       forall j, blk l j = if (i <? j) && (j <=? hi) then g j else blk bl j)
    f k hi bl) as (bl' & E & H1 & H2).
  - split; [done|]. intros j. by replace (_ && _) with false by lia.
  - intros i l Hi [Hl Hj].
    eexists. split; [apply Hf; [done|done|]|].
    + intros j Hij. rewrite Hj. by replace (_ && _) with false by lia.
    + rewrite vsize_insert. split; [done|].
      intros j. rewrite blk_insert by lia. destruct (Z.eqb_spec j i) as [->|Hne].
      * by replace ((i - 1 <? i) && (i <=? hi)) with true by lia.
      * rewrite Hj. by replace ((i - 1 <? j) && (j <=? hi))
          with ((i <? j) && (j <=? hi)) by lia.
  - exists bl'. by split.
Qed.

(** A loop that overwrites block [i] with [g i (old block)]. *)
Lemma for_up_update (f : Z -> list Z -> option (list Z)) (g : Z -> Z -> Z) k lo bl :
  0 <= lo -> lo + Z.of_nat k <= vsize bl ->
  (forall i l, lo <= i < lo + Z.of_nat k -> vsize l = vsize bl -> blk l i = blk bl i ->
     f i l = Some (<[Z.to_nat i := g i (blk bl i)]> l)) ->
  exists bl', for_up k lo f bl = Some bl' /\ vsize bl' = vsize bl /\
    forall j, blk bl' j = if (lo <=? j) && (j <? lo + Z.of_nat k)
                          then g j (blk bl j) else blk bl j.
Proof.
  intros Hlo Hhi Hf. apply (for_up_rewrite f (fun i => g i (blk bl i))); try done.
  intros i l Hi Hl Hj. apply Hf; try done. apply Hj. lia.
Qed.

Lemma zip_assign_refines f fb b rhs v :
  (forall x y, 0 <= x < 2 ^ W -> 0 <= y < 2 ^ W -> 0 <= f x y < 2 ^ W) ->
  (forall x y j, 0 <= j < W -> Z.testbit (f x y) j = fb (Z.testbit x j) (Z.testbit y j)) ->
  fb false false = false ->
  wf b -> wf rhs -> m_bits_number b = m_bits_number rhs -> 0 <= v ->
  (forall p, 0 <= p -> Z.testbit v p = fb (Z.testbit (value b) p) (Z.testbit (value rhs) p)) ->
  refines (Bitset.zip_assign f b rhs) (m_bits_number b) v.
Proof.
  intros Hf Hfb H00 H H' Hn Hv Hbits. pose proof H as [H1 H2 H3 H4].
  pose proof H' as [R1 R2 R3 R4]. rewrite <- Hn in *. pose proof (W_pos W).
  unfold Bitset.zip_assign, Bitset.size. rewrite <- Hn, Z.eqb_refl.
  destruct (for_up_update
    (fun i l => x ← vget l i; y ← vget (m_blocks rhs) i; vset l i (f x y))
    (fun i x => f x (blk (m_blocks rhs) i)) (length (m_blocks b)) 0 (m_blocks b))
    as (bl & -> & Hl & Hj); [lia|unfold vsize; lia| |].
  { intros i l Hi Hl Hb. fold (vsize (m_blocks b)) in Hi. vstep. by rewrite Hb. }
  simpl. fold (vsize (m_blocks b)) in Hj. apply refines_bits; try done.
  - congruence.
  - apply blocks_ok_ext. intros i Hi. rewrite Hj.
    zcase; simpl; try lia. apply Hf; eauto with yacl.
  - intros p Hp. rewrite Hbits by lia. by rewrite !value_high by (done || lia).
  - intros p Hp. rewrite Hbits by done. unfold BitSetFacts.bit. rewrite Hj.
    destruct (div_mod_pos p W) as [E Hm]; [done|].
    pose proof (Z.div_pos p W Hp).
    destruct (Z.leb_spec 0 (p / W)), (Z.ltb_spec (p / W) (0 + vsize (m_blocks b)));
      simpl; try lia.
    + by rewrite Hfb, !bits_in_block by done.
    + rewrite blk_outside, Z.bits_0 by lia.
      rewrite !testbit_value by done. rewrite !bit_outside by (done || nia). done.
Qed.

Lemma and_assign_refines b rhs :
  wf b -> wf rhs -> m_bits_number b = m_bits_number rhs ->
  refines (Bitset.and_assign b rhs) (m_bits_number b) (Z.land (value b) (value rhs)).
Proof.
  intros H H' Hn. apply (zip_assign_refines _ andb); try done; eauto with yacl.
  - intros. apply Z.land_spec.
  - apply Z.land_nonneg. left. by apply value_nonneg.
  - intros. apply Z.land_spec.
Qed.

Lemma or_assign_refines b rhs :
  wf b -> wf rhs -> m_bits_number b = m_bits_number rhs ->
  refines (Bitset.or_assign b rhs) (m_bits_number b) (Z.lor (value b) (value rhs)).
Proof.
  intros H H' Hn. apply (zip_assign_refines _ orb); try done; eauto with yacl.
  - intros. apply Z.lor_spec.
  - apply Z.lor_nonneg. split; by apply value_nonneg.
  - intros. apply Z.lor_spec.
Qed.

Lemma xor_assign_refines b rhs :
  wf b -> wf rhs -> m_bits_number b = m_bits_number rhs ->
  refines (Bitset.xor_assign b rhs) (m_bits_number b) (Z.lxor (value b) (value rhs)).
Proof.
  intros H H' Hn. apply (zip_assign_refines _ xorb); try done; eauto with yacl.
  - intros. apply Z.lxor_spec.
  - apply Z.lxor_nonneg. pose proof (value_nonneg b H). pose proof (value_nonneg rhs H'). lia.
  - intros. apply Z.lxor_spec.
Qed.

Lemma sub_assign_refines b rhs :
  wf b -> wf rhs -> m_bits_number b = m_bits_number rhs ->
  refines (Bitset.sub_assign W b rhs) (m_bits_number b) (Z.ldiff (value b) (value rhs)).
Proof.
  intros H H' Hn. apply (zip_assign_refines _ (fun x y => x && negb y)); try done; eauto with yacl.
  - intros x y j Hj. rewrite Z.land_spec, testbit_bnot_cast by (done || lia).
    by destruct (Z.ltb_spec j W); [|lia].
  - apply Z.ldiff_nonneg. left. by apply value_nonneg.
  - intros. apply Z.ldiff_spec.
Qed.
End Ops.
