(* ===== verification/BitSetRange.v ===== *)
(** The range updates [set(pos, len, value)] and [flip(pos, len)] of
    [dynamic_bitset] (partial first and last blocks, full blocks between), and its
    shifts [<<=] and [>>=], block by block. *)

From Stdlib Require Import ZArith Lia ZifyBool Bool.
From stdpp Require Import base numbers list option.
From S2P Require Import Prelude BitBlock BitSet BitSetFacts BitSetOps.

Local Open Scope Z_scope.

Section Range.
Context (W : Z) {HW : BlockType W}.

Local Abbreviation wf := (wf W).
Local Abbreviation value := (value W).
Local Abbreviation bit := (bit W).
Local Abbreviation refines := (refines W).
Local Abbreviation blocks_ok := (blocks_ok W).

(** What the two functions share: [upd] changes the bits [first..last] of a
    block, [fl i] changes the whole block [i]. *)
Definition range_update (upd : Z -> Z -> Z -> Z) (fl : Z -> list Z -> option (list Z))
    (b : dynamic_bitset) (pos len : Z) : option dynamic_bitset :=
  assert! pos <? Bitset.size b;
  if len =? 0 then Some b else
  assert! pos + len - 1 <? Bitset.size b;
  let first_block := block_index W pos in
  let last_block := block_index W (pos + len - 1) in
  let first_bit_index := bit_index W pos in
  let last_bit_index := bit_index W (pos + len - 1) in
  if first_block =? last_block then
    x ← vget (m_blocks b) first_block;
    bl ← vset (m_blocks b) first_block (upd x first_bit_index last_bit_index);
    Some (mk_bitset bl (m_bits_number b))
  else
    '(first_full_block, bl1) ←
      (if negb (first_bit_index =? 0) then
         x ← vget (m_blocks b) first_block;
         bl ← vset (m_blocks b) first_block (upd x first_bit_index (block_last_bit_index W));
         Some (first_block + 1, bl)
       else Some (first_block, m_blocks b));
    '(last_full_block, bl2) ←
      (if negb (last_bit_index =? block_last_bit_index W) then
         x ← vget bl1 last_block;
         bl ← vset bl1 last_block (upd x 0 last_bit_index);
         Some (last_block - 1, bl)
       else Some (last_block, bl1));
    bl3 ← for_up (Z.to_nat (last_full_block - first_full_block + 1)) first_full_block fl bl2;
    Some (mk_bitset bl3 (m_bits_number b)).

Context (upd : Z -> Z -> Z -> Z) (fl : Z -> list Z -> option (list Z))
        (full : Z -> Z) (nb : bool -> bool).
Hypothesis upd_range : forall x f l, 0 <= x < 2 ^ W -> 0 <= upd x f l < 2 ^ W.
Hypothesis upd_bits : forall x f l j,
  0 <= f <= l -> l < W -> 0 <= j < W ->
  Z.testbit (upd x f l) j
  = if (f <=? j) && (j <=? l) then nb (Z.testbit x j) else Z.testbit x j.
Hypothesis full_range : forall x, 0 <= x < 2 ^ W -> 0 <= full x < 2 ^ W.
Hypothesis full_bits : forall x j, 0 <= j < W -> Z.testbit (full x) j = nb (Z.testbit x j).
Hypothesis fl_spec : forall i l, 0 <= i < vsize l ->
  fl i l = Some (<[Z.to_nat i := full (blk l i)]> l).

(** The blocks [range_update] ends with, when the range spans several blocks:
    block [i] has the bits [lo i .. hi i] updated. *)
Lemma range_blocks bl n fb lb fi li :
  blocks_ok bl -> 0 <= fb < lb -> lb < vsize bl -> 0 <= fi < W -> 0 <= li < W ->
  exists r,
    ('(first_full_block, bl1) ←
      (if negb (fi =? 0) then
         x ← vget bl fb;
         bl' ← vset bl fb (upd x fi (block_last_bit_index W));
         Some (fb + 1, bl')
       else Some (fb, bl));
    '(last_full_block, bl2) ←
      (if negb (li =? block_last_bit_index W) then
         x ← vget bl1 lb;
         bl' ← vset bl1 lb (upd x 0 li);
         Some (lb - 1, bl')
       else Some (lb, bl1));
    bl3 ← for_up (Z.to_nat (last_full_block - first_full_block + 1)) first_full_block fl bl2;
    Some (mk_bitset bl3 n))
    = Some (mk_bitset r n) /\ vsize r = vsize bl /\ blocks_ok r /\
    forall i j, 0 <= j < W ->
      Z.testbit (blk r i) j =
      if (fb <=? i) && (i <=? lb) && ((fb <? i) || (fi <=? j)) && ((i <? lb) || (j <=? li))
      then nb (Z.testbit (blk bl i) j) else Z.testbit (blk bl i) j.
Proof.
  intros Hok Hfb Hlb Hfi Hli. pose proof (W_pos W).
  set (bl1 := if negb (fi =? 0)
              then <[Z.to_nat fb := upd (blk bl fb) fi (W - 1)]> bl else bl).
  set (ff := if negb (fi =? 0) then fb + 1 else fb).
  assert (E1 : (if negb (fi =? 0) then
         x ← vget bl fb;
         bl' ← vset bl fb (upd x fi (block_last_bit_index W));
         Some (fb + 1, bl')
       else Some (fb, bl)) = Some (ff, bl1)).
  { subst ff bl1. destruct (negb (fi =? 0)); [|done]. by vstep. }
  rewrite E1. cbn [mbind option_bind].
  assert (L1 : vsize bl1 = vsize bl) by (subst bl1; destruct (negb (fi =? 0)); by rewrite ?vsize_insert).
  assert (B1 : forall i, blk bl1 i = if negb (fi =? 0) && (i =? fb)
                                     then upd (blk bl fb) fi (W - 1) else blk bl i).
  { intros i. subst bl1. destruct (negb (fi =? 0)); simpl; [|done].
    by rewrite blk_insert by lia. }
  clearbody bl1. set (bl2 := if negb (li =? W - 1)
              then <[Z.to_nat lb := upd (blk bl1 lb) 0 li]> bl1 else bl1).
  set (lf := if negb (li =? W - 1) then lb - 1 else lb).
  assert (E2 : (if negb (li =? block_last_bit_index W) then
         x ← vget bl1 lb;
         bl' ← vset bl1 lb (upd x 0 li);
         Some (lb - 1, bl')
       else Some (lb, bl1)) = Some (lf, bl2)).
  { subst lf bl2. unfold block_last_bit_index. destruct (negb (li =? W - 1)); [|done].
    by vstep. }
  rewrite E2. cbn [mbind option_bind].
  assert (L2 : vsize bl2 = vsize bl) by (subst bl2; destruct (negb (li =? W - 1)); by rewrite ?vsize_insert).
  assert (B2 : forall i, blk bl2 i = if negb (li =? W - 1) && (i =? lb)
                                     then upd (blk bl1 lb) 0 li else blk bl1 i).
  { intros i. subst bl2. destruct (negb (li =? W - 1)); simpl; [|done].
    by rewrite blk_insert by lia. }
  assert (Hff : fb <= ff <= fb + 1) by (subst ff; destruct (negb (fi =? 0)); lia).
  assert (Hlf : lb - 1 <= lf <= lb) by (subst lf; destruct (negb (li =? W - 1)); lia).
  destruct (for_up_update fl (fun _ x => full x) (Z.to_nat (lf - ff + 1)) ff bl2)
    as (r & -> & Lr & Br); [lia|lia| |].
  { intros i l Hi Hl Hb. rewrite fl_spec by lia. by rewrite Hb. }
  exists r. split; [done|]. split; [congruence|].
  assert (Hbits : forall i j, 0 <= j < W ->
      Z.testbit (blk r i) j =
      if (fb <=? i) && (i <=? lb) && ((fb <? i) || (fi <=? j)) && ((i <? lb) || (j <=? li))
      then nb (Z.testbit (blk bl i) j) else Z.testbit (blk bl i) j).
  { intros i j Hj. rewrite Br.
    replace ((ff <=? i) && (i <? ff + Z.of_nat (Z.to_nat (lf - ff + 1))))
      with ((ff <=? i) && (i <=? lf)) by lia.
    destruct (Z.eqb_spec i lb) as [->|Hil].
    - assert (blk bl1 lb = blk bl lb) as Eb.
      { rewrite B1. by replace (negb (fi =? 0) && (lb =? fb)) with false by lia. }
      rewrite B2, Eb, Z.eqb_refl, andb_true_r. subst lf.
      destruct (Z.eqb_spec li (W - 1)) as [El|El]; cbn [negb].
      + replace ((ff <=? lb) && (lb <=? lb)) with true by lia.
        replace (_ && _) with true by lia. by rewrite full_bits.
      + replace ((ff <=? lb) && (lb <=? lb - 1)) with false by lia.
        rewrite upd_bits by lia. by replace ((0 <=? j) && (j <=? li)) with
          ((fb <=? lb) && (lb <=? lb) && ((fb <? lb) || (fi <=? j)) && ((lb <? lb) || (j <=? li)))
          by lia.
    - rewrite B2. replace (negb (li =? W - 1) && (i =? lb)) with false by lia.
      rewrite B1. destruct (Z.eqb_spec i fb) as [->|Hif].
      + rewrite andb_true_r. subst ff. destruct (Z.eqb_spec fi 0) as [El|El]; cbn [negb].
        * replace ((fb <=? fb) && (fb <=? lf)) with true by lia.
          replace (_ && _) with true by lia. by rewrite full_bits.
        * replace ((fb + 1 <=? fb) && (fb <=? lf)) with false by lia.
          rewrite upd_bits by lia. by replace ((fi <=? j) && (j <=? W - 1)) with
          ((fb <=? fb) && (fb <=? lb) && ((fb <? fb) || (fi <=? j)) && ((fb <? lb) || (j <=? li)))
          by lia.
      + rewrite andb_false_r. rewrite <- (full_bits (blk bl i) j) by done.
        replace ((fb <=? i) && (i <=? lb) && ((fb <? i) || (fi <=? j)) && ((i <? lb) || (j <=? li)))
          with ((ff <=? i) && (i <=? lf)) by lia.
        by destruct (_ && _). }
  split; [|done].
  assert (R1 : forall i, 0 <= blk bl1 i < 2 ^ W).
  { intros i. rewrite B1. destruct (_ && _); eauto with yacl. }
  assert (R2 : forall i, 0 <= blk bl2 i < 2 ^ W).
  { intros i. rewrite B2. destruct (_ && _); eauto with yacl. }
  apply blocks_ok_ext. intros i Hi. rewrite Br. destruct (_ && _); eauto.
Qed.

(** The updated value: [nb] on the bits of the range. *)
Lemma range_update_refines b pos len v :
  wf b -> 0 <= pos < m_bits_number b -> 0 <= len -> pos + len <= m_bits_number b -> 0 <= v ->
  (forall p, 0 <= p -> Z.testbit v p =
     if (pos <=? p) && (p <? pos + len) then nb (Z.testbit (value b) p)
     else Z.testbit (value b) p) ->
  refines (range_update upd fl b pos len) (m_bits_number b) v.
Proof.
  intros H Hpos Hlen Hend Hv Hbits. pose proof H as [H1 H2 H3 H4]. pose proof (W_pos W).
  unfold range_update, Bitset.size. destruct (Z.ltb_spec pos (m_bits_number b)); [|lia].
  destruct (Z.eqb_spec len 0) as [->|Hne].
  { eapply refines_eq; [by apply wf_refines|done|].
    apply Z.bits_inj'. intros p Hp. rewrite Hbits by done. zcase; simpl; try done; lia. }
  destruct (Z.ltb_spec (pos + len - 1) (m_bits_number b)); [|lia].
  pose proof (pos_in_range W b pos H Hpos) as Hfb.
  pose proof (pos_in_range W b (pos + len - 1) H ltac:(lia)) as Hlb.
  pose proof (bit_index_range W pos) as Hfi.
  pose proof (bit_index_range W (pos + len - 1)) as Hli.
  destruct (div_mod_pos pos W) as [Epos _]; [done|].
  destruct (div_mod_pos (pos + len - 1) W) as [Eend _]; [done|].
  unfold block_index, bit_index in *.
  assert (Hhigh : forall p, m_bits_number b <= p -> Z.testbit v p = false).
  { intros p Hp. rewrite Hbits by lia. destruct (Z.ltb_spec p (pos + len)); [lia|].
    rewrite andb_false_r. by apply value_high. }
  destruct (Z.eqb_spec (pos / W) ((pos + len - 1) / W)) as [Eb|Eb].
  - vstep. apply refines_update; try done; [eauto with yacl|].
    intros p Hp. rewrite Hbits by done. destruct (div_mod_pos p W) as [Ep Hp1]; [done|].
    rewrite <- !(bits_in_block W) by done.
    destruct (Z.eqb_spec (p / W) (pos / W)) as [E|E].
    + pose proof (le_position W pos p) as Q1. pose proof (le_position W p (pos + len - 1)) as Q2.
      rewrite upd_bits by nia. rewrite E.
      generalize dependent (p mod W). intros. generalize dependent ((pos + len - 1) mod W). intros.
      generalize dependent (pos mod W). intros. zcase; simpl; try done; lia.
    + pose proof (le_position W pos p) as Q1. pose proof (le_position W p (pos + len - 1)) as Q2.
      zcase; simpl; try done; lia.
  - destruct (range_blocks (m_blocks b) (m_bits_number b) (pos / W) ((pos + len - 1) / W)
               (pos mod W) ((pos + len - 1) mod W)) as (r & -> & Lr & Or & Br); try done; try nia.
    apply refines_bits; try done; [congruence|]. intros p Hp. rewrite Hbits by done.
    destruct (div_mod_pos p W) as [Ep Hp1]; [done|].
    unfold BitSetFacts.bit. rewrite Br, !(bits_in_block W) by done.
    pose proof (le_position W pos p) as Q1. pose proof (le_position W p (pos + len - 1)) as Q2.
    replace ((pos <=? p) && (p <? pos + len)) with
      ((pos / W <=? p / W) && (p / W <=? (pos + len - 1) / W)
       && ((pos / W <? p / W) || (pos mod W <=? p mod W))
       && ((p / W <? (pos + len - 1) / W) || (p mod W <=? (pos + len - 1) mod W))); [done|].
    clear - Q1 Q2 Eb.
    generalize dependent (p mod W). generalize dependent ((pos + len - 1) mod W).
    generalize dependent (pos mod W). generalize dependent (p / W).
    generalize dependent ((pos + len - 1) / W). generalize dependent (pos / W).
    intros. apply eq_true_iff_eq. rewrite !andb_true_iff, !orb_true_iff.
    rewrite !Z.leb_le, !Z.ltb_lt. lia.
Qed.
End Range.

Section RangeOps.
Context (W : Z) {HW : BlockType W}.

Lemma testbit_range_mask pos len p :
  0 <= pos -> 0 <= len -> 0 <= p ->
  Z.testbit (Z.shiftl (Z.ones len) pos) p = (pos <=? p) && (p <? pos + len).
Proof. intros. autorewrite with zbits. lia. Qed.

Lemma range_mask_nonneg pos len : 0 <= len -> 0 <= Z.shiftl (Z.ones len) pos.
Proof.
  intros. apply Z.shiftl_nonneg. rewrite Z.ones_equiv.
  pose proof (Z.pow_pos_nonneg 2 len). lia.
Qed.

(** [set(pos, len, value)] sets or clears the [len] bits from [pos] on. *)
Lemma set_range_refines b pos len (v : bool) :
  wf W b -> 0 <= pos < m_bits_number b -> 0 <= len -> pos + len <= m_bits_number b ->
  refines W (Bitset.set_range W b pos len v) (m_bits_number b)
    (if v then Z.lor (value W b) (Z.shiftl (Z.ones len) pos)
     else Z.ldiff (value W b) (Z.shiftl (Z.ones len) pos)).
Proof.
  intros H Hpos Hlen Hend. pose proof (value_nonneg W b H).
  pose proof (range_mask_nonneg pos len Hlen).
  change (Bitset.set_range W b pos len v) with
    (range_update W (fun x f l => set_block_bits W x f l v)
       (fun i bl => vset bl i (if v then one_block W else zero_block W)) b pos len).
  apply (range_update_refines W _ _ (fun _ => if v then one_block W else zero_block W)
           (fun _ => v)); try done.
  - intros. by apply set_block_bits_range.
  - intros. by apply testbit_set_block_bits.
  - intros. destruct v; eauto with yacl.
  - intros x j Hj. destruct v; [|by rewrite (zero_block_eq W), Z.bits_0].
    rewrite testbit_one_block by done. lia.
  - intros. by apply vset_Some.
  - destruct v; [apply Z.lor_nonneg|apply Z.ldiff_nonneg]; lia.
  - intros p Hp. destruct v; rewrite ?Z.lor_spec, ?Z.ldiff_spec, testbit_range_mask by lia;
      destruct ((pos <=? p) && (p <? pos + len)); simpl;
      by rewrite ?orb_true_r, ?orb_false_r, ?andb_true_r, ?andb_false_r.
Qed.

Lemma flip_range_refines b pos len :
  wf W b -> 0 <= pos < m_bits_number b -> 0 <= len -> pos + len <= m_bits_number b ->
  refines W (Bitset.flip_range W b pos len) (m_bits_number b)
    (Z.lxor (value W b) (Z.shiftl (Z.ones len) pos)).
Proof.
  intros H Hpos Hlen Hend. pose proof (value_nonneg W b H).
  pose proof (range_mask_nonneg pos len Hlen).
  change (Bitset.flip_range W b pos len) with
    (range_update W (flip_block_bits W)
       (fun i bl => x ← vget bl i; vset bl i (block_type W (bnot W x))) b pos len).
  apply (range_update_refines W _ _ (fun x => block_type W (bnot W x)) negb); try done.
  - intros. by apply flip_block_bits_range.
  - intros. by apply testbit_flip_block_bits.
  - intros. by apply block_type_range.
  - intros x j Hj. rewrite testbit_bnot_cast by (done || lia).
    by destruct (Z.ltb_spec j W); [|lia].
  - intros i l Hi. by vstep.
  - apply Z.lxor_nonneg. lia.
  - intros p Hp. rewrite Z.lxor_spec, testbit_range_mask by lia.
    destruct ((pos <=? p) && (p <? pos + len)); by rewrite ?xorb_true_r, ?xorb_false_r.
Qed.
End RangeOps.

Section Shift.
Context (W : Z) {HW : BlockType W}.

Local Abbreviation wf := (wf W).
Local Abbreviation value := (value W).
Local Abbreviation bit := (bit W).
Local Abbreviation refines := (refines W).
Local Abbreviation blocks_ok := (blocks_ok W).

(** [std::fill] with the zero block. *)
Lemma fill_zero k lo bl :
  0 <= lo -> lo + Z.of_nat k <= vsize bl ->
  exists bl', for_up k lo (fun i bl => vset bl i (zero_block W)) bl = Some bl' /\
    vsize bl' = vsize bl /\
    forall j, blk bl' j = if (lo <=? j) && (j <? lo + Z.of_nat k) then 0 else blk bl j.
Proof.
  intros Hlo Hhi. destruct (for_up_rewrite (fun i bl => vset bl i (zero_block W))
    (fun _ => zero_block W) k lo bl) as (bl' & E & Hl & Hj); [done|done| |].
  - intros i l Hi Hl _. apply vset_Some. lia.
  - exists bl'. split; [done|]. split; [done|]. intros j. rewrite Hj.
    by rewrite (zero_block_eq W).
Qed.

Lemma apply_left_shift_bits b shift :
  wf b -> 0 < shift < m_bits_number b ->
  exists bl, Bitset.apply_left_shift W b shift = Some (mk_bitset bl (m_bits_number b)) /\
    vsize bl = vsize (m_blocks b) /\ blocks_ok bl /\
    forall p, 0 <= p < m_bits_number b ->
      bit bl p = if p <? shift then false else bit (m_blocks b) (p - shift).
Proof.
  intros H Hs. pose proof H as [H1 H2 H3 H4]. pose proof (W_pos W).
  set (n := m_bits_number b) in *. set (bl0 := m_blocks b) in *.
  destruct (blocks_required_bound W n H1) as [Hb0 Hb1].
  unfold Bitset.apply_left_shift. fold bl0 n.
  replace (0 <? shift) with true by lia.
  replace (shift <? vsize bl0 * W) with true by lia.
  destruct (div_mod_pos shift W) as [Es Hs1]; [done|].
  pose proof (Z.div_pos shift W ltac:(lia) ltac:(done)) as Hs0.
  set (bs := shift / W) in *. set (off := shift mod W) in *.
  assert (Hbs : bs < vsize bl0) by nia.
  assert (Hstep : exists bl,
    (if off =? 0 then
       for_down (Z.to_nat (vsize bl0 - bs)) (vsize bl0 - 1)
         (fun i bl => x ← vget bl (i - bs); vset bl i x) bl0
     else
       bl ← for_down (Z.to_nat (vsize bl0 - 1 - bs)) (vsize bl0 - 1)
              (fun i bl => x ← vget bl (i - bs);
                           y ← vget bl (i - bs - 1);
                           vset bl i (block_type W
                             (Z.lor (shl W x off) (block_type W (shr y (W - off))))))
              bl0;
       x ← vget bl 0;
       vset bl bs (block_type W (shl W x off))) = Some bl /\ vsize bl = vsize bl0 /\
    forall i, bs <= i < vsize bl0 -> 0 <= blk bl i < 2 ^ W /\
      forall j, 0 <= j < W ->
        Z.testbit (blk bl i) j =
        if off <=? j then Z.testbit (blk bl0 (i - bs)) (j - off)
        else Z.testbit (blk bl0 (i - bs - 1)) (j - off + W)).
  { destruct (Z.eqb_spec off 0) as [E0|E0].
    - destruct (for_down_rewrite (fun i bl => x ← vget bl (i - bs); vset bl i x)
        (fun i => blk bl0 (i - bs)) (Z.to_nat (vsize bl0 - bs)) (vsize bl0 - 1) bl0)
        as (bl & -> & Hl & Hj); [lia|lia| |].
      + intros i l Hi Hl Hj. vstep. by rewrite Hj by lia.
      + exists bl. split; [done|]. split; [done|]. intros i Hi.
        rewrite Hj. replace (_ && _) with true by lia. split; [eauto with yacl|].
        intros j Hj'. replace (off <=? j) with true by lia. f_equal. lia.
    - destruct (for_down_rewrite (fun i bl => x ← vget bl (i - bs);
                           y ← vget bl (i - bs - 1);
                           vset bl i (block_type W
                             (Z.lor (shl W x off) (block_type W (shr y (W - off))))))
        (fun i => block_type W (Z.lor (shl W (blk bl0 (i - bs)) off)
                    (block_type W (shr (blk bl0 (i - bs - 1)) (W - off)))))
        (Z.to_nat (vsize bl0 - 1 - bs)) (vsize bl0 - 1) bl0)
        as (bl & -> & Hl & Hj); [lia|lia| |].
      + intros i l Hi Hl Hj. vstep. by rewrite !Hj by lia.
      + cbn [mbind option_bind]. vstep. eexists. split; [done|].
        rewrite vsize_insert. split; [done|]. intros i Hi. rewrite blk_insert by lia.
        destruct (Z.eqb_spec i bs) as [->|Hne].
        * split; [by apply block_type_range|]. intros j Hj'.
          rewrite testbit_shl_cast, Hj by (done || lia).
          replace (j <? W) with true by lia. replace (_ && (0 <=? vsize bl0 - 1)) with false by lia.
          simpl. rewrite Z.sub_diag. destruct (Z.leb_spec off j); [done|].
          rewrite Z.testbit_neg_r by lia. by rewrite blk_outside, Z.bits_0 by lia.
        * rewrite Hj. replace (_ && _) with true by lia.
          split; [by apply block_type_range|]. intros j Hj'.
          rewrite testbit_block_type, Z.lor_spec, testbit_block_type by done.
          unfold shl, shr. rewrite testbit_arith, testbit_shiftl, testbit_shiftr by (done || lia).
          replace (j <? W) with true by lia. simpl.
          destruct (Z.leb_spec off j).
          -- rewrite (testbit_high W (blk bl0 (i - bs - 1))) by (lia || eauto with yacl).
             by rewrite orb_false_r.
          -- rewrite (Z.testbit_neg_r _ (j - off)) by lia. simpl. f_equal. lia. }
  destruct Hstep as (bl1 & -> & Hl1 & Hbl1). cbn [mbind option_bind].
  destruct (fill_zero (Z.to_nat bs) 0 bl1) as (bl & -> & Hl & Hbl); [lia|lia|].
  cbn [mbind option_bind]. exists bl. split; [done|]. split; [congruence|].
  pose proof (pow_W_pos W).
  split.
  - apply blocks_ok_ext. intros i Hi. rewrite Hbl.
    destruct (Z.ltb_spec i bs).
    + replace (_ && _) with true by lia. lia.
    + replace (_ && _) with false by lia. apply Hbl1. lia.
  - intros p Hp. destruct (div_mod_pos p W) as [Ep Hp1]; [done|].
    pose proof (block_index_bound W n p Hp) as Hpi. unfold block_index in Hpi.
    unfold BitSetFacts.bit at 1. rewrite Hbl. destruct (Z.ltb_spec (p / W) bs).
    + replace (_ && _) with true by lia. rewrite Z.bits_0.
      by replace (p <? shift) with true by nia.
    + replace (_ && _) with false by lia.
      destruct (Hbl1 (p / W)) as [_ Hb]; [lia|]. rewrite Hb by done.
      destruct (Z.leb_spec off (p mod W)).
      * replace (p <? shift) with false by nia.
        replace (p - shift) with ((p / W - bs) * W + (p mod W - off)) by lia.
        unfold BitSetFacts.bit.
        destruct (div_mod_split W (p / W - bs) (p mod W - off)) as [-> ->]; [lia|done].
      * destruct (Z.eq_dec (p / W) bs) as [E|E].
        -- replace (p <? shift) with true by nia.
           by rewrite blk_outside, Z.bits_0 by lia.
        -- replace (p <? shift) with false by nia.
           replace (p - shift) with ((p / W - bs - 1) * W + (p mod W - off + W)) by lia.
           unfold BitSetFacts.bit.
           destruct (div_mod_split W (p / W - bs - 1) (p mod W - off + W)) as [-> ->]; [lia|done].
Qed.

Lemma shl_assign_refines b shift :
  wf b -> 0 <= shift ->
  refines (Bitset.shl_assign W b shift) (m_bits_number b)
    (Z.shiftl (value b) shift mod 2 ^ m_bits_number b).
Proof.
  intros H Hs. pose proof H as [H1 H2 H3 H4]. pose proof (value_range W b H) as Hv.
  assert (Hp : 0 < 2 ^ m_bits_number b) by (apply Z.pow_pos_nonneg; lia).
  unfold Bitset.shl_assign. destruct (Z.eqb_spec shift 0) as [->|Hne]; simpl.
  { eapply refines_eq; [by apply wf_refines|done|]. rewrite Z.shiftl_0_r.
    symmetry. by apply Z.mod_small. }
  destruct (Z.leb_spec (m_bits_number b) shift) as [Hge|Hlt].
  { eapply refines_eq; [by apply reset_all_refines|done|].
    apply Z.bits_inj'. intros p Hp'. autorewrite with zbits.
    destruct (Z.ltb_spec p (m_bits_number b)); [|done]. symmetry. apply Z.testbit_neg_r. lia. }
  destruct (apply_left_shift_bits b shift H) as (bl & -> & Hl & Hok & Hbits); [lia|].
  simpl. apply refines_sanitize_bits; try done; [congruence| | |].
  - apply Z.mod_pos_bound. done.
  - intros p Hp'. autorewrite with zbits. by replace (p <? m_bits_number b) with false by lia.
  - intros p Hp'. rewrite Hbits by done. autorewrite with zbits.
    replace (p <? m_bits_number b) with true by lia. simpl.
    destruct (Z.ltb_spec p shift); [by rewrite Z.testbit_neg_r by lia|].
    by rewrite testbit_value by (done || lia).
Qed.

Lemma apply_right_shift_bits b shift :
  wf b -> 0 < shift < m_bits_number b ->
  exists bl, Bitset.apply_right_shift W b shift = Some (mk_bitset bl (m_bits_number b)) /\
    vsize bl = vsize (m_blocks b) /\ blocks_ok bl /\
    forall p, 0 <= p -> bit bl p = bit (m_blocks b) (p + shift).
Proof.
  intros H Hs. pose proof H as [H1 H2 H3 H4]. pose proof (W_pos W).
  set (n := m_bits_number b) in *. set (bl0 := m_blocks b) in *.
  destruct (blocks_required_bound W n H1) as [Hb0 Hb1].
  unfold Bitset.apply_right_shift. fold bl0 n.
  replace (0 <? shift) with true by lia.
  replace (shift <? vsize bl0 * W) with true by lia.
  destruct (div_mod_pos shift W) as [Es Hs1]; [done|].
  pose proof (Z.div_pos shift W ltac:(lia) ltac:(done)) as Hs0.
  set (bs := shift / W) in *. set (off := shift mod W) in *.
  assert (Hbs : bs < vsize bl0) by nia.
  assert (Hstep : exists bl,
    (if off =? 0 then
       for_up (Z.to_nat (vsize bl0 - bs - 1 + 1)) 0
         (fun i bl => x ← vget bl (i + bs); vset bl i x) bl0
     else
       bl ← for_up (Z.to_nat (vsize bl0 - bs - 1)) 0
              (fun i bl => x ← vget bl (i + bs);
                           y ← vget bl (i + bs + 1);
                           vset bl i (block_type W
                             (Z.lor (shr x off) (block_type W (shl W y (W - off))))))
              bl0;
       x ← vget bl (vsize bl0 - 1);
       vset bl (vsize bl0 - bs - 1) (block_type W (shr x off))) = Some bl /\
    vsize bl = vsize bl0 /\
    forall i, 0 <= i < vsize bl0 - bs -> 0 <= blk bl i < 2 ^ W /\
      forall j, 0 <= j < W ->
        Z.testbit (blk bl i) j =
        if j <? W - off then Z.testbit (blk bl0 (i + bs)) (j + off)
        else Z.testbit (blk bl0 (i + bs + 1)) (j + off - W)).
  { destruct (Z.eqb_spec off 0) as [E0|E0].
    - destruct (for_up_rewrite (fun i bl => x ← vget bl (i + bs); vset bl i x)
        (fun i => blk bl0 (i + bs)) (Z.to_nat (vsize bl0 - bs - 1 + 1)) 0 bl0)
        as (bl & -> & Hl & Hj); [lia|lia| |].
      + intros i l Hi Hl Hj. vstep. by rewrite Hj by lia.
      + exists bl. split; [done|]. split; [done|]. intros i Hi.
        rewrite Hj. replace (_ && _) with true by lia. split; [eauto with yacl|].
        intros j Hj'. replace (j <? W - off) with true by lia. f_equal. lia.
    - destruct (for_up_rewrite (fun i bl => x ← vget bl (i + bs);
                           y ← vget bl (i + bs + 1);
                           vset bl i (block_type W
                             (Z.lor (shr x off) (block_type W (shl W y (W - off))))))
        (fun i => block_type W (Z.lor (shr (blk bl0 (i + bs)) off)
                    (block_type W (shl W (blk bl0 (i + bs + 1)) (W - off)))))
        (Z.to_nat (vsize bl0 - bs - 1)) 0 bl0)
        as (bl & -> & Hl & Hj); [lia|lia| |].
      + intros i l Hi Hl Hj. vstep. by rewrite !Hj by lia.
      + cbn [mbind option_bind]. vstep. eexists. split; [done|].
        rewrite vsize_insert. split; [done|]. intros i Hi. rewrite blk_insert by lia.
        destruct (Z.eqb_spec i (vsize bl0 - bs - 1)) as [->|Hne].
        * split; [by apply block_type_range|]. intros j Hj'.
          rewrite testbit_block_type, Hj by done. unfold shr. rewrite testbit_shiftr by lia.
          replace (j <? W) with true by lia.
          replace (_ && (vsize bl0 - 1 <? _)) with false by lia. simpl.
          replace (vsize bl0 - bs - 1 + bs) with (vsize bl0 - 1) by lia.
          destruct (Z.ltb_spec j (W - off)); [done|].
          rewrite (testbit_high W) by (lia || eauto with yacl).
          by rewrite blk_outside, Z.bits_0 by lia.
        * rewrite Hj. replace (_ && _) with true by lia.
          split; [by apply block_type_range|]. intros j Hj'.
          rewrite testbit_block_type, Z.lor_spec, testbit_shl_cast by (done || lia).
          unfold shr. rewrite testbit_shiftr by (done || lia).
          replace (j <? W) with true by lia. simpl.
          destruct (Z.ltb_spec j (W - off)).
          -- rewrite (Z.testbit_neg_r _ (j - (W - off))) by lia. by rewrite orb_false_r.
          -- rewrite (testbit_high W (blk bl0 (i + bs))) by (lia || eauto with yacl).
             simpl. f_equal. lia. }
  destruct Hstep as (bl1 & -> & Hl1 & Hbl1). cbn [mbind option_bind].
  destruct (fill_zero (Z.to_nat (vsize bl0 - (vsize bl0 - bs - 1 + 1))) (vsize bl0 - bs - 1 + 1) bl1)
    as (bl & -> & Hl & Hbl); [lia|lia|].
  cbn [mbind option_bind]. exists bl. split; [done|]. split; [congruence|].
  pose proof (pow_W_pos W).
  split.
  - apply blocks_ok_ext. intros i Hi. rewrite Hbl.
    destruct (Z.ltb_spec i (vsize bl0 - bs)).
    + replace (_ && _) with false by lia. apply Hbl1. lia.
    + replace (_ && _) with true by lia. lia.
  - intros p Hp. destruct (div_mod_pos p W) as [Ep Hp1]; [done|].
    pose proof (Z.div_pos p W ltac:(lia) ltac:(done)) as Hpi.
    unfold BitSetFacts.bit at 1. rewrite Hbl. destruct (Z.ltb_spec (p / W) (vsize bl0 - bs)).
    + replace (_ && _) with false by lia.
      destruct (Hbl1 (p / W)) as [_ Hb]; [lia|]. rewrite Hb by done.
      unfold BitSetFacts.bit. destruct (Z.ltb_spec (p mod W) (W - off)).
      * replace (p + shift) with ((p / W + bs) * W + (p mod W + off)) by lia.
        destruct (div_mod_split W (p / W + bs) (p mod W + off)) as [-> ->]; [lia|done].
      * replace (p + shift) with ((p / W + bs + 1) * W + (p mod W + off - W)) by lia.
        destruct (div_mod_split W (p / W + bs + 1) (p mod W + off - W)) as [-> ->]; [lia|done].
    + rewrite (bit_outside W bl0) by (done || nia).
      destruct (Z.ltb_spec (p / W) (vsize bl0)).
      * replace (_ && _) with true by lia. apply Z.bits_0.
      * replace (_ && _) with false by lia. by rewrite blk_outside, Z.bits_0 by lia.
Qed.

Lemma shr_assign_refines b shift :
  wf b -> 0 <= shift ->
  refines (Bitset.shr_assign W b shift) (m_bits_number b) (Z.shiftr (value b) shift).
Proof.
  intros H Hs. pose proof H as [H1 H2 H3 H4]. pose proof (value_range W b H) as Hv.
  unfold Bitset.shr_assign. destruct (Z.eqb_spec shift 0) as [->|Hne]; simpl.
  { rewrite Z.shiftr_0_r. by apply wf_refines. }
  destruct (Z.leb_spec (m_bits_number b) shift) as [Hge|Hlt].
  { eapply refines_eq; [by apply reset_all_refines|done|].
    apply Z.bits_inj'. intros p Hp'. autorewrite with zbits.
    by rewrite value_high by (done || lia). }
  destruct (apply_right_shift_bits b shift H) as (bl & -> & Hl & Hok & Hbits); [lia|].
  apply refines_bits; try done; [congruence| | |].
  - apply Z.shiftr_nonneg. lia.
  - intros p Hp'. autorewrite with zbits. by rewrite value_high by (done || lia).
  - intros p Hp'. rewrite Hbits by done. autorewrite with zbits.
    by rewrite testbit_value by (done || lia).
Qed.
End Shift.
