(* ===== verification/BitSetGrow.v ===== *)
(** Growing and shrinking a [dynamic_bitset]: [resize], [push_back], [pop_back],
    the [append] overloads and the constructors. *)

From Stdlib Require Import ZArith Lia ZifyBool Bool.
From stdpp Require Import base numbers list option.
From S2P Require Import Prelude BitBlock BitSet BitSetFacts BitSetOps.

Local Open Scope Z_scope.

Section Grow.
Context (W : Z) {HW : BlockType W}.

Local Abbreviation wf := (wf W).
Local Abbreviation value := (value W).
Local Abbreviation bit := (bit W).
Local Abbreviation refines := (refines W).
Local Abbreviation blocks_ok := (blocks_ok W).

Lemma blocks_required_mono n n' :
  0 <= n <= n' -> blocks_required W n <= blocks_required W n'.
Proof.
  intros Hn. destruct (blocks_required_bound W n) as [_ H1]; [lia|].
  destruct (blocks_required_bound W n') as [_ H2]; [lia|]. pose proof (W_pos W). nia.
Qed.

(** The number [resize] computes. *)
Definition resize_spec (n v n' : Z) (fill : bool) : Z :=
  if n' <=? n then v mod 2 ^ n'
  else if fill then Z.lor v (Z.shiftl (Z.ones (n' - n)) n) else v.

Lemma testbit_resize_spec n v n' fill p :
  0 <= n -> 0 <= n' -> 0 <= v < 2 ^ n -> 0 <= p ->
  Z.testbit (resize_spec n v n' fill) p
  = (p <? n') && (if p <? n then Z.testbit v p else fill).
Proof.
  intros Hn Hn' Hv Hp. unfold resize_spec. destruct (Z.leb_spec n' n).
  - autorewrite with zbits. zcase; simpl; try done; lia.
  - destruct fill; autorewrite with zbits.
    + destruct (Z.ltb_spec p n).
      * replace (0 <=? p - n) with false by lia. rewrite orb_false_r.
        by replace (p <? n') with true by lia.
      * rewrite (testbit_high n v) by (done || lia). simpl. lia.
    + destruct (Z.ltb_spec p n); [by replace (p <? n') with true by lia|].
      rewrite (testbit_high n v) by (done || lia). lia.
Qed.

Lemma resize_spec_nonneg n v n' fill :
  0 <= n -> 0 <= n' -> 0 <= v -> 0 <= resize_spec n v n' fill.
Proof.
  intros Hn Hn' Hv. unfold resize_spec. destruct (Z.leb_spec n' n).
  - apply Z.mod_pos_bound. apply Z.pow_pos_nonneg; lia.
  - destruct fill; [|done]. apply Z.lor_nonneg. split; [done|].
    apply Z.shiftl_nonneg. rewrite Z.ones_equiv.
    pose proof (Z.pow_pos_nonneg 2 (n' - n)). lia.
Qed.

(** The blocks before [sanitize]: old bits below the old size, [fill] above. *)
Lemma resize_blocks b n' (fill : bool) :
  wf b -> 0 <= n' ->
  let bl1 := if negb (blocks_required W n' =? Bitset.num_blocks b)
             then vresize (m_blocks b) (blocks_required W n')
                    (if fill then one_block W else zero_block W)
             else m_blocks b in
  exists bl2,
    (if fill && (m_bits_number b <? n') && (0 <? Bitset.num_blocks b) then
       if 0 <? Bitset.extra_bits_number W b then
         x ← vget bl1 (Bitset.num_blocks b - 1);
         vset bl1 (Bitset.num_blocks b - 1)
           (Z.lor x (block_type W (shl W (if fill then one_block W else zero_block W)
                                       (Bitset.extra_bits_number W b))))
       else Some bl1
     else Some bl1) = Some bl2 /\
    vsize bl2 = blocks_required W n' /\ blocks_ok bl2 /\
    forall p, 0 <= p < n' -> bit bl2 p = if p <? m_bits_number b then bit (m_blocks b) p else fill.
Proof.
  intros H Hn'. pose proof H as [H1 H2 H3 H4]. pose proof (W_pos W).
  set (n := m_bits_number b) in *. set (bl := m_blocks b) in *.
  set (init := if fill then one_block W else zero_block W).
  assert (Hinit : 0 <= init < 2 ^ W) by (subst init; destruct fill; eauto with yacl).
  assert (Hib : forall j, 0 <= j < W -> Z.testbit init j = fill).
  { intros j Hj. subst init. destruct fill;
      [rewrite testbit_one_block by done; lia|by rewrite (zero_block_eq W), Z.bits_0]. }
  destruct (blocks_required_bound W n H1) as [Hb0 Hb1].
  destruct (blocks_required_bound W n' Hn') as [Hb0' Hb1'].
  intros bl1. unfold Bitset.num_blocks in *. fold bl in bl1 |- *.
  assert (L1 : vsize bl1 = blocks_required W n').
  { subst bl1. destruct (Z.eqb_spec (blocks_required W n') (vsize bl)); simpl; [done|].
    by apply vsize_resize. }
  assert (B1 : forall i, 0 <= i < blocks_required W n' ->
            blk bl1 i = if i <? vsize bl then blk bl i else init).
  { intros i Hi. subst bl1. destruct (Z.eqb_spec (blocks_required W n') (vsize bl)); simpl.
    - by replace (i <? vsize bl) with true by lia.
    - by apply blk_resize. }
  clearbody bl1. unfold Bitset.extra_bits_number, bit_index. fold n.
  assert (Obl1 : blocks_ok bl1).
  { apply blocks_ok_ext. intros i Hi. rewrite B1 by lia.
    destruct (i <? vsize bl); eauto with yacl. }
  assert (Hbit1 : forall p, 0 <= p < n' ->
            bit bl1 p = if p / W <? vsize bl then bit bl p else fill).
  { intros p Hp. destruct (div_mod_pos p W) as [Ep Hp1]; [done|].
    pose proof (block_index_bound W n' p Hp) as Hi. unfold block_index in Hi.
    unfold BitSetFacts.bit. rewrite B1 by done. destruct (_ <? _); [done|by apply Hib]. }
  destruct (Z.ltb_spec 0 (n mod W)) as [He|He].
  - destruct (last_block_position W n H1 He) as [Hk Ek].
    assert (Hgen : forall p, 0 <= p < n' -> n' <= n \/ fill = false ->
        bit bl1 p = if p <? n then bit bl p else fill).
    { intros p Hp Hor. rewrite Hbit1 by done. destruct (div_mod_pos p W) as [Ep Hp1]; [done|].
      destruct (Z.ltb_spec (p / W) (vsize bl)), (Z.ltb_spec p n); try done; [|nia].
      destruct Hor as [ | ->]; [lia|]. by apply H4. }
    destruct (Z.ltb_spec n n') as [Hlt|Hge].
    + pose proof (blocks_required_mono n n' ltac:(lia)).
      replace (0 <? vsize bl) with true by lia. destruct fill; simpl.
      * vstep. eexists. split; [done|]. rewrite vsize_insert. split; [done|].
        split; [apply blocks_ok_insert; eauto with yacl|].
        intros p Hp. rewrite bit_insert by lia. destruct (div_mod_pos p W) as [Ep Hp1]; [done|].
        destruct (Z.eqb_spec (p / W) (vsize bl - 1)) as [E|E].
        -- rewrite Z.lor_spec, testbit_shl_cast, B1 by (done || lia).
           replace (vsize bl - 1 <? vsize bl) with true by lia.
           replace (p mod W <? W) with true by lia. simpl.
           unfold BitSetFacts.bit. rewrite E. destruct (Z.ltb_spec p n).
           ++ rewrite (Z.testbit_neg_r _ (p mod W - n mod W)) by nia. by rewrite orb_false_r.
           ++ rewrite Hib by nia. by rewrite orb_true_r.
        -- rewrite Hbit1 by done. destruct (Z.ltb_spec (p / W) (vsize bl)), (Z.ltb_spec p n);
             try done; nia.
      * exists bl1. split; [done|]. split; [done|]. split; [done|]. intros p Hp.
        apply Hgen; [done|by right].
    + replace (fill && false && (0 <? vsize bl)) with false by lia.
      exists bl1. split; [done|]. split; [done|]. split; [done|]. intros p Hp.
      apply Hgen; [done|by left].
  - exists bl1. split; [by destruct (_ && _)|]. split; [done|]. split; [done|].
    intros p Hp. rewrite Hbit1 by done. destruct (div_mod_pos p W) as [Ep Hp1]; [done|].
    destruct (div_mod_pos n W) as [En Hn1]; [done|].
    pose proof (full_blocks_position W n H1 ltac:(lia)) as Ef.
    destruct (Z.ltb_spec (p / W) (vsize bl)), (Z.ltb_spec p n); try done; nia.
Qed.

Lemma resize_refines b n' (fill : bool) :
  wf b -> 0 <= n' ->
  refines (Bitset.resize W b n' fill) n' (resize_spec (m_bits_number b) (value b) n' fill).
Proof.
  intros H Hn'. pose proof H as [H1 H2 H3 H4]. pose proof (value_range W b H) as Hv.
  unfold Bitset.resize. destruct (Z.eqb_spec n' (m_bits_number b)) as [->|Hne].
  { eapply refines_eq; [by apply wf_refines|done|]. unfold resize_spec.
    rewrite Z.leb_refl. symmetry. by apply Z.mod_small. }
  destruct (resize_blocks b n' fill H Hn') as (bl2 & -> & L2 & O2 & B2).
  cbn [mbind option_bind]. apply refines_checked; [done|].
  apply refines_sanitize_bits; try done.
  - apply resize_spec_nonneg; lia.
  - intros p Hp. rewrite testbit_resize_spec by (done || lia).
    by replace (p <? n') with false by lia.
  - intros p Hp. rewrite testbit_resize_spec, B2 by (done || lia).
    replace (p <? n') with true by lia. simpl. destruct (_ <? _); [|done].
    by rewrite testbit_value by (done || lia).
Qed.

(** *** One bit at a time *)

Lemma refines_test_checked r n v pos (x : bool) :
  refines r n v -> 0 <= pos < n -> Z.testbit v pos = x ->
  refines (b ← r; t ← Bitset.test W b pos; assert! Bool.eqb t x; Bitset.checked W b) n v.
Proof.
  intros (b & -> & Hwf & Hn & Hv) Hpos Hx. exists b. simpl. subst n v.
  rewrite test_spec by done. simpl. rewrite Hx, eqb_reflx. by rewrite checked_wf.
Qed.

Lemma push_back_refines b (x : bool) :
  wf b ->
  refines (Bitset.push_back W b x) (m_bits_number b + 1)
    (Z.lor (value b) (Z.shiftl (Z.b2z x) (m_bits_number b))).
Proof.
  intros H. pose proof H as [H1 H2 H3 H4]. pose proof (W_pos W).
  pose proof (value_range W b H) as Hv. set (n := m_bits_number b) in *.
  destruct (blocks_required_bound W n H1) as [Hb0 Hb1].
  assert (Hx : Z.shiftl (Z.b2z x) n = if x then 2 ^ n else 0).
  { destruct x; [apply Z.shiftl_1_l|apply Z.shiftl_0_l]. }
  assert (0 < 2 ^ n) by (apply Z.pow_pos_nonneg; lia).
  unfold Bitset.push_back. cbn [m_bits_number m_blocks]. fold n.
  apply refines_test_checked; [|lia|].
  2: { rewrite Hx, Z.lor_spec, value_high by (done || lia). simpl.
       destruct x; [by apply Z.pow2_bits_true|apply Z.bits_0]. }
  destruct (Z.leb_spec (n + 1) (vsize (m_blocks b) * W)) as [Hle|Hgt].
  - assert (Hr : blocks_required W (n + 1) = vsize (m_blocks b)).
    { apply blocks_required_unique; [done|lia|]. nia. }
    assert (Hwf1 : wf (mk_bitset (m_blocks b) (n + 1))).
    { split; simpl; [lia|done|done|]. intros p Hp. apply H4. lia. }
    rewrite Hx. destruct x.
    + apply (set_pos_refines W _ n true Hwf1). simpl. lia.
    + rewrite Z.lor_0_r. by apply (wf_refines W _ Hwf1).
  - assert (Hf : n = vsize (m_blocks b) * W) by nia.
    assert (Hxr : 0 <= Z.b2z x < 2 ^ W).
    { assert (1 < 2 ^ W) by (apply Z.pow_gt_1; lia). destruct x; simpl; lia. }
    rewrite block_type_small by done.
    apply refines_bits; try done.
    + lia.
    + rewrite vsize_app. change (vsize [Z.b2z x]) with 1. symmetry.
      apply blocks_required_unique; [done|lia|]. nia.
    + eauto with yacl.
    + apply Z.lor_nonneg. split; [lia|]. rewrite Hx. destruct x; lia.
    + intros p Hp. rewrite Hx, Z.lor_spec, value_high by (done || lia). simpl.
      destruct x; [apply Z.pow2_bits_false; lia|apply Z.bits_0].
    + intros p Hp. rewrite bit_app, <- Hf, Z.lor_spec, testbit_shiftl by done.
      destruct (Z.ltb_spec p n).
      * rewrite (Z.testbit_neg_r _ (p - n)) by lia. by rewrite orb_false_r, testbit_value.
      * rewrite value_high by done. rewrite bit_single by (done || lia). simpl.
        destruct (Z.ltb_spec (p - n) W); [done|]. simpl. symmetry.
        apply (testbit_high W); [done|lia].
Qed.

Lemma pop_back_refines b :
  wf b -> 0 < m_bits_number b ->
  refines (Bitset.pop_back W b) (m_bits_number b - 1)
    (value b mod 2 ^ (m_bits_number b - 1)).
Proof.
  intros H Hpos. pose proof H as [H1 H2 H3 H4]. pose proof (W_pos W).
  pose proof (value_range W b H) as Hv. set (n := m_bits_number b) in *.
  destruct (blocks_required_bound W n H1) as [Hb0 Hb1].
  destruct (blocks_required_bound W (n - 1) ltac:(lia)) as [Hc0 Hc1].
  unfold Bitset.pop_back, Bitset.empty, Bitset.size. fold n.
  replace (n =? 0) with false by lia.
  assert (Hm : 0 <= value b mod 2 ^ (n - 1))
    by (apply Z.mod_pos_bound, Z.pow_pos_nonneg; lia).
  apply refines_checked; [done|].
  destruct (Z.ltb_spec (blocks_required W (n - 1)) (vsize (m_blocks b))) as [Hlt|Hge].
  - assert (Hr : vsize (m_blocks b) - 1 = blocks_required W (n - 1)) by nia.
    assert (Hf : n - 1 = (vsize (m_blocks b) - 1) * W) by nia.
    unfold Bitset.extra_bits_number, bit_index. cbn [m_bits_number].
    rewrite Hf at 1. rewrite Z.mod_mul by lia. cbn [Z.eqb].
    assert (Hl : vsize (take (length (m_blocks b) - 1) (m_blocks b)) = vsize (m_blocks b) - 1).
    { unfold vsize in *. rewrite length_take. lia. }
    apply refines_bits; try done; [lia|congruence| | |].
    + by apply Forall_take.
    + intros p Hp. autorewrite with zbits. by replace (p <? n - 1) with false by lia.
    + intros p Hp. autorewrite with zbits. destruct (div_mod_pos p W) as [Ep Hp1]; [done|].
      destruct (Z.ltb_spec p (n - 1)); simpl.
      * rewrite testbit_value by done. unfold BitSetFacts.bit.
        rewrite blk_take; [done|]. unfold vsize in *. pose proof (Z.div_pos p W). nia.
      * apply bit_outside; [done|]. rewrite Hl. lia.
  - apply refines_sanitize_bits; try done; [lia| | |].
    + pose proof (blocks_required_mono (n - 1) n). lia.
    + intros p Hp. autorewrite with zbits. by replace (p <? n - 1) with false by lia.
    + intros p Hp. autorewrite with zbits. replace (p <? n - 1) with true by lia.
      by rewrite testbit_value by (done || lia).
Qed.

(** *** Blocks at a time *)

(** The number an append computes. *)
Definition append_spec (n v x : Z) : Z := Z.lor v (Z.shiftl x n).

Lemma testbit_append_spec n v x p :
  0 <= v < 2 ^ n -> 0 <= p ->
  Z.testbit (append_spec n v x) p = if p <? n then Z.testbit v p else Z.testbit x (p - n).
Proof.
  intros Hv Hp. unfold append_spec. autorewrite with zbits.
  destruct (Z.ltb_spec p n).
  - rewrite (Z.testbit_neg_r _ (p - n)) by lia. by rewrite orb_false_r.
  - by rewrite (testbit_high n v) by (done || lia).
Qed.

Lemma append_spec_nonneg n v x : 0 <= v -> 0 <= x -> 0 <= append_spec n v x.
Proof. intros. apply Z.lor_nonneg. split; [done|]. by apply Z.shiftl_nonneg. Qed.

(** What [append(block)] leaves in the vector, written out. *)
Definition append_block_result (b : dynamic_bitset) (x : Z) : dynamic_bitset :=
  let e := m_bits_number b mod W in
  let bl := m_blocks b in
  mk_bitset
    (if e =? 0 then bl ++ [x]
     else <[Z.to_nat (vsize bl - 1) :=
              Z.lor (blk bl (vsize bl - 1)) (block_type W (shl W x e))]> bl
          ++ [block_type W (shr x (W - e))])
    (m_bits_number b + W).

Lemma append_block_result_refines b x :
  wf b -> 0 <= x < 2 ^ W ->
  refines (Some (append_block_result b x)) (m_bits_number b + W)
    (append_spec (m_bits_number b) (value b) x).
Proof.
  intros H Hx. pose proof H as [H1 H2 H3 H4]. pose proof (W_pos W).
  pose proof (value_range W b H) as Hv. unfold append_block_result.
  set (n := m_bits_number b) in *. set (bl := m_blocks b) in *.
  destruct (blocks_required_bound W n H1) as [Hb0 Hb1].
  destruct (div_mod_pos n W) as [En Hn1]; [done|].
  assert (Hr : blocks_required W (n + W) = vsize bl + 1).
  { apply blocks_required_unique; [done|lia|]. nia. }
  assert (Hhigh : forall p, n + W <= p -> Z.testbit (append_spec n (value b) x) p = false).
  { intros p Hp. rewrite testbit_append_spec by (done || lia).
    replace (p <? n) with false by lia. apply (testbit_high W); [done|lia]. }
  pose proof (append_spec_nonneg n (value b) x ltac:(lia) ltac:(lia)).
  destruct (Z.eqb_spec (n mod W) 0) as [E0|E0].
  - pose proof (full_blocks_position W n H1 E0) as Hf. rewrite <- H2 in Hf.
    apply refines_bits; try done; [lia|rewrite vsize_app; by rewrite Hr|eauto with yacl|].
    intros p Hp. rewrite testbit_append_spec, bit_app, Hf by done.
    destruct (Z.ltb_spec p n); [by rewrite testbit_value|].
    rewrite bit_single by (done || lia). destruct (Z.ltb_spec (p - n) W); [done|].
    symmetry. apply (testbit_high W); [done|lia].
  - destruct (last_block_position W n H1 ltac:(lia)) as [Hk Ek].
    apply refines_bits; try done.
    + lia.
    + rewrite vsize_app, vsize_insert. by rewrite Hr.
    + apply blocks_ok_app; [apply blocks_ok_insert|]; eauto 8 with yacl.
    + intros p Hp. rewrite testbit_append_spec, bit_app, vsize_insert by done.
      destruct (div_mod_pos p W) as [Ep Hp1]; [done|].
      destruct (Z.ltb_spec p (vsize bl * W)).
      * rewrite bit_insert by lia. destruct (Z.eqb_spec (p / W) (vsize bl - 1)) as [E|E].
        -- rewrite Z.lor_spec, testbit_shl_cast by (done || lia).
           replace (p mod W <? W) with true by lia. simpl.
           replace (p mod W - n mod W) with (p - n) by nia. rewrite <- E.
           change (Z.testbit (blk bl (p / W)) (p mod W)) with (bit bl p).
           destruct (Z.ltb_spec p n).
           ++ rewrite (Z.testbit_neg_r _ (p - n)) by lia.
              by rewrite orb_false_r, testbit_value.
           ++ by rewrite (H4 p).
        -- replace (p <? n) with true by nia. by rewrite testbit_value.
      * replace (p <? n) with false by nia.
        rewrite bit_single by (done || lia). rewrite testbit_block_type by done. unfold shr.
        rewrite testbit_shiftr by lia.
        replace (p - vsize bl * W + (W - n mod W)) with (p - n) by nia.
        destruct (Z.ltb_spec (p - vsize bl * W) W); [done|]. simpl. symmetry.
        apply (testbit_high W); [done|]. nia.
Qed.

Lemma append_block_run b x :
  wf b -> 0 <= x < 2 ^ W -> Bitset.append_block W b x = Some (append_block_result b x).
Proof.
  intros H Hx. pose proof H as [H1 H2 H3 H4]. pose proof (W_pos W).
  destruct (append_block_result_refines b x H Hx) as (b' & Hb' & Hwf & _).
  injection Hb' as <-. rewrite <- (checked_wf W _ Hwf).
  unfold Bitset.append_block, Bitset.extra_bits_number, bit_index, append_block_result.
  destruct (div_mod_pos (m_bits_number b) W) as [En Hn1]; [done|].
  destruct (Z.eqb_spec (m_bits_number b mod W) 0) as [E0|E0]; [done|].
  destruct (last_block_position W (m_bits_number b) H1 ltac:(lia)) as [Hk Ek].
  unfold Bitset.last_block, Bitset.set_last_block. by vstep.
Qed.

Lemma append_block_refines b x :
  wf b -> 0 <= x < 2 ^ W ->
  refines (Bitset.append_block W b x) (m_bits_number b + W)
    (append_spec (m_bits_number b) (value b) x).
Proof. intros. rewrite append_block_run by done. by apply append_block_result_refines. Qed.

(** Appending the blocks one by one: the reference for the bulk append. *)
Fixpoint append_each (b : dynamic_bitset) (blocks : list Z) : option dynamic_bitset :=
  match blocks with
  | [] => Some b
  | x :: rest => b' ← Bitset.append_block W b x; append_each b' rest
  end.

Lemma append_each_refines b blocks :
  wf b -> blocks_ok blocks ->
  refines (append_each b blocks) (m_bits_number b + vsize blocks * W)
    (append_spec (m_bits_number b) (value b) (blocks_value W blocks)).
Proof.
  intros H Hok. revert b H. induction Hok as [|x blocks Hx Hok IH]; intros b H; simpl.
  - eapply refines_eq; [by apply wf_refines|unfold vsize; simpl; lia|].
    unfold append_spec. by rewrite Z.shiftl_0_l, Z.lor_0_r.
  - destruct (append_block_refines b x H Hx) as (b' & -> & Hwf' & Hn' & Hv'). simpl.
    pose proof (wf_size _ _ H). pose proof (W_pos W).
    eapply refines_eq; [by apply IH| |].
    + rewrite Hn'. unfold vsize. simpl length. lia.
    + rewrite Hn', Hv'. unfold append_spec. cbn [blocks_value foldr].
      rewrite Z.shiftl_lor, Z.shiftl_shiftl by lia.
      rewrite Z.lor_assoc. by rewrite (Z.add_comm W).
Qed.

Lemma wf_append_block b x : wf b -> 0 <= x < 2 ^ W -> wf (append_block_result b x).
Proof.
  intros H Hx. destruct (append_block_result_refines b x H Hx) as (b' & Hb' & Hwf & _).
  by injection Hb' as <-.
Qed.

Lemma append_each_aligned b blocks :
  wf b -> blocks_ok blocks -> m_bits_number b mod W = 0 ->
  append_each b blocks
  = Some (mk_bitset (m_blocks b ++ blocks) (m_bits_number b + vsize blocks * W)).
Proof.
  intros H Hok. pose proof (W_pos W). revert b H.
  induction Hok as [|x blocks Hx Hok IH]; intros b H E0; simpl.
  - rewrite app_nil_r. unfold vsize. simpl. rewrite Z.add_0_r. by destruct b.
  - rewrite append_block_run by done. simpl. rewrite IH; [|by apply wf_append_block|].
    + unfold append_block_result. rewrite E0. cbn [Z.eqb m_blocks m_bits_number].
      do 2 f_equal; [by rewrite <- app_assoc|]. unfold vsize. simpl length. lia.
    + simpl. rewrite <- (Z.mul_1_l W) at 1. by rewrite Z.mod_add by lia.
Qed.

(** One turn of the bulk loop is one [append(block)] on [bl ++ [block]]. *)
Lemma append_loop_each rest bl n c :
  blocks_ok rest -> wf (mk_bitset (bl ++ [c]) (n + W)) -> 0 < n mod W ->
  append_each (mk_bitset (bl ++ [c]) (n + W)) rest
  = let '(bl', n') := Bitset.append_loop W (n mod W) (W - n mod W) rest bl n c in
    Some (mk_bitset bl' n').
Proof.
  intros Hok. pose proof (W_pos W). revert bl n c.
  induction Hok as [|x rest Hx Hok IH]; intros bl n c Hwf He; simpl; [done|].
  rewrite append_block_run by done. simpl.
  assert (Em : (n + W) mod W = n mod W)
    by (rewrite <- (Z.mul_1_l W) at 1; by rewrite Z.mod_add by lia).
  assert (Er : append_block_result (mk_bitset (bl ++ [c]) (n + W)) x
    = mk_bitset ((bl ++ [Z.lor c (block_type W (shl W x (n mod W)))])
                 ++ [block_type W (shr x (W - n mod W))]) (n + W + W)).
  { unfold append_block_result. cbn [m_blocks m_bits_number]. rewrite Em.
    replace (n mod W =? 0) with false by lia. f_equal. f_equal.
    rewrite vsize_app. change (vsize [c]) with 1.
    replace (vsize bl + 1 - 1) with (vsize bl) by lia.
    rewrite blk_app. replace (vsize bl <? vsize bl) with false by lia.
    rewrite Z.sub_diag. change (blk [c] 0) with c.
    rewrite insert_app_r_alt by (unfold vsize; lia).
    replace (Z.to_nat (vsize bl) - length bl)%nat with O by (unfold vsize; lia). done. }
  rewrite Er, IH.
  - by rewrite Em.
  - rewrite <- Er. by apply wf_append_block.
  - by rewrite Em.
Qed.

(** The bulk append is the repeated append. *)
Lemma append_blocks_each b blocks :
  wf b -> blocks_ok blocks -> Bitset.append_blocks W b blocks = append_each b blocks.
Proof.
  intros H Hok. pose proof H as [H1 H2 H3 H4]. pose proof (W_pos W).
  destruct blocks as [|x rest]; [done|].
  destruct (append_each_refines b (x :: rest) H Hok) as (b' & Eb & Hwf' & _).
  rewrite Eb, <- (checked_wf W b' Hwf'). unfold Bitset.append_blocks.
  unfold Bitset.unused_bits_number, Bitset.extra_bits_number, bit_index.
  destruct (div_mod_pos (m_bits_number b) W) as [En Hn1]; [done|].
  destruct (Z.eqb_spec (m_bits_number b mod W) 0) as [E0|E0].
  - rewrite append_each_aligned in Eb by done. injection Eb as <-. done.
  - inversion Hok as [|? ? Hx Hrest]; subst.
    destruct (last_block_position W (m_bits_number b) H1 ltac:(lia)) as [Hk Ek].
    unfold Bitset.last_block, Bitset.set_last_block. vstep. cbn [m_blocks].
    simpl in Eb. rewrite append_block_run in Eb by done. simpl in Eb.
    pose proof (wf_append_block b x H Hx) as Hwf1.
    unfold append_block_result in Eb, Hwf1.
    replace (m_bits_number b mod W =? 0) with false in Eb, Hwf1 by lia.
    rewrite append_loop_each in Eb by (done || lia).
    destruct (Bitset.append_loop _ _ _ _ _ _ _) as [bl' n']. simpl. by injection Eb as ->.
Qed.

Lemma append_blocks_refines b blocks :
  wf b -> blocks_ok blocks ->
  refines (Bitset.append_blocks W b blocks) (m_bits_number b + vsize blocks * W)
    (append_spec (m_bits_number b) (value b) (blocks_value W blocks)).
Proof. intros. rewrite append_blocks_each by done. by apply append_each_refines. Qed.

Lemma append_bitset_refines b other :
  wf b -> wf other ->
  refines (Bitset.append_bitset W b other) (m_bits_number b + m_bits_number other)
    (append_spec (m_bits_number b) (value b) (value other)).
Proof.
  intros H H'. pose proof H' as [R1 R2 R3 R4]. pose proof (wf_size _ _ H).
  unfold Bitset.append_bitset, Bitset.size.
  destruct (append_blocks_refines b (m_blocks other) H R3) as (b' & -> & Hwf & Hn & Hv). simpl.
  pose proof (value_range W b H) as Hvb. pose proof (value_range W other H') as Hvo.
  pose proof (value_range W b' Hwf) as Hvb'.
  destruct (blocks_required_bound W (m_bits_number other) R1) as [Hb0 Hb1].
  eapply refines_eq; [apply resize_refines; [done|lia]|done|].
  rewrite Hn, Hv. apply Z.bits_inj'. intros p Hp.
  rewrite testbit_resize_spec by (lia || (rewrite <- Hv, <- Hn; done)).
  fold (value other). rewrite !testbit_append_spec by done. rewrite R2.
  destruct (Z.ltb_spec p (m_bits_number b)).
  - replace (p <? m_bits_number b + m_bits_number other) with true by lia.
    by replace (p <? m_bits_number b + blocks_required W (m_bits_number other) * W)
      with true by lia.
  - destruct (Z.ltb_spec p (m_bits_number b + m_bits_number other)); simpl.
    + by replace (p <? m_bits_number b + blocks_required W (m_bits_number other) * W)
        with true by lia.
    + symmetry. apply (testbit_high (m_bits_number other)); [done|lia].
Qed.

(** [b.append(b)]: the loop reads blocks it has already written to, but only
    past the bits that survive the final [resize]. *)
Lemma append_self_refines b :
  wf b ->
  refines (Bitset.append_self W b) (m_bits_number b + m_bits_number b)
    (append_spec (m_bits_number b) (value b) (value b)).
Proof.
  intros H. pose proof H as [H1 H2 H3 H4]. pose proof (W_pos W).
  pose proof (value_range W b H) as Hv. set (n := m_bits_number b) in *.
  destruct (blocks_required_bound W n H1) as [Hb0 Hb1].
  unfold Bitset.append_self, Bitset.size, Bitset.num_blocks. fold n.
  destruct (for_up_inv (fun i c => wf c /\ m_bits_number c = n + i * W /\
      (forall p, 0 <= p < n -> Z.testbit (value c) p = Z.testbit (value b) p) /\
      (forall p, 0 <= p < n -> p < i * W ->
         Z.testbit (value c) (n + p) = Z.testbit (value b) p))
    (fun i b => x ← vget (m_blocks b) i; Bitset.append_block W b x)
    (Z.to_nat (vsize (m_blocks b))) 0 b) as (c & -> & Hwf & Hn & Hlow & Hhigh).
  - split; [done|]. split; [fold n; lia|]. split; [done|]. lia.
  - intros i c Hi (Hwf & Hn & Hlow & Hhigh). rewrite Z2Nat.id in Hi by lia.
    pose proof (wf_len _ _ Hwf) as Hlc. rewrite Hn in Hlc.
    destruct (blocks_required_bound W (n + i * W)) as [Hc0 Hc1]; [nia|].
    assert (Hic : i < vsize (m_blocks c)) by nia.
    vstep. pose proof (blk_range W (m_blocks c) i (wf_blocks _ _ Hwf)) as Hx.
    destruct (append_block_refines c (blk (m_blocks c) i) Hwf Hx)
      as (c' & -> & Hwf' & Hn' & Hv'). exists c'. split; [done|]. split; [done|].
    split; [lia|]. pose proof (value_range W c Hwf) as Hvc.
    assert (Hbits : forall p, 0 <= p -> Z.testbit (value c') p =
              if p <? n + i * W then Z.testbit (value c) p
              else Z.testbit (blk (m_blocks c) i) (p - (n + i * W))).
    { intros p Hp. rewrite Hv', testbit_append_spec by done. by rewrite Hn. }
    split.
    + intros p Hp. rewrite Hbits by lia. replace (p <? n + i * W) with true by nia.
      by apply Hlow.
    + intros p Hp Hpi. rewrite Hbits by lia. destruct (Z.ltb_spec (n + p) (n + i * W)).
      * apply Hhigh; lia.
      * destruct (div_mod_split W i (p - i * W)) as [D1 D2]; [lia|].
        replace (i * W + (p - i * W)) with p in D1, D2 by lia.
        replace (n + p - (n + i * W)) with (p mod W) by lia. rewrite <- D1 at 1.
        rewrite bits_in_block by (done || lia). apply Hlow. lia.
  - rewrite Z2Nat.id in Hn, Hhigh by lia. simpl.
    pose proof (value_range W c Hwf) as Hvc.
    eapply refines_eq; [apply resize_refines; [done|lia]|done|].
    apply Z.bits_inj'. intros p Hp. rewrite testbit_resize_spec by (done || lia).
    rewrite testbit_append_spec by done. destruct (Z.ltb_spec p n).
    + replace (p <? n + n) with true by lia. replace (p <? m_bits_number c) with true by nia.
      by apply Hlow.
    + destruct (Z.ltb_spec p (n + n)); simpl.
      * replace (p <? m_bits_number c) with true by nia.
        rewrite <- (Hhigh (p - n)) by nia. f_equal. lia.
      * symmetry. apply (testbit_high n); [done|lia].
Qed.

(** *** Constructors *)

Lemma wf_ctor_empty : wf Bitset.ctor_empty.
Proof.
  pose proof (W_pos W). split; simpl; [lia| |constructor|].
  - unfold vsize. simpl. symmetry. apply blocks_required_unique; [done|lia|lia].
  - intros p Hp. apply bit_outside; [done|]. unfold vsize. simpl. lia.
Qed.

Lemma value_ctor_empty : value Bitset.ctor_empty = 0.
Proof. done. Qed.

Lemma ctor_blocks_refines init_vals :
  blocks_ok init_vals ->
  refines (Bitset.ctor_blocks W init_vals) (vsize init_vals * W) (blocks_value W init_vals).
Proof.
  intros Hok. unfold Bitset.ctor_blocks, Bitset.append_init.
  pose proof (append_blocks_refines Bitset.ctor_empty init_vals wf_ctor_empty Hok) as H.
  eapply refines_eq; [|done|].
  - destruct (Z.eqb_spec (vsize init_vals) 0) as [E|E]; [|exact H].
    apply vsize_nil_iff in E. subst init_vals. exact H.
  - rewrite value_ctor_empty. unfold append_spec. simpl.
    by rewrite Z.shiftl_0_r.
Qed.

Lemma ctor_value_refines nbits init_val :
  0 <= nbits -> 0 <= init_val < 2 ^ 128 ->
  refines (Bitset.ctor_value W nbits init_val) nbits (init_val mod 2 ^ nbits).
Proof.
  intros Hn Hi. pose proof (W_pos W). pose proof (pow_W_pos W).
  destruct (blocks_required_bound W nbits Hn) as [Hb0 Hb1].
  assert (Hp : 0 < 2 ^ nbits) by (apply Z.pow_pos_nonneg; lia).
  unfold Bitset.ctor_value. set (bl := replicate _ 0).
  assert (Hl : vsize bl = blocks_required W nbits).
  { unfold bl. rewrite vsize_replicate. lia. }
  assert (Hok : blocks_ok bl) by (apply blocks_ok_replicate; lia).
  assert (Hbl : forall i, blk bl i = 0).
  { intros i. destruct (Z.lt_ge_cases i 0); [apply blk_outside; lia|].
    destruct (Z.lt_ge_cases i (vsize bl)); [|apply blk_outside; lia].
    apply blk_replicate. unfold bl in *. rewrite vsize_replicate in *. lia. }
  assert (Hhigh : forall p, nbits <= p -> Z.testbit (init_val mod 2 ^ nbits) p = false).
  { intros p Hp'. autorewrite with zbits. by replace (p <? nbits) with false by lia. }
  pose proof (Z.mod_pos_bound init_val (2 ^ nbits) Hp).
  destruct ((nbits =? 0) || (init_val =? 0)) eqn:E0.
  { apply refines_bits; try done; [lia|]. intros p Hp'. unfold bl.
    rewrite bit_replicate_zero. symmetry. destruct (Z.eqb_spec nbits 0).
    - apply Hhigh. lia.
    - replace init_val with 0 by lia. rewrite Z.mod_0_l by lia. apply Z.bits_0. }
  destruct (Z.eqb_spec (128 / W) 1) as [E1|E1].
  - assert (W = 128) as EW by (destruct HW as [-> | [-> | [-> | [-> | ->]]]]; done).
    rewrite vset_Some by nia. simpl.
    apply refines_sanitize_bits; try done; [by rewrite vsize_insert| |lia|].
    + apply blocks_ok_insert; [done|]. by rewrite EW.
    + intros p Hp'. rewrite bit_insert by nia.
      autorewrite with zbits. replace (p <? nbits) with true by lia. simpl.
      destruct (div_mod_pos p W) as [Ep Hp1]; [done|].
      destruct (Z.eqb_spec (p / W) 0) as [E|E].
      * f_equal. nia.
      * unfold bl. rewrite bit_replicate_zero. symmetry. apply (testbit_high 128); [done|].
        pose proof (Z.div_pos p W). nia.
  - assert (HWd : 128 = 128 / W * W /\ 0 < 128 / W)
      by (destruct HW as [-> | [-> | [-> | [-> | ->]]]]; done).
    destruct (for_up_update (fun i bl => vset bl i
        (block_type W (Z.land (Z.shiftr init_val (i * W)) (one_block W))))
      (fun i _ => block_type W (Z.land (Z.shiftr init_val (i * W)) (one_block W)))
      (Z.to_nat (Z.min (vsize bl) (128 / W))) 0 bl) as (bl' & -> & Hl' & Hbl'); [lia|lia| |].
    { intros i l Hil Hll _. rewrite vset_Some by lia. done. }
    simpl. apply refines_sanitize_bits; try done; [congruence| |lia|].
    + apply blocks_ok_ext. intros i Hir. rewrite Hbl', Hbl.
      destruct (_ && _); [by apply block_type_range|lia].
    + intros p Hp'. unfold BitSetFacts.bit. rewrite Hbl', Hbl. autorewrite with zbits.
      replace (p <? nbits) with true by lia. simpl.
      destruct (div_mod_pos p W) as [Ep Hp1]; [done|].
      pose proof (block_index_bound W nbits p Hp') as Hbi. unfold block_index in Hbi.
      destruct (Z.ltb_spec (p / W) (128 / W)).
      * replace (_ && _) with true by lia.
        rewrite testbit_block_type, Z.land_spec, testbit_one_block, testbit_shiftr by (done || lia).
        replace (p mod W <? W) with true by lia. replace (0 <=? p mod W) with true by lia.
        simpl. rewrite andb_true_r. f_equal. lia.
      * replace (_ && _) with false by lia. rewrite Z.bits_0. symmetry.
        apply (testbit_high 128); [done|]. nia.
Qed.
End Grow.
