(* ===== verification/BitSetQuery.v ===== *)
(** The queries of [dynamic_bitset]: counts, emptiness tests, inclusion tests,
    the search for set bits, the iteration over them, and the order. *)

From Stdlib Require Import ZArith Lia ZifyBool Bool.
From stdpp Require Import base numbers list option.
From S2P Require Import Prelude BitBlock BitSet BitSetFacts BitSetOps.

Local Open Scope Z_scope.

Section Query.
Context (W : Z) {HW : BlockType W}.

Local Abbreviation wf := (wf W).
Local Abbreviation value := (value W).
Local Abbreviation bit := (bit W).
Local Abbreviation blocks_ok := (blocks_ok W).

(** *** Counting *)

(** The low [k] bits of block [i] are bits [i * W ..] of the value. *)
Lemma popcount_block b i k :
  wf b -> 0 <= i -> Z.of_nat k <= W ->
  popcount_bits k (Z.shiftr (value b) (i * W)) = popcount_bits k (blk (m_blocks b) i).
Proof.
  intros H Hi Hk. pose proof (W_pos W). apply popcount_bits_ext. intros j Hj.
  rewrite testbit_shiftr by lia. replace (j + i * W) with (i * W + j) by lia.
  rewrite testbit_value by (done || nia). unfold BitSetFacts.bit.
  destruct (div_mod_split W i j) as [-> ->]; [lia|done].
Qed.

Lemma popcount_next_block b i :
  wf b -> 0 <= i ->
  popcount_bits (Z.to_nat ((i + 1) * W)) (value b)
  = popcount_bits (Z.to_nat (i * W)) (value b)
    + popcount_bits (Z.to_nat W) (blk (m_blocks b) i).
Proof.
  intros H Hi. pose proof (W_pos W).
  replace (Z.to_nat ((i + 1) * W)) with (Z.to_nat (i * W) + Z.to_nat W)%nat by nia.
  rewrite popcount_bits_split, Z2Nat.id by nia. by rewrite popcount_block by (done || lia).
Qed.

Lemma count_spec b :
  wf b -> Bitset.count W b = Some (popcount_bits (Z.to_nat (m_bits_number b)) (value b)).
Proof.
  intros H. pose proof H as [H1 H2 H3 H4]. pose proof (W_pos W).
  pose proof (value_range W b H) as Hv. set (n := m_bits_number b) in *.
  destruct (blocks_required_bound W n H1) as [Hb0 Hb1].
  unfold Bitset.count, Bitset.empty, Bitset.size. fold n.
  destruct (Z.eqb_spec n 0) as [->|Hne]; [done|].
  assert (Hlen : 1 <= vsize (m_blocks b)) by nia.
  destruct (for_up_inv (fun i c => c = popcount_bits (Z.to_nat (i * W)) (value b))
    (fun i c => x ← vget (m_blocks b) i; Some (c + block_count W x))
    (Z.to_nat (vsize (m_blocks b) - 1)) 0 0) as (c & -> & Hc); [done| |].
  - intros i c Hi ->. vstep. eexists. split; [done|].
    rewrite block_count_spec by (done || eauto with yacl).
    by rewrite popcount_next_block by (done || lia).
  - rewrite Z.add_0_l, Z2Nat.id in Hc by lia. cbn [mbind option_bind].
    unfold Bitset.last_block. vstep.
    assert (Hall : popcount_bits (Z.to_nat n) (value b)
                   = c + popcount_bits (Z.to_nat W) (blk (m_blocks b) (vsize (m_blocks b) - 1))).
    { rewrite Hc, <- popcount_next_block by (done || lia). symmetry.
      apply (popcount_bits_wider _ _ n); [done|lia|]. nia. }
    unfold Bitset.extra_bits_number, bit_index. fold n.
    destruct (div_mod_pos n W) as [En Hn1]; [done|].
    destruct (Z.eqb_spec (n mod W) 0) as [E0|E0].
    + rewrite block_count_spec by (done || eauto with yacl). by rewrite Hall.
    + destruct (last_block_position W n H1 ltac:(lia)) as [Hk Ek].
      rewrite block_count_low_spec; [|done|lia|].
      * simpl. by rewrite Hall.
      * pose proof (blk_range W (m_blocks b) (vsize (m_blocks b) - 1) H3).
        split; [lia|]. apply bits_bound; [lia|lia|]. intros j Hj.
        destruct (Z.lt_ge_cases j W); [|apply (testbit_high W); lia].
        specialize (H4 ((vsize (m_blocks b) - 1) * W + j) ltac:(nia)).
        unfold BitSetFacts.bit in H4.
        destruct (div_mod_split W (vsize (m_blocks b) - 1) j) as [D1 D2]; [lia|].
        by rewrite D1, D2 in H4.
Qed.

(** *** Zero tests *)

(** A number computed bit by bit from two bitsets is zero exactly when it is
    zero block by block. *)
Lemma zip_zero (f : Z -> Z -> Z) fb b1 b2 :
  (forall x y j, 0 <= j -> Z.testbit (f x y) j = fb (Z.testbit x j) (Z.testbit y j)) ->
  fb false false = false -> wf b1 -> wf b2 ->
  f (value b1) (value b2) = 0 <->
  forall i, 0 <= i -> f (blk (m_blocks b1) i) (blk (m_blocks b2) i) = 0.
Proof.
  intros Hf Hff H1 H2. pose proof (W_pos W). split.
  - intros H0 i Hi. apply zero_bits. intros j Hj. rewrite Hf by done.
    destruct (Z.lt_ge_cases j W).
    + assert (Z.testbit (f (value b1) (value b2)) (i * W + j) = false) as E
        by (rewrite H0; apply Z.bits_0).
      rewrite Hf, !testbit_value in E by (done || nia). unfold BitSetFacts.bit in E.
      destruct (div_mod_split W i j) as [D1 D2]; [lia|]. by rewrite D1, D2 in E.
    + rewrite !(testbit_high W) by (done || (apply blk_range, wf_blocks; done)). done.
  - intros H0. apply zero_bits. intros p Hp. rewrite Hf by done.
    rewrite <- !(bits_in_block W) by done. rewrite <- Hf by (apply Z.mod_pos_bound; done).
    rewrite H0 by (apply Z.div_pos; lia). apply Z.bits_0.
Qed.

Lemma land_bnot x y : 0 <= x < 2 ^ W -> Z.land x (bnot W y) = Z.ldiff x y.
Proof.
  intros Hx. apply Z.bits_inj'. intros j Hj. rewrite Z.land_spec, Z.ldiff_spec.
  destruct (Z.lt_ge_cases j W).
  - unfold bnot. by rewrite testbit_arith, Z.lnot_spec by (done || lia).
  - by rewrite (testbit_high W x) by (done || lia).
Qed.

Lemma value_zero b : wf b -> value b = 0 <-> forall i, 0 <= i < vsize (m_blocks b) -> blk (m_blocks b) i = 0.
Proof.
  intros H. pose proof (zip_zero (fun x _ => x) (fun x _ => x) b b) as Hz.
  rewrite Hz by done. split; intros H0 i Hi; [apply H0; lia|].
  destruct (Z.lt_ge_cases i (vsize (m_blocks b))); [apply H0; lia|apply blk_outside; lia].
Qed.

Lemma any_spec b : wf b -> Bitset.any W b = Some (negb (value b =? 0)).
Proof.
  intros H. unfold Bitset.any. rewrite (zero_block_eq W).
  destruct (search_up_test
    (fun i => x ← vget (m_blocks b) i; Some (if negb (x =? 0) then Some true else None))
    (fun i => negb (blk (m_blocks b) i =? 0)) true (length (m_blocks b)) 0)
    as [[-> Hn]|[-> (k & Hk & Hc)]].
  - intros i Hi. by rewrite vget_blk by (unfold vsize; lia).
  - simpl. replace (value b =? 0) with true; [done|]. symmetry. apply Z.eqb_eq, value_zero; [done|].
    intros i Hi. unfold vsize in Hi. specialize (Hn i ltac:(lia)). lia.
  - simpl. destruct (Z.eqb_spec (value b) 0) as [E|]; [|done].
    rewrite (proj1 (value_zero b H) E) in Hc by (unfold vsize; lia). done.
Qed.

Lemma none_spec b : wf b -> Bitset.none W b = Some (value b =? 0).
Proof. intros H. unfold Bitset.none. rewrite any_spec by done. simpl. by rewrite negb_involutive. Qed.

(** The block-wise form of "every bit is set". *)
Lemma value_ones b :
  wf b -> value b = Z.ones (m_bits_number b) <->
  forall i, 0 <= i < vsize (m_blocks b) ->
    blk (m_blocks b) i = Z.ones (Z.min W (m_bits_number b - i * W)).
Proof.
  intros H. pose proof H as [H1 H2 H3 H4]. pose proof (W_pos W).
  set (n := m_bits_number b) in *. destruct (blocks_required_bound W n H1) as [Hb0 Hb1]. split.
  - intros E i Hi. assert (0 <= n - i * W) by nia. apply Z.bits_inj'. intros j Hj.
    rewrite testbit_ones by lia. destruct (Z.lt_ge_cases j W).
    + assert (Z.testbit (value b) (i * W + j) = Z.testbit (Z.ones n) (i * W + j)) as F
        by (by rewrite E).
      rewrite testbit_value, testbit_ones in F by (done || nia). unfold BitSetFacts.bit in F.
      destruct (div_mod_split W i j) as [D1 D2]; [lia|]. rewrite D1, D2 in F. rewrite F. nia.
    + rewrite (testbit_high W) by (done || (apply blk_range; done)). lia.
  - intros E. apply Z.bits_inj'. intros p Hp. rewrite testbit_ones by done.
    destruct (div_mod_pos p W) as [Ep Hp1]; [done|].
    destruct (Z.lt_ge_cases p n).
    + pose proof (pos_in_range W b p H ltac:(fold n; lia)) as Hi. unfold block_index in Hi.
      rewrite <- (bits_in_block W) by done. rewrite E by done.
      rewrite testbit_ones by nia. nia.
    + rewrite value_high by done. lia.
Qed.

Lemma all_spec b : wf b -> Bitset.all W b = Some (value b =? Z.ones (m_bits_number b)).
Proof.
  intros H. pose proof H as [H1 H2 H3 H4]. pose proof (W_pos W).
  pose proof (value_ones b H) as Hones. pose proof (value_range W b H) as Hv.
  set (n := m_bits_number b) in *. destruct (blocks_required_bound W n H1) as [Hb0 Hb1].
  unfold Bitset.all, Bitset.empty, Bitset.size. fold n.
  destruct (Z.eqb_spec n 0) as [E0|E0].
  { f_equal. symmetry. apply Z.eqb_eq. rewrite E0 in Hv |- *. change (2 ^ 0) with 1 in Hv.
    change (Z.ones 0) with 0. lia. }
  unfold Bitset.extra_bits_number, Bitset.unused_bits_number, Bitset.extra_bits_number,
    bit_index, Bitset.last_block. fold n. destruct (div_mod_pos n W) as [En Hn1]; [done|].
  rewrite one_block_ones by done.
  assert (Hlen : 1 <= vsize (m_blocks b)) by nia.
  destruct (Z.eqb_spec (n mod W) 0) as [Em|Em].
  - pose proof (full_blocks_position W n H1 Em) as Hf.
    destruct (search_up_test
      (fun i => x ← vget (m_blocks b) i;
                Some (if negb (x =? Z.ones W) then Some false else None))
      (fun i => negb (blk (m_blocks b) i =? Z.ones W)) false (length (m_blocks b)) 0)
      as [[-> Hn]|[-> (k & Hk & Hc)]].
    + intros i Hi. by rewrite vget_blk by (unfold vsize; lia).
    + simpl. f_equal. symmetry. apply Z.eqb_eq, Hones. intros i Hi.
      replace (Z.min W (n - i * W)) with W by nia.
      unfold vsize in Hi. specialize (Hn i ltac:(lia)). lia.
    + simpl. f_equal. symmetry. apply Z.eqb_neq. intros E.
      assert (0 <= k < vsize (m_blocks b)) by (unfold vsize; lia).
      rewrite (proj1 Hones E k) in Hc by done. replace (Z.min W (n - k * W)) with W in Hc by nia. lia.
  - destruct (last_block_position W n H1 ltac:(lia)) as [Hk Ek].
    destruct (search_up_test
      (fun i => x ← vget (m_blocks b) i;
                Some (if negb (x =? Z.ones W) then Some false else None))
      (fun i => negb (blk (m_blocks b) i =? Z.ones W)) false
      (Z.to_nat (vsize (m_blocks b) - 1)) 0)
      as [[-> Hn]|[-> (k & Hkr & Hc)]].
    + intros i Hi. by rewrite vget_blk by lia.
    + simpl. vstep.
      assert (Es : shr (Z.ones W) (W - n mod W) = Z.ones (n mod W)).
      { apply Z.bits_inj'. intros j Hj. unfold shr. rewrite testbit_shiftr by lia.
        rewrite !testbit_ones by lia. lia. }
      rewrite Es.
      set (L := vsize (m_blocks b) - 1) in *.
      destruct (Z.eqb_spec (blk (m_blocks b) L) (Z.ones (n mod W))) as [E|E]; simpl; f_equal;
        symmetry.
      * apply Z.eqb_eq, Hones. intros i Hi. destruct (Z.eq_dec i L) as [->|].
        -- rewrite E. f_equal. nia.
        -- replace (Z.min W (n - i * W)) with W by nia. specialize (Hn i ltac:(lia)). lia.
      * apply Z.eqb_neq. intros Ev. apply E. rewrite (proj1 Hones Ev L) by lia. f_equal. nia.
    + simpl. f_equal. symmetry. apply Z.eqb_neq. intros Ev.
      rewrite (proj1 Hones Ev k) in Hc by lia. replace (Z.min W (n - k * W)) with W in Hc by nia. lia.
Qed.

(** *** Inclusion tests *)

Lemma is_subset_of_spec b1 b2 :
  wf b1 -> wf b2 -> m_bits_number b1 = m_bits_number b2 ->
  Bitset.is_subset_of W b1 b2 = Some (Z.ldiff (value b1) (value b2) =? 0).
Proof.
  intros H1 H2 Hn. pose proof (wf_len _ _ H1) as L1. pose proof (wf_len _ _ H2) as L2.
  rewrite <- Hn in L2. unfold Bitset.is_subset_of, Bitset.size. rewrite Hn, Z.eqb_refl.
  rewrite (zero_block_eq W).
  pose proof (zip_zero Z.ldiff (fun x y => x && negb y) b1 b2
    ltac:(intros; apply Z.ldiff_spec) ltac:(done) H1 H2) as Hz.
  destruct (search_up_test
    (fun i => x ← vget (m_blocks b1) i; y ← vget (m_blocks b2) i;
              Some (if negb (Z.land x (bnot W y) =? 0) then Some false else None))
    (fun i => negb (Z.ldiff (blk (m_blocks b1) i) (blk (m_blocks b2) i) =? 0))
    false (length (m_blocks b1)) 0) as [[-> Hno]|[-> (k & Hk & Hc)]].
  - intros i Hi. assert (0 <= i < vsize (m_blocks b1)) by (unfold vsize; lia). vstep.
    by rewrite land_bnot by (apply blk_range, wf_blocks; done).
  - simpl. f_equal. symmetry. apply Z.eqb_eq, Hz. intros i Hi.
    destruct (Z.lt_ge_cases i (vsize (m_blocks b1))).
    + unfold vsize in *. specialize (Hno i ltac:(lia)). lia.
    + by rewrite (blk_outside (m_blocks b1)) by lia.
  - simpl. f_equal. symmetry. apply Z.eqb_neq. intros E.
    rewrite (proj1 Hz E) in Hc by lia. done.
Qed.

Lemma intersects_spec b1 b2 :
  wf b1 -> wf b2 ->
  Bitset.intersects W b1 b2 = Some (negb (Z.land (value b1) (value b2) =? 0)).
Proof.
  intros H1 H2. unfold Bitset.intersects. rewrite (zero_block_eq W).
  pose proof (zip_zero Z.land andb b1 b2 ltac:(intros; apply Z.land_spec) ltac:(done) H1 H2) as Hz.
  destruct (search_up_test
    (fun i => x ← vget (m_blocks b1) i; y ← vget (m_blocks b2) i;
              Some (if negb (Z.land x y =? 0) then Some true else None))
    (fun i => negb (Z.land (blk (m_blocks b1) i) (blk (m_blocks b2) i) =? 0)) true
    (Nat.min (length (m_blocks b1)) (length (m_blocks b2))) 0)
    as [[-> Hno]|[-> (k & Hk & Hc)]].
  - intros i Hi. rewrite vget_blk by (unfold vsize; lia). simpl.
    by rewrite vget_blk by (unfold vsize; lia).
  - simpl. replace (_ =? 0) with true; [done|]. symmetry. apply Z.eqb_eq, Hz. intros i Hi.
    destruct (Z.lt_ge_cases i (vsize (m_blocks b1))).
    + destruct (Z.lt_ge_cases i (vsize (m_blocks b2))).
      * unfold vsize in *. specialize (Hno i ltac:(lia)). lia.
      * by rewrite (blk_outside (m_blocks b2)), Z.land_0_r by lia.
    + by rewrite (blk_outside (m_blocks b1)) by lia.
  - simpl. destruct (Z.eqb_spec (Z.land (value b1) (value b2)) 0) as [E|]; [|done].
    rewrite (proj1 Hz E) in Hc by lia. done.
Qed.

Lemma proper_subset_loop_spec l1 l2 n i acc :
  blocks_ok l1 -> blocks_ok l2 -> 0 <= i -> i + Z.of_nat n = vsize l1 -> vsize l1 = vsize l2 ->
  exists r, Bitset.proper_subset_loop W n i l1 l2 acc = Some r /\
    (r = true <->
       (forall k, i <= k < vsize l1 -> Z.ldiff (blk l1 k) (blk l2 k) = 0) /\
       (acc = true \/ exists k, i <= k < vsize l1 /\ Z.ldiff (blk l2 k) (blk l1 k) <> 0)).
Proof.
  intros O1 O2. revert i acc. induction n as [|n IH]; intros i acc Hi Hn Hl;
    cbn [Bitset.proper_subset_loop].
  - exists acc. split; [done|]. split; [intros ->; split; [lia|by left]|].
    intros [_ [?|(k & Hk & _)]]; [done|lia].
  - vstep. rewrite (zero_block_eq W), land_bnot by eauto with yacl.
    rewrite (Z.land_comm (bnot W _)), land_bnot by eauto with yacl.
    destruct (Z.eqb_spec (Z.ldiff (blk l1 i) (blk l2 i)) 0) as [E|E]; cbn [negb].
    + destruct (IH (i + 1) (if negb (Z.ldiff (blk l2 i) (blk l1 i) =? 0) then true else acc))
        as (r & -> & Hr); [lia|lia|done|]. exists r. split; [done|]. rewrite Hr. split.
      * intros [Ha Hb]. split.
        -- intros k Hk. destruct (Z.eq_dec k i) as [->|]; [done|apply Ha; lia].
        -- destruct Hb as [Hb|(k & Hk & Hb)]; [|right; exists k; split; [lia|done]].
           destruct (Z.eqb_spec (Z.ldiff (blk l2 i) (blk l1 i)) 0); simpl in Hb; [by left|].
           right. exists i. split; [lia|done].
      * intros [Ha Hb]. split; [intros k Hk; apply Ha; lia|].
        destruct Hb as [->|(k & Hk & Hb)]; [left; by destruct (negb _)|].
        destruct (Z.eq_dec k i) as [->|]; [|right; exists k; split; [lia|done]].
        left. by destruct (Z.eqb_spec (Z.ldiff (blk l2 i) (blk l1 i)) 0).
    + exists false. split; [done|]. split; [done|]. intros [Ha _]. destruct E. apply Ha. lia.
Qed.

Lemma is_proper_subset_of_spec b1 b2 :
  wf b1 -> wf b2 -> m_bits_number b1 = m_bits_number b2 ->
  Bitset.is_proper_subset_of W b1 b2
  = Some ((Z.ldiff (value b1) (value b2) =? 0) && negb (Z.ldiff (value b2) (value b1) =? 0)).
Proof.
  intros H1 H2 Hn. pose proof (wf_len _ _ H1) as L1. pose proof (wf_len _ _ H2) as L2.
  rewrite <- Hn in L2. unfold Bitset.is_proper_subset_of, Bitset.size. rewrite Hn, Z.eqb_refl.
  pose proof (zip_zero Z.ldiff (fun x y => x && negb y) b1 b2
    ltac:(intros; apply Z.ldiff_spec) ltac:(done) H1 H2) as Hz1.
  pose proof (zip_zero Z.ldiff (fun x y => x && negb y) b2 b1
    ltac:(intros; apply Z.ldiff_spec) ltac:(done) H2 H1) as Hz2.
  destruct (proper_subset_loop_spec (m_blocks b1) (m_blocks b2) (length (m_blocks b1)) 0 false)
    as (r & -> & Hr); [by apply wf_blocks|by apply wf_blocks|lia|unfold vsize; lia|congruence|].
  f_equal. apply eq_true_iff_eq. rewrite Hr, andb_true_iff, negb_true_iff, Z.eqb_eq, Z.eqb_neq.
  rewrite Hz1. split.
  - intros [Ha [?|(k & Hk & Hb)]]; [done|]. split.
    + intros i Hi. destruct (Z.lt_ge_cases i (vsize (m_blocks b1))); [apply Ha; lia|].
      by rewrite (blk_outside (m_blocks b1)) by lia.
    + intros E. apply Hb. apply (proj1 Hz2 E). lia.
  - intros [Ha Hb]. split; [intros; apply Ha; lia|]. right.
    destruct (decide (Exists (fun k => Z.ldiff (blk (m_blocks b2) (Z.of_nat k))
                (blk (m_blocks b1) (Z.of_nat k)) <> 0) (seq 0 (length (m_blocks b1))))) as [He|He].
    + apply Exists_exists in He as (k & Hk & Hne). apply List.in_seq in Hk.
      exists (Z.of_nat k). split; [unfold vsize; lia|done].
    + destruct Hb. apply Hz2. intros i Hi.
      destruct (Z.lt_ge_cases i (vsize (m_blocks b2))).
      * destruct (Z.eq_dec (Z.ldiff (blk (m_blocks b2) i) (blk (m_blocks b1) i)) 0) as [|Hne]; [done|].
        destruct He. apply Exists_exists. exists (Z.to_nat i). rewrite Z2Nat.id by done.
        split; [|done]. apply List.in_seq. unfold vsize in *. lia.
      * by rewrite (blk_outside (m_blocks b2)) by lia.
Qed.
End Query.
