(* ===== verification/BitSetFind.v ===== *)
(** The search for set bits of [dynamic_bitset] ([find_first], [find_next]), the
    iteration over them ([iterate_bits_on]), and the two comparisons. *)

From Stdlib Require Import ZArith Lia ZifyBool Bool.
From stdpp Require Import base numbers list option.
From S2P Require Import Prelude BitBlock BitSet BitSetFacts BitSetOps.

Local Open Scope Z_scope.

(** [r] is the lowest set position of [v] from [lo] on, [npos] when there is
    none. *)
Definition next_bit (v lo r : Z) : Prop :=
  (lo <= r /\ Z.testbit v r = true /\ forall j, lo <= j < r -> Z.testbit v j = false)
  \/ (r = npos /\ forall j, lo <= j -> Z.testbit v j = false).

(** The set positions of an [n]-bit number from [lo] on, in increasing order. *)
Definition set_bits (v lo n : Z) : list Z :=
  filter (fun p => Z.testbit v p = true) (seqZ lo (n - lo)).

(** The calls of an iteration that the callback ends by returning [false]. *)
Fixpoint until_false (f : Z -> bool) (l : list Z) : list Z :=
  match l with
  | [] => []
  | x :: l' => x :: if f x then until_false f l' else []
  end.

Lemma set_bits_end v n : set_bits v n n = [].
Proof. unfold set_bits. by rewrite Z.sub_diag. Qed.

Lemma set_bits_step v lo n :
  lo < n ->
  set_bits v lo n = if Z.testbit v lo then lo :: set_bits v (lo + 1) n else set_bits v (lo + 1) n.
Proof.
  intros Hlo. unfold set_bits. rewrite seqZ_cons by lia. rewrite filter_cons.
  replace (Z.pred (n - lo)) with (n - (lo + 1)) by lia.
  replace (Z.succ lo) with (lo + 1) by lia.
  destruct (Z.testbit v lo) eqn:E; case_decide; congruence.
Qed.

Lemma set_bits_skip v lo r n :
  lo <= r <= n -> (forall j, lo <= j < r -> Z.testbit v j = false) ->
  set_bits v lo n = set_bits v r n.
Proof.
  intros Hr. replace lo with (r - Z.of_nat (Z.to_nat (r - lo))) by lia.
  assert (Hk : Z.of_nat (Z.to_nat (r - lo)) <= r - lo) by lia. revert Hk.
  generalize (Z.to_nat (r - lo)) as k. intros k. induction k as [|k IH]; intros Hk H.
  - by rewrite Z.sub_0_r.
  - rewrite set_bits_step by lia. rewrite H by lia.
    replace (r - Z.of_nat (S k) + 1) with (r - Z.of_nat k) by lia.
    apply IH; [lia|]. intros j Hj. apply H. lia.
Qed.

(** The members of [set_bits] are the set positions. *)
Lemma elem_of_set_bits v lo n p :
  p ∈ set_bits v lo n <-> lo <= p < n /\ Z.testbit v p = true.
Proof.
  unfold set_bits. rewrite list_elem_of_filter, elem_of_seqZ.
  split; [intros [H1 H2]; split; [lia|done]|intros [H1 H2]; split; [done|lia]].
Qed.

Section Find.
Context (W : Z) {HW : BlockType W}.

Local Abbreviation wf := (wf W).
Local Abbreviation value := (value W).

(** A whole block is zero when the number has no bit in its range. *)
Lemma zero_in_block b i :
  wf b -> 0 <= i -> blk (m_blocks b) i = 0 ->
  forall j, i * W <= j < (i + 1) * W -> Z.testbit (value b) j = false.
Proof.
  intros H Hi E j Hj. pose proof (W_pos W).
  rewrite <- (bits_in_block W) by (done || nia).
  destruct (div_mod_split W i (j - i * W)) as [D1 _]; [nia|].
  replace (i * W + (j - i * W)) with j in D1 by lia. rewrite D1, E. apply Z.bits_0.
Qed.

Lemma lowest_in_block b i c :
  wf b -> 0 <= i -> lowest_bit (blk (m_blocks b) i) c ->
  c < W /\ Z.testbit (value b) (i * W + c) = true /\
  forall j, i * W <= j < i * W + c -> Z.testbit (value b) j = false.
Proof.
  intros H Hi (H1 & H2 & H3). pose proof (W_pos W).
  assert (Hc : c < W).
  { destruct (Z.lt_ge_cases c W); [done|].
    rewrite (testbit_high W) in H2 by (done || (apply blk_range, wf_blocks; done)). done. }
  split; [done|]. split.
  - rewrite <- (bits_in_block W) by (done || nia).
    destruct (div_mod_split W i c) as [-> ->]; [lia|done].
  - intros j Hj. rewrite <- (bits_in_block W) by (done || nia).
    destruct (div_mod_split W i (j - i * W)) as [D1 D2]; [nia|].
    replace (i * W + (j - i * W)) with j in D1, D2 by lia. rewrite D1, D2. apply H3. lia.
Qed.

(** The scan over whole blocks from block [i0] on. *)
Lemma find_scan b i0 :
  wf b -> 0 <= i0 <= vsize (m_blocks b) ->
  exists r, search_up (Z.to_nat (vsize (m_blocks b) - i0)) i0 (Bitset.find_in_block W b) = Some r
    /\ next_bit (value b) (i0 * W) (default npos r).
Proof.
  intros H Hi0. pose proof (W_pos W). pose proof (wf_blocks _ _ H) as Hok.
  set (g := fun i => if blk (m_blocks b) i =? 0 then None
                     else c ← count_block_trailing_zero W (blk (m_blocks b) i); Some (i * W + c)).
  assert (Hf : forall i, i0 <= i < i0 + Z.of_nat (Z.to_nat (vsize (m_blocks b) - i0)) ->
     Bitset.find_in_block W b i = Some (g i)).
  { intros i Hi. unfold Bitset.find_in_block, g. vstep. rewrite (zero_block_eq W).
    destruct (Z.eqb_spec (blk (m_blocks b) i) 0) as [E|E]; [done|]. cbn [negb].
    destruct (trailing_zero_spec W (blk (m_blocks b) i)) as (c & -> & _);
      [by apply blk_range|done|done]. }
  assert (Hg : forall i, g i = None -> blk (m_blocks b) i = 0).
  { intros i Hi. unfold g in Hi. destruct (Z.eqb_spec (blk (m_blocks b) i) 0) as [E|E]; [done|].
    destruct (trailing_zero_spec W (blk (m_blocks b) i)) as (c & Ec & _);
      [by apply blk_range|done|]. by rewrite Ec in Hi. }
  assert (Hz : forall k, i0 <= k -> (forall i, i0 <= i < k -> g i = None) ->
     forall j, i0 * W <= j < k * W -> Z.testbit (value b) j = false).
  { intros k Hk Hn j Hj. destruct (div_mod_pos j W) as [Ej Hj1]; [done|].
    apply (zero_in_block b (j / W)); [done|nia|apply Hg, Hn; nia|nia]. }
  destruct (search_up_spec _ g _ _ Hf) as [[-> Hn]|(k & r & Hk & Hr & -> & Hn)].
  - exists None. split; [done|]. right. split; [done|]. intros j Hj.
    destruct (Z.lt_ge_cases j (vsize (m_blocks b) * W)).
    + apply (Hz (vsize (m_blocks b))); [lia|intros; apply Hn; lia|lia].
    + rewrite testbit_value by (done || nia). by apply bit_outside.
  - exists (Some r). split; [done|]. unfold g in Hr.
    destruct (Z.eqb_spec (blk (m_blocks b) k) 0) as [E|E]; [done|].
    destruct (trailing_zero_spec W (blk (m_blocks b) k)) as (c & Ec & Hl);
      [by apply blk_range|done|]. rewrite Ec in Hr. injection Hr as <-.
    destruct (lowest_in_block b k c) as (Hc & Ht & Hlow); [done|lia|done|].
    destruct Hl as [Hc0 _]. left. simpl. split; [nia|]. split; [done|]. intros j Hj.
    destruct (Z.lt_ge_cases j (k * W)); [apply (Hz k); [lia|done|lia]|apply Hlow; lia].
Qed.

Lemma find_first_spec b :
  wf b -> exists r, Bitset.find_first W b = Some r /\ next_bit (value b) 0 r.
Proof.
  intros H. pose proof (vsize_nonneg (m_blocks b)).
  destruct (find_scan b 0 H ltac:(lia)) as (r & E & Hr).
  exists (default npos r). split; [|by rewrite Z.mul_0_l in Hr].
  unfold Bitset.find_first. rewrite Z.sub_0_r in E. unfold vsize in E. rewrite Nat2Z.id in E.
  by rewrite E.
Qed.

Lemma find_next_spec b prev :
  wf b -> 0 <= prev ->
  exists r, Bitset.find_next W b prev = Some r /\ next_bit (value b) (prev + 1) r.
Proof.
  intros H Hp. pose proof (W_pos W). pose proof (wf_blocks _ _ H) as Hok.
  unfold Bitset.find_next, Bitset.empty, Bitset.size.
  destruct ((m_bits_number b =? 0) || (m_bits_number b - 1 <=? prev)) eqn:E.
  { exists npos. split; [done|]. right. split; [done|]. intros j Hj.
    apply (value_high W); [done|]. clear - E Hj Hp. lia. }
  assert (Hpos : 0 <= prev + 1 < m_bits_number b) by lia.
  pose proof (pos_in_range W b _ H Hpos) as Hi. unfold block_index, bit_index in *.
  destruct (div_mod_pos (prev + 1) W) as [Ep Hp1]; [done|].
  vstep. set (i := (prev + 1) / W) in *. set (o := (prev + 1) mod W) in *.
  pose proof (blk_range W (m_blocks b) i Hok) as Hx.
  assert (Hsh : 0 <= shr (blk (m_blocks b) i) o < 2 ^ W).
  { unfold shr. split; [apply Z.shiftr_nonneg; lia|]. apply bits_bound; [lia|apply Z.shiftr_nonneg; lia|].
    intros j Hj. rewrite testbit_shiftr by lia. apply (testbit_high W); lia. }
  rewrite (zero_block_eq W). unfold block_type. rewrite Z.mod_small by done.
  assert (Hbits : forall j, prev + 1 <= j < (i + 1) * W ->
     Z.testbit (value b) j = Z.testbit (shr (blk (m_blocks b) i) o) (j - (prev + 1))).
  { intros j Hj. unfold shr. rewrite testbit_shiftr by lia.
    rewrite <- (bits_in_block W) by (done || nia).
    destruct (div_mod_split W i (j - i * W)) as [D1 D2]; [nia|].
    replace (i * W + (j - i * W)) with j in D1, D2 by lia. rewrite D1, D2. f_equal. nia. }
  destruct (Z.eqb_spec (shr (blk (m_blocks b) i) o) 0) as [E0|E0]; cbn [negb].
  - destruct (find_scan b (i + 1) H) as (r & -> & Hr); [lia|]. exists (default npos r).
    split; [done|].
    assert (Hz : forall j, prev + 1 <= j < (i + 1) * W -> Z.testbit (value b) j = false).
    { intros j Hj. rewrite Hbits by done. rewrite E0. apply Z.bits_0. }
    destruct Hr as [(R1 & R2 & R3)|(R1 & R2)]; [left|right].
    + split; [nia|]. split; [done|]. intros j Hj.
      destruct (Z.lt_ge_cases j ((i + 1) * W)); [apply Hz; lia|apply R3; lia].
    + split; [done|]. intros j Hj.
      destruct (Z.lt_ge_cases j ((i + 1) * W)); [apply Hz; lia|apply R2; lia].
  - destruct (trailing_zero_spec W _ Hsh E0) as (c & -> & Hc0 & Hc1 & Hc2).
    exists (prev + 1 + c). split; [done|]. left.
    assert (Hc : c + o < W).
    { destruct (Z.lt_ge_cases (c + o) W); [done|]. unfold shr in Hc1.
      rewrite testbit_shiftr, (testbit_high W) in Hc1 by lia. done. }
    split; [lia|]. split.
    + rewrite Hbits by nia. by replace (prev + 1 + c - (prev + 1)) with c by lia.
    + intros j Hj. rewrite Hbits by nia. apply Hc2. lia.
Qed.

(** What one step of the iteration leaves to visit. *)
Lemma next_bit_set_bits b lo r :
  wf b -> m_bits_number b <= npos -> 0 <= lo <= m_bits_number b -> next_bit (value b) lo r ->
  (r = npos /\ set_bits (value b) lo (m_bits_number b) = [])
  \/ (r <> npos /\ lo <= r < m_bits_number b /\
      set_bits (value b) lo (m_bits_number b)
      = r :: set_bits (value b) (r + 1) (m_bits_number b)).
Proof.
  intros H Hn Hlo [(R1 & R2 & R3)|[-> R2]].
  - right. assert (r < m_bits_number b).
    { destruct (Z.lt_ge_cases r (m_bits_number b)); [done|].
      rewrite value_high in R2 by done. done. }
    split; [lia|]. split; [done|]. rewrite (set_bits_skip _ lo r) by (done || lia).
    by rewrite set_bits_step, R2 by lia.
  - left. split; [done|]. rewrite (set_bits_skip _ lo (m_bits_number b)).
    + apply set_bits_end.
    + lia.
    + intros j Hj. apply R2. lia.
Qed.

Lemma iterate_loop_spec b f fuel lo r :
  wf b -> m_bits_number b <= npos -> 0 <= lo <= m_bits_number b ->
  m_bits_number b - lo < Z.of_nat fuel -> next_bit (value b) lo r ->
  Bitset.iterate_loop W fuel b f r = Some (until_false f (set_bits (value b) lo (m_bits_number b))).
Proof.
  intros H Hn. revert lo r. induction fuel as [|fuel IH]; intros lo r Hlo Hfuel Hr; [lia|].
  cbn [Bitset.iterate_loop].
  destruct (next_bit_set_bits b lo r H Hn Hlo Hr) as [[-> ->]|(Hne & Hlt & ->)].
  { by rewrite Z.eqb_refl. }
  destruct (Z.eqb_spec r npos); [done|]. cbn [until_false].
  destruct (f r); cbn [negb]; [|done].
  destruct (find_next_spec b r H ltac:(lia)) as (r' & -> & Hr'). cbn [mbind option_bind].
  by rewrite (IH (r + 1) r') by (done || lia).
Qed.

Lemma iterate_bits_on_spec b f :
  wf b -> m_bits_number b <= npos ->
  Bitset.iterate_bits_on W b f
  = Some (until_false f (set_bits (value b) 0 (m_bits_number b))).
Proof.
  intros H Hn. pose proof (wf_size _ _ H). unfold Bitset.iterate_bits_on, Bitset.size.
  destruct (find_first_spec b H) as (r & -> & Hr). cbn [mbind option_bind].
  apply iterate_loop_spec; [done|done|lia|lia|done].
Qed.

(** *** Order *)

Lemma value_split b k :
  wf b -> 0 <= k ->
  Z.shiftr (value b) (k * W) = blk (m_blocks b) k + 2 ^ W * Z.shiftr (value b) ((k + 1) * W).
Proof.
  intros H Hk. pose proof (W_pos W). pose proof (blk_range W (m_blocks b) k (wf_blocks _ _ H)).
  assert (E : blk (m_blocks b) k = Z.shiftr (value b) (k * W) mod 2 ^ W).
  { apply (bits_eq W); [done|apply Z.mod_pos_bound; lia|]. intros j Hj.
    rewrite testbit_mod, testbit_shiftr by lia. replace (j + k * W) with (k * W + j) by lia.
    rewrite <- (bits_in_block W) by (done || nia).
    destruct (div_mod_split W k j) as [-> ->]; [lia|]. by replace (j <? W) with true by lia. }
  rewrite E. replace ((k + 1) * W) with (k * W + W) by lia.
  rewrite <- Z.shiftr_shiftr by lia. rewrite (Z.shiftr_div_pow2 _ W) by lia.
  rewrite Z.add_comm. apply Z.div_mod. lia.
Qed.

Lemma same_blocks_above b1 b2 k :
  wf b1 -> wf b2 -> 0 <= k ->
  (forall i, k <= i -> blk (m_blocks b1) i = blk (m_blocks b2) i) ->
  Z.shiftr (value b1) (k * W) = Z.shiftr (value b2) (k * W).
Proof.
  intros H1 H2 Hk E. pose proof (W_pos W). apply Z.bits_inj'. intros j Hj.
  rewrite !testbit_shiftr by done. destruct (div_mod_pos (j + k * W) W) as [Ej Hj1]; [done|].
  rewrite <- !(bits_in_block W) by (done || nia). by rewrite E by nia.
Qed.

(** The highest differing block decides the order of the values. *)
Lemma value_lt_block b1 b2 k :
  wf b1 -> wf b2 -> 0 <= k ->
  (forall i, k < i -> blk (m_blocks b1) i = blk (m_blocks b2) i) ->
  blk (m_blocks b1) k < blk (m_blocks b2) k -> value b1 < value b2.
Proof.
  intros H1 H2 Hk E Hlt. pose proof (W_pos W). destruct (Z.lt_ge_cases (value b1) (value b2)) as [|Hge]; [done|].
  exfalso. assert (Hs : Z.shiftr (value b2) (k * W) <= Z.shiftr (value b1) (k * W)).
  { rewrite !Z.shiftr_div_pow2 by nia. apply Z.div_le_mono; [|lia]. apply Z.pow_pos_nonneg; nia. }
  rewrite (value_split b1 k), (value_split b2 k) in Hs by done.
  rewrite (same_blocks_above b1 b2 (k + 1)) in Hs by (done || lia || (intros; apply E; lia)). lia.
Qed.

Lemma value_compare_block b1 b2 k :
  wf b1 -> wf b2 -> 0 <= k ->
  (forall i, k < i -> blk (m_blocks b1) i = blk (m_blocks b2) i) ->
  blk (m_blocks b1) k <> blk (m_blocks b2) k ->
  (value b1 <? value b2) = (blk (m_blocks b1) k <? blk (m_blocks b2) k) /\ value b1 <> value b2.
Proof.
  intros H1 H2 Hk E Hne.
  destruct (Z.lt_trichotomy (blk (m_blocks b1) k) (blk (m_blocks b2) k)) as [Hlt|[Heq|Hlt]]; [|done|].
  - pose proof (value_lt_block b1 b2 k H1 H2 Hk E Hlt). split; lia.
  - assert (forall i, k < i -> blk (m_blocks b2) i = blk (m_blocks b1) i) as E'
      by (intros; by rewrite E).
    pose proof (value_lt_block b2 b1 k H2 H1 Hk E' Hlt). split; lia.
Qed.

Lemma same_blocks_value b1 b2 :
  wf b1 -> wf b2 -> (forall i, 0 <= i -> blk (m_blocks b1) i = blk (m_blocks b2) i) ->
  value b1 = value b2.
Proof.
  intros H1 H2 E. pose proof (same_blocks_above b1 b2 0 H1 H2 ltac:(lia) E) as F.
  by rewrite Z.mul_0_l, !Z.shiftr_0_r in F.
Qed.

Lemma compare_blocks_spec b1 b2 n :
  wf b1 -> wf b2 -> 1 <= n <= vsize (m_blocks b1) -> n <= vsize (m_blocks b2) ->
  (forall i, n <= i -> blk (m_blocks b1) i = blk (m_blocks b2) i) ->
  exists r, Bitset.compare_blocks n (m_blocks b1) (m_blocks b2) = Some r /\
    match r with
    | Some v => v = (value b1 <? value b2) /\ value b1 <> value b2
    | None => forall i, 0 < i -> blk (m_blocks b1) i = blk (m_blocks b2) i
    end.
Proof.
  intros H1 H2 Hn1 Hn2 E. unfold Bitset.compare_blocks.
  set (x := fun i => blk (m_blocks b1) i). set (y := fun i => blk (m_blocks b2) i).
  destruct (search_down_spec
    (fun i => x ← vget (m_blocks b1) i; y ← vget (m_blocks b2) i;
              Some (if negb (x =? y) then Some (x <? y) else None))
    (fun i => if negb (x i =? y i) then Some (x i <? y i) else None)
    (Z.to_nat (n - 1)) (n - 1)) as [[-> Hno]|(k & r & Hk & Hr & -> & Hno)].
  - intros k Hk. by vstep.
  - exists None. split; [done|]. intros i Hi. destruct (Z.lt_ge_cases i n); [|by apply E].
    specialize (Hno i ltac:(lia)). fold (x i) (y i). destruct (Z.eqb_spec (x i) (y i)); done.
  - exists (Some r). split; [done|].
    destruct (Z.eqb_spec (x k) (y k)) as [|Hne]; [done|]. injection Hr as <-.
    assert (forall i, k < i -> x i = y i) as Hab.
    { intros i Hi. destruct (Z.lt_ge_cases i n); [|by apply E].
      specialize (Hno i ltac:(lia)). destruct (Z.eqb_spec (x i) (y i)); done. }
    destruct (value_compare_block b1 b2 k H1 H2 ltac:(lia) Hab Hne) as [Hv1 Hv2].
    split; [by rewrite Hv1|done].
Qed.

(** The longer bitset is the greater one when a block past the end of the
    shorter one is not zero. *)
Lemma longer_value bs bl k :
  wf bs -> wf bl -> vsize (m_blocks bs) <= k < vsize (m_blocks bl) ->
  blk (m_blocks bl) k <> 0 -> value bs < value bl.
Proof.
  intros H1 H2 Hk Hne. pose proof (W_pos W). pose proof (vsize_nonneg (m_blocks bs)).
  pose proof (blk_range W (m_blocks bl) k (wf_blocks _ _ H2)).
  assert (Z.shiftr (value bs) (k * W) = 0).
  { apply zero_bits. intros j Hj. rewrite testbit_shiftr by done.
    rewrite testbit_value by (done || nia). apply bit_outside; [done|nia]. }
  assert (0 < Z.shiftr (value bl) (k * W)).
  { rewrite value_split by (done || lia).
    pose proof (proj2 (Z.shiftr_nonneg (value bl) ((k + 1) * W)) (value_nonneg W bl H2)). nia. }
  destruct (Z.lt_ge_cases (value bs) (value bl)) as [|Hge]; [done|].
  assert (Z.shiftr (value bl) (k * W) <= Z.shiftr (value bs) (k * W)); [|lia].
  rewrite !Z.shiftr_div_pow2 by nia. apply Z.div_le_mono; [|lia]. apply Z.pow_pos_nonneg; nia.
Qed.

Lemma wf_empty_value b : wf b -> m_bits_number b = 0 -> value b = 0.
Proof.
  intros H E. pose proof (value_range W b H) as Hv. rewrite E in Hv.
  change (2 ^ 0) with 1 in Hv. lia.
Qed.

Lemma wf_nonempty_blocks b : wf b -> m_bits_number b <> 0 -> 1 <= vsize (m_blocks b).
Proof.
  intros H E. pose proof (wf_size _ _ H). pose proof (W_pos W).
  pose proof (blocks_required_bound W (m_bits_number b)). rewrite (wf_len _ _ H). nia.
Qed.

(** The end of every comparison: the lowest blocks decide. *)
Lemma lowest_blocks_decide b1 b2 :
  wf b1 -> wf b2 -> (forall i, 0 < i -> blk (m_blocks b1) i = blk (m_blocks b2) i) ->
  (value b1 <? value b2) = (blk (m_blocks b1) 0 <? blk (m_blocks b2) 0) /\
  (value b1 =? value b2) = (blk (m_blocks b1) 0 =? blk (m_blocks b2) 0).
Proof.
  intros H1 H2 E. destruct (Z.eq_dec (blk (m_blocks b1) 0) (blk (m_blocks b2) 0)) as [E0|E0].
  - rewrite (same_blocks_value b1 b2), E0; [lia|done|done|]. intros i Hi.
    destruct (Z.eq_dec i 0) as [->|]; [done|]. apply E. lia.
  - destruct (value_compare_block b1 b2 0 H1 H2 ltac:(lia) E E0). lia.
Qed.

Lemma less_same_size b1 b2 :
  wf b1 -> wf b2 -> m_bits_number b1 = m_bits_number b2 ->
  Bitset.less W b1 b2 = Some (value b1 <? value b2).
Proof.
  intros H1 H2 Hn. unfold Bitset.less, Bitset.size, Bitset.num_blocks.
  rewrite Hn, Z.eqb_refl. destruct (Z.eqb_spec (m_bits_number b2) 0) as [E0|E0].
  { rewrite !wf_empty_value by congruence. done. }
  pose proof (wf_nonempty_blocks b2 H2 E0). pose proof (wf_len _ _ H1) as L1.
  pose proof (wf_len _ _ H2) as L2. rewrite Hn, <- L2 in L1.
  destruct (compare_blocks_spec b1 b2 (vsize (m_blocks b1)) H1 H2) as (r & -> & Hr);
    [lia|lia| |].
  { intros i Hi. rewrite !blk_outside by (right; lia). done. }
  cbn [mbind option_bind]. destruct r as [v|]; [by destruct Hr as [-> _]|].
  destruct (lowest_blocks_decide b1 b2 H1 H2 Hr) as [-> _].
  rewrite !vget_blk by lia. done.
Qed.

(** The scan of the blocks past the end of the shorter bitset. *)
Lemma longest_scan bs bl (rhs_longer : bool) :
  wf bs -> wf bl -> vsize (m_blocks bs) <= vsize (m_blocks bl) ->
  exists r,
    search_down (Z.to_nat (vsize (m_blocks bl) - vsize (m_blocks bs))) (vsize (m_blocks bl) - 1)
      (fun i => x ← vget (m_blocks bl) i;
                Some (if negb (x =? block_type W 0) then Some rhs_longer else None)) = Some r /\
    match r with
    | Some v => v = rhs_longer /\ value bs < value bl
    | None => forall i, vsize (m_blocks bs) <= i -> blk (m_blocks bl) i = 0
    end.
Proof.
  intros H1 H2 Hlen. pose proof (vsize_nonneg (m_blocks bs)).
  change (block_type W 0) with (zero_block W). rewrite (zero_block_eq W).
  destruct (search_down_spec
    (fun i => x ← vget (m_blocks bl) i; Some (if negb (x =? 0) then Some rhs_longer else None))
    (fun i => if negb (blk (m_blocks bl) i =? 0) then Some rhs_longer else None)
    (Z.to_nat (vsize (m_blocks bl) - vsize (m_blocks bs))) (vsize (m_blocks bl) - 1))
    as [[-> Hno]|(k & r & Hk & Hr & -> & _)].
  - intros k Hk. by vstep.
  - exists None. split; [done|]. intros i Hi.
    destruct (Z.lt_ge_cases i (vsize (m_blocks bl))); [|by rewrite blk_outside by lia].
    specialize (Hno i ltac:(lia)). destruct (Z.eqb_spec (blk (m_blocks bl) i) 0); done.
  - exists (Some r). split; [done|].
    destruct (Z.eqb_spec (blk (m_blocks bl) k) 0) as [|Hne]; [done|]. injection Hr as <-.
    split; [done|]. apply (longer_value bs bl k); [done|done|lia|done].
Qed.

(** The comparison of the common blocks, of bitsets of different sizes. *)
Lemma common_blocks b1 b2 m :
  wf b1 -> wf b2 -> m_bits_number b1 <> m_bits_number b2 ->
  1 <= m <= vsize (m_blocks b1) -> m <= vsize (m_blocks b2) ->
  (forall i, m <= i -> blk (m_blocks b1) i = blk (m_blocks b2) i) ->
  (r ← Bitset.compare_blocks m (m_blocks b1) (m_blocks b2);
   match r with
   | Some v => Some v
   | None =>
       x ← vget (m_blocks b1) 0; y ← vget (m_blocks b2) 0;
       if negb (x =? y) then Some (x <? y) else Some (m_bits_number b1 <? m_bits_number b2)
   end)
  = Some ((value b1 <? value b2)
          || ((value b1 =? value b2) && (m_bits_number b1 <? m_bits_number b2))).
Proof.
  intros H1 H2 Hn Hm1 Hm2 E.
  destruct (compare_blocks_spec b1 b2 m H1 H2 Hm1 Hm2 E) as (r & -> & Hr).
  cbn [mbind option_bind]. destruct r as [v|].
  - destruct Hr as [-> Hne]. f_equal. lia.
  - destruct (lowest_blocks_decide b1 b2 H1 H2 Hr) as [-> ->]. rewrite !vget_blk by lia.
    cbn [mbind option_bind]. destruct (Z.eqb_spec (blk (m_blocks b1) 0) (blk (m_blocks b2) 0)) as [E0|E0];
      cbn [negb]; f_equal; lia.
Qed.

Lemma less_spec b1 b2 :
  wf b1 -> wf b2 ->
  Bitset.less W b1 b2
  = Some ((value b1 <? value b2)
          || ((value b1 =? value b2) && (m_bits_number b1 <? m_bits_number b2))).
Proof.
  intros H1 H2. pose proof (value_nonneg W b1 H1). pose proof (value_nonneg W b2 H2).
  destruct (Z.eq_dec (m_bits_number b1) (m_bits_number b2)) as [En|Hn].
  { rewrite less_same_size, En by done. f_equal. lia. }
  pose proof (wf_size _ _ H1). pose proof (wf_size _ _ H2).
  unfold Bitset.less, Bitset.size, Bitset.num_blocks.
  destruct (Z.eqb_spec (m_bits_number b1) (m_bits_number b2)); [done|].
  destruct (Z.eqb_spec (m_bits_number b1) 0) as [E0|E0].
  { rewrite (wf_empty_value b1) by done. f_equal. lia. }
  destruct (Z.eqb_spec (m_bits_number b2) 0) as [E0'|E0'].
  { rewrite (wf_empty_value b2) by done. f_equal. lia. }
  pose proof (wf_nonempty_blocks b1 H1 E0) as Hb1. pose proof (wf_nonempty_blocks b2 H2 E0') as Hb2.
  pose proof (wf_len _ _ H1) as L1. pose proof (wf_len _ _ H2) as L2. pose proof (W_pos W).
  destruct (blocks_required_bound W (m_bits_number b1)) as [_ B1]; [lia|].
  destruct (blocks_required_bound W (m_bits_number b2)) as [_ B2]; [lia|].
  destruct (Z.ltb_spec (m_bits_number b1) (m_bits_number b2)) as [Hlt|Hge].
  - assert (Hle : vsize (m_blocks b1) <= vsize (m_blocks b2)) by nia.
    rewrite Z.max_r, Z.min_l by done.
    destruct (longest_scan b1 b2 true H1 H2 Hle) as (r & -> & Hr). cbn [mbind option_bind].
    destruct r as [v|]; [destruct Hr as [-> Hlt']; f_equal; lia|].
    rewrite <- (proj2 (Z.ltb_lt _ _) Hlt). apply common_blocks; try done; try lia.
    intros i Hi. by rewrite Hr, blk_outside by lia.
  - assert (Hle : vsize (m_blocks b2) <= vsize (m_blocks b1)) by nia.
    rewrite Z.max_l, Z.min_r by done.
    destruct (longest_scan b2 b1 false H2 H1 Hle) as (r & -> & Hr). cbn [mbind option_bind].
    destruct r as [v|]; [destruct Hr as [-> Hlt']; f_equal; lia|].
    rewrite <- (proj2 (Z.ltb_ge _ _) Hge). apply common_blocks; try done; try lia.
    intros i Hi. by rewrite Hr, blk_outside by lia.
Qed.

Lemma equal_spec b1 b2 :
  wf b1 -> wf b2 ->
  Bitset.equal b1 b2 = true
  <-> m_bits_number b1 = m_bits_number b2 /\ value b1 = value b2.
Proof.
  intros H1 H2. unfold Bitset.equal. rewrite andb_true_iff, Z.eqb_eq, bool_decide_eq_true. split.
  - intros [En El]. split; [done|]. unfold BitSetFacts.value. by rewrite El.
  - intros [En Ev]. by rewrite (wf_value_inj W b1 b2).
Qed.
End Find.
