(* ===== verification/BitSetString.v ===== *)
(** References to a bit of [dynamic_bitset], and its textual forms:
    [to_string], the construction from a string and [operator>>]. *)

From Stdlib Require Import ZArith Lia ZifyBool Bool.
From stdpp Require Import base numbers list option.
From S2P Require Import Prelude BitBlock BitSet BitSetFacts BitSetOps BitSetGrow BitSetFind.

Local Open Scope Z_scope.

(** The [n] characters that show the bits [n - 1], ..., [0] of [f]. *)
Definition render {C} (zero one : C) (f : Z -> bool) (n : Z) : list C :=
  (fun i => if f (n - 1 - i) then one else zero) <$> seqZ 0 n.

Section Render.
Context {C : Type} (zero one : C).

Local Abbreviation render := (render zero one).

Lemma vsize_render f n : 0 <= n -> vsize (render f n) = n.
Proof. intros Hn. unfold BitSetString.render. rewrite vsize_map. unfold vsize. rewrite length_seqZ. lia. Qed.

Lemma vget_render f n i :
  0 <= i < n -> vget (render f n) i = Some (if f (n - 1 - i) then one else zero).
Proof.
  intros Hi. unfold vget, BitSetString.render. replace (0 <=? i) with true by lia.
  rewrite list_lookup_fmap, lookup_seqZ_lt by lia. simpl. by rewrite Z2Nat.id by lia.
Qed.

Lemma list_vget_eq (l1 l2 : list C) :
  vsize l1 = vsize l2 -> (forall i, 0 <= i < vsize l1 -> vget l1 i = vget l2 i) -> l1 = l2.
Proof.
  intros Hlen H. apply list_eq. intros i.
  destruct (decide (i < length l1)%nat) as [Hi|Hi].
  - specialize (H (Z.of_nat i)). unfold vget, vsize in H.
    replace (0 <=? Z.of_nat i) with true in H by lia. rewrite Nat2Z.id in H. apply H. lia.
  - unfold vsize in Hlen. rewrite !lookup_ge_None_2 by lia. done.
Qed.

Lemma render_ext f g n :
  0 <= n -> (forall p, 0 <= p < n -> f p = g p) -> render f n = render g n.
Proof.
  intros Hn H. apply list_vget_eq; [by rewrite !vsize_render|].
  intros i Hi. rewrite vsize_render in Hi by done. by rewrite !vget_render, H by lia.
Qed.

(** Writing the character of bit [m]. *)
Lemma vset_render f n m :
  0 <= m < n ->
  vset (render f n) (n - (m + 1)) one = Some (render (fun p => (p =? m) || f p) n).
Proof.
  intros Hm. rewrite vset_Some by (rewrite vsize_render; lia). f_equal.
  apply list_vget_eq; [by rewrite vsize_insert, !vsize_render by lia|].
  intros i Hi. rewrite vsize_insert, vsize_render in Hi by lia. rewrite vget_render by done.
  unfold vget. replace (0 <=? i) with true by lia.
  destruct (Z.eqb_spec (n - 1 - i) m) as [E|E]; simpl.
  - replace (Z.to_nat (n - (m + 1))) with (Z.to_nat i) by lia.
    rewrite list_lookup_insert_eq; [done|]. unfold BitSetString.render.
    rewrite length_fmap, length_seqZ. lia.
  - rewrite list_lookup_insert_ne by lia.
    pose proof (vget_render f n i Hi) as Hv. unfold vget in Hv.
    replace (0 <=? i) with true in Hv by lia. done.
Qed.

Lemma render_false n : 0 <= n -> render (fun _ => false) n = replicate (Z.to_nat n) zero.
Proof.
  intros Hn. apply list_vget_eq; [rewrite vsize_render, vsize_replicate by done; lia|].
  intros i Hi. rewrite vsize_render in Hi by done. rewrite vget_render by done.
  unfold vget. replace (0 <=? i) with true by lia. rewrite lookup_replicate_2; [done|lia].
Qed.
End Render.

Section Text.
Context (W : Z) {HW : BlockType W}.

Local Abbreviation wf := (wf W).
Local Abbreviation value := (value W).
Local Abbreviation refines := (refines W).

(** *** References *)

(** The operations on the reference [b[pos]] are the single-bit operations of
    the bitset. *)
Lemma subscript_ops b pos :
  wf b -> 0 <= pos < m_bits_number b ->
  exists r, Bitset.subscript W b pos = Some r /\
    (forall x, Bitset.ref_assign W b r x = Bitset.set_pos W b pos x) /\
    Bitset.ref_flip b r = Bitset.flip_pos W b pos /\
    Bitset.ref_bool W b r = Bitset.test W b pos /\
    Bitset.ref_not W b r = (x ← Bitset.test W b pos; Some (negb x)).
Proof.
  intros H Hpos. unfold Bitset.subscript, Bitset.size. replace (pos <? m_bits_number b) with true by lia.
  eexists. split; [done|]. pose proof (pos_in_range W b pos H Hpos).
  unfold Bitset.ref_assign, Bitset.ref_set, Bitset.ref_reset, Bitset.ref_update, Bitset.ref_flip,
    Bitset.ref_update, Bitset.ref_bool, Bitset.ref_not, Bitset.set_pos, Bitset.flip_pos,
    Bitset.test, Bitset.size. cbn [Bitset.ref_of Bitset.ref_block Bitset.m_mask].
  replace (pos <? m_bits_number b) with true by lia. vstep.
  split; [intros []; by vstep|]. split; [done|]. split; [done|]. by rewrite negb_involutive.
Qed.

Lemma set_pos_same b pos :
  wf b -> 0 <= pos < m_bits_number b ->
  Bitset.set_pos W b pos (Z.testbit (value b) pos) = Some b.
Proof.
  intros H Hpos. destruct (set_pos_refines W b pos (Z.testbit (value b) pos) H Hpos)
    as (b' & -> & Hw & Hn & Hv). f_equal. apply (wf_value_inj W); [done|done|done|].
  rewrite Hv. apply Z.bits_inj'. intros j Hj. destruct (Z.testbit (value b) pos) eqn:E.
  - rewrite Z.lor_spec, testbit_pow2 by lia. destruct (Z.eqb_spec j pos) as [->|]; [by rewrite E|].
    apply orb_false_r.
  - rewrite Z.ldiff_spec, testbit_pow2 by lia. destruct (Z.eqb_spec j pos) as [->|]; [by rewrite E|].
    apply andb_true_r.
Qed.

(** [test_set] returns the old bit and stores the new one. *)
Lemma test_set_spec b pos x :
  wf b -> 0 <= pos < m_bits_number b ->
  Bitset.test_set W b pos x
  = (b' ← Bitset.set_pos W b pos x; Some (Z.testbit (value b) pos, b')).
Proof.
  intros H Hpos. unfold Bitset.test_set. rewrite test_spec by done. cbn [mbind option_bind].
  destruct (Bool.eqb (Z.testbit (value b) pos) x) eqn:E; cbn [negb]; [|done].
  apply eqb_prop in E. rewrite <- E. by rewrite set_pos_same.
Qed.

(** *** To text *)

Section Chars.
Context {C : Type} `{EqDecision C} (zero one : C).

Local Abbreviation render := (render zero one).

(** The inner loop of [to_string]: the bits of block [i]. *)
Lemma to_string_block b i :
  wf b -> 0 <= i < vsize (m_blocks b) ->
  exists m,
  for_up (Z.to_nat (m_bits_number b - i * W)) 0
    (fun i_bit (st : list C * Z) =>
       let '(str, mask) := st in
       str' ← (if negb (Z.land (blk (m_blocks b) i) mask =? zero_block W)
               then vset str (m_bits_number b - (i * W + i_bit + 1)) one
               else Some str);
       Some (str', block_type W (shl W mask 1)))
    (render (fun p => (p <? i * W) && Z.testbit (value b) p) (m_bits_number b), block_type W 1)
  = Some (render (fun p => (p <? (i + 1) * W) && Z.testbit (value b) p) (m_bits_number b), m).
Proof.
  intros H Hi. pose proof (W_pos W). pose proof (wf_blocks _ _ H) as Hok.
  set (n := m_bits_number b). pose proof (wf_len _ _ H) as Hlen. fold n in Hlen.
  assert (Hn : 0 <= n) by apply (wf_size _ _ H).
  destruct (blocks_required_bound W n Hn) as [Hb0 Hb1].
  assert (Hin : i * W < n) by nia.
  set (P := fun k (st : list C * Z) =>
    st = (render (fun p => (p <? i * W + Z.min k W) && Z.testbit (value b) p) n,
          block_type W (2 ^ k))).
  match goal with |- context [for_up _ _ ?f ?s] =>
    destruct (for_up_inv P f (Z.to_nat (n - i * W)) 0 s) as (s' & E & HP) end.
  - unfold P. f_equal. apply render_ext; [done|]. intros p Hp.
    by replace (i * W + Z.min 0 W) with (i * W) by lia.
  - intros k st Hk ->. rewrite (mask_step W) by lia. destruct (Z.lt_ge_cases k W) as [Hkw|Hkw].
    + rewrite (land_mask_test W), negb_involutive by lia.
      assert (Eb : Z.testbit (blk (m_blocks b) i) k = Z.testbit (value b) (i * W + k)).
      { rewrite <- (bits_in_block W) by (done || nia).
        by destruct (div_mod_split W i k) as [-> ->]; [lia|]. }
      rewrite Eb. destruct (Z.testbit (value b) (i * W + k)) eqn:Et;
        [rewrite vset_render by nia|]; cbn [mbind option_bind]; (eexists; split; [done|]);
        unfold P; f_equal; (apply render_ext; [done|]); intros p Hp; cbv beta;
        destruct (Z.eq_dec p (i * W + k)) as [->|];
        rewrite ?Et, ?Z.eqb_refl, ?andb_false_r; try done; try lia;
        (destruct (Z.testbit (value b) p); lia).
    + assert (E0 : block_type W (2 ^ k) = 0).
      { unfold block_type. apply Z.mod_divide; [lia|].
        exists (2 ^ (k - W)). rewrite <- Z.pow_add_r by lia. f_equal. lia. }
      rewrite E0, Z.land_0_r, (zero_block_eq W). simpl. eexists. split; [done|].
      unfold P. f_equal. apply render_ext; [done|]. intros p Hp.
      by replace (Z.min (k + 1) W) with (Z.min k W) by lia.
  - exists (snd s'). rewrite E. f_equal. rewrite HP. simpl. f_equal. apply render_ext; [done|].
    intros p Hp. destruct (Z.testbit (value b) p); lia.
Qed.

Lemma to_string_spec b :
  wf b ->
  Bitset.to_string W b zero one = Some (render (Z.testbit (value b)) (m_bits_number b)).
Proof.
  intros H. pose proof H as [H1 H2 H3 H4]. pose proof (W_pos W). unfold Bitset.to_string, Bitset.size.
  set (n := m_bits_number b) in *. destruct (blocks_required_bound W n H1) as [Hb0 Hb1].
  set (P := fun i (str : list C) =>
    str = render (fun p => (p <? i * W) && Z.testbit (value b) p) n).
  match goal with |- context [for_up _ _ ?f ?s] =>
    destruct (for_up_inv P f (length (m_blocks b)) 0 s) as (s' & E & HP) end.
  - unfold P. rewrite <- (render_false zero one) by done. apply render_ext; [done|]. intros p Hp. lia.
  - intros i str Hi ->. assert (Hi' : 0 <= i < vsize (m_blocks b)) by (unfold vsize; lia).
    vstep. rewrite (zero_block_eq W). destruct (Z.eqb_spec (blk (m_blocks b) i) 0) as [E0|E0].
    + eexists. split; [done|]. apply render_ext; [done|]. intros p Hp.
      destruct (Z.lt_ge_cases p (i * W)); [lia|].
      destruct (Z.lt_ge_cases p ((i + 1) * W)); [|lia].
      rewrite (zero_in_block W b i H) by (done || lia). lia.
    + replace (i * W <? n) with true by nia.
      destruct (to_string_block b i H Hi') as [m Em]. rewrite (zero_block_eq W) in Em.
      fold n in Em. rewrite Em. eexists. split; done.
  - rewrite E. f_equal. rewrite HP. apply render_ext; [done|]. intros p Hp. unfold vsize in H2.
    replace (p <? (0 + Z.of_nat (length (m_blocks b))) * W) with true by nia. done.
Qed.

(** *** From text *)

Lemma wf_zeros n :
  0 <= n ->
  refines (Some (mk_bitset (replicate (Z.to_nat (blocks_required W n)) 0) n)) n 0.
Proof.
  intros Hn. pose proof (pow_W_pos W). destruct (blocks_required_bound W n Hn) as [Hb _].
  apply (refines_intro W); [done|rewrite vsize_replicate; lia| | |].
  - apply blocks_ok_replicate. lia.
  - pose proof (Z.pow_pos_nonneg 2 n). lia.
  - intros p Hp. by rewrite (bit_replicate_zero W), Z.bits_0.
Qed.

(** One more bit of a number. *)
Lemma mod_pow_succ v i :
  0 <= i ->
  v mod 2 ^ (i + 1) = if Z.testbit v i then Z.lor (v mod 2 ^ i) (2 ^ i) else v mod 2 ^ i.
Proof.
  intros Hi. apply Z.bits_inj'. intros j Hj. destruct (Z.testbit v i) eqn:E;
    rewrite ?Z.lor_spec, !testbit_mod, ?testbit_pow2 by lia;
    destruct (Z.eq_dec j i) as [->|]; rewrite ?E; try lia;
    destruct (Z.testbit v j); lia.
Qed.

(** A string that spells [sz] bits of [v] at [pos] is read back as [v]. *)
Lemma init_from_string_spec str pos n sz v :
  zero <> one -> 0 <= pos < vsize str -> sz = Z.min n (vsize str - pos) -> 0 <= n ->
  0 <= v < 2 ^ sz ->
  (forall i, 0 <= i < sz ->
     vget str (pos + i) = Some (if Z.testbit v (sz - 1 - i) then one else zero)) ->
  refines (Bitset.init_from_string W str pos n zero one) sz v.
Proof.
  intros Hzo Hpos Hsz Hn Hv Hstr. unfold Bitset.init_from_string.
  replace (pos <? vsize str) with true by lia. rewrite <- Hsz.
  destruct (wf_zeros sz ltac:(lia)) as (b0 & E0 & W0 & N0 & V0). injection E0 as E0. rewrite E0.
  set (P := fun i b => wf b /\ m_bits_number b = sz /\ value b = v mod 2 ^ i).
  match goal with |- context [for_up _ _ ?f ?s] =>
    destruct (for_up_inv P f (Z.to_nat sz) 0 s) as (b' & E & HP) end.
  - unfold P. change (2 ^ 0) with 1. by rewrite Z.mod_1_r.
  - intros i b Hi (Wb & Nb & Vb).
    replace (pos + sz - 1 - i) with (pos + (sz - 1 - i)) by lia. rewrite Hstr by lia.
    replace (sz - 1 - (sz - 1 - i)) with i by lia. cbn [mbind option_bind].
    pose proof (mod_pow_succ v i ltac:(lia)) as Hm.
    destruct (Z.testbit v i).
    + rewrite (bool_decide_true (one = one)), orb_true_r by done.
      destruct (set_pos_refines W b i true Wb ltac:(lia)) as (b1 & -> & W1 & N1 & V1).
      exists b1. split; [done|]. split; [done|]. split; [congruence|]. by rewrite V1, Vb, Hm.
    + rewrite (bool_decide_true (zero = zero)), (bool_decide_false (zero = one)) by done.
      exists b. split; [done|]. split; [done|]. split; [done|]. by rewrite Vb, Hm.
  - rewrite E. exists b'. destruct HP as (W' & N' & V'). split; [done|]. split; [done|].
    split; [done|]. rewrite V', Z.add_0_l, Z2Nat.id by lia. by apply Z.mod_small.
Qed.

(** [push_back] adds the most significant bit. *)
Lemma push_back_bits b (x : bool) :
  wf b ->
  exists b', Bitset.push_back W b x = Some b' /\ wf b' /\
    m_bits_number b' = m_bits_number b + 1 /\
    forall p, 0 <= p -> Z.testbit (value b') p
      = if p =? m_bits_number b then x else Z.testbit (value b) p.
Proof.
  intros H. destruct (push_back_refines W b x H) as (b' & E & W' & N' & V').
  exists b'. split; [done|]. split; [done|]. split; [done|]. intros p Hp.
  pose proof (wf_size _ _ H). rewrite V', Z.lor_spec, testbit_shiftl by lia.
  destruct (Z.eqb_spec p (m_bits_number b)) as [->|].
  - rewrite (value_high W), Z.sub_diag by (done || lia). by destruct x.
  - destruct (Z.lt_ge_cases p (m_bits_number b)).
    + rewrite (Z.testbit_neg_r _ (p - m_bits_number b)) by lia. apply orb_false_r.
    + replace (Z.testbit (Z.b2z x) (p - m_bits_number b)) with false; [apply orb_false_r|].
      destruct x; simpl; [|by rewrite Z.bits_0].
      symmetry. apply (testbit_high 1); lia.
Qed.

(** The characters after the digits: the end of the input or something that is
    not a digit. *)
Definition no_digit (rest : list C) : Prop :=
  match rest with
  | [] => True
  | c :: _ => c <> zero /\ c <> one
  end.

Definition digits (l : list bool) : list C := (fun x : bool => if x then one else zero) <$> l.

Lemma vget_cons {A} (x : A) l i : 0 <= i -> vget (x :: l) i = if i =? 0 then Some x else vget l (i - 1).
Proof.
  intros Hi. unfold vget. replace (0 <=? i) with true by lia.
  destruct (Z.eqb_spec i 0) as [->|]; [done|]. replace (0 <=? i - 1) with true by lia.
  replace (Z.to_nat i) with (S (Z.to_nat (i - 1))) by lia. done.
Qed.

Lemma vsize_cons {A} (x : A) l : vsize (x :: l) = vsize l + 1.
Proof. unfold vsize. simpl. lia. Qed.

Lemma read_bits_spec (l : list bool) rest b :
  zero <> one -> no_digit rest -> wf b ->
  exists b', Bitset.read_bits W (digits l ++ rest) zero one b
    = Some (b', rest) /\ wf b' /\ m_bits_number b' = m_bits_number b + vsize l /\
    forall p, 0 <= p -> Z.testbit (value b') p
      = if p <? m_bits_number b then Z.testbit (value b) p
        else default false (vget l (p - m_bits_number b)).
Proof.
  intros Hzo Hr. revert b. induction l as [|x l IH]; intros b H.
  - exists b. split; [|split; [done|split; [unfold vsize; simpl; lia|]]].
    + destruct rest as [|c rest]; [done|]. destruct Hr as [Hc0 Hc1]. simpl.
      by rewrite !bool_decide_false by done.
    + intros p Hp. destruct (Z.ltb_spec p (m_bits_number b)); [done|].
      rewrite (value_high W) by done. unfold vget. by destruct (0 <=? _).
  - destruct (push_back_bits b x H) as (b1 & E1 & W1 & N1 & V1).
    destruct (IH b1 W1) as (b' & E' & W' & N' & V'). exists b'. split.
    { rewrite <- E'. cbn. destruct x.
      - rewrite bool_decide_true by done. by rewrite E1.
      - rewrite bool_decide_false, bool_decide_true by done. by rewrite E1. }
    split; [done|]. split; [rewrite N', N1, vsize_cons; lia|]. intros p Hp.
    pose proof (wf_size _ _ H). rewrite V', V1, N1 by done.
    destruct (Z.ltb_spec p (m_bits_number b)), (Z.ltb_spec p (m_bits_number b + 1)); try lia.
    + by replace (p =? m_bits_number b) with false by lia.
    + replace (p =? m_bits_number b) with true by lia. rewrite vget_cons by lia.
      by replace (p - m_bits_number b =? 0) with true by lia.
    + rewrite vget_cons by lia. replace (p - m_bits_number b =? 0) with false by lia.
      do 2 f_equal. lia.
Qed.

(** The loop that turns the bits around. *)
Lemma reverse_loop rb b k :
  wf rb -> wf b -> 0 <= Z.of_nat k < m_bits_number rb ->
  m_bits_number b = m_bits_number rb - 1 - Z.of_nat k ->
  (forall p, 0 <= p < m_bits_number b ->
     Z.testbit (value b) p = Z.testbit (value rb) (m_bits_number rb - 1 - p)) ->
  exists b', for_down k (Z.of_nat k)
      (fun i b => t ← Bitset.test W rb i; Bitset.push_back W b t) b = Some b' /\
    wf b' /\ m_bits_number b' = m_bits_number rb - 1 /\
    forall p, 0 <= p < m_bits_number b' ->
      Z.testbit (value b') p = Z.testbit (value rb) (m_bits_number rb - 1 - p).
Proof.
  intros Hrb. revert b. induction k as [|k IH]; intros b Hb Hk Hn Hbits; cbn [for_down].
  - exists b. repeat (split; [done|]). split; [lia|done].
  - rewrite test_spec by (done || lia). cbn [mbind option_bind].
    destruct (push_back_bits b (Z.testbit (value rb) (Z.of_nat (S k))) Hb) as (b1 & -> & W1 & N1 & V1).
    cbn [mbind option_bind]. replace (Z.of_nat (S k) - 1) with (Z.of_nat k) by lia.
    apply IH; [done|lia|lia|]. intros p Hp. rewrite V1 by lia.
    destruct (Z.eqb_spec p (m_bits_number b)) as [->|]; [f_equal; lia|apply Hbits; lia].
Qed.

Lemma drop_while_app {A} (f : A -> bool) l1 l2 :
  Forall (fun x => f x = true) l1 -> drop_while f (l1 ++ l2) = drop_while f l2.
Proof. induction 1 as [|x l Hx _ IH]; simpl; [done|]. by rewrite Hx. Qed.

(** Input of white space, [n > 0] digits and anything else is read as the
    bitset the digits spell. *)
Lemma extract_spec isspace spaces v n rest b :
  zero <> one -> isspace zero = false -> isspace one = false ->
  Forall (fun c => isspace c = true) spaces -> no_digit rest ->
  0 < n -> 0 <= v < 2 ^ n ->
  exists b', Bitset.extract W isspace (spaces ++ render (Z.testbit v) n ++ rest) zero one b
    = Some (b', rest) /\ wf b' /\ m_bits_number b' = n /\ value b' = v.
Proof.
  intros Hzo Hs0 Hs1 Hsp Hr Hn Hv.
  set (l := (fun i => Z.testbit v (n - 1 - i)) <$> seqZ 0 n).
  assert (El : render (Z.testbit v) n = digits l).
  { unfold BitSetString.render, digits, l. by rewrite <- list_fmap_compose. }
  assert (Ln : vsize l = n) by (unfold l; rewrite vsize_map; unfold vsize; rewrite length_seqZ; lia).
  unfold Bitset.extract. rewrite drop_while_app, El by done.
  destruct l as [|x l'] eqn:Dl; [unfold vsize in Ln; simpl in Ln; lia|]. rewrite <- Dl in *.
  assert (Edw : drop_while isspace (digits l ++ rest) = digits l ++ rest).
  { rewrite Dl. simpl. by destruct x; rewrite ?Hs0, ?Hs1. }
  rewrite Edw. destruct (read_bits_spec l rest Bitset.ctor_empty Hzo Hr (wf_ctor_empty W))
    as (rb & E & Wr & Nr & Vr).
  assert (Hne : digits l ++ rest <> []) by (by rewrite Dl).
  destruct (digits l ++ rest) as [|c cs] eqn:Ei; [done|]. rewrite E. cbn [mbind option_bind].
  cbn [Bitset.ctor_empty m_bits_number] in Nr, Vr. rewrite Z.add_0_l, Ln in Nr.
  assert (Hbits : forall p, 0 <= p < n -> Z.testbit (value rb) (n - 1 - p) = Z.testbit v p).
  { intros p Hp. rewrite Vr by lia. replace (n - 1 - p <? 0) with false by lia.
    rewrite Z.sub_0_r. unfold vget. replace (0 <=? n - 1 - p) with true by lia.
    unfold l at 1. rewrite list_lookup_fmap, lookup_seqZ_lt by lia. simpl. f_equal. lia. }
  unfold Bitset.empty, Bitset.size. rewrite Nr. replace (n =? 0) with false by lia. cbn [negb].
  destruct (reverse_loop rb (Bitset.clear b) (Z.to_nat (n - 1))) as (b1 & E1 & W1 & N1 & V1);
    [done|apply (wf_ctor_empty W)|lia|simpl; lia|simpl; lia|].
  rewrite Z2Nat.id in E1 by lia. rewrite E1. cbn [mbind option_bind].
  rewrite test_spec by (done || lia). cbn [mbind option_bind].
  destruct (push_back_bits b1 (Z.testbit (value rb) 0) W1) as (b2 & -> & W2 & N2 & V2).
  cbn [mbind option_bind]. exists b2. split; [done|]. split; [done|]. split; [lia|].
  apply (bits_eq n); [|done|].
  { replace n with (m_bits_number b2) by lia. by apply value_range. }
  intros p Hp. rewrite V2 by lia. destruct (Z.eqb_spec p (m_bits_number b1)) as [->|].
  - rewrite <- Hbits by lia. f_equal. lia.
  - rewrite V1 by lia. rewrite <- Hbits by lia. f_equal. lia.
Qed.
End Chars.
End Text.
