(* ===== verification/BitSetTheorems.v ===== *)
(** What [dynamic_bitset] promises its clients.

    The abstract specification is a pair: a size [n] and a number [v] below
    [2 ^ n]. Every mutator is given by an [op], with its C++ implementation
    ([run_op]) and its meaning on the pair ([spec_op], undefined exactly where an
    [assert] of the source fires). The theorems at the end are the properties of
    the class as a whole. *)

From Stdlib Require Import ZArith Lia ZifyBool Bool.
From stdpp Require Import base numbers list option.
From S2P Require Import Prelude BitBlock BitSet BitSetFacts BitSetOps BitSetRange BitSetGrow.
From S2P Require Import BitSetRange BitSetQuery BitSetFind BitSetString.

Local Open Scope Z_scope.

(** *** Mutators *)

Inductive op :=
  | OSet (pos : Z) (x : bool) | OFlip (pos : Z)
  | OSetAll | OResetAll | OFlipAll
  | OSetRange (pos len : Z) (x : bool) | OFlipRange (pos len : Z)
  | OResize (n : Z) (x : bool) | OClear | OPushBack (x : bool) | OPopBack
  | OAppendBlock (x : Z) | OAppendBlocks (l : list Z) | OAppend (o : dynamic_bitset) | OAppendSelf
  | OAnd (o : dynamic_bitset) | OOr (o : dynamic_bitset) | OXor (o : dynamic_bitset)
  | OSub (o : dynamic_bitset) | OShl (shift : Z) | OShr (shift : Z).

Section Trace.
Context (W : Z).

Definition run_op (o : op) (b : dynamic_bitset) : option dynamic_bitset :=
  match o with
  | OSet pos x => if x then Bitset.set_pos W b pos true else Bitset.reset_pos W b pos
  | OFlip pos => Bitset.flip_pos W b pos
  | OSetAll => Bitset.set_all W b
  | OResetAll => Some (Bitset.reset_all W b)
  | OFlipAll => Bitset.flip_all W b
  | OSetRange pos len x =>
      if x then Bitset.set_range W b pos len true else Bitset.reset_range W b pos len
  | OFlipRange pos len => Bitset.flip_range W b pos len
  | OResize n x => Bitset.resize W b n x
  | OClear => Some (Bitset.clear b)
  | OPushBack x => Bitset.push_back W b x
  | OPopBack => Bitset.pop_back W b
  | OAppendBlock x => Bitset.append_block W b x
  | OAppendBlocks l => Bitset.append_init W b l
  | OAppend other => Bitset.append_bitset W b other
  | OAppendSelf => Bitset.append_self W b
  | OAnd rhs => Bitset.and_assign b rhs
  | OOr rhs => Bitset.or_assign b rhs
  | OXor rhs => Bitset.xor_assign b rhs
  | OSub rhs => Bitset.sub_assign W b rhs
  | OShl shift => Bitset.shl_assign W b shift
  | OShr shift => Bitset.shr_assign W b shift
  end.

Fixpoint run_ops (os : list op) (b : dynamic_bitset) : option dynamic_bitset :=
  match os with
  | [] => Some b
  | o :: os' => b' ← run_op o b; run_ops os' b'
  end.

(** The meaning of a mutator on (size, number). *)
Definition spec_op (o : op) (s : Z * Z) : option (Z * Z) :=
  let '(n, v) := s in
  match o with
  | OSet pos x => assert! pos <? n; Some (n, if x then Z.lor v (2 ^ pos) else Z.ldiff v (2 ^ pos))
  | OFlip pos => assert! pos <? n; Some (n, Z.lxor v (2 ^ pos))
  | OSetAll => Some (n, Z.ones n)
  | OResetAll => Some (n, 0)
  | OFlipAll => Some (n, Z.lxor v (Z.ones n))
  | OSetRange pos len x =>
      assert! (pos <? n) && (pos + len <=? n);
      Some (n, if x then Z.lor v (Z.shiftl (Z.ones len) pos)
               else Z.ldiff v (Z.shiftl (Z.ones len) pos))
  | OFlipRange pos len =>
      assert! (pos <? n) && (pos + len <=? n); Some (n, Z.lxor v (Z.shiftl (Z.ones len) pos))
  | OResize n' x => Some (n', resize_spec n v n' x)
  | OClear => Some (0, 0)
  | OPushBack x => Some (n + 1, Z.lor v (Z.shiftl (Z.b2z x) n))
  | OPopBack => if n =? 0 then Some (n, v) else Some (n - 1, v mod 2 ^ (n - 1))
  | OAppendBlock x => Some (n + W, append_spec n v x)
  | OAppendBlocks l => Some (n + vsize l * W, append_spec n v (blocks_value W l))
  | OAppend o => Some (n + m_bits_number o, append_spec n v (value W o))
  | OAppendSelf => Some (n + n, append_spec n v v)
  | OAnd o => assert! n =? m_bits_number o; Some (n, Z.land v (value W o))
  | OOr o => assert! n =? m_bits_number o; Some (n, Z.lor v (value W o))
  | OXor o => assert! n =? m_bits_number o; Some (n, Z.lxor v (value W o))
  | OSub o => assert! n =? m_bits_number o; Some (n, Z.ldiff v (value W o))
  | OShl shift => Some (n, Z.shiftl v shift mod 2 ^ n)
  | OShr shift => Some (n, Z.shiftr v shift)
  end.

Fixpoint spec_ops (os : list op) (s : Z * Z) : option (Z * Z) :=
  match os with
  | [] => Some s
  | o :: os' => s' ← spec_op o s; spec_ops os' s'
  end.

(** Arguments are unsigned, blocks are blocks, other bitsets are consistent. *)
Definition op_ok (o : op) : Prop :=
  match o with
  | OSet pos _ | OFlip pos => 0 <= pos
  | OSetRange pos len _ | OFlipRange pos len => 0 <= pos /\ 0 <= len
  | OResize n _ => 0 <= n
  | OAppendBlock x => 0 <= x < 2 ^ W
  | OAppendBlocks l => blocks_ok W l
  | OAppend o | OAnd o | OOr o | OXor o | OSub o => wf W o
  | OShl shift | OShr shift => 0 <= shift
  | _ => True
  end.

(** The result of an operation and the result the specification asks for. *)
Definition simulates (r : option dynamic_bitset) (s : option (Z * Z)) : Prop :=
  match s with
  | Some (n, v) => refines W r n v
  | None => r = None
  end.

Context {HW : BlockType W}.

Lemma append_init_refines b l :
  wf W b -> blocks_ok W l ->
  refines W (Bitset.append_init W b l) (m_bits_number b + vsize l * W)
    (append_spec (m_bits_number b) (value W b) (blocks_value W l)).
Proof.
  intros H Hl. unfold Bitset.append_init. destruct (Z.eqb_spec (vsize l) 0) as [E|E].
  - apply vsize_nil_iff in E as ->. apply (append_blocks_refines W b [] H Hl).
  - by apply append_blocks_refines.
Qed.

Lemma zip_assign_None f b rhs :
  m_bits_number b <> m_bits_number rhs -> Bitset.zip_assign f b rhs = None.
Proof.
  intros E. unfold Bitset.zip_assign, Bitset.size.
  by destruct (Z.eqb_spec (m_bits_number b) (m_bits_number rhs)).
Qed.

Lemma range_None b pos len :
  0 <= pos -> 0 <= len -> (pos <? m_bits_number b) && (pos + len <=? m_bits_number b) = false ->
  (forall x, Bitset.set_range W b pos len x = None) /\ Bitset.flip_range W b pos len = None.
Proof.
  intros Hp Hl E. unfold Bitset.set_range, Bitset.flip_range, Bitset.size.
  destruct (Z.ltb_spec pos (m_bits_number b)); [|done]. destruct (Z.eqb_spec len 0); [lia|].
  by replace (pos + len - 1 <? m_bits_number b) with false by lia.
Qed.

Lemma run_op_simulates o b :
  op_ok o -> wf W b -> simulates (run_op o b) (spec_op o (m_bits_number b, value W b)).
Proof.
  intros Ho H. destruct o; cbn [run_op spec_op simulates op_ok] in *.
  - destruct (Z.ltb_spec pos (m_bits_number b)) as [Hlt|Hge]; simpl.
    + destruct x; by apply (set_pos_refines W b).
    + unfold Bitset.reset_pos, Bitset.set_pos, Bitset.size.
      destruct x; by replace (pos <? m_bits_number b) with false by lia.
  - destruct (Z.ltb_spec pos (m_bits_number b)) as [Hlt|Hge]; simpl.
    + by apply flip_pos_refines.
    + unfold Bitset.flip_pos, Bitset.size. by replace (pos <? m_bits_number b) with false by lia.
  - by apply set_all_refines.
  - by apply reset_all_refines.
  - by apply flip_all_refines.
  - destruct ((pos <? m_bits_number b) && (pos + len <=? m_bits_number b)) eqn:E; simpl.
    + destruct x; apply (set_range_refines W b); (done || lia).
    + destruct (range_None b pos len ltac:(lia) ltac:(lia) E) as [Hs _]. destruct x; apply Hs.
  - destruct ((pos <? m_bits_number b) && (pos + len <=? m_bits_number b)) eqn:E; simpl.
    + apply (flip_range_refines W b); (done || lia).
    + apply range_None; (done || lia).
  - by apply resize_refines.
  - exists (Bitset.clear b). split; [done|]. split; [apply (wf_ctor_empty W)|done].
  - by apply push_back_refines.
  - destruct (Z.eqb_spec (m_bits_number b) 0) as [E|E].
    + unfold Bitset.pop_back, Bitset.empty, Bitset.size. rewrite E. simpl.
      rewrite <- E at 1. by apply wf_refines.
    + pose proof (wf_size _ _ H). by apply (pop_back_refines W b H); lia.
  - by apply append_block_refines.
  - by apply append_init_refines.
  - by apply append_bitset_refines.
  - by apply append_self_refines.
  - destruct (Z.eqb_spec (m_bits_number b) (m_bits_number o)); simpl;
      [by apply and_assign_refines|by apply zip_assign_None].
  - destruct (Z.eqb_spec (m_bits_number b) (m_bits_number o)); simpl;
      [by apply or_assign_refines|by apply zip_assign_None].
  - destruct (Z.eqb_spec (m_bits_number b) (m_bits_number o)); simpl;
      [by apply xor_assign_refines|by apply zip_assign_None].
  - destruct (Z.eqb_spec (m_bits_number b) (m_bits_number o)); simpl;
      [by apply sub_assign_refines|by apply zip_assign_None].
  - by apply shl_assign_refines.
  - by apply shr_assign_refines.
Qed.

(** *** The properties of the class *)

End Trace.


Section Queries.
Context (W : Z) {HW : BlockType W}.

Lemma length_set_bits v k :
  Z.of_nat (length (set_bits v 0 (Z.of_nat k))) = popcount_bits k v.
Proof.
  induction k as [|k IH]; [done|]. cbn [popcount_bits]. rewrite <- IH. unfold set_bits.
  replace (Z.of_nat (S k) - 0) with (Z.of_nat k + 1) by lia. rewrite Z.sub_0_r.
  rewrite seqZ_app, list.filter_app, length_app, Z.add_0_l by lia.
  rewrite (seqZ_cons (Z.of_nat k)) by lia. change (seqZ _ (Z.pred 1)) with (@nil Z).
  rewrite filter_cons. case_decide as E; simpl.
  - rewrite E. simpl. lia.
  - apply not_true_is_false in E. rewrite E. simpl. lia.
Qed.

Lemma count_set_bits b :
  wf W b -> Bitset.count W b = Some (Z.of_nat (length (set_bits (value W b) 0 (m_bits_number b)))).
Proof.
  intros H. rewrite count_spec by done. rewrite <- (Z2Nat.id (m_bits_number b)) at 2 by apply (wf_size _ _ H).
  by rewrite length_set_bits.
Qed.

Lemma all_any_none_spec b :
  wf W b ->
  exists a o, Bitset.all W b = Some a /\ Bitset.any W b = Some o /\ Bitset.none W b = Some (negb o) /\
    (a = true <-> forall p, 0 <= p < m_bits_number b -> Z.testbit (value W b) p = true) /\
    (o = true <-> exists p, 0 <= p < m_bits_number b /\ Z.testbit (value W b) p = true).
Proof.
  intros H. pose proof (wf_size _ _ H). pose proof (value_range W b H) as Hv. do 2 eexists.
  rewrite all_spec, any_spec, none_spec, negb_involutive by done. repeat (split; [done|]). split.
  - rewrite Z.eqb_eq. split; [intros -> p Hp; rewrite testbit_ones by done; lia|]. intros Hb.
    apply Z.bits_inj'. intros j Hj. rewrite testbit_ones by done.
    destruct (Z.lt_ge_cases j (m_bits_number b)); [rewrite Hb by done; lia|].
    rewrite (value_high W) by done. lia.
  - rewrite negb_true_iff, Z.eqb_neq. split.
    + intros Hne. destruct (nonzero_bit _ _ Hv Hne) as (j & Hj & E). by exists j.
    + intros (p & Hp & E) E0. rewrite E0, Z.bits_0 in E. done.
Qed.

(** [count] is the number of set bits, at every block width, and [all], [any]
    and [none] say of the bits what their names say. *)
Lemma bitset_tests_correct b :
  wf W b ->
  Bitset.count W b = Some (Z.of_nat (length (set_bits (value W b) 0 (m_bits_number b)))) /\
  exists a o, Bitset.all W b = Some a /\ Bitset.any W b = Some o /\ Bitset.none W b = Some (negb o) /\
    (a = true <-> forall p, 0 <= p < m_bits_number b -> Z.testbit (value W b) p = true) /\
    (o = true <-> exists p, 0 <= p < m_bits_number b /\ Z.testbit (value W b) p = true).
Proof. intros H. split; [by apply count_set_bits|by apply all_any_none_spec]. Qed.

Lemma ldiff_zero_iff x y :
  Z.ldiff x y = 0 <-> forall p, 0 <= p -> Z.testbit x p = true -> Z.testbit y p = true.
Proof.
  split.
  - intros E p Hp Ex. assert (Z.testbit (Z.ldiff x y) p = false) as F by (rewrite E; apply Z.bits_0).
    rewrite Z.ldiff_spec, Ex in F. by destruct (Z.testbit y p).
  - intros Hp. apply zero_bits. intros j Hj. rewrite Z.ldiff_spec.
    destruct (Z.testbit x j) eqn:E; [|done]. by rewrite Hp.
Qed.

Lemma inclusion_tests b1 b2 :
  wf W b1 -> wf W b2 -> m_bits_number b1 = m_bits_number b2 ->
  let mem b p := Z.testbit (value W b) p = true in
  exists s p i, Bitset.is_subset_of W b1 b2 = Some s /\ Bitset.is_proper_subset_of W b1 b2 = Some p /\
    Bitset.intersects W b1 b2 = Some i /\
    (s = true <-> forall q, mem b1 q -> mem b2 q) /\
    (p = true <-> (forall q, mem b1 q -> mem b2 q) /\ exists q, mem b2 q /\ ~ mem b1 q) /\
    (i = true <-> exists q, mem b1 q /\ mem b2 q).
Proof.
  intros H1 H2 Hn mem. do 3 eexists.
  rewrite is_subset_of_spec, is_proper_subset_of_spec, intersects_spec by done.
  repeat (split; [done|]).
  assert (Hsub : forall x y, Z.ldiff (value W x) (value W y) = 0 <-> forall q, mem x q -> mem y q).
  { intros x y. rewrite ldiff_zero_iff. split; [|intros Hq p _; apply Hq]. intros Hq q Hx. apply Hq; [|done].
    destruct (Z.le_gt_cases 0 q); [done|]. unfold mem in Hx. by rewrite Z.testbit_neg_r in Hx. }
  rewrite Z.eqb_eq. split; [apply Hsub|]. rewrite andb_true_iff, negb_true_iff, Z.eqb_eq, Z.eqb_neq, Hsub.
  split.
  - split; intros [Ha Hb]; (split; [done|]).
    + destruct (nonzero_bit (m_bits_number b2) (Z.ldiff (value W b2) (value W b1))) as (j & Hj & E).
      * pose proof (value_nonneg W b2 H2). split; [apply Z.ldiff_nonneg; lia|].
        apply bits_bound; [apply (wf_size _ _ H2)|apply Z.ldiff_nonneg; lia|]. intros j Hj.
        by rewrite Z.ldiff_spec, (value_high W) by done.
      * done.
      * exists j. unfold mem. rewrite Z.ldiff_spec in E.
        destruct (Z.testbit (value W b2) j), (Z.testbit (value W b1) j); done.
    + intros E. rewrite Hsub in E. destruct Hb as (q & Hq1 & Hq2). by apply Hq2, E.
  - rewrite negb_true_iff, Z.eqb_neq. split.
    + intros Hne. destruct (nonzero_bit (m_bits_number b1) (Z.land (value W b1) (value W b2))) as (j & Hj & E).
      * pose proof (value_nonneg W b1 H1). split; [apply Z.land_nonneg; lia|].
        apply bits_bound; [apply (wf_size _ _ H1)|apply Z.land_nonneg; lia|]. intros j Hj.
        by rewrite Z.land_spec, (value_high W) by done.
      * done.
      * exists j. rewrite Z.land_spec in E. by apply andb_true_iff in E.
    + intros (q & Hq1 & Hq2) E. assert (Z.testbit (Z.land (value W b1) (value W b2)) q = false) as F
        by (rewrite E; apply Z.bits_0). rewrite Z.land_spec, Hq1, Hq2 in F. done.
Qed.

(** C38: [iterate_bits_on] terminates, and calls its function on exactly the set
    positions, each once and in increasing order, up to the first call that
    returns [false]. *)
Theorem bitset_iterate_correct b f :
  wf W b -> m_bits_number b <= npos ->
  Bitset.iterate_bits_on W b f
  = Some (until_false f (set_bits (value W b) 0 (m_bits_number b))).
Proof. by apply iterate_bits_on_spec. Qed.

Lemma order_spec b1 b2 :
  wf W b1 -> wf W b2 ->
  exists l g, Bitset.less W b1 b2 = Some l /\ Bitset.less W b2 b1 = Some g /\
    (l = true <-> value W b1 < value W b2
                  \/ (value W b1 = value W b2 /\ m_bits_number b1 < m_bits_number b2)) /\
    Z.b2z l + Z.b2z (Bitset.equal b1 b2) + Z.b2z g = 1.
Proof.
  intros H1 H2. do 2 eexists. rewrite !less_spec by done. split; [done|]. split; [done|].
  pose proof (equal_spec W b1 b2 H1 H2) as He. split; [lia|].
  destruct (Bitset.equal b1 b2).
  - destruct (proj1 He eq_refl) as [En Ev]. rewrite En, Ev. lia.
  - destruct (Z.eq_dec (value W b1) (value W b2)) as [Ev|Ev]; [|lia].
    destruct (Z.eq_dec (m_bits_number b1) (m_bits_number b2)) as [En|En]; [|lia].
    by specialize (proj2 He (conj En Ev)).
Qed.

(** Comparisons. [operator<] is a strict total order compatible with
    [operator==]: by the number first, then by the size, and of two consistent
    bitsets exactly one of "less", "equal", "greater" holds. On two bitsets of the
    same size, [is_subset_of], [is_proper_subset_of] and [intersects] decide
    inclusion, strict inclusion and overlap of the sets of positions. *)
Lemma bitset_comparisons b1 b2 :
  wf W b1 -> wf W b2 ->
  let mem b p := Z.testbit (value W b) p = true in
  (exists l g, Bitset.less W b1 b2 = Some l /\ Bitset.less W b2 b1 = Some g /\
    (l = true <-> value W b1 < value W b2
                  \/ (value W b1 = value W b2 /\ m_bits_number b1 < m_bits_number b2)) /\
    Z.b2z l + Z.b2z (Bitset.equal b1 b2) + Z.b2z g = 1) /\
  (m_bits_number b1 = m_bits_number b2 ->
   exists s p i, Bitset.is_subset_of W b1 b2 = Some s /\ Bitset.is_proper_subset_of W b1 b2 = Some p /\
    Bitset.intersects W b1 b2 = Some i /\
    (s = true <-> forall q, mem b1 q -> mem b2 q) /\
    (p = true <-> (forall q, mem b1 q -> mem b2 q) /\ exists q, mem b2 q /\ ~ mem b1 q) /\
    (i = true <-> exists q, mem b1 q /\ mem b2 q)).
Proof. intros H1 H2. split; [by apply order_spec|by apply inclusion_tests]. Qed.

Lemma string_roundtrip {C} `{EqDecision C} (zero one : C) b :
  wf W b -> zero <> one -> m_bits_number b <= npos ->
  exists str, Bitset.to_string W b zero one = Some str /\ vsize str = m_bits_number b /\
    Bitset.init_from_string W str 0 npos zero one
    = if m_bits_number b =? 0 then None else Some b.
Proof.
  intros H Hzo Hn. pose proof (wf_size _ _ H). rewrite to_string_spec by done.
  eexists. split; [done|]. split; [by apply vsize_render|].
  destruct (Z.eqb_spec (m_bits_number b) 0) as [E|E].
  { unfold Bitset.init_from_string. rewrite vsize_render, E by done. done. }
  destruct (init_from_string_spec W zero one (render zero one (Z.testbit (value W b)) (m_bits_number b))
    0 npos (m_bits_number b) (value W b)) as (b' & -> & W' & N' & V');
    [done|rewrite vsize_render; lia|rewrite vsize_render; lia|unfold npos; lia|by apply value_range| |].
  - intros i Hi. by rewrite vget_render.
  - f_equal. by apply (wf_value_inj W).
Qed.

(** C39: text. The string [to_string] prints, most significant bit first, is read
    back by the string constructor as the same bitset, with any two distinct
    characters for the digits; the empty string is refused. In a stream, after
    white space and before anything that is not a digit, it is what [operator>>]
    reads: the target becomes the printed bitset whatever it held, and the rest of
    the stream is left in place. *)
Theorem bitset_text_roundtrip {C} `{EqDecision C} (zero one : C) isspace spaces rest b target :
  wf W b -> m_bits_number b <= npos -> zero <> one -> isspace zero = false -> isspace one = false ->
  Forall (fun c => isspace c = true) spaces -> no_digit zero one rest ->
  exists str, Bitset.to_string W b zero one = Some str /\ vsize str = m_bits_number b /\
    Bitset.init_from_string W str 0 npos zero one = (if m_bits_number b =? 0 then None else Some b) /\
    (0 < m_bits_number b -> Bitset.extract W isspace (spaces ++ str ++ rest) zero one target = Some (b, rest)).
Proof.
  intros H Hn Hzo H0 H1 Hs Hr. destruct (string_roundtrip zero one b H Hzo Hn) as (str & E & Hz & Hi).
  exists str. split; [done|]. split; [done|]. split; [done|]. intros Hp.
  rewrite to_string_spec in E by done. injection E as <-.
  destruct (extract_spec W zero one isspace spaces (value W b) (m_bits_number b) rest target)
    as (b' & -> & W' & N' & V'); try done; [by apply value_range|].
  f_equal. f_equal. by apply (wf_value_inj W).
Qed.

(** The bulk append, which carries the high part of each block into the
    next, is the one-by-one append of the same blocks. *)
Lemma bitset_bulk_append b blocks :
  wf W b -> blocks_ok W blocks ->
  Bitset.append_blocks W b blocks
  = append_each W b blocks.
Proof. by apply append_blocks_each. Qed.


(** The builtin and the portable versions of the two bit-counting
    primitives agree on every block, and the trailing-zero count, defined on
    nonzero blocks, is the position of the lowest set bit. *)
Lemma block_primitives_agree block :
  0 <= block < 2 ^ W -> 
  block_count W block = block_count_portable W block /\
  (block <> 0 -> exists c, count_block_trailing_zero W block = Some c /\
     count_block_trailing_zero_portable W block = Some c /\ lowest_bit block c).
Proof.
  intros Hb. split; [by rewrite block_count_spec, block_count_portable_spec|]. intros Hne.
  destruct (trailing_zero_spec W block Hb Hne) as (c & -> & Hc).
  destruct (trailing_zero_portable_spec W block Hb Hne) as (c' & -> & Hc').
  exists c. by rewrite (lowest_bit_unique _ _ _ Hc Hc') in *.
Qed.
End Queries.

(** *** The properties at concrete bitsets *)

(** Ten bits over two 8-bit blocks. *)
Definition sample : dynamic_bitset := mk_bitset [0xA5; 0x03] 10.
Definition sample2 : dynamic_bitset := mk_bitset [0xA7; 0x03] 10.

Lemma sample_wf : wf 8 sample /\ wf 8 sample2.
Proof.
  split; (apply check_consistency_wf;
    [exact _|cbn; lia|repeat constructor; cbn; lia|vm_compute; reflexivity]).
Qed.

Lemma bitset_tests_witness :
  Bitset.count 8 sample = Some 6 /\
  exists a o, Bitset.all 8 sample = Some a /\ Bitset.any 8 sample = Some o /\
    Bitset.none 8 sample = Some (negb o) /\
    (a = true <-> forall p, 0 <= p < 10 -> Z.testbit (value 8 sample) p = true) /\
    (o = true <-> exists p, 0 <= p < 10 /\ Z.testbit (value 8 sample) p = true).
Proof. exact (bitset_tests_correct 8 sample (proj1 sample_wf)). Defined.

Lemma bitset_iterate_witness :
  Bitset.iterate_bits_on 8 sample (fun p => p <? 7) = Some [0; 2; 5; 7].
Proof.
  exact (bitset_iterate_correct 8 sample (fun p => p <? 7) (proj1 sample_wf)
    ltac:(vm_compute; discriminate)).
Defined.

Lemma bitset_comparisons_witness :
  let mem b p := Z.testbit (value 8 b) p = true in
  (exists l g, Bitset.less 8 sample sample2 = Some l /\ Bitset.less 8 sample2 sample = Some g /\
    Z.b2z l + Z.b2z (Bitset.equal sample sample2) + Z.b2z g = 1) /\
  exists s, Bitset.is_subset_of 8 sample sample2 = Some s /\
    (s = true <-> forall q, mem sample q -> mem sample2 q).
Proof.
  destruct (bitset_comparisons 8 sample sample2 (proj1 sample_wf) (proj2 sample_wf))
    as [(l & g & H1 & H2 & _ & H3) H4].
  split; [by exists l, g|]. destruct (H4 eq_refl) as (s & p & i & H5 & _ & _ & H6 & _). by exists s.
Defined.

Lemma bitset_text_witness :
  exists str : list nat, Bitset.to_string 8 sample 0%nat 1%nat = Some str /\ vsize str = 10 /\
    Bitset.init_from_string 8 str 0 npos 0%nat 1%nat = Some sample /\
    (0 < 10 -> Bitset.extract 8 (fun c => Nat.eqb c 9) ([9; 9] ++ str ++ [7; 1])%nat 0%nat 1%nat sample2
    = Some (sample, [7; 1]%nat)).
Proof.
  apply (bitset_text_roundtrip 8 0%nat 1%nat (fun c => Nat.eqb c 9) [9; 9]%nat [7; 1]%nat
    sample sample2 (proj1 sample_wf)); [vm_compute; discriminate|done|done|done| |done].
  repeat constructor.
Defined.

Lemma bitset_bulk_append_witness :
  Bitset.append_blocks 8 sample [0x12; 0xFF; 0x80] = append_each 8 sample [0x12; 0xFF; 0x80].
Proof.
  apply (bitset_bulk_append 8 sample [0x12; 0xFF; 0x80] (proj1 sample_wf)).
  repeat constructor; cbn; lia.
Defined.


Lemma block_primitives_witness :
  block_count 128 (2 ^ 100 + 8) = block_count_portable 128 (2 ^ 100 + 8) /\
  (2 ^ 100 + 8 <> 0 -> exists c, count_block_trailing_zero 128 (2 ^ 100 + 8) = Some c /\
     count_block_trailing_zero_portable 128 (2 ^ 100 + 8) = Some c /\ lowest_bit (2 ^ 100 + 8) c).
Proof. apply (block_primitives_agree 128 (2 ^ 100 + 8)). lia. Defined.
