(* ===== verification/SegmentTree.v ===== *)
(** [yacl::utils::SegmentTree<size_t>] (src/yacl/utils/segment_tree.h): a set of
    identifiers kept as an ordered map from the start of a segment to its end.

    [std::map] is a vector of pairs in key order; an iterator is a position in
    it, [end()] the position past the last pair. [size_t] wraps at [2 ^ 64]. The
    abstraction is a finite set of integers; [IdSet] is the interface the
    channel uses, with the laws this file proves for the implementation. *)

From Stdlib Require Import ZArith Lia ZifyBool Bool.
From stdpp Require Import base numbers option gmap sets list.
From S2P Require Import Prelude.

Local Open Scope Z_scope.

Class IdSet (T : Type) := {
  ids_empty : T;
  ids_insert : T -> Z -> option (T * bool);
  ids_contains : T -> Z -> bool;
  ids_count : T -> Z;
  ids_runs : T -> Z;
  (** The invariant of the representation and the set it represents. *)
  ids_wf : T -> Prop;
  ids_set : T -> gset Z;

  ids_empty_spec : ids_wf ids_empty /\ ids_set ids_empty = ∅;
  ids_insert_spec t x :
    ids_wf t -> 0 <= x < 2 ^ 64 - 1 ->
    exists t', ids_insert t x = Some (t', bool_decide (x ∉ ids_set t)) /\ ids_wf t' /\
      ids_set t' = {[x]} ∪ ids_set t;
  ids_contains_spec t x : ids_wf t -> ids_contains t x = bool_decide (x ∈ ids_set t);
  ids_count_spec t : ids_wf t -> ids_count t = Z.of_nat (size (ids_set t));
  (** One run contains everything between two of its members. *)
  ids_runs_convex t a x b :
    ids_wf t -> ids_runs t <= 1 -> a ∈ ids_set t -> b ∈ ids_set t -> a <= x <= b -> x ∈ ids_set t;
  (** An interval is one run. *)
  ids_runs_interval t a b :
    ids_wf t -> (forall x, x ∈ ids_set t <-> a <= x <= b) -> ids_runs t <= 1
}.

(** *** [std::map<size_t, size_t>] *)

Abbreviation segments := (list (Z * Z)).

Definition map_is_empty (m : segments) : bool :=
  match m with
  | [] => true
  | _ => false
  end.

(** The position of the first key greater than [item]. *)
Fixpoint upper_bound (m : segments) (item : Z) : nat :=
  match m with
  | [] => 0%nat
  | (k, _) :: m' => if item <? k then 0%nat else S (upper_bound m' item)
  end.

(** [insert({k, v})]: the map and the position of the key [k]; a key that is
    present keeps its value. *)
Fixpoint map_insert (m : segments) (k v : Z) : segments * nat :=
  match m with
  | [] => ([(k, v)], 0%nat)
  | (k', v') :: m' =>
      if k <? k' then ((k, v) :: m, 0%nat)
      else if k =? k' then (m, 0%nat)
      else let '(m'', i) := map_insert m' k v in ((k', v') :: m'', S i)
  end.

(** [it->second = v]. *)
Definition map_set_second (m : segments) (it : nat) (v : Z) : segments :=
  alter (fun p => (fst p, v)) it m.

Definition map_erase (m : segments) (it : nat) : segments := delete it m.

(** *** The class *)

Record SegmentTree := mk_tree { segments_ : segments; count_ : Z }.

Definition size_t_succ (x : Z) : Z := (x + 1) mod 2 ^ 64.

Definition tree_empty : SegmentTree := mk_tree [] 0.

(** The segment that starts at or before [item]: the position before
    [upper_bound(item)], [end()] when there is none. *)
Definition segment_before (m : segments) (item : Z) : nat :=
  let current := upper_bound m item in
  if (current =? 0)%nat then length m else (current - 1)%nat.

(** "try merge segment": with the previous one, then with the next one. *)
Definition merge_prev (m : segments) (current : nat) : option (segments * nat) :=
  if negb (current =? 0)%nat then
    let prev := (current - 1)%nat in
    p ← m !! prev; c ← m !! current;
    if snd p =? fst c
    then Some (map_erase (map_set_second m prev (snd c)) current, prev)
    else Some (m, current)
  else Some (m, current).

Definition merge_next (m : segments) (current : nat) : option segments :=
  let next := S current in
  c ← m !! current;
  match m !! next with
  | Some n => if fst n =? snd c
              then Some (map_erase (map_set_second m current (snd n)) next)
              else Some m
  | None => Some m
  end.

Definition Insert (t : SegmentTree) (item : Z) : option (SegmentTree * bool) :=
  let m := segments_ t in
  if map_is_empty m
  then Some (mk_tree (fst (map_insert m item (size_t_succ item))) (size_t_succ (count_ t)), true)
  else
    let current := segment_before m item in
    let merge '(m, current) :=
      '(m1, cur1) ← merge_prev m current;
      m2 ← merge_next m1 cur1;
      Some (mk_tree m2 (size_t_succ (count_ t)), true) in
    match m !! current with
    | None => merge (map_insert m item (size_t_succ item))
    | Some c =>
        if snd c <? item then merge (map_insert m item (size_t_succ item))
        else if item =? snd c then merge (map_set_second m current (size_t_succ item), current)
        else Some (t, false)
    end.

Definition Contains (t : SegmentTree) (item : Z) : bool :=
  let m := segments_ t in
  if map_is_empty m then false
  else match m !! segment_before m item with
       | None => false
       | Some c => negb (snd c <=? item)
       end.

Definition SegmentsCount (t : SegmentTree) : Z := vsize (segments_ t).
Definition Count (t : SegmentTree) : Z := count_ t.
Definition GetSegments (t : SegmentTree) : list (Z * Z) :=
  (fun p => (fst p, snd p)) <$> segments_ t.

(** *** The invariant and the abstraction *)

(** Segments in increasing order from [lo] on, none empty, with a gap before
    each: two segments that touch are merged. *)
Fixpoint gapped (lo : Z) (m : segments) : Prop :=
  match m with
  | [] => True
  | (a, b) :: m' => lo < a /\ a < b /\ b < 2 ^ 64 /\ gapped b m'
  end.

Definition seg_elements (m : segments) : list Z :=
  m ≫= (fun p => seqZ (fst p) (snd p - fst p)).

(** The set a vector of segments represents. *)
Definition seg_set (m : segments) : gset Z := list_to_set (seg_elements m).

Record tree_wf (t : SegmentTree) : Prop := {
  tree_gapped : gapped (-1) (segments_ t);
  tree_count : count_ t = Z.of_nat (size (seg_set (segments_ t)))
}.

Lemma elem_of_seg_set m x :
  x ∈ seg_set m <-> exists p, p ∈ m /\ fst p <= x < snd p.
Proof.
  unfold seg_set, seg_elements. rewrite elem_of_list_to_set, list_elem_of_bind. split.
  - intros (p & Hx & Hp). apply elem_of_seqZ in Hx. exists p. split; [done|lia].
  - intros (p & Hp & Hx). exists p. split; [|done]. apply elem_of_seqZ. lia.
Qed.

Lemma seg_set_app m1 m2 : seg_set (m1 ++ m2) = seg_set m1 ∪ seg_set m2.
Proof.
  apply set_eq. intros x. rewrite elem_of_union, !elem_of_seg_set. split.
  - intros (p & Hp & Hx). apply elem_of_app in Hp as [Hp|Hp]; eauto.
  - intros [(p & Hp & Hx)|(p & Hp & Hx)]; exists p; (split; [apply elem_of_app; auto|done]).
Qed.

Lemma elem_of_seg_cons a b m x :
  x ∈ seg_set ((a, b) :: m) <-> a <= x < b \/ x ∈ seg_set m.
Proof.
  rewrite !elem_of_seg_set. split.
  - intros (p & Hp & Hx). apply elem_of_cons in Hp as [->|Hp]; [by left|eauto].
  - intros [Hx|(p & Hp & Hx)]; [exists (a, b)|exists p]; (split; [apply elem_of_cons; auto|done]).
Qed.

(** Everything in a gapped vector is above its lower bound. *)
Lemma gapped_above lo m x : gapped lo m -> x ∈ seg_set m -> lo < x < 2 ^ 64 - 1.
Proof.
  revert lo. induction m as [|[a b] m IH]; intros lo Hg Hx.
  - apply elem_of_seg_set in Hx as (p & Hp & _). by apply elem_of_nil in Hp.
  - destruct Hg as (H1 & H2 & H3 & H4). apply elem_of_seg_cons in Hx as [Hx|Hx]; [lia|].
    specialize (IH b H4 Hx). lia.
Qed.

Lemma gapped_weaken lo lo' m : gapped lo m -> lo' <= lo -> gapped lo' m.
Proof. destruct m as [|[a b] m]; [done|]. simpl. intros (H1 & H2) Hl. split; [lia|done]. Qed.

(** *** Splitting a gapped vector at an item *)

(** The end of the last segment of a prefix, [lo] when it is empty. *)
Definition last_end (lo : Z) (m : segments) : Z := default lo (snd <$> last m).

Lemma last_end_snoc lo m a b : last_end lo (m ++ [(a, b)]) = b.
Proof. unfold last_end. by rewrite last_snoc. Qed.

Lemma gapped_app lo m1 m2 :
  gapped lo (m1 ++ m2) <-> gapped lo m1 /\ gapped (last_end lo m1) m2.
Proof.
  revert lo. induction m1 as [|[a b] m1 IH]; intros lo; simpl; [unfold last_end; simpl; tauto|].
  rewrite IH. assert (last_end lo ((a, b) :: m1) = last_end b m1) as ->; [|tauto].
  unfold last_end. destruct m1 as [|p m1 _] using rev_ind; [done|].
  by rewrite app_comm_cons, !last_snoc.
Qed.

Lemma gapped_keys_increase lo m p : gapped lo m -> p ∈ m -> lo < fst p.
Proof.
  revert lo. induction m as [|[a b] m IH]; intros lo Hg Hp; [by apply elem_of_nil in Hp|].
  destruct Hg as (H1 & H2 & H3 & H4). apply elem_of_cons in Hp as [->|Hp]; [done|].
  specialize (IH b H4 Hp). lia.
Qed.

(** [upper_bound] splits the vector into the keys up to [item] and the others. *)
Lemma upper_bound_split lo m item :
  gapped lo m ->
  exists m1 m2, m = m1 ++ m2 /\ upper_bound m item = length m1 /\
    Forall (fun p => fst p <= item) m1 /\ Forall (fun p => item < fst p) m2.
Proof.
  revert lo. induction m as [|[a b] m IH]; intros lo Hg; simpl.
  - by exists [], [].
  - destruct Hg as (H1 & H2 & H3 & H4). destruct (Z.ltb_spec item a) as [Hlt|Hge].
    + exists [], ((a, b) :: m). split; [done|]. split; [done|]. split; [done|].
      constructor; [done|]. apply Forall_forall. intros p Hp.
      pose proof (gapped_keys_increase b m p H4 Hp). lia.
    + destruct (IH b H4) as (m1 & m2 & -> & -> & F1 & F2).
      exists ((a, b) :: m1), m2. split; [done|]. split; [done|]. split; [|done].
      constructor; [done|done].
Qed.


(** *** The steps of [Insert] *)

Lemma segment_before_none m2 item :
  Forall (fun p => item < fst p) m2 -> segment_before m2 item = length m2.
Proof.
  intros F. unfold segment_before. destruct m2 as [|[a b] m2]; [done|].
  apply Forall_cons in F as [F _]. simpl in *. by replace (item <? a) with true by lia.
Qed.

Lemma upper_bound_app m1 m2 item :
  Forall (fun p => fst p <= item) m1 -> Forall (fun p => item < fst p) m2 ->
  upper_bound (m1 ++ m2) item = length m1.
Proof.
  intros F1 F2. induction F1 as [|[a b] m1 H1 F1 IH]; simpl.
  - destruct m2 as [|[a b] m2]; [done|]. apply Forall_cons in F2 as [F2 _]. simpl in *.
    by replace (item <? a) with true by lia.
  - simpl in H1. replace (item <? a) with false by lia. by rewrite IH.
Qed.

Lemma segment_before_some q a b m2 item :
  Forall (fun p => fst p <= item) (q ++ [(a, b)]) -> Forall (fun p => item < fst p) m2 ->
  segment_before ((q ++ [(a, b)]) ++ m2) item = length q /\
  ((q ++ [(a, b)]) ++ m2) !! length q = Some (a, b).
Proof.
  intros F1 F2. unfold segment_before. rewrite upper_bound_app by done.
  rewrite length_app. simpl. replace (length q + 1 =? 0)%nat with false by lia.
  split; [lia|]. rewrite <- app_assoc. by apply list_lookup_middle.
Qed.

Lemma map_insert_middle m1 m2 k v :
  Forall (fun p => fst p < k) m1 -> Forall (fun p => k < fst p) m2 ->
  map_insert (m1 ++ m2) k v = (m1 ++ (k, v) :: m2, length m1).
Proof.
  intros F1 F2. induction F1 as [|[a b] m1 H1 F1 IH]; simpl.
  - destruct m2 as [|[a b] m2]; [done|]. apply Forall_cons in F2 as [F2 _]. simpl in *.
    by replace (k <? a) with true by lia.
  - simpl in H1. replace (k <? a) with false by lia. replace (k =? a) with false by lia.
    by rewrite IH.
Qed.

Lemma map_set_second_middle q a b r v :
  map_set_second (q ++ (a, b) :: r) (length q) v = q ++ (a, v) :: r.
Proof. unfold map_set_second. rewrite <- (Nat.add_0_r (length q)). by rewrite alter_app_r. Qed.

(** A segment that is not adjacent to the one before it stays where it is. *)
Lemma merge_prev_gap q a b r :
  last_end (a - 1) q <> a -> merge_prev (q ++ (a, b) :: r) (length q) = Some (q ++ (a, b) :: r, length q).
Proof.
  intros Hne. unfold merge_prev. destruct q as [|[c d] q _] using rev_ind; [done|].
  rewrite last_end_snoc in Hne. rewrite length_app. simpl.
  replace (length q + 1 =? 0)%nat with false by lia. cbn [negb].
  replace (length q + 1 - 1)%nat with (length q) by lia.
  replace (((q ++ [(c, d)]) ++ (a, b) :: r) !! length q) with (Some (c, d))
    by (rewrite <- app_assoc; symmetry; by apply list_lookup_middle). cbn [mbind option_bind].
  replace (((q ++ [(c, d)]) ++ (a, b) :: r) !! (length q + 1)%nat) with (Some (a, b)).
  - simpl. by replace (d =? a) with false by lia.
  - symmetry. apply list_lookup_middle. rewrite length_app. simpl. lia.
Qed.

(** The segment [a, b) in front of [r], merged with it when they touch. *)
Definition merge_after (a b : Z) (r : segments) : segments :=
  match r with
  | (c, d) :: r' => if c =? b then (a, d) :: r' else (a, b) :: r
  | [] => [(a, b)]
  end.

Lemma merge_next_spec q a b r :
  merge_next (q ++ (a, b) :: r) (length q) = Some (q ++ merge_after a b r).
Proof.
  unfold merge_next. rewrite (list_lookup_middle q r (a, b) (length q)) by done. cbn [mbind option_bind fst snd].
  destruct r as [|[c d] r]; simpl.
  - rewrite lookup_ge_None_2; [done|]. rewrite length_app. simpl. lia.
  - replace ((q ++ (a, b) :: (c, d) :: r) !! S (length q)) with (Some (c, d)).
    + simpl. destruct (c =? b); [|done]. f_equal. rewrite map_set_second_middle.
      unfold map_erase. change (q ++ (a, d) :: (c, d) :: r) with (q ++ [(a, d)] ++ (c, d) :: r).
      rewrite app_assoc. replace (S (length q)) with (length (q ++ [(a, d)]))
        by (rewrite length_app; simpl; lia).
      rewrite delete_middle. by rewrite <- app_assoc.
    + symmetry. change (q ++ (a, b) :: (c, d) :: r) with (q ++ [(a, b)] ++ (c, d) :: r).
      rewrite app_assoc. apply list_lookup_middle. rewrite length_app. simpl. lia.
Qed.

Lemma merge_after_gapped lo a b r :
  lo < a -> a < b -> b < 2 ^ 64 -> gapped (b - 1) r -> gapped lo (merge_after a b r).
Proof.
  intros H1 H2 H3 Hr. destruct r as [|[c d] r]; simpl in *; [done|].
  destruct Hr as (R1 & R2 & R3 & R4). destruct (Z.eqb_spec c b) as [->|]; simpl.
  - repeat (split; [lia|]). done.
  - repeat (split; [lia|]). done.
Qed.

Lemma elem_of_merge_after a b r lo x :
  a < b -> gapped lo r ->
  x ∈ seg_set (merge_after a b r) <-> a <= x < b \/ x ∈ seg_set r.
Proof.
  intros H1 Hr. destruct r as [|[c d] r]; simpl in *; [apply elem_of_seg_cons|].
  destruct Hr as (R1 & R2 & R3 & R4). destruct (Z.eqb_spec c b) as [->|].
  - rewrite !elem_of_seg_cons. split; [intros [?|?]; [|tauto]; lia|intros [?|[?|?]]; lia || tauto].
  - apply elem_of_seg_cons.
Qed.

(** *** Membership *)

(** The elements of a prefix lie below every later segment. *)
Lemma gapped_prefix_below lo m r p x :
  gapped lo (m ++ r) -> p ∈ r -> x ∈ seg_set m -> x < fst p.
Proof.
  revert lo. induction m as [|[a b] m IH]; intros lo Hg Hp Hx.
  - apply elem_of_seg_set in Hx as (y & Hy & _). by apply elem_of_nil in Hy.
  - destruct Hg as (H1 & H2 & H3 & H4). apply elem_of_seg_cons in Hx as [Hx|Hx]; [|eauto].
    assert (b < fst p); [|lia]. apply (gapped_keys_increase b (m ++ r)); [done|].
    apply elem_of_app. by right.
Qed.

Lemma above_not_elem m item : Forall (fun p => item < fst p) m -> item ∉ seg_set m.
Proof.
  intros F Hx. apply elem_of_seg_set in Hx as (p & Hp & Hx).
  rewrite Forall_forall in F. specialize (F p Hp). lia.
Qed.

(** Whether [item] is a member is decided by the last segment that starts at or
    before it. *)
Lemma elem_of_split lo q a b m2 item :
  gapped lo ((q ++ [(a, b)]) ++ m2) -> a <= item -> Forall (fun p => item < fst p) m2 ->
  item ∈ seg_set ((q ++ [(a, b)]) ++ m2) <-> item < b.
Proof.
  intros Hg Ha F2. rewrite !seg_set_app, !elem_of_union. split.
  - intros [[Hx|Hx]|Hx].
    + rewrite <- app_assoc in Hg.
      pose proof (gapped_prefix_below lo q _ (a, b) item Hg ltac:(by constructor) Hx).
      simpl in *. lia.
    + apply elem_of_seg_cons in Hx as [Hx|Hx]; [lia|]. by apply elem_of_seg_set in Hx as (p & Hp%elem_of_nil & _).
    + by apply above_not_elem in Hx.
  - intros Hb. left. right. apply elem_of_seg_cons. left. lia.
Qed.

Lemma Contains_spec t item :
  tree_wf t -> Contains t item = bool_decide (item ∈ seg_set (segments_ t)).
Proof.
  intros [Hg _]. unfold Contains. destruct (upper_bound_split _ _ item Hg) as (m1 & m2 & E & _ & F1 & F2).
  rewrite E in *. destruct m1 as [|[a b] q _] using rev_ind.
  - cbn [app] in *. rewrite bool_decide_false by (by apply above_not_elem).
    rewrite segment_before_none, lookup_ge_None_2 by done. by destruct (map_is_empty m2).
  - destruct (segment_before_some q a b m2 item F1 F2) as [-> ->].
    apply Forall_app in F1 as [_ F1]. apply Forall_cons in F1 as [F1 _]. simpl in F1.
    pose proof (elem_of_split _ q a b m2 item Hg F1 F2) as Hm.
    replace (map_is_empty ((q ++ [(a, b)]) ++ m2)) with false by (by destruct q). simpl. destruct (Z.leb_spec b item); simpl; symmetry;
      [apply bool_decide_false; rewrite Hm; lia|apply bool_decide_true; rewrite Hm; lia].
Qed.

(** *** Insertion *)

Lemma seg_set_bound m : gapped (-1) m -> Z.of_nat (size (seg_set m)) <= 2 ^ 64 - 1.
Proof.
  intros Hg. set (N := 2 ^ 64 - 1).
  assert (Hsub : seg_set m ⊆ list_to_set (seqZ 0 N)).
  { intros x Hx. apply elem_of_list_to_set, elem_of_seqZ.
    pose proof (gapped_above _ _ _ Hg Hx). unfold N. lia. }
  apply subseteq_size in Hsub. rewrite size_list_to_set in Hsub by apply NoDup_seqZ.
  rewrite length_seqZ in Hsub. assert (0 <= N) by (unfold N; lia). lia.
Qed.

(** What is left to do once the new vector is known to be gapped and to have
    [item] as its only new element. *)
Lemma insert_result t item m m' :
  tree_wf t -> segments_ t = m -> item ∉ seg_set m -> gapped (-1) m' ->
  (forall x, x ∈ seg_set m' <-> x = item \/ x ∈ seg_set m) ->
  tree_wf (mk_tree m' (size_t_succ (count_ t))) /\ seg_set m' = {[item]} ∪ seg_set m.
Proof.
  intros [Hg Hc] Em Hni Hg' Hx. rewrite Em in Hc.
  assert (Hd : {[item]} ## seg_set m) by (apply disjoint_singleton_l; done).
  assert (E : seg_set m' = {[item]} ∪ seg_set m).
  { apply set_eq. intros x. by rewrite Hx, elem_of_union, elem_of_singleton. }
  split; [|done]. split; [done|]. simpl. pose proof (seg_set_bound m' Hg') as Hb.
  rewrite E, size_union, size_singleton in Hb |- * by done.
  unfold size_t_succ. rewrite Hc, Z.mod_small; lia.
Qed.

(** A new segment between the segments before and after [item]. *)
Lemma insert_new_segment m1 m2 item :
  gapped (-1) (m1 ++ m2) -> Forall (fun p => item < fst p) m2 ->
  last_end (-1) m1 < item -> 0 <= item < 2 ^ 64 - 1 ->
  gapped (-1) (m1 ++ merge_after item (item + 1) m2) /\
  forall x, x ∈ seg_set (m1 ++ merge_after item (item + 1) m2)
            <-> x = item \/ x ∈ seg_set (m1 ++ m2).
Proof.
  intros Hg F2 Hl Hi. apply gapped_app in Hg as [Hg1 Hg2].
  assert (Hg2' : gapped (item + 1 - 1) m2).
  { destruct m2 as [|[c d] m2]; [done|]. apply Forall_cons in F2 as [F2 _]. simpl in *.
    split; [lia|]. by destruct Hg2 as (_ & ? & ? & ?). }
  split.
  - apply gapped_app. split; [done|]. apply merge_after_gapped; try lia. done.
  - intros x. rewrite !seg_set_app, !elem_of_union.
    rewrite (elem_of_merge_after item (item + 1) m2 _ x ltac:(lia) Hg2'). split.
    + intros [?|[?|?]]; [tauto|left; lia|tauto].
    + intros [-> | [?|?]]; [right; left; lia|tauto|tauto].
Qed.

(** The segment before [item] grows by one. *)
Lemma insert_expand_segment q a item m2 :
  gapped (-1) ((q ++ [(a, item)]) ++ m2) -> Forall (fun p => item < fst p) m2 ->
  0 <= item < 2 ^ 64 - 1 ->
  gapped (-1) (q ++ merge_after a (item + 1) m2) /\
  forall x, x ∈ seg_set (q ++ merge_after a (item + 1) m2)
            <-> x = item \/ x ∈ seg_set ((q ++ [(a, item)]) ++ m2).
Proof.
  intros Hg F2 Hi. apply gapped_app in Hg as [Hg1 Hg2].
  apply gapped_app in Hg1 as [Hg1 (G1 & G2 & G3 & _)]. rewrite last_end_snoc in Hg2.
  assert (Hg2' : gapped (item + 1 - 1) m2).
  { destruct m2 as [|[c d] m2]; [done|]. simpl in *. split; [lia|]. by destruct Hg2 as (_ & ? & ? & ?). }
  split.
  - apply gapped_app. split; [done|]. apply merge_after_gapped; try lia. done.
  - intros x. rewrite !seg_set_app, !elem_of_union, elem_of_seg_cons.
    rewrite (elem_of_merge_after a (item + 1) m2 _ x ltac:(lia) Hg2').
    assert (x ∈ seg_set [] <-> False) as ->.
    { split; [|done]. intros Hx. by apply elem_of_seg_set in Hx as (p & Hp%elem_of_nil & _). }
    split.
    + intros [?|[?|?]]; [tauto| |tauto]. destruct (Z.eq_dec x item); [tauto|]. right. left. right. lia.
    + intros [-> | [[?|[?|[]]]|?]]; [right; left; lia|tauto|right; left; lia|tauto].
Qed.

Lemma gapped_nonempty lo m p : gapped lo m -> p ∈ m -> fst p < snd p.
Proof.
  revert lo. induction m as [|[a b] m IH]; intros lo Hg Hp; [by apply elem_of_nil in Hp|].
  destruct Hg as (H1 & H2 & H3 & H4). apply elem_of_cons in Hp as [-> | Hp]; eauto.
Qed.

(** No segment starts at an item that is not a member. *)
Lemma keys_before_item lo m1 m2 item :
  gapped lo (m1 ++ m2) -> Forall (fun p => fst p <= item) m1 -> item ∉ seg_set (m1 ++ m2) ->
  Forall (fun p => fst p < item) m1.
Proof.
  rewrite !Forall_forall. intros Hg F Hni p Hp. specialize (F p Hp).
  assert (Hp' : p ∈ m1 ++ m2) by (apply elem_of_app; by left).
  destruct (Z.eq_dec (fst p) item) as [E|]; [|lia]. destruct Hni. apply elem_of_seg_set.
  exists p. pose proof (gapped_nonempty lo _ p Hg Hp'). split; [done|lia].
Qed.

(** Merging the segment [a, b) at position [length q]. *)
Lemma merge_steps q a b r t :
  last_end (a - 1) q <> a ->
  ('(m1, cur1) ← merge_prev (q ++ (a, b) :: r) (length q);
   m2 ← merge_next m1 cur1;
   Some (mk_tree m2 (size_t_succ (count_ t)), true))
  = Some (mk_tree (q ++ merge_after a b r) (size_t_succ (count_ t)), true).
Proof.
  intros Hne. rewrite merge_prev_gap by done. cbn [mbind option_bind].
  by rewrite merge_next_spec.
Qed.

Lemma size_t_succ_small x : 0 <= x < 2 ^ 64 - 1 -> size_t_succ x = x + 1.
Proof. intros Hx. unfold size_t_succ. apply Z.mod_small. lia. Qed.

Lemma Insert_spec t item :
  tree_wf t -> 0 <= item < 2 ^ 64 - 1 ->
  exists t', Insert t item = Some (t', bool_decide (item ∉ seg_set (segments_ t))) /\ tree_wf t' /\
    seg_set (segments_ t') = {[item]} ∪ seg_set (segments_ t).
Proof.
  intros Ht Hi. pose proof Ht as [Hg _]. unfold Insert. rewrite size_t_succ_small by done.
  destruct (upper_bound_split _ _ item Hg) as (m1 & m2 & E & _ & F1 & F2). rewrite E in Hg |- *.
  destruct m1 as [|[a b] q _] using rev_ind.
  - cbn [app] in *. pose proof (above_not_elem m2 item F2) as Hni.
    rewrite bool_decide_true by done.
    destruct (insert_new_segment [] m2 item) as [G M]; [done|done|unfold last_end; simpl; lia|done|].
    destruct (insert_result t item _ _ Ht E Hni G M) as [T S].
    eexists. split; [|split; [exact T|exact S]]. destruct m2 as [|p m2]; [done|]. cbn [map_is_empty].
    rewrite segment_before_none, lookup_ge_None_2 by done.
    rewrite (map_insert_middle [] (p :: m2)) by done.
    apply (merge_steps [] item (item + 1) (p :: m2) t). unfold last_end. simpl. lia.
  - destruct (segment_before_some q a b m2 item F1 F2) as [-> ->].
    replace (map_is_empty ((q ++ [(a, b)]) ++ m2)) with false by (by destruct q).
    assert (Ha : a <= item).
    { apply Forall_app in F1 as [_ F1]. by apply Forall_cons in F1 as [F1 _]. }
    pose proof (elem_of_split _ q a b m2 item Hg Ha F2) as Hm. cbn [snd].
    destruct (Z.ltb_spec b item) as [Hb|Hb]; [|destruct (Z.eqb_spec item b) as [<-|Hne]].
    + assert (Hni : item ∉ seg_set ((q ++ [(a, b)]) ++ m2)) by (rewrite Hm; lia).
      rewrite bool_decide_true by done.
      destruct (insert_new_segment (q ++ [(a, b)]) m2 item) as [G M];
        [done|done|rewrite last_end_snoc; lia|done|].
      destruct (insert_result t item _ _ Ht E Hni G M) as [T S].
      eexists. split; [|split; [exact T|exact S]].
      rewrite map_insert_middle by (done || by apply (keys_before_item (-1) _ m2)).
      apply merge_steps. rewrite last_end_snoc. lia.
    + assert (Hni : item ∉ seg_set ((q ++ [(a, item)]) ++ m2)) by (rewrite Hm; lia).
      rewrite bool_decide_true by done.
      destruct (insert_expand_segment q a item m2) as [G M]; [done|done|done|].
      destruct (insert_result t item _ _ Ht E Hni G M) as [T S].
      eexists. split; [|split; [exact T|exact S]].
      rewrite <- app_assoc. cbn [app]. rewrite map_set_second_middle. apply merge_steps.
      apply gapped_app in Hg as [Hg _]. apply gapped_app in Hg as [_ (Hg & _)].
      unfold last_end in *. destruct (last q) as [[c d]|]; simpl in *; lia.
    + assert (Hin : item ∈ seg_set ((q ++ [(a, b)]) ++ m2)) by (rewrite Hm; lia).
      exists t. rewrite bool_decide_false by (intros H; by apply H).
      split; [done|]. split; [done|]. rewrite E. apply set_eq. intros x.
      rewrite elem_of_union, elem_of_singleton. split; [by right|by intros [-> | ?]].
Qed.

(** *** Runs *)

Lemma seg_set_nil x : x ∉ seg_set [].
Proof. intros Hx. by apply elem_of_seg_set in Hx as (p & Hp%elem_of_nil & _). Qed.

Lemma SegmentsCount_convex t a x b :
  tree_wf t -> SegmentsCount t <= 1 -> a ∈ seg_set (segments_ t) -> b ∈ seg_set (segments_ t) ->
  a <= x <= b -> x ∈ seg_set (segments_ t).
Proof.
  intros _ Hn. unfold SegmentsCount, vsize in Hn. destruct (segments_ t) as [|[c d] [|p m]]; simpl in Hn.
  - intros Ha. by apply seg_set_nil in Ha.
  - rewrite !elem_of_seg_cons. intros [Ha|Ha] [Hb|Hb] Hx; try by apply seg_set_nil in Ha.
    + left. lia.
    + by apply seg_set_nil in Hb.
  - lia.
Qed.

Lemma SegmentsCount_interval t a b :
  tree_wf t -> (forall x, x ∈ seg_set (segments_ t) <-> a <= x <= b) -> SegmentsCount t <= 1.
Proof.
  intros [Hg _]. unfold SegmentsCount, vsize.
  destruct (segments_ t) as [|[c d] [|[e f] m]]; simpl; [lia|lia|]. intros Hx. exfalso.
  destruct Hg as (H1 & H2 & H3 & H4 & H5 & H6 & H7).
  assert (Hc : a <= c <= b) by (apply Hx; apply elem_of_seg_cons; left; lia).
  assert (He : a <= e <= b)
    by (apply Hx; apply elem_of_seg_cons; right; apply elem_of_seg_cons; left; lia).
  assert (Hd : d ∈ seg_set ((c, d) :: (e, f) :: m)) by (apply Hx; lia).
  apply elem_of_seg_cons in Hd as [Hd|Hd]; [lia|].
  assert (Hg : gapped d ((e, f) :: m)) by (simpl; auto). pose proof (gapped_above _ _ _ Hg Hd). lia.
Qed.

Lemma tree_empty_wf : tree_wf tree_empty.
Proof. split; [done|]. vm_compute. reflexivity. Qed.

#[export] Instance segment_tree_ids : IdSet SegmentTree.
Proof.
  refine {| ids_empty := tree_empty; ids_insert := Insert; ids_contains := Contains;
            ids_count := Count; ids_runs := SegmentsCount; ids_wf := tree_wf;
            ids_set := fun t => seg_set (segments_ t) |}.
  - split; [apply tree_empty_wf|done].
  - apply Insert_spec.
  - apply Contains_spec.
  - intros t [_ H]. exact H.
  - apply SegmentsCount_convex.
  - apply SegmentsCount_interval.
Defined.

(** *** The properties of the class *)

(** Insert a sequence of items; the flags are the results of the calls. *)
Fixpoint insert_all (t : SegmentTree) (items : list Z) : option (SegmentTree * list bool) :=
  match items with
  | [] => Some (t, [])
  | x :: items' =>
      '(t1, r) ← Insert t x; '(t2, rs) ← insert_all t1 items'; Some (t2, r :: rs)
  end.

(** Which elements of a sequence are seen for the first time. *)
Fixpoint first_seen (seen : gset Z) (items : list Z) : list bool :=
  match items with
  | [] => []
  | x :: items' => bool_decide (x ∉ seen) :: first_seen ({[x]} ∪ seen) items'
  end.



(** The test that the channel waits for, "one segment that contains 1 and
    [n]", is sound (every identifier from 1 to [n] was inserted) and complete (it
    succeeds when these were inserted and nothing else). *)
Lemma segment_tree_prefix_test t n :
  tree_wf t -> 1 <= n ->
  let S := seg_set (segments_ t) in
  ((SegmentsCount t <=? 1) && Contains t 1 && Contains t n = true -> forall x, 1 <= x <= n -> x ∈ S) /\
  ((forall x, x ∈ S <-> 1 <= x <= n) ->
     (SegmentsCount t <=? 1) && Contains t 1 && Contains t n = true).
Proof.
  intros Ht Hn S. split.
  - rewrite !andb_true_iff, Z.leb_le, !Contains_spec, !bool_decide_eq_true by done.
    intros [[Hc H1] H2] x Hx. by apply (SegmentsCount_convex t 1 x n).
  - intros Hx. pose proof (SegmentsCount_interval t 1 n Ht Hx).
    rewrite !Contains_spec, !bool_decide_true by (done || (apply Hx; lia)). lia.
Qed.

Lemma segment_tree_prefix_test_witness :
  let t := mk_tree [(1, 4)] 3 in
  ((SegmentsCount t <=? 1) && Contains t 1 && Contains t 3 = true ->
     forall x, 1 <= x <= 3 -> x ∈ seg_set (segments_ t)) /\
  ((forall x, x ∈ seg_set (segments_ t) <-> 1 <= x <= 3) ->
     (SegmentsCount t <=? 1) && Contains t 1 && Contains t 3 = true).
Proof.
  apply (segment_tree_prefix_test (mk_tree [(1, 4)] 3) 3); [|lia].
  split; [cbn; lia|vm_compute; reflexivity].
Defined.
