(* ===== verification/ChannelKeys.v ===== *)
(** The names messages travel under (src/yacl/link/transport/channel.cc, lines
    31 to 71): a normal message is sent as [msg_key], a separator of two control
    characters and its sequence number; acknowledgements and the final message
    use reserved keys.

    Strings are lists of character codes. [absl::SimpleAtoi] is not part of the
    repository: it is the class [SimpleAtoi], whose law is that it reads back
    what [std::to_string] prints for a [size_t]. *)

From Stdlib Require Import ZArith Lia ZifyBool Bool.
From stdpp Require Import base numbers list option.
From S2P Require Import Prelude.

Local Open Scope Z_scope.

Abbreviation bytes := (list Z).

Definition kSeqKey : bytes := [1; 2].
Definition kAckKey : bytes := [65; 67; 75; 1; 2].
Definition kFinKey : bytes := [70; 73; 78; 1; 2].

(** [hay.find(needle)]: the first position, [None] for [npos]. *)
Fixpoint prefixb (needle hay : bytes) : bool :=
  match needle, hay with
  | [], _ => true
  | _ :: _, [] => false
  | x :: n', y :: h' => (x =? y) && prefixb n' h'
  end.

Fixpoint str_find (needle hay : bytes) : option nat :=
  if prefixb needle hay then Some 0%nat
  else match hay with
       | [] => None
       | _ :: h' => S <$> str_find needle h'
       end.

(** The conditions [NormalMessageKeyEnforce] enforces. *)
Definition NormalMessageKeyEnforce (k : bytes) : bool :=
  negb (bool_decide (k = [])) && bool_decide (str_find kSeqKey k = None).

(** [std::to_string] of a [size_t]: at most 20 decimal digits. *)
Fixpoint to_digits (fuel : nat) (n : Z) : bytes :=
  match fuel with
  | O => []
  | S fuel' => if n <? 10 then [48 + n] else to_digits fuel' (n / 10) ++ [48 + n mod 10]
  end.

Definition to_string (n : Z) : bytes := to_digits 20 n.

(** [absl::SimpleAtoi<size_t>]. *)
Class SimpleAtoi := {
  simple_atoi : bytes -> option Z;
  simple_atoi_decimal n : 0 <= n < 2 ^ 64 -> simple_atoi (to_string n) = Some n
}.

Section Keys.
Context `{SimpleAtoi}.

(** The enforced conversion: [None] when the text is not a number. *)
Definition ViewToSizeT (v : bytes) : option Z := simple_atoi v.

Definition BuildChannelKey (msg_key : bytes) (seq_id : Z) : bytes :=
  msg_key ++ kSeqKey ++ to_string seq_id.

Definition SplitChannelKey (key : bytes) : option (bytes * Z) :=
  match str_find kSeqKey key with
  | None => Some (key, 0)
  | Some pos => n ← ViewToSizeT (drop (pos + length kSeqKey) key); Some (take pos key, n)
  end.

(** *** Lemmas *)

Lemma to_digits_nonempty fuel n : (0 < fuel)%nat -> to_digits fuel n <> [].
Proof.
  intros Hf. destruct fuel; [lia|]. simpl. destruct (n <? 10); [done|].
  by destruct (to_digits fuel (n / 10)).
Qed.

Lemma to_string_nonempty n : to_string n <> [].
Proof. apply to_digits_nonempty. lia. Qed.

Lemma length_to_digits fuel n : (length (to_digits fuel n) <= fuel)%nat.
Proof.
  revert n. induction fuel as [|fuel IH]; intros n; simpl; [lia|].
  destruct (n <? 10); simpl; [lia|]. rewrite length_app. simpl. specialize (IH (n / 10)). lia.
Qed.

Lemma vsize_to_string n : vsize (to_string n) <= 20.
Proof. unfold vsize, to_string. pose proof (length_to_digits 20 n). lia. Qed.

(** The first separator of a key built from a separator-free name is the one
    that was put there, also when the name ends in the first control
    character. *)
Lemma str_find_separator k rest :
  str_find kSeqKey k = None -> str_find kSeqKey (k ++ kSeqKey ++ rest) = Some (length k).
Proof.
  induction k as [|x k IH]; intros Hk; [done|].
  change ((x :: k) ++ kSeqKey ++ rest) with (x :: (k ++ kSeqKey ++ rest)).
  cbn [str_find] in *. destruct (prefixb kSeqKey (x :: k)) eqn:E; [done|].
  destruct (str_find kSeqKey k) eqn:Ek; [done|]. rewrite IH by done.
  replace (prefixb kSeqKey (x :: k ++ kSeqKey ++ rest)) with false; [done|].
  symmetry. unfold kSeqKey in *. cbn [prefixb] in *. destruct (Z.eqb_spec 1 x) as [<-|]; [|done].
  destruct k as [|y k]; [done|]. cbn [app prefixb] in *. done.
Qed.

Lemma split_build k i :
  str_find kSeqKey k = None -> 0 <= i < 2 ^ 64 ->
  SplitChannelKey (BuildChannelKey k i) = Some (k, i).
Proof.
  intros Hk Hi. unfold SplitChannelKey, BuildChannelKey. rewrite str_find_separator by done.
  rewrite take_app_length. rewrite app_assoc.
  replace (length k + length kSeqKey)%nat with (length (k ++ kSeqKey)) by (by rewrite length_app).
  rewrite drop_app_length. unfold ViewToSizeT. by rewrite simple_atoi_decimal.
Qed.

Lemma split_plain k : str_find kSeqKey k = None -> SplitChannelKey k = Some (k, 0).
Proof. intros Hk. unfold SplitChannelKey. by rewrite Hk. Qed.

(** A reserved key ends in its only separator, a built key does not. *)
Lemma build_not_reserved k i :
  str_find kSeqKey k = None -> BuildChannelKey k i <> kAckKey /\ BuildChannelKey k i <> kFinKey.
Proof.
  intros Hk. unfold BuildChannelKey. pose proof (to_string_nonempty i) as Hn.
  revert Hn. generalize (to_string i) as digits. intros digits Hn.
  pose proof (str_find_separator k digits Hk) as Hf.
  split; intros E; rewrite E in Hf;
    (change (Some 3%nat = Some (length k)) in Hf); injection Hf as Hf;
    apply (f_equal length) in E; rewrite !length_app in E; simpl in E;
    (destruct digits; [done|simpl in E; lia]).
Qed.

Lemma plain_not_reserved k : str_find kSeqKey k = None -> k <> kAckKey /\ k <> kFinKey.
Proof. intros Hk. split; intros ->; vm_compute in Hk; done. Qed.

Lemma build_inj k i k' i' :
  str_find kSeqKey k = None -> str_find kSeqKey k' = None -> 0 <= i < 2 ^ 64 -> 0 <= i' < 2 ^ 64 ->
  BuildChannelKey k i = BuildChannelKey k' i' -> k = k' /\ i = i'.
Proof.
  intros Hk Hk' Hi Hi' E. pose proof (split_build k i Hk Hi) as H1. rewrite E, split_build in H1 by done.
  by injection H1 as -> ->.
Qed.

Lemma NormalMessageKeyEnforce_spec k :
  NormalMessageKeyEnforce k = true <-> k <> [] /\ str_find kSeqKey k = None.
Proof.
  unfold NormalMessageKeyEnforce.
  by rewrite andb_true_iff, negb_true_iff, bool_decide_eq_true, bool_decide_eq_false.
Qed.

(** C37: a key that the enforcement accepts survives the trip: the receiver
    splits the key of any message into the name and the sequence number the
    sender built it from, distinct messages get distinct keys, and no key of a
    normal message is one of the reserved keys. *)
Theorem channel_key_roundtrip k i k' i' :
  NormalMessageKeyEnforce k = true -> NormalMessageKeyEnforce k' = true ->
  0 <= i < 2 ^ 64 -> 0 <= i' < 2 ^ 64 ->
  SplitChannelKey (BuildChannelKey k i) = Some (k, i) /\
  SplitChannelKey k = Some (k, 0) /\
  (BuildChannelKey k i = BuildChannelKey k' i' -> k = k' /\ i = i') /\
  BuildChannelKey k i <> kAckKey /\ BuildChannelKey k i <> kFinKey /\ k <> kAckKey /\ k <> kFinKey.
Proof.
  rewrite !NormalMessageKeyEnforce_spec. intros [_ Hk] [_ Hk'] Hi Hi'.
  split; [by apply split_build|]. split; [by apply split_plain|].
  split; [by apply build_inj|]. destruct (build_not_reserved k i Hk). by destruct (plain_not_reserved k Hk).
Qed.
End Keys.

(** *** A decimal reader *)

(** Digits only, no overflow. *)
Fixpoint read_decimal (acc : Z) (l : bytes) : option Z :=
  match l with
  | [] => Some acc
  | c :: l' =>
      if (48 <=? c) && (c <=? 57)
      then let acc' := acc * 10 + (c - 48) in
           if acc' <? 2 ^ 64 then read_decimal acc' l' else None
      else None
  end.

Definition decimal_atoi (l : bytes) : option Z :=
  match l with
  | [] => None
  | _ => read_decimal 0 l
  end.

Lemma read_decimal_app acc l1 l2 :
  read_decimal acc (l1 ++ l2) = (a ← read_decimal acc l1; read_decimal a l2).
Proof.
  revert acc. induction l1 as [|c l1 IH]; intros acc; simpl; [done|].
  destruct ((48 <=? c) && (c <=? 57)); [|done].
  destruct (acc * 10 + (c - 48) <? 2 ^ 64); [apply IH|done].
Qed.

Lemma read_decimal_digits fuel n :
  0 <= n < 10 ^ Z.of_nat fuel -> n < 2 ^ 64 -> (0 < fuel)%nat -> read_decimal 0 (to_digits fuel n) = Some n.
Proof.
  revert n. induction fuel as [|fuel IH]; intros n Hn Hw Hf; [lia|]. cbn [to_digits].
  destruct (Z.ltb_spec n 10) as [Hlt|Hge].
  - cbn [read_decimal]. replace ((48 <=? 48 + n) && (48 + n <=? 57)) with true by lia.
    replace (0 * 10 + (48 + n - 48)) with n by lia. by replace (n <? 2 ^ 64) with true by lia.
  - assert (Hd : n = 10 * (n / 10) + n mod 10) by (apply Z.div_mod; lia).
    pose proof (Z.mod_pos_bound n 10). rewrite Nat2Z.inj_succ, Z.pow_succ_r in Hn by lia.
    destruct fuel as [|fuel]; [simpl in Hn; lia|].
    rewrite read_decimal_app, IH by lia. cbn [mbind option_bind read_decimal].
    replace ((48 <=? 48 + n mod 10) && (48 + n mod 10 <=? 57)) with true by lia.
    replace (n / 10 * 10 + (48 + n mod 10 - 48)) with n by lia.
    by replace (n <? 2 ^ 64) with true by lia.
Qed.

#[export] Instance decimal_simple_atoi : SimpleAtoi.
Proof.
  refine {| simple_atoi := decimal_atoi |}. intros n Hn. unfold decimal_atoi.
  pose proof (to_string_nonempty n) as Hne. destruct (to_string n) eqn:E; [done|]. rewrite <- E.
  unfold to_string in *. apply read_decimal_digits; [|lia|lia].
  change (10 ^ Z.of_nat 20) with 100000000000000000000. lia.
Defined.

Lemma channel_key_roundtrip_witness :
  SplitChannelKey (BuildChannelKey [97; 1] 42) = Some ([97; 1], 42) /\
  SplitChannelKey [97; 1] = Some ([97; 1], 0) /\
  (BuildChannelKey [97; 1] 42 = BuildChannelKey [98] 7 -> [97; 1] = [98] /\ 42 = 7) /\
  BuildChannelKey [97; 1] 42 <> kAckKey /\ BuildChannelKey [97; 1] 42 <> kFinKey /\
  [97; 1] <> kAckKey /\ [97; 1] <> kFinKey.
Proof. apply (channel_key_roundtrip [97; 1] 42 [98] 7); try lia; vm_compute; reflexivity. Defined.
