(* ===== verification/Chunks.v ===== *)
(** Requests and chunking (src/yacl/link/transport/channel.h and channel.cc,
    interconnection_link.cc).

    [TransportLink] is the interface of the delegate that packs messages into
    requests, with the laws the channel relies on; [InterconnectionLink] is the
    implementation over the protobuf message [PushRequest], whose fields are a
    record. A value longer than the delegate's limit is cut into chunks
    ([SendChunked]); [ChunkedMessage] puts it together again, whatever the order
    of the chunks and however often the transport repeats them. *)

From Stdlib Require Import ZArith Lia ZifyBool Bool.
From stdpp Require Import base numbers list option gmap sets.
From S2P Require Import Prelude ChannelKeys.

Local Open Scope Z_scope.

(** *** The delegate *)

Class TransportLink (Request : Type) := {
  GetMaxBytesPerChunk : Z;
  PackMonoRequest : bytes -> bytes -> Request;
  PackChunkedRequest : bytes -> bytes -> Z -> Z -> Request;
  UnpackMonoRequest : Request -> bytes * bytes;
  UnpackChunckRequest : Request -> bytes * bytes * Z * Z;
  IsMonoRequest : Request -> bool;
  IsChunkedRequest : Request -> bool;

  max_bytes_positive : 0 < GetMaxBytesPerChunk;
  mono_is_mono k v : IsMonoRequest (PackMonoRequest k v) = true;
  mono_unpack k v : UnpackMonoRequest (PackMonoRequest k v) = (k, v);
  chunk_is_chunk k v o t :
    IsMonoRequest (PackChunkedRequest k v o t) = false /\
    IsChunkedRequest (PackChunkedRequest k v o t) = true;
  chunk_unpack k v o t : UnpackChunckRequest (PackChunkedRequest k v o t) = (k, v, o, t)
}.

(** The fields of the protobuf messages that the link uses. *)
Inductive TransType := MONO | CHUNKED | OtherTransType (n : Z).

Record PushRequest := mk_request {
  sender_rank : Z;
  req_key : bytes;
  req_value : bytes;
  trans_type : TransType;
  chunk_offset : Z;
  message_length : Z
}.

Module InterconnectionLink.

Definition PackMonoRequest (self_rank : Z) (key value : bytes) : PushRequest :=
  mk_request self_rank key value MONO 0 0.

Definition PackChunkedRequest (self_rank : Z) (key value : bytes) (offset total_length : Z)
  : PushRequest :=
  mk_request self_rank key value CHUNKED offset total_length.

Definition UnpackMonoRequest (r : PushRequest) : bytes * bytes := (req_key r, req_value r).

Definition UnpackChunckRequest (r : PushRequest) : bytes * bytes * Z * Z :=
  (req_key r, req_value r, chunk_offset r, message_length r).

Definition IsChunkedRequest (r : PushRequest) : bool :=
  match trans_type r with CHUNKED => true | _ => false end.

Definition IsMonoRequest (r : PushRequest) : bool :=
  match trans_type r with MONO => true | _ => false end.
End InterconnectionLink.

(** The link of one party, with a positive payload limit. *)
Definition interconnection_link (self_rank http_max_payload_bytes : Z)
    (H : 0 < http_max_payload_bytes) : TransportLink PushRequest.
Proof.
  refine {| GetMaxBytesPerChunk := http_max_payload_bytes;
            PackMonoRequest := InterconnectionLink.PackMonoRequest self_rank;
            PackChunkedRequest := InterconnectionLink.PackChunkedRequest self_rank;
            UnpackMonoRequest := InterconnectionLink.UnpackMonoRequest;
            UnpackChunckRequest := InterconnectionLink.UnpackChunckRequest;
            IsMonoRequest := InterconnectionLink.IsMonoRequest;
            IsChunkedRequest := InterconnectionLink.IsChunkedRequest |}; auto.
Defined.

(** *** Sending *)

Section Sending.
Context {Request : Type} `{TransportLink Request}.

(** The view [value.data() + chunk_offset] of [min(bytes_per_chunk, rest)]
    bytes. *)
Definition chunk_bytes (value : bytes) (bytes_per_chunk chunk_offset : Z) : bytes :=
  take (Z.to_nat (Z.min bytes_per_chunk (vsize value - chunk_offset)))
    (drop (Z.to_nat chunk_offset) value).

(** The requests of [SendChunked], in the order they are issued. *)
Definition SendChunked (key value : bytes) : list Request :=
  let bytes_per_chunk := GetMaxBytesPerChunk in
  let num_bytes := vsize value in
  let num_chunks := (num_bytes + bytes_per_chunk - 1) / bytes_per_chunk in
  (fun chunk_idx =>
     let chunk_offset := chunk_idx * bytes_per_chunk in
     PackChunkedRequest key (chunk_bytes value bytes_per_chunk chunk_offset) chunk_offset num_bytes)
  <$> seqZ 0 num_chunks.

Definition SendMono (key value : bytes) : list Request := [PackMonoRequest key value].

Definition SendImpl (key value : bytes) : list Request :=
  if GetMaxBytesPerChunk <? vsize value then SendChunked key value else SendMono key value.
End Sending.

(** *** Reassembling *)

(** The buffer starts with indeterminate bytes, [None]. *)
Record ChunkedMessage := mk_chunked {
  received_ : gset Z;
  bytes_written_ : Z;
  message_ : list (option Z)
}.

Definition int64_of (x : Z) : Z := (x + 2 ^ 63) mod 2 ^ 64 - 2 ^ 63.

(** [explicit ChunkedMessage(int64_t message_length)]: the buffer refuses a
    negative size. *)
Definition new_ChunkedMessage (message_length : Z) : option ChunkedMessage :=
  if 0 <=? message_length
  then Some (mk_chunked ∅ 0 (replicate (Z.to_nat message_length) None))
  else None.

(** [memcpy(message_.data() + offset, data)], undefined out of bounds. *)
Definition buffer_write (m : list (option Z)) (offset : Z) (data : bytes) : option (list (option Z)) :=
  assert! (0 <=? offset) && (offset + vsize data <=? vsize m);
  Some (take (Z.to_nat offset) m ++ (Some <$> data) ++ drop (Z.to_nat (offset + vsize data)) m).

Definition AddChunk (c : ChunkedMessage) (offset : Z) (data : bytes) : option ChunkedMessage :=
  if bool_decide (offset ∈ received_ c) then Some c
  else m ← buffer_write (message_ c) offset data;
       Some (mk_chunked ({[offset]} ∪ received_ c) (bytes_written_ c + vsize data) m).

Definition IsFullyFilled (c : ChunkedMessage) : bool := bytes_written_ c =? vsize (message_ c).

(** The buffer as bytes; [None] when one of them was never written. *)
Definition Reassemble (c : ChunkedMessage) : option bytes := mapM id (message_ c).

(** What [OnChunkedMessage] does with a chunk. *)
Inductive chunk_result :=
  | ChunkRejected                       (** the logic error, or the buffer refused its size *)
  | ChunkUndefined                      (** a write out of bounds or an indeterminate byte *)
  | ChunkStored (m : gmap bytes ChunkedMessage)
  | ChunkComplete (m : gmap bytes ChunkedMessage) (value : bytes).

Definition OnChunkedMessage_store (chunked_values : gmap bytes ChunkedMessage)
    (key value : bytes) (offset total_length : Z) : chunk_result :=
  if total_length <? (offset + vsize value) mod 2 ^ 64 then ChunkRejected else
  match (match chunked_values !! key with
         | Some data => Some data
         | None => new_ChunkedMessage (int64_of total_length)
         end) with
  | None => ChunkRejected
  | Some data =>
      match AddChunk data (int64_of offset) value with
      | None => ChunkUndefined
      | Some data =>
          if IsFullyFilled data
          then match Reassemble data with
               | None => ChunkUndefined
               | Some v => ChunkComplete (delete key chunked_values) v
               end
          else ChunkStored (<[key := data]> chunked_values)
      end
  end.

(** *** The reassembly of one value *)

Fixpoint count_some (m : list (option Z)) : Z :=
  match m with
  | [] => 0
  | Some _ :: m' => 1 + count_some m'
  | None :: m' => count_some m'
  end.

Lemma count_some_app m1 m2 : count_some (m1 ++ m2) = count_some m1 + count_some m2.
Proof. induction m1 as [|[x|] m1 IH]; simpl; lia. Qed.

Lemma count_some_full (l : bytes) : count_some (Some <$> l) = vsize l.
Proof.
  unfold vsize. induction l as [|x l IH]; [done|]. rewrite fmap_cons. cbn [count_some length]. lia.
Qed.

Lemma count_some_none m : Forall (fun x => x = None) m -> count_some m = 0.
Proof. induction 1 as [|x m -> _ IH]; simpl; lia. Qed.

Lemma count_some_bound m : 0 <= count_some m <= vsize m.
Proof. unfold vsize. induction m as [|[x|] m IH]; simpl in *; lia. Qed.

Lemma count_some_all m : count_some m = vsize m -> Forall is_Some m.
Proof.
  unfold vsize. induction m as [|[x|] m IH]; simpl; intros E; constructor.
  - done.
  - apply IH. lia.
  - pose proof (count_some_bound m). unfold vsize in *. lia.
  - apply IH. pose proof (count_some_bound m). unfold vsize in *. lia.
Qed.

Section Reassembly.
Context (v : bytes) (c : Z).
Hypothesis chunk_positive : 0 < c.
Hypothesis value_bounds : 0 < vsize v < 2 ^ 63.

Definition chunk_count : Z := (vsize v + c - 1) / c.
Definition chunk (i : Z) : bytes := chunk_bytes v c (i * c).

(** The state of the buffer after the chunks of [S]. *)
Record partial (S : gset Z) (d : ChunkedMessage) : Prop := {
  partial_received o : o ∈ received_ d <-> exists i, i ∈ S /\ o = i * c;
  partial_length : vsize (message_ d) = vsize v;
  partial_bytes p : 0 <= p < vsize v ->
    vget (message_ d) p = Some (if bool_decide (p / c ∈ S) then vget v p else None);
  partial_written : bytes_written_ d = count_some (message_ d)
}.

Lemma chunk_count_pos : 0 < chunk_count.
Proof. unfold chunk_count. apply Z.div_str_pos. lia. Qed.

Lemma chunk_in_range i : 0 <= i < chunk_count -> 0 <= i * c < vsize v.
Proof.
  unfold chunk_count. intros Hi. pose proof (Z.div_mod (vsize v + c - 1) c).
  pose proof (Z.mod_pos_bound (vsize v + c - 1) c). nia.
Qed.

Lemma position_chunk p : 0 <= p < vsize v -> 0 <= p / c < chunk_count.
Proof.
  intros Hp. unfold chunk_count. split; [apply Z.div_pos; lia|].
  pose proof (Z.div_mod (vsize v + c - 1) c). pose proof (Z.mod_pos_bound (vsize v + c - 1) c).
  pose proof (Z.div_mod p c). pose proof (Z.mod_pos_bound p c). nia.
Qed.

Lemma vsize_take {A} (l : list A) n : 0 <= n <= vsize l -> vsize (take (Z.to_nat n) l) = n.
Proof. unfold vsize. rewrite length_take. lia. Qed.

Lemma vsize_drop {A} (l : list A) n : 0 <= n <= vsize l -> vsize (drop (Z.to_nat n) l) = vsize l - n.
Proof. unfold vsize. rewrite length_drop. lia. Qed.

Lemma vsize_chunk i : 0 <= i < chunk_count -> vsize (chunk i) = Z.min c (vsize v - i * c).
Proof.
  intros Hi. pose proof (chunk_in_range i Hi). unfold chunk, chunk_bytes.
  apply vsize_take. rewrite vsize_drop by lia. lia.
Qed.

Lemma vget_chunk i p :
  0 <= i < chunk_count -> 0 <= p < vsize (chunk i) -> vget (chunk i) p = vget v (i * c + p).
Proof.
  intros Hi Hp. pose proof (chunk_in_range i Hi). rewrite vsize_chunk in Hp by done.
  unfold chunk, chunk_bytes, vget. replace (0 <=? p) with true by lia.
  replace (0 <=? i * c + p) with true by lia.
  rewrite lookup_take_lt, lookup_drop by lia. f_equal. lia.
Qed.

Lemma vget_app {A} (l1 l2 : list A) p :
  0 <= p -> vget (l1 ++ l2) p = if p <? vsize l1 then vget l1 p else vget l2 (p - vsize l1).
Proof.
  intros Hp. unfold vget, vsize. replace (0 <=? p) with true by lia.
  destruct (Z.ltb_spec p (Z.of_nat (length l1))).
  - by rewrite lookup_app_l by lia.
  - replace (0 <=? p - Z.of_nat (length l1)) with true by lia.
    rewrite lookup_app_r by lia. f_equal. lia.
Qed.

(** Where position [p] falls after a write. *)
Lemma vget_buffer_write m off data m' p :
  buffer_write m off data = Some m' -> 0 <= p < vsize m ->
  vget m' p = if (off <=? p) && (p <? off + vsize data) then Some (vget data (p - off)) else vget m p.
Proof.
  unfold buffer_write. destruct ((0 <=? off) && (off + vsize data <=? vsize m)) eqn:E; [|done].
  intros Em Hp. injection Em as <-. pose proof (vsize_nonneg data).
  rewrite vget_app, vsize_take by lia.
  destruct (Z.ltb_spec p off); [replace (off <=? p) with false by lia; cbn [andb]|].
  - unfold vget. replace (0 <=? p) with true by lia. by rewrite lookup_take_lt by lia.
  - replace (off <=? p) with true by lia. cbn [andb]. rewrite vget_app, vsize_map by lia.
    destruct (Z.ltb_spec (p - off) (vsize data)).
    + replace (p <? off + vsize data) with true by lia. unfold vget.
      replace (0 <=? p - off) with true by lia. rewrite list_lookup_fmap.
      destruct (lookup_lt_is_Some_2 data (Z.to_nat (p - off))) as [x ->]; [unfold vsize in *; lia|done].
    + replace (p <? off + vsize data) with false by lia. unfold vget.
      replace (0 <=? p - off - vsize data) with true by lia. replace (0 <=? p) with true by lia.
      rewrite lookup_drop. f_equal. lia.
Qed.

Lemma vsize_buffer_write m off data m' :
  buffer_write m off data = Some m' -> vsize m' = vsize m.
Proof.
  unfold buffer_write. destruct ((0 <=? off) && (off + vsize data <=? vsize m)) eqn:E; [|done].
  intros Em. injection Em as <-. pose proof (vsize_nonneg data).
  rewrite !vsize_app, vsize_take, vsize_map, vsize_drop by lia. lia.
Qed.

(** Writing over indeterminate bytes only determines the bytes written. *)
Lemma count_some_write m off data m' :
  buffer_write m off data = Some m' ->
  (forall p, off <= p < off + vsize data -> vget m p = Some None) ->
  count_some m' = count_some m + vsize data.
Proof.
  unfold buffer_write. destruct ((0 <=? off) && (off + vsize data <=? vsize m)) eqn:E; [|done].
  intros Em Hn. injection Em as <-. pose proof (vsize_nonneg data).
  assert (Em : m = take (Z.to_nat off) m
               ++ take (Z.to_nat (vsize data)) (drop (Z.to_nat off) m)
               ++ drop (Z.to_nat (off + vsize data)) m).
  { replace (Z.to_nat (off + vsize data)) with (Z.to_nat off + Z.to_nat (vsize data))%nat by lia.
    rewrite <- drop_drop, take_drop. symmetry. apply take_drop. }
  rewrite Em at 3. rewrite !count_some_app, count_some_full.
  rewrite (count_some_none (take (Z.to_nat (vsize data)) (drop (Z.to_nat off) m))); [lia|].
  apply Forall_lookup. intros p x Hp. apply lookup_take_Some in Hp as [Hp Hlt].
  rewrite lookup_drop in Hp. specialize (Hn (off + Z.of_nat p) ltac:(lia)). unfold vget in Hn.
  replace (0 <=? off + Z.of_nat p) with true in Hn by lia.
  replace (Z.to_nat (off + Z.of_nat p)) with (Z.to_nat off + p)%nat in Hn by lia. congruence.
Qed.

Lemma div_in_chunk i p :
  0 <= i < chunk_count -> 0 <= p < vsize v ->
  (i * c <= p < i * c + vsize (chunk i)) <-> p / c = i.
Proof.
  intros Hi Hp. rewrite vsize_chunk by done.
  pose proof (Z.div_mod p c). pose proof (Z.mod_pos_bound p c). split; [intros Hb|intros <-].
  - symmetry. apply (Z.div_unique p c i (p - i * c)); lia.
  - nia.
Qed.

Lemma AddChunk_partial S d i :
  partial S d -> 0 <= i < chunk_count ->
  exists d', AddChunk d (i * c) (chunk i) = Some d' /\ partial ({[i]} ∪ S) d'.
Proof.
  intros [P1 P2 P3 P4] Hi. unfold AddChunk. pose proof (chunk_in_range i Hi) as Hr.
  pose proof (vsize_chunk i Hi) as Hs. case_bool_decide as Hd.
  - exists d. split; [done|]. assert (i ∈ S).
    { apply P1 in Hd as (j & Hj & Ej). by replace i with j by nia. }
    replace ({[i]} ∪ S) with S; [done|]. symmetry. apply subseteq_union_1_L.
    by apply singleton_subseteq_l.
  - assert (HiS : i ∉ S) by (intros HS; apply Hd, P1; eauto).
    destruct (buffer_write (message_ d) (i * c) (chunk i)) as [m'|] eqn:Em.
    2:{ unfold buffer_write in Em.
        by replace ((0 <=? i * c) && (i * c + vsize (chunk i) <=? vsize (message_ d))) with true in Em by lia. }
    eexists. split; [done|]. split; cbn [received_ bytes_written_ message_].
    + intros o. rewrite elem_of_union, elem_of_singleton, P1. split.
      * intros [-> | (j & Hj & ->)]; [exists i|exists j];
          (split; [apply elem_of_union; rewrite elem_of_singleton; tauto|done]).
      * intros (j & Hj & ->). apply elem_of_union in Hj as [Hj%elem_of_singleton|Hj]; [left; by subst|eauto].
    + by rewrite (vsize_buffer_write _ _ _ _ Em).
    + intros p Hp. rewrite (vget_buffer_write _ _ _ _ p Em) by lia.
      pose proof (div_in_chunk i p Hi Hp) as Hdc.
      destruct ((i * c <=? p) && (p <? i * c + vsize (chunk i))) eqn:Eb.
      * rewrite bool_decide_true by (rewrite (proj1 Hdc ltac:(lia)); apply elem_of_union_l, elem_of_singleton; done).
        rewrite vget_chunk by (done || lia). do 2 f_equal. lia.
      * rewrite P3 by done. destruct (decide (p / c = i)) as [E|E]; [lia|].
        rewrite (bool_decide_ext (p / c ∈ {[i]} ∪ S) (p / c ∈ S)); [done|].
        rewrite elem_of_union, elem_of_singleton. tauto.
    + rewrite (count_some_write _ _ _ _ Em), P4; [done|]. intros p Hp. rewrite P3 by lia.
      rewrite bool_decide_false; [done|]. by rewrite (proj1 (div_in_chunk i p Hi ltac:(lia)) Hp).
Qed.

Lemma partial_new :
  partial ∅ (mk_chunked ∅ 0 (replicate (Z.to_nat (vsize v)) None)).
Proof.
  split; cbn [received_ bytes_written_ message_].
  - intros o. split; [intros Ho; by apply elem_of_empty in Ho|intros (i & Hi & _); by apply elem_of_empty in Hi].
  - rewrite vsize_replicate. lia.
  - intros p Hp. unfold vget. replace (0 <=? p) with true by lia.
    rewrite lookup_replicate_2 by lia. by rewrite bool_decide_false by apply not_elem_of_empty.
  - symmetry. apply count_some_none. by apply Forall_replicate.
Qed.

(** The buffer is full exactly when every chunk was seen, and then it holds the
    value. *)
Lemma partial_full S d :
  partial S d ->
  (IsFullyFilled d = true <-> forall i, 0 <= i < chunk_count -> i ∈ S) /\
  (IsFullyFilled d = true -> Reassemble d = Some v).
Proof.
  intros [P1 P2 P3 P4].
  assert (Hall : IsFullyFilled d = true <-> forall p, 0 <= p < vsize v -> p / c ∈ S).
  { unfold IsFullyFilled. rewrite Z.eqb_eq, P4. split.
    - intros E p Hp. apply count_some_all in E. rewrite Forall_lookup in E.
      specialize (P3 p Hp). unfold vget at 1 in P3. replace (0 <=? p) with true in P3 by lia.
      specialize (E _ _ P3). case_bool_decide; [done|by destruct E].
    - intros Hp. replace (message_ d) with (Some <$> v); [rewrite vsize_map; apply count_some_full|].
      apply list_eq. intros p. destruct (Z.lt_ge_cases (Z.of_nat p) (vsize v)) as [Hlt|Hge].
      + rewrite (vget_nat (message_ d)), P3, bool_decide_true by (try apply Hp; lia).
        rewrite list_lookup_fmap, (vget_nat v).
        destruct (proj2 (vget_Some_iff v (Z.of_nat p))) as [x Ex]; [lia|]. by rewrite Ex.
      + unfold vsize in *. rewrite !lookup_ge_None_2; [done|lia|rewrite length_fmap; lia]. }
  rewrite Hall. split.
  - split.
    + intros Hp i Hi. pose proof (chunk_in_range i Hi).
      replace i with (i * c / c) by (rewrite Z.div_mul; lia). by apply Hp.
    + intros Hi p Hp. by apply Hi, position_chunk.
  - intros Hp. unfold Reassemble. apply mapM_Some_2. apply Forall2_same_length_lookup_2.
    + unfold vsize in P2. lia.
    + intros p x y Hx Hy. assert (Hlt : Z.of_nat p < vsize v) by (unfold vsize; apply lookup_lt_Some in Hy; lia).
      rewrite vget_nat, P3, bool_decide_true, <- vget_nat in Hx by (try apply Hp; lia).
      unfold id. congruence.
Qed.
End Reassembly.

(** *** A receiver fed with the chunks of a value *)

Section Feeding.
Context {Request : Type} `{TransportLink Request}.

Definition OnChunkedRequest (chunked_values : gmap bytes ChunkedMessage) (r : Request) : chunk_result :=
  let '(key, value, offset, total_length) := UnpackChunckRequest r in
  OnChunkedMessage_store chunked_values key value offset total_length.

(** The values completed by a sequence of requests, in order; [None] if one of
    them is rejected or has no defined effect. *)
Fixpoint feed_chunks (m : gmap bytes ChunkedMessage) (reqs : list Request)
  : option (gmap bytes ChunkedMessage * list bytes) :=
  match reqs with
  | [] => Some (m, [])
  | r :: reqs' =>
      match OnChunkedRequest m r with
      | ChunkStored m' => feed_chunks m' reqs'
      | ChunkComplete m' v => '(m'', vs) ← feed_chunks m' reqs'; Some (m'', v :: vs)
      | _ => None
      end
  end.

Context (key v : bytes).
Hypothesis value_long : GetMaxBytesPerChunk < vsize v < 2 ^ 63.

Abbreviation c := GetMaxBytesPerChunk.

Lemma c_pos : 0 < c.
Proof. apply max_bytes_positive. Qed.

Lemma v_bounds : 0 < vsize v < 2 ^ 63.
Proof. pose proof c_pos. lia. Qed.

Definition chunk_request (i : Z) : Request :=
  PackChunkedRequest key (chunk v c i) (i * c) (vsize v).

Lemma SendChunked_requests : SendChunked key v = chunk_request <$> seqZ 0 (chunk_count v c).
Proof. done. Qed.

(** The entry of [key] after the chunks of [S], not all of them. *)
Definition entry_ok (S : gset Z) (e : option ChunkedMessage) : Prop :=
  match e with
  | None => S = ∅
  | Some d => partial v c S d /\ IsFullyFilled d = false
  end.

Lemma int64_of_small x : 0 <= x < 2 ^ 63 -> int64_of x = x.
Proof. intros Hx. unfold int64_of. rewrite Z.mod_small; lia. Qed.

Lemma store_chunk m S i :
  entry_ok S (m !! key) -> 0 <= i < chunk_count v c ->
  (OnChunkedRequest m (chunk_request i) = ChunkComplete (delete key m) v /\
     forall j, 0 <= j < chunk_count v c -> j ∈ {[i]} ∪ S) \/
  exists d, OnChunkedRequest m (chunk_request i) = ChunkStored (<[key := d]> m) /\
    entry_ok ({[i]} ∪ S) (Some d).
Proof.
  intros He Hi. pose proof c_pos as Hc. pose proof v_bounds as Hv.
  pose proof (chunk_in_range v c Hc i Hi) as Hr.
  pose proof (vsize_chunk v c Hc i Hi) as Hs.
  unfold OnChunkedRequest, chunk_request. rewrite chunk_unpack. unfold OnChunkedMessage_store.
  replace (vsize v <? (i * c + vsize (chunk v c i)) mod 2 ^ 64) with false.
  2:{ symmetry. rewrite Z.mod_small by lia. apply Z.ltb_ge. lia. }
  rewrite !int64_of_small by lia.
  assert (Hd : exists d, match m !! key with Some d => Some d | None => new_ChunkedMessage (vsize v) end
                         = Some d /\ partial v c S d).
  { destruct (m !! key) as [d|]; simpl in He; [exists d; by destruct He|]. subst S. unfold new_ChunkedMessage.
    replace (0 <=? vsize v) with true by lia. eexists. split; [done|]. by apply partial_new. }
  destruct Hd as (d & -> & Hd). destruct (AddChunk_partial v c Hc Hv S d i Hd Hi) as (d' & -> & Hd').
  destruct (partial_full v c Hc _ d' Hd') as [Hf1 Hf2].
  destruct (IsFullyFilled d') eqn:Ef.
  - left. rewrite Hf2 by done. split; [done|]. by apply Hf1.
  - right. exists d'. split; [done|]. by split.
Qed.

Lemma feed_chunks_spec idxs m S :
  Forall (fun i => 0 <= i < chunk_count v c) idxs -> entry_ok S (m !! key) ->
  exists m' vs, feed_chunks m (chunk_request <$> idxs) = Some (m', vs) /\
    delete key m' = delete key m /\ Forall (eq v) vs /\
    (vs = [] -> entry_ok (list_to_set idxs ∪ S) (m' !! key)) /\
    (vs <> [] -> forall j, 0 <= j < chunk_count v c -> j ∈ (list_to_set idxs : gset Z) ∪ S).
Proof.
  intros F. revert m S. induction F as [|i idxs Hi F IH]; intros m S He.
  - exists m, []. split; [done|]. split; [done|]. split; [constructor|]. split; [|done].
    intros _. simpl. by rewrite union_empty_l_L.
  - rewrite fmap_cons. cbn [feed_chunks].
    assert (Hu : list_to_set (i :: idxs) ∪ S = list_to_set idxs ∪ ({[i]} ∪ S) :> gset Z).
    { simpl. by rewrite (union_comm_L _ (list_to_set idxs)), <- union_assoc_L. }
    destruct (store_chunk m S i He Hi) as [[-> Hall]|(d & -> & Hd)].
    + destruct (IH (delete key m) ∅) as (m' & vs & -> & D & V & _ & _).
      { by rewrite lookup_delete_eq. }
      exists m', (v :: vs). split; [done|]. split; [by rewrite D, delete_delete_eq|].
      split; [by constructor|]. split; [done|]. intros _ j Hj. rewrite Hu. apply elem_of_union. right.
      by apply Hall.
    + destruct (IH (<[key := d]> m) ({[i]} ∪ S)) as (m' & vs & -> & D & V & E1 & E2).
      { by rewrite lookup_insert_eq. }
      exists m', vs. split; [done|]. split; [by rewrite D, delete_insert_eq|].
      split; [done|]. rewrite Hu. by split.
Qed.

(** C5: the receiver that gets the chunks of a value in any order, each any
    number of times, completes the value as soon as it has seen all of them and
    not before; what it completes is the value, and the entries of the other
    keys are untouched. No chunk is rejected, no byte is written out of bounds
    and no indeterminate byte is read. *)
Theorem chunks_reassemble idxs m :
  Forall (fun i => 0 <= i < chunk_count v c) idxs -> m !! key = None ->
  exists m' vs, feed_chunks m (chunk_request <$> idxs) = Some (m', vs) /\
    delete key m' = delete key m /\ Forall (eq v) vs /\
    (vs = [] <-> exists j, 0 <= j < chunk_count v c /\ j ∉ idxs).
Proof.
  intros F Hm. destruct (feed_chunks_spec idxs m ∅ F) as (m' & vs & E & D & V & E1 & E2); [by rewrite Hm|].
  exists m', vs. split; [done|]. split; [done|]. split; [done|]. rewrite union_empty_r_L in E1, E2. split.
  - intros Hvs. specialize (E1 Hvs). pose proof c_pos. pose proof v_bounds.
    destruct (decide (Forall (fun j => j ∈ idxs) (seqZ 0 (chunk_count v c)))) as [Hall|Hex].
    + exfalso. rewrite Forall_forall in Hall.
      assert (Hall' : forall j, 0 <= j < chunk_count v c -> j ∈ (list_to_set idxs : gset Z)).
      { intros j Hj. apply elem_of_list_to_set, Hall, elem_of_seqZ. lia. }
      unfold entry_ok in E1. destruct (m' !! key) as [d|].
      * destruct E1 as [Hp Hf]. by rewrite (proj2 (proj1 (partial_full v c c_pos _ d Hp)) Hall') in Hf.
      * pose proof (chunk_count_pos v c c_pos v_bounds). specialize (Hall' 0 ltac:(lia)).
        rewrite E1 in Hall'. by apply elem_of_empty in Hall'.
    + apply not_Forall_Exists in Hex; [|intros ?; apply _].
      apply Exists_exists in Hex as (j & Hj & Hn). exists j. split; [|done].
      apply elem_of_seqZ in Hj. lia.
  - intros (j & Hj & Hn). destruct vs as [|x vs]; [done|].
    specialize (E2 ltac:(done) j Hj). by apply elem_of_list_to_set in E2.
Qed.
End Feeding.

Lemma chunks_reassemble_witness :
  let link := interconnection_link 0 2 ltac:(lia) in
  exists m' vs, feed_chunks ∅ (chunk_request [107] [10; 20; 30; 40; 50] <$> [2; 0; 2; 1]) = Some (m', vs) /\
    delete [107] m' = delete [107] ∅ /\ Forall (eq [10; 20; 30; 40; 50]) vs /\
    (vs = [] <-> exists j, 0 <= j < chunk_count [10; 20; 30; 40; 50] 2 /\ j ∉ [2; 0; 2; 1]).
Proof.
  apply (chunks_reassemble (H := interconnection_link 0 2 ltac:(lia)) [107] [10; 20; 30; 40; 50]).
  - vm_compute. done.
  - repeat constructor; vm_compute; done.
  - done.
Defined.

(** *** What the checks of [OnChunkedMessage] do not cover *)

(** The bounds check compares a chunk with the total length of its own request,
    the buffer has the total length of the first one: a later request that
    announces a greater length writes past the end of the buffer. *)
Theorem chunk_length_mismatch_undefined m key d value offset total_length :
  m !! key = Some d -> offset ∉ received_ d -> 0 <= offset ->
  vsize (message_ d) < offset + vsize value <= total_length -> total_length < 2 ^ 63 ->
  OnChunkedMessage_store m key value offset total_length = ChunkUndefined.
Proof.
  intros Hm Ho Hp Hb Ht. unfold OnChunkedMessage_store. pose proof (vsize_nonneg value).
  rewrite Z.mod_small by lia. replace (total_length <? offset + vsize value) with false by lia.
  rewrite Hm, int64_of_small by lia. unfold AddChunk. rewrite bool_decide_false by done.
  unfold buffer_write.
  by replace ((0 <=? offset) && (offset + vsize value <=? vsize (message_ d))) with false by lia.
Qed.

(** A chunk repeated after its value was completed opens a new entry, which
    stays: the other chunks are not sent again. *)
Theorem late_chunk_leaves_entry {Request} `{TransportLink Request} key v i m :
  GetMaxBytesPerChunk < vsize v < 2 ^ 63 -> m !! key = None ->
  0 <= i < chunk_count v GetMaxBytesPerChunk ->
  exists d, OnChunkedRequest m (chunk_request key v i) = ChunkStored (<[key := d]> m).
Proof.
  intros Hv Hm Hi. destruct (store_chunk key v Hv m ∅ i) as [[_ Hall]|(d & E & _)]; [by rewrite Hm|done| |eauto].
  exfalso. pose proof (max_bytes_positive (Request := Request)) as Hc.
  assert (H2 : 1 < chunk_count v GetMaxBytesPerChunk).
  { unfold chunk_count. apply (Z.lt_le_trans _ 2); [lia|]. apply Z.div_le_lower_bound; lia. }
  assert (forall j, 0 <= j < chunk_count v GetMaxBytesPerChunk -> j = i) as Hj.
  { intros j Hj. specialize (Hall j Hj). rewrite union_empty_r_L in Hall. by apply elem_of_singleton in Hall. }
  pose proof (Hj 0 ltac:(lia)). pose proof (Hj 1 ltac:(lia)). lia.
Qed.
