(* ===== verification/Channel.v ===== *)
(** The channel of one party (class [Channel] of src/yacl/link/transport/channel.h
    and channel.cc): its state, its handlers and its waiting operations.

    A handler runs in a state and exception monad: an exception keeps the
    changes made before it. Each body that the source runs under [msg_mutex_] (or
    one of the other mutexes) is one atomic computation. An operation that would
    block on a condition variable answers [Wait]; it is run again when the state
    has changed. Alive [SendTask] objects are the list [tasks_]; what a task does
    on the network is in [ChannelSystem]. Outside code is a parameter: whether
    [bthread_start_background] starts a task ([start_ok]), the delegate
    ([TransportLink]) and [absl::SimpleAtoi]. Logging is left out. *)

From Stdlib Require Import ZArith Lia ZifyBool Bool.
From stdpp Require Import base numbers list option gmap sets.
From S2P Require Import Prelude SegmentTree ChannelKeys Chunks.

Local Open Scope Z_scope.

Record Message := mk_message { seq_id_ : Z; msg_key_ : bytes; value_ : bytes }.

#[export] Instance message_eq_dec : EqDecision Message.
Proof. solve_decision. Defined.

(** The exceptions of src/yacl/base/exception.h that the channel throws. *)
Inductive exn := LinkAborted | EnforceNotMet | IoError | LogicError | RuntimeError.

(** How a computation ends: [Undef] is a read or write without a defined
    meaning. *)
Inductive outcome (A : Type) := Ret (a : A) | Throw (e : exn) | Wait | Undef.
Arguments Ret {A} a.
Arguments Throw {A} e.
Arguments Wait {A}.
Arguments Undef {A}.

Section Channel.
Context {T : Type} `{IdSet T} `{SimpleAtoi} {Request : Type} `{TransportLink Request}.

Record Channel := mk_channel {
  recv_msgs_ : gmap bytes (bytes * Z);
  received_msg_ids_ : T;
  received_ack_ids_ : T;
  received_fin_ : bool;
  peer_sent_msg_count_ : Z;
  waiting_finish_ : bool;
  aborting_ : bool;
  chunked_values_ : gmap bytes ChunkedMessage;
  msg_seq_id_ : Z;
  send_msgs_ : list Message;
  queue_stopped_ : bool;
  send_thread_stopped_ : bool;
  running_tasks_ : Z;
  finished_ids_ : T;
  task_aborting_ : bool;
  tasks_ : list Message;
  throttle_window_size_ : Z;
  disable_msg_seq_id_ : bool
}.

Definition set_recv_msgs_ (v : gmap bytes (bytes * Z)) (c : Channel) : Channel :=
  mk_channel v (received_msg_ids_ c) (received_ack_ids_ c) (received_fin_ c)
    (peer_sent_msg_count_ c) (waiting_finish_ c) (aborting_ c) (chunked_values_ c)
    (msg_seq_id_ c) (send_msgs_ c) (queue_stopped_ c) (send_thread_stopped_ c)
    (running_tasks_ c) (finished_ids_ c) (task_aborting_ c) (tasks_ c) (throttle_window_size_ c)
    (disable_msg_seq_id_ c).
Definition set_received_msg_ids_ (v : T) (c : Channel) : Channel :=
  mk_channel (recv_msgs_ c) v (received_ack_ids_ c) (received_fin_ c) (peer_sent_msg_count_ c)
    (waiting_finish_ c) (aborting_ c) (chunked_values_ c) (msg_seq_id_ c) (send_msgs_ c)
    (queue_stopped_ c) (send_thread_stopped_ c) (running_tasks_ c) (finished_ids_ c)
    (task_aborting_ c) (tasks_ c) (throttle_window_size_ c) (disable_msg_seq_id_ c).
Definition set_received_ack_ids_ (v : T) (c : Channel) : Channel :=
  mk_channel (recv_msgs_ c) (received_msg_ids_ c) v (received_fin_ c) (peer_sent_msg_count_ c)
    (waiting_finish_ c) (aborting_ c) (chunked_values_ c) (msg_seq_id_ c) (send_msgs_ c)
    (queue_stopped_ c) (send_thread_stopped_ c) (running_tasks_ c) (finished_ids_ c)
    (task_aborting_ c) (tasks_ c) (throttle_window_size_ c) (disable_msg_seq_id_ c).
Definition set_received_fin_ (v : bool) (c : Channel) : Channel :=
  mk_channel (recv_msgs_ c) (received_msg_ids_ c) (received_ack_ids_ c) v
    (peer_sent_msg_count_ c) (waiting_finish_ c) (aborting_ c) (chunked_values_ c)
    (msg_seq_id_ c) (send_msgs_ c) (queue_stopped_ c) (send_thread_stopped_ c)
    (running_tasks_ c) (finished_ids_ c) (task_aborting_ c) (tasks_ c) (throttle_window_size_ c)
    (disable_msg_seq_id_ c).
Definition set_peer_sent_msg_count_ (v : Z) (c : Channel) : Channel :=
  mk_channel (recv_msgs_ c) (received_msg_ids_ c) (received_ack_ids_ c) (received_fin_ c) v
    (waiting_finish_ c) (aborting_ c) (chunked_values_ c) (msg_seq_id_ c) (send_msgs_ c)
    (queue_stopped_ c) (send_thread_stopped_ c) (running_tasks_ c) (finished_ids_ c)
    (task_aborting_ c) (tasks_ c) (throttle_window_size_ c) (disable_msg_seq_id_ c).
Definition set_waiting_finish_ (v : bool) (c : Channel) : Channel :=
  mk_channel (recv_msgs_ c) (received_msg_ids_ c) (received_ack_ids_ c) (received_fin_ c)
    (peer_sent_msg_count_ c) v (aborting_ c) (chunked_values_ c) (msg_seq_id_ c) (send_msgs_ c)
    (queue_stopped_ c) (send_thread_stopped_ c) (running_tasks_ c) (finished_ids_ c)
    (task_aborting_ c) (tasks_ c) (throttle_window_size_ c) (disable_msg_seq_id_ c).
Definition set_aborting_ (v : bool) (c : Channel) : Channel :=
  mk_channel (recv_msgs_ c) (received_msg_ids_ c) (received_ack_ids_ c) (received_fin_ c)
    (peer_sent_msg_count_ c) (waiting_finish_ c) v (chunked_values_ c) (msg_seq_id_ c)
    (send_msgs_ c) (queue_stopped_ c) (send_thread_stopped_ c) (running_tasks_ c)
    (finished_ids_ c) (task_aborting_ c) (tasks_ c) (throttle_window_size_ c)
    (disable_msg_seq_id_ c).
Definition set_chunked_values_ (v : gmap bytes ChunkedMessage) (c : Channel) : Channel :=
  mk_channel (recv_msgs_ c) (received_msg_ids_ c) (received_ack_ids_ c) (received_fin_ c)
    (peer_sent_msg_count_ c) (waiting_finish_ c) (aborting_ c) v (msg_seq_id_ c) (send_msgs_ c)
    (queue_stopped_ c) (send_thread_stopped_ c) (running_tasks_ c) (finished_ids_ c)
    (task_aborting_ c) (tasks_ c) (throttle_window_size_ c) (disable_msg_seq_id_ c).
Definition set_msg_seq_id_ (v : Z) (c : Channel) : Channel :=
  mk_channel (recv_msgs_ c) (received_msg_ids_ c) (received_ack_ids_ c) (received_fin_ c)
    (peer_sent_msg_count_ c) (waiting_finish_ c) (aborting_ c) (chunked_values_ c) v
    (send_msgs_ c) (queue_stopped_ c) (send_thread_stopped_ c) (running_tasks_ c)
    (finished_ids_ c) (task_aborting_ c) (tasks_ c) (throttle_window_size_ c)
    (disable_msg_seq_id_ c).
Definition set_send_msgs_ (v : list Message) (c : Channel) : Channel :=
  mk_channel (recv_msgs_ c) (received_msg_ids_ c) (received_ack_ids_ c) (received_fin_ c)
    (peer_sent_msg_count_ c) (waiting_finish_ c) (aborting_ c) (chunked_values_ c)
    (msg_seq_id_ c) v (queue_stopped_ c) (send_thread_stopped_ c) (running_tasks_ c)
    (finished_ids_ c) (task_aborting_ c) (tasks_ c) (throttle_window_size_ c)
    (disable_msg_seq_id_ c).
Definition set_queue_stopped_ (v : bool) (c : Channel) : Channel :=
  mk_channel (recv_msgs_ c) (received_msg_ids_ c) (received_ack_ids_ c) (received_fin_ c)
    (peer_sent_msg_count_ c) (waiting_finish_ c) (aborting_ c) (chunked_values_ c)
    (msg_seq_id_ c) (send_msgs_ c) v (send_thread_stopped_ c) (running_tasks_ c)
    (finished_ids_ c) (task_aborting_ c) (tasks_ c) (throttle_window_size_ c)
    (disable_msg_seq_id_ c).
Definition set_send_thread_stopped_ (v : bool) (c : Channel) : Channel :=
  mk_channel (recv_msgs_ c) (received_msg_ids_ c) (received_ack_ids_ c) (received_fin_ c)
    (peer_sent_msg_count_ c) (waiting_finish_ c) (aborting_ c) (chunked_values_ c)
    (msg_seq_id_ c) (send_msgs_ c) (queue_stopped_ c) v (running_tasks_ c) (finished_ids_ c)
    (task_aborting_ c) (tasks_ c) (throttle_window_size_ c) (disable_msg_seq_id_ c).
Definition set_running_tasks_ (v : Z) (c : Channel) : Channel :=
  mk_channel (recv_msgs_ c) (received_msg_ids_ c) (received_ack_ids_ c) (received_fin_ c)
    (peer_sent_msg_count_ c) (waiting_finish_ c) (aborting_ c) (chunked_values_ c)
    (msg_seq_id_ c) (send_msgs_ c) (queue_stopped_ c) (send_thread_stopped_ c) v
    (finished_ids_ c) (task_aborting_ c) (tasks_ c) (throttle_window_size_ c)
    (disable_msg_seq_id_ c).
Definition set_finished_ids_ (v : T) (c : Channel) : Channel :=
  mk_channel (recv_msgs_ c) (received_msg_ids_ c) (received_ack_ids_ c) (received_fin_ c)
    (peer_sent_msg_count_ c) (waiting_finish_ c) (aborting_ c) (chunked_values_ c)
    (msg_seq_id_ c) (send_msgs_ c) (queue_stopped_ c) (send_thread_stopped_ c)
    (running_tasks_ c) v (task_aborting_ c) (tasks_ c) (throttle_window_size_ c)
    (disable_msg_seq_id_ c).
Definition set_task_aborting_ (v : bool) (c : Channel) : Channel :=
  mk_channel (recv_msgs_ c) (received_msg_ids_ c) (received_ack_ids_ c) (received_fin_ c)
    (peer_sent_msg_count_ c) (waiting_finish_ c) (aborting_ c) (chunked_values_ c)
    (msg_seq_id_ c) (send_msgs_ c) (queue_stopped_ c) (send_thread_stopped_ c)
    (running_tasks_ c) (finished_ids_ c) v (tasks_ c) (throttle_window_size_ c)
    (disable_msg_seq_id_ c).
Definition set_tasks_ (v : list Message) (c : Channel) : Channel :=
  mk_channel (recv_msgs_ c) (received_msg_ids_ c) (received_ack_ids_ c) (received_fin_ c)
    (peer_sent_msg_count_ c) (waiting_finish_ c) (aborting_ c) (chunked_values_ c)
    (msg_seq_id_ c) (send_msgs_ c) (queue_stopped_ c) (send_thread_stopped_ c)
    (running_tasks_ c) (finished_ids_ c) (task_aborting_ c) v (throttle_window_size_ c)
    (disable_msg_seq_id_ c).
Definition set_throttle_window_size_ (v : Z) (c : Channel) : Channel :=
  mk_channel (recv_msgs_ c) (received_msg_ids_ c) (received_ack_ids_ c) (received_fin_ c)
    (peer_sent_msg_count_ c) (waiting_finish_ c) (aborting_ c) (chunked_values_ c)
    (msg_seq_id_ c) (send_msgs_ c) (queue_stopped_ c) (send_thread_stopped_ c)
    (running_tasks_ c) (finished_ids_ c) (task_aborting_ c) (tasks_ c) v (disable_msg_seq_id_ c).
Definition set_disable_msg_seq_id_ (v : bool) (c : Channel) : Channel :=
  mk_channel (recv_msgs_ c) (received_msg_ids_ c) (received_ack_ids_ c) (received_fin_ c)
    (peer_sent_msg_count_ c) (waiting_finish_ c) (aborting_ c) (chunked_values_ c)
    (msg_seq_id_ c) (send_msgs_ c) (queue_stopped_ c) (send_thread_stopped_ c)
    (running_tasks_ c) (finished_ids_ c) (task_aborting_ c) (tasks_ c) (throttle_window_size_ c)
    v.

(** *** The monad *)

Definition M (A : Type) : Type := Channel -> Channel * outcome A.

#[export] Instance M_ret : MRet M := fun A a c => (c, Ret a).
#[export] Instance M_bind : MBind M := fun A B f m c =>
  match m c with
  | (c', Ret a) => f a c'
  | (c', Throw e) => (c', Throw e)
  | (c', Wait) => (c', Wait)
  | (c', Undef) => (c', Undef)
  end.

Definition get : M Channel := fun c => (c, Ret c).
Definition modify (f : Channel -> Channel) : M unit := fun c => (f c, Ret ()).
Definition throw {A} (e : exn) : M A := fun c => (c, Throw e).
Definition wait {A} : M A := fun c => (c, Wait).
Definition enforce (b : bool) : M unit := if b then mret () else throw EnforceNotMet.

(** A value the source obtains with [YACL_ENFORCE]. *)
Definition enforced {A} (o : option A) : M A :=
  match o with
  | Some a => mret a
  | None => throw EnforceNotMet
  end.

Definition insert_id (field : Channel -> T) (set_field : T -> Channel -> Channel) (x : Z) : M bool :=
  c ← get;
  match ids_insert (field c) x with
  | Some (t, fresh) => modify (set_field t);; mret fresh
  | None => fun c => (c, Undef)
  end.

(** *** [SendTaskSynchronizer] and [MessageQueue] *)

Definition SendTaskStartNotify : M unit :=
  modify (fun c => set_running_tasks_ (running_tasks_ c + 1) c).

Definition SendTaskFinishedNotify (seq_id : Z) : M unit :=
  modify (fun c => set_running_tasks_ (running_tasks_ c - 1) c);;
  if negb (seq_id =? 0) then insert_id finished_ids_ set_finished_ids_ seq_id;; mret ()
  else mret ().

Definition WaitSeqIdSendFinished (seq_id : Z) : M unit :=
  c ← get;
  if negb (ids_contains (finished_ids_ c) seq_id)
  then if task_aborting_ c then throw LinkAborted else wait
  else mret ().

Definition WaitAllSendFinished : M unit :=
  c ← get; if 0 <? running_tasks_ c then wait else mret ().

Definition Push (msg : Message) : M unit :=
  modify (fun c => set_send_msgs_ (send_msgs_ c ++ [msg]) c).

Definition Pop (block : bool) : M (option Message) :=
  c ← get;
  match send_msgs_ c with
  | [] => if block && negb (queue_stopped_ c) then wait else mret None
  | msg :: rest => modify (set_send_msgs_ rest);; mret (Some msg)
  end.

Definition EmptyNotify : M unit := modify (set_queue_stopped_ true).

(** *** Send tasks *)

(** The oracle for [bthread_start_background]. *)
Context (start_ok : Message -> bool).

(** A [SendTask] that is not started is destroyed at once. *)
Definition SubmitSendTask (msg : Message) : M unit :=
  SendTaskStartNotify;;
  if start_ok msg
  then modify (fun c => set_tasks_ (tasks_ c ++ [msg]) c)
  else SendTaskFinishedNotify (seq_id_ msg);; throw RuntimeError.

(** The destructor of the [i]-th alive task. *)
Definition FinishTask (i : nat) : M unit :=
  c ← get;
  match tasks_ c !! i with
  | Some msg => modify (set_tasks_ (delete i (tasks_ c)));; SendTaskFinishedNotify (seq_id_ msg)
  | None => wait
  end.

Definition SendAck (seq_id : Z) : M unit :=
  if 0 <? seq_id then SubmitSendTask (mk_message 0 kAckKey (to_string seq_id)) else mret ().

(** *** Receiving *)

Definition OnNormalMessage (key v : bytes) : M unit :=
  '(msg_key, seq_id) ← enforced (SplitChannelKey key);
  fresh ← (if 0 <? seq_id then insert_id received_msg_ids_ set_received_msg_ids_ seq_id
           else mret true);
  if negb fresh then mret () else
  c ← get;
  if negb (waiting_finish_ c) then
    match recv_msgs_ c !! msg_key with
    | Some _ => if 0 <? seq_id then throw RuntimeError else mret ()
    | None => modify (set_recv_msgs_ (<[msg_key := (v, seq_id)]> (recv_msgs_ c)))
    end
  else SendAck seq_id.

Definition OnMessage (key value : bytes) : M unit :=
  if bool_decide (key = kAckKey) then
    seq_id ← enforced (ViewToSizeT value);
    insert_id received_ack_ids_ set_received_ack_ids_ seq_id;; mret ()
  else if bool_decide (key = kFinKey) then
    c ← get;
    if negb (received_fin_ c) then
      modify (set_received_fin_ true);;
      n ← enforced (ViewToSizeT value);
      modify (set_peer_sent_msg_count_ n)
    else mret ()
  else OnNormalMessage key value.

Definition OnChunkedMessage (key value : bytes) (offset total_length : Z) : M unit :=
  c ← get;
  match OnChunkedMessage_store (chunked_values_ c) key value offset total_length with
  | ChunkRejected => throw LogicError
  | ChunkUndefined => fun c => (c, Undef)
  | ChunkStored m => modify (set_chunked_values_ m)
  | ChunkComplete m v => modify (set_chunked_values_ m);; OnMessage key v
  end.

(** The result tells whether the response is [FillResponseOk]. *)
Definition OnRequest (request : Request) : M bool :=
  c ← get;
  if aborting_ c then throw LinkAborted else
  if IsMonoRequest request then
    let '(key, value) := UnpackMonoRequest request in
    OnMessage key value;; mret true
  else if IsChunkedRequest request then
    let '(key, value, offset, total_length) := UnpackChunckRequest request in
    OnChunkedMessage key value offset total_length;; mret true
  else mret false.

(** [Recv]; a wait that times out throws [IoError] and changes nothing. *)
Definition Recv (msg_key : bytes) : M bytes :=
  c ← get;
  if aborting_ c then throw LinkAborted else
  enforce (NormalMessageKeyEnforce msg_key);;
  match recv_msgs_ c !! msg_key with
  | Some (value, seq_id) =>
      modify (set_recv_msgs_ (delete msg_key (recv_msgs_ c)));;
      SendAck seq_id;; mret value
  | None => wait
  end.

(** *** Sending *)

(** [msg_seq_id_.fetch_add(1) + 1]. *)
Definition next_seq_id : M Z :=
  c ← get;
  let n := (msg_seq_id_ c + 1) mod 2 ^ 64 in
  modify (set_msg_seq_id_ n);; mret n.

Definition SendAsync (msg_key value : bytes) : M unit :=
  c ← get;
  if aborting_ c then throw LinkAborted else
  enforce (negb (waiting_finish_ c));;
  enforce (NormalMessageKeyEnforce msg_key);;
  if disable_msg_seq_id_ c then Push (mk_message 0 msg_key value)
  else
    seq_id ← next_seq_id;
    Push (mk_message seq_id (BuildChannelKey msg_key seq_id) value).

(** The common part of [Send] and [SendAsyncThrottled]. *)
Definition send_numbered (msg_key value : bytes) : M Z :=
  c ← get;
  enforce (negb (waiting_finish_ c));;
  enforce (NormalMessageKeyEnforce msg_key);;
  seq_id ← next_seq_id;
  Push (mk_message seq_id (BuildChannelKey msg_key seq_id) value);;
  mret seq_id.

Definition Send (msg_key value : bytes) : M unit :=
  c ← get;
  if aborting_ c then throw LinkAborted else
  if disable_msg_seq_id_ c then throw RuntimeError else
  seq_id ← send_numbered msg_key value;
  WaitSeqIdSendFinished seq_id.

Definition ThrottleWindowWait (wait_count : Z) : M unit :=
  c ← get;
  let w := throttle_window_size_ c in
  if w =? 0 then mret () else
  if negb (w =? 0) && ((ids_count (received_ack_ids_ c) + w) mod 2 ^ 64 <=? wait_count)
  then if aborting_ c then throw LinkAborted else wait
  else mret ().

Definition SendAsyncThrottled (msg_key value : bytes) : M unit :=
  c ← get;
  if aborting_ c then throw LinkAborted else
  if disable_msg_seq_id_ c then SendAsync msg_key value else
  seq_id ← send_numbered msg_key value;
  ThrottleWindowWait seq_id.

(** One turn of the loops of [SendThread]: the throttled one until the thread is
    told to stop, the draining one after that unless the channel aborts. *)
Definition SendThread_turn : M unit :=
  c ← get;
  if negb (send_thread_stopped_ c) then
    msg ← Pop true;
    match msg with
    | Some msg => SubmitSendTask msg;; ThrottleWindowWait (seq_id_ msg)
    | None => mret ()
    end
  else if aborting_ c then mret ()
  else
    msg ← Pop false;
    match msg with
    | Some msg => SubmitSendTask msg
    | None => mret ()
    end.

(** "connect_<rank>", the key of the connection test. *)
Definition connect_key (rank : Z) : bytes :=
  [99; 111; 110; 110; 101; 99; 116; 95] ++ to_string rank.

(** [TestSend]: the requests it sends directly. *)
Definition TestSend (local_rank : Z) : M (list Request) :=
  c ← get;
  if aborting_ c then throw LinkAborted else
  enforce (negb (waiting_finish_ c));;
  mret (SendImpl (BuildChannelKey (connect_key local_rank) 0) []).

Definition TestRecv (remote_rank : Z) : M unit := Recv (connect_key remote_rank);; mret ().

(** *** Closing *)

Fixpoint ack_all (entries : list (bytes * (bytes * Z))) : M unit :=
  match entries with
  | [] => mret ()
  | (_, (_, seq_id)) :: rest => SendAck seq_id;; ack_all rest
  end.

Definition StopReceivingAndAckUnreadMsgs : M unit :=
  modify (set_waiting_finish_ true);;
  c ← get;
  ack_all (map_to_list (recv_msgs_ c));;
  modify (set_recv_msgs_ ∅).

(** "one segment that contains 1 and [n]". *)
Definition received_up_to (ids : T) (n : Z) : bool :=
  negb ((1 <? ids_runs ids) || negb (ids_contains ids 1) || negb (ids_contains ids n)).

Definition SubmitFin : M unit :=
  c ← get; SubmitSendTask (mk_message 0 kFinKey (to_string (msg_seq_id_ c))).

Definition WaitFin : M unit := c ← get; if negb (received_fin_ c) then wait else mret ().

Definition WaitFlyingMsg : M unit :=
  c ← get;
  if peer_sent_msg_count_ c =? 0 then mret () else
  if received_up_to (received_msg_ids_ c) (peer_sent_msg_count_ c) then mret () else wait.

Definition WaitForFinAndFlyingMsg : M unit := SubmitFin;; WaitFin;; WaitFlyingMsg.

Definition WaitForFlyingAck : M unit :=
  c ← get;
  let sent_msg_count := msg_seq_id_ c in
  if sent_msg_count =? 0 then mret () else
  if received_up_to (received_ack_ids_ c) sent_msg_count then mret () else wait.

(** The join of the send thread is the moment its queue is empty. *)
Definition join_send_thread : M unit :=
  c ← get;
  if aborting_ c then mret ()
  else match send_msgs_ c with [] => mret () | _ => wait end.

Definition WaitAsyncSendToFinish : M unit :=
  modify (set_send_thread_stopped_ true);; EmptyNotify;; join_send_thread;; WaitAllSendFinished.

Definition WaitLinkTaskFinish : M unit :=
  c ← get;
  if aborting_ c then mret () else
  StopReceivingAndAckUnreadMsgs;; WaitForFinAndFlyingMsg;; WaitAsyncSendToFinish;; WaitForFlyingAck.

Definition Abort : M unit :=
  modify (set_aborting_ true);;
  modify (set_task_aborting_ true);;
  modify (set_send_thread_stopped_ true);;
  EmptyNotify;; join_send_thread.

(** A new channel. *)
Definition new_channel (window : Z) (disable : bool) : Channel :=
  mk_channel ∅ ids_empty ids_empty false 0 false false ∅ 0 [] false false 0 ids_empty false []
    window disable.
End Channel.
