(* ===== verification/ChannelFacts.v ===== *)
(** What each operation of the channel can change: the effect lemmas that the
    invariant of the two-party system is proved with. *)

From Stdlib Require Import ZArith Lia ZifyBool Bool.
From stdpp Require Import base numbers list option gmap sets.
From S2P Require Import Prelude SegmentTree ChannelKeys Chunks Channel.

Local Open Scope Z_scope.

(** Run the monadic steps whose first computation is known. *)
Ltac mrun :=
  cbv [mbind M_bind mret M_ret get modify throw wait enforce enforced];
  cbn -[SendTaskFinishedNotify SubmitSendTask SendAck OnNormalMessage OnMessage
        WaitSeqIdSendFinished ThrottleWindowWait Z.pow Z.modulo ids_insert].

Section Effects.
Context {T : Type} `{IdSet T} `{SimpleAtoi} {Request : Type} `{TransportLink Request}.
Context (start_ok : Message -> bool).

Local Abbreviation Channel := (Channel (T := T)).

(** The fields that the bookkeeping of send tasks leaves alone. *)
Record frame (c c' : Channel) : Prop := {
  frame_recv : recv_msgs_ c' = recv_msgs_ c;
  frame_ids : received_msg_ids_ c' = received_msg_ids_ c;
  frame_acks : received_ack_ids_ c' = received_ack_ids_ c;
  frame_fin : received_fin_ c' = received_fin_ c;
  frame_count : peer_sent_msg_count_ c' = peer_sent_msg_count_ c;
  frame_waiting : waiting_finish_ c' = waiting_finish_ c;
  frame_aborting : aborting_ c' = aborting_ c;
  frame_chunks : chunked_values_ c' = chunked_values_ c;
  frame_seq : msg_seq_id_ c' = msg_seq_id_ c;
  frame_window : throttle_window_size_ c' = throttle_window_size_ c;
  frame_disable : disable_msg_seq_id_ c' = disable_msg_seq_id_ c
}.

Lemma frame_refl c : frame c c.
Proof. by split. Qed.

Lemma frame_trans c1 c2 c3 : frame c1 c2 -> frame c2 c3 -> frame c1 c3.
Proof. intros [] []. split; congruence. Qed.

#[local] Hint Resolve frame_refl : core.

Lemma finished_effect i c c' o :
  SendTaskFinishedNotify i c = (c', o) ->
  frame c c' /\ send_msgs_ c' = send_msgs_ c /\ tasks_ c' = tasks_ c.
Proof.
  unfold SendTaskFinishedNotify, insert_id. mrun. destruct (negb (i =? 0)); mrun.
  - destruct (ids_insert (finished_ids_ c) i) as [[t fresh]|]; intros E; injection E as <- <-;
      by repeat split.
  - intros E. injection E as <- <-. by repeat split.
Qed.

(** A submitted task joins the alive ones, or the call throws. *)
Lemma submit_effect m c c' o :
  SubmitSendTask start_ok m c = (c', o) ->
  frame c c' /\ send_msgs_ c' = send_msgs_ c /\
  ((tasks_ c' = tasks_ c ++ [m] /\ o = Ret ()) \/ (tasks_ c' = tasks_ c /\ o <> Ret ())).
Proof.
  unfold SubmitSendTask. mrun. destruct (start_ok m).
  - intros E. injection E as <- <-. split; [by split|]. split; [done|]. by left.
  - destruct (SendTaskFinishedNotify _ _) as [c1 o1] eqn:E1.
    apply finished_effect in E1 as (F & Q & K). intros E.
    assert (c' = c1 /\ o <> Ret ()) as [-> Ho] by (destruct o1; by injection E as <- <-).
    split; [eapply frame_trans; [|exact F]; by split|]. split; [done|]. by right.
Qed.

(** [SendAck] submits the acknowledgement of a positive number. *)
Definition ack_message (i : Z) : Message := mk_message 0 kAckKey (to_string i).

Lemma send_ack_effect i c c' o :
  SendAck start_ok i c = (c', o) ->
  frame c c' /\ send_msgs_ c' = send_msgs_ c /\
  ((0 < i /\ tasks_ c' = tasks_ c ++ [ack_message i] /\ o = Ret ())
   \/ (tasks_ c' = tasks_ c /\ (o = Ret () -> i <= 0))).
Proof.
  unfold SendAck. destruct (Z.ltb_spec 0 i) as [Hi|Hi].
  - intros E. apply submit_effect in E as (F & Q & [[K ->]|[K Ho]]); (split; [done|]; split; [done|]).
    + by left.
    + by right.
  - intros E. injection E as <- <-. split; [done|]. split; [done|]. by right.
Qed.

(** [ack_all] submits acknowledgements of some of the entries, in order. *)
Lemma ack_all_effect entries c c' o :
  ack_all start_ok entries c = (c', o) ->
  frame c c' /\ send_msgs_ c' = send_msgs_ c /\
  exists l, tasks_ c' = tasks_ c ++ (ack_message <$> l) /\
    Forall (fun i => 0 < i /\ exists k v, (k, (v, i)) ∈ entries) l.
Proof.
  revert c. induction entries as [|[k [v i]] rest IH]; intros c; cbn [ack_all].
  - intros E. injection E as <- <-. split; [done|]. split; [done|]. exists []. by rewrite app_nil_r.
  - unfold mbind, M_bind. destruct (SendAck start_ok i c) as [c1 o1] eqn:E1.
    apply send_ack_effect in E1 as (F1 & Q1 & K1). intros E.
    assert (Hc : (c' = c1) \/ (o1 = Ret () /\ ack_all start_ok rest c1 = (c', o))).
    { destruct o1 as [[]| | |]; [by right|left|left|left]; by injection E. }
    assert (Hl : forall l0 l, Forall (fun i => 0 < i /\ exists k v, (k, (v, i)) ∈ rest) l ->
      Forall (fun j => 0 < j /\ j = i) l0 ->
      Forall (fun j => 0 < j /\ exists k0 v0, (k0, (v0, j)) ∈ (k, (v, i)) :: rest) (l0 ++ l)).
    { intros l0 l Hl Hl0. apply Forall_app. split; eapply Forall_impl; try done; simpl.
      - intros j [Hj ->]. split; [done|]. exists k, v. by constructor.
      - intros j [Hj (k0 & v0 & Hin)]. split; [done|]. exists k0, v0. by constructor. }
    assert (Hl0 : exists l0, tasks_ c1 = tasks_ c ++ (ack_message <$> l0) /\ Forall (fun j => 0 < j /\ j = i) l0).
    { destruct K1 as [(Hi & K1 & _)|[K1 _]]; [exists [i]; by repeat constructor|exists []; by rewrite app_nil_r]. }
    destruct Hl0 as (l0 & K0 & F0). destruct Hc as [-> | [-> E']].
    + split; [done|]. split; [done|]. exists l0. split; [done|].
      rewrite <- (app_nil_r l0). by apply Hl.
    + apply IH in E' as (F2 & Q2 & l & K2 & Fl). split; [by eapply frame_trans|]. split; [congruence|].
      exists (l0 ++ l). split; [by rewrite K2, K0, fmap_app, app_assoc|]. by apply Hl.
Qed.

(** The channel after a normal message was queued. *)
Definition queued (k v : bytes) (c : Channel) : Channel :=
  let n := (msg_seq_id_ c + 1) mod 2 ^ 64 in
  set_send_msgs_ (send_msgs_ c ++ [mk_message n (BuildChannelKey k n) v]) (set_msg_seq_id_ n c).

(** The three ways to send. *)
Inductive send_kind := KSendAsync | KSend | KSendAsyncThrottled.

Definition run_send (kind : send_kind) : bytes -> bytes -> M (T := T) unit :=
  match kind with
  | KSendAsync => SendAsync
  | KSend => Send
  | KSendAsyncThrottled => SendAsyncThrottled
  end.

Lemma waits_keep c i :
  fst (WaitSeqIdSendFinished i c) = c /\ fst (ThrottleWindowWait i c) = c.
Proof.
  unfold WaitSeqIdSendFinished, ThrottleWindowWait. mrun. split.
  - destruct (negb _); [destruct (task_aborting_ c)|]; done.
  - destruct (throttle_window_size_ c =? 0); [done|]. destruct (_ && _); [destruct (aborting_ c)|]; done.
Qed.

(** Sending either changes nothing or queues the message under the next number,
    and it does so exactly when the key is accepted and the channel is neither
    aborting nor closing. *)
Lemma send_effect kind k v c c' o :
  disable_msg_seq_id_ c = false -> run_send kind k v c = (c', o) ->
  (c' = c /\ (aborting_ c = true \/ waiting_finish_ c = true \/ NormalMessageKeyEnforce k = false)) \/
  (c' = queued k v c /\ aborting_ c = false /\ waiting_finish_ c = false /\
   NormalMessageKeyEnforce k = true).
Proof.
  intros Hd. destruct kind; cbn [run_send]; unfold SendAsync, Send, SendAsyncThrottled, send_numbered,
    enforce; mrun; rewrite Hd; (destruct (aborting_ c) eqn:Ea; [intros E; injection E as <- <-; auto|]);
    mrun; (destruct (waiting_finish_ c) eqn:Ew; mrun; [intros E; injection E as <- <-; auto|]);
    (destruct (NormalMessageKeyEnforce k) eqn:Ek; mrun; [|intros E; injection E as <- <-; auto]).
  - intros E. injection E as <- <-. by right.
  - intros E. right. split; [|done]. apply (f_equal fst) in E. simpl in E. subst c'.
    by rewrite (proj1 (waits_keep _ _)).
  - intros E. right. split; [|done]. apply (f_equal fst) in E. simpl in E. subst c'.
    by rewrite (proj2 (waits_keep _ _)).
Qed.

(** A turn of the send thread moves the oldest queued message to the alive
    tasks, or drops it with an exception, or does nothing. *)
Lemma send_thread_effect c c' o :
  SendThread_turn start_ok c = (c', o) ->
  frame c c' /\
  ((send_msgs_ c' = send_msgs_ c /\ tasks_ c' = tasks_ c) \/
   exists m rest, send_msgs_ c = m :: rest /\ send_msgs_ c' = rest /\
     (tasks_ c' = tasks_ c ++ [m] \/ tasks_ c' = tasks_ c)).
Proof.
  unfold SendThread_turn, Pop. mrun. intros E.
  assert (Hsub : forall m rest c1 (g : unit -> M unit), send_msgs_ c = m :: rest ->
    c1 = set_send_msgs_ rest c -> (forall x, fst (g () x) = x) ->
    (SubmitSendTask start_ok m ≫= g) c1 = (c', o) -> frame c c' /\
    exists m rest, send_msgs_ c = m :: rest /\ send_msgs_ c' = rest /\
     (tasks_ c' = tasks_ c ++ [m] \/ tasks_ c' = tasks_ c)).
  { intros m rest c1 g Hm -> Hg E1. unfold mbind, M_bind in E1.
    destruct (SubmitSendTask start_ok m _) as [c2 o2] eqn:E2.
    apply submit_effect in E2 as (F & Q & K).
    assert (c' = c2) as ->.
    { destruct o2 as [[]| | |]; try by injection E1. specialize (Hg c2). by rewrite E1 in Hg. }
    split; [eapply frame_trans; [|exact F]; by split|]. exists m, rest. split; [done|].
    split; [by rewrite Q|]. destruct K as [[K _]|[K _]]; [left|right]; by rewrite K. }
  destruct (negb (send_thread_stopped_ c)).
  - destruct (send_msgs_ c) as [|m rest] eqn:Es; cbn in E.
    + destruct (negb (queue_stopped_ c)); cbn in E; injection E as <- <-; (split; [done|by left]).
    + apply (Hsub m rest _ (fun _ => ThrottleWindowWait (seq_id_ m))) in E as (F & R); [|done|done|].
      * split; [done|]. by right.
      * intros x. apply waits_keep.
  - destruct (aborting_ c); [injection E as <- <-; split; [done|by left]|].
    destruct (send_msgs_ c) as [|m rest] eqn:Es; cbn in E; [injection E as <- <-; split; [done|by left]|].
    destruct (Hsub m rest _ (fun _ => mret ()) eq_refl eq_refl) as (F & R); [done| |].
    + unfold mbind, M_bind. rewrite E. by destruct o as [[]| | |].
    + split; [done|]. by right.
Qed.

Lemma finish_task_effect i c c' o :
  FinishTask i c = (c', o) ->
  frame c c' /\ send_msgs_ c' = send_msgs_ c /\ forall m, m ∈ tasks_ c' -> m ∈ tasks_ c.
Proof.
  unfold FinishTask. mrun. destruct (tasks_ c !! i) as [m|]; intros E.
  - apply finished_effect in E as (F & Q & K). split; [eapply frame_trans; [|exact F]; by split|].
    split; [done|]. intros m' Hm. rewrite K in Hm. cbn in Hm.
    rewrite delete_take_drop in Hm. apply elem_of_app in Hm as [Hm|Hm];
      [by apply subseteq_take in Hm|by apply subseteq_drop in Hm].
  - injection E as <- <-. by repeat split.
Qed.
End Effects.
