(* ===== verification/ChannelSystem.v ===== *)
(** Two channels and the network between them.

    An endpoint is a channel, the requests it ever put on the network, and three
    histories that no code reads: the messages its user sent ([sent], in the
    order of their numbers), the messages [Recv] returned ([consumed]) and the
    numbers of the peer's messages it acknowledged ([settled]). A step of one
    endpoint is one handler of [Channel] run to its end; what it does with the
    peer is only to take requests from the peer's network.

    Requests are never removed from the network: the transport may deliver a
    request any number of times (an RPC that timed out is sent again), in any
    order, or never. A send task may put its requests on the network in any
    order and any number of times, and may end without having sent them all. *)

From Stdlib Require Import ZArith Lia ZifyBool Bool.
From stdpp Require Import base numbers list option gmap sets.
From S2P Require Import Prelude SegmentTree ChannelKeys Chunks Channel ChannelFacts.

Local Open Scope Z_scope.

Section System.
Context {T : Type} `{IdSet T} `{SimpleAtoi} {Request : Type} `{TransportLink Request}.
Context (start_ok : Message -> bool).

Local Abbreviation Channel := (Channel (T := T)).
Local Abbreviation c_max := (GetMaxBytesPerChunk (Request := Request)).

Record endpoint := mk_ep {
  chan : Channel;
  net_out : list Request;
  sent : list (bytes * bytes);
  consumed : list (Z * bytes * bytes);
  settled : gset Z
}.

(** The acknowledgements among the alive tasks. *)
Definition ack_of (m : Message) : option Z :=
  if bool_decide (msg_key_ m = kAckKey) then simple_atoi (value_ m) else None.

Definition ack_ids (tasks : list Message) : gset Z := list_to_set (omap ack_of tasks).

(** The endpoint after one of its handlers left the channel as [c']. *)
Definition after (e : endpoint) (c' : Channel) : endpoint :=
  mk_ep c' (net_out e) (sent e) (consumed e) (ack_ids (tasks_ c') ∪ settled e).

Definition with_net (e : endpoint) (r : Request) : endpoint :=
  mk_ep (chan e) (net_out e ++ [r]) (sent e) (consumed e) (settled e).

(** The history of sent messages grows when a number was taken. *)
Definition after_send (e : endpoint) (c' : Channel) (k v : bytes) : endpoint :=
  mk_ep c' (net_out e)
    (if msg_seq_id_ c' =? msg_seq_id_ (chan e) then sent e else sent e ++ [(k, v)])
    (consumed e) (settled e).

(** The history of consumed messages grows when [Recv] returns a numbered
    message. *)
Definition after_recv (e : endpoint) (c' : Channel) (k : bytes) (o : outcome bytes) : endpoint :=
  mk_ep c' (net_out e) (sent e)
    (match o, recv_msgs_ (chan e) !! k with
     | Ret v, Some (_, i) => if 0 <? i then consumed e ++ [(i, k, v)] else consumed e
     | _, _ => consumed e
     end)
    (ack_ids (tasks_ c') ∪ settled e).

(** The steps of an endpoint [e] whose peer is [p]. *)
Inductive estep (p e : endpoint) : endpoint -> Prop :=
  | step_send kind k v c' o :
      run_send kind k v (chan e) = (c', o) -> vsize v < 2 ^ 63 -> vsize (sent e) < 2 ^ 64 - 2 ->
      estep p e (after_send e c' k v)
  | step_send_thread c' o :
      SendThread_turn start_ok (chan e) = (c', o) -> estep p e (after e c')
  | step_task_request i m r :
      tasks_ (chan e) !! i = Some m -> r ∈ SendImpl (msg_key_ m) (value_ m) ->
      estep p e (with_net e r)
  | step_task_done i c' o :
      FinishTask i (chan e) = (c', o) -> estep p e (after e c')
  | step_test_send rank c' rs r :
      0 <= rank -> TestSend rank (chan e) = (c', Ret rs) -> r ∈ rs -> estep p e (with_net e r)
  | step_deliver r c' o :
      r ∈ net_out p -> OnRequest start_ok r (chan e) = (c', o) -> estep p e (after e c')
  | step_recv k c' o :
      Recv start_ok k (chan e) = (c', o) -> estep p e (after_recv e c' k o)
  | step_stop_receiving c' o :
      StopReceivingAndAckUnreadMsgs start_ok (chan e) = (c', o) -> estep p e (after e c')
  | step_fin c' o :
      waiting_finish_ (chan e) = true -> SubmitFin start_ok (chan e) = (c', o) ->
      estep p e (after e c')
  | step_wait_async c' o :
      WaitAsyncSendToFinish (chan e) = (c', o) -> estep p e (after e c')
  | step_abort c' o :
      Abort (chan e) = (c', o) -> estep p e (after e c').

Definition system : Type := endpoint * endpoint.

Inductive sys_step : system -> system -> Prop :=
  | sys_left a a' b : estep b a a' -> sys_step (a, b) (a', b)
  | sys_right a b b' : estep a b b' -> sys_step (a, b) (a, b').

Inductive reachable (s0 : system) : system -> Prop :=
  | reach_start : reachable s0 s0
  | reach_step s s' : reachable s0 s -> sys_step s s' -> reachable s0 s'.

Definition new_endpoint (window : Z) : endpoint := mk_ep (new_channel window false) [] [] [] ∅.

Definition initial (window1 window2 : Z) : system := (new_endpoint window1, new_endpoint window2).

(** *** The invariant *)

Definition consumed_ids (l : list (Z * bytes * bytes)) : list Z := (fun x => fst (fst x)) <$> l.

(** The messages an endpoint may send: numbered messages of its history,
    acknowledgements of settled messages, and its final message once it is
    closing. *)
Inductive authorised (log : list (bytes * bytes)) (sett : gset Z) (closing : bool) : Message -> Prop :=
  | auth_normal i k v :
      vget log (i - 1) = Some (k, v) -> 0 < i < 2 ^ 64 - 1 -> str_find kSeqKey k = None ->
      vsize v < 2 ^ 63 -> authorised log sett closing (mk_message i (BuildChannelKey k i) v)
  | auth_ack i : i ∈ sett -> authorised log sett closing (ack_message i)
  | auth_fin : closing = true ->
      authorised log sett closing (mk_message 0 kFinKey (to_string (vsize log))).

Definition auth_request (log : list (bytes * bytes)) (sett : gset Z) (closing : bool) (r : Request) : Prop :=
  (exists m, authorised log sett closing m /\ r ∈ SendImpl (msg_key_ m) (value_ m)) \/
  (exists rank, 0 <= rank /\ r ∈ SendImpl (BuildChannelKey (connect_key rank) 0) []).

(** The sending half of an endpoint. *)
Record send_ok (log : list (bytes * bytes)) (sett : gset Z) (net : list Request) (c : Channel) : Prop := {
  so_seq : msg_seq_id_ c = vsize log;
  so_bound : vsize log < 2 ^ 64 - 1;
  so_disable : disable_msg_seq_id_ c = false;
  so_queue : Forall (authorised log sett (waiting_finish_ c)) (send_msgs_ c);
  so_tasks : Forall (authorised log sett (waiting_finish_ c)) (tasks_ c);
  so_net : Forall (auth_request log sett (waiting_finish_ c)) net
}.

(** The receiving half: [log] is the history of the peer. *)
Record recv_ok (log : list (bytes * bytes)) (cons : list (Z * bytes * bytes)) (sett : gset Z)
    (c : Channel) : Prop := {
  ro_wf : ids_wf (received_msg_ids_ c);
  ro_ids i : i ∈ ids_set (received_msg_ids_ c) -> 0 < i <= vsize log;
  ro_msgs k v i : recv_msgs_ c !! k = Some (v, i) ->
    i = 0 \/ (0 < i /\ vget log (i - 1) = Some (k, v) /\
              i ∈ ids_set (received_msg_ids_ c) /\ i ∉ consumed_ids cons);
  ro_sett i : i ∈ sett -> i ∈ ids_set (received_msg_ids_ c) /\
    (i ∈ consumed_ids cons \/ waiting_finish_ c = true);
  ro_cons i k v : (i, k, v) ∈ cons ->
    vget log (i - 1) = Some (k, v) /\ i ∈ ids_set (received_msg_ids_ c);
  ro_nodup : NoDup (consumed_ids cons);
  ro_chunks K d : chunked_values_ c !! K = Some d -> exists i k v,
    K = BuildChannelKey k i /\ str_find kSeqKey k = None /\ 0 < i < 2 ^ 64 - 1 /\
    vget log (i - 1) = Some (k, v) /\ c_max < vsize v < 2 ^ 63 /\
    exists S, partial v c_max S d /\ IsFullyFilled d = false
}.

(** The acknowledgements received so far, and the final message. *)
Record feedback_ok (log : list (bytes * bytes)) (peer_settled : gset Z) (peer_closing : bool)
    (c : Channel) : Prop := {
  fo_wf : ids_wf (received_ack_ids_ c);
  fo_acks i : i ∈ ids_set (received_ack_ids_ c) -> i ∈ peer_settled;
  fo_fin : received_fin_ c = true -> peer_sent_msg_count_ c = vsize log /\ peer_closing = true
}.

Record local_ok (p e : endpoint) : Prop := {
  lo_send : send_ok (sent e) (settled e) (net_out e) (chan e);
  lo_recv : recv_ok (sent p) (consumed e) (settled e) (chan e);
  lo_feedback : feedback_ok (sent p) (settled p) (waiting_finish_ (chan p)) (chan e)
}.

(** What the peer sees of an endpoint only grows. *)
Record evolves (e e' : endpoint) : Prop := {
  ev_settled : settled e ⊆ settled e';
  ev_waiting : waiting_finish_ (chan e) = true -> waiting_finish_ (chan e') = true;
  ev_sent : sent e' = sent e \/
    (waiting_finish_ (chan e) = false /\ exists x, sent e' = sent e ++ [x])
}.

Definition invariant (s : system) : Prop := local_ok (snd s) (fst s) /\ local_ok (fst s) (snd s).

(** *** Monotonicity *)

Lemma vget_log_app {A} (log l : list A) i x : vget log i = Some x -> vget (log ++ l) i = Some x.
Proof.
  unfold vget. destruct (0 <=? i); [|done]. intros E. by apply lookup_app_l_Some.
Qed.

Lemma vget_range {A} (l : list A) i x : vget l i = Some x -> 0 <= i < vsize l.
Proof. intros E. apply vget_Some_iff. by exists x. Qed.

Lemma authorised_mono log sett sett' closing closing' m :
  authorised log sett closing m -> sett ⊆ sett' -> (closing = true -> closing' = true) ->
  authorised log sett' closing' m.
Proof. intros [i k v Hl Hi Hk Hv|i Hi|Hc] Hs Hc'; [by apply auth_normal|by apply auth_ack, Hs|by apply auth_fin, Hc']. Qed.

Lemma auth_request_mono log sett sett' closing closing' r :
  auth_request log sett closing r -> sett ⊆ sett' -> (closing = true -> closing' = true) ->
  auth_request log sett' closing' r.
Proof.
  intros [(m & Hm & Hr)|Hr] Hs Hc; [left|by right]. exists m. split; [|done]. by eapply authorised_mono.
Qed.

Lemma authorised_log log sett m x :
  authorised log sett false m -> authorised (log ++ [x]) sett false m.
Proof. intros [i k v Hl Hi Hk Hv|i Hi|Hc]; [apply auth_normal; try done; by apply vget_log_app|by apply auth_ack|done]. Qed.

Lemma auth_request_log log sett r x :
  auth_request log sett false r -> auth_request (log ++ [x]) sett false r.
Proof. intros [(m & Hm & Hr)|Hr]; [left|by right]. exists m. split; [|done]. by apply authorised_log. Qed.

Lemma recv_ok_log log l cons sett c : recv_ok log cons sett c -> recv_ok (log ++ l) cons sett c.
Proof.
  intros [R1 R2 R3 R4 R5 R6 R7]. split; try done.
  - intros i Hi. specialize (R2 i Hi). rewrite vsize_app. pose proof (vsize_nonneg l). lia.
  - intros k v i E. destruct (R3 k v i E) as [-> | (Hi & Hl & Hr)]; [by left|right].
    split; [done|]. split; [by apply vget_log_app|done].
  - intros i k v E. destruct (R5 i k v E) as [Hl Hr]. split; [by apply vget_log_app|done].
  - intros K d E. destruct (R7 K d E) as (i & k & v & ? & ? & ? & Hl & ?). exists i, k, v.
    repeat (split; [done|]). split; [by apply vget_log_app|done].
Qed.

(** The peer's step does not disturb an endpoint. *)
Lemma local_ok_peer p p' e : local_ok p e -> evolves p p' -> local_ok p' e.
Proof.
  intros [S R [F1 F2 F3]] [E1 E2 E3]. split; [done| |].
  - destruct E3 as [-> | [_ [x ->]]]; [done|by apply recv_ok_log].
  - split; [done|intros i Hi; by apply E1, F2|].
    intros Hf. destruct (F3 Hf) as [Hn Hc]. destruct E3 as [-> | [Hw _]]; [auto|congruence].
Qed.

(** *** Rules for the steps of an endpoint *)

Lemma recv_ok_frame log cons sett c c' : recv_ok log cons sett c -> frame c c' -> recv_ok log cons sett c'.
Proof.
  intros [R1 R2 R3 R4 R5 R6 R7] [].
  split; rewrite ?frame_ids, ?frame_recv, ?frame_waiting, ?frame_chunks; assumption.
Qed.

Lemma feedback_ok_frame log ps pc c c' :
  feedback_ok log ps pc c -> frame c c' -> feedback_ok log ps pc c'.
Proof.
  intros [F1 F2 F3] []. split; rewrite ?frame_acks, ?frame_fin, ?frame_count; assumption.
Qed.

Lemma elem_of_ack_ids ts i : i ∈ ack_ids ts <-> exists m, m ∈ ts /\ ack_of m = Some i.
Proof. unfold ack_ids. rewrite elem_of_list_to_set, list_elem_of_omap. done. Qed.

Lemma ack_of_ack i : 0 <= i < 2 ^ 64 -> ack_of (ack_message i) = Some i.
Proof.
  intros Hi. unfold ack_of, ack_message. rewrite bool_decide_true by done. by apply simple_atoi_decimal.
Qed.

(** An authorised message that is read as an acknowledgement is one. *)
Lemma ack_of_authorised log sett closing m i :
  (forall j, j ∈ sett -> 0 <= j < 2 ^ 64) -> authorised log sett closing m -> ack_of m = Some i -> i ∈ sett.
Proof.
  intros Hs [j k v _ _ Hk _|j Hj|_] E.
  - unfold ack_of in E. rewrite bool_decide_false in E by apply (build_not_reserved k j Hk). done.
  - rewrite ack_of_ack in E by auto. by injection E as <-.
  - unfold ack_of in E. by rewrite bool_decide_false in E by done.
Qed.

(** What a step may add to the alive tasks. *)
Definition new_task (e : endpoint) (c' : Channel) (m : Message) : Prop :=
  m ∈ tasks_ (chan e) \/ m ∈ send_msgs_ (chan e) \/
  (exists i, m = ack_message i /\ i ∈ ids_set (received_msg_ids_ c')) \/
  (m = mk_message 0 kFinKey (to_string (vsize (sent e))) /\ waiting_finish_ c' = true).

(** The numbers that the peer's messages can have. *)
Lemma ids_in_range p e c' cons sett i :
  local_ok e p -> recv_ok (sent p) cons sett c' -> i ∈ ids_set (received_msg_ids_ c') ->
  0 < i < 2 ^ 64 - 1.
Proof. intros [S _ _] R Hi. pose proof (ro_ids _ _ _ _ R i Hi). pose proof (so_bound _ _ _ _ S). lia. Qed.

Lemma settled_in_range p e i : local_ok p e -> local_ok e p -> i ∈ settled e -> 0 <= i < 2 ^ 64.
Proof.
  intros L Lp Hi. pose proof (ro_sett _ _ _ _ (lo_recv _ _ L) i Hi) as [Hr _].
  pose proof (ids_in_range p e _ _ _ i Lp (lo_recv _ _ L) Hr). lia.
Qed.

(** A new acknowledgement settles a message that was received, and either
    consumed or dropped while closing. *)
Lemma settle_ok p e c' cons :
  local_ok p e -> local_ok e p -> recv_ok (sent p) cons (settled e) c' ->
  (forall m, m ∈ tasks_ c' -> new_task e c' m) ->
  (forall i, ack_message i ∈ tasks_ c' -> i ∈ ids_set (received_msg_ids_ c') ->
     i ∈ settled e \/ i ∈ consumed_ids cons \/ waiting_finish_ c' = true) ->
  recv_ok (sent p) cons (ack_ids (tasks_ c') ∪ settled e) c'.
Proof.
  intros L Lp R Hn Ha. pose proof (lo_send _ _ L) as [S1 S2 S3 S4 S5 S6].
  rewrite Forall_forall in S4, S5. pose proof R as [R1 R2 R3 R4 R5 R6 R7].
  assert (Hs : forall j, j ∈ settled e -> 0 <= j < 2 ^ 64) by (intros j Hj; exact (settled_in_range p e j L Lp Hj)).
  split; try done. intros i Hi.
  apply elem_of_union in Hi as [Hi|Hi]; [|by apply R4].
  apply elem_of_ack_ids in Hi as (m & Hm & Em).
  destruct (Hn m Hm) as [Ho|[Ho|[(j & -> & Hj)|[-> _]]]].
  - apply R4. eapply ack_of_authorised; [done|by apply S5|done].
  - apply R4. eapply ack_of_authorised; [done|by apply S4|done].
  - pose proof (ids_in_range p e c' cons _ j Lp R Hj). rewrite ack_of_ack in Em by lia.
    injection Em as <-. destruct (Ha j Hm Hj) as [Hs'|Hc]; [by apply R4|]. by split.
  - unfold ack_of in Em. by rewrite bool_decide_false in Em by done.
Qed.

(** The rule for the steps that do not send: what is left to show is about the
    receiving half. *)
Lemma step_rule p e c' cons :
  local_ok p e -> local_ok e p ->
  msg_seq_id_ c' = msg_seq_id_ (chan e) -> disable_msg_seq_id_ c' = disable_msg_seq_id_ (chan e) ->
  (waiting_finish_ (chan e) = true -> waiting_finish_ c' = true) ->
  (forall m, m ∈ send_msgs_ c' -> m ∈ send_msgs_ (chan e)) ->
  (forall m, m ∈ tasks_ c' -> new_task e c' m) ->
  recv_ok (sent p) cons (ack_ids (tasks_ c') ∪ settled e) c' ->
  feedback_ok (sent p) (settled p) (waiting_finish_ (chan p)) c' ->
  let e' := mk_ep c' (net_out e) (sent e) cons (ack_ids (tasks_ c') ∪ settled e) in
  local_ok p e' /\ evolves e e'.
Proof.
  intros L Lp Hseq Hdis Hw Hq Ht R F e'. pose proof (lo_send _ _ L) as [S1 S2 S3 S4 S5 S6].
  rewrite Forall_forall in S4, S5. rewrite Forall_forall in S6.
  assert (Hsub : settled e ⊆ settled e') by apply union_subseteq_r.
  split; [|split; [done|done|by left]]. split; [|done|done]. split; cbn [chan net_out sent settled e'].
  - congruence.
  - done.
  - congruence.
  - apply Forall_forall. intros m Hm. eapply authorised_mono; [by apply S4, Hq|done|done].
  - apply Forall_forall. intros m Hm. destruct (Ht m Hm) as [Ho|[Ho|[(i & -> & Hi)|[-> Hc]]]].
    + eapply authorised_mono; [by apply S5|done|done].
    + eapply authorised_mono; [by apply S4|done|done].
    + apply auth_ack, elem_of_union. left. apply elem_of_ack_ids. exists (ack_message i).
      split; [done|]. apply ack_of_ack. pose proof (ids_in_range p e c' cons _ i Lp R Hi). lia.
    + by apply auth_fin.
  - apply Forall_forall. intros r Hr. eapply auth_request_mono; [by apply S6|done|done].
Qed.

(** A step that only moves or drops send tasks. *)
Lemma frame_step p e c' :
  local_ok p e -> local_ok e p -> frame (chan e) c' ->
  (forall m, m ∈ send_msgs_ c' -> m ∈ send_msgs_ (chan e)) ->
  (forall m, m ∈ tasks_ c' -> m ∈ tasks_ (chan e) \/ m ∈ send_msgs_ (chan e)) ->
  local_ok p (after e c') /\ evolves e (after e c').
Proof.
  intros L Lp F Hq Ht. pose proof (recv_ok_frame _ _ _ _ _ (lo_recv _ _ L) F) as R.
  assert (Hn : forall m, m ∈ tasks_ c' -> new_task e c' m).
  { intros m Hm. unfold new_task. destruct (Ht m Hm); auto. }
  apply step_rule; try done; try by (destruct F; congruence).
  - apply (settle_ok p e c' _ L Lp R Hn). intros i Hi Hr. left.
    pose proof (lo_send _ _ L) as [_ _ _ S4 S5 _]. rewrite Forall_forall in S4, S5.
    pose proof (ids_in_range p e c' _ _ i Lp R Hr).
    eapply ack_of_authorised; [intros j Hj; exact (settled_in_range p e j L Lp Hj)| |apply ack_of_ack; lia].
    destruct (Ht _ Hi); eauto.
  - by apply (feedback_ok_frame _ _ _ _ _ (lo_feedback _ _ L)).
Qed.

(** A step that adds only acknowledgements of received messages. *)
Lemma acks_step p e c' cons l :
  local_ok p e -> local_ok e p ->
  msg_seq_id_ c' = msg_seq_id_ (chan e) -> disable_msg_seq_id_ c' = disable_msg_seq_id_ (chan e) ->
  (waiting_finish_ (chan e) = true -> waiting_finish_ c' = true) ->
  send_msgs_ c' = send_msgs_ (chan e) -> tasks_ c' = tasks_ (chan e) ++ (ack_message <$> l) ->
  (forall i, i ∈ l -> i ∈ ids_set (received_msg_ids_ c') /\
     (i ∈ consumed_ids cons \/ waiting_finish_ c' = true)) ->
  recv_ok (sent p) cons (settled e) c' ->
  feedback_ok (sent p) (settled p) (waiting_finish_ (chan p)) c' ->
  let e' := mk_ep c' (net_out e) (sent e) cons (ack_ids (tasks_ c') ∪ settled e) in
  local_ok p e' /\ evolves e e'.
Proof.
  intros L Lp Hseq Hdis Hw Hq Ht Hl R F.
  assert (Hn : forall m, m ∈ tasks_ c' -> new_task e c' m).
  { intros m. rewrite Ht. intros [Hm|Hm]%elem_of_app; [by left|right; right; left].
    apply list_elem_of_fmap in Hm as (i & -> & Hi). exists i. split; [done|]. by apply Hl. }
  apply step_rule; try done; [by rewrite Hq|].
  apply (settle_ok p e c' cons L Lp R Hn). intros i Hi Hr. rewrite Ht in Hi.
  pose proof (ids_in_range p e c' cons _ i Lp R Hr) as Hri.
  apply elem_of_app in Hi as [Hi|Hi].
  - left. pose proof (lo_send _ _ L) as [_ _ _ _ S5 _]. rewrite Forall_forall in S5.
    eapply ack_of_authorised; [intros j Hj; exact (settled_in_range p e j L Lp Hj)|by apply S5|].
    apply ack_of_ack. lia.
  - apply list_elem_of_fmap in Hi as (j & Ej & Hj). right. destruct (Hl j Hj) as [Hjr Hc].
    pose proof (ids_in_range p e c' cons _ j Lp R Hjr) as Hrj.
    assert (Some i = Some j) as E by (rewrite <- !ack_of_ack by lia; by rewrite Ej).
    injection E as ->. done.
Qed.

(** A step that leaves the sending half alone. *)
Lemma quiet_step p e c' :
  local_ok p e -> local_ok e p ->
  msg_seq_id_ c' = msg_seq_id_ (chan e) -> disable_msg_seq_id_ c' = disable_msg_seq_id_ (chan e) ->
  waiting_finish_ c' = waiting_finish_ (chan e) ->
  send_msgs_ c' = send_msgs_ (chan e) -> tasks_ c' = tasks_ (chan e) ->
  recv_ok (sent p) (consumed e) (settled e) c' ->
  feedback_ok (sent p) (settled p) (waiting_finish_ (chan p)) c' ->
  local_ok p (after e c') /\ evolves e (after e c').
Proof.
  intros L Lp Hseq Hdis Hw Hq Ht R F.
  apply (acks_step p e c' (consumed e) []); try done; [congruence|by rewrite Ht, app_nil_r|].
  intros i Hi. by apply elem_of_nil in Hi.
Qed.

(** *** Receiving *)

Lemma consumed_received log cons sett c i :
  recv_ok log cons sett c -> i ∈ consumed_ids cons -> i ∈ ids_set (received_msg_ids_ c).
Proof.
  intros R Hi. apply list_elem_of_fmap in Hi as ([[j k] v] & -> & Hin).
  by apply (ro_cons _ _ _ _ R) in Hin as [_ Hr].
Qed.

Lemma recv_ok_insert_id log cons sett c i t :
  recv_ok log cons sett c -> 0 < i <= vsize log -> ids_wf t ->
  ids_set t = {[i]} ∪ ids_set (received_msg_ids_ c) ->
  recv_ok log cons sett (set_received_msg_ids_ t c).
Proof.
  intros [R1 R2 R3 R4 R5 R6 R7] Hi Ht Es. split; cbn -[ids_set]; rewrite ?Es; try done.
  - intros j [->%elem_of_singleton|Hj]%elem_of_union; [done|by apply R2].
  - intros k v j E. destruct (R3 k v j E) as [-> | (A & B & C & D)]; [by left|right].
    repeat (split; [done|]). split; [apply elem_of_union; by right|done].
  - intros j Hj. destruct (R4 j Hj) as [A B]. split; [apply elem_of_union; by right|done].
  - intros j k v Hj. destruct (R5 j k v Hj) as [A B]. split; [done|apply elem_of_union; by right].
Qed.

Lemma feedback_ok_same log ps pc c c' :
  feedback_ok log ps pc c -> received_ack_ids_ c' = received_ack_ids_ c ->
  received_fin_ c' = received_fin_ c -> peer_sent_msg_count_ c' = peer_sent_msg_count_ c ->
  feedback_ok log ps pc c'.
Proof. intros [F1 F2 F3] E1 E2 E3. split; rewrite ?E1, ?E2, ?E3; assumption. Qed.

(** A numbered message of the peer, delivered once more or for the first time. *)
Lemma on_normal_numbered p e i k v c' o :
  local_ok p e -> local_ok e p -> vget (sent p) (i - 1) = Some (k, v) ->
  0 < i < 2 ^ 64 - 1 -> str_find kSeqKey k = None ->
  OnNormalMessage start_ok (BuildChannelKey k i) v (chan e) = (c', o) ->
  local_ok p (after e c') /\ evolves e (after e c').
Proof.
  intros L Lp Hlog Hi Hk. pose proof (lo_recv _ _ L) as R. pose proof (lo_feedback _ _ L) as F.
  pose proof (vget_range _ _ _ Hlog) as Hr.
  unfold OnNormalMessage, insert_id. rewrite split_build by (done || lia).
  mrun. replace (0 <? i) with true by lia.
  destruct (ids_insert_spec (received_msg_ids_ (chan e)) i (ro_wf _ _ _ _ R) ltac:(lia)) as (t & -> & Wt & St).
  set (c1 := set_received_msg_ids_ t (chan e)).
  assert (R1 : recv_ok (sent p) (consumed e) (settled e) c1) by (apply (recv_ok_insert_id _ _ _ _ i); (done || lia)).
  assert (F1 : feedback_ok (sent p) (settled p) (waiting_finish_ (chan p)) c1) by (by apply (feedback_ok_same _ _ _ _ _ F)).
  case_bool_decide as Hfresh; cbn [negb].
  2:{ intros E. injection E as <- <-. by apply quiet_step. }
  change (waiting_finish_ c1) with (waiting_finish_ (chan e)).
  change (recv_msgs_ c1) with (recv_msgs_ (chan e)).
  destruct (waiting_finish_ (chan e)) eqn:Ew; cbn [negb].
  - intros E. apply send_ack_effect in E as (Fr & Q & K).
    assert (Hl : exists l, tasks_ c' = tasks_ (chan e) ++ (ack_message <$> l) /\ forall j, j ∈ l -> j = i).
    { destruct K as [(_ & K & _)|[K _]].
      - exists [i]. split; [done|]. intros j Hj. by apply list_elem_of_singleton in Hj.
      - exists []. split; [by rewrite K, app_nil_r|]. intros j Hj. by apply elem_of_nil in Hj. }
    destruct Hl as (l & Kl & Hl).
    apply (acks_step p e c' (consumed e) l); try done.
    + by rewrite (frame_seq _ _ Fr).
    + by rewrite (frame_disable _ _ Fr).
    + intros _. by rewrite (frame_waiting _ _ Fr).
    + intros j Hj. rewrite (Hl j Hj). destruct Fr as [_ Fi _ _ _ Fw _ _ _ _ _]. rewrite Fi, Fw. split.
      * change (i ∈ ids_set t). rewrite St. by apply elem_of_union_l, elem_of_singleton.
      * by right.
    + by apply (recv_ok_frame _ _ _ c1).
    + by apply (feedback_ok_frame _ _ _ c1).
  - destruct (recv_msgs_ (chan e) !! k) as [old|] eqn:Eold.
    + intros E. assert (c' = c1) as -> by (by injection E). by apply quiet_step.
    + intros E. injection E as <- <-. apply quiet_step; try done.
      * destruct R1 as [R1 R2 R3 R4 R5 R6 R7]. split; try done. cbn -[ids_set] in *. intros k' v' j.
        destruct (decide (k' = k)) as [-> | Hne].
        -- rewrite lookup_insert_eq. intros E. injection E as <- <-. right. split; [lia|]. split; [done|].
           split; [rewrite St; by apply elem_of_union_l, elem_of_singleton|].
           intros Hc. by apply Hfresh, (consumed_received _ _ _ _ _ R).
        -- rewrite lookup_insert_ne by done. apply R3.
      * by apply (feedback_ok_same _ _ _ _ _ F).
Qed.

(** The connection test, which has no number. *)
Lemma on_normal_connect p e k c' o :
  local_ok p e -> local_ok e p -> str_find kSeqKey k = None ->
  OnNormalMessage start_ok (BuildChannelKey k 0) [] (chan e) = (c', o) ->
  local_ok p (after e c') /\ evolves e (after e c').
Proof.
  intros L Lp Hk. pose proof (lo_recv _ _ L) as R. pose proof (lo_feedback _ _ L) as F.
  unfold OnNormalMessage, SendAck. rewrite split_build by (done || lia). mrun.
  destruct (waiting_finish_ (chan e)) eqn:Ew; cbn [negb].
  - intros E. injection E as <- <-. by apply quiet_step.
  - destruct (recv_msgs_ (chan e) !! k) as [old|] eqn:Eold; intros E; injection E as <- <-;
      [by apply quiet_step|]. apply quiet_step; try done; [|by apply (feedback_ok_same _ _ _ _ _ F)].
    destruct R as [R1 R2 R3 R4 R5 R6 R7]. split; try done. cbn -[ids_set] in *. intros k' v' j.
    destruct (decide (k' = k)) as [-> | Hne].
    + rewrite lookup_insert_eq. intros E. injection E as <- <-. by left.
    + rewrite lookup_insert_ne by done. apply R3.
Qed.

(** An acknowledgement of a message the peer has settled. *)
Lemma on_ack p e i c' o :
  local_ok p e -> local_ok e p -> i ∈ settled p ->
  OnMessage start_ok kAckKey (to_string i) (chan e) = (c', o) ->
  local_ok p (after e c') /\ evolves e (after e c').
Proof.
  intros L Lp Hi. pose proof (lo_recv _ _ L) as R. pose proof (lo_feedback _ _ L) as [F1 F2 F3].
  pose proof (settled_in_range e p i Lp L Hi) as Hr.
  pose proof (ro_sett _ _ _ _ (lo_recv _ _ Lp) i Hi) as [Hri _].
  pose proof (ids_in_range e p _ _ _ i L (lo_recv _ _ Lp) Hri) as Hr'.
  unfold OnMessage, insert_id, ViewToSizeT. rewrite bool_decide_true, simple_atoi_decimal by done. mrun.
  destruct (ids_insert_spec (received_ack_ids_ (chan e)) i F1 ltac:(lia)) as (t & -> & Wt & St).
  intros E. injection E as <- <-. apply quiet_step; try done.
  - destruct R as [R1 R2 R3 R4 R5 R6 R7]. by split.
  - split; [done| |done]. cbn -[ids_set]. rewrite St.
    intros j [->%elem_of_singleton|Hj]%elem_of_union; [done|by apply F2].
Qed.

(** The final message of a peer that is closing. *)
Lemma on_fin p e c' o :
  local_ok p e -> local_ok e p -> waiting_finish_ (chan p) = true ->
  OnMessage start_ok kFinKey (to_string (vsize (sent p))) (chan e) = (c', o) ->
  local_ok p (after e c') /\ evolves e (after e c').
Proof.
  intros L Lp Hw. pose proof (lo_recv _ _ L) as R. pose proof (lo_feedback _ _ L) as F.
  pose proof F as [F1 F2 F3].
  pose proof (so_bound _ _ _ _ (lo_send _ _ Lp)) as Hb. pose proof (vsize_nonneg (sent p)).
  unfold OnMessage, ViewToSizeT. rewrite (bool_decide_false (kFinKey = kAckKey)) by done.
  rewrite (bool_decide_true (kFinKey = kFinKey)) by done. rewrite simple_atoi_decimal by lia.
  mrun. destruct (received_fin_ (chan e)) eqn:Ef; intros E; injection E as <- <-; [by apply quiet_step|].
  apply quiet_step; try done.
  - destruct R as [R1 R2 R3 R4 R5 R6 R7]. by split.
Qed.

(** *** The requests of an endpoint *)

Lemma no_separator k : Forall (fun x => x <> 1) k -> str_find kSeqKey k = None.
Proof.
  induction 1 as [|x k Hx _ IH]; [done|]. cbn [str_find]. rewrite IH.
  unfold kSeqKey at 1. cbn [prefixb]. by replace (1 =? x) with false by lia.
Qed.

Lemma to_digits_ascii fuel n : 0 <= n -> Forall (fun x => x <> 1) (to_digits fuel n).
Proof.
  revert n. induction fuel as [|fuel IH]; intros n Hn; cbn [to_digits]; [constructor|].
  destruct (Z.ltb_spec n 10); [constructor; [lia|constructor]|]. apply Forall_app. split.
  - apply IH, Z.div_pos; lia.
  - constructor; [|constructor]. pose proof (Z.mod_pos_bound n 10). lia.
Qed.

Lemma connect_key_plain rank : 0 <= rank -> str_find kSeqKey (connect_key rank) = None.
Proof.
  intros Hr. apply no_separator. unfold connect_key. apply Forall_app. split.
  - repeat constructor; lia.
  - by apply to_digits_ascii.
Qed.

(** Acknowledgements and final messages fit into one request. *)
Context (max_chunk_ok : 20 <= c_max).

Lemma SendImpl_small key v r : vsize v <= 20 -> r ∈ SendImpl key v -> r = PackMonoRequest key v.
Proof.
  intros Hv. unfold SendImpl. replace (c_max <? vsize v) with false by lia.
  unfold SendMono. apply list_elem_of_singleton.
Qed.

Lemma SendImpl_cases key v r :
  r ∈ SendImpl key v ->
  r = PackMonoRequest key v \/
  (c_max < vsize v /\ exists j, 0 <= j < chunk_count v c_max /\ r = chunk_request key v j).
Proof.
  unfold SendImpl. destruct (Z.ltb_spec c_max (vsize v)) as [Hlt|Hge].
  - intros Hr. right. split; [done|]. rewrite SendChunked_requests in Hr.
    apply list_elem_of_fmap in Hr as (j & -> & Hj). exists j. split; [|done].
    apply elem_of_seqZ in Hj. lia.
  - unfold SendMono. intros Hr. left. by apply list_elem_of_singleton in Hr.
Qed.

(** What an authorised request can be. *)
Lemma auth_request_cases log sett closing r :
  auth_request log sett closing r ->
  (exists i k v, vget log (i - 1) = Some (k, v) /\ 0 < i < 2 ^ 64 - 1 /\ str_find kSeqKey k = None /\
     vsize v < 2 ^ 63 /\
     (r = PackMonoRequest (BuildChannelKey k i) v \/
      (c_max < vsize v /\ exists j, 0 <= j < chunk_count v c_max /\
         r = chunk_request (BuildChannelKey k i) v j))) \/
  (exists i, i ∈ sett /\ r = PackMonoRequest kAckKey (to_string i)) \/
  (closing = true /\ r = PackMonoRequest kFinKey (to_string (vsize log))) \/
  (exists k, str_find kSeqKey k = None /\ r = PackMonoRequest (BuildChannelKey k 0) []).
Proof.
  intros [(m & [i k v Hl Hi Hk Hv|i Hi|Hc] & Hr)|(rank & Hrank & Hr)]; cbn [msg_key_ value_ ack_message] in *.
  - left. exists i, k, v. apply SendImpl_cases in Hr. repeat (split; [done|]). done.
  - right. left. exists i. split; [done|]. apply SendImpl_small; [apply vsize_to_string|done].
  - right. right. left. split; [done|]. apply SendImpl_small; [apply vsize_to_string|done].
  - right. right. right. exists (connect_key rank). split; [by apply connect_key_plain|].
    apply SendImpl_small; [unfold vsize; simpl; lia|done].
Qed.

Lemma on_message_normal k i v c :
  str_find kSeqKey k = None ->
  OnMessage start_ok (BuildChannelKey k i) v c = OnNormalMessage start_ok (BuildChannelKey k i) v c.
Proof.
  intros Hk. destruct (build_not_reserved k i Hk). unfold OnMessage. by rewrite !bool_decide_false.
Qed.

(** A chunk of a numbered message. *)
Lemma on_chunk p e i k v j c' o :
  local_ok p e -> local_ok e p -> vget (sent p) (i - 1) = Some (k, v) -> 0 < i < 2 ^ 64 - 1 ->
  str_find kSeqKey k = None -> c_max < vsize v < 2 ^ 63 -> 0 <= j < chunk_count v c_max ->
  OnChunkedMessage start_ok (BuildChannelKey k i) (chunk v c_max j) (j * c_max) (vsize v) (chan e) = (c', o) ->
  local_ok p (after e c') /\ evolves e (after e c').
Proof.
  intros L Lp Hlog Hi Hk Hv Hj. set (K := BuildChannelKey k i).
  pose proof (lo_recv _ _ L) as R. pose proof (lo_feedback _ _ L) as F. pose proof R as [R1 R2 R3 R4 R5 R6 R7].
  pose proof (lo_send _ _ L) as [S1 S2 S3 S4 S5 S6].
  assert (He : exists S, entry_ok v S (chunked_values_ (chan e) !! K)).
  { destruct (chunked_values_ (chan e) !! K) as [d|] eqn:Ed; [|by exists ∅].
    destruct (R7 K d Ed) as (i' & k' & v' & EK & Hk' & Hi' & Hl' & _ & S & HS).
    apply build_inj in EK as [-> ->]; try done; try lia. exists S. simpl. by simplify_eq. }
  destruct He as [S He].
  assert (HK : exists i0 k0 v0, K = BuildChannelKey k0 i0 /\ str_find kSeqKey k0 = None /\ 0 < i0 < 2 ^ 64 - 1 /\
    vget (sent p) (i0 - 1) = Some (k0, v0) /\ c_max < vsize v0 < 2 ^ 63 /\ v0 = v) by (by exists i, k, v).
  unfold OnChunkedMessage. mrun.
  destruct (store_chunk K v Hv (chunked_values_ (chan e)) S j He Hj) as [[E _]|(d & E & Hd)];
    unfold OnChunkedRequest, chunk_request in E; rewrite chunk_unpack in E; rewrite E.
  - set (c1 := set_chunked_values_ (delete K (chunked_values_ (chan e))) (chan e)).
    set (e1 := mk_ep c1 (net_out e) (sent e) (consumed e) (settled e)).
    assert (L1 : local_ok p e1).
    { split; cbn [chan net_out sent consumed settled e1].
      - by split.
      - split; try done. intros K' d' E'. cbn in E'. apply lookup_delete_Some in E' as [_ E']. by apply R7.
      - by apply (feedback_ok_same _ _ _ _ _ F). }
    assert (Lp1 : local_ok e1 p).
    { apply (local_ok_peer e); [done|]. split; [done|done|by left]. }
    intros E'. unfold K in E'. rewrite on_message_normal in E' by done.
    destruct (on_normal_numbered p e1 i k v c' o L1 Lp1 Hlog Hi Hk E') as [L2 [V1 V2 V3]].
    split; [done|]. by split.
  - intros E'. injection E' as <- <-. apply quiet_step; try done.
    + split; try done. intros K' d' E'. cbn in E'. destruct (decide (K' = K)) as [-> | Hne].
      * rewrite lookup_insert_eq in E'. injection E' as <-. destruct HK as (i0 & k0 & v0 & A & B & C & D & G & ->).
        exists i0, k0, v. repeat (split; [done|]). by exists ({[j]} ∪ S).
      * rewrite lookup_insert_ne in E' by done. by apply R7.
    + by apply (feedback_ok_same _ _ _ _ _ F).
Qed.

(** A request of the peer, delivered. *)
Lemma deliver_ok p e r c' o :
  local_ok p e -> local_ok e p -> r ∈ net_out p -> OnRequest start_ok r (chan e) = (c', o) ->
  local_ok p (after e c') /\ evolves e (after e c').
Proof.
  intros L Lp Hr. pose proof (so_net _ _ _ _ (lo_send _ _ Lp)) as Hn. rewrite Forall_forall in Hn.
  specialize (Hn r Hr). apply auth_request_cases in Hn. unfold OnRequest. mrun.
  destruct (aborting_ (chan e)).
  { intros E. injection E as <- <-. apply quiet_step; try done; [apply L|apply L]. }
  destruct Hn as [(i & k & v & Hlog & Hi & Hk & Hv & [-> | (Hlong & j & Hj & ->)])|[(i & Hi & ->)|[[Hc ->]|(k & Hk & ->)]]].
  - rewrite mono_is_mono, mono_unpack. rewrite on_message_normal by done.
    destruct (OnNormalMessage start_ok _ _ (chan e)) as [c1 o1] eqn:E1. intros E.
    assert (c' = c1) as -> by (by destruct o1; injection E). by eapply on_normal_numbered.
  - unfold chunk_request. destruct (chunk_is_chunk (Request := Request) (BuildChannelKey k i) (chunk v c_max j)
      (j * c_max) (vsize v)) as [-> ->]. rewrite chunk_unpack.
    destruct (OnChunkedMessage start_ok _ _ _ _ (chan e)) as [c1 o1] eqn:E1. intros E.
    assert (c' = c1) as -> by (by destruct o1; injection E). by eapply on_chunk.
  - rewrite mono_is_mono, mono_unpack. destruct (OnMessage start_ok _ _ (chan e)) as [c1 o1] eqn:E1. intros E.
    assert (c' = c1) as -> by (by destruct o1; injection E). by eapply on_ack.
  - rewrite mono_is_mono, mono_unpack. destruct (OnMessage start_ok _ _ (chan e)) as [c1 o1] eqn:E1. intros E.
    assert (c' = c1) as -> by (by destruct o1; injection E). by eapply on_fin.
  - rewrite mono_is_mono, mono_unpack. rewrite on_message_normal by done.
    destruct (OnNormalMessage start_ok _ _ (chan e)) as [c1 o1] eqn:E1. intros E.
    assert (c' = c1) as -> by (by destruct o1; injection E). by eapply on_normal_connect.
Qed.

(** *** The other steps *)

Lemma recv_ok_delete log cons sett c k :
  recv_ok log cons sett c -> recv_ok log cons sett (set_recv_msgs_ (delete k (recv_msgs_ c)) c).
Proof.
  intros [R1 R2 R3 R4 R5 R6 R7]. split; try done. intros k' v i E. cbn in E.
  apply lookup_delete_Some in E as [_ E]. by apply R3.
Qed.

(** Taking message [i] out of the database. *)
Lemma recv_ok_consume log cons sett c k v i :
  recv_ok log cons sett c -> recv_msgs_ c !! k = Some (v, i) -> 0 < i ->
  recv_ok log (cons ++ [(i, k, v)]) sett (set_recv_msgs_ (delete k (recv_msgs_ c)) c).
Proof.
  intros R E Hi. destruct (ro_msgs _ _ _ _ R k v i E) as [-> | (_ & Hlog & Hr & Hn)]; [lia|].
  assert (Ec : consumed_ids (cons ++ [(i, k, v)]) = consumed_ids cons ++ [i]).
  { unfold consumed_ids. by rewrite fmap_app. }
  destruct R as [R1 R2 R3 R4 R5 R6 R7]. split; try done; rewrite ?Ec.
  - intros k' v' i' E'. cbn in E'. apply lookup_delete_Some in E' as [Hne E'].
    destruct (R3 k' v' i' E') as [-> | (A & B & C & D)]; [by left|right]. repeat (split; [done|]).
    intros [Hc|Hc%list_elem_of_singleton]%elem_of_app; [done|]. subst i'. rewrite B in Hlog. congruence.
  - intros j Hj. destruct (R4 j Hj) as [A [B|B]]; (split; [done|]); [left; apply elem_of_app; by left|by right].
  - intros j k' v' [Hj|Hj%list_elem_of_singleton]%elem_of_app; [by apply R5|]. by injection Hj as -> -> ->.
  - apply NoDup_app. split; [done|]. split; [|apply NoDup_singleton].
    intros x Hx Hx'%list_elem_of_singleton. by subst x.
Qed.

Lemma recv_step_ok p e k c' o :
  local_ok p e -> local_ok e p -> Recv start_ok k (chan e) = (c', o) ->
  local_ok p (after_recv e c' k o) /\ evolves e (after_recv e c' k o).
Proof.
  intros L Lp. pose proof (lo_recv _ _ L) as R. pose proof (lo_feedback _ _ L) as F.
  assert (Hq : forall o1 : outcome bytes, (forall v, o1 <> Ret v) ->
    local_ok p (after_recv e (chan e) k o1) /\ evolves e (after_recv e (chan e) k o1)).
  { intros o1 Ho. replace (after_recv e (chan e) k o1) with (after e (chan e)); [by apply quiet_step|].
    unfold after_recv, after. destruct o1; [by destruct (Ho a)|done|done|done]. }
  unfold Recv. mrun. destruct (aborting_ (chan e)); [intros E; injection E as <- <-; by apply Hq|].
  destruct (NormalMessageKeyEnforce k); [|intros E; injection E as <- <-; by apply Hq].
  destruct (recv_msgs_ (chan e) !! k) as [[v i]|] eqn:Em; [|intros E; injection E as <- <-; by apply Hq].
  set (c1 := set_recv_msgs_ (delete k (recv_msgs_ (chan e))) (chan e)).
  destruct (SendAck start_ok i c1) as [c2 o2] eqn:E2. intros E.
  assert (c' = c2) as -> by (by destruct o2; injection E).
  apply send_ack_effect in E2 as (Fr & Q & K).
  assert (Hcons : after_recv e c2 k o = mk_ep c2 (net_out e) (sent e)
    (match o2 with Ret _ => if 0 <? i then consumed e ++ [(i, k, v)] else consumed e | _ => consumed e end)
    (ack_ids (tasks_ c2) ∪ settled e)).
  { unfold after_recv. rewrite Em. destruct o2; injection E as <-; done. }
  rewrite Hcons. pose proof (feedback_ok_same _ _ _ _ c1 F eq_refl eq_refl eq_refl) as F1.
  destruct K as [(Hi & K & ->)|[K Ho]].
  - replace (0 <? i) with true by lia. apply (acks_step p e c2 _ [i]); try done.
    + by rewrite (frame_seq _ _ Fr).
    + by rewrite (frame_disable _ _ Fr).
    + intros Hw. by rewrite (frame_waiting _ _ Fr).
    + intros j ->%list_elem_of_singleton. rewrite (frame_ids _ _ Fr). split.
      * by destruct (ro_msgs _ _ _ _ R k v i Em) as [-> | (_ & _ & Hr & _)]; [lia|].
      * left. unfold consumed_ids. rewrite fmap_app. apply elem_of_app. right. by constructor.
    + apply (recv_ok_frame _ _ _ c1); [by apply recv_ok_consume|done].
    + by apply (feedback_ok_frame _ _ _ c1).
  - replace (match o2 with Ret _ => if 0 <? i then consumed e ++ [(i, k, v)] else consumed e | _ => consumed e end)
      with (consumed e).
    2:{ destruct o2 as [[]| | |]; [|done|done|done]. by replace (0 <? i) with false by (specialize (Ho eq_refl); lia). }
    apply (acks_step p e c2 _ []); try done.
    + by rewrite (frame_seq _ _ Fr).
    + by rewrite (frame_disable _ _ Fr).
    + intros Hw. by rewrite (frame_waiting _ _ Fr).
    + by rewrite K, app_nil_r.
    + intros j Hj. by apply elem_of_nil in Hj.
    + apply (recv_ok_frame _ _ _ c1); [by apply recv_ok_delete|done].
    + by apply (feedback_ok_frame _ _ _ c1).
Qed.

Lemma stop_step_ok p e c' o :
  local_ok p e -> local_ok e p -> StopReceivingAndAckUnreadMsgs start_ok (chan e) = (c', o) ->
  local_ok p (after e c') /\ evolves e (after e c').
Proof.
  intros L Lp. pose proof (lo_recv _ _ L) as R. pose proof (lo_feedback _ _ L) as F.
  unfold StopReceivingAndAckUnreadMsgs. mrun.
  set (c1 := set_waiting_finish_ true (chan e)).
  destruct (ack_all start_ok (map_to_list (recv_msgs_ (chan e))) c1) as [c2 o2] eqn:E2. intros E.
  apply ack_all_effect in E2 as (Fr & Q & l & K & Hl).
  assert (R1 : recv_ok (sent p) (consumed e) (settled e) c1).
  { destruct R as [R1 R2 R3 R4 R5 R6 R7]. split; try done. intros j Hj. destruct (R4 j Hj). split; [done|by right]. }
  assert (F1 : feedback_ok (sent p) (settled p) (waiting_finish_ (chan p)) c1) by (by apply (feedback_ok_same _ _ _ _ _ F)).
  assert (Hc : c' = c2 \/ c' = set_recv_msgs_ ∅ c2) by (destruct o2; injection E; auto).
  assert (R2 : recv_ok (sent p) (consumed e) (settled e) c').
  { pose proof (recv_ok_frame _ _ _ _ _ R1 Fr) as R2. destruct Hc as [-> | ->]; [done|].
    destruct R2 as [A1 A2 A3 A4 A5 A6 A7]. split; try done. }
  assert (F2 : feedback_ok (sent p) (settled p) (waiting_finish_ (chan p)) c').
  { pose proof (feedback_ok_frame _ _ _ _ _ F1 Fr) as F2. destruct Hc as [-> | ->]; [done|].
    by apply (feedback_ok_same _ _ _ _ _ F2). }
  assert (Heq : msg_seq_id_ c' = msg_seq_id_ c2 /\ disable_msg_seq_id_ c' = disable_msg_seq_id_ c2 /\
    waiting_finish_ c' = waiting_finish_ c2 /\ send_msgs_ c' = send_msgs_ c2 /\ tasks_ c' = tasks_ c2 /\
    received_msg_ids_ c' = received_msg_ids_ c2) by (by destruct Hc as [-> | ->]).
  destruct Heq as (H1' & H2' & H3' & H4' & H5' & H6').
  apply (acks_step p e c' (consumed e) l); try done.
  - by rewrite H1', (frame_seq _ _ Fr).
  - by rewrite H2', (frame_disable _ _ Fr).
  - intros _. by rewrite H3', (frame_waiting _ _ Fr).
  - by rewrite H4', Q.
  - by rewrite H5', K.
  - rewrite Forall_forall in Hl. intros j Hj. destruct (Hl j Hj) as (Hj0 & k & v & Hin).
    apply elem_of_map_to_list in Hin. split.
    + rewrite H6', (frame_ids _ _ Fr). by destruct (ro_msgs _ _ _ _ R k v j Hin) as [-> | (_ & _ & Hr & _)]; [lia|].
    + right. by rewrite H3', (frame_waiting _ _ Fr).
Qed.

Lemma fin_step_ok p e c' o :
  local_ok p e -> local_ok e p -> waiting_finish_ (chan e) = true -> SubmitFin start_ok (chan e) = (c', o) ->
  local_ok p (after e c') /\ evolves e (after e c').
Proof.
  intros L Lp Hw. pose proof (lo_send _ _ L) as S. unfold SubmitFin. mrun. intros E.
  apply submit_effect in E as (Fr & Q & K). rewrite (so_seq _ _ _ _ S) in K.
  pose proof (recv_ok_frame _ _ _ _ _ (lo_recv _ _ L) Fr) as R.
  assert (Hn : forall m, m ∈ tasks_ c' -> new_task e c' m).
  { intros m Hm. destruct K as [[K _]|[K _]]; rewrite K in Hm; [|by left].
    apply elem_of_app in Hm as [Hm|Hm%list_elem_of_singleton]; [by left|].
    right. right. right. split; [done|]. by rewrite (frame_waiting _ _ Fr). }
  apply step_rule; try done.
  - by rewrite (frame_seq _ _ Fr).
  - by rewrite (frame_disable _ _ Fr).
  - intros _. by rewrite (frame_waiting _ _ Fr).
  - by rewrite Q.
  - apply (settle_ok p e c' _ L Lp R Hn). intros i Hi Hr. right. right. by rewrite (frame_waiting _ _ Fr).
  - by apply (feedback_ok_frame _ _ _ _ _ (lo_feedback _ _ L)).
Qed.

(** The flags that stop the send thread are not part of the invariant. *)
Lemma flags_step p e c' :
  local_ok p e -> local_ok e p ->
  recv_msgs_ c' = recv_msgs_ (chan e) -> received_msg_ids_ c' = received_msg_ids_ (chan e) ->
  received_ack_ids_ c' = received_ack_ids_ (chan e) -> received_fin_ c' = received_fin_ (chan e) ->
  peer_sent_msg_count_ c' = peer_sent_msg_count_ (chan e) ->
  waiting_finish_ c' = waiting_finish_ (chan e) -> chunked_values_ c' = chunked_values_ (chan e) ->
  msg_seq_id_ c' = msg_seq_id_ (chan e) -> disable_msg_seq_id_ c' = disable_msg_seq_id_ (chan e) ->
  send_msgs_ c' = send_msgs_ (chan e) -> tasks_ c' = tasks_ (chan e) ->
  local_ok p (after e c') /\ evolves e (after e c').
Proof.
  intros L Lp E1 E2 E3 E4 E5 E6 E7 E8 E9 E10 E11. apply quiet_step; try done.
  - destruct (lo_recv _ _ L) as [R1 R2 R3 R4 R5 R6 R7].
    split; rewrite ?E1, ?E2, ?E6, ?E7; assumption.
  - by apply (feedback_ok_same _ _ _ _ _ (lo_feedback _ _ L)).
Qed.

(** Queuing a message. *)
Lemma send_step_ok p e kind k v c' o :
  local_ok p e -> run_send kind k v (chan e) = (c', o) -> vsize v < 2 ^ 63 ->
  vsize (sent e) < 2 ^ 64 - 2 ->
  local_ok p (after_send e c' k v) /\ evolves e (after_send e c' k v).
Proof.
  intros [[S1 S2 S3 S4 S5 S6] R F] E Hv Hb. unfold after_send.
  apply send_effect in E as [[-> _]|(-> & _ & Hw & Hk)]; [| |done].
  { rewrite Z.eqb_refl. split; [by split|]. split; [done|done|by left]. }
  apply NormalMessageKeyEnforce_spec in Hk as [_ Hk]. pose proof (vsize_nonneg (sent e)).
  assert (En : (msg_seq_id_ (chan e) + 1) mod 2 ^ 64 = vsize (sent e) + 1).
  { rewrite S1. apply Z.mod_small. lia. }
  replace (msg_seq_id_ (queued k v (chan e)) =? msg_seq_id_ (chan e)) with false.
  2:{ symmetry. apply Z.eqb_neq. unfold queued. cbn -[Z.modulo Z.pow]. rewrite En, S1. lia. }
  assert (Es : vsize (sent e ++ [(k, v)]) = vsize (sent e) + 1) by (rewrite vsize_app; done).
  split; [|split; [done|done|right; split; [done|by exists (k, v)]]].
  split; [|by destruct R as [R1 R2 R3 R4 R5 R6 R7]; split|by apply (feedback_ok_same _ _ _ _ _ F)].
  rewrite Hw in S4, S5, S6.
  split; unfold queued; cbn -[Z.modulo Z.pow auth_request]; rewrite ?Hw, ?En; try done; try lia.
  - apply Forall_app. split.
    + eapply Forall_impl; [exact S4|]. intros m. apply authorised_log.
    + constructor; [|constructor]. apply auth_normal; [|lia|done|done].
      replace (vsize (sent e) + 1 - 1) with (vsize (sent e)) by lia. unfold vget, vsize.
      replace (0 <=? Z.of_nat (length (sent e))) with true by lia. rewrite Nat2Z.id.
      by apply list_lookup_middle.
  - eapply Forall_impl; [exact S5|]. intros m. apply authorised_log.
  - eapply Forall_impl; [exact S6|]. intros r. apply auth_request_log.
Qed.

Lemma with_net_ok p e r :
  local_ok p e -> auth_request (sent e) (settled e) (waiting_finish_ (chan e)) r ->
  local_ok p (with_net e r) /\ evolves e (with_net e r).
Proof.
  intros [[S1 S2 S3 S4 S5 S6] R F] Hr. split; [|split; [done|done|by left]].
  split; [|done|done]. split; try done. apply Forall_app. split; [done|]. apply Forall_singleton. done.
Qed.

(** Every step of an endpoint keeps its invariant. *)
Lemma estep_ok p e e' : local_ok p e -> local_ok e p -> estep p e e' -> local_ok p e' /\ evolves e e'.
Proof.
  intros L Lp [kind k v c' o E Hv Hb|c' o E|i m r Em Hr|i c' o E|rank c' rs r Hk E Hr|r c' o Hr E|k c' o E
    |c' o E|c' o Hw E|c' o E|c' o E].
  - by eapply send_step_ok.
  - apply send_thread_effect in E as (F & E). apply frame_step; try done.
    + destruct E as [[E _]|(m & rest & E1 & E2 & _)]; [by rewrite E|]. intros x Hx. rewrite E1.
      constructor. by rewrite <- E2.
    + intros x Hx. destruct E as [[_ E]|(m & rest & E1 & E2 & [E3|E3])]; [left; by rewrite <- E| |left; by rewrite <- E3].
      rewrite E3 in Hx. apply elem_of_app in Hx as [Hx|Hx%list_elem_of_singleton]; [by left|].
      right. rewrite E1, Hx. constructor.
  - apply with_net_ok; [done|]. left. exists m. split; [|done].
    pose proof (so_tasks _ _ _ _ (lo_send _ _ L)) as Ht. rewrite Forall_forall in Ht.
    apply Ht. by eapply list_elem_of_lookup_2.
  - apply finish_task_effect in E as (F & Q & Ht). apply frame_step; try done; [by rewrite Q|]. auto.
  - apply with_net_ok; [done|]. right. exists rank. split; [done|]. revert E. unfold TestSend. mrun.
    destruct (aborting_ (chan e)); [done|]. destruct (waiting_finish_ (chan e)); [done|].
    intros E. by injection E as _ <-.
  - by eapply deliver_ok.
  - by eapply recv_step_ok.
  - by eapply stop_step_ok.
  - by eapply fin_step_ok.
  - assert (c' = set_queue_stopped_ true (set_send_thread_stopped_ true (chan e))) as ->.
    { revert E. unfold WaitAsyncSendToFinish, join_send_thread, EmptyNotify, WaitAllSendFinished. mrun.
      destruct (aborting_ (chan e)), (send_msgs_ (chan e));
        try destruct (0 <? running_tasks_ _); congruence. }
    by apply flags_step.
  - assert (c' = set_queue_stopped_ true (set_send_thread_stopped_ true
      (set_task_aborting_ true (set_aborting_ true (chan e))))) as ->.
    { revert E. unfold Abort, join_send_thread, EmptyNotify. mrun. congruence. }
    by apply flags_step.
Qed.

Lemma new_endpoint_ok w w' : local_ok (new_endpoint w') (new_endpoint w).
Proof.
  destruct ids_empty_spec as [We Ee]. split; split; cbn -[ids_set ids_empty]; try done;
    rewrite ?Ee; try (intros i Hi; by apply elem_of_empty in Hi).
  - intros i k v Hi. by apply elem_of_nil in Hi.
  - constructor.
Qed.

Lemma sys_step_ok s s' : invariant s -> sys_step s s' -> invariant s'.
Proof.
  intros Hi Hs. destruct Hs as [a a' b E|a b b' E]; destruct Hi as [L1 L2]; cbn [fst snd] in *.
  - destruct (estep_ok b a a' L1 L2 E) as [L1' V]. split; [done|]. by apply (local_ok_peer a).
  - destruct (estep_ok a b b' L2 L1 E) as [L2' V]. split; [|done]. by apply (local_ok_peer b).
Qed.

Lemma reachable_ok w1 w2 s : reachable (initial w1 w2) s -> invariant s.
Proof.
  induction 1 as [|s s' _ IH Hs]; [split; apply new_endpoint_ok|]. by eapply sys_step_ok.
Qed.
End System.
