(* ===== verification/Retry.v ===== *)
(** Retries and the window of parallel chunks (src/yacl/link/retry_options.h;
    [SendRequestWithRetry], [SendChunkedWindow] and the loop of [SendChunked] in
    src/yacl/link/transport/channel.cc).

    The delegate's [SendRequest] is outside the model: its answer to each
    attempt is an oracle, as is whether the channel is found aborting. *)

From Stdlib Require Import ZArith Lia ZifyBool Bool.
From stdpp Require Import base numbers list option gmap sets.
From S2P Require Import Prelude.

Local Open Scope Z_scope.

(** *** Retry options *)

Record RetryOptions := mk_retry {
  max_retry : Z;
  retry_interval_ms : Z;
  retry_interval_incr_ms : Z;
  max_retry_interval_ms : Z;
  error_codes : gset Z;
  http_codes : gset Z;
  aggressive_retry : bool
}.

Definition kDefaultMaxRetryCount : Z := 3.
Definition kDefaultRetryInterval : Z := 1000.
Definition kDefaultRetryIncrement : Z := 2000.
Definition kDefaultMaxRetryInterval : Z := 10000.

Definition default_options : RetryOptions :=
  mk_retry kDefaultMaxRetryCount kDefaultRetryInterval kDefaultRetryIncrement
    kDefaultMaxRetryInterval ∅ ∅ true.

(** The fields of [RetryOptionsProto]. *)
Record RetryOptionsProto := mk_proto {
  pb_max_retry : Z;
  pb_retry_interval_ms : Z;
  pb_retry_interval_incr_ms : Z;
  pb_max_retry_interval_ms : Z;
  pb_error_codes : list Z;
  pb_http_codes : list Z;
  pb_aggressive_retry : bool
}.

(** The constructor from a proto, as written: the increment is taken from
    [retry_interval_ms]. *)
Definition options_of_proto (pb : RetryOptionsProto) : RetryOptions :=
  mk_retry
    (if negb (pb_max_retry pb =? 0) then pb_max_retry pb else kDefaultMaxRetryCount)
    (if negb (pb_retry_interval_ms pb =? 0) then pb_retry_interval_ms pb else kDefaultRetryInterval)
    (if negb (pb_retry_interval_incr_ms pb =? 0) then pb_retry_interval_ms pb
     else kDefaultRetryIncrement)
    (if negb (pb_max_retry_interval_ms pb =? 0) then pb_max_retry_interval_ms pb
     else kDefaultMaxRetryInterval)
    (list_to_set (pb_error_codes pb)) (list_to_set (pb_http_codes pb))
    (pb_aggressive_retry pb).

(** A proto that sets an increment different from the interval does not get
    it. *)
Theorem proto_increment_ignored pb :
  pb_retry_interval_incr_ms pb <> 0 ->
  pb_retry_interval_incr_ms pb <> pb_retry_interval_ms pb ->
  retry_interval_incr_ms (options_of_proto pb) <> pb_retry_interval_incr_ms pb.
Proof.
  intros H1 H2. cbn. destruct (Z.eqb_spec (pb_retry_interval_incr_ms pb) 0); [done|]. simpl. congruence.
Qed.

(** *** The retry loop *)

Inductive attempt := Success | LinkError (code http_code : Z) | OtherError.

Inductive send_result := Sent | SendAborted | SendFailed (code http_code : Z) | SendThrew | OutOfFuel.

Definition uint32_of (x : Z) : Z := x mod 2 ^ 32.

Definition should_retry (o : RetryOptions) (code http_code : Z) : bool :=
  if aggressive_retry o then true
  else if bool_decide (error_codes o = ∅) || bool_decide (uint32_of code ∈ error_codes o) then true
  else negb (http_code =? 0) &&
       (bool_decide (http_codes o = ∅) || bool_decide (uint32_of http_code ∈ http_codes o)).

(** The sum is computed in 32 bits. *)
Definition interval_ms (o : RetryOptions) (retry_count : Z) : Z :=
  Z.min (uint32_of (retry_interval_ms o + retry_count * retry_interval_incr_ms o))
        (max_retry_interval_ms o).

Section Loop.
Context (o : RetryOptions) (aborting : Z -> bool) (send_request : Z -> attempt).

(** The loop at retry [retry_count]: the intervals slept and how it ends. Attempt
    [n] is made at retry count [n]. *)
Fixpoint retry_loop (fuel : nat) (retry_count : Z) : list Z * send_result :=
  match fuel with
  | O => ([], OutOfFuel)
  | S fuel' =>
      if aborting retry_count then ([], SendAborted) else
      match send_request retry_count with
      | Success => ([], Sent)
      | OtherError => ([], SendThrew)
      | LinkError code http_code =>
          if negb (should_retry o code http_code) then ([], SendFailed code http_code) else
          if max_retry o <=? retry_count then ([], SendFailed code http_code) else
          let '(sleeps, r) := retry_loop fuel' (retry_count + 1) in
          (interval_ms o retry_count :: sleeps, r)
      end
  end.

(** The fuel is one attempt more than the retries. *)
Definition SendRequestWithRetry : list Z * send_result :=
  retry_loop (Z.to_nat (max_retry o) + 1) 0.

(** Attempt [n] fails and is worth another one. *)
Definition retried (n : Z) : Prop :=
  aborting n = false /\ exists code http, send_request n = LinkError code http /\
    should_retry o code http = true.

Lemma retry_loop_prefix k n fuel :
  0 <= n -> (forall j, n <= j < n + Z.of_nat k -> retried j) -> n + Z.of_nat k <= max_retry o ->
  (k <= fuel)%nat ->
  retry_loop fuel n
  = let '(sleeps, r) := retry_loop (fuel - k) (n + Z.of_nat k) in
    ((interval_ms o <$> seqZ n (Z.of_nat k)) ++ sleeps, r).
Proof.
  revert n fuel. induction k as [|k IH]; intros n fuel Hn Hr Hm Hf.
  - rewrite Z.add_0_r, Nat.sub_0_r. by destruct (retry_loop fuel n).
  - destruct fuel as [|fuel]; [lia|]. destruct (Hr n ltac:(lia)) as (Ha & code & http & Hs & Hsh).
    cbn [retry_loop]. rewrite Ha, Hs, Hsh. cbn [negb]. replace (max_retry o <=? n) with false by lia.
    rewrite (IH (n + 1) fuel); [|lia|intros j Hj; apply Hr; lia|lia|lia].
    replace (n + 1 + Z.of_nat k) with (n + Z.of_nat (S k)) by lia.
    replace (S fuel - S k)%nat with (fuel - k)%nat by lia.
    destruct (retry_loop (fuel - k) (n + Z.of_nat (S k))) as [sleeps r].
    rewrite (seqZ_cons n) by lia. replace (Z.pred (Z.of_nat (S k))) with (Z.of_nat k) by lia. done.
Qed.

Lemma retry_loop_bounds fuel n sleeps r :
  0 <= n <= max_retry o -> max_retry o - n < Z.of_nat fuel -> retry_loop fuel n = (sleeps, r) ->
  r <> OutOfFuel /\ Z.of_nat (length sleeps) <= max_retry o - n /\
  Forall (fun ms => ms <= max_retry_interval_ms o) sleeps.
Proof.
  revert n sleeps r. induction fuel as [|fuel IH]; intros n sleeps r Hn Hf; [lia|]. cbn [retry_loop].
  assert (Hnil : forall r', r' <> OutOfFuel -> ([], r') = (sleeps, r) -> r <> OutOfFuel /\
    Z.of_nat (length sleeps) <= max_retry o - n /\ Forall (fun ms => ms <= max_retry_interval_ms o) sleeps).
  { intros r' Hr' E. injection E as <- <-. split; [done|]. split; [simpl; lia|constructor]. }
  destruct (aborting n); [by apply Hnil|]. destruct (send_request n) as [|code http|]; try by apply Hnil.
  destruct (negb (should_retry o code http)); [by apply Hnil|].
  destruct (Z.leb_spec (max_retry o) n); [by apply Hnil|].
  destruct (retry_loop fuel (n + 1)) as [sl r'] eqn:E. intros E'. injection E' as <- <-.
  destruct (IH (n + 1) sl r') as (I1 & I2 & I3); [lia|lia|done|].
  split; [done|]. split; [simpl; lia|]. constructor; [unfold interval_ms; lia|done].
Qed.

(** C36: the retry loop ends after at most [max_retry + 1] attempts, sleeps no
    longer than the configured maximum before each retry, and delivers a request
    that succeeds at attempt [n <= max_retry] after [n] failures worth retrying,
    with the configured intervals in between. *)
Theorem send_request_with_retry_spec :
  0 <= max_retry o ->
  snd SendRequestWithRetry <> OutOfFuel /\
  Z.of_nat (length (fst SendRequestWithRetry)) <= max_retry o /\
  Forall (fun ms => ms <= max_retry_interval_ms o) (fst SendRequestWithRetry) /\
  forall n, 0 <= n <= max_retry o -> (forall j, 0 <= j < n -> retried j) -> aborting n = false ->
    send_request n = Success ->
    SendRequestWithRetry = (interval_ms o <$> seqZ 0 n, Sent).
Proof.
  intros Hm. unfold SendRequestWithRetry.
  destruct (retry_loop (Z.to_nat (max_retry o) + 1) 0) as [sleeps r] eqn:E.
  destruct (retry_loop_bounds (Z.to_nat (max_retry o) + 1) 0 sleeps r) as (I1 & I2 & I3); [lia|lia|done|].
  cbn [fst snd]. split; [done|]. split; [lia|]. split; [done|]. intros n Hn Hr Ha Hs.
  rewrite <- E, (retry_loop_prefix (Z.to_nat n) 0) by (try (intros j Hj; apply Hr); lia).
  rewrite Z.add_0_l, Z2Nat.id by lia.
  destruct (Z.to_nat (max_retry o) + 1 - Z.to_nat n)%nat as [|fuel] eqn:Ef; [lia|].
  cbn [retry_loop]. rewrite Ha, Hs. by rewrite app_nil_r.
Qed.
End Loop.

Lemma send_request_with_retry_witness :
  let env n := if n <? 2 then LinkError 1008 0 else Success in
  SendRequestWithRetry default_options (fun _ => false) env = ([1000; 3000], Sent).
Proof.
  apply (send_request_with_retry_spec default_options (fun _ => false)
    (fun n => if n <? 2 then LinkError 1008 0 else Success)) with (n := 2);
    [by vm_compute|by vm_compute| |reflexivity|reflexivity].
  intros j Hj. split; [done|]. exists 1008, 0. by replace (j <? 2) with true by lia.
Defined.

(** *** The window of parallel chunks *)

(** Where [SendChunked] stands: about to take the token of chunk [i], blocked in
    [GetToken] for it, blocked in [Finished], returned, or thrown. *)
Inductive main_pc := Issue (i : nat) | InGetToken (i : nat) | InFinished | Returned | Thrown.

(** [running_push_] and [async_exception_] of [SendChunkedWindow], the chunks
    whose task is alive, and those whose push ended well or badly. *)
Record window := mk_window {
  pc : main_pc;
  running_push_ : Z;
  async_exception_ : bool;
  alive : list nat;
  ended_ok : list nat;
  ended_bad : list nat
}.

Section Window.
Context (parallel_limit_ : Z) (num_chunks : nat).

(** [GetToken] at its end: the task of the chunk starts. *)
Definition start_task (i : nat) (w : window) : window :=
  mk_window (Issue (S i)) (running_push_ w) (async_exception_ w) (i :: alive w) (ended_ok w) (ended_bad w).

Definition goto (p : main_pc) (w : window) : window :=
  mk_window p (running_push_ w) (async_exception_ w) (alive w) (ended_ok w) (ended_bad w).

(** The condition of the loop in [GetToken]. *)
Definition token_loop (i : nat) (w : window) : window :=
  if parallel_limit_ <? running_push_ w then goto (InGetToken i) w else start_task i w.

(** [GetToken] up to its first wait. *)
Definition GetToken_enter (i : nat) (w : window) : window :=
  token_loop i (mk_window (pc w) (running_push_ w + 1) (async_exception_ w) (alive w)
                  (ended_ok w) (ended_bad w)).

(** After a wake-up. *)
Definition GetToken_wake (i : nat) (w : window) : window :=
  if async_exception_ w then goto Thrown w else token_loop i w.

Definition finished_loop (w : window) : window :=
  if running_push_ w =? 0 then goto Returned w else goto InFinished w.

Definition Finished_enter (w : window) : window := finished_loop w.

Definition Finished_wake (w : window) : window :=
  if async_exception_ w then goto Thrown w else finished_loop w.

(** [OnPushDone] of the token of chunk [i]. *)
Definition OnPushDone (i : nat) (ok : bool) (w : window) : window :=
  mk_window (pc w) (running_push_ w - 1) (async_exception_ w || negb ok)
    (filter (fun j => j <> i) (alive w))
    (if ok then i :: ended_ok w else ended_ok w) (if ok then ended_bad w else i :: ended_bad w).

Inductive wstep (w : window) : window -> Prop :=
  | w_issue i : pc w = Issue i -> (i < num_chunks)%nat -> wstep w (GetToken_enter i w)
  | w_token i : pc w = InGetToken i -> wstep w (GetToken_wake i w)
  | w_finish : pc w = Issue num_chunks -> wstep w (Finished_enter w)
  | w_finish_wake : pc w = InFinished -> wstep w (Finished_wake w)
  | w_done i ok : i ∈ alive w -> wstep w (OnPushDone i ok w).

Definition window_start : window := mk_window (Issue 0) 0 false [] [] [].

Inductive wreachable : window -> Prop :=
  | wreach_start : wreachable window_start
  | wreach_step w w' : wreachable w -> wstep w w' -> wreachable w'.

(** How many chunks have got their token, and whether one more is counted. *)
Definition issued (p : main_pc) (w : window) : nat :=
  match p with
  | Issue i | InGetToken i => i
  | InFinished | Returned => num_chunks
  | Thrown => length (alive w) + length (ended_ok w) + length (ended_bad w)
  end.

Definition waiting_for_token (p : main_pc) : Z := match p with InGetToken _ => 1 | _ => 0 end.

Record window_ok (w : window) : Prop := {
  wo_running : pc w <> Thrown -> running_push_ w = Z.of_nat (length (alive w)) + waiting_for_token (pc w);
  wo_limit : Z.of_nat (length (alive w)) <= parallel_limit_;
  wo_nodup : NoDup (alive w ++ ended_ok w ++ ended_bad w);
  wo_chunks : pc w <> Thrown -> forall j, j ∈ alive w ++ ended_ok w ++ ended_bad w <-> (j < issued (pc w) w)%nat;
  wo_exception : async_exception_ w = true <-> ended_bad w <> [];
  wo_pc : match pc w with Issue i => (i <= num_chunks)%nat | InGetToken i => (i < num_chunks)%nat
          | Returned => running_push_ w = 0 | _ => True end
}.

Lemma remove_one (l : list nat) i :
  NoDup l -> i ∈ l -> i :: filter (fun j => j <> i) l ≡ₚ l.
Proof.
  intros Hd Hi. apply NoDup_Permutation; [|done|].
  - constructor; [|by apply NoDup_filter]. by intros [Hne _]%list_elem_of_filter.
  - intros x. rewrite elem_of_cons, list_elem_of_filter. destruct (decide (x = i)) as [-> | Hne]; [tauto|].
    split; [by intros [?|[_ ?]]|by right].
Qed.

Hypothesis limit_positive : 0 < parallel_limit_.

(** A push that ends moves its chunk, the window keeps its books. *)
Lemma push_done_ok i ok w : window_ok w -> i ∈ alive w -> window_ok (OnPushDone i ok w).
Proof.
  intros [W1 W2 W3 W4 W5 W6] Hi. pose proof W3 as Hd. apply NoDup_app in Hd as (Ha & _ & _).
  pose proof (remove_one (alive w) i Ha Hi) as Hp.
  assert (Hlen : Z.of_nat (length (filter (fun j => j <> i) (alive w))) = Z.of_nat (length (alive w)) - 1).
  { apply Permutation_length in Hp. simpl in Hp. lia. }
  assert (Hall : alive (OnPushDone i ok w) ++ ended_ok (OnPushDone i ok w) ++ ended_bad (OnPushDone i ok w)
                 ≡ₚ alive w ++ ended_ok w ++ ended_bad w).
  { transitivity ((i :: filter (fun j => j <> i) (alive w)) ++ ended_ok w ++ ended_bad w); [|by rewrite Hp].
    cbn [alive ended_ok ended_bad OnPushDone]. destruct ok; symmetry.
    - apply Permutation_middle.
    - rewrite (app_assoc (filter _ _)), (app_assoc (i :: _)). apply Permutation_middle. }
  split; cbn [pc OnPushDone running_push_ async_exception_].
  - intros Ht. change (alive (OnPushDone i ok w)) with (filter (fun j => j <> i) (alive w)).
    rewrite W1 by done. lia.
  - change (alive (OnPushDone i ok w)) with (filter (fun j => j <> i) (alive w)). lia.
  - by rewrite Hall.
  - intros Ht j. rewrite Hall, W4 by done. by destruct (pc w).
  - cbn. destruct ok; cbn [negb].
    + by rewrite orb_false_r.
    + rewrite orb_true_r. done.
  - destruct (pc w) as [| | | |] eqn:E; try done. exfalso.
    specialize (W1 ltac:(done)). simpl in W1. destruct (alive w); [by apply elem_of_nil in Hi|].
    simpl in W1. lia.
Qed.

Lemma token_loop_ok i w :
  running_push_ w = Z.of_nat (length (alive w)) + 1 -> Z.of_nat (length (alive w)) <= parallel_limit_ ->
  NoDup (alive w ++ ended_ok w ++ ended_bad w) ->
  (forall j, j ∈ alive w ++ ended_ok w ++ ended_bad w <-> (j < i)%nat) ->
  (async_exception_ w = true <-> ended_bad w <> []) -> (i < num_chunks)%nat ->
  window_ok (token_loop i w).
Proof.
  intros H1 H2 H3 H4 H5 H6. unfold token_loop. destruct (Z.ltb_spec parallel_limit_ (running_push_ w)).
  - split; cbn; try done.
  - split; cbn -[Nat.lt]; try done; try lia.
    + constructor; [|done]. rewrite H4. lia.
    + intros _ j. rewrite elem_of_cons, H4. lia.
Qed.

Lemma wstep_ok w w' : window_ok w -> wstep w w' -> window_ok w'.
Proof.
  intros W Hs. pose proof W as [W1 W2 W3 W4 W5 W6]. destruct Hs as [i Ep Hi|i Ep|Ep|Ep|i ok Hi].
  - rewrite Ep in *. unfold GetToken_enter. apply token_loop_ok; cbn; try done.
    + rewrite W1 by done. simpl. lia.
    + by apply W4.
  - rewrite Ep in *. unfold GetToken_wake. destruct (async_exception_ w) eqn:Ee.
    + split; cbn; try done. by rewrite Ee.
    + apply token_loop_ok; try done; [by apply W1|by apply W4|by rewrite Ee].
  - rewrite Ep in *. specialize (W1 ltac:(done)). specialize (W4 ltac:(done)). simpl in W1, W4.
    unfold Finished_enter, finished_loop. destruct (Z.eqb_spec (running_push_ w) 0); split; cbn; done.
  - rewrite Ep in *. specialize (W1 ltac:(done)). specialize (W4 ltac:(done)). simpl in W1, W4.
    unfold Finished_wake, finished_loop. destruct (async_exception_ w) eqn:Ee.
    + split; cbn; try done. by rewrite Ee.
    + destruct (Z.eqb_spec (running_push_ w) 0); split; cbn; try done; by rewrite Ee.
  - by apply push_done_ok.
Qed.

Lemma window_start_ok : window_ok window_start.
Proof.
  split; cbn; try done; try lia.
  - constructor.
  - intros _ j. rewrite elem_of_nil. lia.
Qed.

Lemma wreachable_ok w : wreachable w -> window_ok w.
Proof. induction 1; [apply window_start_ok|by eapply wstep_ok]. Qed.

(** Whatever the order in which pushes end, no more than the limit are in
    flight, and when [SendChunked] returns every chunk was pushed exactly once and
    none is in flight. *)
Theorem send_chunked_window w :
  wreachable w ->
  Z.of_nat (length (alive w)) <= parallel_limit_ /\
  NoDup (alive w ++ ended_ok w ++ ended_bad w) /\
  (pc w = Returned -> alive w = [] /\
     forall j, j ∈ ended_ok w ++ ended_bad w <-> (j < num_chunks)%nat).
Proof.
  intros Hw. destruct (wreachable_ok w Hw) as [W1 W2 W3 W4 W5 W6]. split; [done|]. split; [done|].
  intros Ep. rewrite Ep in *. specialize (W1 ltac:(done)). simpl in W1.
  assert (Ha : alive w = []) by (destruct (alive w); [done|simpl in W1; lia]).
  split; [done|]. intros j. specialize (W4 ltac:(done) j). by rewrite Ha in W4.
Qed.
End Window.

(** A run with one chunk in flight at a time and two chunks, both delivered. *)
Lemma send_chunked_window_witness :
  let w := mk_window Returned 0 false [] [1; 0]%nat [] in
  Z.of_nat (length (alive w)) <= 1 /\ NoDup (alive w ++ ended_ok w ++ ended_bad w) /\
  (pc w = Returned -> alive w = [] /\ forall j, j ∈ ended_ok w ++ ended_bad w <-> (j < 2)%nat).
Proof.
  apply (send_chunked_window 1 2 ltac:(lia)).
  eapply wreach_step; [|by apply (w_finish_wake 1 2 (mk_window InFinished 0 false [] [1; 0]%nat []))].
  eapply wreach_step; [|apply (w_done 1 2 (mk_window InFinished 1 false [1%nat] [0%nat] []) 1 true); by constructor].
  eapply wreach_step; [|by apply (w_finish 1 2 (mk_window (Issue 2) 1 false [1%nat] [0%nat] []))].
  eapply wreach_step; [|by apply (w_token 1 2 (mk_window (InGetToken 1) 1 false [] [0%nat] []) 1)].
  eapply wreach_step; [|apply (w_done 1 2 (mk_window (InGetToken 1) 2 false [0%nat] [] []) 0 true); by constructor].
  eapply wreach_step; [|apply (w_issue 1 2 (mk_window (Issue 1) 1 false [0%nat] [] []) 1); [done|lia]].
  eapply wreach_step; [|apply (w_issue 1 2 window_start 0); [done|lia]].
  constructor.
Defined.

(** A push that fails before [Finished] is entered is not reported: with one
    chunk in flight at the end, [Finished] finds the counter at zero and never
    looks at the exception. *)
Theorem send_chunked_error_lost :
  exists w, wreachable 2 2 w /\ pc w = Returned /\ async_exception_ w = true /\ ended_bad w = [1%nat].
Proof.
  exists (mk_window Returned 0 true [] [0%nat] [1%nat]). split; [|done].
  eapply wreach_step; [|by apply (w_finish 2 2 (mk_window (Issue 2) 0 true [] [0%nat] [1%nat]))].
  eapply wreach_step; [|apply (w_done 2 2 (mk_window (Issue 2) 1 false [1%nat] [0%nat] []) 1 false); by constructor].
  eapply wreach_step; [|apply (w_done 2 2 (mk_window (Issue 2) 2 false [1; 0]%nat [] []) 0 true); by repeat constructor].
  eapply wreach_step; [|apply (w_issue 2 2 (mk_window (Issue 1) 1 false [0%nat] [] []) 1); [done|lia]].
  eapply wreach_step; [|apply (w_issue 2 2 window_start 0); [done|lia]].
  constructor.
Qed.
