(* ===== verification/OtStore.v ===== *)
(** Stores of oblivious transfers (src/yacl/kernel/type/slice_base.h and .cc,
    ot_store.h and .cc, ot_store_utils.cc).

    A store is a window on buffers that it shares with its slices: the buffers
    live in a heap, a store holds their locations, and a write through one store
    is seen by every store on the same buffer. [UninitAlignedVector::operator[]]
    does not check its index; [Bad] is an access out of range or through a null
    pointer, [Err] a failed [YACL_ENFORCE]. Counters are [uint64_t] and wrap. *)

From Stdlib Require Import ZArith Lia ZifyBool Bool.
From stdpp Require Import base numbers list option gmap.
From S2P Require Import Prelude BitBlock BitSet BitSetFacts BitSetOps BitSetGrow BitSetRange BitSetString.

Local Open Scope Z_scope.

Inductive res (A : Type) := Val (a : A) | Err | Bad.
Arguments Val {A} a.
Arguments Err {A}.
Arguments Bad {A}.

#[export] Instance res_ret : MRet res := fun A a => Val a.
#[export] Instance res_bind : MBind res := fun A B f m =>
  match m with
  | Val a => f a
  | Err => Err
  | Bad => Bad
  end.

(** [YACL_ENFORCE], and an access that is undefined when it fails. *)
Definition enforce (b : bool) : res () := if b then Val () else Err.
Definition access {A} (o : option A) : res A := match o with Some a => Val a | None => Bad end.

Definition u32 (x : Z) : Z := x mod 2 ^ 32.
Definition u64 (x : Z) : Z := x mod 2 ^ 64.
Definition u128 (x : Z) : Z := x mod 2 ^ 128.

(** *** [SliceBase] *)

Record SliceBase := mk_slice {
  internal_use_ctr_ : Z;
  internal_use_size_ : Z;
  internal_buf_ctr_ : Z;
  internal_buf_size_ : Z
}.

Definition IsSliced (s : SliceBase) : bool := negb (internal_buf_ctr_ s =? 0).

Definition ResetSlice (s : SliceBase) : SliceBase :=
  mk_slice 0 (internal_buf_size_ s) 0 (internal_buf_size_ s).

Definition SliceConsistencyCheck (s : SliceBase) : res () :=
  enforce (0 <? internal_use_size_ s);;
  enforce (0 <? internal_buf_size_ s);;
  enforce (internal_use_size_ s <=? internal_buf_size_ s);;
  enforce (internal_buf_ctr_ s <=? internal_buf_size_ s).

Definition GetBufIdx (s : SliceBase) (slice_idx : Z) : res Z :=
  enforce (slice_idx <? internal_use_size_ s);;
  Val (u64 (internal_use_ctr_ s + slice_idx)).

Definition IncreaseBufCtr (s : SliceBase) (size : Z) : res SliceBase :=
  enforce (size <=? u64 (internal_buf_size_ s - internal_buf_ctr_ s));;
  Val (mk_slice (internal_use_ctr_ s) (internal_use_size_ s)
         (u64 (internal_buf_ctr_ s + size)) (internal_buf_size_ s)).

(** *** The heap of shared buffers *)

Record heap := mk_heap {
  blk_bufs : gmap nat (list Z);
  bit_bufs : gmap nat dynamic_bitset;
  next_loc : nat
}.

Definition new_blk (h : heap) (l : list Z) : heap * nat :=
  (mk_heap (<[next_loc h := l]> (blk_bufs h)) (bit_bufs h) (S (next_loc h)), next_loc h).

Definition new_bit (h : heap) (b : dynamic_bitset) : heap * nat :=
  (mk_heap (blk_bufs h) (<[next_loc h := b]> (bit_bufs h)) (S (next_loc h)), next_loc h).

Definition deref_blk (h : heap) (p : option nat) : res (list Z) :=
  access (p ≫= fun l => blk_bufs h !! l).

Definition deref_bit (h : heap) (p : option nat) : res dynamic_bitset :=
  access (p ≫= fun l => bit_bufs h !! l).

Definition put_blk (h : heap) (p : option nat) (l : list Z) : heap :=
  match p with
  | Some loc => mk_heap (<[loc := l]> (blk_bufs h)) (bit_bufs h) (next_loc h)
  | None => h
  end.

Definition put_bit (h : heap) (p : option nat) (b : dynamic_bitset) : heap :=
  match p with
  | Some loc => mk_heap (blk_bufs h) (<[loc := b]> (bit_bufs h)) (next_loc h)
  | None => h
  end.

(** [blk_buf_->operator[](i)] and its assignment. *)
Definition read_blk (h : heap) (p : option nat) (i : Z) : res Z :=
  l ← deref_blk h p; access (vget l i).

Definition write_blk (h : heap) (p : option nat) (i val : Z) : res heap :=
  l ← deref_blk h p; l' ← access (vset l i val); Val (put_blk h p l').

Inductive OtStoreType := Normal | Compact.

#[export] Instance OtStoreType_eq_dec : EqDecision OtStoreType.
Proof. solve_decision. Defined.

(** *** [OtRecvStore] *)

Record OtRecvStore := mk_recv {
  recv_slice : SliceBase;
  recv_type : OtStoreType;
  recv_bit_buf : option nat;
  recv_blk_buf : option nat
}.

Module OtRecv.

Definition ConsistencyCheck (h : heap) (s : OtRecvStore) : res () :=
  SliceConsistencyCheck (recv_slice s);;
  l ← deref_blk h (recv_blk_buf s);
  enforce (internal_buf_size_ (recv_slice s) <=? vsize l);;
  match recv_type s with
  | Normal => b ← deref_bit h (recv_bit_buf s); enforce (Bitset.size b =? vsize l)
  | Compact => Val ()
  end.

(** The full constructor; [InitCtrs] checks through the override. *)
Definition make (h : heap) (bit_ptr blk_ptr : option nat) (use_ctr use_size buf_ctr buf_size : Z)
    (type : OtStoreType) : res OtRecvStore :=
  let s := mk_recv (mk_slice use_ctr use_size buf_ctr buf_size) type bit_ptr blk_ptr in
  ConsistencyCheck h s;; ConsistencyCheck h s;; Val s.

(** [explicit OtRecvStore(num, type)]. *)
Definition make_empty (h : heap) (num : Z) (type : OtStoreType) : res (heap * OtRecvStore) :=
  '(h1, bit_ptr) ←
    (match type with
     | Normal => b ← access (Bitset.ctor_value 128 num 0);
                 let '(h1, p) := new_bit h b in Val (h1, Some p)
     | Compact => Val (h, None)
     end);
  let '(h2, p) := new_blk h1 (replicate (Z.to_nat num) 0) in
  s ← make h2 bit_ptr (Some p) 0 num 0 num type;
  Val (h2, s).

Definition Slice (h : heap) (s : OtRecvStore) (begin end_ : Z) : res OtRecvStore :=
  make h (recv_bit_buf s) (recv_blk_buf s) begin (u64 (end_ - begin)) begin end_ (recv_type s).

(** The slice and the store with its counter moved. *)
Definition NextSlice (h : heap) (s : OtRecvStore) (num : Z) : res (OtRecvStore * OtRecvStore) :=
  let ctr := internal_buf_ctr_ (recv_slice s) in
  out ← Slice h s ctr (u64 (ctr + num));
  sl ← IncreaseBufCtr (recv_slice s) num;
  Val (out, mk_recv sl (recv_type s) (recv_bit_buf s) (recv_blk_buf s)).

Definition Size (s : OtRecvStore) : Z := internal_use_size_ (recv_slice s).

(** [Reset]: the base class clears the counters and checks them. *)
Definition Reset (h : heap) (s : OtRecvStore) : res OtRecvStore :=
  let s1 := mk_recv (mk_slice 0 0 0 0) (recv_type s) (recv_bit_buf s) (recv_blk_buf s) in
  ConsistencyCheck h s1;;
  let s2 := mk_recv (mk_slice 0 0 0 0) Compact None None in
  ConsistencyCheck h s2;; Val s2.

Definition GetBlock (h : heap) (s : OtRecvStore) (idx : Z) : res Z :=
  enforce (idx <? Size s);;
  i ← GetBufIdx (recv_slice s) idx;
  read_blk h (recv_blk_buf s) i.

Definition SetBlock (h : heap) (s : OtRecvStore) (idx val : Z) : res heap :=
  i ← GetBufIdx (recv_slice s) idx;
  write_blk h (recv_blk_buf s) i val.

(** The elements of the span; it aliases the buffer. *)
Definition GetBlkBufSpan (h : heap) (s : OtRecvStore) : res (list Z) :=
  enforce (negb (IsSliced (recv_slice s)));;
  l ← deref_blk h (recv_blk_buf s);
  Val (take (Z.to_nat (internal_buf_size_ (recv_slice s))) l).

Definition StealBlkBuf (h : heap) (s : OtRecvStore) (use_count : Z) : res (option nat) :=
  enforce (use_count =? 1);;
  Reset h (mk_recv (recv_slice s) (recv_type s) (recv_bit_buf s) None);;
  Val (recv_blk_buf s).

(** The range [begin() + ctr, begin() + ctr + size) of a buffer. *)
Definition copy_range (l : list Z) (ctr size : Z) : res (list Z) :=
  if (0 <=? ctr) && (0 <=? size) && (ctr + size <=? vsize l)
  then Val (take (Z.to_nat size) (drop (Z.to_nat ctr) l)) else Bad.

Definition CopyBlkBuf (h : heap) (s : OtRecvStore) : res (list Z) :=
  l ← deref_blk h (recv_blk_buf s);
  copy_range l (internal_use_ctr_ (recv_slice s)) (internal_use_size_ (recv_slice s)).

Definition GetChoice (h : heap) (s : OtRecvStore) (idx : Z) : res Z :=
  enforce (idx <? Size s);;
  i ← GetBufIdx (recv_slice s) idx;
  match recv_type s with
  | Compact => x ← read_blk h (recv_blk_buf s) i; Val (Z.land x 1)
  | Normal => b ← deref_bit h (recv_bit_buf s); t ← access (Bitset.test 128 b i); Val (Z.b2z t)
  end.

Definition SetChoice (h : heap) (s : OtRecvStore) (idx : Z) (val : bool) : res heap :=
  match recv_type s with
  | Compact => Err
  | Normal =>
      i ← GetBufIdx (recv_slice s) idx;
      b ← deref_bit h (recv_bit_buf s);
      r ← access (Bitset.subscript 128 b i);
      b' ← access (Bitset.ref_assign 128 b r val);
      Val (put_bit h (recv_bit_buf s) b')
  end.

Definition FlipChoice (h : heap) (s : OtRecvStore) (idx : Z) : res heap :=
  match recv_type s with
  | Compact => Err
  | Normal =>
      i ← GetBufIdx (recv_slice s) idx;
      b ← deref_bit h (recv_bit_buf s);
      r ← access (Bitset.subscript 128 b i);
      b' ← access (Bitset.ref_flip b r);
      Val (put_bit h (recv_bit_buf s) b')
  end.

Definition SetBitBuf (h : heap) (s : OtRecvStore) (input : dynamic_bitset) : heap * OtRecvStore :=
  let '(h', p) := new_bit h input in
  (h', mk_recv (recv_slice s) (recv_type s) (Some p) (recv_blk_buf s)).

(** The loop [out[i] = GetBlock(i) & 1] of the compact mode. *)
Fixpoint copy_bits_loop (h : heap) (s : OtRecvStore) (n : nat) (i : Z) (out : dynamic_bitset)
  : res dynamic_bitset :=
  match n with
  | O => Val out
  | S n' =>
      x ← GetBlock h s i;
      r ← access (Bitset.subscript 128 out i);
      out' ← access (Bitset.ref_assign 128 out r (negb (Z.land x 1 =? 0)));
      copy_bits_loop h s n' (i + 1) out'
  end.

Definition CopyBitBuf (h : heap) (s : OtRecvStore) : res dynamic_bitset :=
  match recv_type s with
  | Compact =>
      out ← access (Bitset.ctor_value 128 (Size s) 0);
      copy_bits_loop h s (Z.to_nat (Size s)) 0 out
  | Normal =>
      b ← deref_bit h (recv_bit_buf s);
      b1 ← access (Bitset.shr_assign 128 b (internal_use_ctr_ (recv_slice s)));
      access (Bitset.resize 128 b1 (internal_use_size_ (recv_slice s)) false)
  end.
End OtRecv.

(** *** [OtSendStore] *)

Record OtSendStore := mk_send {
  send_slice : SliceBase;
  send_type : OtStoreType;
  send_delta : Z;
  send_blk_buf : option nat
}.

Module OtSend.

Definition ot_blk_num (s : OtSendStore) : Z := match send_type s with Compact => 1 | Normal => 2 end.

Definition ConsistencyCheck (h : heap) (s : OtSendStore) : res () :=
  SliceConsistencyCheck (send_slice s);;
  l ← deref_blk h (send_blk_buf s);
  enforce (internal_buf_size_ (send_slice s) <=? vsize l).

Definition make (h : heap) (blk_ptr : option nat) (delta use_ctr use_size buf_ctr buf_size : Z)
    (type : OtStoreType) : res OtSendStore :=
  let s := mk_send (mk_slice use_ctr use_size buf_ctr buf_size) type delta blk_ptr in
  ConsistencyCheck h s;; ConsistencyCheck h s;; Val s.

Definition make_empty (h : heap) (num : Z) (type : OtStoreType) : res (heap * OtSendStore) :=
  let buf_size := match type with Normal => u64 (num * 2) | Compact => num end in
  let '(h1, p) := new_blk h (replicate (Z.to_nat buf_size) 0) in
  s ← make h1 (Some p) 0 0 buf_size 0 buf_size type;
  Val (h1, s).

Definition Reset (h : heap) (s : OtSendStore) : res OtSendStore :=
  let s1 := mk_send (mk_slice 0 0 0 0) (send_type s) (send_delta s) (send_blk_buf s) in
  ConsistencyCheck h s1;;
  let s2 := mk_send (mk_slice 0 0 0 0) Compact (send_delta s) None in
  ConsistencyCheck h s2;; Val s2.

Definition Slice (h : heap) (s : OtSendStore) (begin end_ : Z) : res OtSendStore :=
  let n := ot_blk_num s in
  make h (send_blk_buf s) (send_delta s) (u64 (begin * n)) (u64 (u64 (end_ - begin) * n))
    (u64 (begin * n)) (u64 (end_ * n)) (send_type s).

Definition NextSlice (h : heap) (s : OtSendStore) (num : Z) : res (OtSendStore * OtSendStore) :=
  let n := ot_blk_num s in
  let ctr := internal_buf_ctr_ (send_slice s) / n in
  out ← Slice h s ctr (u64 (ctr + num));
  sl ← IncreaseBufCtr (send_slice s) (u64 (num * n));
  Val (out, mk_send sl (send_type s) (send_delta s) (send_blk_buf s)).

Definition Size (s : OtSendStore) : Z :=
  match send_type s with
  | Compact => internal_use_size_ (send_slice s)
  | Normal => internal_use_size_ (send_slice s) / 2
  end.

Definition GetDelta (s : OtSendStore) : res Z :=
  enforce (negb (send_delta s =? 0));; Val (send_delta s).

Definition SetDelta (s : OtSendStore) (delta : Z) : res OtSendStore :=
  enforce (negb (delta =? 0));;
  Val (mk_send (send_slice s) (send_type s) delta (send_blk_buf s)).

Definition GetBlock (h : heap) (s : OtSendStore) (ot_idx msg_idx : Z) : res Z :=
  enforce ((msg_idx =? 0) || (msg_idx =? 1));;
  if send_delta s =? 0
  then i ← GetBufIdx (send_slice s) (u64 (2 * ot_idx));
       read_blk h (send_blk_buf s) (u64 (i + msg_idx))
  else i ← GetBufIdx (send_slice s) (u64 (ot_blk_num s * ot_idx));
       x ← read_blk h (send_blk_buf s) i;
       Val (Z.lxor x (u128 (send_delta s * msg_idx))).

Definition SetNormalBlock (h : heap) (s : OtSendStore) (ot_idx msg_idx val : Z) : res heap :=
  match send_type s with
  | Compact => Err
  | Normal =>
      enforce ((msg_idx =? 0) || (msg_idx =? 1));;
      i ← GetBufIdx (send_slice s) (u64 (ot_idx * 2 + msg_idx));
      write_blk h (send_blk_buf s) i val
  end.

Definition SetCompactBlock (h : heap) (s : OtSendStore) (ot_idx val : Z) : res heap :=
  match send_type s with
  | Normal => Err
  | Compact => i ← GetBufIdx (send_slice s) ot_idx; write_blk h (send_blk_buf s) i val
  end.

Definition GetBlkBufSpan (h : heap) (s : OtSendStore) : res (list Z) :=
  enforce (negb (IsSliced (send_slice s)));;
  l ← deref_blk h (send_blk_buf s);
  Val (take (Z.to_nat (internal_buf_size_ (send_slice s))) l).

Definition StealBlkBuf (h : heap) (s : OtSendStore) (use_count : Z) : res (option nat) :=
  enforce (use_count =? 1);;
  Reset h (mk_send (send_slice s) (send_type s) (send_delta s) None);;
  Val (send_blk_buf s).

(** The copy starts at the buffer counter. *)
Definition CopyCotBlkBuf (h : heap) (s : OtSendStore) : res (list Z) :=
  match send_type s with
  | Normal => Err
  | Compact =>
      l ← deref_blk h (send_blk_buf s);
      OtRecv.copy_range l (internal_buf_ctr_ (send_slice s)) (internal_use_size_ (send_slice s))
  end.
End OtSend.

(** *** Construction from blocks, and mock transfers *)

(** The overloads differ in the container and in copying or moving it. *)
Definition MakeOtSendStore (h : heap) (blocks : list (Z * Z)) : res (heap * OtSendStore) :=
  let '(h1, p) := new_blk h (blocks ≫= fun b => [fst b; snd b]) in
  let n := u64 (vsize blocks * 2) in
  s ← OtSend.make h1 (Some p) 0 0 n 0 n Normal; Val (h1, s).

Definition MakeCompactOtSendStore (h : heap) (blocks : list Z) (delta : Z) : res (heap * OtSendStore) :=
  let '(h1, p) := new_blk h blocks in
  s ← OtSend.make h1 (Some p) delta 0 (vsize blocks) 0 (vsize blocks) Compact; Val (h1, s).

Definition MakeOtRecvStore (h : heap) (choices : dynamic_bitset) (blocks : list Z)
  : res (heap * OtRecvStore) :=
  let '(h1, p1) := new_bit h choices in
  let '(h2, p2) := new_blk h1 blocks in
  s ← OtRecv.make h2 (Some p1) (Some p2) 0 (Bitset.size choices) 0 (Bitset.size choices) Normal;
  Val (h2, s).

Definition MakeCompactOtRecvStore (h : heap) (blocks : list Z) : res (heap * OtRecvStore) :=
  let '(h1, p) := new_blk h blocks in
  s ← OtRecv.make h1 None (Some p) 0 (vsize blocks) 0 (vsize blocks) Compact; Val (h1, s).

(** [choices[i]]. *)
Definition choice_at (choices : dynamic_bitset) (i : Z) : res bool :=
  access (Bitset.test 128 choices i).

(** The generator [gen] gives the successive outputs of the [Prg]. *)
Fixpoint rot_loop (gen : Z -> Z) (choices : dynamic_bitset) (n : nat) (i : Z)
    (send : list (Z * Z)) (recv : list Z) : res (list (Z * Z) * list Z) :=
  match n with
  | O => Val (send, recv)
  | S n' =>
      let pair := (gen (2 * i), gen (2 * i + 1)) in
      c ← choice_at choices i;
      rot_loop gen choices n' (i + 1) (send ++ [pair])
        (recv ++ [if c : bool then snd pair else fst pair])
  end.

Definition MockRots (h : heap) (gen : Z -> Z) (num : Z) (choices : dynamic_bitset)
  : res (heap * OtSendStore * OtRecvStore) :=
  enforce (Bitset.size choices =? num);;
  '(send, recv) ← rot_loop gen choices (Z.to_nat num) 0 [] [];
  '(h1, s) ← MakeOtSendStore h send;
  '(h2, r) ← MakeOtRecvStore h1 choices recv;
  Val (h2, s, r).

Fixpoint cot_loop (gen : Z -> Z) (delta : Z) (choices : dynamic_bitset) (n : nat) (i : Z)
    (send recv : list Z) : res (list Z * list Z) :=
  match n with
  | O => Val (send, recv)
  | S n' =>
      let msg := gen i in
      c ← choice_at choices i;
      cot_loop gen delta choices n' (i + 1) (send ++ [msg])
        (recv ++ [if negb c then msg else Z.lxor msg delta])
  end.

Definition MockCots (h : heap) (gen : Z -> Z) (num delta : Z) (choices : dynamic_bitset)
  : res (heap * OtSendStore * OtRecvStore) :=
  enforce (Bitset.size choices =? num);;
  '(send, recv) ← cot_loop gen delta choices (Z.to_nat num) 0 [] [];
  '(h1, s) ← MakeCompactOtSendStore h send delta;
  '(h2, r) ← MakeOtRecvStore h1 choices recv;
  Val (h2, s, r).

(** [rand_delta] is the random word before its last bit is set. *)
Definition MockCompactOts (h : heap) (gen : Z -> Z) (num rand_delta : Z)
  : res (heap * OtSendStore * OtRecvStore) :=
  let delta := Z.lor rand_delta 1 in
  let recv := gen <$> seqZ 0 num in
  let send := (fun recv_msg => let choice := Z.land recv_msg 1 in
                               Z.lxor recv_msg (u128 (choice * delta))) <$> recv in
  '(h1, s) ← MakeCompactOtSendStore h send delta;
  '(h2, r) ← MakeCompactOtRecvStore h1 recv;
  Val (h2, s, r).
