(* ===== verification/OtStoreFacts.v ===== *)
(** Facts about the stores of oblivious transfers.

    [recv_wf] and [send_wf] are the class invariants: the window of a store lies
    in its buffers, and the normal mode has one choice bit per block. The
    lemmas give every operation on a well-formed store, for every argument, and
    the effect of a write on every other store of the heap. *)

From Stdlib Require Import ZArith Lia ZifyBool Bool.
From stdpp Require Import base numbers list option gmap.
From S2P Require Import Prelude BitBlock BitSet BitSetFacts BitSetOps BitSetGrow BitSetRange BitSetString OtStore.

Local Open Scope Z_scope.

(** Linear arithmetic with divisions and remainders by constants. *)
Ltac dlia := Z.div_mod_to_equations; lia.

(** The window of a store on a buffer of [n] elements. *)
Record slice_ok (s : SliceBase) (n : Z) : Prop := {
  use_ctr_pos : 0 <= internal_use_ctr_ s;
  use_size_pos : 0 < internal_use_size_ s;
  use_in_buf : internal_use_ctr_ s + internal_use_size_ s <= internal_buf_size_ s;
  buf_ctr_ok : 0 <= internal_buf_ctr_ s <= internal_buf_size_ s;
  buf_size_ok : internal_buf_size_ s <= n;
  buf_fits : n < 2 ^ 62
}.

Definition blk_at (h : heap) (p : option nat) (l : list Z) : Prop :=
  exists loc, p = Some loc /\ blk_bufs h !! loc = Some l.

Definition bit_at (h : heap) (p : option nat) (b : dynamic_bitset) : Prop :=
  exists loc, p = Some loc /\ bit_bufs h !! loc = Some b.

Lemma u64_small x : 0 <= x < 2 ^ 64 -> u64 x = x.
Proof. apply Z.mod_small. Qed.

Lemma u64_wrap_sub x : - 2 ^ 64 <= x < 0 -> u64 x = x + 2 ^ 64.
Proof.
  intros Hx. unfold u64. rewrite <- (Z.mod_small (x + 2 ^ 64) (2 ^ 64)) by lia.
  rewrite <- (Z.mod_add x 1) by lia. f_equal; lia.
Qed.

Lemma u64_wrap_add x : 2 ^ 64 <= x < 2 * 2 ^ 64 -> u64 x = x - 2 ^ 64.
Proof.
  intros Hx. unfold u64. rewrite <- (Z.mod_small (x - 2 ^ 64) (2 ^ 64)) by lia.
  rewrite <- (Z.mod_add (x - 2 ^ 64) 1) by lia. f_equal; lia.
Qed.

Lemma blk_at_inj h p l l' : blk_at h p l -> blk_at h p l' -> l = l'.
Proof. intros (loc & -> & H) (loc' & E & H'). injection E as <-. congruence. Qed.

Lemma bit_at_inj h p b b' : bit_at h p b -> bit_at h p b' -> b = b'.
Proof. intros (loc & -> & H) (loc' & E & H'). injection E as <-. congruence. Qed.

Lemma deref_blk_at h p l : blk_at h p l -> deref_blk h p = Val l.
Proof. intros (loc & -> & H). unfold deref_blk. simpl. by rewrite H. Qed.

Lemma deref_bit_at h p b : bit_at h p b -> deref_bit h p = Val b.
Proof. intros (loc & -> & H). unfold deref_bit. simpl. by rewrite H. Qed.

Lemma read_blk_at h p l i : blk_at h p l -> 0 <= i < vsize l -> read_blk h p i = Val (blk l i).
Proof.
  intros H Hi. unfold read_blk. rewrite (deref_blk_at _ _ _ H). cbn.
  by rewrite vget_blk.
Qed.

Lemma write_blk_at h p l i x :
  blk_at h p l -> 0 <= i < vsize l ->
  write_blk h p i x = Val (put_blk h p (<[Z.to_nat i := x]> l)).
Proof.
  intros H Hi. unfold write_blk. rewrite (deref_blk_at _ _ _ H). cbn.
  by rewrite vset_Some.
Qed.

(** What a store sees of a buffer after a write through [p]. *)
Lemma blk_at_put h p l' q l :
  blk_at h q l -> blk_at (put_blk h p l') q (if decide (p = q) then l' else l).
Proof.
  intros (loc & -> & H). case_decide as E; [subst p|].
  - exists loc. split; [done|]. simpl. by rewrite lookup_insert_eq.
  - exists loc. split; [done|]. destruct p as [loc'|]; [|done]. simpl.
    rewrite lookup_insert_ne by congruence. done.
Qed.

Lemma bit_at_put h p b' q b :
  bit_at h q b -> bit_at (put_bit h p b') q (if decide (p = q) then b' else b).
Proof.
  intros (loc & -> & H). case_decide as E; [subst p|].
  - exists loc. split; [done|]. simpl. by rewrite lookup_insert_eq.
  - exists loc. split; [done|]. destruct p as [loc'|]; [|done]. simpl.
    rewrite lookup_insert_ne by congruence. done.
Qed.

Lemma bit_at_put_blk h p l q b : bit_at h q b -> bit_at (put_blk h p l) q b.
Proof. intros (loc & -> & H). exists loc. by destruct p. Qed.

Lemma blk_at_put_bit h p b q l : blk_at h q l -> blk_at (put_bit h p b) q l.
Proof. intros (loc & -> & H). exists loc. by destruct p. Qed.

Lemma GetBufIdx_ok s n i :
  slice_ok s n -> 0 <= i < internal_use_size_ s -> GetBufIdx s i = Val (internal_use_ctr_ s + i).
Proof.
  intros [] Hi. unfold GetBufIdx. replace (i <? internal_use_size_ s) with true by lia.
  cbn. by rewrite u64_small by lia.
Qed.

Lemma GetBufIdx_err s i : internal_use_size_ s <= i -> GetBufIdx s i = Err.
Proof. intros Hi. unfold GetBufIdx. by replace (i <? internal_use_size_ s) with false by lia. Qed.

Lemma IncreaseBufCtr_ok s n k :
  slice_ok s n -> 0 <= k ->
  IncreaseBufCtr s k =
    if k <=? internal_buf_size_ s - internal_buf_ctr_ s
    then Val (mk_slice (internal_use_ctr_ s) (internal_use_size_ s)
                (internal_buf_ctr_ s + k) (internal_buf_size_ s))
    else Err.
Proof.
  intros [] Hk. unfold IncreaseBufCtr.
  rewrite (u64_small (internal_buf_size_ s - internal_buf_ctr_ s)) by lia. unfold enforce.
  destruct (Z.leb_spec k (internal_buf_size_ s - internal_buf_ctr_ s)); [|done].
  cbn. by rewrite u64_small by lia.
Qed.

Lemma SliceConsistencyCheck_ok s n : slice_ok s n -> SliceConsistencyCheck s = Val ().
Proof.
  intros []. unfold SliceConsistencyCheck.
  replace (0 <? internal_use_size_ s) with true by lia.
  replace (0 <? internal_buf_size_ s) with true by lia.
  replace (internal_use_size_ s <=? internal_buf_size_ s) with true by lia.
  by replace (internal_buf_ctr_ s <=? internal_buf_size_ s) with true by lia.
Qed.

(** The window [b, b + k) of a slice, checked: every failure is an [Err]. *)
Lemma slice_check (b k n : Z) :
  0 <= b <= n -> n < 2 ^ 62 -> 0 <= k < 2 ^ 64 ->
  let s := mk_slice b (u64 (u64 (b + k) - b)) b (u64 (b + k)) in
  if (0 <? k) && (b + k <=? n)
  then s = mk_slice b k b (b + k) /\ slice_ok s n
  else SliceConsistencyCheck s = Err \/
       (SliceConsistencyCheck s = Val () /\ n < internal_buf_size_ s).
Proof.
  intros Hb Hn Hk s. subst s.
  assert (E : u64 (u64 (b + k) - b) = k).
  { unfold u64. rewrite Zminus_mod_idemp_l. replace (b + k - b) with k by lia.
    by apply Z.mod_small. }
  rewrite E. destruct (Z.ltb_spec 0 k) as [Hk0|Hk0], (Z.leb_spec (b + k) n); cbn [andb].
  - rewrite u64_small by lia. split; [done|]. split; cbn; lia.
  - destruct (Z.lt_ge_cases (b + k) (2 ^ 64)).
    + rewrite u64_small by lia. right. unfold SliceConsistencyCheck. cbn [internal_use_size_ internal_buf_size_ internal_buf_ctr_].
      replace (0 <? k) with true by lia. replace (0 <? b + k) with true by lia.
      replace (k <=? b + k) with true by lia. by replace (b <=? b + k) with true by lia.
    + rewrite u64_wrap_add by lia. left. unfold SliceConsistencyCheck. cbn [internal_use_size_ internal_buf_size_ internal_buf_ctr_].
      replace (0 <? k) with true by lia. cbn.
      destruct (0 <? b + k - 2 ^ 64); cbn; [|done]. by replace (k <=? b + k - 2 ^ 64) with false by lia.
  - left. unfold SliceConsistencyCheck. cbn [internal_use_size_]. by replace (0 <? k) with false by lia.
  - left. unfold SliceConsistencyCheck. cbn [internal_use_size_]. by replace (0 <? k) with false by lia.
Qed.

(** *** Receiver stores *)

Record recv_view (h : heap) (s : OtRecvStore) (l : list Z) (b : dynamic_bitset) : Prop := {
  view_blk : blk_at h (recv_blk_buf s) l;
  view_slice : slice_ok (recv_slice s) (vsize l);
  view_bit : recv_type s = Normal ->
    bit_at h (recv_bit_buf s) b /\ wf 128 b /\ m_bits_number b = vsize l
}.

Definition recv_wf (h : heap) (s : OtRecvStore) : Prop := exists l b, recv_view h s l b.

(** The choice bit at a position of the buffers. *)
Definition choice_of (ty : OtStoreType) (l : list Z) (b : dynamic_bitset) (i : Z) : bool :=
  match ty with Normal => Z.testbit (value 128 b) i | Compact => Z.testbit (blk l i) 0 end.

Lemma land_one x : Z.land x 1 = Z.b2z (Z.testbit x 0).
Proof.
  rewrite Z.bit0_odd. change 1 with (Z.ones 1). rewrite Z.land_ones by lia.
  change (2 ^ 1) with 2. rewrite Zmod_odd. by destruct (Z.odd x).
Qed.

Section Recv.
Context (h : heap) (s : OtRecvStore) (l : list Z) (b : dynamic_bitset).
Hypothesis V : recv_view h s l b.

Local Abbreviation ctr := (internal_use_ctr_ (recv_slice s)).

Lemma recv_index i :
  0 <= i < OtRecv.Size s -> GetBufIdx (recv_slice s) i = Val (ctr + i) /\ 0 <= ctr + i < vsize l.
Proof.
  intros Hi. destruct V as [_ Hs _]. unfold OtRecv.Size in Hi. split.
  - by eapply GetBufIdx_ok.
  - destruct Hs. lia.
Qed.

Lemma recv_GetBlock i :
  0 <= i -> OtRecv.GetBlock h s i = if i <? OtRecv.Size s then Val (blk l (ctr + i)) else Err.
Proof.
  intros Hi. unfold OtRecv.GetBlock, enforce. destruct (Z.ltb_spec i (OtRecv.Size s)); [|done].
  destruct (recv_index i) as [-> Hr]; [lia|]. cbn. destruct V as [Hb _ _]. by apply read_blk_at.
Qed.

Lemma recv_GetChoice i :
  0 <= i ->
  OtRecv.GetChoice h s i =
    if i <? OtRecv.Size s then Val (Z.b2z (choice_of (recv_type s) l b (ctr + i))) else Err.
Proof.
  intros Hi. unfold OtRecv.GetChoice, enforce. destruct (Z.ltb_spec i (OtRecv.Size s)); [|done].
  destruct (recv_index i) as [-> Hr]; [lia|]. cbn. destruct V as [Hb Hs Hn].
  destruct (recv_type s); cbn.
  - destruct (Hn eq_refl) as (H1 & H2 & H3). rewrite (deref_bit_at _ _ _ H1). cbn.
    by rewrite (test_spec 128) by (done || lia).
  - rewrite (read_blk_at _ _ _ _ Hb Hr). cbn. by rewrite land_one.
Qed.

Lemma recv_SetBlock i x :
  0 <= i ->
  OtRecv.SetBlock h s i x =
    if i <? OtRecv.Size s
    then Val (put_blk h (recv_blk_buf s) (<[Z.to_nat (ctr + i) := x]> l)) else Err.
Proof.
  intros Hi. unfold OtRecv.SetBlock. destruct (Z.ltb_spec i (OtRecv.Size s)).
  - destruct (recv_index i) as [-> Hr]; [lia|]. cbn. apply write_blk_at; [apply V|done].
  - by rewrite GetBufIdx_err.
Qed.

(** [SetChoice] and [FlipChoice] update one bit of the shared bitset. *)
Definition set_bit_to (c : bool) (i : Z) : Z :=
  if c then Z.lor (value 128 b) (2 ^ i) else Z.ldiff (value 128 b) (2 ^ i).

Lemma recv_SetChoice i c :
  recv_type s = Normal -> 0 <= i < OtRecv.Size s ->
  exists b', OtRecv.SetChoice h s i c = Val (put_bit h (recv_bit_buf s) b') /\
    wf 128 b' /\ m_bits_number b' = vsize l /\ value 128 b' = set_bit_to c (ctr + i).
Proof.
  intros Ht Hi. unfold OtRecv.SetChoice. rewrite Ht.
  destruct (recv_index i) as [-> Hr]; [lia|]. cbn. destruct V as [Hb Hs Hn].
  destruct (Hn Ht) as (H1 & H2 & H3). rewrite (deref_bit_at _ _ _ H1). cbn.
  destruct (subscript_ops 128 b (ctr + i)) as (r & -> & H4 & _); [done|lia|]. cbn.
  rewrite H4. destruct (set_pos_refines 128 b (ctr + i) c) as (b' & -> & H5 & H6 & H7); [done|lia|].
  exists b'. split; [done|]. by rewrite <- H3.
Qed.

Lemma recv_FlipChoice i :
  recv_type s = Normal -> 0 <= i < OtRecv.Size s ->
  exists b', OtRecv.FlipChoice h s i = Val (put_bit h (recv_bit_buf s) b') /\
    wf 128 b' /\ m_bits_number b' = vsize l /\ value 128 b' = Z.lxor (value 128 b) (2 ^ (ctr + i)).
Proof.
  intros Ht Hi. unfold OtRecv.FlipChoice. rewrite Ht.
  destruct (recv_index i) as [-> Hr]; [lia|]. cbn. destruct V as [Hb Hs Hn].
  destruct (Hn Ht) as (H1 & H2 & H3). rewrite (deref_bit_at _ _ _ H1). cbn.
  destruct (subscript_ops 128 b (ctr + i)) as (r & -> & _ & H4 & _); [done|lia|]. cbn.
  rewrite H4. destruct (flip_pos_refines 128 b (ctr + i)) as (b' & -> & H5 & H6 & H7); [done|lia|].
  exists b'. split; [done|]. by rewrite <- H3.
Qed.

Lemma recv_make_window sl :
  slice_ok sl (vsize l) ->
  OtRecv.make h (recv_bit_buf s) (recv_blk_buf s) (internal_use_ctr_ sl) (internal_use_size_ sl)
    (internal_buf_ctr_ sl) (internal_buf_size_ sl) (recv_type s)
  = Val (mk_recv sl (recv_type s) (recv_bit_buf s) (recv_blk_buf s)).
Proof.
  intros Hsl. destruct V as [Hb Hs Hn]. unfold OtRecv.make. destruct sl as [a1 a2 a3 a4]. cbn in *.
  assert (E : OtRecv.ConsistencyCheck h (mk_recv (mk_slice a1 a2 a3 a4) (recv_type s)
    (recv_bit_buf s) (recv_blk_buf s)) = Val ()).
  { unfold OtRecv.ConsistencyCheck. cbn. rewrite (SliceConsistencyCheck_ok _ _ Hsl). cbn.
    rewrite (deref_blk_at _ _ _ Hb). cbn. destruct Hsl. cbn in *.
    replace (a4 <=? vsize l) with true by lia. cbn.
    destruct (recv_type s); [|done]. destruct (Hn eq_refl) as (H1 & H2 & H3).
    rewrite (deref_bit_at _ _ _ H1). cbn. unfold Bitset.size.
    by replace (m_bits_number b =? vsize l) with true by lia. }
  by rewrite E.
Qed.

Lemma recv_make_err u1 u2 u3 u4 :
  SliceConsistencyCheck (mk_slice u1 u2 u3 u4) = Err \/
  (SliceConsistencyCheck (mk_slice u1 u2 u3 u4) = Val () /\ vsize l < u4) ->
  OtRecv.make h (recv_bit_buf s) (recv_blk_buf s) u1 u2 u3 u4 (recv_type s) = Err.
Proof.
  intros H. destruct V as [Hb _ _]. unfold OtRecv.make, OtRecv.ConsistencyCheck. cbn.
  destruct H as [->|[-> H]]; [done|]. cbn. rewrite (deref_blk_at _ _ _ Hb). cbn.
  by replace (u4 <=? vsize l) with false by lia.
Qed.

(** The slice [NextSlice] returns, and the store it leaves. *)
Definition recv_next_out (k : Z) : OtRecvStore :=
  let c := internal_buf_ctr_ (recv_slice s) in
  mk_recv (mk_slice c k c (c + k)) (recv_type s) (recv_bit_buf s) (recv_blk_buf s).

Definition recv_next_left (k : Z) : OtRecvStore :=
  mk_recv (mk_slice ctr (OtRecv.Size s) (internal_buf_ctr_ (recv_slice s) + k)
    (internal_buf_size_ (recv_slice s))) (recv_type s) (recv_bit_buf s) (recv_blk_buf s).

Lemma recv_NextSlice k :
  0 <= k < 2 ^ 64 ->
  OtRecv.NextSlice h s k =
    if (0 <? k) && (k <=? internal_buf_size_ (recv_slice s) - internal_buf_ctr_ (recv_slice s))
    then Val (recv_next_out k, recv_next_left k) else Err.
Proof.
  intros Hk. pose proof (view_slice _ _ _ _ V) as Hs. pose proof Hs as [S1 S2 S3 S4 S5 S6].
  unfold OtRecv.NextSlice, OtRecv.Slice. set (c := internal_buf_ctr_ (recv_slice s)) in *.
  pose proof (slice_check c k (vsize l) ltac:(lia) S6 Hk) as HC. cbn zeta in HC.
  destruct ((0 <? k) && (c + k <=? vsize l)) eqn:E.
  - destruct HC as [HC1 HC2]. injection HC1 as E1 E2. rewrite E1, E2 in *.
    rewrite (recv_make_window _ HC2 : OtRecv.make _ _ _ c k c (c + k) _ = _). cbn [mbind res_bind].
    rewrite (IncreaseBufCtr_ok _ _ k Hs) by lia. fold c.
    replace (0 <? k) with true by lia. cbn [andb].
    destruct (k <=? internal_buf_size_ (recv_slice s) - c); done.
  - rewrite recv_make_err by done. cbn.
    replace ((0 <? k) && (k <=? internal_buf_size_ (recv_slice s) - c)) with false by lia. done.
Qed.

Lemma recv_next_views k :
  0 < k <= internal_buf_size_ (recv_slice s) - internal_buf_ctr_ (recv_slice s) ->
  recv_view h (recv_next_out k) l b /\ recv_view h (recv_next_left k) l b.
Proof.
  intros Hk. destruct V as [Hb [] Hn]. unfold recv_next_out, recv_next_left, OtRecv.Size.
  split; (split; [done| |done]); split; cbn; lia.
Qed.

Lemma recv_CopyBlkBuf :
  OtRecv.CopyBlkBuf h s = Val (take (Z.to_nat (OtRecv.Size s)) (drop (Z.to_nat ctr) l)).
Proof.
  destruct V as [Hb [] Hn]. unfold OtRecv.CopyBlkBuf. rewrite (deref_blk_at _ _ _ Hb). cbn.
  unfold OtRecv.copy_range, OtRecv.Size.
  by replace (_ && _ && _) with true by lia.
Qed.
End Recv.

(** The copied choices, bit by bit, in both modes. *)
Section CopyBits.
Context (h : heap) (s : OtRecvStore) (l : list Z) (b : dynamic_bitset).
Hypothesis V : recv_view h s l b.

Local Abbreviation ctr := (internal_use_ctr_ (recv_slice s)).
Local Abbreviation n := (OtRecv.Size s).

Definition copied (k : Z) (out : dynamic_bitset) : Prop :=
  wf 128 out /\ m_bits_number out = n /\
  forall i, 0 <= i -> Z.testbit (value 128 out) i = (i <? k) && choice_of (recv_type s) l b (ctr + i).

Lemma copy_bits_loop_copied m k out :
  recv_type s = Compact -> 0 <= k -> k + Z.of_nat m <= n -> copied k out ->
  exists out', OtRecv.copy_bits_loop h s m k out = Val out' /\ copied (k + Z.of_nat m) out'.
Proof.
  intros Ht. revert k out. induction m as [|m IH]; intros k out Hk Hn Hc; cbn [OtRecv.copy_bits_loop].
  { exists out. split; [done|]. by rewrite Z.add_0_r. }
  rewrite (recv_GetBlock h s l b V) by lia. replace (k <? n) with true by lia. cbn [mbind res_bind].
  destruct Hc as (W & N & B).
  destruct (subscript_ops 128 out k) as (r & -> & H4 & _); [done|lia|]. cbn [access mbind res_bind].
  rewrite H4, land_one. set (c := negb _).
  destruct (set_pos_refines 128 out k c) as (out' & -> & W' & N' & V'); [done|lia|].
  cbn [access mbind res_bind]. replace (k + Z.of_nat (S m)) with (k + 1 + Z.of_nat m) by lia.
  apply IH; [lia|lia|]. split; [done|]. split; [lia|]. intros i Hi.
  assert (Hc : c = choice_of (recv_type s) l b (ctr + k)).
  { subst c. rewrite Ht. unfold choice_of. by destruct (Z.testbit (blk l (ctr + k)) 0). }
  assert (E : Z.testbit (value 128 out') i = if i =? k then c else Z.testbit (value 128 out) i).
  { rewrite V'. destruct c; rewrite ?Z.lor_spec, ?Z.ldiff_spec, testbit_pow2 by lia;
      destruct (i =? k), (Z.testbit (value 128 out) i); done. }
  rewrite E. destruct (Z.eqb_spec i k) as [->|Hne].
  - by replace (k <? k + 1) with true by lia.
  - rewrite B by done. by replace (i <? k + 1) with (i <? k) by lia.
Qed.

Lemma recv_CopyBitBuf : exists out, OtRecv.CopyBitBuf h s = Val out /\ copied n out.
Proof.
  pose proof V as [Hb Hs Hn]. pose proof Hs as [S1 S2 S3 S4 S5 S6]. unfold OtRecv.CopyBitBuf.
  destruct (recv_type s) eqn:Ht.
  - destruct (Hn eq_refl) as (H1 & H2 & H3). rewrite (deref_bit_at _ _ _ H1). cbn [mbind res_bind].
    destruct (shr_assign_refines 128 b ctr) as (b1 & -> & W1 & N1 & V1); [done|lia|].
    cbn [access mbind res_bind].
    destruct (resize_refines 128 b1 n false) as (b2 & E & W2 & N2 & V2); [done|unfold n; lia|].
    unfold n in *. rewrite E. exists b2. split; [done|]. split; [done|]. split; [done|]. intros i Hi.
    pose proof (value_range 128 b1 W1). rewrite V2, testbit_resize_spec by (unfold OtRecv.Size; lia).
    rewrite V1, Z.shiftr_spec, Ht by lia. cbn [choice_of].
    rewrite (Z.add_comm i), N1, H3. unfold OtRecv.Size.
    destruct (Z.ltb_spec i (internal_use_size_ (recv_slice s))); [|done].
    by replace (i <? vsize l) with true by lia.
  - destruct (ctor_value_refines 128 n 0) as (o & -> & W & N & Vo); [unfold OtRecv.Size; lia|lia|].
    cbn [access mbind res_bind].
    destruct (copy_bits_loop_copied (Z.to_nat n) 0 o Ht) as (out & E & H); [lia|unfold OtRecv.Size; lia| |].
    + split; [done|]. split; [done|]. intros i Hi. rewrite Vo, Z.mod_0_l by (apply Z.pow_nonzero; unfold OtRecv.Size; lia).
      rewrite Z.bits_0. by replace (i <? 0) with false by lia.
    + exists out. split; [done|]. rewrite Z2Nat.id in H by (unfold OtRecv.Size; lia). done.
Qed.
End CopyBits.

(** *** Sender stores *)

(** In normal mode a transfer takes two blocks and the counters are even. *)
Definition aligned (s : OtSendStore) : Prop :=
  send_type s = Normal ->
  internal_use_ctr_ (send_slice s) mod 2 = 0 /\ internal_use_size_ (send_slice s) mod 2 = 0 /\
  internal_buf_ctr_ (send_slice s) mod 2 = 0 /\ internal_buf_size_ (send_slice s) mod 2 = 0.

Record send_view (h : heap) (s : OtSendStore) (l : list Z) : Prop := {
  send_view_blk : blk_at h (send_blk_buf s) l;
  send_view_slice : slice_ok (send_slice s) (vsize l);
  send_view_aligned : aligned s
}.

Definition send_wf (h : heap) (s : OtSendStore) : Prop := exists l, send_view h s l.

(** The message of a transfer in the buffer: two random blocks without a delta,
    one block and its offset by delta with one. *)
Definition message_at (delta : Z) (l : list Z) (i m : Z) : Z :=
  if delta =? 0 then blk l (i + m) else Z.lxor (blk l i) (u128 (delta * m)).

Section Send.
Context (h : heap) (s : OtSendStore) (l : list Z).
Hypothesis V : send_view h s l.

Local Abbreviation ctr := (internal_use_ctr_ (send_slice s)).
Local Abbreviation n := (OtSend.ot_blk_num s).
Local Abbreviation left := (internal_buf_size_ (send_slice s) - internal_buf_ctr_ (send_slice s)).

Lemma send_size : internal_use_size_ (send_slice s) = n * OtSend.Size s.
Proof.
  destruct V as [_ _ Ha]. unfold aligned, OtSend.ot_blk_num, OtSend.Size in *.
  destruct (send_type s); [|lia]. destruct (Ha eq_refl) as (_ & H & _). dlia.
Qed.

Lemma n_cases : n = 1 /\ send_type s = Compact \/ n = 2 /\ send_type s = Normal.
Proof. unfold OtSend.ot_blk_num. destruct (send_type s); auto. Qed.

Lemma send_GetBlock i m :
  (send_delta s = 0 -> send_type s = Normal) -> 0 <= i < 2 ^ 63 -> m = 0 \/ m = 1 ->
  OtSend.GetBlock h s i m =
    if i <? OtSend.Size s then Val (message_at (send_delta s) l (ctr + n * i) m) else Err.
Proof.
  intros Hd Hi Hm. unfold OtSend.GetBlock, message_at, enforce.
  replace ((m =? 0) || (m =? 1)) with true by lia. cbn [mbind res_bind].
  pose proof send_size as Hsz. pose proof V as [Hb Hs Ha]. pose proof Hs as [S1 S2 S3 S4 S5 S6].
  assert (Hn : send_delta s = 0 -> n = 2) by (intros E; unfold OtSend.ot_blk_num; by rewrite Hd).
  assert (H2 : 0 <= n * i < 2 ^ 64) by (destruct n_cases as [[-> _]|[-> _]]; lia).
  destruct (Z.ltb_spec i (OtSend.Size s)) as [Hlt|Hge].
  - assert (Hr : 0 <= n * i < internal_use_size_ (send_slice s)) by (rewrite Hsz; destruct n_cases as [[-> _]|[-> _]]; lia).
    destruct (Z.eqb_spec (send_delta s) 0) as [E0|E0].
    + rewrite (Hn E0) in *. rewrite u64_small, (GetBufIdx_ok _ _ _ Hs Hr) by lia.
      cbn [mbind res_bind]. rewrite u64_small by lia. apply read_blk_at; [done|].
      split; [lia|]. lia.
    + rewrite u64_small, (GetBufIdx_ok _ _ _ Hs Hr) by lia. cbn [mbind res_bind].
      rewrite (read_blk_at _ _ _ _ Hb) by lia. done.
  - assert (Hr : internal_use_size_ (send_slice s) <= n * i) by (rewrite Hsz; destruct n_cases as [[-> _]|[-> _]]; lia).
    destruct (Z.eqb_spec (send_delta s) 0) as [E0|E0].
    + rewrite (Hn E0) in *. by rewrite u64_small, GetBufIdx_err by lia.
    + by rewrite u64_small, GetBufIdx_err by lia.
Qed.

Lemma send_make_window sl :
  slice_ok sl (vsize l) ->
  OtSend.make h (send_blk_buf s) (send_delta s) (internal_use_ctr_ sl) (internal_use_size_ sl)
    (internal_buf_ctr_ sl) (internal_buf_size_ sl) (send_type s)
  = Val (mk_send sl (send_type s) (send_delta s) (send_blk_buf s)).
Proof.
  intros Hsl. destruct V as [Hb _ _]. unfold OtSend.make, OtSend.ConsistencyCheck.
  destruct sl as [a1 a2 a3 a4]. cbn [send_slice send_blk_buf internal_use_ctr_ internal_use_size_ internal_buf_ctr_ internal_buf_size_].
  rewrite (SliceConsistencyCheck_ok _ _ Hsl), (deref_blk_at _ _ _ Hb). cbn. destruct Hsl. cbn in *.
  by replace (a4 <=? vsize l) with true by lia.
Qed.

Lemma send_make_err u1 u2 u3 u4 :
  SliceConsistencyCheck (mk_slice u1 u2 u3 u4) = Err \/
  (SliceConsistencyCheck (mk_slice u1 u2 u3 u4) = Val () /\ vsize l < u4) ->
  OtSend.make h (send_blk_buf s) (send_delta s) u1 u2 u3 u4 (send_type s) = Err.
Proof.
  intros H. destruct V as [Hb _ _]. unfold OtSend.make, OtSend.ConsistencyCheck. cbn.
  destruct H as [->|[-> H]]; [done|]. cbn. rewrite (deref_blk_at _ _ _ Hb). cbn.
  by replace (u4 <=? vsize l) with false by lia.
Qed.

Definition send_next_out (k : Z) : OtSendStore :=
  let c := internal_buf_ctr_ (send_slice s) in
  mk_send (mk_slice c (k * n) c (c + k * n)) (send_type s) (send_delta s) (send_blk_buf s).

Definition send_next_left (k : Z) : OtSendStore :=
  mk_send (mk_slice ctr (internal_use_size_ (send_slice s))
    (internal_buf_ctr_ (send_slice s) + k * n) (internal_buf_size_ (send_slice s)))
    (send_type s) (send_delta s) (send_blk_buf s).

Lemma send_NextSlice k :
  0 <= k < 2 ^ 63 ->
  OtSend.NextSlice h s k =
    if (0 <? k) && (k * n <=? left) then Val (send_next_out k, send_next_left k) else Err.
Proof.
  intros Hk. pose proof V as [Hb Hs Ha]. pose proof Hs as [S1 S2 S3 S4 S5 S6].
  unfold OtSend.NextSlice, OtSend.Slice. set (c := internal_buf_ctr_ (send_slice s)) in *.
  assert (Hkn : 0 <= k * n < 2 ^ 64) by (destruct n_cases as [[-> _]|[-> _]]; lia).
  assert (Hc : c / n * n = c).
  { destruct n_cases as [[-> _]|[-> Ht]]; [dlia|]. destruct (Ha Ht) as (_ & _ & H & _). fold c in H. dlia. }
  assert (Hcn : 0 <= c / n <= c) by (destruct n_cases as [[-> _]|[-> Ht]]; dlia).
  assert (Hpos : (0 <? k * n) = (0 <? k)) by (destruct n_cases as [[-> _]|[-> _]]; lia).
  pose proof (slice_check c (k * n) (vsize l) ltac:(lia) S6 Hkn) as HC. cbn zeta in HC.
  rewrite (u64_small (c / n + k)) by lia. rewrite Hc, Z.mul_add_distr_r, Hc.
  replace (u64 (c / n + k - c / n)) with k by (rewrite u64_small; lia).
  rewrite (u64_small c), (u64_small (k * n)) by lia.
  assert (E : u64 (u64 (c + k * n) - c) = k * n).
  { unfold u64. rewrite Zminus_mod_idemp_l. replace (c + k * n - c) with (k * n) by lia. by apply Z.mod_small. }
  rewrite E, Hpos in HC.
  destruct ((0 <? k) && (c + k * n <=? vsize l)) eqn:EC.
  - destruct HC as [HC1 HC2]. injection HC1 as E2. rewrite E2 in *.
    rewrite (send_make_window _ HC2 : OtSend.make _ _ _ c (k * n) c (c + k * n) _ = _). cbn [mbind res_bind].
    rewrite (IncreaseBufCtr_ok _ _ (k * n) Hs) by lia. fold c.
    replace (0 <? k) with true by lia. cbn [andb].
    destruct (k * n <=? internal_buf_size_ (send_slice s) - c); done.
  - rewrite send_make_err by done. cbn.
    by replace ((0 <? k) && (k * n <=? internal_buf_size_ (send_slice s) - c)) with false by lia.
Qed.

Lemma send_next_views k :
  0 < k -> k * n <= left -> send_view h (send_next_out k) l /\ send_view h (send_next_left k) l.
Proof.
  intros Hk Hl. destruct V as [Hb [] Ha]. unfold send_next_out, send_next_left, aligned in *.
  assert (0 < k * n) by (destruct n_cases as [[-> _]|[-> _]]; lia).
  split; (split; [done|split; cbn; lia|]); unfold aligned; cbn; intros Ht;
    destruct (Ha Ht) as (? & ? & ? & ?); unfold OtSend.ot_blk_num in *; rewrite Ht in *; dlia.
Qed.

Lemma send_next_size k : 0 < k -> OtSend.Size (send_next_out k) = k.
Proof.
  intros Hk. unfold OtSend.Size, send_next_out, OtSend.ot_blk_num. cbn.
  destruct (send_type s); dlia.
Qed.
End Send.
