(* ===== verification/OtStoreTheorems.v ===== *)
(** The contract of the stores of oblivious transfers: consecutive slices
    partition the buffer, a write is seen exactly where windows overlap, mock
    transfers are correlated in every slice, and the copies agree with the
    element-wise reads. *)

From Stdlib Require Import ZArith Lia ZifyBool Bool.
From stdpp Require Import base numbers list option gmap.
From S2P Require Import Prelude BitBlock BitSet BitSetFacts BitSetOps BitSetGrow BitSetRange BitSetString OtStore OtStoreFacts.

Local Open Scope Z_scope.

(** *** Slices *)

(** Successive calls of [NextSlice] on one store. *)
Fixpoint next_slices (h : heap) (s : OtRecvStore) (ns : list Z) : res (list OtRecvStore * OtRecvStore) :=
  match ns with
  | [] => Val ([], s)
  | k :: ns' => '(o, s1) ← OtRecv.NextSlice h s k;
                '(os, s2) ← next_slices h s1 ns'; Val (o :: os, s2)
  end.

Definition sum_list (ns : list Z) : Z := foldr Z.add 0 ns.

Definition room (s : SliceBase) : Z := internal_buf_size_ s - internal_buf_ctr_ s.

(** Whether the requests are positive and fit in the rest of the buffer. *)
Definition requests_fit (r : Z) (ns : list Z) : bool :=
  forallb (fun k => 0 <? k) ns && (sum_list ns <=? r).

(** The [k]-th of the slices starts where the previous one ends. *)
Definition slice_of (s : OtRecvStore) (ns : list Z) (k : nat) (n : Z) : OtRecvStore :=
  let c := internal_buf_ctr_ (recv_slice s) + sum_list (take k ns) in
  mk_recv (mk_slice c n c (c + n)) (recv_type s) (recv_bit_buf s) (recv_blk_buf s).

Lemma sum_list_nonneg ns : forallb (fun k => 0 <? k) ns = true -> 0 <= sum_list ns.
Proof. induction ns as [|k ns IH]; simpl; [lia|]. intros H. apply andb_prop in H as [? H]. specialize (IH H). lia. Qed.

Lemma next_slices_run h s l b ns :
  recv_view h s l b -> Forall (fun k => 0 <= k < 2 ^ 64) ns ->
  if requests_fit (room (recv_slice s)) ns
  then exists s', next_slices h s ns = Val (imap (slice_of s ns) ns, s') /\ recv_view h s' l b /\
         internal_buf_ctr_ (recv_slice s') = internal_buf_ctr_ (recv_slice s) + sum_list ns /\
         Forall (fun o => recv_view h o l b) (imap (slice_of s ns) ns)
  else next_slices h s ns = Err.
Proof.
  intros V Hns. revert s V. induction ns as [|k ns IH]; intros s V.
  { pose proof (view_slice _ _ _ _ V) as []. unfold requests_fit, room. cbn.
    replace (0 <=? _) with true by lia. exists s. split; [done|]. split; [done|]. split; [lia|constructor]. }
  inversion_clear Hns as [|? ? Hk Hns']. specialize (IH Hns'). cbn [next_slices].
  rewrite (recv_NextSlice h s l b V k Hk). unfold requests_fit, room in *. cbn [forallb sum_list foldr].
  fold (sum_list ns).
  destruct ((0 <? k) && (k <=? internal_buf_size_ (recv_slice s) - internal_buf_ctr_ (recv_slice s))) eqn:E; cycle 1.
  { replace (_ && _ && _) with false; [done|]. destruct (forallb _ ns) eqn:F; [|lia].
    apply sum_list_nonneg in F. lia. }
  destruct (recv_next_views h s l b V k) as [V1 V2]; [lia|]. specialize (IH _ V2).
  cbn [mbind res_bind]. cbn [recv_next_left recv_slice internal_buf_size_ internal_buf_ctr_] in IH.
  replace (0 <? k) with true by lia. cbn [andb].
  replace (k + sum_list ns <=? internal_buf_size_ (recv_slice s) - internal_buf_ctr_ (recv_slice s))
    with (sum_list ns <=? internal_buf_size_ (recv_slice s) - (internal_buf_ctr_ (recv_slice s) + k)) by lia.
  destruct (forallb _ ns && _); [|by rewrite IH].
  destruct IH as (s' & -> & V' & C & F). cbn [mbind res_bind].
  assert (Ei : imap (slice_of s (k :: ns)) (k :: ns)
               = recv_next_out s k :: imap (slice_of (recv_next_left s k) ns) ns).
  { cbn [imap]. f_equal.
    - unfold slice_of, recv_next_out. cbn. by rewrite Z.add_0_r.
    - apply imap_ext. intros i x _. unfold slice_of. cbn. by rewrite Z.add_assoc. }
  rewrite Ei. exists s'. split; [done|]. split; [done|]. split; [lia|]. by constructor.
Qed.

(** C30: [OtRecvStore::NextSlice]. On a well-formed store, a sequence of
    requests succeeds exactly when every request is positive and their sum fits
    in what the buffer has left; every other sequence ends in a failed check,
    never in an access out of range, and the counter arithmetic never wraps
    silently. The [k]-th slice has the [k]-th requested size, starts where the
    one before it ends and shares the buffers, so that consecutive slices
    partition the part of the buffer that was handed out: element [i] of slice
    [k] is element [start + i] of the buffer. *)
Theorem recv_slices_partition h s l b ns :
  recv_view h s l b -> Forall (fun k => 0 <= k < 2 ^ 64) ns ->
  if requests_fit (room (recv_slice s)) ns
  then exists s', next_slices h s ns = Val (imap (slice_of s ns) ns, s') /\ recv_view h s' l b /\
         internal_buf_ctr_ (recv_slice s') = internal_buf_ctr_ (recv_slice s) + sum_list ns /\
         forall k n, ns !! k = Some n ->
           recv_view h (slice_of s ns k n) l b /\ OtRecv.Size (slice_of s ns k n) = n /\
           forall i, 0 <= i < n ->
             OtRecv.GetBlock h (slice_of s ns k n) i
             = Val (blk l (internal_buf_ctr_ (recv_slice s) + sum_list (take k ns) + i))
  else next_slices h s ns = Err.
Proof.
  intros V Hns. pose proof (next_slices_run h s l b ns V Hns) as H.
  destruct (requests_fit _ _); [|done]. destruct H as (s' & E & V' & C & F).
  exists s'. split; [done|]. split; [done|]. split; [done|]. intros k n Hk.
  assert (Vk : recv_view h (slice_of s ns k n) l b).
  { rewrite Forall_lookup in F. apply (F k). by rewrite list_lookup_imap, Hk. }
  split; [done|]. split; [done|]. intros i Hi. rewrite (recv_GetBlock _ _ _ _ Vk) by lia.
  unfold OtRecv.Size, slice_of. cbn. by replace (i <? n) with true by lia.
Qed.

(** *** Writes *)

Inductive recv_write := WBlock (i x : Z) | WChoice (i : Z) (c : bool) | WFlip (i : Z).

Definition run_write (h : heap) (s : OtRecvStore) (w : recv_write) : res heap :=
  match w with
  | WBlock i x => OtRecv.SetBlock h s i x
  | WChoice i c => OtRecv.SetChoice h s i c
  | WFlip i => OtRecv.FlipChoice h s i
  end.

Definition write_index (w : recv_write) : Z :=
  match w with WBlock i _ | WChoice i _ | WFlip i => i end.

Definition is_choice_write (w : recv_write) : bool :=
  match w with WBlock _ _ => false | _ => true end.

Definition is_compact (s : OtRecvStore) : bool :=
  match recv_type s with Compact => true | Normal => false end.

(** Whether element [j] of [s2] is element [i] of [s] in the buffers [p], [p2]. *)
Definition same_cell (p p2 : option nat) (s s2 : OtRecvStore) (i j : Z) : bool :=
  bool_decide (p = p2) &&
  (internal_use_ctr_ (recv_slice s) + i =? internal_use_ctr_ (recv_slice s2) + j).

(** What a reader of [s2] sees after the write [w] through [s]. *)
Definition seen_after (h h' : heap) (s s2 : OtRecvStore) (w : recv_write) (j : Z) : Prop :=
  let hit_blk := same_cell (recv_blk_buf s) (recv_blk_buf s2) s s2 (write_index w) j in
  let hit_bit := negb (is_compact s2) &&
    same_cell (recv_bit_buf s) (recv_bit_buf s2) s s2 (write_index w) j in
  match w with
  | WBlock i x =>
      OtRecv.GetBlock h' s2 j = (if hit_blk then Val x else OtRecv.GetBlock h s2 j) /\
      OtRecv.GetChoice h' s2 j
      = (if hit_blk && is_compact s2 then Val (Z.land x 1) else OtRecv.GetChoice h s2 j)
  | WChoice i c =>
      OtRecv.GetBlock h' s2 j = OtRecv.GetBlock h s2 j /\
      OtRecv.GetChoice h' s2 j = (if hit_bit then Val (Z.b2z c) else OtRecv.GetChoice h s2 j)
  | WFlip i =>
      OtRecv.GetBlock h' s2 j = OtRecv.GetBlock h s2 j /\
      OtRecv.GetChoice h' s2 j
      = (c ← OtRecv.GetChoice h s2 j; Val (if hit_bit then 1 - c else c))
  end.

(** A write to the block buffer. *)
Lemma view_put_blk h s l b s2 l2 b2 i x :
  recv_view h s l b -> recv_view h s2 l2 b2 -> 0 <= i < vsize l ->
  recv_view (put_blk h (recv_blk_buf s) (<[Z.to_nat i := x]> l)) s2
    (if decide (recv_blk_buf s = recv_blk_buf s2) then <[Z.to_nat i := x]> l else l2) b2 /\
  (recv_blk_buf s = recv_blk_buf s2 -> l = l2).
Proof.
  intros [B1 S1 N1] [B2 S2 N2] Hi.
  assert (E : recv_blk_buf s = recv_blk_buf s2 -> l = l2).
  { intros Ep. rewrite Ep in B1. by eapply blk_at_inj. }
  split; [|done]. split.
  - by apply blk_at_put.
  - case_decide as D; [rewrite vsize_insert, (E D)|]; done.
  - intros Ht. destruct (N2 Ht) as (H1 & H2 & H3). split; [by apply bit_at_put_blk|]. split; [done|].
    case_decide as D; [rewrite vsize_insert, (E D)|]; done.
Qed.

(** A write to the choice buffer. *)
Lemma view_put_bit h s l b s2 l2 b2 b' :
  recv_view h s l b -> recv_type s = Normal -> recv_view h s2 l2 b2 ->
  wf 128 b' -> m_bits_number b' = vsize l ->
  recv_view (put_bit h (recv_bit_buf s) b') s2 l2
    (if decide (recv_type s2 = Normal /\ recv_bit_buf s = recv_bit_buf s2) then b' else b2) /\
  (recv_type s2 = Normal /\ recv_bit_buf s = recv_bit_buf s2 -> b = b2).
Proof.
  intros [B1 S1 N1] Ht [B2 S2 N2] Hw Hn. set (same := recv_type s2 = Normal /\ recv_bit_buf s = recv_bit_buf s2) in *.
  destruct (N1 Ht) as (H1 & H2 & H3).
  assert (E : same -> b = b2).
  { intros [Ht2 Ep]. destruct (N2 Ht2) as (H4 & _). rewrite Ep in H1. by eapply bit_at_inj. }
  split; [|done]. split; [by apply blk_at_put_bit|done|].
  intros Ht2. destruct (N2 Ht2) as (H4 & H5 & H6).
  destruct (decide _) as [D|D]; pose proof (bit_at_put h (recv_bit_buf s) b' _ _ H4) as H7.
  - rewrite decide_True in H7 by apply D. specialize (E D). subst b2. split; [done|]. split; [done|]. lia.
  - rewrite decide_False in H7 by (intros ?; apply D; by split). done.
Qed.

Lemma seen_block h s l b s2 l2 b2 i x j :
  recv_view h s l b -> recv_view h s2 l2 b2 -> 0 <= i < OtRecv.Size s -> 0 <= j < OtRecv.Size s2 ->
  let h' := put_blk h (recv_blk_buf s) (<[Z.to_nat (internal_use_ctr_ (recv_slice s) + i) := x]> l) in
  seen_after h h' s s2 (WBlock i x) j.
Proof.
  intros V V2 Hi Hj h'. destruct (recv_index h s l b V i Hi) as [_ Hr].
  destruct (view_put_blk h s l b s2 l2 b2 _ x V V2 Hr) as [V' E]. fold h' in V'.
  unfold seen_after, write_index, same_cell. cbn [negb].
  rewrite (recv_GetBlock _ _ _ _ V'), (recv_GetBlock _ _ _ _ V2), (recv_GetChoice _ _ _ _ V'),
    (recv_GetChoice _ _ _ _ V2) by lia. replace (j <? OtRecv.Size s2) with true by lia.
  case_decide as D.
  - specialize (E D). subst l2. rewrite bool_decide_true by done. cbn [andb].
    rewrite blk_insert by done. rewrite (Z.eqb_sym (_ + j)).
    unfold is_compact, choice_of. rewrite blk_insert by done. rewrite (Z.eqb_sym (_ + j)).
    destruct (_ + i =? _ + j); split; try done; destruct (recv_type s2); cbn [andb]; try done.
    by rewrite land_one.
  - rewrite bool_decide_false by done. done.
Qed.

Lemma seen_bit h s l b s2 l2 b2 b' i j :
  recv_view h s l b -> recv_type s = Normal -> recv_view h s2 l2 b2 ->
  wf 128 b' -> m_bits_number b' = vsize l ->
  0 <= i < OtRecv.Size s -> 0 <= j < OtRecv.Size s2 ->
  (forall p, 0 <= p -> p <> internal_use_ctr_ (recv_slice s) + i ->
     Z.testbit (value 128 b') p = Z.testbit (value 128 b) p) ->
  let h' := put_bit h (recv_bit_buf s) b' in
  let hit := negb (is_compact s2) && same_cell (recv_bit_buf s) (recv_bit_buf s2) s s2 i j in
  OtRecv.GetBlock h' s2 j = OtRecv.GetBlock h s2 j /\
  (if hit then OtRecv.GetChoice h' s2 j
     = Val (Z.b2z (Z.testbit (value 128 b') (internal_use_ctr_ (recv_slice s) + i))) /\
     OtRecv.GetChoice h s2 j
     = Val (Z.b2z (Z.testbit (value 128 b) (internal_use_ctr_ (recv_slice s) + i)))
   else OtRecv.GetChoice h' s2 j = OtRecv.GetChoice h s2 j).
Proof.
  intros V Ht V2 Hw Hn Hi Hj Hout h' hit.
  destruct (view_put_bit h s l b s2 l2 b2 b' V Ht V2 Hw Hn) as [V' E]. fold h' in V'.
  destruct (recv_index h s2 l2 b2 V2 j Hj) as [_ Hr].
  rewrite (recv_GetBlock _ _ _ _ V'), (recv_GetBlock _ _ _ _ V2), (recv_GetChoice _ _ _ _ V'),
    (recv_GetChoice _ _ _ _ V2) by lia. replace (j <? OtRecv.Size s2) with true by lia.
  split; [done|]. subst hit. unfold is_compact, same_cell, choice_of.
  destruct (recv_type s2) eqn:Ht2; cbn [negb andb]; [|done].
  destruct (decide (Normal = Normal /\ recv_bit_buf s = recv_bit_buf s2)) as [[_ D]|D].
  - rewrite bool_decide_true by done. specialize (E (conj eq_refl D)). subst b2. cbn [andb].
    destruct (Z.eqb_spec (internal_use_ctr_ (recv_slice s) + i) (internal_use_ctr_ (recv_slice s2) + j)) as [Ec|Ec].
    + by rewrite Ec.
    + rewrite Hout by lia. done.
  - rewrite bool_decide_false by (intros ?; apply D; by split). done.
Qed.

Lemma testbit_set_bit b c i p :
  0 <= i -> 0 <= p ->
  Z.testbit (set_bit_to b c i) p = if p =? i then c else Z.testbit (value 128 b) p.
Proof.
  intros Hi Hp. unfold set_bit_to. destruct c; rewrite ?Z.lor_spec, ?Z.ldiff_spec, testbit_pow2 by lia;
    destruct (p =? i), (Z.testbit (value 128 b) p); done.
Qed.

(** C35: writes through a receiver store. [SetBlock], [SetChoice] and
    [FlipChoice] through one store change exactly the addressed element, for
    every store of the heap: a reader of any well-formed store [s2] (the store
    itself, the store it was sliced from, a sibling slice, an unrelated store)
    sees the new value at the elements whose buffer cell was written and the
    old values elsewhere, and [s2] stays well-formed. An index out of the window
    or a choice write in compact mode is a failed check, never an access out of
    range. *)
Theorem recv_write_visibility h s s2 w :
  recv_wf h s -> recv_wf h s2 -> 0 <= write_index w ->
  match run_write h s w with
  | Val h' => write_index w < OtRecv.Size s /\ (is_choice_write w = true -> recv_type s = Normal) /\
      recv_wf h' s2 /\ forall j, 0 <= j < OtRecv.Size s2 -> seen_after h h' s s2 w j
  | Err => OtRecv.Size s <= write_index w \/ (is_choice_write w = true /\ recv_type s = Compact)
  | Bad => False
  end.
Proof.
  intros (l & b & V) (l2 & b2 & V2) Hw. destruct w as [i x|i c|i]; cbn [run_write write_index is_choice_write] in *.
  - rewrite (recv_SetBlock h s l b V) by done. destruct (Z.ltb_spec i (OtRecv.Size s)) as [Hi|Hi]; [|by left].
    destruct (recv_index h s l b V i) as [_ Hr]; [lia|].
    destruct (view_put_blk h s l b s2 l2 b2 _ x V V2 Hr) as [V' _].
    split; [done|]. split; [done|]. split; [by eexists _, _|].
    intros j Hj. apply (seen_block h s l b s2 l2 b2 i x j); (done || lia).
  - destruct (recv_type s) eqn:Ht; [|unfold OtRecv.SetChoice; rewrite Ht; by right].
    destruct (Z.lt_ge_cases i (OtRecv.Size s)) as [Hi|Hi].
    + destruct (recv_SetChoice h s l b V i c Ht) as (b' & -> & W & N & Vb); [lia|].
      destruct (view_put_bit h s l b s2 l2 b2 b' V Ht V2 W N) as [V' _].
      destruct (recv_index h s l b V i) as [_ Hr]; [lia|].
      split; [done|]. split; [done|]. split; [by eexists _, _|]. intros j Hj.
      destruct (seen_bit h s l b s2 l2 b2 b' i j) as [H1 H2]; try (done || lia).
      { intros p Hp Hne. rewrite Vb, testbit_set_bit by lia. by replace (p =? _) with false by lia. }
      cbn [seen_after write_index]. split; [done|]. rewrite Vb, testbit_set_bit in H2 by lia.
      rewrite Z.eqb_refl in H2. destruct (_ && _); [apply H2|done].
    + unfold OtRecv.SetChoice. rewrite Ht, GetBufIdx_err by done. by left.
  - destruct (recv_type s) eqn:Ht; [|unfold OtRecv.FlipChoice; rewrite Ht; by right].
    destruct (Z.lt_ge_cases i (OtRecv.Size s)) as [Hi|Hi].
    + destruct (recv_FlipChoice h s l b V i Ht) as (b' & -> & W & N & Vb); [lia|].
      destruct (view_put_bit h s l b s2 l2 b2 b' V Ht V2 W N) as [V' _].
      destruct (recv_index h s l b V i) as [_ Hr]; [lia|].
      split; [done|]. split; [done|]. split; [by eexists _, _|]. intros j Hj.
      destruct (seen_bit h s l b s2 l2 b2 b' i j) as [H1 H2]; try (done || lia).
      { intros p Hp Hne. rewrite Vb, Z.lxor_spec, testbit_pow2 by lia.
        replace (p =? _) with false by lia. apply xorb_false_r. }
      cbn [seen_after write_index]. split; [done|]. destruct (_ && _).
      * destruct H2 as [-> ->]. rewrite Vb, Z.lxor_spec, testbit_pow2, Z.eqb_refl by lia. cbn.
        by destruct (Z.testbit (value 128 b) _).
      * rewrite H2, (recv_GetChoice h s2 l2 b2 V2) by lia. by replace (j <? _) with true by lia.
    + unfold OtRecv.FlipChoice. rewrite Ht, GetBufIdx_err by done. by left.
Qed.

(** The copies agree with the element-wise reads, in every slice and in
    both modes. [CopyBlkBuf] returns the blocks [GetBlock] reads, [CopyBitBuf] a
    consistent bitset of the slice's size whose bits are the choices
    [GetChoice] reads: the shift and [resize] of the normal mode and the loop
    of the compact mode compute the same thing. *)
Lemma recv_copies_agree h s :
  recv_wf h s ->
  (exists bl, OtRecv.CopyBlkBuf h s = Val bl /\ vsize bl = OtRecv.Size s /\
     forall i, 0 <= i < OtRecv.Size s -> OtRecv.GetBlock h s i = Val (blk bl i)) /\
  (exists out, OtRecv.CopyBitBuf h s = Val out /\ wf 128 out /\ Bitset.size out = OtRecv.Size s /\
     forall i, 0 <= i < OtRecv.Size s ->
       OtRecv.GetChoice h s i = Val (Z.b2z (Z.testbit (value 128 out) i))).
Proof.
  intros (l & b & V). pose proof (view_slice _ _ _ _ V) as []. split.
  - rewrite (recv_CopyBlkBuf h s l b V). eexists. split; [done|].
    set (c := internal_use_ctr_ (recv_slice s)) in *.
    assert (Hl : vsize (take (Z.to_nat (OtRecv.Size s)) (drop (Z.to_nat c) l)) = OtRecv.Size s).
    { unfold vsize in *. rewrite length_take, length_drop. unfold OtRecv.Size. lia. }
    split; [done|]. intros i Hi. rewrite (recv_GetBlock h s l b V) by lia.
    replace (i <? OtRecv.Size s) with true by lia. f_equal. fold c.
    rewrite blk_take by lia. unfold blk, vget. destruct (Z.leb_spec 0 i); [|lia].
    rewrite lookup_drop. destruct (Z.leb_spec 0 (c + i)); [|lia]. do 2 f_equal. lia.
  - destruct (recv_CopyBitBuf h s l b V) as (out & E & W & N & B). exists out.
    split; [done|]. split; [done|]. split; [done|]. intros i Hi.
    rewrite (recv_GetChoice h s l b V), B by lia. by replace (i <? OtRecv.Size s) with true by lia.
Qed.

(** *** Correlations *)

(** The receiver holds the message of its choice, for every transfer. *)
Definition correlated (h : heap) (s : OtSendStore) (r : OtRecvStore) : Prop :=
  OtSend.Size s = OtRecv.Size r /\
  forall i, 0 <= i < OtRecv.Size r ->
    exists c x, OtRecv.GetChoice h r i = Val c /\ (c = 0 \/ c = 1) /\
      OtRecv.GetBlock h r i = Val x /\ OtSend.GetBlock h s i c = Val x.

(** Both parties take their next slices, in step. *)
Fixpoint next_pairs (h : heap) (s : OtSendStore) (r : OtRecvStore) (ns : list Z)
  : res (list (OtSendStore * OtRecvStore)) :=
  match ns with
  | [] => Val []
  | k :: ns' => '(so, s1) ← OtSend.NextSlice h s k;
                '(ro, r1) ← OtRecv.NextSlice h r k;
                ps ← next_pairs h s1 r1 ns'; Val ((so, ro) :: ps)
  end.

(** The buffers of the two stores agree on the first [n] transfers. *)
Definition agree (delta u : Z) (l lr : list Z) (ty : OtStoreType) (b : dynamic_bitset) (n : Z) : Prop :=
  forall p, 0 <= p < n -> message_at delta l (u * p) (Z.b2z (choice_of ty lr b p)) = blk lr p.

Record in_step (h : heap) (s : OtSendStore) (r : OtRecvStore) (l lr : list Z) (b : dynamic_bitset) : Prop := {
  step_send : send_view h s l;
  step_recv : recv_view h r lr b;
  step_delta : send_delta s = 0 -> send_type s = Normal;
  step_ctr : internal_buf_ctr_ (send_slice s) = OtSend.ot_blk_num s * internal_buf_ctr_ (recv_slice r);
  step_use : internal_use_ctr_ (send_slice s) = OtSend.ot_blk_num s * internal_use_ctr_ (recv_slice r);
  step_size : internal_buf_size_ (send_slice s) = OtSend.ot_blk_num s * internal_buf_size_ (recv_slice r);
  step_used : internal_use_size_ (send_slice s) = OtSend.ot_blk_num s * internal_use_size_ (recv_slice r);
  step_agree : agree (send_delta s) (OtSend.ot_blk_num s) l lr (recv_type r) b
                 (internal_buf_size_ (recv_slice r))
}.

Lemma in_step_correlated h s r l lr b : in_step h s r l lr b -> correlated h s r.
Proof.
  intros [Vs Vr D C U Z S A]. pose proof (view_slice _ _ _ _ Vr) as [].
  assert (Es : OtSend.Size s = OtRecv.Size r).
  { unfold OtRecv.Size. pose proof (send_size h s l Vs). rewrite S in H.
    destruct (n_cases s) as [[E _]|[E _]]; rewrite E in H; lia. }
  split; [done|]. intros i Hi. set (p := internal_use_ctr_ (recv_slice r) + i).
  exists (Z.b2z (choice_of (recv_type r) lr b p)), (blk lr p).
  rewrite (recv_GetChoice h r lr b Vr), (recv_GetBlock h r lr b Vr) by lia.
  replace (i <? OtRecv.Size r) with true by lia. fold p. split; [done|].
  assert (Hc : Z.b2z (choice_of (recv_type r) lr b p) = 0 \/ Z.b2z (choice_of (recv_type r) lr b p) = 1)
    by (destruct (choice_of _ _ _ _); auto).
  split; [done|]. split; [done|]. unfold OtRecv.Size in *.
  rewrite (send_GetBlock h s l Vs) by (done || lia). replace (i <? OtSend.Size s) with true by lia.
  rewrite U, <- Z.mul_add_distr_l. fold p. f_equal. apply A. lia.
Qed.

Lemma in_step_next h s r l lr b k :
  in_step h s r l lr b -> 0 < k <= room (recv_slice r) ->
  exists so s1 ro r1, OtSend.NextSlice h s k = Val (so, s1) /\ OtRecv.NextSlice h r k = Val (ro, r1) /\
    in_step h so ro l lr b /\ in_step h s1 r1 l lr b /\
    room (recv_slice r1) = room (recv_slice r) - k.
Proof.
  intros [Vs Vr D C U Z S A] Hk. pose proof (view_slice _ _ _ _ Vr) as []. unfold room in *.
  assert (Hl : k * OtSend.ot_blk_num s <= internal_buf_size_ (send_slice s) - internal_buf_ctr_ (send_slice s)).
  { rewrite Z, C. destruct (n_cases s) as [[E _]|[E _]]; rewrite E; lia. }
  rewrite (send_NextSlice h s l Vs), (recv_NextSlice h r lr b Vr) by lia.
  replace (0 <? k) with true by lia. replace (k * _ <=? _) with true by lia.
  replace (k <=? _) with true by lia. cbn [andb].
  destruct (send_next_views h s l Vs k) as [VS1 VS2]; [lia|done|].
  destruct (recv_next_views h r lr b Vr k) as [VR1 VR2]; [lia|].
  eexists _, _, _, _. split; [done|]. split; [done|].
  split; [|split]; [split|split|]; try done;
    unfold send_next_out, send_next_left, recv_next_out, recv_next_left, OtSend.ot_blk_num in *;
    cbn [send_slice recv_slice internal_use_ctr_ internal_use_size_ internal_buf_ctr_
      internal_buf_size_ send_type recv_type send_delta] in *;
    try (destruct (send_type s); lia).
  intros p Hp. apply A. lia.
Qed.

Lemma in_step_pairs h s r l lr b ns :
  in_step h s r l lr b -> requests_fit (room (recv_slice r)) ns = true ->
  exists ps, next_pairs h s r ns = Val ps /\ length ps = length ns /\
    Forall (fun p => correlated h (fst p) (snd p)) ps.
Proof.
  revert s r. induction ns as [|k ns IH]; intros s r I F; cbn [next_pairs].
  { exists []. split; [done|]. split; [done|constructor]. }
  unfold requests_fit in *. cbn [forallb sum_list foldr] in F. fold (sum_list ns) in F.
  apply andb_prop in F as [F1 F2]. apply andb_prop in F1 as [Hk F1]. pose proof (sum_list_nonneg _ F1).
  destruct (in_step_next h s r l lr b k I) as (so & s1 & ro & r1 & -> & -> & I1 & I2 & R); [lia|].
  cbn [mbind res_bind]. destruct (IH s1 r1 I2) as (ps & -> & Hl & Hf).
  { rewrite F1. cbn. lia. }
  cbn [mbind res_bind]. eexists. split; [done|]. split; [by cbn; rewrite Hl|].
  constructor; [|done]. by eapply in_step_correlated.
Qed.

(** *** Mock transfers *)

Inductive mock := Rots (choices : dynamic_bitset) | Cots (delta : Z) (choices : dynamic_bitset)
  | CompactOts (rand_delta : Z).

Definition run_mock (h : heap) (gen : Z -> Z) (num : Z) (m : mock) : res (heap * OtSendStore * OtRecvStore) :=
  match m with
  | Rots choices => MockRots h gen num choices
  | Cots delta choices => MockCots h gen num delta choices
  | CompactOts rand_delta => MockCompactOts h gen num rand_delta
  end.

Definition mock_ok (num : Z) (m : mock) : Prop :=
  match m with
  | Rots choices => wf 128 choices /\ Bitset.size choices = num
  | Cots delta choices => 0 < delta < 2 ^ 128 /\ wf 128 choices /\ Bitset.size choices = num
  | CompactOts rand_delta => 0 <= rand_delta < 2 ^ 128
  end.

Definition chosen (choices : dynamic_bitset) (i : Z) : bool := Z.testbit (value 128 choices) i.

Lemma rot_loop_run gen choices n i send recv :
  wf 128 choices -> 0 <= i -> i + Z.of_nat n <= m_bits_number choices ->
  rot_loop gen choices n i send recv
  = Val (send ++ ((fun k => (gen (2 * k), gen (2 * k + 1))) <$> seqZ i (Z.of_nat n)),
         recv ++ ((fun k => if chosen choices k then gen (2 * k + 1) else gen (2 * k)) <$> seqZ i (Z.of_nat n))).
Proof.
  intros Hw. revert i send recv. induction n as [|n IH]; intros i send recv Hi Hn; cbn [rot_loop].
  { by rewrite !app_nil_r. }
  unfold choice_at. rewrite (test_spec 128) by (done || lia). cbn [access mbind res_bind].
  rewrite IH by lia. rewrite (seqZ_cons i) by lia.
  replace (Z.pred (Z.of_nat (S n))) with (Z.of_nat n) by lia.
  cbn [fmap list_fmap]. rewrite <- !app_assoc. by rewrite <- Z.add_1_r.
Qed.

Lemma cot_loop_run gen delta choices n i send recv :
  wf 128 choices -> 0 <= i -> i + Z.of_nat n <= m_bits_number choices ->
  cot_loop gen delta choices n i send recv
  = Val (send ++ (gen <$> seqZ i (Z.of_nat n)),
         recv ++ ((fun k => if negb (chosen choices k) then gen k else Z.lxor (gen k) delta)
                    <$> seqZ i (Z.of_nat n))).
Proof.
  intros Hw. revert i send recv. induction n as [|n IH]; intros i send recv Hi Hn; cbn [cot_loop].
  { by rewrite !app_nil_r. }
  unfold choice_at. rewrite (test_spec 128) by (done || lia). cbn [access mbind res_bind].
  rewrite IH by lia. rewrite (seqZ_cons i) by lia.
  replace (Z.pred (Z.of_nat (S n))) with (Z.of_nat n) by lia.
  cbn [fmap list_fmap]. rewrite <- !app_assoc. by rewrite <- Z.add_1_r.
Qed.

Lemma blk_seqZ (f : Z -> Z) n p : 0 <= p < n -> blk (f <$> seqZ 0 n) p = f p.
Proof.
  intros Hp. unfold blk, vget. destruct (Z.leb_spec 0 p); [|lia].
  rewrite list_lookup_fmap, lookup_seqZ_lt by lia. cbn. f_equal. lia.
Qed.

Lemma vsize_seqZ {A} (f : Z -> A) n : 0 <= n -> vsize (f <$> seqZ 0 n) = n.
Proof. intros Hn. rewrite vsize_map. unfold vsize. rewrite length_seqZ. lia. Qed.

(** The blocks of the pairs, laid out one pair after the other. *)
Lemma blk_pairs (ps : list (Z * Z)) p m :
  0 <= p < vsize ps -> m = 0 \/ m = 1 ->
  blk (ps ≫= fun b => [fst b; snd b]) (2 * p + m)
  = default 0 ((fun b => if m =? 0 then fst b else snd b) <$> ps !! Z.to_nat p).
Proof.
  revert p. induction ps as [|[x y] ps IH]; intros p Hp Hm; [unfold vsize in Hp; cbn in Hp; lia|].
  cbn [mbind list_bind fst snd app].
  replace (x :: y :: _) with ([x; y] ++ (ps ≫= fun b : Z * Z => [fst b; snd b])) by done.
  rewrite blk_app. change (vsize [x; y]) with 2. destruct (Z.eq_dec p 0) as [->|Hne].
  - replace (2 * 0 + m <? 2) with true by lia. destruct Hm as [-> | ->]; done.
  - replace (2 * p + m <? 2) with false by lia.
    replace (2 * p + m - 2) with (2 * (p - 1) + m) by lia.
    rewrite IH by (unfold vsize in *; cbn [length] in *; lia).
    replace (Z.to_nat p) with (S (Z.to_nat (p - 1))) by lia. done.
Qed.

Lemma vsize_pairs (ps : list (Z * Z)) : vsize (ps ≫= fun b => [fst b; snd b]) = 2 * vsize ps.
Proof.
  induction ps as [|a ps IH]; [done|]. cbn [mbind list_bind]. rewrite vsize_app, IH.
  unfold vsize. cbn [length]. lia.
Qed.

Definition whole (n : Z) : SliceBase := mk_slice 0 n 0 n.

Lemma whole_ok n : 0 < n < 2 ^ 62 -> slice_ok (whole n) n.
Proof. intros Hn. split; cbn; lia. Qed.

Lemma make_send_whole h p l delta ty n :
  blk_bufs h !! p = Some l -> vsize l = n -> 0 < n < 2 ^ 62 -> (ty = Normal -> n mod 2 = 0) ->
  OtSend.make h (Some p) delta 0 n 0 n ty = Val (mk_send (whole n) ty delta (Some p)) /\
  send_view h (mk_send (whole n) ty delta (Some p)) l.
Proof.
  intros Hp Hl Hn Ha. assert (V : send_view h (mk_send (whole n) ty delta (Some p)) l).
  { split; [by exists p|rewrite Hl; by apply whole_ok|]. intros Ht. cbn in *. specialize (Ha Ht). done. }
  split; [|done]. apply (send_make_window h _ l V (whole n)). rewrite Hl. by apply whole_ok.
Qed.

Lemma make_recv_whole h p q l b ty n :
  blk_bufs h !! p = Some l -> vsize l = n -> 0 < n < 2 ^ 62 ->
  (ty = Normal -> bit_at h q b /\ wf 128 b /\ m_bits_number b = n) ->
  OtRecv.make h q (Some p) 0 n 0 n ty = Val (mk_recv (whole n) ty q (Some p)) /\
  recv_view h (mk_recv (whole n) ty q (Some p)) l b.
Proof.
  intros Hp Hl Hn Hb. assert (V : recv_view h (mk_recv (whole n) ty q (Some p)) l b).
  { split; [by exists p|rewrite Hl; by apply whole_ok|]. rewrite Hl. done. }
  split; [|done]. apply (recv_make_window h _ l b V (whole n)). rewrite Hl. by apply whole_ok.
Qed.

(** The two stores of a mock, and what is left of it: the agreement of the
    buffers. *)
Lemma mock_in_step h1 ps pr pb l lr b delta sty rty n :
  let u := match sty with Compact => 1 | Normal => 2 end in
  let s := mk_send (whole (u * n)) sty delta (Some ps) in
  let r := mk_recv (whole n) rty pb (Some pr) in
  send_view h1 s l -> recv_view h1 r lr b -> (delta = 0 -> sty = Normal) ->
  agree delta u l lr rty b n -> in_step h1 s r l lr b.
Proof.
  intros u s r Vs Vr Hd A. assert (Eu : OtSend.ot_blk_num s = u) by (by destruct sty).
  split; rewrite ?Eu; try done; cbn; lia.
Qed.

Lemma send_view_heap h h' s l :
  (forall p, send_blk_buf s = Some p -> blk_bufs h' !! p = blk_bufs h !! p) ->
  send_view h s l -> send_view h' s l.
Proof.
  intros Hh [(p & Hp & Hl) S A]. split; [|done|done]. exists p. split; [done|]. by rewrite Hh.
Qed.

Lemma mock_compact_value delta x :
  0 <= delta < 2 ^ 128 -> Z.testbit delta 0 = true ->
  let y := Z.lxor x (u128 (Z.land x 1 * delta)) in
  Z.lxor y (u128 (delta * Z.b2z (Z.testbit x 0))) = x.
Proof.
  intros Hd H0 y. subst y. rewrite land_one. destruct (Z.testbit x 0); cbn [Z.b2z].
  - rewrite Z.mul_1_l, Z.mul_1_r. unfold u128. rewrite (Z.mod_small delta) by done.
    by rewrite Z.lxor_assoc, Z.lxor_nilpotent, Z.lxor_0_r.
  - rewrite Z.mul_0_l, Z.mul_0_r. change (u128 0) with 0. by rewrite !Z.lxor_0_r.
Qed.

Lemma mock_rots_in_step h gen num choices :
  0 < num < 2 ^ 61 -> wf 128 choices -> Bitset.size choices = num ->
  exists h' s r l lr b, MockRots h gen num choices = Val (h', s, r) /\ in_step h' s r l lr b /\
    room (recv_slice r) = num.
Proof.
  intros Hn Hw Hs. unfold MockRots. rewrite Hs, Z.eqb_refl. cbn [enforce mbind res_bind].
  unfold Bitset.size in Hs. rewrite (rot_loop_run gen choices) by (done || lia).
  rewrite Z2Nat.id, !app_nil_l by lia. cbn [mbind res_bind].
  set (pairs := (fun k => (gen (2 * k), gen (2 * k + 1))) <$> seqZ 0 num).
  set (recv := (fun k => if chosen choices k then gen (2 * k + 1) else gen (2 * k)) <$> seqZ 0 num).
  assert (Hp : vsize pairs = num) by (apply vsize_seqZ; lia).
  assert (Hr : vsize recv = num) by (apply vsize_seqZ; lia).
  unfold MakeOtSendStore, new_blk. rewrite Hp, (u64_small (num * 2)) by lia.
  set (bl := pairs ≫= _). assert (Hbl : vsize bl = 2 * num) by (subst bl; rewrite vsize_pairs; lia).
  set (h1 := mk_heap _ _ _).
  destruct (make_send_whole h1 (next_loc h) bl 0 Normal (num * 2)) as [-> V1];
    [by apply lookup_insert_eq|lia|lia|intros _; apply Z.mod_mul; lia|].
  cbn [mbind res_bind]. unfold MakeOtRecvStore, new_bit, new_blk.
  cbn [next_loc blk_bufs bit_bufs h1]. set (h2 := mk_heap _ _ _).
  unfold Bitset.size. rewrite Hs.
  destruct (make_recv_whole h2 (S (S (next_loc h))) (Some (S (next_loc h))) recv choices Normal num)
    as [-> V2]; [by apply lookup_insert_eq|done|lia| |].
  { intros _. split; [|done]. eexists. split; [done|]. by apply lookup_insert_eq. }
  cbn [mbind res_bind]. eexists _, _, _, bl, recv, choices. split; [done|].
  split; [|unfold room; cbn [recv_slice whole internal_buf_size_ internal_buf_ctr_]; lia].
  rewrite Z.mul_comm. rewrite Z.mul_comm in V1. apply (mock_in_step h2 _ _ _ _ _ _ 0 Normal Normal num).
  - eapply send_view_heap; [|done]. cbn. intros p E. injection E as <-. by rewrite lookup_insert_ne by lia.
  - done.
  - done.
  - intros p Hp'. unfold message_at. cbn [choice_of Z.eqb].
    subst recv. rewrite blk_seqZ by done. fold (chosen choices p). subst bl.
    rewrite blk_pairs by (lia || destruct (chosen choices p); auto).
    subst pairs. rewrite list_lookup_fmap, lookup_seqZ_lt by lia. cbn.
    rewrite Z2Nat.id by lia. by destruct (chosen choices p).
Qed.

(** The blocks of the receiver of [MockCots]. *)
Definition cot_blocks (gen : Z -> Z) (delta : Z) (choices : dynamic_bitset) (num : Z) : list Z :=
  (fun k => if negb (chosen choices k) then gen k else Z.lxor (gen k) delta) <$> seqZ 0 num.

Lemma mock_cots_stores h gen num delta choices :
  0 < num < 2 ^ 61 -> 0 < delta < 2 ^ 128 -> wf 128 choices -> Bitset.size choices = num ->
  exists h' s r l, MockCots h gen num delta choices = Val (h', s, r) /\
    in_step h' s r l (cot_blocks gen delta choices num) choices /\
    room (recv_slice r) = num /\ OtRecv.Size r = num /\ recv_type r = Normal /\ send_delta s = delta.
Proof.
  intros Hn Hd Hw Hs. unfold MockCots. rewrite Hs, Z.eqb_refl. cbn [enforce mbind res_bind].
  unfold Bitset.size in Hs. rewrite (cot_loop_run gen delta choices) by (done || lia).
  rewrite Z2Nat.id, !app_nil_l by lia. cbn [mbind res_bind].
  set (send := gen <$> seqZ 0 num).
  set (recv := cot_blocks gen delta choices num).
  assert (Hp : vsize send = num) by (apply vsize_seqZ; lia).
  assert (Hr : vsize recv = num) by (apply vsize_seqZ; lia).
  unfold MakeCompactOtSendStore, new_blk. rewrite Hp. set (h1 := mk_heap _ _ _).
  destruct (make_send_whole h1 (next_loc h) send delta Compact num) as [-> V1];
    [by apply lookup_insert_eq|lia|lia|done|].
  cbn [mbind res_bind]. unfold MakeOtRecvStore, new_bit, new_blk.
  cbn [next_loc blk_bufs bit_bufs h1]. set (h2 := mk_heap _ _ _).
  unfold Bitset.size. rewrite Hs.
  destruct (make_recv_whole h2 (S (S (next_loc h))) (Some (S (next_loc h))) recv choices Normal num)
    as [-> V2]; [by apply lookup_insert_eq|done|lia| |].
  { intros _. split; [|done]. eexists. split; [done|]. by apply lookup_insert_eq. }
  cbn [mbind res_bind]. eexists _, _, _, send. split; [done|].
  split; [|unfold room; cbn [recv_slice whole internal_buf_size_ internal_buf_ctr_]; split; [lia|done]].
  rewrite <- (Z.mul_1_l num) at 1. rewrite <- (Z.mul_1_l num) in V1.
  apply (mock_in_step h2 _ _ _ _ _ _ delta Compact Normal num).
  - eapply send_view_heap; [|done]. cbn. intros p E. injection E as <-. by rewrite lookup_insert_ne by lia.
  - done.
  - lia.
  - intros p Hp'. unfold message_at. replace (delta =? 0) with false by lia. cbn [choice_of].
    subst recv send. unfold cot_blocks. rewrite Z.mul_1_l, !blk_seqZ by done. fold (chosen choices p).
    destruct (chosen choices p); cbn [negb Z.b2z].
    + rewrite Z.mul_1_r. unfold u128. by rewrite Z.mod_small by lia.
    + rewrite Z.mul_0_r. apply Z.lxor_0_r.
Qed.

Lemma mock_cots_in_step h gen num delta choices :
  0 < num < 2 ^ 61 -> 0 < delta < 2 ^ 128 -> wf 128 choices -> Bitset.size choices = num ->
  exists h' s r l lr b, MockCots h gen num delta choices = Val (h', s, r) /\ in_step h' s r l lr b /\
    room (recv_slice r) = num.
Proof.
  intros Hn Hd Hw Hs. destruct (mock_cots_stores h gen num delta choices Hn Hd Hw Hs) as (h' & s & r & l & E & I & R & _).
  by exists h', s, r, l, (cot_blocks gen delta choices num), choices.
Qed.

Lemma mock_compact_in_step h gen num rand_delta :
  0 < num < 2 ^ 61 -> 0 <= rand_delta < 2 ^ 128 ->
  exists h' s r l lr b, MockCompactOts h gen num rand_delta = Val (h', s, r) /\ in_step h' s r l lr b /\
    room (recv_slice r) = num.
Proof.
  intros Hn Hrd. unfold MockCompactOts. set (delta := Z.lor rand_delta 1).
  assert (H0 : Z.testbit delta 0 = true) by (subst delta; rewrite Z.lor_spec; apply orb_true_r).
  assert (Hd : 0 <= delta < 2 ^ 128).
  { assert (0 <= delta) by (apply Z.lor_nonneg; lia). split; [done|]. apply bits_bound; [lia|done|].
    intros j Hj. subst delta. rewrite Z.lor_spec, (testbit_high 128 rand_delta), (testbit_high 128 1) by lia. done. }
  assert (Hd0 : delta <> 0) by (intros E; by rewrite E in H0).
  set (recv := gen <$> seqZ 0 num). set (send := _ <$> recv).
  assert (Hr : vsize recv = num) by (apply vsize_seqZ; lia).
  assert (Hp : vsize send = num) by (subst send; by rewrite vsize_map).
  unfold MakeCompactOtSendStore, new_blk. rewrite Hp. set (h1 := mk_heap _ _ _).
  destruct (make_send_whole h1 (next_loc h) send delta Compact num) as [-> V1];
    [by apply lookup_insert_eq|lia|lia|done|].
  cbn [mbind res_bind]. unfold MakeCompactOtRecvStore, new_blk.
  cbn [next_loc blk_bufs bit_bufs h1]. set (h2 := mk_heap _ _ _). rewrite Hr.
  destruct (make_recv_whole h2 (S (next_loc h)) None recv Bitset.ctor_empty Compact num)
    as [-> V2]; [by apply lookup_insert_eq|done|lia|done|].
  cbn [mbind res_bind]. eexists _, _, _, send, recv, Bitset.ctor_empty. split; [done|].
  split; [|unfold room; cbn [recv_slice whole internal_buf_size_ internal_buf_ctr_]; lia].
  rewrite <- (Z.mul_1_l num) at 1. rewrite <- (Z.mul_1_l num) in V1.
  apply (mock_in_step h2 _ _ _ _ _ _ delta Compact Compact num).
  - eapply send_view_heap; [|done]. cbn. intros p E. injection E as <-. by rewrite lookup_insert_ne by lia.
  - done.
  - done.
  - intros p Hp'. unfold message_at. replace (delta =? 0) with false by lia. cbn [choice_of].
    subst send. rewrite Z.mul_1_l, blk_map by lia. by apply mock_compact_value.
Qed.


(** *** What does not work *)

(** [Reset] clears the sizes and then checks that they are positive: it throws
    on every store, and so does [StealBlkBuf], which calls it. *)
Theorem reset_always_throws h r s n :
  OtRecv.Reset h r = Err /\ OtSend.Reset h s = Err /\
  OtRecv.StealBlkBuf h r n = Err /\ OtSend.StealBlkBuf h s n = Err.
Proof.
  unfold OtRecv.StealBlkBuf, OtSend.StealBlkBuf, OtRecv.Reset, OtSend.Reset, enforce.
  by destruct (n =? 1).
Qed.

(** The index check of a sender store is made after the multiplication, which
    wraps: transfer [2^63] of a store of any size passes it. *)
Theorem send_index_wraps h s l :
  send_view h s l -> send_type s = Normal -> send_delta s = 0 ->
  OtSend.GetBlock h s (2 ^ 63) 0 = OtSend.GetBlock h s 0 0.
Proof. intros V Ht Hd. unfold OtSend.GetBlock. by rewrite Hd. Qed.

(** *** Inputs *)

Definition demo_choices : dynamic_bitset := mk_bitset [0x2D] 6.
Definition demo_heap0 : heap := mk_heap ∅ ∅ 0.

Lemma demo_choices_wf : wf 128 demo_choices.
Proof.
  split; [done|done|repeat constructor; lia|]. intros p Hp. cbn in Hp. unfold bit, demo_choices. cbn [m_blocks].
  destruct (Z.lt_ge_cases p 128).
  - rewrite Z.div_small, Z.mod_small by lia. apply (testbit_high 6); [done|lia].
  - rewrite blk_outside; [apply Z.bits_0|]. right. change (vsize [45]) with 1. dlia.
Qed.

Definition demo_recv : heap * OtRecvStore :=
  match MakeOtRecvStore demo_heap0 demo_choices (seqZ 100 6) with
  | Val x => x
  | _ => (demo_heap0, mk_recv (whole 0) Normal None None)
  end.

Lemma demo_recv_view : recv_view (fst demo_recv) (snd demo_recv) (seqZ 100 6) demo_choices.
Proof.
  split.
  - by exists 1%nat.
  - apply (whole_ok 6). lia.
  - intros _. split; [by exists 0%nat|]. split; [apply demo_choices_wf|done].
Qed.

(** The blocks of the last slice of three, by [NextSlice] and [CopyBlkBuf]. *)
Definition demo_slices : list OtRecvStore :=
  match next_slices (fst demo_recv) (snd demo_recv) [2; 1; 3] with Val (os, _) => os | _ => [] end.

Lemma recv_slices_partition_witness :
  exists s', next_slices (fst demo_recv) (snd demo_recv) [2; 1; 3] = Val (demo_slices, s') /\
    next_slices (fst demo_recv) (snd demo_recv) [2; 5] = Err.
Proof.
  pose proof (recv_slices_partition _ _ _ _ [2; 1; 3] demo_recv_view ltac:(repeat constructor; lia)) as H1.
  pose proof (recv_slices_partition _ _ _ _ [2; 5] demo_recv_view ltac:(repeat constructor; lia)) as H2.
  vm_compute requests_fit in H1. vm_compute requests_fit in H2. destruct H1 as (s' & E & _). exists s'. by split.
Defined.

Lemma recv_write_visibility_witness :
  match run_write (fst demo_recv) (snd demo_recv) (WFlip 3) with
  | Val h' => recv_wf h' (snd demo_recv)
  | _ => False
  end.
Proof.
  assert (W : recv_wf (fst demo_recv) (snd demo_recv)) by (eexists _, _; apply demo_recv_view).
  pose proof (recv_write_visibility _ _ _ (WFlip 3) W W ltac:(cbn; lia)) as H.
  destruct (run_write _ _ _) eqn:E; [apply H|vm_compute in E; discriminate|done].
Defined.

Lemma recv_copies_agree_witness :
  exists out, OtRecv.CopyBitBuf (fst demo_recv) (snd demo_recv) = Val out /\ Bitset.size out = 6.
Proof.
  assert (W : recv_wf (fst demo_recv) (snd demo_recv)) by (eexists _, _; apply demo_recv_view).
  destruct (recv_copies_agree _ _ W) as (_ & out & E & _ & S & _). by exists out.
Defined.


(** The compact copy starts at the buffer counter, not at the start of the
    slice: after one [NextSlice] it leaves out the first blocks and reads past
    the end of the buffer, where [CopyBlkBuf] of the receiver does not. *)
Theorem copy_cot_after_slice :
  match MakeCompactOtSendStore demo_heap0 (seqZ 1 4) 9 with
  | Val (h, s) => OtSend.CopyCotBlkBuf h s = Val (seqZ 1 4) /\
      match OtSend.NextSlice h s 1 with
      | Val (_, s') => OtSend.Size s' = 4 /\ OtSend.CopyCotBlkBuf h s' = Bad
      | _ => False
      end
  | _ => False
  end.
Proof. vm_compute. done. Qed.
