(* ===== verification/SparseXor.v ===== *)
(** Sparse matrices over the field of two elements, applied to vectors of words: a
    matrix is the list of the positions of the ones of each column, and encoding
    adds to every word of the output the exclusive or of the words of the input at
    those positions. What the linear codes compute, and the interface they offer
    to the protocols that use them. *)

From Stdlib Require Import ZArith Lia ZifyBool Bool.
From stdpp Require Import base numbers list option.
From S2P Require Import Prelude OtStore.

Local Open Scope Z_scope.

(** The sum of the words at some positions. *)
Definition xor_over (l : list Z) (js : list Z) : Z := foldr (fun j a => Z.lxor (blk l j) a) 0 js.

(** The sum of two vectors. *)
Definition xor_words : list Z -> list Z -> list Z := zip_with Z.lxor.

(** [out + inp * A], for the matrix [A] with the columns [col]. *)
Definition encode_with (col : Z -> list Z) (inp out : list Z) : list Z :=
  imap (fun c x => Z.lxor x (xor_over inp (col (Z.of_nat c)))) out.

(** *** Vectors *)

Lemma vsize_xor_words a b : vsize a = vsize b -> vsize (xor_words a b) = vsize a.
Proof. unfold vsize, xor_words. rewrite length_zip_with. lia. Qed.

Lemma blk_lookup (l : list Z) i : 0 <= i -> blk l i = default 0 (l !! Z.to_nat i).
Proof. intros H. unfold blk, vget. by replace (0 <=? i) with true by lia. Qed.

Lemma blk_xor_words a b i : vsize a = vsize b -> blk (xor_words a b) i = Z.lxor (blk a i) (blk b i).
Proof.
  intros Hl. destruct (Z.ltb_spec i 0) as [?|Hi]; [by rewrite !blk_outside by lia|].
  rewrite !blk_lookup by done. unfold xor_words. rewrite lookup_zip_with.
  unfold vsize in Hl. destruct (decide (Z.to_nat i < length a)%nat) as [H|H].
  - destruct (lookup_lt_is_Some_2 a (Z.to_nat i)) as [x ->]; [done|].
    destruct (lookup_lt_is_Some_2 b (Z.to_nat i)) as [y ->]; [lia|]. done.
  - rewrite (lookup_ge_None_2 a), (lookup_ge_None_2 b) by lia. done.
Qed.

Lemma vsize_encode_with col inp out : vsize (encode_with col inp out) = vsize out.
Proof. unfold vsize, encode_with. by rewrite length_imap. Qed.

Lemma blk_encode_with col inp out c : 0 <= c < vsize out ->
  blk (encode_with col inp out) c = Z.lxor (blk out c) (xor_over inp (col c)).
Proof.
  intros Hc. rewrite !blk_lookup by lia. unfold encode_with. rewrite list_lookup_imap.
  destruct (lookup_lt_is_Some_2 out (Z.to_nat c)) as [x ->]; [unfold vsize in Hc; lia|].
  cbn. by rewrite Z2Nat.id by lia.
Qed.

(** The words that an encoding leaves, by position. *)
Lemma encode_with_intro col inp out out' : vsize out' = vsize out ->
  (forall c, 0 <= c < vsize out -> blk out' c = Z.lxor (blk out c) (xor_over inp (col c))) ->
  out' = encode_with col inp out.
Proof.
  intros Hs H. apply blk_ext; [by rewrite vsize_encode_with|].
  intros c Hc. rewrite blk_encode_with by lia. apply H. lia.
Qed.

Lemma encode_with_ext col col' inp out :
  (forall c, 0 <= c < vsize out -> col c = col' c) -> encode_with col inp out = encode_with col' inp out.
Proof.
  intros H. apply encode_with_intro; [apply vsize_encode_with|]. intros c Hc. by rewrite blk_encode_with, H by done.
Qed.

(** *** Linearity *)

Lemma xor_swap a b c d : Z.lxor (Z.lxor a b) (Z.lxor c d) = Z.lxor (Z.lxor a c) (Z.lxor b d).
Proof. rewrite !Z.lxor_assoc. f_equal. by rewrite <- !Z.lxor_assoc, (Z.lxor_comm b c). Qed.

Lemma xor_over_words a b js : vsize a = vsize b ->
  xor_over (xor_words a b) js = Z.lxor (xor_over a js) (xor_over b js).
Proof.
  intros Hl. induction js as [|j js IH]; [done|]. cbn [xor_over foldr].
  rewrite blk_xor_words by done. fold (xor_over (xor_words a b) js) (xor_over a js) (xor_over b js).
  rewrite IH. apply xor_swap.
Qed.

Lemma xor_over_app l js js' : xor_over l (js ++ js') = Z.lxor (xor_over l js) (xor_over l js').
Proof. unfold xor_over. induction js as [|j js IH]; [done|]. cbn. by rewrite IH, Z.lxor_assoc. Qed.

Lemma xor_over_range w l js : 0 <= w -> (forall j, 0 <= blk l j < 2 ^ w) -> 0 <= xor_over l js < 2 ^ w.
Proof.
  intros Hw H. induction js as [|j js IH]; cbn; [pose proof (Z.pow_pos_nonneg 2 w); lia|].
  fold (xor_over l js). pose proof (H j). assert (0 <= Z.lxor (blk l j) (xor_over l js)) by (apply Z.lxor_nonneg; lia).
  split; [done|]. apply bits_bound; [lia|done|].
  intros i Hi. by rewrite Z.lxor_spec, (testbit_high w (blk l j)), (testbit_high w (xor_over l js)) by lia.
Qed.

(** Encoding the sum of two inputs into the sum of two outputs. *)
Lemma encode_with_linear col a b x y : vsize a = vsize b -> vsize x = vsize y ->
  encode_with col (xor_words a b) (xor_words x y) = xor_words (encode_with col a x) (encode_with col b y).
Proof.
  intros Hl Ho. symmetry. apply encode_with_intro.
  - by rewrite !vsize_xor_words; rewrite ?vsize_encode_with.
  - intros c Hc. rewrite vsize_xor_words in Hc by done.
    rewrite !blk_xor_words by (rewrite ?vsize_encode_with; done).
    rewrite !blk_encode_with, xor_over_words by lia. apply xor_swap.
Qed.

(** *** Encoding word by word *)

(** The words below [q] are encoded. *)
Definition encoded (col : Z -> list Z) (inp out : list Z) (q : Z) (cur : list Z) : Prop :=
  vsize cur = vsize out /\
  forall r, 0 <= r < vsize out -> blk cur r = if r <? q then Z.lxor (blk out r) (xor_over inp (col r)) else blk out r.

Lemma encoded_start col inp out q : q <= 0 -> encoded col inp out q out.
Proof. intros Hq. split; [done|]. intros r Hr. by replace (r <? q) with false by lia. Qed.

(** Reading the next word and writing its encoding. *)
Lemma encoded_next col inp out q cur : encoded col inp out q cur -> 0 <= q < vsize out ->
  vget cur q = Some (blk out q) /\
  exists cur', vset cur q (Z.lxor (blk out q) (xor_over inp (col q))) = Some cur' /\ encoded col inp out (q + 1) cur'.
Proof.
  intros (Sc & Hc) Hq. rewrite vget_blk, Hc by lia. replace (q <? q) with false by lia. split; [done|].
  rewrite vset_Some by lia. eexists. split; [done|]. split; [by rewrite vsize_insert|].
  intros r Hr. rewrite blk_insert by lia. destruct (Z.eqb_spec r q) as [-> | Hne].
  - by replace (q <? q + 1) with true by lia.
  - rewrite Hc by lia. by replace (r <? q + 1) with (r <? q) by lia.
Qed.

(** The encoding of the first [size] words of the output. *)
Definition encode_prefix (col : Z -> list Z) (size : Z) (inp out : list Z) : list Z :=
  encode_with col inp (take (Z.to_nat size) out) ++ drop (Z.to_nat size) out.

Lemma encoded_prefix col inp out size cur : 0 <= size <= vsize out -> encoded col inp out size cur ->
  cur = encode_prefix col size inp out.
Proof.
  intros Hs (Sc & Hc). unfold encode_prefix. assert (St : vsize (take (Z.to_nat size) out) = size).
  { unfold vsize in *. rewrite length_take. lia. }
  apply blk_ext.
  - rewrite vsize_app, vsize_encode_with, St. unfold vsize in *. rewrite length_drop. lia.
  - intros r Hr. rewrite Hc, blk_app, vsize_encode_with, St by lia.
    destruct (Z.ltb_spec r size).
    + rewrite blk_encode_with, blk_take by lia. zcase; (done || lia).
    + rewrite !blk_lookup, lookup_drop by lia. f_equal. f_equal. lia.
Qed.

Lemma encode_all col inp out : encode_prefix col (vsize out) inp out = encode_with col inp out.
Proof. unfold encode_prefix, vsize. by rewrite Nat2Z.id, take_ge, drop_ge, app_nil_r by lia. Qed.

#[export] Instance xor_over_perm l : Proper ((≡ₚ) ==> eq) (xor_over l).
Proof.
  intros js js' H. unfold xor_over. induction H as [|j a b _ IH|j j' a|a b c0 _ IH1 _ IH2]; cbn; [done|by rewrite IH| |congruence].
  by rewrite <- !Z.lxor_assoc, (Z.lxor_comm (blk l j)).
Qed.

(** *** The interface of a code *)

(** [enc], which encodes [k] words into at most [limit] words, applies the matrix
    with the columns [col], whose positions are in the input. *)
Class Encoder (k limit : Z) (col : Z -> list Z) (enc : list Z -> list Z -> res (list Z)) : Prop := {
  col_range c j : 0 <= c < limit -> j ∈ col c -> 0 <= j < k;
  encodes inp out : vsize inp = k -> vsize out <= limit -> enc inp out = Val (encode_with col inp out)
}.

(** A code encodes a sum of inputs to the sum of their encodings. *)
Lemma encoder_linear k limit col enc a b x y : Encoder k limit col enc ->
  vsize a = k -> vsize b = k -> vsize x = vsize y -> vsize x <= limit ->
  exists u v, enc a x = Val u /\ enc b y = Val v /\ enc (xor_words a b) (xor_words x y) = Val (xor_words u v).
Proof.
  intros HE Ha Hb Hxy Hx. exists (encode_with col a x), (encode_with col b y).
  rewrite !(encodes (enc := enc)), encode_with_linear by (rewrite ?vsize_xor_words; lia). done.
Qed.
