(* ===== verification/Ge2n.v ===== *)
(** The group of integers modulo a power of two
    (src/yacl/crypto/experimental/dpf/ge2n.h).

    [GE2n<N>] keeps an unreduced 128-bit word and reduces it to [N] bits when it
    is read: an element is its word here, and two words denote the same element
    when they are congruent modulo [2^N]. *)

From Stdlib Require Import ZArith Lia ZifyBool Bool Setoid Morphisms.
From stdpp Require Import base numbers option.
From S2P Require Import Prelude.

Local Open Scope Z_scope.

Module GE2n.

(** [uint128_t] arithmetic. *)
Definition u128 (x : Z) : Z := x mod 2 ^ 128.
Definition Uint128Max : Z := 2 ^ 128 - 1.

Section GE2n.
Context (N : Z).

Definition kMask_ : Z := if N =? 128 then Uint128Max else u128 (u128 (Z.shiftl 1 N) - 1).

Definition GetVal (store_ : Z) : Z := Z.land store_ kMask_.
Definition GetMask : Z := kMask_.
Definition GetN : Z := N.

Definition GetBit (store_ i : Z) : option Z :=
  assert! (i <? 128); Some (Z.land (Z.shiftr store_ i) 1).

Definition ReverseInplace (store_ : Z) : Z := u128 (u128 (kMask_ - GetVal store_) + 1).
Definition GetReverse (store_ : Z) : Z := u128 (u128 (kMask_ - GetVal store_) + 1).

Definition add (a b : Z) : Z := u128 (a + b).
Definition sub (a b : Z) : Z := u128 (a - b).
Definition add_assign (a b : Z) : Z := u128 (a + b).
Definition sub_assign (a b : Z) : Z := u128 (a - b).

Definition eqb (a b : Z) : bool := GetVal a =? GetVal b.
Definition neqb (a b : Z) : bool := negb (GetVal a =? GetVal b).
Definition gtb (a b : Z) : bool := GetVal b <? GetVal a.
Definition geb (a b : Z) : bool := GetVal b <=? GetVal a.
Definition ltb (a b : Z) : bool := GetVal a <? GetVal b.
Definition leb (a b : Z) : bool := GetVal a <=? GetVal b.
End GE2n.
End GE2n.

Class GroupBits (N : Z) : Prop := group_bits : 0 < N <= 128.

#[export] Instance group_64 : GroupBits 64 := ltac:(unfold GroupBits; lia).
#[export] Instance group_128 : GroupBits 128 := ltac:(unfold GroupBits; lia).

(** Congruence modulo [2^N]: the same group element. *)
Definition same_element (N a b : Z) : Prop := a mod 2 ^ N = b mod 2 ^ N.

#[export] Instance same_element_equiv N : Equivalence (same_element N).
Proof. unfold same_element. split; [by intros x|by intros x y|by intros x y z -> ->]. Qed.

#[export] Instance add_proper N : Proper (same_element N ==> same_element N ==> same_element N) Z.add.
Proof.
  unfold same_element. intros a b E c d F.
  by rewrite (Zplus_mod a c), (Zplus_mod b d), E, F.
Qed.

#[export] Instance sub_proper N : Proper (same_element N ==> same_element N ==> same_element N) Z.sub.
Proof.
  unfold same_element. intros a b E c d F.
  by rewrite (Zminus_mod a c), (Zminus_mod b d), E, F.
Qed.

#[export] Instance opp_proper N : Proper (same_element N ==> same_element N) Z.opp.
Proof.
  unfold same_element. intros a b E. rewrite <- !Z.sub_0_l.
  by rewrite (Zminus_mod 0 a), (Zminus_mod 0 b), E.
Qed.

Section Facts.
Context (N : Z) {HN : GroupBits N}.

Lemma bits_bounds : 0 < N <= 128.
Proof. exact HN. Qed.

Lemma kMask_ones : GE2n.kMask_ N = Z.ones N.
Proof.
  pose proof bits_bounds. unfold GE2n.kMask_. destruct (Z.eqb_spec N 128) as [->|Hne]; [done|].
  rewrite Z.shiftl_1_l. rewrite Z.ones_equiv. unfold GE2n.u128.
  assert (2 ^ 1 <= 2 ^ N < 2 ^ 128) by (split; [apply Z.pow_le_mono_r; lia|apply Z.pow_lt_mono_r; lia]).
  rewrite (Z.mod_small (2 ^ N)) by lia. rewrite Z.mod_small by lia. lia.
Qed.

Lemma GetVal_mod x : GE2n.GetVal N x = x mod 2 ^ N.
Proof. pose proof bits_bounds. unfold GE2n.GetVal. rewrite kMask_ones. by apply Z.land_ones; lia. Qed.

Lemma u128_same x : same_element N (GE2n.u128 x) x.
Proof.
  pose proof bits_bounds. unfold same_element, GE2n.u128.
  replace (2 ^ 128) with (2 ^ N * 2 ^ (128 - N)) by (rewrite <- Z.pow_add_r by lia; f_equal; lia).
  rewrite Z.rem_mul_r by lia. rewrite Z.mul_comm, Z.mod_add by lia. apply Z.mod_mod. lia.
Qed.

Lemma mod_same x : same_element N (x mod 2 ^ N) x.
Proof. unfold same_element. apply Z.mod_mod. pose proof bits_bounds. lia. Qed.

Lemma GetVal_same x : same_element N (GE2n.GetVal N x) x.
Proof. rewrite GetVal_mod. apply mod_same. Qed.

Lemma add_same a b : same_element N (GE2n.add a b) (a + b).
Proof. apply u128_same. Qed.

Lemma sub_same a b : same_element N (GE2n.sub a b) (a - b).
Proof. apply u128_same. Qed.

Lemma GetReverse_same a : same_element N (GE2n.GetReverse N a) (- a).
Proof.
  pose proof bits_bounds. unfold GE2n.GetReverse. rewrite !u128_same, GetVal_same, kMask_ones, Z.ones_equiv.
  unfold same_element. replace (Z.pred (2 ^ N) - a + 1) with (- a + 1 * 2 ^ N) by lia.
  apply Z.mod_add. lia.
Qed.

Lemma ReverseInplace_eq a : GE2n.ReverseInplace N a = GE2n.GetReverse N a.
Proof. done. Qed.

Lemma GetVal_eq a b : same_element N a b -> GE2n.GetVal N a = GE2n.GetVal N b.
Proof. rewrite !GetVal_mod. done. Qed.

Lemma GetBit_testbit x i : 0 <= i < 128 -> GE2n.GetBit x i = Some (Z.b2z (Z.testbit x i)).
Proof.
  intros Hi. unfold GE2n.GetBit. replace (i <? 128) with true by lia. cbn. f_equal.
  change 1 with (Z.ones 1). rewrite Z.land_ones by lia. change (2 ^ 1) with 2.
  rewrite Z.testbit_spec' by lia. by rewrite Z.shiftr_div_pow2 by lia.
Qed.
End Facts.

(** The operations respect the congruence. *)
#[export] Instance u128_proper N {HN : GroupBits N} : Proper (same_element N ==> same_element N) GE2n.u128.
Proof. intros a b E. by rewrite !(u128_same N). Qed.

#[export] Instance ge2n_add_proper N {HN : GroupBits N} :
  Proper (same_element N ==> same_element N ==> same_element N) GE2n.add.
Proof. intros a b E c d F. by rewrite !(add_same N), E, F. Qed.

#[export] Instance reverse_proper N {HN : GroupBits N} :
  Proper (same_element N ==> same_element N) (GE2n.GetReverse N).
Proof. intros a b E. by rewrite !(GetReverse_same N), E. Qed.

#[export] Instance getval_proper N {HN : GroupBits N} :
  Proper (same_element N ==> same_element N) (GE2n.GetVal N).
Proof. intros a b E. by rewrite !(GetVal_same N). Qed.

(** Rewrite a group expression to the integer expression it is congruent to. *)
Ltac ge2n_simpl N :=
  repeat (rewrite (GetVal_same N) || rewrite (GetReverse_same N) || rewrite (add_same N)
          || rewrite (sub_same N) || rewrite (u128_same N)).

(** The group operations of [GE2n]. With the word kept unreduced and
    128-bit wrap-around, addition, subtraction, negation and the tests compute in
    the integers modulo [2^N], for every width up to 128: the corner cases of the
    mask ([N = 128]) and of the negation of zero (whose word is [2^N], not 0)
    included. *)
Lemma ge2n_group N (HN : GroupBits N) a b :
  GE2n.GetVal N (GE2n.add a b) = (GE2n.GetVal N a + GE2n.GetVal N b) mod 2 ^ N /\
  GE2n.GetVal N (GE2n.sub a b) = (GE2n.GetVal N a - GE2n.GetVal N b) mod 2 ^ N /\
  GE2n.GetVal N (GE2n.GetReverse N a) = (- GE2n.GetVal N a) mod 2 ^ N /\
  GE2n.GetVal N (GE2n.add a (GE2n.GetReverse N a)) = 0 /\
  GE2n.ReverseInplace N a = GE2n.GetReverse N a /\
  0 <= GE2n.GetVal N a < 2 ^ N /\
  (GE2n.eqb N a b = true <-> same_element N a b) /\
  (GE2n.leb N a b = negb (GE2n.gtb N a b) /\ GE2n.geb N a b = negb (GE2n.ltb N a b)).
Proof.
  pose proof (bits_bounds N). assert (0 < 2 ^ N) by lia.
  split; [rewrite !(GetVal_mod N); rewrite <- Zplus_mod; apply (add_same N)|].
  split; [rewrite !(GetVal_mod N); rewrite <- Zminus_mod; apply (sub_same N)|].
  split; [rewrite (GetVal_mod N (GE2n.GetReverse N a)); change (same_element N (GE2n.GetReverse N a) (- GE2n.GetVal N a));
    by rewrite (GetReverse_same N), (GetVal_same N)|].
  split.
  { rewrite (GetVal_mod N). change (same_element N (GE2n.add a (GE2n.GetReverse N a)) 0).
    rewrite (add_same N), (GetReverse_same N). by rewrite Z.add_opp_diag_r. }
  split; [done|]. split; [rewrite (GetVal_mod N); apply Z.mod_pos_bound; lia|].
  unfold GE2n.eqb, GE2n.leb, GE2n.geb, GE2n.gtb, GE2n.ltb. split.
  - rewrite Z.eqb_eq, !(GetVal_mod N). done.
  - split; lia.
Qed.

(** Two elements whose words differ by a carry out of the group. *)
Lemma ge2n_group_witness :
  GE2n.GetVal 64 (GE2n.add (2 ^ 64 - 1) 1) = 0 /\ GE2n.GetReverse 64 0 = 2 ^ 64.
Proof.
  destruct (ge2n_group 64 group_64 (2 ^ 64 - 1) 1) as [-> _]. by split; vm_compute.
Defined.
