(* ===== verification/Dpf.v ===== *)
(** Distributed point functions (src/yacl/crypto/experimental/dpf/dpf.h, dpf.cc).

    Two keys share a point function: each party evaluates its key to an additive
    share. The pseudo-random generator ([Prg], on AES) is a parameter: the first
    word it draws from a seed, and the first three. *)

From Stdlib Require Import ZArith Lia ZifyBool Bool Setoid Morphisms.
From stdpp Require Import base numbers list option.
From S2P Require Import Prelude Ge2n.

Local Open Scope Z_scope.

(** A C++ integer as a condition. *)
Definition to_bool (x : Z) : bool := negb (x =? 0).

(** [x << s] of a [uint32_t], undefined when [s] is not below the width. *)
Definition shl32 (x s : Z) : option Z := assert! ((0 <=? s) && (s <? 32)); Some ((x * 2 ^ s) mod 2 ^ 32).

(** *** [DpfKey::CW] *)

Record CW := mk_cw { seed_ : Z; t_store_ : Z }.

Definition CW_default : CW := mk_cw 0 0.

Definition GetLT (c : CW) : Z := Z.land (t_store_ c) 1.
Definition GetRT (c : CW) : Z := Z.land (Z.shiftr (t_store_ c) 1) 1.

Definition SetLT (c : CW) (t_left : Z) : option CW :=
  assert! ((t_left =? 0) || (t_left =? 1));
  Some (mk_cw (seed_ c) ((Z.shiftl (GetRT c) 1 + t_left) mod 2 ^ 8)).

Definition SetRT (c : CW) (t_right : Z) : option CW :=
  assert! ((t_right =? 0) || (t_right =? 1));
  Some (mk_cw (seed_ c) ((Z.shiftl t_right 1 + GetLT c) mod 2 ^ 8)).

Definition SetSeed (c : CW) (seed : Z) : CW := mk_cw seed (t_store_ c).

Record DpfKey := mk_key {
  enable_evalall : bool;
  cws_vec : list CW;
  last_cw_vec : list Z;
  rank_ : bool;
  mseed_ : Z
}.

(** [DpfKey(rank, mseed)]. *)
Definition new_key (rank : bool) (mseed : Z) : DpfKey := mk_key false [] [] rank mseed.

(** [floor(log(k))], the natural logarithm of a small positive integer: the
    powers of e are 2.7, 7.4, 20.1 and 54.6. *)
Definition floor_log (k : Z) : Z :=
  if k <? 3 then 0 else if k <? 8 then 1 else if k <? 21 then 2 else if k <? 55 then 3 else 4.

(** [ceil(m - log(c / n))] is [m - floor(log(c / n))]; [c] is 128. *)
Definition GetTerminateLevel (evalall : bool) (m n : Z) : Z :=
  if negb evalall then m else Z.min m (m - floor_log (128 / n)).

Section Dpf.
Context (prg1 : Z -> Z) (prg3 : Z -> Z * Z * Z).
Context (M N : Z).

Definition DpfPRG (seed : Z) : Z := prg1 seed.

Definition SplitDpfSeed (seed : Z) : Z * bool * Z * bool :=
  let '(seed_left, seed_right, tmp) := prg3 seed in
  (seed_left, to_bool (Z.land (Z.shiftr tmp 1) 1), seed_right, to_bool (Z.land (Z.shiftr tmp 2) 1)).

(** The two children of a node, with the correction word of its level. *)
Definition children (cw : CW) (seed_working : Z) (t_working : bool) : Z * bool * Z * bool :=
  let '(seed_left, t_left, seed_right, t_right) := SplitDpfSeed seed_working in
  ((if t_working then Z.lxor seed_left (seed_ cw) else seed_left),
   to_bool (Z.lxor (Z.b2z t_left) (Z.b2z t_working * GetLT cw)),
   (if t_working then Z.lxor seed_right (seed_ cw) else seed_right),
   to_bool (Z.lxor (Z.b2z t_right) (Z.b2z t_working * GetRT cw))).

(** *** Evaluation at a point *)

Definition eval_level (key : DpfKey) (in_ : Z) (i : Z) (st : Z * bool) : option (Z * bool) :=
  cw ← vget (cws_vec key) i;
  let '(seed_left, t_left, seed_right, t_right) := children cw (fst st) (snd st) in
  b ← GE2n.GetBit in_ i;
  Some (if to_bool b then (seed_right, t_right) else (seed_left, t_left)).

Definition DpfEval (key : DpfKey) (in_ : Z) : option Z :=
  assert! (negb (enable_evalall key));
  '(seed_working, t_working) ← for_up (Z.to_nat M) 0 (eval_level key in_) (mseed_ key, rank_ key);
  let prg := DpfPRG seed_working in
  last ← vget (last_cw_vec key) 0;
  let tmp := GE2n.u128 (Z.b2z t_working * last) in
  Some (if rank_ key then GE2n.GetVal N (GE2n.GetReverse N (GE2n.add prg tmp))
        else GE2n.GetVal N (GE2n.add prg tmp)).

(** *** Evaluation on the whole domain *)

(** The values of a leaf: [result[current_pos + (i << term_level)]]. *)
Definition leaf_step (key : DpfKey) (current_pos term_level : Z) (t_working : bool) (i : Z)
    (st : list Z * Z) : option (list Z * Z) :=
  let '(result, prg) := st in
  last ← vget (last_cw_vec key) i;
  let tmp := GE2n.u128 (Z.b2z t_working * last) in
  off ← shl32 i term_level;
  result' ← vset result ((current_pos + off) mod 2 ^ 64)
    (if rank_ key then GE2n.GetReverse N (GE2n.add prg tmp) else GE2n.add prg tmp);
  Some (result', DpfPRG (GE2n.GetVal N prg)).

Fixpoint Traverse (fuel : nat) (key : DpfKey) (result : list Z) (current_level current_pos : Z)
    (seed_working : Z) (t_working : bool) (term_level : Z) : option (list Z) :=
  match fuel with
  | O => None
  | S fuel' =>
      if current_level <? term_level
      then cw ← vget (cws_vec key) current_level;
           let '(seed_left, t_left, seed_right, t_right) := children cw seed_working t_working in
           let next_left_pos := current_pos in
           let next_right_pos := (2 ^ current_level + current_pos) mod 2 ^ 64 in
           result1 ← Traverse fuel' key result (current_level + 1) next_left_pos seed_left t_left term_level;
           Traverse fuel' key result1 (current_level + 1) next_right_pos seed_right t_right term_level
      else expand_num ← shl32 1 (M - term_level);
           '(result', _) ← for_up (Z.to_nat expand_num) 0
             (leaf_step key current_pos term_level t_working) (result, DpfPRG seed_working);
           Some result'
  end.

Definition DpfEvalAll (key : DpfKey) (out : list Z) : option (list Z) :=
  assert! (enable_evalall key);
  let term_level := GetTerminateLevel true M N in
  Traverse (S (Z.to_nat term_level)) key out 0 0 (mseed_ key) (rank_ key) term_level.

(** *** Key generation *)

Record work := mk_work { w_seed0 : Z; w_seed1 : Z; w_t0 : bool; w_t1 : bool }.

(** One level: the correction word and the working values of the next level. *)
Definition keygen_cw (alpha_bit : bool) (w : work) : Z * bool * bool * work :=
  let '(l0, tl0, r0, tr0) := SplitDpfSeed (w_seed0 w) in
  let '(l1, tl1, r1, tr1) := SplitDpfSeed (w_seed1 w) in
  let '(keep0, keep1) := if alpha_bit then (r0, r1) else (l0, l1) in
  let '(lose0, lose1) := if alpha_bit then (l0, l1) else (r0, r1) in
  let '(t_keep0, t_keep1) := if alpha_bit then (tr0, tr1) else (tl0, tl1) in
  let cw_seed := Z.lxor lose0 lose1 in
  let cw_t_left := xorb (xorb (xorb tl0 tl1) alpha_bit) true in
  let cw_t_right := xorb (xorb tr0 tr1) alpha_bit in
  let cw_t_keep := if alpha_bit then cw_t_right else cw_t_left in
  (cw_seed, cw_t_left, cw_t_right,
   mk_work (if w_t0 w then Z.lxor keep0 cw_seed else keep0)
           (if w_t1 w then Z.lxor keep1 cw_seed else keep1)
           (xorb t_keep0 (w_t0 w && cw_t_keep))
           (xorb t_keep1 (w_t1 w && cw_t_keep))).

Definition keygen_level (alpha : Z) (i : Z) (st : work * list CW) : option (work * list CW) :=
  b ← GE2n.GetBit alpha i;
  let '(cw_seed, cw_t_left, cw_t_right, w') := keygen_cw (to_bool b) (fst st) in
  cw ← vget (snd st) i;
  cw1 ← SetLT (SetSeed cw cw_seed) (Z.b2z cw_t_left);
  cw2 ← SetRT cw1 (Z.b2z cw_t_right);
  cws ← vset (snd st) i cw2;
  Some (w', cws).

(** The last correction word of one value of the leaf. *)
Definition last_word (t1 : bool) (last_cw : Z) : Z :=
  if t1 then GE2n.GetVal N (GE2n.GetReverse N last_cw) else GE2n.GetVal N last_cw.

Definition keygen_expand (alpha_pos beta : Z) (t1 : bool) (i : Z) (st : list Z * list Z * Z * Z)
  : option (list Z * list Z * Z * Z) :=
  let '(last1, last2, prg0, prg1') := st in
  let last_cw := if i =? alpha_pos
                 then GE2n.add (GE2n.add beta (GE2n.GetReverse N prg0)) prg1'
                 else GE2n.add (GE2n.GetReverse N prg0) prg1' in
  let last1' := last1 ++ [last_word t1 last_cw] in
  x ← vget last1' i;
  Some (last1', last2 ++ [x], DpfPRG (GE2n.GetVal N prg0), DpfPRG (GE2n.GetVal N prg1')).

Definition DpfKeyGen (alpha beta first_mk second_mk : Z) (evalall : bool) : option (DpfKey * DpfKey) :=
  let term_level := GetTerminateLevel evalall M N in
  let cws := replicate (Z.to_nat term_level) CW_default in
  '(w, cws') ← for_up (Z.to_nat term_level) 0 (keygen_level alpha)
    (mk_work first_mk second_mk false true, cws);
  let prg0 := DpfPRG (w_seed0 w) in
  let prg1' := DpfPRG (w_seed1 w) in
  if negb evalall
  then
    let last := GE2n.GetVal N (GE2n.add (GE2n.add beta (GE2n.GetReverse N prg0)) prg1') in
    let last' := if w_t1 w then GE2n.GetVal N (GE2n.GetReverse N last) else last in
    Some (mk_key false cws' [last'] false first_mk, mk_key false cws' [last'] true second_mk)
  else
    let alpha_pos := (Z.shiftr (GE2n.GetVal M alpha) term_level) mod 2 ^ 32 in
    expand_num ← shl32 1 (M - term_level);
    '(last1, last2, _, _) ← for_up (Z.to_nat expand_num) 0 (keygen_expand alpha_pos beta (w_t1 w))
      ([], [], prg0, prg1');
    Some (mk_key true cws' last1 false first_mk, mk_key true cws' last2 true second_mk).
End Dpf.
