(* ===== verification/DpfTheorems.v ===== *)
(** Correctness of the distributed point functions: the two shares add up to the
    point function, at every point and on the whole domain. *)

From Stdlib Require Import ZArith Lia ZifyBool Bool Setoid Morphisms.
From stdpp Require Import base numbers list option.
From S2P Require Import Prelude Ge2n Dpf.

Local Open Scope Z_scope.

Lemma to_bool_b2z b : to_bool (Z.b2z b) = b.
Proof. by destruct b. Qed.

Lemma to_bool_bit x i : 0 <= i -> to_bool (Z.land (Z.shiftr x i) 1) = Z.testbit x i.
Proof.
  intros Hi. unfold to_bool. change 1 with (Z.ones 1). rewrite Z.land_ones by lia. change (2 ^ 1) with 2.
  rewrite Z.shiftr_div_pow2, <- Z.testbit_spec' by lia. by destruct (Z.testbit x i).
Qed.

Lemma to_bool_correct t tw c :
  to_bool (Z.lxor (Z.b2z t) (Z.b2z tw * Z.b2z c)) = xorb t (tw && c).
Proof. by destruct t, tw, c. Qed.

(** The word a level stores, and its two control bits. *)
Definition cw_of (seed : Z) (l r : bool) : CW := mk_cw seed (2 * Z.b2z r + Z.b2z l).

Lemma set_cw seed l r :
  (cw1 ← SetLT (SetSeed CW_default seed) (Z.b2z l); SetRT cw1 (Z.b2z r)) = Some (cw_of seed l r).
Proof. by destruct l, r. Qed.

Lemma GetLT_cw seed l r : GetLT (cw_of seed l r) = Z.b2z l.
Proof. by destruct l, r. Qed.

Lemma GetRT_cw seed l r : GetRT (cw_of seed l r) = Z.b2z r.
Proof. by destruct l, r. Qed.

Lemma lxor_cancel x y : Z.lxor x (Z.lxor x y) = y.
Proof. by rewrite <- Z.lxor_assoc, Z.lxor_nilpotent, Z.lxor_0_l. Qed.

Lemma lxor_cancel_r x y : Z.lxor y (Z.lxor x y) = x.
Proof. by rewrite (Z.lxor_comm x y), lxor_cancel. Qed.

(** Whether two inputs agree on their [n] lowest bits. *)
Fixpoint same_low (x a : Z) (n : nat) : bool :=
  match n with
  | O => true
  | S k => same_low x a k && eqb (Z.testbit x (Z.of_nat k)) (Z.testbit a (Z.of_nat k))
  end.

Lemma same_low_mod x a n : same_low x a n = (x mod 2 ^ Z.of_nat n =? a mod 2 ^ Z.of_nat n).
Proof.
  apply eq_true_iff_eq. rewrite Z.eqb_eq. transitivity (forall j, 0 <= j < Z.of_nat n -> Z.testbit x j = Z.testbit a j).
  - induction n as [|n IH]; cbn [same_low]; [split; [lia|done]|].
    rewrite andb_true_iff, eqb_true_iff, IH. split.
    + intros [H1 H2] j Hj. destruct (Z.eq_dec j (Z.of_nat n)) as [->|]; [done|]. apply H1. lia.
    + intros H. split; [intros j Hj|]; apply H; lia.
  - split.
    + intros H. apply Z.bits_inj'. intros j Hj. rewrite !testbit_mod by lia.
      destruct (Z.ltb_spec j (Z.of_nat n)); cbn; [|done]. apply H. lia.
    + intros H j Hj. apply (f_equal (fun z => Z.testbit z j)) in H. rewrite !testbit_mod in H by lia.
      replace (j <? Z.of_nat n) with true in H by lia. done.
Qed.

Section Paths.
Context (prg1 : Z -> Z) (prg3 : Z -> Z * Z * Z).

(** The child of a node on the side of a bit. *)
Definition next (b : bool) (cw : CW) (st : Z * bool) : Z * bool :=
  let '(seed_left, t_left, seed_right, t_right) := children prg3 cw (fst st) (snd st) in
  if b then (seed_right, t_right) else (seed_left, t_left).

(** The working values of the key generation before level [n]. *)
Fixpoint kg (alpha mk0 mk1 : Z) (n : nat) : work :=
  match n with
  | O => mk_work mk0 mk1 false true
  | S k => snd (keygen_cw prg3 (Z.testbit alpha (Z.of_nat k)) (kg alpha mk0 mk1 k))
  end.

Definition kg_cw (a : bool) (w : work) : CW :=
  let '(seed, l, r, _) := keygen_cw prg3 a w in cw_of seed l r.

(** Whether the control bits of the two parties differ. *)
Definition split_bits (w : work) : Prop := xorb (w_t0 w) (w_t1 w) = true.

Lemma next_keep a w :
  split_bits w ->
  next a (kg_cw a w) (w_seed0 w, w_t0 w)
    = (w_seed0 (snd (keygen_cw prg3 a w)), w_t0 (snd (keygen_cw prg3 a w))) /\
  next a (kg_cw a w) (w_seed1 w, w_t1 w)
    = (w_seed1 (snd (keygen_cw prg3 a w)), w_t1 (snd (keygen_cw prg3 a w))) /\
  split_bits (snd (keygen_cw prg3 a w)).
Proof.
  unfold split_bits, next, kg_cw, keygen_cw, children. intros Ht. cbn [fst snd].
  destruct (SplitDpfSeed prg3 (w_seed0 w)) as [[[l0 tl0] r0] tr0],
    (SplitDpfSeed prg3 (w_seed1 w)) as [[[l1 tl1] r1] tr1].
  destruct a; cbn [fst snd w_seed0 w_seed1 w_t0 w_t1];
    rewrite ?GetLT_cw, ?GetRT_cw, !to_bool_correct; cbn [seed_ cw_of];
    destruct (w_t0 w), (w_t1 w); try done; split_and!; try done;
    destruct tl0, tl1, tr0, tr1; done.
Qed.

Lemma next_lose a w :
  split_bits w ->
  next (negb a) (kg_cw a w) (w_seed0 w, w_t0 w) = next (negb a) (kg_cw a w) (w_seed1 w, w_t1 w).
Proof.
  unfold split_bits, next, kg_cw, keygen_cw, children. intros Ht. cbn [fst snd].
  destruct (SplitDpfSeed prg3 (w_seed0 w)) as [[[l0 tl0] r0] tr0],
    (SplitDpfSeed prg3 (w_seed1 w)) as [[[l1 tl1] r1] tr1].
  destruct a; cbn [negb fst snd]; rewrite ?GetLT_cw, ?GetRT_cw, !to_bool_correct; cbn [seed_ cw_of];
    destruct (w_t0 w), (w_t1 w); try done; rewrite ?lxor_cancel, ?lxor_cancel_r; f_equal;
    destruct tl0, tl1, tr0, tr1; done.
Qed.

(** Down [n] levels from level [c], along the bits of [x]. *)
Fixpoint walk (cws : nat -> CW) (x : Z) (c n : nat) (st : Z * bool) : Z * bool :=
  match n with
  | O => st
  | S k => walk cws x (S c) k (next (Z.testbit x (Z.of_nat c)) (cws c) st)
  end.

Context (alpha mk0 mk1 : Z).
Local Abbreviation state := (kg alpha mk0 mk1).

Definition words (k : nat) : CW := kg_cw (Z.testbit alpha (Z.of_nat k)) (state k).

Lemma kg_split n : split_bits (state n).
Proof. induction n as [|n IH]; [done|]. cbn [kg]. by apply next_keep. Qed.

(** On the path of alpha the parties follow the key generation; off it they agree. *)
Definition shares_at (x : Z) (c : nat) (e0 e1 : Z * bool) : Prop :=
  if same_low x alpha c
  then e0 = (w_seed0 (state c), w_t0 (state c)) /\ e1 = (w_seed1 (state c), w_t1 (state c))
  else e0 = e1.

Lemma walk_shares x c n e0 e1 :
  shares_at x c e0 e1 -> shares_at x (c + n) (walk words x c n e0) (walk words x c n e1).
Proof.
  revert c e0 e1. induction n as [|n IH]; intros c e0 e1 H; cbn [walk].
  { by rewrite Nat.add_0_r. }
  replace (c + S n)%nat with (S c + n)%nat by lia. apply IH. unfold shares_at in *. cbn [same_low].
  destruct (same_low x alpha c); cbn [andb].
  - destruct H as [-> ->]. unfold words. pose proof (kg_split c) as Hs.
    destruct (eqb_spec (Z.testbit x (Z.of_nat c)) (Z.testbit alpha (Z.of_nat c))) as [->|Hne].
    + destruct (next_keep (Z.testbit alpha (Z.of_nat c)) (state c) Hs) as (-> & -> & _). done.
    + replace (Z.testbit x (Z.of_nat c)) with (negb (Z.testbit alpha (Z.of_nat c)))
        by (destruct (Z.testbit x _), (Z.testbit alpha _); done).
      by apply next_lose.
  - by rewrite H.
Qed.

Lemma walk_start x n :
  shares_at x n (walk words x 0 n (mk0, false)) (walk words x 0 n (mk1, true)).
Proof. apply (walk_shares x 0 n). split; done. Qed.

(** The vector of correction words a key holds. *)
Definition cws_upto (n : nat) : list CW := words <$> seq 0 n.

Lemma cws_lookup n i : 0 <= i < Z.of_nat n -> vget (cws_upto n) i = Some (words (Z.to_nat i)).
Proof.
  intros Hi. unfold vget, cws_upto. destruct (Z.leb_spec 0 i); [|lia].
  by rewrite list_lookup_fmap, lookup_seq_lt by lia.
Qed.

Lemma keygen_loop n :
  (n <= 128)%nat ->
  for_up n 0 (keygen_level prg3 alpha) (mk_work mk0 mk1 false true, replicate n CW_default)
  = Some (state n, cws_upto n).
Proof.
  intros Hn.
  destruct (for_up_inv (fun i st => st = (state (Z.to_nat i),
      cws_upto (Z.to_nat i) ++ replicate (n - Z.to_nat i) CW_default))
    (keygen_level prg3 alpha) n 0 (mk_work mk0 mk1 false true, replicate n CW_default))
    as (st & E & ->).
  - cbn. by rewrite Nat.sub_0_r.
  - intros k t Hk ->. set (m := Z.to_nat k). assert (Ek : Z.of_nat m = k) by lia.
    unfold keygen_level. cbn [fst snd]. rewrite GetBit_testbit by lia. cbn [mbind option_bind].
    rewrite to_bool_b2z. destruct (keygen_cw prg3 (Z.testbit alpha k) (state m)) as [[[seed l] r] w'] eqn:EC.
    assert (Hl : length (cws_upto m) = m) by (unfold cws_upto; by rewrite length_fmap, length_seq).
    assert (Hsz : vsize (cws_upto m ++ replicate (n - m) CW_default) = Z.of_nat n)
      by (unfold vsize; rewrite length_app, length_replicate; lia).
    assert (Hg : vget (cws_upto m ++ replicate (n - m) CW_default) k = Some CW_default).
    { unfold vget. destruct (Z.leb_spec 0 k); [|lia]. fold m. rewrite lookup_app_r by lia.
      apply lookup_replicate_2. lia. }
    rewrite Hg. cbn [mbind option_bind]. pose proof (set_cw seed l r) as HS.
    destruct (SetLT _ _) as [cw1|]; [|done]. cbn [mbind option_bind] in HS |- *. rewrite HS. cbn [mbind option_bind].
    rewrite vset_Some by lia. cbn [mbind option_bind]. eexists. split; [done|].
    replace (Z.to_nat (k + 1)) with (S m) by lia. f_equal.
    + cbn [kg]. rewrite Ek, EC. done.
    + fold m. rewrite <- (Nat.add_0_r m) at 1. rewrite <- Hl at 1. rewrite insert_app_r.
      replace (n - m)%nat with (S (n - S m)) by lia. cbn [replicate].
      change (<[0%nat := ?v]> (?a :: ?q)) with (v :: q). unfold cws_upto. rewrite seq_S, fmap_app, <- app_assoc.
      f_equal. cbn. f_equal. unfold words, kg_cw. by rewrite Ek, EC.
  - rewrite E, Z.add_0_l, Nat2Z.id, Nat.sub_diag. cbn [replicate]. by rewrite app_nil_r.
Qed.

Lemma eval_loop key x n :
  (n <= 128)%nat -> cws_vec key = cws_upto n ->
  for_up n 0 (eval_level prg3 key x) (mseed_ key, rank_ key)
  = Some (walk words x 0 n (mseed_ key, rank_ key)).
Proof.
  intros Hn Hc.
  assert (H : forall c k st, (c + k = n)%nat ->
    for_up k (Z.of_nat c) (eval_level prg3 key x) st = Some (walk words x c k st)).
  { intros c k. revert c. induction k as [|k IH]; intros c st Hck; [done|]. cbn [for_up walk].
    unfold eval_level at 2. rewrite Hc, cws_lookup by lia. cbn [mbind option_bind]. rewrite Nat2Z.id.
    rewrite GetBit_testbit by lia. unfold next.
    destruct (children prg3 (words c) st.1 st.2) as [[[sl tl] sr] tr]. cbn [mbind option_bind].
    rewrite to_bool_b2z. replace (Z.of_nat c + 1) with (Z.of_nat (S c)) by lia. apply IH. lia. }
  apply (H 0%nat n). lia.
Qed.
End Paths.

(** *** The shares of a leaf *)

Section Shares.
Context (N : Z) {HN : GroupBits N}.

Definition share (rank : bool) (p : Z) (t : bool) (last : Z) : Z :=
  let v := GE2n.add p (GE2n.u128 (Z.b2z t * last)) in if rank then GE2n.GetReverse N v else v.

Lemma share_same rank p t last :
  same_element N (share rank p t last)
    (if rank then - (p + Z.b2z t * last) else p + Z.b2z t * last).
Proof.
  unfold share. destruct rank; rewrite ?(GetReverse_same N), (add_same N), (u128_same N); done.
Qed.

(** Parties that agree cancel. *)
Lemma shares_cancel p t last :
  same_element N (share false p t last + share true p t last) 0.
Proof. rewrite !share_same. by rewrite Z.add_opp_diag_r. Qed.

(** The last word makes the shares of the path add up to [v]. *)
Lemma shares_add p0 p1 t0 t1 v last_cw :
  xorb t0 t1 = true -> same_element N last_cw (v + - p0 + p1) ->
  same_element N (share false p0 t0 (last_word N t1 last_cw) + share true p1 t1 (last_word N t1 last_cw)) v.
Proof.
  intros Ht Hl. rewrite !share_same. unfold last_word.
  destruct t0, t1; try done; cbn [Z.b2z]; rewrite ?Z.mul_1_l, ?Z.mul_0_l, ?Z.add_0_r.
  - rewrite (GetVal_same N), Hl. replace (p0 + (v + - p0 + p1) + - p1) with v by lia. done.
  - rewrite (GetVal_same N), (GetReverse_same N), Hl. replace (p0 + - (p1 + - (v + - p0 + p1))) with v by lia. done.
Qed.
End Shares.

Section Point.
Context (prg1 : Z -> Z) (prg3 : Z -> Z * Z * Z).
Context (M N : Z) {HN : GroupBits N}.
Hypothesis HM : 0 < M <= 64.

Lemma to_nat_M : Z.of_nat (Z.to_nat M) = M.
Proof. lia. Qed.

(** C2: distributed point functions ([DpfKeyGen], [DpfEval]). For every
    generator, every pair of master seeds, every point [alpha] and value [beta],
    key generation succeeds, both keys evaluate at every input, and the two
    results add up in the group to [beta] at [alpha] and to 0 everywhere else. *)
Theorem dpf_point_function alpha beta first_mk second_mk x :
  exists k0 k1 y0 y1,
    DpfKeyGen prg1 prg3 M N alpha beta first_mk second_mk false = Some (k0, k1) /\
    DpfEval prg1 prg3 M N k0 x = Some y0 /\ DpfEval prg1 prg3 M N k1 x = Some y1 /\
    GE2n.GetVal N (GE2n.add y0 y1)
    = if GE2n.GetVal M x =? GE2n.GetVal M alpha then GE2n.GetVal N beta else 0.
Proof.
  unfold DpfKeyGen. cbn [GetTerminateLevel negb]. rewrite (keygen_loop prg3) by lia. cbn [mbind option_bind].
  set (w := kg prg3 alpha first_mk second_mk (Z.to_nat M)). set (cws := cws_upto _ _ _ _ _).
  eexists _, _, _, _. split; [done|]. unfold DpfEval. cbn [enable_evalall negb mseed_ rank_ last_cw_vec].
  rewrite !(eval_loop prg3 alpha first_mk second_mk) by (done || lia). cbn [mseed_ rank_].
  pose proof (walk_start prg3 alpha first_mk second_mk x (Z.to_nat M)) as HS.
  set (e0 := walk prg3 _ x 0 _ (first_mk, false)) in *. set (e1 := walk prg3 _ x 0 _ (second_mk, true)) in *.
  rewrite (surjective_pairing e0), (surjective_pairing e1). cbn [mbind option_bind vget Z.leb Z.compare].
  change ([?a] !! Z.to_nat 0) with (Some a). cbn [mbind option_bind].
  split; [done|]. split; [done|]. pose proof (kg_split prg3 alpha first_mk second_mk (Z.to_nat M)) as Hw. fold w in Hw.
  set (last := if w_t1 w then _ else _).
  transitivity (GE2n.GetVal N (share N false (DpfPRG prg1 e0.1) e0.2 last + share N true (DpfPRG prg1 e1.1) e1.2 last)).
  { apply (GetVal_eq N). unfold share. by rewrite (add_same N), !(GetVal_same N). }
  assert (Hc : (GE2n.GetVal M x =? GE2n.GetVal M alpha) = same_low x alpha (Z.to_nat M)).
  { rewrite same_low_mod, to_nat_M. assert (GroupBits M) by (unfold GroupBits; lia). by rewrite !(GetVal_mod M). }
  rewrite Hc. unfold shares_at in HS. destruct (same_low x alpha (Z.to_nat M)).
  - destruct HS as [-> ->]. cbn [fst snd]. fold w. apply (GetVal_eq N).
    set (L := GE2n.add _ _) in last.
    assert (El : same_element N last (last_word N (w_t1 w) L)).
    { unfold last, last_word. destruct (w_t1 w); [|done].
      by ge2n_simpl N. }
    rewrite <- (shares_add N (DpfPRG prg1 (w_seed0 w)) (DpfPRG prg1 (w_seed1 w)) (w_t0 w) (w_t1 w) beta L Hw).
    + rewrite !(share_same N).
      destruct (w_t0 w), (w_t1 w); try done; cbn [Z.b2z]; rewrite ?Z.mul_1_l, ?Z.mul_0_l, El; done.
    + unfold L. by rewrite !(add_same N), (GetReverse_same N).
  - rewrite HS. rewrite (GetVal_eq N _ 0 (shares_cancel N _ _ _)), (GetVal_mod N).
    apply Z.mod_0_l. pose proof (bits_bounds N). lia.
Qed.
End Point.

(** *** The whole domain *)

Section Domain.
Context (prg1 : Z -> Z) (prg3 : Z -> Z * Z * Z).
Context (M N : Z) {HN : GroupBits N}.

(** The successive words of a leaf. *)
Fixpoint chain (p : Z) (i : nat) : Z :=
  match i with O => p | S k => DpfPRG prg1 (GE2n.GetVal N (chain p k)) end.

Definition expand_word (alpha_pos beta : Z) (t1 : bool) (p0 p1 : Z) (i : nat) : Z :=
  last_word N t1
    (if Z.of_nat i =? alpha_pos
     then GE2n.add (GE2n.add beta (GE2n.GetReverse N (chain p0 i))) (chain p1 i)
     else GE2n.add (GE2n.GetReverse N (chain p0 i)) (chain p1 i)).

Lemma keygen_expand_loop alpha_pos beta t1 p0 p1 n :
  let l := expand_word alpha_pos beta t1 p0 p1 <$> seq 0 n in
  for_up n 0 (keygen_expand prg1 N alpha_pos beta t1) ([], [], p0, p1)
  = Some (l, l, chain p0 n, chain p1 n).
Proof.
  intros l. set (f := expand_word alpha_pos beta t1 p0 p1) in l.
  destruct (for_up_inv (fun i st => st = (f <$> seq 0 (Z.to_nat i), f <$> seq 0 (Z.to_nat i),
      chain p0 (Z.to_nat i), chain p1 (Z.to_nat i)))
    (keygen_expand prg1 N alpha_pos beta t1) n 0 ([], [], p0, p1)) as (st & E & ->).
  - done.
  - intros k t Hk ->. set (m := Z.to_nat k). assert (Ek : Z.of_nat m = k) by lia.
    unfold keygen_expand. rewrite <- Ek. fold (expand_word alpha_pos beta t1 p0 p1 m). fold f.
    unfold vget. destruct (Z.leb_spec 0 (Z.of_nat m)); [|lia]. rewrite Nat2Z.id.
    rewrite lookup_app_r by (rewrite length_fmap, length_seq; lia).
    rewrite length_fmap, length_seq, Nat.sub_diag. cbn [lookup list_lookup mbind option_bind].
    eexists. split; [done|]. replace (Z.to_nat (Z.of_nat m + 1)) with (S m) by lia.
    by rewrite seq_S, fmap_app.
  - rewrite E, Z.add_0_l, Nat2Z.id. done.
Qed.

(** The loop over one leaf writes its values, [2^t] apart. *)
Lemma leaf_loop key result pos t tw seed n :
  0 <= t -> n * 2 ^ t <= 2 ^ 31 -> n * 2 ^ t <= vsize result -> 0 <= pos < 2 ^ t -> 0 <= n ->
  t < 32 -> vsize (last_cw_vec key) = n ->
  exists result' p, for_up (Z.to_nat n) 0 (leaf_step prg1 N key pos t tw) (result, seed) = Some (result', p) /\
    vsize result' = vsize result /\
    forall x, 0 <= x -> blk result' x
      = if (x mod 2 ^ t =? pos) && (x / 2 ^ t <? n)
        then share N (rank_ key) (chain seed (Z.to_nat (x / 2 ^ t))) tw (blk (last_cw_vec key) (x / 2 ^ t))
        else blk result x.
Proof.
  intros Ht Hn1 Hn2 Hpos Hn Ht32 Hlast. assert (Hp2 : 0 < 2 ^ t) by (apply Z.pow_pos_nonneg; lia).
  destruct (for_up_inv (fun i st => snd st = chain seed (Z.to_nat i) /\ vsize (fst st) = vsize result /\
      forall x, 0 <= x -> blk (fst st) x
      = if (x mod 2 ^ t =? pos) && (x / 2 ^ t <? i)
        then share N (rank_ key) (chain seed (Z.to_nat (x / 2 ^ t))) tw (blk (last_cw_vec key) (x / 2 ^ t))
        else blk result x) (leaf_step prg1 N key pos t tw) (Z.to_nat n) 0 (result, seed))
    as ([result' p] & E & _ & H2 & H3).
  - split; [done|]. split; [done|]. intros x Hx. cbn [fst].
    pose proof (Z.div_pos x (2 ^ t) Hx Hp2). replace (x / 2 ^ t <? 0) with false by lia. by rewrite andb_false_r.
  - intros k [res prg] Hk (H1 & H2 & H3). cbn [fst snd] in *. unfold leaf_step.
    rewrite vget_blk by lia. cbn [mbind option_bind]. unfold shl32. replace ((0 <=? t) && (t <? 32)) with true by lia.
    cbn [mbind option_bind]. assert (Hb : 0 <= k * 2 ^ t /\ pos + k * 2 ^ t < n * 2 ^ t) by nia.
    rewrite (Z.mod_small (k * 2 ^ t)) by lia. rewrite (Z.mod_small (pos + k * 2 ^ t)) by lia.
    rewrite vset_Some by lia. cbn [mbind option_bind]. eexists. split; [done|]. cbn [fst snd].
    replace (Z.to_nat (k + 1)) with (S (Z.to_nat k)) by lia. split; [by rewrite H1|].
    split; [by rewrite vsize_insert|]. intros x Hx. rewrite blk_insert by lia. rewrite H3 by done.
    fold (share N (rank_ key) prg tw (blk (last_cw_vec key) k)).
    destruct (div_mod_pos x (2 ^ t) Hp2) as [Ex Hr].
    destruct (Z.eqb_spec x (pos + k * 2 ^ t)) as [->|Hne].
    + destruct (div_mod_split (2 ^ t) k pos Hpos) as [Eq Er]. rewrite (Z.add_comm pos), Eq, Er.
      replace ((pos =? pos) && (k <? k + 1)) with true by lia. by rewrite H1.
    + destruct (Z.eqb_spec (x mod 2 ^ t) pos) as [Em|]; [|done]. cbn [andb].
      replace (x / 2 ^ t <? k + 1) with (x / 2 ^ t <? k); [done|].
      assert (x / 2 ^ t <> k) by (intros Eq; apply Hne; nia). lia.
  - exists result', p. split; [done|]. split; [done|]. cbn [fst] in H3. rewrite Z.add_0_l, Z2Nat.id in H3 by done. done.
Qed.

(** What the tree below a node writes: the leaf values along every input that
    reaches the node. *)
Definition leaf_value (key : DpfKey) (cws : nat -> CW) (t : nat) (c : nat) (st : Z * bool) (x : Z) : Z :=
  let e := walk prg3 cws x c (t - c) st in
  let i := x / 2 ^ Z.of_nat t in
  share N (rank_ key) (chain (DpfPRG prg1 (fst e)) (Z.to_nat i)) (snd e) (blk (last_cw_vec key) i).

Lemma mod_pow_next x c :
  0 <= c -> x mod 2 ^ (c + 1) = x mod 2 ^ c + (if Z.testbit x c then 2 ^ c else 0).
Proof.
  intros Hc. assert (0 < 2 ^ c) by (apply Z.pow_pos_nonneg; lia).
  rewrite Z.pow_add_r by lia. change (2 ^ 1) with 2. rewrite Z.rem_mul_r by lia.
  rewrite <- Z.testbit_spec' by lia. destruct (Z.testbit x c); cbn [Z.b2z]; lia.
Qed.

Lemma traverse_writes key cws t fuel result c pos st :
  (c <= t)%nat -> (t - c < fuel)%nat -> Z.of_nat t <= M -> M <= 31 -> 0 <= pos < 2 ^ Z.of_nat c ->
  2 ^ M <= vsize result -> vsize (last_cw_vec key) = 2 ^ (M - Z.of_nat t) ->
  (forall i, (i < t)%nat -> vget (cws_vec key) (Z.of_nat i) = Some (cws i)) ->
  exists result', Traverse prg1 prg3 M N fuel key result (Z.of_nat c) pos (fst st) (snd st) (Z.of_nat t) = Some result' /\
    vsize result' = vsize result /\
    forall x, 0 <= x < 2 ^ M -> blk result' x
      = if x mod 2 ^ Z.of_nat c =? pos then leaf_value key cws t c st x else blk result x.
Proof.
  intros Hct Hf Ht HM. revert result c pos st Hct Hf. induction fuel as [|fuel IH]; [lia|].
  intros result c pos st Hct Hf Hpos Hres Hlast Hcws. cbn [Traverse].
  destruct (Z.ltb_spec (Z.of_nat c) (Z.of_nat t)) as [Hlt|Hge].
  - rewrite Hcws by lia. cbn [mbind option_bind].
    destruct (children prg3 (cws c) st.1 st.2) as [[[sl tl] sr] tr] eqn:EC.
    assert (Hp31 : 2 ^ Z.of_nat c <= 2 ^ 31) by (apply Z.pow_le_mono_r; lia).
    assert (Hpow : 2 ^ Z.of_nat (S c) = 2 * 2 ^ Z.of_nat c) by (rewrite Nat2Z.inj_succ, Z.pow_succ_r by lia; done).
    replace (Z.of_nat c + 1) with (Z.of_nat (S c)) by lia. rewrite (Z.mod_small (2 ^ Z.of_nat c + pos)) by lia.
    destruct (IH result (S c) pos (sl, tl)) as (r1 & E1 & L1 & B1); [lia|lia|lia|done|done|done|].
    cbn [fst snd] in E1. rewrite E1. cbn [mbind option_bind].
    destruct (IH r1 (S c) (2 ^ Z.of_nat c + pos) (sr, tr)) as (r2 & E2 & L2 & B2); [lia|lia|lia|by rewrite L1|done|done|].
    exists r2. split; [done|]. split; [lia|]. intros x Hx. rewrite B2, B1 by done.
    replace (Z.of_nat (S c)) with (Z.of_nat c + 1) by lia. rewrite mod_pow_next by lia.
    assert (Hm : 0 <= x mod 2 ^ Z.of_nat c < 2 ^ Z.of_nat c) by (apply Z.mod_pos_bound; lia).
    unfold leaf_value. replace (t - c)%nat with (S (t - S c)) by lia. cbn [walk].
    unfold next. rewrite EC. destruct (Z.testbit x (Z.of_nat c)).
    + destruct (Z.eqb_spec (x mod 2 ^ Z.of_nat c) pos) as [->|].
      * by replace (pos + 2 ^ Z.of_nat c =? 2 ^ Z.of_nat c + pos) with true by lia.
      * replace (_ =? 2 ^ Z.of_nat c + pos) with false by lia. by replace (_ =? pos) with false by lia.
    + rewrite Z.add_0_r. by replace (_ =? 2 ^ Z.of_nat c + pos) with false by lia.
  - assert (Ec : c = t) by lia. subst c. unfold shl32.
    replace ((0 <=? M - Z.of_nat t) && (M - Z.of_nat t <? 32)) with true by lia. cbn [mbind option_bind].
    assert (Hpm : 2 ^ (M - Z.of_nat t) <= 2 ^ 31) by (apply Z.pow_le_mono_r; lia).
    assert (0 < 2 ^ (M - Z.of_nat t)) by (apply Z.pow_pos_nonneg; lia).
    rewrite Z.mul_1_l, (Z.mod_small (2 ^ (M - Z.of_nat t))) by lia.
    assert (Hmul : 2 ^ (M - Z.of_nat t) * 2 ^ Z.of_nat t = 2 ^ M) by (rewrite <- Z.pow_add_r by lia; f_equal; lia).
    assert (2 ^ M <= 2 ^ 31) by (apply Z.pow_le_mono_r; lia).
    destruct (leaf_loop key result pos (Z.of_nat t) st.2 (DpfPRG prg1 st.1) (2 ^ (M - Z.of_nat t)))
      as (r' & p & -> & L & B); try lia.
    cbn [mbind option_bind]. exists r'. split; [done|]. split; [done|]. intros x Hx. rewrite B by lia.
    assert (x / 2 ^ Z.of_nat t < 2 ^ (M - Z.of_nat t)) by (apply Z.div_lt_upper_bound; lia).
    replace (x / 2 ^ Z.of_nat t <? 2 ^ (M - Z.of_nat t)) with true by lia. rewrite andb_true_r.
    unfold leaf_value. by rewrite Nat.sub_diag.
Qed.
End Domain.

Lemma floor_log_bounds k : 0 <= floor_log k <= 4.
Proof. unfold floor_log. repeat case_match; lia. Qed.

Lemma split_eq x a t M :
  0 <= t <= M -> 0 <= x < 2 ^ M -> 0 <= a < 2 ^ M ->
  (x =? a) = (x mod 2 ^ t =? a mod 2 ^ t) && (x / 2 ^ t =? a / 2 ^ t).
Proof.
  intros Ht Hx Ha. assert (0 < 2 ^ t) by (apply Z.pow_pos_nonneg; lia).
  destruct (div_mod_pos x (2 ^ t)) as [E1 _]; [done|]. destruct (div_mod_pos a (2 ^ t)) as [E2 _]; [done|].
  destruct (Z.eqb_spec x a) as [->|Hne]; [lia|].
  destruct (Z.eqb_spec (x mod 2 ^ t) (a mod 2 ^ t)), (Z.eqb_spec (x / 2 ^ t) (a / 2 ^ t)); try done. nia.
Qed.

Section FullDomain.
Context (prg1 : Z -> Z) (prg3 : Z -> Z * Z * Z).
Context (M N : Z) {HN : GroupBits N}.
Hypothesis HM : 0 < M <= 31.
Hypothesis Hlevel : floor_log (128 / N) <= M.

Local Abbreviation term := (GetTerminateLevel true M N).

Lemma term_bounds : 0 <= term <= M.
Proof. unfold GetTerminateLevel. cbn. pose proof (floor_log_bounds (128 / N)). lia. Qed.

(** The two keys of a full-domain generation. *)
Definition full_key (alpha beta mk0 mk1 : Z) (rank : bool) : DpfKey :=
  let w := kg prg3 alpha mk0 mk1 (Z.to_nat term) in
  mk_key true (cws_upto prg3 alpha mk0 mk1 (Z.to_nat term))
    (expand_word prg1 N (GE2n.GetVal M alpha / 2 ^ term) beta (w_t1 w)
       (DpfPRG prg1 (w_seed0 w)) (DpfPRG prg1 (w_seed1 w)) <$> seq 0 (Z.to_nat (2 ^ (M - term))))
    rank (if rank then mk1 else mk0).

Lemma GetVal_M alpha : GE2n.GetVal M alpha = alpha mod 2 ^ M /\ 0 <= GE2n.GetVal M alpha < 2 ^ M.
Proof.
  assert (GroupBits M) by (unfold GroupBits; lia). rewrite (GetVal_mod M). split; [done|].
  apply Z.mod_pos_bound. apply Z.pow_pos_nonneg; lia.
Qed.

Lemma full_keygen alpha beta mk0 mk1 :
  DpfKeyGen prg1 prg3 M N alpha beta mk0 mk1 true
  = Some (full_key alpha beta mk0 mk1 false, full_key alpha beta mk0 mk1 true).
Proof.
  pose proof term_bounds. unfold DpfKeyGen. rewrite (keygen_loop prg3) by lia. cbn [mbind option_bind negb].
  unfold shl32. replace ((0 <=? M - term) && (M - term <? 32)) with true by lia. cbn [mbind option_bind].
  assert (2 ^ (M - term) <= 2 ^ 31) by (apply Z.pow_le_mono_r; lia).
  assert (0 < 2 ^ (M - term)) by (apply Z.pow_pos_nonneg; lia).
  rewrite Z.mul_1_l, (Z.mod_small (2 ^ (M - term))) by lia.
  rewrite (keygen_expand_loop prg1 N). cbn [mbind option_bind]. unfold full_key.
  destruct (GetVal_M alpha) as [_ Ha].
  assert (Z.shiftr (GE2n.GetVal M alpha) term mod 2 ^ 32 = GE2n.GetVal M alpha / 2 ^ term) as ->; [|done].
  rewrite Z.shiftr_div_pow2 by lia. apply Z.mod_small. split; [apply Z.div_pos; lia|].
  assert (2 ^ M <= 2 ^ 31) by (apply Z.pow_le_mono_r; lia).
  apply Z.div_lt_upper_bound; [lia|]. assert (0 < 2 ^ term) by (apply Z.pow_pos_nonneg; lia). nia.
Qed.

Lemma full_last alpha beta mk0 mk1 rank i :
  0 <= i < 2 ^ (M - term) ->
  let w := kg prg3 alpha mk0 mk1 (Z.to_nat term) in
  blk (last_cw_vec (full_key alpha beta mk0 mk1 rank)) i
  = expand_word prg1 N (GE2n.GetVal M alpha / 2 ^ term) beta (w_t1 w)
      (DpfPRG prg1 (w_seed0 w)) (DpfPRG prg1 (w_seed1 w)) (Z.to_nat i).
Proof.
  intros Hi w. unfold full_key, blk, vget. cbn [last_cw_vec]. fold w. destruct (Z.leb_spec 0 i); [|lia].
  by rewrite list_lookup_fmap, lookup_seq_lt by lia.
Qed.

Lemma full_eval alpha beta mk0 mk1 rank out :
  2 ^ M <= vsize out ->
  let key := full_key alpha beta mk0 mk1 rank in
  exists r, DpfEvalAll prg1 prg3 M N key out = Some r /\ vsize r = vsize out /\
    forall x, 0 <= x < 2 ^ M -> blk r x
      = leaf_value prg1 prg3 N key (words prg3 alpha mk0 mk1) (Z.to_nat term) 0 (mseed_ key, rank) x.
Proof.
  intros Hout key. pose proof term_bounds.
  destruct (traverse_writes prg1 prg3 M N key (words prg3 alpha mk0 mk1) (Z.to_nat term)
    (S (Z.to_nat term)) out 0 0 (mseed_ key, rank)) as (r & E & L & B).
  - lia.
  - lia.
  - lia.
  - lia.
  - cbn. lia.
  - done.
  - rewrite Z2Nat.id by lia. unfold key, full_key. cbn [last_cw_vec]. unfold vsize.
    rewrite length_fmap, length_seq. assert (0 < 2 ^ (M - term)) by (apply Z.pow_pos_nonneg; lia). lia.
  - intros i Hi. unfold key, full_key. cbn [cws_vec]. rewrite cws_lookup by lia. by rewrite Nat2Z.id.
  - exists r. split; [|split; [done|]].
    + unfold DpfEvalAll, key, full_key in *. cbn [enable_evalall mseed_ rank_ fst snd] in *.
      rewrite Z2Nat.id in E by lia. exact E.
    + intros x Hx. rewrite B by done. cbn [Z.of_nat Z.pow]. rewrite Z.mod_1_r. done.
Qed.

End FullDomain.

(** The level where the tree ends uses the natural logarithm: with 64-bit outputs
    (two values to a 128-bit seed) the tree is not cut at all. *)
Theorem terminate_level_uncut m : GetTerminateLevel true m 64 = m /\ GetTerminateLevel true m 128 = m.
Proof.
  unfold GetTerminateLevel. change (floor_log (128 / 64)) with 0. change (floor_log (128 / 128)) with 0.
  cbn [negb]. lia.
Qed.

(** *** Inputs *)

Definition demo_prg1 (seed : Z) : Z := (6364136223846793005 * seed + 1442695040888963407) mod 2 ^ 128.
Definition demo_prg3 (seed : Z) : Z * Z * Z :=
  (demo_prg1 (seed + 1), demo_prg1 (seed + 2), demo_prg1 (demo_prg1 (seed + 3))).

Lemma dpf_point_function_witness :
  exists k0 k1 y0 y1,
    DpfKeyGen demo_prg1 demo_prg3 8 64 200 77 11 22 false = Some (k0, k1) /\
    DpfEval demo_prg1 demo_prg3 8 64 k0 200 = Some y0 /\ DpfEval demo_prg1 demo_prg3 8 64 k1 200 = Some y1 /\
    GE2n.GetVal 64 (GE2n.add y0 y1) = 77.
Proof. exact (dpf_point_function demo_prg1 demo_prg3 8 64 ltac:(lia) 200 77 11 22 200). Defined.

