(* ===== verification/Dcf.v ===== *)
(** Distributed comparison functions (src/yacl/crypto/experimental/dpf/dcf.h,
    dcf.cc): two keys whose evaluations add up to [beta] on the inputs below
    [alpha]. The generator is a parameter: the first word it draws from a seed,
    and the first five. *)

From Stdlib Require Import ZArith Lia ZifyBool Bool Setoid Morphisms.
From stdpp Require Import base numbers list option.
From S2P Require Import Prelude Ge2n Dpf.

Local Open Scope Z_scope.

Module Dcf.

(** [DcfKey::CW]: the control bits and seed of a DPF word, and a group element. *)
Record CW := mk_cw { seed_ : Z; v_ : Z; t_store_ : Z }.

Definition CW_default : CW := mk_cw 0 0 0.

Definition GetLT (c : CW) : Z := Z.land (t_store_ c) 1.
Definition GetRT (c : CW) : Z := Z.land (Z.shiftr (t_store_ c) 1) 1.

Definition SetLT (c : CW) (t_left : Z) : option CW :=
  assert! ((t_left =? 0) || (t_left =? 1));
  Some (mk_cw (seed_ c) (v_ c) ((Z.shiftl (GetRT c) 1 + t_left) mod 2 ^ 8)).

Definition SetRT (c : CW) (t_right : Z) : option CW :=
  assert! ((t_right =? 0) || (t_right =? 1));
  Some (mk_cw (seed_ c) (v_ c) ((Z.shiftl t_right 1 + GetLT c) mod 2 ^ 8)).

Definition SetSeed (c : CW) (seed : Z) : CW := mk_cw seed (v_ c) (t_store_ c).
Definition SetV (c : CW) (v : Z) : CW := mk_cw (seed_ c) v (t_store_ c).

Record DcfKey := mk_key {
  cws_vec : list CW;
  last_cw_vec : list Z;
  rank_ : bool;
  mseed_ : Z
}.

(** The five words of a split seed. *)
Record words5 := mk_words { w_left : Z; w_right : Z; w_vleft : Z; w_vright : Z; w_tmp : Z }.

Section Dcf.
Context (prg1 : Z -> Z) (prg5 : Z -> words5).
Context (M N : Z).

Definition DcfPRG (seed : Z) : Z := prg1 seed.

(** One side of a split seed: its seed, its value seed and its control bit. *)
Record side := mk_side { s_seed : Z; s_vseed : Z; s_t : bool }.

Definition SplitDcfSeed (seed : Z) : side * side :=
  let w := prg5 seed in
  (mk_side (w_left w) (w_vleft w) (to_bool (Z.land (Z.shiftr (w_tmp w) 1) 1)),
   mk_side (w_right w) (w_vright w) (to_bool (Z.land (Z.shiftr (w_tmp w) 2) 1))).

(** *** Evaluation *)

(** The child on one side: its seed and control bit after correction. *)
Definition child (cw : CW) (cw_t : Z) (t_working : bool) (s : side) : Z * bool :=
  ((if t_working then Z.lxor (s_seed s) (seed_ cw) else s_seed s),
   to_bool (Z.lxor (Z.b2z (s_t s)) (Z.b2z t_working * cw_t))).

(** What one level adds to the output. *)
Definition contribution (rank t_working : bool) (prg cw_v : Z) : Z :=
  if t_working
  then if rank then GE2n.GetReverse N (GE2n.add prg cw_v) else GE2n.add prg cw_v
  else if rank then GE2n.GetReverse N prg else prg.

Definition eval_level (key : DcfKey) (in_ : Z) (i : Z) (st : Z * bool * Z) : option (Z * bool * Z) :=
  let '(seed_working, t_working, out) := st in
  cw ← vget (cws_vec key) i;
  let '(lside, rside) := SplitDcfSeed seed_working in
  b ← GE2n.GetBit in_ (M - i - 1);
  Some (if to_bool b
        then (child cw (GetRT cw) t_working rside,
              GE2n.add_assign out (contribution (rank_ key) t_working (DcfPRG (s_vseed rside)) (v_ cw)))
        else (child cw (GetLT cw) t_working lside,
              GE2n.add_assign out (contribution (rank_ key) t_working (DcfPRG (s_vseed lside)) (v_ cw)))).

Definition DcfEval (key : DcfKey) (in_ : Z) : option Z :=
  '(seed_working, t_working, out) ← for_up (Z.to_nat M) 0 (eval_level key in_) (mseed_ key, rank_ key, 0);
  let prg := DcfPRG seed_working in
  tmp ← (if t_working : bool then last ← vget (last_cw_vec key) 0; Some (GE2n.add prg last) else Some prg);
  Some (GE2n.add_assign out (if rank_ key then GE2n.GetReverse N tmp else tmp)).

(** *** Key generation *)

Record work := mk_work { w_seed0 : Z; w_seed1 : Z; w_t0 : bool; w_t1 : bool; v_working : Z }.

(** The correction words of one level, and the working values of the next. *)
Definition keygen_cw (beta : Z) (alpha_bit : bool) (w : work) : Z * Z * bool * bool * work :=
  let '(left0, right0) := SplitDcfSeed (w_seed0 w) in
  let '(left1, right1) := SplitDcfSeed (w_seed1 w) in
  let '(keep0, keep1) := if alpha_bit then (right0, right1) else (left0, left1) in
  let '(lose0, lose1) := if alpha_bit then (left0, left1) else (right0, right1) in
  let cw_seed := Z.lxor (s_seed lose0) (s_seed lose1) in
  let prg_lose_0 := DcfPRG (s_vseed lose0) in
  let prg_lose_1 := DcfPRG (s_vseed lose1) in
  let prg_keep_0 := DcfPRG (s_vseed keep0) in
  let prg_keep_1 := DcfPRG (s_vseed keep1) in
  let cw_v := GE2n.add (GE2n.add prg_lose_1 (GE2n.GetReverse N prg_lose_0)) (GE2n.GetReverse N (v_working w)) in
  let '(cw_v', v_working') :=
    if w_t1 w
    then
      let cw_v1 := GE2n.ReverseInplace N cw_v in
      let cw_v2 := if alpha_bit then GE2n.add_assign cw_v1 (GE2n.GetReverse N beta) else cw_v1 in
      (cw_v2, GE2n.add_assign (v_working w)
                (GE2n.add (GE2n.add (GE2n.GetReverse N prg_keep_1) prg_keep_0) (GE2n.GetReverse N cw_v2)))
    else
      let cw_v2 := if alpha_bit then GE2n.add_assign cw_v beta else cw_v in
      (cw_v2, GE2n.add_assign (v_working w)
                (GE2n.add (GE2n.add (GE2n.GetReverse N prg_keep_1) prg_keep_0) cw_v2)) in
  let cw_t_left := xorb (xorb (xorb (s_t left0) (s_t left1)) alpha_bit) true in
  let cw_t_right := xorb (xorb (s_t right0) (s_t right1)) alpha_bit in
  let cw_t_keep := if alpha_bit then cw_t_right else cw_t_left in
  (cw_seed, cw_v', cw_t_left, cw_t_right,
   mk_work (if w_t0 w then Z.lxor (s_seed keep0) cw_seed else s_seed keep0)
           (if w_t1 w then Z.lxor (s_seed keep1) cw_seed else s_seed keep1)
           (xorb (s_t keep0) (w_t0 w && cw_t_keep))
           (xorb (s_t keep1) (w_t1 w && cw_t_keep))
           v_working').

Definition keygen_level (alpha beta : Z) (i : Z) (st : work * list CW) : option (work * list CW) :=
  b ← GE2n.GetBit alpha (M - i - 1);
  let '(cw_seed, cw_v, cw_t_left, cw_t_right, w') := keygen_cw beta (to_bool b) (fst st) in
  cw ← vget (snd st) i;
  cw1 ← SetLT (SetSeed cw cw_seed) (Z.b2z cw_t_left);
  cw2 ← SetRT cw1 (Z.b2z cw_t_right);
  cws ← vset (snd st) i (SetV cw2 (GE2n.GetVal N cw_v));
  Some (w', cws).

Definition DcfKeyGen (alpha beta first_mk second_mk : Z) : option (DcfKey * DcfKey) :=
  '(w, cws) ← for_up (Z.to_nat M) 0 (keygen_level alpha beta)
    (mk_work first_mk second_mk false true 0, replicate (Z.to_nat M) CW_default);
  let prg0 := DcfPRG (w_seed0 w) in
  let prg1' := DcfPRG (w_seed1 w) in
  let last_cw := GE2n.add (GE2n.add (GE2n.GetReverse N prg0) prg1') (GE2n.GetReverse N (v_working w)) in
  let last_cw' := if w_t1 w then GE2n.ReverseInplace N last_cw else last_cw in
  let last := GE2n.GetVal N last_cw' in
  Some (mk_key cws [last] false first_mk, mk_key cws [last] true second_mk).
End Dcf.
End Dcf.
