(* ===== verification/DcfTheorems.v ===== *)
(** Correctness of the distributed comparison functions: the two shares add up to
    [beta] on the inputs below [alpha] and to 0 on the others. *)

From Stdlib Require Import ZArith Lia ZifyBool Bool Setoid Morphisms.
From stdpp Require Import base numbers list option.
From S2P Require Import Prelude Ge2n Dpf DpfTheorems Dcf.

Local Open Scope Z_scope.

Definition dcf_cw_of (seed v : Z) (l r : bool) : Dcf.CW := Dcf.mk_cw seed v (2 * Z.b2z r + Z.b2z l).

Lemma dcf_set_cw seed v l r :
  (cw1 ← Dcf.SetLT (Dcf.SetSeed Dcf.CW_default seed) (Z.b2z l);
   cw2 ← Dcf.SetRT cw1 (Z.b2z r); Some (Dcf.SetV cw2 v)) = Some (dcf_cw_of seed v l r).
Proof. by destruct l, r. Qed.

Lemma dcf_GetLT seed v l r : Dcf.GetLT (dcf_cw_of seed v l r) = Z.b2z l.
Proof. by destruct l, r. Qed.

Lemma dcf_GetRT seed v l r : Dcf.GetRT (dcf_cw_of seed v l r) = Z.b2z r.
Proof. by destruct l, r. Qed.

(** Comparison of the [i] highest of [m] bits. *)
Fixpoint cmp_high (m : Z) (x a : Z) (i : nat) : comparison :=
  match i with
  | O => Eq
  | S k => match cmp_high m x a k with
           | Eq => Z.compare (Z.b2z (Z.testbit x (m - Z.of_nat k - 1))) (Z.b2z (Z.testbit a (m - Z.of_nat k - 1)))
           | c => c
           end
  end.

Lemma div_pow_step x c : 0 <= c -> x / 2 ^ c = 2 * (x / 2 ^ (c + 1)) + Z.b2z (Z.testbit x c).
Proof.
  intros Hc. rewrite Z.testbit_spec' by lia. rewrite Z.pow_add_r by lia. change (2 ^ 1) with 2.
  rewrite <- Z.div_div by lia. apply Z.div_mod. lia.
Qed.

Lemma cmp_high_compare m x a i :
  Z.of_nat i <= m -> 0 <= x < 2 ^ m -> 0 <= a < 2 ^ m ->
  cmp_high m x a i = (x / 2 ^ (m - Z.of_nat i) ?= a / 2 ^ (m - Z.of_nat i)).
Proof.
  intros Hi Hx Ha. induction i as [|i IH]; cbn [cmp_high].
  { rewrite Z.sub_0_r, !Z.div_small by lia. done. }
  rewrite IH by lia. set (c := m - Z.of_nat (S i)).
  replace (m - Z.of_nat i - 1) with c by lia. replace (m - Z.of_nat i) with (c + 1) by lia.
  rewrite (div_pow_step x c), (div_pow_step a c) by lia.
  set (hx := x / 2 ^ (c + 1)). set (ha := a / 2 ^ (c + 1)).
  destruct (Z.compare_spec hx ha), (Z.testbit x c), (Z.testbit a c); cbn [Z.b2z];
    symmetry; (apply Z.compare_eq_iff || apply Z.compare_lt_iff || apply Z.compare_gt_iff); lia.
Qed.

Lemma testbit_low x m j : 0 <= j < m -> Z.testbit (x mod 2 ^ m) j = Z.testbit x j.
Proof. intros Hj. rewrite testbit_mod by lia. by replace (j <? m) with true by lia. Qed.

Lemma cmp_high_mod m x a i :
  0 <= m -> Z.of_nat i <= m -> cmp_high m (x mod 2 ^ m) (a mod 2 ^ m) i = cmp_high m x a i.
Proof.
  intros Hm Hi. induction i as [|i IH]; cbn [cmp_high]; [done|]. rewrite IH by lia.
  by rewrite !testbit_low by lia.
Qed.

Section Paths.
Context (prg1 : Z -> Z) (prg5 : Z -> Dcf.words5).
Context (M N : Z) {HN : GroupBits N}.
Context (alpha beta mk0 mk1 : Z).

Fixpoint dcf_kg (n : nat) : Dcf.work :=
  match n with
  | O => Dcf.mk_work mk0 mk1 false true 0
  | S k => snd (Dcf.keygen_cw prg1 prg5 N beta (Z.testbit alpha (M - Z.of_nat k - 1)) (dcf_kg k))
  end.

Definition dcf_kg_cw (a : bool) (w : Dcf.work) : Dcf.CW :=
  let '(seed, v, l, r, _) := Dcf.keygen_cw prg1 prg5 N beta a w in dcf_cw_of seed (GE2n.GetVal N v) l r.

Definition dcf_words (k : nat) : Dcf.CW := dcf_kg_cw (Z.testbit alpha (M - Z.of_nat k - 1)) (dcf_kg k).

(** The child of a node, and the value the step adds for a party. *)
Definition dcf_child (b : bool) (cw : Dcf.CW) (st : Z * bool) : Z * bool :=
  let '(l, r) := Dcf.SplitDcfSeed prg5 (fst st) in
  if b then Dcf.child cw (Dcf.GetRT cw) (snd st) r else Dcf.child cw (Dcf.GetLT cw) (snd st) l.

Definition dcf_gain (rank b : bool) (cw : Dcf.CW) (st : Z * bool) : Z :=
  let '(l, r) := Dcf.SplitDcfSeed prg5 (fst st) in
  Dcf.contribution N rank (snd st) (Dcf.DcfPRG prg1 (Dcf.s_vseed (if b then r else l))) (Dcf.v_ cw).

Definition dcf_split (w : Dcf.work) : Prop := xorb (Dcf.w_t0 w) (Dcf.w_t1 w) = true.

Lemma contribution_same rank t p v :
  same_element N (Dcf.contribution N rank t p v)
    (if rank then - (p + Z.b2z t * v) else p + Z.b2z t * v).
Proof.
  unfold Dcf.contribution. destruct t, rank; ge2n_simpl N; cbn [Z.b2z];
    rewrite ?Z.mul_1_l, ?Z.mul_0_l, ?Z.add_0_r; done.
Qed.

(** On the side alpha takes, the parties follow the key generation and their gains
    make up the change of the working value. *)
Lemma dcf_keep a w :
  dcf_split w ->
  let w' := snd (Dcf.keygen_cw prg1 prg5 N beta a w) in
  dcf_child a (dcf_kg_cw a w) (Dcf.w_seed0 w, Dcf.w_t0 w) = (Dcf.w_seed0 w', Dcf.w_t0 w') /\
  dcf_child a (dcf_kg_cw a w) (Dcf.w_seed1 w, Dcf.w_t1 w) = (Dcf.w_seed1 w', Dcf.w_t1 w') /\
  dcf_split w' /\
  same_element N (dcf_gain false a (dcf_kg_cw a w) (Dcf.w_seed0 w, Dcf.w_t0 w)
                  + dcf_gain true a (dcf_kg_cw a w) (Dcf.w_seed1 w, Dcf.w_t1 w))
    (Dcf.v_working w' - Dcf.v_working w).
Proof.
  unfold dcf_split, dcf_child, dcf_gain, dcf_kg_cw, Dcf.keygen_cw. intros Ht. cbn [fst snd].
  destruct (Dcf.SplitDcfSeed prg5 (Dcf.w_seed0 w)) as [l0 r0], (Dcf.SplitDcfSeed prg5 (Dcf.w_seed1 w)) as [l1 r1].
  destruct a, (Dcf.w_t0 w), (Dcf.w_t1 w); try done; unfold Dcf.child; cbn [fst snd Dcf.w_seed0 Dcf.w_seed1
      Dcf.w_t0 Dcf.w_t1 Dcf.v_working Dcf.v_ Dcf.seed_ dcf_cw_of];
    rewrite ?dcf_GetLT, ?dcf_GetRT, !to_bool_correct;
    (split; [done|split; [done|split; [destruct (Dcf.s_t l0), (Dcf.s_t l1), (Dcf.s_t r0), (Dcf.s_t r1); done|]]]);
    rewrite !contribution_same; unfold GE2n.add_assign; rewrite ?ReverseInplace_eq;
    cbn [Z.b2z]; rewrite ?Z.mul_1_l, ?Z.mul_0_l, ?Z.add_0_r; ge2n_simpl N;
    apply eq_subrelation; try lia; exact _.
Qed.

(** On the other side they meet, and their gains cancel the working value: what is
    left is [beta] when alpha went right. *)
Lemma dcf_lose a w :
  dcf_split w ->
  dcf_child (negb a) (dcf_kg_cw a w) (Dcf.w_seed0 w, Dcf.w_t0 w)
    = dcf_child (negb a) (dcf_kg_cw a w) (Dcf.w_seed1 w, Dcf.w_t1 w) /\
  same_element N (dcf_gain false (negb a) (dcf_kg_cw a w) (Dcf.w_seed0 w, Dcf.w_t0 w)
                  + dcf_gain true (negb a) (dcf_kg_cw a w) (Dcf.w_seed1 w, Dcf.w_t1 w))
    ((if a then beta else 0) - Dcf.v_working w).
Proof.
  unfold dcf_split, dcf_child, dcf_gain, dcf_kg_cw, Dcf.keygen_cw. intros Ht. cbn [fst snd].
  destruct (Dcf.SplitDcfSeed prg5 (Dcf.w_seed0 w)) as [l0 r0], (Dcf.SplitDcfSeed prg5 (Dcf.w_seed1 w)) as [l1 r1].
  destruct a, (Dcf.w_t0 w), (Dcf.w_t1 w); try done; unfold Dcf.child; cbn [negb fst snd Dcf.w_seed0 Dcf.w_seed1
      Dcf.w_t0 Dcf.w_t1 Dcf.v_working Dcf.v_ Dcf.seed_ dcf_cw_of];
    rewrite ?dcf_GetLT, ?dcf_GetRT, !to_bool_correct, ?lxor_cancel, ?lxor_cancel_r;
    (split; [f_equal; destruct (Dcf.s_t l0), (Dcf.s_t l1), (Dcf.s_t r0), (Dcf.s_t r1); done|]);
    rewrite !contribution_same; unfold GE2n.add_assign; rewrite ?ReverseInplace_eq;
    cbn [Z.b2z]; rewrite ?Z.mul_1_l, ?Z.mul_0_l, ?Z.add_0_r; ge2n_simpl N;
    apply eq_subrelation; try lia; exact _.
Qed.

Lemma dcf_kg_split n : dcf_split (dcf_kg n).
Proof. induction n as [|n IH]; [done|]. cbn [dcf_kg]. by apply dcf_keep. Qed.

(** The states of both parties after [c] levels on the input [x]. *)
Definition dcf_shares (x : Z) (c : nat) (e0 e1 : Z * bool) (out : Z) : Prop :=
  match cmp_high M x alpha c with
  | Eq => e0 = (Dcf.w_seed0 (dcf_kg c), Dcf.w_t0 (dcf_kg c)) /\
          e1 = (Dcf.w_seed1 (dcf_kg c), Dcf.w_t1 (dcf_kg c)) /\
          same_element N out (Dcf.v_working (dcf_kg c))
  | Lt => e0 = e1 /\ same_element N out beta
  | Gt => e0 = e1 /\ same_element N out 0
  end.

Lemma dcf_gain_cancel b cw st : same_element N (dcf_gain false b cw st + dcf_gain true b cw st) 0.
Proof.
  unfold dcf_gain. destruct (Dcf.SplitDcfSeed prg5 st.1) as [l r]. rewrite !contribution_same.
  by rewrite Z.add_opp_diag_r.
Qed.

Lemma dcf_step x c e0 e1 out :
  dcf_shares x c e0 e1 out ->
  let b := Z.testbit x (M - Z.of_nat c - 1) in
  dcf_shares x (S c) (dcf_child b (dcf_words c) e0) (dcf_child b (dcf_words c) e1)
    (out + (dcf_gain false b (dcf_words c) e0 + dcf_gain true b (dcf_words c) e1)).
Proof.
  intros H b. unfold dcf_shares in *. cbn [cmp_high]. fold b. set (a := Z.testbit alpha (M - Z.of_nat c - 1)).
  destruct (cmp_high M x alpha c).
  - destruct H as (-> & -> & Ho). pose proof (dcf_kg_split c) as Hs. unfold dcf_words. fold a.
    destruct (dcf_keep a (dcf_kg c) Hs) as (K1 & K2 & _ & K3). destruct (dcf_lose a (dcf_kg c) Hs) as (L1 & L2).
    assert (Hb : b = a \/ b = negb a) by (destruct a, b; auto). destruct Hb as [-> | ->].
    + rewrite Z.compare_refl. cbn [dcf_kg]. fold a. split; [done|]. split; [done|].
      rewrite Ho, K3. apply eq_subrelation; [exact _|lia].
    + destruct a; cbn [negb Z.b2z Z.compare] in *.
      * split; [done|]. rewrite Ho, L2. apply eq_subrelation; [exact _|lia].
      * split; [done|]. rewrite Ho, L2. apply eq_subrelation; [exact _|lia].
  - destruct H as (-> & Ho). split; [done|]. rewrite dcf_gain_cancel, Z.add_0_r. done.
  - destruct H as (-> & Ho). split; [done|]. rewrite dcf_gain_cancel, Z.add_0_r. done.
Qed.

(** The state and the output of a party after [c] levels. *)
Fixpoint dcf_state (x : Z) (st : Z * bool) (c : nat) : Z * bool :=
  match c with
  | O => st
  | S k => dcf_child (Z.testbit x (M - Z.of_nat k - 1)) (dcf_words k) (dcf_state x st k)
  end.

Fixpoint dcf_out (rank : bool) (x : Z) (st : Z * bool) (c : nat) : Z :=
  match c with
  | O => 0
  | S k => GE2n.add_assign (dcf_out rank x st k)
             (dcf_gain rank (Z.testbit x (M - Z.of_nat k - 1)) (dcf_words k) (dcf_state x st k))
  end.

Lemma dcf_shares_mono x c e0 e1 o o' :
  same_element N o o' -> dcf_shares x c e0 e1 o -> dcf_shares x c e0 e1 o'.
Proof. unfold dcf_shares. intros E. by destruct (cmp_high M x alpha c); rewrite E. Qed.

Lemma dcf_run x c :
  dcf_shares x c (dcf_state x (mk0, false) c) (dcf_state x (mk1, true) c)
    (dcf_out false x (mk0, false) c + dcf_out true x (mk1, true) c).
Proof.
  induction c as [|c IH]; [by split|]. cbn [dcf_state dcf_out].
  eapply dcf_shares_mono; [|by apply dcf_step]. unfold GE2n.add_assign. ge2n_simpl N.
  apply eq_subrelation; [exact _|lia].
Qed.

Hypothesis HM : 0 < M <= 128.

Definition dcf_cws : list Dcf.CW := dcf_words <$> seq 0 (Z.to_nat M).

Lemma dcf_keygen_loop :
  for_up (Z.to_nat M) 0 (Dcf.keygen_level prg1 prg5 M N alpha beta)
    (Dcf.mk_work mk0 mk1 false true 0, replicate (Z.to_nat M) Dcf.CW_default)
  = Some (dcf_kg (Z.to_nat M), dcf_cws).
Proof.
  set (n := Z.to_nat M).
  destruct (for_up_inv (fun i st => st = (dcf_kg (Z.to_nat i),
      (dcf_words <$> seq 0 (Z.to_nat i)) ++ replicate (n - Z.to_nat i) Dcf.CW_default))
    (Dcf.keygen_level prg1 prg5 M N alpha beta) n 0
    (Dcf.mk_work mk0 mk1 false true 0, replicate n Dcf.CW_default)) as (st & E & ->).
  - cbn. by rewrite Nat.sub_0_r.
  - intros k t Hk ->. set (m := Z.to_nat k). assert (Ek : k = Z.of_nat m) by lia. rewrite Ek in *.
    unfold Dcf.keygen_level. cbn [fst snd]. rewrite GetBit_testbit by lia. cbn [mbind option_bind].
    rewrite to_bool_b2z.
    destruct (Dcf.keygen_cw prg1 prg5 N beta _ (dcf_kg m)) as [[[[seed v] l] r] w'] eqn:EC.
    assert (Hl : length (dcf_words <$> seq 0 m) = m) by (by rewrite length_fmap, length_seq).
    assert (Hsz : vsize ((dcf_words <$> seq 0 m) ++ replicate (n - m) Dcf.CW_default) = Z.of_nat n)
      by (unfold vsize; rewrite length_app, length_replicate; lia).
    assert (Hg : vget ((dcf_words <$> seq 0 m) ++ replicate (n - m) Dcf.CW_default) (Z.of_nat m) = Some Dcf.CW_default).
    { unfold vget. destruct (Z.leb_spec 0 (Z.of_nat m)); [|lia]. rewrite Nat2Z.id, lookup_app_r by lia.
      apply lookup_replicate_2. lia. }
    rewrite Hg. cbn [mbind option_bind]. pose proof (dcf_set_cw seed (GE2n.GetVal N v) l r) as HS.
    destruct (Dcf.SetLT _ _) as [cw1|]; [|done]. cbn [mbind option_bind] in HS |- *.
    destruct (Dcf.SetRT _ _) as [cw2|]; [|done]. cbn [mbind option_bind] in HS |- *. apply (inj Some) in HS. rewrite HS.
    rewrite vset_Some by lia. cbn [mbind option_bind]. eexists. split; [done|].
    replace (Z.to_nat (Z.of_nat m + 1)) with (S m) by lia. f_equal.
    + cbn [dcf_kg]. rewrite EC. done.
    + rewrite Nat2Z.id. rewrite <- (Nat.add_0_r m) at 1. rewrite <- Hl at 1. rewrite insert_app_r.
      replace (n - m)%nat with (S (n - S m)) by lia. cbn [replicate].
      change (<[0%nat := ?v]> (?a :: ?q)) with (v :: q). rewrite seq_S, fmap_app, <- app_assoc.
      f_equal. cbn. f_equal. unfold dcf_words, dcf_kg_cw. by rewrite EC.
  - rewrite E, Z.add_0_l, Nat2Z.id, Nat.sub_diag. cbn [replicate]. by rewrite app_nil_r.
Qed.

Lemma dcf_eval_loop rank mseed last x :
  let key := Dcf.mk_key dcf_cws last rank mseed in
  for_up (Z.to_nat M) 0 (Dcf.eval_level prg1 prg5 M N key x) (mseed, rank, 0)
  = Some (dcf_state x (mseed, rank) (Z.to_nat M), dcf_out rank x (mseed, rank) (Z.to_nat M)).
Proof.
  intros key. set (n := Z.to_nat M).
  destruct (for_up_inv (fun i st => st = (dcf_state x (mseed, rank) (Z.to_nat i), dcf_out rank x (mseed, rank) (Z.to_nat i)))
    (Dcf.eval_level prg1 prg5 M N key x) n 0 (mseed, rank, 0)) as (st & E & ->).
  - done.
  - intros k t Hk ->. set (m := Z.to_nat k). assert (Ek : k = Z.of_nat m) by lia. rewrite Ek in *.
    destruct (dcf_state x (mseed, rank) m) as [s tw] eqn:Es. unfold Dcf.eval_level.
    assert (Hg : vget (Dcf.cws_vec key) (Z.of_nat m) = Some (dcf_words m)).
    { unfold key, vget, dcf_cws. cbn [Dcf.cws_vec]. destruct (Z.leb_spec 0 (Z.of_nat m)); [|lia].
      by rewrite Nat2Z.id, list_lookup_fmap, lookup_seq_lt by lia. }
    rewrite Hg. cbn [mbind option_bind]. rewrite GetBit_testbit by lia.
    replace (Z.to_nat (Z.of_nat m + 1)) with (S m) by lia. cbn [dcf_state dcf_out]. rewrite Es.
    unfold dcf_child, dcf_gain. cbn [fst snd].
    destruct (Dcf.SplitDcfSeed prg5 s) as [l r]. cbn [mbind option_bind]. rewrite to_bool_b2z.
    eexists. split; [done|]. by destruct (Z.testbit x (M - Z.of_nat m - 1)).
  - rewrite E, Z.add_0_l, Nat2Z.id. done.
Qed.

(** The last word of the keys. *)
Definition dcf_last : Z :=
  let w := dcf_kg (Z.to_nat M) in
  let last_cw := GE2n.add (GE2n.add (GE2n.GetReverse N (Dcf.DcfPRG prg1 (Dcf.w_seed0 w)))
                   (Dcf.DcfPRG prg1 (Dcf.w_seed1 w))) (GE2n.GetReverse N (Dcf.v_working w)) in
  GE2n.GetVal N (if Dcf.w_t1 w then GE2n.ReverseInplace N last_cw else last_cw).

Definition dcf_result (rank : bool) (st : Z * bool) (out : Z) : Z :=
  let prg := Dcf.DcfPRG prg1 (fst st) in
  let tmp := if snd st then GE2n.add prg dcf_last else prg in
  GE2n.add_assign out (if rank then GE2n.GetReverse N tmp else tmp).

Lemma dcf_result_same rank st out :
  same_element N (dcf_result rank st out)
    (out + let v := Dcf.DcfPRG prg1 (fst st) + Z.b2z (snd st) * dcf_last in if rank then - v else v).
Proof.
  unfold dcf_result, GE2n.add_assign. destruct (snd st), rank; cbn [Z.b2z];
    rewrite ?Z.mul_1_l, ?Z.mul_0_l, ?Z.add_0_r; by ge2n_simpl N.
Qed.

Lemma dcf_shares_final x e0 e1 o0 o1 :
  dcf_shares x (Z.to_nat M) e0 e1 (o0 + o1) ->
  same_element N (dcf_result false e0 o0 + dcf_result true e1 o1)
    (match cmp_high M x alpha (Z.to_nat M) with Lt => beta | _ => 0 end).
Proof.
  unfold dcf_shares. intros H. rewrite !dcf_result_same. cbn zeta.
  set (n := Z.to_nat M) in *. destruct (cmp_high M x alpha n).
  - destruct H as (-> & -> & Ho). pose proof (dcf_kg_split n) as Hs. unfold dcf_split in Hs. cbn [fst snd].
    set (w := dcf_kg n) in *. set (p0 := Dcf.DcfPRG prg1 (Dcf.w_seed0 w)). set (p1 := Dcf.DcfPRG prg1 (Dcf.w_seed1 w)).
    transitivity (o0 + o1 + (p0 - p1 + (Z.b2z (Dcf.w_t0 w) - Z.b2z (Dcf.w_t1 w)) * dcf_last)).
    { apply eq_subrelation; [exact _|lia]. }
    rewrite Ho. unfold dcf_last. fold n w p0 p1. rewrite ReverseInplace_eq.
    destruct (Dcf.w_t0 w), (Dcf.w_t1 w); try done.
    + change (Z.b2z true - Z.b2z false) with 1. rewrite Z.mul_1_l. ge2n_simpl N.
      apply eq_subrelation; [exact _|lia].
    + change (Z.b2z false - Z.b2z true) with (- (1)). rewrite Z.mul_opp_l, Z.mul_1_l. ge2n_simpl N.
      apply eq_subrelation; [exact _|lia].
  - destruct H as (-> & Ho). transitivity (o0 + o1); [apply eq_subrelation; [exact _|lia]|done].
  - destruct H as (-> & Ho). transitivity (o0 + o1); [apply eq_subrelation; [exact _|lia]|done].
Qed.
End Paths.

(** C4: distributed comparison functions ([DcfKeyGen], [DcfEval]). For every
    generator, seeds, threshold [alpha] and value [beta], key generation succeeds,
    both keys evaluate at every input, and the two results add up in the group to
    [beta] on the inputs below [alpha] and to 0 on the others, [alpha] included. *)
Theorem dcf_comparison_function prg1 prg5 M N (HN : GroupBits N) (HM : 0 < M <= 128)
    alpha beta first_mk second_mk x :
  exists k0 k1 y0 y1,
    Dcf.DcfKeyGen prg1 prg5 M N alpha beta first_mk second_mk = Some (k0, k1) /\
    Dcf.DcfEval prg1 prg5 M N k0 x = Some y0 /\ Dcf.DcfEval prg1 prg5 M N k1 x = Some y1 /\
    GE2n.GetVal N (GE2n.add y0 y1)
    = if GE2n.GetVal M x <? GE2n.GetVal M alpha then GE2n.GetVal N beta else 0.
Proof.
  unfold Dcf.DcfKeyGen. rewrite (dcf_keygen_loop prg1 prg5 M N alpha beta first_mk second_mk HM).
  cbn [mbind option_bind]. fold (dcf_last prg1 prg5 M N alpha beta first_mk second_mk).
  set (last := dcf_last _ _ _ _ _ _ _ _). set (cws := dcf_cws _ _ _ _ _ _ _ _).
  assert (Hev : forall rank mseed, Dcf.DcfEval prg1 prg5 M N (Dcf.mk_key cws [last] rank mseed) x
    = Some (dcf_result prg1 prg5 M N alpha beta first_mk second_mk rank
        (dcf_state prg1 prg5 M N alpha beta first_mk second_mk x (mseed, rank) (Z.to_nat M))
        (dcf_out prg1 prg5 M N alpha beta first_mk second_mk rank x (mseed, rank) (Z.to_nat M)))).
  { intros rank mseed. unfold Dcf.DcfEval. cbn [Dcf.mseed_ Dcf.rank_ Dcf.last_cw_vec].
    pose proof (dcf_eval_loop prg1 prg5 M N alpha beta first_mk second_mk HM rank mseed [last] x) as E.
    cbn zeta in E. fold cws in E. rewrite E. destruct (dcf_state _ _ _ _ _ _ _ _ _ _ _) as [s t].
    cbn [mbind option_bind]. unfold dcf_result. cbn [fst snd]. by destruct t. }
  eexists _, _, _, _. split; [done|]. split; [apply Hev|]. split; [apply Hev|].
  pose proof (dcf_run prg1 prg5 M N alpha beta first_mk second_mk x (Z.to_nat M)) as HR.
  apply dcf_shares_final in HR; [|done].
  assert (GroupBits M) by (unfold GroupBits; lia). assert (0 < 2 ^ M) by (apply Z.pow_pos_nonneg; lia).
  assert (Ec : cmp_high M x alpha (Z.to_nat M) = (GE2n.GetVal M x ?= GE2n.GetVal M alpha)).
  { rewrite <- cmp_high_mod by lia. rewrite cmp_high_compare by (lia || (apply Z.mod_pos_bound; lia)).
    rewrite Z2Nat.id, Z.sub_diag, !Z.div_1_r by lia. by rewrite !(GetVal_mod M). }
  rewrite Ec in HR. rewrite <- (add_same N) in HR. rewrite (GetVal_eq N _ _ HR). unfold Z.ltb.
  destruct (_ ?= _); [|done|]; rewrite (GetVal_mod N); apply Z.mod_0_l; pose proof (bits_bounds N); lia.
Qed.

Definition demo_prg5 (seed : Z) : Dcf.words5 :=
  Dcf.mk_words (demo_prg1 (seed + 1)) (demo_prg1 (seed + 2)) (demo_prg1 (seed + 3)) (demo_prg1 (seed + 4))
    (demo_prg1 (demo_prg1 (seed + 5))).

Lemma dcf_comparison_witness :
  exists k0 k1 y0 y1,
    Dcf.DcfKeyGen demo_prg1 demo_prg5 8 64 200 77 11 22 = Some (k0, k1) /\
    Dcf.DcfEval demo_prg1 demo_prg5 8 64 k0 199 = Some y0 /\
    Dcf.DcfEval demo_prg1 demo_prg5 8 64 k1 199 = Some y1 /\
    GE2n.GetVal 64 (GE2n.add y0 y1) = 77.
Proof. exact (dcf_comparison_function demo_prg1 demo_prg5 8 64 group_64 ltac:(lia) 200 77 11 22 199). Defined.
