(* ===== verification/Pprf.v ===== *)
(** Puncturable pseudo-random functions
    (src/yacl/crypto/experimental/dpf/pprf.h, pprf.cc).

    The function is a GGM tree over a length-doubling generator, which is a
    parameter: [ggm seed b] is block [b] of the key stream of [seed]. Puncturing
    expands the tree along the path of a point and keeps the seeds of the
    siblings. [None] is a thrown exception. *)

From Stdlib Require Import ZArith Lia ZifyBool Bool.
From stdpp Require Import base numbers list option gmap.
From S2P Require Import Prelude Ge2n Dpf DpfTheorems.

Local Open Scope Z_scope.

Module Pprf.

Record PprfPuncKey := mk_punc { punc_point : Z; seeds : gmap Z Z }.

(** [unordered_map::insert] keeps the entry that is there. *)
Definition map_insert (m : gmap Z Z) (k v : Z) : gmap Z Z :=
  match m !! k with Some _ => m | None => <[k := v]> m end.

Section Pprf.
Context (ggm : Z -> bool -> Z).
Context (M : Z).

(** [GgmPrg(in, out1, out2)]. *)
Definition GgmPrg (in_ : Z) : Z * Z := (ggm in_ false, ggm in_ true).

(** The span of [2^k] words of [work] that starts at [off]. *)
Fixpoint GgmExpandAndPunc (k : nat) (work : list Z) (off punc : Z) (out : gmap Z Z)
  : option (list Z * gmap Z Z) :=
  match k with
  | O => Some (work, out)
  | S k' =>
      let num := 2 ^ Z.of_nat k in
      let i := M - Z.of_nat k in
      x ← vget work off;
      let '(o1, o2) := GgmPrg x in
      work1 ← vset work off o1;
      work2 ← vset work1 (off + num / 2) o2;
      b ← GE2n.GetBit punc i;
      if negb (to_bool b)
      then '(work3, out') ← GgmExpandAndPunc k' work2 off punc out;
           y ← vget work3 (off + num / 2);
           Some (work3, map_insert out' i y)
      else y ← vget work2 off;
           GgmExpandAndPunc k' work2 (off + num / 2) punc (map_insert out i y)
  end.

(** The vector of [2^M] words cannot be allocated from [2^59] words on. *)
Definition PprfPunc (prf_key punc : Z) (out : PprfPuncKey) : option PprfPuncKey :=
  let num := if M =? 64 then 2 ^ 64 - 1 else 2 ^ M in
  assert! (num <? 2 ^ 59);
  working_vec ← vset (replicate (Z.to_nat num) 0) 0 prf_key;
  '(_, out') ← GgmExpandAndPunc (Z.to_nat M) working_vec 0 punc (seeds out);
  Some (mk_punc (GE2n.GetVal M punc) out').

(** One level of [PprfPuncEval]: [is_same], [retrived] and [current_seed]. *)
Definition punc_eval_level (key : PprfPuncKey) (point : Z) (i : Z) (st : bool * bool * Z)
  : option (bool * bool * Z) :=
  let '(is_same, retrived, current_seed) := st in
  b ← GE2n.GetBit point i;
  p ← GE2n.GetBit (punc_point key) i;
  let is_same' := is_same && (b =? p) in
  if negb is_same'
  then if negb retrived
       then s ← seeds key !! i; Some (is_same', true, s)
       else Some (is_same', retrived,
                  if negb (to_bool b) then fst (GgmPrg current_seed) else snd (GgmPrg current_seed))
  else Some (is_same', retrived, current_seed).

Definition PprfPuncEval (key : PprfPuncKey) (point : Z) : option Z :=
  assert! (GE2n.neqb M (punc_point key) point);
  '(_, _, current_seed) ← for_up (Z.to_nat M) 0 (punc_eval_level key point) (true, false, 0);
  Some current_seed.

Definition eval_level (point i current_seed : Z) : option Z :=
  b ← GE2n.GetBit point i;
  Some (if negb (to_bool b) then fst (GgmPrg current_seed) else snd (GgmPrg current_seed)).

Definition PprfEval (prf_key point : Z) : option Z :=
  for_up (Z.to_nat M) 0 (eval_level point) prf_key.
End Pprf.
End Pprf.

(** *** Paths of the tree *)

Section Facts.
Context (ggm : Z -> bool -> Z).
Context (M : Z).

(** Down [n] levels from level [i], along the bits of [x]. *)
Fixpoint path (x : Z) (i : Z) (n : nat) (s : Z) : Z :=
  match n with O => s | S m => path x (i + 1) m (ggm s (Z.testbit x i)) end.

Lemma path_snoc x i n s : path x i (S n) s = ggm (path x i n s) (Z.testbit x (i + Z.of_nat n)).
Proof.
  revert i s. induction n as [|n IH]; intros i s; [cbn; by rewrite Z.add_0_r|].
  cbn [path] in *. rewrite IH. do 2 f_equal. lia.
Qed.

Lemma path_same_low x a n s :
  same_low x a n = true -> path x 0 n s = path a 0 n s.
Proof.
  induction n as [|n IH]; [done|]. cbn [same_low]. rewrite andb_true_iff, eqb_true_iff. intros [H1 H2].
  rewrite !path_snoc, IH by done. by rewrite !Z.add_0_l, H2.
Qed.

(** The sibling seed of level [j] on the path of [a] from seed [s] of level [i]. *)
Definition sibling (a i j s : Z) : Z := ggm (path a i (Z.to_nat (j - i)) s) (negb (Z.testbit a j)).

Lemma lookup_map_insert m k v j :
  Pprf.map_insert m k v !! j = if (j =? k) then Some (default v (m !! k)) else m !! j.
Proof.
  unfold Pprf.map_insert. destruct (Z.eqb_spec j k) as [->|Hne].
  - destruct (m !! k) as [x|] eqn:E; cbn; [done|]. by rewrite lookup_insert_eq.
  - destruct (m !! k); [done|]. by rewrite lookup_insert_ne.
Qed.

(** What puncturing adds to the seeds, and that it stays in its span. *)
Lemma expand_and_punc k work off a out s :
  Z.of_nat k <= M <= 128 -> 0 <= off -> off + 2 ^ Z.of_nat k <= vsize work -> vget work off = Some s ->
  exists work' out', Pprf.GgmExpandAndPunc ggm M k work off a out = Some (work', out') /\
    vsize work' = vsize work /\
    (forall p, off + 2 ^ Z.of_nat k <= p < vsize work -> vget work' p = vget work p) /\
    (forall j, out' !! j = if (M - Z.of_nat k <=? j) && (j <? M)
                           then Some (default (sibling a (M - Z.of_nat k) j s) (out !! j)) else out !! j).
Proof.
  revert work off out s. induction k as [|k IH]; intros work off out s HkM Hoff Hsz Hs.
  { exists work, out. split; [done|]. split; [done|]. split; [done|]. intros j.
    by replace ((M - Z.of_nat 0 <=? j) && (j <? M)) with false by lia. }
  cbn [Pprf.GgmExpandAndPunc]. set (i := M - Z.of_nat (S k)).
  assert (Hpow : 2 ^ Z.of_nat (S k) = 2 * 2 ^ Z.of_nat k) by (rewrite Nat2Z.inj_succ, Z.pow_succ_r by lia; done).
  assert (Hp : 0 < 2 ^ Z.of_nat k) by (apply Z.pow_pos_nonneg; lia).
  replace (2 ^ Z.of_nat (S k) / 2) with (2 ^ Z.of_nat k) by (rewrite Hpow, Z.mul_comm, Z.div_mul by lia; done).
  set (mid := off + 2 ^ Z.of_nat k). rewrite Hs. cbn [mbind option_bind Pprf.GgmPrg].
  rewrite vset_Some by lia. cbn [mbind option_bind]. rewrite vset_Some by (rewrite vsize_insert; lia).
  cbn [mbind option_bind]. rewrite GetBit_testbit by lia. cbn [mbind option_bind]. rewrite to_bool_b2z.
  set (work2 := <[Z.to_nat mid := ggm s true]> _).
  assert (Hsz2 : vsize work2 = vsize work) by (unfold work2; by rewrite !vsize_insert).
  assert (Hmid : vget work2 mid = Some (ggm s true)).
  { unfold vget. destruct (Z.leb_spec 0 mid); [|lia]. unfold work2. apply list_lookup_insert_eq.
    rewrite length_insert. unfold vsize in *. lia. }
  assert (Hlow : vget work2 off = Some (ggm s false)).
  { unfold vget. destruct (Z.leb_spec 0 off); [|lia]. unfold work2. rewrite list_lookup_insert_ne by lia.
    apply list_lookup_insert_eq. unfold vsize in *. lia. }
  assert (Hhigh : forall p, mid < p -> vget work2 p = vget work p).
  { intros p Hp'. unfold vget. destruct (Z.leb_spec 0 p); [|done]. unfold work2.
    by rewrite !list_lookup_insert_ne by lia. }
  assert (Hsib : forall j b, i < j -> b = Z.testbit a i ->
    sibling a (M - Z.of_nat k) j (ggm s b) = sibling a i j s).
  { intros j b Hj ->. unfold sibling. replace (Z.to_nat (j - i)) with (S (Z.to_nat (j - (M - Z.of_nat k)))) by lia.
    cbn [path]. do 2 f_equal. lia. }
  assert (Hhead : forall b, b = negb (Z.testbit a i) -> sibling a i i s = ggm s b).
  { intros b ->. unfold sibling. by replace (Z.to_nat (i - i)) with O by lia. }
  destruct (Z.testbit a i) eqn:Ea; cbn [negb].
  - rewrite Hlow. cbn [mbind option_bind].
    destruct (IH work2 mid (Pprf.map_insert out i (ggm s false)) (ggm s true)) as (w' & o' & -> & L & B & O); [lia|lia|lia|done|].
    exists w', o'. split; [done|]. split; [lia|]. split.
    + intros p Hp'. rewrite B, Hhigh by lia. done.
    + intros j. rewrite O, !lookup_map_insert. destruct (Z.eqb_spec j i) as [->|Hne].
      * replace ((M - Z.of_nat k <=? i) && (i <? M)) with false by lia.
        replace ((i <=? i) && (i <? M)) with true by lia. by rewrite (Hhead false).
      * destruct (Z.lt_ge_cases j i).
        { by replace ((M - Z.of_nat k <=? j) && (j <? M)) with false by lia;
          replace ((i <=? j) && (j <? M)) with false by lia. }
        replace (M - Z.of_nat k <=? j) with true by lia. replace (i <=? j) with true by lia. cbn [andb].
        by rewrite Hsib by (done || lia).
  - destruct (IH work2 off out (ggm s false)) as (w' & o' & -> & L & B & O); [lia|lia|lia|done|].
    cbn [mbind option_bind]. rewrite B by lia. rewrite Hmid. cbn [mbind option_bind].
    eexists _, _. split; [done|]. split; [lia|]. split.
    + intros p Hp'. rewrite B, Hhigh by lia. done.
    + intros j. rewrite lookup_map_insert, !O. destruct (Z.eqb_spec j i) as [->|Hne].
      * replace ((M - Z.of_nat k <=? i) && (i <? M)) with false by lia.
        replace ((i <=? i) && (i <? M)) with true by lia. by rewrite (Hhead true).
      * destruct (Z.lt_ge_cases j i).
        { by replace ((M - Z.of_nat k <=? j) && (j <? M)) with false by lia;
          replace ((i <=? j) && (j <? M)) with false by lia. }
        replace (M - Z.of_nat k <=? j) with true by lia. replace (i <=? j) with true by lia. cbn [andb].
        by rewrite Hsib by (done || lia).
Qed.
End Facts.

Section Evaluation.
Context (ggm : Z -> bool -> Z).
Context (M : Z).
Hypothesis HM : 0 < M < 59.

Lemma pprf_eval k x : Pprf.PprfEval ggm M k x = Some (path ggm x 0 (Z.to_nat M) k).
Proof.
  unfold Pprf.PprfEval.
  destruct (for_up_inv (fun i s => s = path ggm x 0 (Z.to_nat i) k) (Pprf.eval_level ggm x) (Z.to_nat M) 0 k)
    as (s & -> & ->); [done| |by rewrite Z.add_0_l, Nat2Z.id].
  intros i s Hi ->. unfold Pprf.eval_level. rewrite GetBit_testbit by lia. cbn [mbind option_bind].
  rewrite to_bool_b2z. eexists. split; [done|]. replace (Z.to_nat (i + 1)) with (S (Z.to_nat i)) by lia.
  rewrite path_snoc, Z.add_0_l, Z2Nat.id by lia. by destruct (Z.testbit x i).
Qed.

(** The key a fresh puncturing gives: one sibling seed for every level. *)
Lemma pprf_punc k a p0 :
  exists key, Pprf.PprfPunc ggm M k a (Pprf.mk_punc p0 ∅) = Some key /\
    Pprf.punc_point key = GE2n.GetVal M a /\
    forall j, 0 <= j < M -> Pprf.seeds key !! j = Some (sibling ggm a 0 j k).
Proof.
  unfold Pprf.PprfPunc. replace (M =? 64) with false by lia.
  assert (2 ^ M < 2 ^ 59) by (apply Z.pow_lt_mono_r; lia). assert (0 < 2 ^ M) by (apply Z.pow_pos_nonneg; lia).
  replace (2 ^ M <? 2 ^ 59) with true by lia. rewrite vset_Some by (rewrite vsize_replicate; lia).
  cbn [mbind option_bind Pprf.seeds].
  destruct (expand_and_punc ggm M (Z.to_nat M) (<[Z.to_nat 0 := k]> (replicate (Z.to_nat (2 ^ M)) 0)) 0 a ∅ k)
    as (w & o & -> & _ & _ & O).
  - lia.
  - lia.
  - rewrite vsize_insert, vsize_replicate, !Z2Nat.id by lia. lia.
  - cbn. apply list_lookup_insert_eq. rewrite length_replicate. lia.
  - cbn [mbind option_bind]. eexists. split; [done|]. split; [done|]. intros j Hj. cbn [Pprf.seeds].
    rewrite O, Z2Nat.id by lia. replace (M - M) with 0 by lia.
    replace ((0 <=? j) && (j <? M)) with true by lia. by rewrite lookup_empty.
Qed.

(** The evaluation with a punctured key follows the path of the point from the
    level where it leaves the path of the punctured point. *)
Lemma punc_eval_loop k a key x n :
  (Z.of_nat n <= M) -> Pprf.punc_point key = GE2n.GetVal M a ->
  (forall j, 0 <= j < M -> Pprf.seeds key !! j = Some (sibling ggm a 0 j k)) ->
  for_up n 0 (Pprf.punc_eval_level ggm key x) (true, false, 0)
  = Some (if same_low x a n then (true, false, 0) else (false, true, path ggm x 0 n k)).
Proof.
  intros Hn Hp Hs.
  destruct (for_up_inv (fun i st => st = if same_low x a (Z.to_nat i) then (true, false, 0)
      else (false, true, path ggm x 0 (Z.to_nat i) k)) (Pprf.punc_eval_level ggm key x) n 0 (true, false, 0))
    as (st & -> & ->); [done| |by rewrite Z.add_0_l, Nat2Z.id].
  intros i st Hi ->. unfold Pprf.punc_eval_level. set (m := Z.to_nat i). assert (Ei : i = Z.of_nat m) by lia.
  replace (Z.to_nat (i + 1)) with (S m) by lia. rewrite path_snoc, Z.add_0_l, Ei. cbn [same_low].
  assert (HbM : Z.testbit (GE2n.GetVal M a) (Z.of_nat m) = Z.testbit a (Z.of_nat m)).
  { assert (GroupBits M) by (unfold GroupBits; lia). rewrite (GetVal_mod M), testbit_mod by lia.
    by replace (Z.of_nat m <? M) with true by lia. }
  rewrite !GetBit_testbit by lia. rewrite Hp, HbM, Hs by lia.
  assert (Hb : forall b c, (Z.b2z b =? Z.b2z c) = eqb b c) by (intros [] []; done).
  destruct (same_low x a m) eqn:E; cbn [mbind option_bind]; rewrite Hb, ?to_bool_b2z.
  - cbn [andb]. destruct (eqb_spec (Z.testbit x (Z.of_nat m)) (Z.testbit a (Z.of_nat m))) as [Eb|Eb]; cbn [negb].
    + eexists. split; done.
    + eexists. split; [done|]. f_equal. unfold sibling. rewrite Z.sub_0_r, Nat2Z.id.
      rewrite (path_same_low ggm x a m k E). f_equal. by destruct (Z.testbit x _), (Z.testbit a _).
  - cbn [andb negb]. eexists. split; [done|]. by destruct (Z.testbit x (Z.of_nat m)).
Qed.
End Evaluation.

(** C9: puncturable pseudo-random functions ([PprfPunc], [PprfPuncEval],
    [PprfEval]). For trees that can be allocated (fewer than 59 levels), puncturing
    with a fresh key object succeeds; the punctured key evaluates every other point
    to the value of the function and refuses the punctured point. The tree
    expansion works in place on one vector: the sibling seeds are read after the
    expansion of the other half. *)
Theorem pprf_punctured_evaluation ggm M (HM : 0 < M < 59) prf_key a p0 x :
  exists key y, Pprf.PprfPunc ggm M prf_key a (Pprf.mk_punc p0 ∅) = Some key /\
    Pprf.PprfEval ggm M prf_key x = Some y /\
    Pprf.PprfPuncEval ggm M key x = if GE2n.GetVal M x =? GE2n.GetVal M a then None else Some y.
Proof.
  destruct (pprf_punc ggm M HM prf_key a p0) as (key & E & Hp & Hs). exists key. eexists.
  split; [done|]. split; [by apply pprf_eval|]. unfold Pprf.PprfPuncEval, GE2n.neqb.
  assert (GroupBits M) by (unfold GroupBits; lia).
  assert (Ev : GE2n.GetVal M (Pprf.punc_point key) = GE2n.GetVal M a)
    by (rewrite Hp; apply (GetVal_eq M), (GetVal_same M)).
  rewrite Ev, (punc_eval_loop ggm M HM prf_key a) by (done || lia).
  rewrite same_low_mod, Z2Nat.id, <- !(GetVal_mod M), (Z.eqb_sym (GE2n.GetVal M a)) by lia.
  by destruct (GE2n.GetVal M x =? GE2n.GetVal M a).
Qed.

Definition demo_ggm (s : Z) (b : bool) : Z := demo_prg1 (2 * s + Z.b2z b).

Lemma pprf_punctured_witness :
  exists key y, Pprf.PprfPunc demo_ggm 4 99 5 (Pprf.mk_punc 0 ∅) = Some key /\
    Pprf.PprfEval demo_ggm 4 99 12 = Some y /\ Pprf.PprfPuncEval demo_ggm 4 key 12 = Some y.
Proof. exact (pprf_punctured_evaluation demo_ggm 4 ltac:(lia) 99 5 0 12). Defined.

(** A key object that is punctured again keeps the seeds of the first puncturing,
    because [insert] does not replace: the second key gives wrong values. *)
Theorem pprf_reused_key_wrong :
  match Pprf.PprfPunc demo_ggm 4 99 5 (Pprf.mk_punc 0 ∅) with
  | Some key1 =>
      match Pprf.PprfPunc demo_ggm 4 100 5 key1 with
      | Some key2 => Pprf.PprfPuncEval demo_ggm 4 key2 12 <> Pprf.PprfEval demo_ggm 4 100 12
      | None => False
      end
  | None => False
  end.
Proof. vm_compute. discriminate. Qed.
