(* ===== verification/Cuckoo.v ===== *)
(** Cuckoo hashing of inputs to bins (src/yacl/utils/cuckoo_index.h, .cc).

    [NumBins] multiplies the number of inputs by a floating-point factor; the
    truncated product is a field of the options here. [Done] and [Thrown] carry the
    object an operation leaves; [Undef] is an access out of range or a division by
    zero. *)

From Stdlib Require Import ZArith Lia ZifyBool Bool.
From stdpp Require Import base numbers list option gmap sorting.
From S2P Require Import Prelude.

Local Open Scope Z_scope.

Module Bin.

Definition kEmpty : Z := 2 ^ 64 - 1.

Definition HashIdx (encoded_ : Z) : Z := Z.shiftr encoded_ 56 mod 2 ^ 8.
Definition InputIdx (encoded_ : Z) : Z := Z.land encoded_ (Z.shiftr (2 ^ 64 - 1) 8).
Definition IsEmpty (encoded_ : Z) : bool := encoded_ =? kEmpty.
Definition Encode (input_idx hash_idx : Z) : Z :=
  Z.lor input_idx (Z.shiftl hash_idx 56 mod 2 ^ 64).
End Bin.

(** [HashRoom::GetHash]: eight of the sixteen bytes of the code. *)
Definition kBlockSize : Z := 2.

Definition GetHash (code_ idx : Z) : option Z :=
  assert! ((0 <=? idx) && (idx * kBlockSize + 8 <=? 16));
  Some (Z.shiftr code_ (8 * (idx * kBlockSize)) mod 2 ^ 64).

Record Options := mk_options {
  num_input : Z;
  num_stash : Z;
  num_hash : Z;
  scaled_input : Z;
  max_try_count : Z
}.

Definition NumBins (o : Options) : Z :=
  let num_bins := scaled_input o in
  if (num_stash o =? 0) && (num_input o <? 256) then (num_bins + 8) mod 2 ^ 64 else num_bins.

Record CuckooIndex := mk_cuckoo {
  options_ : Options;
  bins_ : list Z;
  stash_ : list Z;
  hashes_ : list Z
}.

Inductive outcome (A : Type) := Done (a : A) | Thrown (a : A) | Undef.
Arguments Done {A} a.
Arguments Thrown {A} a.
Arguments Undef {A}.

(** The constructor; [None] when the hashes do not fit in a code. *)
Definition new_cuckoo (o : Options) : option CuckooIndex :=
  assert! (((num_hash o - 1) mod 2 ^ 64 * kBlockSize + 8) mod 2 ^ 64 <=? 16);
  Some (mk_cuckoo o (replicate (Z.to_nat (NumBins o)) Bin.kEmpty)
          (replicate (Z.to_nat (num_stash o)) Bin.kEmpty) []).

(** One candidate of a round: [candidates], [write_idx] and the bins. *)
Definition place (o : Options) (hashes : list Z) (i : Z) (st : list Z * Z * list Z)
  : option (list Z * Z * list Z) :=
  let '(candidates, write_idx, bins) := st in
  candid ← vget candidates i;
  code ← vget hashes (Bin.InputIdx candid);
  h ← GetHash code (Bin.HashIdx candid);
  assert! (negb (NumBins o =? 0));
  let bin_idx := h mod NumBins o in
  evicted_bin ← vget bins bin_idx;
  bins' ← vset bins bin_idx candid;
  if negb (Bin.IsEmpty evicted_bin)
  then assert! (negb (num_hash o =? 0));
       let next_candid := Bin.Encode (Bin.InputIdx evicted_bin)
                            (((Bin.HashIdx evicted_bin + 1) mod num_hash o) mod 2 ^ 8) in
       candidates' ← vset candidates write_idx next_candid;
       Some (candidates', write_idx + 1, bins')
  else Some (candidates, write_idx, bins').

Definition round (o : Options) (hashes candidates bins : list Z) : option (list Z * list Z) :=
  '(candidates', write_idx, bins') ←
    for_up (length candidates) 0 (place o hashes) (candidates, 0, bins);
  Some (vresize candidates' write_idx Bin.kEmpty, bins').

(** The loop [while (!candidates.empty() && try_count++ < max_try_count)]. *)
Fixpoint rounds (tries : nat) (o : Options) (hashes candidates bins : list Z) : option (list Z * list Z) :=
  match tries with
  | O => Some (candidates, bins)
  | S n => if vsize candidates =? 0 then Some (candidates, bins)
           else '(c, b) ← round o hashes candidates bins; rounds n o hashes c b
  end.

(** The first empty slot of the stash takes the input. *)
Fixpoint PutToStash (stash : list Z) (input_idx : Z) : option (list Z) :=
  match stash with
  | [] => None
  | b :: rest => if Bin.IsEmpty b then Some (input_idx :: rest)
                 else rest' ← PutToStash rest input_idx; Some (b :: rest')
  end.

Fixpoint put_all (stash : list Z) (candidates : list Z) : list Z * bool :=
  match candidates with
  | [] => (stash, true)
  | c :: cs => match PutToStash stash (Bin.InputIdx c) with
               | Some stash' => put_all stash' cs
               | None => (stash, false)
               end
  end.

Definition Insert (c : CuckooIndex) (codes : list Z) : outcome CuckooIndex :=
  let o := options_ c in
  let input_offset := vsize (hashes_ c) in
  let hashes := hashes_ c ++ codes in
  if negb (vsize hashes <=? num_input o) then Thrown (mk_cuckoo o (bins_ c) (stash_ c) hashes)
  else
    let candidates := (fun i => input_offset + i) <$> seqZ 0 (vsize codes) in
    match rounds (Z.to_nat (max_try_count o)) o hashes candidates (bins_ c) with
    | None => Undef
    | Some (leftover, bins) =>
        let '(stash, ok) := put_all (stash_ c) leftover in
        if ok : bool then Done (mk_cuckoo o bins stash hashes) else Thrown (mk_cuckoo o bins stash hashes)
    end.

(** *** [SanityCheck] *)

(** The inputs of the bins that are not empty, in order; [None] when one repeats. *)
Fixpoint insert_all (set : gset Z) (bins : list Z) : option (gset Z) :=
  match bins with
  | [] => Some set
  | b :: bs => if Bin.IsEmpty b then insert_all set bs
               else if decide (Bin.InputIdx b ∈ set) then None
               else insert_all ({[Bin.InputIdx b]} ∪ set) bs
  end.

(** The check; the set is visited in increasing order. *)
Definition SanityCheck (c : CuckooIndex) : bool :=
  match s1 ← insert_all ∅ (bins_ c); insert_all s1 (stash_ c) with
  | None => false
  | Some s =>
      (Z.of_nat (size s) =? num_input (options_ c)) &&
      bool_decide (merge_sort Z.le (elements s) = seqZ 0 (Z.of_nat (size s)))
  end.

(** The smallest hash function that sends the input of a bin to the bin; 255 is
    [uint8_t(-1)]. *)
Fixpoint min_hash (n : nat) (i : Z) (o : Options) (code bin_index : Z) : option Z :=
  match n with
  | O => Some 255
  | S m => h ← GetHash code i;
           assert! (negb (NumBins o =? 0));
           if h mod NumBins o =? bin_index then Some (i mod 2 ^ 8) else min_hash m (i + 1) o code bin_index
  end.

Definition MinCollidingHashIdx (c : CuckooIndex) (bin_index : Z) : option Z :=
  bin ← vget (bins_ c) bin_index;
  code ← vget (hashes_ c) (Bin.InputIdx bin);
  min_hash (Z.to_nat (num_hash (options_ c))) 0 (options_ c) code bin_index.
