(* ===== verification/CuckooTheorems.v ===== *)
(** Correctness of the cuckoo index: insertion conserves the inputs, every input
    ends in one bin that one of its hashes selects, or in the stash. *)

From Stdlib Require Import ZArith Lia ZifyBool Bool.
From stdpp Require Import base numbers list option gmap sorting.
From S2P Require Import Prelude Cuckoo.

Local Open Scope Z_scope.

(** *** Encoded bins *)

Lemma input_mask : Z.shiftr (2 ^ 64 - 1) 8 = Z.ones 56.
Proof. done. Qed.

Lemma encode_sum x h :
  0 <= x < 2 ^ 56 -> 0 <= h < 255 -> Bin.Encode x h = x + h * 2 ^ 56.
Proof.
  intros Hx Hh. unfold Bin.Encode. rewrite Z.shiftl_mul_pow2, Z.mod_small by lia.
  rewrite Z.add_nocarry_lxor, Z.lxor_lor; [done| |].
  - apply Z.bits_inj'. intros j Hj. rewrite Z.land_spec, Z.bits_0.
    rewrite <- Z.shiftl_mul_pow2 by lia. rewrite Z.shiftl_spec by lia.
    destruct (Z.lt_ge_cases j 56); [rewrite (Z.testbit_neg_r h) by lia; apply andb_false_r|].
    by rewrite (testbit_high 56 x) by lia.
  - apply Z.bits_inj'. intros j Hj. rewrite Z.land_spec, Z.bits_0.
    rewrite <- Z.shiftl_mul_pow2 by lia. rewrite Z.shiftl_spec by lia.
    destruct (Z.lt_ge_cases j 56); [rewrite (Z.testbit_neg_r h) by lia; apply andb_false_r|].
    by rewrite (testbit_high 56 x) by lia.
Qed.

Lemma encode_fields x h :
  0 <= x < 2 ^ 56 -> 0 <= h < 255 ->
  Bin.InputIdx (Bin.Encode x h) = x /\ Bin.HashIdx (Bin.Encode x h) = h /\
  Bin.IsEmpty (Bin.Encode x h) = false.
Proof.
  intros Hx Hh. rewrite encode_sum by done. unfold Bin.InputIdx, Bin.HashIdx, Bin.IsEmpty, Bin.kEmpty.
  rewrite input_mask, Z.land_ones, Z.shiftr_div_pow2 by lia.
  destruct (div_mod_split (2 ^ 56) h x Hx) as [E1 E2]. rewrite (Z.add_comm x), E1, E2.
  split; [done|]. split; [apply Z.mod_small; lia|lia].
Qed.

Lemma encode_zero x : 0 <= x < 2 ^ 56 -> Bin.Encode x 0 = x.
Proof. intros Hx. rewrite encode_sum by lia. lia. Qed.

(** *** Where inputs are *)

(** The inputs of the bins that are not empty. *)
Definition ids (l : list Z) : list Z :=
  omap (fun e => if Bin.IsEmpty e then None else Some (Bin.InputIdx e)) l.

Lemma ids_app l k : ids (l ++ k) = ids l ++ ids k.
Proof. apply omap_app. Qed.

Lemma ids_empty n : ids (replicate n Bin.kEmpty) = [].
Proof. induction n; [done|]. exact IHn. Qed.

Section Place.
Context (o : Options) (hashes : list Z).
Hypothesis Hinput : vsize hashes <= 2 ^ 56.
Hypothesis Hhash : 1 <= num_hash o <= 5.
Hypothesis Hbins : 0 < NumBins o.

(** An input of the table with one of its hash functions. *)
Definition valid (e : Z) : Prop :=
  exists x h, e = Bin.Encode x h /\ 0 <= x < vsize hashes /\ 0 <= h < num_hash o.

(** The bin a valid entry belongs to. *)
Definition home (e : Z) : option Z :=
  code ← vget hashes (Bin.InputIdx e); h ← GetHash code (Bin.HashIdx e); Some (h mod NumBins o).

Definition bins_ok (bins : list Z) : Prop :=
  vsize bins = NumBins o /\
  forall k e, vget bins k = Some e -> Bin.IsEmpty e = false -> valid e /\ home e = Some k.

Lemma valid_fields e :
  valid e -> Bin.IsEmpty e = false /\ 0 <= Bin.InputIdx e < vsize hashes /\ 0 <= Bin.HashIdx e < num_hash o.
Proof.
  intros (x & h & -> & Hx & Hh). destruct (encode_fields x h) as (-> & -> & ->); [lia|lia|done].
Qed.

Lemma home_defined e : valid e -> exists k, home e = Some k /\ 0 <= k < NumBins o.
Proof.
  intros He. destruct (valid_fields e He) as (_ & Hx & Hh). unfold home.
  destruct (proj2 (vget_Some_iff hashes (Bin.InputIdx e)) Hx) as [code ->]. cbn [mbind option_bind].
  unfold GetHash, kBlockSize. replace (_ && _) with true by lia. cbn [mbind option_bind].
  eexists. split; [done|]. apply Z.mod_pos_bound. lia.
Qed.

Lemma next_valid e :
  valid e -> valid (Bin.Encode (Bin.InputIdx e) (((Bin.HashIdx e + 1) mod num_hash o) mod 2 ^ 8)) /\
    Bin.InputIdx (Bin.Encode (Bin.InputIdx e) (((Bin.HashIdx e + 1) mod num_hash o) mod 2 ^ 8)) = Bin.InputIdx e.
Proof.
  intros He. destruct (valid_fields e He) as (_ & Hx & Hh).
  assert (0 <= (Bin.HashIdx e + 1) mod num_hash o < num_hash o) by (apply Z.mod_pos_bound; lia).
  rewrite (Z.mod_small (_ mod num_hash o)) by lia.
  split; [eexists _, _; split; [done|lia]|]. apply encode_fields; lia.
Qed.

(** One candidate takes its bin; the entry it evicts, if any, becomes a candidate. *)
Lemma place_bin bins e :
  valid e -> bins_ok bins ->
  exists k b, home e = Some k /\ vget bins k = Some b /\ 0 <= k < vsize bins /\
    bins_ok (<[Z.to_nat k := e]> bins) /\
    (if Bin.IsEmpty b then ids (<[Z.to_nat k := e]> bins) ≡ₚ Bin.InputIdx e :: ids bins
     else valid b /\ Bin.InputIdx b :: ids (<[Z.to_nat k := e]> bins) ≡ₚ Bin.InputIdx e :: ids bins).
Proof.
  intros He [Hsz Hok]. destruct (home_defined e He) as (k & Hk & Hr).
  destruct (proj2 (vget_Some_iff bins k)) as [b Hb]; [lia|]. exists k, b.
  split; [done|]. split; [done|]. split; [lia|]. destruct (valid_fields e He) as (Hne & _ & _).
  assert (Hb' : bins !! Z.to_nat k = Some b) by (unfold vget in Hb; destruct (Z.leb_spec 0 k); [done|lia]).
  split.
  - split; [by rewrite vsize_insert|]. intros j e' He' Hne'. unfold vget in He'. destruct (Z.leb_spec 0 j); [|done].
    destruct (Z.eq_dec j k) as [->|Hjk].
    + rewrite list_lookup_insert_eq in He' by (unfold vsize in *; lia). injection He' as <-. done.
    + rewrite list_lookup_insert_ne in He' by lia. apply Hok; [|done]. unfold vget. destruct (Z.leb_spec 0 j); [done|lia].
  - assert (Hl : (Z.to_nat k < length bins)%nat) by (by eapply lookup_lt_Some).
    assert (Hids : ids bins = ids (take (Z.to_nat k) bins) ++ ids (b :: drop (S (Z.to_nat k)) bins))
      by (by rewrite <- ids_app, take_drop_middle).
    rewrite insert_take_drop, ids_app, Hids by done. cbn [ids omap list_omap]. rewrite Hne.
    destruct (Bin.IsEmpty b) eqn:Eb.
    + by rewrite Permutation_middle.
    + split; [apply (Hok k b Hb Eb)|]. rewrite <- !Permutation_middle. apply Permutation_swap.
Qed.

(** *** A round *)

Record round_inv (all : list Z) (cands0 : list Z) (i : Z) (st : list Z * Z * list Z) : Prop := {
  inv_write : 0 <= snd (fst st) <= i;
  inv_len : vsize (fst (fst st)) = vsize cands0;
  inv_rest : drop (Z.to_nat i) (fst (fst st)) = drop (Z.to_nat i) cands0;
  inv_new : Forall valid (take (Z.to_nat (snd (fst st))) (fst (fst st)));
  inv_bins : bins_ok (snd st);
  inv_ids : (Bin.InputIdx <$> take (Z.to_nat (snd (fst st))) (fst (fst st))) ++
            (Bin.InputIdx <$> drop (Z.to_nat i) cands0) ++ ids (snd st) ≡ₚ all
}.

Lemma place_inv all cands0 i st :
  Forall valid cands0 -> 0 <= i < vsize cands0 -> round_inv all cands0 i st ->
  exists st', place o hashes i st = Some st' /\ round_inv all cands0 (i + 1) st'.
Proof.
  intros Hv Hi [W L R F B P]. destruct st as [[cands w] bins]. cbn [fst snd] in *. unfold place.
  destruct (proj2 (vget_Some_iff cands0 i) Hi) as [e He0].
  assert (He0' : cands0 !! Z.to_nat i = Some e) by (unfold vget in He0; destruct (Z.leb_spec 0 i); [done|lia]).
  assert (Hd : drop (Z.to_nat i) cands0 = e :: drop (Z.to_nat (i + 1)) cands0).
  { rewrite (drop_S cands0 e (Z.to_nat i) He0'). by replace (S (Z.to_nat i)) with (Z.to_nat (i + 1)) by lia. }
  assert (He : vget cands i = Some e).
  { unfold vget. destruct (Z.leb_spec 0 i); [|lia]. rewrite <- (Nat.add_0_r (Z.to_nat i)), <- lookup_drop, R, Hd. done. }
  assert (Hrest : drop (Z.to_nat (i + 1)) cands = drop (Z.to_nat (i + 1)) cands0).
  { replace (Z.to_nat (i + 1)) with (Z.to_nat i + 1)%nat by lia. by rewrite <- !drop_drop, R. }
  assert (Hve : valid e) by (rewrite Forall_lookup in Hv; by eapply Hv).
  rewrite He. cbn [mbind option_bind]. destruct (place_bin bins e Hve B) as (k & b & Hk & Hb & Hr & B' & P').
  unfold home in Hk. destruct (vget hashes (Bin.InputIdx e)) as [code|]; [|done]. cbn [mbind option_bind] in *.
  destruct (GetHash code (Bin.HashIdx e)) as [h|]; [|done]. cbn [mbind option_bind] in *. injection Hk as Hk.
  replace (NumBins o =? 0) with false by lia. cbn [negb]. rewrite Hk, Hb. cbn [mbind option_bind].
  rewrite (vset_Some bins k e) by done. cbn [mbind option_bind]. rewrite Hd in P. cbn [fmap list_fmap] in P.
  destruct (Bin.IsEmpty b); cbn [negb].
  - eexists. split; [done|]. split; cbn [fst snd]; try done; [lia|].
    rewrite <- P, P'. by rewrite <- Permutation_middle.
  - destruct P' as [Hvb P']. destruct (next_valid b Hvb) as [Hvn Hin].
    replace (num_hash o =? 0) with false by lia. cbn [negb]. rewrite vset_Some by lia. cbn [mbind option_bind].
    set (x := Bin.Encode _ _) in *. eexists. split; [done|].
    assert (Htake : take (Z.to_nat (w + 1)) (<[Z.to_nat w := x]> cands) = take (Z.to_nat w) cands ++ [x]).
    { replace (Z.to_nat (w + 1)) with (S (Z.to_nat w)) by lia. rewrite (take_S_r _ _ x).
      - by rewrite take_insert_ge by lia.
      - apply list_lookup_insert_eq. unfold vsize in *. lia. }
    split; cbn [fst snd].
    + lia.
    + by rewrite vsize_insert.
    + by rewrite drop_insert_lt by lia.
    + rewrite Htake. apply Forall_app. split; [done|]. by constructor.
    + done.
    + rewrite Htake, fmap_app, <- P. cbn [fmap list_fmap]. rewrite Hin, <- app_assoc. cbn [app].
      apply Permutation_app_head. rewrite Permutation_middle, P'. by rewrite Permutation_middle.
Qed.

Lemma round_conserves cands bins :
  Forall valid cands -> bins_ok bins ->
  exists cands' bins', round o hashes cands bins = Some (cands', bins') /\
    Forall valid cands' /\ bins_ok bins' /\
    (Bin.InputIdx <$> cands') ++ ids bins' ≡ₚ (Bin.InputIdx <$> cands) ++ ids bins.
Proof.
  intros Hv Hb. unfold round.
  destruct (for_up_inv (round_inv ((Bin.InputIdx <$> cands) ++ ids bins) cands) (place o hashes)
    (length cands) 0 (cands, 0, bins)) as ([[c w] b] & -> & [W L R F B P]).
  - split; cbn; try done; try lia.
  - intros k t Hk Ht. apply place_inv; [done|unfold vsize; lia|done].
  - cbn [mbind option_bind fst snd] in *. eexists _, _. split; [done|].
    assert (Hr : vresize c w Bin.kEmpty = take (Z.to_nat w) c).
    { unfold vresize. replace (Z.to_nat w - length c)%nat with O by (unfold vsize in *; lia). cbn [replicate]. by rewrite app_nil_r. }
    rewrite Hr. split; [done|]. split; [done|]. rewrite <- P.
    rewrite (drop_ge cands) by lia. done.
Qed.

Lemma rounds_conserve n cands bins :
  Forall valid cands -> bins_ok bins ->
  exists cands' bins', rounds n o hashes cands bins = Some (cands', bins') /\
    Forall valid cands' /\ bins_ok bins' /\
    (Bin.InputIdx <$> cands') ++ ids bins' ≡ₚ (Bin.InputIdx <$> cands) ++ ids bins.
Proof.
  revert cands bins. induction n as [|n IH]; intros cands bins Hv Hb; cbn [rounds].
  { by exists cands, bins. }
  destruct (vsize cands =? 0); [by exists cands, bins|].
  destruct (round_conserves cands bins Hv Hb) as (c & b & -> & Hv' & Hb' & P). cbn [mbind option_bind].
  destruct (IH c b Hv' Hb') as (c' & b' & -> & Hv2 & Hb2 & P2). exists c', b'.
  split; [done|]. split; [done|]. split; [done|]. by rewrite P2.
Qed.
End Place.

(** *** The stash *)

Definition stash_ok (n : Z) (stash : list Z) : Prop :=
  Forall (fun e => Bin.IsEmpty e = true \/ 0 <= e < n) stash.

Lemma plain_fields x : 0 <= x < 2 ^ 56 -> Bin.InputIdx x = x /\ Bin.IsEmpty x = false.
Proof.
  intros Hx. rewrite <- (encode_zero x) at 1 3 by done. destruct (encode_fields x 0) as (-> & _ & ->); [done|lia|done].
Qed.

Definition free (stash : list Z) : nat := length (filter (fun e => Bin.IsEmpty e = true) stash).

Lemma PutToStash_spec n stash x :
  0 <= x < n -> n <= 2 ^ 56 -> stash_ok n stash ->
  match PutToStash stash x with
  | Some stash' => stash_ok n stash' /\ length stash' = length stash /\ ids stash' ≡ₚ x :: ids stash /\
                   free stash = S (free stash')
  | None => free stash = O
  end.
Proof.
  intros Hx Hn. destruct (plain_fields x) as [E1 E2]; [lia|].
  unfold free. induction stash as [|b rest IH]; intros Hok; cbn [PutToStash]; [done|].
  inversion_clear Hok as [|? ? Hb Hr]. rewrite filter_cons. destruct (Bin.IsEmpty b) eqn:Eb.
  - split; [constructor; [by right|done]|]. split; [done|].
    rewrite filter_cons, decide_True by done. rewrite decide_False by (rewrite E2; done).
    cbn [ids omap list_omap]. by rewrite E1, E2, Eb.
  - specialize (IH Hr). rewrite decide_False by done. destruct (PutToStash rest x) as [r|]; cbn [mbind option_bind]; [|done].
    destruct IH as (H1 & H2 & H3 & H4). split; [apply Forall_cons; split; [by rewrite Eb|done]|]. split; [cbn; by rewrite H2|].
    rewrite filter_cons, Eb, decide_False by done. cbn [ids omap list_omap]. rewrite Eb.
    split; [|done]. rewrite H3. apply Permutation_swap.
Qed.

Lemma put_all_spec n cands stash :
  Forall (fun e => 0 <= Bin.InputIdx e < n) cands -> n <= 2 ^ 56 -> stash_ok n stash ->
  let '(stash', ok) := put_all stash cands in
  if ok : bool
  then stash_ok n stash' /\ length stash' = length stash /\
       ids stash' ≡ₚ (Bin.InputIdx <$> cands) ++ ids stash
  else (free stash < length cands)%nat.
Proof.
  intros Hc Hn. revert stash. induction cands as [|c cs IH]; intros stash Hs; cbn [put_all]; [done|].
  inversion_clear Hc as [|? ? Hx Hc']. specialize (IH Hc').
  pose proof (PutToStash_spec n stash (Bin.InputIdx c) Hx Hn Hs) as HP.
  destruct (PutToStash stash (Bin.InputIdx c)) as [s'|]; [|cbn; lia].
  destruct HP as (H1 & H2 & H3 & H4). specialize (IH s' H1).
  destruct (put_all s' cs) as [s2 []]; [|cbn; lia].
  destruct IH as (K1 & K2 & K3). split; [done|]. split; [lia|]. cbn [fmap list_fmap].
  rewrite K3, H3. cbn [app]. by rewrite Permutation_middle.
Qed.

(** *** The index *)

Record cuckoo_wf (c : CuckooIndex) : Prop := {
  wf_hash : 1 <= num_hash (options_ c) <= 5;
  wf_input : vsize (hashes_ c) <= num_input (options_ c) <= 2 ^ 56;
  wf_nbins : 0 < NumBins (options_ c);
  wf_bins : bins_ok (options_ c) (hashes_ c) (bins_ c);
  wf_stash : stash_ok (vsize (hashes_ c)) (stash_ c);
  wf_located : ids (bins_ c) ++ ids (stash_ c) ≡ₚ seqZ 0 (vsize (hashes_ c))
}.

Lemma vget_app_l {A} (l k : list A) i : 0 <= i < vsize l -> vget (l ++ k) i = vget l i.
Proof.
  intros Hi. unfold vget, vsize in *. destruct (Z.leb_spec 0 i); [|done]. apply lookup_app_l. lia.
Qed.

Lemma bins_ok_grow o hashes codes bins : bins_ok o hashes bins -> vsize (hashes ++ codes) <= 2 ^ 56 ->
  1 <= num_hash o <= 5 -> bins_ok o (hashes ++ codes) bins.
Proof.
  intros [H1 H2] Hn Hh. rewrite vsize_app in Hn. split; [done|]. intros k e He Hne.
  destruct (H2 k e He Hne) as [Hv Hk]. pose proof (vsize_nonneg codes).
  destruct (valid_fields o hashes ltac:(lia) Hh e Hv) as (_ & Hx & _). split.
  - destruct Hv as (x & h & -> & Hx' & Hh'). exists x, h. rewrite vsize_app. split; [done|lia].
  - unfold home in *. by rewrite vget_app_l.
Qed.

Lemma seqZ_app_off n m : 0 <= n -> 0 <= m -> seqZ 0 (n + m) = seqZ 0 n ++ ((fun i => n + i) <$> seqZ 0 m).
Proof.
  intros Hn Hm. rewrite seqZ_app, Z.add_0_l by done. f_equal. apply list_eq. intros i.
  rewrite list_lookup_fmap. destruct (Z.lt_ge_cases (Z.of_nat i) m).
  - rewrite !lookup_seqZ_lt by lia. done.
  - rewrite !lookup_seqZ_ge by lia. done.
Qed.

Lemma first_candidates o hashes codes :
  vsize (hashes ++ codes) <= 2 ^ 56 -> 1 <= num_hash o ->
  let cands := (fun i => vsize hashes + i) <$> seqZ 0 (vsize codes) in
  Forall (valid o (hashes ++ codes)) cands /\ Bin.InputIdx <$> cands = cands.
Proof.
  intros Hn Hh cands. pose proof (vsize_nonneg hashes). rewrite vsize_app in Hn.
  assert (Hc : Forall (fun x => 0 <= x < vsize hashes + vsize codes) cands).
  { apply Forall_fmap, Forall_forall. intros x Hx%elem_of_seqZ. cbn. lia. }
  split.
  - eapply Forall_impl; [done|]. intros x Hx. cbn in Hx. exists x, 0. rewrite vsize_app, encode_zero by lia. split; [done|lia].
  - rewrite <- (list_fmap_id cands) at 2. apply list_fmap_ext. intros i x Hx.
    rewrite Forall_lookup in Hc. specialize (Hc i x Hx). cbv beta in Hc.
    transitivity x; [apply plain_fields; lia|done].
Qed.

(** *** [SanityCheck] *)

Lemma insert_all_ok set bins :
  NoDup (ids bins) -> (forall x, x ∈ ids bins -> x ∉ set) ->
  insert_all set bins = Some (list_to_set (ids bins) ∪ set).
Proof.
  revert set. induction bins as [|b bs IH]; intros set Hnd Hdis; cbn [insert_all].
  { cbn. f_equal. set_solver. }
  cbn [ids omap list_omap] in *. destruct (Bin.IsEmpty b) eqn:Eb; [by apply IH|].
  fold (ids bs) in *. apply NoDup_cons in Hnd as [Hni Hnd].
  rewrite decide_False by (apply Hdis; constructor). rewrite IH; [|done|].
  - f_equal. cbn [list_to_set foldr]. set_solver.
  - intros x Hx. assert (x ∉ set) by (apply Hdis; by constructor).
    intros [->%elem_of_singleton|]%elem_of_union; done.
Qed.

Lemma seqZ_sorted n : StronglySorted Z.le (seqZ 0 n).
Proof.
  assert (H : forall k m, StronglySorted Z.le (seqZ m (Z.of_nat k))).
  { induction k as [|k IH]; intros m; [constructor|]. rewrite seqZ_cons by lia.
    replace (Z.pred (Z.of_nat (S k))) with (Z.of_nat k) by lia. constructor; [apply IH|].
    apply Forall_forall. intros x Hx%elem_of_seqZ. lia. }
  destruct (Z.le_gt_cases 0 n); [rewrite <- (Z2Nat.id n) by done; apply H|].
  rewrite seqZ_nil by lia. constructor.
Qed.

Lemma sanity_check_passes c :
  cuckoo_wf c -> vsize (hashes_ c) = num_input (options_ c) -> SanityCheck c = true.
Proof.
  intros [_ _ _ _ _ P] Hn. unfold SanityCheck. pose proof (vsize_nonneg (hashes_ c)).
  assert (Hnd : NoDup (ids (bins_ c) ++ ids (stash_ c))) by (rewrite P; apply NoDup_seqZ).
  apply NoDup_app in Hnd as (N1 & N2 & N3).
  rewrite insert_all_ok; [|done|set_solver]. cbn [mbind option_bind].
  rewrite insert_all_ok; [|done|intros x Hx; specialize (N2 x); set_solver].
  set (s := _ ∪ _). assert (Es : s = list_to_set (seqZ 0 (vsize (hashes_ c)))).
  { unfold s. rewrite <- (list_to_set_perm_L _ _ P), list_to_set_app_L. set_solver. }
  assert (Hel : elements s ≡ₚ seqZ 0 (vsize (hashes_ c))).
  { rewrite Es. apply elements_list_to_set, NoDup_seqZ. }
  assert (Hsz : Z.of_nat (size s) = vsize (hashes_ c)).
  { unfold size, set_size. cbn. rewrite (Permutation_length Hel), length_seqZ. lia. }
  rewrite Hsz, Hn, Z.eqb_refl. cbn [andb]. apply bool_decide_eq_true_2. rewrite <- Hn.
  apply (Sorted_unique Z.le).
  - apply (Sorted_merge_sort Z.le).
  - apply StronglySorted_Sorted, seqZ_sorted.
  - by rewrite merge_sort_Permutation.
Qed.

Lemma new_cuckoo_wf o :
  1 <= num_hash o <= 5 -> 0 <= num_input o <= 2 ^ 56 -> 0 <= num_stash o -> 0 < NumBins o ->
  exists c, new_cuckoo o = Some c /\ cuckoo_wf c /\ hashes_ c = [] /\ options_ c = o.
Proof.
  intros Hh Hi Hs Hb. unfold new_cuckoo, kBlockSize. rewrite (Z.mod_small (num_hash o - 1)) by lia.
  rewrite Z.mod_small by lia. replace (_ <=? 16) with true by lia. eexists. split; [done|]. split; [|done].
  split; cbn [options_ hashes_ bins_ stash_]; [done|by change (vsize (@nil Z)) with 0|done| | |].
  - split; [rewrite vsize_replicate; lia|]. intros k e He Hne. unfold vget in He. destruct (0 <=? k); [|done].
    apply lookup_replicate in He as [-> _]. done.
  - apply Forall_replicate. by left.
  - rewrite !ids_empty. done.
Qed.

(** C8: [CuckooIndex::Insert]. On a well-formed index, inserting codes that fit in
    the announced number of inputs never accesses a vector out of range and ends
    after at most [max_try_count] rounds. When it returns, the index is well-formed
    again: every input given so far is in exactly one place, a bin that one of its
    hash functions selects or the stash, and [SanityCheck] passes once all inputs
    are there. It throws when the inputs left over after the last round do not fit
    in the free slots of the stash, or at once, with bins and stash untouched, when
    there are too many inputs. *)
Theorem cuckoo_insert_places c codes :
  cuckoo_wf c ->
  let o := options_ c in
  match Insert c codes with
  | Done c' => cuckoo_wf c' /\ options_ c' = o /\ hashes_ c' = hashes_ c ++ codes /\
               (vsize (hashes_ c') = num_input o -> SanityCheck c' = true)
  | Thrown c' =>
      hashes_ c' = hashes_ c ++ codes /\
      (vsize (hashes_ c ++ codes) <= num_input o ->
       exists cands bins, rounds (Z.to_nat (max_try_count o)) o (hashes_ c ++ codes)
         ((fun i => vsize (hashes_ c) + i) <$> seqZ 0 (vsize codes)) (bins_ c) = Some (cands, bins) /\
         (free (stash_ c) < length cands)%nat) /\
      (num_input o < vsize (hashes_ c ++ codes) -> bins_ c' = bins_ c /\ stash_ c' = stash_ c)
  | Undef => False
  end.
Proof.
  intros W o. pose proof W as [Wh Wi Wn Wb Ws Wl]. fold o in Wh, Wi, Wn, Wb. unfold Insert. fold o.
  pose proof (vsize_nonneg codes). pose proof (vsize_nonneg (hashes_ c)).
  destruct (Z.leb_spec (vsize (hashes_ c ++ codes)) (num_input o)) as [Hfit|Hfit]; cbn [negb]; cycle 1.
  { split; [done|]. split; [lia|done]. }
  assert (H56 : vsize (hashes_ c ++ codes) <= 2 ^ 56) by lia.
  destruct (first_candidates o (hashes_ c) codes H56 ltac:(lia)) as [Hv He].
  set (cands := (fun i => vsize (hashes_ c) + i) <$> seqZ 0 (vsize codes)) in *.
  destruct (rounds_conserve o (hashes_ c ++ codes) H56 Wh Wn (Z.to_nat (max_try_count o)) cands (bins_ c) Hv
    (bins_ok_grow o _ _ _ Wb H56 Wh)) as (lo & bins & E & Hlo & Hb & P).
  rewrite E, He in *.
  assert (Hids : Forall (fun e => 0 <= Bin.InputIdx e < vsize (hashes_ c ++ codes)) lo).
  { eapply Forall_impl; [exact Hlo|]. intros e Hve. by apply (valid_fields o _ H56 Wh e Hve). }
  assert (Hs : stash_ok (vsize (hashes_ c ++ codes)) (stash_ c)).
  { eapply Forall_impl; [exact Ws|]. intros e [|]; [by left|]. right. rewrite vsize_app. lia. }
  pose proof (put_all_spec _ lo (stash_ c) Hids H56 Hs) as HP.
  destruct (put_all (stash_ c) lo) as [stash []].
  - destruct HP as (P1 & P2 & P3).
    assert (W' : cuckoo_wf (mk_cuckoo o bins stash (hashes_ c ++ codes))).
    { split; cbn [options_ hashes_ bins_ stash_]; try done; [lia|].
      rewrite P3, vsize_app, seqZ_app_off by done. rewrite <- Wl. fold cands.
      rewrite (Permutation_app_comm (ids bins)), <- app_assoc.
      rewrite (Permutation_app_comm (ids (stash_ c)) (ids bins)), app_assoc, P.
      rewrite <- app_assoc. apply Permutation_app_comm. }
    split; [done|]. split; [done|]. split; [done|]. intros Hn. by apply sanity_check_passes.
  - split; [done|]. split; [|lia]. intros _. by exists lo, bins.
Qed.

(** The search over the hash functions finds the first that selects the bin. *)
Lemma min_hash_spec o code k n i :
  0 < NumBins o -> 0 <= i -> i + Z.of_nat n <= 5 ->
  (exists h, i <= h < i + Z.of_nat n /\ (x ← GetHash code h; Some (x mod NumBins o)) = Some k) ->
  exists r, min_hash n i o code k = Some r /\ i <= r < i + Z.of_nat n /\
    (x ← GetHash code r; Some (x mod NumBins o)) = Some k /\
    forall j, i <= j < r -> (x ← GetHash code j; Some (x mod NumBins o)) <> Some k.
Proof.
  intros Hn. revert i. induction n as [|n IH]; intros i Hi H5 (h & Hh & Eh); [lia|]. cbn [min_hash].
  assert (Hg : exists x, GetHash code i = Some x).
  { unfold GetHash, kBlockSize. replace (_ && _) with true by lia. eauto. }
  destruct Hg as [x Hx]. rewrite Hx. cbn [mbind option_bind]. replace (NumBins o =? 0) with false by lia. cbn [negb].
  destruct (Z.eqb_spec (x mod NumBins o) k) as [Ek|Ek].
  - exists i. rewrite Z.mod_small by lia. split; [done|]. split; [lia|]. split; [|lia].
    rewrite Hx. cbn. by rewrite Ek.
  - destruct (IH (i + 1)) as (r & E & Hr & K & Hmin); [lia|lia| |].
    { exists h. split; [|done]. assert (h <> i) by (intros ->; rewrite Hx in Eh; cbn in Eh; congruence). lia. }
    exists r. split; [done|]. split; [lia|]. split; [done|]. intros j Hj.
    destruct (Z.eq_dec j i) as [->|]; [rewrite Hx; cbn; congruence|]. apply Hmin. lia.
Qed.

(** [MinCollidingHashIdx]. On a well-formed index, for every bin that holds an
    input, the answer is the smallest hash function of the input that selects the
    bin; it is never the error value, and not above the function recorded in the
    bin. *)
Lemma cuckoo_min_hash c k e :
  cuckoo_wf c -> vget (bins_ c) k = Some e -> Bin.IsEmpty e = false ->
  exists r code, MinCollidingHashIdx c k = Some r /\ vget (hashes_ c) (Bin.InputIdx e) = Some code /\
    0 <= r <= Bin.HashIdx e /\ Bin.HashIdx e < num_hash (options_ c) /\
    (x ← GetHash code r; Some (x mod NumBins (options_ c))) = Some k /\
    forall j, 0 <= j < r -> (x ← GetHash code j; Some (x mod NumBins (options_ c))) <> Some k.
Proof.
  intros [Wh Wi Wn [_ Wb] Ws Wl] He Hne. destruct (Wb k e He Hne) as [Hv Hk].
  destruct (valid_fields (options_ c) (hashes_ c) ltac:(lia) Wh e Hv) as (_ & Hx & Hh).
  unfold MinCollidingHashIdx. rewrite He. cbn [mbind option_bind]. unfold home in Hk.
  destruct (vget (hashes_ c) (Bin.InputIdx e)) as [code|]; [|done]. cbn [mbind option_bind] in *.
  destruct (min_hash_spec (options_ c) code k (Z.to_nat (num_hash (options_ c))) 0) as (r & E & Hr & K & Hmin);
    [done|lia|lia|by exists (Bin.HashIdx e); split; [lia|]|].
  exists r, code. split; [done|]. split; [done|]. split; [|by split; [lia|]].
  destruct (Z.le_gt_cases r (Bin.HashIdx e)); [lia|]. exfalso. apply (Hmin (Bin.HashIdx e)); [lia|done].
Qed.

(** *** Inputs *)

Definition demo_options : Options := mk_options 6 2 3 8 128.
Definition demo_codes : list Z :=
  (fun i => (i + 1) * 0x9E3779B97F4A7C15F39CC0605CEDC835 mod 2 ^ 128) <$> seqZ 0 6.

Definition demo_index : CuckooIndex :=
  match new_cuckoo demo_options with
  | Some c => match Insert c demo_codes with Done c' => c' | _ => c end
  | None => mk_cuckoo demo_options [] [] []
  end.

Lemma cuckoo_insert_witness :
  exists c, new_cuckoo demo_options = Some c /\
    match Insert c demo_codes with Done c' => cuckoo_wf c' /\ SanityCheck c' = true | _ => False end.
Proof.
  destruct (new_cuckoo_wf demo_options) as (c & E & W & Hh & Ho); [cbn; lia..|].
  exists c. split; [done|]. pose proof (cuckoo_insert_places c demo_codes W) as H.
  assert (Es : Some c = new_cuckoo demo_options) by done. vm_compute in Es. injection Es as Ec. subst c.
  destruct (Insert _ demo_codes) as [c'|c'|] eqn:EI; [|vm_compute in EI; discriminate|vm_compute in EI; discriminate].
  destruct H as (W' & _ & Hc & HS). split; [done|]. apply HS. rewrite Hc. done.
Defined.

Lemma cuckoo_min_hash_witness :
  exists k e, vget (bins_ demo_index) k = Some e /\ Bin.IsEmpty e = false /\
    exists r, MinCollidingHashIdx demo_index k = Some r.
Proof.
  assert (W : cuckoo_wf demo_index).
  { destruct (new_cuckoo_wf demo_options) as (c & E & W & _ & _); [cbn; lia..|].
    pose proof (cuckoo_insert_places c demo_codes W) as H. unfold demo_index. rewrite E.
    destruct (Insert c demo_codes) as [c'|c'|]; [apply H|done|done]. }
  assert (K : exists k e, vget (bins_ demo_index) k = Some e /\ Bin.IsEmpty e = false).
  { exists 1, (default 0 (vget (bins_ demo_index) 1)). by vm_compute. }
  destruct K as (k & e & He & Hne). exists k, e. split; [done|]. split; [done|].
  destruct (cuckoo_min_hash demo_index k e W He Hne) as (r & _ & E & _). by exists r.
Defined.
