(* ===== verification/LinkProgram.v ===== *)
(** Programs that run on a link, and the parties that run them together.

    A party's code talks to the others through [SendAsync] and [Recv] of its
    channels: a program is a tree of such calls. [step i] lets party [i] make
    its next call: a send stores a value under its slot (sender, receiver, key),
    a receive takes the value of its slot when it is there. A send to a slot that
    was ever used, and a second receive of a slot, are never possible, so that a
    program that completes never reuses a key. The order of the steps is the
    schedule of an arbitrary scheduler.

    [completes] is the contract of a protocol: every run is finite, and a run
    that cannot go on has left every party with its result. [plan_completes]
    proves it from a plan: the values all slots will have, and a time for each
    slot that makes every party's receives come before the later ones of its
    sends. *)

From Stdlib Require Import ZArith Lia ZifyBool Bool Sorted.
From stdpp Require Import base numbers list option gmap.
From S2P Require Import Prelude ChannelKeys.

Local Open Scope Z_scope.

(** *** Programs *)

(** What ends a program early: a failed check or a thrown exception, and a null
    channel, an index out of range or a signed overflow. *)
Inductive fault := Thrown | Undefined.

Inductive prog (A : Type) :=
  | Ret (a : A)
  | Fault (e : fault)
  | SendMsg (dst : Z) (key value : bytes) (k : prog A)
  | RecvMsg (src : Z) (key : bytes) (k : bytes -> prog A).
Arguments Ret {A} _.
Arguments Fault {A} _.
Arguments SendMsg {A} _ _ _ _.
Arguments RecvMsg {A} _ _ _.

#[export] Instance prog_ret : MRet prog := fun A a => Ret a.

#[export] Instance prog_bind : MBind prog := fun A B f =>
  fix bind (p : prog A) : prog B :=
    match p with
    | Ret a => f a
    | Fault e => Fault e
    | SendMsg d key v k => SendMsg d key v (bind k)
    | RecvMsg s key k => RecvMsg s key (fun v => bind (k v))
    end.

(** *** Parties running together *)

(** Sender, receiver and key. *)
Definition slot : Type := Z * Z * bytes.

Record world (A : Type) := mk_world {
  procs : gmap Z (prog A);
  sent_msgs : gmap slot bytes;
  taken : gset slot
}.
Arguments mk_world {A} _ _ _.
Arguments procs {A} _.
Arguments sent_msgs {A} _.
Arguments taken {A} _.

Definition returned {A} (p : prog A) : bool := match p with Ret _ => true | _ => false end.

Definition start {A} (ps : gmap Z (prog A)) : world A := mk_world ps ∅ ∅.

Definition step {A} (i : Z) (w : world A) : option (world A) :=
  match procs w !! i with
  | Some (SendMsg d key v k) =>
      if bool_decide (sent_msgs w !! (i, d, key) = None)
      then Some (mk_world (<[i := k]> (procs w)) (<[(i, d, key) := v]> (sent_msgs w)) (taken w))
      else None
  | Some (RecvMsg s key k) =>
      if bool_decide ((s, i, key) ∈ taken w) then None
      else v ← sent_msgs w !! (s, i, key);
           Some (mk_world (<[i := k v]> (procs w)) (sent_msgs w) ({[(s, i, key)]} ∪ taken w))
  | _ => None
  end.

Lemma step_dom {A} i (w w' : world A) : step i w = Some w' -> dom (procs w') = dom (procs w).
Proof.
  unfold step. destruct (procs w !! i) as [p|] eqn:Hp; [|done]. apply elem_of_dom_2 in Hp.
  destruct p as [a|e|d key v k|s key k]; try done.
  - case_bool_decide; [|done]. intros [= <-]. cbn [procs]. rewrite dom_insert_L. set_solver.
  - case_bool_decide; [done|]. destruct (sent_msgs w !! _); [|done]. intros [= <-]. cbn [procs].
    rewrite dom_insert_L. set_solver.
Qed.

Fixpoint run {A} (sched : list Z) (w : world A) : option (world A) :=
  match sched with
  | [] => Some w
  | i :: sched' => w' ← step i w; run sched' w'
  end.

(** Every run ends, and can only end with every party's result. *)
Definition completes {A} (ps : gmap Z (prog A)) (rs : gmap Z A) : Prop :=
  exists bound : nat, forall sched w, run sched (start ps) = Some w ->
    (length sched <= bound)%nat /\
    (procs w = Ret <$> rs \/ exists i w', step i w = Some w').

(** *** Traces

    The calls a program makes, and its result, when every receive of slot [m]
    returns what [S] says. *)

Inductive call := Sent (m : slot) | Received (m : slot).

#[export] Instance call_eq_dec : EqDecision call.
Proof. solve_decision. Defined.

Fixpoint trace {A} (S : slot -> option bytes) (i : Z) (p : prog A) : option (list call * A) :=
  match p with
  | Ret a => Some ([], a)
  | Fault _ => None
  | SendMsg d key v k =>
      if bool_decide (S (i, d, key) = Some v)
      then '(l, a) ← trace S i k; Some (Sent (i, d, key) :: l, a) else None
  | RecvMsg s key k =>
      v ← S (s, i, key);
      '(l, a) ← trace S i (k v); Some (Received (s, i, key) :: l, a)
  end.

Lemma trace_bind {A B} S i (p : prog A) (f : A -> prog B) l1 a l2 b :
  trace S i p = Some (l1, a) -> trace S i (f a) = Some (l2, b) ->
  trace S i (p ≫= f) = Some (l1 ++ l2, b).
Proof.
  revert l1. induction p as [a'|e|d key v k IH|s key k IH]; intros l1 H1 H2; cbn [trace] in H1.
  - by simplify_eq.
  - done.
  - change (SendMsg d key v k ≫= f) with (SendMsg d key v (k ≫= f)). cbn [trace].
    case_bool_decide; [|done]. destruct (trace S i k) as [[l a']|]; [|done]. by simplify_option_eq.
  - change (RecvMsg s key k ≫= f) with (RecvMsg s key (fun v => k v ≫= f)). cbn [trace].
    destruct (S (s, i, key)) as [v|]; [|done]. cbn [mbind option_bind] in *.
    destruct (trace S i (k v)) as [[l a']|] eqn:E; [|done]. by simplify_option_eq.
Qed.

Lemma trace_slots {A} S i (p : prog A) l a c :
  trace S i p = Some (l, a) -> c ∈ l ->
  match c with
  | Sent m => m.1.1 = i /\ is_Some (S m)
  | Received m => m.1.2 = i
  end.
Proof.
  revert l. induction p as [a'|e|d key v k IH|s key k IH]; intros l H Hc; cbn [trace] in H.
  - simplify_eq. by apply not_elem_of_nil in Hc.
  - done.
  - case_bool_decide; [|done]. destruct (trace S i k) as [[l' a']|]; [|done]. simplify_option_eq.
    apply elem_of_cons in Hc as [-> | Hc]; [done|]. by apply (IH l').
  - destruct (S (s, i, key)) as [v|]; [|done]. cbn [mbind option_bind] in H.
    destruct (trace S i (k v)) as [[l' a']|] eqn:E; [|done]. simplify_option_eq.
    apply elem_of_cons in Hc as [-> | Hc]; [done|]. by apply (IH v l').
Qed.

(** *** Plans *)

(** How often [i] is scheduled. *)
Fixpoint count (i : Z) (sched : list Z) : nat :=
  match sched with
  | [] => 0%nat
  | x :: sched' => ((if (i =? x)%Z then 1 else 0) + count i sched')%nat
  end.

Lemma sum_count_cons x (l sched : list Z) :
  NoDup l -> sum_list_with (fun i => count i (x :: sched)) l =
    ((if bool_decide (x ∈ l) then 1 else 0) + sum_list_with (fun i => count i sched) l)%nat.
Proof.
  induction 1 as [|y l Hy Hl IH]; [done|].
  cbn [sum_list_with]. rewrite IH. clear IH. cbn [count].
  destruct (Z.eqb_spec y x) as [-> | Hne].
  - rewrite (bool_decide_eq_false_2 (x ∈ l)) by done. rewrite bool_decide_eq_true_2 by set_solver. lia.
  - rewrite (bool_decide_ext (x ∈ y :: l) (x ∈ l)) by set_solver. lia.
Qed.

Lemma length_count (l sched : list Z) :
  NoDup l -> (forall i, i ∈ sched -> i ∈ l) ->
  length sched = sum_list_with (fun i => count i sched) l.
Proof.
  intros Hl. induction sched as [|x sched IH]; intros Hin.
  - clear Hl Hin. induction l as [|y l IHl]; [done|exact IHl].
  - rewrite sum_count_cons by done. rewrite bool_decide_eq_true_2 by set_solver.
    cbn [length]. rewrite IH by set_solver. lia.
Qed.

Lemma count_app i s1 s2 : count i (s1 ++ s2) = (count i s1 + count i s2)%nat.
Proof. induction s1 as [|x s1 IH]; cbn [app count]; [done|]. rewrite IH. lia. Qed.

Lemma run_app {A} s1 s2 (w : world A) : run (s1 ++ s2) w = w' ← run s1 w; run s2 w'.
Proof.
  revert w. induction s1 as [|i s1 IH]; intros w; cbn [app run]; [done|].
  destruct (step i w); [apply IH|done].
Qed.

(** A receive of a slot comes before sends of later slots only. *)
Definition in_time (τ : slot -> nat) (c c' : call) : Prop :=
  match c, c' with
  | Received m, Sent m' => (τ m < τ m')%nat
  | _, _ => True
  end.

(** [S] is the value every slot gets, [τ] a time for every slot. *)
Record plan {A} (S : slot -> option bytes) (τ : slot -> nat) (ps : gmap Z (prog A)) (rs : gmap Z A)
  : Prop := {
  plan_dom : dom ps = dom rs;
  plan_trace i p : ps !! i = Some p -> exists l a, rs !! i = Some a /\ trace S i p = Some (l, a) /\
    NoDup l /\ StronglySorted (in_time τ) l;
  plan_answered i p l a m : ps !! i = Some p -> trace S i p = Some (l, a) -> Received m ∈ l ->
    exists p' l' a', ps !! m.1.1 = Some p' /\ trace S m.1.1 p' = Some (l', a') /\ Sent m ∈ l'
}.

(** The state of party [i] in a world reached by [sched]: the calls [d] of its
    trace [d ++ rest] are made. *)
Definition party_at {A} (S : slot -> option bytes) (w : world A) (n : nat) (i : Z) (d rest : list call) (a : A)
  : Prop :=
  (exists p, procs w !! i = Some p /\ trace S i p = Some (rest, a)) /\
  length d = n /\
  (forall m : slot, m.1.1 = i -> sent_msgs w !! m = if bool_decide (Sent m ∈ d) then S m else None) /\
  (forall m : slot, m.1.2 = i -> m ∈ taken w <-> Received m ∈ d) /\
  (forall m : slot, Received m ∈ d -> is_Some (sent_msgs w !! m)).

Section Plan.
Context {A : Type} (S : slot -> option bytes) (τ : slot -> nat).
Context (ps : gmap Z (prog A)) (rs : gmap Z A) (Hplan : plan S τ ps rs).

Definition plan_inv (sched : list Z) (w : world A) : Prop :=
  dom (procs w) = dom ps /\
  forall i p l a, ps !! i = Some p -> trace S i p = Some (l, a) ->
    exists d rest, l = d ++ rest /\ party_at S w (count i sched) i d rest a.

Lemma plan_inv_start : plan_inv [] (start ps).
Proof.
  split; [done|]. intros i p l a Hp Ht. exists [], l. split; [done|].
  split; [by exists p|]. split; [done|].
  split; [intros m _; cbn; by rewrite lookup_empty|].
  split; [intros m _; cbn; set_solver|]. intros m Hm. by apply not_elem_of_nil in Hm.
Qed.

(** What a step does to the party that makes it. *)
Lemma step_cases i (w w' : world A) rest a p :
  step i w = Some w' -> procs w !! i = Some p -> trace S i p = Some (rest, a) ->
  (forall m : slot, Received m ∈ rest -> forall v, sent_msgs w !! m = Some v -> S m = Some v) ->
  exists c rest' p', rest = c :: rest' /\ procs w' = <[i := p']> (procs w) /\
    trace S i p' = Some (rest', a) /\
    match c with
    | Sent m => m.1.1 = i /\ sent_msgs w' = <[m := default [] (S m)]> (sent_msgs w) /\ taken w' = taken w /\
                is_Some (S m)
    | Received m => m.1.2 = i /\ sent_msgs w' = sent_msgs w /\ taken w' = {[m]} ∪ taken w /\
                    is_Some (sent_msgs w !! m)
    end.
Proof.
  intros Hs Hp Ht HS. unfold step in Hs. rewrite Hp in Hs.
  destruct p as [a'|e|d key v k|s key k]; cbn [trace] in Ht; try done.
  - case_bool_decide as Hv; [|done]. case_bool_decide as Hf; [|done]. injection Hs as <-.
    destruct (trace S i k) as [[l' a']|] eqn:E; [|done].
    simplify_option_eq. exists (Sent (i, d, key)), l', k. rewrite Hv. done.
  - case_bool_decide as Hf; [done|].
    destruct (sent_msgs w !! (s, i, key)) as [v|] eqn:Ev; [|done].
    cbn [mbind option_bind] in Hs. injection Hs as <-.
    destruct (S (s, i, key)) as [v'|] eqn:Ev'; [|done]. cbn [mbind option_bind] in Ht.
    destruct (trace S i (k v')) as [[l' a']|] eqn:E; [|done]. simplify_option_eq.
    assert (v' = v) as -> by (specialize (HS (s, i, key) ltac:(left) v Ev); congruence).
    exists (Received (s, i, key)), l', (k v). by split_and!; try apply mk_is_Some with v.
Qed.

(** What is in a slot is what the plan says. *)
Lemma plan_inv_sent sched w i p l a m v :
  plan_inv sched w -> ps !! i = Some p -> trace S i p = Some (l, a) -> Received m ∈ l ->
  sent_msgs w !! m = Some v -> S m = Some v.
Proof.
  intros [_ Hinv] Hp Ht Hm Hv.
  destruct (plan_answered _ _ _ _ Hplan i p l a m Hp Ht Hm) as (p' & l' & a' & Hp' & Ht' & _).
  destruct (Hinv _ _ _ _ Hp' Ht') as (d & rest & _ & _ & _ & Hsent & _).
  specialize (Hsent m eq_refl). case_bool_decide; congruence.
Qed.

Lemma party_at_other w w' n i d rest (a : A) (c : call) :
  party_at S w n i d rest a -> procs w' !! i = procs w !! i ->
  match c with
  | Sent m => m.1.1 <> i /\ sent_msgs w' = <[m := default [] (S m)]> (sent_msgs w) /\ taken w' = taken w
  | Received m => m.1.2 <> i /\ sent_msgs w' = sent_msgs w /\ taken w' = {[m]} ∪ taken w
  end -> party_at S w' n i d rest a.
Proof.
  intros (Hp & Hn & H1 & H2 & H3) Hpi Hc. unfold party_at. rewrite Hpi.
  destruct c as [m|m]; destruct Hc as (Hi & -> & ->).
  - split_and!; try done.
    + intros m' Hm'. rewrite lookup_insert_ne by congruence. by apply H1.
    + intros m' Hm'. destruct (decide (m = m')) as [-> | Hne].
      * rewrite lookup_insert_eq. by eexists.
      * rewrite lookup_insert_ne by done. by apply H3.
  - split_and!; try done. intros m' Hm'. rewrite <- H2 by done.
    rewrite elem_of_union, elem_of_singleton. split; [intros [-> | Hin]; done|by right].
Qed.

Lemma plan_inv_step sched w i w' :
  plan_inv sched w -> step i w = Some w' -> plan_inv (sched ++ [i]) w'.
Proof.
  intros Hinv Hs. destruct Hinv as [Hdom Hall] eqn:E. clear E.
  assert (exists q, procs w !! i = Some q) as [q Hq].
  { unfold step in Hs. destruct (procs w !! i); [by eexists|done]. }
  assert (exists p, ps !! i = Some p) as [p Hp].
  { apply elem_of_dom. rewrite <- Hdom. apply elem_of_dom. by eexists. }
  destruct (plan_trace _ _ _ _ Hplan i p Hp) as (l & a & _ & Ht & Hnd & _).
  destruct (Hall i p l a Hp Ht) as (d & rest & -> & (q' & Hq' & Htq) & Hn & H1 & H2 & H3).
  rewrite Hq in Hq'. injection Hq' as <-.
  destruct (step_cases i w w' rest a q Hs Hq Htq) as (c & rest' & q' & -> & Hps & Ht' & Hc).
  { intros m Hm v Hv. apply (plan_inv_sent sched w i p _ a m v Hinv Hp Ht); [set_solver|done]. }
  split; [rewrite Hps, dom_insert_L, <- Hdom; apply elem_of_dom_2 in Hq; set_solver|].
  intros j p1 l1 a1 Hp1 Ht1. rewrite count_app. cbn [count].
  destruct (Z.eqb_spec j i) as [-> | Hne].
  - rewrite Hp in Hp1. injection Hp1 as <-. rewrite Ht in Ht1. injection Ht1 as <- <-.
    exists (d ++ [c]), rest'. split; [by rewrite <- app_assoc|].
    split; [exists q'; by rewrite Hps, lookup_insert_eq|].
    split; [rewrite length_app; cbn; lia|].
    destruct c as [m|m]; destruct Hc as (Hi & -> & -> & HS).
    + split_and!.
      * intros m' Hm'. destruct (decide (m = m')) as [<- | Hmm].
        -- rewrite lookup_insert_eq, bool_decide_eq_true_2 by set_solver. by destruct HS as [v ->].
        -- rewrite lookup_insert_ne by done. rewrite H1 by done. by rewrite (bool_decide_ext (Sent m' ∈ d ++ [Sent m]) (Sent m' ∈ d)) by set_solver.
      * intros m' Hm'. rewrite H2 by done. set_solver.
      * intros m' Hm'. destruct (decide (m = m')) as [<- | Hmm].
        -- rewrite lookup_insert_eq. by eexists.
        -- rewrite lookup_insert_ne by done. apply H3. set_solver.
    + split_and!.
      * intros m' Hm'. rewrite H1 by done. by rewrite (bool_decide_ext (Sent m' ∈ d ++ [Received m]) (Sent m' ∈ d)) by set_solver.
      * intros m' Hm'. rewrite elem_of_union, elem_of_singleton, H2 by done. set_solver.
      * intros m' Hm'. apply elem_of_app in Hm' as [Hm' | Hm']; [by apply H3|].
        apply list_elem_of_singleton in Hm'. by injection Hm' as ->.
  - destruct (Hall j p1 l1 a1 Hp1 Ht1) as (d1 & rest1 & -> & Hat). exists d1, rest1.
    split; [done|]. rewrite Nat.add_0_r. apply (party_at_other w w' _ _ _ _ _ c Hat).
    + rewrite Hps. by rewrite lookup_insert_ne by done.
    + destruct c; destruct Hc as (Hi & Hc1 & Hc2 & _); split_and!; congruence.
Qed.

(** *** Progress *)

Lemma party_step_send sched w i p d rest a m :
  plan_inv sched w -> ps !! i = Some p -> trace S i p = Some (d ++ Sent m :: rest, a) ->
  party_at S w (count i sched) i d (Sent m :: rest) a -> exists w', step i w = Some w'.
Proof.
  intros Hinv Hp Ht ((q & Hq & Htq) & _ & H1 & _ & _).
  destruct (plan_trace _ _ _ _ Hplan i p Hp) as (l & a' & _ & Ht' & Hnd & _).
  rewrite Ht in Ht'. injection Ht' as <- <-.
  apply NoDup_app in Hnd as (_ & Hdis & _).
  unfold step. rewrite Hq. destruct q as [a'|e|dst key v k|s key k]; cbn [trace] in Htq; try done.
  - case_bool_decide; [|done]. destruct (trace S i k) as [[l' a']|]; [|done].
    simplify_option_eq. rewrite bool_decide_eq_true_2; [by eexists|].
    rewrite H1 by done. rewrite bool_decide_eq_false_2; [done|].
    intros Hin. apply (Hdis _ Hin). left.
  - destruct (S (s, i, key)) as [v|]; [|done]. cbn [mbind option_bind] in Htq.
    by destruct (trace S i (k v)) as [[l' a']|].
Qed.

Lemma party_step_recv sched w i p d rest a m :
  plan_inv sched w -> ps !! i = Some p -> trace S i p = Some (d ++ Received m :: rest, a) ->
  party_at S w (count i sched) i d (Received m :: rest) a -> is_Some (sent_msgs w !! m) ->
  exists w', step i w = Some w'.
Proof.
  intros Hinv Hp Ht ((q & Hq & Htq) & _ & _ & H2 & _) [v Hv].
  destruct (plan_trace _ _ _ _ Hplan i p Hp) as (l & a' & _ & Ht' & Hnd & _).
  rewrite Ht in Ht'. injection Ht' as <- <-.
  apply NoDup_app in Hnd as (_ & Hdis & _).
  unfold step. rewrite Hq. destruct q as [a'|e|dst key v' k|s key k]; cbn [trace] in Htq; try done.
  - case_bool_decide; [|done]. by destruct (trace S i k) as [[l' a']|].
  - destruct (S (s, i, key)) as [v'|]; [|done]. cbn [mbind option_bind] in Htq.
    destruct (trace S i (k v')) as [[l' a']|]; [|done]. simplify_option_eq.
    + exfalso. apply (Hdis (Received (s, i, key))); [|left]. apply H2; done.
    + by eexists.
Qed.

(** A party that waits for a slot of time [t] can be traced to one that can
    make a step. *)
Lemma waiting_progress (t : nat) : forall sched w i p d rest a m,
  plan_inv sched w -> ps !! i = Some p -> trace S i p = Some (d ++ Received m :: rest, a) ->
  party_at S w (count i sched) i d (Received m :: rest) a -> τ m = t ->
  exists j w', step j w = Some w'.
Proof.
  induction t as [t IH] using lt_wf_ind. intros sched w i p d rest a m Hinv Hp Ht Hat Hm.
  destruct (sent_msgs w !! m) as [v|] eqn:Ev.
  { destruct (party_step_recv sched w i p d rest a m Hinv Hp Ht Hat ltac:(by eexists)) as [w' Hw'].
    by exists i, w'. }
  destruct (plan_answered _ _ _ _ Hplan i p _ a m Hp Ht) as (p' & l' & a' & Hp' & Ht' & Hs);
    [set_solver|].
  destruct (plan_trace _ _ _ _ Hplan _ _ Hp') as (l1 & a1 & _ & Ht1 & _ & Hord).
  rewrite Ht' in Ht1. injection Ht1 as <- <-.
  destruct (proj2 Hinv _ _ _ _ Hp' Ht') as (d' & rest' & -> & Hat').
  pose proof Hat' as (_ & _ & H1 & _ & _).
  assert (Hrest : Sent m ∈ rest').
  { apply elem_of_app in Hs as [Hs | Hs]; [|done]. exfalso.
    rewrite (H1 m eq_refl), bool_decide_eq_true_2 in Ev by done.
    pose proof (trace_slots S _ _ _ _ (Sent m) Ht' ltac:(set_solver)) as [_ [v HS]]. congruence. }
  destruct rest' as [|[m'|m'] rest']; [by apply not_elem_of_nil in Hrest| |].
  - destruct (party_step_send sched w _ _ _ _ _ _ Hinv Hp' Ht' Hat') as [w' Hw']. by exists m.1.1, w'.
  - refine (IH (τ m') _ sched w _ _ _ _ _ m' Hinv Hp' Ht' Hat' eq_refl).
    apply elem_of_cons in Hrest as [Hc | Hin]; [done|]. subst t.
    assert (Hsr : StronglySorted (in_time τ) (Received m' :: rest')).
    { clear -Hord. induction d' as [|c d' IH]; [done|]. inversion Hord; subst. by apply IH. }
    inversion Hsr as [|x l Hl Hf]; subst. rewrite Forall_forall in Hf. exact (Hf _ Hin).
Qed.

Lemma plan_progress sched w :
  plan_inv sched w -> procs w = Ret <$> rs \/ exists i w', step i w = Some w'.
Proof.
  intros Hinv. pose proof Hinv as [Hdom Hall].
  destruct (decide (map_Forall (fun _ p => returned p = true) (procs w)))
    as [Hf | Hf].
  - left. apply map_eq. intros i. rewrite lookup_fmap.
    destruct (procs w !! i) as [q|] eqn:Eq.
    + assert (is_Some (ps !! i)) as [p Hp].
      { apply elem_of_dom. rewrite <- Hdom. apply elem_of_dom. by eexists. }
      destruct (plan_trace _ _ _ _ Hplan i p Hp) as (l & a & Hr & Ht & _).
      destruct (Hall i p l a Hp Ht) as (d & rest & _ & (q' & Hq' & Htq) & _).
      rewrite Eq in Hq'. injection Hq' as <-. specialize (Hf i q Eq). cbn beta in Hf.
      destruct q; try done. cbn in Htq. rewrite Hr. cbn. congruence.
    + assert (rs !! i = None) as ->; [|done]. apply not_elem_of_dom.
      rewrite <- (plan_dom _ _ _ _ Hplan), <- Hdom. by apply not_elem_of_dom.
  - right. apply map_not_Forall in Hf as (i & q & Eq & Hnr); [|apply _].
    assert (is_Some (ps !! i)) as [p Hp].
    { apply elem_of_dom. rewrite <- Hdom. apply elem_of_dom. by eexists. }
    destruct (plan_trace _ _ _ _ Hplan i p Hp) as (l & a & Hr & Ht & _).
    destruct (Hall i p l a Hp Ht) as (d & rest & -> & Hat).
    destruct rest as [|[m|m] rest].
    + exfalso. destruct Hat as ((q' & Hq' & Htq) & _). rewrite Eq in Hq'. injection Hq' as <-.
      destruct q as [a'|e|dst key v k|s key k]; cbn [trace] in Htq; try done.
      * case_bool_decide; [|done]. by destruct (trace S i k) as [[? ?]|].
      * destruct (S (s, i, key)); [|done]. cbn [mbind option_bind] in Htq.
        by destruct (trace S i (k l)) as [[? ?]|].
    + exists i. by apply (party_step_send sched w i p d rest a m).
    + by apply (waiting_progress (τ m) sched w i p d rest a m).
Qed.

Lemma plan_inv_run w1 s1 s2 w2 : plan_inv s1 w1 -> run s2 w1 = Some w2 -> plan_inv (s1 ++ s2) w2.
Proof.
  revert s1 w1. induction s2 as [|i s2 IH]; intros s1 w1 Hinv Hrun.
  - cbn in Hrun. simplify_eq. by rewrite app_nil_r.
  - cbn [run] in Hrun. destruct (step i w1) as [w'|] eqn:E; [|done].
    replace (s1 ++ i :: s2) with ((s1 ++ [i]) ++ s2) by (by rewrite <- app_assoc).
    apply (IH _ w'); [by apply (plan_inv_step s1 w1)|done].
Qed.

Lemma plan_reached sched w : run sched (start ps) = Some w -> plan_inv sched w.
Proof. intros H. by apply (plan_inv_run (start ps) [] sched w plan_inv_start). Qed.

(** Only the parties of the plan are scheduled. *)
Lemma run_scheduled sched (w w0 : world A) : run sched w0 = Some w -> dom (procs w0) = dom ps ->
  forall i, i ∈ sched -> i ∈ elements (dom ps).
Proof.
  revert w0. induction sched as [|j sched IH]; intros w0 Hrun Hdom i Hi; [by apply not_elem_of_nil in Hi|].
  cbn [run] in Hrun. destruct (step j w0) as [w1|] eqn:E; [|done]. cbn [mbind option_bind] in Hrun.
  assert (Hj : j ∈ dom ps).
  { rewrite <- Hdom. apply elem_of_dom. unfold step in E. by destruct (procs w0 !! j). }
  apply elem_of_cons in Hi as [-> | Hi]; [by apply elem_of_elements|].
  apply (IH w1 Hrun); [|done]. by rewrite <- Hdom, (step_dom j w0 w1 E).
Qed.

(** A planned protocol completes, whatever the schedule. *)
Lemma plan_completes : completes ps rs.
Proof.
  exists (sum_list_with (fun i => match ps !! i ≫= trace S i with
                                  | Some (l, _) => length l | None => 0%nat end) (elements (dom ps))).
  intros sched w Hrun. pose proof (plan_reached sched w Hrun) as Hinv.
  split; [|by apply (plan_progress sched)].
  rewrite (length_count (elements (dom ps)) sched); [|apply NoDup_elements|by apply (run_scheduled _ w (start ps))].
  assert (Hle : forall i, (count i sched <= match ps !! i ≫= trace S i with
                            | Some (l, _) => length l | None => 0%nat end)%nat \/ i ∉ dom ps).
  { intros i. destruct (ps !! i) as [p|] eqn:Ep; [left|right; by apply not_elem_of_dom].
    destruct (plan_trace _ _ _ _ Hplan i p Ep) as (l & a & _ & Ht & _). cbn [mbind option_bind]. rewrite Ht.
    destruct (proj2 Hinv i p l a Ep Ht) as (d & rest & -> & _ & <- & _). rewrite length_app. lia. }
  assert (Hall : forall i, i ∈ elements (dom ps) -> i ∈ dom ps) by (intros; by apply elem_of_elements).
  revert Hall. generalize (elements (dom ps)). clear -Hle.
  intros l Hall. induction l as [|i l IH]; [done|]. cbn [sum_list_with].
  apply Nat.add_le_mono; [|apply IH; set_solver].
  destruct (Hle i) as [Hi | Hi]; [done|]. exfalso. apply Hi, Hall. left.
Qed.
End Plan.
