(* ===== verification/Context.v ===== *)
(** The context of a party in a link (src/yacl/link/context.h, context.cc): ranks,
    message names, the operations on the channels to the other parties, and the
    contexts made from it ([Spawn], [SubWorld]).

    [channels_] holds, for each rank, the party at the other end of its channel
    ([None] for the null pointer at the party's own rank). A session is a context
    with the statistics object it points to: a spawned context points to the
    object of its parent. [size_t] wraps at [2 ^ 64]; the peer-to-peer counters
    are [int], whose overflow is undefined. Waiting for the network is in
    [LinkProgram]; connecting to the mesh, timeouts and printing are left out. *)

From Stdlib Require Import ZArith Lia ZifyBool Bool.
From stdpp Require Import base numbers list option gmap.
From S2P Require Import Prelude ChannelKeys LinkProgram.

Local Open Scope Z_scope.

Record Context := mk_context {
  id : bytes;
  parties : list bytes;
  rank_ : Z;
  channels_ : list (option Z);
  counter_ : Z;
  p2p_counter_ : gmap (Z * Z) Z;
  child_counter_ : Z;
  is_sub_world_ : bool
}.

Record Statistics := mk_stats {
  sent_bytes : Z;
  sent_actions : Z;
  recv_bytes : Z;
  recv_actions : Z
}.

Record session := mk_session { ctx : Context; stats : Statistics }.

Definition size_t (n : Z) : Z := n mod 2 ^ 64.

(** *** Programs over a session *)

Definition LinkM (A : Type) : Type := session -> prog (A * session).

#[export] Instance LinkM_ret : MRet LinkM := fun A a s => Ret (a, s).
#[export] Instance LinkM_bind : MBind LinkM := fun A B f m s => '(a, s') ← m s; f a s'.

Definition fail {A} (e : fault) : LinkM A := fun _ => Fault e.

(** [YACL_ENFORCE], and an access that is undefined when it is out of range. *)
Definition enforce (b : bool) : LinkM () := if b then mret () else fail Thrown.
Definition defined {A} (o : option A) : LinkM A := match o with Some a => mret a | None => fail Undefined end.

(** The context a program runs in. *)
Definition the_ctx : LinkM Context := fun s => Ret (ctx s, s).

(** [for (k = i; k < i + n; ++k) st = f(k, st)]. *)
Fixpoint for_prog {St : Type} (n : nat) (i : Z) (f : Z -> St -> LinkM St) (st : St) : LinkM St :=
  match n with
  | O => mret st
  | S n' => st' ← f i st; for_prog n' (i + 1) f st'
  end.

(** *** Ranks *)

Definition WorldSize (c : Context) : Z := vsize (parties c).
Definition Rank (c : Context) : Z := rank_ c.

Definition PrevRank (c : Context) (stride : Z) : Z :=
  size_t (size_t (rank_ c - stride) + WorldSize c) mod WorldSize c.

Definition NextRank (c : Context) (stride : Z) : Z :=
  size_t (rank_ c + stride) mod WorldSize c.

(** [Context(desc, rank, channels, msg_loop, is_sub_world)]: the constructor
    resets the counters; [None] when one of its checks fails. *)
Definition new_Context (id : bytes) (parties : list bytes) (rank : Z) (channels : list (option Z))
    (is_sub_world : bool) : option Context :=
  assert! (rank <? vsize parties);
  assert! (vsize channels =? vsize parties);
  let ranks := seqZ 0 (vsize parties) in
  let p2p := list_to_map ((fun d => (d, 0)) <$> (src ← ranks; dst ← ranks; [(src, dst)])) in
  Some (mk_context id parties rank channels 0 p2p 0 is_sub_world).

(** *** Message names *)

Definition colon : bytes := [58].
Definition dash : bytes := [45].
Definition p2p_tag : bytes := [58; 80; 50; 80; 45].
Definition arrow : bytes := [45; 62].

Definition set_counter (k : Z) (c : Context) : Context :=
  mk_context (id c) (parties c) (rank_ c) (channels_ c) k (p2p_counter_ c) (child_counter_ c)
    (is_sub_world_ c).

Definition set_p2p (m : gmap (Z * Z) Z) (c : Context) : Context :=
  mk_context (id c) (parties c) (rank_ c) (channels_ c) (counter_ c) m (child_counter_ c)
    (is_sub_world_ c).

Definition set_child_counter (k : Z) (c : Context) : Context :=
  mk_context (id c) (parties c) (rank_ c) (channels_ c) (counter_ c) (p2p_counter_ c) k
    (is_sub_world_ c).

Definition collective_id (id : bytes) (n : Z) : bytes := id ++ colon ++ to_string n.

Definition NextId : LinkM bytes := fun s =>
  let c := ctx s in
  let n := size_t (counter_ c + 1) in
  Ret (collective_id (id c) n, mk_session (set_counter n c) (stats s)).

Definition p2p_id (id : bytes) (n src dst : Z) : bytes :=
  id ++ p2p_tag ++ to_string n ++ colon ++ to_string src ++ arrow ++ to_string dst.

Definition NextP2PId (src dst : Z) : LinkM bytes := fun s =>
  let c := ctx s in
  let n := default 0 (p2p_counter_ c !! (src, dst)) in
  if n <? 2 ^ 31 - 1
  then Ret (p2p_id (id c) (n + 1) src dst,
            mk_session (set_p2p (<[(src, dst) := n + 1]> (p2p_counter_ c)) c) (stats s))
  else Fault Undefined.

(** *** Sending and receiving *)

Definition add_sent (len : Z) (t : Statistics) : Statistics :=
  mk_stats (size_t (sent_bytes t + len)) (size_t (sent_actions t + 1)) (recv_bytes t) (recv_actions t).

Definition add_received (len : Z) (t : Statistics) : Statistics :=
  mk_stats (sent_bytes t) (sent_actions t) (size_t (recv_bytes t + len)) (size_t (recv_actions t + 1)).

Definition peer (rank : Z) : LinkM Z := fun s =>
  if rank <? vsize (channels_ (ctx s))
  then match mjoin (vget (channels_ (ctx s)) rank) with
       | Some p => Ret (p, s)
       | None => Fault Undefined
       end
  else Fault Thrown.

(** The channel's call, followed by the update of the statistics. *)
Definition channel_send (p : Z) (key value : bytes) : LinkM () := fun s =>
  SendMsg p key value (Ret ((), mk_session (ctx s) (add_sent (vsize value) (stats s)))).

Definition channel_recv (p : Z) (key : bytes) : LinkM bytes := fun s =>
  RecvMsg p key (fun value => Ret (value, mk_session (ctx s) (add_received (vsize value) (stats s)))).

Definition SendAsyncInternal (dst_rank : Z) (key value : bytes) : LinkM () :=
  p ← peer dst_rank; channel_send p key value.

Definition RecvInternal (src_rank : Z) (key : bytes) : LinkM bytes :=
  p ← peer src_rank; channel_recv p key.

Definition SendAsync (dst_rank : Z) (value : bytes) : LinkM () := fun s =>
  (event ← NextP2PId (rank_ (ctx s)) dst_rank; SendAsyncInternal dst_rank event value) s.

Definition Recv (src_rank : Z) : LinkM bytes := fun s =>
  (event ← NextP2PId src_rank (rank_ (ctx s)); RecvInternal src_rank event) s.

(** *** Contexts made from a context *)

(** [Spawn(id)]: the child and the context, whose counter may have changed. *)
Definition Spawn (c : Context) (child : bytes) : option (Context * Context) :=
  let '(sub_id, c') :=
    if bool_decide (child = [])
    then (id c ++ dash ++ to_string (child_counter_ c),
          set_child_counter (size_t (child_counter_ c + 1)) c)
    else (id c ++ dash ++ child, c) in
  sub ← new_Context sub_id (parties c) (rank_ c) (channels_ c) false;
  Some (sub, c').

(** The ranks of [SubWorld]: [orig_ranks] and [new_rank] after the loop over
    the identifiers; [None] when one of them is not a party. *)
Fixpoint sub_ranks (party_rank : gmap bytes Z) (self : Z) (ids : list bytes) (orig_ranks : list Z) (new_rank : Z)
  : option (list Z * Z) :=
  match ids with
  | [] => Some (orig_ranks, new_rank)
  | p :: ids' =>
      r ← party_rank !! p;
      sub_ranks party_rank self ids' (orig_ranks ++ [r])
        (if r =? self then vsize orig_ranks else new_rank)
  end.

(** [party_rank_map[desc_.parties[i].id] = i]. *)
Definition add_party (m : gmap bytes Z) (x : Z * bytes) : gmap bytes Z := <[snd x := fst x]> m.

Definition SubWorld (c : Context) (id_suffix : bytes) (sub_party_ids : list bytes) : option Context :=
  let party_rank := foldl add_party ∅ (zip (seqZ 0 (WorldSize c)) (parties c)) in
  '(orig_ranks, new_rank) ← sub_ranks party_rank (rank_ c) sub_party_ids [] (vsize sub_party_ids);
  assert! (negb (new_rank =? vsize sub_party_ids));
  ps ← mapM (vget (parties c)) orig_ranks;
  chs ← mapM (vget (channels_ c)) orig_ranks;
  new_Context (id c ++ dash ++ id_suffix) ps new_rank chs true.
