(* ===== verification/LinkGroup.v ===== *)
(** Groups of parties that call the same operations: the contexts of the parties
    of a link agree on its name, on the counter of collective operations and on
    who is at which rank. The rules of [does] compute the calls a program makes;
    [planned_return] turns them into a statement about every schedule. *)

From Stdlib Require Import ZArith Lia ZifyBool Bool Sorted.
From stdpp Require Import base numbers list option gmap.
From S2P Require Import Prelude ChannelKeys LinkProgram Context.

Local Open Scope Z_scope.

(** *** Groups *)

(** The channels of rank [i] when party [ph[j]] has rank [j]. *)
Definition channels_of (ph : list Z) (i : Z) : list (option Z) :=
  imap (fun j p => if Z.of_nat j =? i then None else Some p) ph.

Record member (ph : list Z) (nm : bytes) (k : Z) (i : Z) (c : Context) : Prop := {
  member_rank : rank_ c = i;
  member_size : length (parties c) = length ph;
  member_channels : channels_ c = channels_of ph i;
  member_id : id c = nm;
  member_counter : counter_ c = k
}.

(** The parties [ph], in rank order, with sessions [ss]; a vector of parties has
    fewer than [2 ^ 60] elements. *)
Record group (ph : list Z) (nm : bytes) (k : Z) (ss : list session) : Prop := {
  group_parties : NoDup ph;
  group_bound : vsize ph < 2 ^ 60;
  group_size : length ss = length ph;
  group_member i s : ss !! i = Some s -> member ph nm k (Z.of_nat i) (ctx s)
}.

(** Party [ph[j]] runs program [ms[j]]. *)
Definition programs {A} (ph : list Z) (ms : list A) : gmap Z A := list_to_map (zip ph ms).

(** Whatever the schedule, every party returns, with a result that satisfies
    the condition of its rank. *)
Definition all_return {A} (ph : list Z) (ms : list (prog A)) (Post : Z -> A -> Prop) : Prop :=
  exists rs, completes (programs ph ms) rs /\
    forall i p, ph !! i = Some p -> exists a, rs !! p = Some a /\ Post (Z.of_nat i) a.

Lemma lookup_programs {A} ph (ms : list A) i p m :
  NoDup ph -> length ms = length ph -> ph !! i = Some p -> ms !! i = Some m ->
  programs ph ms !! p = Some m.
Proof.
  intros Hnd Hlen Hp Hm. apply elem_of_list_to_map_1.
  - rewrite fst_zip by lia. done.
  - apply list_elem_of_lookup. exists i. by rewrite lookup_zip_with, Hp, Hm.
Qed.

Lemma lookup_programs_inv {A} ph (ms : list A) p m :
  length ms = length ph -> programs ph ms !! p = Some m ->
  exists i, ph !! i = Some p /\ ms !! i = Some m.
Proof.
  intros Hlen Hp. apply elem_of_list_to_map_2, list_elem_of_lookup in Hp as [i Hi].
  rewrite lookup_zip_with in Hi. exists i.
  destruct (ph !! i), (ms !! i); cbn in Hi; by simplify_eq.
Qed.

Lemma finite_choice {A B} (R : nat -> A -> B -> Prop) (l : list A) :
  (forall i x, l !! i = Some x -> exists y, R i x y) ->
  exists l', length l' = length l /\ forall i x y, l !! i = Some x -> l' !! i = Some y -> R i x y.
Proof.
  revert R. induction l as [|x l IH]; intros R H; [by exists []|].
  destruct (H 0%nat x eq_refl) as [y Hy].
  destruct (IH (fun i => R (S i))) as (l' & Hlen & Hl'); [intros i z Hz; by apply (H (S i))|].
  exists (y :: l'). split; [cbn; by rewrite Hlen|].
  intros [|i] a b Ha Hb; cbn in Ha, Hb; simplify_eq; [done|by apply Hl'].
Qed.

(** A plan for the parties of a group, rank by rank. *)
Lemma planned_return {A} (ph : list Z) (ms : list (prog A)) (S : slot -> option bytes) (τ : slot -> nat)
    (calls : Z -> list call) (Post : Z -> A -> Prop) :
  NoDup ph -> length ms = length ph ->
  (forall i p m, ph !! i = Some p -> ms !! i = Some m ->
     (exists a, trace S p m = Some (calls (Z.of_nat i), a) /\ Post (Z.of_nat i) a) /\
     NoDup (calls (Z.of_nat i)) /\ StronglySorted (in_time τ) (calls (Z.of_nat i))) ->
  (forall i m, (i < length ph)%nat -> Received m ∈ calls (Z.of_nat i) ->
     exists j, ph !! j = Some m.1.1 /\ Sent m ∈ calls (Z.of_nat j)) ->
  exists rs, plan S τ (programs ph ms) rs /\
    forall i p, ph !! i = Some p -> exists a, rs !! p = Some a /\ Post (Z.of_nat i) a.
Proof.
  intros Hnd Hlen Hcalls Hans.
  destruct (finite_choice (fun i m a => forall p, ph !! i = Some p ->
              trace S p m = Some (calls (Z.of_nat i), a) /\ Post (Z.of_nat i) a) ms)
    as (rs & Hrs & HR).
  { intros i m Hm. destruct (lookup_lt_is_Some_2 ph i) as [p Hp].
    { rewrite <- Hlen. by eapply lookup_lt_Some. }
    destruct (Hcalls i p m Hp Hm) as [[a Ha] _]. exists a. intros p' Hp'. by simplify_eq. }
  assert (Hpick : forall i p, ph !! i = Some p -> exists m a, ms !! i = Some m /\ rs !! i = Some a).
  { intros i p Hp. apply lookup_lt_Some in Hp.
    destruct (lookup_lt_is_Some_2 ms i) as [m Hm]; [by rewrite Hlen|].
    destruct (lookup_lt_is_Some_2 rs i) as [a Ha]; [by rewrite Hrs, Hlen|]. by exists m, a. }
  exists (programs ph rs). split; [split|].
  - apply set_eq. intros p. rewrite !elem_of_dom. split; intros [x Hx];
      (apply lookup_programs_inv in Hx as (i & Hp & _); [|lia]);
      destruct (Hpick i p Hp) as (m & a & Hm & Ha);
      eexists; eapply lookup_programs; try done; lia.
  - intros p m Hm. apply lookup_programs_inv in Hm as (i & Hp & Hm); [|done].
    destruct (Hpick i p Hp) as (m' & a & Hm' & Ha). simplify_eq.
    destruct (HR i m a Hm Ha p Hp) as [Ht _]. destruct (Hcalls i p m Hp Hm) as (_ & Hcn & Hco).
    exists (calls (Z.of_nat i)), a. split; [apply (lookup_programs ph rs i); [done|lia|done|done]|done].
  - intros p m l a s Hm Ht Hs. apply lookup_programs_inv in Hm as (i & Hp & Hm); [|done].
    destruct (Hcalls i p m Hp Hm) as ((a' & Ht' & _) & _). simplify_eq.
    destruct (Hans i s) as (j & Hj & Hsent); [by eapply lookup_lt_Some|done|].
    destruct (Hpick j _ Hj) as (m' & a' & Hm' & Ha'). exists m'.
    destruct (HR j m' a' Hm' Ha' _ Hj) as [Htj _]. exists (calls (Z.of_nat j)), a'.
    split; [by apply (lookup_programs ph ms j)|done].
  - intros i p Hp. destruct (Hpick i p Hp) as (m & a & Hm & Ha). exists a.
    split; [apply (lookup_programs ph rs i); [done|lia|done|done]|exact (proj2 (HR i m a Hm Ha p Hp))].
Qed.

(** *** The calls of a program

    Run by party [p] in session [s], [m] makes the calls [l], returns [a] and
    leaves the context [c]. *)
Definition does {A} (S : slot -> option bytes) (p : Z) (m : LinkM A) (s : session) (l : list call) (a : A)
    (c : Context) : Prop :=
  exists s', trace S p (m s) = Some (l, (a, s')) /\ ctx s' = c.

Lemma does_ret {A} S p s (a : A) : does S p (mret a) s [] a (ctx s).
Proof. by exists s. Qed.

Lemma does_bind {A B} S p (m : LinkM A) (f : A -> LinkM B) s l1 a c1 l2 b c2 :
  does S p m s l1 a c1 -> (forall s', ctx s' = c1 -> does S p (f a) s' l2 b c2) ->
  does S p (m ≫= f) s (l1 ++ l2) b c2.
Proof.
  intros (s1 & H1 & Hc) H2. destruct (H2 s1 Hc) as (s2 & H3 & Hc2). exists s2. split; [|done].
  unfold mbind, LinkM_bind. by eapply trace_bind.
Qed.

(** A step that makes no call. *)
Lemma does_bind_pure {A B} S p (m : LinkM A) (f : A -> LinkM B) s a c1 l b c2 :
  does S p m s [] a c1 -> (forall s', ctx s' = c1 -> does S p (f a) s' l b c2) ->
  does S p (m ≫= f) s l b c2.
Proof. intros H1 H2. exact (does_bind S p m f s [] a c1 l b c2 H1 H2). Qed.

Lemma does_defined {A} S p s (a : A) : does S p (defined (Some a)) s [] a (ctx s).
Proof. apply does_ret. Qed.

Lemma does_enforce S p s : does S p (enforce true) s [] () (ctx s).
Proof. apply does_ret. Qed.

(** A loop whose iteration [k] starts in context [C k]. *)
Lemma does_for_ctx {St} S p n i (f : Z -> St -> LinkM St) (calls : Z -> list call) (C : Z -> Context)
    (Inv : Z -> St -> Prop) st s :
  Inv i st -> ctx s = C i ->
  (forall k t s', i <= k < i + Z.of_nat n -> Inv k t -> ctx s' = C k ->
     exists t', does S p (f k t) s' (calls k) t' (C (k + 1)) /\ Inv (k + 1) t') ->
  exists st', does S p (for_prog n i f st) s (mjoin (calls <$> seqZ i (Z.of_nat n))) st' (C (i + Z.of_nat n)) /\
    Inv (i + Z.of_nat n) st'.
Proof.
  revert i st s. induction n as [|n IH]; intros i st s Hi Hs Hf.
  - exists st. rewrite Z.add_0_r, <- Hs. split; [apply does_ret|done].
  - destruct (Hf i st s ltac:(lia) Hi Hs) as (st1 & (s1 & Ht1 & Hc1) & Hi1).
    destruct (IH (i + 1) st1 s1 Hi1 Hc1) as (st2 & H2 & Hi2).
    { intros k t s' Hk Hkt Hs'. apply Hf; [lia|done|done]. }
    exists st2. replace (i + Z.of_nat (Datatypes.S n)) with (i + 1 + Z.of_nat n) by lia. split; [|done].
    rewrite seqZ_cons by lia. cbn [fmap list_fmap mjoin list_join for_prog].
    replace (Z.pred (Z.of_nat (Datatypes.S n))) with (Z.of_nat n) by lia. replace (Z.succ i) with (i + 1) by lia.
    destruct H2 as (s2 & Ht2 & Hc2). exists s2. split; [|congruence].
    unfold mbind, LinkM_bind. eapply trace_bind; [exact Ht1|exact Ht2].
Qed.

Lemma does_for {St} S p n i (f : Z -> St -> LinkM St) (calls : Z -> list call) (Inv : Z -> St -> Prop) st s :
  Inv i st ->
  (forall k t s', i <= k < i + Z.of_nat n -> Inv k t -> ctx s' = ctx s ->
     exists t', does S p (f k t) s' (calls k) t' (ctx s) /\ Inv (k + 1) t') ->
  exists st', does S p (for_prog n i f st) s (mjoin (calls <$> seqZ i (Z.of_nat n))) st' (ctx s) /\
    Inv (i + Z.of_nat n) st'.
Proof. intros Hi Hf. by apply (does_for_ctx S p n i f calls (fun _ => ctx s)). Qed.

(** *** Calls of a member of a group *)

Lemma lookup_channels_of ph i j p :
  vget ph j = Some p -> j <> i -> mjoin (vget (channels_of ph i) j) = Some p.
Proof.
  intros Hp Hj. unfold vget, channels_of in *. destruct (Z.leb_spec 0 j); [|done].
  rewrite list_lookup_imap, Hp. cbn. rewrite Z2Nat.id by lia. by rewrite (proj2 (Z.eqb_neq j i)).
Qed.

Lemma peer_member ph nm k i s j p :
  member ph nm k i (ctx s) -> vget ph j = Some p -> j <> i -> peer j s = Ret (p, s).
Proof.
  intros [_ _ Hch _ _] Hp Hj. unfold peer. rewrite Hch.
  rewrite (lookup_channels_of ph i j p Hp Hj).
  assert (Hr : 0 <= j < vsize ph) by (apply vget_Some_iff; by eexists).
  unfold vsize, channels_of in *. rewrite length_imap.
  by rewrite (proj2 (Z.ltb_lt _ _)) by lia.
Qed.

Lemma does_send S ph nm k i s j p q key v :
  member ph nm k i (ctx s) -> vget ph j = Some q -> j <> i -> S (p, q, key) = Some v ->
  does S p (SendAsyncInternal j key v) s [Sent (p, q, key)] () (ctx s).
Proof.
  intros Hm Hq Hj HS. exists (mk_session (ctx s) (add_sent (vsize v) (stats s))). split; [|done].
  unfold SendAsyncInternal, mbind, LinkM_bind. rewrite (peer_member ph nm k i s j q) by done.
  cbn [mbind prog_bind channel_send trace]. by rewrite bool_decide_eq_true_2.
Qed.

Lemma does_recv S ph nm k i s j p q key v :
  member ph nm k i (ctx s) -> vget ph j = Some q -> j <> i -> S (q, p, key) = Some v ->
  does S p (RecvInternal j key) s [Received (q, p, key)] v (ctx s).
Proof.
  intros Hm Hq Hj HS. exists (mk_session (ctx s) (add_received (vsize v) (stats s))). split; [|done].
  unfold RecvInternal, mbind, LinkM_bind. rewrite (peer_member ph nm k i s j q) by done.
  cbn [mbind prog_bind channel_recv trace]. by rewrite HS.
Qed.

(** *** Peer-to-peer messages *)

Definition p2p_count (c : Context) (src dst : Z) : Z := default 0 (p2p_counter_ c !! (src, dst)).

(** The context after the next name for messages from [src] to [dst]. *)
Definition p2p_next (src dst : Z) (c : Context) : Context :=
  set_p2p (<[(src, dst) := p2p_count c src dst + 1]> (p2p_counter_ c)) c.

Lemma p2p_count_next c src dst src' dst' :
  p2p_count (p2p_next src dst c) src' dst' =
  p2p_count c src' dst' + Z.b2z (bool_decide ((src', dst') = (src, dst))).
Proof.
  unfold p2p_next, p2p_count. cbn [p2p_counter_ set_p2p]. case_bool_decide as Hd.
  - injection Hd as -> ->. by rewrite lookup_insert_eq.
  - rewrite lookup_insert_ne by congruence. cbn. lia.
Qed.

Lemma member_p2p ph nm k i src dst c : member ph nm k i c -> member ph nm k i (p2p_next src dst c).
Proof. by intros []. Qed.

Lemma does_next_p2p S ph nm k i s p src dst :
  member ph nm k i (ctx s) -> p2p_count (ctx s) src dst < 2 ^ 31 - 1 ->
  does S p (NextP2PId src dst) s [] (p2p_id nm (p2p_count (ctx s) src dst + 1) src dst) (p2p_next src dst (ctx s)).
Proof.
  intros [_ _ _ <- _] Hc. unfold NextP2PId, does. rewrite (proj2 (Z.ltb_lt _ _)) by exact Hc. by eexists.
Qed.

Lemma does_SendAsync S ph nm k i s j p q v :
  member ph nm k i (ctx s) -> vget ph j = Some q -> j <> i -> p2p_count (ctx s) i j < 2 ^ 31 - 1 ->
  let m := (p, q, p2p_id nm (p2p_count (ctx s) i j + 1) i j) in
  S m = Some v -> does S p (SendAsync j v) s [Sent m] () (p2p_next i j (ctx s)).
Proof.
  intros Hm Hq Hj Hc m HS. unfold SendAsync, does. rewrite (member_rank _ _ _ _ _ Hm).
  eapply (does_bind_pure S p (NextP2PId i j)); [by eapply does_next_p2p|]. intros s' Hs'.
  rewrite <- Hs'. apply (does_send S ph nm k i); [|done..]. rewrite Hs'. by apply member_p2p.
Qed.

Lemma does_Recv S ph nm k i s j p q v :
  member ph nm k i (ctx s) -> vget ph j = Some q -> j <> i -> p2p_count (ctx s) j i < 2 ^ 31 - 1 ->
  let m := (q, p, p2p_id nm (p2p_count (ctx s) j i + 1) j i) in
  S m = Some v -> does S p (Recv j) s [Received m] v (p2p_next j i (ctx s)).
Proof.
  intros Hm Hq Hj Hc m HS. unfold Recv, does. rewrite (member_rank _ _ _ _ _ Hm).
  eapply (does_bind_pure S p (NextP2PId j i)); [by eapply does_next_p2p|]. intros s' Hs'.
  rewrite <- Hs'. apply (does_recv S ph nm k i); [|done..]. rewrite Hs'. by apply member_p2p.
Qed.
