(* ===== verification/Collectives.v ===== *)
(** The collective algorithms of a link
    (src/yacl/link/algorithm: allgather.cc, gather.cc, scatter.cc, broadcast.cc,
    barrier.cc), as programs over the session of the party that calls them.

    Outside code: [absl::bit_floor] is the class [BitFloor] with its documented
    law; the serializer of vectors of buffers (msgpack) is the class
    [BufferSerializer], whose law is the round trip. The loops of the barrier and
    of the broadcast double and halve a [size_t]; they have one unit of fuel per
    bit and one more, and running out of it would be a fault. *)

From Stdlib Require Import ZArith Lia ZifyBool Bool.
From stdpp Require Import base numbers list option gmap.
From S2P Require Import Prelude ChannelKeys LinkProgram Context.

Local Open Scope Z_scope.

(** The largest power of two that is not greater than the argument. *)
Class BitFloor := {
  bit_floor : Z -> Z;
  bit_floor_spec n : 0 < n < 2 ^ 64 ->
    exists e, 0 <= e /\ bit_floor n = 2 ^ e /\ 2 ^ e <= n < 2 * 2 ^ e
}.

Class BufferSerializer := {
  SerializeArrayOfBuffers : list bytes -> bytes;
  DeserializeArrayOfBuffers : bytes -> option (list bytes);
  deserialize_serialize l : DeserializeArrayOfBuffers (SerializeArrayOfBuffers l) = Some l
}.

Definition allgather_type : bytes := [65; 76; 76; 71; 65; 84; 72; 69; 82].
Definition gather_type : bytes := [71; 65; 84; 72; 69; 82].
Definition scatter_type : bytes := [83; 67; 65; 84; 84; 69; 82].
Definition bcast_type : bytes := [66; 67; 65; 83; 84].
Definition barrier_type : bytes := [66; 65; 82; 82; 73; 69; 82].

(** [fmt::format("{}:{}", ctx->NextId(), kType)]. *)
Definition next_event (kType : bytes) : LinkM bytes := n ← NextId; mret (n ++ colon ++ kType).

(** *** AllGather *)

Definition send_to_other (event input : bytes) (idx : Z) (_ : ()) : LinkM () :=
  c ← the_ctx;
  if idx =? Rank c then mret () else SendAsyncInternal idx event input.

Definition collect (event input : bytes) (idx : Z) (outputs : list bytes) : LinkM (list bytes) :=
  c ← the_ctx;
  v ← (if idx =? Rank c then mret input else RecvInternal idx event);
  defined (vset outputs idx v).

Definition AllGatherImpl (input : bytes) : LinkM (list bytes) :=
  event ← next_event allgather_type;
  c ← the_ctx;
  _ ← for_prog (length (parties c)) 0 (send_to_other event input) ();
  for_prog (length (parties c)) 0 (collect event input) (replicate (length (parties c)) []).

(** *** Gather *)

Definition GatherImpl (input : bytes) (root : Z) : LinkM (list bytes) :=
  event ← next_event gather_type;
  c ← the_ctx;
  if root =? Rank c
  then for_prog (length (parties c)) 0 (collect event input) (replicate (length (parties c)) [])
  else _ ← SendAsyncInternal root event input; mret [].

(** The vector versions: one buffer is sent as it is, several are serialized.
    [outputs[idx][rank] = outputs_i[idx]] for every [idx]. *)
Section Vectors.
Context `{BufferSerializer}.

Fixpoint transposed (inputs_size : nat) (rows : list (list bytes)) : list (list bytes) :=
  match rows with
  | [] => replicate inputs_size []
  | row :: rows' => zip_with cons row (transposed inputs_size rows')
  end.

Definition unpack (inputs_size : nat) (packed : list bytes) : LinkM (list (list bytes)) :=
  match mapM DeserializeArrayOfBuffers packed with
  | None => fail Thrown
  | Some rows => _ ← enforce (forallb (fun r => vsize r =? Z.of_nat inputs_size) rows);
                 mret (transposed inputs_size rows)
  end.

Definition AllGatherVectorImpl (inputs : list bytes) : LinkM (list (list bytes)) :=
  match inputs with
  | [] => mret []
  | [input] =>
      output_buffer ← AllGatherImpl input;
      c ← the_ctx;
      _ ← enforce (vsize output_buffer =? WorldSize c);
      mret [output_buffer]
  | _ =>
      all_outputs_packed ← AllGatherImpl (SerializeArrayOfBuffers inputs);
      c ← the_ctx;
      _ ← enforce (vsize all_outputs_packed =? WorldSize c);
      unpack (length inputs) all_outputs_packed
  end.

Definition GatherVectorImpl (inputs : list bytes) (root : Z) : LinkM (list (list bytes)) :=
  match inputs with
  | [] => mret []
  | [input] =>
      output_buffer ← GatherImpl input root;
      c ← the_ctx;
      if root =? Rank c
      then _ ← enforce (vsize output_buffer =? WorldSize c); mret [output_buffer]
      else _ ← enforce (vsize output_buffer =? 0); mret [[]]
  | _ =>
      all_outputs_packed ← GatherImpl (SerializeArrayOfBuffers inputs) root;
      c ← the_ctx;
      if root =? Rank c
      then _ ← enforce (vsize all_outputs_packed =? WorldSize c);
           unpack (length inputs) all_outputs_packed
      else _ ← enforce (vsize all_outputs_packed =? 0);
           mret (replicate (length inputs) [])
  end.
End Vectors.

(** *** Scatter *)

Definition scatter_to_other (event : bytes) (inputs : list bytes) (idx : Z) (_ : ()) : LinkM () :=
  c ← the_ctx;
  if idx =? Rank c then mret ()
  else v ← defined (vget inputs idx); SendAsyncInternal idx event v.

Definition Scatter (inputs : list bytes) (root : Z) : LinkM bytes :=
  event ← next_event scatter_type;
  c ← the_ctx;
  if root =? Rank c
  then _ ← enforce (vsize inputs =? WorldSize c);
       _ ← for_prog (length (parties c)) 0 (scatter_to_other event inputs) ();
       defined (vget inputs root)
  else RecvInternal root event.

(** *** Broadcast: a binomial tree over ranks relative to the root *)

Definition RingOffset (first last size : Z) : Z := size_t (size_t (last - first) + size) mod size.

Fixpoint bcast_loop (fuel : nat) (event : bytes) (vrank stride : Z) (received : bool) (output : bytes)
  : LinkM bytes :=
  if negb (0 <? stride) then mret output else
  match fuel with
  | O => fail Undefined
  | S fuel' =>
      c ← the_ctx;
      if negb received then
        if negb (vrank mod stride =? 0)
        then bcast_loop fuel' event vrank (Z.shiftr stride 1) received output
        else output' ← RecvInternal (PrevRank c stride) event;
             bcast_loop fuel' event vrank (Z.shiftr stride 1) true output'
      else
        _ ← (if size_t (vrank + stride) <? WorldSize c
             then SendAsyncInternal (NextRank c stride) event output else mret ());
        bcast_loop fuel' event vrank (Z.shiftr stride 1) received output
  end.

Definition Broadcast `{BitFloor} (input : bytes) (root : Z) : LinkM bytes :=
  event ← next_event bcast_type;
  c ← the_ctx;
  let vrank := RingOffset root (Rank c) (WorldSize c) in
  bcast_loop 65 event vrank (bit_floor (WorldSize c)) (vrank =? 0) input.

(** *** Barrier: rounds of doubling offsets *)

Fixpoint barrier_loop (fuel : nat) (event : bytes) (offset : Z) : LinkM () :=
  c ← the_ctx;
  if negb (offset <? WorldSize c) then mret () else
  match fuel with
  | O => fail Undefined
  | S fuel' =>
      let recv_rank := PrevRank c offset in
      let send_rank := NextRank c offset in
      _ ← SendAsyncInternal send_rank event [];
      _ ← RecvInternal recv_rank event;
      barrier_loop fuel' event (size_t (Z.shiftl offset 1))
  end.

Definition Barrier : LinkM () :=
  event ← next_event barrier_type; barrier_loop 65 event 1.
