(* ===== verification/CollectivesFacts.v ===== *)
(** The collective algorithms that send to every rank or to one: the calls each
    rank makes, and that every rank returns with its result; and those over a ring of
    ranks: the binomial tree of [Broadcast] and the doubling rounds of [Barrier]. *)

From Stdlib Require Import ZArith Lia ZifyBool Bool Sorted.
From stdpp Require Import base numbers list option gmap sorting.
From S2P Require Import Prelude ChannelKeys LinkProgram Context LinkGroup Collectives.

Local Open Scope Z_scope.

(** *** Calls to every other rank *)

Definition others (n i : Z) (f : Z -> call) : list call :=
  mjoin ((fun j => if j =? i then [] else [f j]) <$> seqZ 0 n).

Lemma elem_of_others n i f c : c ∈ others n i f <-> exists j, 0 <= j < n /\ j <> i /\ c = f j.
Proof.
  unfold others. rewrite list_elem_of_join. split.
  - intros (l & Hc & Hl). apply list_elem_of_fmap in Hl as (j & -> & Hj). apply elem_of_seqZ in Hj.
    destruct (Z.eqb_spec j i); [by apply not_elem_of_nil in Hc|].
    apply list_elem_of_singleton in Hc. exists j. split; [lia|done].
  - intros (j & Hj & Hne & ->). exists [f j]. split; [by left|].
    apply list_elem_of_fmap. exists j. rewrite (proj2 (Z.eqb_neq j i)) by done.
    split; [done|]. apply elem_of_seqZ. lia.
Qed.

Lemma NoDup_others n i f :
  (forall j j', 0 <= j < n -> 0 <= j' < n -> f j = f j' -> j = j') -> NoDup (others n i f).
Proof.
  intros Hf. unfold others.
  assert (H : forall l, NoDup l -> (forall j, j ∈ l -> 0 <= j < n) ->
            NoDup (mjoin ((fun j => if j =? i then [] else [f j]) <$> l))).
  { induction 1 as [|x l Hx Hl IH]; intros Hin; [constructor|]. cbn.
    apply NoDup_app. split; [destruct (x =? i); [constructor|apply NoDup_singleton]|].
    split; [|apply IH; set_solver]. intros c Hc Hc'.
    destruct (x =? i); [by apply not_elem_of_nil in Hc|].
    apply list_elem_of_singleton in Hc. subst c.
    apply list_elem_of_join in Hc' as (l' & Hc' & Hl').
    apply list_elem_of_fmap in Hl' as (j & -> & Hj). destruct (j =? i); [by apply not_elem_of_nil in Hc'|].
    apply list_elem_of_singleton in Hc'. apply Hx.
    rewrite (Hf x j); [done|apply Hin; left|apply Hin; by right|done]. }
  apply H; [apply NoDup_seqZ|]. intros j Hj. apply elem_of_seqZ in Hj. lia.
Qed.

(** Sends that come before receives are in time for every clock. *)
Lemma sends_then_receives τ l1 l2 :
  Forall (fun c => match c with Sent _ => True | _ => False end) l1 ->
  Forall (fun c => match c with Received _ => True | _ => False end) l2 ->
  StronglySorted (in_time τ) (l1 ++ l2).
Proof.
  intros H1 H2. induction H1 as [|c l1 Hc H1 IH]; cbn.
  - induction H2 as [|c l2 Hc H2 IH]; constructor; [done|].
    eapply Forall_impl; [exact H2|]. intros [m|m]; [done|]. by destruct c.
  - constructor; [done|]. apply Forall_forall. intros c' _. by destruct c.
Qed.

(** *** Values by sender and by receiver *)

Definition by_source (ph : list Z) (event : bytes) (vals : list bytes) (m : slot) : option bytes :=
  if bool_decide (m.2 = event) then programs ph vals !! m.1.1 else None.

Definition by_target (ph : list Z) (event : bytes) (vals : list bytes) (m : slot) : option bytes :=
  if bool_decide (m.2 = event) then programs ph vals !! m.1.2 else None.

Lemma programs_vget {A} ph (vals : list A) j p v :
  NoDup ph -> length vals = length ph -> vget ph j = Some p -> vget vals j = Some v ->
  programs ph vals !! p = Some v.
Proof.
  unfold vget. intros Hnd Hlen Hp Hv. destruct (0 <=? j); [|done]. by eapply lookup_programs.
Qed.

Lemma vget_at (ph : list Z) j : 0 <= j < vsize ph -> vget ph j = Some (blk ph j).
Proof. apply vget_blk. Qed.

Lemma vget_lt {A} (l : list A) i : 0 <= i < vsize l -> exists x, vget l i = Some x.
Proof. intros H. by apply vget_Some_iff. Qed.

Lemma blk_inj (ph : list Z) j j' :
  NoDup ph -> 0 <= j < vsize ph -> 0 <= j' < vsize ph -> blk ph j = blk ph j' -> j = j'.
Proof.
  intros Hnd Hj Hj' E. pose proof (vget_at ph j Hj) as H1. pose proof (vget_at ph j' Hj') as H2.
  rewrite E in H1. unfold vget in H1, H2. destruct (Z.leb_spec 0 j); [|lia]. destruct (Z.leb_spec 0 j'); [|lia].
  pose proof (NoDup_lookup ph _ _ _ Hnd H1 H2). lia.
Qed.

Lemma blk_nat (l : list Z) (i : nat) p : l !! i = Some p -> blk l (Z.of_nat i) = p.
Proof. intros H. unfold blk. by rewrite <- vget_nat, H. Qed.

(** *** Rules for the building blocks *)

Definition event_name (nm : bytes) (k : Z) (kType : bytes) : bytes :=
  collective_id nm (size_t (k + 1)) ++ colon ++ kType.

Lemma member_next ph nm k i c :
  member ph nm k i c -> member ph nm (size_t (k + 1)) i (set_counter (size_t (k + 1)) c).
Proof. by intros []. Qed.

Lemma does_next_event S p kType ph nm k i s :
  member ph nm k i (ctx s) ->
  does S p (next_event kType) s [] (event_name nm k kType) (set_counter (size_t (k + 1)) (ctx s)).
Proof.
  intros [_ _ _ <- <-]. by exists (mk_session (set_counter (size_t (counter_ (ctx s) + 1)) (ctx s)) (stats s)).
Qed.

Lemma does_the_ctx S p s : does S p the_ctx s [] (ctx s) (ctx s).
Proof. by exists s. Qed.

Lemma does_send_to_other S ph nm k i s p event input j :
  member ph nm k i (ctx s) -> 0 <= j < vsize ph ->
  (j <> i -> S (p, blk ph j, event) = Some input) ->
  does S p (send_to_other event input j ()) s
    (if j =? i then [] else [Sent (p, blk ph j, event)]) () (ctx s).
Proof.
  intros Hm Hj HS. unfold send_to_other. eapply does_bind_pure; [apply does_the_ctx|]. intros s' Hs'.
  unfold Rank. rewrite (member_rank _ _ _ _ _ Hm). rewrite <- Hs' in *.
  destruct (Z.eqb_spec j i); [apply does_ret|].
  eapply does_send; [done|by apply vget_at|done|by apply HS].
Qed.

Lemma does_collect S ph nm k i s p event input vals j t :
  member ph nm k i (ctx s) -> 0 <= j < vsize ph -> length vals = length ph -> length t = length ph ->
  vget vals i = Some input ->
  (forall v, vget vals j = Some v -> j <> i -> S (blk ph j, p, event) = Some v) ->
  exists t', does S p (collect event input j t) s
    (if j =? i then [] else [Received (blk ph j, p, event)]) t' (ctx s) /\
    exists v, vget vals j = Some v /\ vset t j v = Some t'.
Proof.
  intros Hm Hj Hlen Ht Hi HS.
  destruct (vget_lt vals j) as [v Hv]; [unfold vsize in *; lia|].
  assert (Hset : vset t j v = Some (<[Z.to_nat j := v]> t)) by (apply vset_Some; unfold vsize in *; lia).
  exists (<[Z.to_nat j := v]> t). split; [|by exists v].
  unfold collect. eapply does_bind_pure; [apply does_the_ctx|]. intros s' Hs'.
  unfold Rank. rewrite (member_rank _ _ _ _ _ Hm). rewrite <- Hs' in *.
  destruct (Z.eqb_spec j i) as [-> | Hne].
  - eapply does_bind_pure; [apply does_ret|]. intros s2 Hs2.
    assert (v = input) as -> by congruence. rewrite Hset, <- Hs2. apply does_defined.
  - apply (does_bind S p _ _ s' [_] v (ctx s') []).
    + eapply does_recv; [done|by apply vget_at|done|by apply HS].
    + intros s2 Hs2. rewrite Hset, <- Hs2. apply does_defined.
Qed.

(** The loop that collects a value from every rank. *)
Lemma does_collect_all S ph nm k i s p event input vals :
  member ph nm k i (ctx s) -> 0 <= i < vsize ph -> length vals = length ph -> vget vals i = Some input ->
  (forall j v, vget vals j = Some v -> j <> i -> S (blk ph j, p, event) = Some v) ->
  does S p (for_prog (length (parties (ctx s))) 0 (collect event input)
              (replicate (length (parties (ctx s))) [])) s
    (others (vsize ph) i (fun j => Received (blk ph j, p, event))) vals (ctx s).
Proof.
  intros Hm Hi Hlen Hv HS. rewrite (member_size _ _ _ _ _ Hm).
  destruct (does_for S p (length ph) 0 (collect event input)
    (fun j => if j =? i then [] else [Received (blk ph j, p, event)])
    (fun j t => length t = length ph /\ forall x, (x < Z.to_nat j)%nat -> t !! x = vals !! x)
    (replicate (length ph) []) s) as (t & Hd & Hlt & Hall).
  - split; [by rewrite length_replicate|]. intros x Hx. lia.
  - intros j t s' Hj [Hlt Ht] Hs'. rewrite <- Hs'.
    destruct (does_collect S ph nm k i s' p event input vals j t) as (t' & Hd & v & Hvj & Hset);
      [by rewrite Hs'|unfold vsize; lia|done|done|done|by apply HS|].
    exists t'. split; [done|]. rewrite vset_Some in Hset by (unfold vsize; lia). injection Hset as <-.
    split; [by rewrite length_insert|]. intros x Hx.
    unfold vget in Hvj. destruct (Z.leb_spec 0 j); [|done].
    destruct (decide (x = Z.to_nat j)) as [-> | Hne].
    + rewrite list_lookup_insert_eq by lia. done.
    + rewrite list_lookup_insert_ne by done. apply Ht. lia.
  - assert (t = vals) as ->; [|done]. apply list_eq. intros x.
    destruct (decide (x < length ph)%nat); [apply Hall; lia|].
    rewrite !lookup_ge_None_2 by lia. done.
Qed.

(** *** Every rank calls its operation *)

(** The rank-[i] party calls [m i] in its session. *)
Definition everyone {A} (m : Z -> LinkM A) (ss : list session) : list (prog (A * session)) :=
  imap (fun i s => m (Z.of_nat i) s) ss.

(** What a party that returned knows: its result, and that its context is ready
    for the next operation of the group. *)
Definition result {A} (ph : list Z) (nm : bytes) (k : Z) (out : Z -> A) (i : Z) (r : A * session) : Prop :=
  fst r = out i /\ member ph nm k i (ctx (snd r)).

Section Group.
Context (ph : list Z) (nm : bytes) (k : Z) (ss : list session) (Hg : group ph nm k ss).
Local Abbreviation n := (vsize ph).
Local Abbreviation k' := (size_t (k + 1)).

Lemma group_plan {A} (m : Z -> LinkM A) (out : Z -> A) S τ calls :
  (forall i s, 0 <= i < n -> member ph nm k i (ctx s) ->
     exists c, does S (blk ph i) (m i) s (calls i) (out i) c /\ member ph nm k' i c) ->
  (forall i, 0 <= i < n -> NoDup (calls i) /\ StronglySorted (in_time τ) (calls i)) ->
  (forall i x, 0 <= i < n -> Received x ∈ calls i -> exists j, 0 <= j < n /\ x.1.1 = blk ph j /\ Sent x ∈ calls j) ->
  exists rs, plan S τ (programs ph (everyone m ss)) rs /\
    forall i p, ph !! i = Some p -> exists a, rs !! p = Some a /\ result ph nm k' out (Z.of_nat i) a.
Proof.
  intros Hdoes Hord Hans. destruct Hg as [Hnd _ Hlen Hmem].
  apply (planned_return ph (everyone m ss) S τ calls); [done|by unfold everyone; rewrite length_imap| |].
  - intros i p x Hp Hx. pose proof (lookup_lt_Some _ _ _ Hp) as Hi.
    unfold everyone in Hx. rewrite list_lookup_imap in Hx.
    destruct (ss !! i) as [s|] eqn:Es; [|done]. cbn in Hx. injection Hx as <-.
    split; [|apply Hord; unfold vsize; lia].
    destruct (Hdoes (Z.of_nat i) s) as (c & (s' & Ht & Hc) & Hm'); [unfold vsize; lia|by apply Hmem|].
    rewrite (blk_nat ph i p Hp) in Ht. exists (out (Z.of_nat i), s'). split; [done|]. split; [done|].
    cbn. by rewrite Hc.
  - intros i x Hi Hx. destruct (Hans (Z.of_nat i) x) as (j & Hj & Hsrc & Hsent); [unfold vsize; lia|done|].
    exists (Z.to_nat j). rewrite Z2Nat.id by lia. split; [|done].
    rewrite Hsrc. pose proof (vget_at ph j Hj) as Hv. unfold vget in Hv. by destruct (0 <=? j).
Qed.

Lemma group_return {A} (m : Z -> LinkM A) (out : Z -> A) S τ calls :
  (forall i s, 0 <= i < n -> member ph nm k i (ctx s) ->
     exists c, does S (blk ph i) (m i) s (calls i) (out i) c /\ member ph nm k' i c) ->
  (forall i, 0 <= i < n -> NoDup (calls i) /\ StronglySorted (in_time τ) (calls i)) ->
  (forall i x, 0 <= i < n -> Received x ∈ calls i -> exists j, 0 <= j < n /\ x.1.1 = blk ph j /\ Sent x ∈ calls j) ->
  all_return ph (everyone m ss) (result ph nm k' out).
Proof.
  intros H1 H2 H3. destruct (group_plan m out S τ calls H1 H2 H3) as (rs & Hplan & Hrs).
  exists rs. split; [by eapply plan_completes|done].
Qed.

(** The event of the operation, and the context to go on with. *)
Lemma does_with_event {A} S p kType (f : bytes -> Context -> LinkM A) i s l a c' :
  member ph nm k i (ctx s) ->
  (forall s', ctx s' = set_counter k' (ctx s) -> member ph nm k' i (ctx s') ->
     does S p (f (event_name nm k kType) (ctx s')) s' l a c') ->
  does S p (event ← next_event kType; c ← the_ctx; f event c) s l a c'.
Proof.
  intros Hm Hf. eapply does_bind_pure; [by eapply does_next_event|]. intros s1 Hs1.
  eapply does_bind_pure; [apply does_the_ctx|]. intros s2 Hs2. rewrite <- Hs2. apply Hf; [congruence|].
  rewrite Hs2, Hs1. by apply member_next.
Qed.

Local Hint Resolve member_next : core.

(** *** AllGather *)

Lemma by_source_at event vals j v q :
  length vals = length ph -> vget vals j = Some v -> by_source ph event vals (blk ph j, q, event) = Some v.
Proof.
  intros Hlen Hj. unfold by_source. rewrite bool_decide_eq_true_2 by done.
  apply (programs_vget ph vals j); [apply Hg|done|apply vget_at|done].
  assert (Hr : 0 <= j < vsize vals) by (apply vget_Some_iff; by eexists). unfold vsize in *. lia.
Qed.

Lemma others_sends (f : Z -> slot) i : Forall (fun c => match c with Sent _ => True | _ => False end)
  (others n i (fun j => Sent (f j))).
Proof. apply Forall_forall. by intros c (j & _ & _ & ->)%elem_of_others. Qed.

Lemma others_receives (f : Z -> slot) i : Forall (fun c => match c with Received _ => True | _ => False end)
  (others n i (fun j => Received (f j))).
Proof. apply Forall_forall. by intros c (j & _ & _ & ->)%elem_of_others. Qed.

Definition allgather_calls (event : bytes) (i : Z) : list call :=
  others n i (fun j => Sent (blk ph i, blk ph j, event)) ++
  others n i (fun j => Received (blk ph j, blk ph i, event)).

Lemma does_AllGather vals i input s :
  length vals = length ph -> 0 <= i < n -> vget vals i = Some input -> member ph nm k i (ctx s) ->
  let event := event_name nm k allgather_type in
  does (by_source ph event vals) (blk ph i) (AllGatherImpl input) s (allgather_calls event i) vals
    (set_counter k' (ctx s)).
Proof.
  intros Hlen Hi Hv Hm event. apply (does_with_event _ _ _ _ i); [done|]. intros s1 Hs1 Hm1. rewrite <- Hs1.
  apply does_bind with () (ctx s1).
  - destruct (does_for (by_source ph event vals) (blk ph i) (length ph) 0 (send_to_other event input)
      (fun j => if j =? i then [] else [Sent (blk ph i, blk ph j, event)]) (fun _ _ => True) () s1)
      as ([] & Hd & _); [done| |by rewrite (member_size _ _ _ _ _ Hm1)].
    intros j [] s' Hj _ Hs'. exists (). split; [|done]. rewrite <- Hs'.
    eapply does_send_to_other; [by rewrite Hs'|unfold vsize; lia|]. intros _. by apply by_source_at.
  - intros s2 Hs2. rewrite <- Hs2. eapply does_collect_all; [by rewrite Hs2|done|done|done|].
    intros j v Hj _. by apply by_source_at.
Qed.

(** Any operation that makes the calls of [AllGather] returns everywhere. *)
Lemma allgather_group {A} event (m : Z -> LinkM A) out S :
  (forall i s, 0 <= i < n -> member ph nm k i (ctx s) ->
     exists c, does S (blk ph i) (m i) s (allgather_calls event i) (out i) c /\ member ph nm k' i c) ->
  all_return ph (everyone m ss) (result ph nm k' out).
Proof.
  intros Hdoes. pose proof (group_parties _ _ _ _ Hg) as Hnd.
  apply (group_return _ _ S (fun _ => 0%nat) (allgather_calls event)); [done| |].
  - intros i Hi. split; [|apply sends_then_receives; [apply others_sends|apply others_receives]].
    apply NoDup_app. split; [|split].
    + apply NoDup_others. intros j j' Hj Hj' [= E]. by apply (blk_inj ph).
    + intros c (j & _ & _ & ->)%elem_of_others (j' & _ & _ & E)%elem_of_others. done.
    + apply NoDup_others. intros j j' Hj Hj' [= E]. by apply (blk_inj ph).
  - intros i x Hi [(j & _ & _ & E)%elem_of_others | (j & Hj & Hne & E)%elem_of_others]%elem_of_app; [done|].
    injection E as ->. exists j. split; [done|]. split; [done|].
    apply elem_of_app. left. apply elem_of_others. exists i. done.
Qed.

Lemma allgather_return (vals : list bytes) :
  length vals = length ph ->
  all_return ph (everyone (fun i => AllGatherImpl (default [] (vget vals i))) ss)
    (result ph nm k' (fun _ => vals)).
Proof.
  intros Hlen. apply (allgather_group (event_name nm k allgather_type) _ _
    (by_source ph (event_name nm k allgather_type) vals)).
  intros i s Hi Hm. exists (set_counter k' (ctx s)). split; [|by auto].
  destruct (vget_lt vals i) as [v Hv]; [unfold vsize in *; lia|]. rewrite Hv. by apply does_AllGather.
Qed.

(** *** Gather *)

Definition gather_calls (event : bytes) (root i : Z) : list call :=
  if i =? root then others n root (fun j => Received (blk ph j, blk ph root, event))
  else [Sent (blk ph i, blk ph root, event)].

Lemma does_Gather vals root i input s :
  length vals = length ph -> 0 <= root < n -> 0 <= i < n -> vget vals i = Some input ->
  member ph nm k i (ctx s) ->
  let event := event_name nm k gather_type in
  does (by_source ph event vals) (blk ph i) (GatherImpl input root) s (gather_calls event root i)
    (if i =? root then vals else []) (set_counter k' (ctx s)).
Proof.
  intros Hlen Hroot Hi Hv Hm event. apply (does_with_event _ _ _ _ i); [done|]. intros s1 Hs1 Hm1.
  rewrite <- Hs1. unfold Rank, gather_calls. rewrite (member_rank _ _ _ _ _ Hm1), (Z.eqb_sym i root).
  destruct (Z.eqb_spec root i) as [-> | Hne].
  - eapply does_collect_all; [done|done|done|done|]. intros j v Hj _. by apply by_source_at.
  - apply (does_bind _ _ _ _ _ [_] () (ctx s1) []).
    + eapply does_send; [done|by apply vget_at|done|by apply by_source_at].
    + intros s2 <-. apply does_ret.
Qed.

Lemma gather_group {A} event root (m : Z -> LinkM A) out S :
  0 <= root < n ->
  (forall i s, 0 <= i < n -> member ph nm k i (ctx s) ->
     exists c, does S (blk ph i) (m i) s (gather_calls event root i) (out i) c /\ member ph nm k' i c) ->
  all_return ph (everyone m ss) (result ph nm k' out).
Proof.
  intros Hroot Hdoes. pose proof (group_parties _ _ _ _ Hg) as Hnd.
  apply (group_return _ _ S (fun _ => 0%nat) (gather_calls event root)); [done| |].
  - intros i Hi. unfold gather_calls. destruct (i =? root).
    + split; [|apply (sends_then_receives _ []); [constructor|apply others_receives]].
      apply NoDup_others. intros j j' Hj Hj' [= E]. by apply (blk_inj ph).
    + split; [apply NoDup_singleton|by repeat constructor].
  - intros i x Hi. unfold gather_calls at 1. destruct (Z.eqb_spec i root) as [-> | Hne].
    + intros (j & Hj & Hne & E)%elem_of_others. injection E as ->. exists j. split; [done|]. split; [done|].
      unfold gather_calls. rewrite (proj2 (Z.eqb_neq j root)) by done. left.
    + intros E%list_elem_of_singleton. done.
Qed.

Lemma gather_return (vals : list bytes) root :
  length vals = length ph -> 0 <= root < n ->
  all_return ph (everyone (fun i => GatherImpl (default [] (vget vals i)) root) ss)
    (result ph nm k' (fun i => if i =? root then vals else [])).
Proof.
  intros Hlen Hroot. apply (gather_group (event_name nm k gather_type) root _ _
    (by_source ph (event_name nm k gather_type) vals) Hroot).
  intros i s Hi Hm. exists (set_counter k' (ctx s)). split; [|by auto].
  destruct (vget_lt vals i) as [v Hv]; [unfold vsize in *; lia|]. rewrite Hv. by apply does_Gather.
Qed.

(** *** Scatter *)

Definition scatter_calls (event : bytes) (root i : Z) : list call :=
  if i =? root then others n root (fun j => Sent (blk ph root, blk ph j, event))
  else [Received (blk ph root, blk ph i, event)].

Lemma by_target_at event vals j v q :
  length vals = length ph -> vget vals j = Some v -> by_target ph event vals (q, blk ph j, event) = Some v.
Proof.
  intros Hlen Hj. unfold by_target. rewrite bool_decide_eq_true_2 by done.
  apply (programs_vget ph vals j); [apply Hg|done|apply vget_at|done].
  assert (Hr : 0 <= j < vsize vals) by (apply vget_Some_iff; by eexists). unfold vsize in *. lia.
Qed.

Lemma does_scatter_to_other vals root j event s :
  length vals = length ph -> 0 <= j < n -> member ph nm k' root (ctx s) ->
  does (by_target ph event vals) (blk ph root) (scatter_to_other event vals j ()) s
    (if j =? root then [] else [Sent (blk ph root, blk ph j, event)]) () (ctx s).
Proof.
  intros Hlen Hj Hm. unfold scatter_to_other. eapply does_bind_pure; [apply does_the_ctx|]. intros s' Hs'.
  unfold Rank. rewrite (member_rank _ _ _ _ _ Hm). rewrite <- Hs' in *.
  destruct (Z.eqb_spec j root); [apply does_ret|].
  destruct (vget_lt vals j) as [v Hv]; [unfold vsize in *; lia|]. rewrite Hv.
  eapply does_bind_pure; [apply does_defined|]. intros s2 Hs2. rewrite <- Hs2 in *.
  eapply does_send; [done|by apply vget_at|done|by apply by_target_at].
Qed.

Lemma does_Scatter vals root i args s :
  length vals = length ph -> 0 <= root < n -> 0 <= i < n -> (i = root -> args = vals) ->
  member ph nm k i (ctx s) ->
  let event := event_name nm k scatter_type in
  does (by_target ph event vals) (blk ph i) (Scatter args root) s (scatter_calls event root i)
    (default [] (vget vals i)) (set_counter k' (ctx s)).
Proof.
  intros Hlen Hroot Hi Hargs Hm event. apply (does_with_event _ _ _ _ i); [done|]. intros s1 Hs1 Hm1.
  rewrite <- Hs1. unfold Rank, scatter_calls. rewrite (member_rank _ _ _ _ _ Hm1), (Z.eqb_sym i root).
  destruct (vget_lt vals i) as [v Hv]; [unfold vsize in *; lia|].
  destruct (Z.eqb_spec root i) as [-> | Hne].
  - rewrite (Hargs eq_refl), Hv. unfold WorldSize, vsize. rewrite (member_size _ _ _ _ _ Hm1), Hlen.
    rewrite Z.eqb_refl. eapply does_bind_pure; [apply does_enforce|]. intros s2 Hs2. rewrite <- Hs2.
    rewrite <- (app_nil_r (others _ _ _)). apply does_bind with () (ctx s2).
    + destruct (does_for (by_target ph event vals) (blk ph i) (length ph) 0 (scatter_to_other event vals)
        (fun j => if j =? i then [] else [Sent (blk ph i, blk ph j, event)]) (fun _ _ => True) () s2)
        as ([] & Hd & _); [done| |done].
      intros j [] s' Hj _ Hs'. exists (). split; [|done]. rewrite <- Hs'.
      apply does_scatter_to_other; [done|unfold vsize; lia|by rewrite Hs', Hs2].
    + intros s3 Hs3. rewrite <- Hs3. apply does_defined.
  - rewrite Hv. eapply does_recv; [done|by apply vget_at|done|by apply by_target_at].
Qed.

Lemma scatter_return (args : Z -> list bytes) root :
  length (args root) = length ph -> 0 <= root < n ->
  all_return ph (everyone (fun i => Scatter (args i) root) ss)
    (result ph nm k' (fun i => default [] (vget (args root) i))).
Proof.
  intros Hlen Hroot. set (event := event_name nm k scatter_type).
  pose proof (group_parties _ _ _ _ Hg) as Hnd.
  apply (group_return _ _ (by_target ph event (args root)) (fun _ => 0%nat) (scatter_calls event root)).
  - intros i s Hi Hm. exists (set_counter k' (ctx s)). split; [|by auto].
    apply does_Scatter; [done|done|done|by intros ->|done].
  - intros i Hi. unfold scatter_calls. destruct (i =? root).
    + split; [|rewrite <- (app_nil_r (others _ _ _)); apply sends_then_receives; [apply others_sends|constructor]].
      apply NoDup_others. intros j j' Hj Hj' [= E]. by apply (blk_inj ph).
    + split; [apply NoDup_singleton|by repeat constructor].
  - intros i x Hi. unfold scatter_calls at 1. destruct (Z.eqb_spec i root) as [-> | Hne].
    + by intros (j & _ & _ & E)%elem_of_others.
    + intros E%list_elem_of_singleton. injection E as ->. exists root. split; [done|]. split; [done|].
      unfold scatter_calls. rewrite Z.eqb_refl. apply elem_of_others. by exists i.
Qed.
End Group.

(** *** Ring arithmetic *)

Lemma size_t_small x : 0 <= x < 2 ^ 64 -> size_t x = x.
Proof. intros H. unfold size_t. by apply Z.mod_small. Qed.

(** [(i - s + n) % n] on wrapping words. *)
Lemma ring_back i s n : 0 <= i < n -> 0 <= s <= n -> n < 2 ^ 60 ->
  size_t (size_t (i - s) + n) mod n = (i - s) mod n.
Proof.
  intros Hi Hs Hn. unfold size_t. rewrite Zplus_mod_idemp_l.
  rewrite (Z.mod_small (i - s + n)) by lia. rewrite <- (Z_mod_plus_full (i - s) 1 n). f_equal. lia.
Qed.

Lemma ring_mod a n : 0 < n -> (0 <= a < n -> a mod n = a) /\ (n <= a < 2 * n -> a mod n = a - n) /\
  (- n <= a < 0 -> a mod n = a + n).
Proof.
  intros Hn. split; [|split]; intros Ha.
  - by apply Z.mod_small.
  - rewrite <- (Z.mod_small (a - n) n) by lia. rewrite <- (Z_mod_plus_full (a - n) 1 n). f_equal. lia.
  - rewrite <- (Z.mod_small (a + n) n) by lia. rewrite <- (Z_mod_plus_full a 1 n). f_equal. lia.
Qed.

(** Decide [a mod n] by which turn of the ring [a] is in. *)
Ltac ring_case a n :=
  let H := fresh "Hring" in
  pose proof (ring_mod a n ltac:(lia)) as H;
  let r := fresh "r" in set (r := a mod n) in *; clearbody r.

Lemma ring_next_prev i s n : 0 <= i < n -> 0 <= s < n -> ((i + s) mod n - s) mod n = i.
Proof. intros Hi Hs. ring_case (i + s) n. ring_case (r - s) n. lia. Qed.

Lemma ring_prev_next i s n : 0 <= i < n -> 0 <= s < n -> ((i - s) mod n + s) mod n = i.
Proof. intros Hi Hs. ring_case (i - s) n. ring_case (r + s) n. lia. Qed.

Lemma ring_next_inj i s s' n :
  0 <= i < n -> 0 <= s < n -> 0 <= s' < n -> (i + s) mod n = (i + s') mod n -> s = s'.
Proof. intros Hi Hs Hs'. ring_case (i + s) n. ring_case (i + s') n. lia. Qed.

Lemma ring_prev_inj i s s' n :
  0 <= i < n -> 0 <= s < n -> 0 <= s' < n -> (i - s) mod n = (i - s') mod n -> s = s'.
Proof. intros Hi Hs Hs'. ring_case (i - s) n. ring_case (i - s') n. lia. Qed.

Lemma ring_next_ne i s n : 0 <= i < n -> 0 < s < n -> (i + s) mod n <> i.
Proof. intros Hi Hs. ring_case (i + s) n. lia. Qed.

Lemma ring_prev_ne i s n : 0 <= i < n -> 0 < s < n -> (i - s) mod n <> i.
Proof. intros Hi Hs. ring_case (i - s) n. lia. Qed.

Lemma pow2_double e : 0 <= e -> 2 ^ (e + 1) = 2 * 2 ^ e.
Proof. intros He. rewrite Z.pow_add_r by lia. lia. Qed.

Lemma pow2_pos e : 0 < 2 ^ Z.of_nat e.
Proof. lia. Qed.

Lemma pow2_S e : 2 ^ Z.of_nat (S e) = 2 * 2 ^ Z.of_nat e.
Proof. rewrite Nat2Z.inj_succ, Z.pow_succ_r by lia. lia. Qed.

Lemma half_pow2 e : Z.shiftr (2 ^ Z.of_nat (S e)) 1 = 2 ^ Z.of_nat e.
Proof. rewrite Z.shiftr_div_pow2 by lia. rewrite pow2_S, Z.pow_1_r. rewrite Z.mul_comm. by apply Z.div_mul. Qed.

Section Ring.
Context (ph : list Z) (nm : bytes) (k : Z) (ss : list session) (Hg : group ph nm k ss).
Local Abbreviation n := (vsize ph).
Local Abbreviation k' := (size_t (k + 1)).

Lemma member_next_rank kk i s c : member ph nm kk i c -> 0 <= i < n -> 0 <= s <= n -> NextRank c s = (i + s) mod n.
Proof.
  intros Hm Hi Hs. pose proof (group_bound _ _ _ _ Hg). unfold NextRank, WorldSize, vsize in *.
  rewrite (member_size _ _ _ _ _ Hm), (member_rank _ _ _ _ _ Hm). by rewrite size_t_small by lia.
Qed.

Lemma member_prev_rank kk i s c : member ph nm kk i c -> 0 <= i < n -> 0 <= s <= n -> PrevRank c s = (i - s) mod n.
Proof.
  intros Hm Hi Hs. pose proof (group_bound _ _ _ _ Hg). unfold PrevRank, WorldSize, vsize in *.
  rewrite (member_size _ _ _ _ _ Hm), (member_rank _ _ _ _ _ Hm). by apply ring_back.
Qed.

Lemma mod_range x : 0 < n -> 0 <= x mod n < n.
Proof. intros. by apply Z.mod_pos_bound. Qed.

(** *** Broadcast *)

Section Broadcast.
Context (event value : bytes) (root : Z) (Hroot : 0 <= root < n).

Definition bcast_values (m : slot) : option bytes := if bool_decide (m.2 = event) then Some value else None.

(** The sends of the strides below [2 ^ e] at virtual rank [v]. *)
Fixpoint bcast_sends (i v : Z) (e : nat) : list call :=
  match e with
  | O => []
  | S e' => (if v + 2 ^ Z.of_nat e' <? n
             then [Sent (blk ph i, blk ph ((i + 2 ^ Z.of_nat e') mod n), event)] else []) ++
            bcast_sends i v e'
  end.

(** The receive at the first stride that divides the rank, then the sends. *)
Fixpoint bcast_waits (i v : Z) (e : nat) : list call :=
  match e with
  | O => []
  | S e' => if v mod 2 ^ Z.of_nat e' =? 0
            then Received (blk ph ((i - 2 ^ Z.of_nat e') mod n), blk ph i, event) :: bcast_sends i v e'
            else bcast_waits i v e'
  end.

Lemma elem_of_bcast_sends i v e c : c ∈ bcast_sends i v e <->
  exists e', (e' < e)%nat /\ v + 2 ^ Z.of_nat e' < n /\
    c = Sent (blk ph i, blk ph ((i + 2 ^ Z.of_nat e') mod n), event).
Proof.
  induction e as [|e IH]; cbn [bcast_sends].
  - split; [intros H; by apply not_elem_of_nil in H|intros (e' & He & _); lia].
  - rewrite elem_of_app, IH. split.
    + intros [H | (e' & He & H)]; [|exists e'; split; [lia|done]].
      destruct (Z.ltb_spec (v + 2 ^ Z.of_nat e) n); [|by apply not_elem_of_nil in H].
      apply list_elem_of_singleton in H. exists e. split; [lia|done].
    + intros (e' & He & Hv & ->). destruct (decide (e' = e)) as [-> | Hne].
      * left. rewrite (proj2 (Z.ltb_lt _ _)) by done. left.
      * right. exists e'. split; [lia|done].
Qed.

Lemma NoDup_bcast_sends i v e : 0 <= i < n -> 0 <= v -> NoDup (bcast_sends i v e).
Proof.
  intros Hi Hv. induction e as [|e IH]; cbn [bcast_sends]; [constructor|].
  apply NoDup_app. split; [destruct (_ <? _); [apply NoDup_singleton|constructor]|]. split; [|done].
  intros c Hc (e' & He & Hv' & E)%elem_of_bcast_sends.
  destruct (Z.ltb_spec (v + 2 ^ Z.of_nat e) n); [|by apply not_elem_of_nil in Hc].
  apply list_elem_of_singleton in Hc. rewrite Hc in E. injection E as E.
  pose proof (group_parties _ _ _ _ Hg) as Hnd.
  apply (blk_inj ph) in E; [|done|apply mod_range; lia|apply mod_range; lia].
  apply ring_next_inj in E; [|done|lia|lia].
  apply Z.pow_inj_r in E; lia.
Qed.

(** After the value is there: the loop sends it on. *)
Lemma does_bcast_sends e fuel i v s :
  (e <= fuel)%nat -> member ph nm k' i (ctx s) -> 0 <= i < n -> 0 <= v < n -> 2 ^ Z.of_nat e <= 2 * n ->
  does bcast_values (blk ph i) (bcast_loop fuel event v (Z.shiftr (2 ^ Z.of_nat e) 1) true value) s
    (bcast_sends i v e) value (ctx s).
Proof.
  revert fuel s. induction e as [|e IH]; intros fuel s Hf Hm Hi Hv He.
  - destruct fuel; apply does_ret.
  - destruct fuel as [|fuel]; [lia|]. rewrite half_pow2. pose proof (pow2_pos e) as Hp.
    rewrite pow2_S in He. cbn [bcast_loop]. rewrite (proj2 (Z.ltb_lt _ _)) by lia. cbn [negb].
    eapply does_bind_pure; [apply does_the_ctx|]. intros s1 Hs1. cbn [negb bcast_sends].
    pose proof (group_bound _ _ _ _ Hg) as Hb. unfold WorldSize.
    assert (Hn : vsize (parties (ctx s)) = n) by (unfold vsize; by rewrite (member_size _ _ _ _ _ Hm)).
    rewrite Hn, size_t_small by lia. rewrite <- Hs1 in *.
    apply does_bind with () (ctx s1).
    + destruct (Z.ltb_spec (v + 2 ^ Z.of_nat e) n) as [Hlt | Hge]; [|apply does_ret].
      rewrite (member_next_rank k' i) by (done || lia).
      eapply does_send; [done|apply vget_at, mod_range; lia| |].
      * apply ring_next_ne; lia.
      * unfold bcast_values. by rewrite bool_decide_eq_true_2.
    + intros s2 Hs2. rewrite <- Hs2 in *. apply IH; [lia|done|done|done|lia].
Qed.

(** Before: the loop waits for the first stride that divides its rank. *)
Lemma does_bcast_waits e fuel i v s own :
  (0 < e <= fuel)%nat -> member ph nm k' i (ctx s) -> 0 <= i < n -> 0 < v < n -> 2 ^ Z.of_nat e <= 2 * n ->
  does bcast_values (blk ph i) (bcast_loop fuel event v (Z.shiftr (2 ^ Z.of_nat e) 1) false own) s
    (bcast_waits i v e) value (ctx s).
Proof.
  revert fuel s. induction e as [|e IH]; intros fuel s Hf Hm Hi Hv He; [lia|].
  destruct fuel as [|fuel]; [lia|]. rewrite half_pow2. pose proof (pow2_pos e) as Hp.
  rewrite pow2_S in He. cbn [bcast_loop]. rewrite (proj2 (Z.ltb_lt _ _)) by lia. cbn [negb].
  eapply does_bind_pure; [apply does_the_ctx|]. intros s1 Hs1. cbn [negb bcast_waits].
  rewrite <- Hs1 in *. destruct (Z.eqb_spec (v mod 2 ^ Z.of_nat e) 0) as [Hd | Hd]; cbn [negb].
  - assert (Hle : 2 ^ Z.of_nat e <= v) by (apply Z.divide_pos_le; [lia|by apply Z.mod_divide; [lia|]]).
    apply (does_bind _ _ _ _ _ [_] value (ctx s1)).
    + rewrite (member_prev_rank k' i) by (done || lia).
      eapply does_recv; [done|apply vget_at, mod_range; lia|apply ring_prev_ne; lia|].
      unfold bcast_values. by rewrite bool_decide_eq_true_2.
    + intros s2 Hs2. rewrite <- Hs2 in *. apply does_bcast_sends; [lia|done|done|lia|lia].
  - assert (e <> 0%nat) by (intros ->; apply Hd, Z.mod_1_r). apply IH; [lia|done|done|done|lia].
Qed.

(** The stride a rank receives at: the lowest bit of its virtual rank. *)
Lemma bcast_waits_at i v e : 0 < v < 2 ^ Z.of_nat e ->
  exists e0, (e0 < e)%nat /\ v mod 2 ^ Z.of_nat (S e0) = 2 ^ Z.of_nat e0 /\
    bcast_waits i v e = Received (blk ph ((i - 2 ^ Z.of_nat e0) mod n), blk ph i, event) :: bcast_sends i v e0.
Proof.
  intros Hv. assert (H : v mod 2 ^ Z.of_nat e <> 0) by (rewrite Z.mod_small by lia; lia). clear Hv.
  induction e as [|e IH]; [by rewrite Z.mod_1_r in H|]. cbn [bcast_waits].
  destruct (Z.eqb_spec (v mod 2 ^ Z.of_nat e) 0) as [Hd | Hd].
  - exists e. split; [lia|]. split; [|done]. pose proof (pow2_pos e) as Hp. rewrite pow2_S in H |- *.
    apply Z.mod_divide in Hd as [q ->]; [|lia]. rewrite Z.mul_mod_distr_r in H |- * by lia.
    pose proof (Z.mod_pos_bound q 2 ltac:(lia)). assert (q mod 2 = 1) as -> by lia. lia.
  - destruct (IH Hd) as (e0 & He & H0 & ->). exists e0. split; [lia|done].
Qed.

(** A rank whose number is a multiple of [2 ^ (e0 + 1)] sends at stride [2 ^ e0]. *)
Lemma bcast_waits_sends i v e e0 :
  (e0 < e)%nat -> 0 < v < 2 ^ Z.of_nat e -> v mod 2 ^ Z.of_nat (S e0) = 0 -> v + 2 ^ Z.of_nat e0 < n ->
  Sent (blk ph i, blk ph ((i + 2 ^ Z.of_nat e0) mod n), event) ∈ bcast_waits i v e.
Proof.
  intros He Hv Hd Hlt. destruct (bcast_waits_at i v e Hv) as (e1 & He1 & H1 & ->).
  right. apply elem_of_bcast_sends. exists e0. split; [|done].
  destruct (decide (e0 < e1)%nat) as [|Hge]; [done|]. exfalso.
  apply Z.mod_divide in Hd as [q Hq]; [|lia].
  pose proof (pow2_pos e1) as Hp.
  assert (Hdv : (2 ^ Z.of_nat (S e1) | 2 ^ Z.of_nat (S e0))).
  { exists (2 ^ (Z.of_nat (S e0) - Z.of_nat (S e1))). rewrite <- Z.pow_add_r by lia. f_equal. lia. }
  destruct Hdv as [q' Hq']. rewrite Hq, Hq', Z.mul_assoc, Z.mod_mul in H1 by lia. lia.
Qed.

Definition vrank (i : Z) : Z := (i - root) mod n.

Definition bcast_calls (e : nat) (i : Z) : list call :=
  if vrank i =? 0 then bcast_sends i (vrank i) e else bcast_waits i (vrank i) e.

(** The time of a slot: the virtual rank of its receiver. *)
Definition bcast_time (m : slot) : nat :=
  Z.to_nat (vrank (default 0 (programs ph (seqZ 0 n) !! m.1.2))).

Lemma bcast_time_at p i key : 0 <= i < n -> bcast_time (p, blk ph i, key) = Z.to_nat (vrank i).
Proof.
  intros Hi. unfold bcast_time. cbn [fst snd].
  rewrite (programs_vget ph (seqZ 0 n) i (blk ph i) i); [done|apply Hg| |by apply vget_at|].
  - rewrite length_seqZ. unfold vsize. lia.
  - unfold vget. rewrite (proj2 (Z.leb_le _ _)) by lia. rewrite lookup_seqZ. lia.
Qed.

Lemma vrank_next i s : 0 <= i < n -> 0 <= s -> vrank i + s < n -> vrank ((i + s) mod n) = vrank i + s.
Proof.
  intros Hi Hs. unfold vrank. ring_case (i - root) (vsize ph). intros Hlt. ring_case (i + s) (vsize ph). ring_case (r0 - root) (vsize ph). lia.
Qed.

Lemma vrank_prev i s : 0 <= i < n -> 0 <= s -> 0 <= vrank i - s -> vrank ((i - s) mod n) = vrank i - s.
Proof.
  intros Hi Hs. unfold vrank. ring_case (i - root) (vsize ph). intros Hlt. ring_case (i - s) (vsize ph). ring_case (r0 - root) (vsize ph). lia.
Qed.

Lemma sorted_sends τ l :
  Forall (fun c => match c with Sent _ => True | _ => False end) l -> StronglySorted (in_time τ) l.
Proof. intros H. rewrite <- (app_nil_r l). by apply sends_then_receives. Qed.

Lemma bcast_sends_all i v e : Forall (fun c => match c with Sent _ => True | _ => False end) (bcast_sends i v e).
Proof. apply Forall_forall. by intros c (e' & _ & _ & ->)%elem_of_bcast_sends. Qed.

Lemma bcast_calls_in_time e i : 0 <= i < n -> n <= 2 ^ Z.of_nat e ->
  NoDup (bcast_calls e i) /\ StronglySorted (in_time bcast_time) (bcast_calls e i).
Proof.
  intros Hi He. pose proof (mod_range (i - root) ltac:(lia)) as Hv. fold (vrank i) in Hv. unfold bcast_calls.
  destruct (Z.eqb_spec (vrank i) 0) as [H0 | H0].
  { split; [apply NoDup_bcast_sends; lia|apply sorted_sends, bcast_sends_all]. }
  destruct (bcast_waits_at i (vrank i) e ltac:(lia)) as (e0 & _ & _ & ->). split.
  - constructor; [|apply NoDup_bcast_sends; lia]. by intros (e' & _ & _ & E)%elem_of_bcast_sends.
  - constructor; [apply sorted_sends, bcast_sends_all|].
    apply Forall_forall. intros c (e' & He' & Hlt & ->)%elem_of_bcast_sends. cbn [in_time].
    rewrite !bcast_time_at by (done || (apply mod_range; lia)).
    pose proof (pow2_pos e'). rewrite vrank_next by lia. lia.
Qed.

Lemma bcast_calls_answered e i x : 0 <= i < n -> n <= 2 ^ Z.of_nat e -> Received x ∈ bcast_calls e i ->
  exists j, 0 <= j < n /\ x.1.1 = blk ph j /\ Sent x ∈ bcast_calls e j.
Proof.
  intros Hi He. pose proof (mod_range (i - root) ltac:(lia)) as Hv. fold (vrank i) in Hv.
  unfold bcast_calls at 1. destruct (Z.eqb_spec (vrank i) 0) as [H0 | H0].
  { by intros (e' & _ & _ & E)%elem_of_bcast_sends. }
  destruct (bcast_waits_at i (vrank i) e ltac:(lia)) as (e0 & He0 & Hbit & ->).
  intros [E | (e' & _ & _ & E)%elem_of_bcast_sends]%elem_of_cons; [|done]. injection E as ->.
  pose proof (pow2_pos e0) as Hp. exists ((i - 2 ^ Z.of_nat e0) mod n). cbn [fst snd].
  pose proof (Z.div_mod (vrank i) (2 ^ Z.of_nat (S e0)) ltac:(lia)) as Hdm. rewrite Hbit in Hdm.
  assert (Hq : 0 <= vrank i / 2 ^ Z.of_nat (S e0)) by (apply Z.div_pos; lia).
  set (q := vrank i / 2 ^ Z.of_nat (S e0)) in *. clearbody q.
  assert (Hle : 2 ^ Z.of_nat e0 <= vrank i) by (pose proof (pow2_pos (S e0)); nia).
  pose proof (vrank_prev i (2 ^ Z.of_nat e0) Hi ltac:(lia) ltac:(lia)) as Hj.
  assert (Hjr : 0 <= (i - 2 ^ Z.of_nat e0) mod n < n) by (apply mod_range; lia).
  assert (Hback : ((i - 2 ^ Z.of_nat e0) mod n + 2 ^ Z.of_nat e0) mod n = i) by (apply ring_prev_next; lia).
  split; [done|]. split; [done|]. unfold bcast_calls.
  rewrite <- Hback at 2. destruct (Z.eqb_spec (vrank ((i - 2 ^ Z.of_nat e0) mod n)) 0) as [Hz | Hnz].
  - apply elem_of_bcast_sends. exists e0. split; [done|]. split; [lia|done].
  - apply bcast_waits_sends; [done|lia| |lia]. rewrite Hj, Hdm.
    rewrite Z.add_simpl_r, Z.mul_comm. apply Z.mod_mul. lia.
Qed.
End Broadcast.

Lemma broadcast_return `{BitFloor} (inputs : Z -> bytes) root :
  0 <= root < n ->
  all_return ph (everyone (fun i => Broadcast (inputs i) root) ss)
    (result ph nm k' (fun _ => inputs root)).
Proof.
  intros Hroot. pose proof (group_bound _ _ _ _ Hg) as Hb.
  destruct (bit_floor_spec n ltac:(lia)) as (E & HE & Hfl & Hn).
  set (e := S (Z.to_nat E)). assert (He : 2 ^ Z.of_nat e = 2 * 2 ^ E).
  { unfold e. by rewrite pow2_S, Z2Nat.id. }
  assert (Hsh : Z.shiftr (2 ^ Z.of_nat e) 1 = bit_floor n).
  { unfold e. by rewrite half_pow2, Z2Nat.id. }
  assert (Hfuel : (0 < e <= 65)%nat).
  { unfold e. assert (E < 64); [|lia]. apply (Z.pow_lt_mono_r_iff 2); lia. }
  set (event := event_name nm k bcast_type).
  apply (group_return ph nm k ss Hg _ _ (bcast_values event (inputs root)) (bcast_time root)
           (bcast_calls event root e)).
  - intros i s Hi Hm. exists (set_counter k' (ctx s)). split; [|by apply member_next].
    apply (does_with_event ph nm k _ _ _ _ i); [done|]. intros s1 Hs1 Hm1. rewrite <- Hs1.
    assert (Hw : WorldSize (ctx s1) = n) by (unfold WorldSize, vsize; by rewrite (member_size _ _ _ _ _ Hm1)).
    rewrite Hw, <- Hsh. unfold Rank, RingOffset. rewrite (member_rank _ _ _ _ _ Hm1), ring_back by lia.
    fold (vrank root i). pose proof (mod_range (i - root) ltac:(lia)) as Hv. fold (vrank root i) in Hv.
    unfold bcast_calls. destruct (Z.eqb_spec (vrank root i) 0) as [H0 | H0].
    + assert (i = root) as ->. { unfold vrank in H0. ring_case (i - root) (vsize ph). lia. }
      apply does_bcast_sends; [lia|done|done|done|lia].
    + apply does_bcast_waits; [lia|done|done|lia|lia].
  - intros i Hi. apply bcast_calls_in_time; [done|done|lia].
  - intros i x Hi. apply bcast_calls_answered; [done|done|lia].
Qed.

(** *** Barrier *)

Section Barrier.
Context (event : bytes).

Definition barrier_values (m : slot) : option bytes := if bool_decide (m.2 = event) then Some [] else None.

Definition to_next (i : Z) (e : nat) : slot := (blk ph i, blk ph ((i + 2 ^ Z.of_nat e) mod n), event).
Definition from_prev (i : Z) (e : nat) : slot := (blk ph ((i - 2 ^ Z.of_nat e) mod n), blk ph i, event).

(** The calls of [m] rounds from round [e] on. *)
Fixpoint barrier_calls (i : Z) (e m : nat) : list call :=
  match m with
  | O => []
  | S m' => Sent (to_next i e) :: Received (from_prev i e) :: barrier_calls i (S e) m'
  end.

Lemma elem_of_barrier_calls i e m c : c ∈ barrier_calls i e m <->
  exists r, (e <= r < e + m)%nat /\ (c = Sent (to_next i r) \/ c = Received (from_prev i r)).
Proof.
  revert e. induction m as [|m IH]; intros e; cbn [barrier_calls].
  - split; [intros H; by apply not_elem_of_nil in H|intros (r & Hr & _); lia].
  - rewrite !elem_of_cons, IH. split.
    + intros [-> | [-> | (r & Hr & H)]]; [exists e; split; [lia|by left]|exists e; split; [lia|by right]|].
      exists r. split; [lia|done].
    + intros (r & Hr & H). destruct (decide (r = e)) as [-> | Hne]; [naive_solver|].
      right; right. exists r. split; [lia|done].
Qed.

(** The round of a slot is read off the distance of its ends. *)
Definition barrier_round (m : slot) : nat :=
  let at_rank p := default 0 (programs ph (seqZ 0 n) !! p) in
  Z.to_nat (Z.log2 ((at_rank m.1.2 - at_rank m.1.1) mod n)).

Lemma rank_of i : 0 <= i < n -> default 0 (programs ph (seqZ 0 n) !! blk ph i) = i.
Proof.
  intros Hi. rewrite (programs_vget ph (seqZ 0 n) i (blk ph i) i); [done|apply Hg| |by apply vget_at|].
  - rewrite length_seqZ. unfold vsize. lia.
  - unfold vget. rewrite (proj2 (Z.leb_le _ _)) by lia. rewrite lookup_seqZ. lia.
Qed.

Lemma round_to_next i e : 0 <= i < n -> 2 ^ Z.of_nat e < n -> barrier_round (to_next i e) = e.
Proof.
  intros Hi He. unfold barrier_round, to_next. cbn [fst snd]. pose proof (pow2_pos e).
  rewrite !rank_of by (done || (apply mod_range; lia)).
  replace (((i + 2 ^ Z.of_nat e) mod n - i) mod n) with (2 ^ Z.of_nat e).
  - rewrite Z.log2_pow2 by lia. lia.
  - ring_case (i + 2 ^ Z.of_nat e) (vsize ph). ring_case (r - i) (vsize ph). lia.
Qed.

Lemma from_prev_to_next i e : 0 <= i < n -> 2 ^ Z.of_nat e < n ->
  from_prev i e = to_next ((i - 2 ^ Z.of_nat e) mod n) e.
Proof. intros Hi He. unfold from_prev, to_next. rewrite ring_prev_next by lia. done. Qed.

Lemma round_from_prev i e : 0 <= i < n -> 2 ^ Z.of_nat e < n -> barrier_round (from_prev i e) = e.
Proof.
  intros Hi He. rewrite from_prev_to_next by done. apply round_to_next; [apply mod_range; lia|done].
Qed.

Definition call_round (c : call) : nat := match c with Sent m | Received m => barrier_round m end.

Lemma barrier_calls_rounds i e m c : 0 <= i < n -> (forall r, (r < e + m)%nat -> 2 ^ Z.of_nat r < n) ->
  c ∈ barrier_calls i e m -> (e <= call_round c < e + m)%nat.
Proof.
  intros Hi Hr (r & Hre & H)%elem_of_barrier_calls.
  destruct H as [-> | ->]; cbn [call_round];
    [rewrite round_to_next|rewrite round_from_prev]; try done; try (apply Hr; lia); lia.
Qed.

Lemma barrier_calls_ordered i e m : 0 <= i < n -> (forall r, (r < e + m)%nat -> 2 ^ Z.of_nat r < n) ->
  NoDup (barrier_calls i e m) /\ StronglySorted (in_time barrier_round) (barrier_calls i e m) /\
  StronglySorted (fun c c' => (call_round c <= call_round c')%nat) (barrier_calls i e m).
Proof.
  intros Hi. revert e. induction m as [|m IH]; intros e Hr; cbn [barrier_calls]; [repeat constructor|].
  assert (Hr' : forall r, (r < S e + m)%nat -> 2 ^ Z.of_nat r < n) by (intros r ?; apply Hr; lia).
  destruct (IH (S e) Hr') as (H1 & H2 & H3).
  assert (Hlate : forall c, c ∈ barrier_calls i (S e) m -> (e < call_round c)%nat).
  { intros c Hc. apply barrier_calls_rounds in Hc; [lia|done|done]. }
  assert (Hs : call_round (Sent (to_next i e)) = e) by (apply round_to_next; [done|apply Hr; lia]).
  assert (Hv : call_round (Received (from_prev i e)) = e) by (apply round_from_prev; [done|apply Hr; lia]).
  split; [|split].
  - constructor; [|constructor; [|done]].
    + intros [E | E]%elem_of_cons; [done|]. apply Hlate in E. lia.
    + intros E. apply Hlate in E. lia.
  - constructor; [constructor; [done|]|apply Forall_forall; intros c _; done].
    apply Forall_forall. intros [x|x] Hx; [|done]. cbn [in_time]. apply Hlate in Hx. cbn in Hx, Hv. lia.
  - constructor; [constructor; [done|]|].
    + apply Forall_forall. intros c Hc. apply Hlate in Hc. lia.
    + constructor; [lia|]. apply Forall_forall. intros c Hc. apply Hlate in Hc. lia.
Qed.

Lemma does_barrier_loop m e fuel i s :
  (m <= fuel)%nat -> member ph nm k' i (ctx s) -> 0 <= i < n ->
  (forall r, (r < e + m)%nat -> 2 ^ Z.of_nat r < n) -> n <= 2 ^ Z.of_nat (e + m) ->
  does barrier_values (blk ph i) (barrier_loop fuel event (2 ^ Z.of_nat e)) s (barrier_calls i e m) () (ctx s).
Proof.
  revert e fuel s. induction m as [|m IH]; intros e fuel s Hf Hm Hi Hr Hn.
  - rewrite Nat.add_0_r in Hn.
    destruct fuel; cbn [barrier_loop barrier_calls]; (eapply does_bind_pure; [apply does_the_ctx|]); intros s1 Hs1;
      unfold WorldSize, vsize in *; rewrite (member_size _ _ _ _ _ Hm), (proj2 (Z.ltb_ge _ _)) by lia;
      rewrite <- Hs1; apply does_ret.
  - destruct fuel as [|fuel]; [lia|]. pose proof (Hr e ltac:(lia)) as He. pose proof (pow2_pos e) as Hp.
    pose proof (group_bound _ _ _ _ Hg) as Hb.
    cbn [barrier_loop barrier_calls]. eapply does_bind_pure; [apply does_the_ctx|]. intros s1 Hs1.
    assert (Hw : WorldSize (ctx s) = n) by (unfold WorldSize, vsize; by rewrite (member_size _ _ _ _ _ Hm)).
    rewrite Hw, (proj2 (Z.ltb_lt _ _)) by lia. cbn [negb].
    rewrite (member_next_rank k' i), (member_prev_rank k' i) by (done || lia). rewrite <- Hs1 in *.
    apply (does_bind _ _ _ _ _ [_] () (ctx s1)).
    { eapply does_send; [done|apply vget_at, mod_range; lia|apply ring_next_ne; lia|].
      unfold barrier_values. by rewrite bool_decide_eq_true_2. }
    intros s2 Hs2. rewrite <- Hs2 in *. apply (does_bind _ _ _ _ _ [_] [] (ctx s2)).
    { eapply does_recv; [done|apply vget_at, mod_range; lia|apply ring_prev_ne; lia|].
      unfold barrier_values. by rewrite bool_decide_eq_true_2. }
    intros s3 Hs3. rewrite <- Hs3 in *.
    replace (size_t (Z.shiftl (2 ^ Z.of_nat e) 1)) with (2 ^ Z.of_nat (S e)).
    + apply IH; [lia|done|done|intros r ?; apply Hr; lia|]. by replace (S e + m)%nat with (e + S m)%nat by lia.
    + rewrite Z.shiftl_mul_pow2, pow2_S by lia. rewrite size_t_small; lia.
Qed.
End Barrier.

Definition barrier_rounds : nat := Z.to_nat (Z.log2_up n).

Lemma barrier_rounds_spec : 0 < n ->
  n <= 2 ^ Z.of_nat barrier_rounds /\ (forall r, (r < barrier_rounds)%nat -> 2 ^ Z.of_nat r < n) /\
  (barrier_rounds <= 65)%nat.
Proof.
  intros Hn. unfold barrier_rounds. pose proof (Z.log2_up_nonneg n). pose proof (group_bound _ _ _ _ Hg).
  rewrite Z2Nat.id by done. split; [by apply Z.log2_log2_up_spec|]. split.
  - intros r Hr. apply Z.log2_up_lt_pow2; lia.
  - assert (Z.log2_up n <= 60); [|lia]. apply Z.log2_up_le_pow2; lia.
Qed.

Lemma barrier_plan : exists rs,
  let event := event_name nm k barrier_type in
  plan (barrier_values event) barrier_round (programs ph (everyone (fun _ => Barrier) ss)) rs /\
  (forall i s, 0 <= i < n -> member ph nm k i (ctx s) ->
     does (barrier_values event) (blk ph i) Barrier s (barrier_calls event i 0 barrier_rounds) ()
       (set_counter k' (ctx s))) /\
  forall i p, ph !! i = Some p -> exists a, rs !! p = Some a /\ result ph nm k' (fun _ => ()) (Z.of_nat i) a.
Proof.
  set (event := event_name nm k barrier_type).
  assert (Hdoes : forall i s, 0 <= i < n -> member ph nm k i (ctx s) ->
     does (barrier_values event) (blk ph i) Barrier s (barrier_calls event i 0 barrier_rounds) ()
       (set_counter k' (ctx s))).
  { intros i s Hi Hm. destruct barrier_rounds_spec as (Hn & Hr & Hf); [lia|].
    eapply does_bind_pure; [by eapply does_next_event|]. intros s1 Hs1. rewrite <- Hs1.
    apply (does_barrier_loop _ barrier_rounds 0 65 i); [done| |done|done|done].
    rewrite Hs1. by apply member_next. }
  destruct (group_plan ph nm k ss Hg (fun _ => Barrier) (fun _ => ()) (barrier_values event) barrier_round
    (fun i => barrier_calls event i 0 barrier_rounds)) as (rs & Hplan & Hrs).
  - intros i s Hi Hm. exists (set_counter k' (ctx s)). split; [by apply Hdoes|by apply member_next].
  - intros i Hi. destruct barrier_rounds_spec as (Hn & Hr & Hf); [lia|].
    destruct (barrier_calls_ordered event i 0 barrier_rounds Hi Hr) as (H1 & H2 & _). done.
  - intros i x Hi (r & Hr & [E | E])%elem_of_barrier_calls; [done|]. injection E as ->.
    destruct barrier_rounds_spec as (Hn & Hlt & Hf); [lia|].
    exists ((i - 2 ^ Z.of_nat r) mod n). split; [apply mod_range; lia|]. split; [done|].
    apply elem_of_barrier_calls. exists r. split; [done|]. left. rewrite from_prev_to_next by (done || apply Hlt; lia). done.
  - exists rs. done.
Qed.
End Ring.
