(* ===== verification/CollectivesTheorems.v ===== *)
(** What the collective algorithms promise: whatever the schedule, every party
    returns, with the values the operation is named for, and the contexts agree
    again for the next operation; and no party leaves a barrier that some party
    has not entered. *)

From Stdlib Require Import ZArith Lia ZifyBool Bool Sorted.
From stdpp Require Import base numbers list option gmap sorting.
From S2P Require Import Prelude ChannelKeys LinkProgram Context LinkGroup Collectives CollectivesFacts.

Local Open Scope Z_scope.

(** *** The barrier synchronises *)

Section Barrier.
Context (ph : list Z) (nm : bytes) (k : Z) (ss : list session) (Hg : group ph nm k ss).
Context (sched : list Z) (w : world (() * session)).
Context (Hrun : run sched (start (programs ph (everyone (fun _ => Barrier) ss))) = Some w).
Local Abbreviation n := (vsize ph).
Local Abbreviation event := (event_name nm k barrier_type).
Local Abbreviation calls i := (barrier_calls ph event i 0 (barrier_rounds ph)).

(** Rank [i] has made the calls [d]. *)
Definition made (i : Z) (d rest : list call) : Prop :=
  calls i = d ++ rest /\
  exists a, party_at (barrier_values event) w (count (blk ph i) sched) (blk ph i) d rest a.

Lemma made_some i : 0 <= i < n -> exists d rest, made i d rest.
Proof.
  intros Hi. destruct (barrier_plan ph nm k ss Hg) as (rs & Hplan & Hdoes & _).
  destruct (vget_lt ss i) as [s Hs]; [unfold vsize in *; rewrite (group_size _ _ _ _ Hg); lia|].
  unfold vget in Hs. rewrite (proj2 (Z.leb_le _ _)) in Hs by lia.
  pose proof (group_member _ _ _ _ Hg _ s Hs) as Hm. rewrite Z2Nat.id in Hm by lia.
  destruct (Hdoes i s Hi Hm) as (s' & Ht & _).
  destruct (plan_reached _ _ _ _ Hplan sched w Hrun) as [_ Hall].
  destruct (Hall (blk ph i) (Barrier s) _ _ ltac:(eapply programs_vget; [apply Hg| |by apply vget_at|];
    [unfold everyone; rewrite length_imap; apply Hg|
     unfold vget, everyone; rewrite (proj2 (Z.leb_le _ _)) by lia; by rewrite list_lookup_imap, Hs]) Ht)
    as (d & rest & E & Hat).
  exists d, rest. split; [done|]. by eexists.
Qed.

(** A receive that was made was answered by a send that was made. *)
Lemma made_answer i e d rest : 0 <= i < n -> 2 ^ Z.of_nat e < n -> made i d rest ->
  Received (from_prev ph event i e) ∈ d ->
  exists d' rest', let j := (i - 2 ^ Z.of_nat e) mod n in made j d' rest' /\ Sent (to_next ph event j e) ∈ d'.
Proof.
  intros Hi He (_ & a & _ & _ & _ & _ & Hsome) Hin. apply Hsome in Hin as [v Hv].
  set (j := (i - 2 ^ Z.of_nat e) mod n). assert (Hj : 0 <= j < n) by (apply mod_range; lia).
  destruct (made_some j Hj) as (d' & rest' & Hmade). exists d', rest'. cbn zeta. split; [done|].
  destruct Hmade as (_ & a' & _ & _ & Hsent & _).
  rewrite from_prev_to_next in Hv by done. fold j in Hv. rewrite Hsent in Hv by done.
  by case_bool_decide.
Qed.

(** The rounds before a send that was made were completed. *)
Lemma made_before i e e' d rest : 0 <= i < n -> made i d rest -> (e' < e < barrier_rounds ph)%nat ->
  Sent (to_next ph event i e) ∈ d -> Received (from_prev ph event i e') ∈ d.
Proof.
  intros Hi (E & _) He Hs. destruct (barrier_rounds_spec ph nm k ss Hg) as (_ & Hr & _); [lia|].
  destruct (barrier_calls_ordered ph nm k ss Hg event i 0 (barrier_rounds ph) Hi Hr) as (_ & _ & Hsort).
  assert (Hin : Received (from_prev ph event i e') ∈ calls i).
  { apply elem_of_barrier_calls. exists e'. split; [lia|by right]. }
  rewrite E in Hin, Hsort. apply elem_of_app in Hin as [Hin | Hin]; [done|]. exfalso.
  pose proof (StronglySorted_app_1_elem_of _ _ _ _ _ Hsort Hs Hin) as Hle. cbn beta in Hle. cbn [call_round] in Hle.
  rewrite (round_to_next ph nm k ss Hg), (round_from_prev ph nm k ss Hg) in Hle by (done || apply Hr; lia). lia.
Qed.

Lemma made_scheduled i d rest c : made i d rest -> c ∈ d -> blk ph i ∈ sched.
Proof.
  intros (_ & a & _ & Hlen & _) Hc. assert (Hpos : (0 < count (blk ph i) sched)%nat).
  { rewrite <- Hlen. destruct d; [by apply not_elem_of_nil in Hc|cbn; lia]. }
  clear -Hpos. induction sched as [|x l IH]; cbn [count] in Hpos; [lia|].
  destruct (Z.eqb_spec (blk ph i) x) as [-> | Hne]; [left|right; apply IH; lia].
Qed.

(** A rank that completed [e] rounds has heard, directly or not, of the [2 ^ e]
    ranks up to its own. *)
Lemma rounds_heard e : (e <= barrier_rounds ph)%nat -> forall i d rest, 0 <= i < n -> made i d rest ->
  (forall e', (e' < e)%nat -> Received (from_prev ph event i e') ∈ d) ->
  forall x, 0 < x < 2 ^ Z.of_nat e -> blk ph ((i - x) mod n) ∈ sched.
Proof.
  induction e as [|e IH]; intros He i d rest Hi Hmade Hrounds x Hx; [cbn in Hx; lia|].
  rewrite pow2_S in Hx. destruct (barrier_rounds_spec ph nm k ss Hg) as (_ & Hr & _); [lia|].
  specialize (Hr e ltac:(lia)).
  destruct (Z.ltb_spec x (2 ^ Z.of_nat e)) as [Hlt | Hge].
  { apply (IH ltac:(lia) i d rest); [done|done| |lia]. intros e' ?. apply Hrounds. lia. }
  destruct (made_answer i e d rest Hi Hr Hmade) as (d' & rest' & Hmade' & Hsent); [apply Hrounds; lia|].
  cbn zeta in Hmade', Hsent. set (j := (i - 2 ^ Z.of_nat e) mod n) in *.
  assert (Hj : 0 <= j < n) by (apply mod_range; lia).
  destruct (Z.eqb_spec x (2 ^ Z.of_nat e)) as [-> | Hne].
  - by apply (made_scheduled j d' rest' _ Hmade' Hsent).
  - replace ((i - x) mod n) with ((j - (x - 2 ^ Z.of_nat e)) mod n).
    + apply (IH ltac:(lia) j d' rest'); [done|done| |lia]. intros e' He'.
      by apply (made_before j e e' d' rest').
    + unfold j. rewrite Zminus_mod_idemp_l. f_equal. lia.
Qed.

Lemma barrier_entered i j r :
  0 <= i < n -> 0 <= j < n -> i <> j -> procs w !! blk ph i = Some (Ret r) -> blk ph j ∈ sched.
Proof.
  intros Hi Hj Hne Hret. destruct (made_some i Hi) as (d & rest & Hmade). pose proof Hmade as (E & a & (q & Hq & Ht) & _).
  rewrite Hret in Hq. injection Hq as <-. cbn [trace] in Ht. injection Ht as <- <-. rewrite app_nil_r in E.
  destruct (barrier_rounds_spec ph nm k ss Hg) as (Hn & _ & _); [lia|].
  assert (Hx : exists x, 0 < x < n /\ j = (i - x) mod n).
  { exists ((i - j) mod n). ring_case (i - j) (vsize ph). split; [lia|]. ring_case (i - r0) (vsize ph). lia. }
  destruct Hx as (x & Hx & ->). apply (rounds_heard (barrier_rounds ph) ltac:(lia) i d []); [done|done| |lia].
  intros e' He'. rewrite <- E. apply elem_of_barrier_calls. exists e'. split; [lia|by right].
Qed.
End Barrier.

(** *** The vector versions *)

(** Column [j] of the rows that the ranks contribute, for each of [m] columns. *)
Definition columns (m : nat) (rows : list (list bytes)) : list (list bytes) :=
  (fun j => (fun row => nth j row []) <$> rows) <$> seq 0 m.

Lemma transposed_columns m rows : Forall (fun row => length row = m) rows -> transposed m rows = columns m rows.
Proof.
  unfold columns. induction 1 as [|row rows Hrow Hrows IH]; cbn [transposed].
  - apply list_eq. intros j. rewrite list_lookup_fmap.
    destruct (decide (j < m)%nat) as [Hj | Hj].
    + rewrite lookup_replicate_2, lookup_seq_lt by lia. done.
    + rewrite !lookup_ge_None_2; [done|rewrite length_seq; lia|rewrite length_replicate; lia].
  - rewrite IH. apply list_eq. intros j. rewrite lookup_zip_with, !list_lookup_fmap.
    destruct (decide (j < m)%nat) as [Hj | Hj].
    + rewrite lookup_seq_lt by lia. cbn. destruct (lookup_lt_is_Some_2 row j) as [x Hx]; [lia|].
      rewrite Hx. cbn. by rewrite (nth_lookup_Some row j [] x Hx).
    + rewrite (lookup_ge_None_2 row), (lookup_ge_None_2 (seq 0 m)); [done|rewrite length_seq; lia|lia].
Qed.

Section Vectors.
Context `{BufferSerializer}.

Definition packed (row : list bytes) : bytes :=
  match row with [x] => x | _ => SerializeArrayOfBuffers row end.

Lemma does_unpack S p m rows s : Forall (fun row => length row = m) rows ->
  does S p (unpack m (SerializeArrayOfBuffers <$> rows)) s [] (columns m rows) (ctx s).
Proof.
  intros Hrows. unfold unpack.
  assert (mapM DeserializeArrayOfBuffers (SerializeArrayOfBuffers <$> rows) = Some rows) as ->.
  { clear Hrows. induction rows as [|row rows IH]; [done|]. cbn. rewrite deserialize_serialize. cbn.
    cbn in IH. by rewrite IH. }
  assert (forallb (fun r => vsize r =? Z.of_nat m) rows = true) as ->.
  { apply forallb_forall. intros r Hr. rewrite Forall_forall in Hrows.
    unfold vsize. rewrite Hrows; [lia|]. by apply list_elem_of_In. }
  eapply does_bind_pure; [apply does_enforce|]. intros s1 <-. rewrite <- transposed_columns by done. apply does_ret.
Qed.

Lemma columns_one rows : Forall (fun row : list bytes => length row = 1%nat) rows ->
  columns 1 rows = [packed <$> rows].
Proof.
  intros H1. cbn. f_equal. induction H1 as [|row rows Hrow _ IH]; [done|]. cbn. rewrite IH.
  by destruct row as [|x [|y row]].
Qed.

Lemma packed_many rows m : (m <> 1)%nat -> Forall (fun row : list bytes => length row = m) rows ->
  packed <$> rows = SerializeArrayOfBuffers <$> rows.
Proof.
  intros Hm H1. induction H1 as [|row rows Hrow _ IH]; [done|]. cbn. rewrite IH.
  by destruct row as [|x [|y row]].
Qed.

Section Group.
Context (ph : list Z) (nm : bytes) (k : Z) (ss : list session) (Hg : group ph nm k ss).
Context (rows : list (list bytes)) (m : nat) (Hm : (0 < m)%nat) (Hlen : length rows = length ph).
Context (Hrows : Forall (fun row => length row = m) rows).
Local Abbreviation n := (vsize ph).
Local Abbreviation k' := (size_t (k + 1)).

Lemma world_size kk i c : member ph nm kk i c -> WorldSize c = n.
Proof. intros Hc. unfold WorldSize, vsize. by rewrite (member_size _ _ _ _ _ Hc). Qed.

Lemma vget_rows i : 0 <= i < n -> exists row, vget rows i = Some row /\ length row = m /\
  vget (packed <$> rows) i = Some (packed row).
Proof.
  intros Hi. destruct (vget_lt rows i) as [row Hrow]; [unfold vsize in *; lia|]. exists row.
  split; [done|]. unfold vget in *. destruct (0 <=? i); [|done]. split.
  - rewrite Forall_forall in Hrows. apply Hrows. by eapply list_elem_of_lookup_2.
  - by rewrite list_lookup_fmap, Hrow.
Qed.

Lemma vsize_packed : vsize (packed <$> rows) = n.
Proof. unfold vsize. by rewrite length_fmap, Hlen. Qed.

Lemma does_AllGatherVector i s row : 0 <= i < n -> member ph nm k i (ctx s) -> vget rows i = Some row ->
  let event := event_name nm k allgather_type in
  does (by_source ph event (packed <$> rows)) (blk ph i) (AllGatherVectorImpl row) s (allgather_calls ph event i)
    (columns m rows) (set_counter k' (ctx s)).
Proof.
  intros Hi Hmem Hrow event. destruct (vget_rows i Hi) as (row' & Hrow' & Hl & Hp).
  rewrite Hrow in Hrow'. injection Hrow' as <-.
  assert (Hcall : does (by_source ph event (packed <$> rows)) (blk ph i) (AllGatherImpl (packed row)) s
    (allgather_calls ph event i) (packed <$> rows) (set_counter k' (ctx s))).
  { apply (does_AllGather ph nm k ss Hg); [by rewrite length_fmap|done|done|done]. }
  pose proof (member_next _ _ _ _ _ Hmem) as Hmem'.
  rewrite <- (app_nil_r (allgather_calls _ _ _)).
  destruct row as [|x [|y row]]; cbn [length] in Hl; [lia| |].
  - eapply does_bind; [exact Hcall|]. intros s1 Hs1. eapply does_bind_pure; [apply does_the_ctx|].
    intros s2 Hs2. rewrite Hs1 in *. rewrite (world_size _ _ _ Hmem'), vsize_packed, Z.eqb_refl.
    eapply does_bind_pure; [apply does_enforce|]. intros s3 Hs3. rewrite <- Hs2, <- Hs3.
    subst m. rewrite columns_one by done. apply does_ret.
  - eapply does_bind; [exact Hcall|]. intros s1 Hs1. eapply does_bind_pure; [apply does_the_ctx|].
    intros s2 Hs2. rewrite Hs1 in *. rewrite (world_size _ _ _ Hmem'), vsize_packed, Z.eqb_refl.
    eapply does_bind_pure; [apply does_enforce|]. intros s3 Hs3. rewrite <- Hs2, <- Hs3.
    rewrite (packed_many rows m) by (done || lia). rewrite <- Hl at 1. cbn [length]. rewrite Hl.
    by apply does_unpack.
Qed.

Lemma allgather_vector_return :
  all_return ph (everyone (fun i => AllGatherVectorImpl (default [] (vget rows i))) ss)
    (result ph nm k' (fun _ => columns m rows)).
Proof.
  apply (allgather_group ph nm k ss Hg (event_name nm k allgather_type) _ _
    (by_source ph (event_name nm k allgather_type) (packed <$> rows))).
  intros i s Hi Hmem. exists (set_counter k' (ctx s)). split; [|by apply member_next].
  destruct (vget_rows i Hi) as (row & Hrow & _). rewrite Hrow. by apply does_AllGatherVector.
Qed.

Lemma does_GatherVector root i s row : 0 <= root < n ->
  0 <= i < n -> member ph nm k i (ctx s) -> vget rows i = Some row ->
  let event := event_name nm k gather_type in
  does (by_source ph event (packed <$> rows)) (blk ph i) (GatherVectorImpl row root) s (gather_calls ph event root i)
    (if i =? root then columns m rows else replicate m []) (set_counter k' (ctx s)).
Proof.
  intros Hroot Hi Hmem Hrow event. destruct (vget_rows i Hi) as (row' & Hrow' & Hl & Hp).
  rewrite Hrow in Hrow'. injection Hrow' as <-.
  assert (Hcall : does (by_source ph event (packed <$> rows)) (blk ph i) (GatherImpl (packed row) root) s
    (gather_calls ph event root i) (if i =? root then packed <$> rows else []) (set_counter k' (ctx s))).
  { apply (does_Gather ph nm k ss Hg); [by rewrite length_fmap|done|done|done|done]. }
  pose proof (member_next _ _ _ _ _ Hmem) as Hmem'.
  rewrite <- (app_nil_r (gather_calls _ _ _ _)).
  destruct row as [|x [|y row]]; cbn [length] in Hl; [lia| |];
    (eapply does_bind; [exact Hcall|]); intros s1 Hs1; (eapply does_bind_pure; [apply does_the_ctx|]);
    intros s2 Hs2; rewrite Hs1 in *; unfold Rank; rewrite (member_rank _ _ _ _ _ Hmem'), (Z.eqb_sym root i);
    (destruct (i =? root); [rewrite (world_size _ _ _ Hmem'), vsize_packed, Z.eqb_refl|]);
    (eapply does_bind_pure; [apply does_enforce|]); intros s3 Hs3; rewrite <- Hs2, <- Hs3.
  - subst m. rewrite columns_one by done. apply does_ret.
  - subst m. apply does_ret.
  - rewrite (packed_many rows m) by (done || lia). rewrite <- Hl at 1. cbn [length]. rewrite Hl.
    by apply does_unpack.
  - subst m. apply does_ret.
Qed.

Lemma gather_vector_return root : 0 <= root < n ->
  all_return ph (everyone (fun i => GatherVectorImpl (default [] (vget rows i)) root) ss)
    (result ph nm k' (fun i => if i =? root then columns m rows else replicate m [])).
Proof.
  intros Hroot. apply (gather_group ph nm k ss Hg (event_name nm k gather_type) root _ _
    (by_source ph (event_name nm k gather_type) (packed <$> rows)) Hroot).
  intros i s Hi Hmem. exists (set_counter k' (ctx s)). split; [|by apply member_next].
  destruct (vget_rows i Hi) as (row & Hrow & _). rewrite Hrow. by apply does_GatherVector.
Qed.
End Group.
End Vectors.

(** *** The properties *)

(** C10: Collective operations. When every party of a group calls the same
    operation, then whatever the order in which the parties run and the messages
    are taken, every run is finite and can only stop with every party having
    returned: [AllGather] returns the values of all ranks in rank order to
    everyone, [Gather] returns them to the root and nothing to the others,
    [Scatter] gives each rank its element of the root's vector, [Broadcast] gives
    everyone the root's value through the binomial tree, and the vector versions
    of [AllGather] and [Gather] return the columns of the ranks' rows, serialized
    or not. No message name is used twice, and all contexts are ready for the next
    operation. *)
Theorem collectives_complete `{BitFloor} `{BufferSerializer} (ph : list Z) (nm : bytes) (k : Z)
    (ss : list session) (root : Z) (vals : list bytes) (args : Z -> list bytes) (inputs : Z -> bytes)
    (m : nat) (rows : list (list bytes)) :
  group ph nm k ss -> 0 <= root < vsize ph ->
  length vals = length ph -> length (args root) = length ph ->
  (0 < m)%nat -> length rows = length ph -> Forall (fun row => length row = m) rows ->
  let k' := size_t (k + 1) in
  all_return ph (everyone (fun i => AllGatherImpl (default [] (vget vals i))) ss)
    (result ph nm k' (fun _ => vals)) /\
  all_return ph (everyone (fun i => GatherImpl (default [] (vget vals i)) root) ss)
    (result ph nm k' (fun i => if i =? root then vals else [])) /\
  all_return ph (everyone (fun i => Scatter (args i) root) ss)
    (result ph nm k' (fun i => default [] (vget (args root) i))) /\
  all_return ph (everyone (fun i => Broadcast (inputs i) root) ss)
    (result ph nm k' (fun _ => inputs root)) /\
  all_return ph (everyone (fun i => AllGatherVectorImpl (default [] (vget rows i))) ss)
    (result ph nm k' (fun _ => columns m rows)) /\
  all_return ph (everyone (fun i => GatherVectorImpl (default [] (vget rows i)) root) ss)
    (result ph nm k' (fun i => if i =? root then columns m rows else replicate m [])).
Proof.
  intros Hg Hroot Hvals Hargs Hm Hlen Hrows k'. split_and!.
  - by apply allgather_return.
  - by apply gather_return.
  - by apply scatter_return.
  - by apply broadcast_return.
  - by apply allgather_vector_return.
  - by apply gather_vector_return.
Qed.

(** C11: The barrier. When every party of a group calls [Barrier], every run is
    finite and can only stop with every party having returned; and at every moment
    of every run, a party that has returned knows that every other party has
    entered: each of them has made at least its first call of the barrier. *)
Theorem barrier_synchronises (ph : list Z) (nm : bytes) (k : Z) (ss : list session) :
  group ph nm k ss ->
  all_return ph (everyone (fun _ => Barrier) ss) (result ph nm (size_t (k + 1)) (fun _ => ())) /\
  (forall sched w i j p q r, run sched (start (programs ph (everyone (fun _ => Barrier) ss))) = Some w ->
     ph !! i = Some p -> ph !! j = Some q -> i <> j ->
     procs w !! p = Some (Ret r) -> q ∈ sched).
Proof.
  intros Hg. split.
  - destruct (barrier_plan ph nm k ss Hg) as (rs & Hplan & _ & Hrs). exists rs.
    split; [by eapply plan_completes|done].
  - intros sched w i j p q r Hrun Hp Hq Hne Hret.
    rewrite <- (blk_nat ph i p Hp) in Hret. rewrite <- (blk_nat ph j q Hq).
    apply lookup_lt_Some in Hp. apply lookup_lt_Some in Hq.
    apply (barrier_entered ph nm k ss Hg sched w Hrun (Z.of_nat i) (Z.of_nat j) r);
      unfold vsize; (lia || done).
Qed.

(** *** Three parties *)

#[local] Instance log2_bit_floor : BitFloor.
Proof.
  refine {| bit_floor n := 2 ^ Z.log2 n |}. intros n Hn. exists (Z.log2 n).
  pose proof (Z.log2_spec n ltac:(lia)) as [H1 H2]. rewrite Z.pow_succ_r in H2 by apply Z.log2_nonneg.
  split; [apply Z.log2_nonneg|]. split; [done|]. lia.
Defined.

(** Every buffer after its length. *)
Fixpoint read_buffers (fuel : nat) (b : bytes) : option (list bytes) :=
  match b, fuel with
  | [], _ => Some []
  | _, O => None
  | len :: b', S fuel' => l ← read_buffers fuel' (drop (Z.to_nat len) b'); Some (take (Z.to_nat len) b' :: l)
  end.

Lemma read_buffers_join fuel (l : list bytes) : (length l <= fuel)%nat ->
  read_buffers fuel (mjoin ((fun b => vsize b :: b) <$> l)) = Some l.
Proof.
  revert fuel. induction l as [|b l IH]; intros fuel Hf; [by destruct fuel|].
  destruct fuel as [|fuel]; cbn [length] in Hf; [lia|]. cbn [fmap list_fmap mjoin list_join app read_buffers].
  unfold vsize. rewrite Nat2Z.id, drop_app_length, take_app_length.
  cbn [fmap list_fmap mjoin list_join app] in IH. unfold vsize in IH. by rewrite IH by lia.
Qed.

#[local] Instance length_serializer : BufferSerializer.
Proof.
  refine {| SerializeArrayOfBuffers l := vsize l :: mjoin ((fun b => vsize b :: b) <$> l);
            DeserializeArrayOfBuffers b :=
              match b with [] => None | n :: b' => read_buffers (Z.to_nat n) b' end |}.
  intros l. apply read_buffers_join. unfold vsize. lia.
Defined.

Definition demo_ph : list Z := [10; 20; 30].

Definition demo_context (i : Z) : Context :=
  mk_context [65] [[1]; [2]; [3]] i (channels_of demo_ph i) 0 ∅ 0 false.

Definition demo_sessions : list session :=
  (fun i => mk_session (demo_context i) (mk_stats 0 0 0 0)) <$> [0; 1; 2].

Lemma demo_group : group demo_ph [65] 0 demo_sessions.
Proof.
  split; [|done|done|].
  - unfold demo_ph. repeat constructor; set_solver.
  - intros [|[|[|i]]] s Hs; cbn in Hs; simplify_eq; by split.
Qed.

Lemma collectives_complete_witness :
  all_return demo_ph (everyone (fun i => Broadcast [i] 1) demo_sessions)
    (result demo_ph [65] 1 (fun _ => [1])) /\
  all_return demo_ph (everyone (fun i => AllGatherVectorImpl [[i]; []]) demo_sessions)
    (result demo_ph [65] 1 (fun _ => [[[0]; [1]; [2]]; [[]; []; []]])).
Proof.
  pose proof (collectives_complete demo_ph [65] 0 demo_sessions 1 [[]; []; []] (fun _ => [[]; []; []])
    (fun i => [i]) 2 [[[0]; []]; [[1]; []]; [[2]; []]] demo_group ltac:(vm_compute; split; [discriminate|reflexivity])
    eq_refl eq_refl ltac:(lia) eq_refl ltac:(repeat constructor)) as (_ & _ & _ & H1 & H2 & _).
  split; [exact H1|exact H2].
Defined.

(** A run of the barrier after which the first party has left. *)
Definition demo_schedule : list Z := [10; 20; 30; 10; 20; 30; 10; 20; 30; 10].

Definition demo_left (o : option (world (() * session))) : bool :=
  match o with
  | Some w => match procs w !! 10 with Some p => returned p | None => false end
  | None => false
  end.

Lemma barrier_synchronises_witness :
  all_return demo_ph (everyone (fun _ => Barrier) demo_sessions) (result demo_ph [65] 1 (fun _ => ())) /\
  demo_left (run demo_schedule (start (programs demo_ph (everyone (fun _ => Barrier) demo_sessions)))) = true /\
  30 ∈ demo_schedule.
Proof.
  destruct (barrier_synchronises demo_ph [65] 0 demo_sessions demo_group) as [H1 H2].
  split; [exact H1|].
  assert (E : demo_left (run demo_schedule (start (programs demo_ph (everyone (fun _ => Barrier) demo_sessions))))
              = true) by (vm_compute; reflexivity).
  split; [exact E|].
  destruct (run demo_schedule _) as [w|] eqn:Hrun in E; [|discriminate E]. cbn [demo_left] in E.
  destruct (procs w !! 10) as [[r|e|d key v k|s key k]|] eqn:Hp; try discriminate E.
  eapply (H2 demo_schedule w 0%nat 2%nat 10 30 r Hrun); [reflexivity|reflexivity|discriminate|exact Hp].
Defined.
