(* ===== verification/ContextTheorems.v ===== *)
(** What a context promises: the names it gives to messages are never repeated,
    never clash and are accepted by the channels; and the contexts made from the
    contexts of a group ([Spawn], [SubWorld]) form a group again. *)

From Stdlib Require Import ZArith Lia ZifyBool Bool.
From stdpp Require Import base numbers list option gmap.
From S2P Require Import Prelude ChannelKeys LinkProgram Context LinkGroup Collectives CollectivesFacts.

Local Open Scope Z_scope.

(** *** Decimal numbers in names *)

Definition digit (c : Z) : Prop := 48 <= c <= 57.

Lemma to_digits_digit fuel m : 0 <= m -> Forall digit (to_digits fuel m).
Proof.
  revert m. induction fuel as [|fuel IH]; intros m Hm; cbn [to_digits]; [constructor|].
  destruct (Z.ltb_spec m 10); [repeat constructor; lia|].
  apply Forall_app. split; [apply IH, Z.div_pos; lia|].
  repeat constructor; pose proof (Z.mod_pos_bound m 10 ltac:(lia)); lia.
Qed.

Lemma to_string_digit m : 0 <= m -> Forall digit (to_string m).
Proof. apply to_digits_digit. Qed.

Lemma to_string_inj a b : 0 <= a < 2 ^ 64 -> 0 <= b < 2 ^ 64 -> to_string a = to_string b -> a = b.
Proof.
  intros Ha Hb E. pose proof (simple_atoi_decimal a Ha) as H1. rewrite E, simple_atoi_decimal in H1 by done.
  by injection H1.
Qed.

(** A number followed by something that is not a digit can be read off. *)
Lemma number_prefix a b x y r1 r2 :
  0 <= a < 2 ^ 64 -> 0 <= b < 2 ^ 64 -> ~ digit x -> ~ digit y ->
  to_string a ++ x :: r1 = to_string b ++ y :: r2 -> a = b /\ x :: r1 = y :: r2.
Proof.
  intros Ha Hb Hx Hy E.
  assert (H : forall d1 d2, Forall digit d1 -> Forall digit d2 -> d1 ++ x :: r1 = d2 ++ y :: r2 ->
            d1 = d2 /\ x :: r1 = y :: r2).
  { induction d1 as [|c d1 IH]; intros [|c' d2] H1 H2 Eq; cbn in Eq.
    - done.
    - injection Eq as <- _. by inversion H2.
    - injection Eq as -> _. by inversion H1.
    - injection Eq as <- Eq. inversion H1; inversion H2; subst.
      destruct (IH d2) as [-> ?]; done. }
  destruct (H (to_string a) (to_string b)) as [E1 E2]; [apply to_string_digit; lia|apply to_string_digit; lia|done|].
  split; [by apply to_string_inj|done].
Qed.

(** *** Names *)

Definition collective_name (nm : bytes) (i : Z) (kType : bytes) : bytes := collective_id nm i ++ colon ++ kType.

Lemma collective_name_inj nm i i' t t' : 0 <= i < 2 ^ 64 -> 0 <= i' < 2 ^ 64 ->
  collective_name nm i t = collective_name nm i' t' -> i = i' /\ t = t'.
Proof.
  unfold collective_name, collective_id, colon. rewrite <- !app_assoc. intros Hi Hi' E.
  apply app_inv_head, app_inv_head in E. cbn [app] in E.
  apply number_prefix in E as [-> E]; [|done|done|unfold digit; lia|unfold digit; lia].
  by injection E.
Qed.

Lemma p2p_id_inj nm i i' s s' d d' :
  0 <= i < 2 ^ 64 -> 0 <= i' < 2 ^ 64 -> 0 <= s < 2 ^ 64 -> 0 <= s' < 2 ^ 64 -> 0 <= d < 2 ^ 64 -> 0 <= d' < 2 ^ 64 ->
  p2p_id nm i s d = p2p_id nm i' s' d' -> i = i' /\ s = s' /\ d = d'.
Proof.
  unfold p2p_id, colon, arrow. intros Hi Hi' Hs Hs' Hd Hd' E. apply app_inv_head, app_inv_head in E. cbn [app] in E.
  apply number_prefix in E as [-> E]; [|done|done|unfold digit; lia|unfold digit; lia]. injection E as E.
  apply number_prefix in E as [-> E]; [|done|done|unfold digit; lia|unfold digit; lia]. injection E as E.
  apply to_string_inj in E; done.
Qed.

Lemma collective_not_p2p nm i t j s d : 0 <= i -> collective_name nm i t <> p2p_id nm j s d.
Proof.
  unfold collective_name, collective_id, p2p_id, colon, p2p_tag. rewrite <- !app_assoc. intros Hi E.
  apply app_inv_head in E. cbn [app] in E. injection E as E.
  pose proof (to_string_nonempty i) as Hne. pose proof (to_string_digit i Hi) as Hd.
  destruct (to_string i) as [|c l]; [done|]. cbn [app] in E. injection E as -> _. inversion Hd. unfold digit in *. lia.
Qed.

(** *** Sequences of names *)

Inductive request := Collective (kType : bytes) | P2P (src dst : Z).

#[export] Instance request_eq_dec : EqDecision request.
Proof. solve_decision. Defined.

Definition issue_one (r : request) : LinkM bytes :=
  match r with
  | Collective kType => next_event kType
  | P2P src dst => NextP2PId src dst
  end.

Fixpoint issue (l : list request) : LinkM (list bytes) :=
  match l with
  | [] => mret []
  | r :: l' => x ← issue_one r; xs ← issue l'; mret (x :: xs)
  end.

Definition is_collective (r : request) : bool := match r with Collective _ => true | _ => false end.

(** How many of the requests [l] use the counter of [r]. *)
Definition uses (l : list request) (r : request) : Z :=
  match r with
  | Collective _ => vsize (filter (fun x => is_collective x = true) l)
  | P2P src dst => vsize (filter (fun x => x = P2P src dst) l)
  end.

(** The name of a request is fixed by the requests before it. *)
Definition name_of (nm : bytes) (l : list request) (r : request) : bytes :=
  match r with
  | Collective kType => collective_name nm (uses l r + 1) kType
  | P2P src dst => p2p_id nm (uses l r + 1) src dst
  end.

(** Ranks are words, and the types of collective operations have no control
    characters. *)
Definition request_ok (r : request) : Prop :=
  match r with
  | Collective kType => Forall (fun c => 2 < c) kType
  | P2P src dst => 0 <= src < 2 ^ 64 /\ 0 <= dst < 2 ^ 64
  end.

(** The counters of a session after the requests [l]. *)
Definition issued (nm : bytes) (l : list request) (s : session) : Prop :=
  id (ctx s) = nm /\ counter_ (ctx s) = uses l (Collective []) /\
  forall src dst, default 0 (p2p_counter_ (ctx s) !! (src, dst)) = uses l (P2P src dst).

Lemma uses_snoc l r x : uses (l ++ [x]) r =
  uses l r + (match r, x with
              | Collective _, Collective _ => 1
              | P2P _ _, P2P _ _ => if bool_decide (x = r) then 1 else 0
              | _, _ => 0
              end).
Proof.
  unfold uses. destruct r as [t|src dst]; rewrite filter_app, vsize_app; f_equal; rewrite filter_cons, filter_nil;
    destruct x as [t'|src' dst']; cbn [is_collective]; try done.
  case_bool_decide; [by rewrite decide_True|by rewrite decide_False].
Qed.

Lemma uses_bound l r : 0 <= uses l r <= vsize l.
Proof.
  unfold uses, vsize. destruct r as [t|src dst].
  - pose proof (length_filter (fun x => is_collective x = true) l). lia.
  - pose proof (length_filter (fun x => x = P2P src dst) l). lia.
Qed.

Lemma issue_one_step nm l r s : issued nm l s -> vsize l < 2 ^ 31 - 1 ->
  exists s', issue_one r s = Ret (name_of nm l r, s') /\ issued nm (l ++ [r]) s'.
Proof.
  intros (Hid & Hc & Hp) Hl. pose proof (uses_bound l r) as Hu. destruct r as [t|src dst].
  - exists (mk_session (set_counter (uses l (Collective t) + 1) (ctx s)) (stats s)). split.
    + unfold issue_one, next_event, NextId. cbn [mbind LinkM_bind prog_bind mret LinkM_ret].
      cbv [mbind LinkM_bind prog_bind mret LinkM_ret]. unfold name_of, collective_name. rewrite Hid, Hc.
      unfold size_t. rewrite Z.mod_small; [done|]. change (uses l (Collective [])) with (uses l (Collective t)). lia.
    + split; [done|]. split; [by rewrite uses_snoc|]. intros src dst. rewrite uses_snoc, Z.add_0_r. apply Hp.
  - exists (mk_session (set_p2p (<[(src, dst) := uses l (P2P src dst) + 1]> (p2p_counter_ (ctx s))) (ctx s)) (stats s)).
    split.
    + unfold issue_one, NextP2PId. rewrite Hp, Hid. by rewrite (proj2 (Z.ltb_lt _ _)) by lia.
    + split; [done|]. split; [by rewrite uses_snoc, Z.add_0_r|]. intros a b. rewrite uses_snoc. cbn [ctx set_p2p p2p_counter_].
      case_bool_decide as E.
      * injection E as <- <-. by rewrite lookup_insert_eq.
      * rewrite lookup_insert_ne by congruence. rewrite Hp. lia.
Qed.

(** Every name of the sequence. *)
Fixpoint names_from (nm : bytes) (before l : list request) : list bytes :=
  match l with
  | [] => []
  | r :: l' => name_of nm before r :: names_from nm (before ++ [r]) l'
  end.

Lemma issue_names nm before l s : issued nm before s -> vsize (before ++ l) < 2 ^ 31 ->
  exists s', issue l s = Ret (names_from nm before l, s') /\ issued nm (before ++ l) s'.
Proof.
  revert before s. induction l as [|r l IH]; intros before s Hs Hl; cbn [issue names_from].
  - exists s. split; [done|]. by rewrite app_nil_r.
  - rewrite vsize_app in Hl. unfold vsize at 2 in Hl. cbn [length] in Hl.
    destruct (issue_one_step nm before r s Hs) as (s1 & E1 & Hs1); [lia|].
    destruct (IH (before ++ [r]) s1 Hs1) as (s2 & E2 & Hs2).
    { rewrite <- app_assoc. cbn [app]. rewrite vsize_app. unfold vsize at 2. cbn [length]. lia. }
    exists s2. split; [|by rewrite <- app_assoc in Hs2].
    cbv [mbind LinkM_bind]. rewrite E1. cbv [mbind prog_bind]. by rewrite E2.
Qed.

Lemma lookup_names_from nm before l i r :
  l !! i = Some r -> names_from nm before l !! i = Some (name_of nm (before ++ take i l) r).
Proof.
  revert before i. induction l as [|x l IH]; intros before i Hi; [done|].
  destruct i as [|i]; cbn [take names_from].
  - injection Hi as ->. by rewrite app_nil_r.
  - change (names_from nm (before ++ [x]) l !! i = Some (name_of nm (before ++ [x] ++ take i l) r)).
    rewrite (IH (before ++ [x]) i Hi). by rewrite <- app_assoc.
Qed.

Lemma length_names_from nm before l : length (names_from nm before l) = length l.
Proof. revert before. induction l as [|x l IH]; intros before; cbn; [done|by rewrite IH]. Qed.

(** A later request for the same counter finds it higher. *)
Lemma uses_later l i j r r' : (i < j)%nat -> l !! i = Some r ->
  match r, r' with Collective _, Collective _ => True | _, _ => r = r' end ->
  uses (take i l) r' < uses (take j l) r'.
Proof.
  intros Hij Hi Hrr.
  assert (E : take j l = take i l ++ [r] ++ take (j - i - 1) (drop (S i) l)).
  { replace j with (i + S (j - i - 1))%nat at 1 by lia. rewrite <- take_take_drop. f_equal.
    by rewrite (drop_S l r i Hi). }
  rewrite E. rewrite app_assoc.
  assert (Hmono : forall a b, uses a r' <= uses (a ++ b) r').
  { intros a b. unfold uses. destruct r'; rewrite filter_app, vsize_app;
      match goal with |- ?x <= ?x + vsize ?y => pose proof (vsize_nonneg y); lia end. }
  eapply Z.lt_le_trans; [|apply Hmono]. rewrite uses_snoc.
  destruct r as [t|src dst], r' as [t'|src' dst']; try done; [lia|].
  rewrite bool_decide_eq_true_2 by done. lia.
Qed.

Lemma name_of_inj nm l i j r r' : (i < j)%nat -> vsize l < 2 ^ 31 -> l !! i = Some r -> l !! j = Some r' ->
  request_ok r -> request_ok r' -> name_of nm (take i l) r <> name_of nm (take j l) r'.
Proof.
  intros Hij Hl Hi Hj Hr Hr' E.
  assert (Hb : forall x q, 0 <= uses (take x l) q < 2 ^ 31).
  { intros x q. pose proof (uses_bound (take x l) q). unfold vsize in *. rewrite length_take in *. lia. }
  pose proof (Hb i r). pose proof (Hb j r').
  destruct r as [t|src dst], r' as [t'|src' dst']; cbn [name_of request_ok] in *.
  - apply collective_name_inj in E as [E ->]; [|lia|lia].
    pose proof (uses_later l i j _ (Collective t') Hij Hi I). lia.
  - apply collective_not_p2p in E; [done|lia].
  - symmetry in E. apply collective_not_p2p in E; [done|lia].
  - apply p2p_id_inj in E as (E & -> & ->); [|lia|lia|tauto..].
    pose proof (uses_later l i j _ (P2P src' dst') Hij Hi eq_refl). lia.
Qed.

Lemma NoDup_names nm l : vsize l < 2 ^ 31 -> Forall request_ok l -> NoDup (names_from nm [] l).
Proof.
  intros Hl Hok. apply NoDup_alt. intros i j x Hi Hj.
  assert (Hget : forall i, names_from nm [] l !! i = Some x -> exists r, l !! i = Some r /\ x = name_of nm (take i l) r).
  { clear i j Hi Hj. intros i Hi. destruct (lookup_lt_is_Some_2 l i) as [r Hr].
    { rewrite <- (length_names_from nm []). by eapply lookup_lt_Some. }
    exists r. split; [done|]. rewrite (lookup_names_from nm [] l i r Hr) in Hi. by injection Hi as <-. }
  destruct (Hget i Hi) as (r & Hr & E). destruct (Hget j Hj) as (r' & Hr' & E').
  rewrite Forall_lookup in Hok. pose proof (Hok i r Hr). pose proof (Hok j r' Hr').
  destruct (Nat.lt_total i j) as [Hlt | [-> | Hlt]]; [|done|].
  - exfalso. by apply (name_of_inj nm l i j r r'); [..|congruence].
  - exfalso. by apply (name_of_inj nm l j i r' r); [..|congruence].
Qed.

(** *** Names are accepted by the channels *)

Lemma str_find_sep_app nm x : str_find kSeqKey nm = None -> Forall (fun c => 2 < c) x -> str_find kSeqKey (nm ++ x) = None.
Proof.
  intros Hnm Hx. unfold kSeqKey in *. induction nm as [|c nm IH]; cbn [app].
  - clear Hnm. induction Hx as [|c x Hc _ IH]; [done|]. cbn [str_find prefixb].
    rewrite (proj2 (Z.eqb_neq 1 c)) by lia. cbn [andb]. by rewrite IH.
  - cbn [str_find] in Hnm |- *. destruct (prefixb [1; 2] (c :: nm)) eqn:Ep; [done|].
    assert (Hn : str_find [1; 2] nm = None) by (by destruct (str_find [1; 2] nm)).
    rewrite (IH Hn). replace (prefixb [1; 2] (c :: nm ++ x)) with false; [done|].
    cbn [prefixb] in Ep |- *. destruct (1 =? c); [|done]. destruct nm as [|c' nm]; [|done].
    destruct x as [|c' x]; [done|]. cbn [app andb]. inversion Hx. by rewrite (proj2 (Z.eqb_neq 2 c')) by lia.
Qed.

Lemma digits_printable m : 0 <= m -> Forall (fun c => 2 < c) (to_string m).
Proof. intros Hm. eapply Forall_impl; [by apply to_string_digit|]. unfold digit. cbv beta. lia. Qed.

Lemma name_accepted nm l r : str_find kSeqKey nm = None -> request_ok r ->
  NormalMessageKeyEnforce (name_of nm l r) = true.
Proof.
  intros Hnm Hr. pose proof (uses_bound l r) as Hu.
  assert (H : forall x, x <> [] -> Forall (fun c => 2 < c) x -> NormalMessageKeyEnforce (nm ++ x) = true).
  { intros x Hx Hf. unfold NormalMessageKeyEnforce. rewrite bool_decide_eq_false_2.
    - by rewrite bool_decide_eq_true_2 by (by apply str_find_sep_app).
    - intros E. by apply app_eq_nil in E as [_ ->]. }
  destruct r as [t|src dst]; cbn [name_of request_ok] in *;
    unfold collective_name, collective_id, p2p_id, colon, p2p_tag, arrow; rewrite <- ?app_assoc;
    (apply H; [done|]); rewrite !Forall_app; repeat split; try (apply digits_printable; lia);
    try done; repeat constructor.
Qed.

Lemma new_context_issued nm ps rk chs sub c : new_Context nm ps rk chs sub = Some c ->
  forall t, issued nm [] (mk_session c t).
Proof.
  unfold new_Context. intros Hc t. destruct (rk <? _); [|done]. destruct (_ =? _); [|done]. injection Hc as <-.
  split; [done|]. split; [done|]. intros src dst. cbn [ctx p2p_counter_].
  destruct (list_to_map _ !! (src, dst)) as [v|] eqn:E; [|done].
  apply elem_of_list_to_map_2, list_elem_of_fmap in E as (d & E & _). by injection E as _ ->.
Qed.


Definition demo_requests : list request :=
  [Collective allgather_type; P2P 0 1; P2P 0 1; Collective barrier_type; P2P 1 0].


(** *** Contexts made from a group *)

Lemma length_channels_of ph i : length (channels_of ph i) = length ph.
Proof. apply length_imap. Qed.

Lemma new_context_member nm ps ph i sub : 0 <= i < vsize ph -> length ps = length ph ->
  exists c, new_Context nm ps i (channels_of ph i) sub = Some c /\ member ph nm 0 i c /\
    parties c = ps.
Proof.
  intros Hi Hps. unfold new_Context, vsize in *. rewrite length_channels_of, Hps.
  rewrite (proj2 (Z.ltb_lt _ _)) by lia. rewrite Z.eqb_refl. eexists. split; [done|]. split; [by split|done].
Qed.

(** The name of a spawned context. *)
Definition child_name (nm child : bytes) (cc : Z) : bytes :=
  nm ++ dash ++ (if bool_decide (child = []) then to_string cc else child).

Lemma spawn_member ph nm k i c child cc : member ph nm k i c -> 0 <= i < vsize ph -> child_counter_ c = cc ->
  exists sub c', Spawn c child = Some (sub, c') /\ member ph (child_name nm child cc) 0 i sub /\ member ph nm k i c' /\
    child_counter_ c' = if bool_decide (child = []) then size_t (cc + 1) else cc.
Proof.
  intros [Hr Hs Hch Hid Hk] Hi Hcc. unfold Spawn, child_name.
  destruct (new_context_member (nm ++ dash ++ (if bool_decide (child = []) then to_string cc else child))
    (parties c) ph i false Hi Hs) as (sub & Hsub & Hm & _).
  rewrite Hr, Hch, Hid, Hcc. case_bool_decide; rewrite Hsub; cbn [mbind option_bind].
  - exists sub, (set_child_counter (size_t (cc + 1)) c). done.
  - exists sub, c. done.
Qed.

(** The map of [SubWorld] from identifiers to ranks. *)
Lemma rank_map_lookup (l : list (Z * bytes)) (m : gmap bytes Z) i p :
  NoDup (snd <$> l) -> (i, p) ∈ l -> foldl add_party m l !! p = Some i.
Proof.
  intros Hnd Hin. revert m. induction l as [|[j q] l IH]; intros m; [by apply not_elem_of_nil in Hin|].
  cbn [foldl]. cbn in Hnd. apply NoDup_cons in Hnd as [Hq Hnd].
  apply elem_of_cons in Hin as [E | Hin]; [|by apply IH]. injection E as -> ->.
  clear IH. assert (H : forall m', m' !! q = Some j -> foldl add_party m' l !! q = Some j).
  { induction l as [|[j' q'] l IH]; intros m' Hm'; [done|]. cbn [foldl]. cbn in Hq, Hnd.
    apply NoDup_cons in Hnd as [_ Hnd]. apply IH; [set_solver|done|].
    unfold add_party. cbn [fst snd]. rewrite lookup_insert_ne; [done|set_solver]. }
  apply H. apply lookup_insert_eq.
Qed.

Lemma sub_ranks_spec (pr : gmap bytes Z) self (name : Z -> bytes) (orig acc : list Z) nr :
  (forall r, r ∈ orig -> pr !! name r = Some r) -> NoDup orig ->
  exists nr', sub_ranks pr self (name <$> orig) acc nr = Some (acc ++ orig, nr') /\
    (forall t : nat, orig !! t = Some self -> nr' = vsize acc + Z.of_nat t) /\ (self ∉ orig -> nr' = nr).
Proof.
  revert acc nr. induction orig as [|r orig IH]; intros acc nr Hpr Hnd; cbn [fmap list_fmap sub_ranks].
  - exists nr. rewrite app_nil_r. split; [done|]. split; [intros t; by rewrite lookup_nil|done].
  - apply NoDup_cons in Hnd as [Hr Hnd]. rewrite Hpr by left. cbn [mbind option_bind].
    destruct (IH (acc ++ [r]) (if r =? self then vsize acc else nr)) as (nr' & E & H1 & H2);
      [intros x Hx; apply Hpr; by right|done|].
    exists nr'. change (list_fmap Z bytes name orig) with (name <$> orig). rewrite E, <- app_assoc. split; [done|]. split.
    + intros [|t] Ht.
      * cbn in Ht. injection Ht as ->. rewrite H2 by done. rewrite Z.eqb_refl. lia.
      * cbn in Ht. rewrite (H1 t Ht), vsize_app. unfold vsize. cbn [length]. lia.
    + intros Hs. rewrite H2 by set_solver. rewrite (proj2 (Z.eqb_neq r self)); [done|]. set_solver.
Qed.

Lemma mapM_vget {A} (l : list A) (f : Z -> A) (orig : list Z) :
  (forall r, r ∈ orig -> vget l r = Some (f r)) -> mapM (vget l) orig = Some (f <$> orig).
Proof.
  intros H. induction orig as [|r orig IH]; [done|]. cbn. rewrite H by left. cbn.
  cbn in IH. rewrite IH; [done|]. intros x Hx. apply H. by right.
Qed.

Lemma channels_of_sub ph i (orig : list Z) t :
  NoDup orig -> (forall r, r ∈ orig -> 0 <= r < vsize ph) -> orig !! t = Some i ->
  (fun r => if r =? i then None else Some (blk ph r)) <$> orig = channels_of (blk ph <$> orig) (Z.of_nat t).
Proof.
  intros Hnd Hin Ht. apply list_eq. intros x. unfold channels_of. rewrite list_lookup_imap, !list_lookup_fmap.
  destruct (orig !! x) as [r|] eqn:Ex; [|done]. cbn. f_equal.
  destruct (Z.eqb_spec r i) as [-> | Hne].
  - rewrite (NoDup_lookup orig x t i Hnd Ex Ht). by rewrite Z.eqb_refl.
  - rewrite (proj2 (Z.eqb_neq (Z.of_nat x) (Z.of_nat t))); [done|]. intros E. apply Nat2Z.inj in E as ->. congruence.
Qed.

Lemma sub_world_member ph nm k i c names suffix (orig : list Z) :
  member ph nm k i c -> NoDup ph -> parties c = names -> NoDup names -> NoDup orig ->
  (forall r, r ∈ orig -> 0 <= r < vsize ph) ->
  let ids := (fun r => default [] (vget names r)) <$> orig in
  (forall t, orig !! t = Some i -> exists sub, SubWorld c suffix ids = Some sub /\
     member (blk ph <$> orig) (nm ++ dash ++ suffix) 0 (Z.of_nat t) sub /\ parties sub = ids) /\
  (i ∉ orig -> SubWorld c suffix ids = None).
Proof.
  intros [Hr Hs Hch Hid Hk] Hph Hnames Hnn Hno Hin ids.
  assert (Hsz : vsize names = vsize ph) by (unfold vsize; by rewrite <- Hnames, Hs).
  assert (Hget : forall r, r ∈ orig -> vget names r = Some (default [] (vget names r))).
  { intros r Hr'. destruct (vget_lt names r) as [x ->]; [rewrite Hsz; by apply Hin|done]. }
  unfold SubWorld. rewrite Hnames, Hr, Hch, Hid. set (pr := foldl _ _ _).
  assert (Hpr : forall r, r ∈ orig -> pr !! default [] (vget names r) = Some r).
  { intros r Hr'. apply rank_map_lookup.
    - rewrite snd_zip; [done|]. rewrite length_seqZ. unfold WorldSize. rewrite Hnames. unfold vsize. lia.
    - apply list_elem_of_lookup. exists (Z.to_nat r). specialize (Hin r Hr'). specialize (Hget r Hr').
      unfold vget in Hget at 1. rewrite (proj2 (Z.leb_le _ _)) in Hget by lia.
      rewrite lookup_zip_with, lookup_seqZ_lt by (unfold WorldSize; rewrite Hnames, Hsz; lia).
      cbn. rewrite Hget. cbn. f_equal. f_equal. lia. }
  destruct (sub_ranks_spec pr i (fun r => default [] (vget names r)) orig [] (vsize ids) Hpr Hno)
    as (nr & E & H1 & H2).
  fold ids in E. rewrite E. cbn [mbind option_bind app].
  assert (Hids : vsize ids = vsize orig) by (unfold ids, vsize; by rewrite length_fmap).
  split.
  - intros t Ht. pose proof (lookup_lt_Some _ _ _ Ht) as Hlt. rewrite (H1 t Ht), Hids.
    rewrite (proj2 (Z.eqb_neq _ _)) by (unfold vsize; cbn; lia). cbn [negb].
    rewrite (mapM_vget names (fun r => default [] (vget names r)) orig Hget). cbn [mbind option_bind].
    rewrite (mapM_vget _ (fun r => if r =? i then None else Some (blk ph r)) orig).
    + cbn [mbind option_bind]. rewrite (channels_of_sub ph i orig t) by done. fold ids.
      destruct (new_context_member (nm ++ dash ++ suffix) ids (blk ph <$> orig) (Z.of_nat t) true)
        as (sub & Hsub & Hm & Hp); [unfold vsize; rewrite length_fmap; lia|unfold ids; by rewrite !length_fmap|].
      change (vsize [] + Z.of_nat t) with (Z.of_nat t). exists sub. by rewrite Hsub.
    + intros r Hr'. specialize (Hin r Hr'). unfold channels_of, vget. rewrite (proj2 (Z.leb_le _ _)) by lia.
      rewrite list_lookup_imap. pose proof (vget_at ph r Hin) as Hv. unfold vget in Hv.
      rewrite (proj2 (Z.leb_le _ _)) in Hv by lia. rewrite Hv. cbn. rewrite Z2Nat.id by lia. by destruct (r =? i).
  - intros Hn. rewrite (H2 Hn), Z.eqb_refl. done.
Qed.

(** The contexts of the selected parties, in the order of the selection. *)
Lemma sub_world_group ph nm k ss names suffix (orig : list Z) (t : Statistics) :
  group ph nm k ss -> (forall i s, ss !! i = Some s -> parties (ctx s) = names) -> NoDup names -> NoDup orig ->
  (forall r, r ∈ orig -> 0 <= r < vsize ph) ->
  exists subs,
    (forall x r s, orig !! x = Some r -> vget ss r = Some s -> exists sub,
       SubWorld (ctx s) suffix ((fun r => default [] (vget names r)) <$> orig) = Some sub /\
       subs !! x = Some (mk_session sub t)) /\
    group (blk ph <$> orig) (nm ++ dash ++ suffix) 0 subs.
Proof.
  intros [Hph Hb Hlen Hmem] Hnames Hnn Hno Hin.
  destruct (finite_choice (fun x r (y : session) => forall s, vget ss r = Some s -> exists sub,
      SubWorld (ctx s) suffix ((fun r => default [] (vget names r)) <$> orig) = Some sub /\ y = mk_session sub t /\
      member (blk ph <$> orig) (nm ++ dash ++ suffix) 0 (Z.of_nat x) sub) orig) as (subs & Hl & Hs).
  { intros x r Hr. destruct (vget_lt ss r) as [s Es].
    { unfold vsize. rewrite Hlen. apply Hin. by eapply list_elem_of_lookup_2. }
    pose proof Es as Es'. unfold vget in Es'. destruct (Z.leb_spec 0 r); [|done].
    pose proof (Hmem _ s Es') as Hm. rewrite Z2Nat.id in Hm by done.
    destruct (sub_world_member ph nm k r (ctx s) names suffix orig) as [H1 _];
      [done|done|by eapply Hnames|done|done|done|].
    destruct (H1 x Hr) as (sub & E & Hsub & _). exists (mk_session sub t). intros s' Hs'.
    rewrite Es in Hs'. injection Hs' as <-. by exists sub. }
  exists subs. split.
  - intros x r s Hr Es. destruct (lookup_lt_is_Some_2 subs x) as [y Ey].
    { rewrite Hl. by eapply lookup_lt_Some. }
    destruct (Hs x r y Hr Ey s Es) as (sub & E & -> & _). by exists sub.
  - assert (Hle : (length orig <= length ph)%nat).
    { transitivity (length (seqZ 0 (vsize ph))).
      - apply submseteq_length, NoDup_submseteq; [done|]. intros r Hr. apply elem_of_seqZ. specialize (Hin r Hr). lia.
      - rewrite length_seqZ. unfold vsize. lia. }
    split.
    + apply NoDup_fmap_2_strong; [|done]. intros r r' Hr Hr' E. by apply (blk_inj ph); [|apply Hin|apply Hin|].
    + unfold vsize in *. rewrite length_fmap. lia.
    + by rewrite length_fmap.
    + intros x y Ey. destruct (lookup_lt_is_Some_2 orig x) as [r Hr].
      { rewrite <- Hl. by eapply lookup_lt_Some. }
      destruct (vget_lt ss r) as [s Es].
      { unfold vsize. rewrite Hlen. apply Hin. by eapply list_elem_of_lookup_2. }
      by destruct (Hs x r y Hr Ey s Es) as (sub & _ & -> & Hm).
Qed.

Lemma spawn_group ph nm k ss child cc :
  group ph nm k ss -> (forall i s, ss !! i = Some s -> child_counter_ (ctx s) = cc) ->
  exists children parents,
    (forall i s, ss !! i = Some s -> exists sub c', Spawn (ctx s) child = Some (sub, c') /\
       children !! i = Some (mk_session sub (stats s)) /\ parents !! i = Some (mk_session c' (stats s))) /\
    group ph (child_name nm child cc) 0 children /\ group ph nm k parents.
Proof.
  intros [Hph Hb Hlen Hmem] Hcc.
  assert (Hi : forall i s, ss !! i = Some s -> 0 <= Z.of_nat i < vsize ph).
  { intros i s Hs. apply lookup_lt_Some in Hs. unfold vsize. lia. }
  destruct (finite_choice (fun i s (x : session * session) => exists sub c',
      Spawn (ctx s) child = Some (sub, c') /\ x = (mk_session sub (stats s), mk_session c' (stats s)) /\
      member ph (child_name nm child cc) 0 (Z.of_nat i) sub /\ member ph nm k (Z.of_nat i) c') ss)
    as (xs & Hxl & Hxs).
  { intros i s Hs. destruct (spawn_member ph nm k (Z.of_nat i) (ctx s) child cc) as (sub & c' & E & H1 & H2 & _);
      [by apply Hmem|by eapply Hi|by eapply Hcc|].
    eexists. exists sub, c'. done. }
  assert (Hx : forall i x, xs !! i = Some x -> exists s, ss !! i = Some s).
  { intros i x Hx. apply lookup_lt_is_Some_2. rewrite <- Hxl. by eapply lookup_lt_Some. }
  exists (fst <$> xs), (snd <$> xs). split; [|split].
  + intros i s Hs. destruct (lookup_lt_is_Some_2 xs i) as [x Ex].
    { rewrite Hxl. by eapply lookup_lt_Some. }
    destruct (Hxs i s x Hs Ex) as (sub & c' & E & -> & _). exists sub, c'. by rewrite !list_lookup_fmap, Ex.
  + split; [done|done|by rewrite length_fmap, Hxl|]. intros i s Hs. rewrite list_lookup_fmap in Hs.
    destruct (xs !! i) as [x|] eqn:Ex; [|done]. cbn in Hs. injection Hs as <-.
    destruct (Hx i x Ex) as [s Hs]. by destruct (Hxs i s x Hs Ex) as (sub & c' & _ & -> & H1 & _).
  + split; [done|done|by rewrite length_fmap, Hxl|]. intros i s Hs. rewrite list_lookup_fmap in Hs.
    destruct (xs !! i) as [x|] eqn:Ex; [|done]. cbn in Hs. injection Hs as <-.
    destruct (Hx i x Ex) as [s Hs]. by destruct (Hxs i s x Hs Ex) as (sub & c' & _ & -> & _ & H2).
Qed.

(** C13: Contexts made from a group. When the parties of a group spawn a context
    with the same (possibly empty) name and the same number of earlier children,
    all succeed, the spawned contexts form a group and so do the contexts they were
    spawned from. When the parties selected by distinct ranks call [SubWorld] with
    the identifiers of these ranks, all succeed and the new contexts form a group
    in the order of the selection; a party that is not selected gets an error. *)
Theorem groups_closed (ph : list Z) (nm : bytes) (k : Z) (ss : list session) (child : bytes) (cc : Z)
    (names : list bytes) (suffix : bytes) (orig : list Z) (t : Statistics) :
  group ph nm k ss ->
  (forall i s, ss !! i = Some s -> child_counter_ (ctx s) = cc) ->
  (forall i s, ss !! i = Some s -> parties (ctx s) = names) -> NoDup names -> NoDup orig ->
  (forall r, r ∈ orig -> 0 <= r < vsize ph) ->
  let ids := (fun r => default [] (vget names r)) <$> orig in
  (exists children parents,
     (forall i s, ss !! i = Some s -> exists sub c', Spawn (ctx s) child = Some (sub, c') /\
        children !! i = Some (mk_session sub (stats s)) /\ parents !! i = Some (mk_session c' (stats s))) /\
     group ph (child_name nm child cc) 0 children /\ group ph nm k parents) /\
  (exists subs,
     (forall x r s, orig !! x = Some r -> vget ss r = Some s -> exists sub,
        SubWorld (ctx s) suffix ids = Some sub /\ subs !! x = Some (mk_session sub t)) /\
     group (blk ph <$> orig) (nm ++ dash ++ suffix) 0 subs) /\
  (forall i s, ss !! i = Some s -> Z.of_nat i ∉ orig -> SubWorld (ctx s) suffix ids = None).
Proof.
  intros Hg Hcc Hnames Hnn Hno Hin ids. split; [by apply spawn_group|]. split; [by apply (sub_world_group ph nm k ss)|].
  intros i s Hs Hni. destruct (sub_world_member ph nm k (Z.of_nat i) (ctx s) names suffix orig) as [_ H];
    [by apply (group_member _ _ _ _ Hg)|apply Hg|by eapply Hnames|done|done|done|by apply H].
Qed.

Definition demo_ph3 : list Z := [10; 20; 30].

Definition demo_sessions3 : list session :=
  (fun i => mk_session (mk_context [65] [[1]; [2]; [3]] i (channels_of demo_ph3 i) 4 ∅ 0 false) (mk_stats 0 0 0 0)) <$>
  [0; 1; 2].

Lemma groups_closed_witness :
  (exists children, group demo_ph3 [65; 45; 48] 0 children) /\
  (exists subs, group [30; 10] [65; 45; 120] 0 subs) /\
  SubWorld (ctx (mk_session (mk_context [65] [[1]; [2]; [3]] 1 (channels_of demo_ph3 1) 4 ∅ 0 false)
    (mk_stats 0 0 0 0))) [120] [[3]; [1]] = None.
Proof.
  destruct (groups_closed demo_ph3 [65] 4 demo_sessions3 [] 0 [[1]; [2]; [3]] [120] [2; 0] (mk_stats 0 0 0 0))
    as ((ch & pa & _ & H1 & _) & (subs & _ & H2) & H3).
  - split; [unfold demo_ph3; repeat constructor; set_solver|reflexivity|reflexivity|].
    intros [|[|[|i]]] s Hs; cbn in Hs; simplify_eq; by split.
  - intros [|[|[|i]]] s Hs; cbn in Hs; by simplify_eq.
  - intros [|[|[|i]]] s Hs; cbn in Hs; by simplify_eq.
  - repeat constructor; set_solver.
  - repeat constructor; set_solver.
  - intros r Hr. change (vsize demo_ph3) with 3. set_solver by lia.
  - split; [exists ch; exact H1|]. split; [exists subs; exact H2|].
    apply (H3 1%nat); [reflexivity|set_solver].
Defined.
