(* ===== verification/CrHash.v ===== *)
(** Correlation-robust hashing (src/yacl/crypto/tools/crhash.cc).

    The random permutation (AES in ECB mode under a fixed key, class [RP]) is a
    parameter, applied to each block of an input on its own. A span is a list; an
    in-place function returns the list it leaves. Vector registers are 128-bit
    numbers whose lanes are read off their bits. *)

From Stdlib Require Import ZArith Lia ZifyBool Bool.
From stdpp Require Import base numbers list option.
From S2P Require Import Prelude.

Local Open Scope Z_scope.

(** *** Vector instructions *)

Definition lane64 (a k : Z) : Z := Z.shiftr a (64 * k) mod 2 ^ 64.
Definition lane32 (a k : Z) : Z := Z.shiftr a (32 * k) mod 2 ^ 32.

Definition mm_unpacklo_epi64 (a b : Z) : Z := lane64 a 0 + 2 ^ 64 * lane64 b 0.
Definition mm_unpackhi_epi64 (a b : Z) : Z := lane64 a 1 + 2 ^ 64 * lane64 b 1.

Definition mm_shuffle_epi32 (a imm : Z) : Z :=
  let sel k := lane32 a (Z.land (Z.shiftr imm (2 * k)) 3) in
  sel 0 + 2 ^ 32 * sel 1 + 2 ^ 64 * sel 2 + 2 ^ 96 * sel 3.

(** [0b01001110]. *)
Definition exchange_halves : Z := 78.

Definition kBatchSize : Z := 1024.

Section CrHash.
Context (rp : Z -> Z).

(** [Sigma] of one block. *)
Definition Sigma (x : Z) : Z :=
  let exchange := mm_shuffle_epi32 x exchange_halves in
  let left := mm_unpackhi_epi64 x 0 in
  Z.lxor exchange left.

(** One round of the loops of [Sigma] of a span and of [SigmaInplace]. *)
Definition sigma_lane (xi : Z) : Z :=
  let exchange := mm_shuffle_epi32 xi exchange_halves in
  let left := mm_unpacklo_epi64 xi 0 in
  Z.lxor exchange left.

Definition Sigma_span (x : list Z) : list Z := sigma_lane <$> x.
Definition SigmaInplace (x : list Z) : list Z := sigma_lane <$> x.

(** [RP::GenForMultiInputs]. *)
Definition GenForMultiInputs (x : list Z) : list Z := rp <$> x.

Definition CrHash_128 (x : Z) : Z := Z.lxor (rp x) x.

Definition ParaCrHash_128 (x : list Z) : list Z := zip_with Z.lxor x (GenForMultiInputs x).

(** [f] applied in place to [inout.subspan(offset, len)]. *)
Definition on_subspan (f : list Z -> list Z) (offset len : Z) (inout : list Z) : list Z :=
  take (Z.to_nat offset) inout ++
  f (take (Z.to_nat len) (drop (Z.to_nat offset) inout)) ++
  drop (Z.to_nat (offset + len)) inout.

(** One batch of [ParaCrHashInplace_128]. *)
Definition cr_batch (span : list Z) : list Z := zip_with Z.lxor (GenForMultiInputs span) span.

(** The loop over whole batches, with one unit of fuel per element. *)
Fixpoint cr_batches (fuel : nat) (offset : Z) (inout : list Z) : Z * list Z :=
  match fuel with
  | O => (offset, inout)
  | S fuel' => if offset + kBatchSize <=? vsize inout
               then cr_batches fuel' (offset + kBatchSize) (on_subspan cr_batch offset kBatchSize inout)
               else (offset, inout)
  end.

Definition ParaCrHashInplace_128 (inout : list Z) : list Z :=
  let '(offset, inout') := cr_batches (S (length inout)) 0 inout in
  let remain := vsize inout - offset in
  if 0 <? remain then on_subspan cr_batch offset remain inout' else inout'.

Definition CcrHash_128 (x : Z) : Z := CrHash_128 (Sigma x).

Definition ParaCcrHash_128 (x : list Z) : list Z := ParaCrHashInplace_128 (Sigma_span x).

Fixpoint ccr_batches (fuel : nat) (offset : Z) (inout : list Z) : Z * list Z :=
  match fuel with
  | O => (offset, inout)
  | S fuel' => if offset + kBatchSize <? vsize inout
               then ccr_batches fuel' (offset + kBatchSize)
                      (on_subspan ParaCrHashInplace_128 offset kBatchSize
                         (on_subspan SigmaInplace offset kBatchSize inout))
               else (offset, inout)
  end.

Definition ParaCcrHashInplace_128 (inout : list Z) : list Z :=
  let '(offset, inout') := ccr_batches (S (length inout)) 0 inout in
  let remain := vsize inout - offset in
  on_subspan ParaCrHashInplace_128 offset remain (on_subspan SigmaInplace offset remain inout').

(** *** Batches *)

(** A function that works element by element may be applied in batches. *)
Lemma on_subspan_map (f : list Z -> list Z) (g : Z -> Z) offset len done todo :
  (forall l, f l = g <$> l) -> 0 <= len <= vsize todo -> vsize done = offset ->
  on_subspan f offset len (done ++ todo) =
    (done ++ (g <$> take (Z.to_nat len) todo)) ++ drop (Z.to_nat len) todo.
Proof.
  intros Hf Hlen <-. unfold on_subspan, vsize in *. rewrite Nat2Z.id, take_app_length, drop_app_length, Hf.
  rewrite <- app_assoc. f_equal. f_equal. rewrite drop_app_ge by lia. f_equal. lia.
Qed.

Lemma join_batches (g : Z -> Z) done todo a k :
  ((done ++ (g <$> take a todo)) ++ (g <$> take k (drop a todo))) ++ drop k (drop a todo) =
  (done ++ (g <$> take (a + k) todo)) ++ drop (a + k) todo.
Proof. rewrite drop_drop. f_equal. rewrite <- app_assoc, <- fmap_app, take_take_drop. done. Qed.

Lemma cr_batch_map l : cr_batch l = CrHash_128 <$> l.
Proof. unfold cr_batch, GenForMultiInputs. induction l as [|x l IH]; cbn; [done|]. cbn in IH. by rewrite IH. Qed.

Lemma cr_batches_spec fuel done todo :
  (length todo < fuel)%nat -> exists k, cr_batches fuel (vsize done) (done ++ todo) =
    (vsize done + Z.of_nat k, (done ++ (CrHash_128 <$> take k todo)) ++ drop k todo) /\ (k <= length todo)%nat.
Proof.
  revert done todo. induction fuel as [|fuel IH]; intros done todo Hf; [lia|]. cbn [cr_batches].
  rewrite vsize_app. destruct (Z.leb_spec (vsize done + kBatchSize) (vsize done + vsize todo)) as [Hle | Hlt].
  - unfold kBatchSize in *. rewrite (on_subspan_map _ CrHash_128 _ _ done todo cr_batch_map) by (done || lia).
    set (done' := done ++ (CrHash_128 <$> take (Z.to_nat 1024) todo)).
    assert (Hd : vsize done + 1024 = vsize done').
    { unfold done', vsize in *. rewrite length_app, length_fmap, length_take. lia. }
    rewrite Hd. destruct (IH done' (drop (Z.to_nat 1024) todo)) as (k & E & Hk).
    { rewrite length_drop. unfold vsize in *. lia. }
    exists (Z.to_nat 1024 + k)%nat. rewrite E. rewrite length_drop in Hk. unfold vsize in *. split; [|lia].
    f_equal; [lia|]. apply join_batches.
  - exists 0%nat. rewrite Z.add_0_r. split; [|lia]. cbn. by rewrite app_nil_r.
Qed.

Lemma para_cr_inplace_map l : ParaCrHashInplace_128 l = CrHash_128 <$> l.
Proof.
  unfold ParaCrHashInplace_128. destruct (cr_batches_spec (S (length l)) [] l ltac:(lia)) as (k & E & Hk).
  cbn [app] in E. change (vsize (@nil Z)) with 0 in E. rewrite Z.add_0_l in E. rewrite E.
  destruct (Z.ltb_spec 0 (vsize l - Z.of_nat k)) as [Hr | Hr].
  - rewrite (on_subspan_map _ CrHash_128 _ _ _ (drop k l) cr_batch_map).
    + rewrite (take_ge (drop k l)), (drop_ge (drop k l)) by (rewrite length_drop; unfold vsize in *; lia).
      rewrite app_nil_r, <- fmap_app. by rewrite take_drop.
    + unfold vsize in *. rewrite length_drop. lia.
    + unfold vsize. rewrite length_fmap, length_take. lia.
  - unfold vsize in *. rewrite take_ge, drop_ge, app_nil_r by lia. done.
Qed.

Lemma para_cr_map l : ParaCrHash_128 l = CrHash_128 <$> l.
Proof.
  unfold ParaCrHash_128, GenForMultiInputs. induction l as [|x l IH]; cbn; [done|]. cbn in IH. rewrite IH.
  f_equal. apply Z.lxor_comm.
Qed.

Definition ccr (x : Z) : Z := CrHash_128 (sigma_lane x).

Lemma ccr_span_map offset len done todo :
  0 <= len <= vsize todo -> vsize done = offset ->
  on_subspan ParaCrHashInplace_128 offset len (on_subspan SigmaInplace offset len (done ++ todo)) =
    (done ++ (ccr <$> take (Z.to_nat len) todo)) ++ drop (Z.to_nat len) todo.
Proof.
  intros Hlen Hd. rewrite (on_subspan_map SigmaInplace sigma_lane) by done. rewrite <- app_assoc.
  rewrite (on_subspan_map ParaCrHashInplace_128 CrHash_128 _ _ done _ para_cr_inplace_map); [|unfold vsize in *|done].
  - rewrite take_app_ge, drop_app_ge by (rewrite length_fmap, length_take; unfold vsize in *; lia).
    rewrite length_fmap, length_take. replace (Z.to_nat len - Z.to_nat len `min` length todo)%nat with 0%nat
      by (unfold vsize in *; lia). cbn [take drop]. rewrite app_nil_r, <- list_fmap_compose. done.
  - rewrite length_app, length_fmap, length_take. lia.
Qed.

Lemma ccr_batches_spec fuel done todo :
  (length todo < fuel)%nat -> exists k, ccr_batches fuel (vsize done) (done ++ todo) =
    (vsize done + Z.of_nat k, (done ++ (ccr <$> take k todo)) ++ drop k todo) /\ (k <= length todo)%nat.
Proof.
  revert done todo. induction fuel as [|fuel IH]; intros done todo Hf; [lia|]. cbn [ccr_batches].
  rewrite vsize_app. destruct (Z.ltb_spec (vsize done + kBatchSize) (vsize done + vsize todo)) as [Hlt | Hle].
  - unfold kBatchSize in *. rewrite ccr_span_map by (done || lia).
    set (done' := done ++ (ccr <$> take (Z.to_nat 1024) todo)).
    assert (Hd : vsize done + 1024 = vsize done').
    { unfold done', vsize in *. rewrite length_app, length_fmap, length_take. lia. }
    rewrite Hd. destruct (IH done' (drop (Z.to_nat 1024) todo)) as (k & E & Hk).
    { rewrite length_drop. unfold vsize in *. lia. }
    exists (Z.to_nat 1024 + k)%nat. rewrite E. rewrite length_drop in Hk. unfold vsize in *. split; [|lia].
    f_equal; [lia|]. apply join_batches.
  - exists 0%nat. rewrite Z.add_0_r. split; [|lia]. cbn. by rewrite app_nil_r.
Qed.

Lemma para_ccr_inplace_map l : ParaCcrHashInplace_128 l = ccr <$> l.
Proof.
  unfold ParaCcrHashInplace_128. destruct (ccr_batches_spec (S (length l)) [] l ltac:(lia)) as (k & E & Hk).
  cbn [app] in E. change (vsize (@nil Z)) with 0 in E. rewrite Z.add_0_l in E. rewrite E.
  rewrite ccr_span_map.
  - rewrite (take_ge (drop k l)), (drop_ge (drop k l)) by (rewrite length_drop; unfold vsize in *; lia).
    rewrite app_nil_r, <- fmap_app. by rewrite take_drop.
  - unfold vsize in *. rewrite length_drop. lia.
  - unfold vsize. rewrite length_fmap, length_take. lia.
Qed.
End CrHash.

(** *** The linear map of the circular hash *)

Lemma testbit_join w a b j : 0 <= w -> 0 <= a < 2 ^ w -> 0 <= j ->
  Z.testbit (a + 2 ^ w * b) j = if j <? w then Z.testbit a j else Z.testbit b (j - w).
Proof.
  intros Hw Ha Hj. rewrite (Z.mul_comm (2 ^ w)). destruct (Z.ltb_spec j w).
  - rewrite <- (Z.mod_pow2_bits_low _ w j), Z_mod_plus_full, Z.mod_small by lia. done.
  - replace j with (j - w + w) at 1 by lia. rewrite <- Z.div_pow2_bits, Z.div_add by lia.
    by rewrite Z.div_small, Z.add_0_l by lia.
Qed.

Lemma testbit_lane w x k j : 0 < w -> 0 <= k -> 0 <= j ->
  Z.testbit (Z.shiftr x (w * k) mod 2 ^ w) j = (j <? w) && Z.testbit x (j + w * k).
Proof.
  intros Hw Hk Hj. destruct (Z.ltb_spec j w); cbn [andb].
  - rewrite Z.mod_pow2_bits_low, Z.shiftr_spec by lia. done.
  - by rewrite Z.mod_pow2_bits_high by lia.
Qed.

Lemma lane_range w x k : 0 < w -> 0 <= Z.shiftr x (w * k) mod 2 ^ w < 2 ^ w.
Proof. intros Hw. apply Z.mod_pos_bound. lia. Qed.

(** The shuffle with [0b01001110] exchanges the halves of a register. *)
Lemma testbit_exchange x j : 0 <= j ->
  Z.testbit (mm_shuffle_epi32 x exchange_halves) j =
    if j <? 64 then Z.testbit x (j + 64) else (j <? 128) && Z.testbit x (j - 64).
Proof.
  intros Hj. unfold mm_shuffle_epi32, exchange_halves. cbv zeta.
  change (Z.land (Z.shiftr 78 (2 * 0)) 3) with 2. change (Z.land (Z.shiftr 78 (2 * 1)) 3) with 3.
  change (Z.land (Z.shiftr 78 (2 * 2)) 3) with 0. change (Z.land (Z.shiftr 78 (2 * 3)) 3) with 1.
  unfold lane32.
  replace (Z.shiftr x (32 * 2) mod 2 ^ 32 + 2 ^ 32 * (Z.shiftr x (32 * 3) mod 2 ^ 32) +
           2 ^ 64 * (Z.shiftr x (32 * 0) mod 2 ^ 32) + 2 ^ 96 * (Z.shiftr x (32 * 1) mod 2 ^ 32))
    with (Z.shiftr x (32 * 2) mod 2 ^ 32 + 2 ^ 32 * (Z.shiftr x (32 * 3) mod 2 ^ 32 +
           2 ^ 32 * (Z.shiftr x (32 * 0) mod 2 ^ 32 + 2 ^ 32 * (Z.shiftr x (32 * 1) mod 2 ^ 32)))) by lia.
  pose proof (fun k => lane_range 32 x k ltac:(lia)) as Hr.
  rewrite testbit_join by (done || lia). destruct (Z.ltb_spec j 32).
  { rewrite testbit_lane by lia. replace (j <? 32) with true by lia. by replace (j <? 64) with true by lia. }
  rewrite testbit_join by (done || lia). destruct (Z.ltb_spec (j - 32) 32).
  { rewrite testbit_lane by lia. replace (j - 32 <? 32) with true by lia. replace (j <? 64) with true by lia.
    cbn [andb]. f_equal. lia. }
  replace (j <? 64) with false by lia.
  rewrite testbit_join by (done || lia). destruct (Z.ltb_spec (j - 32 - 32) 32).
  { rewrite testbit_lane by lia. replace (j - 32 - 32 <? 32) with true by lia. replace (j <? 128) with true by lia.
    cbn [andb]. f_equal. lia. }
  rewrite testbit_lane by lia. replace (j - 32 - 32 - 32 <? 32) with (j <? 128) by lia. f_equal. f_equal. lia.
Qed.

Lemma testbit_sigma_lane x j : 0 <= j ->
  Z.testbit (sigma_lane x) j =
    if j <? 64 then xorb (Z.testbit x (j + 64)) (Z.testbit x j) else (j <? 128) && Z.testbit x (j - 64).
Proof.
  intros Hj. unfold sigma_lane, mm_unpacklo_epi64, lane64. rewrite Z.lxor_spec, testbit_exchange by done.
  pose proof (lane_range 64 x 0 ltac:(lia)) as Hr.
  rewrite testbit_join by (done || lia). rewrite !testbit_lane by lia. destruct (Z.ltb_spec j 64); cbn [andb].
  - f_equal. f_equal. lia.
  - rewrite Z.shiftr_0_l, Z.mod_0_l, Z.bits_0 by lia. by rewrite xorb_false_r.
Qed.

(** In the version for one block the low half cancels out. *)
Lemma testbit_Sigma x j : 0 <= j ->
  Z.testbit (Sigma x) j = (64 <=? j) && (j <? 128) && Z.testbit x (j - 64).
Proof.
  intros Hj. unfold Sigma, mm_unpackhi_epi64, lane64. rewrite Z.lxor_spec, testbit_exchange by done.
  pose proof (lane_range 64 x 1 ltac:(lia)) as Hr.
  rewrite testbit_join by (done || lia). rewrite !testbit_lane by lia.
  destruct (Z.ltb_spec j 64); cbn [andb].
  - replace (64 <=? j) with false by lia. cbn [andb]. replace (j + 64 * 1) with (j + 64) by lia. apply xorb_nilpotent.
  - replace (64 <=? j) with true by lia. rewrite Z.shiftr_0_l, Z.mod_0_l, Z.bits_0 by lia. by rewrite xorb_false_r.
Qed.

Lemma sigma_lane_range x : 0 <= sigma_lane x < 2 ^ 128.
Proof.
  assert (H0 : 0 <= sigma_lane x).
  { unfold sigma_lane. apply Z.lxor_nonneg. unfold mm_shuffle_epi32, mm_unpacklo_epi64, lane64, lane32. cbv zeta.
    pose proof (fun k => lane_range 32 x k ltac:(lia)) as H1. pose proof (lane_range 64 x 0 ltac:(lia)) as H2.
    pose proof (lane_range 64 0 0 ltac:(lia)) as H3.
    pose proof (H1 (Z.land (Z.shiftr exchange_halves (2 * 0)) 3)).
    pose proof (H1 (Z.land (Z.shiftr exchange_halves (2 * 1)) 3)).
    pose proof (H1 (Z.land (Z.shiftr exchange_halves (2 * 2)) 3)).
    pose proof (H1 (Z.land (Z.shiftr exchange_halves (2 * 3)) 3)). lia. }
  split; [done|]. apply bits_bound; [lia|done|]. intros j Hj. rewrite testbit_sigma_lane by lia.
  replace (j <? 64) with false by lia. by replace (j <? 128) with false by lia.
Qed.

Lemma sigma_lane_lxor x y : sigma_lane (Z.lxor x y) = Z.lxor (sigma_lane x) (sigma_lane y).
Proof.
  apply Z.bits_inj'. intros j Hj. rewrite Z.lxor_spec, !testbit_sigma_lane, !Z.lxor_spec by done.
  destruct (j <? 64), (j <? 128); cbn [andb]; try done;
    repeat (destruct (Z.testbit _ _); try done).
Qed.

Lemma sigma_lane_kernel x : 0 <= x < 2 ^ 128 -> sigma_lane x = 0 -> x = 0.
Proof.
  intros Hx E. apply zero_bits. intros j Hj.
  assert (H : forall i, 0 <= i -> Z.testbit (sigma_lane x) i = false) by (intros; rewrite E; apply Z.bits_0).
  destruct (Z.ltb_spec j 64).
  - specialize (H (j + 64) ltac:(lia)). rewrite testbit_sigma_lane in H by lia.
    replace (j + 64 <? 64) with false in H by lia. replace (j + 64 <? 128) with true in H by lia.
    by replace (j + 64 - 64) with j in H by lia.
  - destruct (Z.ltb_spec j 128); [|by apply (testbit_high 128)].
    pose proof (H j ltac:(lia)) as B1. pose proof (H (j - 64) ltac:(lia)) as B2.
    rewrite testbit_sigma_lane in B1, B2 by lia. replace (j <? 64) with false in B1 by lia.
    replace (j <? 128) with true in B1 by lia. replace (j - 64 <? 64) with true in B2 by lia.
    cbn [andb] in B1. rewrite B1, xorb_false_r in B2. by replace (j - 64 + 64) with j in B2 by lia.
Qed.

Lemma sigma_lane_fixed x : 0 <= x < 2 ^ 128 -> sigma_lane x = x -> x = 0.
Proof.
  intros Hx E.
  assert (H : forall i, 0 <= i < 64 -> Z.testbit x (i + 64) = false /\ Z.testbit x i = false).
  { intros i Hi. pose proof (testbit_sigma_lane x i ltac:(lia)) as B1.
    pose proof (testbit_sigma_lane x (i + 64) ltac:(lia)) as B2. rewrite E in B1, B2.
    replace (i <? 64) with true in B1 by lia. replace (i + 64 <? 64) with false in B2 by lia.
    replace (i + 64 <? 128) with true in B2 by lia. replace (i + 64 - 64) with i in B2 by lia. cbn [andb] in B2.
    rewrite B2 in B1 |- *. destruct (Z.testbit x i); done. }
  apply zero_bits. intros j Hj. destruct (Z.ltb_spec j 64); [by apply (H j)|].
  destruct (Z.ltb_spec j 128); [|by apply (testbit_high 128)].
  replace j with (j - 64 + 64) by lia. apply (H (j - 64)). lia.
Qed.

Lemma lxor_block_range x y : 0 <= x < 2 ^ 128 -> 0 <= y < 2 ^ 128 -> 0 <= Z.lxor x y < 2 ^ 128.
Proof.
  intros Hx Hy. assert (0 <= Z.lxor x y) by (apply Z.lxor_nonneg; lia). split; [done|].
  apply bits_bound; [lia|done|]. intros j Hj. by rewrite Z.lxor_spec, !(testbit_high 128).
Qed.

(** A linear map without a kernel is injective. *)
Lemma linear_inj (f : Z -> Z) : (forall x y, f (Z.lxor x y) = Z.lxor (f x) (f y)) ->
  (forall x, 0 <= x < 2 ^ 128 -> f x = 0 -> x = 0) ->
  forall x y, 0 <= x < 2 ^ 128 -> 0 <= y < 2 ^ 128 -> f x = f y -> x = y.
Proof.
  intros Hl Hk x y Hx Hy E. apply Z.lxor_eq. apply Hk; [by apply lxor_block_range|].
  rewrite Hl, E. apply Z.lxor_nilpotent.
Qed.

(** Correlation-robust hashing. Whatever the permutation and the number of
    blocks (none, a part of a batch of 1024, whole batches), the batched functions
    hash every block on its own: [ParaCrHashInplace_128] and [ParaCrHash_128] apply
    [CrHash_128], and [ParaCcrHashInplace_128] agrees with [ParaCcrHash_128] in
    applying it after the linear map sigma. On 128-bit blocks sigma is what the
    circular hash needs: it is linear, it maps blocks to blocks, and both sigma and
    its sum with the identity are injective. *)
Theorem crhash_batches (rp : Z -> Z) (l : list Z) (x y : Z) :
  0 <= x < 2 ^ 128 -> 0 <= y < 2 ^ 128 ->
  ParaCrHashInplace_128 rp l = CrHash_128 rp <$> l /\
  ParaCrHash_128 rp l = CrHash_128 rp <$> l /\
  ParaCcrHashInplace_128 rp l = ((fun b => CrHash_128 rp (sigma_lane b)) <$> l) /\
  ParaCcrHash_128 rp l = ParaCcrHashInplace_128 rp l /\
  0 <= sigma_lane x < 2 ^ 128 /\
  sigma_lane (Z.lxor x y) = Z.lxor (sigma_lane x) (sigma_lane y) /\
  (sigma_lane x = sigma_lane y -> x = y) /\
  (Z.lxor (sigma_lane x) x = Z.lxor (sigma_lane y) y -> x = y).
Proof.
  intros Hx Hy. split; [apply para_cr_inplace_map|]. split; [apply para_cr_map|].
  split; [apply para_ccr_inplace_map|]. split.
  { unfold ParaCcrHash_128, Sigma_span. by rewrite para_cr_inplace_map, para_ccr_inplace_map, <- list_fmap_compose. }
  split; [apply sigma_lane_range|]. split; [apply sigma_lane_lxor|]. split.
  - by apply (linear_inj sigma_lane sigma_lane_lxor sigma_lane_kernel).
  - apply (linear_inj (fun b => Z.lxor (sigma_lane b) b)); [| |done|done].
    + intros a b. rewrite sigma_lane_lxor. apply Z.bits_inj'. intros j Hj. rewrite !Z.lxor_spec.
      repeat (destruct (Z.testbit _ _); try done).
    + intros b Hb E. apply sigma_lane_fixed; [done|]. by apply Z.lxor_eq.
Qed.

(** The single-block hash takes the high half where the batched one takes the
    low half: the low half of its sigma is 0 and the high half of its argument is
    lost, so that blocks collide that the batched hash tells apart. *)
Theorem ccr_single_collides (rp : Z -> Z) (x : Z) : 0 <= x < 2 ^ 128 ->
  CcrHash_128 rp x = CcrHash_128 rp (x mod 2 ^ 64) /\
  sigma_lane 0 <> sigma_lane (2 ^ 64) /\ Sigma 0 = Sigma (2 ^ 64).
Proof.
  intros Hx. split; [|by vm_compute]. unfold CcrHash_128. f_equal. apply Z.bits_inj'. intros j Hj.
  rewrite !testbit_Sigma by done. destruct (Z.leb_spec 64 j), (Z.ltb_spec j 128); cbn [andb]; try done.
  by rewrite Z.mod_pow2_bits_low by lia.
Qed.

Lemma crhash_batches_witness :
  ParaCcrHash_128 (fun x => x + 1) [5; 7] = ParaCcrHashInplace_128 (fun x => x + 1) [5; 7] /\
  0 <= sigma_lane (2 ^ 127 + 3) < 2 ^ 128.
Proof.
  pose proof (crhash_batches (fun x => x + 1) [5; 7] (2 ^ 127 + 3) 0 ltac:(lia) ltac:(lia))
    as (_ & _ & _ & H1 & H2 & _).
  split; [exact H1|exact H2].
Defined.
