(* ===== verification/TwoParty.v ===== *)
(** Arrays of words in messages, and two parties over peer-to-peer messages: the
    triples [runs] say what a program sends, expects and returns, and the runs of the
    two sides form a dialogue. *)

From Stdlib Require Import ZArith Lia ZifyBool Bool Sorted.
From stdpp Require Import base numbers list option gmap.
From S2P Require Import Prelude ChannelKeys OtStore LinkProgram Context LinkGroup Collectives CollectivesFacts.

Local Open Scope Z_scope.

(** The [k] bytes of a word, least significant first. *)
Fixpoint le_bytes (k : nat) (x : Z) : bytes :=
  match k with
  | O => []
  | S k' => x mod 256 :: le_bytes k' (x / 256)
  end.

Fixpoint le_value (b : bytes) : Z :=
  match b with
  | [] => 0
  | c :: b' => c + 256 * le_value b'
  end.

(** The memory of an array of words of [k] bytes. *)
Definition array_bytes (k : nat) (l : list Z) : bytes := l ≫= le_bytes k.

(** Element [i] of a buffer seen as such an array. *)
Definition elem_at (k : nat) (b : bytes) (i : Z) : option Z :=
  if (0 <=? i) && (Z.of_nat k * (i + 1) <=? vsize b)
  then Some (le_value (take k (drop (Z.to_nat (Z.of_nat k * i)) b))) else None.

(** The first [n] elements. *)
Definition read_array (k : nat) (n : Z) (b : bytes) : option (list Z) := mapM (elem_at k b) (seqZ 0 n).

(** Arrays of blocks. *)
Definition words_bytes (l : list Z) : bytes := array_bytes 16 l.

Definition word_at (b : bytes) (i : Z) : option Z :=
  if (0 <=? i) && (16 * (i + 1) <=? vsize b)
  then Some (le_value (take 16 (drop (Z.to_nat (16 * i)) b))) else None.

Lemma length_le_bytes k x : length (le_bytes k x) = k.
Proof. revert x. induction k as [|k IH]; intros x; cbn; [done|by rewrite IH]. Qed.

Lemma le_roundtrip k x : 0 <= x < 256 ^ Z.of_nat k -> le_value (le_bytes k x) = x.
Proof.
  revert x. induction k as [|k IH]; intros x Hx; cbn [le_bytes le_value]; [cbn in Hx; lia|].
  rewrite Nat2Z.inj_succ, Z.pow_succ_r in Hx by lia. rewrite IH.
  - pose proof (Z.div_mod x 256). lia.
  - split; [apply Z.div_pos; lia|]. apply Z.div_lt_upper_bound; lia.
Qed.

(** *** Arrays *)

Lemma vsize_array k l : vsize (array_bytes k l) = Z.of_nat k * vsize l.
Proof.
  unfold array_bytes, vsize. induction l as [|x l IH]; [cbn; lia|].
  cbn [mbind list_bind]. rewrite length_app, length_le_bytes. cbn [length]. cbn [mbind list_bind] in IH. lia.
Qed.

Lemma drop_array k l j : drop (k * j) (array_bytes k l) = array_bytes k (drop j l).
Proof.
  revert l. induction j as [|j IH]; intros l; [by rewrite Nat.mul_0_r|].
  destruct l as [|x l]; [change (array_bytes k []) with (@nil Z); by rewrite !drop_nil|].
  replace (k * S j)%nat with (k + k * j)%nat by lia. rewrite <- drop_drop.
  change (array_bytes k (x :: l)) with (le_bytes k x ++ array_bytes k l).
  rewrite (drop_app_length' _ _ k) by (by rewrite length_le_bytes). apply IH.
Qed.

Lemma elem_at_array k l i x : vget l i = Some x -> 0 <= x < 256 ^ Z.of_nat k -> elem_at k (array_bytes k l) i = Some x.
Proof.
  intros Hi Hx. assert (Hr : 0 <= i < vsize l) by (apply vget_Some_iff; by eexists).
  unfold elem_at. rewrite vsize_array. replace ((0 <=? i) && (_ <=? _)) with true by nia.
  f_equal. replace (Z.to_nat (Z.of_nat k * i)) with (k * Z.to_nat i)%nat by nia. rewrite drop_array.
  unfold vget in Hi. replace (0 <=? i) with true in Hi by lia. rewrite (drop_S l x _ Hi).
  change (array_bytes k (x :: drop (S (Z.to_nat i)) l)) with (le_bytes k x ++ array_bytes k (drop (S (Z.to_nat i)) l)).
  rewrite (take_app_length' _ _ k) by (by rewrite length_le_bytes). by apply le_roundtrip.
Qed.

(** An array is read back from its memory. *)
Lemma read_array_bytes k l : (forall i, 0 <= i < vsize l -> 0 <= blk l i < 256 ^ Z.of_nat k) ->
  read_array k (vsize l) (array_bytes k l) = Some l.
Proof.
  intros Hr. apply mapM_Some_2, Forall2_same_length_lookup_2; [rewrite length_seqZ; unfold vsize; lia|].
  intros i a x Ha Hx. apply lookup_seqZ in Ha as [-> Hi]. rewrite Z.add_0_l.
  assert (Hg : vget l (Z.of_nat i) = Some x) by (by rewrite <- vget_nat).
  apply elem_at_array; [done|]. pose proof (Hr (Z.of_nat i) ltac:(lia)) as H. unfold blk in H. by rewrite Hg in H.
Qed.

Lemma vsize_words l : vsize (words_bytes l) = 16 * vsize l.
Proof. apply vsize_array. Qed.

Lemma word_at_words l i x : vget l i = Some x -> 0 <= x < 2 ^ 128 -> word_at (words_bytes l) i = Some x.
Proof. exact (elem_at_array 16 l i x). Qed.

(** [YACL_ENFORCE] and accesses of store code inside a link program. *)
Definition lift {A} (r : res A) : LinkM A :=
  match r with
  | Val a => mret a
  | Err => fail Thrown
  | Bad => fail Undefined
  end.

Fixpoint for_res {St : Type} (n : nat) (i : Z) (f : Z -> St -> res St) (st : St) : res St :=
  match n with
  | O => Val st
  | S n' => st' ← f i st; for_res n' (i + 1) f st'
  end.

(** *** Loops that can fail *)

(** Two loops whose bodies agree where the invariant holds. *)
Lemma for_res_both {St : Type} (P : Z -> St -> Prop) (f g : Z -> St -> res St) n i s :
  P i s ->
  (forall k t, i <= k < i + Z.of_nat n -> P k t -> exists t', f k t = Val t' /\ g k t = Val t' /\ P (k + 1) t') ->
  exists s', for_res n i f s = Val s' /\ for_res n i g s = Val s' /\ P (i + Z.of_nat n) s'.
Proof.
  revert i s. induction n as [|n IH]; intros i s Hs Hstep; cbn [for_res].
  - exists s. split; [done|]. split; [done|]. by rewrite Z.add_0_r.
  - destruct (Hstep i s) as (s1 & -> & -> & H1); [lia|done|]. cbn [mbind res_bind].
    destruct (IH (i + 1) s1) as (s2 & -> & -> & H2); [done| |].
    + intros k t Hk Ht. apply Hstep; [lia|done].
    + exists s2. split; [done|]. split; [done|]. by replace (i + Z.of_nat (S n)) with (i + 1 + Z.of_nat n) by lia.
Qed.

Lemma for_res_inv {St : Type} (P : Z -> St -> Prop) (f : Z -> St -> res St) n i s :
  P i s ->
  (forall k t, i <= k < i + Z.of_nat n -> P k t -> exists t', f k t = Val t' /\ P (k + 1) t') ->
  exists s', for_res n i f s = Val s' /\ P (i + Z.of_nat n) s'.
Proof.
  intros Hs Hstep. destruct (for_res_both P f f n i s Hs) as (s' & E & _ & H); [|by exists s'].
  intros k t Hk Ht. destruct (Hstep k t Hk Ht) as (t' & ? & ?). by exists t'.
Qed.

(** *** The calls of a party *)

Lemma other_rank ph nm k i c : member ph nm k i c -> vsize ph = 2 -> i = 0 \/ i = 1 -> NextRank c 1 = 1 - i.
Proof.
  intros Hm Hph Hi. unfold NextRank, WorldSize, vsize in *. rewrite (member_rank _ _ _ _ _ Hm), (member_size _ _ _ _ _ Hm), Hph.
  by destruct Hi as [-> | ->].
Qed.

(** A step that neither communicates nor changes the session. *)
Lemma does_pure {A B} S p (m : LinkM A) (f : A -> LinkM B) st a c0 l b c1 :
  (forall st, m st = Ret (a, st)) -> ctx st = c0 ->
  (forall st', ctx st' = c0 -> does S p (f a) st' l b c1) -> does S p (m ≫= f) st l b c1.
Proof. intros Hm <- Hf. eapply does_bind_pure; [|exact Hf]. exists st. by rewrite Hm. Qed.

Lemma does_check {B} S p (t : bool) (f : () -> LinkM B) st c0 l b c1 :
  t = true -> ctx st = c0 ->
  (forall st', ctx st' = c0 -> does S p (f ()) st' l b c1) -> does S p (enforce t ≫= f) st l b c1.
Proof. intros ->. by apply does_pure. Qed.

Lemma does_lift {A B} S p (m : res A) (f : A -> LinkM B) st a c0 l b c1 :
  m = Val a -> ctx st = c0 ->
  (forall st', ctx st' = c0 -> does S p (f a) st' l b c1) -> does S p (lift m ≫= f) st l b c1.
Proof. intros ->. by apply does_pure. Qed.

Lemma does_ctx {B} S p (f : Context -> LinkM B) st c0 l b c1 :
  ctx st = c0 ->
  (forall st', ctx st' = c0 -> does S p (f c0) st' l b c1) -> does S p (the_ctx ≫= f) st l b c1.
Proof. intros <- Hf. eapply does_bind_pure; [apply does_the_ctx|exact Hf]. Qed.

Lemma does_send_then {B} S ph nm k i j p q a v (f : () -> LinkM B) st c0 l b c1 :
  ctx st = c0 -> member ph nm k i c0 -> vget ph j = Some q -> j <> i -> p2p_count c0 i j = a -> a < 2 ^ 31 - 1 ->
  S (p, q, p2p_id nm (a + 1) i j) = Some v ->
  (forall st', ctx st' = p2p_next i j c0 -> does S p (f ()) st' l b c1) ->
  does S p (SendAsync j v ≫= f) st (Sent (p, q, p2p_id nm (a + 1) i j) :: l) b c1.
Proof.
  intros <- Hm Hq Hj <- Ha HS Hf. eapply (does_bind _ _ _ _ _ [_]); [|exact Hf]. by eapply does_SendAsync.
Qed.

Lemma does_recv_then {B} S ph nm k i j p q a v (f : bytes -> LinkM B) st c0 l b c1 :
  ctx st = c0 -> member ph nm k i c0 -> vget ph j = Some q -> j <> i -> p2p_count c0 j i = a -> a < 2 ^ 31 - 1 ->
  S (q, p, p2p_id nm (a + 1) j i) = Some v ->
  (forall st', ctx st' = p2p_next j i c0 -> does S p (f v) st' l b c1) ->
  does S p (Recv j ≫= f) st (Received (q, p, p2p_id nm (a + 1) j i) :: l) b c1.
Proof.
  intros <- Hm Hq Hj <- Ha HS Hf. eapply (does_bind _ _ _ _ _ [_]); [|exact Hf]. by eapply does_Recv.
Qed.

(** Steps of a program in session [st] whose context is known by [Hst]. *)
Ltac next_session st Hst := clear st Hst; intros st Hst.
Ltac checks st Hst := eapply does_check; [lia || done|exact Hst|]; next_session st Hst.
Ltac lifts st Hst E := eapply does_lift; [exact E|exact Hst|]; next_session st Hst.
Ltac reads_ctx st Hst := eapply does_ctx; [exact Hst|]; next_session st Hst.
Ltac sends st Hst Hc V :=
  eapply does_send_then; [exact Hst|eauto using member_p2p|apply vget_at; lia|lia|exact Hc|lia|exact V|]; next_session st Hst.
Ltac receives st Hst Hc V :=
  eapply does_recv_then; [exact Hst|eauto using member_p2p|apply vget_at; lia|lia|exact Hc|lia|exact V|]; next_session st Hst.

(** *** Runs with a postcondition *)

Definition runs {A} (S : slot -> option bytes) (p : Z) (m : LinkM A) (st : session) (l : list call) (c : Context)
    (Q : A -> Prop) : Prop :=
  exists a, does S p m st l a c /\ Q a.

Lemma runs_bind {A B} S p (m : LinkM A) (f : A -> LinkM B) st l1 c1 l2 c2 P Q :
  runs S p m st l1 c1 P -> (forall a st', P a -> ctx st' = c1 -> runs S p (f a) st' l2 c2 Q) ->
  runs S p (m ≫= f) st (l1 ++ l2) c2 Q.
Proof.
  intros (a & (st1 & T1 & C1) & HP) Hf. destruct (Hf a st1 HP C1) as (b & (st2 & T2 & C2) & HQ).
  exists b. split; [|done]. exists st2. split; [|done]. unfold mbind, LinkM_bind. by eapply trace_bind.
Qed.

Lemma runs_does {A B} S p (m : LinkM A) (f : A -> LinkM B) st l1 a c1 l2 c2 Q :
  does S p m st l1 a c1 -> (forall st', ctx st' = c1 -> runs S p (f a) st' l2 c2 Q) ->
  runs S p (m ≫= f) st (l1 ++ l2) c2 Q.
Proof. intros Hm Hf. apply (runs_bind S p m f st l1 c1 l2 c2 (eq a)); [by exists a|]. intros ? st' <-. apply Hf. Qed.

Lemma runs_ret {A} S p st c (a : A) (Q : A -> Prop) : ctx st = c -> Q a -> runs S p (mret a) st [] c Q.
Proof. intros <- HQ. exists a. split; [apply does_ret|done]. Qed.

Lemma runs_lift {A B} S p (m : res A) (f : A -> LinkM B) st a c0 l c1 Q :
  m = Val a -> ctx st = c0 ->
  (forall st', ctx st' = c0 -> runs S p (f a) st' l c1 Q) -> runs S p (lift m ≫= f) st l c1 Q.
Proof. intros -> <- Hf. apply (runs_does S p _ f st [] a (ctx st) l c1 Q (does_ret S p st a) Hf). Qed.

Lemma runs_check {B} S p (t : bool) (f : () -> LinkM B) st c0 l c1 Q :
  t = true -> ctx st = c0 ->
  (forall st', ctx st' = c0 -> runs S p (f ()) st' l c1 Q) -> runs S p (enforce t ≫= f) st l c1 Q.
Proof. intros -> <- Hf. apply (runs_does S p _ f st [] () (ctx st) l c1 Q (does_ret S p st ()) Hf). Qed.

Lemma runs_ctx {B} S p (f : Context -> LinkM B) st c0 l c1 Q :
  ctx st = c0 -> (forall st', ctx st' = c0 -> runs S p (f c0) st' l c1 Q) -> runs S p (the_ctx ≫= f) st l c1 Q.
Proof. intros <- Hf. apply (runs_does S p _ f st [] (ctx st) (ctx st) l c1 Q); [apply does_the_ctx|exact Hf]. Qed.

Lemma runs_send_then {B} S ph nm k i j p q a v (f : () -> LinkM B) st c0 l c1 Q :
  ctx st = c0 -> member ph nm k i c0 -> vget ph j = Some q -> j <> i -> p2p_count c0 i j = a -> a < 2 ^ 31 - 1 ->
  S (p, q, p2p_id nm (a + 1) i j) = Some v ->
  (forall st', ctx st' = p2p_next i j c0 -> runs S p (f ()) st' l c1 Q) ->
  runs S p (SendAsync j v ≫= f) st (Sent (p, q, p2p_id nm (a + 1) i j) :: l) c1 Q.
Proof. intros <- Hm Hq Hj <- Ha HS Hf. eapply (runs_does S p _ _ _ [_]); [by eapply does_SendAsync|exact Hf]. Qed.

Lemma runs_recv_then {B} S ph nm k i j p q a v (f : bytes -> LinkM B) st c0 l c1 Q :
  ctx st = c0 -> member ph nm k i c0 -> vget ph j = Some q -> j <> i -> p2p_count c0 j i = a -> a < 2 ^ 31 - 1 ->
  S (q, p, p2p_id nm (a + 1) j i) = Some v ->
  (forall st', ctx st' = p2p_next j i c0 -> runs S p (f v) st' l c1 Q) ->
  runs S p (Recv j ≫= f) st (Received (q, p, p2p_id nm (a + 1) j i) :: l) c1 Q.
Proof. intros <- Hm Hq Hj <- Ha HS Hf. eapply (runs_does S p _ _ _ [_]); [by eapply does_Recv|exact Hf]. Qed.

(** A loop whose iteration [k] starts in context [C k]. *)
Lemma runs_for {St} S p n i (f : Z -> St -> LinkM St) (calls : Z -> list call) (C : Z -> Context)
    (Inv : Z -> St -> Prop) t st :
  Inv i t -> ctx st = C i ->
  (forall k t st', i <= k < i + Z.of_nat n -> Inv k t -> ctx st' = C k ->
     runs S p (f k t) st' (calls k) (C (k + 1)) (Inv (k + 1))) ->
  runs S p (for_prog n i f t) st (mjoin (calls <$> seqZ i (Z.of_nat n))) (C (i + Z.of_nat n)) (Inv (i + Z.of_nat n)).
Proof.
  intros Hi Hst Hf. destruct (does_for_ctx S p n i f calls C Inv t st Hi Hst) as (t' & D & H); [|by exists t'].
  intros k t1 st1 Hk Ht Hst1. exact (Hf k t1 st1 Hk Ht Hst1).
Qed.

(** The same steps, under a postcondition. *)
Ltac runs_checks st Hst :=
  eapply runs_check; [lia || done || by apply bool_decide_eq_true_2|exact Hst|]; next_session st Hst.
Ltac runs_lifts st Hst E := eapply runs_lift; [exact E|exact Hst|]; next_session st Hst.
Ltac runs_reads_ctx st Hst := eapply runs_ctx; [exact Hst|]; next_session st Hst.
Ltac runs_sends st Hst Hc V :=
  eapply runs_send_then; [exact Hst|eauto using member_p2p|apply vget_at; lia|lia|exact Hc|lia|exact V|]; next_session st Hst.
Ltac runs_receives st Hst Hc V :=
  eapply runs_recv_then; [exact Hst|eauto using member_p2p|apply vget_at; lia|lia|exact Hc|lia|exact V|]; next_session st Hst.

(** *** Two parties *)

Lemma two_party_return {A} (ph : list Z) (ms : list (prog A)) (S : slot -> option bytes) (τ : slot -> nat)
    (rr : Z) pr ps (calls_r calls_s : list call) (Post : Z -> A -> Prop) :
  NoDup ph -> vsize ph = 2 -> rr = 0 \/ rr = 1 -> vsize ms = 2 ->
  vget ms rr = Some pr -> vget ms (1 - rr) = Some ps ->
  (exists a, trace S (blk ph rr) pr = Some (calls_r, a) /\ Post rr a) ->
  (exists a, trace S (blk ph (1 - rr)) ps = Some (calls_s, a) /\ Post (1 - rr) a) ->
  NoDup calls_r /\ StronglySorted (in_time τ) calls_r -> NoDup calls_s /\ StronglySorted (in_time τ) calls_s ->
  (forall m, Received m ∈ calls_r -> m.1.1 = blk ph (1 - rr) /\ Sent m ∈ calls_s) ->
  (forall m, Received m ∈ calls_s -> m.1.1 = blk ph rr /\ Sent m ∈ calls_r) ->
  all_return ph ms Post.
Proof.
  intros Hnd Hph Hrr Hms Hpr Hps Tr Ts [N1 S1] [N2 S2] Ar As.
  set (calls := fun i => if i =? rr then calls_r else calls_s).
  assert (Hsides : forall i, (i < length ph)%nat -> Z.of_nat i = rr \/ Z.of_nat i = 1 - rr /\ 1 - rr <> rr).
  { intros i Hi. unfold vsize in Hph. lia. }
  assert (Hat : forall i, i = 0 \/ i = 1 -> ph !! Z.to_nat i = Some (blk ph i)).
  { intros i Hi. pose proof (vget_at ph i ltac:(lia)) as H. unfold vget in H. by replace (0 <=? i) with true in H by lia. }
  destruct (planned_return ph ms S τ calls Post) as (rs & Hplan & Hrs).
  - done.
  - unfold vsize in *. lia.
  - intros i p m Hp Hm. pose proof (blk_nat ph i p Hp) as <-. rewrite vget_nat in Hm. unfold calls.
    destruct (Hsides i ltac:(by eapply lookup_lt_Some)) as [E | [E Hne]]; rewrite E in *.
    + rewrite Z.eqb_refl. by simplify_eq.
    + rewrite (proj2 (Z.eqb_neq _ _) Hne). by simplify_eq.
  - intros i m Hi Hm. unfold calls in Hm. destruct (Hsides i Hi) as [E | [E Hne]]; rewrite E in Hm.
    + rewrite Z.eqb_refl in Hm. destruct (Ar m Hm) as [-> Hs]. exists (Z.to_nat (1 - rr)).
      rewrite Hat by lia. split; [done|]. unfold calls. rewrite Z2Nat.id by lia.
      by replace (1 - rr =? rr) with false by lia.
    + rewrite (proj2 (Z.eqb_neq _ _) Hne) in Hm. destruct (As m Hm) as [-> Hs]. exists (Z.to_nat rr).
      rewrite Hat by lia. split; [done|]. unfold calls. rewrite Z2Nat.id by lia. by rewrite Z.eqb_refl.
  - exists rs. split; [by eapply plan_completes|done].
Qed.

(** *** Dialogues

    Two parties that exchange the messages [ms] one after the other. *)

Definition calls_of (p : Z) (ms : list slot) : list call :=
  (fun m => if m.1.1 =? p then Sent m else Received m) <$> ms.

Lemma NoDup_calls_of p ms : NoDup ms -> NoDup (calls_of p ms).
Proof.
  intros H. apply NoDup_fmap_2; [|done]. intros m m' E. cbn in E. destruct (m.1.1 =? p), (m'.1.1 =? p); by simplify_eq.
Qed.

Lemma sorted_calls_of p ms (τ : slot -> nat) : (forall i m, ms !! i = Some m -> τ m = i) ->
  StronglySorted (in_time τ) (calls_of p ms).
Proof.
  intros Hτ. unfold calls_of.
  assert (H : forall k, (forall i m, ms !! i = Some m -> τ m = (k + i)%nat) ->
    StronglySorted (in_time τ) ((fun m => if m.1.1 =? p then Sent m else Received m) <$> ms)); [|by apply (H 0%nat)].
  clear Hτ. induction ms as [|m ms IH]; intros k Hτ; [constructor|]. cbn [fmap list_fmap]. constructor.
  - apply (IH (Datatypes.S k)). intros i m' Hm'. rewrite (Hτ (Datatypes.S i) m' Hm'). lia.
  - apply Forall_fmap, Forall_forall. intros m' Hm'. apply list_elem_of_lookup in Hm' as [i Hi].
    pose proof (Hτ 0%nat m eq_refl). pose proof (Hτ (Datatypes.S i) m' Hi).
    cbn. destruct (m.1.1 =? p), (m'.1.1 =? p); cbn; try done. lia.
Qed.

Lemma received_calls_of p ms m : Received m ∈ calls_of p ms <-> m ∈ ms /\ m.1.1 <> p.
Proof.
  unfold calls_of. rewrite list_elem_of_fmap. split.
  - intros (m' & E & Hm). destruct (Z.eqb_spec m'.1.1 p); by simplify_eq.
  - intros [Hm Hne]. exists m. by rewrite (proj2 (Z.eqb_neq _ _) Hne).
Qed.

Lemma sent_calls_of ms m : m ∈ ms -> Sent m ∈ calls_of m.1.1 ms.
Proof. intros Hm. apply list_elem_of_fmap. exists m. by rewrite Z.eqb_refl. Qed.

(** The value of every message. *)
Definition values_of (msgs : list (slot * bytes)) (m : slot) : option bytes := (list_to_map msgs : gmap slot bytes) !! m.

Lemma values_of_elem msgs m v : NoDup msgs.*1 -> (m, v) ∈ msgs -> values_of msgs m = Some v.
Proof. intros Hnd Hm. by apply elem_of_list_to_map_1. Qed.

Lemma dialogue_return {A} (ph : list Z) (ms : list (prog A)) (S : slot -> option bytes) (slots : list slot)
    (rr : Z) pr ps (Post : Z -> A -> Prop) :
  NoDup ph -> vsize ph = 2 -> rr = 0 \/ rr = 1 -> vsize ms = 2 ->
  vget ms rr = Some pr -> vget ms (1 - rr) = Some ps ->
  NoDup slots -> (forall m, m ∈ slots -> m.1.1 = blk ph rr \/ m.1.1 = blk ph (1 - rr)) ->
  (exists a, trace S (blk ph rr) pr = Some (calls_of (blk ph rr) slots, a) /\ Post rr a) ->
  (exists a, trace S (blk ph (1 - rr)) ps = Some (calls_of (blk ph (1 - rr)) slots, a) /\ Post (1 - rr) a) ->
  all_return ph ms Post.
Proof.
  intros Hnd Hph Hrr Hms Hpr Hps Hsl Hside Tr Ts.
  set (τ := fun m => default 0%nat (fst <$> list_find (eq m) slots)).
  assert (Hτ : forall i m, slots !! i = Some m -> τ m = i).
  { intros i m Hi. unfold τ. destruct (list_find (eq m) slots) as [[j x]|] eqn:E; cbn.
    - apply list_find_Some in E as (Hj & <- & _). by eapply NoDup_lookup.
    - apply list_find_None in E. rewrite Forall_forall in E. exfalso. eapply E; [by eapply list_elem_of_lookup_2|done]. }
  eapply (two_party_return ph ms S τ rr pr ps _ _ Post Hnd Hph Hrr Hms Hpr Hps Tr Ts).
  1-2: split; [by apply NoDup_calls_of|by apply sorted_calls_of].
  - intros m Hm. apply received_calls_of in Hm as [Hm Hne]. destruct (Hside m Hm) as [E | E]; [done|].
    split; [done|]. rewrite <- E. by apply sent_calls_of.
  - intros m Hm. apply received_calls_of in Hm as [Hm Hne]. destruct (Hside m Hm) as [E | E]; [|done].
    split; [done|]. rewrite <- E. by apply sent_calls_of.
Qed.

(** The sessions of the receiver and of the sender. *)
Lemma two_sessions ph nm k ss rr : group ph nm k ss -> vsize ph = 2 -> rr = 0 \/ rr = 1 ->
  exists sr sd, vget ss rr = Some sr /\ vget ss (1 - rr) = Some sd /\
    member ph nm k rr (ctx sr) /\ member ph nm k (1 - rr) (ctx sd) /\ sr ∈ ss /\ sd ∈ ss.
Proof.
  intros Hg Hph Hrr. pose proof (group_size _ _ _ _ Hg) as Hl. unfold vsize in Hph.
  assert (H : forall i, i = 0 \/ i = 1 -> exists st, vget ss i = Some st /\ member ph nm k i (ctx st) /\ st ∈ ss).
  { intros i Hi. destruct (vget_lt ss i) as [st E]; [unfold vsize; lia|]. exists st.
    pose proof E as E'. unfold vget in E'. destruct (Z.leb_spec 0 i); [|lia].
    split; [done|]. split; [|by eapply list_elem_of_lookup_2].
    rewrite <- (Z2Nat.id i) by lia. by apply (group_member _ _ _ _ Hg). }
  destruct (H rr Hrr) as (sr & ? & ? & ?). destruct (H (1 - rr) ltac:(lia)) as (sd & ? & ? & ?). by exists sr, sd.
Qed.

Lemma vget_imap {A B} (f : nat -> A -> B) l i : vget (imap f l) i = f (Z.to_nat i) <$> vget l i.
Proof. unfold vget. destruct (0 <=? i); [|done]. apply list_lookup_imap. Qed.
