(* ===== verification/Dialogue.v ===== *)
(** A relational logic for two-party protocols. [converse da db ms mr Q] says that
    the programs of a sender and of a receiver, started with agreeing contexts,
    answer each other: there is a sequence of messages that both exchange, at most
    [da] from the receiver and [db] from the sender, and results that [Q] relates.
    The rules follow the programs; [converse_return] concludes that both parties
    return under every schedule. *)

From Stdlib Require Import ZArith Lia ZifyBool Bool Sorted.
From stdpp Require Import base numbers list option gmap.
From S2P Require Import Prelude ChannelKeys OtStore LinkProgram Context LinkGroup Collectives CollectivesFacts.
From S2P Require Import ContextTheorems TwoParty.

Local Open Scope Z_scope.

Section Dialogue.
Context (ph : list Z) (nm : bytes) (k rr : Z).
Hypothesis Hnd : NoDup ph.
Hypothesis Hph : vsize ph = 2.
Hypothesis Hrr : rr = 0 \/ rr = 1.

(** Message [t] from the receiver and from the sender. *)
Definition from_recv (t : Z) : slot := (blk ph rr, blk ph (1 - rr), p2p_id nm (t + 1) rr (1 - rr)).
Definition from_send (t : Z) : slot := (blk ph (1 - rr), blk ph rr, p2p_id nm (t + 1) (1 - rr) rr).

(** The context of party [i] after [a] messages from the receiver and [b] from the sender. *)
Definition counts (i a b : Z) (c : Context) : Prop :=
  member ph nm k i c /\ p2p_count c rr (1 - rr) = a /\ p2p_count c (1 - rr) rr = b.

Definition party_runs {A} (i : Z) (m : LinkM A) (a b : Z) (msgs : list (slot * bytes)) (a' b' : Z) (x : A) : Prop :=
  forall S, (forall s v, (s, v) ∈ msgs -> S s = Some v) ->
  forall st, counts i a b (ctx st) ->
  exists st', trace S (blk ph i) (m st) = Some (calls_of (blk ph i) msgs.*1, (x, st')) /\ counts i a' b' (ctx st').

Definition between (a b a' b' : Z) (s : slot) : Prop :=
  (exists t, a <= t < a' /\ s = from_recv t) \/ (exists t, b <= t < b' /\ s = from_send t).

Record dialogue {A B} (a b : Z) (ms : LinkM A) (mr : LinkM B) (a' b' : Z) (x : A) (y : B) (msgs : list (slot * bytes))
  : Prop := {
  dialogue_nodup : NoDup msgs.*1;
  dialogue_between s : s ∈ msgs.*1 -> between a b a' b' s;
  dialogue_send : party_runs (1 - rr) ms a b msgs a' b' x;
  dialogue_recv : party_runs rr mr a b msgs a' b' y
}.

(** The counters of messages are [int]. *)
Definition max_count : Z := 2 ^ 31 - 1.

Definition converse {A B} (da db : N) (ms : LinkM A) (mr : LinkM B) (Q : A -> B -> Prop) : Prop :=
  forall a b, 0 <= a -> a + Z.of_N da <= max_count -> 0 <= b -> b + Z.of_N db <= max_count ->
  exists a' b' x y msgs, a <= a' <= a + Z.of_N da /\ b <= b' <= b + Z.of_N db /\ dialogue a b ms mr a' b' x y msgs /\ Q x y.

(** *** Slots *)

Lemma parties_differ : blk ph rr <> blk ph (1 - rr).
Proof using All. intros E. apply blk_inj in E; lia || done. Qed.

Lemma between_disjoint a b a' b' a'' b'' s : 0 <= a -> a' <= a'' -> 0 <= b -> b' <= b'' -> a'' <= max_count -> b'' <= max_count ->
  between a b a' b' s -> between a' b' a'' b'' s -> False.
Proof using All.
  pose proof parties_differ as Hne. unfold max_count. intros H1 H2 H3 H4 H5 H6 [(t & Ht & ->)|(t & Ht & ->)] [(u & Hu & E)|(u & Hu & E)];
    unfold from_recv, from_send in E; simplify_eq; apply p2p_id_inj in E; lia.
Qed.

Lemma between_mono a b a' b' c d c' d' s : between a b a' b' s -> c <= a -> d <= b -> a' <= c' -> b' <= d' -> between c d c' d' s.
Proof using All.
  intros [(t & Ht & ->)|(t & Ht & ->)] H1 H2 H3 H4; [left|right]; exists t; (split; [lia|done]).
Qed.

(** *** Rules *)

Lemma converse_weaken {A B} da db da' db' (ms : LinkM A) (mr : LinkM B) (Q R : A -> B -> Prop) :
  converse da db ms mr Q -> (da <= da')%N -> (db <= db')%N -> (forall x y, Q x y -> R x y) -> converse da' db' ms mr R.
Proof using All.
  intros H Ha Hb HR a b H1 H2 H3 H4. destruct (H a b) as (a' & b' & x & y & msgs & E1 & E2 & D & HQ); [lia..|].
  exists a', b', x, y, msgs. split; [lia|]. split; [lia|]. split; [done|]. by apply HR.
Qed.

Lemma converse_ret {A B} (x : A) (y : B) (Q : A -> B -> Prop) : Q x y -> converse 0 0 (mret x) (mret y) Q.
Proof using All.
  intros HQ a b H1 H2 H3 H4. exists a, b, x, y, []. split; [lia|]. split; [lia|]. split; [|done].
  split; [constructor|intros s Hs; by apply elem_of_nil in Hs|..]; intros S HS st Hst; by exists st.
Qed.

Lemma party_runs_bind {A B} i (m : LinkM A) (f : A -> LinkM B) a b msgs a' b' x msgs' a'' b'' y :
  party_runs i m a b msgs a' b' x -> party_runs i (f x) a' b' msgs' a'' b'' y ->
  party_runs i (m ≫= f) a b (msgs ++ msgs') a'' b'' y.
Proof using All.
  intros H1 H2 S HS st Hst. destruct (H1 S) with st as (st1 & T1 & C1); [intros s v Hs; apply HS; set_solver|done|].
  destruct (H2 S) with st1 as (st2 & T2 & C2); [intros s v Hs; apply HS; set_solver|done|].
  exists st2. split; [|done]. unfold calls_of. rewrite !fmap_app. unfold mbind, LinkM_bind. by eapply trace_bind.
Qed.

Lemma converse_bind {A B C D} da db da' db' (ms : LinkM A) (mr : LinkM B) (fs : A -> LinkM C) (fr : B -> LinkM D)
    (Q : A -> B -> Prop) (R : C -> D -> Prop) :
  converse da db ms mr Q -> (forall x y, Q x y -> converse da' db' (fs x) (fr y) R) ->
  converse (da + da')%N (db + db')%N (ms ≫= fs) (mr ≫= fr) R.
Proof using All.
  intros H1 H2 a b Ha0 Hda Hb0 Hdb.
  destruct (H1 a b) as (a' & b' & x & y & msgs & E1 & E2 & [N1 B1 S1 R1] & HQ); [lia..|].
  destruct (H2 x y HQ a' b') as (a'' & b'' & x' & y' & msgs' & E1' & E2' & [N2 B2 S2 R2] & HR); [lia..|].
  exists a'', b'', x', y', (msgs ++ msgs'). split; [lia|]. split; [lia|]. split; [|done]. split.
  - rewrite fmap_app. apply NoDup_app. split; [done|]. split; [|done]. intros s Hs Hs'.
    apply (between_disjoint a b a' b' a'' b'' s); try lia; [by apply B1|by apply B2].
  - intros s. rewrite fmap_app, elem_of_app. intros [Hs|Hs].
    + eapply between_mono; [by apply B1|lia..].
    + eapply between_mono; [by apply B2|lia..].
  - by eapply party_runs_bind.
  - by eapply party_runs_bind.
Qed.

(** When only the first, or only the second part communicates. *)
Lemma converse_then {A B C D} da db (ms : LinkM A) (mr : LinkM B) (fs : A -> LinkM C) (fr : B -> LinkM D)
    (Q : A -> B -> Prop) (R : C -> D -> Prop) :
  converse da db ms mr Q -> (forall x y, Q x y -> converse 0 0 (fs x) (fr y) R) -> converse da db (ms ≫= fs) (mr ≫= fr) R.
Proof using All. intros H1 H2. rewrite <- (N.add_0_r da), <- (N.add_0_r db). by eapply converse_bind. Qed.

Lemma converse_after {A B C D} da db (ms : LinkM A) (mr : LinkM B) (fs : A -> LinkM C) (fr : B -> LinkM D)
    (Q : A -> B -> Prop) (R : C -> D -> Prop) :
  converse 0 0 ms mr Q -> (forall x y, Q x y -> converse da db (fs x) (fr y) R) -> converse da db (ms ≫= fs) (mr ≫= fr) R.
Proof using All. intros H1 H2. rewrite <- (N.add_0_l da), <- (N.add_0_l db). by eapply converse_bind. Qed.

(** Steps of one party that neither communicate nor change its session. *)
Lemma converse_pure_l {A B C} da db (m : LinkM A) (f : A -> LinkM B) (mr : LinkM C) x Q :
  (forall st, m st = Ret (x, st)) -> converse da db (f x) mr Q -> converse da db (m ≫= f) mr Q.
Proof using All.
  intros Hm H a b H1 H2 H3 H4. destruct (H a b H1 H2 H3 H4) as (a' & b' & x' & y & msgs & E1 & E2 & [N B0 S R] & HQ).
  exists a', b', x', y, msgs. split; [done|]. split; [done|]. split; [|done]. split; [done|done| |done].
  intros S' HS st Hst. destruct (S S' HS st Hst) as (st' & T & C'). exists st'. split; [|done].
  unfold mbind, LinkM_bind. rewrite Hm. exact T.
Qed.

Lemma converse_pure_r {A B C} da db (m : LinkM A) (f : A -> LinkM B) (ms : LinkM C) x Q :
  (forall st, m st = Ret (x, st)) -> converse da db ms (f x) Q -> converse da db ms (m ≫= f) Q.
Proof using All.
  intros Hm H a b H1 H2 H3 H4. destruct (H a b H1 H2 H3 H4) as (a' & b' & x' & y & msgs & E1 & E2 & [N B0 S R] & HQ).
  exists a', b', x', y, msgs. split; [done|]. split; [done|]. split; [|done]. split; [done|done|done|].
  intros S' HS st Hst. destruct (R S' HS st Hst) as (st' & T & C'). exists st'. split; [|done].
  unfold mbind, LinkM_bind. rewrite Hm. exact T.
Qed.

Lemma converse_lift_l {A B C} da db (m : res A) (f : A -> LinkM B) (mr : LinkM C) x Q :
  m = Val x -> converse da db (f x) mr Q -> converse da db (lift m ≫= f) mr Q.
Proof using All. intros ->. by apply converse_pure_l. Qed.

Lemma converse_lift_r {A B C} da db (m : res A) (f : A -> LinkM B) (ms : LinkM C) x Q :
  m = Val x -> converse da db ms (f x) Q -> converse da db ms (lift m ≫= f) Q.
Proof using All. intros ->. by apply converse_pure_r. Qed.

Lemma converse_check_l {B C} da db (t : bool) (f : () -> LinkM B) (mr : LinkM C) Q :
  t = true -> converse da db (f ()) mr Q -> converse da db (enforce t ≫= f) mr Q.
Proof using All. intros ->. by apply converse_pure_l. Qed.

Lemma converse_check_r {B C} da db (t : bool) (f : () -> LinkM B) (ms : LinkM C) Q :
  t = true -> converse da db ms (f ()) Q -> converse da db ms (enforce t ≫= f) Q.
Proof using All. intros ->. by apply converse_pure_r. Qed.

(** The context: a program uses it for the rank of the other party and the number
    of parties. *)
Lemma counts_ctx i a b c : (i = 0 \/ i = 1) -> counts i a b c -> NextRank c 1 = 1 - i /\ WorldSize c = 2.
Proof using All.
  intros Hi (Hm & _). split; [by eapply other_rank|]. unfold WorldSize, vsize in *. by rewrite (member_size _ _ _ _ _ Hm).
Qed.

Lemma converse_ctx_l {B C} da db (f : Context -> LinkM B) (g : LinkM B) (mr : LinkM C) Q :
  (forall c, NextRank c 1 = rr -> WorldSize c = 2 -> f c = g) ->
  converse da db g mr Q -> converse da db (the_ctx ≫= f) mr Q.
Proof using All.
  intros Hf H a b H1 H2 H3 H4. destruct (H a b H1 H2 H3 H4) as (a' & b' & x' & y & msgs & E1 & E2 & [N B0 S R] & HQ).
  exists a', b', x', y, msgs. split; [done|]. split; [done|]. split; [|done]. split; [done|done| |done].
  intros S' HS st Hst. destruct (S S' HS st Hst) as (st' & T & C'). exists st'. split; [|done].
  destruct (counts_ctx (1 - rr) a b (ctx st) ltac:(lia) Hst) as [E W]. replace (1 - (1 - rr)) with rr in E by lia.
  rewrite <- (Hf (ctx st) E W) in T. exact T.
Qed.

Lemma converse_ctx_r {B C} da db (f : Context -> LinkM B) (g : LinkM B) (ms : LinkM C) Q :
  (forall c, NextRank c 1 = 1 - rr -> WorldSize c = 2 -> f c = g) ->
  converse da db ms g Q -> converse da db ms (the_ctx ≫= f) Q.
Proof using All.
  intros Hf H a b H1 H2 H3 H4. destruct (H a b H1 H2 H3 H4) as (a' & b' & x' & y & msgs & E1 & E2 & [N B0 S R] & HQ).
  exists a', b', x', y, msgs. split; [done|]. split; [done|]. split; [|done]. split; [done|done|done|].
  intros S' HS st Hst. destruct (R S' HS st Hst) as (st' & T & C'). exists st'. split; [|done].
  destruct (counts_ctx rr a b (ctx st) ltac:(lia) Hst) as [E W]. rewrite <- (Hf (ctx st) E W) in T. exact T.
Qed.

(** *** Messages *)

Lemma counts_up i a b c : counts i a b c -> counts i (a + 1) b (p2p_next rr (1 - rr) c).
Proof using All.
  intros (Hm & Ha & Hb). split; [by apply member_p2p|].
  rewrite !p2p_count_next, bool_decide_eq_true_2, bool_decide_eq_false_2 by (done || intros [=]; lia). cbn. lia.
Qed.

Lemma counts_down i a b c : counts i a b c -> counts i a (b + 1) (p2p_next (1 - rr) rr c).
Proof using All.
  intros (Hm & Ha & Hb). split; [by apply member_p2p|].
  rewrite !p2p_count_next, bool_decide_eq_false_2, bool_decide_eq_true_2 by (done || intros [=]; lia). cbn. lia.
Qed.

Lemma party_sends i j s v a b a' b' : (i = 0 \/ i = 1) -> j = 1 - i ->
  (forall c, counts i a b c -> counts i a' b' (p2p_next i j c) /\ p2p_count c i j < max_count /\
     s = (blk ph i, blk ph j, p2p_id nm (p2p_count c i j + 1) i j)) ->
  party_runs i (SendAsync j v) a b [(s, v)] a' b' ().
Proof using All.
  intros Hi -> Hc S HS st Hst. destruct (Hc _ Hst) as (Hc' & Hlt & E). pose proof Hst as (Hm & _).
  destruct (does_SendAsync S ph nm k i st (1 - i) (blk ph i) (blk ph (1 - i)) v Hm) as (st' & T & C');
    [apply vget_at; lia|lia|done|rewrite <- E; apply HS; set_solver|].
  exists st'. rewrite <- E in T. rewrite C'. split; [|done]. rewrite T. cbn. by rewrite E, Z.eqb_refl.
Qed.

Lemma party_receives i j s v a b a' b' : (i = 0 \/ i = 1) -> j = 1 - i -> blk ph i <> blk ph j ->
  (forall c, counts i a b c -> counts i a' b' (p2p_next j i c) /\ p2p_count c j i < max_count /\
     s = (blk ph j, blk ph i, p2p_id nm (p2p_count c j i + 1) j i)) ->
  party_runs i (Recv j) a b [(s, v)] a' b' v.
Proof using All.
  intros Hi -> Hne Hc S HS st Hst. destruct (Hc _ Hst) as (Hc' & Hlt & E). pose proof Hst as (Hm & _).
  destruct (does_Recv S ph nm k i st (1 - i) (blk ph i) (blk ph (1 - i)) v Hm) as (st' & T & C');
    [apply vget_at; lia|lia|done|rewrite <- E; apply HS; set_solver|].
  exists st'. rewrite <- E in T. rewrite C'. split; [|done]. rewrite T. cbn. rewrite E. cbn.
  by rewrite (proj2 (Z.eqb_neq _ _)) by congruence.
Qed.

(** A message from the receiver. *)
Lemma converse_up {A B} da db v (fs : bytes -> LinkM A) (fr : () -> LinkM B) Q :
  converse da db (fs v) (fr ()) Q -> converse (1 + da)%N db (Recv rr ≫= fs) (SendAsync (1 - rr) v ≫= fr) Q.
Proof using All.
  intros H. pose proof parties_differ as Hne. rewrite <- (N.add_0_l db).
  apply (converse_bind 1 0 da db _ _ _ _ (fun w _ => w = v)); [|by intros x [] ->].
  intros a b Ha0 Ha1 Hb0 Hb1. exists (a + 1), b, v, (), [(from_recv a, v)]. split; [lia|]. split; [lia|]. split; [|done]. split.
  - apply NoDup_singleton.
  - intros s Hs. apply list_elem_of_singleton in Hs as ->. left. exists a. split; [lia|done].
  - apply party_receives; [lia|lia|congruence|]. intros c Hc. split; [by apply counts_up|]. destruct Hc as (_ & -> & _). split; [lia|done].
  - apply party_sends; [done|done|]. intros c Hc. split; [by apply counts_up|]. destruct Hc as (_ & -> & _). split; [lia|done].
Qed.

(** A message from the sender. *)
Lemma converse_down {A B} da db v (fs : () -> LinkM A) (fr : bytes -> LinkM B) Q :
  converse da db (fs ()) (fr v) Q -> converse da (1 + db)%N (SendAsync rr v ≫= fs) (Recv (1 - rr) ≫= fr) Q.
Proof using All.
  intros H. pose proof parties_differ as Hne. rewrite <- (N.add_0_l da).
  apply (converse_bind 0 1 da db _ _ _ _ (fun _ w => w = v)); [|by intros [] y ->].
  intros a b Ha0 Ha1 Hb0 Hb1. exists a, (b + 1), (), v, [(from_send b, v)]. split; [lia|]. split; [lia|]. split; [|done]. split.
  - apply NoDup_singleton.
  - intros s Hs. apply list_elem_of_singleton in Hs as ->. right. exists b. split; [lia|done].
  - apply party_sends; [lia|lia|]. intros c Hc. split; [by apply counts_down|]. destruct Hc as (_ & _ & ->). split; [lia|done].
  - apply party_receives; [done|done|congruence|]. intros c Hc. split; [by apply counts_down|]. destruct Hc as (_ & _ & ->). split; [lia|done].
Qed.

(** *** Loops *)

Lemma converse_for {A B} da db n i (fs : Z -> A -> LinkM A) (fr : Z -> B -> LinkM B) (Inv : Z -> A -> B -> Prop) x y :
  Inv i x y ->
  (forall j x y, i <= j < i + Z.of_nat n -> Inv j x y -> converse da db (fs j x) (fr j y) (Inv (j + 1))) ->
  converse (N.of_nat n * da)%N (N.of_nat n * db)%N (for_prog n i fs x) (for_prog n i fr y) (Inv (i + Z.of_nat n)).
Proof using All.
  revert i x y. induction n as [|n IH]; intros i x y Hi Hf; cbn [for_prog].
  - rewrite Z.add_0_r. by apply converse_ret.
  - replace (N.of_nat (S n) * da)%N with (da + N.of_nat n * da)%N by lia. replace (N.of_nat (S n) * db)%N with (db + N.of_nat n * db)%N by lia.
    replace (i + Z.of_nat (S n)) with (i + 1 + Z.of_nat n) by lia.
    apply (converse_bind _ _ _ _ _ _ _ _ (Inv (i + 1))); [apply Hf; [lia|done]|].
    intros x' y' Hx. apply IH; [done|]. intros j x0 y0 Hj. apply Hf. lia.
Qed.

(** *** Both parties return *)

Lemma converse_return {A} da db (ms mr : LinkM A) (Q : A -> A -> Prop) (ss : list session) a b :
  converse da db ms mr Q -> group ph nm k ss ->
  0 <= a -> a + Z.of_N da <= max_count -> 0 <= b -> b + Z.of_N db <= max_count ->
  (forall st, st ∈ ss -> p2p_count (ctx st) rr (1 - rr) = a /\ p2p_count (ctx st) (1 - rr) rr = b) ->
  exists a' b' x y, a <= a' <= a + Z.of_N da /\ b <= b' <= b + Z.of_N db /\ Q x y /\
    all_return ph (imap (fun i st => (if Z.of_nat i =? rr then mr else ms) st) ss)
      (fun i out => out.1 = (if i =? rr then y else x) /\ counts i a' b' (ctx out.2)).
Proof using All.
  intros H Hg Ha Hda Hb Hdb Hex. destruct (H a b Ha Hda Hb Hdb) as (a' & b' & x & y & msgs & E1 & E2 & [N B0 S R] & HQ).
  exists a', b', x, y. split; [done|]. split; [done|]. split; [done|].
  destruct (two_sessions ph nm k ss rr Hg Hph Hrr) as (sr & sd & Er & Ed & Mr & Md & Ir & Id).
  assert (HS : forall s v, (s, v) ∈ msgs -> values_of msgs s = Some v) by (intros s v Hs; by apply values_of_elem).
  destruct (R _ HS sr) as (sr' & Tr & Cr); [split; [done|by apply Hex]|].
  destruct (S _ HS sd) as (sd' & Ts & Cs); [split; [done|by apply Hex]|].
  pose proof (group_size _ _ _ _ Hg) as Hlen.
  eapply (dialogue_return ph _ (values_of msgs) msgs.*1 rr (mr sr) (ms sd)); [done|done|done| | | |done| | |].
  - unfold vsize in *. rewrite length_imap. lia.
  - rewrite vget_imap, Er. cbn. by rewrite Z2Nat.id, Z.eqb_refl by lia.
  - rewrite vget_imap, Ed. cbn. rewrite Z2Nat.id by lia. by replace (1 - rr =? rr) with false by lia.
  - intros s Hs. destruct (B0 s Hs) as [(t & _ & ->)|(t & _ & ->)]; cbn; auto.
  - eexists. split; [exact Tr|]. cbn. by rewrite Z.eqb_refl.
  - eexists. split; [exact Ts|]. cbn. by replace (1 - rr =? rr) with false by lia.
Qed.
End Dialogue.

(** Steps of the sender and of the receiver under [converse]. *)
Ltac sender_lifts E := eapply converse_lift_l; [assumption..|exact E|].
Ltac receiver_lifts E := eapply converse_lift_r; [assumption..|exact E|].
Ltac sender_checks := apply converse_check_l; [assumption..|lia || done || by apply bool_decide_eq_true_2|].
Ltac receiver_checks := apply converse_check_r; [assumption..|lia || done || by apply bool_decide_eq_true_2|].
(** The context is read for the rank of the other party. *)
Ltac sender_ctx := eapply converse_ctx_l; [assumption..|intros ? -> ?; reflexivity|].
Ltac receiver_ctx := eapply converse_ctx_r; [assumption..|intros ? -> ?; reflexivity|].
Ltac sends_down := eapply converse_down; [assumption..|].
Ltac sends_up := eapply converse_up; [assumption..|].
