(* ===== verification/Sgrr.v ===== *)
(** Single-point correlated expansion by a punctured GGM tree
    (src/yacl/kernel/algorithms/sgrr_ote.cc): the sender expands a seed to [n]
    blocks, the receiver gets all of them but one of its choice, over [log n]
    oblivious transfers.

    Outside code is a parameter: the two fixed-key AES permutations of the tree
    ([prf]), the permutation of the correlation-robust hash ([rp]), [blake3], and
    the random seed. An output span is the list of its blocks; [Err] is a failed
    check, [Bad] an access out of range. *)

From Stdlib Require Import ZArith Lia ZifyBool Bool.
From stdpp Require Import base numbers list option gmap.
From S2P Require Import Prelude BitBlock BitSet ChannelKeys OtStore CrHash TwoParty LinkProgram Context.

Local Open Scope Z_scope.

(** *** src/yacl/math/gadget.h *)

(** Leading zeros of a nonzero 64-bit word. *)
Definition countl_zero (x : Z) : Z := 63 - Z.log2 x.

Definition Log2Floor (x : Z) : res Z :=
  OtStore.enforce (negb (x =? 0));; Val (64 - countl_zero x - 1).

Definition Log2Ceil (x : Z) : res Z :=
  OtStore.enforce (negb (x =? 0));;
  if x =? 1 then Val 0 else l ← Log2Floor (x - 1); Val (l + 1).

Definition DivCeil (x y : Z) : Z := if x =? 0 then 0 else 1 + (x - 1) / y.

Section Sgrr.
Context (prf : bool -> Z -> Z) (rp : Z -> Z) (blake3 : bytes -> bytes).

(** *** Helpers *)

Definition MakeDynamicBitset (input bits : Z) : res dynamic_bitset :=
  out ← access (Bitset.append_block 128 Bitset.ctor_empty input);
  out' ← access (Bitset.resize 128 out bits false);
  OtStore.enforce (Bitset.num_blocks out' =? 1);;
  Val out'.

Definition GetPuncturedIndex (choice : dynamic_bitset) (level : Z) : res Z :=
  punctured_set ← access (Bitset.resize 128 choice (level + 1) false);
  access (vget (m_blocks punctured_set) 0).

Definition GetInsertedIndex (choice : dynamic_bitset) (level : Z) : res Z :=
  inserted_set ← access (Bitset.resize 128 choice (level + 1) false);
  inserted_set' ← access (Bitset.flip_pos 128 inserted_set level);
  access (vget (m_blocks inserted_set') 0).

Definition SplitAllSeeds (seeds : list Z) : list Z := (prf false <$> seeds) ++ (prf true <$> seeds).

(** [memcpy] of the first [m] blocks. *)
Definition copy_over (dst src : list Z) (m : Z) : option (list Z) :=
  assert! (m <=? vsize src) && (m <=? vsize dst);
  Some (take (Z.to_nat m) src ++ drop (Z.to_nat m) dst).

(** *** The consistency check *)

Definition xor_bytes (a b : bytes) : bytes := zip_with Z.lxor a b.

(** [tmp]: the digests of the first [n] outputs. *)
Definition digests (n : Z) (output : list Z) : res (list bytes) :=
  access (mapM (fun i => o ← vget output i; Some (blake3 (le_bytes 16 o))) (seqZ 0 n)).

(** [t] folded with every digest. *)
Definition fold_digests (t : bytes) (tmp : list bytes) : bytes := foldl xor_bytes t tmp.

Definition GenCheckMsg (n : Z) (output : list Z) : res (bytes * bytes) :=
  tmp ← digests n output;
  Val (fold_digests (replicate 32 0) tmp, blake3 (mjoin tmp)).

Definition VerifyCheckMsg (n index : Z) (output : list Z) (proof : bytes * bytes) : res bool :=
  OtStore.enforce (index <? n);;
  tmp ← digests n output;
  let t := fold_digests (fst proof) tmp in
  x ← access (vget tmp index);
  tmp' ← access (vset tmp index (xor_bytes t x));
  Val (bool_decide (blake3 (mjoin tmp') = snd proof)).

Definition Pack (m : bytes * bytes) : bytes := take 32 (fst m) ++ take 32 (snd m).
Definition Unpack (b : bytes) : res (bytes * bytes) :=
  OtStore.enforce (vsize b =? 64);; Val (take 32 b, take 32 (drop 32 b)).

(** [ParaCrHashInplace_128(output.subspan(0, n))]. *)
Definition refresh (n : Z) (output : list Z) : list Z :=
  on_subspan (ParaCrHashInplace_128 rp) 0 n output.

(** *** The receiver *)

(** [masked_choice[i] ^= base_ot.GetChoice(i)]. *)
Definition mask_choice (h : heap) (base_ot : OtRecvStore) (i : Z) (masked_choice : dynamic_bitset)
  : res dynamic_bitset :=
  c ← OtRecv.GetChoice h base_ot i;
  r ← access (Bitset.subscript 128 masked_choice i);
  access (Bitset.ref_xor masked_choice r (negb (c =? 0))).

Definition recv_choices (h : heap) (base_ot : OtRecvStore) (ot_num index : Z)
  : res (dynamic_bitset * dynamic_bitset) :=
  choice ← MakeDynamicBitset index ot_num;
  flipped ← access (Bitset.flip_all 128 choice);
  masked ← for_res (Z.to_nat ot_num) 0 (mask_choice h base_ot) flipped;
  Val (choice, masked).

(** The inner loop over the seeds of a level. *)
Definition recv_split (punctured_idx inserted_idx iter_num : Z) (c : bool) (output : list Z) (j : Z)
    (st : list Z * Z) : option (list Z * Z) :=
  let '(splits, insert_val) := st in
  if (j =? punctured_idx) || (j =? inserted_idx) then Some st else
  o ← vget output j;
  l ← vget splits j;
  splits1 ← vset splits j (Z.lxor l o);
  r ← vget splits1 (j + iter_num);
  splits2 ← vset splits1 (j + iter_num) (Z.lxor r o);
  x ← (if c then vget splits2 j else vget splits2 (j + iter_num));
  Some (splits2, Z.lxor insert_val x).

(** [1 << i] is computed in [int]. *)
Definition expand_known (n i punctured_idx inserted_idx : Z) (c : bool) (output : list Z) (insert_val : Z)
  : option (list Z * Z) :=
  assert! (i <? 31);
  let iter_num := 2 ^ i in
  '(splits, insert_val') ← for_up (Z.to_nat (Z.min iter_num n)) 0
    (recv_split punctured_idx inserted_idx iter_num c output)
    (SplitAllSeeds (take (Z.to_nat iter_num) output), insert_val);
  output' ← copy_over output splits (Z.min (2 * iter_num) n);
  Some (output', insert_val').

(** A level up to the writes of the two new seeds: the indices, the expanded
    output and the seed to insert. *)
Definition recv_open (h : heap) (base_ot : OtRecvStore) (n : Z) (choice : dynamic_bitset) (recv_msgs : bytes)
    (i : Z) (output : list Z) : res (Z * Z * list Z * Z) :=
  punctured_idx ← GetPuncturedIndex choice i;
  inserted_idx ← GetInsertedIndex choice i;
  c ← access (Bitset.test 128 choice i);
  m ← access (word_at recv_msgs (2 * i + (1 - Z.b2z c)));
  b ← OtRecv.GetBlock h base_ot i;
  let insert_val := Z.lxor m b in
  '(output1, insert_val') ←
    (if negb (i =? 0) then access (expand_known n i punctured_idx inserted_idx c output insert_val)
     else Val (output, insert_val));
  Val (punctured_idx, inserted_idx, output1, insert_val').

Definition recv_level (h : heap) (base_ot : OtRecvStore) (n : Z) (choice : dynamic_bitset) (recv_msgs : bytes)
    (i : Z) (output : list Z) : res (list Z) :=
  '(punctured_idx, inserted_idx, output1, insert_val) ← recv_open h base_ot n choice recv_msgs i output;
  output2 ← access (vset output1 punctured_idx 0);
  if inserted_idx <? n then access (vset output2 inserted_idx insert_val) else Val output2.

Definition SgrrOtExtRecv (h : heap) (base_ot : OtRecvStore) (n index : Z) (output : list Z) (mal : bool)
  : LinkM (list Z) :=
  ot_num ← lift (Log2Ceil n);
  _ ← enforce (1 <? n);
  _ ← enforce (OtRecv.Size base_ot <=? 128);
  _ ← enforce (ot_num <=? OtRecv.Size base_ot);
  _ ← enforce (index <? n);
  cs ← lift (recv_choices h base_ot ot_num index);
  c ← the_ctx;
  _ ← SendAsync (NextRank c 1) (words_bytes (m_blocks (snd cs)));
  recv_buf ← Recv (NextRank c 1);
  _ ← enforce (ot_num * 2 * 16 <=? vsize recv_buf);
  output' ← lift (for_res (Z.to_nat ot_num) 0 (recv_level h base_ot n (fst cs) recv_buf) output);
  if mal then
    proof_buf ← Recv (NextRank c 1);
    _ ← enforce (vsize proof_buf =? 64);
    proof ← lift (Unpack proof_buf);
    ok ← lift (VerifyCheckMsg n index output' proof);
    _ ← enforce ok;
    lift (access (vset (refresh n output') index 0))
  else mret output'.

(** *** The sender *)

Definition send_split (iter_num : Z) (output : list Z) (j : Z) (st : list Z * (Z * Z))
  : option (list Z * (Z * Z)) :=
  let '(splits, (m0, m1)) := st in
  o ← vget output j;
  l ← vget splits j;
  splits1 ← vset splits j (Z.lxor l o);
  r ← vget splits1 (j + iter_num);
  splits2 ← vset splits1 (j + iter_num) (Z.lxor r o);
  x ← vget splits2 j;
  y ← vget splits2 (j + iter_num);
  Some (splits2, (Z.lxor m0 x, Z.lxor m1 y)).

Definition send_level (n i : Z) (st : list Z * list (Z * Z)) : option (list Z * list (Z * Z)) :=
  let '(output, send_msgs) := st in
  assert! (i <? 31);
  let iter_num := 2 ^ i in
  m ← vget send_msgs i;
  '(splits, m') ← for_up (Z.to_nat (Z.min iter_num n)) 0 (send_split iter_num output)
    (SplitAllSeeds (take (Z.to_nat iter_num) output), m);
  output' ← copy_over output splits (Z.min (2 * iter_num) n);
  send_msgs' ← vset send_msgs i m';
  Some (output', send_msgs').

(** The message of the receiver is copied over the blocks of a new bitset. *)
Definition read_choices (ot_num : Z) (recv_buf : bytes) : res dynamic_bitset :=
  masked_choice ← access (Bitset.ctor_value 128 ot_num 0);
  blocks ← access (mapM (word_at recv_buf) (seqZ 0 (Bitset.num_blocks masked_choice)));
  Val (mk_bitset blocks ot_num).

Definition mask_message (h : heap) (base_ot : OtSendStore) (masked_choice : dynamic_bitset) (i : Z)
    (send_msgs : list (Z * Z)) : res (list (Z * Z)) :=
  m ← access (vget send_msgs i);
  c ← access (Bitset.test 128 masked_choice i);
  b0 ← OtSend.GetBlock h base_ot i (Z.b2z c);
  b1 ← OtSend.GetBlock h base_ot i (1 - Z.b2z c);
  access (vset send_msgs i (Z.lxor (fst m) b0, Z.lxor (snd m) b1)).

Definition pairs_words (l : list (Z * Z)) : list Z := l ≫= fun m => [fst m; snd m].

Definition SgrrOtExtSend (h : heap) (base_ot : OtSendStore) (n : Z) (seed : Z) (output : list Z) (mal : bool)
  : LinkM (list Z) :=
  ot_num ← lift (Log2Ceil n);
  _ ← enforce (ot_num <=? OtSend.Size base_ot);
  _ ← enforce (1 <? n);
  output0 ← lift (access (vset output 0 seed));
  st ← lift (access (for_up (Z.to_nat ot_num) 0 (send_level n) (output0, replicate (Z.to_nat ot_num) (0, 0))));
  c ← the_ctx;
  recv_buf ← Recv (NextRank c 1);
  masked_choice ← lift (read_choices ot_num recv_buf);
  send_msgs ← lift (for_res (Z.to_nat ot_num) 0 (mask_message h base_ot masked_choice) (snd st));
  _ ← SendAsync (NextRank c 1) (words_bytes (pairs_words send_msgs));
  if mal then
    proof ← lift (GenCheckMsg n (fst st));
    _ ← SendAsync (NextRank c 1) (Pack proof);
    mret (refresh n (fst st))
  else mret (fst st).

(** *** The index is the choices of the transfers *)

Definition SgrrOtExtHelper (n : Z) (mal : bool) : res Z :=
  ot_num ← Log2Ceil n;
  Val (ot_num * 16 * 2 + (if mal then 32 * 2 else 0)).

Definition recv_level_fixed (h : heap) (base_ot : OtRecvStore) (n : Z) (choice : dynamic_bitset) (recv_msgs : bytes)
    (i : Z) (output : list Z) : res (list Z) :=
  '(punctured_idx, inserted_idx, output1, insert_val) ← recv_open h base_ot n choice recv_msgs i output;
  output2 ← (if punctured_idx <? n then access (vset output1 punctured_idx 0) else Val output1);
  if inserted_idx <? n then access (vset output2 inserted_idx insert_val) else Val output2.

Definition recv_fixed_index (h : heap) (base_ot : OtRecvStore) (n : Z) (output : list Z) (recv_buf : bytes)
    (mal : bool) : res (list Z) :=
  ot_num ← Log2Ceil n;
  buf_size ← SgrrOtExtHelper n mal;
  OtStore.enforce (1 <? n);;
  OtStore.enforce (OtRecv.Size base_ot <=? 128);;
  OtStore.enforce (ot_num <=? OtRecv.Size base_ot);;
  OtStore.enforce (vsize recv_buf =? buf_size);;
  OtStore.enforce (0 <? ot_num);;
  choice ← OtRecv.CopyBitBuf h base_ot;
  p ← GetPuncturedIndex choice (ot_num - 1);
  let index := p mod 2 ^ 64 in
  OtStore.enforce (index <? n);;
  output' ← for_res (Z.to_nat ot_num) 0 (recv_level_fixed h base_ot n choice recv_buf) output;
  if mal then
    proof ← Unpack (take 64 (drop (Z.to_nat (buf_size - 64)) recv_buf));
    ok ← VerifyCheckMsg n (index mod 2 ^ 32) output' proof;
    OtStore.enforce ok;;
    access (vset (refresh n output') index 0)
  else Val output'.

Definition send_level_fixed (h : heap) (base_ot : OtSendStore) (n i : Z) (st : list Z * list (Z * Z))
  : res (list Z * list (Z * Z)) :=
  b1 ← OtSend.GetBlock h base_ot i 1;
  b0 ← OtSend.GetBlock h base_ot i 0;
  send_msgs ← access (vset (snd st) i (b1, b0));
  access (send_level n i (fst st, send_msgs)).

(** The pairs of blocks at the start of a buffer. *)
Definition read_pairs (k : Z) (b : bytes) : option (list (Z * Z)) :=
  mapM (fun i => x ← word_at b (2 * i); y ← word_at b (2 * i + 1); Some (x, y)) (seqZ 0 k).

(** [memcpy] of [src] at offset [pos] of [dst]. *)
Definition put_bytes (dst : bytes) (pos : Z) (src : bytes) : option bytes :=
  assert! (0 <=? pos) && (pos + vsize src <=? vsize dst);
  Some (take (Z.to_nat pos) dst ++ src ++ drop (Z.to_nat (pos + vsize src)) dst).

(** Returns the output and the buffer, which holds the messages and the proof. *)
Definition send_fixed_index (h : heap) (base_ot : OtSendStore) (n : Z) (seed : Z) (output : list Z) (send_buf : bytes)
    (mal : bool) : res (list Z * bytes) :=
  ot_num ← Log2Ceil n;
  buf_size ← SgrrOtExtHelper n mal;
  OtStore.enforce (ot_num <=? OtSend.Size base_ot);;
  OtStore.enforce (1 <? n);;
  OtStore.enforce (vsize send_buf =? buf_size);;
  OtStore.enforce (0 <? ot_num);;
  output0 ← access (vset output 0 seed);
  send_msgs ← access (read_pairs ot_num send_buf);
  '(output1, send_msgs') ← for_res (Z.to_nat ot_num) 0 (send_level_fixed h base_ot n) (output0, send_msgs);
  send_buf1 ← access (put_bytes send_buf 0 (words_bytes (pairs_words send_msgs')));
  if mal then
    proof ← GenCheckMsg n output1;
    send_buf2 ← access (put_bytes send_buf1 (buf_size - 64) (Pack proof));
    Val (refresh n output1, send_buf2)
  else Val (output1, send_buf1).

(** With a link. *)
Definition SgrrOtExtRecv_fixed_index (h : heap) (base_ot : OtRecvStore) (n : Z) (output : list Z) (mal : bool)
  : LinkM (list Z) :=
  buf_size ← lift (SgrrOtExtHelper n mal);
  c ← the_ctx;
  recv_buf ← Recv (NextRank c 1);
  _ ← enforce (vsize recv_buf =? buf_size);
  lift (recv_fixed_index h base_ot n output recv_buf mal).

(** The contents of a new [Buffer] are arbitrary: [fresh] of its size. *)
Definition SgrrOtExtSend_fixed_index (fresh : Z -> bytes) (h : heap) (base_ot : OtSendStore) (n : Z) (seed : Z)
    (output : list Z) (mal : bool) : LinkM (list Z) :=
  buf_size ← lift (SgrrOtExtHelper n mal);
  res ← lift (send_fixed_index h base_ot n seed output (fresh buf_size) mal);
  c ← the_ctx;
  _ ← SendAsync (NextRank c 1) (snd res);
  mret (fst res).
End Sgrr.
