(* ===== verification/SgrrFacts.v ===== *)
(** Facts about the punctured expansion of [Sgrr]: the tree as a function of level
    and index, what one level does to the outputs of both parties, the bitsets of
    choices; the messages of both sides as the other reads them, and the consistency
    check, which accepts an honest sender. *)

From Stdlib Require Import ZArith Lia ZifyBool Bool Sorted.
From stdpp Require Import base numbers list option gmap.
From S2P Require Import Prelude BitBlock BitSet BitSetFacts BitSetOps BitSetGrow BitSetString ChannelKeys OtStore OtStoreFacts OtStoreTheorems LinkProgram.
From S2P Require Import Context LinkGroup Collectives CollectivesFacts ContextTheorems CrHash TwoParty Sgrr.

Local Open Scope Z_scope.

(** *** Sums *)

(** The sum (exclusive or) of [f 0 .. f (k - 1)]. *)
Fixpoint xs (f : Z -> Z) (k : nat) : Z :=
  match k with
  | O => 0
  | S k' => Z.lxor (xs f k') (f (Z.of_nat k'))
  end.

Lemma xs_ext f g k : (forall j, 0 <= j < Z.of_nat k -> f j = g j) -> xs f k = xs g k.
Proof.
  induction k as [|k IH]; intros H; cbn [xs]; [done|]. rewrite (H (Z.of_nat k)) by lia.
  rewrite IH; [done|]. intros j Hj. apply H. lia.
Qed.

(** What is left of a sum without one of its terms. *)
Lemma xs_skip f p k : 0 <= p < Z.of_nat k ->
  Z.lxor (xs f k) (xs (fun j => if j =? p then 0 else f j) k) = f p.
Proof.
  induction k as [|k IH]; intros Hp; [lia|]. cbn [xs].
  destruct (Z.eqb_spec (Z.of_nat k) p) as [<- | Hne].
  - rewrite (xs_ext (fun j => if j =? Z.of_nat k then 0 else f j) f).
    + rewrite Z.lxor_0_r, (Z.lxor_comm _ (f _)), Z.lxor_assoc, Z.lxor_nilpotent. apply Z.lxor_0_r.
    + intros j Hj. by rewrite (proj2 (Z.eqb_neq j (Z.of_nat k))) by lia.
  - rewrite <- (IH ltac:(lia)).
    rewrite !Z.lxor_assoc. f_equal. rewrite (Z.lxor_comm _ (f _)), <- Z.lxor_assoc, Z.lxor_nilpotent. apply Z.lxor_0_l.
Qed.

Section Tree.
Context (prf : bool -> Z -> Z) (seed : Z).

(** The child of a node, and the nodes of a level. *)
Definition child (right : bool) (x : Z) : Z := Z.lxor (prf right x) x.

Fixpoint node (i : nat) (j : Z) : Z :=
  match i with
  | O => seed
  | S i' => if j <? 2 ^ Z.of_nat i' then child false (node i' j) else child true (node i' (j - 2 ^ Z.of_nat i'))
  end.

(** *** A vector of split seeds, of which those satisfying [don] are finished *)

Definition split_state (it : Z) (o : Z -> Z) (don : Z -> bool) (splits : list Z) : Prop :=
  vsize splits = 2 * it /\
  (forall j, 0 <= j < it -> blk splits j = if don j then child false (o j) else prf false (o j)) /\
  (forall j, 0 <= j < it -> blk splits (j + it) = if don j then child true (o j) else prf true (o j)).

Lemma split_state_start it output :
  0 <= it <= vsize output ->
  split_state it (blk output) (fun _ => false) (SplitAllSeeds prf (take (Z.to_nat it) output)).
Proof.
  intros Hit. unfold SplitAllSeeds.
  assert (Hl : vsize (take (Z.to_nat it) output) = it) by (unfold vsize in *; rewrite length_take; lia).
  assert (Ht : forall j, 0 <= j < it -> blk (take (Z.to_nat it) output) j = blk output j).
  { intros j Hj. by rewrite blk_take by lia. }
  split; [rewrite vsize_app, !vsize_map; lia|]. split; intros j Hj; rewrite blk_app, vsize_map, Hl.
  - replace (j <? it) with true by lia. rewrite blk_map by lia. by rewrite Ht.
  - replace (j + it <? it) with false by lia. rewrite blk_map by lia. rewrite Ht by lia. do 2 f_equal. lia.
Qed.

(** Finishing the seeds at [j]. *)
Lemma split_state_finish it o don splits j :
  split_state it o don splits -> 0 <= j < it -> don j = false ->
  exists s1 s2, let l := Z.lxor (prf false (o j)) (o j) in let r := Z.lxor (prf true (o j)) (o j) in
    vget splits j = Some (prf false (o j)) /\ vset splits j l = Some s1 /\
    vget s1 (j + it) = Some (prf true (o j)) /\ vset s1 (j + it) r = Some s2 /\
    vget s2 j = Some (child false (o j)) /\ vget s2 (j + it) = Some (child true (o j)) /\
    split_state it o (fun x => (x =? j) || don x) s2.
Proof.
  intros (Hsz & Hl & Hr) Hj Hd. pose proof (Hl j Hj) as Hlj. pose proof (Hr j Hj) as Hrj. rewrite Hd in Hlj, Hrj.
  set (s1 := <[Z.to_nat j := child false (o j)]> splits).
  set (s2 := <[Z.to_nat (j + it) := child true (o j)]> s1).
  assert (H1 : vsize s1 = 2 * it) by (unfold s1; by rewrite vsize_insert).
  assert (H2 : vsize s2 = 2 * it) by (unfold s2; by rewrite vsize_insert).
  assert (B1 : forall x, blk s1 x = if x =? j then child false (o j) else blk splits x).
  { intros x. unfold s1. apply blk_insert. lia. }
  assert (B2 : forall x, blk s2 x = if x =? j + it then child true (o j) else blk s1 x).
  { intros x. unfold s2. apply blk_insert. lia. }
  exists s1, s2. cbn zeta. rewrite !vset_Some by lia. rewrite !vget_blk by lia.
  rewrite Hlj, !B2, !B1, Hrj. replace (j + it =? j) with false by lia. replace (j =? j + it) with false by lia.
  rewrite !Z.eqb_refl. do 6 (split; [done|]). split; [done|]. split.
  - intros x Hx. rewrite B2, B1. replace (x =? j + it) with false by lia.
    destruct (Z.eqb_spec x j) as [-> | Hne]; [done|]. by apply Hl.
  - intros x Hx. rewrite B2, B1. replace (x + it =? j) with false by lia.
    replace (x + it =? j + it) with (x =? j) by lia. destruct (Z.eqb_spec x j) as [-> | Hne]; [done|]. by apply Hr.
Qed.

Lemma split_state_ext it o don don' splits :
  split_state it o don splits -> (forall j, 0 <= j < it -> don j = don' j) -> split_state it o don' splits.
Proof. intros (H1 & H2 & H3) Hd. split; [done|]. split; intros j Hj; rewrite <- Hd by done; auto. Qed.

(** *** The sender's level *)

Lemma send_split_loop it output m0 m1 :
  0 <= it <= vsize output ->
  exists splits, for_up (Z.to_nat it) 0 (send_split it output)
      (SplitAllSeeds prf (take (Z.to_nat it) output), (m0, m1)) =
    Some (splits, (Z.lxor m0 (xs (fun j => child false (blk output j)) (Z.to_nat it)),
                   Z.lxor m1 (xs (fun j => child true (blk output j)) (Z.to_nat it)))) /\
    split_state it (blk output) (fun _ => true) splits.
Proof.
  intros Hit.
  destruct (for_up_inv (fun k (st : list Z * (Z * Z)) => split_state it (blk output) (fun j => j <? k) (fst st) /\
      snd st = (Z.lxor m0 (xs (fun j => child false (blk output j)) (Z.to_nat k)),
                Z.lxor m1 (xs (fun j => child true (blk output j)) (Z.to_nat k))))
    (send_split it output) (Z.to_nat it) 0 (SplitAllSeeds prf (take (Z.to_nat it) output), (m0, m1)))
    as ([splits ms] & E & H1 & H2).
  - split; [|cbn; by rewrite !Z.lxor_0_r]. eapply split_state_ext; [by apply split_state_start|]. cbn. lia.
  - intros k [splits [a b]] Hk [H1 H2]. cbn [fst snd] in H1, H2. injection H2 as -> ->.
    destruct (split_state_finish it (blk output) _ splits k H1 ltac:(lia) ltac:(cbn; lia))
      as (s1 & s2 & E1 & E2 & E3 & E4 & E5 & E6 & H3).
    eexists. split.
    + unfold send_split. rewrite (vget_blk output) by lia. cbn [mbind option_bind]. rewrite E1. cbn [mbind option_bind].
      rewrite E2. cbn [mbind option_bind]. rewrite E3. cbn [mbind option_bind]. rewrite E4. cbn [mbind option_bind].
      rewrite E5. cbn [mbind option_bind]. rewrite E6. done.
    + cbn [fst snd]. split; [eapply split_state_ext; [exact H3|]; cbn; lia|].
      replace (Z.to_nat (k + 1)) with (S (Z.to_nat k)) by lia. cbn [xs]. rewrite Z2Nat.id by lia.
      by rewrite !Z.lxor_assoc.
  - cbn [fst snd] in H1, H2. exists splits. rewrite E, H2. rewrite Z.add_0_l, Nat2Z.id. split; [done|].
    eapply split_state_ext; [exact H1|]. intros j Hj. cbn. lia.
Qed.

(** A finished level, copied over the output. *)
Lemma copy_level n i output splits :
  0 <= n <= vsize output -> 2 ^ Z.of_nat i < n ->
  split_state (2 ^ Z.of_nat i) (node i) (fun _ => true) splits ->
  exists output', copy_over output splits (Z.min (2 * 2 ^ Z.of_nat i) n) = Some output' /\
    vsize output' = vsize output /\
    forall j, 0 <= j < Z.min (2 ^ Z.of_nat (S i)) n -> blk output' j = node (S i) j.
Proof.
  intros Hn Hi (Hsz & Hl & Hr). rewrite Nat2Z.inj_succ, Z.pow_succ_r by lia. unfold copy_over.
  set (it := 2 ^ Z.of_nat i) in *. set (m := Z.min (2 * it) n).
  replace ((m <=? vsize splits) && (m <=? vsize output)) with true by lia.
  assert (Hm : vsize (take (Z.to_nat m) splits) = m) by (unfold vsize in *; rewrite length_take; lia).
  eexists. split; [done|]. split.
  - rewrite vsize_app, Hm. unfold vsize in *. rewrite length_drop. lia.
  - intros j Hj. rewrite blk_app, Hm. replace (j <? m) with true by lia. rewrite blk_take by lia. cbn [node]. fold it.
    destruct (Z.ltb_spec j it); [by apply Hl; lia|]. rewrite <- Hr by lia. f_equal. lia.
Qed.

Lemma send_level_run n i output msgs m0 m1 :
  0 <= n <= vsize output -> 2 ^ Z.of_nat i < n -> (i < 31)%nat -> vget msgs (Z.of_nat i) = Some (m0, m1) ->
  (forall j, 0 <= j < 2 ^ Z.of_nat i -> blk output j = node i j) ->
  exists output', send_level prf n (Z.of_nat i) (output, msgs) =
    Some (output', <[i := (Z.lxor m0 (xs (fun j => child false (node i j)) (Z.to_nat (2 ^ Z.of_nat i))),
                           Z.lxor m1 (xs (fun j => child true (node i j)) (Z.to_nat (2 ^ Z.of_nat i))))]> msgs) /\
    vsize output' = vsize output /\
    forall j, 0 <= j < Z.min (2 ^ Z.of_nat (S i)) n -> blk output' j = node (S i) j.
Proof.
  intros Hn Hi Hi31 Hm Ho. unfold send_level. replace (Z.of_nat i <? 31) with true by lia.
  set (it := 2 ^ Z.of_nat i) in *. assert (Hit : 0 < it) by (unfold it; lia).
  rewrite Hm. cbn [mbind option_bind]. replace (Z.min it n) with it by lia.
  destruct (send_split_loop it output m0 m1 ltac:(lia)) as (splits & -> & Hs). cbn [mbind option_bind].
  assert (Hs' : split_state it (node i) (fun _ => true) splits).
  { destruct Hs as (H1 & H2 & H3). split; [done|]. split; intros j Hj; rewrite <- Ho by done; auto. }
  destruct (copy_level n i output splits Hn Hi Hs') as (output' & E & Hsz & Hb). fold it in E. rewrite E.
  cbn [mbind option_bind]. rewrite vset_Some.
  - cbn [mbind option_bind]. exists output'. split; [|done]. rewrite Nat2Z.id. do 3 f_equal.
    f_equal; f_equal; apply xs_ext; intros j Hj; by rewrite Ho by lia.
  - apply vget_Some_iff. by eexists.
Qed.

(** The sum of the children on one side of level [i]. *)
Definition side_sum (right : bool) (i : nat) : Z :=
  xs (fun j => child right (node i j)) (Z.to_nat (2 ^ Z.of_nat i)).

(** [L] levels make at least [n] leaves, and one level less does not. *)
Definition height (n L : Z) : Prop := 1 < n <= 2 ^ 31 /\ 0 < L <= 31 /\ 2 ^ (L - 1) < n <= 2 ^ L.

Lemma height_level n L i : height n L -> 0 <= i < L -> 2 ^ i < n.
Proof. intros (_ & _ & H & _) Hi. assert (2 ^ i <= 2 ^ (L - 1)) by (apply Z.pow_le_mono_r; lia). lia. Qed.

Lemma send_levels n L output0 :
  height n L -> n <= vsize output0 -> blk output0 0 = seed ->
  exists output msgs, for_up (Z.to_nat L) 0 (send_level prf n) (output0, replicate (Z.to_nat L) (0, 0)) =
      Some (output, msgs) /\
    vsize output = vsize output0 /\ (forall j, 0 <= j < n -> blk output j = node (Z.to_nat L) j) /\
    vsize msgs = L /\
    forall t, 0 <= t < L -> vget msgs t = Some (side_sum false (Z.to_nat t), side_sum true (Z.to_nat t)).
Proof.
  intros HL Hn H0. pose proof HL as (Hn2 & HL31 & Hlo & Hhi).
  destruct (for_up_inv (fun k (st : list Z * list (Z * Z)) =>
      vsize (fst st) = vsize output0 /\ (forall j, 0 <= j < Z.min (2 ^ k) n -> blk (fst st) j = node (Z.to_nat k) j) /\
      vsize (snd st) = L /\
      forall t, 0 <= t < L -> vget (snd st) t =
        Some (if t <? k then (side_sum false (Z.to_nat t), side_sum true (Z.to_nat t)) else (0, 0)))
    (send_level prf n) (Z.to_nat L) 0 (output0, replicate (Z.to_nat L) (0, 0)))
    as ([output msgs] & E & H1 & H2 & H3 & H4).
  - cbn [fst snd]. split; [done|]. split.
    { intros j Hj. change (2 ^ 0) with 1 in Hj. by replace j with 0 by lia. }
    split; [rewrite vsize_replicate; lia|]. intros t Ht. unfold vget. rewrite (proj2 (Z.leb_le _ _)) by lia.
    rewrite lookup_replicate_2 by lia. by replace (t <? 0) with false by lia.
  - intros k [output msgs] Hk (H1 & H2 & H3 & H4). cbn [fst snd] in *.
    pose proof (height_level n L k HL ltac:(lia)) as Hkn.
    destruct (send_level_run n (Z.to_nat k) output msgs 0 0) as (output' & E & H5 & H6);
      rewrite ?Z2Nat.id by lia; [lia|lia|lia| |intros j Hj; apply H2; lia|].
    { rewrite H4 by lia. by replace (k <? k) with false by lia. }
    rewrite Z2Nat.id in E by lia. eexists. split; [exact E|]. cbn [fst snd]. split; [lia|].
    replace (Z.to_nat (k + 1)) with (S (Z.to_nat k)) by lia. split.
    { intros j Hj. apply H6. by replace (Z.of_nat (S (Z.to_nat k))) with (k + 1) by lia. }
    split; [by rewrite vsize_insert|]. intros t Ht. unfold vget. rewrite (proj2 (Z.leb_le _ _)) by lia.
    destruct (Z.eqb_spec t k) as [-> | Hne].
    + rewrite list_lookup_insert_eq by (unfold vsize in *; lia). replace (k <? k + 1) with true by lia.
      unfold side_sum. by rewrite !Z.lxor_0_l, Z2Nat.id by lia.
    + rewrite list_lookup_insert_ne by lia. specialize (H4 t Ht). unfold vget in H4.
      rewrite (proj2 (Z.leb_le _ _)) in H4 by lia. rewrite H4. by replace (t <? k + 1) with (t <? k) by lia.
  - cbn [fst snd] in *. rewrite Z.add_0_l, Z2Nat.id in H2, H4 by lia. exists output, msgs. split; [done|].
    split; [done|]. split; [intros j Hj; apply H2; lia|]. split; [done|]. intros t Ht. rewrite H4 by done.
    by replace (t <? L) with true by lia.
Qed.

(** *** The receiver's level *)

Lemma recv_split_loop it output c P Q p v :
  0 <= it <= vsize output -> (forall j, 0 <= j < it -> (j =? P) || (j =? Q) = (j =? p)) ->
  exists splits, for_up (Z.to_nat it) 0 (recv_split P Q it c output)
      (SplitAllSeeds prf (take (Z.to_nat it) output), v) =
    Some (splits, Z.lxor v (xs (fun j => if j =? p then 0 else child (negb c) (blk output j)) (Z.to_nat it))) /\
    split_state it (blk output) (fun j => negb (j =? p)) splits.
Proof.
  intros Hit HPQ.
  destruct (for_up_inv (fun k (st : list Z * Z) =>
      split_state it (blk output) (fun j => (j <? k) && negb (j =? p)) (fst st) /\
      snd st = Z.lxor v (xs (fun j => if j =? p then 0 else child (negb c) (blk output j)) (Z.to_nat k)))
    (recv_split P Q it c output) (Z.to_nat it) 0 (SplitAllSeeds prf (take (Z.to_nat it) output), v))
    as ([splits v'] & E & H1 & H2).
  - split; [|cbn; by rewrite Z.lxor_0_r]. eapply split_state_ext; [by apply split_state_start|]. cbn. lia.
  - intros k [splits v'] Hk [H1 H2]. cbn [fst snd] in H1, H2. subst v'. unfold recv_split.
    rewrite HPQ by lia. replace (Z.to_nat (k + 1)) with (S (Z.to_nat k)) by lia. cbn [xs]. rewrite Z2Nat.id by lia.
    destruct (Z.eqb_spec k p) as [Hkp | Hne].
    + eexists. split; [done|]. cbn [fst snd]. split; [eapply split_state_ext; [exact H1|]; cbn; lia|].
      by rewrite Z.lxor_0_r.
    + destruct (split_state_finish it (blk output) _ splits k H1 ltac:(lia) ltac:(cbn; lia))
        as (s1 & s2 & E1 & E2 & E3 & E4 & E5 & E6 & H3).
      exists (s2, Z.lxor (Z.lxor v (xs (fun j => if j =? p then 0 else child (negb c) (blk output j)) (Z.to_nat k)))
                    (child (negb c) (blk output k))). split.
      * rewrite (vget_blk output) by lia. cbn [mbind option_bind]. rewrite E1. cbn [mbind option_bind].
        rewrite E2. cbn [mbind option_bind]. rewrite E3. cbn [mbind option_bind]. rewrite E4. cbn [mbind option_bind].
        by destruct c; rewrite ?E5, ?E6.
      * cbn [fst snd]. split; [eapply split_state_ext; [exact H3|]; cbn; lia|]. by rewrite Z.lxor_assoc.
  - cbn [fst snd] in H1, H2. exists splits. rewrite E, H2. rewrite Z.add_0_l, Nat2Z.id. split; [done|].
    eapply split_state_ext; [exact H1|]. intros j Hj. cbn. lia.
Qed.

(** The known part of a level: everything except the punctured node. *)
Definition known (i : nat) (n p : Z) (output : list Z) : Prop :=
  forall j, 0 <= j < Z.min (2 ^ Z.of_nat i) n -> j <> p -> blk output j = node i j.

Lemma expand_known_run n i output c P Q p v :
  0 <= n <= vsize output -> 2 ^ Z.of_nat i < n -> (i < 31)%nat -> 0 <= p < 2 ^ Z.of_nat i ->
  (forall j, 0 <= j < 2 ^ Z.of_nat i -> (j =? P) || (j =? Q) = (j =? p)) ->
  known i n p output ->
  exists output', expand_known prf n (Z.of_nat i) P Q c output (Z.lxor (side_sum (negb c) i) v) =
      Some (output', Z.lxor (child (negb c) (node i p)) v) /\
    vsize output' = vsize output /\
    forall j, 0 <= j < Z.min (2 ^ Z.of_nat (S i)) n -> j <> p -> j <> p + 2 ^ Z.of_nat i ->
      blk output' j = node (S i) j.
Proof.
  intros Hn Hi Hi31 Hp HPQ Hk. unfold expand_known. replace (Z.of_nat i <? 31) with true by lia.
  rewrite Nat2Z.inj_succ, Z.pow_succ_r by lia. unfold side_sum, known in *. cbn [node].
  set (it := 2 ^ Z.of_nat i) in *. assert (Hit : 0 < it) by lia. replace (Z.min it n) with it in * by lia.
  destruct (recv_split_loop it output c P Q p (Z.lxor (xs (fun j => child (negb c) (node i j)) (Z.to_nat it)) v)
    ltac:(lia) HPQ) as (splits & -> & Hsz & Hl & Hr).
  cbn [mbind option_bind]. unfold copy_over. set (m := Z.min (2 * it) n).
  replace ((m <=? vsize splits) && (m <=? vsize output)) with true by lia. cbn [mbind option_bind].
  assert (Hm : vsize (take (Z.to_nat m) splits) = m) by (unfold vsize in *; rewrite length_take; lia).
  eexists. split; [|split].
  - do 2 f_equal. rewrite (Z.lxor_comm _ v), Z.lxor_assoc, Z.lxor_comm. f_equal.
    rewrite (xs_ext (fun j => if j =? p then 0 else child (negb c) (blk output j))
                    (fun j => if j =? p then 0 else child (negb c) (node i j))).
    + apply (xs_skip (fun j => child (negb c) (node i j))). lia.
    + intros j Hj. destruct (Z.eqb_spec j p); [done|]. by rewrite Hk by lia.
  - rewrite vsize_app, Hm. unfold vsize in *. rewrite length_drop. lia.
  - intros j Hj Hjp Hjq. rewrite blk_app, Hm. replace (j <? m) with true by lia. rewrite blk_take by lia.
    destruct (Z.ltb_spec j it).
    + rewrite Hl by lia. replace (j =? p) with false by lia. cbn [negb]. by rewrite Hk by lia.
    + replace j with (j - it + it) at 1 by lia. rewrite Hr by lia. replace (j - it =? p) with false by lia. cbn [negb].
      by rewrite Hk by lia.
Qed.
End Tree.

(** *** Bitsets of choices *)

(** A bitset of at most 128 bits is one block. *)
Lemma one_block b : wf 128 b -> 0 < m_bits_number b <= 128 ->
  m_blocks b = [value 128 b] /\ vget (m_blocks b) 0 = Some (value 128 b) /\ 0 <= value 128 b < 2 ^ 128.
Proof.
  intros [H1 H2 H3 H4] Hn. destruct (blocks_required_bound 128 (m_bits_number b) H1) as [H5 H6].
  assert (Hl : length (m_blocks b) = 1%nat) by (unfold vsize in *; lia).
  unfold value. destruct (m_blocks b) as [|x [|y l]]; cbn in Hl; try lia.
  cbn [blocks_value foldr]. rewrite Z.shiftl_0_l, Z.lor_0_r. split; [done|]. split; [done|]. by inversion H3.
Qed.

Lemma MakeDynamicBitset_run input bits : 0 <= input < 2 ^ 128 -> 0 < bits <= 128 ->
  exists b, MakeDynamicBitset input bits = Val b /\ wf 128 b /\ m_bits_number b = bits /\
    value 128 b = input mod 2 ^ bits.
Proof.
  intros Hi Hb. unfold MakeDynamicBitset.
  destruct (append_block_refines 128 Bitset.ctor_empty input (wf_ctor_empty 128) Hi) as (b1 & -> & W1 & N1 & V1).
  cbn [access mbind res_bind].
  destruct (resize_refines 128 b1 bits false W1 ltac:(lia)) as (b2 & -> & W2 & N2 & V2). cbn [access mbind res_bind].
  destruct (one_block b2 W2 ltac:(lia)) as (E & _). unfold Bitset.num_blocks. rewrite E. cbn.
  exists b2. split; [done|]. split; [done|]. split; [done|]. rewrite V2, V1, N1. unfold resize_spec, append_spec.
  change (m_bits_number Bitset.ctor_empty) with 0. change (value 128 Bitset.ctor_empty) with 0.
  rewrite Z.shiftl_0_r, Z.lor_0_l. by replace (bits <=? 0 + 128) with true by lia.
Qed.

Section Choice.
Context (choice : dynamic_bitset) (L : Z) (Hwf : wf 128 choice) (HL : 0 < L <= m_bits_number choice) (HL128 : m_bits_number choice <= 128).
Local Abbreviation v := (value 128 choice).

Lemma punctured_run i : 0 <= i < L -> GetPuncturedIndex choice i = Val (v mod 2 ^ (i + 1)).
Proof.
  intros Hi. unfold GetPuncturedIndex.
  destruct (resize_refines 128 choice (i + 1) false Hwf ltac:(lia)) as (b & -> & Wb & Nb & Vb). cbn [access mbind res_bind].
  destruct (one_block b Wb ltac:(lia)) as (_ & -> & _). cbn [access]. rewrite Vb. unfold resize_spec.
  by replace (i + 1 <=? m_bits_number choice) with true by lia.
Qed.

Lemma inserted_run i : 0 <= i < L -> GetInsertedIndex choice i = Val (Z.lxor (v mod 2 ^ (i + 1)) (2 ^ i)).
Proof.
  intros Hi. unfold GetInsertedIndex.
  destruct (resize_refines 128 choice (i + 1) false Hwf ltac:(lia)) as (b & -> & Wb & Nb & Vb). cbn [access mbind res_bind].
  destruct (flip_pos_refines 128 b i Wb ltac:(lia)) as (b' & -> & Wb' & Nb' & Vb'). cbn [access mbind res_bind].
  destruct (one_block b' Wb' ltac:(lia)) as (_ & -> & _). cbn [access]. rewrite Vb', Vb. unfold resize_spec.
  by replace (i + 1 <=? m_bits_number choice) with true by lia.
Qed.

(** The next bit of the index selects between the two children. *)
Lemma mod_pow2_step x i : 0 <= i -> x mod 2 ^ (i + 1) = x mod 2 ^ i + 2 ^ i * Z.b2z (Z.testbit x i).
Proof.
  intros Hi. assert (Hp : 0 < 2 ^ i) by lia. apply Z.bits_inj'. intros j Hj.
  rewrite testbit_join by (done || apply Z.mod_pos_bound; lia). rewrite testbit_mod by lia.
  destruct (Z.ltb_spec j i).
  - rewrite testbit_mod by lia. by replace (j <? i + 1) with true by lia; replace (j <? i) with true by lia.
  - destruct (Z.eqb_spec j i) as [-> | Hne].
    + rewrite Z.sub_diag, Z.b2z_bit0. by replace (i <? i + 1) with true by lia.
    + replace (j <? i + 1) with false by lia. cbn [andb]. symmetry.
      destruct (Z.testbit x i); cbn [Z.b2z]; [|apply Z.bits_0].
      change 1 with (2 ^ 0). rewrite testbit_pow2 by lia. lia.
Qed.

Lemma flip_top x i : 0 <= i ->
  Z.lxor (x mod 2 ^ (i + 1)) (2 ^ i) = x mod 2 ^ i + 2 ^ i * Z.b2z (negb (Z.testbit x i)).
Proof.
  intros Hi. assert (Hp : 0 < 2 ^ i) by lia. apply Z.bits_inj'. intros j Hj.
  rewrite Z.lxor_spec, mod_pow2_step, !testbit_join, testbit_pow2 by (done || apply Z.mod_pos_bound; lia).
  destruct (Z.ltb_spec j i).
  - replace (j =? i) with false by lia. apply xorb_false_r.
  - destruct (Z.eqb_spec j i) as [-> | Hne].
    + rewrite Z.sub_diag, !Z.b2z_bit0. apply xorb_true_r.
    + rewrite xorb_false_r. replace (j - i) with (Z.succ (Z.pred (j - i))) by lia.
      destruct (Z.testbit x i); cbn [Z.b2z negb]; rewrite Z.bits_0; change 1 with (2 ^ 0); rewrite testbit_pow2; lia.
Qed.
End Choice.

(** *** The receiver's tree *)

Section Receiver.
Context (prf : bool -> Z -> Z) (seed : Z) (h : heap) (base_ot : OtRecvStore) (n L index : Z).
Context (choice : dynamic_bitset) (buf : bytes) (x : Z -> Z).
Hypothesis HL : height n L.
Hypothesis Hindex : 0 <= index < n.
Hypothesis Hwf : wf 128 choice.
Hypothesis Hbits : L <= m_bits_number choice <= 128.
Hypothesis Hval : value 128 choice mod 2 ^ L = index.
Hypothesis Hblock : forall i, 0 <= i < L -> OtRecv.GetBlock h base_ot i = Val (x i).
Hypothesis Hmsg : forall i, 0 <= i < L ->
  word_at buf (2 * i + (1 - Z.b2z (Z.testbit index i))) =
    Some (Z.lxor (side_sum prf seed (negb (Z.testbit index i)) (Z.to_nat i)) (x i)).

(** Level [i] is known except for the node on the path, which is 0. *)
Definition level_known (i : Z) (output : list Z) : Prop :=
  known prf seed (Z.to_nat i) n (index mod 2 ^ i) output /\ (0 < i -> blk output (index mod 2 ^ i) = 0).

(** The new seeds of a level, before the one received is inserted. *)
Lemma recv_expand i output :
  0 <= i < L -> n <= vsize output -> level_known i output ->
  exists output1,
    (if negb (i =? 0)
     then access (expand_known prf n i (index mod 2 ^ (i + 1))
                    (Z.lxor (index mod 2 ^ (i + 1)) (2 ^ i)) (Z.testbit index i) output
                    (side_sum prf seed (negb (Z.testbit index i)) (Z.to_nat i)))
     else Val (output, side_sum prf seed (negb (Z.testbit index i)) (Z.to_nat i))) =
    Val (output1, child prf (negb (Z.testbit index i)) (node prf seed (Z.to_nat i) (index mod 2 ^ i))) /\
    vsize output1 = vsize output /\
    forall j, 0 <= j < Z.min (2 ^ (i + 1)) n -> j <> index mod 2 ^ i -> j <> index mod 2 ^ i + 2 ^ i ->
      blk output1 j = node prf seed (S (Z.to_nat i)) j.
Proof.
  intros Hi Hn [Hk _]. rewrite flip_top, mod_pow2_step by lia. pose proof HL as (? & ? & ? & ?).
  pose proof (Z.mod_pos_bound index (2 ^ i) ltac:(lia)) as Hp.
  set (p := index mod 2 ^ i) in *. set (c := Z.testbit index i).
  destruct (Z.eqb_spec i 0) as [-> | Hi0]; cbn [negb].
  - exists output. change (2 ^ 0) with 1 in *. change (2 ^ (0 + 1)) with 2. replace p with 0 in * by lia.
    split; [|split; [done|intros j Hj Hj0 Hj1; exfalso; lia]]. unfold side_sum. cbn. done.
  - pose proof (height_level n L i HL ltac:(lia)) as Hlt.
    destruct (expand_known_run prf seed n (Z.to_nat i) output c (p + 2 ^ i * Z.b2z c) (p + 2 ^ i * Z.b2z (negb c)) p 0)
      as (output1 & E & H3 & H4); rewrite ?Z2Nat.id by lia; try lia; [exact Hk|].
    rewrite Z2Nat.id in E by lia. rewrite Z.lxor_0_r, Z.lxor_0_r in E. rewrite E. cbn [access]. exists output1.
    split; [done|]. split; [done|]. intros j Hj Hjp Hjq. apply H4; rewrite ?Z2Nat.id by lia; [|done|done].
    by replace (Z.of_nat (S (Z.to_nat i))) with (i + 1) by lia.
Qed.

(** The bitset of choices is the index, up to its height. *)
Lemma choice_index i : 0 <= i < L -> value 128 choice mod 2 ^ (i + 1) = index mod 2 ^ (i + 1) /\
  Z.testbit (value 128 choice) i = Z.testbit index i.
Proof.
  intros Hi. rewrite <- Hval. split.
  - rewrite Z.mod_mod_divide; [done|]. exists (2 ^ (L - (i + 1))). rewrite <- Z.pow_add_r by lia. f_equal. lia.
  - rewrite testbit_mod by lia. by replace (i <? L) with true by lia.
Qed.

Lemma recv_open_run i output :
  0 <= i < L -> n <= vsize output -> level_known i output ->
  exists output1, recv_open prf h base_ot n choice buf i output =
      Val (index mod 2 ^ (i + 1), Z.lxor (index mod 2 ^ (i + 1)) (2 ^ i), output1,
           child prf (negb (Z.testbit index i)) (node prf seed (Z.to_nat i) (index mod 2 ^ i))) /\
    vsize output1 = vsize output /\
    forall j, 0 <= j < Z.min (2 ^ (i + 1)) n -> j <> index mod 2 ^ i -> j <> index mod 2 ^ i + 2 ^ i ->
      blk output1 j = node prf seed (S (Z.to_nat i)) j.
Proof.
  intros Hi Hn Hk. pose proof HL as (? & ? & ? & ?). unfold recv_open. destruct (choice_index i Hi) as [Ei Et].
  destruct (recv_expand i output Hi Hn Hk) as (output1 & E & Hsz & Hother).
  rewrite (punctured_run choice L Hwf ltac:(lia) ltac:(lia)), (inserted_run choice L Hwf ltac:(lia) ltac:(lia)) by done.
  cbn [mbind res_bind]. rewrite (test_spec 128) by (done || lia). cbn [access mbind res_bind]. rewrite Ei, Et.
  rewrite Hmsg by done. cbn [access mbind res_bind]. rewrite Hblock by done. cbn [mbind res_bind].
  rewrite Z.lxor_assoc, Z.lxor_nilpotent, Z.lxor_0_r. rewrite E. cbn [mbind res_bind]. by exists output1.
Qed.

Lemma recv_level_run i output :
  0 <= i < L -> n <= vsize output -> level_known i output ->
  exists output', recv_level prf h base_ot n choice buf i output = Val output' /\
    recv_level_fixed prf h base_ot n choice buf i output = Val output' /\
    vsize output' = vsize output /\ level_known (i + 1) output'.
Proof.
  intros Hi Hn Hk. pose proof HL as (? & ? & ? & ?). unfold recv_level, recv_level_fixed.
  destruct (recv_open_run i output Hi Hn Hk) as (output1 & -> & Hsz & Hother). destruct Hk as [Hk _].
  cbn [mbind res_bind].
  pose proof (Z.mod_pos_bound index (2 ^ i) ltac:(lia)) as Hp.
  rewrite flip_top by lia. set (Q := index mod 2 ^ i + 2 ^ i * Z.b2z (negb (Z.testbit index i))).
  assert (HP : index mod 2 ^ (i + 1) = index mod 2 ^ i + 2 ^ i * Z.b2z (Z.testbit index i)) by (apply mod_pow2_step; lia).
  assert (HPn : 0 <= index mod 2 ^ (i + 1) <= index).
  { split; [apply Z.mod_pos_bound; lia|]. apply Z.mod_le; lia. }
  set (P := index mod 2 ^ (i + 1)) in *. set (c := Z.testbit index i) in *. set (p := index mod 2 ^ i) in *.
  replace (P <? n) with true by lia. rewrite vset_Some by lia. cbn [access mbind res_bind].
  assert (HPQ : P <> Q) by (unfold Q; destruct c; cbn [Z.b2z negb] in *; lia).
  assert (HQ : child prf (negb c) (node prf seed (Z.to_nat i) p) = node prf seed (S (Z.to_nat i)) Q).
  { cbn [node]. rewrite Z2Nat.id by lia. unfold Q. destruct c; cbn [Z.b2z negb].
    - rewrite Z.mul_0_r, Z.add_0_r. by replace (p <? 2 ^ i) with true by lia.
    - replace (p + 2 ^ i * 1 <? 2 ^ i) with false by lia. do 2 f_equal. lia. }
  assert (Hcases : forall j, j <> P -> j <> Q -> j <> p /\ j <> p + 2 ^ i).
  { intros j. unfold Q. destruct c; cbn [Z.b2z negb] in *; lia. }
  assert (Hb : forall j, blk (<[Z.to_nat P := 0]> output1) j = if j =? P then 0 else blk output1 j).
  { intros j. apply blk_insert. lia. }
  assert (Hpow : Z.of_nat (Z.to_nat (i + 1)) = i + 1) by lia.
  unfold level_known, known. rewrite Hpow. fold P. replace (Z.to_nat (i + 1)) with (S (Z.to_nat i)) by lia.
  assert (HQ0 : 0 <= Q) by (unfold Q; destruct c; cbn [Z.b2z negb]; lia).
  destruct (Z.ltb_spec Q n) as [HQn | HQn].
  - rewrite vset_Some by (rewrite vsize_insert; lia). cbn [access]. eexists. split; [done|]. split; [done|].
    split; [by rewrite !vsize_insert|].
    assert (Hb2 : forall y j, blk (<[Z.to_nat Q := y]> (<[Z.to_nat P := 0]> output1)) j =
      if j =? Q then y else if j =? P then 0 else blk output1 j).
    { intros y j. rewrite blk_insert by (rewrite vsize_insert; lia). by rewrite Hb. }
    split.
    + intros j Hj HjP. rewrite Hb2. destruct (Z.eqb_spec j Q) as [-> | HjQ]; [done|].
      replace (j =? P) with false by lia. destruct (Hcases j HjP HjQ). by apply Hother.
    + intros _. rewrite Hb2. replace (P =? Q) with false by lia. by rewrite Z.eqb_refl.
  - eexists. split; [done|]. split; [done|]. split; [by rewrite vsize_insert|]. split.
    + intros j Hj HjP. rewrite Hb. replace (j =? P) with false by lia. destruct (Hcases j HjP ltac:(lia)). by apply Hother.
    + intros _. rewrite Hb. by rewrite Z.eqb_refl.
Qed.

Lemma recv_levels output0 : n <= vsize output0 ->
  exists output, for_res (Z.to_nat L) 0 (recv_level prf h base_ot n choice buf) output0 = Val output /\
    for_res (Z.to_nat L) 0 (recv_level_fixed prf h base_ot n choice buf) output0 = Val output /\
    vsize output = vsize output0 /\ blk output index = 0 /\
    forall j, 0 <= j < n -> j <> index -> blk output j = node prf seed (Z.to_nat L) j.
Proof.
  intros Hn. pose proof HL as (? & ? & ? & ?).
  destruct (for_res_both (fun i output => vsize output = vsize output0 /\ level_known i output)
    (recv_level prf h base_ot n choice buf) (recv_level_fixed prf h base_ot n choice buf) (Z.to_nat L) 0 output0)
    as (output & E & E' & Hsz & Hk & Hz).
  - split; [done|]. split; [|lia]. intros j Hj. change (2 ^ Z.of_nat (Z.to_nat 0)) with 1 in Hj.
    change (2 ^ 0) with 1. rewrite Z.mod_1_r. lia.
  - intros i output Hi [Hsz Hk]. destruct (recv_level_run i output ltac:(lia) ltac:(lia) Hk) as (output' & E & E' & H3 & H4).
    exists output'. split; [done|]. split; [done|]. split; [lia|done].
  - rewrite Z.add_0_l, Z2Nat.id in Hk, Hz by lia. exists output. split; [done|]. split; [done|]. split; [done|].
    rewrite Z.mod_small in Hk, Hz by lia. split; [apply Hz; lia|].
    intros j Hj Hji. apply Hk; [|done]. rewrite Z2Nat.id by lia. lia.
Qed.
End Receiver.

(** *** Sums and ranges *)

Lemma xs_range f k : (forall j, 0 <= f j < 2 ^ 128) -> 0 <= xs f k < 2 ^ 128.
Proof. intros H. induction k as [|k IH]; cbn [xs]; [lia|]. by apply lxor_block_range. Qed.

Lemma xs_differ f g p k : 0 <= p < Z.of_nat k -> (forall j, 0 <= j < Z.of_nat k -> j <> p -> f j = g j) ->
  Z.lxor (xs f k) (xs g k) = Z.lxor (f p) (g p).
Proof.
  intros Hp Hfg. rewrite <- (xs_skip f p k Hp), <- (xs_skip g p k Hp).
  rewrite (xs_ext (fun j => if j =? p then 0 else g j) (fun j => if j =? p then 0 else f j)).
  - set (s := xs (fun j => if j =? p then 0 else f j) k). rewrite (Z.lxor_comm (xs g k) s), Z.lxor_assoc, <- (Z.lxor_assoc s s), Z.lxor_nilpotent.
    by rewrite Z.lxor_0_l.
  - intros j Hj. destruct (Z.eqb_spec j p); [done|]. symmetry. by apply Hfg.
Qed.

(** *** Transfers *)

(** What the protocol needs of the transfers: the receiver's choices [c] and
    blocks [x], and the sender's messages, which are blocks. *)
Record transfers (hs : heap) (s : OtSendStore) (hr : heap) (r : OtRecvStore) (L : Z) (c : Z -> bool) (x y : Z -> Z) : Prop := {
  tr_recv_size : L <= OtRecv.Size r <= 128;
  tr_send_size : L <= OtSend.Size s;
  tr_choice i : 0 <= i < L -> OtRecv.GetChoice hr r i = Val (Z.b2z (c i));
  tr_block i : 0 <= i < L -> OtRecv.GetBlock hr r i = Val (x i);
  tr_sent i : 0 <= i < L -> OtSend.GetBlock hs s i (Z.b2z (c i)) = Val (x i) /\ 0 <= x i < 2 ^ 128;
  tr_other i : 0 <= i < L -> OtSend.GetBlock hs s i (Z.b2z (negb (c i))) = Val (y i) /\ 0 <= y i < 2 ^ 128
}.

(** Every message of the sender is a 128-bit block. *)
Definition blocks_sent (h : heap) (s : OtSendStore) : Prop :=
  forall i m, 0 <= i < OtSend.Size s -> m = 0 \/ m = 1 -> exists z, OtSend.GetBlock h s i m = Val z /\ 0 <= z < 2 ^ 128.

Lemma correlated_transfers h s r L :
  correlated h s r -> blocks_sent h s -> L <= OtRecv.Size r <= 128 -> exists c x y, transfers h s h r L c x y.
Proof.
  intros [Hsz Hc] Hb HL.
  set (unVal := fun (o : res Z) => match o with Val z => z | _ => 0 end).
  exists (fun i => unVal (OtRecv.GetChoice h r i) =? 1), (fun i => unVal (OtRecv.GetBlock h r i)),
    (fun i => unVal (OtSend.GetBlock h s i (1 - unVal (OtRecv.GetChoice h r i)))).
  assert (H : forall i, 0 <= i < L -> exists c x y, OtRecv.GetChoice h r i = Val c /\ (c = 0 \/ c = 1) /\
    OtRecv.GetBlock h r i = Val x /\ OtSend.GetBlock h s i c = Val x /\ 0 <= x < 2 ^ 128 /\
    OtSend.GetBlock h s i (1 - c) = Val y /\ 0 <= y < 2 ^ 128).
  { intros i Hi. destruct (Hc i ltac:(lia)) as (c & x & H1 & H2 & H3 & H4).
    destruct (Hb i c ltac:(lia) H2) as (z & H5 & H6). destruct (Hb i (1 - c) ltac:(lia) ltac:(lia)) as (y & H7 & H8).
    rewrite H4 in H5. injection H5 as <-. by exists c, x, y. }
  split; [lia|lia|..]; intros i Hi; destruct (H i Hi) as (c & x & y & E1 & Hc01 & E2 & H4 & H5 & H6 & H7);
    rewrite ?E1, ?E2; subst unVal; cbn beta iota.
  - by destruct Hc01 as [-> | ->].
  - done.
  - by destruct Hc01 as [-> | ->].
  - rewrite H6. destruct Hc01 as [-> | ->]; done.
Qed.

Section Messages.
Context (prf : bool -> Z -> Z) (seed : Z) (h : heap) (s : OtSendStore) (r : OtRecvStore) (n L index : Z).
Context (c : Z -> bool) (x y : Z -> Z).
Hypothesis Htr : transfers h s h r L c x y.
Hypothesis HL : height n L.
Hypothesis Hindex : 0 <= index < n.
Hypothesis Hprf : forall b z, 0 <= prf b z < 2 ^ 128.
Hypothesis Hseed : 0 <= seed < 2 ^ 128.

(** *** The receiver's request *)

Lemma mask_choices flipped : wf 128 flipped -> m_bits_number flipped = L ->
  exists masked, for_res (Z.to_nat L) 0 (mask_choice h r) flipped = Val masked /\
    wf 128 masked /\ m_bits_number masked = L /\
    forall t, 0 <= t < L -> Z.testbit (value 128 masked) t = xorb (Z.testbit (value 128 flipped) t) (c t).
Proof.
  intros Hw Hn. pose proof HL as (Hl1 & Hl2 & Hl3).
  destruct (for_res_inv (fun k b => wf 128 b /\ m_bits_number b = L /\
      forall t, 0 <= t < L -> Z.testbit (value 128 b) t =
        if t <? k then xorb (Z.testbit (value 128 flipped) t) (c t) else Z.testbit (value 128 flipped) t)
    (mask_choice h r) (Z.to_nat L) 0 flipped) as (masked & E & H1 & H2 & H3).
  - split; [done|]. split; [done|]. intros t Ht. by replace (t <? 0) with false by lia.
  - intros k b Hk (Hwb & Hnb & Hb). unfold mask_choice. rewrite (tr_choice _ _ _ _ _ _ _ _ Htr) by lia.
    cbn [mbind res_bind]. destruct (subscript_ops 128 b k Hwb ltac:(lia)) as (rf & -> & _ & Hflip & _).
    cbn [access mbind res_bind]. unfold Bitset.ref_xor. rewrite Hflip.
    replace (negb (Z.b2z (c k) =? 0)) with (c k) by (by destruct (c k)).
    destruct (c k) eqn:Eck.
    + destruct (flip_pos_refines 128 b k Hwb ltac:(lia)) as (b' & -> & Hw' & Hn' & Hv'). exists b'.
      split; [done|]. split; [done|]. split; [lia|]. intros t Ht. rewrite Hv', Z.lxor_spec, testbit_pow2, Hb by lia.
      destruct (Z.eqb_spec t k) as [-> | Hne].
      * replace (k <? k) with false by lia. replace (k <? k + 1) with true by lia. by rewrite Eck.
      * rewrite xorb_false_r. by replace (t <? k + 1) with (t <? k) by lia.
    + exists b. split; [done|]. split; [done|]. split; [done|]. intros t Ht. rewrite Hb by done.
      destruct (Z.eqb_spec t k) as [-> | Hne].
      * replace (k <? k) with false by lia. replace (k <? k + 1) with true by lia. by rewrite Eck, xorb_false_r.
      * by replace (t <? k + 1) with (t <? k) by lia.
  - exists masked. split; [done|]. split; [done|]. split; [done|]. intros t Ht. rewrite H3 by done.
    by replace (t <? 0 + Z.of_nat (Z.to_nat L)) with true by lia.
Qed.

Lemma recv_choices_run : exists choice masked,
  recv_choices h r L index = Val (choice, masked) /\
  (wf 128 choice /\ m_bits_number choice = L /\ value 128 choice = index) /\
  wf 128 masked /\ m_bits_number masked = L /\
  forall t, 0 <= t < L -> Z.testbit (value 128 masked) t = xorb (negb (Z.testbit index t)) (c t).
Proof.
  pose proof HL as (Hl1 & Hl2 & Hl3 & Hl4). unfold recv_choices.
  destruct (MakeDynamicBitset_run index L ltac:(lia) ltac:(lia)) as (choice & -> & Hw & Hn & Hv). cbn [mbind res_bind].
  rewrite Z.mod_small in Hv by lia.
  destruct (flip_all_refines 128 choice Hw) as (fl & -> & Hw2 & Hn2 & Hv2). cbn [access mbind res_bind].
  destruct (mask_choices fl Hw2 ltac:(lia)) as (masked & -> & Hw3 & Hn3 & Hb). cbn [mbind res_bind].
  exists choice, masked. split; [done|]. split; [done|]. split; [done|]. split; [done|].
  intros t Ht. rewrite Hb by done. f_equal. rewrite Hv2, Z.lxor_spec, Hv, Hn.
  rewrite testbit_ones by lia. replace ((0 <=? t) && (t <? L)) with true by lia. apply xorb_true_r.
Qed.

Lemma read_choices_run masked : wf 128 masked -> m_bits_number masked = L ->
  read_choices L (words_bytes (m_blocks masked)) = Val masked.
Proof.
  intros Hw Hn. pose proof HL as (Hl1 & Hl2 & Hl3). unfold read_choices.
  destruct (ctor_value_refines 128 L 0 ltac:(lia) ltac:(lia)) as (b & -> & Hwb & Hnb & _). cbn [access mbind res_bind].
  destruct (one_block b Hwb ltac:(lia)) as (Eb & _). destruct (one_block masked Hw ltac:(lia)) as (Em & Hv & Hr).
  unfold Bitset.num_blocks. rewrite Eb, Em. change (seqZ 0 (vsize [value 128 b])) with [0]. cbn [mapM].
  rewrite (word_at_words [value 128 masked] 0 (value 128 masked)) by done. cbn.
  rewrite <- Em, <- Hn. by destruct masked.
Qed.

(** *** The sender's reply *)

Lemma child_range b z : 0 <= z < 2 ^ 128 -> 0 <= child prf b z < 2 ^ 128.
Proof. intros Hz. unfold child. by apply lxor_block_range. Qed.

Lemma node_range i j : 0 <= node prf seed i j < 2 ^ 128.
Proof. revert j. induction i as [|i IH]; intros j; cbn [node]; [done|]. destruct (_ <? _); by apply child_range. Qed.

Lemma side_sum_range b i : 0 <= side_sum prf seed b i < 2 ^ 128.
Proof. apply xs_range. intros j. apply child_range, node_range. Qed.

Lemma mask_messages_run masked msgs :
  wf 128 masked -> m_bits_number masked = L -> vsize msgs = L ->
  (forall t, 0 <= t < L -> vget msgs t = Some (side_sum prf seed false (Z.to_nat t), side_sum prf seed true (Z.to_nat t))) ->
  (forall t, 0 <= t < L -> Z.testbit (value 128 masked) t = xorb (negb (Z.testbit index t)) (c t)) ->
  exists msgs', for_res (Z.to_nat L) 0 (mask_message h s masked) msgs = Val msgs' /\ vsize msgs' = L /\
    forall t, 0 <= t < L -> exists m, vget msgs' t = Some m /\ 0 <= fst m < 2 ^ 128 /\ 0 <= snd m < 2 ^ 128 /\
      (if Z.testbit index t then fst m else snd m) =
        Z.lxor (side_sum prf seed (negb (Z.testbit index t)) (Z.to_nat t)) (x t).
Proof.
  intros Hw Hn Hsz Hmsgs Hbits. pose proof HL as (Hl1 & Hl2 & Hl3).
  set (masks := fun t => let m := xorb (negb (Z.testbit index t)) (c t) in
    if Bool.eqb m (c t) then (x t, y t) else (y t, x t)).
  destruct (for_res_inv (fun k (ms : list (Z * Z)) => vsize ms = L /\
      forall t, 0 <= t < L -> vget ms t = Some
        (if t <? k then (Z.lxor (side_sum prf seed false (Z.to_nat t)) (fst (masks t)),
                         Z.lxor (side_sum prf seed true (Z.to_nat t)) (snd (masks t)))
         else (side_sum prf seed false (Z.to_nat t), side_sum prf seed true (Z.to_nat t))))
    (mask_message h s masked) (Z.to_nat L) 0 msgs) as (msgs' & E & H1 & H2).
  - split; [done|]. intros t Ht. rewrite Hmsgs by done. by replace (t <? 0) with false by lia.
  - intros k ms Hk (Hsm & Hms). unfold mask_message. rewrite Hms by lia. replace (k <? k) with false by lia.
    cbn [access mbind res_bind]. rewrite (test_spec 128), Hbits by (done || lia). cbn [access mbind res_bind].
    destruct (tr_sent _ _ _ _ _ _ _ _ Htr k ltac:(lia)) as [Hs1 _].
    destruct (tr_other _ _ _ _ _ _ _ _ Htr k ltac:(lia)) as [Ho1 _].
    assert (E0 : OtSend.GetBlock h s k (Z.b2z (xorb (negb (Z.testbit index k)) (c k))) = Val (fst (masks k))).
    { unfold masks. destruct (Z.testbit index k), (c k); done. }
    assert (E1 : OtSend.GetBlock h s k (1 - Z.b2z (xorb (negb (Z.testbit index k)) (c k))) = Val (snd (masks k))).
    { unfold masks. destruct (Z.testbit index k), (c k); done. }
    rewrite E0. cbn [mbind res_bind]. rewrite E1. cbn [mbind res_bind fst snd].
    rewrite vset_Some by lia. cbn [access]. eexists. split; [done|]. split; [by rewrite vsize_insert|].
    intros t Ht. unfold vget. replace (0 <=? t) with true by lia.
    destruct (Z.eqb_spec t k) as [-> | Hne].
    + rewrite list_lookup_insert_eq by (unfold vsize in *; lia). by replace (k <? k + 1) with true by lia.
    + rewrite list_lookup_insert_ne by lia. specialize (Hms t Ht). unfold vget in Hms.
      replace (0 <=? t) with true in Hms by lia. rewrite Hms. by replace (t <? k + 1) with (t <? k) by lia.
  - exists msgs'. split; [done|]. split; [done|]. intros t Ht. eexists. split; [by apply H2|].
    replace (t <? 0 + Z.of_nat (Z.to_nat L)) with true by lia. cbn [fst snd].
    destruct (tr_sent _ _ _ _ _ _ _ _ Htr t Ht) as [_ Hx]. destruct (tr_other _ _ _ _ _ _ _ _ Htr t Ht) as [_ Hy].
    assert (Hm : 0 <= fst (masks t) < 2 ^ 128 /\ 0 <= snd (masks t) < 2 ^ 128).
    { unfold masks. destruct (Bool.eqb _ _); done. }
    split; [apply lxor_block_range; [apply side_sum_range|tauto]|].
    split; [apply lxor_block_range; [apply side_sum_range|tauto]|].
    unfold masks. destruct (Z.testbit index t), (c t); done.
Qed.

(** The reply as the receiver reads it. *)
Lemma reply_words msgs' :
  vsize msgs' = L ->
  (forall t, 0 <= t < L -> exists m, vget msgs' t = Some m /\ 0 <= fst m < 2 ^ 128 /\ 0 <= snd m < 2 ^ 128 /\
      (if Z.testbit index t then fst m else snd m) =
        Z.lxor (side_sum prf seed (negb (Z.testbit index t)) (Z.to_nat t)) (x t)) ->
  vsize (words_bytes (pairs_words msgs')) = L * 2 * 16 /\
  forall i, 0 <= i < L -> word_at (words_bytes (pairs_words msgs')) (2 * i + (1 - Z.b2z (Z.testbit index i))) =
    Some (Z.lxor (side_sum prf seed (negb (Z.testbit index i)) (Z.to_nat i)) (x i)).
Proof.
  intros Hsz Hm. unfold pairs_words. rewrite vsize_words, vsize_pairs, Hsz. split; [lia|]. intros i Hi.
  destruct (Hm i Hi) as (m & Em & H0 & H1 & Ev). rewrite <- Ev.
  pose proof (blk_pairs msgs' i (1 - Z.b2z (Z.testbit index i)) ltac:(lia) ltac:(destruct (Z.testbit index i); cbn; lia)) as Hb.
  unfold vget in Em. replace (0 <=? i) with true in Em by lia. rewrite Em in Hb. cbn [fmap option_fmap option_map default] in Hb.
  apply word_at_words; [|by destruct (Z.testbit index i)].
  rewrite vget_blk by (rewrite vsize_pairs; destruct (Z.testbit index i); cbn [Z.b2z]; lia).
  rewrite Hb. by destruct (Z.testbit index i).
Qed.
End Messages.

(** *** The consistency check *)

Section Check.
Context (blake3 : bytes -> bytes) (Hblake : forall b, length (blake3 b) = 32%nat).

Lemma digests_run n output : 0 <= n <= vsize output ->
  digests blake3 n output = Val ((fun i => blake3 (le_bytes 16 (blk output i))) <$> seqZ 0 n).
Proof.
  intros Hn. unfold digests.
  assert (H : forall l, (forall i, i ∈ l -> 0 <= i < vsize output) ->
    mapM (fun i => o ← vget output i; Some (blake3 (le_bytes 16 o))) l =
    Some ((fun i => blake3 (le_bytes 16 (blk output i))) <$> l)).
  { induction l as [|i l IH]; intros Hl; [done|]. cbn. rewrite vget_blk by (apply Hl; left). cbn.
    cbn in IH. rewrite IH; [done|]. intros j Hj. apply Hl. by right. }
  rewrite H; [done|]. intros i Hi. apply elem_of_seqZ in Hi. lia.
Qed.

Lemma seqZ_one a : seqZ a 1 = [a].
Proof. done. Qed.

Lemma blk_xor_bytes a b q : length a = 32%nat -> length b = 32%nat -> blk (xor_bytes a b) q = Z.lxor (blk a q) (blk b q).
Proof.
  intros Ha Hb. unfold xor_bytes, blk, vget. destruct (0 <=? q); [|done]. rewrite lookup_zip_with.
  destruct (decide (Z.to_nat q < 32)%nat).
  - destruct (lookup_lt_is_Some_2 a (Z.to_nat q)) as [u ->]; [lia|].
    by destruct (lookup_lt_is_Some_2 b (Z.to_nat q)) as [v ->]; [lia|].
  - by rewrite !lookup_ge_None_2 by lia.
Qed.

Lemma length_xor_bytes a b : length a = 32%nat -> length b = 32%nat -> length (xor_bytes a b) = 32%nat.
Proof. intros Ha Hb. unfold xor_bytes. rewrite length_zip_with. lia. Qed.

(** Each byte of the folded digest is the sum of that byte. *)
Lemma fold_digests_sum (D : Z -> bytes) t m q : length t = 32%nat -> (forall j, length (D j) = 32%nat) ->
  length (fold_digests t (D <$> seqZ 0 (Z.of_nat m))) = 32%nat /\
  blk (fold_digests t (D <$> seqZ 0 (Z.of_nat m))) q = Z.lxor (blk t q) (xs (fun j => blk (D j) q) m).
Proof.
  intros Ht HD. induction m as [|m [IH1 IH2]].
  - cbn. rewrite Z.lxor_0_r. done.
  - replace (Z.of_nat (S m)) with (Z.of_nat m + 1) by lia. rewrite seqZ_app by lia. rewrite fmap_app.
    rewrite Z.add_0_l, seqZ_one. unfold fold_digests in *. rewrite foldl_app. cbn [fmap list_fmap foldl].
    split; [by apply length_xor_bytes|].
    rewrite blk_xor_bytes by done. rewrite IH2. cbn [xs]. by rewrite Z.lxor_assoc.
Qed.

Lemma pack_unpack a b : length a = 32%nat -> length b = 32%nat ->
  vsize (Pack (a, b)) = 64 /\ Unpack (Pack (a, b)) = Val (a, b).
Proof.
  intros Ha Hb. assert (E : Pack (a, b) = a ++ b) by (unfold Pack; cbn [fst snd]; by rewrite !take_ge by lia).
  rewrite E. assert (Hs : vsize (a ++ b) = 64) by (unfold vsize; rewrite length_app; lia). split; [done|].
  unfold Unpack. rewrite Hs. cbn [Z.eqb OtStore.enforce mbind res_bind]. change (64 =? 64) with true. cbn [OtStore.enforce mbind res_bind].
  by rewrite (take_app_length' a b), (drop_app_length' a b), (take_ge b) by lia.
Qed.

(** The check accepts what an honest sender proves. *)
Lemma check_accepts n index out_s out_r :
  0 <= index < n -> n <= vsize out_s -> n <= vsize out_r ->
  (forall j, 0 <= j < n -> j <> index -> blk out_r j = blk out_s j) ->
  exists proof, GenCheckMsg blake3 n out_s = Val proof /\ length (fst proof) = 32%nat /\ length (snd proof) = 32%nat /\
    VerifyCheckMsg blake3 n index out_r proof = Val true.
Proof.
  intros Hi Hs Hr Hagree. unfold GenCheckMsg, VerifyCheckMsg. rewrite (digests_run n out_s) by lia. cbn [mbind res_bind].
  set (DS := fun i => blake3 (le_bytes 16 (blk out_s i))). set (DR := fun i => blake3 (le_bytes 16 (blk out_r i))).
  assert (HDS : forall j, length (DS j) = 32%nat) by (intros; apply Hblake).
  assert (HDR : forall j, length (DR j) = 32%nat) by (intros; apply Hblake).
  replace n with (Z.of_nat (Z.to_nat n)) by lia. set (m := Z.to_nat n).
  pose proof (fun q => fold_digests_sum DS (replicate 32 0) m q eq_refl HDS) as Ht.
  set (t := fold_digests (replicate 32 0) (DS <$> seqZ 0 (Z.of_nat m))) in *.
  assert (Ht32 : length t = 32%nat) by apply (Ht 0).
  eexists. split; [done|]. cbn [fst snd]. split; [done|]. split; [apply Hblake|].
  rewrite (proj2 (Z.ltb_lt _ _)) by lia. cbn [OtStore.enforce mbind res_bind].
  rewrite (digests_run (Z.of_nat m) out_r) by lia. fold DR. cbn [mbind res_bind].
  pose proof (fun q => fold_digests_sum DR t m q Ht32 HDR) as Ht'.
  set (t' := fold_digests t (DR <$> seqZ 0 (Z.of_nat m))) in *.
  assert (Hlk : (DR <$> seqZ 0 (Z.of_nat m)) !! Z.to_nat index = Some (DR index)).
  { rewrite list_lookup_fmap, lookup_seqZ_lt by lia. cbn. do 2 f_equal. lia. }
  assert (Hvg : vget (DR <$> seqZ 0 (Z.of_nat m)) index = Some (DR index)).
  { unfold vget. by rewrite (proj2 (Z.leb_le _ _)) by lia. }
  rewrite Hvg. cbn [access mbind res_bind]. rewrite vset_Some by (apply vget_Some_iff; by eexists).
  cbn [access mbind res_bind].
  assert (Ex : xor_bytes t' (DR index) = DS index).
  { assert (Ht'32 : length t' = 32%nat) by apply (Ht' 0).
    apply blk_ext; [unfold vsize; rewrite length_xor_bytes; [by rewrite HDS|done|done]|].
    intros q _. rewrite blk_xor_bytes by done. rewrite (proj2 (Ht' q)), (proj2 (Ht q)).
    assert (E0 : blk (replicate 32 0) q = 0).
    { destruct (Z.lt_ge_cases q 0); [apply blk_outside; lia|]. destruct (Z.lt_ge_cases q 32).
      - by rewrite blk_replicate by lia.
      - apply blk_outside. rewrite vsize_replicate. lia. }
    rewrite E0, Z.lxor_0_l. rewrite (xs_differ _ (fun j => blk (DR j) q) index m) by
      (lia || (intros j Hj Hne; unfold DS, DR; by rewrite Hagree by lia)).
    by rewrite Z.lxor_assoc, Z.lxor_nilpotent, Z.lxor_0_r. }
  rewrite Ex. rewrite bool_decide_eq_true_2; [done|]. do 2 f_equal. apply list_eq. intros k.
  destruct (decide (k = Z.to_nat index)) as [-> | Hne].
  - rewrite list_lookup_insert_eq by (rewrite length_fmap, length_seqZ; lia).
    rewrite list_lookup_fmap, lookup_seqZ_lt by lia. cbn. do 2 f_equal. lia.
  - rewrite list_lookup_insert_ne by done. rewrite !list_lookup_fmap.
    destruct (seqZ 0 (Z.of_nat m) !! k) as [j|] eqn:Ej; [|done]. cbn. apply lookup_seqZ in Ej as [-> Hk].
    unfold DS, DR. by rewrite Hagree by lia.
Qed.
End Check.
