(* ===== verification/SgrrTheorems.v ===== *)
(** The punctured expansion as a protocol: whatever the schedule, both parties
    return, and the receiver has all blocks of the sender except the one it
    chose, which is 0. *)

From Stdlib Require Import ZArith Lia ZifyBool Bool Sorted.
From stdpp Require Import base numbers list option gmap.
From S2P Require Import Prelude BitBlock BitSet BitSetFacts BitSetOps BitSetGrow BitSetString.
From S2P Require Import ChannelKeys OtStore OtStoreFacts OtStoreTheorems CrHash TwoParty.
From S2P Require Import LinkProgram Context LinkGroup Collectives CollectivesFacts ContextTheorems.
From S2P Require Import TwoParty Sgrr SgrrFacts.

Local Open Scope Z_scope.

(** *** Depth and refreshed outputs *)

(** The number of levels. *)
Definition depth (n : Z) : Z := Z.log2 (n - 1) + 1.

Lemma depth_height n : 1 < n <= 2 ^ 31 -> height n (depth n) /\ Log2Ceil n = Val (depth n).
Proof.
  intros Hn. unfold depth. destruct (Z.log2_spec (n - 1) ltac:(lia)) as [H1 H2].
  pose proof (Z.log2_nonneg (n - 1)) as H0.
  assert (H3 : Z.log2 (n - 1) < 31) by (apply Z.log2_lt_pow2; lia).
  split.
  - split; [done|]. split; [lia|]. rewrite Z.add_simpl_r, Z.add_1_r. lia.
  - unfold Log2Ceil, Log2Floor, countl_zero. replace (n =? 0) with false by lia. replace (n =? 1) with false by lia.
    replace (n - 1 =? 0) with false by lia. cbn [negb OtStore.enforce mbind res_bind]. f_equal. lia.
Qed.

Lemma blk_refresh rp n l j : 0 <= n <= vsize l -> 0 <= j < n ->
  vsize (refresh rp n l) = vsize l /\ blk (refresh rp n l) j = CrHash_128 rp (blk l j).
Proof.
  intros Hn Hj.
  assert (E : refresh rp n l = (CrHash_128 rp <$> take (Z.to_nat n) l) ++ drop (Z.to_nat n) l).
  { unfold refresh, on_subspan. by rewrite para_cr_inplace_map. }
  rewrite E.
  assert (Hl : vsize (CrHash_128 rp <$> take (Z.to_nat n) l) = n) by (unfold vsize in *; rewrite length_fmap, length_take; lia).
  split; [rewrite vsize_app, Hl; unfold vsize in *; rewrite length_drop; lia|].
  rewrite blk_app, Hl. replace (j <? n) with true by lia.
  rewrite blk_map by (unfold vsize in *; rewrite length_take; lia). by rewrite blk_take by lia.
Qed.

(** *** The calls of both parties *)

(** The calls of both parties, in time. *)
Definition recv_calls (m1 m2 m3 : slot) (mal : bool) : list call :=
  Sent m1 :: Received m2 :: if mal then [Received m3] else [].
Definition send_calls (m1 m2 m3 : slot) (mal : bool) : list call :=
  Received m1 :: Sent m2 :: if mal then [Sent m3] else [].

Lemma calls_planned m1 m2 m3 mal : m1 <> m2 -> m1 <> m3 -> m2 <> m3 ->
  let τ := fun m => if bool_decide (m = m1) then 0%nat else 1%nat in
  (NoDup (recv_calls m1 m2 m3 mal) /\ StronglySorted (in_time τ) (recv_calls m1 m2 m3 mal)) /\
  (NoDup (send_calls m1 m2 m3 mal) /\ StronglySorted (in_time τ) (send_calls m1 m2 m3 mal)).
Proof.
  intros H12 H13 H23 τ. assert (Ht : τ m1 = 0%nat /\ τ m2 = 1%nat /\ τ m3 = 1%nat).
  { unfold τ. by rewrite bool_decide_eq_true_2, !bool_decide_eq_false_2. }
  destruct Ht as (T1 & T2 & T3). unfold recv_calls, send_calls.
  destruct mal; repeat split; repeat (apply NoDup_cons; split; [set_solver|]); try apply NoDup_nil_2;
    repeat constructor; cbn [in_time]; lia.
Qed.

Lemma calls_answered m1 m2 m3 mal m :
  (Received m ∈ recv_calls m1 m2 m3 mal -> (m = m2 \/ m = m3) /\ Sent m ∈ send_calls m1 m2 m3 mal) /\
  (Received m ∈ send_calls m1 m2 m3 mal -> m = m1 /\ Sent m ∈ recv_calls m1 m2 m3 mal).
Proof. unfold recv_calls, send_calls. destruct mal; set_solver. Qed.

Section Protocol.
Context (prf : bool -> Z -> Z) (rp : Z -> Z) (blake3 : bytes -> bytes) (seed : Z).
Context (h : heap) (s : OtSendStore) (r : OtRecvStore) (n index : Z) (mal : bool).
Context (c : Z -> bool) (x y : Z -> Z).
Context (ph : list Z) (nm : bytes) (k rr a b : Z).
Local Abbreviation L := (depth n).
Hypothesis Hblake : forall d, length (blake3 d) = 32%nat.
Hypothesis Hprf : forall d z, 0 <= prf d z < 2 ^ 128.
Hypothesis Hseed : 0 <= seed < 2 ^ 128.
Hypothesis Hn : 1 < n <= 2 ^ 31.
Hypothesis Hindex : 0 <= index < n.
Hypothesis Htr : transfers h s h r L c x y.
Hypothesis Hph : vsize ph = 2.
Hypothesis Hrr : rr = 0 \/ rr = 1.
Hypothesis Ha : 0 <= a < 2 ^ 31 - 1.
Hypothesis Hb : 0 <= b < 2 ^ 31 - 2.

(** The request, the reply and the proof. *)
Definition slot1 : slot := (blk ph rr, blk ph (1 - rr), p2p_id nm (a + 1) rr (1 - rr)).
Definition slot2 : slot := (blk ph (1 - rr), blk ph rr, p2p_id nm (b + 1) (1 - rr) rr).
Definition slot3 : slot := (blk ph (1 - rr), blk ph rr, p2p_id nm (b + 1 + 1) (1 - rr) rr).

(** The leaf at [j], hashed in the malicious setting. *)
Definition leaf (j : Z) : Z :=
  let z := node prf seed (Z.to_nat L) j in if mal then CrHash_128 rp z else z.

(** What the parties compute, and what they send each other. *)
Record exchange (out_s out_r : list Z) (choice masked : dynamic_bitset) (seeded leaves : list Z)
    (msgs masked_msgs : list (Z * Z)) (known_leaves : list Z) (proof : bytes * bytes) : Prop := {
  ex_choices : recv_choices h r L index = Val (choice, masked);
  ex_seeded : vset out_s 0 seed = Some seeded;
  ex_levels : for_up (Z.to_nat L) 0 (send_level prf n) (seeded, replicate (Z.to_nat L) (0, 0)) = Some (leaves, msgs);
  ex_read : read_choices L (words_bytes (m_blocks masked)) = Val masked;
  ex_masked : for_res (Z.to_nat L) 0 (mask_message h s masked) msgs = Val masked_msgs;
  ex_reply : vsize (words_bytes (pairs_words masked_msgs)) = L * 2 * 16;
  ex_known : for_res (Z.to_nat L) 0 (recv_level prf h r n choice (words_bytes (pairs_words masked_msgs))) out_r =
    Val known_leaves;
  ex_proof : GenCheckMsg blake3 n leaves = Val proof;
  ex_packed : vsize (Pack proof) = 64 /\ Unpack (Pack proof) = Val proof;
  ex_verified : VerifyCheckMsg blake3 n index known_leaves proof = Val true;
  ex_leaves : vsize leaves = vsize out_s /\ forall j, 0 <= j < n -> blk leaves j = node prf seed (Z.to_nat L) j;
  ex_known_leaves : vsize known_leaves = vsize out_r /\ blk known_leaves index = 0 /\
    forall j, 0 <= j < n -> j <> index -> blk known_leaves j = node prf seed (Z.to_nat L) j
}.

Lemma exchange_run out_s out_r : n <= vsize out_s -> n <= vsize out_r ->
  exists choice masked seeded leaves msgs masked_msgs known_leaves proof,
    exchange out_s out_r choice masked seeded leaves msgs masked_msgs known_leaves proof.
Proof.
  intros Hs Hr. destruct (depth_height n Hn) as [HL _].
  destruct (recv_choices_run h s r n L index c x y Htr HL Hindex)
    as (choice & masked & E1 & (Wc & Nc & Vc) & Wm & Nm & Bm).
  pose proof (vset_Some out_s 0 seed ltac:(lia)) as E2. set (seeded := <[Z.to_nat 0 := seed]> out_s) in E2.
  assert (Hsz : vsize seeded = vsize out_s) by (unfold seeded; by rewrite vsize_insert).
  assert (H0 : blk seeded 0 = seed) by (unfold seeded; rewrite blk_insert by lia; done).
  destruct (send_levels prf seed n L seeded HL ltac:(lia) H0) as (leaves & msgs & E3 & Zl & Bl & Zm & Em).
  destruct (mask_messages_run prf seed h s r n L index c x y Htr HL Hindex Hprf Hseed masked msgs Wm Nm Zm Em Bm)
    as (masked_msgs & E4 & Zmm & Hmm).
  destruct (reply_words prf seed L index x masked_msgs Zmm Hmm) as (Zr & Hw).
  pose proof HL as (_ & HL31 & _ & HLn). rewrite <- (Z.mod_small index (2 ^ L)) in Vc by lia.
  assert (Vc' : value 128 choice mod 2 ^ L = index) by (rewrite Vc, Z.mod_mod, Z.mod_small by lia; done).
  destruct (recv_levels prf seed h r n L index choice _ x HL Hindex Wc ltac:(lia) Vc' (tr_block _ _ _ _ _ _ _ _ Htr) Hw out_r Hr)
    as (known_leaves & E5 & _ & Zk & Bk0 & Bk).
  destruct (check_accepts blake3 Hblake n index leaves known_leaves Hindex ltac:(lia) ltac:(lia)) as (proof & E6 & P1 & P2 & E7).
  { intros j Hj Hne. by rewrite Bk, Bl by done. }
  destruct proof as [pt pd]. destruct (pack_unpack pt pd P1 P2) as [P3 P4].
  exists choice, masked, seeded, leaves, msgs, masked_msgs, known_leaves, (pt, pd).
  split; try done; [|by rewrite Zl, Hsz].
  by apply (read_choices_run n L HL).
Qed.

(** The receiver's last writes. *)
Definition finish (known_leaves : list Z) : list Z :=
  if mal then <[Z.to_nat index := 0]> (refresh rp n known_leaves) else known_leaves.

Lemma finish_known known_leaves : n <= vsize known_leaves -> blk known_leaves index = 0 ->
  (forall j, 0 <= j < n -> j <> index -> blk known_leaves j = node prf seed (Z.to_nat L) j) ->
  vsize (finish known_leaves) = vsize known_leaves /\
  (forall j, 0 <= j < n -> blk (finish known_leaves) j = if j =? index then 0 else leaf j) /\
  (mal = true -> vset (refresh rp n known_leaves) index 0 = Some (finish known_leaves)).
Proof.
  intros Hk Bk0 Bk. destruct (blk_refresh rp n known_leaves 0 ltac:(lia) ltac:(lia)) as [Zf _].
  unfold leaf, finish. destruct mal.
  - rewrite vsize_insert, vset_Some by lia. split; [done|]. split; [|done]. intros j Hj. rewrite blk_insert by lia.
    destruct (Z.eqb_spec j index); [done|].
    by rewrite (proj2 (blk_refresh rp n known_leaves j ltac:(lia) ltac:(lia))), Bk.
  - split; [done|]. split; [|done]. intros j Hj. destruct (Z.eqb_spec j index) as [-> | Hne]; [done|by apply Bk].
Qed.

Section Calls.
Context (out_s out_r : list Z) (choice masked : dynamic_bitset) (seeded leaves : list Z).
Context (msgs masked_msgs : list (Z * Z)) (known_leaves : list Z) (proof : bytes * bytes).
Hypothesis Hex : exchange out_s out_r choice masked seeded leaves msgs masked_msgs known_leaves proof.

Definition values (m : slot) : option bytes :=
  if bool_decide (m = slot1) then Some (words_bytes (m_blocks masked)) else
  if bool_decide (m = slot2) then Some (words_bytes (pairs_words masked_msgs)) else
  if bool_decide (m = slot3) then Some (Pack proof) else None.

Lemma slots_differ : NoDup ph -> slot1 <> slot2 /\ slot1 <> slot3 /\ slot2 <> slot3.
Proof.
  intros Hnd. assert (Hne : blk ph rr <> blk ph (1 - rr)).
  { intros E. apply blk_inj in E; lia || done. }
  unfold slot1, slot2, slot3. split; [congruence|]. split; [congruence|].
  intros E. injection E as E. apply p2p_id_inj in E; lia.
Qed.

Lemma values_at : NoDup ph ->
  values slot1 = Some (words_bytes (m_blocks masked)) /\ values slot2 = Some (words_bytes (pairs_words masked_msgs)) /\
  values slot3 = Some (Pack proof).
Proof.
  intros Hnd. destruct (slots_differ Hnd) as (H1 & H2 & H3). unfold values.
  repeat case_bool_decide; naive_solver.
Qed.

(** The context of either party at the end. *)
Definition ctx_after (c0 : Context) : Context :=
  let c1 := p2p_next (1 - rr) rr (p2p_next rr (1 - rr) c0) in
  if mal then p2p_next (1 - rr) rr c1 else c1.

Lemma counts_after c0 : p2p_count c0 rr (1 - rr) = a -> p2p_count c0 (1 - rr) rr = b ->
  p2p_count (p2p_next rr (1 - rr) c0) (1 - rr) rr = b /\
  p2p_count (p2p_next (1 - rr) rr (p2p_next rr (1 - rr) c0)) (1 - rr) rr = b + 1.
Proof.
  intros Hca Hcb.
  assert (Hcb1 : p2p_count (p2p_next rr (1 - rr) c0) (1 - rr) rr = b).
  { rewrite p2p_count_next, bool_decide_eq_false_2 by (intros [=]; lia). cbn. lia. }
  split; [done|]. rewrite p2p_count_next, bool_decide_eq_true_2 by done. cbn. lia.
Qed.

Lemma recv_does st c0 : NoDup ph -> n <= vsize out_r -> ctx st = c0 ->
  member ph nm k rr c0 -> p2p_count c0 rr (1 - rr) = a -> p2p_count c0 (1 - rr) rr = b ->
  exists out, does values (blk ph rr) (SgrrOtExtRecv prf rp blake3 h r n index out_r mal) st
      (recv_calls slot1 slot2 slot3 mal) out (ctx_after c0) /\
    vsize out = vsize out_r /\ forall j, 0 <= j < n -> blk out j = if j =? index then 0 else leaf j.
Proof.
  intros Hnd Hor Hst Hm Hca Hcb. destruct (depth_height n Hn) as [HL HLog]. pose proof (tr_recv_size _ _ _ _ _ _ _ _ Htr) as Hsz.
  destruct (ex_known_leaves _ _ _ _ _ _ _ _ _ _ Hex) as (Zk & Bk0 & Bk).
  destruct values_at as (V1 & V2 & V3); [done|]. destruct (ex_packed _ _ _ _ _ _ _ _ _ _ Hex) as [P1 P2].
  pose proof (ex_reply _ _ _ _ _ _ _ _ _ _ Hex) as Hreply.
  destruct (counts_after c0 Hca Hcb) as [Hcb1 Hcb2].
  pose proof (other_rank ph nm k rr c0 Hm Hph Hrr) as Hnext. 
  destruct (finish_known known_leaves ltac:(lia) Bk0 Bk) as (Zf & Bf & Ef).
  exists (finish known_leaves). split; [|by rewrite Zf].
  - unfold SgrrOtExtRecv.
    lifts st Hst HLog.
    do 4 (checks st Hst).
    lifts st Hst (ex_choices _ _ _ _ _ _ _ _ _ _ Hex).
    reads_ctx st Hst. rewrite Hnext. cbn [fst snd].
    sends st Hst Hca V1.
    receives st Hst Hcb1 V2.
    checks st Hst.
    lifts st Hst (ex_known _ _ _ _ _ _ _ _ _ _ Hex).
    revert Ef. unfold ctx_after, finish. destruct mal; intros Ef; [|rewrite <- Hst; apply does_ret].
    receives st Hst Hcb2 V3.
    checks st Hst.
    lifts st Hst P2.
    lifts st Hst (ex_verified _ _ _ _ _ _ _ _ _ _ Hex).
    checks st Hst.
    rewrite Ef, <- Hst by done. apply does_ret.
Qed.

Lemma send_does st c0 : NoDup ph -> n <= vsize out_s -> ctx st = c0 ->
  member ph nm k (1 - rr) c0 -> p2p_count c0 rr (1 - rr) = a -> p2p_count c0 (1 - rr) rr = b ->
  exists out, does values (blk ph (1 - rr)) (SgrrOtExtSend prf rp blake3 h s n seed out_s mal) st
      (send_calls slot1 slot2 slot3 mal) out (ctx_after c0) /\
    vsize out = vsize out_s /\ forall j, 0 <= j < n -> blk out j = leaf j.
Proof.
  intros Hnd Hor Hst Hm Hca Hcb. destruct (depth_height n Hn) as [HL HLog]. pose proof (tr_send_size _ _ _ _ _ _ _ _ Htr) as Hsz.
  destruct (ex_leaves _ _ _ _ _ _ _ _ _ _ Hex) as (Zl & Bl).
  destruct values_at as (V1 & V2 & V3); [done|]. destruct (counts_after c0 Hca Hcb) as [Hcb1 Hcb2].
  pose proof (other_rank ph nm k (1 - rr) c0 Hm Hph ltac:(lia)) as Hnext. replace (1 - (1 - rr)) with rr in Hnext by lia.
  exists (if mal then refresh rp n leaves else leaves). split.
  - unfold SgrrOtExtSend. lifts st Hst HLog. do 2 (checks st Hst).
    eapply does_lift; [by rewrite (ex_seeded _ _ _ _ _ _ _ _ _ _ Hex)|exact Hst|]; next_session st Hst.
    eapply does_lift; [by rewrite (ex_levels _ _ _ _ _ _ _ _ _ _ Hex)|exact Hst|]; next_session st Hst.
    reads_ctx st Hst. rewrite Hnext. cbn [fst snd]. receives st Hst Hca V1.
    lifts st Hst (ex_read _ _ _ _ _ _ _ _ _ _ Hex). lifts st Hst (ex_masked _ _ _ _ _ _ _ _ _ _ Hex).
    sends st Hst Hcb1 V2. unfold ctx_after. destruct mal; [|rewrite <- Hst; apply does_ret].
    lifts st Hst (ex_proof _ _ _ _ _ _ _ _ _ _ Hex). sends st Hst Hcb2 V3. rewrite <- Hst. apply does_ret.
  - unfold leaf. destruct mal; [|done].
    destruct (blk_refresh rp n leaves 0 ltac:(lia) ltac:(lia)) as [Zf _]. rewrite Zf. split; [done|].
    intros j Hj. by rewrite (proj2 (blk_refresh rp n leaves j ltac:(lia) ltac:(lia))), Bl.
Qed.
End Calls.
End Protocol.

(** *** Both parties together *)

(** The party of rank [rr] receives, the other one sends. *)
Definition sgrr_programs prf rp blake3 h s r n index seed out_s out_r mal rr (ss : list session)
  : list (prog (list Z * session)) :=
  imap (fun i st => if Z.of_nat i =? rr then SgrrOtExtRecv prf rp blake3 h r n index out_r mal st
                    else SgrrOtExtSend prf rp blake3 h s n seed out_s mal st) ss.

(** The sessions have exchanged [a] messages in one direction and [b] in the other. *)
Definition exchanged (rr a b : Z) (c : Context) : Prop :=
  p2p_count c rr (1 - rr) = a /\ p2p_count c (1 - rr) rr = b.

Lemma exchanged_after rr a b mal c : exchanged rr a b c -> rr = 0 \/ rr = 1 ->
  exchanged rr (a + 1) (b + 1 + Z.b2z mal) (ctx_after mal rr c).
Proof.
  intros [Ha Hb] Hr. unfold exchanged, ctx_after.
  destruct mal; rewrite !p2p_count_next, Ha, Hb;
    repeat case_bool_decide; simplify_eq; cbn [Z.b2z]; lia || (exfalso; congruence || lia).
Qed.

(** What the party of rank [i] has at the end. *)
Definition expanded (prf : bool -> Z -> Z) (rp : Z -> Z) (seed n index : Z) (mal : bool) (ph : list Z) (nm : bytes)
    (k rr a b : Z) (out_s out_r : list Z) (i : Z)
    (ret : list Z * session) : Prop :=
  vsize (fst ret) = vsize (if i =? rr then out_r else out_s) /\
  (forall j, 0 <= j < n ->
     blk (fst ret) j = if (i =? rr) && (j =? index) then 0 else leaf prf rp seed n mal j) /\
  member ph nm k i (ctx (snd ret)) /\ exchanged rr (a + 1) (b + 1 + Z.b2z mal) (ctx (snd ret)).

Lemma member_after ph nm k i mal rr c : member ph nm k i c -> member ph nm k i (ctx_after mal rr c).
Proof. intros H. unfold ctx_after. destruct mal; by repeat apply member_p2p. Qed.


(** *** A concrete run *)

(** Two transfers, whose choices are 0 and 1. *)
Definition demo_ots : heap * OtSendStore * OtRecvStore :=
  match MockRots demo_heap0 (fun i => 7 * i + 5) 2 (mk_bitset [2] 2) with
  | Val t => t
  | _ => (demo_heap0, mk_send (whole 0) Normal 0 None, mk_recv (whole 0) Normal None None)
  end.

Definition demo_pair : list Z := [10; 20].

Definition demo_pair_sessions : list session :=
  (fun i => mk_session (mk_context [65] [[1]; [2]] i (channels_of demo_pair i) 0 ∅ 0 false) (mk_stats 0 0 0 0)) <$> [0; 1].

Definition demo_prf (d : bool) (z : Z) : Z := ((if d then 3 else 5) * z + 7) mod 2 ^ 128.
Definition demo_hash (d : bytes) : bytes := take 32 (d ++ replicate 32 1).

Lemma demo_pair_group : group demo_pair [65] 0 demo_pair_sessions.
Proof.
  split; [|done|done|].
  - unfold demo_pair. repeat constructor; set_solver.
  - intros [|[|i]] s Hs; cbn in Hs; simplify_eq; by split.
Qed.

Lemma demo_ots_ok : let '(h, s, r) := demo_ots in
  correlated h s r /\ blocks_sent h s /\ OtRecv.Size r = 2 /\ OtSend.Size s = 2.
Proof.
  assert (Hs : OtSend.Size demo_ots.1.2 = 2) by (vm_compute; reflexivity).
  assert (Hr : OtRecv.Size demo_ots.2 = 2) by (vm_compute; reflexivity).
  destruct demo_ots as [[h s] r] eqn:E. cbn [fst snd] in Hs, Hr. split; [|split; [|done]].
  - split; [congruence|]. rewrite Hr. intros i Hi. vm_compute in E. injection E as <- <- <-.
    assert (i = 0 \/ i = 1) as [-> | ->] by lia; [exists 0, 5|exists 1, 26];
      (split; [vm_compute; reflexivity|]); (split; [auto|]); split; vm_compute; reflexivity.
  - unfold blocks_sent. rewrite Hs. intros i m Hi Hm. vm_compute in E. injection E as <- <- <-.
    assert (i = 0 \/ i = 1) as [-> | ->] by lia; destruct Hm as [-> | ->];
      [exists 5|exists 12|exists 19|exists 26]; (split; [vm_compute; reflexivity|lia]).
Qed.

