(* ===== verification/SgrrFixed.v ===== *)
(** The punctured expansion whose index is given by the choices of the transfers:
    one message from the sender to the receiver. *)

From Stdlib Require Import ZArith Lia ZifyBool Bool Sorted.
From stdpp Require Import base numbers list option gmap.
From S2P Require Import Prelude BitBlock BitSet BitSetFacts BitSetOps BitSetGrow BitSetString.
From S2P Require Import ChannelKeys OtStore OtStoreFacts OtStoreTheorems CrHash TwoParty.
From S2P Require Import LinkProgram Context LinkGroup TwoParty Sgrr SgrrFacts SgrrTheorems.

Local Open Scope Z_scope.

(** *** The buffer *)

Lemma word_at_some b i : 0 <= i -> 16 * (i + 1) <= vsize b -> is_Some (word_at b i).
Proof. intros H1 H2. unfold word_at. by replace ((0 <=? i) && (16 * (i + 1) <=? vsize b)) with true by lia. Qed.

Lemma read_pairs_some k b : 0 <= k -> k * 2 * 16 <= vsize b -> exists l, read_pairs k b = Some l /\ vsize l = k.
Proof.
  intros Hk Hb.
  assert (is_Some (read_pairs k b)) as [l E].
  { apply mapM_is_Some. apply Forall_forall. intros i Hi. apply elem_of_seqZ in Hi. unfold compose.
    destruct (word_at_some b (2 * i)) as [x ->]; [lia|lia|]. cbn [mbind option_bind].
    by destruct (word_at_some b (2 * i + 1)) as [y ->]; [lia|lia|]. }
  exists l. split; [done|]. apply length_mapM in E. rewrite length_seqZ in E. unfold vsize. lia.
Qed.

Lemma put_bytes_run dst pos src : 0 <= pos -> pos + vsize src <= vsize dst ->
  put_bytes dst pos src = Some (take (Z.to_nat pos) dst ++ src ++ drop (Z.to_nat (pos + vsize src)) dst).
Proof. intros H1 H2. unfold put_bytes. by replace ((0 <=? pos) && (pos + vsize src <=? vsize dst)) with true by lia. Qed.

(** A buffer filled by two copies. *)
Lemma put_two dst w p : vsize dst = vsize w + vsize p ->
  exists b1, put_bytes dst 0 w = Some b1 /\ (p = [] -> b1 = w) /\ put_bytes b1 (vsize w) p = Some (w ++ p).
Proof.
  intros H. exists (w ++ drop (length w) dst). unfold vsize in *. split; [|split].
  - rewrite put_bytes_run by (unfold vsize; lia). unfold vsize. by rewrite Z.add_0_l, Nat2Z.id.
  - intros ->. rewrite drop_ge by (cbn in *; lia). apply app_nil_r.
  - rewrite put_bytes_run by (unfold vsize; rewrite ?length_app, ?length_drop; lia). unfold vsize. rewrite Nat2Z.id, take_app_length.
    rewrite (drop_ge (w ++ _)) by (rewrite length_app, length_drop; lia). by rewrite app_nil_r.
Qed.

Lemma word_at_prefix a b i : 16 * (i + 1) <= vsize a -> word_at (a ++ b) i = word_at a i.
Proof.
  intros Hi. unfold word_at. rewrite vsize_app. unfold vsize in *.
  replace ((0 <=? i) && (16 * (i + 1) <=? Z.of_nat (length a) + Z.of_nat (length b)))
    with ((0 <=? i) && (16 * (i + 1) <=? Z.of_nat (length a))) by lia.
  destruct (Z.leb_spec 0 i); [|done]. replace (16 * (i + 1) <=? Z.of_nat (length a)) with true by lia. cbn [andb].
  do 2 f_equal. rewrite drop_app_le by lia. by rewrite take_app_le by (rewrite length_drop; lia).
Qed.

Section Fixed.
Context (prf : bool -> Z -> Z) (rp : Z -> Z) (blake3 : bytes -> bytes) (seed : Z).
Context (hs hr : heap) (s : OtSendStore) (r : OtRecvStore) (n : Z) (mal : bool).
Context (c : Z -> bool) (x y : Z -> Z).
Local Abbreviation L := (depth n).
Hypothesis Hblake : forall d, length (blake3 d) = 32%nat.
Hypothesis Hprf : forall d z, 0 <= prf d z < 2 ^ 128.
Hypothesis Hseed : 0 <= seed < 2 ^ 128.
Hypothesis Hn : 1 < n <= 2 ^ 31.
Hypothesis Htr : transfers hs s hr r L c x y.

Definition sent_pair (t : Z) : Z * Z :=
  (Z.lxor (if c t then x t else y t) (side_sum prf seed false (Z.to_nat t)),
   Z.lxor (if c t then y t else x t) (side_sum prf seed true (Z.to_nat t))).

Lemma send_levels_fixed output0 msgs0 :
  n <= vsize output0 -> blk output0 0 = seed -> vsize msgs0 = L ->
  exists output msgs, for_res (Z.to_nat L) 0 (send_level_fixed prf hs s n) (output0, msgs0) = Val (output, msgs) /\
    vsize output = vsize output0 /\ (forall j, 0 <= j < n -> blk output j = node prf seed (Z.to_nat L) j) /\
    vsize msgs = L /\ forall t, 0 <= t < L -> vget msgs t = Some (sent_pair t).
Proof.
  intros Hno H0 Hm0. destruct (depth_height n Hn) as [HL _]. pose proof HL as (Hn2 & HL31 & Hlo & Hhi).
  destruct (for_res_inv (fun k (st : list Z * list (Z * Z)) =>
      vsize (fst st) = vsize output0 /\ (forall j, 0 <= j < Z.min (2 ^ k) n -> blk (fst st) j = node prf seed (Z.to_nat k) j) /\
      vsize (snd st) = L /\ forall t, 0 <= t < k -> vget (snd st) t = Some (sent_pair t))
    (send_level_fixed prf hs s n) (Z.to_nat L) 0 (output0, msgs0)) as ([output msgs] & E & H1 & H2 & H3 & H4).
  - cbn [fst snd]. split; [done|]. split; [|split; [done|lia]].
    intros j Hj. change (2 ^ 0) with 1 in Hj. by replace j with 0 by lia.
  - intros k [output msgs] Hk (H1 & H2 & H3 & H4). cbn [fst snd] in *.
    pose proof (height_level n L k HL ltac:(lia)) as Hkn. unfold send_level_fixed.
    destruct (tr_sent _ _ _ _ _ _ _ _ Htr k ltac:(lia)) as [Hs1 _].
    destruct (tr_other _ _ _ _ _ _ _ _ Htr k ltac:(lia)) as [Ho1 _].
    assert (G : OtSend.GetBlock hs s k 1 = Val (if c k then x k else y k) /\
                OtSend.GetBlock hs s k 0 = Val (if c k then y k else x k)) by (destruct (c k); done).
    destruct G as [-> ->]. cbn [mbind res_bind fst snd]. rewrite vset_Some by lia. cbn [access mbind res_bind].
    set (msgs1 := <[Z.to_nat k := _]> msgs).
    assert (Hg : vget msgs1 k = Some (if c k then x k else y k, if c k then y k else x k)).
    { unfold vget, msgs1. replace (0 <=? k) with true by lia. rewrite list_lookup_insert_eq; [done|unfold vsize in *; lia]. }
    destruct (send_level_run prf seed n (Z.to_nat k) output msgs1 (if c k then x k else y k) (if c k then y k else x k))
      as (output' & E & H5 & H6);
      rewrite ?Z2Nat.id by lia; [lia|lia|lia|done|intros j Hj; apply H2; lia|].
    rewrite Z2Nat.id in E by lia. eexists. split; [by rewrite E|]. cbn [fst snd]. split; [lia|].
    replace (Z.to_nat (k + 1)) with (S (Z.to_nat k)) by lia. split.
    { intros j Hj. apply H6. by replace (Z.of_nat (S (Z.to_nat k))) with (k + 1) by lia. }
    split; [unfold msgs1; by rewrite !vsize_insert|]. intros t Ht. unfold vget. replace (0 <=? t) with true by lia.
    destruct (Z.eqb_spec t k) as [-> | Hne].
    + rewrite list_lookup_insert_eq by (unfold msgs1; rewrite length_insert; unfold vsize in *; lia).
      unfold sent_pair, side_sum. by rewrite Z2Nat.id by lia.
    + unfold msgs1. rewrite !list_lookup_insert_ne by lia. specialize (H4 t ltac:(lia)). unfold vget in H4.
      by replace (0 <=? t) with true in H4 by lia.
  - cbn [fst snd] in *. rewrite Z.add_0_l, Z2Nat.id in H2, H4 by lia. exists output, msgs. split; [done|].
    split; [done|]. split; [intros j Hj; apply H2; lia|]. done.
Qed.

(** The pairs as the receiver reads them. *)
Lemma sent_pairs_read msgs index i :
  vsize msgs = L -> (forall t, 0 <= t < L -> vget msgs t = Some (sent_pair t)) ->
  (forall t, 0 <= t < L -> Z.testbit index t = c t) -> 0 <= i < L ->
  word_at (words_bytes (pairs_words msgs)) (2 * i + (1 - Z.b2z (Z.testbit index i))) =
    Some (Z.lxor (side_sum prf seed (negb (Z.testbit index i)) (Z.to_nat i)) (x i)).
Proof.
  intros Hz Hm Hc Hi.
  apply (reply_words prf seed L index x msgs Hz); [|done]. intros t Ht. exists (sent_pair t). split; [by apply Hm|].
  destruct (tr_sent _ _ _ _ _ _ _ _ Htr t Ht) as [_ Hx]. destruct (tr_other _ _ _ _ _ _ _ _ Htr t Ht) as [_ Hy].
  rewrite (Hc t Ht). unfold sent_pair. cbn [fst snd].
  split; [apply lxor_block_range; [by destruct (c t)|by apply side_sum_range]|].
  split; [apply lxor_block_range; [by destruct (c t)|by apply side_sum_range]|].
  destruct (c t); cbn [negb]; apply Z.lxor_comm.
Qed.

(** What the sender computes and writes. *)
Definition buf_size : Z := L * 16 * 2 + (if mal then 32 * 2 else 0).

Lemma helper_size : Log2Ceil n = Val L /\ SgrrOtExtHelper n mal = Val buf_size.
Proof. destruct (depth_height n Hn) as [_ E]. unfold SgrrOtExtHelper. by rewrite E. Qed.

Lemma send_fixed_run out_s send_buf : n <= vsize out_s -> vsize send_buf = buf_size ->
  exists leaves msgs proof tail,
    send_fixed_index prf rp blake3 hs s n seed out_s send_buf mal =
      Val (if mal then refresh rp n leaves else leaves, words_bytes (pairs_words msgs) ++ tail) /\
    tail = (if mal then Pack proof else []) /\ GenCheckMsg blake3 n leaves = Val proof /\
    vsize leaves = vsize out_s /\ (forall j, 0 <= j < n -> blk leaves j = node prf seed (Z.to_nat L) j) /\
    vsize msgs = L /\ (forall t, 0 <= t < L -> vget msgs t = Some (sent_pair t)).
Proof.
  intros Hs Hbuf. destruct helper_size as [E1 E2]. destruct (depth_height n Hn) as [(_ & HL31 & _) _].
  pose proof (tr_send_size _ _ _ _ _ _ _ _ Htr) as Hsz. unfold send_fixed_index. rewrite E1, E2. cbn [mbind res_bind].
  replace (L <=? OtSend.Size s) with true by lia. replace (1 <? n) with true by lia.
  replace (vsize send_buf =? buf_size) with true by lia. replace (0 <? L) with true by lia.
  cbn [OtStore.enforce mbind res_bind]. rewrite vset_Some by lia. cbn [access mbind res_bind].
  destruct (read_pairs_some L send_buf) as (msgs0 & -> & Hm0); [lia|unfold buf_size in Hbuf; destruct mal; lia|].
  cbn [access mbind res_bind].
  destruct (send_levels_fixed (<[Z.to_nat 0 := seed]> out_s) msgs0) as (leaves & msgs & -> & Zl & Bl & Zm & Em).
  { rewrite vsize_insert. lia. } { rewrite blk_insert by lia. done. } { done. }
  rewrite vsize_insert in Zl. cbn [mbind res_bind].
  assert (Zw : vsize (words_bytes (pairs_words msgs)) = L * 16 * 2).
  { rewrite vsize_words. unfold pairs_words. rewrite vsize_pairs. lia. }
  destruct (check_accepts blake3 Hblake n 0 leaves leaves ltac:(lia) ltac:(lia) ltac:(lia) ltac:(done))
    as ([pt pd] & Ep & P1 & P2 & _). cbn [fst snd] in P1, P2.
  destruct (pack_unpack pt pd P1 P2) as [P3 _].
  exists leaves, msgs, (pt, pd), (if mal then Pack (pt, pd) else []). split; [|by rewrite Ep].
  destruct (put_two send_buf (words_bytes (pairs_words msgs)) (if mal then Pack (pt, pd) else [])) as (b1 & -> & Hb1 & Hb2).
  { rewrite Hbuf, Zw. unfold buf_size. destruct mal; [lia|done]. }
  cbn [access mbind res_bind]. rewrite Zw in Hb2. unfold buf_size in *. destruct mal.
  - rewrite Ep. cbn [mbind res_bind]. replace (L * 16 * 2 + 32 * 2 - 64) with (L * 16 * 2) by lia. by rewrite Hb2.
  - by rewrite Hb1, app_nil_r by done.
Qed.

Lemma gen_check_packed leaves proof : n <= vsize leaves -> GenCheckMsg blake3 n leaves = Val proof ->
  vsize (Pack proof) = 64 /\ Unpack (Pack proof) = Val proof.
Proof.
  intros Hl E. destruct (check_accepts blake3 Hblake n 0 leaves leaves ltac:(lia) Hl Hl ltac:(done)) as ([pt pd] & E' & P1 & P2 & _).
  rewrite E in E'. injection E' as ->. by apply pack_unpack.
Qed.

(** The receiver, with the index its choices make. *)
Lemma recv_fixed_run choice out_r msgs leaves proof :
  OtRecv.CopyBitBuf hr r = Val choice -> wf 128 choice -> m_bits_number choice = OtRecv.Size r ->
  (forall t, 0 <= t < L -> Z.testbit (value 128 choice) t = c t) ->
  n <= vsize out_r -> vsize msgs = L -> (forall t, 0 <= t < L -> vget msgs t = Some (sent_pair t)) ->
  n <= vsize leaves -> (forall j, 0 <= j < n -> blk leaves j = node prf seed (Z.to_nat L) j) ->
  GenCheckMsg blake3 n leaves = Val proof ->
  let index := value 128 choice mod 2 ^ L in
  let ret := recv_fixed_index prf rp blake3 hr r n out_r (words_bytes (pairs_words msgs) ++ if mal then Pack proof else []) mal in
  if index <? n
  then exists out, ret = Val out /\ vsize out = vsize out_r /\
    forall j, 0 <= j < n -> blk out j = if j =? index then 0 else leaf prf rp seed n mal j
  else ret = Err.
Proof.
  intros Ec Wc Nc Hbits Hr Zm Em Zl Bl Ep index ret. subst ret. destruct helper_size as [E1 E2].
  destruct (depth_height n Hn) as [HL _]. pose proof HL as (_ & HL31 & _).
  pose proof (tr_recv_size _ _ _ _ _ _ _ _ Htr) as Hsz.
  assert (Zw : vsize (words_bytes (pairs_words msgs)) = L * 16 * 2).
  { rewrite vsize_words. unfold pairs_words. rewrite vsize_pairs. lia. }
  assert (Hi : 0 <= index < 2 ^ 31).
  { unfold index. pose proof (Z.mod_pos_bound (value 128 choice) (2 ^ L) ltac:(lia)).
    assert (2 ^ L <= 2 ^ 31) by (apply Z.pow_le_mono_r; lia). lia. }
  assert (Zp : vsize (if mal then Pack proof else []) = if mal then 64 else 0).
  { destruct mal; [|done]. by destruct (gen_check_packed leaves proof Zl Ep). }
  unfold recv_fixed_index. rewrite E1, E2. cbn [mbind res_bind].
  rewrite vsize_app, Zw, Zp. unfold buf_size.
  replace (1 <? n) with true by lia. replace (OtRecv.Size r <=? 128) with true by lia.
  replace (L <=? OtRecv.Size r) with true by lia. replace (0 <? L) with true by lia.
  replace (L * 16 * 2 + (if mal then 64 else 0) =? L * 16 * 2 + (if mal then 32 * 2 else 0)) with true by (destruct mal; lia).
  cbn [OtStore.enforce mbind res_bind]. rewrite Ec. cbn [mbind res_bind].
  rewrite (punctured_run choice L Wc) by lia. cbn [mbind res_bind].
  replace (L - 1 + 1) with L by lia. fold index. rewrite (Z.mod_small index (2 ^ 64)), (Z.mod_small index (2 ^ 32)) by lia.
  destruct (Z.ltb_spec index n) as [Hlt | Hge]; [|done]. cbn [OtStore.enforce mbind res_bind].
  set (buf := words_bytes (pairs_words msgs) ++ if mal then Pack proof else []).
  assert (Hword : forall t, 0 <= t < L -> word_at buf (2 * t + (1 - Z.b2z (Z.testbit index t))) =
    Some (Z.lxor (side_sum prf seed (negb (Z.testbit index t)) (Z.to_nat t)) (x t))).
  { intros t Ht. unfold buf. rewrite word_at_prefix by (rewrite Zw; destruct (Z.testbit index t); cbn [Z.b2z]; lia).
    apply sent_pairs_read; [done|done| |done]. intros u Hu. rewrite <- Hbits by done. unfold index.
    rewrite testbit_mod by lia. by replace (u <? L) with true by lia. }
  destruct (recv_levels prf seed hr r n L index choice buf x HL ltac:(lia) Wc ltac:(lia) eq_refl (tr_block _ _ _ _ _ _ _ _ Htr)
    Hword out_r Hr) as (known_leaves & _ & -> & Zk & Bk0 & Bk).
  cbn [mbind res_bind].
  destruct (finish_known prf rp seed n index mal Hn ltac:(lia) known_leaves ltac:(lia) Bk0 Bk) as (Zf & Bf & Ef).
  exists (finish rp n index mal known_leaves). split; [|by rewrite Zf].
  destruct (check_accepts blake3 Hblake n index leaves known_leaves ltac:(lia) ltac:(lia) ltac:(lia)) as (proof' & Ep' & _ & _ & Ev).
  { intros j Hj Hne. by rewrite Bk, Bl by done. }
  rewrite Ep in Ep'. injection Ep' as <-. subst buf. clear Hword Bf. revert Zp Ef. unfold finish. destruct mal; intros Zp Ef; [|done].
  assert (Eb : take 64 (drop (Z.to_nat (L * 16 * 2 + 32 * 2 - 64)) (words_bytes (pairs_words msgs) ++ Pack proof)) = Pack proof).
  { unfold vsize in Zw, Zp. rewrite (drop_app_length' (words_bytes (pairs_words msgs))) by lia. apply take_ge. lia. }
  rewrite Eb, (proj2 (gen_check_packed leaves proof Zl Ep)). cbn [mbind res_bind]. rewrite Ev. cbn [OtStore.enforce mbind res_bind].
  by rewrite Ef.
Qed.
(** Both parties, the receiver with the buffer of the sender. *)
Lemma fixed_pair choice out_s send_buf :
  OtRecv.CopyBitBuf hr r = Val choice -> wf 128 choice -> m_bits_number choice = OtRecv.Size r ->
  (forall t, 0 <= t < L -> Z.testbit (value 128 choice) t = c t) ->
  n <= vsize out_s -> vsize send_buf = buf_size ->
  exists leaves buf, send_fixed_index prf rp blake3 hs s n seed out_s send_buf mal = Val (leaves, buf) /\
    vsize buf = vsize send_buf /\ vsize leaves = vsize out_s /\ (forall j, 0 <= j < n -> blk leaves j = leaf prf rp seed n mal j) /\
    forall out_r, n <= vsize out_r ->
    let index := value 128 choice mod 2 ^ L in
    let ret := recv_fixed_index prf rp blake3 hr r n out_r buf mal in
    if index <? n
    then exists out, ret = Val out /\ vsize out = vsize out_r /\
      forall j, 0 <= j < n -> blk out j = if j =? index then 0 else leaf prf rp seed n mal j
    else ret = Err.
Proof using All.
  intros Ec Wc Nc Hbits Hs Hbuf.
  destruct (send_fixed_run out_s send_buf Hs Hbuf) as (leaves & msgs & proof & tail & E1 & -> & Ep & Zl & Bl & Zm & Em).
  eexists _, _. split; [exact E1|].
  split; [|split; [|split; [|intros out_r Hr; exact (recv_fixed_run choice out_r msgs leaves proof Ec Wc Nc Hbits Hr Zm Em ltac:(lia) Bl Ep)]]].
  - rewrite vsize_app, vsize_words. unfold pairs_words. rewrite vsize_pairs, Hbuf. unfold buf_size.
    destruct mal; [|change (vsize (@nil Z)) with 0; lia]. rewrite (proj1 (gen_check_packed leaves proof ltac:(lia) Ep)). lia.
  - destruct mal; [|done]. by rewrite (proj1 (blk_refresh rp n leaves 0 ltac:(lia) ltac:(lia))).
  - intros j Hj. unfold leaf. destruct mal; [|by apply Bl]. by rewrite (proj2 (blk_refresh rp n leaves j ltac:(lia) Hj)), Bl.
Qed.
End Fixed.

(** Punctured expansion at the index of the choices. With correlated transfers,
    the sender fills its buffer, of the size [SgrrOtExtHelper] says, whatever it
    held before. From this buffer the receiver, whose index is made of its
    choices, gets the sender's leaves except the one at its index, which is 0; when
    the index is not below [n] the receiver fails and nothing else happens. *)
Lemma sgrr_fixed_index prf rp blake3 h s r n seed out_s out_r send_buf mal :
  (forall d, length (blake3 d) = 32%nat) -> (forall d z, 0 <= prf d z < 2 ^ 128) -> 0 <= seed < 2 ^ 128 ->
  1 < n <= 2 ^ 31 -> n <= vsize out_s -> n <= vsize out_r ->
  recv_wf h r -> correlated h s r -> blocks_sent h s -> depth n <= OtRecv.Size r <= 128 ->
  SgrrOtExtHelper n mal = Val (vsize send_buf) ->
  exists choice leaves buf,
    OtRecv.CopyBitBuf h r = Val choice /\
    send_fixed_index prf rp blake3 h s n seed out_s send_buf mal = Val (leaves, buf) /\
    vsize buf = vsize send_buf /\ vsize leaves = vsize out_s /\
    (forall j, 0 <= j < n -> blk leaves j = leaf prf rp seed n mal j) /\
    let index := value 128 choice mod 2 ^ depth n in
    let ret := recv_fixed_index prf rp blake3 h r n out_r buf mal in
    if index <? n
    then exists out, ret = Val out /\ vsize out = vsize out_r /\
      forall j, 0 <= j < n -> blk out j = if j =? index then 0 else blk leaves j
    else ret = Err.
Proof.
  intros Hbl Hprf Hseed Hn Hs Hr (l & b & Hv) Hcor Hbs Hsz Hbuf.
  destruct (correlated_transfers h s r (depth n) Hcor Hbs Hsz) as (c & x & y & Htr).
  destruct (helper_size n mal Hn) as [_ Ez]. rewrite Ez in Hbuf. injection Hbuf as Hbuf.
  destruct (recv_CopyBitBuf h r l b Hv) as (choice & Ec & Wc & Nc & Bc).
  assert (Hbits : forall t, 0 <= t < depth n -> Z.testbit (value 128 choice) t = c t).
  { intros t Ht. pose proof (tr_choice _ _ _ _ _ _ _ _ Htr t Ht) as E.
    rewrite (recv_GetChoice h r l b Hv) in E by lia. replace (t <? OtRecv.Size r) with true in E by lia.
    injection E as E. rewrite Bc by lia. replace (t <? OtRecv.Size r) with true by lia. apply Z.b2z_inj in E. done. }
  destruct (fixed_pair prf rp blake3 seed h h s r n mal c x y Hbl Hprf Hseed Hn Htr choice out_s send_buf Ec Wc Nc Hbits Hs ltac:(done))
    as (leaves & buf & E1 & Zb & Zl & Bl & Hrecv). specialize (Hrecv out_r Hr).
  exists choice, leaves, buf. split; [exact Ec|]. split; [exact E1|]. split; [exact Zb|]. split; [exact Zl|]. split; [exact Bl|].
  cbn zeta in Hrecv |- *. destruct (_ <? n); [|exact Hrecv]. destruct Hrecv as (out & E & Z & B).
  exists out. split; [exact E|]. split; [done|]. intros j Hj. by rewrite B, Bl.
Qed.

Lemma demo_ots_wf : let '(h, s, r) := demo_ots in recv_wf h r.
Proof.
  assert (Hs : slice_ok (recv_slice demo_ots.2) 2) by (vm_compute recv_slice; apply (whole_ok 2); lia).
  assert (Hb : blk_at demo_ots.1.1 (recv_blk_buf demo_ots.2) [5; 26]) by (eexists; vm_compute; done).
  assert (Hc : bit_at demo_ots.1.1 (recv_bit_buf demo_ots.2) (mk_bitset [2] 2)) by (eexists; vm_compute; done).
  destruct demo_ots as [[h s] r]. exists [5; 26], (mk_bitset [2] 2). split; [done|done|]. intros _. split; [done|].
  split; [|done]. split; [done|done|repeat constructor; lia|]. intros p Hp. cbn in Hp. unfold bit. cbn [m_blocks].
  destruct (Z.lt_ge_cases p 128).
  - rewrite Z.div_small, Z.mod_small by lia. apply (testbit_high 2); [done|lia].
  - rewrite blk_outside; [apply Z.bits_0|]. right. change (vsize [2]) with 1. dlia.
Qed.

Lemma demo_ots_choice : let '(h, s, r) := demo_ots in OtRecv.CopyBitBuf h r = Val (mk_bitset [2] 2).
Proof. vm_compute. reflexivity. Qed.

Lemma sgrr_fixed_index_witness :
  let '(h, s, r) := demo_ots in
  exists leaves buf out,
    send_fixed_index demo_prf Z.succ demo_hash h s 3 9 [0; 0; 0] (replicate 128 0) true = Val (leaves, buf) /\
    recv_fixed_index demo_prf Z.succ demo_hash h r 3 [0; 0; 0] buf true = Val out /\ blk out 2 = 0.
Proof.
  pose proof demo_ots_ok as H. pose proof demo_ots_wf as W. pose proof demo_ots_choice as C. destruct demo_ots as [[h s] r]. destruct H as (Hc & Hb & Hr & _).
  destruct (sgrr_fixed_index demo_prf Z.succ demo_hash h s r 3 9 [0; 0; 0] [0; 0; 0] (replicate 128 0) true)
    as (choice & leaves & buf & E1 & E2 & _ & _ & _ & E3).
  - intros d. unfold demo_hash. rewrite length_take, length_app, length_replicate. lia.
  - intros d z. apply Z.mod_pos_bound. lia.
  - lia.
  - lia.
  - done.
  - done.
  - exact W.
  - exact Hc.
  - exact Hb.
  - rewrite Hr. vm_compute. split; discriminate.
  - vm_compute. reflexivity.
  - rewrite C in E1. injection E1 as <-. cbn zeta in E3.
    destruct E3 as (out & E & _ & B). exists leaves, buf, out. split; [exact E2|]. split; [exact E|]. apply (B 2). lia.
Defined.
