(* ===== verification/Prg.v ===== *)
(** Pseudo-random generators (src/yacl/crypto/tools/prg.h, prg.cc) and random oracles
    (ro.h), over the symmetric ciphers of src/yacl/crypto/block_cipher.

    The cipher contexts of OpenSSL are the class [CipherContexts]; a call that reports an
    error is [None]. Memory is a list of bytes, a value of [k] bytes is the number they
    stand for, least significant first. [stack] is what a word that is not initialised
    holds, [hash] the three hash functions of crypto/hash. *)

From Stdlib Require Import ZArith Lia ZifyBool Bool.
From stdpp Require Import base numbers list option.
From S2P Require Import Prelude BitBlock BitSet ChannelKeys OtStore LinkProgram TwoParty Sgrr.

Local Open Scope Z_scope.

Inductive CryptoType := AES128_ECB | AES128_CBC | AES128_CTR | SM4_ECB | SM4_CBC | SM4_CTR.

#[export] Instance CryptoType_eq_dec : EqDecision CryptoType.
Proof. solve_decision. Defined.

Definition BlockSize : Z := 16.

Definition is_ctr (t : CryptoType) : bool := bool_decide (t = AES128_CTR \/ t = SM4_CTR).
Definition is_ecb (t : CryptoType) : bool := bool_decide (t = AES128_ECB \/ t = SM4_ECB).

(** [EVP_CipherInit_ex2] with a key and an initial vector, to encrypt or to decrypt,
    [EVP_CIPHER_CTX_set_padding], [EVP_CipherUpdate] and [EVP_CipherFinal]. *)
Class CipherContexts := {
  cipher_ctx : Type;
  CipherInit : CryptoType -> Z -> Z -> bool -> option cipher_ctx;
  set_padding : cipher_ctx -> Z -> cipher_ctx;
  CipherUpdate : cipher_ctx -> bytes -> option (cipher_ctx * bytes);
  CipherFinal : cipher_ctx -> option (cipher_ctx * bytes)
}.

(** [YACL_ENFORCE(rc)]. *)
Definition succeeds {A} (o : option A) : res A := match o with Some a => Val a | None => Err end.

Section Generators.
Context `{CipherContexts} (stack : Z).

(** *** Symmetric ciphers *)

Record SymmetricCrypto := mk_crypto { type_ : CryptoType; key_ : Z; iv_ : Z; enc_ctx_ : cipher_ctx; dec_ctx_ : cipher_ctx }.

Definition SetupEVPCipherCtx (type : CryptoType) (key iv : Z) (enc : bool) : res cipher_ctx :=
  ctx ← succeeds (CipherInit type key iv enc); Val (set_padding ctx 0).

Definition new_SymmetricCrypto (type : CryptoType) (key iv : Z) : res SymmetricCrypto :=
  enc ← SetupEVPCipherCtx type key iv true;
  dec ← SetupEVPCipherCtx type key iv false;
  Val (mk_crypto type key iv enc dec).

(** The contexts start again. *)
Definition Reset (c : SymmetricCrypto) : res SymmetricCrypto :=
  enc ← SetupEVPCipherCtx (type_ c) (key_ c) (iv_ c) true;
  dec ← SetupEVPCipherCtx (type_ c) (key_ c) (iv_ c) false;
  Val (mk_crypto (type_ c) (key_ c) (iv_ c) enc dec).

Definition limit : Z := 2 ^ 31 - BlockSize.

(** The part of a span from [pos]. *)
Definition subspan (b : bytes) (pos len : Z) : bytes := take (Z.to_nat len) (drop (Z.to_nat pos) b).

(** The loop over steps of at most [limit] bytes. [src] is [None] when the input is the
    memory of the output. *)
Fixpoint update_steps (fuel : nat) (ctx : cipher_ctx) (src : option bytes) (out : bytes) (in_offset out_length : Z)
  : res (cipher_ctx * bytes * Z) :=
  if in_offset <? vsize out then
    match fuel with
    | O => Bad
    | S fuel' =>
        let step_length := Z.min (vsize out - in_offset) limit in
        '(ctx', written) ← succeeds (CipherUpdate ctx (subspan (default out src) in_offset step_length));
        out' ← access (put_bytes out out_length written);
        update_steps fuel' ctx' src out' (in_offset + step_length) (out_length + vsize written)
    end
  else Val (ctx, out, out_length).

Definition update_fuel (n : Z) : nat := Z.to_nat (n / limit + 1).

(** The common body of [Encrypt] and [Decrypt]. *)
Definition crypt (type : CryptoType) (ctx : cipher_ctx) (src : option bytes) (dst : bytes) : res (cipher_ctx * bytes) :=
  _ ← OtStore.enforce (is_ctr type || (vsize (default dst src) mod BlockSize =? 0));
  _ ← OtStore.enforce (vsize (default dst src) =? vsize dst);
  '(ctx, out, out_length) ← update_steps (update_fuel (vsize dst)) (set_padding ctx (vsize dst mod BlockSize)) src dst 0 0;
  if vsize dst mod BlockSize =? 0 then Val (ctx, out)
  else
    '(ctx, written) ← succeeds (CipherFinal ctx);
    out ← access (put_bytes out out_length written);
    Val (ctx, out).

Definition Encrypt (c : SymmetricCrypto) (src : option bytes) (dst : bytes) : res (SymmetricCrypto * bytes) :=
  '(ctx, out) ← crypt (type_ c) (enc_ctx_ c) src dst;
  Val (mk_crypto (type_ c) (key_ c) (iv_ c) ctx (dec_ctx_ c), out).

Definition Decrypt (c : SymmetricCrypto) (src : option bytes) (dst : bytes) : res (SymmetricCrypto * bytes) :=
  '(ctx, out) ← crypt (type_ c) (dec_ctx_ c) src dst;
  Val (mk_crypto (type_ c) (key_ c) (iv_ c) (enc_ctx_ c) ctx, out).

Definition Encrypt_word (c : SymmetricCrypto) (input : Z) : res (SymmetricCrypto * Z) :=
  '(c, out) ← Encrypt c (Some (le_bytes 16 input)) (le_bytes 16 stack); Val (c, le_value out).

Definition Decrypt_word (c : SymmetricCrypto) (input : Z) : res (SymmetricCrypto * Z) :=
  '(c, out) ← Decrypt c (Some (le_bytes 16 input)) (le_bytes 16 stack); Val (c, le_value out).

(** [std::iota] over [n] words. *)
Definition EcbMakeContentBlocks (count n : Z) : list Z := (fun i => u128 (count + i)) <$> seqZ 0 n.

(** [(n + block_size - 1) / block_size]. *)
Definition nblocks (n : Z) : Z := u64 (u64 (n + BlockSize) - 1) / BlockSize.

Definition DummyUpdateRandomCount (count buffer_size : Z) : Z := u64 (count + nblocks buffer_size).

(** *** [FillPRand] *)

(** Without padding, and the cipher modes in which the padding does not matter: the
    blocks of the counters, encrypted in place. *)
Definition encrypt_counters (c : SymmetricCrypto) (count n : Z) : res (SymmetricCrypto * bytes) :=
  Encrypt c None (words_bytes (EcbMakeContentBlocks count n)).

Definition FillPRand (type : CryptoType) (seed iv count : Z) (buf : bytes) : res (bytes * Z) :=
  let nbytes := vsize buf in
  let nblock := nblocks nbytes in
  let padding_bytes := nbytes mod BlockSize in
  out ←
    (if is_ctr type then
       crypto ← new_SymmetricCrypto type seed count;
       '(_, out) ← Encrypt crypto None (replicate (Z.to_nat nbytes) 0);
       Val out
     else
       crypto ← new_SymmetricCrypto type seed iv;
       if padding_bytes =? 0 then '(_, out) ← encrypt_counters crypto count nblock; Val out
       else if is_ecb type then
         '(crypto, head) ← (if 1 <? nblock then encrypt_counters crypto count (nblock - 1) else Val (crypto, []));
         buf ← access (put_bytes buf 0 head);
         '(_, padding) ← Encrypt_word crypto (u64 (u64 (count + nblock) - 1));
         access (put_bytes buf (16 * (nblock - 1)) (take (Z.to_nat padding_bytes) (le_bytes 16 padding)))
       else
         '(_, cipher) ← encrypt_counters crypto count nblock; Val (take (Z.to_nat nbytes) cipher));
  Val (out, u64 (count + nblock)).

(** [PrgAesCtr<T>(seed, num)] for [T] of [k] bytes. *)
Definition PrgAesCtr (k : nat) (seed num : Z) : res (list Z) :=
  '(out, _) ← FillPRand AES128_CTR seed 0 0 (array_bytes k (replicate (Z.to_nat num) 0));
  access (read_array k num out).

Definition PrgAesCbc (k : nat) (seed num : Z) : res (list Z) :=
  '(out, _) ← FillPRand AES128_CBC seed 0 0 (array_bytes k (replicate (Z.to_nat num) 0));
  access (read_array k num out).

(** *** Mersenne primes *)

Inductive MersenneType := U128 | U64 | U32 | U8.

Definition sizeof (t : MersenneType) : nat := match t with U128 => 16 | U64 => 8 | U32 => 4 | U8 => 1 end.

(** The types whose elements are masked only. *)
Definition wide (t : MersenneType) : bool := match t with U128 | U64 => true | U32 | U8 => false end.

Definition GetMersennePrimeMask (t : MersenneType) : Z :=
  match t with
  | U128 => Z.lor (Z.shiftl (Z.shiftr (2 ^ 64 - 1) 1) 64) (2 ^ 64 - 1)
  | U64 => Z.shiftr (2 ^ 64 - 1) 3
  | U32 => Z.shiftr (2 ^ 32 - 1) 1
  | U8 => Z.shiftr (2 ^ 8 - 1) 1
  end.

Definition GetMersennePrimeBitWidth (t : MersenneType) : Z := match t with U128 => 127 | U64 => 61 | U32 => 31 | U8 => 7 end.

(** [(YACL_MODULE_SECPARAM_S_UINT("prg") + 7) / 8], for 40 bits. *)
Definition kStatBytes : nat := 5.

(** The [do ... while] loop. *)
Fixpoint mersenne_rounds (fuel : nat) (t : MersenneType) (all_rand : Z) : res Z :=
  match fuel with
  | O => Bad
  | S fuel' =>
      let k_mask := GetMersennePrimeMask t in
      let i := u128 (Z.land all_rand k_mask + Z.shiftr all_rand (GetMersennePrimeBitWidth t)) in
      let all_rand := if k_mask <=? i then i - k_mask else i in
      if k_mask <=? all_rand then mersenne_rounds fuel' t all_rand else Val all_rand
  end.

Definition mersenne_fuel : nat := 16.

Definition MersennePrimeMod (t : MersenneType) (buf : bytes) : res Z :=
  _ ← OtStore.enforce (vsize buf =? Z.of_nat (sizeof t + kStatBytes));
  match t with
  | U128 | U64 =>
      let k_mask := GetMersennePrimeMask t in
      let rand := le_value (take (sizeof t) buf) in
      let aux_rand := le_value (take kStatBytes (drop (sizeof t) buf)) in
      let i := (Z.land rand k_mask + aux_rand) mod 256 ^ Z.of_nat (sizeof t) in
      Val (if k_mask <? i then i - k_mask else i)
  | U32 | U8 =>
      _ ← OtStore.enforce (vsize buf <=? 16);
      all_rand ← mersenne_rounds mersenne_fuel t (le_value buf);
      Val (all_rand mod 256 ^ Z.of_nat (sizeof t))
  end.

Definition mersenne_mask (t : MersenneType) (e : Z) : Z :=
  let k_mask := GetMersennePrimeMask t in if Z.land e k_mask =? k_mask then 0 else Z.land e k_mask.

(** The bytes an element of 4 or of 1 bytes is reduced from. *)
Definition required_size (t : MersenneType) : Z := Z.of_nat (sizeof t + kStatBytes).

Definition mersenne_parts (t : MersenneType) (rand_bytes : bytes) (n : Z) : res (list Z) :=
  mapM (fun i => MersennePrimeMod t (subspan rand_bytes (i * required_size t) (required_size t))) (seqZ 0 n).

Definition FillPRandWithMersennePrime (t : MersenneType) (crypto_type : CryptoType) (seed iv count : Z) (out : list Z)
  : res (list Z * Z) :=
  if wide t then
      '(b, ret) ← FillPRand crypto_type seed iv count (array_bytes (sizeof t) out);
      l ← access (read_array (sizeof t) (vsize out) b);
      Val (fmap (M := list) (mersenne_mask t) l, ret)
  else
      '(b, ret) ← FillPRand crypto_type seed iv count (replicate (Z.to_nat (vsize out * required_size t)) (stack mod 256));
      l ← mersenne_parts t b (vsize out);
      Val (l, ret).

(** *** Generators with a cache *)

Inductive PRG_MODE := kAesEcb | kSm4Ecb.

Definition mode_type (m : PRG_MODE) : CryptoType := match m with kAesEcb => AES128_ECB | kSm4Ecb => SM4_ECB end.

Definition kInitVector : Z := 0.

(** The fields of [Prg<T, BATCH_SIZE>]; [T] has [w] bytes, and the budget is memory. *)
Record Prg := mk_prg { seed_ : Z; counter_ : Z; cipher_budget_ : bytes; num_consumed_ : Z; mode_ : PRG_MODE }.

Section Batches.
Context (w : nat) (BATCH_SIZE : Z).

Definition SetSeed (g : Prg) (seed : Z) : Prg := mk_prg seed 0 (cipher_budget_ g) (num_consumed_ g) (mode_ g).

Definition SetStatus (g : Prg) (seed counter : Z) : Prg := mk_prg seed counter (cipher_budget_ g) (num_consumed_ g) (mode_ g).

Definition new_Prg (seed : Z) (mode : PRG_MODE) : Prg :=
  SetSeed (mk_prg 0 0 (replicate (Z.to_nat (BATCH_SIZE * Z.of_nat w)) 0) BATCH_SIZE mode) seed.

(** The counter is passed as 64 bits. *)
Definition GenerateBudgets (g : Prg) : res Prg :=
  '(budget, counter) ← FillPRand (mode_type (mode_ g)) (seed_ g) kInitVector (u64 (counter_ g)) (cipher_budget_ g);
  Val (mk_prg (seed_ g) counter budget (num_consumed_ g) (mode_ g)).

Definition next (g : Prg) : res (Prg * Z) :=
  g ← (if num_consumed_ g =? BATCH_SIZE
       then g ← GenerateBudgets g; Val (mk_prg (seed_ g) (counter_ g) (cipher_budget_ g) 0 (mode_ g)) else Val g);
  x ← access (elem_at w (cipher_budget_ g) (num_consumed_ g));
  Val (mk_prg (seed_ g) (counter_ g) (cipher_budget_ g) (num_consumed_ g + 1) (mode_ g), x).

(** [Fill] into memory. *)
Definition Fill (g : Prg) (out : bytes) : res (Prg * bytes) :=
  '(out, counter) ← FillPRand (mode_type (mode_ g)) (seed_ g) kInitVector (u64 (counter_ g)) out;
  Val (mk_prg (seed_ g) counter (cipher_budget_ g) (num_consumed_ g) (mode_ g), out).
End Batches.

(** [Prg<bool, BATCH_SIZE>]: the budget is a bitset of [BATCH_SIZE * 8] bits. *)
Record PrgBool := mk_prg_bool { bseed_ : Z; bcounter_ : Z; bbudget_ : dynamic_bitset; bconsumed_ : Z; bmode_ : PRG_MODE }.

Section Bits.
Context (BATCH_SIZE : Z).

Definition new_PrgBool (seed : Z) (mode : PRG_MODE) : res PrgBool :=
  budget ← access (Bitset.ctor_value 128 (BATCH_SIZE * 8) 0);
  Val (mk_prg_bool seed 0 budget BATCH_SIZE mode).

Definition GenerateBudgets_bool (g : PrgBool) : res PrgBool :=
  '(mem, counter) ← FillPRand (mode_type (bmode_ g)) (bseed_ g) kInitVector (u64 (bcounter_ g))
                      (subspan (words_bytes (m_blocks (bbudget_ g))) 0 BATCH_SIZE);
  all ← access (put_bytes (words_bytes (m_blocks (bbudget_ g))) 0 mem);
  blocks ← access (read_array 16 (vsize (m_blocks (bbudget_ g))) all);
  Val (mk_prg_bool (bseed_ g) counter (mk_bitset blocks (m_bits_number (bbudget_ g))) (bconsumed_ g) (bmode_ g)).

Definition next_bool (g : PrgBool) : res (PrgBool * bool) :=
  g ← (if bconsumed_ g =? Bitset.size (bbudget_ g)
       then g ← GenerateBudgets_bool g; Val (mk_prg_bool (bseed_ g) (bcounter_ g) (bbudget_ g) 0 (bmode_ g)) else Val g);
  x ← access (Bitset.test 128 (bbudget_ g) (bconsumed_ g));
  Val (mk_prg_bool (bseed_ g) (bcounter_ g) (bbudget_ g) (bconsumed_ g + 1) (bmode_ g), x).
End Bits.

(** *** Random oracles *)

Inductive HashAlgorithm := UNKNOWN | SHA224 | SHA256 | SHA384 | SHA512 | SM3 | BLAKE2B | BLAKE3 | SHAKE512.

Record RandomOracle := mk_oracle { outlen_ : Z; hash_alg_ : HashAlgorithm }.

Section Oracles.
Context (hash : HashAlgorithm -> bytes -> bytes).

Definition supported (a : HashAlgorithm) : bool := match a with SHA256 | SM3 | BLAKE3 => true | _ => false end.

Definition SanityCheck (o : RandomOracle) : res () :=
  _ ← OtStore.enforce (0 <? outlen_ o);
  OtStore.enforce (supported (hash_alg_ o) && (outlen_ o <=? 32)).

Definition new_RandomOracle (a : HashAlgorithm) (outlen : Z) : res RandomOracle :=
  _ ← SanityCheck (mk_oracle outlen a); Val (mk_oracle outlen a).

Definition SetOutlen (o : RandomOracle) (out_len : Z) : res RandomOracle :=
  let o := mk_oracle out_len (hash_alg_ o) in _ ← SanityCheck o; Val o.

(** [ro(x, outlen)]. *)
Definition ask (o : RandomOracle) (x : bytes) (outlen : Z) : res bytes :=
  _ ← OtStore.enforce (supported (hash_alg_ o));
  _ ← OtStore.enforce (outlen <=? 32);
  Val (take (Z.to_nat outlen) (hash (hash_alg_ o) x)).

Definition Gen (o : RandomOracle) (x : bytes) : res bytes := ask o x (outlen_ o).

(** [Gen<T>] for [T] of [k] bytes, and with an integer after the bytes. *)
Definition Gen_value (k : nat) (o : RandomOracle) (x : bytes) : res Z :=
  buf ← ask o x (Z.of_nat k); Val (le_value buf).

Definition Gen_indexed (k : nat) (o : RandomOracle) (x : bytes) (y : Z) : res Z := Gen_value k o (x ++ le_bytes 8 y).

Definition GetBlake3 : RandomOracle := mk_oracle 16 BLAKE3.
Definition GetSm3 : RandomOracle := mk_oracle 16 SM3.

Definition RO_Blake3_128 (x : bytes) : res Z := Gen_value 16 GetBlake3 x.
Definition RO_SM3_128 (x : bytes) : res Z := Gen_value 16 GetSm3 x.
End Oracles.
End Generators.
