(* ===== verification/LinearCode.v ===== *)
(** Linear codes (src/yacl/kernel/code/linear_code.h and ea_code.h): the local
    linear code, whose columns are drawn from a permutation with vector
    instructions, and the expand-accumulate code on top of it.

    The code adds an encoding to its output in place; the words are of 64 or 128
    bits, and the exclusive or of vector registers is that of numbers. [rp] is
    AES-128 in ECB mode, by key; [fresh] are the contents of arrays that are not
    initialised. [d] is the number of ones of a column, a template parameter. *)

From Stdlib Require Import ZArith Lia ZifyBool Bool.
From stdpp Require Import base numbers list option.
From S2P Require Import Prelude OtStore CrHash Sgrr.

Local Open Scope Z_scope.

(** *** Vector instructions on four 32-bit lanes *)

Definition of_lanes32 (f : Z -> Z) : Z := f 0 + 2 ^ 32 * f 1 + 2 ^ 64 * f 2 + 2 ^ 96 * f 3.

Definition int32 (x : Z) : Z := if x <? 2 ^ 31 then x else x - 2 ^ 32.

Definition mm_set_epi32 (e3 e2 e1 e0 : Z) : Z :=
  of_lanes32 (fun k => if k =? 0 then e0 else if k =? 1 then e1 else if k =? 2 then e2 else e3).

(** A signed comparison: all ones or zero. *)
Definition mm_cmpgt_epi32 (a b : Z) : Z :=
  of_lanes32 (fun k => if int32 (lane32 b k) <? int32 (lane32 a k) then 2 ^ 32 - 1 else 0).

Definition mm_sub_epi32 (a b : Z) : Z := of_lanes32 (fun k => u32 (lane32 a k - lane32 b k)).

Definition MakeUint128 (hi lo : Z) : Z := Z.lor (Z.shiftl hi 64) lo.

(** *** [LocalLinearCode] *)

Definition kLcBatchSize : Z := 1024.

Record LocalLinearCode := mk_llc {
  n_ : Z;
  k_ : Z;
  seed_ : Z;
  mask_ : Z;
  extend_mask_ : Z;
  extend_k_ : Z;
  extend_cmp_ : Z
}.

(** [while (mask_ < k) { mask_ <<= 1; mask_ = mask_ | 0x1; }]: [None] when the fuel
    runs out. *)
Fixpoint grow_mask (fuel : nat) (mask k : Z) : option Z :=
  match fuel with
  | O => None
  | S fuel' => if mask <? k then grow_mask fuel' (Z.lor (u32 (Z.shiftl mask 1)) 1) k else Some mask
  end.

(** A word in the four lanes. *)
Definition extend (x : Z) : Z :=
  let x64 := Z.lor (u64 (Z.shiftl x 32)) x in
  MakeUint128 x64 x64.

Definition new_LocalLinearCode (seed n k : Z) : option LocalLinearCode :=
  mask ← grow_mask 33 1 k;
  let k32 := u32 k in
  Some (mk_llc (u32 n) k32 seed mask (extend mask) (extend k32) (extend (u32 (k32 - 1)))).

Definition GetDimention (c : LocalLinearCode) : Z := k_ c.
Definition GetLength (c : LocalLinearCode) : Z := n_ c.

Section LocalLinearCode.
Context (rp : Z -> Z -> Z) (fresh : Z -> list Z) (d : Z) (c : LocalLinearCode).

(** The reduction of the four lanes of a block to indexes below [k_]. *)
Definition reduce_lanes (idx128 : Z) : Z :=
  let idx128 := Z.land idx128 (extend_mask_ c) in
  let sub := mm_cmpgt_epi32 idx128 (extend_cmp_ c) in
  let sub := Z.land sub (extend_k_ c) in
  mm_sub_epi32 idx128 sub.

Definition GenIndexes (i block_num : Z) (tmp : list Z) : option (list Z) :=
  tmp ← for_up (Z.to_nat block_num) 0 (fun j tmp => vset tmp j (mm_set_epi32 i 0 j 0)) tmp;
  assert! block_num <=? vsize tmp;
  let tmp := (rp (seed_ c) <$> take (Z.to_nat block_num) tmp) ++ drop (Z.to_nat block_num) tmp in
  for_up (Z.to_nat block_num) 0 (fun j tmp => x ← vget tmp j; vset tmp j (reduce_lanes x)) tmp.

(** [*ptr], for a pointer to 32-bit words over the array. *)
Definition read_index (tmp : list Z) (ptr : Z) : option Z :=
  x ← vget tmp (ptr / 4); Some (lane32 x (ptr mod 4)).

(** The loop over [k]: [ptr] is where it starts. *)
Definition add_column (inp tmp : list Z) (ptr val : Z) : option Z :=
  for_up (Z.to_nat d) 0 (fun k val => idx ← read_index tmp (ptr + k); x ← vget inp idx; Some (Z.lxor val x)) val.

Definition tmp_size : Z := u32 (DivCeil (u64 (kLcBatchSize * d)) 4).

(** [limit] and [block_num] of the batch at [i], for an output of [size] words. *)
Definition batch_limit (size i : Z) : Z := Z.min kLcBatchSize (u32 (u32 size - i)).
Definition batch_blocks (limit : Z) : Z := u32 (DivCeil (u64 (limit * d)) 4).

Definition encode_word (inp tmp : list Z) (i j : Z) (out : list Z) : option (list Z) :=
  val ← vget out (u32 (i + j));
  val' ← add_column inp tmp (j * d) val;
  vset out (u32 (i + j)) val'.

(** The loop over [i], for an output of [size] words; [None] also when the fuel runs out. *)
Fixpoint encode_batches (fuel : nat) (inp : list Z) (size i : Z) (tmp out : list Z) : option (list Z) :=
  match fuel with
  | O => None
  | S fuel' =>
      if i <? size
      then let limit := batch_limit size i in
           tmp' ← GenIndexes i (batch_blocks limit) tmp;
           out' ← for_up (Z.to_nat limit) 0 (encode_word inp tmp' i) out;
           encode_batches fuel' inp size (u32 (i + kLcBatchSize)) tmp' out'
      else Some out
  end.

Definition batch_fuel (size : Z) : nat := S (S (Z.to_nat (size / kLcBatchSize))).

(** [Encode] of 128-bit words, and the same loop on 64-bit words. *)
Definition Encode_128 (inp out : list Z) : res (list Z) :=
  OtStore.enforce (vsize inp =? k_ c);;
  access (encode_batches (batch_fuel (vsize out)) inp (vsize out) 0 (fresh tmp_size) out).

Definition Encode_64 (inp out : list Z) : res (list Z) :=
  OtStore.enforce (vsize inp =? k_ c);;
  access (encode_batches (batch_fuel (vsize out)) inp (vsize out) 0 (fresh tmp_size) out).

(** Two encodings with one pass over the indexes. *)
Definition add_column2 (in0 in1 tmp : list Z) (ptr : Z) (vals : Z * Z) : option (Z * Z) :=
  for_up (Z.to_nat d) 0 (fun k '(val0, val1) =>
    idx ← read_index tmp (ptr + k);
    x0 ← vget in0 idx;
    x1 ← vget in1 idx;
    Some (Z.lxor val0 x0, Z.lxor val1 x1)) vals.

Definition encode_word2 (in0 in1 tmp : list Z) (i j : Z) (outs : list Z * list Z) : option (list Z * list Z) :=
  let '(out0, out1) := outs in
  val0 ← vget out0 (u32 (i + j));
  val1 ← vget out1 (u32 (i + j));
  '(val0', val1') ← add_column2 in0 in1 tmp (j * d) (val0, val1);
  out0' ← vset out0 (u32 (i + j)) val0';
  out1' ← vset out1 (u32 (i + j)) val1';
  Some (out0', out1').

Fixpoint encode_batches2 (fuel : nat) (in0 in1 : list Z) (size i : Z) (tmp : list Z) (outs : list Z * list Z)
  : option (list Z * list Z) :=
  match fuel with
  | O => None
  | S fuel' =>
      if i <? size
      then let limit := batch_limit size i in
           tmp' ← GenIndexes i (batch_blocks limit) tmp;
           outs' ← for_up (Z.to_nat limit) 0 (encode_word2 in0 in1 tmp' i) outs;
           encode_batches2 fuel' in0 in1 size (u32 (i + kLcBatchSize)) tmp' outs'
      else Some outs
  end.

(** [Encode2] of 128-bit words, of 64-bit words, and of both. *)
Definition Encode2_128 (in0 out0 in1 out1 : list Z) : res (list Z * list Z) :=
  OtStore.enforce (vsize in0 =? k_ c);;
  OtStore.enforce (vsize in1 =? k_ c);;
  let size := Z.min (vsize out0) (vsize out1) in
  access (encode_batches2 (batch_fuel size) in0 in1 size 0 (fresh tmp_size) (out0, out1)).

Definition Encode2_64 (in0 out0 in1 out1 : list Z) : res (list Z * list Z) :=
  OtStore.enforce (vsize in0 =? k_ c);;
  OtStore.enforce (vsize in1 =? k_ c);;
  let size := Z.min (vsize out0) (vsize out1) in
  access (encode_batches2 (batch_fuel size) in0 in1 size 0 (fresh tmp_size) (out0, out1)).

Definition Encode2_64_128 (in0 out0 in1 out1 : list Z) : res (list Z * list Z) :=
  OtStore.enforce (vsize in0 =? k_ c);;
  OtStore.enforce (vsize in1 =? k_ c);;
  let size := Z.min (vsize out0) (vsize out1) in
  access (encode_batches2 (batch_fuel size) in0 in1 size 0 (fresh tmp_size) (out0, out1)).
End LocalLinearCode.

(** *** [ExAccCode] *)

Module ExAcc.
Record ExAccCode := mk_eacode { length_ : Z; dimension_ : Z }.

Definition new_ExAccCode (d n m : Z) : res ExAccCode :=
  OtStore.enforce (n <=? m);;
  OtStore.enforce (d <? n);;
  Val (mk_eacode n m).

(** [ExAccCode(n)]. *)
Definition new_ExAccCode_default (d n : Z) : res ExAccCode := new_ExAccCode d n (u32 (2 * n)).

Definition seed_ : Z := 0x12456789.

(** [std::partial_sum] with [std::bit_xor], in place. *)
Fixpoint partial_sum (acc : Z) (l : list Z) : list Z :=
  match l with
  | [] => []
  | x :: l' => let acc' := Z.lxor acc x in acc' :: partial_sum acc' l'
  end.

Definition Accumulate (inout : list Z) : list Z :=
  match inout with
  | [] => []
  | x :: l' => x :: partial_sum x l'
  end.

Section ExAccCode.
Context (rp : Z -> Z -> Z) (fresh : Z -> list Z) (d : Z) (c : ExAccCode).

Definition Expand (inp out : list Z) : res (list Z) :=
  code ← access (new_LocalLinearCode seed_ (length_ c) (dimension_ c));
  Encode_128 rp fresh d code inp out.

Definition Expand2 (in0 out0 in1 out1 : list Z) : res (list Z * list Z) :=
  code ← access (new_LocalLinearCode seed_ (length_ c) (dimension_ c));
  Encode2_128 rp fresh d code in0 out0 in1 out1.

(** The input is left accumulated. *)
Definition DualEncode (inp out : list Z) : res (list Z * list Z) :=
  OtStore.enforce (dimension_ c <=? vsize inp);;
  OtStore.enforce (length_ c <=? vsize out);;
  let inp := Accumulate inp in
  out' ← Expand inp out;
  Val (inp, out').

Definition DualEncode2 (in0 out0 in1 out1 : list Z) : res (list Z * list Z * (list Z * list Z)) :=
  OtStore.enforce (dimension_ c <=? vsize in0);;
  OtStore.enforce (dimension_ c <=? vsize in1);;
  OtStore.enforce (length_ c <=? vsize out0);;
  OtStore.enforce (length_ c <=? vsize out1);;
  let in0 := Accumulate in0 in
  let in1 := Accumulate in1 in
  '(out0', out1') ← Expand2 in0 out0 in1 out1;
  Val (in0, out0', (in1, out1')).
End ExAccCode.
End ExAcc.
