(* ===== verification/LinearCodeFacts.v ===== *)
(** The linear codes compute what their matrices say: the lanes of the vector
    instructions, the indexes of a column, the batches of the output. *)

From Stdlib Require Import ZArith Lia ZifyBool Bool.
From stdpp Require Import base numbers list option.
From S2P Require Import Prelude OtStore SparseXor CrHash Sgrr LinearCode.

Local Open Scope Z_scope.

(** *** Lanes *)

Lemma lane32_range a k : 0 <= lane32 a k < 2 ^ 32.
Proof. apply Z.mod_pos_bound. lia. Qed.

Lemma lane32_of_lanes f k : (forall j, 0 <= j < 4 -> 0 <= f j < 2 ^ 32) -> 0 <= k < 4 ->
  lane32 (of_lanes32 f) k = f k.
Proof.
  intros Hf Hk. unfold lane32, of_lanes32. rewrite Z.shiftr_div_pow2 by lia.
  pose proof (Hf 0). pose proof (Hf 1). pose proof (Hf 2). pose proof (Hf 3).
  change (2 ^ 96) with (2 ^ 32 * (2 ^ 32 * 2 ^ 32)). change (2 ^ 64) with (2 ^ 32 * 2 ^ 32).
  assert (k = 0 \/ k = 1 \/ k = 2 \/ k = 3) as [-> | [-> | [-> | ->]]] by lia.
  all: change (2 ^ (32 * 0)) with 1; change (2 ^ (32 * 1)) with (2 ^ 32);
       change (2 ^ (32 * 2)) with (2 ^ 32 * 2 ^ 32); change (2 ^ (32 * 3)) with (2 ^ 32 * (2 ^ 32 * 2 ^ 32)).
  all: Z.to_euclidean_division_equations; lia.
Qed.

Lemma lane32_land a b k : 0 <= k -> lane32 (Z.land a b) k = Z.land (lane32 a k) (lane32 b k).
Proof.
  intros Hk. unfold lane32. apply Z.bits_inj'. intros j Hj. rewrite Z.land_spec, !testbit_mod by lia.
  rewrite !Z.shiftr_spec, Z.land_spec by lia. by destruct (j <? 32), (Z.testbit a _), (Z.testbit b _).
Qed.


Lemma lor_shift hi lo w : 0 <= w -> 0 <= lo < 2 ^ w -> Z.lor (Z.shiftl hi w) lo = hi * 2 ^ w + lo.
Proof.
  intros Hw Hlo. rewrite <- (Z.shiftl_mul_pow2 hi w), (Z.add_nocarry_lxor (Z.shiftl hi w) lo), <- Z.lxor_lor; try done.
  all: apply Z.bits_inj'; intros j Hj; rewrite Z.land_spec, Z.bits_0, Z.shiftl_spec by lia.
  all: destruct (Z.ltb_spec j w); [by rewrite Z.testbit_neg_r by lia|].
  all: by rewrite (testbit_high w lo), andb_false_r by lia.
Qed.

Lemma lane32_extend x k : 0 <= x < 2 ^ 32 -> 0 <= k < 4 -> lane32 (extend x) k = x.
Proof.
  intros Hx Hk. unfold extend, MakeUint128, u64.
  assert (E : Z.lor (Z.shiftl x 32 mod 2 ^ 64) x = x * 2 ^ 32 + x).
  { rewrite Z.mod_small; [apply lor_shift; lia|rewrite Z.shiftl_mul_pow2; lia]. }
  cbv zeta. rewrite E, lor_shift by lia.
  transitivity (lane32 (of_lanes32 (fun _ => x)) k); [|by apply lane32_of_lanes].
  f_equal. unfold of_lanes32. lia.
Qed.

(** *** The mask *)

(** The bits of an index before its reduction: the fewest whose ones are at least [k]. *)
Definition index_bits (k : Z) : Z := Z.log2 k + 1.

Lemma index_bits_spec k : 1 <= k -> 1 <= index_bits k /\ 2 ^ (index_bits k - 1) <= k < 2 ^ index_bits k.
Proof.
  intros Hk. unfold index_bits. pose proof (Z.log2_spec k). pose proof (Z.log2_nonneg k).
  rewrite Z.add_simpl_r, Z.add_1_r. lia.
Qed.

Lemma index_bits_le k b : 1 <= k < 2 ^ b -> 1 <= b -> index_bits k <= b.
Proof. intros Hk Hb. unfold index_bits. pose proof (proj1 (Z.log2_lt_pow2 k b ltac:(lia))). lia. Qed.

Lemma grow_mask_run fuel b k : 1 <= k < 2 ^ 32 -> 1 <= b <= index_bits k -> index_bits k - b < Z.of_nat fuel ->
  grow_mask fuel (2 ^ b - 1) k = Some (2 ^ index_bits k - 1).
Proof.
  intros Hk. pose proof (index_bits_le k 32 Hk ltac:(lia)) as B3.
  revert b. induction fuel as [|fuel IH]; intros b Hb Hf; [lia|]. cbn [grow_mask].
  destruct (Z.ltb_spec (2 ^ b - 1) k) as [H|H].
  - assert (b < index_bits k). { unfold index_bits. pose proof (proj1 (Z.log2_le_pow2 k b ltac:(lia))). lia. }
    rewrite <- IH with (b := b + 1) by lia. f_equal.
    pose proof (Z.pow_le_mono_r 2 (b + 1) 32). rewrite Z.pow_add_r in * by lia.
    rewrite Z.shiftl_mul_pow2, Z.pow_1_r by lia. unfold u32. rewrite Z.mod_small by lia.
    change ((2 ^ b - 1) * 2) with ((2 ^ b - 1) * 2 ^ 1). rewrite <- Z.shiftl_mul_pow2, lor_shift by lia. lia.
  - pose proof (index_bits_le k b ltac:(lia) ltac:(lia)). by replace b with (index_bits k) by lia.
Qed.

(** *** Indexes *)

(** An index from a random word. *)
Definition reduce_word (k x : Z) : Z :=
  let y := x mod 2 ^ index_bits k in
  if y <? k then y else y - k.

Lemma reduce_word_range k x : 1 <= k -> 0 <= reduce_word k x < k.
Proof.
  intros Hk. destruct (index_bits_spec k Hk) as (B0 & B1 & B2). unfold reduce_word.
  pose proof (Z.mod_pos_bound x (2 ^ index_bits k)).
  replace (2 ^ index_bits k) with (2 * 2 ^ (index_bits k - 1)) in * by (rewrite <- Z.pow_succ_r by lia; f_equal; lia).
  cbv zeta. zcase; lia.
Qed.

(** The code with [k] words of input. *)
Definition local_code (seed n k : Z) : LocalLinearCode :=
  mk_llc (u32 n) k seed (2 ^ index_bits k - 1) (extend (2 ^ index_bits k - 1)) (extend k) (extend (k - 1)).

Lemma u32_small x : 0 <= x < 2 ^ 32 -> u32 x = x.
Proof. apply Z.mod_small. Qed.

Lemma new_local_code seed n k : 1 <= k < 2 ^ 32 -> new_LocalLinearCode seed n k = Some (local_code seed n k).
Proof.
  intros Hk. unfold new_LocalLinearCode. destruct (index_bits_spec k) as (B0 & _); [lia|].
  pose proof (index_bits_le k 32 Hk ltac:(lia)).
  pose proof (grow_mask_run 33 1 k Hk ltac:(lia) ltac:(lia)) as E. change (2 ^ 1 - 1) with 1 in E. rewrite E. cbn [mbind option_bind]. by rewrite (u32_small k), (u32_small (k - 1)) by lia.
Qed.

Lemma reduce_lanes_lane seed n k x l : 1 <= k < 2 ^ 31 -> 0 <= l < 4 ->
  lane32 (reduce_lanes (local_code seed n k) x) l = reduce_word k (lane32 x l).
Proof.
  intros Hk Hl. destruct (index_bits_spec k) as (B0 & B1 & B2); [lia|].
  pose proof (index_bits_le k 31 ltac:(lia) ltac:(lia)). pose proof (Z.pow_le_mono_r 2 (index_bits k) 31 ltac:(lia) ltac:(lia)).
  unfold reduce_lanes, mm_sub_epi32. cbv zeta.
  rewrite lane32_of_lanes by (done || (intros; apply Z.mod_pos_bound; lia)).
  rewrite !lane32_land by lia. unfold mm_cmpgt_epi32.
  rewrite lane32_of_lanes by (done || (intros; zcase; lia)). rewrite lane32_land by lia.
  cbn [extend_mask_ extend_cmp_ extend_k_ local_code]. rewrite !lane32_extend by lia.
  change (2 ^ index_bits k - 1) with (Z.pred (2 ^ index_bits k)).
  rewrite <- Z.ones_equiv, Z.land_ones by lia. unfold reduce_word. cbv zeta.
  pose proof (Z.mod_pos_bound (lane32 x l) (2 ^ index_bits k) ltac:(lia)) as Hy.
  set (y := lane32 x l mod 2 ^ index_bits k) in *. clearbody y.
  assert (forall z, 0 <= z < 2 ^ 31 -> int32 z = z) as I by (intros z Hz; unfold int32; zcase; lia).
  rewrite !I by lia. unfold u32. destruct (Z.ltb_spec (k - 1) y), (Z.ltb_spec y k); try lia.
  - rewrite Z.land_comm. change (2 ^ 32 - 1) with (Z.ones 32). rewrite Z.land_ones, (Z.mod_small k), Z.mod_small by lia. done.
  - rewrite Z.land_0_l, Z.sub_0_r, Z.mod_small by lia. done.
Qed.

(** *** Columns *)

(** Two loops in one pass. *)
Lemma for_up_pair {A B} (f : Z -> A -> option A) (g : Z -> B -> option B) (fg : Z -> A * B -> option (A * B)) n i a b :
  (forall k x y, fg k (x, y) = x' ← f k x; y' ← g k y; Some (x', y')) ->
  for_up n i fg (a, b) = a' ← for_up n i f a; b' ← for_up n i g b; Some (a', b').
Proof.
  intros H. revert i a b. induction n as [|n IH]; intros i a b; [done|]. cbn [for_up]. rewrite H.
  destruct (f i a) as [a1|]; cbn; [|done]. destruct (g i b) as [b1|]; cbn; [by rewrite IH|].
  by destruct (for_up n (i + 1) f a1).
Qed.

Lemma div_ceil_4 x : 0 <= x -> x <= 4 * DivCeil x 4 /\ DivCeil x 4 = (x + 3) / 4.
Proof. intros Hx. unfold DivCeil. zcase; Z.to_euclidean_division_equations; lia. Qed.

Section Columns.
Context (rp : Z -> Z -> Z) (fresh : Z -> list Z) (d seed n k : Z).
Local Abbreviation code := (local_code seed n k).

(** The [m]-th one of column [r]: a lane of the permutation of the batch and of the
    block in the batch. *)
Definition local_index (r m : Z) : Z :=
  let p := r mod kLcBatchSize * d + m in
  reduce_word k (lane32 (rp seed (mm_set_epi32 (r - r mod kLcBatchSize) 0 (p / 4) 0)) (p mod 4)).

Definition local_column (r : Z) : list Z := local_index r <$> seqZ 0 d.

Hypothesis Hk : 1 <= k < 2 ^ 31.
Hypothesis Hd : 1 <= d < 2 ^ 20.

Lemma local_index_range r m : 0 <= local_index r m < k.
Proof using Hk. apply reduce_word_range. lia. Qed.

Definition generated (i blocks : Z) (tmp : list Z) : Prop :=
  forall j, 0 <= j < blocks -> blk tmp j = reduce_lanes code (rp seed (mm_set_epi32 i 0 j 0)).

Lemma gen_indexes_spec i blocks tmp : 0 <= blocks <= vsize tmp ->
  exists tmp', GenIndexes rp code i blocks tmp = Some tmp' /\ vsize tmp' = vsize tmp /\ generated i blocks tmp'.
Proof using Type.
  intros Hb. unfold GenIndexes.
  destruct (for_up_inv (fun q l => vsize l = vsize tmp /\ forall j, 0 <= j < q -> blk l j = mm_set_epi32 i 0 j 0)
    (fun j tmp => vset tmp j (mm_set_epi32 i 0 j 0)) (Z.to_nat blocks) 0 tmp) as (t1 & -> & S1 & G1).
  { split; [done|lia]. }
  { intros q l Hq (Sl & Gl). rewrite vset_Some by lia. eexists. split; [done|].
    rewrite vsize_insert. split; [done|]. intros j Hj. rewrite blk_insert by lia.
    destruct (Z.eq_dec j q) as [-> | ]; [by rewrite Z.eqb_refl|].
    replace (j =? q) with false by lia. apply Gl. lia. }
  cbn [mbind option_bind]. replace (blocks <=? vsize t1) with true by lia. rewrite Z.add_0_l, Z2Nat.id in G1 by lia.
  set (t2 := _ ++ _).
  assert (S2 : vsize t2 = vsize tmp).
  { unfold t2, vsize in *. rewrite length_app, length_fmap, length_take, length_drop. lia. }
  assert (G2 : forall j, 0 <= j < blocks -> blk t2 j = rp seed (mm_set_epi32 i 0 j 0)).
  { intros j Hj. rewrite <- G1 by done. unfold t2, vsize in *. rewrite !blk_lookup, lookup_app_l, list_lookup_fmap, lookup_take by
      (rewrite ?length_fmap, ?length_take; lia).
    destruct (decide (Z.to_nat j < Z.to_nat blocks)%nat); [|lia].
    destruct (lookup_lt_is_Some_2 t1 (Z.to_nat j)) as [x ->]; [lia|]. done. }
  clearbody t2.
  destruct (for_up_inv (fun q l => vsize l = vsize tmp /\
      (forall j, q <= j < blocks -> blk l j = rp seed (mm_set_epi32 i 0 j 0)) /\
      forall j, 0 <= j < q -> blk l j = reduce_lanes code (rp seed (mm_set_epi32 i 0 j 0)))
    (fun j tmp => x ← vget tmp j; vset tmp j (reduce_lanes code x)) (Z.to_nat blocks) 0 t2) as (t3 & -> & S3 & _ & G3).
  { split_and!; [done|done|lia]. }
  { intros q l Hq (Sl & Hl & Gl). rewrite vget_blk, Hl by lia. cbn [mbind option_bind]. rewrite vset_Some by lia.
    eexists. split; [done|]. rewrite vsize_insert. split_and!; [done| |].
    - intros j Hj. rewrite blk_insert by lia. replace (j =? q) with false by lia. apply Hl. lia.
    - intros j Hj. rewrite blk_insert by lia. destruct (Z.eqb_spec j q) as [-> | ]; [done|]. apply Gl. lia. }
  exists t3. split_and!; [done|done|]. intros j Hj. apply G3. lia.
Qed.

Lemma read_index_run i blocks tmp p : generated i blocks tmp -> 0 <= p < 4 * blocks -> blocks <= vsize tmp ->
  read_index tmp p = Some (reduce_word k (lane32 (rp seed (mm_set_epi32 i 0 (p / 4) 0)) (p mod 4))).
Proof using Hk.
  intros HG Hp Hb. assert (0 <= p / 4 < blocks) by (split; [apply Z.div_pos|apply Z.div_lt_upper_bound]; lia).
  unfold read_index. rewrite vget_blk, HG by lia. cbn [mbind option_bind].
  by rewrite reduce_lanes_lane by (try apply Z.mod_pos_bound; lia).
Qed.

Lemma add_column_run inp tmp i j blocks val :
  generated i blocks tmp -> blocks <= vsize tmp -> 0 <= i -> i mod kLcBatchSize = 0 -> 0 <= j < kLcBatchSize ->
  (j + 1) * d <= 4 * blocks -> vsize inp = k ->
  add_column d inp tmp (j * d) val = Some (Z.lxor val (xor_over inp (local_column (i + j)))).
Proof using Hk Hd.
  intros HG Hb Hi Him Hj Hjd Hin. unfold add_column, local_column.
  assert (Hr : (i + j) mod kLcBatchSize = j).
  { unfold kLcBatchSize in *. rewrite <- Zplus_mod_idemp_l, Him. apply Z.mod_small. lia. }
  destruct (for_up_inv (fun m v => v = Z.lxor val (xor_over inp (local_index (i + j) <$> seqZ 0 m)))
    (fun m v => idx ← read_index tmp (j * d + m); x ← vget inp idx; Some (Z.lxor v x)) (Z.to_nat d) 0 val)
    as (v & -> & ->).
  - cbn. by rewrite Z.lxor_0_r.
  - intros m v Hm ->. assert (0 <= j * d) by (apply Z.mul_nonneg_nonneg; lia). rewrite (read_index_run i blocks) by (done || lia).
    assert (E : reduce_word k (lane32 (rp seed (mm_set_epi32 i 0 ((j * d + m) / 4) 0)) ((j * d + m) mod 4)) = local_index (i + j) m).
    { unfold local_index. rewrite Hr. by replace (i + j - j) with i by lia. }
    rewrite E. cbn [mbind option_bind]. rewrite vget_blk by (pose proof (local_index_range (i + j) m); lia).
    cbn [mbind option_bind]. eexists. split; [done|].
    rewrite (seqZ_app 0 m 1), fmap_app, xor_over_app, Z.lxor_assoc by lia.
    rewrite Z.add_0_l. change (seqZ m 1) with [m]. cbn. by rewrite Z.lxor_0_r.
  - by rewrite Z.add_0_l, Z2Nat.id by lia.
Qed.

Lemma encode_words_run inp out tmp i limit blocks cur :
  generated i blocks tmp -> blocks <= vsize tmp -> 0 <= i -> i mod kLcBatchSize = 0 -> 0 <= limit <= kLcBatchSize ->
  limit * d <= 4 * blocks -> vsize inp = k -> i + limit <= vsize out -> i + limit < 2 ^ 32 -> encoded local_column inp out i cur ->
  exists cur', for_up (Z.to_nat limit) 0 (encode_word d inp tmp i) cur = Some cur' /\ encoded local_column inp out (i + limit) cur'.
Proof using Hk Hd.
  intros HG Hb Hi Him Hl Hld Hin Ho H32 HE.
  destruct (for_up_inv (fun j c => encoded local_column inp out (i + j) c) (encode_word d inp tmp i) (Z.to_nat limit) 0 cur)
    as (cur' & -> & HE'); [by rewrite Z.add_0_r| |exists cur'; by rewrite Z.add_0_l, Z2Nat.id in HE' by lia].
  intros j c Hj Hc. unfold encode_word. rewrite u32_small by lia. destruct (encoded_next _ _ _ _ _ Hc) as (G & W); [lia|].
  rewrite G. cbn [mbind option_bind].
  assert ((j + 1) * d <= limit * d) by (apply Z.mul_le_mono_nonneg_r; lia).
  rewrite (add_column_run inp tmp i j blocks) by (done || lia). cbn [mbind option_bind].
  rewrite Z.add_assoc. apply W.
Qed.

Lemma batch_blocks_spec limit : 0 <= limit <= kLcBatchSize ->
  limit * d <= 4 * batch_blocks d limit /\ 0 <= batch_blocks d limit <= tmp_size d.
Proof using Hd.
  intros Hl. unfold kLcBatchSize in *. assert (0 <= limit * d <= 1024 * d) by (split; [lia|apply Z.mul_le_mono_nonneg_r; lia]).
  unfold batch_blocks, tmp_size, u64, kLcBatchSize. rewrite !(Z.mod_small _ (2 ^ 64)) by lia.
  destruct (div_ceil_4 (limit * d)) as (D1 & D2); [lia|]. destruct (div_ceil_4 (1024 * d)) as (D3 & D4); [lia|].
  pose proof (Z.div_le_mono (limit * d + 3) (1024 * d + 3) 4 ltac:(lia) ltac:(lia)).
  pose proof (Z.div_pos (limit * d + 3) 4 ltac:(lia) ltac:(lia)).
  pose proof (Z.div_lt_upper_bound (1024 * d + 3) 4 (2 ^ 31) ltac:(lia) ltac:(lia)).
  rewrite !u32_small by (rewrite ?D2, ?D4; lia). lia.
Qed.

Lemma encode_batches_run fuel inp out size i tmp cur :
  vsize tmp = tmp_size d -> vsize inp = k -> 0 <= size <= vsize out -> size <= 2 ^ 32 - kLcBatchSize ->
  0 <= i -> i mod kLcBatchSize = 0 -> encoded local_column inp out (Z.min i size) cur ->
  (1 <= fuel)%nat -> size - i <= kLcBatchSize * (Z.of_nat fuel - 1) ->
  exists cur', encode_batches rp d code fuel inp size i tmp cur = Some cur' /\ encoded local_column inp out size cur'.
Proof using Hk Hd.
  intros Ht Hin Hs H32. revert i tmp cur Ht. induction fuel as [|fuel IH]; intros i tmp cur Ht Hi Him HE Hf1 Hf; [lia|].
  cbn [encode_batches]. destruct (Z.ltb_spec i size) as [Hlt|Hge].
  2: { exists cur. split; [done|]. by rewrite Z.min_r in HE by lia. }
  rewrite Z.min_l in HE by lia.
  assert (HL : batch_limit size i = Z.min kLcBatchSize (size - i)).
  { unfold batch_limit, kLcBatchSize in *. by rewrite (u32_small size), u32_small by lia. }
  rewrite HL. set (limit := Z.min kLcBatchSize (size - i)).
  assert (0 <= limit <= kLcBatchSize) as Hlim by (unfold limit, kLcBatchSize; lia).
  destruct (batch_blocks_spec limit Hlim) as (B1 & B2).
  destruct (gen_indexes_spec i (batch_blocks d limit) tmp) as (tmp' & -> & S' & G'); [lia|]. cbn [mbind option_bind].
  destruct (encode_words_run inp out tmp' i limit (batch_blocks d limit) cur) as (c' & -> & E');
    try done; try (unfold limit, kLcBatchSize in *; lia).
  cbn [mbind option_bind]. unfold kLcBatchSize in *. rewrite u32_small by lia.
  apply IH; try lia.
  - rewrite Zplus_mod, Him. done.
  - by replace (Z.min (i + 1024) size) with (i + limit) by (unfold limit; lia).
Qed.
End Columns.
