(* ===== verification/LinearCodeTheorems.v ===== *)
(** The local linear code and the expand-accumulate code: both apply a fixed sparse
    matrix, in one pass or two, and so are linear. *)

From Stdlib Require Import ZArith Lia ZifyBool Bool.
From stdpp Require Import base numbers list option sets.
From S2P Require Import Prelude OtStore SparseXor CrHash Sgrr LinearCode LinearCodeFacts.

Local Open Scope Z_scope.

Lemma fuel_enough size : 0 <= size ->
  (1 <= batch_fuel size)%nat /\ size - 0 <= kLcBatchSize * (Z.of_nat (batch_fuel size) - 1).
Proof. unfold batch_fuel, kLcBatchSize. intros H. Z.to_euclidean_division_equations. lia. Qed.

Section Local.
Context (rp : Z -> Z -> Z) (fresh : Z -> list Z) (d seed n k : Z).
Hypothesis Hfresh : forall m, 0 <= m -> vsize (fresh m) = m.
Hypothesis Hd : 1 <= d < 2 ^ 20.
Hypothesis Hk : 1 <= k < 2 ^ 31.
Local Abbreviation code := (local_code seed n k).
Local Abbreviation column := (local_column rp d seed k).

Lemma encode_batches_prefix inp out size : vsize inp = k -> 0 <= size <= vsize out -> size <= 2 ^ 32 - kLcBatchSize ->
  encode_batches rp d code (batch_fuel size) inp size 0 (fresh (tmp_size d)) out =
  Some (encode_prefix (local_column rp d seed k) size inp out).
Proof using Hfresh Hd Hk.
  intros Hin Hs H32. destruct (fuel_enough size) as (F1 & F2); [lia|].
  destruct (encode_batches_run rp d seed n k Hk Hd (batch_fuel size) inp out size 0 (fresh (tmp_size d)) out)
    as (cur & -> & HE); try done; try lia.
  - apply Hfresh. destruct (batch_blocks_spec d Hd 0); unfold kLcBatchSize; lia.
  - apply encoded_start. lia.
  - f_equal. by apply encoded_prefix.
Qed.

Lemma encode_128_run inp out : vsize inp = k -> vsize out <= 2 ^ 32 - kLcBatchSize ->
  Encode_128 rp fresh d code inp out = Val (encode_with column inp out).
Proof using Hfresh Hd Hk.
  intros Hin Ho. unfold Encode_128. cbn [k_ local_code]. rewrite Hin, Z.eqb_refl. cbn [OtStore.enforce].
  pose proof (vsize_nonneg out). rewrite encode_batches_prefix by (done || lia). by rewrite encode_all.
Qed.

#[export] Instance local_encoder : Encoder k (2 ^ 32 - kLcBatchSize) column (Encode_128 rp fresh d code).
Proof using Hfresh Hd Hk.
  split; [|apply encode_128_run].
  intros c j _ Hj. apply list_elem_of_fmap in Hj as (m & -> & _). by apply local_index_range.
Qed.

(** *** Two encodings in one pass *)

Lemma add_column2_pair in0 in1 tmp ptr v0 v1 :
  add_column2 d in0 in1 tmp ptr (v0, v1) =
  v0' ← add_column d in0 tmp ptr v0; v1' ← add_column d in1 tmp ptr v1; Some (v0', v1').
Proof using Type.
  apply for_up_pair. intros m x y. destruct (read_index tmp (ptr + m)) as [idx|]; [|done]. cbn.
  by destruct (vget in0 idx), (vget in1 idx).
Qed.

Lemma encode_word2_pair in0 in1 tmp i j x y :
  encode_word2 d in0 in1 tmp i j (x, y) =
  x' ← encode_word d in0 tmp i j x; y' ← encode_word d in1 tmp i j y; Some (x', y').
Proof using Type.
  unfold encode_word2, encode_word. destruct (vget x (u32 (i + j))) as [v0|]; [cbn|done].
  destruct (vget y (u32 (i + j))) as [v1|]; cbn.
  - rewrite add_column2_pair. destruct (add_column d in0 tmp (j * d) v0); cbn; [|done].
    destruct (add_column d in1 tmp (j * d) v1); cbn; [|by destruct (vset _ _ _)]. done.
  - by destruct (add_column d in0 tmp (j * d) v0) as [w|]; [cbn; destruct (vset x _ w)|].
Qed.

Lemma encode_batches2_pair fuel in0 in1 size i tmp x y :
  encode_batches2 rp d code fuel in0 in1 size i tmp (x, y) =
  x' ← encode_batches rp d code fuel in0 size i tmp x;
  y' ← encode_batches rp d code fuel in1 size i tmp y; Some (x', y').
Proof using Type.
  revert i tmp x y. induction fuel as [|fuel IH]; intros i tmp x y; [done|]. cbn [encode_batches encode_batches2].
  destruct (i <? size); [|done]. destruct (GenIndexes rp code i (batch_blocks d (batch_limit size i)) tmp) as [tmp'|]; [cbn|done].
  rewrite (for_up_pair _ _ _ _ _ _ _ (encode_word2_pair in0 in1 tmp' i)).
  destruct (for_up _ 0 (encode_word d in0 tmp' i) x) as [x1|]; cbn; [|done].
  destruct (for_up _ 0 (encode_word d in1 tmp' i) y) as [y1|]; cbn; [apply IH|].
  by destruct (encode_batches _ _ _ fuel in0 _ _ _ x1).
Qed.

Lemma encode2_128_run in0 out0 in1 out1 :
  let size := Z.min (vsize out0) (vsize out1) in
  vsize in0 = k -> vsize in1 = k -> size <= 2 ^ 32 - kLcBatchSize ->
  Encode2_128 rp fresh d code in0 out0 in1 out1 =
  Val (encode_prefix (local_column rp d seed k) size in0 out0, encode_prefix (local_column rp d seed k) size in1 out1).
Proof using Hfresh Hd Hk.
  intros size H0 H1 H32. unfold Encode2_128. cbn [k_ local_code]. rewrite H0, H1, Z.eqb_refl. cbn [OtStore.enforce mbind res_bind].
  fold size. pose proof (vsize_nonneg out0). pose proof (vsize_nonneg out1).
  rewrite encode_batches2_pair, !encode_batches_prefix by (done || unfold size; lia). done.
Qed.
End Local.



(** *** The expand-accumulate code *)

Lemma seqZ_zero m : 0 <= m -> seqZ 0 (m + 1) = 0 :: (Z.add 1 <$> seqZ 0 m).
Proof.
  intros Hm. rewrite Z.add_comm, (seqZ_app 0 1 m) by lia. cbn [app]. change (seqZ 0 1) with [0]. cbn [app]. f_equal.
  apply list_eq. intros i. rewrite list_lookup_fmap, Z.add_0_l.
  destruct (decide (Z.of_nat i < m)).
  - rewrite !lookup_seqZ_lt by lia. done.
  - by rewrite !lookup_seqZ_ge by lia.
Qed.

Lemma xor_over_shift x l js : (forall j, j ∈ js -> 0 <= j) -> xor_over (x :: l) (Z.add 1 <$> js) = xor_over l js.
Proof.
  unfold xor_over. induction js as [|j js IH]; intros H; [done|]. cbn. rewrite IH by (intros; apply H; set_solver). f_equal.
  assert (0 <= j) by (apply H; set_solver). rewrite !blk_lookup by lia.
  replace (Z.to_nat (1 + j)) with (S (Z.to_nat j)) by lia. done.
Qed.

Lemma partial_sum_blk acc l i : 0 <= i < vsize l ->
  blk (ExAcc.partial_sum acc l) i = Z.lxor acc (xor_over l (seqZ 0 (i + 1))).
Proof.
  revert acc i. induction l as [|x l IH]; intros acc i Hi; [unfold vsize in Hi; cbn in Hi; lia|].
  rewrite seqZ_zero by lia. change (xor_over (x :: l) (0 :: ?js)) with (Z.lxor x (xor_over (x :: l) js)).
  rewrite xor_over_shift by (intros j Hj%elem_of_seqZ; lia). cbn [ExAcc.partial_sum].
  destruct (Z.eq_dec i 0) as [-> | Hne].
  - cbn. by rewrite Z.lxor_0_r.
  - rewrite blk_lookup by lia. replace (Z.to_nat i) with (S (Z.to_nat (i - 1))) by lia. cbn [lookup list_lookup].
    rewrite <- blk_lookup by lia. change (vsize (x :: l)) with (Z.of_nat (S (length l))) in Hi.
    rewrite IH by (unfold vsize; lia). rewrite Z.sub_add. by rewrite Z.lxor_assoc.
Qed.

Lemma accumulate_sum l : ExAcc.Accumulate l = ExAcc.partial_sum 0 l.
Proof. destruct l as [|x l]; [done|]. cbn. by rewrite Z.lxor_0_l. Qed.

Lemma vsize_partial_sum acc l : vsize (ExAcc.partial_sum acc l) = vsize l.
Proof. unfold vsize. f_equal. revert acc. induction l as [|x l IH]; intros acc; [done|]. cbn. by rewrite IH. Qed.

Lemma vsize_accumulate l : vsize (ExAcc.Accumulate l) = vsize l.
Proof. rewrite accumulate_sum. apply vsize_partial_sum. Qed.

(** The columns of the product of the accumulator and the local code. *)
Definition dual_column (rp : Z -> Z -> Z) (d m r : Z) : list Z :=
  local_column rp d ExAcc.seed_ m r ≫= fun p => seqZ 0 (p + 1).

Lemma xor_over_accumulate l js : (forall j, j ∈ js -> 0 <= j < vsize l) ->
  xor_over (ExAcc.Accumulate l) js = xor_over l (js ≫= fun p => seqZ 0 (p + 1)).
Proof.
  induction js as [|j js IH]; intros H; [done|].
  change (xor_over (ExAcc.Accumulate l) (j :: js)) with (Z.lxor (blk (ExAcc.Accumulate l) j) (xor_over (ExAcc.Accumulate l) js)).
  rewrite IH by (intros j0 Hj0; apply H; by right). cbn [mbind list_bind]. rewrite xor_over_app. f_equal.
  rewrite accumulate_sum, partial_sum_blk by (apply H; left). apply Z.lxor_0_l.
Qed.

Section ExAccProofs.
Context (rp : Z -> Z -> Z) (fresh : Z -> list Z) (d n m : Z).
Hypothesis Hfresh : forall l, 0 <= l -> vsize (fresh l) = l.
Hypothesis Hd : 1 <= d < 2 ^ 20.
Hypothesis Hm : 1 <= m < 2 ^ 31.
Local Abbreviation code := (ExAcc.mk_eacode n m).

Lemma encode_accumulated inp out : vsize inp = m ->
  encode_with (local_column rp d ExAcc.seed_ m) (ExAcc.Accumulate inp) out = encode_with (dual_column rp d m) inp out.
Proof using Hm.
  intros Hi. apply encode_with_intro; [apply vsize_encode_with|]. intros c Hc. rewrite blk_encode_with by done. f_equal.
  unfold dual_column. apply xor_over_accumulate. intros j Hj. apply list_elem_of_fmap in Hj as (a & -> & _). rewrite Hi. by apply local_index_range.
Qed.

Lemma dual_encode_run inp out : vsize inp = m -> n <= vsize out <= 2 ^ 32 - 1024 ->
  ExAcc.DualEncode rp fresh d code inp out = Val (ExAcc.Accumulate inp, encode_with (dual_column rp d m) inp out).
Proof using Hfresh Hd Hm.
  intros Hi Ho. unfold ExAcc.DualEncode, ExAcc.Expand. cbn [ExAcc.dimension_ ExAcc.length_].
  replace (m <=? vsize inp) with true by lia. replace (n <=? vsize out) with true by lia. cbn [OtStore.enforce mbind res_bind].
  rewrite new_local_code by lia. cbn [access mbind res_bind].
  rewrite encode_128_run by (done || rewrite ?vsize_accumulate; done || unfold kLcBatchSize; lia).
  cbn [mbind res_bind]. by rewrite encode_accumulated.
Qed.

Lemma dual_encode2_run in0 out0 in1 out1 : vsize in0 = m -> vsize in1 = m ->
  n <= vsize out0 <= 2 ^ 32 - 1024 -> vsize out1 = vsize out0 ->
  ExAcc.DualEncode2 rp fresh d code in0 out0 in1 out1 =
  Val (ExAcc.Accumulate in0, encode_with (dual_column rp d m) in0 out0,
       (ExAcc.Accumulate in1, encode_with (dual_column rp d m) in1 out1)).
Proof using Hfresh Hd Hm.
  intros H0 H1 Ho E. unfold ExAcc.DualEncode2, ExAcc.Expand2. cbn [ExAcc.dimension_ ExAcc.length_].
  replace (m <=? vsize in0) with true by lia. replace (m <=? vsize in1) with true by lia.
  replace (n <=? vsize out0) with true by lia. replace (n <=? vsize out1) with true by lia. cbn [OtStore.enforce mbind res_bind].
  rewrite new_local_code by lia. cbn [access mbind res_bind].
  rewrite encode2_128_run by (done || rewrite ?vsize_accumulate; done || unfold kLcBatchSize; lia).
  cbn [mbind res_bind]. rewrite E, Z.min_id. rewrite <- E at 2. by rewrite !encode_all, !encode_accumulated.
Qed.
End ExAccProofs.

(** The expand-accumulate code applies the product of the accumulator matrix
    and the local code: [DualEncode] adds to every word of the output, for each of
    the [d] ones of its column, the words of the input up to that position, and
    leaves the prefix sums in the input; so the encoding of a sum of inputs is the
    sum of their encodings. [DualEncode2] does it on two pairs. An input longer
    than the dimension, which the guard lets through, is refused. *)
Lemma expand_accumulate_code (rp : Z -> Z -> Z) (fresh : Z -> list Z) (d n m : Z)
  (Hfresh : forall l, 0 <= l -> vsize (fresh l) = l) (Hd : 1 <= d < 2 ^ 20) (Hdn : d < n) (Hnm : n <= m < 2 ^ 31) :
  exists code, ExAcc.new_ExAccCode d n m = Val code /\
  (forall inp out, vsize inp = m -> n <= vsize out <= 2 ^ 32 - 1024 ->
     exists out', ExAcc.DualEncode rp fresh d code inp out = Val (ExAcc.Accumulate inp, out') /\
     out' = encode_with (dual_column rp d m) inp out) /\
  (forall in0 out0 in1 out1 acc0 acc1 out0' out1', vsize in0 = m -> vsize in1 = m ->
     n <= vsize out0 <= 2 ^ 32 - 1024 -> vsize out1 = vsize out0 ->
     ExAcc.DualEncode rp fresh d code in0 out0 = Val (acc0, out0') ->
     ExAcc.DualEncode rp fresh d code in1 out1 = Val (acc1, out1') ->
     ExAcc.DualEncode2 rp fresh d code in0 out0 in1 out1 = Val (acc0, out0', (acc1, out1')) /\
     exists acc, ExAcc.DualEncode rp fresh d code (xor_words in0 in1) (xor_words out0 out1) = Val (acc, xor_words out0' out1')) /\
  (forall inp out, m < vsize inp -> ExAcc.DualEncode rp fresh d code inp out = Err).
Proof.
  pose proof (dual_encode_run rp fresh d n m Hfresh Hd ltac:(lia)) as run.
  exists (ExAcc.mk_eacode n m). split_and!.
  - unfold ExAcc.new_ExAccCode. by replace (n <=? m) with true by lia; replace (d <? n) with true by lia.
  - intros inp out Hi Ho. eexists. split; [by apply run|done].
  - intros in0 out0 in1 out1 acc0 acc1 out0' out1' H0 H1 Ho E.
    rewrite !run by (rewrite ?vsize_xor_words by lia; lia). intros [= <- <-] [= <- <-]. split.
    + apply dual_encode2_run; done || lia.
    + eexists. rewrite encode_with_linear by lia. done.
  - intros inp out Hi. unfold ExAcc.DualEncode, ExAcc.Expand. cbn [ExAcc.dimension_ ExAcc.length_].
    replace (m <=? vsize inp) with true by lia. cbn [OtStore.enforce mbind res_bind].
    destruct (n <=? vsize out); [|done]. cbn [OtStore.enforce mbind res_bind]. rewrite new_local_code by lia.
    cbn [access mbind res_bind]. unfold Encode_128. cbn [k_ local_code]. rewrite vsize_accumulate.
    by replace (vsize inp =? m) with false by lia.
Qed.

(** Weight 1, length 2, dimension 3. *)
Lemma expand_accumulate_code_witness :
  exists code, ExAcc.new_ExAccCode 1 2 3 = Val code /\
  exists out', ExAcc.DualEncode (fun key x => key + x) (fun l => replicate (Z.to_nat l) 5) 1 code [1; 2; 4] [8; 16] =
    Val (ExAcc.Accumulate [1; 2; 4], out') /\
  out' = encode_with (dual_column (fun key x => key + x) 1 3) [1; 2; 4] [8; 16].
Proof.
  destruct (expand_accumulate_code (fun key x => key + x) (fun l => replicate (Z.to_nat l) 5) 1 2 3)
    as (code & E & H & _).
  - intros l Hl. rewrite vsize_replicate. lia.
  - lia.
  - lia.
  - lia.
  - exists code. split; [done|]. by apply H.
Defined.
