(* ===== verification/SilverCode.v ===== *)
(** The Silver code (src/yacl/kernel/code/silver_code.h, silver_code.cc): a code
    whose dual is encoded with a sparse circulant matrix [L] and the inverse of a
    sparse lower triangular matrix [R].

    [L] is drawn once from floating-point constants; a [double] that is not
    negative is an integer over a power of two, and its product with an integer is
    rounded to 53 bits, to nearest and ties to even. Pointers are indexes; words
    are numbers of 64 or 128 bits. *)

From Stdlib Require Import ZArith Lia ZifyBool Bool.
From stdpp Require Import base numbers list option.
From S2P Require Import Prelude OtStore.

Local Open Scope Z_scope.

Module Silver.

(** *** Constants *)

(** [mant / 2 ^ frac], with at most 53 bits. *)
Record double := mk_double { mant : Z; frac : Z }.

Definition Left_R5 : list double :=
  [mk_double 0 0; mk_double 6702635267821471 54; mk_double 5193262859907504 53; mk_double 5484636748599121 53;
   mk_double 7696426583194809 53].

Definition Left_R11 : list double :=
  [mk_double 0 0; mk_double 6429497354741004 61; mk_double 6368824860561068 56; mk_double 8575682352844861 55;
   mk_double 8666078604565441 55; mk_double 4947186176267980 54; mk_double 7037126619345533 54;
   mk_double 4787785771056829 53; mk_double 5743161381608697 53; mk_double 8514190203532744 53;
   mk_double 8699819572973701 53].

Definition diagMtx_g16_w5_seed1_t36 : list (list Z) :=
  [[0; 4; 11; 15]; [0; 8; 9; 10]; [1; 2; 10; 14]; [0; 5; 8; 15]; [3; 13; 14; 15]; [2; 4; 7; 8]; [0; 9; 12; 15];
   [1; 6; 8; 14]; [4; 5; 6; 14]; [1; 3; 8; 13]; [3; 4; 7; 8]; [3; 5; 9; 13]; [8; 11; 12; 14]; [6; 10; 12; 13];
   [2; 7; 8; 13]; [0; 6; 10; 15]].

Definition diagMtx_g32_w11_seed2_t36 : list (list Z) :=
  [[6; 7; 8; 12; 16; 17; 20; 22; 24; 25];
   [0; 1; 6; 10; 12; 13; 17; 19; 30; 31];
   [1; 4; 7; 10; 12; 16; 21; 22; 30; 31];
   [3; 5; 9; 13; 15; 21; 23; 25; 26; 27];
   [3; 8; 9; 14; 17; 19; 24; 25; 26; 28];
   [3; 11; 12; 13; 14; 16; 17; 21; 22; 30];
   [2; 4; 5; 11; 12; 17; 22; 24; 30; 31];
   [5; 8; 11; 12; 13; 17; 18; 20; 27; 29];
   [13; 16; 17; 18; 19; 20; 21; 22; 26; 30];
   [3; 8; 13; 15; 16; 17; 19; 20; 21; 27];
   [0; 2; 4; 5; 6; 21; 23; 26; 28; 30];
   [2; 4; 6; 8; 10; 11; 22; 26; 28; 30];
   [7; 9; 11; 14; 15; 16; 17; 18; 24; 30];
   [0; 3; 7; 12; 13; 18; 20; 24; 25; 28];
   [1; 5; 7; 8; 12; 13; 21; 24; 26; 27];
   [0; 16; 17; 19; 22; 24; 25; 27; 28; 31];
   [0; 6; 7; 15; 16; 18; 22; 24; 29; 30];
   [2; 3; 4; 7; 15; 17; 18; 20; 22; 26];
   [2; 3; 9; 16; 17; 19; 24; 27; 29; 31];
   [1; 3; 5; 7; 13; 14; 20; 23; 24; 27];
   [0; 2; 3; 9; 10; 14; 19; 20; 21; 25];
   [4; 13; 16; 20; 21; 23; 25; 27; 28; 31];
   [1; 2; 5; 6; 9; 13; 15; 17; 20; 24];
   [0; 4; 7; 8; 12; 13; 20; 23; 28; 30];
   [0; 3; 4; 5; 8; 9; 23; 25; 26; 28];
   [0; 3; 4; 7; 8; 10; 11; 15; 21; 26];
   [5; 6; 7; 8; 10; 11; 15; 21; 22; 25];
   [0; 1; 2; 3; 8; 9; 22; 24; 27; 28];
   [1; 2; 13; 14; 15; 16; 19; 22; 29; 30];
   [2; 14; 15; 16; 19; 20; 25; 26; 28; 29];
   [8; 9; 11; 12; 13; 15; 17; 18; 23; 27];
   [0; 2; 4; 5; 6; 7; 10; 12; 14; 19]].

(** [R_offset_]. *)
Definition R_offset_0 : Z := 5.
Definition R_offset_1 : Z := 31.

(** *** The left matrix *)

Record SilverCode := mk_silver {
  n_ : Z;
  m_ : Z;
  weight_ : Z;
  gap_ : Z;
  L_one_idx_ : list Z
}.

(** [x * r] as a [double], truncated. *)
Definition mul_trunc (x : Z) (r : double) : Z :=
  let p := x * mant r in
  let s := Z.log2 p - 52 in
  let rounded :=
    if s <=? 0 then p else
    let q := p / 2 ^ s in
    let rest := p mod 2 ^ s in
    let up := (2 ^ s <? 2 * rest) || ((2 * rest =? 2 ^ s) && Z.odd q) in
    (if up then q + 1 else q) * 2 ^ s in
  rounded / 2 ^ frac r.

(** [std::set::insert]: the elements in order, and whether [x] is new. *)
Fixpoint set_insert (x : Z) (l : list Z) : list Z * bool :=
  match l with
  | [] => ([x], true)
  | y :: l' => if x <? y then (x :: l, true)
               else if x =? y then (l, false)
               else let '(l'', b) := set_insert x l' in (y :: l'', b)
  end.

(** The loop that moves an index on until it is free; the counter is shared by all
    indexes, and [None] when the fuel runs out. *)
Fixpoint insert_free (fuel : nat) (n counter tmp : Z) (one_entry : list Z) : option (Z * list Z) :=
  match fuel with
  | O => None
  | S fuel' =>
      if counter <? 1000 then
        let '(one_entry', fresh) := set_insert tmp one_entry in
        if fresh then Some (counter, one_entry')
        else insert_free fuel' n (counter + 1) (u32 (tmp + 1) mod n) one_entry'
      else Some (counter, one_entry)
  end.

(** The conversion to [uint32_t] is defined for values in range, the remainder for
    [n] other than 0. *)
Fixpoint insert_all (n : Z) (R : list double) (counter : Z) (one_entry : list Z) : option (list Z) :=
  match R with
  | [] => Some one_entry
  | r :: R' =>
      let x := mul_trunc n r in
      assert! (x <? 2 ^ 32) && negb (n =? 0);
      '(counter', one_entry') ← insert_free 1001 n counter (x mod n) one_entry;
      insert_all n R' counter' one_entry'
  end.

Definition InitLeftMatrix (n weight : Z) (R : list double) : res (list Z) :=
  OtStore.enforce (vsize R =? weight);;
  one_entry ← access (insert_all n R 0 []);
  OtStore.enforce (vsize one_entry =? vsize R);;
  Val one_entry.

Definition new_SilverCode (n weight : Z) : res SilverCode :=
  let n32 := u32 n in
  let m32 := u32 (u64 (2 * n)) in
  if weight =? 5 then
    OtStore.enforce (5 <=? n);;
    L ← InitLeftMatrix n32 weight Left_R5;
    Val (mk_silver n32 m32 weight 16 L)
  else if weight =? 11 then
    OtStore.enforce (11 <=? n);;
    L ← InitLeftMatrix n32 weight Left_R11;
    Val (mk_silver n32 m32 weight 32 L)
  else Err.

Section SilverCode.
Context (c : SilverCode).

(** *** [LeftEncode] *)

(** [*out ^ *in_ptrs[0] ^ *in_ptrs[1] ^ ...], [t] words after the pointers. *)
Fixpoint add_words (inp : list Z) (t : Z) (in_ptrs : list Z) (val : Z) : option Z :=
  match in_ptrs with
  | [] => Some val
  | p :: ps => x ← vget inp (p + t); add_words inp t ps (Z.lxor val x)
  end.

(** One step of the inner loop; the switch of the code has a case for 5 and one for
    11 words. *)
Definition left_word (inp in_ptrs : list Z) (i t : Z) (out : list Z) : option (list Z) :=
  val ← vget out (i + t);
  val' ← add_words inp t in_ptrs val;
  vset out (i + t) val'.

Definition weight_supported : bool := (weight_ c =? 5) || (weight_ c =? 11).

(** [*std::max_element]. *)
Definition max_element (l : list Z) : Z := foldr Z.max 0 l.

(** [idx += step] on every entry, [pop_back], [push_front(0)]. *)
Definition advance (step : Z) (one_entry : list Z) : list Z :=
  0 :: removelast ((fun idx => u32 (idx + step)) <$> one_entry).

(** [one_entry.back()]. *)
Definition back (l : list Z) : option Z := vget l (vsize l - 1).

Definition left_step (one_entry : list Z) (i : Z) : option Z :=
  max_idx ← back one_entry;
  Some (Z.min (u32 (n_ c - max_idx)) (u32 (n_ c - i))).

(** The outer loop; [Bad] also when the fuel runs out. *)
Fixpoint left_loop (fuel : nat) (inp : list Z) (i : Z) (one_entry out : list Z) : res (list Z) :=
  match fuel with
  | O => Bad
  | S fuel' =>
      if i <? n_ c then
        step ← access (left_step one_entry i);
        OtStore.enforce (bool_decide (back one_entry = Some (max_element one_entry)));;
        OtStore.enforce (weight_supported || (step =? 0));;
        out' ← access (for_up (Z.to_nat step) 0 (left_word inp one_entry i) out);
        left_loop fuel' inp (i + step) (advance step one_entry) out'
      else Val out
  end.

Definition LeftEncode (inp out : list Z) : res (list Z) :=
  OtStore.enforce (n_ c <=? vsize inp);;
  OtStore.enforce (n_ c <=? vsize out);;
  OtStore.enforce (vsize (L_one_idx_ c) =? weight_ c);;
  left_loop (S (Z.to_nat (n_ c))) inp 0 (L_one_idx_ c) out.

Definition left_word2 (in0 in1 in_ptrs : list Z) (i t : Z) (outs : list Z * list Z) : option (list Z * list Z) :=
  let '(out0, out1) := outs in
  val0 ← vget out0 (i + t);
  val0' ← add_words in0 t in_ptrs val0;
  out0' ← vset out0 (i + t) val0';
  val1 ← vget out1 (i + t);
  val1' ← add_words in1 t in_ptrs val1;
  out1' ← vset out1 (i + t) val1';
  Some (out0', out1').

Fixpoint left_loop2 (fuel : nat) (in0 in1 : list Z) (i : Z) (one_entry : list Z) (outs : list Z * list Z)
  : res (list Z * list Z) :=
  match fuel with
  | O => Bad
  | S fuel' =>
      if i <? n_ c then
        step ← access (left_step one_entry i);
        OtStore.enforce (bool_decide (back one_entry = Some (max_element one_entry)));;
        OtStore.enforce (weight_supported || (step =? 0));;
        outs' ← access (for_up (Z.to_nat step) 0 (left_word2 in0 in1 one_entry i) outs);
        left_loop2 fuel' in0 in1 (i + step) (advance step one_entry) outs'
      else Val outs
  end.

Definition LeftEncode2 (in0 out0 in1 out1 : list Z) : res (list Z * list Z) :=
  OtStore.enforce (n_ c <=? vsize in0);;
  OtStore.enforce (n_ c <=? vsize out0);;
  OtStore.enforce (n_ c <=? vsize in1);;
  OtStore.enforce (n_ c <=? vsize out1);;
  OtStore.enforce (vsize (L_one_idx_ c) =? weight_ c);;
  left_loop2 (S (Z.to_nat (n_ c))) in0 in1 0 (L_one_idx_ c) (out0, out1).

(** *** [RightEncode] *)

Definition diag_row (i : Z) : option (list Z) :=
  if weight_ c =? 5 then vget diagMtx_g16_w5_seed1_t36 (Z.land i 15)
  else vget diagMtx_g32_w11_seed2_t36 (Z.land i 31).

(** [inout[idx] ^= tmp]. *)
Definition xor_word (tmp idx : Z) (inout : list Z) : option (list Z) :=
  x ← vget inout idx; vset inout idx (Z.lxor x tmp).

(** The words of the row, at [xx]. *)
Fixpoint xor_row (tmp xx : Z) (row inout : list Z) : option (list Z) :=
  match row with
  | [] => Some inout
  | e :: row' => inout' ← xor_word tmp (xx + e) inout; xor_row tmp xx row' inout'
  end.

Definition lower_bound : Z := u32 (Z.max R_offset_0 R_offset_1 + gap_ c).

(** [while (i > lower_bound)]: returns the index and the offsets it stopped with. *)
Fixpoint right_upper (fuel : nat) (i offset0 offset1 : Z) (inout : list Z) : option (Z * Z * Z * list Z) :=
  match fuel with
  | O => None
  | S fuel' =>
      if lower_bound <? i then
        tmp ← vget inout i;
        row ← diag_row i;
        inout ← xor_row tmp (i - gap_ c) row inout;
        inout ← xor_word tmp offset0 inout;
        inout ← xor_word tmp offset1 inout;
        right_upper fuel' (u32 (i - 1)) (u32 (offset0 - 1)) (u32 (offset1 - 1)) inout
      else Some (i, offset0, offset1, inout)
  end.

(** The loop over [j], downwards, with its [break]: [row] is reversed. *)
Fixpoint xor_row_checked (tmp i : Z) (row inout : list Z) : option (list Z) :=
  match row with
  | [] => Some inout
  | e :: row' =>
      let idx := u32 (e + i - gap_ c) in
      if n_ c <=? idx then Some inout
      else inout' ← xor_word tmp idx inout; xor_row_checked tmp i row' inout'
  end.

Definition xor_offset (tmp offset : Z) (inout : list Z) : option (list Z * Z) :=
  if offset <? n_ c then inout' ← xor_word tmp offset inout; Some (inout', u32 (offset - 1))
  else Some (inout, offset).

(** [for (; i != ~static_cast<uint32_t>(0); --i)]. *)
Fixpoint right_lower (fuel : nat) (i offset0 offset1 : Z) (inout : list Z) : option (list Z) :=
  match fuel with
  | O => None
  | S fuel' =>
      if i =? 2 ^ 32 - 1 then Some inout else
      tmp ← vget inout i;
      row ← diag_row i;
      inout ← xor_row_checked tmp i (rev row) inout;
      '(inout, offset0) ← xor_offset tmp offset0 inout;
      '(inout, offset1) ← xor_offset tmp offset1 inout;
      right_lower fuel' (u32 (i - 1)) offset0 offset1 inout
  end.

Definition right_fuel : nat := S (Z.to_nat (n_ c)).

Definition start_offset (o : Z) : Z := u32 (n_ c - gap_ c - 1 - o).

Definition RightEncode (inout : list Z) : res (list Z) :=
  OtStore.enforce (n_ c <=? vsize inout);;
  OtStore.enforce weight_supported;;
  access (
    '(i, offset0, offset1, inout) ← right_upper right_fuel (u32 (n_ c - 1)) (start_offset R_offset_0) (start_offset R_offset_1) inout;
    right_lower right_fuel i offset0 offset1 inout).

Definition xor_word2 (tmps : Z * Z) (idx : Z) (inouts : list Z * list Z) : option (list Z * list Z) :=
  x ← xor_word (fst tmps) idx (fst inouts); y ← xor_word (snd tmps) idx (snd inouts); Some (x, y).

Definition xor_row2 (tmps : Z * Z) (xx : Z) (row : list Z) (inouts : list Z * list Z) : option (list Z * list Z) :=
  x ← xor_row (fst tmps) xx row (fst inouts); y ← xor_row (snd tmps) xx row (snd inouts); Some (x, y).

Fixpoint right_upper2 (fuel : nat) (i offset0 offset1 : Z) (inouts : list Z * list Z)
  : option (Z * Z * Z * (list Z * list Z)) :=
  match fuel with
  | O => None
  | S fuel' =>
      if lower_bound <? i then
        tmp0 ← vget (fst inouts) i;
        tmp1 ← vget (snd inouts) i;
        row ← diag_row i;
        inouts ← xor_row2 (tmp0, tmp1) (i - gap_ c) row inouts;
        inouts ← xor_word2 (tmp0, tmp1) offset0 inouts;
        inouts ← xor_word2 (tmp0, tmp1) offset1 inouts;
        right_upper2 fuel' (u32 (i - 1)) (u32 (offset0 - 1)) (u32 (offset1 - 1)) inouts
      else Some (i, offset0, offset1, inouts)
  end.

Fixpoint xor_row_checked2 (tmps : Z * Z) (i : Z) (row : list Z) (inouts : list Z * list Z) : option (list Z * list Z) :=
  match row with
  | [] => Some inouts
  | e :: row' =>
      let idx := u32 (e + i - gap_ c) in
      if n_ c <=? idx then Some inouts
      else inouts' ← xor_word2 tmps idx inouts; xor_row_checked2 tmps i row' inouts'
  end.

Definition xor_offset2 (tmps : Z * Z) (offset : Z) (inouts : list Z * list Z) : option (list Z * list Z * Z) :=
  if offset <? n_ c then inouts' ← xor_word2 tmps offset inouts; Some (inouts', u32 (offset - 1))
  else Some (inouts, offset).

Fixpoint right_lower2 (fuel : nat) (i offset0 offset1 : Z) (inouts : list Z * list Z) : option (list Z * list Z) :=
  match fuel with
  | O => None
  | S fuel' =>
      if i =? 2 ^ 32 - 1 then Some inouts else
      tmp0 ← vget (fst inouts) i;
      tmp1 ← vget (snd inouts) i;
      row ← diag_row i;
      inouts ← xor_row_checked2 (tmp0, tmp1) i (rev row) inouts;
      '(inouts, offset0) ← xor_offset2 (tmp0, tmp1) offset0 inouts;
      '(inouts, offset1) ← xor_offset2 (tmp0, tmp1) offset1 inouts;
      right_lower2 fuel' (u32 (i - 1)) offset0 offset1 inouts
  end.

Definition RightEncode2 (inout0 inout1 : list Z) : res (list Z * list Z) :=
  OtStore.enforce (n_ c <=? vsize inout0);;
  OtStore.enforce (n_ c <=? vsize inout1);;
  OtStore.enforce weight_supported;;
  access (
    '(i, offset0, offset1, inouts) ← right_upper2 right_fuel (u32 (n_ c - 1)) (start_offset R_offset_0) (start_offset R_offset_1) (inout0, inout1);
    right_lower2 right_fuel i offset0 offset1 inouts).

(** *** The dual encoding *)

(** [span.subspan(pos, len)] of a span that is long enough. *)
Definition part (l : list Z) (pos len : Z) : list Z := take (Z.to_nat len) (drop (Z.to_nat pos) l).

(** A span after [src] was written at [pos]. *)
Definition write_part (l : list Z) (pos : Z) (src : list Z) : list Z :=
  take (Z.to_nat pos) l ++ src ++ drop (Z.to_nat (pos + vsize src)) l.

Definition DualEncodeInplace (inout : list Z) : res (list Z) :=
  OtStore.enforce (m_ c <=? vsize inout);;
  right ← RightEncode (part inout (n_ c) (n_ c));
  let inout := write_part inout (n_ c) right in
  left ← LeftEncode (part inout (n_ c) (n_ c)) (part inout 0 (n_ c));
  Val (write_part inout 0 left).

Definition DualEncode (inp out : list Z) : res (list Z) :=
  OtStore.enforce (m_ c <=? vsize inp);;
  OtStore.enforce (n_ c <=? vsize out);;
  let buff := part inp (n_ c) (m_ c - n_ c) in
  buff ← RightEncode buff;
  let out := write_part out 0 (part inp 0 (n_ c)) in
  left ← LeftEncode buff (part out 0 (n_ c));
  Val (write_part out 0 left).

Definition DualEncodeInplace2 (inout0 inout1 : list Z) : res (list Z * list Z) :=
  OtStore.enforce (m_ c <=? vsize inout0);;
  OtStore.enforce (m_ c <=? vsize inout1);;
  '(right0, right1) ← RightEncode2 (part inout0 (n_ c) (n_ c)) (part inout1 (n_ c) (n_ c));
  let inout0 := write_part inout0 (n_ c) right0 in
  let inout1 := write_part inout1 (n_ c) right1 in
  '(left0, left1) ← LeftEncode2 (part inout0 (n_ c) (n_ c)) (part inout0 0 (n_ c))
                      (part inout1 (n_ c) (n_ c)) (part inout1 0 (n_ c));
  Val (write_part inout0 0 left0, write_part inout1 0 left1).

Definition DualEncode2 (in0 out0 in1 out1 : list Z) : res (list Z * list Z) :=
  OtStore.enforce (m_ c <=? vsize in0);;
  OtStore.enforce (n_ c <=? vsize out0);;
  OtStore.enforce (m_ c <=? vsize in1);;
  OtStore.enforce (n_ c <=? vsize out1);;
  let buff0 := part in0 (n_ c) (m_ c - n_ c) in
  let buff1 := part in1 (n_ c) (m_ c - n_ c) in
  '(buff0, buff1) ← RightEncode2 buff0 buff1;
  let out0 := write_part out0 0 (part in0 0 (n_ c)) in
  let out1 := write_part out1 0 (part in1 0 (n_ c)) in
  '(left0, left1) ← LeftEncode2 buff0 (part out0 0 (n_ c)) buff1 (part out1 0 (n_ c));
  Val (write_part out0 0 left0, write_part out1 0 left1).
End SilverCode.
End Silver.
