(* ===== verification/SilverTheorems.v ===== *)
(** The matrices of the Silver code. The left one: the constructor draws distinct
    positions, and [LeftEncode] applies the circulant matrix they generate. The right
    one: [RightEncode] solves a lower triangular system by back substitution.
    Then the dual encoding: [x + y * R^-1 * L], which vanishes on the rows of the parity
    check matrix [L R]. *)

From Stdlib Require Import ZArith Lia ZifyBool Bool Sorting.Sorted.
From stdpp Require Import base numbers list option sets.
From S2P Require Import Prelude OtStore SparseXor LinearCodeFacts SilverCode.

Local Open Scope Z_scope.
Import Silver.

(** *** The ordered set of positions *)

Definition ordered (l : list Z) : Prop := StronglySorted Z.lt l.

Lemma set_insert_spec x l : ordered l ->
  ordered (fst (set_insert x l)) /\ (forall y, y ∈ fst (set_insert x l) <-> y = x \/ y ∈ l) /\
  (snd (set_insert x l) = true -> x ∉ l /\ length (fst (set_insert x l)) = S (length l)) /\
  (snd (set_insert x l) = false -> x ∈ l /\ fst (set_insert x l) = l).
Proof.
  induction l as [|y l IH]; intros Hl; cbn [set_insert].
  - cbn. split_and!; [by repeat constructor|set_solver|intros _; split; [set_solver|done]|done].
  - pose proof Hl as Hl'. inversion Hl' as [|? ? Hs Hf]; subst. destruct (IH Hs) as (I1 & I2 & I3 & I4).
    rewrite Forall_forall in Hf. destruct (Z.ltb_spec x y) as [Hlt|Hge].
    + cbn. split_and!; [|set_solver| |done].
      * constructor; [done|]. apply Forall_forall. intros z [-> | Hz]%elem_of_cons; [done|]. pose proof (Hf z Hz). lia.
      * intros _. split; [|done]. intros [-> | Hz]%elem_of_cons; [lia|]. pose proof (Hf x Hz). lia.
    + destruct (Z.eqb_spec x y) as [-> | Hne].
      * cbn. split_and!; [done|set_solver|done|intros _; split; [set_solver|done]].
      * destruct (set_insert x l) as [l'' b]. cbn in *. split_and!.
        -- constructor; [done|]. apply Forall_forall. intros z Hz. apply I2 in Hz as [-> | Hz]; [lia|]. by apply Hf.
        -- intros z. rewrite !elem_of_cons, I2. tauto.
        -- intros Hb. destruct (I3 Hb) as (I5 & I6). split; [|lia]. rewrite elem_of_cons. tauto.
        -- intros Hb. destruct (I4 Hb) as (I5 & ->). split; [set_solver|done].
Qed.

Definition rotation (n t i : Z) : Z := (t + i) mod n.

Lemma rotation_inj n t i j : 0 <= i < n -> 0 <= j < n -> rotation n t i = rotation n t j -> i = j.
Proof.
  unfold rotation. intros Hi Hj E. apply (f_equal (fun z => (z - t) mod n)) in E.
  rewrite !Zminus_mod_idemp_l, !Z.add_simpl_l, !Z.mod_small in E by done. done.
Qed.

Lemma rotations_count n t k (l : list Z) : 0 <= k <= n -> (forall i, 0 <= i < k -> rotation n t i ∈ l) -> k <= vsize l.
Proof.
  intros Hk H. assert (rotation n t <$> seqZ 0 k ⊆+ l) as Hsub.
  { apply NoDup_submseteq.
    - apply NoDup_fmap_2_strong; [|apply NoDup_seqZ]. intros i j Hi%elem_of_seqZ Hj%elem_of_seqZ. apply rotation_inj; lia.
    - intros z Hz. apply list_elem_of_fmap in Hz as (i & -> & Hi%elem_of_seqZ). apply H. lia. }
  apply submseteq_length in Hsub. rewrite length_fmap, length_seqZ in Hsub. unfold vsize. lia.
Qed.

(** Positions of a row, in order. *)
Definition positions (n : Z) (l : list Z) : Prop := ordered l /\ Forall (fun x => 0 <= x < n) l.

Lemma insert_free_run n t counter l k fuel : positions n l -> 5 <= n < 2 ^ 32 -> vsize l < n -> 0 <= t < n ->
  (forall i, 0 <= i < k -> rotation n t i ∈ l) -> 0 <= k <= vsize l -> counter + vsize l - k < 1000 ->
  vsize l - k < Z.of_nat fuel ->
  exists counter' l', insert_free fuel n counter (rotation n t k) l = Some (counter', l') /\
    positions n l' /\ vsize l' = vsize l + 1 /\ counter' <= counter + vsize l - k.
Proof.
  intros (Hord & Hr) Hn Hl Ht. revert counter k. induction fuel as [|fuel IH]; intros counter k Hk Hkl Hc Hf; [lia|].
  cbn [insert_free]. replace (counter <? 1000) with true by lia.
  pose proof (set_insert_spec (rotation n t k) l Hord) as (I1 & I2 & I3 & I4).
  destruct (set_insert (rotation n t k) l) as [l' b]. cbn [fst snd] in *.
  assert (Hrot : 0 <= rotation n t k < n) by (apply Z.mod_pos_bound; lia).
  destruct b.
  - destruct (I3 eq_refl) as (_ & E). exists counter, l'. split; [done|]. split_and!; [|unfold vsize in *; lia|lia].
    split; [done|]. apply Forall_forall. intros z Hz. apply I2 in Hz as [-> | Hz]; [done|]. by apply (proj1 (Forall_forall _ _) Hr).
  - destruct (I4 eq_refl) as (Hin & ->).
    assert (Hk1 : forall i, 0 <= i < k + 1 -> rotation n t i ∈ l).
    { intros i Hi. destruct (Z.eq_dec i k) as [-> | ]; [done|]. apply Hk. lia. }
    pose proof (rotations_count n t (k + 1) l ltac:(lia) Hk1).
    assert (E : u32 (rotation n t k + 1) mod n = rotation n t (k + 1)).
    { rewrite u32_small by lia. unfold rotation. rewrite Zplus_mod_idemp_l. f_equal. lia. }
    rewrite E. destruct (IH (counter + 1) (k + 1)) as (c' & l'' & -> & P & V & C); try done; try lia.
    exists c', l''. split_and!; done || lia.
Qed.

(** *** The constants of the matrix *)

(** A constant below 1 by more than a rounding error. *)
Definition below_one (r : double) : bool :=
  (0 <=? mant r) && (0 <=? frac r) && ((2 ^ 52 + 1) * mant r <=? 2 ^ 52 * 2 ^ frac r).

Lemma mul_trunc_bound n r : 0 <= n -> below_one r = true -> mul_trunc n r <= n.
Proof.
  unfold below_one, mul_trunc. intros Hn Hr. cbv zeta. set (p := n * mant r).
  assert (Hp : 0 <= p) by (apply Z.mul_nonneg_nonneg; lia).
  assert (0 < 2 ^ frac r) by (apply Z.pow_pos_nonneg; lia).
  assert (B : (2 ^ 52 + 1) * p <= 2 ^ 52 * (n * 2 ^ frac r)).
  { unfold p. replace ((2 ^ 52 + 1) * (n * mant r)) with (n * ((2 ^ 52 + 1) * mant r)) by lia.
    replace (2 ^ 52 * (n * 2 ^ frac r)) with (n * (2 ^ 52 * 2 ^ frac r)) by lia. apply Z.mul_le_mono_nonneg_l; lia. }
  assert (n * 2 ^ frac r / 2 ^ frac r = n) as E by (apply Z.div_mul; lia). etrans; [|apply Z.eq_le_incl, E]. apply Z.div_le_mono; [lia|].
  destruct (Z.leb_spec (Z.log2 p - 52) 0) as [_|Hs]; [lia|].
  set (s := Z.log2 p - 52) in *. assert (0 < 2 ^ s) by (apply Z.pow_pos_nonneg; lia).
  assert (Hp0 : 0 < p). { destruct (Z.eq_dec p 0) as [E0|]; [|lia]. unfold s in Hs. rewrite E0 in Hs. cbn in Hs. lia. }
  assert (S52 : 2 ^ 52 * 2 ^ s <= p).
  { rewrite <- Z.pow_add_r by lia. replace (52 + s) with (Z.log2 p) by (unfold s; lia). apply Z.log2_spec. lia. }
  pose proof (Z.div_mod p (2 ^ s) ltac:(lia)). pose proof (Z.mod_pos_bound p (2 ^ s) ltac:(lia)).
  destruct (_ || _); lia.
Qed.

Lemma insert_all_run n R counter l : positions n l -> 5 <= n < 2 ^ 32 -> vsize l + vsize R <= n -> vsize l + vsize R <= 11 ->
  forallb below_one R = true -> counter <= 11 * vsize l ->
  exists l', insert_all n R counter l = Some l' /\ positions n l' /\ vsize l' = vsize l + vsize R.
Proof.
  revert counter l. induction R as [|r R IH]; intros counter l Hl Hn Hv H11 HR Hc; cbn [insert_all].
  - exists l. split_and!; [done|done|unfold vsize; cbn; lia].
  - cbn [forallb] in HR. apply andb_prop in HR as (Hr & HR).
    change (vsize (r :: R)) with (Z.of_nat (S (length R))) in *.
    pose proof (mul_trunc_bound n r ltac:(lia) Hr). replace (mul_trunc n r <? 2 ^ 32) with true by lia.
    replace (n =? 0) with false by lia. cbn [andb negb].
    assert (Hx : 0 <= mul_trunc n r mod n < n) by (apply Z.mod_pos_bound; lia).
    pose proof (vsize_nonneg l).
    destruct (insert_free_run n (mul_trunc n r mod n) counter l 0 1001) as (c' & l' & E & P & V & C); try done; try lia.
    unfold rotation in E. rewrite Z.add_0_r, Zmod_mod in E. rewrite E. cbn [mbind option_bind].
    destruct (IH c' l') as (l'' & -> & P' & V'); try done; try (unfold vsize in *; lia).
    exists l''. split_and!; [done|done|]. rewrite V', V. unfold vsize. lia.
Qed.

(** *** The circulant matrix *)

Definition left_column (n : Z) (L : list Z) (r : Z) : list Z := (fun l => (l + r) mod n) <$> L.

Lemma left_column_range n L r j : 0 < n -> j ∈ left_column n L r -> 0 <= j < n.
Proof. intros Hn Hj. apply list_elem_of_fmap in Hj as (l & -> & _). apply Z.mod_pos_bound. lia. Qed.

Lemma add_words_run inp t ps val : (forall p, p ∈ ps -> 0 <= p + t < vsize inp) ->
  add_words inp t ps val = Some (Z.lxor val (xor_over inp ((fun p => p + t) <$> ps))).
Proof.
  revert val. induction ps as [|p ps IH]; intros val H; cbn [add_words].
  - cbn. by rewrite Z.lxor_0_r.
  - rewrite vget_blk by (apply H; left). cbn [mbind option_bind]. rewrite IH by (intros q Hq; apply H; by right).
    by rewrite Z.lxor_assoc.
Qed.

Lemma ordered_back e : ordered e -> e <> [] -> Forall (fun x => 0 <= x) e ->
  exists e' m, e = e' ++ [m] /\ back e = Some m /\ max_element e = m /\ forall x, x ∈ e -> x <= m.
Proof.
  intros Ho Hne Hf. destruct (exists_last Hne) as (e' & m & ->). exists e', m.
  assert (Hm : forall x, x ∈ e' -> x < m).
  { clear Hf Hne. induction e' as [|y e' IH]; intros x Hx; [set_solver|].
    apply StronglySorted_inv in Ho as (Ho & Hy). rewrite Forall_forall in Hy.
    apply elem_of_cons in Hx as [-> | Hx]; [apply Hy; set_solver|by apply IH]. }
  assert (Hm' : forall x, x ∈ e' ++ [m] -> x <= m).
  { intros x Hx. apply elem_of_app in Hx as [Hx|Hx%list_elem_of_singleton]; [|lia]. pose proof (Hm x Hx). lia. }
  split_and!; [done| | |done].
  - unfold back. rewrite vsize_app. change (vsize [m]) with 1. rewrite Z.add_simpl_r. unfold vsize, vget.
    replace (0 <=? Z.of_nat (length e')) with true by lia. rewrite Nat2Z.id. by apply list_lookup_middle.
  - assert (H0 : 0 <= m) by (apply (proj1 (Forall_forall _ _) Hf); set_solver). clear Hf Ho Hne Hm'. unfold max_element.
    induction e' as [|y e' IH]; cbn; [lia|]. rewrite IH by (intros x Hx; apply Hm; by right).
    pose proof (Hm y ltac:(left)). lia.
Qed.

Lemma ordered_advance step e : ordered e -> Forall (fun x => 0 <= x) e -> 1 <= step ->
  ordered (0 :: ((fun idx => idx + step) <$> e)).
Proof.
  intros Ho Hf Hs. constructor.
  - clear Hf. induction Ho as [|x e Ho IH Hx]; [constructor|]. cbn. constructor; [done|].
    apply Forall_fmap. eapply Forall_impl; [done|]. cbn. lia.
  - apply Forall_fmap. eapply Forall_impl; [done|]. cbn. lia.
Qed.

Lemma ordered_prefix l x : ordered (l ++ [x]) -> ordered l.
Proof.
  induction l as [|y l IH]; intros H; [constructor|]. apply StronglySorted_inv in H as (H & Hy).
  constructor; [by apply IH|]. by apply Forall_app in Hy as (Hy & _).
Qed.

Section Left.
Context (c : SilverCode).
Local Abbreviation n := (n_ c).
Local Abbreviation L := (L_one_idx_ c).
Hypothesis Hn : 5 <= n < 2 ^ 31.
Hypothesis HL : positions n L.
Hypothesis HW : vsize L = weight_ c.
Hypothesis Hsup : weight_supported c = true.

(** The entries of the loop at output [i]. *)
Definition entries_at (i : Z) (e : list Z) : Prop := positions n e /\ e ≡ₚ left_column n L i.

Lemma entries_start : entries_at 0 L.
Proof using Hn HL HW Hsup.
  split; [done|]. unfold left_column. destruct HL as (_ & Hr). rewrite <- (list_fmap_id L) at 1. apply reflexive_eq.
  apply list_fmap_ext. intros i x Hx. rewrite Z.add_0_r, Z.mod_small; [done|]. rewrite Forall_forall in Hr. apply Hr. by eapply list_elem_of_lookup_2.
Qed.

Lemma entries_nonempty i e : entries_at i e -> e <> [].
Proof using Hn HL HW Hsup.
  intros (_ & HP) ->. apply Permutation_length in HP. unfold left_column in HP. rewrite length_fmap in HP.
  unfold weight_supported, vsize in *. cbn in HP. lia.
Qed.

(** The words of an entry, [t] words on. *)
Lemma entries_shift i e m t : entries_at i e -> (forall x, x ∈ e -> x <= m) -> 0 <= t -> m + t < n ->
  (fun p => p + t) <$> e ≡ₚ left_column n L (i + t).
Proof using Hn HL HW Hsup.
  intros ((_ & Hr) & HP) Hm Ht Hmt. rewrite Forall_forall in Hr. rewrite HP. unfold left_column. rewrite <- list_fmap_compose.
  apply reflexive_eq, list_fmap_ext. intros q l Hq. cbn.
  assert (Hin : (l + i) mod n ∈ e).
  { rewrite HP. apply list_elem_of_fmap. exists l. split; [done|]. by eapply list_elem_of_lookup_2. }
  pose proof (Hm _ Hin). pose proof (Hr _ Hin). rewrite Z.add_assoc, <- (Zplus_mod_idemp_l (l + i)). symmetry. apply Z.mod_small. lia.
Qed.

(** The entries after a step up to the end of the largest one. *)
Lemma entries_advance i e' m : entries_at i (e' ++ [m]) -> 0 <= i -> (forall x, x ∈ e' ++ [m] -> x <= m) ->
  entries_at (i + (n - m)) (advance (n - m) (e' ++ [m])).
Proof using Hn HL HW Hsup.
  intros ((Ho & Hr) & HP) Hi Hm.
  assert (Hm0 : 0 <= m < n) by (rewrite Forall_forall in Hr; apply Hr; set_solver).
  assert (Hlt : forall x, x ∈ e' -> 0 <= x < m).
  { intros x Hx. rewrite Forall_forall in Hr. pose proof (Hr x ltac:(set_solver)). pose proof (Hm x ltac:(set_solver)).
    assert (x <> m); [|lia]. intros ->. clear -Ho Hx. induction e' as [|y e' IH]; [set_solver|].
    apply StronglySorted_inv in Ho as (Ho & Hy). apply elem_of_cons in Hx as [-> | Hx]; [|by apply IH].
    rewrite Forall_forall in Hy. pose proof (Hy y ltac:(set_solver)). lia. }
  assert (E : advance (n - m) (e' ++ [m]) = 0 :: ((fun idx => idx + (n - m)) <$> e')).
  { unfold advance. rewrite fmap_app. cbn [fmap list_fmap]. rewrite removelast_last. f_equal. apply list_fmap_ext.
    intros q x Hx. apply u32_small. assert (Hx' : x ∈ e') by (by eapply list_elem_of_lookup_2). pose proof (Hlt x Hx'). lia. }
  rewrite E. split; [split|].
  - apply ordered_advance; [by eapply ordered_prefix| |lia].
    apply Forall_forall. intros x Hx. pose proof (Hlt x Hx). lia.
  - constructor; [lia|]. apply Forall_fmap, Forall_forall. intros x Hx. pose proof (Hlt x Hx). cbn. lia.
  - transitivity ((fun p => (p + (n - m)) mod n) <$> (e' ++ [m])).
    + rewrite fmap_app. cbn [fmap list_fmap]. replace (m + (n - m)) with n by lia. rewrite Z.mod_same by lia.
      rewrite <- Permutation_cons_append. f_equiv. apply reflexive_eq, list_fmap_ext. intros q x Hx.
      assert (Hx' : x ∈ e') by (by eapply list_elem_of_lookup_2). pose proof (Hlt x Hx'). rewrite Z.mod_small; lia.
    + rewrite HP. unfold left_column. rewrite <- list_fmap_compose. apply reflexive_eq, list_fmap_ext. intros q x _. cbn.
      rewrite Zplus_mod_idemp_l. f_equal. lia.
Qed.

Lemma left_words_run inp out i e m step cur : vsize inp = n -> n <= vsize out -> 0 <= i -> i + step <= n -> 0 <= step ->
  m + step <= n -> entries_at i e -> (forall x, x ∈ e -> x <= m) -> encoded (left_column n L) inp out i cur ->
  exists cur', for_up (Z.to_nat step) 0 (left_word inp e i) cur = Some cur' /\ encoded (left_column n L) inp out (i + step) cur'.
Proof using Hn HL HW Hsup.
  intros Hin Ho Hi Hs Hs0 Hms He Hm HE.
  destruct (for_up_inv (fun t l => encoded (left_column n L) inp out (i + t) l) (left_word inp e i) (Z.to_nat step) 0 cur)
    as (cur' & -> & HE'); [by rewrite Z.add_0_r| |exists cur'; by rewrite Z.add_0_l, Z2Nat.id in HE' by lia].
  intros t l Ht Hl. unfold left_word. destruct (encoded_next _ _ _ _ _ Hl) as (G & W); [lia|]. rewrite G. cbn [mbind option_bind].
  rewrite add_words_run.
  - assert (E : xor_over inp ((fun p => p + t) <$> e) = xor_over inp (left_column n L (i + t))).
    { by rewrite (entries_shift i e m t) by (done || lia). }
    rewrite E. cbn [mbind option_bind]. rewrite Z.add_assoc. apply W.
  - destruct He as ((_ & Hr) & _). rewrite Forall_forall in Hr. intros p Hp. pose proof (Hr p Hp). pose proof (Hm p Hp). lia.
Qed.

Lemma left_loop_run fuel inp out i e cur : vsize inp = n -> n <= vsize out -> 0 <= i <= n ->
  (i < n -> entries_at i e) -> encoded (left_column n L) inp out i cur -> n - i < Z.of_nat fuel ->
  exists cur', left_loop c fuel inp i e cur = Val cur' /\ encoded (left_column n L) inp out n cur'.
Proof using Hn HL HW Hsup.
  intros Hin Ho. revert i e cur. induction fuel as [|fuel IH]; intros i e cur Hi He HE Hf; [lia|]. cbn [left_loop].
  destruct (Z.ltb_spec i n) as [Hlt|Hge]; [|exists cur; by replace i with n in HE by lia].
  specialize (He Hlt). pose proof He as ((Hord & Hr) & _).
  destruct (ordered_back e) as (e' & m & Ee & Hb & Hmax & Hm); [done|by eapply entries_nonempty| |].
  { eapply Forall_impl; [done|]. cbn. lia. }
  assert (Hm0 : 0 <= m < n) by (rewrite Forall_forall in Hr; apply Hr; subst; set_solver).
  unfold left_step. rewrite Hb. cbn [access mbind option_bind res_bind]. rewrite !u32_small by lia.
  rewrite bool_decide_eq_true_2 by congruence. rewrite Hsup. cbn [orb OtStore.enforce mbind res_bind].
  set (step := Z.min (n - m) (n - i)) in *.
  destruct (left_words_run inp out i e m step cur) as (cur' & -> & HE'); try done; try lia. cbn [access mbind res_bind].
  apply IH; [lia| |done|lia].
  intros Hlt'. assert (Es : step = n - m) by lia. rewrite Es. subst e. apply entries_advance; [done|lia|done].
Qed.

Lemma left_encode_run inp out : vsize inp = n -> n <= vsize out ->
  LeftEncode c inp out = Val (encode_prefix (left_column n L) n inp out).
Proof using Hn HL HW Hsup.
  intros Hin Ho. unfold LeftEncode. replace (n <=? vsize inp) with true by lia. replace (n <=? vsize out) with true by lia.
  rewrite HW, Z.eqb_refl. cbn [OtStore.enforce mbind res_bind].
  destruct (left_loop_run (S (Z.to_nat n)) inp out 0 L out) as (cur & -> & HE); try done; try lia.
  - intros _. apply entries_start.
  - by apply encoded_start.
  - f_equal. apply encoded_prefix; [lia|done].
Qed.

(** *** Two encodings in one pass *)

Lemma left_word2_pair in0 in1 e i t x y :
  left_word2 in0 in1 e i t (x, y) = x' ← left_word in0 e i t x; y' ← left_word in1 e i t y; Some (x', y').
Proof using Type.
  unfold left_word2, left_word. destruct (vget x (i + t)) as [v|]; cbn; [|done]. destruct (add_words in0 t e v); cbn; [|done].
  destruct (vset x (i + t) _); cbn; [|done]. destruct (vget y (i + t)) as [v'|]; cbn; [|done].
  destruct (add_words in1 t e v'); cbn; [|done]. done.
Qed.

Lemma left_loop2_pair fuel in0 in1 i e x y x' y' : left_loop c fuel in0 i e x = Val x' -> left_loop c fuel in1 i e y = Val y' ->
  left_loop2 c fuel in0 in1 i e (x, y) = Val (x', y').
Proof using Type.
  revert i e x y. induction fuel as [|fuel IH]; intros i e x y; [done|]. cbn [left_loop left_loop2].
  destruct (i <? n); [|by intros [= ->] [= ->]]. destruct (left_step c e i) as [step|]; cbn [access mbind res_bind]; [|done].
  destruct (OtStore.enforce (bool_decide _)) as [[]| |]; cbn [mbind res_bind]; [|done..].
  destruct (OtStore.enforce _) as [[]| |]; cbn [mbind res_bind]; [|done..].
  rewrite (for_up_pair _ _ _ _ _ _ _ (left_word2_pair in0 in1 e i)).
  destruct (for_up _ 0 (left_word in0 e i) x) as [x1|]; cbn [access mbind option_bind res_bind]; [|done].
  destruct (for_up _ 0 (left_word in1 e i) y) as [y1|]; cbn [access mbind option_bind res_bind]; [|done]. apply IH.
Qed.

Lemma left_encode2_run in0 out0 in1 out1 : vsize in0 = n -> n <= vsize out0 -> vsize in1 = n -> n <= vsize out1 ->
  LeftEncode2 c in0 out0 in1 out1 =
  Val (encode_prefix (left_column n L) n in0 out0, encode_prefix (left_column n L) n in1 out1).
Proof using Hn HL HW Hsup.
  intros H0 Ho0 H1 Ho1. unfold LeftEncode2. replace (n <=? vsize in0) with true by lia. replace (n <=? vsize out0) with true by lia.
  replace (n <=? vsize in1) with true by lia. replace (n <=? vsize out1) with true by lia.
  pose proof (left_encode_run in0 out0 H0 Ho0) as E0. pose proof (left_encode_run in1 out1 H1 Ho1) as E1. unfold LeftEncode in E0, E1.
  replace (n <=? vsize in0) with true in E0 by lia. replace (n <=? vsize out0) with true in E0 by lia.
  replace (n <=? vsize in1) with true in E1 by lia. replace (n <=? vsize out1) with true in E1 by lia.
  rewrite HW, Z.eqb_refl in *. by apply left_loop2_pair.
Qed.
End Left.

(** *** The constructor *)

Lemma init_left_run n weight R : 5 <= n < 2 ^ 32 -> vsize R = weight -> weight <= n -> weight <= 11 -> forallb below_one R = true ->
  exists L, InitLeftMatrix n weight R = Val L /\ positions n L /\ vsize L = weight.
Proof.
  intros Hn HR Hw H11 Hb. unfold InitLeftMatrix. rewrite HR, Z.eqb_refl. cbn [OtStore.enforce mbind res_bind].
  destruct (insert_all_run n R 0 []) as (L & -> & P & V); try done.
  - split; constructor.
  - change (vsize []) with 0. lia.
  - change (vsize []) with 0. lia.
  - change (vsize []) with 0 in V. cbn [access mbind res_bind]. replace (vsize L =? weight) with true by lia.
    exists L. split_and!; [done|done|lia].
Qed.

(** A code that the constructor made. *)
Record silver_ok (c : SilverCode) (n weight : Z) : Prop := {
  so_n : n_ c = n;
  so_m : m_ c = 2 * n;
  so_weight : weight_ c = weight;
  so_gap : gap_ c = if weight =? 5 then 16 else 32;
  so_sup : weight = 5 \/ weight = 11;
  so_range : weight <= n < 2 ^ 31;
  so_left : positions n (L_one_idx_ c);
  so_count : vsize (L_one_idx_ c) = weight
}.

Lemma new_silver_run n weight : weight = 5 \/ weight = 11 -> weight <= n < 2 ^ 31 ->
  exists c, new_SilverCode n weight = Val c /\ silver_ok c n weight.
Proof.
  intros Hw Hn. unfold new_SilverCode. rewrite u32_small by lia.
  assert (Hm : u32 (u64 (2 * n)) = 2 * n) by (unfold u64; rewrite Z.mod_small, u32_small by lia; done).
  rewrite Hm. destruct Hw as [-> | ->].
  - replace (5 <=? n) with true by lia. cbn [Z.eqb Pos.eqb OtStore.enforce mbind res_bind].
    destruct (init_left_run n 5 Left_R5) as (L & -> & P & V); try done; try lia.
    eexists. split; [done|]. split; cbn; try done; try lia.
  - replace (11 <=? n) with true by lia. cbn [Z.eqb Pos.eqb OtStore.enforce mbind res_bind].
    destruct (init_left_run n 11 Left_R11) as (L & -> & P & V); try done; try lia.
    eexists. split; [done|]. split; cbn; try done; try lia.
Qed.

Import Silver.

(** *** Adding a word at some positions *)

Definition adds (tmp : Z) (js l l' : list Z) : Prop :=
  vsize l' = vsize l /\
  forall r, 0 <= r < vsize l -> blk l' r = if decide (r ∈ js) then Z.lxor (blk l r) tmp else blk l r.

Lemma adds_nil tmp l : adds tmp [] l l.
Proof. split; [done|]. intros r Hr. by rewrite decide_False by set_solver. Qed.

Lemma adds_app tmp js js' l l1 l2 : adds tmp js l l1 -> adds tmp js' l1 l2 -> (forall j, j ∈ js -> j ∉ js') ->
  adds tmp (js ++ js') l l2.
Proof.
  intros (S1 & H1) (S2 & H2) Hd. split; [lia|]. intros r Hr. rewrite H2, H1 by lia.
  destruct (decide (r ∈ js)) as [Hin|Hin].
  - rewrite (decide_False (P := r ∈ js')) by (by apply Hd). by rewrite decide_True by set_solver.
  - destruct (decide (r ∈ js')); [by rewrite decide_True by set_solver|by rewrite decide_False by set_solver].
Qed.

Lemma xor_word_run tmp idx l : 0 <= idx < vsize l -> exists l', xor_word tmp idx l = Some l' /\ adds tmp [idx] l l'.
Proof.
  intros Hi. unfold xor_word. rewrite vget_blk by done. cbn [mbind option_bind]. rewrite vset_Some by done.
  eexists. split; [done|]. split; [by rewrite vsize_insert|]. intros r Hr. rewrite blk_insert by done.
  destruct (Z.eqb_spec r idx) as [-> | Hne]; [by rewrite decide_True by set_solver|by rewrite decide_False by set_solver].
Qed.

Lemma xor_row_run tmp xx row l : ordered row -> Forall (fun e => 0 <= xx + e < vsize l) row ->
  exists l', xor_row tmp xx row l = Some l' /\ adds tmp (Z.add xx <$> row) l l'.
Proof.
  revert l. induction row as [|e row IH]; intros l Ho Hr; cbn [xor_row]; [exists l; split; [done|apply adds_nil]|].
  apply StronglySorted_inv in Ho as (Ho & He). apply Forall_cons in Hr as (H0 & Hr).
  destruct (xor_word_run tmp (xx + e) l H0) as (l1 & -> & A1). cbn [mbind option_bind].
  destruct (IH l1 Ho) as (l2 & -> & A2); [destruct A1 as (-> & _); done|].
  exists l2. split; [done|]. apply (adds_app tmp [xx + e] _ l l1 l2); [done..|].
  intros j Hj%list_elem_of_singleton Hin. apply list_elem_of_fmap in Hin as (e' & E & He').
  rewrite Forall_forall in He. pose proof (He e' He'). lia.
Qed.

(** *** The rows *)

Fixpoint ordered_below (lo hi : Z) (l : list Z) : bool :=
  match l with
  | [] => true
  | x :: l' => (lo <=? x) && (x <? hi) && ordered_below (x + 1) hi l'
  end.

Lemma ordered_below_spec lo hi l : ordered_below lo hi l = true -> ordered l /\ Forall (fun x => lo <= x < hi) l.
Proof.
  revert lo. induction l as [|x l IH]; intros lo H; cbn in H; [by split; constructor|].
  destruct (IH (x + 1)) as (I1 & I2); [lia|]. split.
  - constructor; [done|]. eapply Forall_impl; [done|]. cbn. lia.
  - constructor; [lia|]. eapply Forall_impl; [done|]. cbn. lia.
Qed.

Lemma filter_nonneg l : Forall (fun r => 0 <= r) l -> filter (fun r => 0 <= r) l = l.
Proof. induction 1 as [|r l Hr Hl IH]; [done|]. by rewrite filter_cons_True, IH. Qed.

Section Right.
Context (c : SilverCode) (n weight : Z).
Hypothesis Hc : silver_ok c n weight.
Local Abbreviation gap := (gap_ c).

Definition diag (i : Z) : list Z := default [] (diag_row c i).

Lemma gap_cases : weight_ c = 5 /\ gap = 16 \/ weight_ c = 11 /\ gap = 32.
Proof using Hc.
  destruct Hc as [Hcn Hm Hw Hg Hs _ _ _]. rewrite Hw, Hg. destruct Hs as [-> | ->]; [by left|by right].
Qed.

Lemma diag_spec i : 0 <= i -> diag_row c i = Some (diag i) /\ ordered (diag i) /\ Forall (fun e => 0 <= e < gap) (diag i).
Proof using Hc.
  intros Hi. unfold diag, diag_row.
  assert (K : forall table, forallb (ordered_below 0 gap) table = true -> forall k, 0 <= k < vsize table ->
    vget table k = Some (default [] (vget table k)) /\ ordered (default [] (vget table k)) /\
    Forall (fun e => 0 <= e < gap) (default [] (vget table k))).
  { intros table HT k Hk. apply vget_Some_iff in Hk as (row & E). rewrite E. split; [done|]. apply ordered_below_spec.
    rewrite forallb_forall in HT. apply HT, list_elem_of_In. unfold vget in E. destruct (0 <=? k); [|done].
    by eapply list_elem_of_lookup_2. }
  destruct gap_cases as [(-> & Eg) | (-> & Eg)]; cbn [Z.eqb Pos.eqb].
  - change 15 with (Z.ones 4). rewrite Z.land_ones by lia. apply K; [by rewrite Eg|].
    change (vsize diagMtx_g16_w5_seed1_t36) with 16. apply Z.mod_pos_bound. lia.
  - change 31 with (Z.ones 5). rewrite Z.land_ones by lia. apply K; [by rewrite Eg|].
    change (vsize diagMtx_g32_w11_seed2_t36) with 32. apply Z.mod_pos_bound. lia.
Qed.

(** The columns below the diagonal that row [i] of the matrix has ones in. *)
Definition right_row (i : Z) : list Z :=
  filter (fun r => 0 <= r)
    ((Z.add (i - gap) <$> diag i) ++ [i - gap - R_offset_0] ++ [i - gap - R_offset_1]).

Lemma right_row_below i r : 0 <= i -> r ∈ right_row i -> 0 <= r < i.
Proof using Hc.
  intros Hi Hr. apply list_elem_of_filter in Hr as (H0 & Hr). split; [done|].
  destruct (diag_spec i Hi) as (_ & _ & Hd). rewrite Forall_forall in Hd. unfold R_offset_0, R_offset_1 in Hr.
  assert (0 < gap) by (destruct gap_cases; lia).
  apply elem_of_app in Hr as [Hr|Hr]; [|set_unfold; lia].
  apply list_elem_of_fmap in Hr as (e & -> & He). pose proof (Hd e He). lia.
Qed.

(** An offset of the code at row [i]: below 0 it is past the end and stays there. *)
Definition offset_at (o i x : Z) : Prop :=
  if 0 <=? i - gap - o then x = i - gap - o else n <= x < 2 ^ 32.

Lemma n_range : 5 <= n < 2 ^ 31.
Proof using Hc. destruct Hc as [_ _ _ _ Hs Hr _ _]. lia. Qed.

Lemma offset_next o i x : offset_at o i x -> i < n -> 0 <= o -> 0 <= i - gap - o -> offset_at o (i - 1) (u32 (x - 1)).
Proof using Hc.
  intros Hx Hi Ho H. pose proof n_range. assert (0 < gap) by (destruct gap_cases; lia). unfold offset_at in *.
  replace (0 <=? i - gap - o) with true in Hx by lia. subst x. zcase; unfold u32.
  - rewrite Z.mod_small by lia. lia.
  - replace (i - gap - o - 1) with (2 ^ 32 - 1 + (-1) * 2 ^ 32) by lia. rewrite Z_mod_plus_full, Z.mod_small by lia. lia.
Qed.

(** The entry of an offset in its row, when there is one. *)
Definition offset_entry (o i : Z) : list Z := filter (fun r => 0 <= r) [i - gap - o].

Lemma xor_offset_run tmp o i x l : offset_at o i x -> i < n -> 0 <= o -> vsize l = n ->
  exists l' x', xor_offset c tmp x l = Some (l', x') /\ adds tmp (offset_entry o i) l l' /\ offset_at o (i - 1) x'.
Proof using Hc.
  intros Hx Hi Ho Hl. pose proof n_range. assert (0 < gap) by (destruct gap_cases; lia). unfold xor_offset, offset_entry.
  rewrite (so_n _ _ _ Hc). destruct (Z.leb_spec 0 (i - gap - o)) as [Hnn|Hnn].
  - pose proof (offset_next o i x Hx Hi Ho Hnn) as Hx'. unfold offset_at in Hx. replace (0 <=? i - gap - o) with true in Hx by lia.
    subst x. replace (i - gap - o <? n) with true by lia. destruct (xor_word_run tmp (i - gap - o) l) as (l' & -> & A); [lia|].
    cbn [mbind option_bind]. eexists _, _. split; [done|]. rewrite filter_cons_True, filter_nil by done. done.
  - unfold offset_at in *. replace (0 <=? i - gap - o) with false in Hx by lia. replace (x <? n) with false by lia.
    eexists _, _. split; [done|]. rewrite filter_cons_False, filter_nil by lia. split; [apply adds_nil|].
    by replace (0 <=? i - 1 - gap - o) with false by lia.
Qed.

(** The loop with its [break], on a row in descending order. *)
Lemma xor_row_checked_run tmp i row l : StronglySorted Z.gt row -> Forall (fun e => 0 <= e < gap) row -> 0 <= i < n -> vsize l = n ->
  exists l', xor_row_checked c tmp i row l = Some l' /\ adds tmp (filter (fun r => 0 <= r) (Z.add (i - gap) <$> row)) l l'.
Proof using Hc.
  intros Ho Hr Hi. pose proof n_range. assert (0 < gap <= 32) by (destruct gap_cases; lia).
  revert l. induction row as [|e row IH]; intros l Hl; cbn [xor_row_checked]; [exists l; split; [done|apply adds_nil]|].
  apply StronglySorted_inv in Ho as (Ho & He). apply Forall_cons in Hr as (Hb & Hr). rewrite (so_n _ _ _ Hc).
  cbn [fmap list_fmap]. unfold u32. destruct (Z.leb_spec 0 (e + i - gap)) as [Hnn|Hneg].
  - rewrite Z.mod_small by lia. replace (n <=? e + i - gap) with false by lia.
    destruct (xor_word_run tmp (e + i - gap) l) as (l1 & -> & A1); [lia|]. cbn [mbind option_bind].
    destruct (IH Ho Hr l1) as (l2 & -> & A2); [by destruct A1 as (-> & _)|]. exists l2. split; [done|].
    rewrite filter_cons_True by lia. replace (i - gap + e) with (e + i - gap) by lia.
    apply (adds_app tmp [e + i - gap] _ l l1 l2); [done..|]. intros j Hj%list_elem_of_singleton Hin.
    apply list_elem_of_filter in Hin as (_ & Hin). apply list_elem_of_fmap in Hin as (e' & E & He').
    rewrite Forall_forall in He. pose proof (He e' He'). lia.
  - replace (e + i - gap) with (2 ^ 32 + (e + i - gap) + (-1) * 2 ^ 32) by lia. rewrite Z_mod_plus_full, Z.mod_small by lia.
    replace (n <=? 2 ^ 32 + (e + i - gap)) with true by lia. exists l. split; [done|].
    rewrite filter_cons_False by lia. replace (filter _ (Z.add (i - gap) <$> row)) with (@nil Z); [apply adds_nil|].
    symmetry. apply elem_of_nil_inv. intros r Hin. apply list_elem_of_filter in Hin as (Hr0 & Hin).
    apply list_elem_of_fmap in Hin as (e' & -> & He').
    rewrite Forall_forall in He. pose proof (He e' He'). lia.
Qed.

Lemma ordered_rev row : ordered row -> StronglySorted Z.gt (rev row).
Proof using Type.
  induction 1 as [|e row Ho IH He]; cbn; [constructor|]. rewrite Forall_forall in He.
  assert (K : forall l, StronglySorted Z.gt l -> (forall x, x ∈ l -> e < x) -> StronglySorted Z.gt (l ++ [e])).
  { clear. induction 1 as [|x l Hl IH Hx]; intros H; cbn; [repeat constructor|]. constructor.
    - apply IH. intros y Hy. apply H. by right.
    - apply Forall_app. split; [done|]. constructor; [|constructor]. pose proof (H x ltac:(left)). lia. }
  apply K; [done|]. intros x Hx. apply He, list_elem_of_In, in_rev, list_elem_of_In, Hx.
Qed.

Lemma adds_perm tmp js js' l l' : js ≡ₚ js' -> adds tmp js l l' -> adds tmp js' l l'.
Proof using Type.
  intros HP (Hs & H). split; [done|]. intros r Hr. rewrite H by done.
  destruct (decide (r ∈ js)) as [Hin|Hin]; rewrite HP in Hin; [by rewrite decide_True|by rewrite decide_False].
Qed.

(** What the offsets and the diagonal block of a row add to. *)
Lemma right_row_split i : right_row i = filter (fun r => 0 <= r) (Z.add (i - gap) <$> diag i) ++
  offset_entry R_offset_0 i ++ offset_entry R_offset_1 i.
Proof using Type. unfold right_row, offset_entry. by rewrite !filter_app. Qed.

Lemma right_row_disjoint i j : 0 <= i ->
  (j ∈ filter (fun r => 0 <= r) (Z.add (i - gap) <$> diag i) -> j ∉ offset_entry R_offset_0 i ++ offset_entry R_offset_1 i) /\
  (j ∈ offset_entry R_offset_0 i -> j ∉ offset_entry R_offset_1 i).
Proof using Hc.
  intros Hi. destruct (diag_spec i Hi) as (_ & _ & Hd). rewrite Forall_forall in Hd.
  unfold offset_entry, R_offset_0, R_offset_1. rewrite <- filter_app.
  split; intros Hj Hin; apply list_elem_of_filter in Hj as (_ & Hj); apply list_elem_of_filter in Hin as (_ & Hin).
  - apply list_elem_of_fmap in Hj as (e & -> & He). pose proof (Hd e He). set_unfold. lia.
  - set_unfold. lia.
Qed.

Lemma adds_right_row tmp i l l1 l2 l3 : 0 <= i ->
  adds tmp (filter (fun r => 0 <= r) (Z.add (i - gap) <$> diag i)) l l1 -> adds tmp (offset_entry R_offset_0 i) l1 l2 ->
  adds tmp (offset_entry R_offset_1 i) l2 l3 -> adds tmp (right_row i) l l3.
Proof using Hc.
  intros Hi A1 A2 A3. rewrite right_row_split. eapply adds_app; [done| |].
  - eapply adds_app; [done..|]. intros j. by apply right_row_disjoint.
  - intros j. by apply right_row_disjoint.
Qed.

(** *** Back substitution *)

(** The rows above [i] with a one in column [r]. *)
Definition rows_above (i r : Z) : list Z := filter (fun q => r ∈ right_row q) (seqZ (i + 1) (n - 1 - i)).

(** The rows above [i] have been substituted in [y]. *)
Definition substituted (y : list Z) (i : Z) (cur : list Z) : Prop :=
  vsize cur = n /\ forall r, 0 <= r < n -> blk cur r = Z.lxor (blk y r) (xor_over cur (rows_above i r)).

Lemma xor_over_ext l l' js : (forall j, j ∈ js -> blk l j = blk l' j) -> xor_over l js = xor_over l' js.
Proof using Type.
  unfold xor_over. induction js as [|j js IH]; intros H; [done|]. cbn. rewrite (H j) by left. f_equal. apply IH. intros q Hq. apply H. by right.
Qed.

Lemma substitute_row y i cur cur' : substituted y i cur -> 0 <= i < n -> adds (blk cur i) (right_row i) cur cur' ->
  substituted y (i - 1) cur'.
Proof using Hc.
  intros (Sc & H) Hi (Sa & Ha). split; [lia|]. intros r Hr.
  assert (K : forall q, i <= q < n -> blk cur' q = blk cur q).
  { intros q Hq. rewrite Ha by lia. rewrite decide_False; [done|]. intros Hin%right_row_below; lia. }
  assert (E : xor_over cur' (rows_above i r) = xor_over cur (rows_above i r)).
  { apply xor_over_ext. intros q Hq. apply list_elem_of_filter in Hq as (_ & Hq%elem_of_seqZ). apply K. lia. }
  unfold rows_above in *. rewrite Z.sub_add, (seqZ_cons i) by lia. replace (Z.pred (n - 1 - (i - 1))) with (n - 1 - i) by lia.
  replace (Z.succ i) with (i + 1) by lia. rewrite Ha by lia. rewrite H by done. destruct (decide (r ∈ right_row i)).
  - rewrite filter_cons_True by done. cbn [xor_over foldr]. fold (xor_over cur' (filter (fun q => r ∈ right_row q) (seqZ (i + 1) (n - 1 - i)))).
    rewrite E, K by lia. rewrite Z.lxor_assoc. f_equal. apply Z.lxor_comm.
  - rewrite filter_cons_False by done. by rewrite E.
Qed.

Lemma right_upper_run fuel y i o0 o1 cur : substituted y i cur -> 0 <= i < n -> i < Z.of_nat fuel ->
  offset_at R_offset_0 i o0 -> offset_at R_offset_1 i o1 ->
  exists i' o0' o1' cur', right_upper c fuel i o0 o1 cur = Some (i', o0', o1', cur') /\ 0 <= i' < n /\
    substituted y i' cur' /\ offset_at R_offset_0 i' o0' /\ offset_at R_offset_1 i' o1'.
Proof using Hc.
  revert i o0 o1 cur. induction fuel as [|fuel IH]; intros i o0 o1 cur Hs Hi Hf H0 H1; [lia|]. cbn [right_upper].
  pose proof n_range. assert (0 < gap <= 32) by (destruct gap_cases; lia).
  assert (Hlb : lower_bound c = 31 + gap) by (apply u32_small; unfold R_offset_0, R_offset_1; lia). rewrite Hlb.
  destruct (Z.ltb_spec (31 + gap) i) as [Hlt|Hge]; [|by exists i, o0, o1, cur]. pose proof (proj1 Hs) as Sc.
  rewrite vget_blk by lia. cbn [mbind option_bind]. destruct (diag_spec i) as (-> & Ho & Hd); [lia|]. cbn [mbind option_bind].
  destruct (xor_row_run (blk cur i) (i - gap) (diag i) cur) as (l1 & -> & A1); [done| |].
  { eapply Forall_impl; [done|]. cbn. lia. }
  cbn [mbind option_bind]. unfold R_offset_0, R_offset_1 in *.
  pose proof (offset_next 5 i o0 H0 ltac:(lia) ltac:(lia) ltac:(lia)) as N0. pose proof (offset_next 31 i o1 H1 ltac:(lia) ltac:(lia) ltac:(lia)) as N1.
  unfold offset_at in H0, H1. replace (0 <=? i - gap - 5) with true in H0 by lia. replace (0 <=? i - gap - 31) with true in H1 by lia.
  destruct (xor_word_run (blk cur i) o0 l1) as (l2 & -> & A2); [destruct A1; lia|]. cbn [mbind option_bind].
  destruct (xor_word_run (blk cur i) o1 l2) as (l3 & -> & A3); [destruct A1, A2; lia|]. cbn [mbind option_bind].
  rewrite u32_small by lia. apply IH; [|lia|lia|done|done].
  apply (substitute_row y i cur); [done|lia|]. apply (adds_right_row _ i cur l1 l2 l3); [lia| | |].
  - eapply adds_perm; [|exact A1]. apply reflexive_eq. symmetry. apply filter_nonneg. apply Forall_fmap. eapply Forall_impl; [done|]. cbn. lia.
  - unfold offset_entry, R_offset_0. rewrite filter_cons_True, filter_nil by lia. by rewrite <- H0.
  - unfold offset_entry, R_offset_1. rewrite filter_cons_True, filter_nil by lia. by rewrite <- H1.
Qed.

Lemma right_lower_run fuel y i o0 o1 cur : substituted y i cur -> -1 <= i < n -> i + 1 < Z.of_nat fuel ->
  offset_at R_offset_0 i o0 -> offset_at R_offset_1 i o1 ->
  exists cur', right_lower c fuel (u32 i) o0 o1 cur = Some cur' /\ substituted y (-1) cur'.
Proof using Hc.
  revert i o0 o1 cur. induction fuel as [|fuel IH]; intros i o0 o1 cur Hs Hi Hf H0 H1; [lia|]. cbn [right_lower].
  pose proof n_range. destruct (Z.eq_dec i (-1)) as [-> | Hne]; [exists cur; split; done|].
  rewrite u32_small by lia. replace (i =? 2 ^ 32 - 1) with false by lia. pose proof (proj1 Hs) as Sc.
  rewrite vget_blk by lia. cbn [mbind option_bind]. destruct (diag_spec i) as (-> & Ho & Hd); [lia|]. cbn [mbind option_bind].
  destruct (xor_row_checked_run (blk cur i) i (rev (diag i)) cur) as (l1 & -> & A1); [by apply ordered_rev| |lia|done|].
  { apply Forall_forall. intros e He. rewrite Forall_forall in Hd. by apply Hd, list_elem_of_In, in_rev, list_elem_of_In. }
  cbn [mbind option_bind]. assert (S1 : vsize l1 = n) by (destruct A1; lia).
  destruct (xor_offset_run (blk cur i) R_offset_0 i o0 l1) as (l2 & o0' & -> & A2 & N0); [done|lia|unfold R_offset_0; lia|done|].
  cbn [mbind option_bind]. assert (S2 : vsize l2 = n) by (destruct A2; lia).
  destruct (xor_offset_run (blk cur i) R_offset_1 i o1 l2) as (l3 & o1' & -> & A3 & N1); [done|lia|unfold R_offset_1; lia|done|].
  cbn [mbind option_bind]. apply IH; [|lia|lia|done|done].
  apply (substitute_row y i cur); [done|lia|]. apply (adds_right_row _ i cur l1 l2 l3); [lia| |done|done].
  eapply adds_perm; [|exact A1]. f_equiv. f_equiv. symmetry. apply Permutation_rev.
Qed.

(** *** The system *)

(** The ones of column [r] of the right matrix. *)
Definition right_column (r : Z) : list Z := r :: filter (fun q => r ∈ right_row q) (seqZ 0 n).

Lemma right_encode_run y : vsize y = n ->
  exists x, RightEncode c y = Val x /\ vsize x = n /\ forall r, 0 <= r < n -> xor_over x (right_column r) = blk y r.
Proof using Hc.
  intros Hy. pose proof n_range. assert (0 < gap <= 32) by (destruct gap_cases; lia). unfold RightEncode.
  rewrite (so_n _ _ _ Hc). replace (n <=? vsize y) with true by lia.
  assert (weight_supported c = true) as -> by (unfold weight_supported; destruct gap_cases; lia).
  cbn [OtStore.enforce mbind res_bind]. unfold right_fuel. rewrite (so_n _ _ _ Hc), u32_small by lia.
  assert (Hoff : forall o, 0 <= o <= 31 -> offset_at o (n - 1) (start_offset c o)).
  { intros o Ho. unfold offset_at, start_offset, u32. rewrite (so_n _ _ _ Hc). destruct (Z.leb_spec 0 (n - 1 - gap - o)).
    - rewrite Z.mod_small; lia.
    - replace (n - gap - 1 - o) with (2 ^ 32 + (n - gap - 1 - o) + (-1) * 2 ^ 32) by lia. rewrite Z_mod_plus_full, Z.mod_small; lia. }
  destruct (right_upper_run (S (Z.to_nat n)) y (n - 1) (start_offset c R_offset_0) (start_offset c R_offset_1) y)
    as (i' & o0 & o1 & l1 & -> & Hi & Hs1 & Hx0 & Hx1); [|lia|lia|by apply Hoff|by apply Hoff|].
  { split; [done|]. intros r Hr. unfold rows_above. replace (n - 1 - (n - 1)) with 0 by lia. cbn. by rewrite Z.lxor_0_r. }
  cbn [mbind option_bind]. destruct (right_lower_run (S (Z.to_nat n)) y i' o0 o1 l1) as (x & E & Sx & Hx); [done|lia|lia|done|done|].
  rewrite u32_small in E by lia. rewrite E. exists x. cbn [access]. split_and!; [done|done|].
  intros r Hr. unfold right_column. cbn [xor_over foldr]. fold (xor_over x (filter (fun q => r ∈ right_row q) (seqZ 0 n))).
  rewrite (Hx r Hr) at 1. unfold rows_above. replace (-1 + 1) with 0 by lia. replace (n - 1 - -1) with n by lia.
  by rewrite Z.lxor_assoc, Z.lxor_nilpotent, Z.lxor_0_r.
Qed.

(** Two systems in one pass. *)
Lemma right_upper2_pair fuel i o0 o1 x y i' o0' o1' x' i2 o02 o12 y' :
  right_upper c fuel i o0 o1 x = Some (i', o0', o1', x') -> right_upper c fuel i o0 o1 y = Some (i2, o02, o12, y') ->
  right_upper2 c fuel i o0 o1 (x, y) = Some (i', o0', o1', (x', y')) /\ i' = i2 /\ o0' = o02 /\ o1' = o12.
Proof using Type.
  revert i o0 o1 x y. induction fuel as [|fuel IH]; intros i o0 o1 x y; [done|]. cbn [right_upper right_upper2].
  destruct (lower_bound c <? i); [|by intros [= <- <- <- <-] [= <- <- <- <-]]. cbn [fst snd].
  destruct (vget x i) as [a|]; [|done]. destruct (vget y i) as [b|]; [|done]. cbn [mbind option_bind].
  destruct (diag_row c i) as [row|]; [|done]. cbn [mbind option_bind]. unfold xor_row2. cbn [fst snd].
  destruct (xor_row a _ row x) as [x1|]; [|done]. destruct (xor_row b _ row y) as [y1|]; [|done]. cbn [mbind option_bind].
  unfold xor_word2. cbn [fst snd].
  destruct (xor_word a o0 x1) as [x2|]; [|done]. destruct (xor_word b o0 y1) as [y2|]; [|done]. cbn [mbind option_bind fst snd].
  destruct (xor_word a o1 x2) as [x3|]; [|done]. destruct (xor_word b o1 y2) as [y3|]; [|done]. cbn [mbind option_bind].
  apply IH.
Qed.

Lemma xor_row_checked2_pair a b i row x y x' y' :
  xor_row_checked c a i row x = Some x' -> xor_row_checked c b i row y = Some y' ->
  xor_row_checked2 c (a, b) i row (x, y) = Some (x', y').
Proof using Type.
  revert x y. induction row as [|e row IH]; intros x y; cbn [xor_row_checked xor_row_checked2]; [by intros [= <-] [= <-]|].
  destruct (n_ c <=? _); [by intros [= <-] [= <-]|]. unfold xor_word2. cbn [fst snd].
  destruct (xor_word a _ x) as [x1|]; [|done]. destruct (xor_word b _ y) as [y1|]; [|done]. apply IH.
Qed.

Lemma xor_offset2_pair a b o x y x' y' o' o2 :
  xor_offset c a o x = Some (x', o') -> xor_offset c b o y = Some (y', o2) ->
  xor_offset2 c (a, b) o (x, y) = Some ((x', y'), o') /\ o' = o2.
Proof using Type.
  unfold xor_offset, xor_offset2, xor_word2. destruct (o <? n_ c); [|by intros [= <- <-] [= <- <-]]. cbn [fst snd].
  destruct (xor_word a o x); [|done]. destruct (xor_word b o y); [|done]. by intros [= <- <-] [= <- <-].
Qed.

Lemma right_lower2_pair fuel i o0 o1 x y x' y' :
  right_lower c fuel i o0 o1 x = Some x' -> right_lower c fuel i o0 o1 y = Some y' ->
  right_lower2 c fuel i o0 o1 (x, y) = Some (x', y').
Proof using Type.
  revert i o0 o1 x y. induction fuel as [|fuel IH]; intros i o0 o1 x y; [done|]. cbn [right_lower right_lower2].
  destruct (i =? _); [by intros [= <-] [= <-]|]. cbn [fst snd].
  destruct (vget x i) as [a|]; [|done]. destruct (vget y i) as [b|]; [|done]. cbn [mbind option_bind].
  destruct (diag_row c i) as [row|]; [|done]. cbn [mbind option_bind].
  destruct (xor_row_checked c a i (rev row) x) as [x1|] eqn:E1; [|done].
  destruct (xor_row_checked c b i (rev row) y) as [y1|] eqn:E2; [|done].
  rewrite (xor_row_checked2_pair _ _ _ _ _ _ _ _ E1 E2). cbn [mbind option_bind].
  destruct (xor_offset c a o0 x1) as [[x2 p0]|] eqn:E3; [|done]. destruct (xor_offset c b o0 y1) as [[y2 q0]|] eqn:E4; [|done].
  destruct (xor_offset2_pair _ _ _ _ _ _ _ _ _ E3 E4) as (-> & <-). cbn [mbind option_bind].
  destruct (xor_offset c a o1 x2) as [[x3 p1]|] eqn:E5; [|done]. destruct (xor_offset c b o1 y2) as [[y3 q1]|] eqn:E6; [|done].
  destruct (xor_offset2_pair _ _ _ _ _ _ _ _ _ E5 E6) as (-> & <-). cbn [mbind option_bind]. apply IH.
Qed.

Lemma right_encode2_pair x y x' y' : RightEncode c x = Val x' -> RightEncode c y = Val y' ->
  RightEncode2 c x y = Val (x', y').
Proof using Type.
  unfold RightEncode, RightEncode2. destruct (n_ c <=? vsize x); [|done]. destruct (n_ c <=? vsize y); [|done].
  destruct (weight_supported c); [|done]. cbn [OtStore.enforce mbind res_bind].
  destruct (right_upper c _ _ _ _ x) as [[[[i o0] o1] x1]|] eqn:E1; [|done].
  destruct (right_upper c _ _ _ _ y) as [[[[i2 o02] o12] y1]|] eqn:E2; [|done].
  destruct (right_upper2_pair _ _ _ _ _ _ _ _ _ _ _ _ _ _ E1 E2) as (-> & <- & <- & <-). cbn [mbind option_bind].
  destruct (right_lower c _ _ _ _ x1) as [x2|] eqn:E3; [|done]. destruct (right_lower c _ _ _ _ y1) as [y2|] eqn:E4; [|done].
  rewrite (right_lower2_pair _ _ _ _ _ _ _ _ E3 E4). by intros [= <-] [= <-].
Qed.

(** The matrix is lower triangular with ones on the diagonal: a solution is unique. *)
Lemma right_unique a b : vsize a = n -> vsize b = n ->
  (forall r, 0 <= r < n -> xor_over a (right_column r) = xor_over b (right_column r)) -> a = b.
Proof using Hc.
  intros Ha Hb H. assert (K : forall k r, 0 <= r -> n - r <= Z.of_nat k -> r < n -> blk a r = blk b r).
  { induction k as [|k IH]; intros r Hr Hk Hrn; [lia|]. pose proof (H r ltac:(lia)) as Hx. unfold right_column in Hx.
    cbn [xor_over foldr] in Hx. fold (xor_over a (filter (fun q => r ∈ right_row q) (seqZ 0 n))) in Hx.
    fold (xor_over b (filter (fun q => r ∈ right_row q) (seqZ 0 n))) in Hx.
    rewrite (xor_over_ext b a) in Hx.
    - apply (f_equal (fun z => Z.lxor z (xor_over a (filter (fun q => r ∈ right_row q) (seqZ 0 n))))) in Hx.
      by rewrite !Z.lxor_assoc, !Z.lxor_nilpotent, !Z.lxor_0_r in Hx.
    - intros q Hq. apply list_elem_of_filter in Hq as (Hin & Hq%elem_of_seqZ). apply right_row_below in Hin; [|lia].
      symmetry. apply IH; lia. }
  apply blk_ext; [lia|]. intros r Hr. apply (K (Z.to_nat n)); lia.
Qed.
End Right.

Import Silver.

(** *** Parts of spans *)

Lemma to_nat_vsize {A} (l : list A) : Z.to_nat (vsize l) = length l.
Proof. unfold vsize. lia. Qed.

Lemma part_middle a b r p l : vsize a = p -> vsize b = l -> part (a ++ b ++ r) p l = b.
Proof. intros <- <-. unfold part. by rewrite !to_nat_vsize, drop_app_length, take_app_length. Qed.

Lemma part_start a r l : vsize a = l -> part (a ++ r) 0 l = a.
Proof. intros <-. unfold part. by rewrite to_nat_vsize, drop_0, take_app_length. Qed.

Lemma write_middle a b b' r p : vsize a = p -> vsize b' = vsize b -> write_part (a ++ b ++ r) p b' = a ++ b' ++ r.
Proof.
  intros <- E. unfold write_part. rewrite E, <- vsize_app, !to_nat_vsize, take_app_length, (assoc_L app a b r), drop_app_length. done.
Qed.

Lemma write_start a a' r : vsize a' = vsize a -> write_part (a ++ r) 0 a' = a' ++ r.
Proof. intros E. unfold write_part. by rewrite E, Z.add_0_l, to_nat_vsize, drop_app_length. Qed.

Lemma split_at_size (l : list Z) n : 0 <= n <= vsize l -> exists a r, l = a ++ r /\ vsize a = n.
Proof.
  intros Hn. exists (take (Z.to_nat n) l), (drop (Z.to_nat n) l). rewrite take_drop. split; [done|].
  unfold vsize in *. rewrite length_take. lia.
Qed.

Section Dual.
Context (c : SilverCode) (n weight : Z).
Hypothesis Hc : silver_ok c n weight.
Local Abbreviation L := (L_one_idx_ c).

(** [z] is [y * R^-1]. *)
Definition solves (z y : list Z) : Prop := vsize z = n /\ forall r, 0 <= r < n -> xor_over z (right_column c n r) = blk y r.

Lemma left_run inp out : vsize inp = n -> vsize out = n -> LeftEncode c inp out = Val (encode_with (left_column n L) inp out).
Proof using Hc.
  intros Hi Ho. pose proof Hc as [En Em Ew Eg Es Er El Ek]. pose proof (left_encode_run c) as R. rewrite !En in R.
  rewrite R; try done; try lia.
  - by rewrite <- Ho, encode_all.
  - unfold weight_supported. lia.
Qed.

Lemma left2_run in0 out0 in1 out1 : vsize in0 = n -> vsize out0 = n -> vsize in1 = n -> vsize out1 = n ->
  LeftEncode2 c in0 out0 in1 out1 = Val (encode_with (left_column n L) in0 out0, encode_with (left_column n L) in1 out1).
Proof using Hc.
  intros H0 O0 H1 O1. pose proof Hc as [En Em Ew Eg Es Er El Ek]. pose proof (left_encode2_run c) as R. rewrite !En in R.
  rewrite R; try done; try lia.
  - f_equal. f_equal; [by rewrite <- O0, encode_all|by rewrite <- O1, encode_all].
  - unfold weight_supported. lia.
Qed.

Lemma n_nonneg : 0 <= n.
Proof using Hc. pose proof (n_range c n weight Hc). lia. Qed.

Lemma dual_encode_inplace_run x y r : vsize x = n -> vsize y = n ->
  exists z, solves z y /\ RightEncode c y = Val z /\
    DualEncodeInplace c (x ++ y ++ r) = Val (encode_with (left_column n L) z x ++ z ++ r).
Proof using Hc.
  intros Hx Hy. pose proof n_nonneg. destruct (right_encode_run c n weight Hc y Hy) as (z & E & Sz & Hz). exists z.
  split; [done|]. split; [done|]. unfold DualEncodeInplace. rewrite (so_n _ _ _ Hc), (so_m _ _ _ Hc), !vsize_app.
  pose proof (vsize_nonneg r). replace (2 * n <=? vsize x + (vsize y + vsize r)) with true by lia. cbn [OtStore.enforce mbind res_bind].
  rewrite part_middle, E by done. cbn [mbind res_bind]. rewrite write_middle, part_middle, part_start by (done || lia).
  rewrite left_run by done. cbn [mbind res_bind]. by rewrite write_start by (rewrite vsize_encode_with; lia).
Qed.

Lemma silver_encode_run x y r o o' z : vsize x = n -> vsize y = n -> vsize o = n -> RightEncode c y = Val z -> vsize z = n ->
  DualEncode c (x ++ y ++ r) (o ++ o') = Val (encode_with (left_column n L) z x ++ o').
Proof using Hc.
  intros Hx Hy Ho E Sz. pose proof n_nonneg. unfold DualEncode. rewrite (so_n _ _ _ Hc), (so_m _ _ _ Hc), !vsize_app.
  pose proof (vsize_nonneg r). pose proof (vsize_nonneg o').
  replace (2 * n <=? vsize x + (vsize y + vsize r)) with true by lia. replace (n <=? vsize o + vsize o') with true by lia.
  cbn [OtStore.enforce mbind res_bind]. replace (2 * n - n) with n by lia.
  rewrite (part_middle x y r n n), E by done. cbn [mbind res_bind].
  rewrite (part_start x), write_start, part_start by (done || lia). rewrite left_run by done. cbn [mbind res_bind].
  by rewrite write_start by (rewrite vsize_encode_with; lia).
Qed.

Lemma silver_encode2_run x0 y0 r0 o0 p0 z0 x1 y1 r1 o1 p1 z1 :
  vsize x0 = n -> vsize y0 = n -> vsize o0 = n -> RightEncode c y0 = Val z0 -> vsize z0 = n ->
  vsize x1 = n -> vsize y1 = n -> vsize o1 = n -> RightEncode c y1 = Val z1 -> vsize z1 = n ->
  DualEncode2 c (x0 ++ y0 ++ r0) (o0 ++ p0) (x1 ++ y1 ++ r1) (o1 ++ p1) =
    Val (encode_with (left_column n L) z0 x0 ++ p0, encode_with (left_column n L) z1 x1 ++ p1) /\
  DualEncodeInplace2 c (x0 ++ y0 ++ r0) (x1 ++ y1 ++ r1) =
    Val (encode_with (left_column n L) z0 x0 ++ z0 ++ r0, encode_with (left_column n L) z1 x1 ++ z1 ++ r1).
Proof using Hc.
  intros Hx0 Hy0 Ho0 E0 Sz0 Hx1 Hy1 Ho1 E1 Sz1. pose proof n_nonneg. unfold DualEncode2, DualEncodeInplace2.
  rewrite (so_n _ _ _ Hc), (so_m _ _ _ Hc), !vsize_app.
  pose proof (vsize_nonneg r0). pose proof (vsize_nonneg p0). pose proof (vsize_nonneg r1). pose proof (vsize_nonneg p1).
  replace (2 * n <=? vsize x0 + (vsize y0 + vsize r0)) with true by lia. replace (n <=? vsize o0 + vsize p0) with true by lia.
  replace (2 * n <=? vsize x1 + (vsize y1 + vsize r1)) with true by lia. replace (n <=? vsize o1 + vsize p1) with true by lia.
  cbn [OtStore.enforce mbind res_bind]. replace (2 * n - n) with n by lia.
  rewrite !(part_middle _ _ _ n n), (right_encode2_pair c y0 y1 z0 z1) by done. cbn [mbind res_bind]. split.
  - rewrite (part_start x0), (part_start x1), !write_start, !part_start by (done || lia). rewrite left2_run by done.
    cbn [mbind res_bind]. by rewrite !write_start by (rewrite vsize_encode_with; lia).
  - rewrite !write_middle, !(part_middle _ _ _ n n), !part_start by (done || lia). rewrite left2_run by done.
    cbn [mbind res_bind]. by rewrite !write_start by (rewrite vsize_encode_with; lia).
Qed.

(** The vector [u] times the left and the right matrix: a combination of the rows
    of the parity check matrix. *)
Definition times (col : Z -> list Z) (u : list Z) : list Z := encode_with col u (replicate (Z.to_nat n) 0).

Lemma blk_times col u r : 0 <= r < n -> blk (times col u) r = xor_over u (col r).
Proof using Type.
  intros Hr. unfold times. rewrite blk_encode_with by (rewrite vsize_replicate; lia).
  rewrite blk_replicate by lia. apply Z.lxor_0_l.
Qed.

Lemma times_vanish z u : vsize u = n -> solves z (times (right_column c n) u) ->
  encode_with (left_column n L) z (times (left_column n L) u) = replicate (Z.to_nat n) 0.
Proof using Hc.
  intros Hu (Sz & Hz). assert (z = u) as ->.
  { apply (right_unique c n weight Hc); [done|done|]. intros r Hr. by rewrite Hz, blk_times. }
  assert (Sr : vsize (times (left_column n L) u) = n).
  { unfold times. rewrite vsize_encode_with, vsize_replicate. pose proof n_nonneg. lia. }
  symmetry. apply encode_with_intro; [rewrite Sr, vsize_replicate; pose proof n_nonneg; lia|].
  intros r Hr. rewrite Sr in Hr. by rewrite blk_times, Z.lxor_nilpotent, blk_replicate by lia.
Qed.
End Dual.

(** C24: the constructor of the Silver code returns with distinct positions in
    order. [DualEncode] of [x] and [y] is [x + z * L], where [L] is the circulant
    matrix of these positions and [z] the only solution of [z * R = y] for the lower
    triangular matrix [R]; the version in place leaves [z] as well, and the versions
    for two inputs do the same on both, without an access out of range. So the
    encoding of every combination of the rows of the parity check matrix [L R]
    is 0. *)
Theorem silver_dual_encode (n weight : Z) (Hw : weight = 5 \/ weight = 11) (Hn : weight <= n < 2 ^ 31) :
  exists c, new_SilverCode n weight = Val c /\ positions n (L_one_idx_ c) /\ vsize (L_one_idx_ c) = weight /\
  (forall x0 y0 r0 o0 p0 x1 y1 r1 o1 p1,
     vsize x0 = n -> vsize y0 = n -> vsize o0 = n -> vsize x1 = n -> vsize y1 = n -> vsize o1 = n ->
     exists z0 z1, solves c n z0 y0 /\ (forall z, solves c n z y0 -> z = z0) /\ solves c n z1 y1 /\
       let out0 := encode_with (left_column n (L_one_idx_ c)) z0 x0 in
       let out1 := encode_with (left_column n (L_one_idx_ c)) z1 x1 in
       DualEncode c (x0 ++ y0 ++ r0) (o0 ++ p0) = Val (out0 ++ p0) /\
       DualEncodeInplace c (x0 ++ y0 ++ r0) = Val (out0 ++ z0 ++ r0) /\
       DualEncode2 c (x0 ++ y0 ++ r0) (o0 ++ p0) (x1 ++ y1 ++ r1) (o1 ++ p1) = Val (out0 ++ p0, out1 ++ p1) /\
       DualEncodeInplace2 c (x0 ++ y0 ++ r0) (x1 ++ y1 ++ r1) = Val (out0 ++ z0 ++ r0, out1 ++ z1 ++ r1)) /\
  (forall u o, vsize u = n -> vsize o = n ->
     DualEncode c (times n (left_column n (L_one_idx_ c)) u ++ times n (right_column c n) u) o = Val (replicate (Z.to_nat n) 0)).
Proof.
  destruct (new_silver_run n weight Hw Hn) as (c & E & Hc). exists c. split; [done|].
  split; [by destruct Hc|]. split; [by destruct Hc|]. split.
  - intros x0 y0 r0 o0 p0 x1 y1 r1 o1 p1 Hx0 Hy0 Ho0 Hx1 Hy1 Ho1.
    destruct (dual_encode_inplace_run c n weight Hc x0 y0 r0 Hx0 Hy0) as (z0 & S0 & R0 & I0).
    destruct (dual_encode_inplace_run c n weight Hc x1 y1 r1 Hx1 Hy1) as (z1 & S1 & R1 & _).
    destruct (silver_encode2_run c n weight Hc x0 y0 r0 o0 p0 z0 x1 y1 r1 o1 p1 z1) as (D & I); try done; try apply S0; try apply S1.
    exists z0, z1. split; [done|]. split.
    { intros z (Sz & Hz). apply (right_unique c n weight Hc); [done|apply S0|]. intros r Hr. rewrite Hz by done. symmetry. by apply S0. }
    split; [done|]. split; [|done]. apply (silver_encode_run c n weight Hc); try done. apply S0.
  - intros u o Hu Ho. assert (Ht : forall col, vsize (times n col u) = n).
    { intros col. unfold times. rewrite vsize_encode_with, vsize_replicate. lia. }
    destruct (dual_encode_inplace_run c n weight Hc (times n (left_column n (L_one_idx_ c)) u) (times n (right_column c n) u) [])
      as (z & S & R & _); [apply Ht..|].
    rewrite <- (app_nil_r (times n (right_column c n) u)), <- (app_nil_r o).
    rewrite (silver_encode_run c n weight Hc _ _ _ _ _ z), app_nil_r by (done || apply Ht || apply S).
    f_equal. by apply (times_vanish c n weight Hc).
Qed.

(** The smallest code, on one combination of its rows. *)
Lemma silver_dual_encode_witness :
  exists c, new_SilverCode 5 5 = Val c /\
  DualEncode c (times 5 (left_column 5 (L_one_idx_ c)) [1; 2; 4; 8; 16] ++ times 5 (right_column c 5) [1; 2; 4; 8; 16])
    [7; 7; 7; 7; 7] = Val [0; 0; 0; 0; 0].
Proof.
  destruct (silver_dual_encode 5 5) as (c & E & _ & _ & _ & H); [by left|lia|].
  exists c. split; [done|]. by apply (H [1; 2; 4; 8; 16] [7; 7; 7; 7; 7]).
Defined.

(** The constants are the binary numbers nearest to the decimal literals. *)
Definition nearest (r : double) (num den : Z) : bool := Z.abs (mant r * den - num * 2 ^ frac r) * 2 <=? den.

Example left_constants :
  forallb (fun p => nearest (fst p) (snd p) 1000000)
    (zip Left_R5 [0; 372071; 576568; 608917; 854475]) = true /\
  forallb (fun p => nearest (fst p) (snd p) 100000000)
    (zip Left_R11 [0; 278835; 8838520; 23802300; 24053200; 27462400; 39063900; 53155100; 63761900; 94526500; 96587400]) = true.
Proof. split; reflexivity. Qed.
