(* ===== verification/Transpose.v ===== *)
(** Transposition of bit matrices (src/yacl/utils/matrix_utils.h, matrix_utils.cc, and
    the vector operations of src/yacl/base/block.h): 128 words of 128 bits, by the
    definition, by Eklundh's exchanges, with byte masks of SSE2 and with the 256-bit
    lanes of AVX2, and the matrices of 128 rows of eight words.

    Arrays are lists; an index out of range and a shift by the width or more are
    undefined ([None]). The arrays [a] and [b] of the SSE2 code start uninitialised:
    they are arguments. *)

From Stdlib Require Import ZArith Lia ZifyBool Bool.
From stdpp Require Import base numbers list option.
From S2P Require Import Prelude OtStore CrHash LinearCode.

Local Open Scope Z_scope.

(** *** By the definition *)

Definition GetBit (i pos : Z) : option Z :=
  assert! (0 <=? pos) && (pos <? 128); Some (Z.land (Z.shiftr i pos) 1).

(** The column [i] of [m] as a word. *)
Definition naive_word (m : list Z) (i : Z) : option Z :=
  for_up 128 0 (fun j t => x ← vget m j; b ← GetBit x i; Some (Z.lor t (u128 (Z.shiftl b j)))) 0.

Definition NaiveTranspose (N : Z) (inout : list Z) : option (list Z) :=
  let m := inout in
  for_up (Z.to_nat (128 * N)) 0 (fun i out => t ← naive_word m i; vset out i t) inout.

(** *** Eklundh's method *)

Definition trans_mask : list Z :=
  [MakeUint128 0x0000000000000000 0xffffffffffffffff;
   MakeUint128 0x00000000ffffffff 0x00000000ffffffff;
   MakeUint128 0x0000ffff0000ffff 0x0000ffff0000ffff;
   MakeUint128 0x00ff00ff00ff00ff 0x00ff00ff00ff00ff;
   MakeUint128 0x0f0f0f0f0f0f0f0f 0x0f0f0f0f0f0f0f0f;
   MakeUint128 0x3333333333333333 0x3333333333333333;
   MakeUint128 0x5555555555555555 0x5555555555555555].

Definition trans_mask_inv : list Z :=
  [MakeUint128 0xffffffffffffffff 0x0000000000000000;
   MakeUint128 0xffffffff00000000 0xffffffff00000000;
   MakeUint128 0xffff0000ffff0000 0xffff0000ffff0000;
   MakeUint128 0xff00ff00ff00ff00 0xff00ff00ff00ff00;
   MakeUint128 0xf0f0f0f0f0f0f0f0 0xf0f0f0f0f0f0f0f0;
   MakeUint128 0xcccccccccccccccc 0xcccccccccccccccc;
   MakeUint128 0xaaaaaaaaaaaaaaaa 0xaaaaaaaaaaaaaaaa].

(** The body of the innermost loop. *)
Definition eklundh_swap (mask inv_mask width i1 i2 : Z) (m : list Z) : option (list Z) :=
  t ← vget m i1;
  tt ← vget m i2;
  m1 ← vset m i1 (Z.lxor (Z.land t mask) (u128 (Z.shiftl (Z.land tt mask) width)));
  vset m1 i2 (Z.lxor (Z.land tt inv_mask) (Z.shiftr (Z.land t inv_mask) width)).

(** Round [i]. *)
Definition eklundh_round (i width nswaps : Z) (m : list Z) : option (list Z) :=
  mask ← vget trans_mask i;
  inv_mask ← vget trans_mask_inv i;
  for_up (Z.to_nat nswaps) 0 (fun j m =>
    for_up (Z.to_nat width) 0 (fun k m =>
      eklundh_swap mask inv_mask width (k + 2 * width * j) (k + width + 2 * width * j) m) m) m.

Definition EklundhTranspose128 (inout : list Z) : option (list Z) :=
  '(m, _, _) ← for_up 7 0 (fun i '(m, width, nswaps) =>
     m' ← eklundh_round i width nswaps m;
     Some (m', width / 2, nswaps * 2)) (inout, 64, 1);
  Some m.

(** Column [i] of a matrix of 128 rows of eight words, taken out and put back. *)
Definition take_column (m : list (list Z)) (i : Z) (sub : list Z) : option (list Z) :=
  for_up 128 0 (fun j sub => row ← vget m j; x ← vget row i; vset sub j x) sub.

Definition put_column (i : Z) (sub : list Z) (m : list (list Z)) : option (list (list Z)) :=
  for_up 128 0 (fun j m => row ← vget m j; x ← vget sub j; row' ← vset row i x; vset m j row') m.

(** The array [sub] starts uninitialised in each round. *)
Definition EklundhTranspose128x1024 (fresh : list Z) (inout : list (list Z)) : option (list (list Z)) :=
  for_up 8 0 (fun i m =>
    sub ← take_column m i fresh;
    sub' ← EklundhTranspose128 sub;
    put_column i sub' m) inout.

(** *** SSE2 *)

(** The views of a word as sixteen bytes and as eight 16-bit words. *)
Definition byte_at (w l : Z) : option Z :=
  assert! (0 <=? l) && (l <? 16); Some (Z.land (Z.shiftr w (8 * l)) 0xff).
Definition put_byte (w l x : Z) : option Z :=
  assert! (0 <=? l) && (l <? 16); Some (Z.lor (Z.ldiff w (Z.shiftl 0xff (8 * l))) (Z.shiftl x (8 * l))).
Definition put_u16 (w l x : Z) : option Z :=
  assert! (0 <=? l) && (l <? 8); Some (Z.lor (Z.ldiff w (Z.shiftl 0xffff (16 * l))) (Z.shiftl x (16 * l))).

(** The lanes of [w] bits of a word, and an instruction that works on each. *)
Definition lane (w x i : Z) : Z := Z.shiftr x (w * i) mod 2 ^ w.
Definition map_lanes (w : Z) (f : Z -> Z) (x : Z) : Z :=
  foldr (fun i acc => Z.lor (Z.shiftl (f (lane w x i)) (w * i)) acc) 0 (seqZ 0 (128 / w)).

Definition mm_slli_epi64 (x n : Z) : Z := map_lanes 64 (fun v => Z.shiftl v n mod 2 ^ 64) x.
Definition mm_srli_epi64 (x n : Z) : Z := map_lanes 64 (fun v => Z.shiftr v n) x.
Definition mm_slli_epi16 (x n : Z) : Z := map_lanes 16 (fun v => Z.shiftl v n mod 2 ^ 16) x.
Definition mm_srli_epi16 (x n : Z) : Z := map_lanes 16 (fun v => Z.shiftr v n) x.

(** The top bits of the bytes. *)
Definition movemask_epi8 (x : Z) : Z :=
  foldr (fun l acc => Z.lor (Z.shiftl (Z.b2z (Z.testbit x (8 * l + 7))) l) acc) 0 (seqZ 0 16).

Definition sse_loadSubSquare (m : list Z) (out : Z * Z) (x y : Z) : option (Z * Z) :=
  for_up 16 0 (fun l out =>
    w ← vget m (16 * x + l);
    b0 ← byte_at w (2 * y);
    b1 ← byte_at w (2 * y + 1);
    o0 ← put_byte out.1 l b0;
    o1 ← put_byte out.2 l b1;
    Some (o0, o1)) out.

(** [outU16View[row][y] = v]. *)
Definition store_u16 (out : list Z) (row y v : Z) : option (list Z) :=
  w ← vget out row; w' ← put_u16 w y v; vset out row w'.

(** The array [in] is shifted in place. *)
Definition sse_transposeSubSquare (out : list Z) (a : Z * Z) (x y : Z) : option (list Z * (Z * Z)) :=
  for_up 8 0 (fun j '(out, a) =>
    out1 ← store_u16 out (16 * x + 7 - j) y (movemask_epi8 a.1);
    out2 ← store_u16 out1 (16 * x + 15 - j) y (movemask_epi8 a.2);
    Some (out2, (mm_slli_epi64 a.1 1, mm_slli_epi64 a.2 1))) (out, a).

(** The squares [(k, j)] and [(j, k)]. *)
Definition sse_swap (j k : Z) (s : list Z * (Z * Z) * (Z * Z)) : option (list Z * (Z * Z) * (Z * Z)) :=
  let '(mtx, a, b) := s in
  a1 ← sse_loadSubSquare mtx a k j;
  b1 ← sse_loadSubSquare mtx b j k;
  '(mtx1, a2) ← sse_transposeSubSquare mtx a1 j k;
  '(mtx2, b2) ← sse_transposeSubSquare mtx1 b1 k j;
  Some (mtx2, a2, b2).

Definition SseTranspose128 (a b : Z * Z) (inout : list Z) : option (list Z) :=
  '(mtx, _, _) ← for_up 8 0 (fun j '(mtx, a, b) =>
     a1 ← sse_loadSubSquare mtx a j j;
     '(mtx1, a2) ← sse_transposeSubSquare mtx a1 j j;
     for_up (Z.to_nat j) 0 (sse_swap j) (mtx1, a2, b)) (inout, a, b);
  Some mtx.

(** Rows of eight words as 128 bytes and as 64 words of 16 bits. *)
Definition row_byte (row : list Z) (l : Z) : option Z := w ← vget row (l / 16); byte_at w (l mod 16).
Definition row_put_u16 (row : list Z) (l v : Z) : option (list Z) :=
  w ← vget row (l / 8); w' ← put_u16 w (l mod 8) v; vset row (l / 8) w'.
Definition store_row_u16 (out : list (list Z)) (i l v : Z) : option (list (list Z)) :=
  row ← vget out i; row' ← row_put_u16 row l v; vset out i row'.

(** The code writes the sixteen pairs of assignments out. *)
Definition SseLoadSubSquarex (m : list (list Z)) (out : Z * Z) (x y i : Z) : option (Z * Z) :=
  let x16 := x * 16 in
  let i16y2 := i * 16 + 2 * y in
  let i16y21 := i * 16 + 2 * y + 1 in
  for_up 16 0 (fun l out =>
    row ← vget m (x16 + l);
    b0 ← row_byte row i16y2;
    o0 ← put_byte out.1 l b0;
    b1 ← row_byte row i16y21;
    o1 ← put_byte out.2 l b1;
    Some (o0, o1)) out.

(** And the eight shifts of each half, which come before the stores. *)
Definition SseTransposeSubSquarex (out : list (list Z)) (a : Z * Z) (x y i : Z) : option (list (list Z)) :=
  let i8y := i * 8 + y in
  let x16_7 := x * 16 + 7 in
  let x16_15 := x * 16 + 15 in
  out1 ← for_up 8 0 (fun j out => store_row_u16 out (x16_7 - j) i8y (movemask_epi8 (mm_slli_epi64 a.1 j))) out;
  for_up 8 0 (fun j out => store_row_u16 out (x16_15 - j) i8y (movemask_epi8 (mm_slli_epi64 a.2 j))) out1.

Definition sse_swapx (i j k : Z) (s : list (list Z) * (Z * Z) * (Z * Z)) : option (list (list Z) * (Z * Z) * (Z * Z)) :=
  let '(m, a, b) := s in
  a1 ← SseLoadSubSquarex m a k j i;
  b1 ← SseLoadSubSquarex m b j k i;
  m1 ← SseTransposeSubSquarex m a1 j k i;
  m2 ← SseTransposeSubSquarex m1 b1 k j i;
  Some (m2, a1, b1).

Definition SseTranspose128x1024 (a b : Z * Z) (inout : list (list Z)) : option (list (list Z)) :=
  '(m, _, _) ← for_up 8 0 (fun i s =>
     for_up 8 0 (fun j '(m, a, b) =>
       a1 ← SseLoadSubSquarex m a j j i;
       m1 ← SseTransposeSubSquarex m a1 j j i;
       for_up (Z.to_nat j) 0 (sse_swapx i j) (m1, a1, b)) s) (inout, a, b);
  Some m.

(** *** AVX2 *)

(** A 256-bit vector is its low and its high 128-bit lane; the array holds vector
    [k] in the words [2 k] and [2 k + 1]. *)
Definition m256 : Type := Z * Z.

Definition load256 (m : list Z) (k : Z) : option m256 :=
  lo ← vget m (2 * k); hi ← vget m (2 * k + 1); Some (lo, hi).
Definition store256 (m : list Z) (k : Z) (v : m256) : option (list Z) :=
  m1 ← vset m (2 * k) v.1; vset m1 (2 * k + 1) v.2.

Definition mm256_xor_si256 (x y : m256) : m256 := (Z.lxor x.1 y.1, Z.lxor x.2 y.2).
Definition mm256_and_si256 (x y : m256) : m256 := (Z.land x.1 y.1, Z.land x.2 y.2).
Definition mm256_slli_epi64 (x : m256) (n : Z) : m256 := (mm_slli_epi64 x.1 n, mm_slli_epi64 x.2 n).
Definition mm256_srli_epi64 (x : m256) (n : Z) : m256 := (mm_srli_epi64 x.1 n, mm_srli_epi64 x.2 n).
Definition mm256_slli_epi16 (x : m256) (n : Z) : m256 := (mm_slli_epi16 x.1 n, mm_slli_epi16 x.2 n).
Definition mm256_srli_epi16 (x : m256) (n : Z) : m256 := (mm_srli_epi16 x.1 n, mm_srli_epi16 x.2 n).
Definition mm256_set1_epi64x (v : Z) : m256 := (map_lanes 64 (fun _ => v) 0, map_lanes 64 (fun _ => v) 0).
Definition mm256_set1_epi16 (v : Z) : m256 := (map_lanes 16 (fun _ => v) 0, map_lanes 16 (fun _ => v) 0).
(** The low lanes of two vectors (control [0x20]), and the high ones ([0x31]). *)
Definition mm256_permute2x128_20 (x y : m256) : m256 := (x.1, y.1).
Definition mm256_permute2x128_31 (x y : m256) : m256 := (x.2, y.2).
Definition mm256_unpacklo_epi64 (x y : m256) : m256 := (mm_unpacklo_epi64 x.1 y.1, mm_unpacklo_epi64 x.2 y.2).
Definition mm256_unpackhi_epi64 (x y : m256) : m256 := (mm_unpackhi_epi64 x.1 y.1, mm_unpackhi_epi64 x.2 y.2).

(** The mask of alternating runs of [2 ^ blockSizeShift] zeros and ones. *)
Definition avx_mask (blockSizeShift : Z) : Z :=
  foldl (fun mask k => Z.lxor mask (Z.shiftr mask (Z.shiftl 1 k))) (u64 (Z.shiftl (2 ^ 64 - 1) 32))
    (reverse (seqZ blockSizeShift (5 - blockSizeShift))).

(** The rows of two by two blocks in two vectors. *)
Definition avx_exchange_pairs (x y : m256) : m256 * m256 :=
  let u := mm256_permute2x128_20 x y in
  let v := mm256_permute2x128_31 x y in
  let diff := mm256_xor_si256 u (mm256_slli_epi16 v 1) in
  let diff := mm256_and_si256 diff (mm256_set1_epi16 0xaaaa) in
  let u := mm256_xor_si256 u diff in
  let v := mm256_xor_si256 v (mm256_srli_epi16 diff 1) in
  (mm256_permute2x128_20 u v, mm256_permute2x128_31 u v).

Definition avx_exchange_lanes (blockSizeShift : Z) (x y : m256) : m256 * m256 :=
  let w := Z.shiftl 1 blockSizeShift in
  let diff := mm256_xor_si256 x (mm256_slli_epi64 y w) in
  let diff := mm256_and_si256 diff (mm256_set1_epi64x (avx_mask blockSizeShift)) in
  (mm256_xor_si256 x diff, mm256_xor_si256 y (mm256_srli_epi64 diff w)).

Definition avx_exchange_halves (x y : m256) : m256 * m256 := (mm256_unpacklo_epi64 x y, mm256_unpackhi_epi64 x y).

(** What one instance of [avx_transpose_block_iter1] does to the vectors [xi] and [yi]. *)
Definition avx_exchange (blockSizeShift xi yi : Z) (m : list Z) : option (list Z) :=
  x ← load256 m xi;
  y ← load256 m yi;
  let '(x1, y1) := if blockSizeShift =? 1 then avx_exchange_pairs x y else (x, y) in
  let '(x2, y2) := if blockSizeShift =? 6 then avx_exchange_halves x1 y1 else avx_exchange_lanes blockSizeShift x1 y1 in
  m1 ← store256 m xi x2;
  store256 m1 yi y2.

(** The templates only unroll loops: their instances are the calls of recursive
    functions, each with as much fuel as it has instances. The exchange of two
    vectors is a parameter [exchange], so that the exchanges can be listed; a pointer
    into the array is the number [o] of vectors before it. *)
Section Avx.
Context {St : Type} (exchange : Z -> Z -> Z -> St -> option St).

Fixpoint avx_transpose_block_iter1 (fuel : nat) (blockSizeShift blockRowsShift j o : Z) (m : St) : option St :=
  match fuel with
  | O => None
  | S fuel =>
      if j =? Z.shiftl 1 blockSizeShift then Some m
      else
        assert! j <? Z.shiftl 1 blockSizeShift;
        m1 ← avx_transpose_block_iter1 fuel blockSizeShift blockRowsShift (j + Z.shiftl 1 blockRowsShift) o m;
        exchange blockSizeShift (o + j / 2) (o + j / 2 + Z.shiftl 1 (blockSizeShift - 1)) m1
  end.

Fixpoint avx_transpose_block_iter2 (fuel : nat) (blockSizeShift blockRowsShift nRows o : Z) (m : St) : option St :=
  match fuel with
  | O => None
  | S fuel =>
      if nRows =? 0 then Some m
      else
        let matSize := Z.shiftl 1 (blockSizeShift + 1) in
        assert! nRows mod matSize =? 0;
        let i := nRows - matSize in
        m1 ← avx_transpose_block_iter2 fuel blockSizeShift blockRowsShift i o m;
        avx_transpose_block_iter1 65 blockSizeShift blockRowsShift 0 (o + i / 2) m1
  end.

Fixpoint avx_transpose_block (fuel : nat) (blockSizeShift matSizeShift blockRowsShift matRowsShift o : Z) (m : St) : option St :=
  match fuel with
  | O => None
  | S fuel =>
      if blockSizeShift =? matSizeShift then Some m
      else
        assert! blockSizeShift <? matSizeShift;
        m1 ← avx_transpose_block_iter2 65 blockSizeShift blockRowsShift (Z.shiftl 1 (matRowsShift + matSizeShift)) o m;
        avx_transpose_block fuel (blockSizeShift + 1) matSizeShift blockRowsShift matRowsShift o m1
  end.

Definition avxBlockShift : Z := 4.
Definition avxBlockSize : Z := Z.shiftl 1 avxBlockShift.

(** [for (i = 0; i < 64; i = next i)]. *)
Fixpoint avx_for (fuel : nat) (next : Z -> Z) (f : Z -> St -> option St) (i : Z) (m : St) : option St :=
  match fuel with
  | O => None
  | S fuel => if i <? 64 then m1 ← f i m; avx_for fuel next f (next i) m1 else Some m
  end.

Fixpoint avx_transpose (fuel : nat) (iter : Z) (m : St) : option St :=
  match fuel with
  | O => None
  | S fuel =>
      if iter <=? avxBlockShift + 1
      then avx_for 65 (fun i => i + avxBlockSize)
             (fun i m => avx_transpose_block 8 1 iter 1 (avxBlockShift + 1 - iter) i m) 0 m
      else
        m1 ← avx_transpose fuel (iter - avxBlockShift) m;
        let blockSizeShift := iter - avxBlockShift in
        let mask := Z.shiftl 1 (iter - 1) - Z.shiftl 1 (blockSizeShift - 1) in
        if iter =? 7
        then for_up (Z.to_nat (Z.shiftl 1 (blockSizeShift - 1))) 0
               (fun i m => avx_transpose_block 8 blockSizeShift iter blockSizeShift 0 i m) m1
        else avx_for 65 (fun i => Z.ldiff (i + mask + 1) mask)
               (fun i m => avx_transpose_block 8 blockSizeShift iter blockSizeShift 0 i m) 0 m1
  end.
End Avx.

Definition AvxTranspose128 (inOut : list Z) : option (list Z) := avx_transpose avx_exchange 3 7 inOut.

(** *** The choice between them *)

(** How the library was built, and what the processor offers. *)
Record cpu := mk_cpu { YACL_ENABLE_BMI2 : bool; kCPUSupportsSSE2 : bool }.

Definition MatrixTranspose128 (p : cpu) (a b : Z * Z) (inout : list Z) : option (list Z) :=
  if YACL_ENABLE_BMI2 p then AvxTranspose128 inout
  else if kCPUSupportsSSE2 p then SseTranspose128 a b inout
  else EklundhTranspose128 inout.

Definition MatrixTranspose128x1024 (p : cpu) (a b : Z * Z) (fresh : list Z) (inout : list (list Z)) : option (list (list Z)) :=
  if kCPUSupportsSSE2 p then SseTranspose128x1024 a b inout
  else EklundhTranspose128x1024 fresh inout.
