(* ===== verification/TransposeFacts.v ===== *)
(** Bit matrices as functions of row and column: a routine that moves bits is
    described by the position every bit comes from, and routines compose. Eklundh's
    exchanges; then the transposition with 256-bit vectors: instructions on lanes, the
    exchange of a bit of the indexes between two vectors, and the recursion. *)

From Stdlib Require Import ZArith Lia ZifyBool Bool.
From stdpp Require Import base numbers list option sets.
From S2P Require Import Prelude OtStore CrHash LinearCode Transpose.

Local Open Scope Z_scope.

(** *** Matrices *)

(** Bit [c] of row [r]. *)
Definition mbit (m : list Z) (r c : Z) : bool := Z.testbit (blk m r) c.

Record matrix (m : list Z) : Prop := {
  matrix_rows : vsize m = 128;
  matrix_word r : 0 <= r < 128 -> 0 <= blk m r < 2 ^ 128
}.

Definition inside (p : Z * Z) : Prop := 0 <= p.1 < 128 /\ 0 <= p.2 < 128.

(** The bit of [m'] at a position is the bit of [m] at the position [f] gives. *)
Record moved (f : Z * Z -> Z * Z) (m m' : list Z) : Prop := {
  moved_matrix : matrix m';
  moved_inside p : inside p -> inside (f p);
  moved_bit p : inside p -> mbit m' p.1 p.2 = mbit m (f p).1 (f p).2
}.

Definition flipped (p : Z * Z) : Z * Z := (p.2, p.1).

Lemma matrix_ext m m' : matrix m -> matrix m' ->
  (forall r c, 0 <= r < 128 -> 0 <= c < 128 -> mbit m r c = mbit m' r c) -> m = m'.
Proof.
  intros [L W] [L' W'] H. apply blk_ext; [lia|]. intros i Hi.
  apply (bits_eq 128); [apply W; lia|apply W'; lia|]. intros j Hj. apply H; lia.
Qed.

Lemma moved_unique f m m1 m2 : moved f m m1 -> moved f m m2 -> m1 = m2.
Proof.
  intros [M1 _ B1] [M2 _ B2]. apply matrix_ext; [done|done|]. intros r c Hr Hc.
  assert (I : inside (r, c)) by done. pose proof (B1 _ I) as E1. pose proof (B2 _ I) as E2. cbn in E1, E2. congruence.
Qed.

Lemma moved_id m : matrix m -> moved id m m.
Proof. by split. Qed.

Lemma moved_ext f g m m' : (forall p, inside p -> f p = g p) -> moved f m m' -> moved g m m'.
Proof. intros E [M I B]. split; [done|..]; intros p Hp; rewrite <- (E p Hp); auto. Qed.

Lemma moved_trans f g m m1 m2 : moved f m m1 -> moved g m1 m2 -> moved (fun p => f (g p)) m m2.
Proof.
  intros [_ I1 B1] [M2 I2 B2]. split; [done|auto|]. intros p Hp. rewrite (B2 p Hp). by apply B1, I2.
Qed.

(** *** Loops that touch rows *)

(** Positions in some rows move by [f]. *)
Definition on_rows (f : Z * Z -> Z * Z) (rows : list Z) (p : Z * Z) : Z * Z :=
  if bool_decide (p.1 ∈ rows) then f p else p.

(** The record of a loop that moves the bits of each row at most once. *)
Definition touch (rows done : list Z) : option (list Z) :=
  assert! bool_decide (NoDup (done ++ rows)); Some (done ++ rows).

Definition stays (f : Z * Z -> Z * Z) (rows : list Z) : Prop :=
  forall p, inside p -> p.1 ∈ rows -> (f p).1 ∈ rows.

Definition progress (f : Z * Z -> Z * Z) (m : list Z) (done : list Z) (m' : list Z) : Prop := moved (on_rows f done) m m'.

Lemma progress_none f m : matrix m -> progress f m [] m.
Proof. intros H. apply (moved_ext id); [|by apply moved_id]. intros p _. unfold on_rows. by rewrite bool_decide_eq_false_2 by set_solver. Qed.

Lemma progress_touch f m done m1 rows done' m2 :
  progress f m done m1 -> touch rows done = Some done' -> stays f rows -> moved (on_rows f rows) m1 m2 ->
  progress f m done' m2.
Proof.
  unfold touch, progress. intros H1 Ht Hs H2. case_bool_decide as Hnd; simplify_eq.
  apply NoDup_app in Hnd as (_ & Hdisj & _).
  pose proof (moved_trans _ _ _ _ _ H1 H2) as H. revert H. apply moved_ext. intros p Hp. unfold on_rows.
  destruct (decide (p.1 ∈ rows)) as [Hin|Hin].
  - rewrite (bool_decide_eq_true_2 (p.1 ∈ rows)), (bool_decide_eq_true_2 (p.1 ∈ done ++ rows)) by set_solver.
    rewrite bool_decide_eq_false_2; [done|]. intros Hd. exact (Hdisj _ Hd (Hs p Hp Hin)).
  - rewrite (bool_decide_eq_false_2 (p.1 ∈ rows)) by done. by rewrite (bool_decide_ext (p.1 ∈ done ++ rows) (p.1 ∈ done)) by set_solver.
Qed.

(** Two loops that run in step. *)
Lemma for_up_simulates {A B} (R : A -> B -> Prop) (f : Z -> A -> option A) (g : Z -> B -> option B) n i s t t' :
  (forall j s t t', i <= j < i + Z.of_nat n -> R s t -> g j t = Some t' -> exists s', f j s = Some s' /\ R s' t') ->
  R s t -> for_up n i g t = Some t' -> exists s', for_up n i f s = Some s' /\ R s' t'.
Proof.
  revert i s t. induction n as [|n IH]; intros i s t Hstep HR E; cbn [for_up] in *.
  - simplify_eq. by exists s.
  - destruct (g i t) as [t1|] eqn:E1; [|done]. cbn [mbind option_bind] in E.
    destruct (Hstep i s t t1) as (s1 & -> & HR1); [lia|done|done|]. cbn [mbind option_bind].
    apply (IH (i + 1) s1 t1); [|done|done]. intros j s2 t2 t2' Hj. apply Hstep. lia.
Qed.

(** *** Exchanging a bit of the row index with the same bit of the column index *)

Definition exchange_bit (b : Z) (p : Z * Z) : Z * Z :=
  if Bool.eqb (Z.testbit p.1 b) (Z.testbit p.2 b) then p else (Z.lxor p.1 (2 ^ b), Z.lxor p.2 (2 ^ b)).

(** Checks on the 128 positions of a row or of a column, and on all positions. *)
Definition all128 (f : Z -> bool) : bool := forallb f (seqZ 0 128).

Lemma all128_at f c : all128 f = true -> 0 <= c < 128 -> f c = true.
Proof. intros H Hc. apply forallb_forall with (x := c) in H; [done|]. apply list_elem_of_In, elem_of_seqZ. lia. Qed.

Lemma flip_inside b x : 0 <= b < 7 -> 0 <= x < 128 -> 0 <= Z.lxor x (2 ^ b) < 128.
Proof.
  intros Hb Hx. change 128 with (2 ^ 7). assert (0 <= Z.lxor x (2 ^ b)) by (apply Z.lxor_nonneg; lia).
  split; [done|]. apply bits_bound; [lia|done|]. intros j Hj. rewrite Z.lxor_spec, (testbit_high 7 x), testbit_pow2 by lia. lia.
Qed.

Lemma exchange_inside b p : 0 <= b < 7 -> inside p -> inside (exchange_bit b p).
Proof. intros Hb [H1 H2]. unfold exchange_bit. case_match; [done|]. split; cbn; by apply flip_inside. Qed.

Lemma exchange_testbit b p j : 0 <= b ->
  Z.testbit (exchange_bit b p).1 j = (if j =? b then Z.testbit p.2 b else Z.testbit p.1 j) /\
  Z.testbit (exchange_bit b p).2 j = (if j =? b then Z.testbit p.1 b else Z.testbit p.2 j).
Proof.
  intros Hb. unfold exchange_bit. destruct (Bool.eqb _ _) eqn:E; [apply Bool.eqb_prop in E|apply Bool.eqb_false_iff in E]; cbn;
    rewrite ?Z.lxor_spec, ?testbit_pow2 by done; destruct (Z.eqb_spec j b) as [-> | Hne]; rewrite ?xorb_true_r, ?xorb_false_r; auto.
  destruct (Z.testbit p.1 b), (Z.testbit p.2 b); by cbn in *.
Qed.

(** Exchanges of several bits. *)
Definition exchange (bs : list Z) (p : Z * Z) : Z * Z := foldr exchange_bit p bs.

Lemma exchange_app bs bs' p : exchange (bs ++ bs') p = exchange bs (exchange bs' p).
Proof. apply foldr_app. Qed.

Lemma exchange_in bs p : Forall (fun b => 0 <= b < 7) bs -> inside p -> inside (exchange bs p).
Proof. induction 1; intros Hp; [done|]. apply exchange_inside; auto. Qed.

Lemma exchange_bits bs p j : Forall (fun b => 0 <= b < 7) bs -> NoDup bs ->
  Z.testbit (exchange bs p).1 j = Z.testbit (if bool_decide (j ∈ bs) then p.2 else p.1) j /\
  Z.testbit (exchange bs p).2 j = Z.testbit (if bool_decide (j ∈ bs) then p.1 else p.2) j.
Proof.
  induction 1 as [|b bs Hb Hbs IH]; [by rewrite bool_decide_eq_false_2 by set_solver|].
  intros [Hnot Hnd]%NoDup_cons. cbn [exchange foldr]. specialize (IH Hnd). fold (exchange bs p).
  destruct (exchange_testbit b (exchange bs p) j) as [-> ->]; [lia|].
  destruct (Z.eqb_spec j b) as [-> | Hne]; destruct IH as [-> ->].
  - rewrite (bool_decide_eq_false_2 (b ∈ bs)), (bool_decide_eq_true_2 (b ∈ b :: bs)) by set_solver. done.
  - by rewrite (bool_decide_ext (j ∈ b :: bs) (j ∈ bs)) by set_solver.
Qed.

(** The exchanges of all bits transpose. *)
Lemma exchange_all bs p : Forall (fun b => 0 <= b < 7) bs -> NoDup bs -> length bs = 7%nat -> inside p -> exchange bs p = flipped p.
Proof.
  intros Hb Hnd Hlen Hp. pose proof (exchange_in bs p Hb Hp) as [I1 I2]. destruct Hp as [P1 P2].
  assert (Hall : forall j, 0 <= j < 7 -> j ∈ bs).
  { intros j Hj. assert (Hsub : bs ⊆+ seqZ 0 7).
    { apply NoDup_submseteq; [done|]. intros x Hx. rewrite Forall_forall in Hb. apply elem_of_seqZ. specialize (Hb x Hx). lia. }
    apply submseteq_length_Permutation in Hsub; [|by rewrite Hlen]. rewrite Hsub. apply elem_of_seqZ. lia. }
  destruct (exchange bs p) as [r c] eqn:E. unfold flipped. f_equal; apply (bits_eq 7); try done; intros j Hj;
    destruct (exchange_bits bs p j Hb Hnd) as [E1 E2]; rewrite E in E1, E2; cbn in E1, E2; rewrite ?E1, ?E2;
    by rewrite bool_decide_eq_true_2 by auto.
Qed.

(** Exchanges keep a set of rows that is closed under flipping these bits. *)
Lemma exchange_stays bs rows : Forall (fun b => 0 <= b < 7) bs ->
  (forall b r, b ∈ bs -> r ∈ rows -> Z.lxor r (2 ^ b) ∈ rows) -> stays (exchange bs) rows.
Proof.
  intros Hb Hcl p Hp Hin. induction Hb as [|b bs Hb0 Hb IH]; [done|]. cbn [exchange foldr]. fold (exchange bs p).
  unfold exchange_bit. case_match; [apply IH; set_solver|]. cbn [fst]. apply Hcl; [set_solver|]. apply IH. set_solver.
Qed.

Lemma moved_rows_trans f g rows m m1 m2 : moved (on_rows f rows) m m1 -> moved (on_rows g rows) m1 m2 -> stays g rows ->
  moved (on_rows (fun p => f (g p)) rows) m m2.
Proof.
  intros H1 H2 Hs. pose proof (moved_trans _ _ _ _ _ H1 H2) as H. revert H. apply moved_ext. intros p Hp. unfold on_rows.
  destruct (decide (p.1 ∈ rows)) as [Hin|Hin].
  - rewrite (bool_decide_eq_true_2 (p.1 ∈ rows)) by done. by rewrite bool_decide_eq_true_2 by auto.
  - by rewrite !(bool_decide_eq_false_2 (p.1 ∈ rows)).
Qed.

Lemma moved_all_rows f rows m m' : all128 (fun r => bool_decide (r ∈ rows)) = true -> moved (on_rows f rows) m m' -> moved f m m'.
Proof.
  intros Ha. apply moved_ext. intros p [Hp _]. unfold on_rows. by rewrite (all128_at _ p.1 Ha Hp).
Qed.

(** A routine that writes some rows. *)
Lemma moved_writes f rows m m' : matrix m -> vsize m' = 128 ->
  (forall r, 0 <= r < 128 -> r ∉ rows -> blk m' r = blk m r) ->
  (forall r, 0 <= r < 128 -> r ∈ rows -> 0 <= blk m' r < 2 ^ 128 /\
     forall c, 0 <= c < 128 -> mbit m' r c = mbit m (f (r, c)).1 (f (r, c)).2) ->
  (forall p, inside p -> inside (f p)) -> moved (on_rows f rows) m m'.
Proof.
  intros [L W] L' Hout Hin Hf. split.
  - split; [done|]. intros r Hr. destruct (decide (r ∈ rows)) as [H|H]; [by apply Hin|]. rewrite Hout by done. auto.
  - intros p Hp. unfold on_rows. case_bool_decide; auto.
  - intros [r c] [Hr Hc]. cbn in Hr, Hc. unfold on_rows. cbn [fst snd]. case_bool_decide as H; [by apply Hin|].
    unfold mbit. cbn. by rewrite Hout.
Qed.

(** *** Eklundh's method *)

(** The masks of the round that exchanges bit [b], with [2 ^ b] as width. *)
Definition eklundh_masks (b : Z) : bool :=
  let mask := blk trans_mask (6 - b) in
  let inv_mask := blk trans_mask_inv (6 - b) in
  (0 <=? mask) && (0 <=? inv_mask) && all128 (fun c =>
    Bool.eqb (Z.testbit mask c) (negb (Z.testbit c b)) && Bool.eqb (Z.testbit mask (c - 2 ^ b)) (Z.testbit c b) &&
    Bool.eqb (Z.testbit inv_mask c) (Z.testbit c b) && Bool.eqb (Z.testbit inv_mask (c + 2 ^ b)) (negb (Z.testbit c b)) &&
    (Z.lxor c (2 ^ b) =? (if Z.testbit c b then c - 2 ^ b else c + 2 ^ b))).

Lemma eklundh_masks_ok b : 0 <= b < 7 -> eklundh_masks b = true.
Proof.
  intros Hb. assert (H : forallb eklundh_masks (seqZ 0 7) = true) by (vm_compute; reflexivity).
  apply forallb_forall with (x := b) in H; [done|]. apply list_elem_of_In, elem_of_seqZ. lia.
Qed.

Section Eklundh.
Context (b : Z).
Hypothesis Hb : 0 <= b < 7.
Local Abbreviation w := (2 ^ b).
Local Abbreviation mask := (blk trans_mask (6 - b)).
Local Abbreviation inv_mask := (blk trans_mask_inv (6 - b)).

Lemma masks_at c : 0 <= c < 128 ->
  Z.testbit mask c = negb (Z.testbit c b) /\ Z.testbit mask (c - w) = Z.testbit c b /\
  Z.testbit inv_mask c = Z.testbit c b /\ Z.testbit inv_mask (c + w) = negb (Z.testbit c b) /\
  Z.lxor c w = if Z.testbit c b then c - w else c + w.
Proof using All.
  intros Hc. pose proof (eklundh_masks_ok b Hb) as H. apply andb_true_iff in H as [_ H].
  apply (all128_at _ c) in H; [|done].
  rewrite !andb_true_iff, !Bool.eqb_true_iff, Z.eqb_eq in H. tauto.
Qed.

Lemma eklundh_words t tt : 0 <= t < 2 ^ 128 -> 0 <= tt < 2 ^ 128 ->
  let d := Z.lxor (Z.land t mask) (u128 (Z.shiftl (Z.land tt mask) w)) in
  let dd := Z.lxor (Z.land tt inv_mask) (Z.shiftr (Z.land t inv_mask) w) in
  0 <= d < 2 ^ 128 /\ 0 <= dd < 2 ^ 128 /\
  forall c, 0 <= c < 128 ->
    Z.testbit d c = (if Z.testbit c b then Z.testbit tt (Z.lxor c w) else Z.testbit t c) /\
    Z.testbit dd c = (if Z.testbit c b then Z.testbit tt c else Z.testbit t (Z.lxor c w)).
Proof using All.
  intros Ht Htt d dd. assert (Hw : 0 <= w) by lia.
  assert (Hm : 0 <= mask /\ 0 <= inv_mask).
  { pose proof (eklundh_masks_ok b Hb) as H. apply andb_true_iff in H as [H _]. lia. }
  assert (Hd0 : 0 <= d). { apply Z.lxor_nonneg. split; intros _; [apply Z.mod_pos_bound; lia|apply Z.land_nonneg; lia]. }
  assert (Hdd0 : 0 <= dd). { apply Z.lxor_nonneg. split; intros _; [apply Z.shiftr_nonneg, Z.land_nonneg; lia|apply Z.land_nonneg; lia]. }
  split; [split; [done|]|split; [split; [done|]|]].
  - apply bits_bound; [lia|done|]. intros j Hj. subst d. unfold u128. autorewrite with zbits. rewrite (testbit_high 128 t) by lia. lia.
  - apply bits_bound; [lia|done|]. intros j Hj. subst dd. autorewrite with zbits. rewrite (testbit_high 128 tt), (testbit_high 128 t) by lia. done.
  - intros c Hc. destruct (masks_at c Hc) as (M1 & M2 & M3 & M4 & ->). subst d dd. unfold u128. split.
    + autorewrite with zbits. rewrite M1, M2. replace (c <? 128) with true by lia.
      destruct (Z.testbit c b); by rewrite ?andb_true_r, ?andb_false_r, ?xorb_false_l, ?xorb_false_r, ?andb_true_l.
    + rewrite Z.lxor_spec, Z.land_spec, Z.shiftr_spec, Z.land_spec, M3, M4 by lia.
      destruct (Z.testbit c b); by rewrite ?andb_true_r, ?andb_false_r, ?xorb_false_l, ?xorb_false_r.
Qed.

Lemma flip_clear i : 0 <= i < 128 -> Z.testbit i b = false -> Z.lxor i w = i + w /\ 0 <= i + w < 128 /\ Z.testbit (i + w) b = true.
Proof using All.
  intros Hi E. destruct (masks_at i Hi) as (_ & _ & _ & _ & F). rewrite E in F. pose proof (flip_inside b i Hb Hi) as Hf.
  split; [done|]. rewrite <- F. split; [done|]. by rewrite Z.lxor_spec, testbit_pow2, E, Z.eqb_refl by lia.
Qed.

Lemma eklundh_swap_moves i1 m : matrix m -> 0 <= i1 < 128 -> Z.testbit i1 b = false ->
  exists m', eklundh_swap mask inv_mask w i1 (i1 + w) m = Some m' /\ moved (on_rows (exchange [b]) [i1; i1 + w]) m m'.
Proof using All.
  intros Hm Hi E. pose proof Hm as [L W]. destruct (flip_clear i1 Hi E) as (F & Hi2 & E2).
  destruct (eklundh_words (blk m i1) (blk m (i1 + w)) (W _ Hi) (W _ Hi2)) as (Wd & Wdd & Hbits).
  unfold eklundh_swap. do 2 rewrite vget_blk by lia. cbn [mbind option_bind]. rewrite (vset_Some m) by lia. cbn [mbind option_bind].
  rewrite vset_Some by (rewrite vsize_insert; lia). eexists. split; [reflexivity|].
  assert (Hw : 0 < w) by lia. apply moved_writes; [done|by rewrite !vsize_insert|..].
  - intros r Hr Hout. apply not_elem_of_cons in Hout as [H1 Hout]. apply not_elem_of_cons in Hout as [H2 _].
    rewrite !blk_insert by (rewrite ?vsize_insert; lia). by rewrite !(proj2 (Z.eqb_neq _ _)) by lia.
  - intros r Hr Hin. unfold mbit. rewrite !blk_insert by (rewrite ?vsize_insert; lia).
    assert (Hr' : r = i1 \/ r = i1 + w) by set_solver. unfold exchange, exchange_bit. cbn [foldr fst snd].
    destruct Hr' as [-> | ->]; rewrite ?Z.eqb_refl, ?(proj2 (Z.eqb_neq i1 (i1 + w))) by lia; (split; [done|]); intros c Hc;
      destruct (Hbits c Hc) as [B1 B2]; rewrite ?B1, ?B2, ?E, ?E2; destruct (Z.testbit c b); cbn [Bool.eqb fst snd]; try done.
    + by rewrite F.
    + rewrite <- F. by rewrite Z.lxor_assoc, Z.lxor_nilpotent, Z.lxor_0_r.
  - intros p Hp. by apply exchange_inside.
Qed.
End Eklundh.

(** The rows of a round, in the order in which they are written. *)
Definition round_rows (b : Z) : option (list Z) :=
  for_up (Z.to_nat (2 ^ (6 - b))) 0 (fun j rows =>
    for_up (Z.to_nat (2 ^ b)) 0 (fun k rows =>
      let i1 := k + 2 * 2 ^ b * j in
      assert! (0 <=? i1) && (i1 <? 128) && negb (Z.testbit i1 b);
      touch [i1; i1 + 2 ^ b] rows) rows) [].

Definition round_covers (b : Z) : bool :=
  match round_rows b with Some rows => all128 (fun r => bool_decide (r ∈ rows)) | None => false end.

Lemma rounds_cover b : 0 <= b < 7 -> round_covers b = true.
Proof.
  intros Hb. assert (H : forallb round_covers (seqZ 0 7) = true) by (vm_compute; reflexivity).
  apply forallb_forall with (x := b) in H; [done|]. apply list_elem_of_In, elem_of_seqZ. lia.
Qed.

Lemma pair_stays b i : 0 <= b < 7 -> 0 <= i < 128 -> Z.testbit i b = false -> stays (exchange [b]) [i; i + 2 ^ b].
Proof.
  intros Hb Hi E. destruct (flip_clear b Hb i Hi E) as (F & _). apply exchange_stays; [by apply Forall_singleton|].
  intros b' r ->%list_elem_of_singleton Hr. assert (Hr' : r = i \/ r = i + 2 ^ b) by set_solver. destruct Hr' as [-> | ->].
  - rewrite F. set_solver.
  - rewrite <- F, Z.lxor_assoc, Z.lxor_nilpotent, Z.lxor_0_r. set_solver.
Qed.

Lemma eklundh_round_moves b m : 0 <= b < 7 -> matrix m ->
  exists m', eklundh_round (6 - b) (2 ^ b) (2 ^ (6 - b)) m = Some m' /\ moved (exchange [b]) m m'.
Proof.
  intros Hb Hm. pose proof (rounds_cover b Hb) as Hc. unfold round_covers in Hc.
  destruct (round_rows b) as [rows|] eqn:E; [|done]. unfold eklundh_round.
  do 2 (rewrite vget_blk by (change (vsize _) with 7; lia); cbn [mbind option_bind]).
  match goal with |- exists m', ?x = Some m' /\ _ => cut (exists m', x = Some m' /\ progress (exchange [b]) m rows m') end.
  { intros (m' & Em & Hp). exists m'. split; [exact Em|]. by eapply moved_all_rows. }
  eapply (for_up_simulates (fun m' rows => progress (exchange [b]) m rows m')); [| |exact E].
  - intros j m1 rows1 rows2 Hj H1 E1.
    apply (for_up_simulates (fun m' rows => progress (exchange [b]) m rows m')) with (2 := H1) (3 := E1).
    intros k m3 rows3 rows4 Hk H3 E3. cbv zeta in E3. set (i1 := k + 2 * 2 ^ b * j) in *.
    destruct (Z.testbit i1 b) eqn:Et; [by rewrite andb_false_r in E3|].
    destruct ((0 <=? i1) && (i1 <? 128) && negb false) eqn:Ec; [|done].
    replace (k + 2 ^ b + 2 * 2 ^ b * j) with (i1 + 2 ^ b) by lia.
    destruct (eklundh_swap_moves b Hb i1 m3) as (m4 & E4 & H4); [apply H3|lia|done|].
    exists m4. split; [exact E4|]. eapply progress_touch; [done|done| |done]. apply pair_stays; [lia|lia|done].
  - by apply progress_none.
Qed.

Lemma eklundh_rounds (n : nat) m w k : (n <= 7)%nat -> ((0 < n)%nat -> w = 2 ^ (Z.of_nat n - 1) /\ k = 2 ^ (7 - Z.of_nat n)) -> matrix m ->
  exists m' w' k', for_up n (7 - Z.of_nat n) (fun i '(m, width, nswaps) =>
     m' ← eklundh_round i width nswaps m; Some (m', width / 2, nswaps * 2)) (m, w, k) = Some (m', w', k') /\
  moved (exchange (reverse (seqZ 0 (Z.of_nat n)))) m m'.
Proof.
  revert m w k. induction n as [|n IH]; intros m w k Hn Hw Hm; cbn [for_up].
  - eexists _, _, _. split; [reflexivity|]. by apply moved_id.
  - destruct (Hw ltac:(lia)) as [-> ->]. replace (7 - Z.of_nat (S n)) with (6 - Z.of_nat n) by lia.
    replace (Z.of_nat (S n) - 1) with (Z.of_nat n) by lia.
    destruct (eklundh_round_moves (Z.of_nat n) m ltac:(lia) Hm) as (m1 & E1 & H1). rewrite E1. cbn [mbind option_bind].
    replace (6 - Z.of_nat n + 1) with (7 - Z.of_nat n) by lia.
    destruct (IH m1 (2 ^ Z.of_nat n / 2) (2 ^ (6 - Z.of_nat n) * 2)) as (m2 & w' & k' & E2 & H2); [lia| |by apply H1|].
    { intros H0. split.
      - replace (2 ^ Z.of_nat n) with (2 ^ (Z.of_nat n - 1) * 2) by (rewrite Z.mul_comm, <- Z.pow_succ_r by lia; f_equal; lia).
        by apply Z.div_mul.
      - rewrite Z.mul_comm, <- Z.pow_succ_r by lia. f_equal. lia. }
    exists m2, w', k'. split; [exact E2|]. replace (Z.of_nat (S n)) with (Z.of_nat n + 1) by lia.
    rewrite seqZ_app by lia. change (seqZ (0 + Z.of_nat n) 1) with [Z.of_nat n]. rewrite reverse_app.
    apply (moved_ext (fun p => exchange [Z.of_nat n] (exchange (reverse (seqZ 0 (Z.of_nat n))) p))).
    + intros p _. symmetry. apply (exchange_app [Z.of_nat n]).
    + by eapply moved_trans.
Qed.

Lemma eklundh_transposes m : matrix m -> exists m', EklundhTranspose128 m = Some m' /\ moved flipped m m'.
Proof.
  intros Hm. destruct (eklundh_rounds 7 m 64 1) as (m' & w' & k' & E & H); [lia|done|done|].
  exists m'. unfold EklundhTranspose128. change (7 - Z.of_nat 7) with 0 in E. rewrite E. split; [done|].
  revert H. apply moved_ext. intros p Hp. apply exchange_all; [by apply (bool_decide_unpack _)..|done|done].
Qed.

(** *** Words put together from parts *)

Lemma testbit_parts (g o : Z -> Z) l c : 0 <= c ->
  Z.testbit (foldr (fun i acc => Z.lor (Z.shiftl (g i) (o i)) acc) 0 l) c = existsb (fun i => Z.testbit (g i) (c - o i)) l.
Proof.
  intros Hc. induction l as [|i l IH]; cbn [foldr existsb]; [apply Z.bits_0|].
  by rewrite Z.lor_spec, Z.shiftl_spec, IH.
Qed.

Lemma existsb_one (f : Z -> bool) n k : 0 <= k < n -> (forall i, 0 <= i < n -> i <> k -> f i = false) ->
  existsb f (seqZ 0 n) = f k.
Proof.
  intros Hk Hf. destruct (f k) eqn:E.
  - apply existsb_exists. exists k. split; [|done]. apply list_elem_of_In, elem_of_seqZ. lia.
  - apply not_true_iff_false. intros (i & Hi & Hi')%existsb_exists. apply list_elem_of_In, elem_of_seqZ in Hi.
    destruct (Z.eq_dec i k) as [-> | Hne]; [congruence|]. rewrite Hf in Hi' by (done || lia). done.
Qed.

Lemma parts_nonneg (g o : Z -> Z) l : (forall i, i ∈ l -> 0 <= g i) -> 0 <= foldr (fun i acc => Z.lor (Z.shiftl (g i) (o i)) acc) 0 l.
Proof.
  induction l as [|i l IH]; intros H; cbn [foldr]; [done|]. apply Z.lor_nonneg. split; [|apply IH; set_solver].
  apply Z.shiftl_nonneg, H. set_solver.
Qed.

Section Lanes.
Context (L : Z).
Hypothesis HL : 0 < L <= 128.
Hypothesis HL128 : 128 mod L = 0.

Lemma map_lanes_bit f x c : (forall i, 0 <= f (lane L x i) < 2 ^ L) -> 0 <= c < 128 ->
  Z.testbit (map_lanes L f x) c = Z.testbit (f (lane L x (c / L))) (c mod L).
Proof using All.
  intros Hf Hc. unfold map_lanes. rewrite testbit_parts by lia.
  assert (H128 : 128 = L * (128 / L)) by (apply Z_div_exact_full_2; lia).
  pose proof (Z.div_mod c L ltac:(lia)) as Hdm. pose proof (Z.mod_pos_bound c L ltac:(lia)) as Hmod.
  assert (Hq : 0 <= c / L < 128 / L) by (split; [apply Z.div_pos; lia|apply Z.div_lt_upper_bound; lia]).
  rewrite (existsb_one _ _ (c / L)); [f_equal; lia|done|].
  intros i Hi Hne. destruct (Z.lt_ge_cases i (c / L)) as [Hlt|Hge].
  - apply (testbit_high L); [apply Hf|]. assert (L * (i + 1) <= L * (c / L)) by (apply Z.mul_le_mono_nonneg_l; lia). lia.
  - apply Z.testbit_neg_r. assert (L * (c / L + 1) <= L * i) by (apply Z.mul_le_mono_nonneg_l; lia). lia.
Qed.

Lemma map_lanes_word f x : (forall i, 0 <= f (lane L x i) < 2 ^ L) -> 0 <= map_lanes L f x < 2 ^ 128.
Proof using All.
  intros Hf. assert (H0 : 0 <= map_lanes L f x) by (apply parts_nonneg; intros i _; apply Hf).
  split; [done|]. apply bits_bound; [lia|done|]. intros j Hj. unfold map_lanes. rewrite testbit_parts by lia.
  apply not_true_iff_false. intros (i & Hi & E)%existsb_exists. apply list_elem_of_In, elem_of_seqZ in Hi.
  rewrite (testbit_high L) in E; [done|apply Hf|]. assert (H128 : 128 = L * (128 / L)) by (apply Z_div_exact_full_2; lia).
  assert (L * (i + 1) <= L * (128 / L)) by (apply Z.mul_le_mono_nonneg_l; lia). lia.
Qed.

Lemma lane_bit x i j : 0 <= i -> 0 <= j -> Z.testbit (lane L x i) j = (j <? L) && Z.testbit x (L * i + j).
Proof using All.
  intros Hi Hj. unfold lane. rewrite testbit_mod, testbit_shiftr by lia. do 2 f_equal. lia.
Qed.

Definition slli (x n : Z) : Z := map_lanes L (fun v => Z.shiftl v n mod 2 ^ L) x.
Definition srli (x n : Z) : Z := map_lanes L (fun v => Z.shiftr v n) x.

Lemma slli_bounds x n i : 0 <= Z.shiftl (lane L x i) n mod 2 ^ L < 2 ^ L.
Proof using All. apply Z.mod_pos_bound. lia. Qed.

Lemma srli_bounds x n i : 0 <= n -> 0 <= Z.shiftr (lane L x i) n < 2 ^ L.
Proof using All.
  intros Hn. assert (Hl : 0 <= lane L x i < 2 ^ L) by (apply Z.mod_pos_bound; lia).
  split; [apply Z.shiftr_nonneg; lia|]. apply bits_bound; [lia|apply Z.shiftr_nonneg; lia|]. intros j Hj.
  rewrite testbit_shiftr by lia. apply (testbit_high L); [done|lia].
Qed.

Lemma slli_word x n : 0 <= slli x n < 2 ^ 128.
Proof using All. apply map_lanes_word. intros i. apply slli_bounds. Qed.

Lemma srli_word x n : 0 <= n -> 0 <= srli x n < 2 ^ 128.
Proof using All. intros Hn. apply map_lanes_word. intros i. by apply srli_bounds. Qed.

Lemma slli_bit x n c : 0 <= n -> 0 <= c < 128 -> Z.testbit (slli x n) c = (n <=? c mod L) && Z.testbit x (c - n).
Proof using All.
  intros Hn Hc. unfold slli. rewrite map_lanes_bit by (done || (intros; apply slli_bounds)).
  pose proof (Z.mod_pos_bound c L ltac:(lia)). pose proof (Z.div_mod c L ltac:(lia)). pose proof (Z.div_pos c L ltac:(lia) ltac:(lia)).
  rewrite testbit_mod, testbit_shiftl by lia. replace (c mod L <? L) with true by lia. cbn [andb].
  destruct (Z.leb_spec n (c mod L)); [|apply Z.testbit_neg_r; lia].
  rewrite lane_bit by lia. replace (c mod L - n <? L) with true by lia. cbn [andb]. f_equal. lia.
Qed.

Lemma srli_bit x n c : 0 <= n -> 0 <= c < 128 -> Z.testbit (srli x n) c = (c mod L + n <? L) && Z.testbit x (c + n).
Proof using All.
  intros Hn Hc. unfold srli. rewrite map_lanes_bit by (done || (intros; by apply srli_bounds)).
  pose proof (Z.mod_pos_bound c L ltac:(lia)). pose proof (Z.div_mod c L ltac:(lia)). pose proof (Z.div_pos c L ltac:(lia) ltac:(lia)).
  rewrite testbit_shiftr, lane_bit by lia. do 2 f_equal. lia.
Qed.

(** *** Two words that exchange bit [b] of the indexes *)

Definition exchange_words (b mask x y : Z) : Z * Z :=
  let diff := Z.land (Z.lxor x (slli y (2 ^ b))) mask in
  (Z.lxor x diff, Z.lxor y (srli diff (2 ^ b))).

(** What the mask and the lanes must satisfy. *)
Definition lanes_ok (b mask : Z) : bool :=
  (0 <=? mask) && all128 (fun c =>
    Bool.eqb (Z.testbit mask c) (Z.testbit c b) &&
    (if Z.testbit c b
     then (2 ^ b <=? c mod L) && (Z.lxor c (2 ^ b) =? c - 2 ^ b) && ((L <=? c mod L + 2 ^ b) || negb (Z.testbit (c + 2 ^ b) b))
     else (c mod L + 2 ^ b <? L) && (Z.lxor c (2 ^ b) =? c + 2 ^ b) && (2 ^ b <=? (c + 2 ^ b) mod L))).
End Lanes.

(** Row [r] and the row with bit [b] set: what both hold afterwards. *)
Definition exchanged (b x y x' y' : Z) : Prop :=
  0 <= x' < 2 ^ 128 /\ 0 <= y' < 2 ^ 128 /\
  forall c, 0 <= c < 128 ->
    Z.testbit x' c = (if Z.testbit c b then Z.testbit y (Z.lxor c (2 ^ b)) else Z.testbit x c) /\
    Z.testbit y' c = (if Z.testbit c b then Z.testbit y c else Z.testbit x (Z.lxor c (2 ^ b))).

Lemma exchange_words_ok L b mask x y : 0 < L <= 128 -> 128 mod L = 0 -> 0 <= b < 7 -> lanes_ok L b mask = true ->
  0 <= x < 2 ^ 128 -> 0 <= y < 2 ^ 128 ->
  exchanged b x y (exchange_words L b mask x y).1 (exchange_words L b mask x y).2.
Proof.
  intros HL HL128 Hb Hok Hx Hy. apply andb_true_iff in Hok as [Hm Hok]. assert (Hw : 0 <= 2 ^ b) by lia.
  unfold exchange_words. cbn [fst snd]. set (diff := Z.land _ mask).
  pose proof (slli_word L HL HL128 y (2 ^ b)) as Hs. pose proof (srli_word L HL HL128 diff (2 ^ b) Hw) as Hr.
  assert (Hd : 0 <= diff) by (apply Z.land_nonneg; lia).
  assert (Hdb : forall c, 0 <= c < 128 -> Z.testbit c b = false -> Z.testbit diff c = false).
  { intros c Hc E. pose proof (all128_at _ c Hok Hc) as H. cbv beta in H. apply andb_true_iff in H as [H _].
    apply Bool.eqb_prop in H. unfold diff. by rewrite Z.land_spec, H, E, andb_false_r. }
  assert (Hd1 : forall c, 0 <= c < 128 -> Z.testbit c b = true -> Z.testbit diff c = xorb (Z.testbit x c) (Z.testbit y (c - 2 ^ b))).
  { intros c Hc E. pose proof (all128_at _ c Hok Hc) as H. cbv beta in H. rewrite E in H. apply andb_true_iff in H as [H H'].
    apply Bool.eqb_prop in H. unfold diff. rewrite Z.land_spec, H, andb_true_r, Z.lxor_spec, slli_bit by (done || lia).
    by replace (2 ^ b <=? c mod L) with true by lia. }
  split; [|split].
  - split; [apply Z.lxor_nonneg; lia|]. apply bits_bound; [lia|apply Z.lxor_nonneg; lia|]. intros j Hj.
    unfold diff. rewrite Z.lxor_spec, Z.land_spec, Z.lxor_spec, (testbit_high 128 x), (testbit_high 128 (slli _ _ _)) by (done || lia). done.
  - split; [apply Z.lxor_nonneg; lia|]. apply bits_bound; [lia|apply Z.lxor_nonneg; lia|]. intros j Hj.
    by rewrite Z.lxor_spec, (testbit_high 128 y), (testbit_high 128 (srli _ _ _)) by (done || lia).
  - intros c Hc. pose proof (all128_at _ c Hok Hc) as H. cbv beta in H. apply andb_true_iff in H as [_ H].
    rewrite !Z.lxor_spec, srli_bit by (done || lia). destruct (Z.testbit c b) eqn:E.
    + rewrite Hd1 by done. replace (Z.lxor c (2 ^ b)) with (c - 2 ^ b) by lia. split; [by destruct (Z.testbit x c), (Z.testbit y _)|].
      destruct (Z.ltb_spec (c mod L + 2 ^ b) L) as [Hlt|Hge]; [|by rewrite andb_false_l, xorb_false_r].
      rewrite Hdb; [by rewrite andb_false_r, xorb_false_r|..].
      * split; [lia|]. pose proof (Z.div_mod c L ltac:(lia)). pose proof (Z.mod_pos_bound c L ltac:(lia)).
        assert (H128 : 128 = L * (128 / L)) by (apply Z_div_exact_full_2; lia).
        assert (c / L < 128 / L) by (apply Z.div_lt_upper_bound; lia).
        assert (L * (c / L + 1) <= L * (128 / L)) by (apply Z.mul_le_mono_nonneg_l; lia). lia.
      * apply not_true_iff_false. intros E2. rewrite E2 in H. lia.
    + rewrite Hdb by done. split; [by rewrite xorb_false_r|].
      assert (Hfl : Z.lxor c (2 ^ b) = c + 2 ^ b) by lia. rewrite !Hfl. replace (c mod L + 2 ^ b <? L) with true by lia. cbn [andb].
      assert (Hc' : 0 <= c + 2 ^ b < 128).
      { rewrite <- Hfl. by apply flip_inside. }
      assert (E' : Z.testbit (c + 2 ^ b) b = true).
      { rewrite <- Hfl. by rewrite Z.lxor_spec, testbit_pow2, E, Z.eqb_refl by lia. }
      rewrite Hd1 by done. replace (c + 2 ^ b - 2 ^ b) with c by lia. by destruct (Z.testbit y c), (Z.testbit x _).
Qed.

(** Unpacking exchanges bit 6. *)
Lemma unpack_exchanged x y : exchanged 6 x y (mm_unpacklo_epi64 x y) (mm_unpackhi_epi64 x y).
Proof.
  unfold exchanged, mm_unpacklo_epi64, mm_unpackhi_epi64, lane64. change (2 ^ 6) with 64.
  pose proof (fun z k => lane_range 64 z k ltac:(lia)) as Hr.
  pose proof (Hr x 0). pose proof (Hr x 1). pose proof (Hr y 0). pose proof (Hr y 1).
  split; [change (2 ^ 128) with (2 ^ 64 * 2 ^ 64); lia|]. split; [change (2 ^ 128) with (2 ^ 64 * 2 ^ 64); lia|].
  intros c Hc. assert (E : Z.testbit c 6 = (64 <=? c) /\ Z.lxor c 64 = if 64 <=? c then c - 64 else c + 64).
  { assert (Ha : all128 (fun c => Bool.eqb (Z.testbit c 6) (64 <=? c) && (Z.lxor c 64 =? if 64 <=? c then c - 64 else c + 64)) = true) by done.
    apply (all128_at _ c) in Ha; [|done]. apply andb_true_iff in Ha as [E1 E2]. apply Bool.eqb_prop in E1. lia. }
  destruct E as [-> ->]. rewrite !testbit_join by (done || lia).
  destruct (Z.leb_spec 64 c).
  - replace (c <? 64) with false by lia. rewrite !testbit_lane by lia. replace (c - 64 <? 64) with true by lia. cbn [andb]. split; f_equal; lia.
  - replace (c <? 64) with true by lia. rewrite !testbit_lane by lia. replace (c <? 64) with true by lia. cbn [andb]. split; f_equal; lia.
Qed.

(** *** The exchange of two vectors *)

Lemma mask_lanes_ok b : 1 <= b < 6 -> lanes_ok 64 b (mm256_set1_epi64x (avx_mask b)).1 = true.
Proof.
  intros Hb. assert (H : forallb (fun b => lanes_ok 64 b (mm256_set1_epi64x (avx_mask b)).1) (seqZ 1 5) = true) by (vm_compute; reflexivity).
  apply forallb_forall with (x := b) in H; [done|]. apply list_elem_of_In, elem_of_seqZ. lia.
Qed.

Lemma mask_pairs_ok : lanes_ok 16 0 (mm256_set1_epi16 0xaaaa).1 = true.
Proof. vm_compute. reflexivity. Qed.

Definition words256 (v : m256) : Prop := 0 <= v.1 < 2 ^ 128 /\ 0 <= v.2 < 2 ^ 128.

Lemma exchange_lanes_ok b x y : 1 <= b < 6 -> words256 x -> words256 y ->
  exchanged b x.1 y.1 (avx_exchange_lanes b x y).1.1 (avx_exchange_lanes b x y).2.1 /\
  exchanged b x.2 y.2 (avx_exchange_lanes b x y).1.2 (avx_exchange_lanes b x y).2.2.
Proof.
  intros Hb [X1 X2] [Y1 Y2]. pose proof (mask_lanes_ok b Hb) as Hm. unfold avx_exchange_lanes. rewrite Z.shiftl_1_l.
  split; (apply (exchange_words_ok 64 b (mm256_set1_epi64x (avx_mask b)).1); [lia|done|lia|exact Hm|assumption..]).
Qed.

Lemma exchange_pairs_ok x y : words256 x -> words256 y ->
  exchanged 0 x.1 x.2 (avx_exchange_pairs x y).1.1 (avx_exchange_pairs x y).1.2 /\
  exchanged 0 y.1 y.2 (avx_exchange_pairs x y).2.1 (avx_exchange_pairs x y).2.2.
Proof.
  intros [X1 X2] [Y1 Y2]. pose proof mask_pairs_ok as Hm. split; (apply (exchange_words_ok 16 0 (mm256_set1_epi16 0xaaaa).1); [lia|done|lia|exact Hm|assumption..]).
Qed.

Lemma exchanged_words b x y x' y' : exchanged b x y x' y' -> 0 <= x' < 2 ^ 128 /\ 0 <= y' < 2 ^ 128.
Proof. by intros (H1 & H2 & _). Qed.

(** A pair of rows that exchanged its words. *)
Lemma exchanged_rows b r m m' : 0 <= b < 7 -> 0 <= r < 128 -> Z.testbit r b = false ->
  exchanged b (blk m r) (blk m (r + 2 ^ b)) (blk m' r) (blk m' (r + 2 ^ b)) ->
  forall q, q = r \/ q = r + 2 ^ b -> 0 <= blk m' q < 2 ^ 128 /\
    forall c, 0 <= c < 128 -> mbit m' q c = mbit m (exchange [b] (q, c)).1 (exchange [b] (q, c)).2.
Proof.
  intros Hb Hr E (W1 & W2 & Hbits) q Hq. destruct (flip_clear b Hb r Hr E) as (F & Hr2 & E2).
  assert (F' : Z.lxor (r + 2 ^ b) (2 ^ b) = r) by (by rewrite <- F, Z.lxor_assoc, Z.lxor_nilpotent, Z.lxor_0_r).
  unfold exchange, exchange_bit, mbit. cbn [foldr fst snd].
  destruct Hq as [-> | ->]; (split; [done|]); intros c Hc; destruct (Hbits c Hc) as [B1 B2]; rewrite ?B1, ?B2, ?E, ?E2, ?F, ?F';
    by destruct (Z.testbit c b).
Qed.

Lemma load256_at m k : matrix m -> 0 <= k < 64 -> load256 m k = Some (blk m (2 * k), blk m (2 * k + 1)) /\
  words256 (blk m (2 * k), blk m (2 * k + 1)).
Proof.
  intros [Lm W] Hk. unfold load256. do 2 (rewrite vget_blk by lia; cbn [mbind option_bind]). split; [done|]. split; apply W; cbn; lia.
Qed.

Lemma store256_two m xi yi x y : vsize m = 128 -> 0 <= xi < 64 -> 0 <= yi < 64 -> xi <> yi ->
  exists m', (m1 ← store256 m xi x; store256 m1 yi y) = Some m' /\ vsize m' = 128 /\
    blk m' (2 * xi) = x.1 /\ blk m' (2 * xi + 1) = x.2 /\ blk m' (2 * yi) = y.1 /\ blk m' (2 * yi + 1) = y.2 /\
    forall r, r ∉ [2 * xi; 2 * xi + 1; 2 * yi; 2 * yi + 1] -> blk m' r = blk m r.
Proof.
  intros Lm Hx Hy Hne. unfold store256. do 2 (rewrite vset_Some by (rewrite ?vsize_insert; lia); cbn [mbind option_bind]).
  do 2 (rewrite vset_Some by (rewrite ?vsize_insert; lia); cbn [mbind option_bind]). eexists. split; [reflexivity|].
  split; [by rewrite !vsize_insert|]. repeat split; intros; rewrite !blk_insert by (rewrite ?vsize_insert; lia);
    repeat match goal with |- context [if ?a =? ?b then _ else _] => destruct (Z.eqb_spec a b) end; try done; try lia; set_solver by lia.
Qed.

(** The rows of two vectors, and the bits their exchange moves. *)
Definition vector_rows (xi yi : Z) : list Z := [2 * xi; 2 * xi + 1; 2 * yi; 2 * yi + 1].
Definition vector_bits (s : Z) : list Z := if s =? 1 then [0; 1] else [s].

Lemma testbit_double_succ s k : 1 <= s -> Z.testbit (2 * k + 1) s = Z.testbit (2 * k) s.
Proof.
  intros Hs. replace s with (Z.succ (s - 1)) by lia.
  by rewrite Z.testbit_odd_succ, Z.testbit_even_succ by lia.
Qed.

Lemma vectors_moved s xi m m' : 1 <= s <= 6 -> matrix m -> vsize m' = 128 -> 0 <= xi -> xi + 2 ^ (s - 1) < 64 ->
  Z.testbit (2 * xi) s = false ->
  (forall r, r ∉ vector_rows xi (xi + 2 ^ (s - 1)) -> blk m' r = blk m r) ->
  exchanged s (blk m (2 * xi)) (blk m (2 * xi + 2 ^ s)) (blk m' (2 * xi)) (blk m' (2 * xi + 2 ^ s)) ->
  exchanged s (blk m (2 * xi + 1)) (blk m (2 * xi + 1 + 2 ^ s)) (blk m' (2 * xi + 1)) (blk m' (2 * xi + 1 + 2 ^ s)) ->
  moved (on_rows (exchange [s]) (vector_rows xi (xi + 2 ^ (s - 1)))) m m'.
Proof.
  intros Hs Hm L' Hx Hy E Hout H1 H2. assert (P : 2 * 2 ^ (s - 1) = 2 ^ s) by (rewrite <- Z.pow_succ_r by lia; f_equal; lia).
  apply moved_writes; [done|done|auto| |intros p Hp; apply exchange_inside; [lia|done]].
  intros r Hr Hin. assert (Hr' : r = 2 * xi \/ r = 2 * xi + 2 ^ s \/ r = 2 * xi + 1 \/ r = 2 * xi + 1 + 2 ^ s).
  { unfold vector_rows in Hin. rewrite !elem_of_cons, elem_of_nil in Hin. lia. }
  assert (Hp : 0 < 2 ^ (s - 1)) by lia.
  destruct Hr' as [-> | [-> | [-> | ->]]].
  - apply (exchanged_rows s (2 * xi)); auto; lia.
  - apply (exchanged_rows s (2 * xi)); auto; lia.
  - apply (exchanged_rows s (2 * xi + 1)); auto; try lia. rewrite testbit_double_succ by lia. done.
  - apply (exchanged_rows s (2 * xi + 1)); auto; try lia. rewrite testbit_double_succ by lia. done.
Qed.

Lemma pairs_moved xi m m' : matrix m -> vsize m' = 128 -> 0 <= xi -> xi + 1 < 64 ->
  (forall r, r ∉ vector_rows xi (xi + 1) -> blk m' r = blk m r) ->
  exchanged 0 (blk m (2 * xi)) (blk m (2 * xi + 1)) (blk m' (2 * xi)) (blk m' (2 * xi + 1)) ->
  exchanged 0 (blk m (2 * (xi + 1))) (blk m (2 * (xi + 1) + 1)) (blk m' (2 * (xi + 1))) (blk m' (2 * (xi + 1) + 1)) ->
  moved (on_rows (exchange [0]) (vector_rows xi (xi + 1))) m m'.
Proof.
  intros Hm L' Hx Hy Hout H1 H2.
  apply moved_writes; [done|done|auto| |intros p Hp; apply exchange_inside; [lia|done]].
  intros r Hr Hin. assert (Hr' : (r = 2 * xi \/ r = 2 * xi + 1) \/ (r = 2 * (xi + 1) \/ r = 2 * (xi + 1) + 1)).
  { unfold vector_rows in Hin. rewrite !elem_of_cons, elem_of_nil in Hin. lia. }
  destruct Hr' as [Hr' | Hr'].
  - apply (exchanged_rows 0 (2 * xi)); auto; try lia. apply Z.testbit_even_0.
  - apply (exchanged_rows 0 (2 * (xi + 1))); auto; try lia. apply Z.testbit_even_0.
Qed.

Lemma vector_flip s xi r : 1 <= s <= 6 -> 0 <= xi -> xi + 2 ^ (s - 1) < 64 -> Z.testbit (2 * xi) s = false ->
  r ∈ vector_rows xi (xi + 2 ^ (s - 1)) -> Z.lxor r (2 ^ s) ∈ vector_rows xi (xi + 2 ^ (s - 1)).
Proof.
  intros Hs Hx Hy E Hr. assert (P : 2 * 2 ^ (s - 1) = 2 ^ s) by (rewrite <- Z.pow_succ_r by lia; f_equal; lia).
  assert (Hp : 0 < 2 ^ (s - 1)) by lia.
  destruct (flip_clear s ltac:(lia) (2 * xi) ltac:(lia) E) as (F1 & _).
  destruct (flip_clear s ltac:(lia) (2 * xi + 1) ltac:(lia) ltac:(by rewrite testbit_double_succ by lia)) as (F2 & _).
  assert (G : forall q, Z.lxor q (2 ^ s) = q + 2 ^ s -> Z.lxor (q + 2 ^ s) (2 ^ s) = q).
  { intros q Hq. by rewrite <- Hq, Z.lxor_assoc, Z.lxor_nilpotent, Z.lxor_0_r. }
  unfold vector_rows in *. rewrite !elem_of_cons, elem_of_nil in Hr.
  assert (Hr' : r = 2 * xi \/ r = 2 * xi + 2 ^ s \/ r = 2 * xi + 1 \/ r = 2 * xi + 1 + 2 ^ s) by lia.
  rewrite !elem_of_cons, elem_of_nil. destruct Hr' as [-> | [-> | [-> | ->]]]; rewrite ?F1, ?F2, ?G by done; lia.
Qed.

Lemma vector_stays s xi : 1 <= s <= 6 -> 0 <= xi -> xi + 2 ^ (s - 1) < 64 -> Z.testbit (2 * xi) s = false ->
  stays (exchange (vector_bits s)) (vector_rows xi (xi + 2 ^ (s - 1))).
Proof.
  intros Hs Hx Hy E. unfold vector_bits. apply exchange_stays.
  - destruct (s =? 1); repeat apply Forall_cons_2; try lia; apply Forall_nil_2.
  - intros b r Hb Hr. assert (Hb' : b = s \/ b = 0) by (destruct (Z.eqb_spec s 1); set_solver).
    destruct Hb' as [-> | ->]; [by apply vector_flip|].
    assert (G : forall q, Z.lxor (2 * q) (2 ^ 0) = 2 * q + 1 /\ Z.lxor (2 * q + 1) (2 ^ 0) = 2 * q).
    { intros q. change (2 ^ 0) with 1. assert (F : Z.lxor (2 * q) 1 = 2 * q + 1) by (by destruct q as [|q|[q|q|]]).
      split; [done|]. by rewrite <- F, Z.lxor_assoc, Z.lxor_nilpotent, Z.lxor_0_r. }
    unfold vector_rows in *. rewrite !elem_of_cons, elem_of_nil in Hr |- *.
    destruct Hr as [-> | [-> | [-> | [-> | []]]]]; destruct (G xi), (G (xi + 2 ^ (s - 1))); lia.
Qed.

Lemma avx_exchange_moves s xi m : 1 <= s <= 6 -> matrix m -> 0 <= xi -> xi + 2 ^ (s - 1) < 64 -> Z.testbit (2 * xi) s = false ->
  exists m', avx_exchange s xi (xi + 2 ^ (s - 1)) m = Some m' /\
    moved (on_rows (exchange (vector_bits s)) (vector_rows xi (xi + 2 ^ (s - 1)))) m m'.
Proof.
  intros Hs Hm Hx Hy E. set (yi := xi + 2 ^ (s - 1)). assert (Hp : 0 < 2 ^ (s - 1)) by lia.
  assert (P : 2 * 2 ^ (s - 1) = 2 ^ s) by (rewrite <- Z.pow_succ_r by lia; f_equal; lia).
  destruct (load256_at m xi Hm) as [Ex Wx]; [lia|]. destruct (load256_at m yi Hm) as [Ey Wy]; [lia|].
  pose proof Hm as [Lm _]. unfold avx_exchange. rewrite Ex, Ey. cbn [mbind option_bind].
  set (x := (blk m (2 * xi), blk m (2 * xi + 1))) in *. set (y := (blk m (2 * yi), blk m (2 * yi + 1))) in *.
  unfold vector_bits. destruct (Z.eqb_spec s 1) as [Es | Hs1].
  - subst s. change (2 ^ (1 - 1)) with 1 in *.
    destruct (exchange_pairs_ok x y Wx Wy) as [P1 P2]. destruct (avx_exchange_pairs x y) as [x1 y1]. cbn [fst snd] in P1, P2.
    destruct (store256_two m xi yi x1 y1 Lm) as (m1 & _ & L1 & B1 & B2 & B3 & B4 & B5); [lia..|].
    assert (H1 : moved (on_rows (exchange [0]) (vector_rows xi yi)) m m1).
    { apply pairs_moved; try done. - by rewrite B1, B2. - by rewrite <- B3, <- B4 in P2. }
    assert (W1 : words256 x1 /\ words256 y1) by (split; [exact (exchanged_words _ _ _ _ _ P1)|exact (exchanged_words _ _ _ _ _ P2)]).
    destruct (exchange_lanes_ok 1 x1 y1) as [Q1 Q2]; [lia|apply W1..|]. cbn [Z.eqb Pos.eqb].
    destruct (avx_exchange_lanes 1 x1 y1) as [x2 y2]. cbn [fst snd] in Q1, Q2.
    destruct (store256_two m xi yi x2 y2 Lm) as (m2 & E2 & L2 & C1 & C2 & C3 & C4 & C5); [lia..|].
    exists m2. split; [exact E2|].
    apply (moved_rows_trans (exchange [0]) (exchange [1]) _ _ m1); [done| |].
    + apply (vectors_moved 1); try done; [apply H1|intros r Hr; by rewrite C5, B5|..]; change (2 ^ 1) with 2.
      * replace (2 * xi + 2) with (2 * yi) by lia. by rewrite B1, B3, C1, C3.
      * replace (2 * xi + 1 + 2) with (2 * yi + 1) by lia. by rewrite B2, B4, C2, C4.
    + apply exchange_stays; [by apply Forall_singleton|]. intros b r ->%list_elem_of_singleton Hr. by apply (vector_flip 1).
  - assert (H : exchanged s x.1 y.1 (if s =? 6 then avx_exchange_halves x y else avx_exchange_lanes s x y).1.1
                  (if s =? 6 then avx_exchange_halves x y else avx_exchange_lanes s x y).2.1 /\
                exchanged s x.2 y.2 (if s =? 6 then avx_exchange_halves x y else avx_exchange_lanes s x y).1.2
                  (if s =? 6 then avx_exchange_halves x y else avx_exchange_lanes s x y).2.2).
    { destruct (Z.eqb_spec s 6) as [-> |]; [split; apply unpack_exchanged|]. apply exchange_lanes_ok; [lia|done..]. }
    destruct (if s =? 6 then _ else _) as [x2 y2]. destruct H as [Q1 Q2]. cbn [fst snd] in Q1, Q2.
    destruct (store256_two m xi yi x2 y2 Lm) as (m2 & E2 & L2 & C1 & C2 & C3 & C4 & C5); [lia..|].
    exists m2. split; [exact E2|]. apply vectors_moved; try done.
    + replace (2 * xi + 2 ^ s) with (2 * yi) by lia. by rewrite C1, C3.
    + replace (2 * xi + 1 + 2 ^ s) with (2 * yi + 1) by lia. by rewrite C2, C4.
Qed.

(** *** The recursion *)

(** Runs of the recursion with two exchanges, of which the second records what the
    first does. *)
Section Simulation.
Context {A B : Type} (R : A -> B -> Prop) (s : Z).
Context (ex : Z -> Z -> Z -> A -> option A) (lg : Z -> Z -> Z -> B -> option B).
Hypothesis Hstep : forall xi yi a t t', R a t -> lg s xi yi t = Some t' -> exists a', ex s xi yi a = Some a' /\ R a' t'.

Lemma iter1_simulates fuel rs j o a t t' : R a t -> avx_transpose_block_iter1 lg fuel s rs j o t = Some t' ->
  exists a', avx_transpose_block_iter1 ex fuel s rs j o a = Some a' /\ R a' t'.
Proof using All.
  revert j a t t'. induction fuel as [|fuel IH]; intros j a t t' HR E; [done|]. cbn [avx_transpose_block_iter1] in *.
  destruct (j =? Z.shiftl 1 s); [simplify_eq; by exists a|]. destruct (j <? Z.shiftl 1 s); [|done].
  destruct (avx_transpose_block_iter1 lg fuel s rs _ o t) as [t1|] eqn:E1; [|done]. cbn [mbind option_bind] in E.
  destruct (IH _ _ _ _ HR E1) as (a1 & -> & HR1). cbn [mbind option_bind]. by eapply Hstep.
Qed.

Lemma iter2_simulates fuel rs n o a t t' : R a t -> avx_transpose_block_iter2 lg fuel s rs n o t = Some t' ->
  exists a', avx_transpose_block_iter2 ex fuel s rs n o a = Some a' /\ R a' t'.
Proof using All.
  revert n a t t'. induction fuel as [|fuel IH]; intros n a t t' HR E; [done|]. cbn [avx_transpose_block_iter2] in *. cbv zeta in *.
  destruct (n =? 0); [simplify_eq; by exists a|]. destruct (n mod Z.shiftl 1 (s + 1) =? 0); [|done].
  destruct (avx_transpose_block_iter2 lg fuel s rs _ o t) as [t1|] eqn:E1; [|done]. cbn [mbind option_bind] in E.
  destruct (IH _ _ _ _ HR E1) as (a1 & -> & HR1). cbn [mbind option_bind]. by eapply iter1_simulates.
Qed.
End Simulation.

(** The record of the rows that were exchanged. *)
Definition log_exchange (s xi yi : Z) (rows : list Z) : option (list Z) :=
  assert! (1 <=? s) && (s <=? 6) && (0 <=? xi) && (yi =? xi + 2 ^ (s - 1)) && (yi <? 64) && negb (Z.testbit (2 * xi) s);
  touch (vector_rows xi yi) rows.

Lemma stage_moves s rs n o m rows : matrix m -> avx_transpose_block_iter2 log_exchange 65 s rs n o [] = Some rows ->
  exists m', avx_transpose_block_iter2 avx_exchange 65 s rs n o m = Some m' /\ moved (on_rows (exchange (vector_bits s)) rows) m m'.
Proof.
  intros Hm E. eapply (iter2_simulates (fun m' rows => progress (exchange (vector_bits s)) m rows m') s) in E; [exact E| |by apply progress_none].
  intros xi yi m1 t t' H1 Hl. unfold log_exchange in Hl. destruct (Z.testbit (2 * xi) s) eqn:Et; [by rewrite andb_false_r in Hl|].
  destruct (_ && _) eqn:Ec in Hl; [|done]. assert (Hyi : yi = xi + 2 ^ (s - 1)) by lia. subst yi.
  destruct (avx_exchange_moves s xi m1) as (m2 & E2 & H2); [lia|apply H1|lia|lia|done|].
  exists m2. split; [done|]. eapply progress_touch; [done|done| |done]. apply vector_stays; [lia|lia|lia|done].
Qed.

(** The instances with these parameters exchange exactly the rows [rows], which the
    exchanged bits do not leave. *)
Definition stage_ok (s rs n o : Z) (rows : list Z) : bool :=
  match avx_transpose_block_iter2 log_exchange 65 s rs n o [] with
  | Some rows' => all128 (fun r => Bool.eqb (bool_decide (r ∈ rows')) (bool_decide (r ∈ rows)))
  | None => false
  end && forallb (fun r => forallb (fun b => bool_decide (Z.lxor r (2 ^ b) ∈ rows)) (vector_bits s)) rows && (1 <=? s) && (s <=? 6).

Definition bits_from (s : Z) (n : nat) : list Z := concat (vector_bits <$> seqZ s (Z.of_nat n)).

Lemma block_moves (n : nat) fuel s rs mr o m rows : (n < fuel)%nat -> matrix m ->
  forallb (fun s' => stage_ok s' rs (Z.shiftl 1 (mr + (s + Z.of_nat n))) o rows) (seqZ s (Z.of_nat n)) = true ->
  exists m', avx_transpose_block avx_exchange fuel s (s + Z.of_nat n) rs mr o m = Some m' /\
    moved (on_rows (exchange (bits_from s n)) rows) m m' /\ stays (exchange (bits_from s n)) rows.
Proof.
  revert fuel s m. induction n as [|n IH]; intros fuel s m Hf Hm Hok; (destruct fuel as [|fuel]; [lia|]); cbn [avx_transpose_block].
  - rewrite Z.add_0_r, Z.eqb_refl. exists m. split; [done|]. split; [|by intros p].
    apply (moved_ext id); [|by apply moved_id]. intros p _. unfold on_rows. by case_bool_decide.
  - replace (s =? s + Z.of_nat (S n)) with false by lia. replace (s <? s + Z.of_nat (S n)) with true by lia.
    rewrite seqZ_cons in Hok by lia. cbn [forallb] in Hok. apply andb_true_iff in Hok as [Hs Hok]. unfold stage_ok in Hs.
    destruct (avx_transpose_block_iter2 log_exchange _ _ _ _ _ _) as [rows'|] eqn:E; [|done].
    apply andb_true_iff in Hs as [Hs Hs6]. apply andb_true_iff in Hs as [Hs Hs1]. apply andb_true_iff in Hs as [Hr Hc].
    destruct (stage_moves s rs _ o m rows' Hm E) as (m1 & E1 & H1). rewrite E1. cbn [mbind option_bind].
    assert (H1' : moved (on_rows (exchange (vector_bits s)) rows) m m1).
    { revert H1. apply moved_ext. intros p [Hp _]. unfold on_rows. pose proof (all128_at _ _ Hr Hp) as H. cbv beta in H.
      apply Bool.eqb_prop in H. by rewrite H. }
    replace (s + Z.of_nat (S n)) with (s + 1 + Z.of_nat n) in * by lia.
    replace (Z.pred (Z.of_nat (S n))) with (Z.of_nat n) in Hok by lia. replace (Z.succ s) with (s + 1) in Hok by lia.
    destruct (IH fuel (s + 1) m1) as (m2 & E2 & H2 & S2); [lia|apply H1|done|]. exists m2. split; [exact E2|].
    assert (Eb : forall p, exchange (bits_from s (S n)) p = exchange (vector_bits s) (exchange (bits_from (s + 1) n) p)).
    { intros p. unfold bits_from. rewrite seqZ_cons by lia. replace (Z.pred (Z.of_nat (S n))) with (Z.of_nat n) by lia.
      replace (Z.succ s) with (s + 1) by lia. cbn [fmap list_fmap concat]. apply exchange_app. }
    split.
    + pose proof (moved_rows_trans _ _ _ _ _ _ H1' H2 S2) as H. revert H. apply moved_ext. intros p Hp. unfold on_rows.
      case_bool_decide; [by rewrite Eb|done].
    + assert (S1 : stays (exchange (vector_bits s)) rows).
      { apply exchange_stays.
        - unfold vector_bits. destruct (s =? 1); repeat apply Forall_cons_2; try lia; apply Forall_nil_2.
        - intros b r Hb Hr0. rewrite forallb_forall in Hc. specialize (Hc r ltac:(by apply list_elem_of_In)). rewrite forallb_forall in Hc.
          specialize (Hc b ltac:(by apply list_elem_of_In)). by apply bool_decide_eq_true in Hc. }
      intros p Hp Hin. rewrite Eb. apply S1; [|by apply S2].
      pose proof (moved_inside _ _ _ H2 p Hp) as HI. unfold on_rows in HI. by rewrite bool_decide_eq_true_2 in HI.
Qed.

(** The rows of sixteen vectors, and the rows whose vector is [i] modulo four. *)
Definition low_rows (i : Z) : list Z := seqZ (2 * i) 32.
Definition high_rows (i : Z) : list Z := concat ((fun k => [8 * k + 2 * i; 8 * k + 2 * i + 1]) <$> seqZ 0 16).

Lemma low_blocks i m : i ∈ [0; 16; 32; 48] -> matrix m ->
  exists m', avx_transpose_block avx_exchange 8 1 3 1 2 i m = Some m' /\
    moved (on_rows (exchange [0; 1; 2]) (low_rows i)) m m' /\ stays (exchange [0; 1; 2]) (low_rows i).
Proof.
  intros Hi Hm. assert (H : forallb (fun i => forallb (fun s => stage_ok s 1 32 i (low_rows i)) (seqZ 1 2)) [0; 16; 32; 48] = true)
    by (vm_compute; reflexivity).
  rewrite forallb_forall in H. apply list_elem_of_In in Hi. specialize (H i Hi).
  apply (block_moves 2 8 1 1 2 i m (low_rows i)); [lia|done|exact H].
Qed.

Lemma high_blocks i m : 0 <= i < 4 -> matrix m ->
  exists m', avx_transpose_block avx_exchange 8 3 7 3 0 i m = Some m' /\
    moved (on_rows (exchange [3; 4; 5; 6]) (high_rows i)) m m' /\ stays (exchange [3; 4; 5; 6]) (high_rows i).
Proof.
  intros Hi Hm. assert (H : forallb (fun i => forallb (fun s => stage_ok s 3 128 i (high_rows i)) (seqZ 3 4)) (seqZ 0 4) = true)
    by (vm_compute; reflexivity).
  rewrite forallb_forall in H. specialize (H i ltac:(apply list_elem_of_In, elem_of_seqZ; lia)).
  apply (block_moves 4 8 3 3 0 i m (high_rows i)); [lia|done|exact H].
Qed.

Lemma avx_low m : matrix m -> exists m', avx_transpose avx_exchange 2 3 m = Some m' /\ moved (exchange [0; 1; 2]) m m'.
Proof.
  intros Hm. cbn [avx_transpose]. change (3 <=? avxBlockShift + 1) with true. change (avxBlockShift + 1 - 3) with 2.
  change avxBlockSize with 16.
  destruct (low_blocks 0 m) as (m1 & E1 & H1 & S1); [by apply (bool_decide_unpack _)|done|].
  destruct (low_blocks 16 m1) as (m2 & E2 & H2 & S2); [by apply (bool_decide_unpack _)|apply H1|].
  destruct (low_blocks 32 m2) as (m3 & E3 & H3 & S3); [by apply (bool_decide_unpack _)|apply H2|].
  destruct (low_blocks 48 m3) as (m4 & E4 & H4 & S4); [by apply (bool_decide_unpack _)|apply H3|].
  exists m4. split.
  - do 4 (cbn [avx_for]; match goal with |- context [if ?a <? 64 then _ else _] => change (a <? 64) with true end;
      cbv iota beta; rewrite ?Z.add_0_l; change (16 + 16) with 32; change (32 + 16) with 48; rewrite ?E1, ?E2, ?E3, ?E4; cbn [mbind option_bind]).
    done.
  - pose proof (progress_none (exchange [0; 1; 2]) m Hm) as P0.
    eapply (progress_touch _ _ _ _ (low_rows 0)) in P0; [|vm_compute; reflexivity|done..].
    eapply (progress_touch _ _ _ _ (low_rows 16)) in P0; [|vm_compute; reflexivity|done..].
    eapply (progress_touch _ _ _ _ (low_rows 32)) in P0; [|vm_compute; reflexivity|done..].
    eapply (progress_touch _ _ _ _ (low_rows 48)) in P0; [|vm_compute; reflexivity|done..].
    revert P0. apply moved_all_rows. by vm_compute.
Qed.

Lemma avx_high m : matrix m ->
  exists m', for_up 4 0 (fun i m => avx_transpose_block avx_exchange 8 3 7 3 0 i m) m = Some m' /\ moved (exchange [3; 4; 5; 6]) m m'.
Proof.
  intros Hm.
  destruct (high_blocks 0 m) as (m1 & E1 & H1 & S1); [lia|done|].
  destruct (high_blocks 1 m1) as (m2 & E2 & H2 & S2); [lia|apply H1|].
  destruct (high_blocks 2 m2) as (m3 & E3 & H3 & S3); [lia|apply H2|].
  destruct (high_blocks 3 m3) as (m4 & E4 & H4 & S4); [lia|apply H3|].
  exists m4. split.
  - cbn [for_up]. rewrite E1. cbn [mbind option_bind]. change (0 + 1) with 1. rewrite E2. cbn [mbind option_bind].
    change (1 + 1) with 2. rewrite E3. cbn [mbind option_bind]. change (2 + 1) with 3. by rewrite E4.
  - pose proof (progress_none (exchange [3; 4; 5; 6]) m Hm) as P0.
    eapply (progress_touch _ _ _ _ (high_rows 0)) in P0; [|vm_compute; reflexivity|done..].
    eapply (progress_touch _ _ _ _ (high_rows 1)) in P0; [|vm_compute; reflexivity|done..].
    eapply (progress_touch _ _ _ _ (high_rows 2)) in P0; [|vm_compute; reflexivity|done..].
    eapply (progress_touch _ _ _ _ (high_rows 3)) in P0; [|vm_compute; reflexivity|done..].
    revert P0. apply moved_all_rows. by vm_compute.
Qed.

Lemma avx_transposes m : matrix m -> exists m', AvxTranspose128 m = Some m' /\ moved flipped m m'.
Proof.
  intros Hm. destruct (avx_low m Hm) as (m1 & E1 & H1). destruct (avx_high m1 ltac:(apply H1)) as (m2 & E2 & H2).
  exists m2. split.
  - unfold AvxTranspose128. change (avx_transpose avx_exchange 3 7 m) with
      (m1 ← avx_transpose avx_exchange 2 3 m; for_up 4 0 (fun i m => avx_transpose_block avx_exchange 8 3 7 3 0 i m) m1).
    rewrite E1. exact E2.
  - pose proof (moved_trans _ _ _ _ _ H1 H2) as H. revert H. apply moved_ext. intros p Hp.
    rewrite <- (exchange_app [0; 1; 2] [3; 4; 5; 6]). apply exchange_all; [by apply (bool_decide_unpack _)..|done|done].
Qed.
