(* ===== verification/TransposeSquares.v ===== *)
(** The transposition with byte masks: sixteen by sixteen squares are loaded as bytes
    and stored as the top bits of the bytes, shifted. *)

From Stdlib Require Import ZArith Lia ZifyBool Bool.
From stdpp Require Import base numbers list option sets.
From S2P Require Import Prelude OtStore CrHash LinearCode Transpose TransposeFacts.

Local Open Scope Z_scope.

(** *** Parts of words *)

(** A part of [n] bits of a word, replaced. *)
Lemma replaced_part n w l x ones c : 0 < n -> 0 <= l -> ones = 2 ^ n - 1 -> 0 <= x < 2 ^ n -> 0 <= c ->
  Z.testbit (Z.lor (Z.ldiff w (Z.shiftl ones (n * l))) (Z.shiftl x (n * l))) c =
    if c / n =? l then Z.testbit x (c mod n) else Z.testbit w c.
Proof.
  intros Hn Hl -> Hx Hc. rewrite Z.lor_spec, Z.ldiff_spec, !Z.shiftl_spec by lia.
  pose proof (Z.div_mod c n ltac:(lia)). pose proof (Z.mod_pos_bound c n ltac:(lia)). pose proof (Z.div_pos c n ltac:(lia) ltac:(lia)).
  assert (0 <= n * l) by (apply Z.mul_nonneg_nonneg; lia). rewrite Z.sub_1_r, <- Z.ones_equiv, testbit_ones by lia.
  destruct (Z.eqb_spec (c / n) l) as [<- | Hne].
  - replace (c - n * (c / n)) with (c mod n) by lia. replace (0 <=? c mod n) with true by lia. replace (c mod n <? n) with true by lia.
    by rewrite andb_false_r.
  - destruct (Z.lt_ge_cases (c / n) l) as [Hlt|Hge].
    + assert (n * (c / n + 1) <= n * l) by (apply Z.mul_le_mono_nonneg_l; lia).
      rewrite (Z.testbit_neg_r x) by lia. replace (0 <=? c - n * l) with false by lia. by rewrite andb_true_r, orb_false_r.
    + assert (n * (l + 1) <= n * (c / n)) by (apply Z.mul_le_mono_nonneg_l; lia).
      rewrite (testbit_high n x) by lia. replace (c - n * l <? n) with false by lia. by rewrite !andb_false_r, andb_true_r, orb_false_r.
Qed.

Lemma replaced_word n w l x ones : 0 < n -> 0 <= l -> n * (l + 1) <= 128 -> ones = 2 ^ n - 1 -> 0 <= x < 2 ^ n -> 0 <= w < 2 ^ 128 ->
  0 <= Z.lor (Z.ldiff w (Z.shiftl ones (n * l))) (Z.shiftl x (n * l)) < 2 ^ 128.
Proof.
  intros Hn Hl Hnl Ho Hx Hw. set (v := Z.lor _ _). assert (Hv : 0 <= v).
  { apply Z.lor_nonneg. split; [apply Z.ldiff_nonneg; lia|apply Z.shiftl_nonneg; lia]. }
  split; [done|]. apply bits_bound; [lia|done|]. intros j Hj. unfold v. rewrite replaced_part by (done || lia).
  rewrite (testbit_high 128 w) by lia. destruct (Z.eqb_spec (j / n) l) as [<- |]; [|done].
  pose proof (Z.div_mod j n ltac:(lia)). pose proof (Z.mod_pos_bound j n ltac:(lia)). lia.
Qed.

Lemma byte_at_ok w l : 0 <= l < 16 -> exists x, byte_at w l = Some x /\ 0 <= x < 2 ^ 8 /\
  forall t, 0 <= t < 8 -> Z.testbit x t = Z.testbit w (8 * l + t).
Proof.
  intros Hl. unfold byte_at. replace ((0 <=? l) && (l <? 16)) with true by lia. eexists. split; [reflexivity|].
  change 0xff with (Z.ones 8). rewrite Z.land_ones by lia. split; [apply Z.mod_pos_bound; lia|].
  intros t Ht. rewrite testbit_mod, testbit_shiftr by lia. replace (t <? 8) with true by lia. cbn [andb]. f_equal. lia.
Qed.

Lemma put_byte_ok w l x : 0 <= l < 16 -> 0 <= x < 2 ^ 8 -> 0 <= w < 2 ^ 128 -> exists w', put_byte w l x = Some w' /\ 0 <= w' < 2 ^ 128 /\
  forall c, 0 <= c -> Z.testbit w' c = if c / 8 =? l then Z.testbit x (c mod 8) else Z.testbit w c.
Proof.
  intros Hl Hx Hw. unfold put_byte. replace ((0 <=? l) && (l <? 16)) with true by lia. eexists. split; [reflexivity|].
  split; [apply (replaced_word 8); lia|]. intros c Hc. apply (replaced_part 8); lia.
Qed.

Lemma put_u16_ok w l x : 0 <= l < 8 -> 0 <= x < 2 ^ 16 -> 0 <= w < 2 ^ 128 -> exists w', put_u16 w l x = Some w' /\ 0 <= w' < 2 ^ 128 /\
  forall c, 0 <= c -> Z.testbit w' c = if c / 16 =? l then Z.testbit x (c mod 16) else Z.testbit w c.
Proof.
  intros Hl Hx Hw. unfold put_u16. replace ((0 <=? l) && (l <? 8)) with true by lia. eexists. split; [reflexivity|].
  split; [apply (replaced_word 16); lia|]. intros c Hc. apply (replaced_part 16); lia.
Qed.

Lemma movemask_bit x l : 0 <= l < 16 -> Z.testbit (movemask_epi8 x) l = Z.testbit x (8 * l + 7).
Proof.
  intros Hl. unfold movemask_epi8. rewrite (testbit_parts (fun l => Z.b2z (Z.testbit x (8 * l + 7))) id) by lia.
  rewrite (existsb_one _ _ l); [unfold id; rewrite Z.sub_diag; apply Z.b2z_bit0|done|]. intros i Hi Hne. unfold id.
  destruct (Z.lt_ge_cases l i); [apply Z.testbit_neg_r; lia|]. apply (testbit_high 1); [destruct (Z.testbit x _); cbn; lia|lia].
Qed.

Lemma movemask_range x : 0 <= movemask_epi8 x < 2 ^ 16.
Proof.
  assert (H0 : 0 <= movemask_epi8 x).
  { apply (parts_nonneg (fun l => Z.b2z (Z.testbit x (8 * l + 7))) id). intros i _. destruct (Z.testbit x _); cbn; lia. }
  split; [done|]. apply bits_bound; [lia|done|]. intros j Hj. unfold movemask_epi8.
  rewrite (testbit_parts (fun l => Z.b2z (Z.testbit x (8 * l + 7))) id) by lia.
  apply not_true_iff_false. intros (i & Hi & E)%existsb_exists. apply list_elem_of_In, elem_of_seqZ in Hi.
  rewrite (testbit_high 1) in E; [done|destruct (Z.testbit x _); cbn; lia|unfold id; lia].
Qed.

Definition block_word (x : Z) : Prop := 0 <= x < 2 ^ 128.
Definition pair_words (a : Z * Z) : Prop := block_word a.1 /\ block_word a.2.

Lemma shifted_bit a n c : 0 <= n -> 0 <= c < 128 -> n <= c mod 8 -> Z.testbit (mm_slli_epi64 a n) c = Z.testbit a (c - n).
Proof.
  intros Hn Hc Hm. change (mm_slli_epi64 a n) with (slli 64 a n). rewrite slli_bit by (done || lia).
  replace (n <=? c mod 64) with true; [done|]. symmetry. apply Z.leb_le.
  pose proof (Z.div_mod c 8 ltac:(lia)). pose proof (Z.div_mod c 64 ltac:(lia)). pose proof (Z.mod_pos_bound c 64 ltac:(lia)). pose proof (Z.mod_pos_bound c 8 ltac:(lia)). lia.
Qed.

Lemma shifted_word a n : block_word (mm_slli_epi64 a n).
Proof. by apply (slli_word 64). Qed.

(** *** Loading a square *)

(** The square of rows [16 x ..] and columns [16 y ..], low and high bytes. *)
Definition square (m : list Z) (x y : Z) (a : Z * Z) : Prop :=
  pair_words a /\ forall l t, 0 <= l < 16 -> 0 <= t < 8 ->
    Z.testbit a.1 (8 * l + t) = mbit m (16 * x + l) (16 * y + t) /\
    Z.testbit a.2 (8 * l + t) = mbit m (16 * x + l) (16 * y + 8 + t).

Lemma load_square m a x y : matrix m -> pair_words a -> 0 <= x < 8 -> 0 <= y < 8 ->
  exists a', sse_loadSubSquare m a x y = Some a' /\ square m x y a'.
Proof.
  intros [Lm W] Ha Hx Hy. unfold sse_loadSubSquare.
  match goal with |- exists a', for_up _ _ ?f _ = _ /\ _ =>
    destruct (for_up_inv (fun n a => pair_words a /\ forall l t, 0 <= l < n -> 0 <= t < 8 ->
      Z.testbit a.1 (8 * l + t) = mbit m (16 * x + l) (16 * y + t) /\ Z.testbit a.2 (8 * l + t) = mbit m (16 * x + l) (16 * y + 8 + t))
      f 16 0 a) as (a' & E & H) end.
  - split; [done|]. intros l t Hl. lia.
  - intros l out Hl [[W1 W2] Hout]. rewrite vget_blk by lia. cbn [mbind option_bind]. set (w := blk m (16 * x + l)).
    destruct (byte_at_ok w (2 * y)) as (b0 & -> & R0 & B0); [lia|]. destruct (byte_at_ok w (2 * y + 1)) as (b1 & -> & R1 & B1); [lia|].
    cbn [mbind option_bind].
    destruct (put_byte_ok out.1 l b0) as (o0 & -> & V0 & P0); [lia|done|done|]. destruct (put_byte_ok out.2 l b1) as (o1 & -> & V1 & P1); [lia|done|done|].
    cbn [mbind option_bind]. eexists. split; [reflexivity|]. split; [done|]. intros l' t Hl' Ht. cbn [fst snd].
    destruct (div_mod_split 8 l' t ltac:(lia)) as [D M]. replace (l' * 8 + t) with (8 * l' + t) in D, M by lia.
    rewrite P0, P1, D, M by lia. destruct (Z.eqb_spec l' l) as [-> | Hne]; [|apply Hout; lia].
    rewrite B0, B1 by done. unfold mbit. fold w. split; f_equal; lia.
  - exists a'. split; [exact E|]. exact H.
Qed.

(** *** Storing a square *)

(** The bit of the transposed square at row [r] and column [c] of the matrix. *)
Definition square_bit (a : Z * Z) (r c : Z) : bool :=
  if r mod 16 <? 8 then Z.testbit a.1 (8 * (c mod 16) + r mod 16) else Z.testbit a.2 (8 * (c mod 16) + (r mod 16 - 8)).

(** The rows of the square [(x, y)] that satisfy [D] hold the transposed square. *)
Definition stored (a : Z * Z) (x y : Z) (D : Z -> bool) (m m' : list Z) : Prop :=
  matrix m' /\ forall r c, 0 <= r < 128 -> 0 <= c < 128 ->
    mbit m' r c = if (r / 16 =? x) && (c / 16 =? y) && D (r mod 16) then square_bit a r c else mbit m r c.

Lemma store_step a x y D D' m m1 q v : stored a x y D m m1 -> 0 <= x < 8 -> 0 <= y < 8 -> 0 <= q < 16 -> 0 <= v < 2 ^ 16 ->
  (forall l, 0 <= l < 16 -> Z.testbit v l = if q <? 8 then Z.testbit a.1 (8 * l + q) else Z.testbit a.2 (8 * l + (q - 8))) ->
  (forall r, 0 <= r < 16 -> D' r = D r || (r =? q)) ->
  exists m2, store_u16 m1 (16 * x + q) y v = Some m2 /\ stored a x y D' m m2.
Proof.
  intros [[L1 W1] B1] Hx Hy Hq Hv Hbits HD. unfold store_u16. rewrite vget_blk by lia. cbn [mbind option_bind].
  destruct (put_u16_ok (blk m1 (16 * x + q)) y v) as (w' & -> & Hw & Pw); [lia|done|apply W1; lia|]. cbn [mbind option_bind].
  rewrite vset_Some by lia. eexists. split; [reflexivity|]. split.
  - split; [by rewrite vsize_insert|]. intros r Hr. rewrite blk_insert by lia. destruct (_ =? _); [exact Hw|by apply W1].
  - intros r c Hr Hc. unfold mbit at 1. rewrite blk_insert by lia.
    destruct (div_mod_split 16 x q Hq) as [Dq Mq]. replace (x * 16 + q) with (16 * x + q) in Dq, Mq by lia.
    pose proof (Z.mod_pos_bound r 16 ltac:(lia)) as Hrm. pose proof (Z.div_mod r 16 ltac:(lia)) as Hr16.
    pose proof (Z.mod_pos_bound c 16 ltac:(lia)) as Hcm. rewrite HD by done.
    destruct (Z.eqb_spec r (16 * x + q)) as [-> | Hne].
    + rewrite Pw, Dq, Mq, !Z.eqb_refl, orb_true_r, andb_true_r by lia. cbn [andb].
      destruct (c / 16 =? y) eqn:Ey; [|].
      * rewrite Hbits by done. unfold square_bit. by rewrite Mq.
      * change (Z.testbit (blk m1 (16 * x + q)) c) with (mbit m1 (16 * x + q) c). rewrite B1, Ey by lia. by destruct ((16 * x + q) / 16 =? x).
    + change (Z.testbit (blk m1 r) c) with (mbit m1 r c). rewrite B1 by done.
      destruct (Z.eqb_spec (r / 16) x) as [Ex |]; [|done]. replace (r mod 16 =? q) with false by lia. by rewrite orb_false_r.
Qed.

Lemma store_square m a x y : matrix m -> pair_words a -> 0 <= x < 8 -> 0 <= y < 8 ->
  exists m' a', sse_transposeSubSquare m a x y = Some (m', a') /\ pair_words a' /\ stored a x y (fun _ => true) m m'.
Proof.
  intros Hm Ha Hx Hy. unfold sse_transposeSubSquare.
  match goal with |- exists m' a', for_up _ _ ?f _ = _ /\ _ =>
    destruct (for_up_inv (fun j s => pair_words s.2 /\ stored a x y (fun r => (7 - j <? r mod 8)) m s.1 /\
      forall c, 0 <= c < 128 -> j <= c mod 8 -> Z.testbit s.2.1 c = Z.testbit a.1 (c - j) /\ Z.testbit s.2.2 c = Z.testbit a.2 (c - j))
      f 8 0 (m, a)) as ([m' a'] & E & Ha' & H & _) end.
  - split; [done|]. split; [split; [done|]|].
    + intros r c Hr Hc. pose proof (Z.mod_pos_bound (r mod 16) 8 ltac:(lia)). replace (7 - 0 <? _) with false by lia. by rewrite andb_false_r.
    + intros c Hc _. by rewrite Z.sub_0_r.
  - intros j [out s] Hj (Hs & Hst & Hsh). cbn [fst snd] in *.
    assert (Hbits : forall l, 0 <= l < 16 -> Z.testbit (movemask_epi8 s.1) l = Z.testbit a.1 (8 * l + (7 - j)) /\
                                          Z.testbit (movemask_epi8 s.2) l = Z.testbit a.2 (8 * l + (7 - j))).
    { intros l Hl. rewrite !movemask_bit by done. destruct (div_mod_split 8 l 7 ltac:(lia)) as [_ M].
      replace (l * 8 + 7) with (8 * l + 7) in M by lia. destruct (Hsh (8 * l + 7)) as [-> ->]; [lia|lia|]. split; f_equal; lia. }
    destruct (store_step a x y _ (fun r => (7 - j <? r mod 8) || (r =? 7 - j)) m out (7 - j) (movemask_epi8 s.1) Hst) as (m1 & E1 & H1);
      [lia|lia|lia|apply movemask_range|intros l Hl; replace (7 - j <? 8) with true by lia; by apply Hbits|reflexivity|].
    destruct (store_step a x y _ (fun r => 7 - (j + 1) <? r mod 8) m m1 (15 - j) (movemask_epi8 s.2) H1) as (m2 & E2 & H2);
      [lia|lia|lia|apply movemask_range|..].
    { intros l Hl. replace (15 - j <? 8) with false by lia. replace (15 - j - 8) with (7 - j) by lia. by apply Hbits. }
    { intros r Hr. assert (Hr8 : r mod 8 = r \/ r mod 8 = r - 8 /\ 8 <= r).
      { destruct (Z.lt_ge_cases r 8); [left; apply Z.mod_small; lia|right]. split; [|done].
        replace r with (r - 8 + 1 * 8) at 1 by lia. rewrite Z.mod_add by lia. apply Z.mod_small. lia. }
      pose proof (Z.mod_pos_bound r 8 ltac:(lia)). lia. }
    replace (16 * x + 7 - j) with (16 * x + (7 - j)) by lia. replace (16 * x + 15 - j) with (16 * x + (15 - j)) by lia.
    rewrite E1. cbn [mbind option_bind]. rewrite E2. cbn [mbind option_bind]. eexists. split; [reflexivity|]. cbn [fst snd].
    split; [split; apply shifted_word|]. split; [exact H2|].
    intros c Hc Hcj. pose proof (Z.mod_pos_bound c 8 ltac:(lia)). pose proof (Z.div_mod c 8 ltac:(lia)).
    rewrite !shifted_bit by lia.
    assert (Hc1 : (c - 1) mod 8 = c mod 8 - 1).
    { symmetry. apply (Z.mod_unique_pos _ _ (c / 8)); lia. }
    destruct (Hsh (c - 1)) as [-> ->]; [lia|lia|]. split; f_equal; lia.
  - exists m', a'. split; [exact E|]. split; [done|]. destruct H as [Hm' HB]. split; [done|]. intros r c Hr Hc. rewrite HB by done.
    cbn [fst]. pose proof (Z.mod_pos_bound (r mod 16) 8 ltac:(lia)). by replace (7 - (0 + Z.of_nat 8) <? _) with true by lia.
Qed.

(** *** All squares *)

(** Positions in the squares that satisfy [D] are flipped. *)
Definition in_squares (D : Z -> Z -> bool) (p : Z * Z) : Z * Z := if D (p.1 / 16) (p.2 / 16) then flipped p else p.

Lemma squares_inside D p : inside p -> inside (in_squares D p).
Proof. intros [H1 H2]. unfold in_squares. by case_match. Qed.

Lemma squares_more D D' D'' m m1 m2 : moved (in_squares D) m m1 -> moved (in_squares D') m1 m2 ->
  (forall a b, D' a b = D' b a) -> (forall a b, D a b = D b a) ->
  (forall a b, 0 <= a < 8 -> 0 <= b < 8 -> D a b && D' a b = false /\ D'' a b = D a b || D' a b) ->
  moved (in_squares D'') m m2.
Proof.
  intros H1 H2 Hs' Hs Hd. pose proof (moved_trans _ _ _ _ _ H1 H2) as H. revert H. apply moved_ext. intros [r c] [Hr Hc].
  cbn in Hr, Hc. unfold in_squares. cbn [fst snd].
  destruct (Hd (r / 16) (c / 16)) as [Hdis ->]; [split; [apply Z.div_pos|apply Z.div_lt_upper_bound]; lia..|].
  destruct (D' (r / 16) (c / 16)); cbn [flipped fst snd]; [|by rewrite orb_false_r].
  rewrite orb_true_r, <- Hs. by destruct (D (r / 16) (c / 16)).
Qed.

Lemma square_flipped m x y a r c : square m x y a -> 0 <= r < 128 -> 0 <= c < 128 -> r / 16 = y -> c / 16 = x ->
  square_bit a r c = mbit m c r.
Proof.
  intros [_ Ha] Hr Hc Er Ec. unfold square_bit.
  pose proof (Z.div_mod r 16 ltac:(lia)). pose proof (Z.div_mod c 16 ltac:(lia)).
  pose proof (Z.mod_pos_bound r 16 ltac:(lia)). pose proof (Z.mod_pos_bound c 16 ltac:(lia)).
  destruct (Z.ltb_spec (r mod 16) 8).
  - destruct (Ha (c mod 16) (r mod 16)) as [-> _]; [lia|lia|]. f_equal; lia.
  - destruct (Ha (c mod 16) (r mod 16 - 8)) as [_ ->]; [lia|lia|]. f_equal; lia.
Qed.

Lemma stored_square m0 m a x y m' : square m0 y x a -> stored a x y (fun _ => true) m m' ->
  forall r c, 0 <= r < 128 -> 0 <= c < 128 -> mbit m' r c = if (r / 16 =? x) && (c / 16 =? y) then mbit m0 c r else mbit m r c.
Proof.
  intros Ha [_ B] r c Hr Hc. rewrite B by done. rewrite andb_true_r.
  destruct (Z.eqb_spec (r / 16) x), (Z.eqb_spec (c / 16) y); cbn [andb]; try done. by eapply square_flipped.
Qed.

Lemma stored_diagonal m j a m' : square m j j a -> stored a j j (fun _ => true) m m' ->
  moved (in_squares (fun r c => (r =? j) && (c =? j))) m m'.
Proof.
  intros Sq St. split; [apply St|intros p; apply squares_inside|].
  intros [r c] [Hr Hc]. unfold in_squares. cbn [fst snd] in *. rewrite (stored_square m m a j j m' Sq St) by done. by case_match.
Qed.

Lemma stored_swap m j k a b m1 m2 : square m k j a -> square m j k b ->
  stored a j k (fun _ => true) m m1 -> stored b k j (fun _ => true) m1 m2 ->
  moved (in_squares (fun r c => (r =? j) && (c =? k) || (r =? k) && (c =? j))) m m2.
Proof.
  intros Sa Sb Sta Stb. split; [apply Stb|intros p; apply squares_inside|].
  intros [r c] [Hr Hc]. unfold in_squares. cbn [fst snd] in *.
  rewrite (stored_square m m1 b k j m2 Sb Stb), (stored_square m m a j k m1 Sa Sta) by done.
  destruct (r / 16 =? k) eqn:E1, (c / 16 =? j) eqn:E2, (r / 16 =? j) eqn:E3, (c / 16 =? k) eqn:E4; cbn [andb orb]; done || lia.
Qed.

(** The squares that are done before round [j], and in it before square [k]. *)
Definition squares_below (j a b : Z) : bool := (a <? j) && (b <? j).
Definition squares_inner (j k a b : Z) : bool :=
  squares_below j a b || (a =? j) && ((b =? j) || (b <? k)) || (b =? j) && (a <? k).

Lemma squares_none m : matrix m -> moved (in_squares (squares_below 0)) m m.
Proof.
  intros Hm. apply (moved_ext id); [|by apply moved_id]. intros [r c] [Hr Hc]. unfold in_squares, squares_below.
  cbn [fst snd] in *. pose proof (Z.div_pos r 16 ltac:(lia) ltac:(lia)). by replace (r / 16 <? 0) with false by lia.
Qed.

Lemma squares_diagonal m j m1 m2 : moved (in_squares (squares_below j)) m m1 ->
  moved (in_squares (fun r c => (r =? j) && (c =? j))) m1 m2 -> moved (in_squares (squares_inner j 0)) m m2.
Proof. intros H1 H2. apply (squares_more _ _ _ _ _ _ H1 H2); unfold squares_inner, squares_below; intros; lia. Qed.

Lemma squares_swap m j k m1 m2 : 0 <= k < j -> moved (in_squares (squares_inner j k)) m m1 ->
  moved (in_squares (fun r c => (r =? j) && (c =? k) || (r =? k) && (c =? j))) m1 m2 -> moved (in_squares (squares_inner j (k + 1))) m m2.
Proof. intros Hk H1 H2. apply (squares_more _ _ _ _ _ _ H1 H2); unfold squares_inner, squares_below; intros; lia. Qed.

Lemma squares_round m j m' : 0 <= j -> moved (in_squares (squares_inner j j)) m m' -> moved (in_squares (squares_below (j + 1))) m m'.
Proof.
  intros Hj. apply moved_ext. intros [r c] [Hr Hc]. cbn in Hr, Hc. unfold in_squares. cbn [fst snd].
  assert (0 <= r / 16) by (apply Z.div_pos; lia). assert (0 <= c / 16) by (apply Z.div_pos; lia).
  replace (squares_inner j j (r / 16) (c / 16)) with (squares_below (j + 1) (r / 16) (c / 16)); [done|].
  unfold squares_inner, squares_below. lia.
Qed.

Lemma squares_all m m' : moved (in_squares (squares_below 8)) m m' -> moved flipped m m'.
Proof.
  apply moved_ext. intros [r c] [Hr Hc]. cbn in Hr, Hc. unfold in_squares, squares_below. cbn [fst snd].
  assert (r / 16 < 8) by (apply Z.div_lt_upper_bound; lia). assert (c / 16 < 8) by (apply Z.div_lt_upper_bound; lia).
  replace (r / 16 <? 8) with true by lia. by replace (c / 16 <? 8) with true by lia.
Qed.

Lemma sse_transposes m a b : matrix m -> pair_words a -> pair_words b -> exists m', SseTranspose128 a b m = Some m' /\ moved flipped m m'.
Proof.
  intros Hm Ha Hb. unfold SseTranspose128.
  pose (Inv := fun (D : Z -> Z -> bool) (s : list Z * (Z * Z) * (Z * Z)) => pair_words s.1.2 /\ pair_words s.2 /\ moved (in_squares D) m s.1.1).
  match goal with |- exists m', (for_up _ _ ?f _ ≫= _) = _ /\ _ =>
    destruct (for_up_inv (fun j s => Inv (squares_below j) s) f 8 0 (m, a, b)) as ([[m' a'] b'] & E & _ & _ & H) end.
  - split; [done|]. split; [done|]. by apply squares_none.
  - intros j [[m1 a1] b1] Hj (Wa & Wb & H1). cbn [fst snd] in *. assert (M1 : matrix m1) by apply H1.
    destruct (load_square m1 a1 j j M1 Wa) as (a2 & -> & Sq); [lia..|]. cbn [mbind option_bind].
    destruct (store_square m1 a2 j j M1) as (m2 & a3 & -> & W3 & St); [apply Sq|lia..|]. cbn [mbind option_bind].
    destruct (for_up_inv (fun k s => Inv (squares_inner j k) s) (sse_swap j) (Z.to_nat j) 0 (m2, a3, b1)) as (s4 & E4 & H4).
    + split; [done|]. split; [done|]. eapply squares_diagonal; [exact H1|by eapply stored_diagonal].
    + intros k [[m5 a5] b5] Hk (Wa5 & Wb5 & H5). cbn [fst snd] in *. assert (M5 : matrix m5) by apply H5. unfold sse_swap.
      destruct (load_square m5 a5 k j M5 Wa5) as (a6 & -> & Sa); [lia..|]. destruct (load_square m5 b5 j k M5 Wb5) as (b6 & -> & Sb); [lia..|].
      cbn [mbind option_bind].
      destruct (store_square m5 a6 j k M5) as (m6 & a7 & -> & Wa7 & Sta); [apply Sa|lia..|]. cbn [mbind option_bind].
      destruct (store_square m6 b6 k j) as (m7 & b7 & -> & Wb7 & Stb); [apply Sta|apply Sb|lia..|]. cbn [mbind option_bind].
      eexists. split; [reflexivity|]. split; [done|]. split; [done|]. eapply squares_swap; [|exact H5|by eapply stored_swap]. lia.
    + exists s4. split; [exact E4|]. destruct H4 as (Wa4 & Wb4 & H4). split; [done|]. split; [done|].
      apply squares_round; [lia|]. by replace (0 + Z.of_nat (Z.to_nat j)) with j in H4 by lia.
  - exists m'. rewrite E. split; [done|]. by apply squares_all.
Qed.
