(* ===== verification/TransposeTheorems.v ===== *)
(** What the transpositions compute: every routine moves the bit at row [r] and column
    [c] to row [c] and column [r], in matrices of 128 words and in the eight columns of
    words of the wide ones. *)

From Stdlib Require Import ZArith Lia ZifyBool Bool.
From stdpp Require Import base numbers list option sets.
From S2P Require Import Prelude OtStore CrHash LinearCode Transpose TransposeFacts TransposeSquares.

Local Open Scope Z_scope.

(** *** By the definition *)

Lemma GetBit_bit x i : 0 <= i < 128 -> GetBit x i = Some (Z.b2z (Z.testbit x i)).
Proof.
  intros Hi. unfold GetBit. replace ((0 <=? i) && (i <? 128)) with true by lia. f_equal.
  change 1 with (Z.ones 1). rewrite Z.land_ones by lia. apply Z.bits_inj'. intros j Hj. rewrite testbit_mod, testbit_shiftr by lia.
  destruct (Z.ltb_spec j 1).
  - assert (j = 0) by lia. subst j. rewrite Z.b2z_bit0. done.
  - destruct (Z.testbit x i); [|by rewrite Z.bits_0]. cbn [Z.b2z andb]. symmetry. apply (testbit_high 1); lia.
Qed.

Lemma naive_word_bits m i : matrix m -> 0 <= i < 128 ->
  exists w, naive_word m i = Some w /\ 0 <= w < 2 ^ 128 /\ forall c, 0 <= c < 128 -> Z.testbit w c = mbit m c i.
Proof.
  intros [Lm W] Hi. unfold naive_word.
  match goal with |- exists w, for_up _ _ ?f _ = _ /\ _ =>
    destruct (for_up_inv (fun j t => 0 <= t < 2 ^ 128 /\ forall c, 0 <= c < 128 -> Z.testbit t c = (c <? j) && mbit m c i) f 128 0 0)
      as (w & E & Hw & B) end.
  - split; [lia|]. intros c Hc. replace (c <? 0) with false by lia. apply Z.bits_0.
  - intros j t Hj [Ht B]. rewrite vget_blk by lia. cbn [mbind option_bind]. rewrite GetBit_bit by done. cbn [mbind option_bind].
    eexists. split; [reflexivity|]. set (v := Z.testbit (blk m j) i).
    assert (Hs : forall c, 0 <= c -> Z.testbit (u128 (Z.shiftl (Z.b2z v) j)) c = (c <? 128) && ((c =? j) && v)).
    { intros c Hc. unfold u128. rewrite testbit_mod, testbit_shiftl by lia. f_equal. destruct (Z.eqb_spec c j) as [-> |].
      - by rewrite Z.sub_diag, Z.b2z_bit0.
      - cbn [andb]. destruct (Z.lt_ge_cases c j); [apply Z.testbit_neg_r; lia|]. apply (testbit_high 1); [destruct v; cbn; lia|lia]. }
    assert (H0 : 0 <= Z.lor t (u128 (Z.shiftl (Z.b2z v) j))).
    { apply Z.lor_nonneg. split; [lia|]. apply Z.mod_pos_bound. lia. }
    split; [split; [done|]|].
    + apply bits_bound; [lia|done|]. intros c Hc. rewrite Z.lor_spec, Hs, (testbit_high 128 t) by lia. by replace (c <? 128) with false by lia.
    + intros c Hc. rewrite Z.lor_spec, Hs, B by lia. replace (c <? 128) with true by lia.
      destruct (Z.eqb_spec c j) as [-> |]; cbn [andb]; [|replace (c <? j + 1) with (c <? j) by lia; by rewrite orb_false_r].
      replace (j <? j + 1) with true by lia. replace (j <? j) with false by lia. done.
  - exists w. split; [exact E|]. split; [done|]. intros c Hc. rewrite B by done. by replace (c <? 0 + Z.of_nat 128) with true by lia.
Qed.

Lemma naive_transposes m : matrix m -> exists m', NaiveTranspose 1 m = Some m' /\ moved flipped m m'.
Proof.
  intros Hm. pose proof Hm as [Lm _]. unfold NaiveTranspose.
  match goal with |- exists m', for_up ?n _ ?f _ = _ /\ _ =>
    destruct (for_up_inv (fun i out => vsize out = 128 /\ forall r, 0 <= r < i -> naive_word m r = Some (blk out r)) f n 0 m)
      as (m' & E & L' & B) end.
  - split; [done|]. lia.
  - intros i out Hi [Lo B]. destruct (naive_word_bits m i Hm) as (w & Ew & _); [lia|]. rewrite Ew. cbn [mbind option_bind].
    rewrite vset_Some by lia. eexists. split; [reflexivity|]. split; [by rewrite vsize_insert|]. intros r Hr. rewrite blk_insert by lia.
    destruct (Z.eqb_spec r i) as [-> |]; [done|]. apply B. lia.
  - exists m'. split; [exact E|]. split.
    + split; [done|]. intros r Hr. destruct (naive_word_bits m r Hm Hr) as (w & Ew & Hw & _). rewrite B in Ew by lia. by simplify_eq.
    + by intros p [H1 H2].
    + intros [r c] [Hr Hc]. cbn [flipped fst snd] in *. destruct (naive_word_bits m r Hm Hr) as (w & Ew & _ & Hb). rewrite B in Ew by lia.
      simplify_eq. by apply Hb.
Qed.

Lemma for_up_fails {St} (f : Z -> St -> option St) k n i s : (forall t, f k t = None) -> i <= k < i + Z.of_nat n -> for_up n i f s = None.
Proof.
  intros Hf. revert i s. induction n as [|n IH]; intros i s Hk; [lia|]. cbn [for_up]. destruct (Z.eq_dec i k) as [-> | Hne]; [by rewrite Hf|].
  destruct (f i s); cbn [mbind option_bind]; [apply IH; lia|done].
Qed.

(** Wider arrays shift by the width of a word. *)
Lemma naive_wide_undefined N m : 2 <= N -> vsize m = 128 * N -> NaiveTranspose N m = None.
Proof.
  intros HN Lm. unfold NaiveTranspose. apply (for_up_fails _ 128); [|lia]. intros t. unfold naive_word.
  rewrite (for_up_fails _ 0); [done| |lia]. intros t'. rewrite vget_blk by lia. done.
Qed.

(** *** Wide matrices *)

(** The words at column [i] of the rows. *)
Definition column (m : list (list Z)) (i : Z) : list Z := (fun row => blk row i) <$> m.

Record wide (m : list (list Z)) : Prop := {
  wide_rows : vsize m = 128;
  wide_row row : row ∈ m -> vsize row = 8;
  wide_columns i : 0 <= i < 8 -> matrix (column m i)
}.

Lemma wide_at m j : wide m -> 0 <= j < 128 -> exists row, vget m j = Some row /\ vsize row = 8.
Proof.
  intros [Lm Hr _] Hj. destruct (proj2 (vget_Some_iff m j)) as [row E]; [lia|]. exists row. split; [done|]. apply Hr.
  unfold vget in E. replace (0 <=? j) with true in E by lia. by eapply list_elem_of_lookup_2.
Qed.

Lemma column_at m i j row : vget m j = Some row -> blk (column m i) j = blk row i.
Proof. unfold blk, vget, column. case_match; [|done]. rewrite list_lookup_fmap. by intros ->. Qed.

Lemma column_size m i : vsize (column m i) = vsize m.
Proof. apply vsize_map. Qed.

(** Column [i] of [m'] is [c], the others are those of [m]. *)
Record on_column (i : Z) (m : list (list Z)) (c : list Z) (m' : list (list Z)) : Prop := {
  on_rows_size : vsize m' = 128;
  on_row_size row : row ∈ m' -> vsize row = 8;
  on_column_new : column m' i = c;
  on_column_old i' : 0 <= i' < 8 -> i' <> i -> column m' i' = column m i'
}.

Lemma on_column_refl i m : wide m -> on_column i m (column m i) m.
Proof. by intros []. Qed.

Lemma on_column_wide i m c m' : wide m -> on_column i m c m' -> matrix c -> wide m'.
Proof.
  intros Hm [L R N O] Hc. split; [done|done|]. intros i' Hi'. destruct (Z.eq_dec i' i) as [-> | Hne]; [by rewrite N|].
  rewrite O by done. by apply Hm.
Qed.

(** Writing a word of column [i]. *)
Lemma write_column i m c m' j row x : on_column i m c m' -> 0 <= i < 8 -> 0 <= j < 128 -> vget m' j = Some row ->
  exists row' m2, vset row i x = Some row' /\ vset m' j row' = Some m2 /\ on_column i m (<[Z.to_nat j := x]> c) m2.
Proof.
  intros [L R N O] Hi Hj E. assert (Hrow : row ∈ m').
  { unfold vget in E. replace (0 <=? j) with true in E by lia. by eapply list_elem_of_lookup_2. }
  pose proof (R _ Hrow) as Lr. rewrite vset_Some by lia. eexists _, _. split; [reflexivity|]. rewrite vset_Some by lia.
  split; [reflexivity|]. unfold vget in E. replace (0 <=? j) with true in E by lia. split.
  - by rewrite vsize_insert.
  - intros row2 [k Hk]%list_elem_of_lookup_1. destruct (decide (k = Z.to_nat j)) as [-> | Hne].
    + rewrite list_lookup_insert_eq in Hk by (unfold vsize in L; lia). simplify_eq. by rewrite vsize_insert.
    + rewrite list_lookup_insert_ne in Hk by done. apply R. by eapply list_elem_of_lookup_2.
  - unfold column. rewrite list_fmap_insert. fold (column m' i). rewrite N, blk_insert, Z.eqb_refl by lia. done.
  - intros i' Hi' Hne. rewrite <- (O i' Hi' Hne). unfold column. rewrite list_fmap_insert, blk_insert by lia.
    replace (i' =? i) with false by lia. apply list_insert_id. by rewrite list_lookup_fmap, E.
Qed.

Lemma take_column_ok m i fresh : wide m -> 0 <= i < 8 -> vsize fresh = 128 -> take_column m i fresh = Some (column m i).
Proof.
  intros Hm Hi Lf. unfold take_column.
  match goal with |- for_up _ _ ?f _ = _ =>
    destruct (for_up_inv (fun j sub => vsize sub = 128 /\ forall q, 0 <= q < j -> blk sub q = blk (column m i) q) f 128 0 fresh) as (sub & E & L & B) end.
  - split; [done|lia].
  - intros j sub Hj [Ls B]. destruct (wide_at m j Hm ltac:(lia)) as (row & Er & Lr). rewrite Er. cbn [mbind option_bind].
    rewrite vget_blk by lia. cbn [mbind option_bind]. rewrite vset_Some by lia. eexists. split; [reflexivity|].
    split; [by rewrite vsize_insert|]. intros q Hq. rewrite blk_insert by lia.
    destruct (Z.eqb_spec q j) as [-> |]; [by rewrite (column_at _ _ _ _ Er)|apply B; lia].
  - rewrite E. f_equal. apply blk_ext; [rewrite column_size; destruct Hm; lia|]. intros q Hq. apply B. lia.
Qed.

Lemma put_column_ok m i sub : wide m -> 0 <= i < 8 -> vsize sub = 128 ->
  exists m', put_column i sub m = Some m' /\ on_column i m sub m'.
Proof.
  intros Hm Hi Ls. unfold put_column.
  match goal with |- exists m', for_up _ _ ?f _ = _ /\ _ =>
    destruct (for_up_inv (fun j m' => exists c, on_column i m c m' /\ vsize c = 128 /\ forall q, 0 <= q < j -> blk c q = blk sub q) f 128 0 m)
      as (m' & E & c & Hc & Lc & B) end.
  - exists (column m i). split; [by apply on_column_refl|]. split; [rewrite column_size; by destruct Hm|lia].
  - intros j m1 Hj (c & Hc & Lc & B). destruct (proj2 (vget_Some_iff m1 j)) as [row Er]; [rewrite (on_rows_size _ _ _ _ Hc); lia|].
    rewrite Er. cbn [mbind option_bind]. rewrite vget_blk by lia. cbn [mbind option_bind].
    destruct (write_column i m c m1 j row (blk sub j) Hc Hi ltac:(lia) Er) as (row' & m2 & -> & E2 & H2). cbn [mbind option_bind].
    exists m2. split; [done|]. eexists. split; [exact H2|]. split; [by rewrite vsize_insert|]. intros q Hq. rewrite blk_insert by lia.
    destruct (Z.eqb_spec q j) as [-> |]; [done|apply B; lia].
  - exists m'. split; [exact E|]. replace sub with c; [done|]. apply blk_ext; [lia|]. intros q Hq. apply B. lia.
Qed.

(** The columns below [i] are transposed, the others are those of [m]. *)
Definition columns_flipped (i : Z) (m m' : list (list Z)) : Prop :=
  wide m' /\ forall q, 0 <= q < 8 -> if q <? i then moved flipped (column m q) (column m' q) else column m' q = column m q.

Lemma columns_next i m m1 m2 c : 0 <= i < 8 -> columns_flipped i m m1 -> on_column i m1 c m2 -> moved flipped (column m1 i) c ->
  columns_flipped (i + 1) m m2.
Proof.
  intros Hi [W1 B1] H2 Hc. pose proof (on_column_wide i m1 c m2 W1 H2 ltac:(apply Hc)) as W2. split; [done|]. intros q Hq.
  specialize (B1 q Hq). destruct (Z.eq_dec q i) as [-> | Hne].
  - replace (i <? i + 1) with true by lia. replace (i <? i) with false in B1 by lia. rewrite <- B1. by rewrite (on_column_new _ _ _ _ H2).
  - replace (q <? i + 1) with (q <? i) by lia. rewrite (on_column_old _ _ _ _ H2) by done. done.
Qed.

Lemma columns_start m : wide m -> columns_flipped 0 m m.
Proof. intros Hm. split; [done|]. intros q Hq. by replace (q <? 0) with false by lia. Qed.

Definition transposed_wide (m m' : list (list Z)) : Prop :=
  wide m' /\ forall q, 0 <= q < 8 -> moved flipped (column m q) (column m' q).

Lemma columns_all m m' : columns_flipped 8 m m' -> transposed_wide m m'.
Proof. intros [W B]. split; [done|]. intros q Hq. specialize (B q Hq). by replace (q <? 8) with true in B by lia. Qed.

Lemma eklundh_wide fresh m : wide m -> vsize fresh = 128 ->
  exists m', EklundhTranspose128x1024 fresh m = Some m' /\ transposed_wide m m'.
Proof.
  intros Hm Lf. unfold EklundhTranspose128x1024.
  match goal with |- exists m', for_up _ _ ?f _ = _ /\ _ =>
    destruct (for_up_inv (fun i m' => columns_flipped i m m') f 8 0 m) as (m' & E & H) end.
  - by apply columns_start.
  - intros i m1 Hi H1. pose proof H1 as [W1 _]. rewrite take_column_ok by (done || lia). cbn [mbind option_bind].
    destruct (eklundh_transposes (column m1 i)) as (c & Ec & Hc); [apply W1; lia|]. rewrite Ec. cbn [mbind option_bind].
    destruct (put_column_ok m1 i c W1 ltac:(lia)) as (m2 & E2 & H2); [apply Hc|]. exists m2. split; [done|].
    eapply columns_next; [lia|done|done|done].
  - exists m'. split; [exact E|]. by apply columns_all.
Qed.

Lemma for_up_congr {St} (f g : Z -> St -> option St) n i s : (forall k t, i <= k < i + Z.of_nat n -> f k t = g k t) -> for_up n i f s = for_up n i g s.
Proof.
  revert i s. induction n as [|n IH]; intros i s H; cbn [for_up]; [done|]. rewrite H by lia. destruct (g i s); cbn [mbind option_bind]; [|done].
  apply IH. intros k t Hk. apply H. lia.
Qed.

Lemma row_byte_at row i l : vsize row = 8 -> 0 <= i < 8 -> 0 <= l < 16 -> row_byte row (i * 16 + l) = byte_at (blk row i) l.
Proof.
  intros Lr Hi Hl. unfold row_byte. destruct (div_mod_split 16 i l Hl) as [-> ->]. by rewrite vget_blk by lia.
Qed.

Lemma load_wide m a x y i : wide m -> 0 <= i < 8 -> 0 <= x < 8 -> 0 <= y < 8 ->
  SseLoadSubSquarex m a x y i = sse_loadSubSquare (column m i) a x y.
Proof.
  intros Hm Hi Hx Hy. unfold SseLoadSubSquarex, sse_loadSubSquare. cbv zeta. apply for_up_congr. intros l t Hl.
  replace (x * 16 + l) with (16 * x + l) by lia. destruct (wide_at m (16 * x + l) Hm ltac:(lia)) as (row & Er & Lr).
  rewrite Er, vget_blk by (rewrite column_size; destruct Hm; lia). cbn [mbind option_bind]. rewrite (column_at _ _ _ _ Er).
  replace (i * 16 + 2 * y + 1) with (i * 16 + (2 * y + 1)) by lia. rewrite !row_byte_at by (done || lia).
  destruct (byte_at _ (2 * y)); [|done]. cbn [mbind option_bind]. destruct (byte_at _ (2 * y + 1)); cbn [mbind option_bind].
  - done.
  - by destruct (put_byte t.1 l z).
Qed.

(** The two loops of stores, on a column. *)
Definition store_halves (out : list Z) (a : Z * Z) (x y : Z) : option (list Z) :=
  out1 ← for_up 8 0 (fun j out => store_u16 out (x * 16 + 7 - j) y (movemask_epi8 (mm_slli_epi64 a.1 j))) out;
  for_up 8 0 (fun j out => store_u16 out (x * 16 + 15 - j) y (movemask_epi8 (mm_slli_epi64 a.2 j))) out1.

Lemma shifted_mask a j l : 0 <= j < 8 -> 0 <= l < 16 -> Z.testbit (movemask_epi8 (mm_slli_epi64 a j)) l = Z.testbit a (8 * l + (7 - j)).
Proof.
  intros Hj Hl. rewrite movemask_bit by done. destruct (div_mod_split 8 l 7 ltac:(lia)) as [_ M]. replace (l * 8 + 7) with (8 * l + 7) in M by lia.
  rewrite shifted_bit by lia. f_equal. lia.
Qed.

Lemma store_halves_ok m a x y : matrix m -> 0 <= x < 8 -> 0 <= y < 8 ->
  exists m', store_halves m a x y = Some m' /\ stored a x y (fun _ => true) m m'.
Proof.
  intros Hm Hx Hy. unfold store_halves.
  match goal with |- exists m', (for_up _ _ ?f _ ≫= _) = _ /\ _ =>
    destruct (for_up_inv (fun j m' => stored a x y (fun r => (7 - j <? r) && (r <? 8)) m m') f 8 0 m) as (m1 & E1 & H1) end.
  - split; [done|]. intros r c Hr Hc. pose proof (Z.mod_pos_bound r 16 ltac:(lia)).
    replace ((7 - 0 <? r mod 16) && (r mod 16 <? 8)) with false by lia. by rewrite andb_false_r.
  - intros j m1 Hj H1. replace (x * 16 + 7 - j) with (16 * x + (7 - j)) by lia.
    eapply store_step; [exact H1|lia|lia|lia|apply movemask_range| |intros r Hr; lia].
    intros l Hl. replace (7 - j <? 8) with true by lia. apply shifted_mask; lia.
  - rewrite E1. cbn [mbind option_bind].
    match goal with |- exists m', for_up _ _ ?f _ = _ /\ _ =>
      destruct (for_up_inv (fun j m' => stored a x y (fun r => (15 - j <? r) || (r <? 8)) m m') f 8 0 m1) as (m2 & E2 & H2) end.
    + destruct H1 as [M1 B1]. split; [done|]. intros r c Hr Hc. rewrite B1 by done. pose proof (Z.mod_pos_bound r 16 ltac:(lia)).
      by replace ((7 - (0 + Z.of_nat 8) <? r mod 16) && (r mod 16 <? 8)) with ((15 - 0 <? r mod 16) || (r mod 16 <? 8)) by lia.
    + intros j m2 Hj H2. replace (x * 16 + 15 - j) with (16 * x + (15 - j)) by lia.
      eapply store_step; [exact H2|lia|lia|lia|apply movemask_range| |intros r Hr; lia].
      intros l Hl. replace (15 - j <? 8) with false by lia. replace (15 - j - 8) with (7 - j) by lia. apply shifted_mask; lia.
    + exists m2. split; [exact E2|]. destruct H2 as [M2 B2]. split; [done|]. intros r c Hr Hc. rewrite B2 by done.
      pose proof (Z.mod_pos_bound r 16 ltac:(lia)). by replace ((15 - (0 + Z.of_nat 8) <? r mod 16) || (r mod 16 <? 8)) with true by lia.
Qed.

(** A store in a row is a store in the column. *)
Lemma store_wide i m0 m c r y v c' : on_column i m0 c m -> 0 <= i < 8 -> 0 <= y < 8 -> store_u16 c r y v = Some c' ->
  exists m', store_row_u16 m r (i * 8 + y) v = Some m' /\ on_column i m0 c' m'.
Proof.
  intros H Hi Hy E. pose proof (on_column_new _ _ _ _ H) as Hc. unfold store_u16 in E.
  destruct (vget c r) as [w|] eqn:Ew; [|done]. cbn [mbind option_bind] in E. destruct (put_u16 w y v) as [w'|] eqn:Ep; [|done].
  cbn [mbind option_bind] in E. assert (Hr : 0 <= r < 128).
  { rewrite <- (on_rows_size _ _ _ _ H), <- (column_size m i), Hc. apply vget_Some_iff. by exists w. }
  destruct (proj2 (vget_Some_iff m r)) as [row Er]; [rewrite (on_rows_size _ _ _ _ H); lia|].
  assert (Hrow : vsize row = 8).
  { apply (on_row_size _ _ _ _ H). unfold vget in Er. replace (0 <=? r) with true in Er by lia. by eapply list_elem_of_lookup_2. }
  assert (Hw : w = blk row i).
  { rewrite <- (column_at _ _ _ _ Er), Hc. unfold blk. by rewrite Ew. }
  destruct (write_column i m0 c m r row w' H Hi Hr Er) as (row' & m' & E1 & E2 & H2).
  exists m'. unfold store_row_u16, row_put_u16. rewrite Er. cbn [mbind option_bind]. destruct (div_mod_split 8 i y Hy) as [-> ->].
  rewrite vget_blk by lia. cbn [mbind option_bind]. rewrite <- Hw, Ep. cbn [mbind option_bind]. rewrite E1. cbn [mbind option_bind]. split; [done|].
  rewrite vset_Some in E by (rewrite <- Hc, column_size, (on_rows_size _ _ _ _ H); lia). by simplify_eq.
Qed.

Lemma store_half_wide i m0 m c c' y (r v : Z -> Z) : on_column i m0 c m -> 0 <= i < 8 -> 0 <= y < 8 ->
  for_up 8 0 (fun j out => store_u16 out (r j) y (v j)) c = Some c' ->
  exists m', for_up 8 0 (fun j out => store_row_u16 out (r j) (i * 8 + y) (v j)) m = Some m' /\ on_column i m0 c' m'.
Proof.
  intros H Hi Hy E. eapply (for_up_simulates (fun m c => on_column i m0 c m)); [|exact H|exact E].
  intros j s t t' Hj Hs Ht. by eapply store_wide.
Qed.

Lemma store_square_wide i m0 m c a x y : on_column i m0 c m -> matrix c -> 0 <= i < 8 -> 0 <= x < 8 -> 0 <= y < 8 ->
  exists m' c', SseTransposeSubSquarex m a x y i = Some m' /\ on_column i m0 c' m' /\ stored a x y (fun _ => true) c c'.
Proof.
  intros H Mc Hi Hx Hy. destruct (store_halves_ok c a x y Mc Hx Hy) as (c' & E & Hst). unfold store_halves in E.
  destruct (for_up 8 0 _ c) as [c1|] eqn:E1; [|done]. cbn [mbind option_bind] in E. unfold SseTransposeSubSquarex. cbv zeta.
  destruct (store_half_wide i m0 m c c1 y _ _ H Hi Hy E1) as (m1 & E2 & H1). rewrite E2. cbn [mbind option_bind].
  destruct (store_half_wide i m0 m1 c1 c' y _ _ H1 Hi Hy E) as (m2 & E3 & H2). rewrite E3. by exists m2, c'.
Qed.

Lemma sse_column i m a b : wide m -> 0 <= i < 8 -> pair_words a -> pair_words b ->
  exists m' a' b' c, for_up 8 0 (fun j '(m, a, b) =>
       a1 ← SseLoadSubSquarex m a j j i;
       m1 ← SseTransposeSubSquarex m a1 j j i;
       for_up (Z.to_nat j) 0 (sse_swapx i j) (m1, a1, b)) (m, a, b) = Some (m', a', b') /\
    pair_words a' /\ pair_words b' /\ on_column i m c m' /\ moved flipped (column m i) c.
Proof.
  intros Hm Hi Ha Hb.
  pose (Inv := fun (D : Z -> Z -> bool) (s : list (list Z) * (Z * Z) * (Z * Z)) => pair_words s.1.2 /\ pair_words s.2 /\
    exists c, on_column i m c s.1.1 /\ moved (in_squares D) (column m i) c).
  assert (Hwide : forall c m', on_column i m c m' -> matrix c -> wide m') by (intros; by eapply on_column_wide).
  match goal with |- exists m' a' b' c, for_up _ _ ?f _ = _ /\ _ =>
    destruct (for_up_inv (fun j s => Inv (squares_below j) s) f 8 0 (m, a, b)) as ([[m' a'] b'] & E & Wa' & Wb' & c & Hc & H) end.
  - split; [done|]. split; [done|]. exists (column m i). split; [by apply on_column_refl|]. apply squares_none. by apply Hm.
  - intros j [[m1 a1] b1] Hj (Wa & Wb & c & Hc & H1). cbn [fst snd] in *. assert (M1 : matrix c) by apply H1.
    pose proof (Hwide _ _ Hc M1) as W1. rewrite load_wide by (done || lia). rewrite (on_column_new _ _ _ _ Hc).
    destruct (load_square c a1 j j M1 Wa) as (a2 & -> & Sq); [lia..|]. cbn [mbind option_bind].
    destruct (store_square_wide i m m1 c a2 j j Hc M1) as (m2 & c2 & -> & Hc2 & St); [lia..|]. cbn [mbind option_bind].
    pose proof (stored_diagonal c j a2 c2 Sq St) as H2.
    destruct (for_up_inv (fun k s => Inv (squares_inner j k) s) (sse_swapx i j) (Z.to_nat j) 0 (m2, a2, b1)) as (s4 & E4 & H4).
    + split; [apply Sq|]. split; [done|]. exists c2. split; [done|]. by eapply squares_diagonal.
    + intros k [[m5 a5] b5] Hk (Wa5 & Wb5 & c5 & Hc5 & H5). cbn [fst snd] in *. assert (M5 : matrix c5) by apply H5.
      pose proof (Hwide _ _ Hc5 M5) as W5. unfold sse_swapx. rewrite !load_wide by (done || lia). rewrite (on_column_new _ _ _ _ Hc5).
      destruct (load_square c5 a5 k j M5 Wa5) as (a6 & -> & Sa); [lia..|]. destruct (load_square c5 b5 j k M5 Wb5) as (b6 & -> & Sb); [lia..|].
      cbn [mbind option_bind].
      destruct (store_square_wide i m m5 c5 a6 j k Hc5 M5) as (m6 & c6 & -> & Hc6 & Sta); [lia..|]. cbn [mbind option_bind].
      destruct (store_square_wide i m m6 c6 b6 k j Hc6) as (m7 & c7 & -> & Hc7 & Stb); [apply Sta|lia..|]. cbn [mbind option_bind].
      eexists. split; [reflexivity|]. split; [apply Sa|]. split; [apply Sb|]. exists c7. split; [done|].
      eapply squares_swap; [|exact H5|by eapply stored_swap]. lia.
    + exists s4. split; [exact E4|]. destruct H4 as (Wa4 & Wb4 & c4 & Hc4 & H4). split; [done|]. split; [done|]. exists c4. split; [done|].
      apply squares_round; [lia|]. by replace (0 + Z.of_nat (Z.to_nat j)) with j in H4 by lia.
  - exists m', a', b', c. cbn [fst snd] in *. split; [exact E|]. split; [done|]. split; [done|]. split; [done|]. by apply squares_all.
Qed.

Lemma sse_wide a b m : wide m -> pair_words a -> pair_words b ->
  exists m', SseTranspose128x1024 a b m = Some m' /\ transposed_wide m m'.
Proof.
  intros Hm Ha Hb. unfold SseTranspose128x1024.
  match goal with |- exists m', (for_up _ _ ?f _ ≫= _) = _ /\ _ =>
    destruct (for_up_inv (fun i s => pair_words s.1.2 /\ pair_words s.2 /\ columns_flipped i m s.1.1) f 8 0 (m, a, b))
      as ([[m' a'] b'] & E & _ & _ & H) end.
  - split; [done|]. split; [done|]. by apply columns_start.
  - intros i [[m1 a1] b1] Hi (Wa & Wb & H1). cbn [fst snd] in *.
    destruct (sse_column i m1 a1 b1) as (m2 & a2 & b2 & c & E2 & Wa2 & Wb2 & Hc & Hf); [apply H1|lia|done|done|].
    eexists. split; [exact E2|]. split; [done|]. split; [done|]. cbn [fst snd]. by eapply columns_next.
  - exists m'. rewrite E. split; [done|]. by apply columns_all.
Qed.

(** *** Results *)

(** Rows and columns exchanged. *)
Definition transpose_of (m m' : list Z) : Prop :=
  matrix m' /\ forall r c, 0 <= r < 128 -> 0 <= c < 128 -> mbit m' r c = mbit m c r.

Lemma transpose_of_iff m m' : transpose_of m m' <-> moved flipped m m'.
Proof.
  split.
  - intros [M B]. split; [done|by intros p [H1 H2]|]. intros [r c] [Hr Hc]. by apply B.
  - intros [M _ B]. split; [done|]. intros r c Hr Hc. by apply (B (r, c)).
Qed.

Lemma transpose_of_sym m m' : matrix m -> transpose_of m m' -> transpose_of m' m.
Proof. intros Hm [_ B]. split; [done|]. intros r c Hr Hc. by rewrite B. Qed.

Lemma transpose_of_unique m m1 m2 : transpose_of m m1 -> transpose_of m m2 -> m1 = m2.
Proof. rewrite !transpose_of_iff. apply moved_unique. Qed.

(** Whatever the processor, the result of the library's transposition. *)
Lemma matrix_transposes p a b m : matrix m -> pair_words a -> pair_words b ->
  exists m', MatrixTranspose128 p a b m = Some m' /\ transpose_of m m'.
Proof.
  intros Hm Ha Hb. unfold MatrixTranspose128.
  destruct (avx_transposes m Hm) as (m1 & E1 & H1%transpose_of_iff). destruct (sse_transposes m a b Hm Ha Hb) as (m2 & E2 & H2%transpose_of_iff).
  destruct (eklundh_transposes m Hm) as (m3 & E3 & H3%transpose_of_iff).
  repeat case_match; eauto.
Qed.

(** C23: all the transpositions of 128 by 128 bits return, and return the same matrix,
    that of the definition: bit [c] of row [r] is bit [r] of row [c]. This holds for
    Eklundh's exchanges, for the byte masks of SSE2 whatever its scratch arrays
    contained, for the vectors of AVX2, and so for the routine the library chooses by
    processor; transposing twice gives the matrix back. *)
Theorem transposes_agree p a b m : matrix m -> pair_words a -> pair_words b ->
  exists m', NaiveTranspose 1 m = Some m' /\ EklundhTranspose128 m = Some m' /\ SseTranspose128 a b m = Some m' /\
    AvxTranspose128 m = Some m' /\ MatrixTranspose128 p a b m = Some m' /\
    transpose_of m m' /\ MatrixTranspose128 p a b m' = Some m.
Proof.
  intros Hm Ha Hb. destruct (naive_transposes m Hm) as (m' & E & H%transpose_of_iff).
  destruct (avx_transposes m Hm) as (m1 & E1 & H1%transpose_of_iff). destruct (sse_transposes m a b Hm Ha Hb) as (m2 & E2 & H2%transpose_of_iff).
  destruct (eklundh_transposes m Hm) as (m3 & E3 & H3%transpose_of_iff).
  destruct (matrix_transposes p a b m Hm Ha Hb) as (m4 & E4 & H4).
  destruct (matrix_transposes p a b m' ltac:(apply H) Ha Hb) as (m5 & E5 & H5).
  assert (m1 = m' /\ m2 = m' /\ m3 = m' /\ m4 = m') as (-> & -> & -> & ->) by (repeat split; by apply (transpose_of_unique m)).
  assert (m5 = m) as -> by (apply (transpose_of_unique m'); [done|by apply transpose_of_sym]).
  by exists m'.
Qed.

(** A matrix with one bit, and rows of eight of its words. *)
Definition one_bit : list Z := <[3%nat := 2 ^ 100]> (replicate 128 0).

Lemma one_bit_matrix : matrix one_bit.
Proof.
  split; [by vm_compute|]. intros r Hr. apply (blk_Forall (fun x => 0 <= x < 2 ^ 128) one_bit); [|].
  - apply (bool_decide_unpack _). by vm_compute.
  - by change (vsize one_bit) with 128.
Qed.

Lemma transposes_agree_witness : EklundhTranspose128 one_bit = Some (<[100%nat := 2 ^ 3]> (replicate 128 0)).
Proof.
  destruct (transposes_agree (mk_cpu true true) (0, 1) (2, 3) one_bit one_bit_matrix) as (m' & E & -> & _); [done..|].
  rewrite <- E. vm_compute. reflexivity.
Defined.

(** The transposition of 128 rows of 1024 bits returns for every processor, and
    transposes each of the eight squares of 128 by 128 bits in its place. *)
Lemma wide_transposes p a b fresh m : wide m -> pair_words a -> pair_words b -> vsize fresh = 128 ->
  exists m', MatrixTranspose128x1024 p a b fresh m = Some m' /\ wide m' /\
    forall q, 0 <= q < 8 -> transpose_of (column m q) (column m' q).
Proof.
  intros Hm Ha Hb Hf. unfold MatrixTranspose128x1024.
  destruct (sse_wide a b m Hm Ha Hb) as (m1 & E1 & W1 & H1). destruct (eklundh_wide fresh m Hm Hf) as (m2 & E2 & W2 & H2).
  case_match; [exists m1|exists m2]; (split; [done|]); (split; [done|]); intros q Hq; apply transpose_of_iff; auto.
Qed.

Definition one_bit_wide : list (list Z) := (fun x => [0; 0; x; 0; 0; 0; 0; x]) <$> one_bit.

Lemma wide_transposes_witness : exists m', MatrixTranspose128x1024 (mk_cpu false true) (0, 1) (2, 3) (replicate 128 0) one_bit_wide = Some m' /\
  mbit (column m' 7) 100 3 = true.
Proof.
  destruct (wide_transposes (mk_cpu false true) (0, 1) (2, 3) (replicate 128 0) one_bit_wide) as (m' & E & W & H).
  - split; [by vm_compute|..].
    + intros row Hrow. unfold one_bit_wide in Hrow. by apply list_elem_of_fmap in Hrow as (x & -> & _).
    + intros i Hi. assert (Hi' : i ∈ seqZ 0 8) by (apply elem_of_seqZ; lia). unfold column, one_bit_wide. rewrite <- list_fmap_compose.
      assert (Hc : i = 2 \/ i = 7 \/ forall x, blk [0; 0; x; 0; 0; 0; 0; x] i = 0).
      { vm_compute in Hi'. repeat (apply elem_of_cons in Hi' as [-> | Hi']; [by auto|]). by apply elem_of_nil in Hi'. }
      destruct Hc as [-> | [-> | Hz]]; [apply one_bit_matrix..|].
      split; [by vm_compute|]. intros r Hr. rewrite blk_map by (change (vsize one_bit) with 128; lia). unfold compose. rewrite Hz. lia.
  - done.
  - done.
  - by vm_compute.
  - exists m'. split; [exact E|]. destruct (H 7) as [_ B]; [lia|]. rewrite B by lia. vm_compute. reflexivity.
Defined.
