(* ===== verification/GaloisField.v ===== *)
(** Galois fields (src/yacl/math/galois_field/gf_intrinsic.h, gf_intrinsic.cc):
    polynomials over two elements as the bits of numbers, multiplied by the
    carry-less multiplication of the processor and reduced modulo the polynomials
    of degree 128 and 64. Then the ring they stand for: carry-less products are
    bilinear, and multiplication modulo a polynomial of degree [n], by shifting and
    adding, makes the numbers below [2 ^ n] a commutative ring. *)

From Stdlib Require Import ZArith Lia ZifyBool Bool.
From stdpp Require Import base numbers list option.
From S2P Require Import Prelude OtStore SparseXor CrHash Sgrr LinearCode.

Local Open Scope Z_scope.

(** *** Vector instructions *)

(** The carry-less product of the low [n] bits of [a] with [b]. *)
Fixpoint clmul (n : nat) (a b : Z) : Z :=
  match n with
  | O => 0
  | S n' => Z.lxor (clmul n' a b) (if Z.testbit a (Z.of_nat n') then Z.shiftl b (Z.of_nat n') else 0)
  end.

(** The halves are chosen by bits 0 and 4 of [imm]. *)
Definition mm_clmulepi64_si128 (a b imm : Z) : Z :=
  clmul 64 (lane64 a (Z.land imm 1)) (lane64 b (Z.land (Z.shiftr imm 4) 1)).

(** Shifts by bytes. *)
Definition mm_srli_si128 (a imm : Z) : Z := Z.shiftr a (8 * imm).
Definition mm_slli_si128 (a imm : Z) : Z := u128 (Z.shiftl a (8 * imm)).

(** *** Constants *)

Definition kGfMod128 : Z := Z.lor (Z.lor (Z.lor (Z.shiftl 1 7) (Z.shiftl 1 2)) (Z.shiftl 1 1)) 1.
Definition kGfMod64 : Z := Z.lor (Z.lor (Z.lor (Z.shiftl 1 4) (Z.shiftl 1 3)) (Z.shiftl 1 1)) 1.

Definition kGf64Basis : list Z := Z.shiftl 1 <$> seqZ 0 64.
Definition kGf128Basis : list Z := Z.shiftl 1 <$> seqZ 0 128.

(** *** GF(2^128) *)

(** The high and the low half of a product. *)
Definition Gf128ClMul (x y : Z) : Z * Z :=
  let low := mm_clmulepi64_si128 x y 0x00 in
  let high := mm_clmulepi64_si128 x y 0x11 in
  let mid1 := mm_clmulepi64_si128 x y 0x10 in
  let mid2 := mm_clmulepi64_si128 x y 0x01 in
  let mid := Z.lxor mid1 mid2 in
  let mid1 := mm_srli_si128 mid 8 in
  let mid2 := mm_slli_si128 mid 8 in
  (Z.lxor high mid1, Z.lxor low mid2).

(** The sum of the products of two spans. *)
Fixpoint clmul_sum128 (x y : list Z) (ret : Z * Z) : Z * Z :=
  match x, y with
  | a :: x', b :: y' =>
      let '(high, low) := Gf128ClMul a b in
      clmul_sum128 x' y' (Z.lxor (fst ret) high, Z.lxor (snd ret) low)
  | _, _ => ret
  end.

Definition Gf128ClMul_span (x y : list Z) : res (Z * Z) :=
  OtStore.enforce (vsize x =? vsize y);;
  Val (clmul_sum128 x y (0, 0)).

Definition Gf128Reduce (high low : Z) : Z :=
  let '(upper, carry0) := Gf128ClMul high kGfMod128 in
  let low := Z.lxor low carry0 in
  let '(_, carry1) := Gf128ClMul upper kGfMod128 in
  Z.lxor low carry1.

Definition Gf128Mul (x y : Z) : Z :=
  let '(high, low) := Gf128ClMul x y in
  Gf128Reduce high low.

Definition Gf128Mul_span (x y : list Z) : res Z :=
  OtStore.enforce (vsize x =? vsize y);;
  '(high, low) ← Gf128ClMul_span x y;
  Val (Gf128Reduce high low).

Definition Gf128Pack (data : list Z) : res Z :=
  OtStore.enforce (vsize data <=? 128);;
  Gf128Mul_span data (take (length data) kGf128Basis).

(** *** GF(2^64) *)

(** [_mm_loadl_epi64] leaves the high half 0. *)
Definition Gf64ClMul (x y : Z) : Z := mm_clmulepi64_si128 (u64 x) (u64 y) 0x00.

(** Two products a round, then the one that is left. *)
Fixpoint clmul_sum64 (x y : list Z) (ret : Z) : Z :=
  match x, y with
  | a0 :: a1 :: x', b0 :: b1 :: y' =>
      let xb := MakeUint128 a1 a0 in
      let yb := MakeUint128 b1 b0 in
      let xy0 := mm_clmulepi64_si128 xb yb 0x00 in
      let xy1 := mm_clmulepi64_si128 xb yb 0x11 in
      clmul_sum64 x' y' (Z.lxor (Z.lxor ret xy0) xy1)
  | [a0], [b0] => Z.lxor ret (Gf64ClMul a0 b0)
  | _, _ => ret
  end.

Definition Gf64ClMul_span (x y : list Z) : res Z :=
  OtStore.enforce (vsize x =? vsize y);;
  Val (clmul_sum64 x y 0).

Definition Gf64Reduce (x : Z) : Z :=
  let modulo := MakeUint128 0 kGfMod64 in
  let temp := mm_clmulepi64_si128 modulo x 0x10 in
  let xb := Z.lxor x temp in
  let temp := mm_clmulepi64_si128 modulo temp 0x10 in
  let xb := Z.lxor xb temp in
  lane64 xb 0.

Definition Gf64Mul (x y : Z) : Z := Gf64Reduce (Gf64ClMul x y).

Definition Gf64Mul_span (x y : list Z) : res Z :=
  OtStore.enforce (vsize x =? vsize y);;
  temp ← Gf64ClMul_span x y;
  Val (Gf64Reduce temp).

Definition Gf64Pack (data : list Z) : res Z :=
  OtStore.enforce (vsize data <=? 64);;
  Gf64Mul_span data (take (length data) kGf64Basis).

Section Chain.
Context (Gf64Mul : Z -> Z -> Z).

(** [n] squarings. *)
Fixpoint squarings (n : nat) (t : Z) : Z :=
  match n with
  | O => t
  | S n' => squarings n' (Gf64Mul t t)
  end.

(** The chain of products of [Gf64Inv]. *)
Definition inverse_chain (x : Z) : Z :=
  let t0 := x in
  let t1 := Gf64Mul t0 t0 in
  let t2 := Gf64Mul t1 t0 in
  let t0 := squarings 2 t2 in
  let t1 := Gf64Mul t1 t0 in
  let t2 := Gf64Mul t2 t0 in
  let t0 := squarings 4 t2 in
  let t1 := Gf64Mul t1 t0 in
  let t2 := Gf64Mul t2 t0 in
  let t0 := squarings 8 t2 in
  let t1 := Gf64Mul t1 t0 in
  let t2 := Gf64Mul t2 t0 in
  let t0 := squarings 16 t2 in
  let t1 := Gf64Mul t1 t0 in
  let t0 := Gf64Mul t0 t2 in
  let t0 := squarings 32 t0 in
  Gf64Mul t0 t1.
End Chain.

Definition Gf64Inv (x : Z) : Z := inverse_chain Gf64Mul x.

(** *** Mixed products: the words of 64 bits are taken to the larger field *)

Definition GfMul_128_64_span (a b : list Z) : res Z := Gf128Mul_span a b.
Definition GfMul_64_128_span (a b : list Z) : res Z := GfMul_128_64_span b a.
Definition GfMul_128_64 (a b : Z) : Z := Gf128Mul a (MakeUint128 0 b).
Definition GfMul_64_128 (a b : Z) : Z := Gf128Mul (MakeUint128 0 a) b.

(** *** Universal hash *)

Section Hash.
Context (GfMul : Z -> Z -> Z).

(** From the last word to the first. *)
Definition UniversalHash (seed : Z) (data : list Z) : Z :=
  foldr (fun val ret => GfMul seed (Z.lxor ret val)) 0 data.

(** [buff], whose 64 words are 0 at first. *)
Definition hash_powers (seed max_bits : Z) : option (list Z) :=
  for_up (Z.to_nat max_bits) 1 (fun i buff => x ← vget buff (i - 1); vset buff i (GfMul x x)) (seed :: replicate 63 0).

(** The loop over the bits; [mask] is [2 ^ i], and wraps to 0 after the last one,
    when the loop has ended. *)
Fixpoint hash_coef (fuel : nat) (buff : list Z) (index_plus_one i coef : Z) : option Z :=
  match fuel with
  | O => Some coef
  | S fuel' =>
      if 2 ^ i <=? index_plus_one then
        coef' ← (if negb (Z.land (2 ^ i) index_plus_one =? 0) then b ← vget buff i; Some (GfMul coef b) else Some coef);
        hash_coef fuel' buff index_plus_one (i + 1) coef'
      else Some coef
  end.

Definition ExtractHashCoef (seed : Z) (indexes : list Z) : res (list Z) :=
  back ← access (vget indexes (vsize indexes - 1));
  max_bits ← Log2Ceil back;
  buff ← access (hash_powers seed max_bits);
  access (mapM (fun index => hash_coef 64 buff (u64 (index + 1)) 0 1) indexes).
End Hash.

Local Notation "x ⊕ y" := (Z.lxor x y) (at level 50, left associativity).

Definition word (n x : Z) : Prop := 0 <= x < 2 ^ n.

Lemma zero_word n : 0 <= n -> word n 0.
Proof. intros H. unfold word. pose proof (Z.pow_pos_nonneg 2 n). lia. Qed.

Lemma word_xor n x y : 0 <= n -> word n x -> word n y -> word n (x ⊕ y).
Proof.
  unfold word. intros Hn Hx Hy. assert (0 <= x ⊕ y) by (apply Z.lxor_nonneg; lia). split; [done|].
  apply bits_bound; [lia|done|]. intros j Hj. by rewrite Z.lxor_spec, (testbit_high n x), (testbit_high n y) by lia.
Qed.

Lemma word_pow n i : 0 <= i < n -> word n (2 ^ i).
Proof. intros H. split; [apply Z.pow_nonneg; lia|]. apply Z.pow_lt_mono_r; lia. Qed.

(** *** Linear functions *)

(** The sum of the values of [f] at the bits of [x] below [n]. *)
Fixpoint bits_sum (n : nat) (f : Z -> Z) (x : Z) : Z :=
  match n with
  | O => 0
  | S n' => bits_sum n' f x ⊕ (if Z.testbit x (Z.of_nat n') then f (Z.of_nat n') else 0)
  end.

Lemma bits_sum_xor n f x y : bits_sum n f (x ⊕ y) = bits_sum n f x ⊕ bits_sum n f y.
Proof.
  induction n as [|n IH]; [done|]. cbn [bits_sum]. rewrite IH, Z.lxor_spec, xor_swap. f_equal.
  destruct (Z.testbit x _), (Z.testbit y _); cbn; by rewrite ?Z.lxor_nilpotent, ?Z.lxor_0_r, ?Z.lxor_0_l.
Qed.

Lemma bits_sum_fun_xor n f g x : bits_sum n (fun i => f i ⊕ g i) x = bits_sum n f x ⊕ bits_sum n g x.
Proof.
  induction n as [|n IH]; [done|]. cbn [bits_sum]. rewrite IH, xor_swap. f_equal.
  destruct (Z.testbit x _); [done|]. by rewrite Z.lxor_0_r.
Qed.

Lemma bits_sum_ext n f g x : (forall i, 0 <= i < Z.of_nat n -> f i = g i) -> bits_sum n f x = bits_sum n g x.
Proof.
  induction n as [|n IH]; intros H; [done|]. cbn [bits_sum]. rewrite IH by (intros; apply H; lia).
  by rewrite H by lia.
Qed.

Lemma bits_sum_word n m f x : 0 <= m -> (forall i, 0 <= i < Z.of_nat n -> word m (f i)) -> word m (bits_sum n f x).
Proof.
  intros Hm. induction n as [|n IH]; intros H; cbn [bits_sum]; [by apply zero_word|].
  apply word_xor; [done|apply IH; intros; apply H; lia|]. destruct (Z.testbit x _); [apply H; lia|by apply zero_word].
Qed.

Lemma bits_sum_pow n f i : 0 <= i < Z.of_nat n -> bits_sum n f (2 ^ i) = f i.
Proof.
  induction n as [|n IH]; intros Hi; [lia|]. cbn [bits_sum]. rewrite testbit_pow2 by lia.
  destruct (Z.eqb_spec (Z.of_nat n) i) as [<- | Hne].
  - assert (E : bits_sum n f (2 ^ Z.of_nat n) = 0).
    { clear. assert (H : forall k, (k <= n)%nat -> bits_sum k f (2 ^ Z.of_nat n) = 0); [|by apply H].
      induction k as [|k IH]; intros Hk; [done|]. cbn [bits_sum]. rewrite IH, testbit_pow2 by lia.
      by replace (Z.of_nat k =? Z.of_nat n) with false by lia. }
    by rewrite E, Z.lxor_0_l.
  - rewrite IH by lia. apply Z.lxor_0_r.
Qed.

(** A number is the sum of its bits. *)
Lemma bits_sum_id n x : word (Z.of_nat n) x -> bits_sum n (fun i => 2 ^ i) x = x.
Proof.
  assert (H : forall k, bits_sum k (fun i => 2 ^ i) x = x mod 2 ^ Z.of_nat k).
  { induction k as [|k IH]; [cbn; by rewrite Z.mod_1_r|]. cbn [bits_sum]. rewrite IH. apply Z.bits_inj'. intros j Hj.
    rewrite Z.lxor_spec, !testbit_mod by lia. destruct (Z.testbit x (Z.of_nat k)) eqn:E.
    - rewrite testbit_pow2 by lia. destruct (Z.eqb_spec j (Z.of_nat k)) as [-> | Hne].
      + rewrite E. replace (Z.of_nat k <? Z.of_nat k) with false by lia. by replace (Z.of_nat k <? Z.of_nat (S k)) with true by lia.
      + rewrite xorb_false_r. f_equal. lia.
    - rewrite Z.bits_0, xorb_false_r. destruct (Z.eqb_spec j (Z.of_nat k)) as [-> | Hne].
      + by rewrite E, !andb_false_r.
      + f_equal. lia. }
  intros Hx. rewrite H. apply Z.mod_small. exact Hx.
Qed.

(** An additive function is determined by its values at the powers of two. *)
Lemma additive_bits n (f : Z -> Z) x : f 0 = 0 ->
  (forall a b, word (Z.of_nat n) a -> word (Z.of_nat n) b -> f (a ⊕ b) = f a ⊕ f b) ->
  word (Z.of_nat n) x -> f x = bits_sum n (fun i => f (2 ^ i)) x.
Proof.
  intros H0 Hadd Hx. rewrite <- (bits_sum_id n x Hx) at 1.
  assert (K : forall k, (k <= n)%nat -> f (bits_sum k (fun i => 2 ^ i) x) = bits_sum k (fun i => f (2 ^ i)) x); [|by apply K].
  induction k as [|k IH]; intros Hk; [done|]. cbn [bits_sum]. rewrite Hadd.
  - rewrite IH by lia. by destruct (Z.testbit x _); rewrite ?H0.
  - apply bits_sum_word; [lia|]. intros i Hi. apply word_pow. lia.
  - destruct (Z.testbit x _); [apply word_pow; lia|apply zero_word; lia].
Qed.

(** *** Carry-less products *)

Lemma clmul_sum n a b : clmul n a b = bits_sum n (fun i => Z.shiftl b i) a.
Proof. induction n as [|n IH]; [done|]. cbn. by rewrite IH. Qed.

Lemma bits_sum_zero n f : bits_sum n f 0 = 0.
Proof. induction n as [|n IH]; [done|]. cbn [bits_sum]. by rewrite IH, Z.bits_0. Qed.

Lemma clmul_xor_l n a a' b : clmul n (a ⊕ a') b = clmul n a b ⊕ clmul n a' b.
Proof. rewrite !clmul_sum. apply bits_sum_xor. Qed.

Lemma clmul_xor_r n a b b' : clmul n a (b ⊕ b') = clmul n a b ⊕ clmul n a b'.
Proof. rewrite !clmul_sum, <- bits_sum_fun_xor. apply bits_sum_ext. intros i Hi. apply Z.shiftl_lxor. Qed.

Lemma clmul_zero_l n b : clmul n 0 b = 0.
Proof. induction n as [|n IH]; [done|]. cbn [clmul]. by rewrite IH, Z.bits_0. Qed.

Lemma clmul_zero_r n a : clmul n a 0 = 0.
Proof. induction n as [|n IH]; [done|]. cbn [clmul]. rewrite IH, Z.shiftl_0_l. by destruct (Z.testbit a _). Qed.

Lemma clmul_pow n i b : 0 <= i < Z.of_nat n -> clmul n (2 ^ i) b = Z.shiftl b i.
Proof. intros Hi. rewrite clmul_sum. by rewrite bits_sum_pow. Qed.

Lemma clmul_shift_r n a b k : 0 <= k -> clmul n a (Z.shiftl b k) = Z.shiftl (clmul n a b) k.
Proof.
  intros Hk. induction n as [|n IH]; cbn [clmul]; [by rewrite Z.shiftl_0_l|]. rewrite IH, Z.shiftl_lxor. f_equal.
  destruct (Z.testbit a _); [|by rewrite Z.shiftl_0_l]. by rewrite !Z.shiftl_shiftl, (Z.add_comm k) by lia.
Qed.

Lemma clmul_word n m a b : 0 <= m -> word m b -> word (Z.of_nat n + m) (clmul n a b).
Proof.
  intros Hm Hb. rewrite clmul_sum. apply bits_sum_word; [lia|]. intros i Hi. unfold word in *. rewrite Z.shiftl_mul_pow2 by lia.
  assert (0 < 2 ^ i) by (apply Z.pow_pos_nonneg; lia). split; [lia|].
  apply Z.lt_le_trans with (2 ^ m * 2 ^ i); [apply Z.mul_lt_mono_pos_r; lia|].
  rewrite <- Z.pow_add_r by lia. apply Z.pow_le_mono_r; lia.
Qed.

(** *** Multiplication modulo a polynomial *)

Section Ring.
Context (n : nat) (m : Z).
Hypothesis Hn : (1 <= n)%nat.
Hypothesis Hm : word (Z.of_nat n) m.
Local Abbreviation deg := (Z.of_nat n).
Local Abbreviation elem x := (word deg x) (only parsing).

(** The product with [X] modulo [X^n + m]. *)
Definition xtime (a : Z) : Z :=
  let y := 2 * a in
  if Z.testbit a (deg - 1) then y ⊕ (2 ^ deg + m) else y.

Definition xpow (k : Z) (a : Z) : Z := Nat.iter (Z.to_nat k) xtime a.

(** By shifting and adding. *)
Definition gmul (a b : Z) : Z := bits_sum n (fun i => xpow i b) a.

Lemma xtime_bits a : elem a -> xtime a = (2 * a) mod 2 ^ deg ⊕ (if Z.testbit a (deg - 1) then m else 0).
Proof using Hn Hm.
  intros Ha. unfold xtime, word in *. apply Z.bits_inj'. intros j Hj. rewrite Z.lxor_spec, testbit_mod by lia.
  assert (D : forall x, 2 * x = Z.shiftl x 1) by (intros x; rewrite Z.shiftl_mul_pow2; lia).
  assert (T : forall i, deg <= i -> Z.testbit (2 * a) i = if i =? deg then Z.testbit a (deg - 1) else false).
  { intros i Hi. rewrite D, Z.shiftl_spec by lia. destruct (Z.eqb_spec i deg) as [-> | ]; [done|].
    apply (testbit_high deg); lia. }
  assert (P : forall i, 0 <= i -> Z.testbit (2 ^ deg + m) i = if i <? deg then Z.testbit m i else (i =? deg)).
  { intros i Hi. rewrite Z.add_nocarry_lxor.
    - rewrite Z.lxor_spec, testbit_pow2 by lia. destruct (Z.ltb_spec i deg).
      + by replace (i =? deg) with false by lia.
      + by rewrite (testbit_high deg m), xorb_false_r by lia.
    - apply Z.bits_inj'. intros q Hq. rewrite Z.land_spec, Z.bits_0, testbit_pow2 by lia.
      destruct (Z.eqb_spec q deg) as [-> | ]; [|done]. by rewrite (testbit_high deg m) by lia. }
  destruct (Z.testbit a (deg - 1)) eqn:E.
  - rewrite Z.lxor_spec, P by lia. destruct (Z.ltb_spec j deg) as [Hlt|Hge]; [done|].
    rewrite (testbit_high deg m) by lia. rewrite T by lia. by destruct (j =? deg).
  - rewrite Z.bits_0, xorb_false_r. destruct (Z.ltb_spec j deg) as [Hlt|Hge]; [done|].
    rewrite T by lia. by destruct (j =? deg).
Qed.

Lemma xtime_elem a : elem a -> elem (xtime a).
Proof using Hn Hm.
  intros Ha. rewrite xtime_bits by done. apply word_xor; [lia|apply Z.mod_pos_bound, Z.pow_pos_nonneg; lia|].
  destruct (Z.testbit a _); [done|]. apply zero_word. lia.
Qed.

Lemma xtime_xor a b : elem a -> elem b -> xtime (a ⊕ b) = xtime a ⊕ xtime b.
Proof using Hn Hm.
  intros Ha Hb. rewrite !xtime_bits by (try apply word_xor; done || lia). rewrite xor_swap. f_equal.
  - assert (D : forall x, 2 * x = Z.shiftl x 1) by (intros x; rewrite Z.shiftl_mul_pow2; lia).
    rewrite !D, Z.shiftl_lxor. apply Z.bits_inj'. intros j Hj. rewrite Z.lxor_spec, !testbit_mod, Z.lxor_spec by lia.
    by destruct (j <? deg).
  - rewrite Z.lxor_spec. destruct (Z.testbit a _), (Z.testbit b _); cbn;
      by rewrite ?Z.lxor_nilpotent, ?Z.lxor_0_r, ?Z.lxor_0_l.
Qed.

Lemma xpow_succ k a : 0 <= k -> xpow (k + 1) a = xtime (xpow k a).
Proof using Hn Hm. intros Hk. unfold xpow. by rewrite Z2Nat.inj_add, Nat.add_comm by lia. Qed.

Lemma xpow_add j k a : 0 <= j -> 0 <= k -> xpow (j + k) a = xpow j (xpow k a).
Proof using Hn Hm. intros Hj Hk. unfold xpow. by rewrite Z2Nat.inj_add, Nat.iter_add by lia. Qed.

Lemma xpow_elem k a : elem a -> elem (xpow k a).
Proof using Hn Hm. intros Ha. unfold xpow. induction (Z.to_nat k) as [|k' IH]; [done|]. cbn. by apply xtime_elem. Qed.

Lemma xpow_xor k a b : elem a -> elem b -> xpow k (a ⊕ b) = xpow k a ⊕ xpow k b.
Proof using Hn Hm.
  intros Ha Hb. pose proof (fun q => xpow_elem q a Ha) as Ea. pose proof (fun q => xpow_elem q b Hb) as Eb.
  unfold xpow. induction (Z.to_nat k) as [|k' IH]; [done|]. rewrite !Nat.iter_succ, IH, xtime_xor; [done| |].
  - pose proof (Ea (Z.of_nat k')) as H. unfold xpow in H. by rewrite Nat2Z.id in H.
  - pose proof (Eb (Z.of_nat k')) as H. unfold xpow in H. by rewrite Nat2Z.id in H.
Qed.

Lemma elem_zero : elem 0.
Proof using Hn Hm. apply zero_word. lia. Qed.

Lemma elem_one : elem 1.
Proof using Hn Hm. apply (word_pow deg 0). lia. Qed.

Lemma xpow_zero k : xpow k 0 = 0.
Proof using Hn Hm.
  unfold xpow. induction (Z.to_nat k) as [|k' IH]; [done|]. rewrite Nat.iter_succ, IH. unfold xtime. by rewrite Z.bits_0.
Qed.

Lemma gmul_elem a b : elem b -> elem (gmul a b).
Proof using Hn Hm. intros Hb. apply bits_sum_word; [lia|]. intros i Hi. by apply xpow_elem. Qed.

Lemma gmul_xor_l a a' b : gmul (a ⊕ a') b = gmul a b ⊕ gmul a' b.
Proof using Hn Hm. apply bits_sum_xor. Qed.

Lemma gmul_xor_r a b b' : elem b -> elem b' -> gmul a (b ⊕ b') = gmul a b ⊕ gmul a b'.
Proof using Hn Hm.
  intros Hb Hb'. unfold gmul. rewrite <- bits_sum_fun_xor. apply bits_sum_ext. intros i Hi. by apply xpow_xor.
Qed.

Lemma gmul_zero_l b : gmul 0 b = 0.
Proof using Hn Hm. apply bits_sum_zero. Qed.

Lemma gmul_zero_r a : gmul a 0 = 0.
Proof using Hn Hm.
  unfold gmul. generalize n at 1. intros k. induction k as [|k IH]; [done|]. cbn [bits_sum].
  rewrite IH, xpow_zero. by destruct (Z.testbit a _).
Qed.

Lemma gmul_pow i b : 0 <= i < deg -> gmul (2 ^ i) b = xpow i b.
Proof using Hn Hm. intros Hi. unfold gmul. by rewrite bits_sum_pow. Qed.

Lemma pow_xpow i : 0 <= i < deg -> 2 ^ i = xpow i 1.
Proof using Hn Hm.
  intros Hi. destruct Hi as [H0 Hi]. revert Hi. pattern i. apply natlike_ind; [done| |done]. clear i H0.
  intros i H0 IH Hi. unfold Z.succ in *. rewrite xpow_succ, <- IH by lia. unfold xtime. rewrite testbit_pow2 by lia.
  replace (deg - 1 =? i) with false by lia. rewrite Z.pow_add_r by lia. lia.
Qed.

Lemma gmul_pows i j : 0 <= i < deg -> 0 <= j < deg -> gmul (2 ^ i) (2 ^ j) = xpow (i + j) 1.
Proof using Hn Hm. intros Hi Hj. by rewrite gmul_pow, (pow_xpow j), xpow_add by lia. Qed.

Lemma gmul_bits_r a b : elem a -> elem b -> gmul a b = bits_sum n (fun j => gmul a (2 ^ j)) b.
Proof using Hn Hm.
  intros Ha Hb. apply (additive_bits n (gmul a)); [apply gmul_zero_r| |done]. intros x y Hx Hy. by apply gmul_xor_r.
Qed.

Lemma gmul_comm a b : elem a -> elem b -> gmul a b = gmul b a.
Proof using Hn Hm.
  intros Ha Hb. rewrite gmul_bits_r by done. unfold gmul at 2. apply bits_sum_ext. intros j Hj.
  rewrite (additive_bits n (fun x => gmul x (2 ^ j)) a); [|apply gmul_zero_l|intros; apply gmul_xor_l|done].
  rewrite (additive_bits n (xpow j) a); [|apply xpow_zero|intros; by apply xpow_xor|done].
  apply bits_sum_ext. intros i Hi. rewrite gmul_pows by done. rewrite (pow_xpow i) by done.
  by rewrite Z.add_comm, xpow_add by lia.
Qed.

Lemma gmul_xpow k a b : elem a -> elem b -> gmul a (xpow k b) = xpow k (gmul a b).
Proof using Hn Hm.
  intros Ha Hb. unfold gmul.
  assert (K : forall q, (q <= n)%nat -> bits_sum q (fun i => xpow i (xpow k b)) a = xpow k (bits_sum q (fun i => xpow i b) a)); [|by apply K].
  induction q as [|q IH]; intros Hq; cbn [bits_sum]; [by rewrite xpow_zero|]. rewrite IH by lia.
  rewrite xpow_xor; [f_equal| |].
  - destruct (Z.testbit a _); [|by rewrite xpow_zero]. unfold xpow. rewrite <- !Nat.iter_add. f_equal. lia.
  - apply bits_sum_word; [lia|]. intros i Hi. by apply xpow_elem.
  - destruct (Z.testbit a _); [by apply xpow_elem|apply elem_zero].
Qed.

Lemma gmul_assoc a b c : elem a -> elem b -> elem c -> gmul a (gmul b c) = gmul (gmul a b) c.
Proof using Hn Hm.
  intros Ha Hb Hc. rewrite (gmul_comm b c), (gmul_comm (gmul a b) c) by (done || by apply gmul_elem).
  unfold gmul at 2 4.
  assert (K : forall q, (q <= n)%nat -> gmul a (bits_sum q (fun i => xpow i b) c) = bits_sum q (fun i => xpow i (gmul a b)) c); [|by apply K].
  induction q as [|q IH]; intros Hq; cbn [bits_sum]; [apply gmul_zero_r|].
  rewrite gmul_xor_r, IH; [f_equal|lia| |].
  - destruct (Z.testbit c _); [by apply gmul_xpow|apply gmul_zero_r].
  - apply bits_sum_word; [lia|]. intros i Hi. by apply xpow_elem.
  - destruct (Z.testbit c _); [by apply xpow_elem|apply elem_zero].
Qed.

Lemma gmul_one_l b : gmul 1 b = b.
Proof using Hn Hm. change 1 with (2 ^ 0). by rewrite gmul_pow by lia. Qed.

Lemma gmul_one_r a : elem a -> gmul a 1 = a.
Proof using Hn Hm. intros Ha. rewrite gmul_comm by (done || apply elem_one). apply gmul_one_l. Qed.

(** *** The residue of a carry-less product *)

Definition residue (z : Z) : Z := bits_sum (n + n) (fun i => xpow i 1) z.

Lemma residue_clmul a b : elem a -> elem b -> residue (clmul n a b) = gmul a b.
Proof using Hn Hm.
  intros Ha Hb. rewrite (gmul_bits_r a b) by done.
  rewrite (additive_bits n (fun b => residue (clmul n a b)) b); [|rewrite clmul_zero_r; apply bits_sum_zero|intros x y _ _; rewrite clmul_xor_r; apply bits_sum_xor|done].
  apply bits_sum_ext. intros j Hj.
  rewrite (additive_bits n (fun a => residue (clmul n a (2 ^ j))) a); [|rewrite clmul_zero_l; apply bits_sum_zero|intros x y _ _; rewrite clmul_xor_l; apply bits_sum_xor|done].
  rewrite (additive_bits n (fun x => gmul x (2 ^ j)) a); [|apply gmul_zero_l|intros; apply gmul_xor_l|done].
  apply bits_sum_ext. intros i Hi. rewrite clmul_pow, gmul_pows by done.
  rewrite Z.shiftl_mul_pow2, <- Z.pow_add_r by lia. unfold residue. rewrite bits_sum_pow by lia. f_equal. lia.
Qed.
End Ring.
