(* ===== verification/GaloisTheorems.v ===== *)
(** The products of the Galois fields are the products modulo their polynomials,
    the inverse of GF(2^64) is one, and the universal hash is a polynomial in its
    seed whose coefficients can be extracted. *)

From Stdlib Require Import ZArith Lia ZifyBool Bool.
From stdpp Require Import base numbers list option.
From S2P Require Import Prelude OtStore SparseXor CrHash Sgrr LinearCode LinearCodeFacts GaloisField.

Local Open Scope Z_scope.
Local Notation "x ⊕ y" := (Z.lxor x y) (at level 50, left associativity).

(** Equal sums of the same terms. *)
Ltac xor_ring :=
  apply Z.bits_inj'; intros ? _; rewrite !Z.lxor_spec;
  repeat match goal with |- context [Z.testbit ?x ?j] => destruct (Z.testbit x j) end; reflexivity.

(** *** Halves *)

Lemma lane64_word a k : word 64 (lane64 a k).
Proof. apply Z.mod_pos_bound. lia. Qed.

Lemma xor_mod a b n : 0 <= n -> (a ⊕ b) mod 2 ^ n = a mod 2 ^ n ⊕ b mod 2 ^ n.
Proof.
  intros Hn. apply Z.bits_inj'. intros j Hj. rewrite Z.lxor_spec, !testbit_mod, Z.lxor_spec by lia. by destruct (j <? n).
Qed.

Lemma lane64_xor a b k : 0 <= k -> lane64 (a ⊕ b) k = lane64 a k ⊕ lane64 b k.
Proof.
  intros Hk. unfold lane64. rewrite Z.shiftr_lxor. apply xor_mod. lia.
Qed.

Lemma mm_clmul_xor_l a a' b imm : 
  mm_clmulepi64_si128 (a ⊕ a') b imm = mm_clmulepi64_si128 a b imm ⊕ mm_clmulepi64_si128 a' b imm.
Proof.
  unfold mm_clmulepi64_si128. rewrite lane64_xor by (apply Z.land_nonneg; lia). apply clmul_xor_l.
Qed.

Lemma mm_clmul_xor_r a b b' imm : 
  mm_clmulepi64_si128 a (b ⊕ b') imm = mm_clmulepi64_si128 a b imm ⊕ mm_clmulepi64_si128 a b' imm.
Proof.
  unfold mm_clmulepi64_si128. rewrite lane64_xor by (apply Z.land_nonneg; lia). apply clmul_xor_r.
Qed.

Lemma halves x : word 128 x -> x = lane64 x 0 ⊕ Z.shiftl (lane64 x 1) 64.
Proof.
  intros Hx. apply Z.bits_inj'. intros j Hj. unfold lane64. change (64 * 0) with 0. change (64 * 1) with 64. rewrite Z.shiftr_0_r.
  rewrite Z.lxor_spec, testbit_mod, Z.shiftl_spec by lia. destruct (Z.ltb_spec j 64).
  - rewrite (Z.testbit_neg_r _ (j - 64)) by lia. by rewrite xorb_false_r.
  - rewrite testbit_mod, Z.shiftr_spec by lia. replace (j - 64 + 64) with j by lia. cbn [andb xorb].
    destruct (Z.ltb_spec (j - 64) 64); [done|]. by rewrite (testbit_high 128 x) by (unfold word in Hx; lia).
Qed.

Lemma clmul_more n k a b : word (Z.of_nat n) a -> clmul (n + k) a b = clmul n a b.
Proof.
  intros Ha. unfold word in Ha. induction k as [|k IH]; [by rewrite Nat.add_0_r|]. rewrite Nat.add_succ_r. cbn [clmul].
  rewrite IH, (testbit_high (Z.of_nat n) a) by lia. apply Z.lxor_0_r.
Qed.

Lemma clmul_shift_l n k a b : clmul (n + k) (Z.shiftl a (Z.of_nat k)) b = Z.shiftl (clmul n a b) (Z.of_nat k).
Proof.
  induction n as [|n IH].
  - cbn [clmul Nat.add]. rewrite Z.shiftl_0_l. assert (H : forall q, (q <= k)%nat -> clmul q (Z.shiftl a (Z.of_nat k)) b = 0); [|by apply H].
    induction q as [|q IH]; intros Hq; [done|]. cbn [clmul]. rewrite IH, Z.shiftl_spec, Z.testbit_neg_r by lia. done.
  - cbn [clmul Nat.add]. rewrite IH, Z.shiftl_lxor, Z.shiftl_spec by lia. replace (Z.of_nat (n + k) - Z.of_nat k) with (Z.of_nat n) by lia.
    f_equal. destruct (Z.testbit a _); [|by rewrite Z.shiftl_0_l]. rewrite Z.shiftl_shiftl by lia. f_equal. lia.
Qed.

(** *** The product of two blocks *)

Lemma clmul_halves x y : word 128 x -> word 128 y ->
  clmul 128 x y = clmul 64 (lane64 x 0) (lane64 y 0) ⊕
    Z.shiftl (clmul 64 (lane64 x 0) (lane64 y 1) ⊕ clmul 64 (lane64 x 1) (lane64 y 0)) 64 ⊕
    Z.shiftl (clmul 64 (lane64 x 1) (lane64 y 1)) 128.
Proof.
  intros Hx Hy. rewrite (halves x Hx) at 1. rewrite clmul_xor_l.
  change 128%nat with (64 + 64)%nat. rewrite (clmul_more 64 64) by apply lane64_word.
  change 64 with (Z.of_nat 64) at 2. rewrite (clmul_shift_l 64 64). rewrite (halves y Hy) at 1 2. rewrite !clmul_xor_r, !clmul_shift_r by lia.
  rewrite !Z.shiftl_lxor, !Z.shiftl_shiftl by lia. change (Z.of_nat 64) with 64. change (64 + 64) with 128.
  rewrite !Z.lxor_assoc. done.
Qed.

Lemma shift_split x : word 128 x -> Z.shiftl x 64 = Z.shiftl (mm_srli_si128 x 8) 128 ⊕ mm_slli_si128 x 8.
Proof.
  intros Hx. unfold mm_srli_si128, mm_slli_si128, u128. change (8 * 8) with 64. apply Z.bits_inj'. intros j Hj.
  rewrite Z.lxor_spec, testbit_mod, !Z.shiftl_spec by lia. destruct (Z.ltb_spec j 128).
  - rewrite (Z.testbit_neg_r _ (j - 128)) by lia. by rewrite xorb_false_l.
  - rewrite Z.shiftr_spec by lia. cbn [andb]. rewrite xorb_false_r. f_equal. lia.
Qed.

Lemma cl_mul_words x y : word 128 (fst (Gf128ClMul x y)) /\ word 128 (snd (Gf128ClMul x y)).
Proof.
  assert (H : forall imm, word 128 (mm_clmulepi64_si128 x y imm)).
  { intros imm. unfold mm_clmulepi64_si128. apply (clmul_word 64 64); [lia|apply lane64_word]. }
  unfold Gf128ClMul. cbn [fst snd]. split; apply word_xor; try lia; try apply H.
  - unfold mm_srli_si128. rewrite Z.shiftr_div_pow2 by lia.
    pose proof (word_xor 128 _ _ ltac:(lia) (H 0x10) (H 0x01)) as (H0 & H1). split; [apply Z.div_pos; lia|].
    apply Z.div_lt_upper_bound; lia.
  - apply Z.mod_pos_bound. lia.
Qed.

Lemma cl_mul_run x y : word 128 x -> word 128 y ->
  clmul 128 x y = Z.shiftl (fst (Gf128ClMul x y)) 128 ⊕ snd (Gf128ClMul x y).
Proof.
  intros Hx Hy. rewrite clmul_halves by done. unfold Gf128ClMul. cbn [fst snd].
  change (mm_clmulepi64_si128 x y 0x00) with (clmul 64 (lane64 x 0) (lane64 y 0)).
  change (mm_clmulepi64_si128 x y 0x11) with (clmul 64 (lane64 x 1) (lane64 y 1)).
  change (mm_clmulepi64_si128 x y 0x10) with (clmul 64 (lane64 x 0) (lane64 y 1)).
  change (mm_clmulepi64_si128 x y 0x01) with (clmul 64 (lane64 x 1) (lane64 y 0)).
  rewrite shift_split by (apply word_xor; [lia|apply (clmul_word 64 64); [lia|apply lane64_word]..]).
  rewrite Z.shiftl_lxor. xor_ring.
Qed.

(** *** Reductions *)

Local Abbreviation gmul128 := (gmul 128 kGfMod128).
Local Abbreviation gmul64 := (gmul 64 kGfMod64).

Lemma cl_mul_xor_l x x' y :
  fst (Gf128ClMul (x ⊕ x') y) = fst (Gf128ClMul x y) ⊕ fst (Gf128ClMul x' y) /\
  snd (Gf128ClMul (x ⊕ x') y) = snd (Gf128ClMul x y) ⊕ snd (Gf128ClMul x' y).
Proof.
  unfold Gf128ClMul. cbn [fst snd]. rewrite !mm_clmul_xor_l.
  rewrite (xor_swap (mm_clmulepi64_si128 x y 0x10)). unfold mm_srli_si128, mm_slli_si128, u128.
  split; [rewrite Z.shiftr_lxor; xor_ring|]. rewrite Z.shiftl_lxor, xor_mod by lia. xor_ring.
Qed.

Lemma reduce128_eq h l : Gf128Reduce h l =
  l ⊕ snd (Gf128ClMul h kGfMod128) ⊕ snd (Gf128ClMul (fst (Gf128ClMul h kGfMod128)) kGfMod128).
Proof. unfold Gf128Reduce. destruct (Gf128ClMul h _) as [u c0]. cbn [fst snd]. by destruct (Gf128ClMul u _). Qed.

Lemma reduce128_xor h h' l l' : Gf128Reduce (h ⊕ h') (l ⊕ l') = Gf128Reduce h l ⊕ Gf128Reduce h' l'.
Proof.
  rewrite !reduce128_eq. destruct (cl_mul_xor_l h h' kGfMod128) as (-> & ->).
  rewrite (proj2 (cl_mul_xor_l (fst (Gf128ClMul h kGfMod128)) (fst (Gf128ClMul h' kGfMod128)) kGfMod128)).
  xor_ring.
Qed.

Lemma reduce128_basis :
  forallb (fun i => (Gf128Reduce (2 ^ i) 0 =? xpow 128 kGfMod128 (128 + i) 1) &&
                    (Gf128Reduce 0 (2 ^ i) =? xpow 128 kGfMod128 i 1)) (seqZ 0 128) = true.
Proof. vm_compute. reflexivity. Qed.

Lemma mod128_word : word (Z.of_nat 128) kGfMod128.
Proof. by split. Qed.

Lemma mod64_word : word (Z.of_nat 64) kGfMod64.
Proof. by split. Qed.

Lemma forallb_seqZ (f : Z -> bool) n i : forallb f (seqZ 0 n) = true -> 0 <= i < n -> f i = true.
Proof. intros H Hi. rewrite forallb_forall in H. apply H, list_elem_of_In, elem_of_seqZ. lia. Qed.

Lemma residue_zero n m : residue n m 0 = 0.
Proof. apply bits_sum_zero. Qed.

Lemma reduce128_run h l : word 128 h -> word 128 l ->
  Gf128Reduce h l = residue 128 kGfMod128 (Z.shiftl h 128 ⊕ l).
Proof.
  intros Hh Hl. unfold residue. rewrite bits_sum_xor.
  transitivity (Gf128Reduce h 0 ⊕ Gf128Reduce 0 l); [by rewrite <- reduce128_xor, Z.lxor_0_r, Z.lxor_0_l|]. f_equal.
  - rewrite (additive_bits 128 (fun x => Gf128Reduce x 0) h); [|done|intros a b _ _; by rewrite <- reduce128_xor|done].
    rewrite (additive_bits 128 (fun x => bits_sum (128 + 128) (fun i => xpow 128 kGfMod128 i 1) (Z.shiftl x 128)) h);
      [|apply bits_sum_zero|intros a b _ _; rewrite Z.shiftl_lxor; apply bits_sum_xor|done].
    apply bits_sum_ext. intros i Hi. pose proof (forallb_seqZ _ 128 i reduce128_basis Hi) as E.
    rewrite Z.shiftl_mul_pow2, <- Z.pow_add_r, bits_sum_pow by lia. rewrite (Z.add_comm i). lia.
  - rewrite (additive_bits 128 (Gf128Reduce 0) l); [|done|intros a b _ _; by rewrite <- reduce128_xor|done].
    rewrite (additive_bits 128 (bits_sum (128 + 128) (fun i => xpow 128 kGfMod128 i 1)) l);
      [|apply bits_sum_zero|intros a b _ _; apply bits_sum_xor|done].
    apply bits_sum_ext. intros i Hi. pose proof (forallb_seqZ _ 128 i reduce128_basis Hi) as E.
    rewrite bits_sum_pow by lia. lia.
Qed.

Lemma gf128_mul_run x y : word 128 x -> word 128 y -> Gf128Mul x y = gmul128 x y.
Proof.
  intros Hx Hy. unfold Gf128Mul. destruct (cl_mul_words x y) as (H1 & H2). pose proof (cl_mul_run x y Hx Hy) as E.
  destruct (Gf128ClMul x y) as [h l]. cbn [fst snd] in *. rewrite reduce128_run, <- E by done.
  apply residue_clmul; [lia|apply mod128_word|done|done].
Qed.

(** *** GF(2^64) *)

Lemma lane64_small x : word 64 x -> lane64 x 0 = x.
Proof. intros Hx. unfold lane64. change (64 * 0) with 0. rewrite Z.shiftr_0_r. by apply Z.mod_small. Qed.

Lemma cl64_run x y : word 64 x -> word 64 y -> Gf64ClMul x y = clmul 64 x y.
Proof.
  intros Hx Hy. unfold Gf64ClMul, mm_clmulepi64_si128. change (Z.land 0x00 1) with 0. change (Z.land (Z.shiftr 0x00 4) 1) with 0.
  unfold u64. rewrite !Z.mod_small by (unfold word in *; lia). by rewrite !lane64_small.
Qed.

Lemma reduce64_xor x x' : Gf64Reduce (x ⊕ x') = Gf64Reduce x ⊕ Gf64Reduce x'.
Proof.
  unfold Gf64Reduce. cbv zeta. rewrite !mm_clmul_xor_r, !lane64_xor by lia. xor_ring.
Qed.

Lemma reduce64_basis : forallb (fun i => Gf64Reduce (2 ^ i) =? xpow 64 kGfMod64 i 1) (seqZ 0 128) = true.
Proof. vm_compute. reflexivity. Qed.

Lemma reduce64_run x : word 128 x -> Gf64Reduce x = residue 64 kGfMod64 x.
Proof.
  intros Hx. rewrite (additive_bits 128 Gf64Reduce x); [|done|intros; apply reduce64_xor|done].
  apply bits_sum_ext. intros i Hi. pose proof (forallb_seqZ _ 128 i reduce64_basis Hi). lia.
Qed.

Lemma gf64_mul_run x y : word 64 x -> word 64 y -> Gf64Mul x y = gmul64 x y.
Proof.
  intros Hx Hy. unfold Gf64Mul. rewrite cl64_run, reduce64_run by (try apply (clmul_word 64 64); done || lia).
  apply residue_clmul; [lia|apply mod64_word|done|done].
Qed.

(** *** Spans *)

Local Opaque clmul bits_sum Gf128ClMul.

(** The sum of the products of two vectors. *)
Fixpoint dot (mul : Z -> Z -> Z) (x y : list Z) : Z :=
  match x, y with
  | a :: x', b :: y' => mul a b ⊕ dot mul x' y'
  | _, _ => 0
  end.

Lemma clmul_sum128_run x y ret : Forall (word 128) x -> Forall (word 128) y -> word 128 (fst ret) -> word 128 (snd ret) ->
  let out := clmul_sum128 x y ret in
  word 128 (fst out) /\ word 128 (snd out) /\
  Gf128Reduce (fst out) (snd out) = Gf128Reduce (fst ret) (snd ret) ⊕ dot gmul128 x y.
Proof.
  intros Hx Hy. revert y Hy ret. induction Hx as [|a x Ha Hx IH]; intros y Hy ret Hr1 Hr2; cbn [clmul_sum128 dot].
  - by rewrite Z.lxor_0_r.
  - destruct Hy as [|b y Hb Hy]; [by rewrite Z.lxor_0_r|].
    pose proof (gf128_mul_run a b Ha Hb) as E. unfold Gf128Mul in E. destruct (cl_mul_words a b) as (W1 & W2).
    destruct (Gf128ClMul a b) as [h l]. cbn [fst snd] in *. cbv zeta.
    destruct (IH y Hy (fst ret ⊕ h, snd ret ⊕ l)) as (I1 & I2 & I3); [by apply word_xor..|].
    split_and!; [done|done|]. rewrite I3. cbn [fst snd]. rewrite reduce128_xor, E. apply Z.lxor_assoc.
Qed.

Lemma gf128_mul_span_run x y : Forall (word 128) x -> Forall (word 128) y -> vsize x = vsize y ->
  Gf128Mul_span x y = Val (dot gmul128 x y).
Proof.
  intros Hx Hy Hl. unfold Gf128Mul_span, Gf128ClMul_span. rewrite Hl, Z.eqb_refl. cbn [OtStore.enforce mbind res_bind].
  destruct (clmul_sum128_run x y (0, 0) Hx Hy) as (_ & _ & E); [by split..|].
  destruct (clmul_sum128 x y (0, 0)) as [h l]. cbn [fst snd] in E. rewrite E.
  change (Gf128Reduce 0 0) with 0. by rewrite Z.lxor_0_l.
Qed.

Lemma make128_lanes hi lo : word 64 hi -> word 64 lo -> lane64 (MakeUint128 hi lo) 0 = lo /\ lane64 (MakeUint128 hi lo) 1 = hi.
Proof.
  unfold word, lane64, MakeUint128. intros Hh Hl. rewrite lor_shift by lia. rewrite !Z.shiftr_div_pow2 by lia.
  change (2 ^ (64 * 0)) with 1. change (2 ^ (64 * 1)) with (2 ^ 64). rewrite Z.div_1_r.
  rewrite Z.add_comm, Z_mod_plus_full, Z_div_plus_full, (Z.div_small lo) by lia. rewrite !Z.mod_small by lia. lia.
Qed.

Lemma clmul_sum64_run k x y ret : (length x <= k)%nat -> Forall (word 64) x -> Forall (word 64) y -> vsize x = vsize y -> word 128 ret ->
  word 128 (clmul_sum64 x y ret) /\ Gf64Reduce (clmul_sum64 x y ret) = Gf64Reduce ret ⊕ dot gmul64 x y.
Proof.
  revert x y ret. induction k as [|k IH]; intros x y ret Hk Hx Hy Hl Hr; unfold vsize in Hl.
  - destruct x; [|cbn in Hk; lia]. cbn. by rewrite Z.lxor_0_r.
  - destruct Hx as [|a0 x Ha0 Hx]; [cbn; by rewrite Z.lxor_0_r|]. destruct Hy as [|b0 y Hb0 Hy]; [done|].
    assert (W : forall a b, word 64 a -> word 64 b -> word 128 (clmul 64 a b)).
    { intros a b Ha Hb. by apply (clmul_word 64 64). }
    assert (R : forall a b, word 64 a -> word 64 b -> Gf64Reduce (clmul 64 a b) = gmul64 a b).
    { intros a b Ha Hb. rewrite <- (cl64_run a b), <- gf64_mul_run by done. done. }
    destruct Hx as [|a1 x Ha1 Hx]; destruct Hy as [|b1 y Hb1 Hy]; cbn in Hl; try lia; cbn [clmul_sum64 dot].
    + rewrite cl64_run by done. split; [apply word_xor; [lia|done|by apply W]|].
      by rewrite reduce64_xor, R, Z.lxor_0_r by done.
    + destruct (make128_lanes a1 a0 Ha1 Ha0) as (A0 & A1). destruct (make128_lanes b1 b0 Hb1 Hb0) as (B0 & B1).
      change (mm_clmulepi64_si128 ?x ?y 0x00) with (clmul 64 (lane64 x 0) (lane64 y 0)).
      change (mm_clmulepi64_si128 ?x ?y 0x11) with (clmul 64 (lane64 x 1) (lane64 y 1)).
      rewrite A0, A1, B0, B1. cbn in Hk.
      destruct (IH x y (ret ⊕ clmul 64 a0 b0 ⊕ clmul 64 a1 b1)) as (I1 & I2); try done; try (unfold vsize; lia).
      { apply word_xor; [lia|apply word_xor; [lia|done|by apply W]|by apply W]. }
      split; [done|]. rewrite I2, !reduce64_xor, !R by done. by rewrite !Z.lxor_assoc.
Qed.

Lemma gf64_mul_span_run x y : Forall (word 64) x -> Forall (word 64) y -> vsize x = vsize y ->
  Gf64Mul_span x y = Val (dot gmul64 x y).
Proof.
  intros Hx Hy Hl. unfold Gf64Mul_span, Gf64ClMul_span. rewrite Hl, Z.eqb_refl. cbn [OtStore.enforce mbind res_bind].
  destruct (clmul_sum64_run (length x) x y 0) as (_ & E); [done..|by split|]. rewrite E.
  change (Gf64Reduce 0) with 0. by rewrite Z.lxor_0_l.
Qed.

(** *** The laws of a product *)

(** [mul] makes the [w]-bit words, with exclusive or, a commutative ring with 1. *)
Class GfLaws (w : Z) (mul : Z -> Z -> Z) : Prop := {
  gf_width : 1 <= w;
  gf_closed x y : word w x -> word w y -> word w (mul x y);
  gf_comm x y : word w x -> word w y -> mul x y = mul y x;
  gf_assoc x y z : word w x -> word w y -> word w z -> mul x (mul y z) = mul (mul x y) z;
  gf_distr x y z : word w x -> word w y -> word w z -> mul x (y ⊕ z) = mul x y ⊕ mul x z;
  gf_one x : word w x -> mul 1 x = x
}.

Lemma ring_laws n m (mul : Z -> Z -> Z) : (1 <= n)%nat -> word (Z.of_nat n) m ->
  (forall x y, word (Z.of_nat n) x -> word (Z.of_nat n) y -> mul x y = gmul n m x y) -> GfLaws (Z.of_nat n) mul.
Proof.
  intros Hn Hm H. assert (C : forall x y, word (Z.of_nat n) x -> word (Z.of_nat n) y -> word (Z.of_nat n) (mul x y)).
  { intros x y Hx Hy. rewrite H by done. by apply gmul_elem. }
  assert (X : forall x y, word (Z.of_nat n) x -> word (Z.of_nat n) y -> word (Z.of_nat n) (x ⊕ y)) by (intros; apply word_xor; done || lia).
  constructor; [lia|exact C|intros x y Hx Hy|intros x y z Hx Hy Hz|intros x y z Hx Hy Hz|intros x Hx].
  - rewrite !H by done. by apply gmul_comm.
  - rewrite (H x), (H (mul x y)), (H y), (H x y) by (done || by apply C). by apply gmul_assoc.
  - rewrite !H by (done || by apply X). by apply gmul_xor_r.
  - rewrite H by (done || by apply (elem_one n m)). by apply gmul_one_l.
Qed.

#[export] Instance gf128_laws : GfLaws 128 Gf128Mul.
Proof. apply (ring_laws 128 kGfMod128); [lia|apply mod128_word|]. intros x y. apply gf128_mul_run. Qed.

#[export] Instance gf64_laws : GfLaws 64 Gf64Mul.
Proof. apply (ring_laws 64 kGfMod64); [lia|apply mod64_word|]. intros x y. apply gf64_mul_run. Qed.

Section Powers.
Context (w : Z) (mul : Z -> Z -> Z) `{!GfLaws w mul}.
Local Abbreviation elem x := (word w x) (only parsing).

Definition gpow (x k : Z) : Z := Nat.iter (Z.to_nat k) (mul x) 1.

Lemma one_elem : elem 1.
Proof using All. pose proof gf_width. apply (word_pow w 0). lia. Qed.

Lemma zero_elem : elem 0.
Proof using All. pose proof gf_width. apply zero_word. lia. Qed.

Lemma xor_elem x y : elem x -> elem y -> elem (x ⊕ y).
Proof using All. pose proof gf_width. intros. apply word_xor; done || lia. Qed.

Lemma mul_zero_r x : elem x -> mul x 0 = 0.
Proof using All.
  intros Hx. pose proof (gf_distr x 0 0 Hx zero_elem zero_elem) as H. rewrite Z.lxor_0_l in H.
  rewrite H. apply Z.lxor_nilpotent.
Qed.

Lemma gpow_elem x k : elem x -> elem (gpow x k).
Proof using All. intros Hx. unfold gpow. induction (Z.to_nat k) as [|q IH]; [apply one_elem|]. rewrite Nat.iter_succ. by apply gf_closed. Qed.

Lemma gpow_succ x k : 0 <= k -> gpow x (k + 1) = mul x (gpow x k).
Proof using Type. intros Hk. unfold gpow. by rewrite Z2Nat.inj_add, Nat.add_comm by lia. Qed.

Lemma gpow_one x : elem x -> gpow x 1 = x.
Proof using All. intros Hx. change 1 with (0 + 1). rewrite gpow_succ by lia. change (gpow x 0) with 1. rewrite gf_comm, gf_one by (done || apply one_elem). done. Qed.

Lemma gpow_add x j k : elem x -> 0 <= j -> 0 <= k -> mul (gpow x j) (gpow x k) = gpow x (j + k).
Proof using All.
  intros Hx Hj Hk. revert j Hj. apply natlike_ind; [change (gpow x 0) with 1; apply gf_one; by apply gpow_elem|].
  intros j Hj IH. unfold Z.succ. rewrite gpow_succ, <- gf_assoc, IH by (done || by apply gpow_elem).
  rewrite <- gpow_succ by lia. f_equal. lia.
Qed.

Lemma squarings_pow n x k : elem x -> 0 <= k -> squarings mul n (gpow x k) = gpow x (k * 2 ^ Z.of_nat n).
Proof using All.
  intros Hx. revert k. induction n as [|n IH]; intros k Hk; cbn [squarings].
  - change (2 ^ Z.of_nat 0) with 1. by rewrite Z.mul_1_r.
  - rewrite gpow_add, IH by (done || lia). f_equal. rewrite Nat2Z.inj_succ, Z.pow_succ_r by lia. lia.
Qed.

Lemma inverse_chain_pow x : elem x -> inverse_chain mul x = gpow x (2 ^ 64 - 2).
Proof using All.
  intros Hx. transitivity (inverse_chain mul (gpow x 1)); [by rewrite gpow_one|]. unfold inverse_chain. cbv zeta.
  repeat (rewrite gpow_add, ?squarings_pow by (done || lia)). refine (f_equal (gpow x) _). vm_compute. reflexivity.
Qed.

Lemma mul_distr_r x y z : elem x -> elem y -> elem z -> mul (x ⊕ y) z = mul x z ⊕ mul y z.
Proof using All.
  intros Hx Hy Hz. rewrite (gf_comm (mul := mul) (x ⊕ y)), (gf_distr (mul := mul)) by (done || by apply xor_elem).
  by rewrite (gf_comm (mul := mul) z x), (gf_comm (mul := mul) z y).
Qed.

(** Squaring is additive. *)
Lemma square_xor x y : elem x -> elem y -> mul (x ⊕ y) (x ⊕ y) = mul x x ⊕ mul y y.
Proof using All.
  intros Hx Hy. rewrite (gf_distr (mul := mul)), !mul_distr_r by (done || by apply xor_elem).
  rewrite (gf_comm (mul := mul) y x) by done. set (p := mul x y). clearbody p. xor_ring.
Qed.

Lemma squarings_elem n x : elem x -> elem (squarings mul n x).
Proof using All. revert x. induction n as [|n IH]; intros x Hx; [done|]. cbn [squarings]. apply IH. by apply gf_closed. Qed.

Lemma squarings_xor n x y : elem x -> elem y -> squarings mul n (x ⊕ y) = squarings mul n x ⊕ squarings mul n y.
Proof using All.
  revert x y. induction n as [|n IH]; intros x y Hx Hy; [done|]. cbn [squarings]. rewrite square_xor, IH by (done || by apply gf_closed). done.
Qed.
End Powers.

(** *** The inverse of GF(2^64) *)

Local Abbreviation pow64 := (gpow Gf64Mul).

(** Squaring 64 times is the identity on GF(2^64). *)
Lemma frobenius_basis : forallb (fun i => squarings Gf64Mul 64 (2 ^ i) =? 2 ^ i) (seqZ 0 64) = true.
Proof. vm_compute. reflexivity. Qed.

Lemma frobenius_id x : word 64 x -> squarings Gf64Mul 64 x = x.
Proof.
  intros Hx. rewrite (additive_bits 64 (squarings Gf64Mul 64) x); [|vm_compute; reflexivity|intros a b; apply (squarings_xor 64 Gf64Mul)|done].
  transitivity (bits_sum 64 (fun i => 2 ^ i) x); [|by apply bits_sum_id].
  apply bits_sum_ext. intros i Hi. pose proof (forallb_seqZ _ 64 i frobenius_basis Hi). lia.
Qed.

(** A linear map that takes [x * x + x] back to [x], up to its constant term: so only
    0 and 1 are their own squares, and the polynomial is irreducible. *)
Definition unsquare_table : list Z :=
  [0x19c9369f278adc02; 0x84b2b22ab2383ee4; 0x84b2b22ab2383ee6; 0x9d7b84b495b3e3f6;
   0x84b2b22ab2383ee2; 0x37c470b49213f790; 0x9d7b84b495b3e3fe; 0x1000a0105137c;
   0x84b2b22ab2383ef2; 0x368e964a8edce1fc; 0x37c470b49213f7b0; 0x19c9368e278fdf4c;
   0x9d7b84b495b3e3be; 0x2e4da23cbc7d4570; 0x1000a010513fc; 0x84f35772bac24232;
   0x84b2b22ab2383ff2; 0x37c570ba9314e4fc; 0x368e964a8edce3fc; 0xb377c390213cdb0e;
   0x37c470b49213f3b0; 0x85ed5a3aa99c24f2; 0x19c9368e278fd74c; 0xaabff0000780000e;
   0x9d7b84b495b3f3be; 0x84b6b3dab03038f2; 0x2e4da23cbc7d6570; 0x511ea03494ffc;
   0x1000a010553fc; 0xae0c0220343c6c0e; 0x84f35772bac2c232; 0x800000008000000e;
   0x84b2b22ab2393ff2; 0xb376c29c202bc97e; 0x37c570ba9316e4fc; 0x9c3062488879e6ce;
   0x368e964a8ed8e3fc; 0x41e42c08e47e70; 0xb377c3902134db0e; 0x85b9b108a60f56ce;
   0x37c470b49203f3b0; 0x19dd3b6e21f3cb4c; 0x85ed5a3aa9bc24f2; 0x198ddf682c428ac0;
   0x19c9368e27cfd74c; 0x4b7c68431ca84b0; 0xaabff0000700000e; 0x8040655489ffefbe;
   0x9d7b84b494b3f3be; 0x18c1354e32bfa74c; 0x84b6b3dab23038f2; 0xaaf613cc0f74627e;
   0x2e4da23cb87d6570; 0x3248b3d6b3342a8c; 0x511ea0b494ffc; 0xb60813c00e70700e;
   0x1000a110553fc; 0x1e0d022a05393ffc; 0xae0c0220143c6c0e; 0xe0c0220143c6c00;
   0x84f35772fac2c232; 0x0; 0x800000000000000e; 0xc041e55948fbfdce].

Definition unsquare (x : Z) : Z := bits_sum 64 (blk unsquare_table) x.

Lemma unsquare_basis :
  forallb (fun i => unsquare (Gf64Mul (2 ^ i) (2 ^ i) ⊕ 2 ^ i) =? 2 ^ i ⊕ (if i =? 0 then 1 else 0)) (seqZ 0 64) = true.
Proof. vm_compute. reflexivity. Qed.

Lemma gf64_idempotent e : word 64 e -> Gf64Mul e e = e -> e = 0 \/ e = 1.
Proof.
  intros He Hs. assert (E : unsquare (Gf64Mul e e ⊕ e) = 0) by (rewrite Hs, Z.lxor_nilpotent; apply bits_sum_zero).
  rewrite (additive_bits 64 (fun x => unsquare (Gf64Mul x x ⊕ x)) e) in E; [|vm_compute; reflexivity| |done].
  2: { intros a b Ha Hb. rewrite (square_xor 64 Gf64Mul) by done. unfold unsquare. rewrite <- bits_sum_xor. f_equal. xor_ring. }
  rewrite (bits_sum_ext 64 _ (fun i => 2 ^ i ⊕ (if i =? 0 then 1 else 0))) in E.
  - rewrite bits_sum_fun_xor, bits_sum_id in E by done. apply Z.lxor_eq in E.
    assert (word 1 e) as H; [|unfold word in H; lia]. rewrite E. apply bits_sum_word; [lia|].
    intros i Hi. unfold word. destruct (i =? 0); lia.
  - intros i Hi. pose proof (forallb_seqZ _ 64 i unsquare_basis Hi). lia.
Qed.

Local Notation "x ⊕ y" := (Z.lxor x y) (at level 50, left associativity).

Section Hash.
Context (w : Z) (mul : Z -> Z -> Z) `{!GfLaws w mul}.
Local Abbreviation elem x := (word w x) (only parsing).
Local Abbreviation pow := (gpow mul).

(** The sum of [data[i] * seed ^ (k + i + 1)]. *)
Fixpoint hash_sum (seed k : Z) (data : list Z) : Z :=
  match data with
  | [] => 0
  | v :: l => mul (pow seed (k + 1)) v ⊕ hash_sum seed (k + 1) l
  end.

Lemma hash_elem seed data : elem seed -> Forall (word w) data -> elem (UniversalHash mul seed data).
Proof using All.
  intros Hs. induction 1 as [|v l Hv Hl IH]; [by apply (zero_elem w mul)|]. cbn. apply gf_closed; [done|]. by apply (xor_elem w mul).
Qed.

Lemma universal_hash_shift seed data k : elem seed -> Forall (word w) data -> 0 <= k ->
  mul (pow seed k) (UniversalHash mul seed data) = hash_sum seed k data.
Proof using All.
  intros Hs Hd. revert k. induction Hd as [|v l Hv Hl IH]; intros k Hk; cbn [hash_sum UniversalHash foldr].
  - apply (mul_zero_r w mul). by apply (gpow_elem w mul).
  - fold (UniversalHash mul seed l). pose proof (hash_elem seed l Hs Hl) as Hh. pose proof (gpow_elem w mul seed k Hs) as Hp.
    rewrite (gf_assoc (mul := mul)), (gf_comm (mul := mul) (pow seed k) seed) by (done || by apply (xor_elem w mul)).
    rewrite <- (gpow_succ mul seed k) by done. rewrite (gf_distr (mul := mul)), IH by (done || lia || by apply (gpow_elem w mul)).
    apply Z.lxor_comm.
Qed.

Lemma universal_hash_sum seed data : elem seed -> Forall (word w) data -> UniversalHash mul seed data = hash_sum seed 0 data.
Proof using All.
  intros Hs Hd. rewrite <- universal_hash_shift by (done || lia). change (gpow mul seed 0) with 1.
  symmetry. apply gf_one. by apply hash_elem.
Qed.

Lemma hash_sum_xor seed k a b : elem seed -> Forall (word w) a -> Forall (word w) b -> vsize a = vsize b ->
  hash_sum seed k (xor_words a b) = hash_sum seed k a ⊕ hash_sum seed k b.
Proof using All.
  intros Hs Ha. revert k b. induction Ha as [|x a Hx Ha IH]; intros k b Hb Hl; destruct Hb as [|y b Hy Hb]; [done|done|done|].
  cbn [xor_words zip_with hash_sum]. fold (xor_words a b). rewrite IH by (done || (unfold vsize in *; cbn in Hl; lia)).
  rewrite (gf_distr (mul := mul)) by (done || by apply (gpow_elem w mul)). apply xor_swap.
Qed.

(** *** Coefficients *)

Lemma hash_powers_run seed bits : elem seed -> 0 <= bits < 64 ->
  exists buff, hash_powers mul seed bits = Some buff /\ vsize buff = 64 /\
    forall i, 0 <= i <= bits -> blk buff i = pow seed (2 ^ i).
Proof using All.
  intros Hs Hb. unfold hash_powers.
  destruct (for_up_inv (fun q l => vsize l = 64 /\ forall i, 0 <= i < q -> blk l i = pow seed (2 ^ i))
    (fun i buff => x ← vget buff (i - 1); vset buff i (mul x x)) (Z.to_nat bits) 1 (seed :: replicate 63 0)) as (l & -> & S & H).
  - split; [done|]. intros i Hi. replace i with 0 by lia. change (blk (seed :: replicate 63 0) 0) with seed.
    change (2 ^ 0) with 1. by rewrite (gpow_one w mul).
  - intros i l Hi (S & H). rewrite vget_blk, H by lia. cbn [mbind option_bind]. rewrite vset_Some by lia.
    eexists. split; [done|]. rewrite vsize_insert. split; [done|]. intros j Hj. rewrite blk_insert by lia.
    destruct (Z.eqb_spec j i) as [-> | Hne]; [|apply H; lia].
    rewrite (gpow_add w mul) by (done || (apply Z.pow_nonneg; lia)). f_equal.
    replace i with (Z.succ (i - 1)) at 3 by lia. rewrite Z.pow_succ_r by lia. lia.
  - exists l. split_and!; [done|done|]. intros i Hi. apply H. lia.
Qed.

Lemma pow2_step x i : 0 <= i -> x mod 2 ^ (i + 1) = x mod 2 ^ i + 2 ^ i * Z.b2z (Z.testbit x i).
Proof using Type.
  intros Hi. rewrite Z.testbit_spec' by lia. rewrite Z.pow_add_r, Z.rem_mul_r by (try apply Z.pow_nonzero; lia). done.
Qed.

Lemma hash_coef_run fuel buff bits seed p i coef : elem seed -> vsize buff = 64 ->
  (forall j, 0 <= j <= bits -> blk buff j = pow seed (2 ^ j)) -> 0 <= bits < 64 -> 0 <= p < 2 ^ (bits + 1) -> 0 <= i ->
  i + Z.of_nat fuel = 64 -> coef = pow seed (p mod 2 ^ i) -> hash_coef mul fuel buff p i coef = Some (pow seed p).
Proof using All.
  intros Hs Sb Hb Hbits Hp. revert i coef. induction fuel as [|fuel IH]; intros i coef Hi Hf ->; cbn [hash_coef].
  - rewrite Z.mod_small; [done|]. split; [lia|]. eapply Z.lt_le_trans; [apply Hp|]. apply Z.pow_le_mono_r; lia.
  - destruct (Z.leb_spec (2 ^ i) p) as [Hle|Hlt]; [|by rewrite Z.mod_small by lia].
    assert (i < bits + 1) by (apply (Z.pow_lt_mono_r_iff 2); lia).
    assert (Hbit : negb (Z.land (2 ^ i) p =? 0) = Z.testbit p i).
    { destruct (Z.testbit p i) eqn:E.
      - replace (Z.land (2 ^ i) p) with (2 ^ i); [pose proof (Z.pow_pos_nonneg 2 i); lia|].
        apply Z.bits_inj'. intros j Hj. rewrite Z.land_spec, testbit_pow2 by lia. by destruct (Z.eqb_spec j i) as [-> | ].
      - replace (Z.land (2 ^ i) p) with 0; [done|].
        apply Z.bits_inj'. intros j Hj. rewrite Z.land_spec, testbit_pow2, Z.bits_0 by lia. by destruct (Z.eqb_spec j i) as [-> | ]. }
    rewrite Hbit. pose proof (pow2_step p i Hi) as E. destruct (Z.testbit p i).
    + rewrite vget_blk, Hb by lia. cbn [mbind option_bind]. apply IH; [lia|lia|].
      rewrite (gpow_add w mul) by (done || (apply Z.mod_pos_bound, Z.pow_pos_nonneg; lia) || (apply Z.pow_nonneg; lia)).
      f_equal. cbn [Z.b2z] in E. lia.
    + cbn [mbind option_bind]. apply IH; [lia|lia|]. f_equal. cbn [Z.b2z] in E. lia.
Qed.

Lemma extract_run seed indexes back : elem seed -> vget indexes (vsize indexes - 1) = Some back -> 2 <= back < 2 ^ 63 ->
  (forall j, j ∈ indexes -> 0 <= j <= back) ->
  ExtractHashCoef mul seed indexes = Val ((fun j => pow seed (j + 1)) <$> indexes).
Proof using All.
  intros Hs Hback Hb Hall. unfold ExtractHashCoef. rewrite Hback. cbn [access mbind res_bind].
  set (bits := Z.log2 (back - 1) + 1).
  assert (Hl : Log2Ceil back = Val bits).
  { unfold Log2Ceil, Log2Floor, countl_zero. replace (back =? 0) with false by lia. replace (back =? 1) with false by lia.
    replace (back - 1 =? 0) with false by lia. cbn. f_equal. unfold bits. lia. }
  assert (B : 1 <= bits < 64).
  { unfold bits. pose proof (Z.log2_nonneg (back - 1)). pose proof (proj1 (Z.log2_lt_pow2 (back - 1) 63 ltac:(lia))). lia. }
  assert (P : back <= 2 ^ bits).
  { unfold bits. pose proof (Z.log2_spec (back - 1) ltac:(lia)). rewrite Z.add_1_r. lia. }
  rewrite Hl. cbn [mbind res_bind]. destruct (hash_powers_run seed bits) as (buff & -> & Sb & Hbuff); [done|lia|]. cbn [access mbind res_bind].
  assert (2 ^ 1 <= 2 ^ bits) by (apply Z.pow_le_mono_r; lia).
  assert (K : forall j, j ∈ indexes -> hash_coef mul 64 buff (u64 (j + 1)) 0 1 = Some (pow seed (j + 1))).
  { intros j Hj. pose proof (Hall j Hj). unfold u64. rewrite Z.mod_small by lia.
    apply (hash_coef_run 64 buff bits); try done; try lia.
    - rewrite Z.pow_add_r by lia. lia.
    - change (2 ^ 0) with 1. by rewrite Z.mod_1_r. }
  clear Hback Hall. induction indexes as [|j js IH]; [done|]. cbn [mapM]. rewrite K by left. cbn [mbind option_bind].
  assert (E : access (mapM (fun index => hash_coef mul 64 buff (u64 (index + 1)) 0 1) js) = Val ((fun j => pow seed (j + 1)) <$> js)).
  { apply IH. intros q Hq. apply K. by right. }
  destruct (mapM _ js); [|done]. cbn in E. injection E as ->. done.
Qed.
End Hash.

(** C25: the products of the Galois fields are products modulo their polynomials:
    [Gf128Mul] and [Gf64Mul] multiply by shifting and adding modulo
    [X^128 + X^7 + X^2 + X + 1] and [X^64 + X^4 + X^3 + X + 1], so that words form
    a commutative ring with exclusive or; the versions for spans return the sum of
    the products and refuse spans of different sizes. *)
Theorem gf_products :
  (forall x y, word 128 x -> word 128 y -> Gf128Mul x y = gmul 128 kGfMod128 x y) /\
  (forall x y, word 64 x -> word 64 y -> Gf64Mul x y = gmul 64 kGfMod64 x y) /\
  GfLaws 128 Gf128Mul /\ GfLaws 64 Gf64Mul /\
  (forall x y, Forall (word 128) x -> Forall (word 128) y -> vsize x = vsize y ->
     Gf128Mul_span x y = Val (dot (gmul 128 kGfMod128) x y)) /\
  (forall x y, Forall (word 64) x -> Forall (word 64) y -> vsize x = vsize y ->
     Gf64Mul_span x y = Val (dot (gmul 64 kGfMod64) x y)) /\
  (forall x y, vsize x <> vsize y -> Gf128Mul_span x y = Err /\ Gf64Mul_span x y = Err).
Proof.
  split; [apply gf128_mul_run|]. split; [apply gf64_mul_run|]. split; [apply gf128_laws|]. split; [apply gf64_laws|].
  split; [apply gf128_mul_span_run|]. split; [apply gf64_mul_span_run|].
  intros x y H. unfold Gf128Mul_span, Gf64Mul_span. by replace (vsize x =? vsize y) with false by lia.
Qed.

Lemma gf_products_witness : Gf128Mul 3 7 = gmul 128 kGfMod128 3 7 /\ Gf64Mul_span [3; 5] [7; 9] = Val (dot (gmul 64 kGfMod64) [3; 5] [7; 9]).
Proof.
  destruct gf_products as (H1 & _ & _ & _ & _ & H2 & _).
  split; [apply H1; by split|]. apply H2; [repeat constructor; done..|reflexivity].
Defined.

(** [Gf64Inv] inverts: the product of a nonzero word with its inverse is 1, and
    the inverse of 0 is 0. In particular the polynomial of degree 64 is
    irreducible. *)
Lemma gf64_inverse (x : Z) (Hx : 0 <= x < 2 ^ 64) :
  0 <= Gf64Inv x < 2 ^ 64 /\ Gf64Mul x (Gf64Inv x) = if x =? 0 then 0 else 1.
Proof.
  assert (Wx : word 64 x) by exact Hx. unfold Gf64Inv. rewrite (inverse_chain_pow 64 Gf64Mul x Wx).
  set (inv := gpow Gf64Mul x (2 ^ 64 - 2)). assert (Wi : word 64 inv) by (by apply (gpow_elem 64 Gf64Mul)).
  split; [exact Wi|]. set (e := Gf64Mul x inv).
  assert (We : word 64 e) by (by apply gf_closed).
  assert (Fx : Gf64Mul e x = x).
  { transitivity (squarings Gf64Mul 64 (gpow Gf64Mul x 1)); [|rewrite (gpow_one 64 Gf64Mul) by done; by apply frobenius_id].
    rewrite (squarings_pow 64 Gf64Mul) by (done || lia). unfold e, inv. rewrite (gf_comm (mul := Gf64Mul) _ x) by done.
    rewrite <- !(gpow_succ Gf64Mul) by lia. refine (f_equal (gpow Gf64Mul x) _). vm_compute. reflexivity. }
  assert (Ie : Gf64Mul e e = e).
  { clearbody inv. pose proof (gf_assoc (mul := Gf64Mul) e x inv We Wx Wi) as A. rewrite Fx in A. exact A. }
  clearbody inv.
  destruct (Z.eqb_spec x 0) as [-> | Hne].
  - unfold e. rewrite (gf_comm (mul := Gf64Mul)) by done. by apply (mul_zero_r 64 Gf64Mul).
  - destruct (gf64_idempotent e We Ie) as [E|E]; [|done]. exfalso. apply Hne. rewrite <- Fx, E.
    rewrite (gf_comm (mul := Gf64Mul)) by (done || apply (zero_elem 64 Gf64Mul)). by apply (mul_zero_r 64 Gf64Mul).
Qed.

Lemma gf64_inverse_witness : Gf64Mul 0x1b (Gf64Inv 0x1b) = 1.
Proof. apply (gf64_inverse 0x1b). split; [done|reflexivity]. Defined.

(** The universal hash of a span is the polynomial [data[0] * seed + data[1] *
    seed ^ 2 + ...], additive in its data, and [ExtractHashCoef] returns the powers
    [seed ^ (index + 1)] that its indexes have in it, when the last index is the
    largest and at least 2. *)
Lemma gf_universal_hash (seed : Z) (data other indexes : list Z) (back : Z)
  (Hs : word 128 seed) (Hd : Forall (word 128) data) (Ho : Forall (word 128) other) (Hl : vsize other = vsize data)
  (Hback : vget indexes (vsize indexes - 1) = Some back) (Hb : 2 <= back < 2 ^ 63)
  (Hall : forall j, j ∈ indexes -> 0 <= j <= back) :
  UniversalHash Gf128Mul seed data = hash_sum Gf128Mul seed 0 data /\
  UniversalHash Gf128Mul seed (xor_words data other) = UniversalHash Gf128Mul seed data ⊕ UniversalHash Gf128Mul seed other /\
  ExtractHashCoef Gf128Mul seed indexes = Val ((fun j => gpow Gf128Mul seed (j + 1)) <$> indexes).
Proof.
  assert (Hx : Forall (word 128) (xor_words data other)).
  { clear Hback Hall Hl Hb. revert other Ho. induction Hd as [|x a Hx Ha IH]; intros other Ho; [constructor|].
    destruct Ho as [|y b Hy Hb]; [constructor|]. constructor; [apply word_xor; done || lia|]. by apply IH. }
  split; [by apply (universal_hash_sum 128 Gf128Mul)|]. split.
  - rewrite !(universal_hash_sum 128 Gf128Mul) by done. by apply (hash_sum_xor 128 Gf128Mul).
  - by apply (extract_run 128 Gf128Mul seed indexes back).
Qed.

Lemma gf_universal_hash_witness :
  UniversalHash Gf128Mul 3 [5; 6; 7] = hash_sum Gf128Mul 3 0 [5; 6; 7] /\
  ExtractHashCoef Gf128Mul 3 [0; 2] = Val ((fun j => gpow Gf128Mul 3 (j + 1)) <$> [0; 2]).
Proof.
  destruct (gf_universal_hash 3 [5; 6; 7] [1; 1; 1] [0; 2] 2) as (H1 & _ & H2).
  - by split.
  - repeat constructor; done.
  - repeat constructor; done.
  - reflexivity.
  - reflexivity.
  - lia.
  - intros j Hj. repeat (apply elem_of_cons in Hj as [-> | Hj]; [lia|]). by apply not_elem_of_nil in Hj.
  - split; [exact H1|exact H2].
Defined.

(** When the last index is 1 its coefficient is read from a power that was not
    computed, and when it is 0 the logarithm is refused. *)
Example extract_small_index :
  ExtractHashCoef Gf128Mul 3 [1] = Val [0] /\ gpow Gf128Mul 3 (1 + 1) = 5 /\ ExtractHashCoef Gf128Mul 3 [0] = Err.
Proof. vm_compute. repeat split. Qed.
