(* ===== verification/Gywz.v ===== *)
(** Single-point correlated transfers from a half tree
    (src/yacl/kernel/algorithms/gywz_ote.cc): the sender expands a seed and its
    delta to [n] blocks, the receiver gets the same blocks, with delta added at one
    index; with an index it chooses, with the index its choices make, and in the
    compact form that ferret uses.

    Outside code is a parameter: the permutation of the hash ([rp]) and the random
    seed. A span is the list of its blocks; the part of the tree that does not fit
    in the output is kept in a buffer of its own. *)

From Stdlib Require Import ZArith Lia ZifyBool Bool.
From stdpp Require Import base numbers list option gmap.
From S2P Require Import Prelude BitBlock BitSet ChannelKeys OtStore CrHash TwoParty LinkProgram Context Sgrr.

Local Open Scope Z_scope.

Definition Uint128Max : Z := 2 ^ 128 - 1.

Section Gywz.
Context (rp : Z -> Z).

(** *** The tree *)

(** The loop over a level, from the hashes [left_side] and the seeds
    [right_side]; [sum] is the running sum of the left side. *)
Fixpoint mix (one : Z) (left_side right_side : list Z) (sum : Z) : list Z * list Z * Z :=
  match left_side, right_side with
  | l :: left', r :: right' =>
      let l' := Z.land l one in
      let '(ls, rs, sum') := mix one left' right' (Z.lxor sum l') in
      (l' :: ls, Z.lxor r l' :: rs, sum')
  | _, _ => ([], [], sum)
  end.

(** [memcpy] to the right side, [ParaCcrHashInplace_128] of the left side, the loop. *)
Definition expand_level (one : Z) (seeds : list Z) (sum : Z) : list Z * list Z * Z :=
  mix one (ParaCcrHashInplace_128 rp seeds) seeds sum.

(** The left side in the output, the right side after it or in [extra_buff]. *)
Definition store_level (into_extra : bool) (prev_size : Z) (seeds extra_buff left_side right_side : list Z)
  : option (list Z * list Z) :=
  if into_extra then Some (left_side ++ drop (Z.to_nat prev_size) seeds, right_side)
  else assert! (2 * prev_size <=? vsize seeds);
       Some (left_side ++ right_side ++ drop (Z.to_nat (2 * prev_size)) seeds, extra_buff).

Definition full_level (height : Z) (is_two_power : bool) (one level : Z) (st : list Z * list Z * list Z)
  : option (list Z * list Z * list Z) :=
  let '(seeds, extra_buff, left_sums) := st in
  let prev_size := 2 ^ level in
  assert! (prev_size <=? vsize seeds);
  let '(left_side, right_side, left_side_sum) := expand_level one (take (Z.to_nat prev_size) seeds) 0 in
  '(seeds', extra_buff') ← store_level (negb is_two_power && (level =? height - 1)) prev_size seeds extra_buff
    left_side right_side;
  left_sums' ← vset left_sums level left_side_sum;
  Some (seeds', extra_buff', left_sums').

(** The leaves on the right that were kept apart. *)
Definition copy_leaves (is_two_power : bool) (n prev_size : Z) (seeds extra_buff : list Z) : option (list Z) :=
  if is_two_power then Some seeds else
  assert! (n - prev_size <=? vsize extra_buff) && (n <=? vsize seeds);
  Some (take (Z.to_nat prev_size) seeds ++ take (Z.to_nat (n - prev_size)) extra_buff ++ drop (Z.to_nat n) seeds).

(** Returns the leaves and the sums of the left sides. *)
Definition CggmFullEval (delta seed n : Z) (all_msgs left_sums : list Z) (one : Z) : res (list Z * list Z) :=
  height ← Log2Ceil n;
  OtStore.enforce (height =? vsize left_sums);;
  OtStore.enforce (n <=? vsize all_msgs);;
  access (
    assert! (height <? 32);
    let is_two_power := n =? 2 ^ height in
    let seed := Z.land seed one in
    let delta := Z.land delta one in
    seeds0 ← vset all_msgs 0 seed;
    seeds1 ← vset seeds0 1 (Z.lxor seed delta);
    left_sums0 ← vset left_sums 0 seed;
    '(seeds, extra_buff, left_sums') ←
      for_up (Z.to_nat (height - 1)) 1 (full_level height is_two_power one) (seeds1, [], left_sums0);
    leaves ← copy_leaves is_two_power n (2 ^ (height - 1)) seeds extra_buff;
    Some (leaves, left_sums')).

(** The punctured position is corrected on both sides. *)
Definition xor_at (l : list Z) (i x : Z) : option (list Z) := y ← vget l i; vset l i (Z.lxor y x).

Definition punc_level (height : Z) (is_two_power : bool) (one index : Z) (sibling_sums : list Z) (level : Z)
    (st : list Z * list Z * Z) : option (list Z * list Z * Z) :=
  let '(seeds, extra_buff, punctured_idx) := st in
  let prev_size := 2 ^ level in
  assert! (prev_size <=? vsize seeds);
  sibling ← vget sibling_sums level;
  let '(left_side, right_side, left_side_sum) := expand_level one (take (Z.to_nat prev_size) seeds) sibling in
  left_side' ← xor_at left_side punctured_idx left_side_sum;
  right_side' ← xor_at right_side punctured_idx left_side_sum;
  '(seeds', extra_buff') ← store_level (negb is_two_power && (level =? height - 1)) prev_size seeds extra_buff
    left_side' right_side';
  Some (seeds', extra_buff', Z.lor punctured_idx (Z.land index prev_size)).

Definition CggmPuncFullEval (index : Z) (sibling_sums : list Z) (n : Z) (punctured_msgs : list Z) (one : Z)
  : res (list Z) :=
  OtStore.enforce (n <=? vsize punctured_msgs);;
  access (
    let height := vsize sibling_sums in
    assert! (height <? 32);
    let is_two_power := n =? 2 ^ height in
    s ← vget sibling_sums 0;
    seeds0 ← vset punctured_msgs 0 (Z.land s one);
    seeds1 ← vset seeds0 1 (Z.land s one);
    '(seeds, extra_buff, _) ←
      for_up (Z.to_nat (height - 1)) 1 (punc_level height is_two_power one index sibling_sums)
        (seeds1, [], Z.land index 1);
    copy_leaves is_two_power n (2 ^ (height - 1)) seeds extra_buff).

(** *** Sums under the masks of the transfers *)

(** [sums[i] ^= block(i)] for every level. *)
Definition mask_sums (block : Z -> res Z) (i : Z) (sums : list Z) : res (list Z) :=
  x ← access (vget sums i);
  b ← block i;
  access (vset sums i (Z.lxor x b)).

(** [memcpy] of the whole message over [height] blocks that are not initialised. *)
Definition read_sums (height : Z) (recv_buf : bytes) : option (list Z) :=
  assert! (vsize recv_buf =? height * 16);
  mapM (word_at recv_buf) (seqZ 0 height).

(** *** A chosen index *)

Definition gywz_choices (h : heap) (cot : OtRecvStore) (height index : Z) : res dynamic_bitset :=
  choice0 ← access (Bitset.append_block 128 Bitset.ctor_empty index);
  choice ← access (Bitset.resize 128 choice0 height false);
  masked_choice ← for_res (Z.to_nat height) 0 (mask_choice h cot) choice;
  OtStore.enforce (Bitset.num_blocks masked_choice =? 1);;
  Val masked_choice.

Definition GywzOtExtRecv (h : heap) (cot : OtRecvStore) (n index : Z) (output : list Z) : LinkM (list Z) :=
  height ← lift (Log2Ceil n);
  _ ← enforce (OtRecv.Size cot =? height);
  _ ← enforce (1 <? n);
  _ ← enforce (index <? n);
  masked_choice ← lift (gywz_choices h cot height index);
  c ← the_ctx;
  _ ← SendAsync (NextRank c 1) (words_bytes (m_blocks masked_choice));
  recv_buf ← Recv (NextRank c 1);
  sums ← lift (access (read_sums height recv_buf));
  sibling_sums ← lift (for_res (Z.to_nat height) 0 (mask_sums (OtRecv.GetBlock h cot)) sums);
  lift (CggmPuncFullEval index sibling_sums n output Uint128Max).

Definition flipped_block (h : heap) (cot : OtSendStore) (masked_choice : dynamic_bitset) (i : Z) : res Z :=
  c ← access (Bitset.test 128 masked_choice i);
  OtSend.GetBlock h cot i (1 - Z.b2z c).

(** [fresh k] is the content of a vector of [k] blocks that is not initialised. *)
Definition GywzOtExtSend (fresh : Z -> list Z) (h : heap) (cot : OtSendStore) (n seed : Z) (output : list Z)
  : LinkM (list Z) :=
  height ← lift (Log2Ceil n);
  _ ← enforce (OtSend.Size cot =? height);
  _ ← enforce (1 <? n);
  delta ← lift (OtSend.GetDelta cot);
  tree ← lift (CggmFullEval delta seed n output (fresh height) Uint128Max);
  c ← the_ctx;
  recv_buf ← Recv (NextRank c 1);
  masked_choice ← lift (read_choices height recv_buf);
  left_sums ← lift (for_res (Z.to_nat height) 0 (mask_sums (flipped_block h cot masked_choice)) (snd tree));
  _ ← SendAsync (NextRank c 1) (words_bytes left_sums);
  mret (fst tree).

(** *** The index is the choices of the transfers *)

(** [index |= cot.GetChoice(i) << i]. *)
Definition add_choice (h : heap) (cot : OtRecvStore) (i index : Z) : res Z :=
  c ← OtRecv.GetChoice h cot i;
  Val (Z.lor index (Z.shiftl c i)).

Definition choices_index (h : heap) (cot : OtRecvStore) (height : Z) : res Z :=
  for_res (Z.to_nat height) 0 (add_choice h cot) 0.

Definition gywz_recv_fixed (h : heap) (cot : OtRecvStore) (n : Z) (output recv_msgs : list Z) : res (list Z) :=
  height ← Log2Ceil n;
  OtStore.enforce (OtRecv.Size cot =? height);;
  OtStore.enforce (1 <? n);;
  OtStore.enforce (height <=? vsize recv_msgs);;
  index ← choices_index h cot height;
  sibling_sums ← for_res (Z.to_nat height) 0 (mask_sums (OtRecv.GetBlock h cot)) (take (Z.to_nat height) recv_msgs);
  CggmPuncFullEval index sibling_sums n output Uint128Max.

Definition gywz_send_fixed (h : heap) (cot : OtSendStore) (n seed : Z) (output send_msgs : list Z)
  : res (list Z * list Z) :=
  height ← Log2Ceil n;
  OtStore.enforce (OtSend.Size cot =? height);;
  OtStore.enforce (1 <? n);;
  OtStore.enforce (height <=? vsize send_msgs);;
  delta ← OtSend.GetDelta cot;
  '(leaves, sums) ← CggmFullEval delta seed n output send_msgs Uint128Max;
  send_msgs' ← for_res (Z.to_nat height) 0 (mask_sums (fun i => OtSend.GetBlock h cot i 1)) sums;
  Val (leaves, send_msgs').

(** The words at the start of a message. *)
Definition read_words (height : Z) (recv_buf : bytes) : option (list Z) := mapM (word_at recv_buf) (seqZ 0 height).

Definition GywzOtExtRecv_fixed_index (h : heap) (cot : OtRecvStore) (n : Z) (output : list Z) : LinkM (list Z) :=
  height ← lift (Log2Ceil n);
  _ ← enforce (OtRecv.Size cot =? height);
  _ ← enforce (1 <? n);
  c ← the_ctx;
  recv_buf ← Recv (NextRank c 1);
  _ ← enforce (height * 16 <=? vsize recv_buf);
  recv_msgs ← lift (access (read_words height recv_buf));
  lift (gywz_recv_fixed h cot n output recv_msgs).

Definition GywzOtExtSend_fixed_index (fresh : Z -> list Z) (h : heap) (cot : OtSendStore) (n seed : Z)
    (output : list Z) : LinkM (list Z) :=
  height ← lift (Log2Ceil n);
  _ ← enforce (OtSend.Size cot =? height);
  _ ← enforce (1 <? n);
  tree ← lift (gywz_send_fixed h cot n seed output (fresh height));
  c ← the_ctx;
  _ ← SendAsync (NextRank c 1) (words_bytes (snd tree));
  mret (fst tree).

(** *** Compact transfers *)

(** [MakeUint128(0xffffffffffffffff, 0xfffffffffffffffe)]. *)
Definition even_mask : Z := 2 ^ 128 - 2.

Definition GywzOtExtRecv_ferret (h : heap) (cot : OtRecvStore) (n : Z) (output : list Z) : LinkM (list Z) :=
  height ← lift (Log2Ceil n);
  _ ← enforce (OtRecv.Size cot =? height);
  _ ← enforce (1 <? n);
  _ ← enforce (bool_decide (recv_type cot = Compact));
  index ← lift (choices_index h cot height);
  c ← the_ctx;
  recv_buf ← Recv (NextRank c 1);
  sums ← lift (access (read_sums height recv_buf));
  sibling_sums ← lift (for_res (Z.to_nat height) 0
    (mask_sums (fun i => b ← OtRecv.GetBlock h cot i; Val (Z.land b even_mask))) sums);
  leaves ← lift (CggmPuncFullEval index sibling_sums n output even_mask);
  if index <? n
  then lift (access (x ← vget leaves index; vset leaves index (Z.lor x (2 ^ 128 - 1 - even_mask))))
  else mret leaves.

Definition GywzOtExtSend_ferret (fresh : Z -> list Z) (h : heap) (cot : OtSendStore) (n seed : Z) (output : list Z)
  : LinkM (list Z) :=
  height ← lift (Log2Ceil n);
  _ ← enforce (OtSend.Size cot =? height);
  _ ← enforce (1 <? n);
  _ ← enforce (bool_decide (send_type cot = Compact));
  d ← lift (OtSend.GetDelta cot);
  tree ← lift (CggmFullEval (Z.land d even_mask) (Z.land seed even_mask) n output (fresh height) even_mask);
  left_sums ← lift (for_res (Z.to_nat height) 0
    (mask_sums (fun i => b ← OtSend.GetBlock h cot i 1; Val (Z.land b even_mask))) (snd tree));
  c ← the_ctx;
  _ ← SendAsync (NextRank c 1) (words_bytes left_sums);
  mret (fst tree).
End Gywz.
