(* ===== verification/GywzFacts.v ===== *)
(** The half tree of [Gywz] as a function of level and index: what the sender's
    evaluation computes, and what the receiver's does from the sibling sums. *)

From Stdlib Require Import ZArith Lia ZifyBool Bool.
From stdpp Require Import base numbers list option gmap.
From S2P Require Import Prelude BitBlock BitSet BitSetString ChannelKeys OtStore CrHash TwoParty LinkProgram Context.
From S2P Require Import Sgrr SgrrFacts SgrrTheorems Gywz.

Local Open Scope Z_scope.

(** *** Levels *)

Lemma xs_shift f k : xs f (S k) = Z.lxor (f 0) (xs (fun j => f (j + 1)) k).
Proof.
  induction k as [|k IH]; [cbn [xs]; by rewrite Z.lxor_0_r, Z.lxor_0_l|].
  cbn [xs] in *. rewrite IH, Z.lxor_assoc. do 3 f_equal. lia.
Qed.

Lemma lxor_twice a b : Z.lxor (Z.lxor a b) b = a.
Proof. by rewrite Z.lxor_assoc, Z.lxor_nilpotent, Z.lxor_0_r. Qed.

Section Level.
Context (rp : Z -> Z) (one : Z).

(** The masked hash, and the right child. *)
Definition mh (x : Z) : Z := Z.land (ccr rp x) one.
Definition mr (x : Z) : Z := Z.lxor x (mh x).

Lemma mix_map seeds sum :
  mix one (ccr rp <$> seeds) seeds sum =
  (mh <$> seeds, mr <$> seeds, Z.lxor sum (xs (fun j => mh (blk seeds j)) (length seeds))).
Proof.
  revert sum. induction seeds as [|x seeds IH]; intros sum; [cbn; by rewrite Z.lxor_0_r|].
  cbn [fmap list_fmap mix length]. rewrite IH. cbn [fmap list_fmap]. unfold mr at 2, mh at 2. f_equal.
  rewrite xs_shift, Z.lxor_assoc. do 2 f_equal. apply xs_ext. intros j Hj.
  unfold blk. rewrite vget_cons by lia. by replace (j + 1 =? 0) with false by lia; rewrite Z.add_simpl_r.
Qed.

Lemma expand_level_map seeds sum :
  expand_level rp one seeds sum =
  (mh <$> seeds, mr <$> seeds, Z.lxor sum (xs (fun j => mh (blk seeds j)) (length seeds))).
Proof. unfold expand_level. rewrite para_ccr_inplace_map. apply mix_map. Qed.
End Level.

(** *** Where the levels are kept *)

Definition holds (buf : list Z) (m : Z) (f : Z -> Z) : Prop := forall j, 0 <= j < m -> blk buf j = f j.

Section Stage.
Context (n L : Z).
Hypothesis HL : height n L.
Local Abbreviation two := (n =? 2 ^ L).

(** The nodes of level [k]: in the output, or at the last level of a tree that
    does not fit, the right half in the extra buffer. *)
Definition stage (k : Z) (seeds extra : list Z) (f : Z -> Z) : Prop :=
  if (k =? L) && negb two
  then holds seeds (2 ^ (k - 1)) f /\ vsize extra = 2 ^ (k - 1) /\ holds extra (2 ^ (k - 1)) (fun j => f (j + 2 ^ (k - 1)))
  else holds seeds (2 ^ k) f.

Lemma stage_start seeds f : blk seeds 0 = f 0 -> blk seeds 1 = f 1 -> stage 1 seeds [] f.
Proof.
  intros H0 H1. pose proof HL as (? & ? & H2 & H3). unfold stage. destruct (Z.eqb_spec 1 L) as [<- | _]; cbn [andb].
  - change (2 ^ 1) with 2 in *. change (2 ^ (1 - 1)) with 1 in *. replace (n =? 2) with true by lia. cbn [negb].
    intros j Hj. assert (j = 0 \/ j = 1) as [-> | ->] by lia; done.
  - change (2 ^ 1) with 2. intros j Hj. assert (j = 0 \/ j = 1) as [-> | ->] by lia; done.
Qed.

(** The nodes to expand are in the output. *)
Lemma stage_seeds k seeds extra f : 1 <= k < L -> n <= vsize seeds -> stage k seeds extra f ->
  holds seeds (2 ^ k) f /\ 2 ^ k < n.
Proof.
  intros Hk Hn Hs. unfold stage in Hs. replace (k =? L) with false in Hs by lia. split; [done|].
  apply (height_level n L); [done|lia].
Qed.

Lemma stage_next k seeds extra left right f :
  1 <= k < L -> n <= vsize seeds -> vsize left = 2 ^ k -> vsize right = 2 ^ k ->
  holds left (2 ^ k) f -> holds right (2 ^ k) (fun j => f (j + 2 ^ k)) ->
  exists seeds' extra',
    store_level (negb two && (k =? L - 1)) (2 ^ k) seeds extra left right = Some (seeds', extra') /\
    vsize seeds' = vsize seeds /\ stage (k + 1) seeds' extra' f.
Proof.
  intros Hk Hn Hl Hr Fl Fr. pose proof HL as (Hn1 & HL31 & H2 & H3). pose proof (height_level n L k HL ltac:(lia)) as Hkn.
  assert (Hp : 2 ^ (k + 1) = 2 * 2 ^ k) by (rewrite Z.pow_add_r by lia; lia).
  assert (Hz : forall (l : list Z) (m : Z), 0 <= m <= vsize l -> vsize (drop (Z.to_nat m) l) = vsize l - m).
  { intros l m Hm. unfold vsize in *. rewrite length_drop. lia. }
  unfold store_level, stage. replace (k + 1 =? L) with (k =? L - 1) by lia. rewrite (andb_comm _ (negb two)), Z.add_simpl_r.
  destruct (negb two && (k =? L - 1)) eqn:E.
  - eexists _, _. split; [done|]. rewrite vsize_app, Hl, Hz by lia. split; [lia|].
    split; [|done]. intros j Hj. rewrite blk_app, Hl. replace (j <? 2 ^ k) with true by lia. by apply Fl.
  - assert (Hle : 2 * 2 ^ k <= vsize seeds).
    { destruct (Z.eqb_spec k (L - 1)) as [-> | Hne].
      - rewrite andb_true_r, negb_false_iff, Z.eqb_eq in E. replace (L - 1 + 1) with L in Hp by lia. lia.
      - pose proof (height_level n L (k + 1) HL ltac:(lia)). lia. }
    replace (2 * 2 ^ k <=? vsize seeds) with true by lia. eexists _, _. split; [done|].
    rewrite !vsize_app, Hl, Hr, Hz by lia. split; [lia|]. rewrite Hp. intros j Hj. rewrite blk_app, Hl.
    destruct (Z.ltb_spec j (2 ^ k)); [apply Fl; lia|]. rewrite blk_app, Hr. replace (j - 2 ^ k <? 2 ^ k) with true by lia.
    rewrite Fr by lia. f_equal. lia.
Qed.

Lemma stage_end seeds extra f : n <= vsize seeds -> stage L seeds extra f ->
  exists out, copy_leaves two n (2 ^ (L - 1)) seeds extra = Some out /\ vsize out = vsize seeds /\ holds out n f.
Proof.
  intros Hn Hs. pose proof HL as (Hn1 & HL31 & H2 & H3). unfold stage in Hs. rewrite Z.eqb_refl in Hs. cbn [andb] in Hs.
  assert (Hp : 2 ^ L = 2 * 2 ^ (L - 1)) by (replace L with (L - 1 + 1) at 1 by lia; rewrite Z.pow_add_r by lia; lia).
  unfold copy_leaves. destruct (Z.eqb_spec n (2 ^ L)) as [E | E]; cbn [negb] in Hs.
  - exists seeds. split; [done|]. split; [done|]. by rewrite E.
  - destruct Hs as (F1 & Z2 & F2). replace ((n - 2 ^ (L - 1) <=? vsize extra) && (n <=? vsize seeds)) with true by lia.
    eexists. split; [done|]. unfold vsize in *. rewrite !length_app, !length_take, length_drop. split; [lia|].
    intros j Hj. rewrite blk_app. unfold vsize. rewrite length_take.
    replace (Z.of_nat (Z.to_nat (2 ^ (L - 1)) `min` length seeds)) with (2 ^ (L - 1)) by lia.
    destruct (Z.ltb_spec j (2 ^ (L - 1))); [rewrite blk_take by lia; apply F1; lia|].
    rewrite blk_app. unfold vsize. rewrite length_take.
    replace (Z.of_nat (Z.to_nat (n - 2 ^ (L - 1)) `min` length extra)) with (n - 2 ^ (L - 1)) by lia.
    replace (j - 2 ^ (L - 1) <? n - 2 ^ (L - 1)) with true by lia. rewrite blk_take, F2 by lia. f_equal. lia.
Qed.
End Stage.

(** *** The tree *)

Section Tree.
Context (rp : Z -> Z) (one delta seed : Z).

(** The nodes of level [S i], of which there are [2 ^ (S i)]. *)
Fixpoint gnode (i : nat) (j : Z) : Z :=
  match i with
  | O => if j =? 0 then seed else Z.lxor seed delta
  | S i' => if j <? 2 ^ Z.of_nat i then mh rp one (gnode i' j) else mr rp one (gnode i' (j - 2 ^ Z.of_nat i))
  end.

(** The sum of the left half of a level. *)
Definition gsum (t : Z) : Z :=
  if t =? 0 then seed else xs (fun j => mh rp one (gnode (Z.to_nat (t - 1)) j)) (Z.to_nat (2 ^ t)).

(** Level [k], counted from 1. *)
Definition glevel (k : Z) : Z -> Z := gnode (Z.to_nat (k - 1)).

Lemma glevel_next k j : 1 <= k -> glevel (k + 1) j =
  if j <? 2 ^ k then mh rp one (glevel k j) else mr rp one (glevel k (j - 2 ^ k)).
Proof.
  intros Hk. unfold glevel. replace (Z.to_nat (k + 1 - 1)) with (S (Z.to_nat (k - 1))) by lia. cbn [gnode].
  by replace (Z.of_nat (S (Z.to_nat (k - 1)))) with k by lia.
Qed.

(** What one level computes from seeds [f]. *)
Lemma expand_holds k seeds f sum : 0 <= k -> 2 ^ k <= vsize seeds -> holds seeds (2 ^ k) f ->
  exists left right, expand_level rp one (take (Z.to_nat (2 ^ k)) seeds) sum =
      (left, right, Z.lxor sum (xs (fun j => mh rp one (f j)) (Z.to_nat (2 ^ k)))) /\
    vsize left = 2 ^ k /\ vsize right = 2 ^ k /\
    holds left (2 ^ k) (fun j => mh rp one (f j)) /\ holds right (2 ^ k) (fun j => mr rp one (f j)).
Proof.
  intros Hk Hz Hf. rewrite expand_level_map. set (l := take (Z.to_nat (2 ^ k)) seeds).
  assert (Hl : vsize l = 2 ^ k) by (unfold l, vsize in *; rewrite length_take; lia).
  assert (Hb : forall j, 0 <= j < 2 ^ k -> blk l j = f j) by (intros j Hj; unfold l; rewrite blk_take by lia; by apply Hf).
  exists (mh rp one <$> l), (mr rp one <$> l). rewrite !vsize_map. split; [|split; [done|split; [done|]]].
  - do 2 f_equal. replace (length l) with (Z.to_nat (2 ^ k)) by (unfold vsize in Hl; lia).
    apply xs_ext. intros j Hj. by rewrite Hb by lia.
  - split; intros j Hj; rewrite blk_map, Hb by lia; done.
Qed.

Context (n L : Z).
Hypothesis HL : height n L.
Local Abbreviation two := (n =? 2 ^ L).

Definition full_inv (size k : Z) (st : list Z * list Z * list Z) : Prop :=
  let '(seeds, extra, sums) := st in
  vsize seeds = size /\ stage n L k seeds extra (glevel k) /\
  vsize sums = L /\ forall t, 0 <= t < k -> blk sums t = gsum t.

Lemma full_level_run size k st : n <= size -> 1 <= k < L -> full_inv size k st ->
  exists st', full_level rp L two one k st = Some st' /\ full_inv size (k + 1) st'.
Proof.
  destruct st as [[seeds extra] sums]. intros Hn Hk (Hz & Hs & Zs & Hsums).
  destruct (stage_seeds n L HL k seeds extra (glevel k) Hk ltac:(lia) Hs) as [Hf Hkn].
  unfold full_level. replace (2 ^ k <=? vsize seeds) with true by lia.
  destruct (expand_holds k seeds (glevel k) 0 ltac:(lia) ltac:(lia) Hf) as (left & right & -> & Zl & Zr & Fl & Fr).
  destruct (stage_next n L HL k seeds extra left right (glevel (k + 1)) Hk ltac:(lia) Zl Zr) as (seeds' & extra' & -> & Z' & S').
  - intros j Hj. rewrite Fl, glevel_next by lia. by replace (j <? 2 ^ k) with true by lia.
  - intros j Hj. rewrite Fr, glevel_next by lia. replace (j + 2 ^ k <? 2 ^ k) with false by lia. do 2 f_equal. lia.
  - cbn [mbind option_bind]. rewrite vset_Some by lia. cbn [mbind option_bind]. eexists. split; [done|].
    split; [lia|]. split; [done|]. rewrite vsize_insert. split; [done|]. intros t Ht. rewrite blk_insert by lia.
    destruct (Z.eqb_spec t k) as [-> | Hne]; [|apply Hsums; lia]. rewrite Z.lxor_0_l. unfold gsum, glevel.
    by replace (k =? 0) with false by lia.
Qed.

Lemma full_eval_run d s0 all_msgs left_sums :
  seed = Z.land s0 one -> delta = Z.land d one -> Log2Ceil n = Val L -> n <= vsize all_msgs -> vsize left_sums = L ->
  exists leaves sums, CggmFullEval rp d s0 n all_msgs left_sums one = Val (leaves, sums) /\
    vsize leaves = vsize all_msgs /\ holds leaves n (glevel L) /\ vsize sums = L /\ holds sums L gsum.
Proof.
  intros Es Ed Elog Hn Zs. pose proof HL as (Hn1 & HL31 & H2 & H3). unfold CggmFullEval. rewrite Elog. cbn [mbind res_bind].
  replace (L =? vsize left_sums) with true by lia. replace (n <=? vsize all_msgs) with true by lia.
  cbn [OtStore.enforce mbind res_bind]. replace (L <? 32) with true by lia. cbn zeta. rewrite <- Es, <- Ed.
  rewrite (vset_Some all_msgs), (vset_Some left_sums) by lia. cbn [mbind option_bind].
  rewrite vset_Some by (rewrite vsize_insert; lia). cbn [mbind option_bind].
  set (seeds1 := <[Z.to_nat 1 := _]> (<[Z.to_nat 0 := seed]> all_msgs)).
  assert (Z1 : vsize seeds1 = vsize all_msgs) by (unfold seeds1; by rewrite !vsize_insert).
  assert (B1 : forall j, blk seeds1 j = if j =? 1 then Z.lxor seed delta else if j =? 0 then seed else blk all_msgs j).
  { intros j. unfold seeds1. rewrite blk_insert by (rewrite vsize_insert; lia). by rewrite blk_insert by lia. }
  destruct (for_up_inv (full_inv (vsize all_msgs)) (full_level rp L two one) (Z.to_nat (L - 1)) 1
    (seeds1, [], <[Z.to_nat 0 := seed]> left_sums)) as ([[seeds extra] sums] & -> & Hz & Hs & Zsums & Hsums).
  - split; [done|]. split; [|rewrite vsize_insert; split; [done|]].
    + apply (stage_start n L HL); rewrite B1; done.
    + intros t Ht. replace t with 0 by lia. rewrite blk_insert by lia. done.
  - intros k st Hk Hst. apply full_level_run; [lia|lia|done].
  - replace (1 + Z.of_nat (Z.to_nat (L - 1))) with L in * by lia. cbn [mbind option_bind].
    destruct (stage_end n L HL seeds extra (glevel L) ltac:(lia) Hs) as (out & -> & Zo & Ho). cbn [access mbind option_bind].
    exists out, sums. split; [done|]. split; [lia|]. split; [done|]. done.
Qed.

(** *** The receiver's tree *)

Context (index : Z).
Hypothesis Hseed : Z.land seed one = seed.
Hypothesis Hdelta : Z.land delta one = delta.

(** Delta is added at the punctured position. *)
Definition plevel (k j : Z) : Z := Z.lxor (glevel k j) (if j =? index mod 2 ^ k then delta else 0).

(** The sum of the half that does not contain the punctured position. *)
Definition sibling (t : Z) : Z := Z.lxor (gsum t) (if Z.testbit index t then 0 else delta).

Lemma land_lxor_one y z : Z.land y one = y -> Z.land z one = z -> Z.land (Z.lxor y z) one = Z.lxor y z.
Proof.
  intros Hy Hz. apply Z.bits_inj'. intros q Hq. rewrite Z.land_spec, Z.lxor_spec.
  rewrite <- Hy, <- Hz, !Z.land_spec. by destruct (Z.testbit one q), (Z.testbit y q), (Z.testbit z q).
Qed.

Lemma gnode_masked i j : Z.land (gnode i j) one = gnode i j.
Proof.
  assert (Hm : forall z, Z.land (mh rp one z) one = mh rp one z).
  { intros z. unfold mh. by rewrite <- Z.land_assoc, Z.land_diag. }
  revert j. induction i as [|i IH]; intros j; cbn [gnode].
  - destruct (j =? 0); [done|]. by apply land_lxor_one.
  - destruct (j <? _); [apply Hm|]. apply land_lxor_one; [apply IH|apply Hm].
Qed.

Lemma next_index k : 0 <= k -> Z.lor (index mod 2 ^ k) (Z.land index (2 ^ k)) = index mod 2 ^ (k + 1).
Proof.
  intros Hk. apply Z.bits_inj'. intros j Hj. rewrite Z.lor_spec, Z.land_spec, testbit_pow2, !testbit_mod by lia.
  destruct (Z.eqb_spec j k) as [-> | Hne].
  - replace (k <? k) with false by lia. replace (k <? k + 1) with true by lia. by rewrite andb_true_r.
  - rewrite andb_false_r, orb_false_r. by replace (j <? k + 1) with (j <? k) by lia.
Qed.

Lemma plevel_one j : j = 0 \/ j = 1 -> plevel 1 j = Z.land (sibling 0) one.
Proof.
  assert (E : Z.land (sibling 0) one = sibling 0).
  { unfold sibling, gsum. cbn [Z.eqb]. apply land_lxor_one; [done|]. by destruct (Z.testbit index 0). }
  intros Hj. rewrite E. unfold plevel, sibling, gsum, glevel. change (2 ^ 1) with 2. cbn [Z.to_nat gnode Z.eqb Z.sub].
  rewrite Z.bit0_odd, Zmod_odd. change (Z.to_nat (1 - 1)) with 0%nat. cbn [gnode].
  destruct Hj as [-> | ->], (Z.odd index); cbn [Z.eqb Z.b2z]; rewrite ?Z.lxor_0_r, ?lxor_twice; done.
Qed.

(** The correction of the punctured position. *)
Lemma plevel_next k : 1 <= k ->
  let p := index mod 2 ^ k in
  let S := Z.lxor (sibling k) (xs (fun j => mh rp one (plevel k j)) (Z.to_nat (2 ^ k))) in
  (forall j, 0 <= j < 2 ^ k ->
     plevel (k + 1) j = Z.lxor (mh rp one (plevel k j)) (if j =? p then S else 0)) /\
  (forall j, 0 <= j < 2 ^ k ->
     plevel (k + 1) (j + 2 ^ k) = Z.lxor (mr rp one (plevel k j)) (if j =? p then S else 0)).
Proof.
  intros Hk p S. assert (Hp : 0 <= p < 2 ^ k) by (apply Z.mod_pos_bound; lia).
  assert (HS : S = Z.lxor (if Z.testbit index k then 0 else delta)
                          (Z.lxor (mh rp one (glevel k p)) (mh rp one (plevel k p)))).
  { unfold S, sibling, gsum. replace (k =? 0) with false by lia.
    rewrite <- (xs_differ (fun j => mh rp one (glevel k j)) (fun j => mh rp one (plevel k j)) p (Z.to_nat (2 ^ k))).
    - unfold glevel. rewrite <- Z.lxor_assoc. f_equal. apply Z.lxor_comm.
    - lia.
    - intros j Hj Hne. unfold plevel. fold p. replace (j =? p) with false by lia. by rewrite Z.lxor_0_r. }
  assert (Hnext : index mod 2 ^ (k + 1) = p + 2 ^ k * Z.b2z (Z.testbit index k)) by (apply mod_pow2_step; lia).
  assert (Hpp : plevel k p = Z.lxor (glevel k p) delta) by (unfold plevel; fold p; by rewrite Z.eqb_refl).
  clearbody S. split; intros j Hj; unfold plevel at 1; rewrite glevel_next, Hnext by lia.
  - replace (j <? 2 ^ k) with true by lia. destruct (Z.eqb_spec j p) as [-> | Hne].
    + rewrite HS. replace (p =? p + 2 ^ k * Z.b2z (Z.testbit index k)) with (negb (Z.testbit index k)).
      * apply Z.bits_inj'. intros q Hq. rewrite !Z.lxor_spec.
        destruct (Z.testbit index k); cbn [negb]; rewrite ?Z.bits_0;
          destruct (Z.testbit delta q), (Z.testbit (mh rp one (glevel k p)) q), (Z.testbit (mh rp one (plevel k p)) q); done.
      * destruct (Z.testbit index k); cbn [Z.b2z negb]; lia.
    + replace (j =? p + 2 ^ k * Z.b2z (Z.testbit index k)) with false by (destruct (Z.testbit index k); cbn [Z.b2z]; lia).
      unfold plevel. fold p. replace (j =? p) with false by lia. by rewrite !Z.lxor_0_r.
  - replace (j + 2 ^ k <? 2 ^ k) with false by lia. rewrite Z.add_simpl_r. destruct (Z.eqb_spec j p) as [-> | Hne].
    + rewrite HS. replace (p + 2 ^ k =? p + 2 ^ k * Z.b2z (Z.testbit index k)) with (Z.testbit index k).
      * unfold mr. rewrite Hpp. apply Z.bits_inj'. intros q Hq. rewrite !Z.lxor_spec.
        destruct (Z.testbit index k); rewrite ?Z.lxor_spec, ?Z.bits_0;
          destruct (Z.testbit (glevel k p) q), (Z.testbit delta q), (Z.testbit (mh rp one (glevel k p)) q),
            (Z.testbit (mh rp one (Z.lxor (glevel k p) delta)) q); done.
      * destruct (Z.testbit index k); cbn [Z.b2z]; lia.
    + replace (j + 2 ^ k =? p + 2 ^ k * Z.b2z (Z.testbit index k)) with false by (destruct (Z.testbit index k); cbn [Z.b2z]; lia).
      unfold plevel. fold p. replace (j =? p) with false by lia. by rewrite !Z.lxor_0_r.
Qed.

Lemma xor_at_run l i x m f : 0 <= i < vsize l -> m <= vsize l -> holds l m f ->
  exists l', xor_at l i x = Some l' /\ vsize l' = vsize l /\
    holds l' m (fun j => Z.lxor (f j) (if j =? i then x else 0)).
Proof.
  intros Hi Hm Hf. unfold xor_at. rewrite vget_blk by done. cbn [mbind option_bind]. rewrite vset_Some by done.
  eexists. split; [done|]. rewrite vsize_insert. split; [done|]. intros j Hj. rewrite blk_insert by done.
  destruct (Z.eqb_spec j i) as [-> | Hne]; rewrite Hf by done; [done|]. by rewrite Z.lxor_0_r.
Qed.

Definition punc_inv (size k : Z) (st : list Z * list Z * Z) : Prop :=
  let '(seeds, extra, p) := st in
  vsize seeds = size /\ stage n L k seeds extra (plevel k) /\ p = index mod 2 ^ k.

Lemma punc_level_run size sums k st : n <= size -> 1 <= k < L -> vsize sums = L -> blk sums k = sibling k ->
  punc_inv size k st ->
  exists st', punc_level rp L two one index sums k st = Some st' /\ punc_inv size (k + 1) st'.
Proof.
  destruct st as [[seeds extra] p]. intros Hn Hk Zs Hsib (Hz & Hs & Hp).
  destruct (stage_seeds n L HL k seeds extra (plevel k) Hk ltac:(lia) Hs) as [Hf Hkn].
  assert (Hpr : 0 <= p < 2 ^ k) by (rewrite Hp; apply Z.mod_pos_bound; lia).
  unfold punc_level. replace (2 ^ k <=? vsize seeds) with true by lia. rewrite vget_blk, Hsib by lia. cbn [mbind option_bind].
  destruct (expand_holds k seeds (plevel k) (sibling k) ltac:(lia) ltac:(lia) Hf) as (left & right & -> & Zl & Zr & Fl & Fr).
  destruct (plevel_next k ltac:(lia)) as [Pl Pr]. rewrite <- Hp in Pl, Pr.
  set (S := Z.lxor (sibling k) _) in *.
  destruct (xor_at_run left p S (2 ^ k) _ ltac:(lia) ltac:(lia) Fl) as (left' & -> & Zl' & Fl'). cbn [mbind option_bind].
  destruct (xor_at_run right p S (2 ^ k) _ ltac:(lia) ltac:(lia) Fr) as (right' & -> & Zr' & Fr'). cbn [mbind option_bind].
  destruct (stage_next n L HL k seeds extra left' right' (plevel (k + 1)) Hk ltac:(lia) ltac:(lia) ltac:(lia))
    as (seeds' & extra' & -> & Z' & S').
  - intros j Hj. by rewrite Fl', Pl.
  - intros j Hj. by rewrite Fr', Pr.
  - cbn [mbind option_bind]. eexists. split; [done|]. split; [lia|]. split; [done|]. rewrite Hp. apply next_index. lia.
Qed.

Lemma punc_eval_run sums out : n <= vsize out -> vsize sums = L -> holds sums L sibling ->
  exists leaves, CggmPuncFullEval rp index sums n out one = Val leaves /\ vsize leaves = vsize out /\
    holds leaves n (plevel L).
Proof.
  intros Hn Zs Hsib. pose proof HL as (Hn1 & HL31 & H2 & H3). unfold CggmPuncFullEval.
  replace (n <=? vsize out) with true by lia. cbn [OtStore.enforce mbind res_bind]. cbn zeta. rewrite Zs.
  replace (L <? 32) with true by lia. rewrite vget_blk, Hsib by lia. cbn [mbind option_bind].
  rewrite (vset_Some out) by lia. cbn [mbind option_bind]. rewrite vset_Some by (rewrite vsize_insert; lia). cbn [mbind option_bind].
  set (seeds1 := <[Z.to_nat 1 := _]> (<[Z.to_nat 0 := _]> out)).
  assert (Z1 : vsize seeds1 = vsize out) by (unfold seeds1; by rewrite !vsize_insert).
  assert (B1 : forall j, j = 0 \/ j = 1 -> blk seeds1 j = plevel 1 j).
  { intros j Hj. rewrite plevel_one by done. unfold seeds1. rewrite blk_insert by (rewrite vsize_insert; lia).
    rewrite blk_insert by lia. destruct Hj as [-> | ->]; done. }
  destruct (for_up_inv (punc_inv (vsize out)) (punc_level rp L two one index sums) (Z.to_nat (L - 1)) 1
    (seeds1, [], Z.land index 1)) as ([[seeds extra] p] & -> & Hz & Hs & _).
  - split; [done|]. split; [apply (stage_start n L HL); apply B1; auto|]. change (2 ^ 1) with 2.
    change 1 with (Z.ones 1). by rewrite Z.land_ones by lia.
  - intros k st Hk Hst. apply punc_level_run; [lia|lia|done|apply Hsib; lia|done].
  - replace (1 + Z.of_nat (Z.to_nat (L - 1))) with L in * by lia. cbn [mbind option_bind].
    destruct (stage_end n L HL seeds extra (plevel L) ltac:(lia) Hs) as (leaves & -> & Zo & Ho). cbn [access].
    exists leaves. split; [done|]. split; [lia|]. done.
Qed.
End Tree.
