(* ===== verification/GywzTheorems.v ===== *)
(** Single-point correlated transfers as a protocol: whatever the schedule, both
    parties return, with the same blocks except for delta at the index of the
    receiver; for a chosen index, the index of the choices, and compact transfers. *)

From Stdlib Require Import ZArith Lia ZifyBool Bool Sorted.
From stdpp Require Import base numbers list option gmap.
From S2P Require Import Prelude BitBlock BitSet BitSetFacts BitSetOps BitSetGrow BitSetString.
From S2P Require Import ChannelKeys OtStore OtStoreFacts OtStoreTheorems CrHash TwoParty.
From S2P Require Import LinkProgram Context LinkGroup Collectives CollectivesFacts ContextTheorems TwoParty.
From S2P Require Import Sgrr SgrrFacts SgrrTheorems Gywz GywzFacts.

Local Open Scope Z_scope.

(** *** Sums on the wire *)

Lemma mask_sums_run (block : Z -> res Z) (u f : Z -> Z) (L : Z) sums :
  0 <= L -> vsize sums = L -> holds sums L f -> (forall i, 0 <= i < L -> block i = Val (u i)) ->
  exists sums', for_res (Z.to_nat L) 0 (mask_sums block) sums = Val sums' /\ vsize sums' = L /\
    holds sums' L (fun t => Z.lxor (f t) (u t)).
Proof.
  intros HL Hz Hf Hb.
  destruct (for_res_inv (fun k s => vsize s = L /\ holds s L (fun t => Z.lxor (f t) (if t <? k then u t else 0)))
    (mask_sums block) (Z.to_nat L) 0 sums) as (sums' & E & Hz' & Hs').
  - split; [done|]. intros t Ht. replace (t <? 0) with false by lia. rewrite Z.lxor_0_r. by apply Hf.
  - intros k s Hk [Hzs Hs]. unfold mask_sums. rewrite vget_blk, Hs by lia. replace (k <? k) with false by lia.
    cbn [access mbind res_bind]. rewrite Hb by lia. cbn [mbind res_bind]. rewrite vset_Some by lia.
    eexists. split; [done|]. rewrite vsize_insert. split; [done|]. intros t Ht. rewrite blk_insert by lia.
    destruct (Z.eqb_spec t k) as [-> | Hne].
    + replace (k <? k + 1) with true by lia. by rewrite Z.lxor_0_r.
    + rewrite Hs by lia. by replace (t <? k + 1) with (t <? k) by lia.
  - exists sums'. split; [done|]. split; [done|]. intros t Ht. rewrite Hs' by done.
    by replace (t <? 0 + Z.of_nat (Z.to_nat L)) with true by lia.
Qed.

Lemma read_words_bytes L sums : vsize sums = L -> (forall t, 0 <= t < L -> 0 <= blk sums t < 2 ^ 128) ->
  read_words L (words_bytes sums) = Some sums.
Proof. intros <- Hr. exact (read_array_bytes 16 sums Hr). Qed.

Lemma read_sums_words L sums : vsize sums = L -> (forall t, 0 <= t < L -> 0 <= blk sums t < 2 ^ 128) ->
  read_sums L (words_bytes sums) = Some sums.
Proof.
  intros Hz Hr. unfold read_sums. rewrite vsize_words, Hz. replace (16 * L =? L * 16) with true by lia.
  by apply read_words_bytes.
Qed.

(** *** Trees of blocks *)

Section Exchange.
Context (rp : Z -> Z) (one delta seed n L index : Z).
Hypothesis HL : height n L.
Hypothesis Hone : 0 <= one < 2 ^ 128.
Hypothesis Hdelta : 0 <= delta < 2 ^ 128.
Hypothesis Hseed : 0 <= seed < 2 ^ 128.

Lemma land_one_range x : 0 <= Z.land x one < 2 ^ 128.
Proof.
  split; [apply Z.land_nonneg; lia|]. apply bits_bound; [lia|apply Z.land_nonneg; lia|].
  intros j Hj. rewrite Z.land_spec, (testbit_high 128 one) by lia. apply andb_false_r.
Qed.

Lemma gsum_range t : 0 <= gsum rp one delta seed t < 2 ^ 128.
Proof. unfold gsum. destruct (t =? 0); [done|]. apply xs_range. intros j. apply land_one_range. Qed.

(** The sums the sender masks with [u] and the receiver unmasks with [w]. *)
Lemma sums_exchange (bs br : Z -> res Z) (u w : Z -> Z) sums :
  vsize sums = L -> holds sums L (gsum rp one delta seed) ->
  (forall i, 0 <= i < L -> bs i = Val (u i) /\ 0 <= u i < 2 ^ 128) ->
  (forall i, 0 <= i < L -> br i = Val (w i) /\ Z.lxor (u i) (w i) = if Z.testbit index i then 0 else delta) ->
  exists sums' sib, for_res (Z.to_nat L) 0 (mask_sums bs) sums = Val sums' /\
    vsize sums' = L /\ (forall t, 0 <= t < L -> 0 <= blk sums' t < 2 ^ 128) /\
    for_res (Z.to_nat L) 0 (mask_sums br) sums' = Val sib /\ vsize sib = L /\
    holds sib L (sibling rp one delta seed index).
Proof.
  intros Hz Hs Hbs Hbr. pose proof HL as (_ & HL31 & _).
  destruct (mask_sums_run bs u _ L sums ltac:(lia) Hz Hs) as (sums' & E1 & Z1 & H1); [intros i Hi; by apply Hbs|].
  destruct (mask_sums_run br w _ L sums' ltac:(lia) Z1 H1) as (sib & E2 & Z2 & H2); [intros i Hi; by apply Hbr|].
  exists sums', sib. split; [done|]. split; [done|]. split.
  - intros t Ht. rewrite H1 by done.
    apply lxor_block_range; [apply gsum_range|by apply Hbs].
  - split; [done|]. split; [done|]. intros t Ht. rewrite H2 by done. unfold sibling.
    rewrite Z.lxor_assoc. by rewrite (proj2 (Hbr t Ht)).
Qed.
End Exchange.

(** *** Correlated transfers with a delta *)

Record cots (h : heap) (s : OtSendStore) (r : OtRecvStore) (L delta : Z) (c : Z -> bool) (x : Z -> Z) : Prop := {
  cot_recv_size : OtRecv.Size r = L;
  cot_send_size : OtSend.Size s = L;
  cot_delta : OtSend.GetDelta s = Val delta;
  cot_choice i : 0 <= i < L -> OtRecv.GetChoice h r i = Val (Z.b2z (c i));
  cot_block i : 0 <= i < L -> OtRecv.GetBlock h r i = Val (x i) /\ 0 <= x i < 2 ^ 128;
  cot_sent i m : 0 <= i < L -> OtSend.GetBlock h s i (Z.b2z m) = Val (Z.lxor (x i) (if Bool.eqb m (c i) then 0 else delta))
}.

(** With a delta, the two messages of a transfer differ by it. *)
Lemma send_delta_blocks h s i z : 0 < send_delta s < 2 ^ 128 ->
  OtSend.GetBlock h s i 0 = Val z -> OtSend.GetBlock h s i 1 = Val (Z.lxor z (send_delta s)).
Proof.
  intros Hd. unfold OtSend.GetBlock. cbn [Z.eqb orb OtStore.enforce mbind res_bind].
  replace (send_delta s =? 0) with false by lia. destruct (GetBufIdx _ _) as [k| |]; cbn [mbind res_bind]; try done.
  destruct (read_blk _ _ _) as [y| |]; cbn [mbind res_bind]; try done. rewrite Z.mul_0_r, Z.mul_1_r.
  unfold u128. rewrite Z.mod_0_l, Z.mod_small, Z.lxor_0_r by lia. intros [= ->]. done.
Qed.

Lemma correlated_cots h s r L : correlated h s r -> blocks_sent h s -> OtRecv.Size r = L -> 0 < send_delta s < 2 ^ 128 ->
  exists c x, cots h s r L (send_delta s) c x.
Proof.
  intros Hcor Hbs Hsz Hd. destruct Hcor as [Hss Hcor].
  set (unVal := fun (o : res Z) => match o with Val z => z | _ => 0 end).
  exists (fun i => unVal (OtRecv.GetChoice h r i) =? 1), (fun i => unVal (OtRecv.GetBlock h r i)).
  assert (H : forall i, 0 <= i < L -> exists b x, OtRecv.GetChoice h r i = Val (Z.b2z b) /\ OtRecv.GetBlock h r i = Val x /\
    0 <= x < 2 ^ 128 /\ forall m, OtSend.GetBlock h s i (Z.b2z m) = Val (Z.lxor x (if Bool.eqb m b then 0 else send_delta s))).
  { intros i Hi. destruct (Hcor i ltac:(lia)) as (k & x & H1 & H2 & H3 & H4).
    destruct (Hbs i k ltac:(lia) H2) as (z & H5 & H6). rewrite H4 in H5. injection H5 as <-.
    destruct (Hbs i 0 ltac:(lia) ltac:(lia)) as (z & H7 & _). pose proof (send_delta_blocks h s i z Hd H7) as H8.
    exists (k =? 1), x. destruct H2 as [-> | ->]; (split; [done|]; split; [done|]; split; [done|]);
      intros [|]; cbn [Z.b2z Bool.eqb Z.eqb] in *; rewrite ?Z.lxor_0_r; try done; simplify_eq; rewrite ?H7, ?H8; try done.
    - by rewrite H4 in H7; injection H7 as ->.
    - rewrite H8 in H4. injection H4 as <-. by rewrite lxor_twice. }
  split; [done|lia|..].
  - unfold OtSend.GetDelta. by replace (send_delta s =? 0) with false by lia.
  - intros i Hi. destruct (H i Hi) as (b & x & E1 & _). rewrite E1. by destruct b.
  - intros i Hi. destruct (H i Hi) as (b & x & _ & E2 & Hx & _). by rewrite E2.
  - intros i m Hi. destruct (H i Hi) as (b & x & E1 & E2 & _ & E3). rewrite E1, E2, E3. subst unVal. by destruct b.
Qed.

(** The index made of the choices. *)
Lemma choices_index_bits h r L c : 0 <= L -> (forall i, 0 <= i < L -> OtRecv.GetChoice h r i = Val (Z.b2z (c i))) ->
  exists index, choices_index h r L = Val index /\ 0 <= index < 2 ^ L /\ forall t, 0 <= t < L -> Z.testbit index t = c t.
Proof.
  intros HL Hc.
  destruct (for_res_inv (fun k i => 0 <= i < 2 ^ k /\ forall t, 0 <= t < k -> Z.testbit i t = c t) (add_choice h r) (Z.to_nat L) 0 0)
    as (index & E & H1 & H2).
  - change (2 ^ 0) with 1. split; [lia|]. intros t Ht. lia.
  - intros k i Hk [Hi Hb]. unfold add_choice. rewrite Hc by lia. cbn [mbind res_bind].
    eexists. split; [done|].
    assert (Hbit : forall q, 0 <= q -> Z.testbit (Z.lor i (Z.shiftl (Z.b2z (c k)) k)) q = (if q =? k then c k else Z.testbit i q)).
    { intros q Hq. rewrite Z.lor_spec, Z.shiftl_spec by done. destruct (Z.eqb_spec q k) as [-> | Hne].
      - rewrite Z.sub_diag, Z.b2z_bit0, (testbit_high k i) by lia. done.
      - destruct (Z.lt_ge_cases q k); [rewrite (Z.testbit_neg_r _ (q - k)) by lia; apply orb_false_r|].
        rewrite (testbit_high k i) by lia. destruct (c k); cbn [Z.b2z orb]; [|apply Z.bits_0].
        change 1 with (2 ^ 0). rewrite testbit_pow2 by lia. lia. }
    split.
    + split; [apply Z.lor_nonneg; split; [lia|apply Z.shiftl_nonneg; destruct (c k); cbn; lia]|].
      apply bits_bound; [lia|apply Z.lor_nonneg; split; [lia|apply Z.shiftl_nonneg; destruct (c k); cbn; lia]|].
      intros q Hq. rewrite Hbit by lia. replace (q =? k) with false by lia. apply (testbit_high k); lia.
    + intros t Ht. rewrite Hbit by lia. destruct (Z.eqb_spec t k) as [-> | Hne]; [done|]. apply Hb. lia.
  - exists index. rewrite Z.add_0_l, Z2Nat.id in H1, H2 by lia. done.
Qed.

Lemma choices_index_run h s r L delta c x : 0 <= L -> cots h s r L delta c x ->
  exists index, choices_index h r L = Val index /\ 0 <= index < 2 ^ L /\ forall t, 0 <= t < L -> Z.testbit index t = c t.
Proof. intros HL Hc. apply choices_index_bits; [done|]. apply (cot_choice _ _ _ _ _ _ _ Hc). Qed.

Section Chosen.
Context (h : heap) (s : OtSendStore) (r : OtRecvStore) (n L delta : Z) (c : Z -> bool) (x : Z -> Z).
Hypothesis Hc : cots h s r L delta c x.
Hypothesis HL : height n L.
Hypothesis Hdelta : 0 <= delta < 2 ^ 128.

Lemma cots_transfers : transfers h s h r L c x (fun i => Z.lxor (x i) delta).
Proof.
  pose proof HL as (_ & HL31 & _). pose proof (cot_recv_size _ _ _ _ _ _ _ Hc). pose proof (cot_send_size _ _ _ _ _ _ _ Hc).
  split; [lia|lia|..]; intros i Hi.
  - by apply (cot_choice _ _ _ _ _ _ _ Hc).
  - by apply (cot_block _ _ _ _ _ _ _ Hc).
  - rewrite (cot_sent _ _ _ _ _ _ _ Hc), eqb_reflx, Z.lxor_0_r by done. split; [done|]. by apply (cot_block _ _ _ _ _ _ _ Hc).
  - rewrite (cot_sent _ _ _ _ _ _ _ Hc) by done. split; [by destruct (c i)|].
    apply lxor_block_range; [by apply (cot_block _ _ _ _ _ _ _ Hc)|done].
Qed.

Lemma gywz_choices_run index : 0 <= index < n -> exists masked, gywz_choices h r L index = Val masked /\
  wf 128 masked /\ m_bits_number masked = L /\
  forall t, 0 <= t < L -> Z.testbit (value 128 masked) t = xorb (Z.testbit index t) (c t).
Proof.
  intros Hi. pose proof HL as (Hn & HL31 & H2 & H3). unfold gywz_choices.
  destruct (append_block_refines 128 Bitset.ctor_empty index (wf_ctor_empty 128) ltac:(lia)) as (b1 & -> & W1 & N1 & V1).
  cbn [access mbind res_bind].
  destruct (resize_refines 128 b1 L false W1 ltac:(lia)) as (b2 & -> & W2 & N2 & V2). cbn [access mbind res_bind].
  assert (Hv : value 128 b2 = index).
  { rewrite V2, V1, N1. unfold resize_spec, append_spec. change (m_bits_number Bitset.ctor_empty) with 0.
    change (value 128 Bitset.ctor_empty) with 0. rewrite Z.shiftl_0_r, Z.lor_0_l. replace (L <=? 0 + 128) with true by lia.
    apply Z.mod_small. lia. }
  destruct (mask_choices h s r n L c x _ cots_transfers HL b2 W2 N2) as (masked & -> & W3 & N3 & B3). cbn [mbind res_bind].
  destruct (one_block masked W3 ltac:(lia)) as (E & _). unfold Bitset.num_blocks. rewrite E. cbn [OtStore.enforce].
  exists masked. split; [done|]. split; [done|]. split; [done|]. intros t Ht. rewrite B3, Hv by done. done.
Qed.

(** The block the sender adds to its sum. *)
Lemma flipped_block_run masked index i : wf 128 masked -> m_bits_number masked = L ->
  (forall t, 0 <= t < L -> Z.testbit (value 128 masked) t = xorb (Z.testbit index t) (c t)) -> 0 <= i < L ->
  flipped_block h s masked i = Val (Z.lxor (x i) (if Z.testbit index i then 0 else delta)).
Proof.
  intros W N B Hi. unfold flipped_block. rewrite (test_spec 128), B by (done || lia). cbn [access mbind res_bind].
  replace (1 - Z.b2z (xorb (Z.testbit index i) (c i))) with (Z.b2z (negb (xorb (Z.testbit index i) (c i))))
    by (by destruct (Z.testbit index i), (c i)).
  rewrite (cot_sent _ _ _ _ _ _ _ Hc) by done. do 2 f_equal. by destruct (Z.testbit index i), (c i).
Qed.
End Chosen.

(** *** The three protocols *)

Inductive variant := Chosen (index : Z) | FixedIndex | Ferret.

Section Variants.
Context (rp : Z -> Z) (fresh : Z -> list Z) (h : heap).

Definition gywz_recv (v : variant) (r : OtRecvStore) (n : Z) (out : list Z) : LinkM (list Z) :=
  match v with
  | Chosen index => GywzOtExtRecv rp h r n index out
  | FixedIndex => GywzOtExtRecv_fixed_index rp h r n out
  | Ferret => GywzOtExtRecv_ferret rp h r n out
  end.

Definition gywz_send (v : variant) (s : OtSendStore) (n seed : Z) (out : list Z) : LinkM (list Z) :=
  match v with
  | Chosen _ => GywzOtExtSend rp fresh h s n seed out
  | FixedIndex => GywzOtExtSend_fixed_index rp fresh h s n seed out
  | Ferret => GywzOtExtSend_ferret rp fresh h s n seed out
  end.

(** The index of the receiver. *)
Definition variant_index (v : variant) (r : OtRecvStore) (n : Z) : res Z :=
  match v with Chosen index => Val index | _ => choices_index h r (depth n) end.

(** The bits that are kept in the tree, and the difference at the index. *)
Definition variant_mask (v : variant) : Z := match v with Ferret => even_mask | _ => Uint128Max end.
Definition variant_delta (v : variant) (delta : Z) : Z := match v with Ferret => Z.lor delta 1 | _ => delta end.

Definition gleaf (v : variant) (delta seed n j : Z) : Z :=
  glevel rp (variant_mask v) (Z.land delta (variant_mask v)) (Z.land seed (variant_mask v)) (depth n) j.
End Variants.

Section Runs.
Context (rp : Z -> Z) (fresh : Z -> list Z) (h : heap) (s : OtSendStore) (r : OtRecvStore) (n seed delta : Z).
Context (c : Z -> bool) (x : Z -> Z) (out_s out_r : list Z).
Local Abbreviation L := (depth n).
Hypothesis Hfresh : forall k, 0 <= k -> vsize (fresh k) = k.
Hypothesis Hc : cots h s r L delta c x.
Hypothesis Hn : 1 < n <= 2 ^ 31.
Hypothesis Hdelta : 0 <= delta < 2 ^ 128.
Hypothesis Hseed : 0 <= seed < 2 ^ 128.
Hypothesis Hos : n <= vsize out_s.
Hypothesis Hor : n <= vsize out_r.

(** The computations of both parties, for blocks masked by [one]: the sender adds
    the blocks [u] to its sums, the receiver the blocks [w]; what they send does
    not depend on what their outputs held. *)
Lemma tree_runs one index (bs br : Z -> res Z) (u w : Z -> Z) :
  0 <= one < 2 ^ 128 ->
  (forall i, 0 <= i < L -> bs i = Val (u i) /\ 0 <= u i < 2 ^ 128) ->
  (forall i, 0 <= i < L -> br i = Val (w i) /\ Z.lxor (u i) (w i) = if Z.testbit index i then 0 else Z.land delta one) ->
  exists sums masked_sums sib,
    for_res (Z.to_nat L) 0 (mask_sums bs) sums = Val masked_sums /\ vsize masked_sums = L /\
    (forall t, 0 <= t < L -> 0 <= blk masked_sums t < 2 ^ 128) /\
    for_res (Z.to_nat L) 0 (mask_sums br) masked_sums = Val sib /\
    (forall out buf, n <= vsize out -> vsize buf = L -> exists leaves,
       CggmFullEval rp delta seed n out buf one = Val (leaves, sums) /\
       vsize leaves = vsize out /\ holds leaves n (glevel rp one (Z.land delta one) (Z.land seed one) L)) /\
    (forall out, n <= vsize out -> exists punctured,
       CggmPuncFullEval rp index sib n out one = Val punctured /\
       vsize punctured = vsize out /\ holds punctured n (plevel rp one (Z.land delta one) (Z.land seed one) index L)).
Proof.
  intros Hone Hbs Hbr. destruct (depth_height n Hn) as [HL HLog]. pose proof HL as (_ & HL31 & _).
  assert (Hl : forall z, Z.land (Z.land z one) one = Z.land z one) by (intros z; by rewrite <- Z.land_assoc, Z.land_diag).
  set (g := gsum rp one (Z.land delta one) (Z.land seed one)).
  set (sums := g <$> seqZ 0 L).
  assert (Zs : vsize sums = L) by (unfold sums, vsize; rewrite length_fmap, length_seqZ; lia).
  assert (Fs : holds sums L g).
  { intros j Hj. unfold sums. rewrite blk_map by (unfold vsize; rewrite length_seqZ; lia).
    unfold blk, vget. replace (0 <=? j) with true by lia. rewrite lookup_seqZ_lt by lia. cbn. f_equal. lia. }
  destruct (sums_exchange rp one (Z.land delta one) (Z.land seed one) n L index HL Hone (land_one_range one Hone seed) bs br u w sums Zs Fs Hbs Hbr)
    as (masked_sums & sib & E2 & Z3 & E3 & E4 & Z4 & F4).
  exists sums, masked_sums, sib. split; [done|]. split; [done|]. split; [done|]. split; [done|]. split.
  - intros out buf Hout Hbuf.
    destruct (full_eval_run rp one (Z.land delta one) (Z.land seed one) n L HL delta seed out buf eq_refl eq_refl HLog Hout
      Hbuf) as (leaves & sums' & E1 & Z1 & F1 & Z2 & F2).
    assert (sums' = sums) as -> by (apply blk_ext; [lia|]; intros j Hj; by rewrite F2, Fs by lia).
    by exists leaves.
  - intros out Hout.
    destruct (punc_eval_run rp one (Z.land delta one) (Z.land seed one) n L HL index (Hl seed) (Hl delta) sib out Hout Z4 F4)
      as (punctured & E5 & Z5 & F5). by exists punctured.
Qed.

(** *** The calls of both parties *)

Context (ph : list Z) (nm : bytes) (k rr a b : Z).
Hypothesis Hnd : NoDup ph.
Hypothesis Hph : vsize ph = 2.
Hypothesis Hrr : rr = 0 \/ rr = 1.
Hypothesis Ha : 0 <= a < 2 ^ 31 - 1.
Hypothesis Hb : 0 <= b < 2 ^ 31 - 2.
Local Abbreviation m1 := (slot1 ph nm rr a).
Local Abbreviation m2 := (slot2 ph nm rr b).
Local Abbreviation m3 := (slot3 ph nm rr b).

Definition values2 (request reply : bytes) (m : slot) : option bytes :=
  if bool_decide (m = m1) then Some request else if bool_decide (m = m2) then Some reply else None.

Lemma values2_at request reply : values2 request reply m1 = Some request /\ values2 request reply m2 = Some reply.
Proof.
  destruct (slots_differ ph nm rr a b Hph Hrr Hb Hnd) as (H1 & _). unfold values2. repeat case_bool_decide; naive_solver.
Qed.

(** With a request for a chosen index, and without. *)
Definition variant_calls (v : variant) : list call * list call :=
  match v with
  | Chosen _ => (recv_calls m1 m2 m3 false, send_calls m1 m2 m3 false)
  | _ => ([Received m2], [Sent m2])
  end.

Definition variant_ctx (v : variant) (c0 : Context) : Context :=
  match v with Chosen _ => ctx_after false rr c0 | _ => p2p_next (1 - rr) rr c0 end.

(** What a party does in its session. *)
Definition party_does (S : slot -> option bytes) (p i : Z) (m : LinkM (list Z)) (calls : list call)
    (after : Context -> Context) (out : list Z) : Prop :=
  forall st c0, ctx st = c0 -> member ph nm k i c0 -> p2p_count c0 rr (1 - rr) = a -> p2p_count c0 (1 - rr) rr = b ->
    does S p m st calls out (after c0).

Lemma uint_max z : 0 <= z < 2 ^ 128 -> Z.land z Uint128Max = z.
Proof. intros Hz. unfold Uint128Max. replace (2 ^ 128 - 1) with (Z.ones 128) by reflexivity. rewrite Z.land_ones by lia. apply Z.mod_small. lia. Qed.

(** What is exchanged for a chosen index, and what each party does when its slots
    hold this. *)
Lemma chosen_messages index : 0 <= index < n ->
  exists request reply, forall S, S m1 = Some request -> S m2 = Some reply ->
    (forall out, n <= vsize out -> exists punctured,
       party_does S (blk ph rr) rr (GywzOtExtRecv rp h r n index out) (recv_calls m1 m2 m3 false) (ctx_after false rr) punctured /\
       vsize punctured = vsize out /\ holds punctured n (plevel rp Uint128Max delta seed index L)) /\
    (forall out, n <= vsize out -> exists leaves,
       party_does S (blk ph (1 - rr)) (1 - rr) (GywzOtExtSend rp fresh h s n seed out) (send_calls m1 m2 m3 false)
         (ctx_after false rr) leaves /\
       vsize leaves = vsize out /\ holds leaves n (glevel rp Uint128Max delta seed L)).
Proof.
  intros Hi. destruct (depth_height n Hn) as [HL HLog]. pose proof HL as (_ & HL31 & _).
  destruct (gywz_choices_run h s r n L delta c x Hc HL Hdelta index Hi) as (masked & Em & Wm & Nm & Bm).
  destruct (tree_runs Uint128Max index (flipped_block h s masked) (OtRecv.GetBlock h r)
    (fun i => Z.lxor (x i) (if Z.testbit index i then 0 else delta)) x)
    as (sums & masked_sums & sib & E2 & Z3 & E3 & E4 & Hfull & Hpunc).
  { unfold Uint128Max. lia. }
  { intros i Hi'. split; [by apply (flipped_block_run h s r L delta c x Hc)|].
    apply lxor_block_range; [by apply (cot_block _ _ _ _ _ _ _ Hc)|destruct (Z.testbit index i); lia]. }
  { intros i Hi'. split; [by apply (cot_block _ _ _ _ _ _ _ Hc)|]. rewrite uint_max by done.
    rewrite (Z.lxor_comm (x i)). apply lxor_twice. }
  rewrite !uint_max in Hfull, Hpunc by done.
  pose proof (cot_recv_size _ _ _ _ _ _ _ Hc) as Hrs. pose proof (cot_send_size _ _ _ _ _ _ _ Hc) as Hss.
  pose proof (Hfresh L ltac:(lia)) as Hbuf.
  exists (words_bytes (m_blocks masked)), (words_bytes masked_sums). intros S V1 V2.
  split; intros out Hout; [destruct (Hpunc out Hout) as (punctured & E5 & Zp & Fp); exists punctured
                          |destruct (Hfull out _ Hout Hbuf) as (leaves & E1 & Zl & Fl); exists leaves];
    (split; [|done]); intros st c0 Hst Hm Hca Hcb; destruct (counts_after rr a b c0 Hca Hcb) as [Hcb1 _].
  - pose proof (other_rank ph nm k rr c0 Hm Hph Hrr) as Hnext. unfold GywzOtExtRecv.
    lifts st Hst HLog. do 3 (checks st Hst). lifts st Hst Em. reads_ctx st Hst. rewrite Hnext.
    sends st Hst Hca V1. receives st Hst Hcb1 V2.
    eapply does_lift; [by rewrite (read_sums_words L masked_sums Z3 E3)|exact Hst|]; next_session st Hst.
    lifts st Hst E4. rewrite E5. unfold ctx_after. rewrite <- Hst. apply does_ret.
  - pose proof (other_rank ph nm k (1 - rr) c0 Hm Hph ltac:(lia)) as Hnext. replace (1 - (1 - rr)) with rr in Hnext by lia.
    unfold GywzOtExtSend. lifts st Hst HLog. do 2 (checks st Hst). lifts st Hst (cot_delta _ _ _ _ _ _ _ Hc).
    lifts st Hst E1. reads_ctx st Hst. rewrite Hnext. cbn [fst snd]. receives st Hst Hca V1.
    lifts st Hst (read_choices_run n L HL masked Wm Nm). lifts st Hst E2. sends st Hst Hcb1 V2.
    unfold ctx_after. rewrite <- Hst. apply does_ret.
Qed.

Lemma chosen_runs index : 0 <= index < n ->
  exists S leaves punctured,
    party_does S (blk ph rr) rr (GywzOtExtRecv rp h r n index out_r) (recv_calls m1 m2 m3 false) (ctx_after false rr) punctured /\
    party_does S (blk ph (1 - rr)) (1 - rr) (GywzOtExtSend rp fresh h s n seed out_s) (send_calls m1 m2 m3 false)
      (ctx_after false rr) leaves /\
    vsize leaves = vsize out_s /\ holds leaves n (glevel rp Uint128Max delta seed L) /\
    vsize punctured = vsize out_r /\ holds punctured n (plevel rp Uint128Max delta seed index L).
Proof.
  intros Hi. destruct (chosen_messages index Hi) as (request & reply & H). destruct (values2_at request reply) as [V1 V2].
  destruct (H _ V1 V2) as [Hr Hs]. destruct (Hr out_r Hor) as (punctured & P1 & P2 & P3).
  destruct (Hs out_s Hos) as (leaves & L1 & L2 & L3). by exists (values2 request reply), leaves, punctured.
Qed.

(** Without a request the sender's message is masked for the choices themselves. *)
Lemma fixed_messages :
  exists index masked_sums,
    choices_index h r L = Val index /\ 0 <= index < 2 ^ L /\ (forall i, 0 <= i < L -> Z.testbit index i = c i) /\
    vsize masked_sums = L /\ (forall t, 0 <= t < L -> 0 <= blk masked_sums t < 2 ^ 128) /\
    (forall out buf, n <= vsize out -> vsize buf = L -> exists leaves,
       gywz_send_fixed rp h s n seed out buf = Val (leaves, masked_sums) /\
       vsize leaves = vsize out /\ holds leaves n (glevel rp Uint128Max delta seed L)) /\
    (forall out, n <= vsize out -> exists punctured,
       gywz_recv_fixed rp h r n out masked_sums = Val punctured /\
       vsize punctured = vsize out /\ holds punctured n (plevel rp Uint128Max delta seed index L)).
Proof.
  destruct (depth_height n Hn) as [HL HLog]. pose proof HL as (_ & HL31 & _).
  destruct (choices_index_run h s r L delta c x ltac:(lia) Hc) as (index & Ei & Hi & Bi).
  destruct (tree_runs Uint128Max index (fun i => OtSend.GetBlock h s i 1) (OtRecv.GetBlock h r)
    (fun i => Z.lxor (x i) (if Bool.eqb true (c i) then 0 else delta)) x)
    as (sums & masked_sums & sib & E2 & Z3 & E3 & E4 & Hfull & Hpunc).
  { unfold Uint128Max. lia. }
  { intros i Hi'. split; [by apply (cot_sent _ _ _ _ _ _ _ Hc i true)|].
    apply lxor_block_range; [by apply (cot_block _ _ _ _ _ _ _ Hc)|destruct (Bool.eqb true (c i)); lia]. }
  { intros i Hi'. split; [by apply (cot_block _ _ _ _ _ _ _ Hc)|]. rewrite uint_max, Bi by done.
    rewrite (Z.lxor_comm (x i)), lxor_twice. by destruct (c i). }
  rewrite !uint_max in Hfull, Hpunc by done.
  pose proof (cot_recv_size _ _ _ _ _ _ _ Hc) as Hrs. pose proof (cot_send_size _ _ _ _ _ _ _ Hc) as Hss.
  exists index, masked_sums. do 5 (split; [done|]). split.
  - intros out buf Hout Hbuf. destruct (Hfull out buf Hout Hbuf) as (leaves & E1 & Zl & Fl). exists leaves. split; [|done].
    unfold gywz_send_fixed. rewrite HLog. cbn [mbind res_bind]. rewrite Hss, Z.eqb_refl, Hbuf.
    replace (1 <? n) with true by lia. replace (L <=? L) with true by lia. cbn [OtStore.enforce mbind res_bind].
    rewrite (cot_delta _ _ _ _ _ _ _ Hc). cbn [mbind res_bind]. rewrite E1. cbn [mbind res_bind]. by rewrite E2.
  - intros out Hout. destruct (Hpunc out Hout) as (punctured & E5 & Zp & Fp). exists punctured. split; [|done].
    unfold gywz_recv_fixed. rewrite HLog. cbn [mbind res_bind]. rewrite Hrs, Z.eqb_refl, Z3.
    replace (1 <? n) with true by lia. replace (L <=? L) with true by lia. cbn [OtStore.enforce mbind res_bind].
    rewrite Ei. cbn [mbind res_bind]. rewrite take_ge by (unfold vsize in Z3; lia). by rewrite E4.
Qed.

Lemma fixed_runs :
  exists S index leaves punctured,
    choices_index h r L = Val index /\ 0 <= index < 2 ^ L /\
    party_does S (blk ph rr) rr (GywzOtExtRecv_fixed_index rp h r n out_r) [Received m2] (p2p_next (1 - rr) rr) punctured /\
    party_does S (blk ph (1 - rr)) (1 - rr) (GywzOtExtSend_fixed_index rp fresh h s n seed out_s) [Sent m2]
      (p2p_next (1 - rr) rr) leaves /\
    vsize leaves = vsize out_s /\ holds leaves n (glevel rp Uint128Max delta seed L) /\
    vsize punctured = vsize out_r /\ holds punctured n (plevel rp Uint128Max delta seed index L).
Proof.
  destruct (depth_height n Hn) as [HL HLog]. pose proof HL as (_ & HL31 & _).
  destruct fixed_messages as (index & masked_sums & Ei & Hi & _ & Z3 & E3 & Hs & Hr).
  destruct (Hs out_s (fresh L) Hos (Hfresh L ltac:(lia))) as (leaves & E1 & Zl & Fl).
  destruct (Hr out_r Hor) as (punctured & E5 & Zp & Fp).
  pose proof (cot_recv_size _ _ _ _ _ _ _ Hc) as Hrs. pose proof (cot_send_size _ _ _ _ _ _ _ Hc) as Hss.
  destruct (values2_at [] (words_bytes masked_sums)) as [_ V2].
  exists (values2 [] (words_bytes masked_sums)), index, leaves, punctured. split; [done|]. split; [done|].
  split; [|split; [|done]]; intros st c0 Hst Hm Hca Hcb.
  - pose proof (other_rank ph nm k rr c0 Hm Hph Hrr) as Hnext. unfold GywzOtExtRecv_fixed_index.
    lifts st Hst HLog. do 2 (checks st Hst). reads_ctx st Hst. rewrite Hnext. receives st Hst Hcb V2.
    eapply does_check; [rewrite vsize_words; lia|exact Hst|]; next_session st Hst.
    eapply does_lift; [by rewrite (read_words_bytes L masked_sums Z3 E3)|exact Hst|]; next_session st Hst. rewrite E5, <- Hst. apply does_ret.
  - pose proof (other_rank ph nm k (1 - rr) c0 Hm Hph ltac:(lia)) as Hnext. replace (1 - (1 - rr)) with rr in Hnext by lia.
    unfold GywzOtExtSend_fixed_index. lifts st Hst HLog. do 2 (checks st Hst). lifts st Hst E1.
    reads_ctx st Hst. rewrite Hnext. cbn [fst snd]. sends st Hst Hcb V2. rewrite <- Hst. apply does_ret.
Qed.

Lemma full_eval_masked one : CggmFullEval rp (Z.land delta one) (Z.land seed one) n out_s (fresh L) one =
  CggmFullEval rp delta seed n out_s (fresh L) one.
Proof. unfold CggmFullEval. by rewrite <- !(Z.land_assoc _ one one), !Z.land_diag. Qed.

Lemma testbit_even q : 0 <= q -> Z.testbit even_mask q = (0 <? q) && (q <? 128).
Proof.
  intros Hq. replace even_mask with (Z.shiftl (Z.ones 127) 1) by reflexivity. rewrite Z.shiftl_spec by done.
  destruct (Z.eqb_spec q 0) as [-> | Hne]; [done|]. rewrite testbit_ones by lia. lia.
Qed.

(** An even block that differs from another by delta, made odd. *)
Lemma odd_delta g : Z.land g even_mask = g ->
  Z.lor (Z.lxor g (Z.land delta even_mask)) (2 ^ 128 - 1 - even_mask) = Z.lxor g (Z.lor delta 1).
Proof.
  intros Hg. replace (2 ^ 128 - 1 - even_mask) with (2 ^ 0) by reflexivity. change 1 with (2 ^ 0).
  apply Z.bits_inj'. intros q Hq. rewrite Z.lxor_spec, !Z.lor_spec, Z.lxor_spec, Z.land_spec, testbit_pow2, testbit_even by lia.
  rewrite <- Hg, Z.land_spec, testbit_even by lia. destruct (Z.eqb_spec q 0) as [-> | Hne].
  - by rewrite andb_false_r, !orb_true_r.
  - replace (0 <? q) with true by lia. rewrite !orb_false_r. cbn [andb].
    destruct (Z.ltb_spec q 128); [by rewrite !andb_true_r|]. by rewrite (testbit_high 128 delta), andb_false_r by lia.
Qed.

Lemma ferret_runs : recv_type r = Compact -> send_type s = Compact ->
  exists S index leaves punctured,
    choices_index h r L = Val index /\ 0 <= index < 2 ^ L /\
    party_does S (blk ph rr) rr (GywzOtExtRecv_ferret rp h r n out_r) [Received m2] (p2p_next (1 - rr) rr) punctured /\
    party_does S (blk ph (1 - rr)) (1 - rr) (GywzOtExtSend_ferret rp fresh h s n seed out_s) [Sent m2]
      (p2p_next (1 - rr) rr) leaves /\
    let g := glevel rp even_mask (Z.land delta even_mask) (Z.land seed even_mask) L in
    vsize leaves = vsize out_s /\ holds leaves n g /\
    vsize punctured = vsize out_r /\ holds punctured n (fun j => Z.lxor (g j) (if j =? index then Z.lor delta 1 else 0)).
Proof.
  intros Tr Ts. destruct (depth_height n Hn) as [HL HLog]. pose proof HL as (_ & HL31 & _).
  destruct (choices_index_run h s r L delta c x ltac:(lia) Hc) as (index & Ei & Hi & Bi).
  assert (Heven : 0 <= even_mask < 2 ^ 128) by (unfold even_mask; lia).
  destruct (tree_runs even_mask index (fun i => b ← OtSend.GetBlock h s i 1; Val (Z.land b even_mask))
    (fun i => b ← OtRecv.GetBlock h r i; Val (Z.land b even_mask))
    (fun i => Z.land (Z.lxor (x i) (if Bool.eqb true (c i) then 0 else delta)) even_mask) (fun i => Z.land (x i) even_mask))
    as (sums & masked_sums & sib & E2 & Z3 & E3 & E4 & Hfull & Hpunc).
  { done. }
  { intros i Hi'. split; [|by apply land_one_range]. change 1 with (Z.b2z true).
    by rewrite (cot_sent _ _ _ _ _ _ _ Hc i true) by done. }
  { intros i Hi'. rewrite (proj1 (cot_block _ _ _ _ _ _ _ Hc i Hi')). split; [done|]. rewrite Bi by done.
    apply Z.bits_inj'. intros q Hq. destruct (c i); cbn [Bool.eqb];
      rewrite ?Z.lxor_spec, ?Z.land_spec, ?Z.lxor_spec, ?Z.bits_0;
      destruct (Z.testbit (x i) q), (Z.testbit delta q), (Z.testbit even_mask q); done. }
  destruct (Hfull out_s (fresh L) Hos (Hfresh L ltac:(lia))) as (leaves & E1 & Zl & Fl). destruct (Hpunc out_r Hor) as (punctured & E5 & Zp & Fp).
  rewrite <- full_eval_masked in E1.
  pose proof (cot_recv_size _ _ _ _ _ _ _ Hc) as Hrs. pose proof (cot_send_size _ _ _ _ _ _ _ Hc) as Hss.
  destruct (values2_at [] (words_bytes masked_sums)) as [_ V2].
  set (g := glevel rp even_mask (Z.land delta even_mask) (Z.land seed even_mask) L) in *.
  assert (Hg : forall j, Z.land (g j) even_mask = g j).
  { intros j. apply gnode_masked; by rewrite <- Z.land_assoc, Z.land_diag. }
  assert (Hfin : exists out, (if index <? n
      then access (y ← vget punctured index; vset punctured index (Z.lor y (2 ^ 128 - 1 - even_mask))) else Val punctured) = Val out /\
    vsize out = vsize out_r /\ holds out n (fun j => Z.lxor (g j) (if j =? index then Z.lor delta 1 else 0))).
  { destruct (Z.ltb_spec index n) as [Hlt | Hge].
    - rewrite vget_blk, Fp by lia. cbn [mbind option_bind]. rewrite vset_Some by lia. eexists. split; [done|].
      rewrite vsize_insert. split; [done|]. intros j Hj. rewrite blk_insert by lia.
      destruct (Z.eqb_spec j index) as [-> | Hne].
      + unfold plevel. rewrite Z.mod_small, Z.eqb_refl by done. by apply odd_delta.
      + rewrite Fp by done. unfold plevel. rewrite Z.mod_small by done. by replace (j =? index) with false by lia.
    - exists punctured. split; [done|]. split; [done|]. intros j Hj. rewrite Fp by done. unfold plevel.
      rewrite Z.mod_small by done. by replace (j =? index) with false by lia. }
  destruct Hfin as (out & Ef & Zo & Fo).
  exists (values2 [] (words_bytes masked_sums)), index, leaves, out. split; [done|]. split; [done|].
  split; [|split; [|done]]; intros st c0 Hst Hm Hca Hcb.
  - pose proof (other_rank ph nm k rr c0 Hm Hph Hrr) as Hnext. unfold GywzOtExtRecv_ferret.
    lifts st Hst HLog. do 2 (checks st Hst). eapply does_check; [by apply bool_decide_eq_true_2|exact Hst|]; next_session st Hst.
    lifts st Hst Ei. reads_ctx st Hst. rewrite Hnext. receives st Hst Hcb V2.
    eapply does_lift; [by rewrite (read_sums_words L masked_sums Z3 E3)|exact Hst|]; next_session st Hst.
    lifts st Hst E4. lifts st Hst E5. rewrite <- Hst. destruct (index <? n).
    + rewrite Ef. apply does_ret.
    + injection Ef as ->. apply does_ret.
  - pose proof (other_rank ph nm k (1 - rr) c0 Hm Hph ltac:(lia)) as Hnext. replace (1 - (1 - rr)) with rr in Hnext by lia.
    unfold GywzOtExtSend_ferret. lifts st Hst HLog. do 2 (checks st Hst).
    eapply does_check; [by apply bool_decide_eq_true_2|exact Hst|]; next_session st Hst.
    lifts st Hst (cot_delta _ _ _ _ _ _ _ Hc). lifts st Hst E1. lifts st Hst E2. reads_ctx st Hst. rewrite Hnext. cbn [fst snd].
    sends st Hst Hcb V2. rewrite <- Hst. apply does_ret.
Qed.

Definition variant_ok (v : variant) : Prop :=
  match v with
  | Chosen index => 0 <= index < n
  | FixedIndex => True
  | Ferret => recv_type r = Compact /\ send_type s = Compact
  end.

Lemma plevel_at one d s0 index j : 0 <= index < 2 ^ L ->
  plevel rp one d s0 index L j = Z.lxor (glevel rp one d s0 L j) (if j =? index then d else 0).
Proof. intros Hi. unfold plevel. by rewrite Z.mod_small by done. Qed.

Lemma variant_runs v : variant_ok v ->
  exists S index leaves punctured,
    variant_index h v r n = Val index /\
    party_does S (blk ph rr) rr (gywz_recv rp h v r n out_r) (variant_calls v).1 (variant_ctx v) punctured /\
    party_does S (blk ph (1 - rr)) (1 - rr) (gywz_send rp fresh h v s n seed out_s) (variant_calls v).2 (variant_ctx v) leaves /\
    vsize leaves = vsize out_s /\ holds leaves n (gleaf rp v delta seed n) /\ vsize punctured = vsize out_r /\
    holds punctured n (fun j => Z.lxor (gleaf rp v delta seed n j) (if j =? index then variant_delta v delta else 0)).
Proof.
  destruct (depth_height n Hn) as [(_ & _ & _ & HLn) _]. unfold gleaf.
  destruct v as [index| |]; cbn [variant_ok variant_index gywz_recv gywz_send variant_calls variant_ctx variant_mask variant_delta fst snd].
  - intros Hi. destruct (chosen_runs index Hi) as (S & leaves & punctured & H1 & H2 & Z1 & F1 & Z2 & F2).
    exists S, index, leaves, punctured. rewrite !uint_max by done. do 6 (split; [done|]).
    intros j Hj. rewrite F2, plevel_at by (done || lia). done.
  - intros _. destruct fixed_runs as (S & index & leaves & punctured & E & Hi & H1 & H2 & Z1 & F1 & Z2 & F2).
    exists S, index, leaves, punctured. rewrite !uint_max by done. do 6 (split; [done|]).
    intros j Hj. rewrite F2, plevel_at by (done || lia). done.
  - intros [Tr Ts]. destruct (ferret_runs Tr Ts) as (S & index & leaves & punctured & E & Hi & H1 & H2 & Z1 & F1 & Z2 & F2).
    by exists S, index, leaves, punctured.
Qed.

Lemma variant_planned v :
  let τ := fun m => if bool_decide (m = m1) then 0%nat else 1%nat in
  (NoDup (variant_calls v).1 /\ StronglySorted (in_time τ) (variant_calls v).1) /\
  (NoDup (variant_calls v).2 /\ StronglySorted (in_time τ) (variant_calls v).2) /\
  (forall m, Received m ∈ (variant_calls v).1 -> m.1.1 = blk ph (1 - rr) /\ Sent m ∈ (variant_calls v).2) /\
  (forall m, Received m ∈ (variant_calls v).2 -> m.1.1 = blk ph rr /\ Sent m ∈ (variant_calls v).1).
Proof using Hnd Hph Hrr Hb.
  destruct (slots_differ ph nm rr a b Hph Hrr Hb Hnd) as (D1 & D2 & D3).
  clear -D1 D2 D3. destruct v as [index| |]; cbn [variant_calls fst snd].
  1:{ destruct (calls_planned m1 m2 m3 false D1 D2 D3) as [P1 P2]. split; [exact P1|]. split; [exact P2|].
      split; intros m Hm; apply calls_answered in Hm; [destruct Hm as [[-> | ->] Hs]|destruct Hm as [-> Hs]]; done. }
  all: split; [split; repeat constructor; set_solver|]; split; [split; repeat constructor; set_solver|];
    split; intros m Hm; apply list_elem_of_singleton in Hm; simplify_eq; (split; [done|by left]).
Qed.

Lemma variant_ctx_after v c0 : exchanged rr a b c0 ->
  exchanged rr (match v with Chosen _ => a + 1 | _ => a end) (b + 1) (variant_ctx v c0).
Proof using Ha Hb Hrr.
  intros Hx. destruct v; cbn [variant_ctx].
  1:{ pose proof (exchanged_after rr a b false c0 Hx Hrr) as H. by rewrite Z.add_0_r in H. }
  all: destruct Hx as [Hx1 Hx2]; unfold exchanged; rewrite !p2p_count_next, Hx1, Hx2;
    repeat case_bool_decide; simplify_eq; cbn [Z.b2z]; lia || (exfalso; congruence || lia).
Qed.

Lemma member_variant v i c0 : member ph nm k i c0 -> member ph nm k i (variant_ctx v c0).
Proof. intros H. destruct v; [by apply member_after|by apply member_p2p..]. Qed.
End Runs.

(** *** Both parties together *)

(** The party of rank [rr] receives, the other one sends. *)
Definition gywz_programs rp fresh h (v : variant) s r n seed out_s out_r rr (ss : list session)
  : list (prog (list Z * session)) :=
  imap (fun i st => if Z.of_nat i =? rr then gywz_recv rp h v r n out_r st
                    else gywz_send rp fresh h v s n seed out_s st) ss.

(** What the party of rank [i] has at the end. *)
Definition single_point rp (v : variant) delta seed n index (ph : list Z) nm k rr a b (out_s out_r : list Z) (i : Z)
    (ret : list Z * session) : Prop :=
  vsize ret.1 = vsize (if i =? rr then out_r else out_s) /\
  (forall j, 0 <= j < n -> blk ret.1 j =
     Z.lxor (gleaf rp v delta seed n j) (if (i =? rr) && (j =? index) then variant_delta v delta else 0)) /\
  member ph nm k i (ctx ret.2) /\
  exchanged rr (match v with Chosen _ => a + 1 | _ => a end) (b + 1) (ctx ret.2).

(** C28: single-point correlated transfers. Two parties with correlated transfers
    under a delta run the half-tree protocol, with an index the receiver
    chooses, with the index its choices make, or on compact transfers as ferret
    does. Whatever the schedule, both return: the sender with the leaves of its
    tree, the receiver with the same leaves, the one at its index offset by delta
    (with its last bit set, on compact transfers); an index of the choices that is
    not below [n] offsets nothing. The contexts agree on the messages exchanged. *)
Theorem gywz_single_point rp fresh h v s r n seed out_s out_r ph nm k ss rr a b :
  (forall m, 0 <= m -> vsize (fresh m) = m) -> 0 <= seed < 2 ^ 128 -> 1 < n <= 2 ^ 31 ->
  n <= vsize out_s -> n <= vsize out_r -> correlated h s r -> blocks_sent h s ->
  OtRecv.Size r = depth n -> 0 < send_delta s < 2 ^ 128 -> variant_ok s r n v ->
  group ph nm k ss -> vsize ph = 2 -> rr = 0 \/ rr = 1 ->
  0 <= a < 2 ^ 31 - 1 -> 0 <= b < 2 ^ 31 - 2 -> (forall st, st ∈ ss -> exchanged rr a b (ctx st)) ->
  exists index, variant_index h v r n = Val index /\
    all_return ph (gywz_programs rp fresh h v s r n seed out_s out_r rr ss)
      (single_point rp v (send_delta s) seed n index ph nm k rr a b out_s out_r).
Proof.
  intros Hf Hseed Hn Hos Hor Hcor Hbs Hsz Hd Hv Hg Hph Hrr Ha Hb Hex.
  destruct (correlated_cots h s r (depth n) Hcor Hbs Hsz Hd) as (c & x & Hc).
  pose proof (group_parties _ _ _ _ Hg) as Hnd. pose proof (group_size _ _ _ _ Hg) as Hlen.
  destruct (variant_runs rp fresh h s r n seed (send_delta s) c x out_s out_r Hf Hc Hn ltac:(lia) Hseed Hos Hor
    ph nm k rr a b Hnd Hph Hrr Ha Hb v Hv) as (S & index & leaves & punctured & Ei & Hr & Hs & Zl & Fl & Zp & Fp).
  exists index. split; [done|].
  destruct (two_sessions ph nm k ss rr Hg Hph Hrr) as (sr & sd & Er & Ed & Mr & Md & Ir & Id).
  destruct (Hex sr Ir) as [Rca Rcb]. destruct (Hex sd Id) as [Sca Scb].
  destruct (Hr sr (ctx sr) eq_refl Mr Rca Rcb) as (sr' & Tr & Cr).
  destruct (Hs sd (ctx sd) eq_refl Md Sca Scb) as (sd' & Ts & Cs).
  destruct (variant_planned ph nm rr a b Hnd Hph Hrr Hb v) as (P1 & P2 & P3 & P4).
  eapply (two_party_return ph _ S _ rr);
    [done|done|done| | | |eexists; split; [exact Tr|]|eexists; split; [exact Ts|]|exact P1|exact P2|exact P3|exact P4].
  - unfold gywz_programs, vsize in *. rewrite length_imap. lia.
  - unfold gywz_programs. rewrite vget_imap, Er. cbn. by rewrite Z2Nat.id, Z.eqb_refl by lia.
  - unfold gywz_programs. rewrite vget_imap, Ed. cbn. rewrite Z2Nat.id by lia.
    by replace (1 - rr =? rr) with false by lia.
  - unfold single_point. cbn [fst snd]. rewrite Z.eqb_refl, Cr. split; [done|]. split; [done|].
    split; [by apply member_variant|]. by apply variant_ctx_after.
  - unfold single_point. cbn [fst snd]. replace (1 - rr =? rr) with false by lia. rewrite Cs. cbn [andb]. split; [done|].
    split; [intros j Hj; rewrite Z.lxor_0_r; by apply Fl|]. split; [by apply member_variant|]. by apply variant_ctx_after.
Qed.

(** *** A concrete run *)

(** Two compact transfers, whose choices are 0 and 1, under the delta 9. *)
Definition demo_cots : heap * OtSendStore * OtRecvStore :=
  match MakeCompactOtSendStore demo_heap0 [4; 8] 9 with
  | Val (h1, s) => match MakeCompactOtRecvStore h1 [4; 1] with
                   | Val (h2, r) => (h2, s, r)
                   | _ => (h1, s, mk_recv (whole 0) Normal None None)
                   end
  | _ => (demo_heap0, mk_send (whole 0) Normal 0 None, mk_recv (whole 0) Normal None None)
  end.

Lemma demo_cots_ok : let '(h, s, r) := demo_cots in
  correlated h s r /\ blocks_sent h s /\ OtRecv.Size r = 2 /\ send_delta s = 9 /\
  recv_type r = Compact /\ send_type s = Compact.
Proof.
  assert (Hs : OtSend.Size demo_cots.1.2 = 2) by (vm_compute; reflexivity).
  assert (Hr : OtRecv.Size demo_cots.2 = 2) by (vm_compute; reflexivity).
  destruct demo_cots as [[h s] r] eqn:E. cbn [fst snd] in Hs, Hr. split; [|split; [|split; [done|]]].
  - split; [congruence|]. rewrite Hr. intros i Hi. vm_compute in E. injection E as <- <- <-.
    assert (i = 0 \/ i = 1) as [-> | ->] by lia; [exists 0, 4|exists 1, 1];
      (split; [vm_compute; reflexivity|]); (split; [auto|]); split; vm_compute; reflexivity.
  - unfold blocks_sent. rewrite Hs. intros i m Hi Hm. vm_compute in E. injection E as <- <- <-.
    assert (i = 0 \/ i = 1) as [-> | ->] by lia; destruct Hm as [-> | ->];
      [exists 4|exists 13|exists 8|exists 1]; (split; [vm_compute; reflexivity|lia]).
  - vm_compute in E. injection E as <- <- <-. done.
Qed.

Lemma gywz_single_point_witness :
  let '(h, s, r) := demo_cots in
  exists index, variant_index h Ferret r 3 = Val index /\
  all_return demo_pair (gywz_programs Z.succ (fun m => replicate (Z.to_nat m) 0) h Ferret s r 3 6 [0; 0; 0] [0; 0; 0] 1 demo_pair_sessions)
    (single_point Z.succ Ferret (send_delta s) 6 3 index demo_pair [65] 0 1 0 0 [0; 0; 0] [0; 0; 0]).
Proof.
  pose proof demo_cots_ok as H. destruct demo_cots as [[h s] r]. destruct H as (Hc & Hb & Hr & Hd & Tr & Ts).
  apply gywz_single_point; try done; try lia.
  - intros m Hm. rewrite vsize_replicate. lia.
  - apply demo_pair_group.
  - intros st Hst. repeat (apply elem_of_cons in Hst as [-> | Hst]; [done|]). by apply not_elem_of_nil in Hst.
Defined.
