(* ===== verification/Mpfss.v ===== *)
(** Multi-point function secret sharing (src/yacl/kernel/algorithms/mpfss.h,
    mpfss.cc): the parameters, the protocol with the receiver's indexes, on 128-bit and
    on 64-bit words, and with the indexes of the choices, in super batches. For every interval of the output the parties run
    a single-point protocol of [Gywz] on a slice of their transfers, hash the
    leaves, and correct the sum at the receiver's index.

    Words are numbers; [add] and [sub] are the operations of the caller. Outside
    code is a parameter as in [Gywz]; [seeds] are the seeds of the intervals. *)

From Stdlib Require Import ZArith Lia ZifyBool Bool.
From stdpp Require Import base numbers list option gmap.
From S2P Require Import Prelude BitBlock BitSet ChannelKeys OtStore LinkProgram Context CrHash TwoParty Sgrr Gywz.

Local Open Scope Z_scope.

(** *** Parameters *)

Inductive LpnNoiseAsm := RegularNoise | UniformNoise.

#[export] Instance LpnNoiseAsm_eq_dec : EqDecision LpnNoiseAsm.
Proof. solve_decision. Defined.

Record MpFssParam := mk_param {
  base_vole_num_ : Z;
  noise_num_ : Z;
  sp_vole_size_ : Z;
  last_sp_vole_size_ : Z;
  mp_vole_size_ : Z;
  require_ot_num_ : Z;
  assumption_ : LpnNoiseAsm;
  indexes_ : list Z;
  is_mal_ : bool
}.

Definition set_indexes (l : list Z) (p : MpFssParam) : MpFssParam :=
  mk_param (base_vole_num_ p) (noise_num_ p) (sp_vole_size_ p) (last_sp_vole_size_ p) (mp_vole_size_ p)
    (require_ot_num_ p) (assumption_ p) l (is_mal_ p).

Definition new_MpFssParam (noise_num mp_vole_size : Z) (assumption : LpnNoiseAsm) (mal : bool) : res MpFssParam :=
  OtStore.enforce (bool_decide (assumption = RegularNoise));;
  OtStore.enforce (0 <? noise_num);;
  let sp_vole_size := mp_vole_size / noise_num in
  let last_sp_vole_size := u64 (mp_vole_size - u64 (u64 (noise_num - 1) * sp_vole_size)) in
  OtStore.enforce (1 <? sp_vole_size);;
  len ← Log2Ceil sp_vole_size;
  last ← Log2Ceil last_sp_vole_size;
  Val (mk_param (if mal then u64 (noise_num + 1) else noise_num) noise_num sp_vole_size last_sp_vole_size mp_vole_size
         (u64 (u64 (len * u64 (noise_num - 1)) + last)) assumption [] mal).

(** The loops run over [uint32_t] below [noise_num_ - 1]. *)
Definition reduce_index (size i : Z) (l : list Z) : option (list Z) := x ← vget l i; vset l i (x mod size).

(** [rand] is the random vector. *)
Definition GenIndexes (rand : list Z) (p : MpFssParam) : option MpFssParam :=
  l ← for_up (Z.to_nat (noise_num_ p - 1)) 0 (reduce_index (sp_vole_size_ p)) rand;
  l' ← reduce_index (last_sp_vole_size_ p) (noise_num_ p - 1) l;
  Some (set_indexes l' p).

Definition copy_index (indexes : list Z) (size i : Z) (l : list Z) : option (list Z) :=
  x ← vget indexes i; vset l i (x mod size).

Definition SetIndexes (indexes : list Z) (p : MpFssParam) : res MpFssParam :=
  OtStore.enforce (noise_num_ p <=? vsize indexes);;
  access (
    l ← for_up (Z.to_nat (noise_num_ p - 1)) 0 (copy_index indexes (sp_vole_size_ p)) (indexes_ p);
    l' ← reduce_index (last_sp_vole_size_ p) (noise_num_ p - 1) l;
    Some (set_indexes l' p)).

(** The bits of one index, least significant first: [mask] runs from 1 to
    [2 ^ (length - 1)]. *)
Definition set_choice_bit (index pos mask_log : Z) (choices : dynamic_bitset) : option dynamic_bitset :=
  Bitset.set_pos 128 choices (pos + mask_log) (negb (Z.land index (2 ^ mask_log) =? 0)).

Definition set_index_bits (p : MpFssParam) (sp_vole_length last_length i : Z) (st : dynamic_bitset * Z)
  : option (dynamic_bitset * Z) :=
  let '(choices, pos) := st in
  let this_length := if i =? noise_num_ p - 1 then last_length else sp_vole_length in
  assert! (this_length <? 32);
  index ← vget (indexes_ p) i;
  choices' ← for_up (Z.to_nat this_length) 0 (set_choice_bit index pos) choices;
  Some (choices', pos + this_length).

Definition GenChoices (p : MpFssParam) : res dynamic_bitset :=
  OtStore.enforce (vsize (indexes_ p) =? noise_num_ p);;
  choices ← access (Bitset.ctor_value 128 (require_ot_num_ p) 0);
  sp_vole_length ← Log2Ceil (sp_vole_size_ p);
  last_length ← Log2Ceil (last_sp_vole_size_ p);
  access ('(choices', _) ← for_up (Z.to_nat (noise_num_ p)) 0 (set_index_bits p sp_vole_length last_length) (choices, 0);
          Some choices').

(** *** Operations on words *)

Record MpfssOp := mk_op { op_add : Z -> Z -> Z; op_sub : Z -> Z -> Z }.

(** The default: exclusive or. *)
Definition default_op : MpfssOp := mk_op Z.lxor Z.lxor.

(** [std::reduce], from left to right. *)
Definition reduce (op : MpfssOp) (init : Z) (l : list Z) : Z := foldl (op_add op) init l.

(** *** Spans *)

(** [span.subspan(pos, len)], which throws when it starts past the end. *)
Definition subspan (l : list Z) (pos len : Z) : res (list Z) :=
  OtStore.enforce (pos <=? vsize l);;
  Val (take (Z.to_nat len) (drop (Z.to_nat pos) l)).

(** The [len] elements at a pointer. *)
Definition read_span (l : list Z) (pos len : Z) : option (list Z) :=
  assert! (0 <=? pos) && (0 <=? len) && (pos + len <=? vsize l);
  Some (take (Z.to_nat len) (drop (Z.to_nat pos) l)).

(** Writing [src] through a span or a pointer at [pos]. *)
Definition write_span (l : list Z) (pos : Z) (src : list Z) : option (list Z) :=
  assert! (0 <=? pos) && (pos + vsize src <=? vsize l);
  Some (take (Z.to_nat pos) l ++ src ++ drop (Z.to_nat (pos + vsize src)) l).

Section Mpfss.
Context (rp : Z -> Z) (fresh : Z -> list Z) (h : heap) (p : MpFssParam) (op : MpfssOp).

(** [std::transform] of zeros and [w] with [op.sub]. *)
Definition negated (w : list Z) : list Z := op_sub op 0 <$> take (Z.to_nat (noise_num_ p)) w.

(** [sums[i] = std::reduce(vals.begin(), vals.end(), sums[i], op.add)]. *)
Definition add_sum (i : Z) (vals sums : list Z) : option (list Z) :=
  m ← vget sums i; vset sums i (reduce op m vals).

(** [output[i * batch_size + indexes[i]] += recv_msgs[i] - dpf_sum[i]]. *)
Definition correct_index (indexes recv_msgs dpf_sum : list Z) (i : Z) (output : list Z) : option (list Z) :=
  m ← vget recv_msgs i;
  d ← vget dpf_sum i;
  index ← vget indexes i;
  let at_ := u64 (u64 (i * sp_vole_size_ p) + index) in
  x ← vget output at_;
  vset output at_ (op_add op x (op_sub op m d)).

(** *** The indexes of the parameters *)

Definition this_size (i : Z) : Z := if i =? noise_num_ p - 1 then last_sp_vole_size_ p else sp_vole_size_ p.

(** The bounds of the slice of the transfers for interval [i]. *)
Definition slice_bounds (i : Z) : res (Z * Z) :=
  len ← Log2Ceil (sp_vole_size_ p);
  this ← Log2Ceil (this_size i);
  Val (u64 (i * len), u64 (u64 (i * len) + this)).

Definition send_tree (send_ot : OtSendStore) (seeds : Z -> Z) (i : Z) (this_span : list Z) : LinkM (list Z) :=
  bounds ← lift (slice_bounds i);
  ot_slice ← lift (OtSend.Slice h send_ot (fst bounds) (snd bounds));
  GywzOtExtSend rp fresh h ot_slice (this_size i mod 2 ^ 32) (seeds i) this_span.

Definition recv_tree (recv_ot : OtRecvStore) (i : Z) (this_span : list Z) : LinkM (list Z) :=
  bounds ← lift (slice_bounds i);
  ot_slice ← lift (OtRecv.Slice h recv_ot (fst bounds) (snd bounds));
  index ← lift (access (vget (indexes_ p) i));
  GywzOtExtRecv rp h ot_slice (this_size i mod 2 ^ 32) index this_span.

(** 128-bit words: the trees grow in the output, which holds their hashes. *)
Definition interval_128 (tree : Z -> list Z -> LinkM (list Z)) (i : Z) (st : list Z * list Z)
  : LinkM (list Z * list Z) :=
  let '(output, sums) := st in
  this_span ← lift (subspan output (u64 (i * sp_vole_size_ p)) (this_size i));
  leaves ← tree i this_span;
  let hashed := ParaCrHashInplace_128 rp leaves in
  lift (access (
    output' ← write_span output (u64 (i * sp_vole_size_ p)) hashed;
    sums' ← add_sum i hashed sums;
    Some (output', sums'))).

Definition MpfssSend_128 (send_ot : OtSendStore) (seeds : Z -> Z) (w output : list Z) : LinkM (list Z) :=
  _ ← enforce (bool_decide (assumption_ p = RegularNoise));
  _ ← enforce (mp_vole_size_ p <=? vsize output);
  _ ← enforce (noise_num_ p <=? vsize w);
  _ ← enforce (require_ot_num_ p <=? OtSend.Size send_ot);
  st ← for_prog (Z.to_nat (noise_num_ p)) 0 (interval_128 (send_tree send_ot seeds)) (output, negated w);
  c ← the_ctx;
  _ ← SendAsync (NextRank c 1) (array_bytes 16 (snd st));
  mret (fst st).

Definition MpfssRecv_128 (recv_ot : OtRecvStore) (output : list Z) : LinkM (list Z) :=
  _ ← enforce (bool_decide (assumption_ p = RegularNoise));
  _ ← enforce (mp_vole_size_ p <=? vsize output);
  _ ← enforce (require_ot_num_ p <=? OtRecv.Size recv_ot);
  st ← for_prog (Z.to_nat (noise_num_ p)) 0 (interval_128 (recv_tree recv_ot))
         (output, replicate (Z.to_nat (noise_num_ p)) 0);
  c ← the_ctx;
  recv_buff ← Recv (NextRank c 1);
  _ ← enforce (u64 (noise_num_ p * 16) <=? vsize recv_buff);
  recv_msgs ← lift (access (read_array 16 (noise_num_ p) recv_buff));
  lift (access (for_up (Z.to_nat (noise_num_ p)) 0 (correct_index (indexes_ p) recv_msgs (snd st)) (fst st))).

(** 64-bit words: the trees grow in a buffer, the output holds the low halves of
    their hashes. *)
Definition interval_64 (tree : Z -> list Z -> LinkM (list Z)) (i : Z) (st : list Z * list Z * list Z)
  : LinkM (list Z * list Z * list Z) :=
  let '(dpf_span, output, sums) := st in
  this_span ← lift (subspan dpf_span 0 (this_size i));
  leaves ← tree i this_span;
  let hashed := ParaCrHashInplace_128 rp leaves in
  lift (access (
    dpf_span' ← write_span dpf_span 0 hashed;
    output' ← write_span output (u64 (i * sp_vole_size_ p)) (u64 <$> hashed);
    vals ← read_span output' (u64 (i * sp_vole_size_ p)) (this_size i);
    sums' ← add_sum i vals sums;
    Some (dpf_span', output', sums'))).

Definition dpf_buff : list Z := fresh (Z.max (sp_vole_size_ p) (last_sp_vole_size_ p)).

Definition MpfssSend_64 (send_ot : OtSendStore) (seeds : Z -> Z) (w output : list Z) : LinkM (list Z) :=
  _ ← enforce (bool_decide (assumption_ p = RegularNoise));
  _ ← enforce (mp_vole_size_ p <=? vsize output);
  _ ← enforce (noise_num_ p <=? vsize w);
  _ ← enforce (require_ot_num_ p <=? OtSend.Size send_ot);
  st ← for_prog (Z.to_nat (noise_num_ p)) 0 (interval_64 (send_tree send_ot seeds)) (dpf_buff, output, negated w);
  c ← the_ctx;
  _ ← SendAsync (NextRank c 1) (array_bytes 8 (snd st));
  mret (snd (fst st)).

Definition MpfssRecv_64 (recv_ot : OtRecvStore) (output : list Z) : LinkM (list Z) :=
  _ ← enforce (bool_decide (assumption_ p = RegularNoise));
  _ ← enforce (mp_vole_size_ p <=? vsize output);
  _ ← enforce (require_ot_num_ p <=? OtRecv.Size recv_ot);
  st ← for_prog (Z.to_nat (noise_num_ p)) 0 (interval_64 (recv_tree recv_ot))
         (dpf_buff, output, replicate (Z.to_nat (noise_num_ p)) 0);
  c ← the_ctx;
  recv_buff ← Recv (NextRank c 1);
  _ ← enforce (u64 (noise_num_ p * 8) <=? vsize recv_buff);
  recv_msgs ← lift (access (read_array 8 (noise_num_ p) recv_buff));
  lift (access (for_up (Z.to_nat (noise_num_ p)) 0 (correct_index (indexes_ p) recv_msgs (snd st)) (snd (fst st)))).
End Mpfss.

Definition kSuperBatch : Z := 16.

Section Fixed.
Context (rp : Z -> Z) (fresh : Z -> list Z) (h : heap) (p : MpFssParam) (op : MpfssOp).
Local Abbreviation batch_num := (noise_num_ p).
Local Abbreviation batch_size := (sp_vole_size_ p).
Local Abbreviation last_batch_size := (last_sp_vole_size_ p).

(** *** Batches of intervals *)

Definition super_batch_num : Z := DivCeil batch_num kSuperBatch.

(** The intervals of super batch [s]. *)
Definition bound (s : Z) : Z := Z.min kSuperBatch (u32 (u64 (batch_num - u32 (s * kSuperBatch)))).

Definition is_last (s i : Z) : bool := (s =? super_batch_num - 1) && (i =? bound s - 1).

Definition batch_idx (s i : Z) : Z := u32 (u32 (s * kSuperBatch) + i).

Section Lengths.
Context (batch_length last_batch_length : Z).

Definition size_at (s i : Z) : Z := if is_last s i then last_batch_size else batch_size.
Definition length_at (s i : Z) : Z := if is_last s i then last_batch_length else batch_length.

(** The words of the message of super batch [s]. *)
Definition msg_length (s : Z) : Z :=
  if s =? super_batch_num - 1 then u64 (u64 ((bound s - 1) * batch_length) + last_batch_length)
  else u64 (kSuperBatch * batch_length).

(** The bounds of the slice of the transfers. *)
Definition fixed_begin (s i : Z) : Z := u64 (batch_idx s i * batch_length).
Definition fixed_end (s i : Z) : Z := u64 (fixed_begin s i + length_at s i).

(** [1 << this_length], an [int]. *)
Definition full_size (s i : Z) : option Z := assert! (length_at s i <? 31); Some (2 ^ length_at s i).

(** *** The sender *)

Definition send_fixed_tree (send_ot : OtSendStore) (seeds : Z -> Z) (s i n : Z) (this_span gywz_send_msgs : list Z)
  : res (list Z * list Z) :=
  ot_slice ← OtSend.Slice h send_ot (fixed_begin s i) (fixed_end s i);
  send_span ← access (read_span gywz_send_msgs (i * batch_length) (length_at s i));
  '(leaves, sent) ← gywz_send_fixed rp h ot_slice (u32 n) (seeds (batch_idx s i)) this_span send_span;
  gywz_send_msgs' ← access (write_span gywz_send_msgs (i * batch_length) sent);
  Val (leaves, gywz_send_msgs').

Definition send_fixed_128 (send_ot : OtSendStore) (seeds : Z -> Z) (s i : Z) (st : list Z * list Z * list Z)
  : res (list Z * list Z * list Z) :=
  let '(gywz_send_msgs, output, dpf_sum) := st in
  this_span ← subspan output (u64 (batch_idx s i * batch_size)) (size_at s i);
  '(leaves, gywz_send_msgs') ← send_fixed_tree send_ot seeds s i (size_at s i) this_span gywz_send_msgs;
  let hashed := ParaCrHashInplace_128 rp leaves in
  access (
    output' ← write_span output (u64 (batch_idx s i * batch_size)) hashed;
    dpf_sum' ← add_sum op (batch_idx s i) hashed dpf_sum;
    Some (gywz_send_msgs', output', dpf_sum')).

(** The tree fills the buffer, whose first [this_size] blocks are hashed. *)
Definition hash_low (n : Z) (this_span : list Z) : res (list Z) :=
  part ← subspan this_span 0 n;
  access (write_span this_span 0 (ParaCrHashInplace_128 rp part)).

Definition store_low (s i : Z) (this_span output dpf_sum : list Z) : option (list Z * list Z) :=
  low ← read_span this_span 0 (size_at s i);
  output' ← write_span output (u64 (batch_idx s i * batch_size)) (u64 <$> low);
  vals ← read_span output' (u64 (batch_idx s i * batch_size)) (size_at s i);
  dpf_sum' ← add_sum op (batch_idx s i) vals dpf_sum;
  Some (output', dpf_sum').

Definition send_fixed_64 (send_ot : OtSendStore) (seeds : Z -> Z) (s i : Z) (st : list Z * list Z * list Z * list Z)
  : res (list Z * list Z * list Z * list Z) :=
  let '(gywz_send_msgs, dpf_span, output, dpf_sum) := st in
  full ← access (full_size s i);
  this_span ← subspan dpf_span 0 full;
  '(leaves, gywz_send_msgs') ← send_fixed_tree send_ot seeds s i full this_span gywz_send_msgs;
  hashed ← hash_low (size_at s i) leaves;
  access (
    dpf_span' ← write_span dpf_span 0 hashed;
    '(output', dpf_sum') ← store_low s i hashed output dpf_sum;
    Some (gywz_send_msgs', dpf_span', output', dpf_sum')).

(** The loop over a super batch and its message; [msgs] is the message buffer. *)
Definition send_super {St : Type} (body : Z -> Z -> St -> res St) (msgs : St -> list Z) (s : Z) (st : St) : LinkM St :=
  st' ← lift (for_res (Z.to_nat (bound s)) 0 (body s) st);
  msg ← lift (access (read_span (msgs st') 0 (msg_length s)));
  c ← the_ctx;
  _ ← SendAsync (NextRank c 1) (array_bytes 16 msg);
  mret st'.

(** *** The receiver *)

Definition recv_fixed_tree (recv_ot : OtRecvStore) (s i n : Z) (this_span gywz_recv_msgs indexes : list Z)
  : res (list Z * list Z) :=
  ot_slice ← OtRecv.Slice h recv_ot (fixed_begin s i) (fixed_end s i);
  recv_span ← access (read_span gywz_recv_msgs (i * batch_length) (length_at s i));
  real_index ← choices_index h ot_slice (length_at s i);
  index ← access (vget indexes (batch_idx s i));
  indexes' ← (if index =? u32 real_index then Val indexes
              else access (vset indexes (batch_idx s i) (u32 real_index)));
  leaves ← gywz_recv_fixed rp h ot_slice (u32 n) this_span recv_span;
  Val (leaves, indexes').

Definition recv_fixed_128 (recv_ot : OtRecvStore) (gywz_recv_msgs : list Z) (s i : Z) (st : list Z * list Z * list Z)
  : res (list Z * list Z * list Z) :=
  let '(indexes, output, dpf_sum) := st in
  this_span ← subspan output (u64 (batch_idx s i * batch_size)) (size_at s i);
  '(leaves, indexes') ← recv_fixed_tree recv_ot s i (size_at s i) this_span gywz_recv_msgs indexes;
  let hashed := ParaCrHashInplace_128 rp leaves in
  access (
    output' ← write_span output (u64 (batch_idx s i * batch_size)) hashed;
    dpf_sum' ← add_sum op (batch_idx s i) hashed dpf_sum;
    Some (indexes', output', dpf_sum')).

Definition recv_fixed_64 (recv_ot : OtRecvStore) (gywz_recv_msgs : list Z) (s i : Z)
    (st : list Z * list Z * list Z * list Z) : res (list Z * list Z * list Z * list Z) :=
  let '(indexes, dpf_span, output, dpf_sum) := st in
  full ← access (full_size s i);
  this_span ← subspan dpf_span 0 full;
  '(leaves, indexes') ← recv_fixed_tree recv_ot s i full this_span gywz_recv_msgs indexes;
  hashed ← hash_low (size_at s i) leaves;
  access (
    dpf_span' ← write_span dpf_span 0 hashed;
    '(output', dpf_sum') ← store_low s i hashed output dpf_sum;
    Some (indexes', dpf_span', output', dpf_sum')).

Definition recv_super {St : Type} (body : list Z -> Z -> Z -> St -> res St) (s : Z) (st : St) : LinkM St :=
  c ← the_ctx;
  gywz_recv_buf ← Recv (NextRank c 1);
  _ ← enforce (vsize gywz_recv_buf =? msg_length s * 16);
  gywz_recv_msgs ← lift (access (read_array 16 (msg_length s) gywz_recv_buf));
  lift (for_res (Z.to_nat (bound s)) 0 (body gywz_recv_msgs s) st).

Definition full_buffer : option (list Z) :=
  let len := Z.max batch_length last_batch_length in
  assert! (len <? 31); Some (fresh (2 ^ len)).

Definition gywz_send_buffer : list Z := fresh (u64 (batch_length * (kSuperBatch - 1) + last_batch_length)).
End Lengths.

(** *** The protocols *)

Definition MpfssSend_fixed_index_128 (send_ot : OtSendStore) (seeds : Z -> Z) (w output : list Z) : LinkM (list Z) :=
  _ ← enforce (bool_decide (assumption_ p = RegularNoise));
  _ ← enforce (mp_vole_size_ p <=? vsize output);
  _ ← enforce (noise_num_ p <=? vsize w);
  _ ← enforce (require_ot_num_ p <=? OtSend.Size send_ot);
  batch_length ← lift (Log2Ceil batch_size);
  last_batch_length ← lift (Log2Ceil last_batch_size);
  st ← for_prog (Z.to_nat super_batch_num) 0
    (send_super batch_length last_batch_length (send_fixed_128 batch_length last_batch_length send_ot seeds) (fun st => fst (fst st)))
    (gywz_send_buffer batch_length last_batch_length, output, negated p op w);
  c ← the_ctx;
  _ ← SendAsync (NextRank c 1) (array_bytes 16 (snd st));
  mret (snd (fst st)).

(** Returns the parameters with the indexes of the choices, too. *)
Definition MpfssRecv_fixed_index_128 (recv_ot : OtRecvStore) (output : list Z) : LinkM (list Z * MpFssParam) :=
  _ ← enforce (bool_decide (assumption_ p = RegularNoise));
  _ ← enforce (mp_vole_size_ p <=? vsize output);
  _ ← enforce (require_ot_num_ p <=? OtRecv.Size recv_ot);
  batch_length ← lift (Log2Ceil batch_size);
  last_batch_length ← lift (Log2Ceil last_batch_size);
  st ← for_prog (Z.to_nat super_batch_num) 0
    (recv_super batch_length last_batch_length (recv_fixed_128 batch_length last_batch_length recv_ot))
    (indexes_ p, output, replicate (Z.to_nat batch_num) 0);
  c ← the_ctx;
  recv_buff ← Recv (NextRank c 1);
  _ ← enforce (vsize recv_buff =? u64 (batch_num * 16));
  recv_msgs ← lift (access (read_array 16 batch_num recv_buff));
  output' ← lift (access (for_up (Z.to_nat batch_num) 0 (correct_index p op (fst (fst st)) recv_msgs (snd st)) (snd (fst st))));
  mret (output', set_indexes (fst (fst st)) p).

Definition MpfssSend_fixed_index_64 (send_ot : OtSendStore) (seeds : Z -> Z) (w output : list Z) : LinkM (list Z) :=
  _ ← enforce (bool_decide (assumption_ p = RegularNoise));
  _ ← enforce (mp_vole_size_ p <=? vsize output);
  _ ← enforce (noise_num_ p <=? vsize w);
  _ ← enforce (require_ot_num_ p <=? OtSend.Size send_ot);
  batch_length ← lift (Log2Ceil batch_size);
  last_batch_length ← lift (Log2Ceil last_batch_size);
  dpf_span ← lift (access (full_buffer batch_length last_batch_length));
  st ← for_prog (Z.to_nat super_batch_num) 0
    (send_super batch_length last_batch_length (send_fixed_64 batch_length last_batch_length send_ot seeds) (fun st => fst (fst (fst st))))
    (gywz_send_buffer batch_length last_batch_length, dpf_span, output, negated p op w);
  c ← the_ctx;
  _ ← SendAsync (NextRank c 1) (array_bytes 8 (snd st));
  mret (snd (fst st)).

Definition MpfssRecv_fixed_index_64 (recv_ot : OtRecvStore) (output : list Z) : LinkM (list Z * MpFssParam) :=
  _ ← enforce (bool_decide (assumption_ p = RegularNoise));
  _ ← enforce (mp_vole_size_ p <=? vsize output);
  _ ← enforce (require_ot_num_ p <=? OtRecv.Size recv_ot);
  batch_length ← lift (Log2Ceil batch_size);
  last_batch_length ← lift (Log2Ceil last_batch_size);
  dpf_span ← lift (access (full_buffer batch_length last_batch_length));
  st ← for_prog (Z.to_nat super_batch_num) 0
    (recv_super batch_length last_batch_length (recv_fixed_64 batch_length last_batch_length recv_ot))
    (indexes_ p, dpf_span, output, replicate (Z.to_nat batch_num) 0);
  c ← the_ctx;
  recv_buff ← Recv (NextRank c 1);
  _ ← enforce (vsize recv_buff =? u64 (batch_num * 8));
  recv_msgs ← lift (access (read_array 8 batch_num recv_buff));
  output' ← lift (access (for_up (Z.to_nat batch_num) 0
    (correct_index p op (fst (fst (fst st))) recv_msgs (snd st)) (snd (fst st))));
  mret (output', set_indexes (fst (fst (fst st))) p).
End Fixed.
