(* ===== verification/MpfssFacts.v ===== *)
(** What the parties of a multi-point function secret sharing compute on their
    own: sums in the group of the words, the intervals of the output as they are
    filled, and the correction at the indexes. *)

From Stdlib Require Import ZArith Lia ZifyBool Bool.
From stdpp Require Import base numbers list option gmap.
From S2P Require Import Prelude BitBlock BitSet BitSetFacts BitSetOps BitSetGrow BitSetString OtStore OtStoreFacts OtStoreTheorems CrHash TwoParty.
From S2P Require Import TwoParty Sgrr SgrrFacts SgrrTheorems GywzFacts Mpfss.

Local Open Scope Z_scope.

(** *** Groups of words *)

(** The operations of the caller make the [w]-bit words a group. *)
Class WordGroup (w : Z) (op : MpfssOp) : Prop := {
  add_range x y : 0 <= x < 2 ^ w -> 0 <= y < 2 ^ w -> 0 <= op_add op x y < 2 ^ w;
  sub_range x y : 0 <= x < 2 ^ w -> 0 <= y < 2 ^ w -> 0 <= op_sub op x y < 2 ^ w;
  add_assoc x y z : 0 <= x < 2 ^ w -> 0 <= y < 2 ^ w -> 0 <= z < 2 ^ w ->
    op_add op x (op_add op y z) = op_add op (op_add op x y) z;
  add_comm x y : 0 <= x < 2 ^ w -> 0 <= y < 2 ^ w -> op_add op x y = op_add op y x;
  add_zero x : 0 <= x < 2 ^ w -> op_add op x 0 = x;
  sub_add x y : 0 <= x < 2 ^ w -> 0 <= y < 2 ^ w -> op_add op (op_sub op x y) y = x
}.

(** The default operations, and the ring of the words. *)
#[export] Instance xor_group w : 0 <= w -> WordGroup w default_op.
Proof.
  intros Hw. assert (R : forall x y, 0 <= x < 2 ^ w -> 0 <= y < 2 ^ w -> 0 <= Z.lxor x y < 2 ^ w).
  { intros x y Hx Hy. split; [apply Z.lxor_nonneg; lia|]. apply bits_bound; [lia|apply Z.lxor_nonneg; lia|].
    intros j Hj. by rewrite Z.lxor_spec, (testbit_high w x), (testbit_high w y) by lia. }
  split; cbn [default_op op_add op_sub]; intros; try by apply R.
  - by rewrite Z.lxor_assoc.
  - apply Z.lxor_comm.
  - apply Z.lxor_0_r.
  - by rewrite Z.lxor_assoc, Z.lxor_nilpotent, Z.lxor_0_r.
Qed.

Definition ring_op (w : Z) : MpfssOp := mk_op (fun x y => (x + y) mod 2 ^ w) (fun x y => (x - y) mod 2 ^ w).

#[export] Instance ring_group w : 0 <= w -> WordGroup w (ring_op w).
Proof.
  intros Hw. assert (0 < 2 ^ w) by (apply Z.pow_pos_nonneg; lia).
  split; cbn [ring_op op_add op_sub]; intros; try (apply Z.mod_pos_bound; lia).
  - by rewrite Zplus_mod_idemp_l, Zplus_mod_idemp_r, Z.add_assoc.
  - by rewrite Z.add_comm.
  - rewrite Z.add_0_r. by apply Z.mod_small.
  - rewrite Zplus_mod_idemp_l, Z.sub_add. by apply Z.mod_small.
Qed.

Section Group.
Context (w : Z) (op : MpfssOp) `{!WordGroup w op}.
Hypothesis Hw : 0 <= w.
Local Abbreviation word x := (0 <= x < 2 ^ w) (only parsing).
Local Notation "x ⊞ y" := (op_add op x y) (at level 50, left associativity).

Local Ltac words := repeat first [assumption | apply add_range | apply sub_range | by split].

Lemma word_zero : word 0.
Proof. pose proof (Z.pow_pos_nonneg 2 w). lia. Qed.

Lemma add_swap x y z : word x -> word y -> word z -> x ⊞ y ⊞ z = x ⊞ z ⊞ y.
Proof.
  intros Hx Hy Hz. rewrite <- (add_assoc x y z), <- (add_assoc x z y) by done. by rewrite (add_comm y z).
Qed.

Lemma add_cancel x y z : word x -> word y -> word z -> x ⊞ z = y ⊞ z -> x = y.
Proof.
  intros Hx Hy Hz E. pose proof word_zero as H0. assert (Hn : word (op_sub op 0 z)) by (by apply sub_range).
  assert (Hi : forall u, word u -> u ⊞ z ⊞ op_sub op 0 z = u).
  { intros u Hu. rewrite <- add_assoc by done. rewrite (add_comm z), sub_add by done. by apply add_zero. }
  rewrite <- (Hi x Hx), <- (Hi y Hy). by rewrite E.
Qed.

Lemma reduce_range l x : word x -> Forall (fun y => word y) l -> word (reduce op x l).
Proof.
  intros Hx Hl. revert x Hx. induction Hl as [|y l Hy Hl IH]; intros x Hx; [done|]. apply IH. by apply add_range.
Qed.

Lemma reduce_add l x y : word x -> word y -> Forall (fun z => word z) l -> reduce op (x ⊞ y) l = reduce op x l ⊞ y.
Proof.
  intros Hx Hy Hl. revert x Hx. induction Hl as [|z l Hz Hl IH]; intros x Hx; [done|]. cbn [reduce foldl].
  change (reduce op (x ⊞ y ⊞ z) l = reduce op (x ⊞ z) l ⊞ y). rewrite <- IH by (by apply add_range).
  by rewrite add_swap.
Qed.

(** The sum of a list with [x] in the middle. *)
Lemma reduce_middle l1 x l2 y : word x -> word y -> Forall (fun z => word z) l1 -> Forall (fun z => word z) l2 ->
  reduce op y (l1 ++ x :: l2) = reduce op y (l1 ++ l2) ⊞ x.
Proof.
  intros Hx Hy H1 H2. unfold reduce. rewrite !foldl_app. cbn [foldl].
  exact (reduce_add l2 _ x (reduce_range l1 y Hy H1) Hx H2).
Qed.

(** What the receiver adds at its index is what the sender's block is short of. *)
Lemma correction (l1 l2 : list Z) xs xr v : word xs -> word xr -> word v ->
  Forall (fun z => word z) l1 -> Forall (fun z => word z) l2 ->
  let m := reduce op (op_sub op 0 v) (l1 ++ xs :: l2) in
  let d := reduce op 0 (l1 ++ xr :: l2) in
  xr ⊞ op_sub op m d ⊞ v = xs.
Proof.
  intros Hs Hr Hv H1 H2 m d. pose proof word_zero as H0.
  assert (H12 : Forall (fun z => word z) (l1 ++ l2)) by (by apply Forall_app).
  assert (Hn : word (op_sub op 0 v)) by (by apply sub_range).
  set (T := reduce op 0 (l1 ++ l2)). assert (HT : word T) by (by apply reduce_range).
  assert (Em : m = op_sub op 0 v ⊞ T ⊞ xs).
  { unfold m, T. rewrite reduce_middle by done. f_equal. rewrite (add_comm (op_sub op 0 v)) by done.
    rewrite <- reduce_add by done. by rewrite (add_comm 0), add_zero by done. }
  assert (Ed : d = T ⊞ xr) by (by apply reduce_middle).
  assert (Hm : word m) by (rewrite Em; words).
  assert (Hd : word d) by (rewrite Ed; by apply add_range).
  assert (He : word (op_sub op m d)) by (by apply sub_range).
  pose proof (sub_add m d Hm Hd) as Ee. set (e := op_sub op m d) in *. clearbody e m d. subst d.
  apply (add_cancel _ _ T); [words|words|words|].
  transitivity (e ⊞ (T ⊞ xr) ⊞ v).
  - rewrite (add_comm xr), (add_assoc e T xr) by words.
    rewrite (add_swap _ v T), (add_swap _ xr T) by words. done.
  - rewrite Ee, Em by words. rewrite (add_swap _ xs v), (add_swap _ T v), sub_add by words.
    rewrite (add_comm 0), add_zero by words. by apply add_comm.
Qed.
End Group.

(** *** Parameters *)

Record param_ok (p : MpFssParam) : Prop := {
  ok_assumption : assumption_ p = RegularNoise;
  ok_num : 0 < noise_num_ p < 2 ^ 31;
  ok_size : 1 < sp_vole_size_ p;
  ok_last : sp_vole_size_ p <= last_sp_vole_size_ p <= 2 ^ 31;
  ok_total : mp_vole_size_ p = (noise_num_ p - 1) * sp_vole_size_ p + last_sp_vole_size_ p;
  ok_ots : require_ot_num_ p = (noise_num_ p - 1) * depth (sp_vole_size_ p) + depth (last_sp_vole_size_ p)
}.

Lemma depth_mono m n : 1 < m <= n -> depth m <= depth n.
Proof. intros H. unfold depth. pose proof (Z.log2_le_mono (m - 1) (n - 1) ltac:(lia)). lia. Qed.

(** The constructor makes parameters whose intervals cover the output. *)
Lemma new_param_ok noise_num mp_vole_size mal :
  0 < noise_num < 2 ^ 31 -> 1 < mp_vole_size / noise_num -> 0 <= mp_vole_size ->
  mp_vole_size - (noise_num - 1) * (mp_vole_size / noise_num) <= 2 ^ 31 ->
  exists p, new_MpFssParam noise_num mp_vole_size RegularNoise mal = Val p /\ param_ok p /\
    noise_num_ p = noise_num /\ mp_vole_size_ p = mp_vole_size /\ sp_vole_size_ p = mp_vole_size / noise_num /\
    base_vole_num_ p = noise_num + Z.b2z mal /\ indexes_ p = [] /\ is_mal_ p = mal.
Proof.
  intros Hn Hs Hm Hl. set (sp := mp_vole_size / noise_num) in *.
  assert (Hsp : noise_num * sp <= mp_vole_size) by (apply Z.mul_div_le; lia).
  set (last := mp_vole_size - (noise_num - 1) * sp) in *.
  assert (Hlast : sp <= last) by lia.
  pose proof (Z.mul_le_mono_nonneg (noise_num - 1) (2 ^ 31 - 2) sp (2 ^ 31) ltac:(lia) ltac:(lia) ltac:(lia) ltac:(lia)) as Hb.
  assert (0 <= (noise_num - 1) * sp) by (apply Z.mul_nonneg_nonneg; lia).
  unfold new_MpFssParam. fold sp. replace (0 <? noise_num) with true by lia. replace (1 <? sp) with true by lia.
  rewrite bool_decide_eq_true_2 by done. cbn [OtStore.enforce mbind res_bind].
  rewrite (u64_small (noise_num - 1)), (u64_small ((noise_num - 1) * sp)) by lia. fold last. rewrite (u64_small last) by lia.
  destruct (depth_height sp ltac:(lia)) as [(_ & D1 & _) ->]. destruct (depth_height last ltac:(lia)) as [(_ & D2 & _) ->].
  cbn [mbind res_bind].
  pose proof (Z.mul_le_mono_nonneg (depth sp) 31 (noise_num - 1) (2 ^ 31) ltac:(lia) ltac:(lia) ltac:(lia) ltac:(lia)) as Hd.
  assert (0 <= depth sp * (noise_num - 1)) by (apply Z.mul_nonneg_nonneg; lia).
  rewrite (u64_small (depth sp * _)), (u64_small (_ + depth last)) by lia.
  eexists. split; [done|]. split.
  { split; cbn [assumption_ noise_num_ sp_vole_size_ last_sp_vole_size_ mp_vole_size_ require_ot_num_]; done || lia. }
  cbn. repeat (split; [done|]). split; [|done].
  destruct mal; cbn; [rewrite u64_small by lia|]; lia.
Qed.

Section Intervals.
Context (p : MpFssParam) (op : MpfssOp).
Hypothesis Hp : param_ok p.
Local Abbreviation N := (noise_num_ p).
Local Abbreviation sp := (sp_vole_size_ p).
Local Abbreviation size := (this_size p).

Lemma size_bounds i : sp <= size i <= 2 ^ 31.
Proof. destruct Hp. unfold this_size. destruct (i =? _); lia. Qed.

Lemma offset_u64 i : 0 <= i < N -> u64 (i * sp) = i * sp.
Proof.
  intros Hi. destruct Hp.
  pose proof (Z.mul_le_mono_nonneg i (2 ^ 31) sp (2 ^ 31) ltac:(lia) ltac:(lia) ltac:(lia) ltac:(lia)).
  apply u64_small. split; [apply Z.mul_nonneg_nonneg|]; lia.
Qed.

(** Interval [i] ends where the next one starts, the last one with the output. *)
Lemma interval_end i : 0 <= i < N -> i * sp + size i = if i =? N - 1 then mp_vole_size_ p else (i + 1) * sp.
Proof. intros Hi. destruct Hp. unfold this_size. destruct (Z.eqb_spec i (N - 1)); subst; lia. Qed.

Lemma interval_fits i : 0 <= i < N -> i * sp + size i <= mp_vole_size_ p.
Proof.
  intros Hi. rewrite interval_end by done. destruct Hp. destruct (Z.eqb_spec i (N - 1)); [lia|]. nia.
Qed.

Lemma intervals_apart i i' : 0 <= i < i' -> i' < N -> i * sp + size i <= i' * sp.
Proof. intros Hi Hi'. rewrite interval_end by lia. replace (i =? N - 1) with false by lia. destruct Hp. nia. Qed.

(** Where the first [k] intervals end. *)
Definition filled (k : Z) : Z := if k =? N then mp_vole_size_ p else k * sp.

(** The output and the sums when the intervals before [k] hold [val]. *)
Record progress (val : Z -> Z -> Z) (init : Z -> Z) (out0 : list Z) (k : Z) (out sums : list Z) : Prop := {
  pr_size : vsize out = vsize out0;
  pr_vals i j : 0 <= i < k -> 0 <= j < size i -> blk out (i * sp + j) = val i j;
  pr_rest q : filled k <= q -> blk out q = blk out0 q;
  pr_sums : vsize sums = N;
  pr_sum i : 0 <= i < N -> blk sums i = if i <? k then reduce op (init i) (val i <$> seqZ 0 (size i)) else init i
}.

Lemma progress_start val init out0 sums : vsize sums = N -> holds sums N init -> progress val init out0 0 out0 sums.
Proof.
  intros Hs Hi. split; try done; [lia|]. intros i Hi'. replace (i <? 0) with false by lia. by apply Hi.
Qed.

Lemma blk_write l pos src l' j : write_span l pos src = Some l' ->
  0 <= pos /\ pos + vsize src <= vsize l /\ vsize l' = vsize l /\
  blk l' j = if (pos <=? j) && (j <? pos + vsize src) then blk src (j - pos) else blk l j.
Proof.
  unfold write_span. destruct ((0 <=? pos) && _) eqn:E; [|done]. intros [= <-].
  assert (Hpos : 0 <= pos) by lia. assert (Hle : pos + vsize src <= vsize l) by lia.
  assert (Hsrc : 0 <= vsize src) by (unfold vsize; lia).
  assert (Ht : vsize (take (Z.to_nat pos) l) = pos) by (unfold vsize in *; rewrite length_take; lia).
  split; [done|]. split; [done|]. split.
  { rewrite !vsize_app, Ht. unfold vsize in *. rewrite length_drop. lia. }
  destruct (Z.ltb_spec j 0) as [Hj | Hj].
  { rewrite !blk_outside by lia. by replace (pos <=? j) with false by lia. }
  rewrite blk_app, Ht. destruct (Z.ltb_spec j pos).
  - replace (pos <=? j) with false by lia. cbn. by rewrite blk_take by lia.
  - replace (pos <=? j) with true by lia. cbn [andb]. rewrite blk_app.
    destruct (Z.ltb_spec (j - pos) (vsize src)); destruct (Z.ltb_spec j (pos + vsize src)); try lia; try done.
    unfold blk. f_equal. unfold vget. replace (0 <=? j - pos - vsize src) with true by lia. replace (0 <=? j) with true by lia.
    rewrite lookup_drop. f_equal. lia.
Qed.

Lemma write_ok l pos src : 0 <= pos -> pos + vsize src <= vsize l -> exists l', write_span l pos src = Some l'.
Proof.
  intros H1 H2. unfold write_span. replace ((0 <=? pos) && _) with true by lia. by eexists.
Qed.

Lemma blk_part l pos len j : 0 <= pos -> 0 <= len -> pos + len <= vsize l ->
  vsize (take (Z.to_nat len) (drop (Z.to_nat pos) l)) = len /\
  (0 <= j < len -> blk (take (Z.to_nat len) (drop (Z.to_nat pos) l)) j = blk l (pos + j)).
Proof.
  intros H1 H2 H3. split; [unfold vsize in *; rewrite length_take, length_drop; lia|]. intros Hj.
  rewrite blk_take by lia. unfold blk, vget. replace (0 <=? j) with true by lia. replace (0 <=? pos + j) with true by lia.
  rewrite lookup_drop. do 2 f_equal. lia.
Qed.

Lemma read_back l pos src l' : write_span l pos src = Some l' -> read_span l' pos (vsize src) = Some src.
Proof.
  intros E. destruct (blk_write l pos src l' 0 E) as (H1 & H2 & H3 & _). unfold read_span.
  assert (0 <= vsize src) by (unfold vsize; lia). replace ((0 <=? pos) && _ && _) with true by lia. f_equal.
  apply blk_ext; [apply (blk_part l' pos (vsize src) 0); lia|]. intros j Hj. rewrite (proj1 (blk_part l' pos (vsize src) j H1 ltac:(lia) ltac:(lia))) in Hj.
  rewrite (proj2 (blk_part l' pos (vsize src) j H1 ltac:(lia) ltac:(lia))) by done.
  destruct (blk_write l pos src l' (pos + j) E) as (_ & _ & _ & ->). replace ((pos <=? _) && _) with true by lia. f_equal. lia.
Qed.

Lemma holds_map (l : list Z) n f : vsize l = n -> holds l n f -> l = f <$> seqZ 0 n.
Proof.
  intros Hn Hf. assert (0 <= n) by (unfold vsize in Hn; lia). apply blk_ext; [unfold vsize in *; rewrite length_fmap, length_seqZ; lia|].
  intros j Hj. rewrite blk_map by (unfold vsize; rewrite length_seqZ; unfold vsize in *; lia). rewrite Hf by lia. f_equal.
  unfold blk, vget. replace (0 <=? j) with true by lia. rewrite lookup_seqZ_lt by lia. cbn. lia.
Qed.

(** Interval [k] is written, and its sum taken. *)
Lemma progress_step val init out0 k out sums vals :
  mp_vole_size_ p <= vsize out0 -> 0 <= k < N -> progress val init out0 k out sums ->
  vsize vals = size k -> holds vals (size k) (val k) ->
  exists out' sums', write_span out (k * sp) vals = Some out' /\ read_span out' (k * sp) (size k) = Some vals /\
    add_sum op k vals sums = Some sums' /\ progress val init out0 (k + 1) out' sums'.
Proof.
  intros Ho Hk Hpr Hv Hh. pose proof (interval_fits k Hk) as Hfit. pose proof (size_bounds k) as Hsz. pose proof (ok_size p Hp).
  pose proof Hpr as [P1 P2 P3 P4 P5].
  destruct (write_ok out (k * sp) vals) as [out' E]; [nia|lia|]. exists out', (<[Z.to_nat k := reduce op (init k) (val k <$> seqZ 0 (size k))]> sums).
  split; [done|]. split; [rewrite <- Hv; by eapply read_back|].
  split.
  { unfold add_sum. rewrite vget_blk, P5 by lia. replace (k <? k) with false by lia. cbn [mbind option_bind].
    rewrite vset_Some by lia. by rewrite (holds_map vals (size k) (val k) Hv Hh). }
  split.
  - destruct (blk_write _ _ _ _ 0 E) as (_ & _ & -> & _). done.
  - intros i j Hi Hj. destruct (blk_write _ _ _ _ (i * sp + j) E) as (_ & _ & _ & ->). rewrite Hv.
    destruct (decide (i = k)) as [-> | Hne].
    + replace ((_ <=? _) && _) with true by lia. replace (k * sp + j - k * sp) with j by lia. by apply Hh.
    + pose proof (intervals_apart i k ltac:(lia) ltac:(lia)). replace ((_ <=? _) && _) with false by lia. apply P2; lia.
  - intros q Hq. destruct (blk_write _ _ _ _ q E) as (_ & _ & _ & ->). rewrite Hv.
    pose proof (interval_end k Hk) as He. unfold filled in Hq.
    assert (Hf : k * sp + size k <= q) by (destruct (Z.eqb_spec k (N - 1)); destruct (Z.eqb_spec (k + 1) N); lia).
    replace ((_ <=? _) && _) with false by lia. apply P3. unfold filled. replace (k =? N) with false by lia. lia.
  - by rewrite vsize_insert.
  - intros i Hi. rewrite blk_insert by lia. destruct (Z.eqb_spec i k) as [-> | Hne].
    + by replace (k <? k + 1) with true by lia.
    + rewrite P5 by done. by replace (i <? k + 1) with (i <? k) by lia.
Qed.
(** The correction at the index of every interval. *)
Lemma correct_run val idx msgs sums indexes out :
  mp_vole_size_ p <= vsize out -> (forall i j, 0 <= i < N -> 0 <= j < size i -> blk out (i * sp + j) = val i j) ->
  vsize msgs = N -> vsize sums = N -> vsize indexes = N -> (forall i, 0 <= i < N -> blk indexes i = idx i /\ 0 <= idx i < size i) ->
  exists out', for_up (Z.to_nat N) 0 (correct_index p op indexes msgs sums) out = Some out' /\ vsize out' = vsize out /\
    (forall i j, 0 <= i < N -> 0 <= j < size i ->
       blk out' (i * sp + j) = if j =? idx i then op_add op (val i j) (op_sub op (blk msgs i) (blk sums i)) else val i j) /\
    (forall q, mp_vole_size_ p <= q -> blk out' q = blk out q).
Proof.
  intros Ho Hval Hm Hs Hx Hidx. pose proof (ok_num p Hp) as HN. pose proof (ok_size p Hp) as Hsp.
  destruct (for_up_inv (fun k l => vsize l = vsize out /\
    (forall i j, 0 <= i < N -> 0 <= j < size i -> blk l (i * sp + j) =
      if (i <? k) && (j =? idx i) then op_add op (val i j) (op_sub op (blk msgs i) (blk sums i)) else val i j) /\
    (forall q, mp_vole_size_ p <= q -> blk l q = blk out q)) (correct_index p op indexes msgs sums) (Z.to_nat N) 0 out)
    as (out' & E & Z1 & V1 & R1).
  - split; [done|]. split; [|done]. intros i j Hi Hj. replace (i <? 0) with false by lia. by apply Hval.
  - intros k l Hk (Z1 & V1 & R1). destruct (Hidx k ltac:(lia)) as [Ek Hik]. pose proof (interval_fits k ltac:(lia)) as Hfit.
    pose proof (size_bounds k) as Hsz. assert (Hks : 0 <= k * sp) by (apply Z.mul_nonneg_nonneg; lia).
    unfold correct_index. rewrite !vget_blk by lia. cbn [mbind option_bind]. rewrite Ek, offset_u64 by lia.
    assert (Hmp : 0 <= k * sp + idx k < 2 ^ 64).
    { split; [lia|]. destruct Hp. pose proof (Z.mul_le_mono_nonneg k (2 ^ 31) sp (2 ^ 31) ltac:(lia) ltac:(lia) ltac:(lia) ltac:(lia)). lia. }
    rewrite u64_small, vget_blk by lia. cbn [mbind option_bind]. rewrite V1 by lia. replace (k <? k) with false by lia. cbn [andb].
    rewrite vset_Some by lia. eexists. split; [done|]. rewrite vsize_insert. split; [done|]. split.
    + intros i j Hi Hj. rewrite blk_insert by lia.
      destruct (Z.eqb_spec (i * sp + j) (k * sp + idx k)) as [Eq | Hne].
      * assert (i = k) as ->.
        { destruct (Z.lt_trichotomy i k) as [Hlt | [Heq | Hgt]]; [|done|].
          - pose proof (intervals_apart i k ltac:(lia) ltac:(lia)). lia.
          - pose proof (intervals_apart k i ltac:(lia) ltac:(lia)). lia. }
        assert (j = idx k) as -> by lia. rewrite Z.eqb_refl. by replace (k <? k + 1) with true by lia.
      * rewrite V1 by done. destruct (Z.eqb_spec j (idx i)) as [-> | Hj']; [|by rewrite !andb_false_r].
        assert (i <> k) by (intros ->; done). by replace (i <? k + 1) with (i <? k) by lia.
    + intros q Hq. rewrite blk_insert by lia. destruct (Z.eqb_spec q (k * sp + idx k)); [lia|]. by apply R1.
  - exists out'. split; [done|]. split; [done|]. split; [|done]. intros i j Hi Hj. rewrite V1 by done.
    by replace (i <? 0 + Z.of_nat (Z.to_nat N)) with true by lia.
Qed.

(** Shares: equal away from the indexes, and short of [v i] at the index. *)
Lemma corrected_shares w (val_s val_r : Z -> Z -> Z) (v idx : Z -> Z) i j :
  WordGroup w op -> 0 <= w -> 0 <= i < N -> 0 <= j < size i -> 0 <= idx i < size i ->
  (forall j, 0 <= val_s i j < 2 ^ w) -> (forall j, 0 <= val_r i j < 2 ^ w) -> 0 <= v i < 2 ^ w ->
  (forall j, j <> idx i -> val_r i j = val_s i j) ->
  let m := reduce op (op_sub op 0 (v i)) (val_s i <$> seqZ 0 (size i)) in
  let d := reduce op 0 (val_r i <$> seqZ 0 (size i)) in
  let r := if j =? idx i then op_add op (val_r i j) (op_sub op m d) else val_r i j in
  (if j =? idx i then op_add op r (v i) else r) = val_s i j.
Proof.
  intros HG Hw Hi Hj Hx Hs Hr Hv Heq m d r. subst r. destruct (Z.eqb_spec j (idx i)) as [-> | Hne]; [|by apply Heq].
  assert (Hsplit : forall f : Z -> Z, f <$> seqZ 0 (size i) =
    (f <$> seqZ 0 (idx i)) ++ f (idx i) :: (f <$> seqZ (idx i + 1) (size i - idx i - 1))).
  { intros f. replace (size i) with (idx i + (1 + (size i - idx i - 1))) at 1 by lia.
    rewrite seqZ_app, fmap_app by lia. rewrite Z.add_0_l, (seqZ_app (idx i) 1) by lia. done. }
  assert (Hsame : forall a n, (forall j, a <= j < a + n -> j <> idx i) -> val_r i <$> seqZ a n = val_s i <$> seqZ a n).
  { intros a n Ha. apply list_fmap_ext. intros q y Hy. apply lookup_seqZ in Hy as [-> ?]. apply Heq. apply Ha. lia. }
  subst m d. rewrite !Hsplit. rewrite (Hsame 0), (Hsame (idx i + 1)) by lia.
  apply (correction w op); try done; apply Forall_fmap, Forall_forall; intros; apply Hs.
Qed.
End Intervals.

Lemma with_indexes_ok p l : param_ok p -> param_ok (set_indexes l p).
Proof. by intros []. Qed.

Section Choices.
Context (p : MpFssParam).
Hypothesis Hp : param_ok p.
Local Abbreviation N := (noise_num_ p).
Local Abbreviation sp := (sp_vole_size_ p).
Local Abbreviation last := (last_sp_vole_size_ p).
Local Abbreviation size := (this_size p).
Local Abbreviation bl := (depth sp).
Local Abbreviation len i := (depth (size i)).

Lemma gen_indexes_run rand : vsize rand = N -> exists l, GenIndexes rand p = Some (set_indexes l p) /\ vsize l = N /\
  forall i, 0 <= i < N -> blk l i = blk rand i mod size i.
Proof.
  intros Hz. pose proof (ok_num p Hp) as HN.
  destruct (for_up_inv (fun k l => vsize l = N /\ forall i, 0 <= i < N -> blk l i = if i <? k then blk rand i mod sp else blk rand i)
    (reduce_index sp) (Z.to_nat (N - 1)) 0 rand) as (l & E & Zl & Fl).
  - split; [done|]. intros i Hi. by replace (i <? 0) with false by lia.
  - intros k l Hk [Zl Fl]. unfold reduce_index. rewrite vget_blk, Fl by lia. replace (k <? k) with false by lia.
    cbn [mbind option_bind]. rewrite vset_Some by lia. eexists. split; [done|]. rewrite vsize_insert. split; [done|].
    intros i Hi. rewrite blk_insert by lia. destruct (Z.eqb_spec i k) as [-> | Hne]; [by replace (k <? k + 1) with true by lia|].
    rewrite Fl by done. by replace (i <? k + 1) with (i <? k) by lia.
  - unfold GenIndexes. rewrite E. cbn [mbind option_bind]. unfold reduce_index. rewrite vget_blk, Fl by lia.
    rewrite Z2Nat.id by lia. replace (N - 1 <? 0 + (N - 1)) with false by lia. cbn [mbind option_bind]. rewrite vset_Some by lia.
    eexists. split; [done|]. rewrite vsize_insert. split; [done|]. intros i Hi. rewrite blk_insert by lia. unfold this_size.
    destruct (Z.eqb_spec i (N - 1)) as [-> | Hne]; [done|]. rewrite Fl, Z2Nat.id by lia. by replace (i <? 0 + (N - 1)) with true by lia.
Qed.

(** *** The choices *)

Lemma bit_of_index index t : negb (Z.land index (2 ^ t) =? 0) = Z.testbit index t.
Proof.
  destruct (Z.ltb_spec t 0) as [Ht | Ht].
  { rewrite Z.pow_neg_r, Z.land_0_r, Z.testbit_neg_r by done. done. }
  destruct (Z.testbit index t) eqn:E.
  - destruct (Z.eqb_spec (Z.land index (2 ^ t)) 0) as [H0 | ?]; [|done].
    assert (Hb : Z.testbit (Z.land index (2 ^ t)) t = true) by (rewrite Z.land_spec, E, testbit_pow2, Z.eqb_refl by lia; done).
    by rewrite H0, Z.bits_0 in Hb.
  - replace (Z.land index (2 ^ t)) with 0; [done|]. symmetry. apply Z.bits_inj'. intros q Hq.
    rewrite Z.land_spec, testbit_pow2, Z.bits_0 by lia. destruct (Z.eqb_spec q t) as [-> | Hne]; [by rewrite E|apply andb_false_r].
Qed.

(** A bitset whose bit [q] is [f q]. *)
Definition encodes (b : dynamic_bitset) (n : Z) (f : Z -> bool) : Prop :=
  wf 128 b /\ m_bits_number b = n /\ forall q, 0 <= q < n -> Z.testbit (value 128 b) q = f q.

Lemma set_bit_encodes b n f pos v : 0 <= pos < n -> encodes b n f ->
  exists b', Bitset.set_pos 128 b pos v = Some b' /\ encodes b' n (fun q => if q =? pos then v else f q).
Proof.
  intros Hpos (W & N0 & F). destruct (set_pos_refines 128 b pos v W ltac:(lia)) as (b' & E & W' & N' & V'). exists b'.
  split; [done|]. split; [done|]. split; [lia|]. intros q Hq. rewrite V'.
  destruct v; [rewrite Z.lor_spec|rewrite Z.ldiff_spec]; rewrite testbit_pow2, F by lia; destruct (Z.eqb_spec q pos); cbn;
    by rewrite ?orb_true_r, ?orb_false_r, ?andb_true_r, ?andb_false_r.
Qed.

Lemma index_bits_run b n f index pos k : 0 <= pos -> 0 <= k -> pos + k <= n -> encodes b n f ->
  exists b', for_up (Z.to_nat k) 0 (set_choice_bit index pos) b = Some b' /\
    encodes b' n (fun q => if (pos <=? q) && (q <? pos + k) then Z.testbit index (q - pos) else f q).
Proof.
  intros Hpos Hk Hn Hb.
  destruct (for_up_inv (fun j b => encodes b n (fun q => if (pos <=? q) && (q <? pos + j) then Z.testbit index (q - pos) else f q))
    (set_choice_bit index pos) (Z.to_nat k) 0 b) as (b' & E & H).
  - destruct Hb as (W & N0 & F). split; [done|]. split; [done|]. intros q Hq. by replace ((pos <=? q) && _) with false by lia; apply F.
  - intros j u Hj Hu. unfold set_choice_bit. rewrite bit_of_index.
    destruct (set_bit_encodes u n _ (pos + j) (Z.testbit index j) ltac:(lia) Hu) as (u' & -> & W & N0 & F).
    exists u'. split; [done|]. split; [done|]. split; [done|]. intros q Hq. rewrite F by done.
    destruct (Z.eqb_spec q (pos + j)) as [-> | Hne].
    + replace ((pos <=? pos + j) && _) with true by lia. f_equal. lia.
    + by replace (q <? pos + (j + 1)) with (q <? pos + j) by lia.
  - exists b'. split; [done|]. by rewrite Z2Nat.id, Z.add_0_l in H by lia.
Qed.

Lemma len_bounds i : 0 < len i <= 31 /\ 0 < bl <= len i /\ (i < N - 1 -> len i = bl) /\ Log2Ceil (size i) = Val (len i).
Proof.
  pose proof (ok_last p Hp) as H1. pose proof (ok_size p Hp) as H2. pose proof (size_bounds p Hp i) as H3.
  destruct (depth_height (size i) ltac:(lia)) as [(_ & H4 & _) H5]. destruct (depth_height sp ltac:(lia)) as [(_ & H6 & _) _].
  pose proof (depth_mono sp (size i) ltac:(lia)). split; [done|]. split; [lia|]. split; [|done].
  intros Hi. unfold this_size. by replace (i =? N - 1) with false by lia.
Qed.

(** The choices of interval [i] are the bits of its index. *)
Lemma gen_choices_run : vsize (indexes_ p) = N ->
  exists choices, GenChoices p = Val choices /\ wf 128 choices /\ Bitset.size choices = require_ot_num_ p /\
    forall i t, 0 <= i < N -> 0 <= t < len i -> Z.testbit (value 128 choices) (i * bl + t) = Z.testbit (blk (indexes_ p) i) t.
Proof.
  intros Hz. pose proof (ok_num p Hp) as HN. pose proof (ok_ots p Hp) as Ho. set (R := require_ot_num_ p) in *.
  destruct (len_bounds (N - 1)) as (L1 & L2 & _ & L3). destruct (len_bounds (N - 2)) as (_ & L4 & _).
  assert (Hlast : depth last = len (N - 1)) by (unfold this_size; by rewrite Z.eqb_refl).
  assert (Hend : forall i, 0 <= i < N -> i * bl + len i <= R).
  { intros i Hi. unfold this_size. destruct (Z.eqb_spec i (N - 1)) as [-> | Hne]; [lia|].
    assert ((i + 1) * bl <= (N - 1) * bl) by (apply Z.mul_le_mono_nonneg_r; lia). lia. }
  assert (HR : 0 <= R) by (pose proof (Hend 0 ltac:(lia)); lia).
  unfold GenChoices. rewrite Hz, Z.eqb_refl. cbn [OtStore.enforce mbind res_bind]. fold R.
  destruct (ctor_value_refines 128 R 0 HR ltac:(lia)) as (b0 & -> & W0 & N0 & V0). cbn [access mbind res_bind].
  destruct (depth_height sp ltac:(pose proof (ok_last p Hp); pose proof (ok_size p Hp); lia)) as [_ ->]. cbn [mbind res_bind].
  destruct (depth_height last ltac:(pose proof (ok_last p Hp); pose proof (ok_size p Hp); lia)) as [_ ->]. cbn [mbind res_bind].
  destruct (for_up_inv (fun k st => (k < N -> st.2 = k * bl) /\ wf 128 st.1 /\ m_bits_number st.1 = R /\
      forall i t, 0 <= i < k -> 0 <= t < len i -> Z.testbit (value 128 st.1) (i * bl + t) = Z.testbit (blk (indexes_ p) i) t)
    (set_index_bits p bl (depth last)) (Z.to_nat N) 0 (b0, 0)) as ([b pos] & E & _ & W & Nb & F).
  - cbn [fst snd]. split; [lia|]. split; [done|]. split; [done|]. intros i t Hi. lia.
  - intros k [b pos] Hk (Hpos & W & Nb & F). cbn [fst snd] in *. specialize (Hpos ltac:(lia)). subst pos.
    destruct (len_bounds k) as (K1 & K2 & K3 & _). pose proof (Hend k ltac:(lia)) as Hke.
    assert (0 <= k * bl) by (apply Z.mul_nonneg_nonneg; lia).
    unfold set_index_bits. assert (Et : (if k =? N - 1 then depth last else bl) = len k) by (unfold this_size; by destruct (k =? N - 1)).
    rewrite Et. replace (len k <? 32) with true by lia. rewrite vget_blk by lia. cbn [mbind option_bind].
    destruct (index_bits_run b R (Z.testbit (value 128 b)) (blk (indexes_ p) k) (k * bl) (len k) ltac:(lia) ltac:(lia) Hke)
      as (b' & -> & W' & Nb' & F'); [done|]. cbn [mbind option_bind]. exists (b', k * bl + len k). split; [done|]. cbn [fst snd].
    split; [intros Hk1; rewrite K3 by lia; lia|]. split; [done|]. split; [done|]. intros i t Hi Ht.
    pose proof (Hend i ltac:(lia)). assert (0 <= i * bl) by (apply Z.mul_nonneg_nonneg; lia). rewrite F' by lia.
    destruct (Z.eq_dec i k) as [-> | Hne]; [replace ((_ <=? _) && _) with true by lia; f_equal; lia|].
    assert (Hlt : i * bl + t < k * bl).
    { destruct (len_bounds i) as (_ & _ & I3 & _). rewrite I3 in Ht by lia.
      assert ((i + 1) * bl <= k * bl) by (apply Z.mul_le_mono_nonneg_r; lia). lia. }
    replace ((_ <=? _) && _) with false by lia. apply F; lia.
  - rewrite E. cbn [mbind option_bind access]. exists b. split; [done|]. split; [done|]. split; [done|].
    intros i t Hi Ht. apply F; [lia|done].
Qed.

(** *** Given indexes *)

(** What [SetIndexes] does to indexes that were set before: all but the last are
    taken from the argument, the last is its old value. *)
Lemma set_indexes_run given : vsize (indexes_ p) = N -> N <= vsize given ->
  exists l, SetIndexes given p = Val (set_indexes l p) /\ vsize l = N /\
    forall i, 0 <= i < N -> blk l i = (if i =? N - 1 then blk (indexes_ p) i else blk given i) mod size i.
Proof.
  intros Hz Hg. pose proof (ok_num p Hp) as HN. unfold SetIndexes. replace (N <=? vsize given) with true by lia. cbn [OtStore.enforce mbind res_bind].
  destruct (for_up_inv (fun k l => vsize l = N /\ forall i, 0 <= i < N -> blk l i = if i <? k then blk given i mod sp else blk (indexes_ p) i)
    (copy_index given sp) (Z.to_nat (N - 1)) 0 (indexes_ p)) as (l & -> & Zl & Fl).
  - split; [done|]. intros i Hi. by replace (i <? 0) with false by lia.
  - intros k l Hk [Zl Fl]. unfold copy_index. rewrite vget_blk by lia. cbn [mbind option_bind].
    rewrite vset_Some by lia. eexists. split; [done|]. rewrite vsize_insert. split; [done|].
    intros i Hi. rewrite blk_insert by lia. destruct (Z.eqb_spec i k) as [-> | Hne]; [by replace (k <? k + 1) with true by lia|].
    rewrite Fl by done. by replace (i <? k + 1) with (i <? k) by lia.
  - cbn [mbind option_bind]. unfold reduce_index. rewrite vget_blk, Fl by lia. rewrite Z2Nat.id by lia.
    replace (N - 1 <? 0 + (N - 1)) with false by lia. cbn [mbind option_bind]. rewrite vset_Some by lia. cbn [mbind option_bind access].
    eexists. split; [done|]. rewrite vsize_insert. split; [done|]. intros i Hi. rewrite blk_insert by lia. unfold this_size.
    destruct (Z.eqb_spec i (N - 1)) as [-> | Hne]; [done|]. rewrite Fl, Z2Nat.id by lia. by replace (i <? 0 + (N - 1)) with true by lia.
Qed.

(** On parameters that are new, it writes past the end. *)
Lemma set_indexes_new given : indexes_ p = [] -> N <= vsize given -> SetIndexes given p = Bad.
Proof.
  intros Hz Hg. pose proof (ok_num p Hp) as HN. unfold SetIndexes. replace (N <=? vsize given) with true by lia. cbn [OtStore.enforce mbind res_bind].
  rewrite Hz. destruct (Z.to_nat (N - 1)) as [|n] eqn:E.
  - cbn [for_up for_down mbind option_bind]. unfold reduce_index. by rewrite vget_None by (right; change (vsize (@nil Z)) with 0; lia).
  - cbn [for_up]. unfold copy_index. rewrite vget_blk by lia. cbn [mbind option_bind]. by rewrite vset_None by (right; change (vsize (@nil Z)) with 0; lia).
Qed.
End Choices.
