(* ===== verification/MpfssRuns.v ===== *)
(** Runs of multi-point function secret sharing. Slices of two stores in step are
    correlated transfers under the sender's delta, a loop whose trees have the leaves
    [leaf] fills the output with the words of their hashes, and the last message
    corrects the output of the receiver. Then the protocol with chosen indexes:
    whatever the schedule, both parties return, with outputs that are equal except at
    one index of every interval, where the receiver's is short of the sender's by its
    value. *)

From Stdlib Require Import ZArith Lia ZifyBool Bool Sorted.
From stdpp Require Import base numbers list option gmap.
From S2P Require Import Prelude BitBlock BitSet BitSetFacts BitSetOps BitSetGrow BitSetString ChannelKeys OtStore OtStoreFacts OtStoreTheorems LinkProgram.
From S2P Require Import Context LinkGroup Collectives CollectivesFacts ContextTheorems CrHash TwoParty Sgrr SgrrFacts SgrrTheorems Gywz GywzFacts.
From S2P Require Import GywzTheorems Mpfss MpfssFacts.

Local Open Scope Z_scope.

Section Slices.
Context (h : heap) (l lr : list Z) (b : dynamic_bitset).

Lemma in_step_cots s r : in_step h s r l lr b -> 0 < send_delta s < 2 ^ 128 ->
  (forall i, 0 <= i < vsize lr -> 0 <= blk lr i < 2 ^ 128) ->
  let ctr := internal_use_ctr_ (recv_slice r) in
  cots h s r (OtRecv.Size r) (send_delta s) (fun i => choice_of (recv_type r) lr b (ctr + i)) (fun i => blk lr (ctr + i)).
Proof.
  intros I Hd Hr ctr. pose proof (in_step_correlated h s r l lr b I) as [Es _].
  destruct I as [Vs Vr D C U Z S A]. pose proof (view_slice _ _ _ _ Vr) as [].
  assert (Hin : forall i, 0 <= i < OtRecv.Size r -> 0 <= ctr + i < internal_buf_size_ (recv_slice r)).
  { intros i Hi. unfold OtRecv.Size in Hi. lia. }
  split; [done|done|..].
  - unfold OtSend.GetDelta. by replace (send_delta s =? 0) with false by lia.
  - intros i Hi. rewrite (recv_GetChoice h r lr b Vr) by lia. by replace (i <? OtRecv.Size r) with true by lia.
  - intros i Hi. rewrite (recv_GetBlock h r lr b Vr) by lia. replace (i <? OtRecv.Size r) with true by lia.
    split; [done|]. apply Hr. pose proof (Hin i Hi). lia.
  - intros i m Hi. pose proof (Hin i Hi) as Hp. unfold OtRecv.Size in Hi.
    rewrite (send_GetBlock h s l Vs) by (done || lia || (destruct m; auto)).
    replace (i <? OtSend.Size s) with true by (unfold OtRecv.Size in Es; lia).
    rewrite U, <- Z.mul_add_distr_l. fold ctr. rewrite <- (A (ctr + i) Hp). unfold message_at.
    replace (send_delta s =? 0) with false by lia. f_equal.
    destruct m, (choice_of (recv_type r) lr b (ctr + i)); cbn [Z.b2z Bool.eqb]; rewrite ?Z.mul_0_r, ?Z.mul_1_r;
      unfold u128; rewrite ?Z.mod_0_l, ?(Z.mod_small (send_delta s)), ?Z.lxor_0_r by lia; try done.
    by rewrite Z.lxor_assoc, Z.lxor_nilpotent, Z.lxor_0_r.
Qed.

Lemma slices_in_step s r first last : in_step h s r l lr b -> 0 <= first < last -> last <= internal_buf_size_ (recv_slice r) ->
  exists s' r', OtSend.Slice h s first last = Val s' /\ OtRecv.Slice h r first last = Val r' /\
    in_step h s' r' l lr b /\ recv_slice r' = mk_slice first (last - first) first last /\
    recv_type r' = recv_type r /\ send_delta s' = send_delta s.
Proof.
  intros [Vs Vr D C U Z S A] Hf Hl. pose proof (view_slice _ _ _ _ Vr) as []. pose proof (send_view_slice _ _ _ Vs) as [].
  assert (Hn : OtSend.ot_blk_num s = 1 \/ OtSend.ot_blk_num s = 2) by (destruct (n_cases s) as [[-> _]|[-> _]]; auto).
  set (n := OtSend.ot_blk_num s) in *.
  unfold OtSend.Slice, OtRecv.Slice. fold n.
  rewrite (u64_small (last - first)), (u64_small (first * n)), (u64_small ((last - first) * n)), (u64_small (last * n)) by (destruct Hn as [-> | ->]; lia).
  assert (Kr : slice_ok (mk_slice first (last - first) first last) (vsize lr)) by (split; cbn; lia).
  assert (Ks : slice_ok (mk_slice (first * n) ((last - first) * n) (first * n) (last * n)) (vsize l))
    by (split; cbn; destruct Hn as [En | En]; rewrite En in *; lia).
  pose proof (recv_make_window h r lr b Vr _ Kr) as Er. pose proof (send_make_window h s l Vs _ Ks) as Es.
  cbn [internal_use_ctr_ internal_use_size_ internal_buf_ctr_ internal_buf_size_] in Er, Es. rewrite Er, Es.
  eexists _, _. split; [done|]. split; [done|]. split; [|done].
  split; cbn [send_slice recv_slice internal_use_ctr_ internal_use_size_ internal_buf_ctr_ internal_buf_size_ send_type recv_type send_delta];
    unfold OtSend.ot_blk_num; cbn [send_type]; fold (OtSend.ot_blk_num s); fold n; try done; try lia.
  - split; [apply Vs|done|]. unfold aligned. cbn [send_slice send_type internal_use_ctr_ internal_use_size_ internal_buf_ctr_ internal_buf_size_].
    intros Ht. unfold n, OtSend.ot_blk_num. rewrite Ht. repeat split; dlia.
  - split; [apply Vr|done|apply Vr].
  - intros q Hq. apply A. lia.
Qed.

(** Slices of stores in step are correlated transfers. *)
Lemma sliced_cots s r first last : in_step h s r l lr b -> 0 < send_delta s < 2 ^ 128 ->
  (forall i, 0 <= i < vsize lr -> 0 <= blk lr i < 2 ^ 128) -> 0 <= first < last -> last <= OtRecv.Size r ->
  exists s' r', OtSend.Slice h s first last = Val s' /\ OtRecv.Slice h r first last = Val r' /\
    cots h s' r' (last - first) (send_delta s) (fun i => choice_of (recv_type r) lr b (first + i)) (fun i => blk lr (first + i)).
Proof.
  intros I Hd Hr Hf Hl.
  assert (Hb : last <= internal_buf_size_ (recv_slice r)).
  { pose proof (view_slice _ _ _ _ (step_recv _ _ _ _ _ _ I)) as []. unfold OtRecv.Size in Hl. lia. }
  destruct (slices_in_step s r first last I Hf Hb) as (s' & r' & Es & Er & I' & Sl & Ty & De).
  exists s', r'. split; [done|]. split; [done|].
  pose proof (in_step_cots s' r' I' ltac:(by rewrite De) Hr) as H. unfold OtRecv.Size in H. rewrite Sl, Ty, De in H. exact H.
Qed.
End Slices.

(** *** Words of both widths *)

Definition word_bytes (wide : bool) : nat := if wide then 16 else 8.
Definition word_bits (wide : bool) : Z := if wide then 128 else 64.
Definition to_word (wide : bool) (x : Z) : Z := if wide then x else u64 x.

Lemma word_bytes_bits wide : 256 ^ Z.of_nat (word_bytes wide) = 2 ^ word_bits wide.
Proof. by destruct wide. Qed.

Section Runs.
Context (rp : Z -> Z) (fresh : Z -> list Z) (p : MpFssParam) (op : MpfssOp).
Hypothesis Hp : param_ok p.
Hypothesis Hfresh : forall k, 0 <= k -> vsize (fresh k) = k.
Local Abbreviation N := (noise_num_ p).
Local Abbreviation sp := (sp_vole_size_ p).
Local Abbreviation size := (this_size p).
Local Abbreviation mp := (mp_vole_size_ p).

Lemma vsize_hashed leaves : vsize (ParaCrHashInplace_128 rp leaves) = vsize leaves.
Proof. rewrite para_cr_inplace_map. unfold vsize. by rewrite length_fmap. Qed.

Lemma holds_hashed leaves n f : n <= vsize leaves -> holds leaves n f ->
  holds (ParaCrHashInplace_128 rp leaves) n (fun j => CrHash_128 rp (f j)).
Proof. intros Hn Hf j Hj. rewrite para_cr_inplace_map, blk_map by lia. by rewrite Hf. Qed.

(** The part of an output for interval [i]. *)
Lemma subspan_part l pos n : 0 <= pos -> 0 <= n -> pos + n <= vsize l ->
  exists part, subspan l pos n = Val part /\ vsize part = n.
Proof.
  intros H1 H2 H3. unfold subspan. replace (pos <=? vsize l) with true by lia. eexists. split; [done|].
  by apply (blk_part l pos n 0).
Qed.

Section Loops.
Context (S : slot -> option bytes) (q : Z) (tree : Z -> list Z -> LinkM (list Z)) (leaf : Z -> Z -> Z).
Context (calls : Z -> list call) (C : Z -> Context) (init : Z -> Z) (out0 : list Z).
Hypothesis Hout : mp <= vsize out0.
Hypothesis Htree : forall i span st, 0 <= i < N -> vsize span = size i -> ctx st = C i ->
  runs S q (tree i span) st (calls i) (C (i + 1)) (fun leaves => vsize leaves = size i /\ holds leaves (size i) (leaf i)).

Definition val (wide : bool) (i j : Z) : Z := to_word wide (CrHash_128 rp (leaf i j)).

Lemma loop_128 sums0 st : vsize sums0 = N -> holds sums0 N init -> ctx st = C 0 ->
  runs S q (for_prog (Z.to_nat N) 0 (interval_128 rp p op tree) (out0, sums0)) st (mjoin (calls <$> seqZ 0 N)) (C N)
    (fun t => progress p op (val true) init out0 N t.1 t.2).
Proof.
  intros Hs Hi Hst. pose proof (ok_num p Hp) as HN. pose proof (ok_size p Hp) as Hsp.
  pose proof (runs_for S q (Z.to_nat N) 0 (interval_128 rp p op tree) calls C
    (fun k t => progress p op (val true) init out0 k t.1 t.2) (out0, sums0) st) as H.
  rewrite Z2Nat.id, Z.add_0_l in H by lia. apply H; [by apply progress_start|done|]. clear H.
  intros k [out sums] st' Hk P Hst'. cbn [fst snd] in P. pose proof (interval_fits p Hp k ltac:(lia)) as Hfit.
  pose proof (size_bounds p Hp k) as Hsz. assert (0 <= k * sp) by (apply Z.mul_nonneg_nonneg; lia).
  pose proof (pr_size _ _ _ _ _ _ _ _ P) as Ho. unfold interval_128. rewrite (offset_u64 p Hp) by lia.
  destruct (subspan_part out (k * sp) (size k)) as (span & Es & Zs); [lia..|]. runs_lifts st' Hst' Es.
  rewrite <- (app_nil_r (calls k)). eapply runs_bind; [by apply (Htree k span st')|].
  clear st' Hst'. intros leaves st' [Zl Hl] Hst'.
  destruct (progress_step p op Hp (val true) init out0 k out sums (ParaCrHashInplace_128 rp leaves) Hout ltac:(lia) P)
    as (out' & sums' & E1 & _ & E2 & P'); [by rewrite vsize_hashed|by apply holds_hashed; [lia|]|].
  rewrite E1. cbn [mbind option_bind]. rewrite E2. by apply runs_ret.
Qed.

Lemma loop_64 sums0 st : vsize sums0 = N -> holds sums0 N init -> ctx st = C 0 ->
  runs S q (for_prog (Z.to_nat N) 0 (interval_64 rp p op tree) (dpf_buff fresh p, out0, sums0)) st
    (mjoin (calls <$> seqZ 0 N)) (C N) (fun t => progress p op (val false) init out0 N t.1.2 t.2).
Proof.
  intros Hs Hi Hst. pose proof (ok_num p Hp) as HN. pose proof (ok_size p Hp) as Hsp. pose proof (ok_last p Hp) as Hla.
  pose proof (runs_for S q (Z.to_nat N) 0 (interval_64 rp p op tree) calls C
    (fun k t => vsize t.1.1 = last_sp_vole_size_ p /\ progress p op (val false) init out0 k t.1.2 t.2)
    (dpf_buff fresh p, out0, sums0) st) as H.
  rewrite Z2Nat.id, Z.add_0_l in H by lia.
  destruct H as (t & D & _ & P); [|done| |by exists t].
  { split; [|by apply progress_start]. cbn [fst snd]. unfold dpf_buff. rewrite Hfresh; lia. }
  intros k [[dpf out] sums] st' Hk [Zd P] Hst'. cbn [fst snd] in Zd, P. pose proof (interval_fits p Hp k ltac:(lia)) as Hfit.
  pose proof (size_bounds p Hp k) as Hsz. assert (0 <= k * sp) by (apply Z.mul_nonneg_nonneg; lia).
  assert (Hsl : size k <= last_sp_vole_size_ p) by (unfold this_size; destruct (k =? N - 1); lia). unfold interval_64.
  destruct (subspan_part dpf 0 (size k)) as (span & Es & Zs); [lia..|]. runs_lifts st' Hst' Es.
  rewrite <- (app_nil_r (calls k)). eapply runs_bind; [by apply (Htree k span st')|].
  clear st' Hst'. intros leaves st' [Zl Hl] Hst'. set (hashed := ParaCrHashInplace_128 rp leaves).
  assert (Zh : vsize hashed = size k) by (unfold hashed; by rewrite vsize_hashed).
  destruct (write_ok dpf 0 hashed) as [dpf' E0]; [lia|lia|].
  destruct (progress_step p op Hp (val false) init out0 k out sums (u64 <$> hashed) Hout ltac:(lia) P)
    as (out' & sums' & E1 & E2 & E3 & P').
  { unfold vsize in *. rewrite length_fmap. lia. }
  { intros j Hj. rewrite blk_map by lia. unfold hashed, val, to_word. by rewrite (holds_hashed leaves (size k) (leaf k)) by (done || lia). }
  rewrite E0. cbn [mbind option_bind]. rewrite (offset_u64 p Hp), E1 by lia. cbn [mbind option_bind].
  rewrite E2. cbn [mbind option_bind]. rewrite E3. apply runs_ret; [done|]. cbn [fst snd].
  destruct (blk_write _ _ _ _ 0 E0) as (_ & _ & -> & _). done.
Qed.
End Loops.
End Runs.

Lemma choose_upto {A} (d : A) (R : Z -> A -> Prop) n : (forall i, 0 <= i < n -> exists y, R i y) ->
  exists f : Z -> A, forall i, 0 <= i < n -> R i (f i).
Proof.
  intros H. destruct (finite_choice (fun i _ y => R (Z.of_nat i) y) (seqZ 0 n)) as (l & Hl & HR).
  { intros i x Hi. apply lookup_seqZ in Hi as [-> Hi]. apply H. lia. }
  exists (fun i => default d (l !! Z.to_nat i)). intros i Hi. rewrite length_seqZ in Hl.
  destruct (lookup_lt_is_Some_2 l (Z.to_nat i)) as [y Hy]; [lia|]. rewrite Hy. cbn.
  specialize (HR (Z.to_nat i) i y). rewrite Z2Nat.id in HR by lia. apply HR; [|done].
  rewrite lookup_seqZ_lt by lia. f_equal. lia.
Qed.

Section Protocol.
Context (rp : Z -> Z) (fresh : Z -> list Z) (h : heap) (p : MpFssParam) (op : MpfssOp).
Context (s : OtSendStore) (r : OtRecvStore) (l lr : list Z) (bits : dynamic_bitset) (seeds : Z -> Z) (idx : Z -> Z).
Hypothesis Hp : param_ok p.
Hypothesis Hfresh : forall k, 0 <= k -> vsize (fresh k) = k.
Hypothesis Hrp : forall z, 0 <= z < 2 ^ 128 -> 0 <= rp z < 2 ^ 128.
Hypothesis Hseeds : forall i, 0 <= seeds i < 2 ^ 128.
Hypothesis Hstep : in_step h s r l lr bits.
Hypothesis Hdelta : 0 < send_delta s < 2 ^ 128.
Hypothesis Hlr : forall i, 0 <= i < vsize lr -> 0 <= blk lr i < 2 ^ 128.
Hypothesis Hots : require_ot_num_ p <= OtRecv.Size r.
Local Abbreviation N := (noise_num_ p).
Local Abbreviation sp := (sp_vole_size_ p).
Local Abbreviation size := (this_size p).
Local Abbreviation delta := (send_delta s).

(** The leaves of both parties. *)
Definition leaf_s (i j : Z) : Z := glevel rp Uint128Max delta (seeds i) (depth (size i)) j.
Definition leaf_r (i j : Z) : Z := Z.lxor (leaf_s i j) (if j =? idx i then delta else 0).

Lemma leaf_range i j : 0 <= leaf_s i j < 2 ^ 128 /\ 0 <= leaf_r i j < 2 ^ 128.
Proof.
  assert (H : 0 <= leaf_s i j < 2 ^ 128).
  { unfold leaf_s, glevel. rewrite <- gnode_masked; [apply land_one_range; unfold Uint128Max; lia|apply uint_max; auto; lia..]. }
  split; [done|]. unfold leaf_r. apply lxor_block_range; [done|]. destruct (j =? idx i); lia.
Qed.

Lemma hash_range z : 0 <= z < 2 ^ 128 -> 0 <= CrHash_128 rp z < 2 ^ 128.
Proof. intros Hz. unfold CrHash_128. apply lxor_block_range; [by apply Hrp|done]. Qed.

Lemma val_range leaf wide i j : (forall i j, 0 <= leaf i j < 2 ^ 128) -> 0 <= val rp leaf wide i j < 2 ^ word_bits wide.
Proof.
  intros Hl. unfold val, to_word, word_bits. destruct wide; [by apply hash_range|]. unfold u64. apply Z.mod_pos_bound. lia.
Qed.

(** *** The transfers of an interval *)

Lemma size_depth i : 1 < size i <= 2 ^ 31 /\ Log2Ceil (size i) = Val (depth (size i)) /\ 0 < depth (size i) <= 31.
Proof.
  pose proof (size_bounds p Hp i). pose proof (ok_size p Hp). destruct (depth_height (size i) ltac:(lia)) as [(_ & ? & _) ?].
  split; [lia|done].
Qed.

Lemma depth_sp : Log2Ceil sp = Val (depth sp) /\ 0 < depth sp <= 31.
Proof.
  pose proof (ok_last p Hp). pose proof (ok_size p Hp). by destruct (depth_height sp ltac:(lia)) as [(_ & ? & _) ?].
Qed.

Lemma transfers_fit i : 0 <= i < N -> 0 <= i * depth sp /\ i * depth sp + depth (size i) <= OtRecv.Size r /\
  OtRecv.Size r < 2 ^ 62.
Proof.
  intros Hi. destruct depth_sp as [_ Hd]. pose proof (ok_ots p Hp) as Ho. split; [apply Z.mul_nonneg_nonneg; lia|].
  split; [|pose proof (view_slice _ _ _ _ (step_recv _ _ _ _ _ _ Hstep)) as []; unfold OtRecv.Size; lia].
  unfold this_size. destruct (Z.eqb_spec i (N - 1)) as [-> | Hne]; [lia|].
  assert ((i + 1) * depth sp <= (N - 1) * depth sp) by (apply Z.mul_le_mono_nonneg_r; lia).
  pose proof (depth_mono sp (last_sp_vole_size_ p)). pose proof (ok_last p Hp). pose proof (ok_size p Hp). lia.
Qed.

Lemma slice_bounds_ok i : 0 <= i < N -> slice_bounds p i = Val (i * depth sp, i * depth sp + depth (size i)).
Proof.
  intros Hi. destruct (transfers_fit i Hi) as (H1 & H2 & H3). destruct (size_depth i) as (_ & E & D).
  unfold slice_bounds. rewrite (proj1 depth_sp). cbn [mbind res_bind]. rewrite E. cbn [mbind res_bind].
  by rewrite (u64_small (i * _)), u64_small by lia.
Qed.

Lemma interval_cots i : 0 <= i < N -> exists s' r',
  OtSend.Slice h s (i * depth sp) (i * depth sp + depth (size i)) = Val s' /\
  OtRecv.Slice h r (i * depth sp) (i * depth sp + depth (size i)) = Val r' /\
  cots h s' r' (depth (size i)) delta (fun t => choice_of (recv_type r) lr bits (i * depth sp + t))
    (fun t => blk lr (i * depth sp + t)).
Proof.
  intros Hi. destruct (transfers_fit i Hi) as (H1 & H2 & H3). destruct (size_depth i) as (_ & _ & D).
  destruct (sliced_cots h l lr bits s r (i * depth sp) (i * depth sp + depth (size i)) Hstep Hdelta Hlr ltac:(lia) ltac:(lia))
    as (s' & r' & Es & Er & Hc). exists s', r'. split; [done|]. split; [done|].
  by replace (i * depth sp + depth (size i) - i * depth sp) with (depth (size i)) in Hc by lia.
Qed.

(** *** The messages of a chosen index *)

Context (ph : list Z) (nm : bytes) (k rr a b : Z).
Hypothesis Hnd : NoDup ph.
Hypothesis Hph : vsize ph = 2.
Hypothesis Hrr : rr = 0 \/ rr = 1.
Hypothesis Ha : 0 <= a.
Hypothesis Hb : 0 <= b.

Definition interval_slots (i : Z) : list slot := [slot1 ph nm rr (a + i); slot2 ph nm rr (b + i)].

(** What a party does for interval [i] in a session that has exchanged the
    messages of the intervals before. *)
Definition tree_does (S : slot -> option bytes) (q i : Z) (tree : Z -> list Z -> LinkM (list Z)) (leaf : Z -> Z -> Z) (rank : Z) : Prop :=
  forall span st c0, vsize span = size i -> ctx st = c0 -> member ph nm k rank c0 -> exchanged rr (a + i) (b + i) c0 ->
    runs S q (tree i span) st (calls_of q (interval_slots i)) (ctx_after false rr c0)
      (fun leaves => vsize leaves = size i /\ holds leaves (size i) (leaf i)).

Lemma blk_parties : blk ph rr <> blk ph (1 - rr).
Proof. intros E. apply blk_inj in E; lia || done. Qed.

Lemma chosen_calls i : calls_of (blk ph rr) (interval_slots i) = recv_calls (slot1 ph nm rr (a + i)) (slot2 ph nm rr (b + i)) (slot3 ph nm rr (b + i)) false /\
  calls_of (blk ph (1 - rr)) (interval_slots i) = send_calls (slot1 ph nm rr (a + i)) (slot2 ph nm rr (b + i)) (slot3 ph nm rr (b + i)) false.
Proof.
  pose proof blk_parties. unfold calls_of, interval_slots, recv_calls, send_calls. cbn.
  rewrite !Z.eqb_refl, (proj2 (Z.eqb_neq _ _)) by congruence. by rewrite (proj2 (Z.eqb_neq _ _)) by congruence.
Qed.

Lemma interval_messages i : 0 <= i < N -> vget (indexes_ p) i = Some (idx i) -> 0 <= idx i < size i ->
  a + i < 2 ^ 31 - 1 -> b + i < 2 ^ 31 - 2 ->
  exists m : bytes * bytes, forall S, S (slot1 ph nm rr (a + i)) = Some m.1 -> S (slot2 ph nm rr (b + i)) = Some m.2 ->
    tree_does S (blk ph rr) i (recv_tree rp h p r) leaf_r rr /\
    tree_does S (blk ph (1 - rr)) i (send_tree rp fresh h p s seeds) leaf_s (1 - rr).
Proof.
  intros Hi Hx Hxr Hai Hbi. destruct (interval_cots i Hi) as (s' & r' & Es & Er & Hc). destruct (size_depth i) as (Hsz & _ & _).
  destruct (chosen_messages rp fresh h s' r' (size i) (seeds i) delta _ _ Hfresh Hc Hsz ltac:(lia) (Hseeds i)
    ph nm k rr (a + i) (b + i) Hph Hrr ltac:(lia) ltac:(lia) (idx i) Hxr) as (request & reply & H).
  assert (Hmod : size i mod 2 ^ 32 = size i) by (apply Z.mod_small; lia).
  destruct (chosen_calls i) as [Cr Cs].
  exists (request, reply). intros S V1 V2. destruct (H S V1 V2) as [Hr Hs].
  split; intros span st c0 Hspan Hst Hm [Hca Hcb].
  - destruct (Hr span ltac:(lia)) as (punctured & D & Zp & Fp). exists punctured. rewrite Cr. split; [|split; [lia|]].
    + unfold recv_tree. lifts st Hst (slice_bounds_ok i Hi). cbn [fst snd]. lifts st Hst Er.
      eapply does_lift; [by rewrite Hx|exact Hst|]. next_session st Hst. rewrite Hmod. by apply D.
    + intros j Hj. rewrite Fp by done. unfold leaf_r, leaf_s. apply plevel_at.
      destruct (depth_height (size i) Hsz) as [(_ & _ & _ & Hn) _]. lia.
  - destruct (Hs span ltac:(lia)) as (leaves & D & Zl & Fl). exists leaves. rewrite Cs. split; [|split; [lia|done]].
    unfold send_tree. lifts st Hst (slice_bounds_ok i Hi). cbn [fst snd]. lifts st Hst Es. rewrite Hmod. by apply D.
Qed.
(** *** The contexts and slots of the loop *)

Definition ctx_at (i : Z) (c0 : Context) : Context := Nat.iter (Z.to_nat i) (ctx_after false rr) c0.

Lemma ctx_at_next i c0 : 0 <= i -> ctx_at (i + 1) c0 = ctx_after false rr (ctx_at i c0).
Proof. intros Hi. unfold ctx_at. by replace (Z.to_nat (i + 1)) with (Datatypes.S (Z.to_nat i)) by lia. Qed.

Lemma ctx_at_ok i c0 rank : 0 <= i -> member ph nm k rank c0 -> exchanged rr a b c0 ->
  member ph nm k rank (ctx_at i c0) /\ exchanged rr (a + i) (b + i) (ctx_at i c0).
Proof.
  intros Hi Hm Hx. pattern i. revert i Hi. apply natlike_ind.
  - unfold ctx_at. cbn. by rewrite !Z.add_0_r.
  - intros i Hi [H1 H2]. rewrite <- Z.add_1_r, ctx_at_next by lia. split; [by apply member_after|].
    pose proof (exchanged_after rr (a + i) (b + i) false _ H2 Hrr) as H. by rewrite Z.add_0_r, <- !Z.add_assoc in H.
Qed.

Definition chosen_slots : list slot := (seqZ 0 N ≫= interval_slots) ++ [slot2 ph nm rr (b + N)].

Lemma calls_of_app q ms1 ms2 : calls_of q (ms1 ++ ms2) = calls_of q ms1 ++ calls_of q ms2.
Proof. unfold calls_of. apply fmap_app. Qed.

Lemma calls_of_bind q (f : Z -> list slot) js : calls_of q (js ≫= f) = mjoin ((fun i => calls_of q (f i)) <$> js).
Proof. induction js as [|i js IH]; [done|]. cbn [mbind list_bind fmap list_fmap mjoin list_join]. rewrite calls_of_app. by f_equal. Qed.

Lemma slot2_calls c : calls_of (blk ph rr) [slot2 ph nm rr c] = [Received (slot2 ph nm rr c)] /\
  calls_of (blk ph (1 - rr)) [slot2 ph nm rr c] = [Sent (slot2 ph nm rr c)].
Proof.
  pose proof blk_parties. unfold calls_of, slot2. cbn. rewrite Z.eqb_refl.
  by rewrite (proj2 (Z.eqb_neq _ _)) by congruence.
Qed.

(** The sums of the sender. *)
Definition sent_sums (w : list Z) (wide : bool) : list Z :=
  (fun i => reduce op (op_sub op 0 (blk w i)) (val rp leaf_s wide i <$> seqZ 0 (size i))) <$> seqZ 0 N.

Lemma vsize_sent w wide : vsize (sent_sums w wide) = N.
Proof. pose proof (ok_num p Hp). unfold sent_sums, vsize. rewrite length_fmap, length_seqZ. lia. Qed.

Lemma blk_sent w wide i : 0 <= i < N ->
  blk (sent_sums w wide) i = reduce op (op_sub op 0 (blk w i)) (val rp leaf_s wide i <$> seqZ 0 (size i)).
Proof.
  intros Hi. unfold sent_sums, blk at 1, vget. replace (0 <=? i) with true by lia.
  rewrite list_lookup_fmap, lookup_seqZ_lt by lia. cbn. by rewrite Z2Nat.id, Z.add_0_l by lia.
Qed.

Lemma vsize_negated w : N <= vsize w -> vsize (negated p op w) = N /\ holds (negated p op w) N (fun i => op_sub op 0 (blk w i)).
Proof using Hp.
  intros Hw. pose proof (ok_num p Hp) as HN. clear -HN Hw.
  assert (Hz : vsize (take (Z.to_nat N) w) = N) by (unfold vsize in *; rewrite length_take; lia).
  unfold negated. split; [unfold vsize in *; rewrite length_fmap; lia|].
  intros i Hi. rewrite blk_map by lia. by rewrite blk_take by lia.
Qed.

Lemma vsize_zeros : vsize (replicate (Z.to_nat N) 0) = N /\ holds (replicate (Z.to_nat N) 0) N (fun _ => 0).
Proof using Hp.
  pose proof (ok_num p Hp). split; [rewrite vsize_replicate; lia|]. intros i Hi. apply blk_replicate. lia.
Qed.

(** *** Outputs and corrections *)

Section Words.
Context (wide : bool) (w out_s out_r : list Z).
Context `{!WordGroup (word_bits wide) op}.
Hypothesis Hwr : forall i, 0 <= i < N -> 0 <= blk w i < 2 ^ word_bits wide.
Hypothesis Hor : mp_vole_size_ p <= vsize out_r.
Hypothesis Hrange : forall i, 0 <= i < N -> 0 <= idx i < size i.

Lemma sums_are_sent (sums : list Z) out : progress p op (val rp leaf_s wide) (fun i => op_sub op 0 (blk w i)) out_s N out sums ->
  sums = sent_sums w wide.
Proof.
  intros P. apply blk_ext; [by rewrite vsize_sent, (pr_sums _ _ _ _ _ _ _ _ P)|]. intros i Hi.
  rewrite (pr_sums _ _ _ _ _ _ _ _ P) in Hi. rewrite blk_sent, (pr_sum _ _ _ _ _ _ _ _ P) by done. by replace (i <? N) with true by lia.
Qed.

(** The words of a finished output. *)
Definition finished (leaf : Z -> Z -> Z) (out0 out : list Z) : Prop :=
  vsize out = vsize out0 /\ (forall i j, 0 <= i < N -> 0 <= j < size i -> blk out (i * sp + j) = val rp leaf wide i j) /\
  (forall q, mp_vole_size_ p <= q -> blk out q = blk out0 q).

Lemma progress_finished leaf init out0 out sums : progress p op (val rp leaf wide) init out0 N out sums -> finished leaf out0 out.
Proof. intros [P1 P2 P3 _ _]. split; [done|]. split; [done|]. intros q Hq. apply P3. unfold filled. by rewrite Z.eqb_refl. Qed.

(** The receiver's words, corrected at the indexes. *)
Definition corrected (out : list Z) : Prop :=
  vsize out = vsize out_r /\
  (forall i j, 0 <= i < N -> 0 <= j < size i ->
     (if j =? idx i then op_add op (blk out (i * sp + j)) (blk w i) else blk out (i * sp + j)) = val rp leaf_s wide i j) /\
  (forall q, mp_vole_size_ p <= q -> blk out q = blk out_r q).

Lemma sent_range i : 0 <= i < vsize (sent_sums w wide) -> 0 <= blk (sent_sums w wide) i < 256 ^ Z.of_nat (word_bytes wide).
Proof.
  intros Hi. rewrite vsize_sent in Hi. rewrite word_bytes_bits, blk_sent by done.
  apply (reduce_range (word_bits wide) op).
  - apply sub_range; [apply (word_zero (word_bits wide)); by destruct wide|by apply Hwr].
  - apply Forall_fmap, Forall_forall. intros j _. apply val_range. intros. apply leaf_range.
Qed.

Lemma read_sent : read_array (word_bytes wide) N (array_bytes (word_bytes wide) (sent_sums w wide)) = Some (sent_sums w wide).
Proof. rewrite <- (vsize_sent w wide) at 1. apply read_array_bytes, sent_range. Qed.

(** The correction of a finished output. *)
Lemma correct_finished out sums indexes : vsize indexes = N -> (forall i, 0 <= i < N -> blk indexes i = idx i) ->
  progress p op (val rp leaf_r wide) (fun _ => 0) out_r N out sums ->
  exists out', for_up (Z.to_nat N) 0 (correct_index p op indexes (sent_sums w wide) sums) out = Some out' /\ corrected out'.
Proof.
  intros Zx Fx P. pose proof (progress_finished _ _ _ _ _ P) as (F1 & F2 & F3). pose proof P as [_ _ _ P4 P5].
  destruct (correct_run p op Hp (val rp leaf_r wide) idx (sent_sums w wide) sums indexes out) as (out' & E & Z1 & V1 & R1).
  1-4: rewrite ?vsize_sent; done || lia.
  { done. } { intros i Hi. split; [by apply Fx|by apply Hrange]. }
  exists out'. split; [done|]. split; [lia|]. split; [|intros q Hq; by rewrite R1, F3].
  intros i j Hi Hj. rewrite !V1, blk_sent, P5 by done. replace (i <? N) with true by lia.
  apply (corrected_shares p op (word_bits wide) (val rp leaf_s wide) (val rp leaf_r wide) (blk w) idx i j); try done.
  - by destruct wide.
  - by apply Hrange.
  - intros j'. apply val_range. intros. apply leaf_range.
  - intros j'. apply val_range. intros. apply leaf_range.
  - by apply Hwr.
  - intros j' Hne. unfold val, leaf_r. rewrite (proj2 (Z.eqb_neq _ _) Hne). by rewrite Z.lxor_0_r.
Qed.

End Words.

(** *** Both parties, for chosen indexes *)

Section Chosen.
Context (wide : bool) (w out_s out_r : list Z) (S : slot -> option bytes).
Local Abbreviation finished := (finished wide).
Local Abbreviation corrected := (corrected wide w out_r).
Context `{!WordGroup (word_bits wide) op}.
Hypothesis Hw : N <= vsize w.
Hypothesis Hwr : forall i, 0 <= i < N -> 0 <= blk w i < 2 ^ word_bits wide.
Hypothesis Hos : mp_vole_size_ p <= vsize out_s.
Hypothesis Hor : mp_vole_size_ p <= vsize out_r.
Hypothesis Hbn : b + N < 2 ^ 31 - 1.
Hypothesis Hidx : vsize (indexes_ p) = N /\ forall i, 0 <= i < N -> blk (indexes_ p) i = idx i /\ 0 <= idx i < size i.
Hypothesis HSr : forall i, 0 <= i < N -> tree_does S (blk ph rr) i (recv_tree rp h p r) leaf_r rr.
Hypothesis HSs : forall i, 0 <= i < N -> tree_does S (blk ph (1 - rr)) i (send_tree rp fresh h p s seeds) leaf_s (1 - rr).
Hypothesis HSf : S (slot2 ph nm rr (b + N)) = Some (array_bytes (word_bytes wide) (sent_sums w wide)).

Definition chosen_ctx (c0 : Context) : Context := p2p_next (1 - rr) rr (ctx_at N c0).

(** The trees of a party along the loop. *)
Lemma trees_run tree leaf q rank c0 : (forall i, 0 <= i < N -> tree_does S q i tree leaf rank) ->
  member ph nm k rank c0 -> exchanged rr a b c0 ->
  forall i span st, 0 <= i < N -> vsize span = size i -> ctx st = ctx_at i c0 ->
    runs S q (tree i span) st (calls_of q (interval_slots i)) (ctx_at (i + 1) c0)
      (fun leaves => vsize leaves = size i /\ holds leaves (size i) (leaf i)).
Proof.
  intros Ht Hm Hx i span st Hi Hspan Hst. destruct (ctx_at_ok i c0 rank ltac:(lia) Hm Hx) as [Hm' Hx'].
  rewrite ctx_at_next by lia. by apply (Ht i Hi span st _ Hspan Hst).
Qed.

Definition mpfss_send (ws : bool) : LinkM (list Z) :=
  if ws then MpfssSend_128 rp fresh h p op s seeds w out_s else MpfssSend_64 rp fresh h p op s seeds w out_s.
Definition mpfss_recv (ws : bool) : LinkM (list Z) :=
  if ws then MpfssRecv_128 rp h p op r out_r else MpfssRecv_64 rp fresh h p op r out_r.

Lemma chosen_send st c0 : ctx st = c0 -> member ph nm k (1 - rr) c0 -> exchanged rr a b c0 ->
  runs S (blk ph (1 - rr)) (mpfss_send wide) st (calls_of (blk ph (1 - rr)) chosen_slots) (chosen_ctx c0) (finished leaf_s out_s).
Proof.
  intros Hst Hm Hx. pose proof (ok_num p Hp) as HN. destruct (vsize_negated w Hw) as [Zn Fn].
  destruct (ctx_at_ok N c0 _ ltac:(lia) Hm Hx) as [HmN [_ HbN]].
  assert (Hss : require_ot_num_ p <= OtSend.Size s) by (pose proof (in_step_correlated _ _ _ _ _ _ Hstep) as [-> _]; done).
  pose proof (trees_run _ _ _ _ c0 HSs Hm Hx) as Ht.
  pose proof (other_rank ph nm k (1 - rr) _ HmN Hph ltac:(lia)) as Hnext. replace (1 - (1 - rr)) with rr in Hnext by lia.
  pose proof (ok_assumption p Hp) as Has.
  unfold chosen_slots. rewrite calls_of_app, calls_of_bind, (proj2 (slot2_calls _)).
  pose proof (progress_finished wide) as Hfin. pose proof (sums_are_sent wide w out_s) as Hsent.
  unfold mpfss_send, chosen_ctx. revert HSf Hfin Hsent. destruct wide; intros HSf' Hfin Hsent.
  - unfold MpfssSend_128. do 4 (runs_checks st Hst). eapply runs_bind.
    { by apply (loop_128 rp p op Hp S _ _ _ _ (fun i => ctx_at i c0) (fun i => op_sub op 0 (blk w i)) out_s Hos Ht). }
    clear st Hst. intros [out sums] st P Hst. cbn [fst snd] in *. rewrite (Hsent _ _ P).
    runs_reads_ctx st Hst. rewrite Hnext. runs_sends st Hst HbN HSf'. apply runs_ret; [done|]. by eapply Hfin.
  - unfold MpfssSend_64. do 4 (runs_checks st Hst). eapply runs_bind.
    { by apply (loop_64 rp fresh p op Hp Hfresh S _ _ _ _ (fun i => ctx_at i c0) (fun i => op_sub op 0 (blk w i)) out_s Hos Ht). }
    clear st Hst. intros [[dpf out] sums] st P Hst. cbn [fst snd] in *. rewrite (Hsent _ _ P).
    runs_reads_ctx st Hst. rewrite Hnext. runs_sends st Hst HbN HSf'. apply runs_ret; [done|]. by eapply Hfin.
Qed.

Lemma chosen_recv st c0 : ctx st = c0 -> member ph nm k rr c0 -> exchanged rr a b c0 ->
  runs S (blk ph rr) (mpfss_recv wide) st (calls_of (blk ph rr) chosen_slots) (chosen_ctx c0) corrected.
Proof.
  intros Hst Hm Hx. pose proof (ok_num p Hp) as HN. destruct vsize_zeros as [Zn Fn].
  destruct (ctx_at_ok N c0 _ ltac:(lia) Hm Hx) as [HmN [_ HbN]].
  pose proof (trees_run _ _ _ _ c0 HSr Hm Hx) as Ht.
  pose proof (other_rank ph nm k rr _ HmN Hph Hrr) as Hnext. pose proof (ok_assumption p Hp) as Has.
  unfold chosen_slots. rewrite calls_of_app, calls_of_bind, (proj1 (slot2_calls _)).
  assert (Hfin : forall out sums, progress p op (val rp leaf_r wide) (fun _ => 0) out_r N out sums ->
    exists out', for_up (Z.to_nat N) 0 (correct_index p op (indexes_ p) (sent_sums w wide) sums) out = Some out' /\ corrected out').
  { intros out sums P. apply correct_finished; try done; [intros i Hi; by apply Hidx|apply Hidx|intros i Hi; by apply Hidx]. }
  assert (Hsz : u64 (N * Z.of_nat (word_bytes wide)) <= vsize (array_bytes (word_bytes wide) (sent_sums w wide))).
  { rewrite vsize_array, vsize_sent, u64_small; [lia|]. destruct wide; cbn; lia. }
  pose proof (read_sent wide w Hwr) as Hread. set (Q := corrected) in *. clearbody Q.
  revert HSf Hfin Hsz Hread. unfold mpfss_recv, chosen_ctx. destruct wide; intros HSf' Hfin Hsz Hread; cbn [word_bytes] in *.
  - change (Z.of_nat 16) with 16 in Hsz. unfold MpfssRecv_128. do 3 (runs_checks st Hst). eapply runs_bind.
    { by apply (loop_128 rp p op Hp S _ _ _ _ (fun i => ctx_at i c0) (fun _ => 0) out_r Hor Ht). }
    clear st Hst. intros [out sums] st P Hst. cbn [fst snd] in *. destruct (Hfin _ _ P) as (out' & E & HQ).
    runs_reads_ctx st Hst. rewrite Hnext. runs_receives st Hst HbN HSf'. runs_checks st Hst.
    eapply runs_lift; [by rewrite Hread|exact Hst|]. next_session st Hst. rewrite E. by apply runs_ret.
  - change (Z.of_nat 8) with 8 in Hsz. unfold MpfssRecv_64. do 3 (runs_checks st Hst). eapply runs_bind.
    { by apply (loop_64 rp fresh p op Hp Hfresh S _ _ _ _ (fun i => ctx_at i c0) (fun _ => 0) out_r Hor Ht). }
    clear st Hst. intros [[dpf out] sums] st P Hst. cbn [fst snd] in *. destruct (Hfin _ _ P) as (out' & E & HQ).
    runs_reads_ctx st Hst. rewrite Hnext. runs_receives st Hst HbN HSf'. runs_checks st Hst.
    eapply runs_lift; [by rewrite Hread|exact Hst|]. next_session st Hst. rewrite E. by apply runs_ret.
Qed.
End Chosen.
End Protocol.
