(* ===== verification/MpfssFixedRuns.v ===== *)
(** Runs of [MpfssFixed]: the super batches, the intervals they hold and the message
    they send together; the trees of an interval, the loops over the super batches on
    both sides, and both parties as programs. *)

From Stdlib Require Import ZArith Lia ZifyBool Bool.
From stdpp Require Import base numbers list option gmap.
From S2P Require Import Prelude BitBlock BitSet BitSetString ChannelKeys OtStore OtStoreFacts OtStoreTheorems LinkProgram Context LinkGroup Collectives.
From S2P Require Import CollectivesFacts CrHash TwoParty Sgrr SgrrFacts SgrrTheorems Gywz GywzFacts GywzTheorems Mpfss.
From S2P Require Import MpfssFacts MpfssRuns.

Local Open Scope Z_scope.

Section Batches.
Context (p : MpFssParam).
Hypothesis Hp : param_ok p.
Local Abbreviation N := (noise_num_ p).
Local Abbreviation sp := (sp_vole_size_ p).
Local Abbreviation last := (last_sp_vole_size_ p).
Local Abbreviation size := (this_size p).
Local Abbreviation bl := (depth sp).
Local Abbreviation ll := (depth last).
Local Abbreviation SB := (super_batch_num p).

Lemma super_batches : 16 * (SB - 1) < N <= 16 * SB.
Proof.
  pose proof (ok_num p Hp). unfold super_batch_num, DivCeil, kSuperBatch. replace (N =? 0) with false by lia. dlia.
Qed.

Lemma bound_min s : 0 <= s < SB -> bound p s = Z.min 16 (N - 16 * s).
Proof.
  intros Hs. pose proof (ok_num p Hp). pose proof super_batches. unfold bound, kSuperBatch, u32, u64.
  rewrite (Z.mod_small (s * 16)), (Z.mod_small (N - s * 16) (2 ^ 64)), Z.mod_small by lia. lia.
Qed.

Lemma batch_idx_eq s i : 0 <= s < SB -> 0 <= i < bound p s -> batch_idx s i = 16 * s + i /\ 16 * s + i < N.
Proof.
  intros Hs Hi. rewrite bound_min in Hi by done. pose proof (ok_num p Hp). pose proof super_batches.
  unfold batch_idx, kSuperBatch, u32. rewrite (Z.mod_small (s * 16)), Z.mod_small by lia. lia.
Qed.

Lemma is_last_eq s i : 0 <= s < SB -> 0 <= i < bound p s -> is_last p s i = (16 * s + i =? N - 1).
Proof.
  intros Hs Hi. unfold is_last. rewrite bound_min in Hi |- * by done. pose proof super_batches. lia.
Qed.

Lemma size_at_eq s i : 0 <= s < SB -> 0 <= i < bound p s -> size_at p s i = size (16 * s + i).
Proof. intros Hs Hi. unfold size_at, this_size. by rewrite is_last_eq. Qed.

Lemma length_at_eq s i : 0 <= s < SB -> 0 <= i < bound p s -> length_at p bl ll s i = depth (size (16 * s + i)).
Proof. intros Hs Hi. unfold length_at, this_size. rewrite is_last_eq by done. by destruct (_ =? _). Qed.

Lemma lengths : 0 < bl <= ll /\ ll <= 31.
Proof.
  pose proof (ok_last p Hp). pose proof (ok_size p Hp). destruct (depth_height sp ltac:(lia)) as [(_ & ? & _) _].
  destruct (depth_height last ltac:(lia)) as [(_ & ? & _) _]. pose proof (depth_mono sp last ltac:(lia)). lia.
Qed.

(** Interval [i] of a super batch is followed by another one, or ends its message. *)
Lemma length_next s i : 0 <= s < SB -> 0 <= i < bound p s ->
  msg_length p bl ll s = (bound p s - 1) * bl + depth (size (16 * s + bound p s - 1)) /\
  (i < bound p s - 1 -> depth (size (16 * s + i)) = bl).
Proof.
  intros Hs Hi. pose proof lengths as Hl. pose proof super_batches as Hsb.
  assert (Hm : 0 <= (bound p s - 1) * bl <= 15 * 31).
  { rewrite bound_min in Hi |- * by done. split; [apply Z.mul_nonneg_nonneg|apply Z.mul_le_mono_nonneg]; lia. }
  unfold msg_length, this_size, kSuperBatch. rewrite (u64_small ((bound p s - 1) * bl)), !u64_small by lia.
  rewrite bound_min in Hi, Hm |- * by done.
  destruct (Z.eqb_spec s (SB - 1)), (Z.eqb_spec (16 * s + Z.min 16 (N - 16 * s) - 1) (N - 1)), (Z.eqb_spec (16 * s + i) (N - 1)); lia.
Qed.

Lemma msg_fits s : 0 <= s < SB -> 0 < msg_length p bl ll s <= 15 * bl + ll.
Proof.
  intros Hs. assert (Hb : 0 < bound p s <= 16) by (rewrite bound_min by done; pose proof super_batches; lia).
  destruct (length_next s 0 Hs ltac:(lia)) as [-> _]. pose proof lengths. 
  assert (Hl : bl <= depth (size (16 * s + bound p s - 1)) <= ll) by (unfold this_size; destruct (_ =? _); lia).
  assert ((bound p s - 1) * bl <= 15 * bl) by (apply Z.mul_le_mono_nonneg_r; lia).
  assert (0 <= (bound p s - 1) * bl) by (apply Z.mul_nonneg_nonneg; lia). lia.
Qed.

Lemma part_fits s i : 0 <= s < SB -> 0 <= i < bound p s -> 0 <= i * bl /\ i * bl + depth (size (16 * s + i)) <= msg_length p bl ll s.
Proof.
  intros Hs Hi. destruct (length_next s i Hs Hi) as [-> Hlen]. pose proof lengths. split; [apply Z.mul_nonneg_nonneg; lia|].
  destruct (Z.eq_dec i (bound p s - 1)) as [-> | Hne]; [by replace (16 * s + (bound p s - 1)) with (16 * s + bound p s - 1) by lia|].
  rewrite Hlen by lia. assert ((i + 1) * bl <= (bound p s - 1) * bl) by (apply Z.mul_le_mono_nonneg_r; lia).
  assert (0 < depth (size (16 * s + bound p s - 1))) by (unfold this_size; destruct (_ =? _); lia). lia.
Qed.

(** *** Messages *)

Context (masked : Z -> list Z).
Hypothesis Hmasked : forall k, 0 <= k < N -> vsize (masked k) = depth (size k) /\
  forall t, 0 <= t < depth (size k) -> 0 <= blk (masked k) t < 2 ^ 128.

(** The message of super batch [s]: the masked sums of its intervals in a row. *)
Definition message (s : Z) : list Z :=
  (fun t => let i := Z.min (t / bl) (bound p s - 1) in blk (masked (16 * s + i)) (t - i * bl)) <$> seqZ 0 (msg_length p bl ll s).

(** A buffer that starts with the parts of the first [i] intervals. *)
Definition parts (s i : Z) (buf : list Z) : Prop :=
  forall i' t, 0 <= i' < i -> 0 <= t < depth (size (16 * s + i')) -> blk buf (i' * bl + t) = blk (masked (16 * s + i')) t.

Lemma vsize_message s : 0 <= s < SB -> vsize (message s) = msg_length p bl ll s.
Proof. intros Hs. pose proof (msg_fits s Hs). unfold message, vsize. rewrite length_fmap, length_seqZ. lia. Qed.

Lemma blk_message s t : 0 <= s < SB -> 0 <= t < msg_length p bl ll s ->
  let i := Z.min (t / bl) (bound p s - 1) in
  blk (message s) t = blk (masked (16 * s + i)) (t - i * bl) /\ 0 <= i < bound p s /\ 0 <= t - i * bl < depth (size (16 * s + i)).
Proof.
  intros Hs Ht i. assert (Hb : 0 < bound p s <= 16) by (rewrite bound_min by done; pose proof super_batches; lia).
  pose proof lengths. assert (Hq : 0 <= t / bl) by (apply Z.div_pos; lia). split.
  - unfold message, blk at 1, vget. replace (0 <=? t) with true by lia. rewrite list_lookup_fmap, lookup_seqZ_lt by lia.
    cbn. by rewrite Z2Nat.id, Z.add_0_l by lia.
  - split; [lia|]. destruct (length_next s i Hs ltac:(lia)) as [Hm Hlen]. pose proof (Z.div_mod t bl ltac:(lia)).
    pose proof (Z.mod_pos_bound t bl ltac:(lia)). subst i. destruct (Z.min_spec (t / bl) (bound p s - 1)) as [[Hlt E] | [Hge E]]; rewrite E in *.
    + rewrite Hlen by lia. lia.
    + replace (16 * s + (bound p s - 1)) with (16 * s + bound p s - 1) by lia. split; [|lia].
      assert ((bound p s - 1) * bl <= t / bl * bl) by (apply Z.mul_le_mono_nonneg_r; lia). lia.
Qed.

Lemma message_parts s : 0 <= s < SB -> parts s (bound p s) (message s).
Proof.
  intros Hs i t Hi Ht. pose proof (part_fits s i Hs Hi) as [H0 Hf]. pose proof lengths.
  destruct (blk_message s (i * bl + t) Hs ltac:(lia)) as [-> _].
  assert (E : Z.min ((i * bl + t) / bl) (bound p s - 1) = i); [|rewrite E; f_equal; lia].
  destruct (length_next s i Hs Hi) as [_ Hlen]. rewrite Z.div_add_l by lia. pose proof (Z.div_pos t bl ltac:(lia) ltac:(lia)).
  destruct (Z.eq_dec i (bound p s - 1)) as [-> | Hne]; [lia|]. rewrite Hlen in Ht by lia. rewrite Z.div_small by lia. lia.
Qed.

(** A full buffer starts with the message. *)
Lemma parts_message s buf : 0 <= s < SB -> msg_length p bl ll s <= vsize buf -> parts s (bound p s) buf ->
  read_span buf 0 (msg_length p bl ll s) = Some (message s).
Proof.
  intros Hs Hv Hb. pose proof (msg_fits s Hs). unfold read_span. replace (_ && _ && _) with true by lia. f_equal.
  destruct (blk_part buf 0 (msg_length p bl ll s) 0 ltac:(lia) ltac:(lia) ltac:(lia)) as [Hz _].
  apply blk_ext; [by rewrite vsize_message|]. intros t Ht. rewrite Hz in Ht.
  destruct (blk_part buf 0 (msg_length p bl ll s) t ltac:(lia) ltac:(lia) ltac:(lia)) as [_ ->]; [|done].
  destruct (blk_message s t Hs Ht) as (-> & Hi & Hj). rewrite <- (Hb _ _ Hi Hj). f_equal. lia.
Qed.

Lemma message_range s t : 0 <= s < SB -> 0 <= t < vsize (message s) -> 0 <= blk (message s) t < 256 ^ Z.of_nat 16.
Proof.
  intros Hs Ht. rewrite vsize_message in Ht by done. destruct (blk_message s t Hs Ht) as (-> & Hi & Hj).
  apply Hmasked; [|done]. pose proof (batch_idx_eq s _ Hs Hi). lia.
Qed.

(** Part [i] of a buffer is read, and written. *)
Lemma read_part s i buf : 0 <= s < SB -> 0 <= i < bound p s -> msg_length p bl ll s <= vsize buf -> parts s (i + 1) buf ->
  read_span buf (i * bl) (depth (size (16 * s + i))) = Some (masked (16 * s + i)).
Proof.
  intros Hs Hi Hv Hb. pose proof (part_fits s i Hs Hi) as [H0 Hf]. destruct (batch_idx_eq s i Hs Hi) as [_ Hn].
  destruct (Hmasked (16 * s + i) ltac:(lia)) as [Hz _]. assert (0 <= vsize (masked (16 * s + i))) by (unfold vsize; lia).
  unfold read_span. replace (_ && _ && _) with true by lia. f_equal.
  destruct (blk_part buf (i * bl) (depth (size (16 * s + i))) 0 ltac:(lia) ltac:(lia) ltac:(lia)) as [Hz' _].
  apply blk_ext; [by rewrite Hz|]. intros t Ht. rewrite Hz' in Ht.
  destruct (blk_part buf (i * bl) (depth (size (16 * s + i))) t ltac:(lia) ltac:(lia) ltac:(lia)) as [_ ->]; [|done].
  by apply Hb; [lia|].
Qed.

Lemma write_part s i buf : 0 <= s < SB -> 0 <= i < bound p s -> msg_length p bl ll s <= vsize buf -> parts s i buf ->
  exists buf', write_span buf (i * bl) (masked (16 * s + i)) = Some buf' /\ vsize buf' = vsize buf /\ parts s (i + 1) buf'.
Proof.
  intros Hs Hi Hv Hb. pose proof (part_fits s i Hs Hi) as [H0 Hf]. destruct (batch_idx_eq s i Hs Hi) as [_ Hn].
  destruct (Hmasked (16 * s + i) ltac:(lia)) as [Hz _].
  destruct (write_ok buf (i * bl) (masked (16 * s + i))) as [buf' E]; [lia|lia|]. exists buf'. split; [done|].
  split; [by destruct (blk_write _ _ _ _ 0 E) as (_ & _ & -> & _)|]. intros i' t Hi' Ht.
  destruct (blk_write _ _ _ _ (i' * bl + t) E) as (_ & _ & _ & ->). rewrite Hz.
  destruct (Z.eq_dec i' i) as [-> | Hne].
  - replace ((_ <=? _) && _) with true by lia. f_equal. lia.
  - assert (Hlt : i' * bl + t < i * bl).
    { destruct (length_next s i' Hs ltac:(lia)) as [_ Hlen]. rewrite Hlen in Ht by lia.
      assert ((i' + 1) * bl <= i * bl) by (apply Z.mul_le_mono_nonneg_r; [pose proof lengths|]; lia). lia. }
    replace ((_ <=? _) && _) with false by lia. apply Hb; [lia|done].
Qed.
End Batches.

Lemma depth_pow k : 0 < k -> depth (2 ^ k) = k.
Proof.
  intros Hk. unfold depth. replace (2 ^ k - 1) with (Z.pred (2 ^ k)) by lia. rewrite Z.log2_pred_pow2 by done. lia.
Qed.

Section Fixed.
Context (rp : Z -> Z) (fresh : Z -> list Z) (h : heap) (p : MpFssParam) (op : MpfssOp).
Context (s : OtSendStore) (r : OtRecvStore) (l lr : list Z) (bits : dynamic_bitset) (seeds : Z -> Z) (idx : Z -> Z).
Hypothesis Hp : param_ok p.
Hypothesis Hfresh : forall k, 0 <= k -> vsize (fresh k) = k.
Hypothesis Hseeds : forall i, 0 <= seeds i < 2 ^ 128.
Hypothesis Hstep : in_step h s r l lr bits.
Hypothesis Hdelta : 0 < send_delta s < 2 ^ 128.
Hypothesis Hlr : forall i, 0 <= i < vsize lr -> 0 <= blk lr i < 2 ^ 128.
Hypothesis Hots : require_ot_num_ p <= OtRecv.Size r.
Context (wide : bool).
Hypothesis Hsmall : wide = true \/ last_sp_vole_size_ p <= 2 ^ 30.
Local Abbreviation N := (noise_num_ p).
Local Abbreviation sp := (sp_vole_size_ p).
Local Abbreviation last := (last_sp_vole_size_ p).
Local Abbreviation size := (this_size p).
Local Abbreviation bl := (depth sp).
Local Abbreviation ll := (depth last).
Local Abbreviation SB := (super_batch_num p).
Local Abbreviation leaf_s := (leaf_s rp p s seeds).
Local Abbreviation leaf_r := (leaf_r rp p s seeds idx).

(** The choices of interval [k] make its index. *)
Hypothesis Hbits : forall k t, 0 <= k < N -> 0 <= t < depth (size k) ->
  Z.testbit (idx k) t = choice_of (recv_type r) lr bits (k * bl + t).
Hypothesis Hidx : forall k, 0 <= k < N -> 0 <= idx k < size k.

(** The number of leaves that are grown. *)
Definition tree_size (k : Z) : Z := if wide then size k else 2 ^ depth (size k).

Lemma tree_size_ok k : 1 < tree_size k <= 2 ^ 31 /\ size k <= tree_size k /\ depth (tree_size k) = depth (size k) /\
  (wide = false -> depth (size k) < 31).
Proof.
  destruct (size_depth p Hp k) as (Hs & _ & Hd). destruct (depth_height (size k) Hs) as [(_ & _ & H1 & H2) _]. unfold tree_size.
  destruct Hsmall as [-> | Hsm]; [done|]. destruct wide; [done|]. rewrite depth_pow by lia.
  assert (Hlt : depth (size k) < 31).
  { destruct (Z.lt_ge_cases (depth (size k)) 31) as [|Hge]; [done|].
    assert (2 ^ 30 <= 2 ^ (depth (size k) - 1)) by (apply Z.pow_le_mono_r; lia).
    pose proof (ok_last p Hp). unfold this_size in *. destruct (k =? N - 1); lia. }
  assert (2 ^ depth (size k) <= 2 ^ 31) by (apply Z.pow_le_mono_r; lia). lia.
Qed.

(** What the parties compute for interval [k], and the masked sums that are sent. *)
Record fixed_data (k : Z) (masked : list Z) : Prop := {
  fd_size : vsize masked = depth (size k);
  fd_range t : 0 <= t < depth (size k) -> 0 <= blk masked t < 2 ^ 128;
  fd_send : exists s', OtSend.Slice h s (k * bl) (k * bl + depth (size k)) = Val s' /\
    forall out buf, vsize out = tree_size k -> vsize buf = depth (size k) -> exists leaves,
      gywz_send_fixed rp h s' (tree_size k) (seeds k) out buf = Val (leaves, masked) /\
      vsize leaves = tree_size k /\ holds leaves (size k) (leaf_s k);
  fd_recv : exists r', OtRecv.Slice h r (k * bl) (k * bl + depth (size k)) = Val r' /\
    choices_index h r' (depth (size k)) = Val (idx k) /\
    forall out, vsize out = tree_size k -> exists leaves,
      gywz_recv_fixed rp h r' (tree_size k) out masked = Val leaves /\
      vsize leaves = tree_size k /\ holds leaves (size k) (leaf_r k)
}.

Lemma fixed_interval k : 0 <= k < N -> exists masked, fixed_data k masked.
Proof.
  intros Hk. destruct (interval_cots h p s r l lr bits Hp Hstep Hdelta Hlr Hots k Hk) as (s' & r' & Es & Er & Hc).
  destruct (tree_size_ok k) as (Hn & Hsz & Hdep & _). destruct (size_depth p Hp k) as (Hs & _ & Hd).
  rewrite <- Hdep in Hc at 1.
  destruct (fixed_messages rp h s' r' (tree_size k) (seeds k) (send_delta s) _ _ Hc Hn ltac:(lia) (Hseeds k))
    as (index & masked & Ei & Hi & Bi & Zm & Rm & Hsend & Hrecv).
  rewrite Hdep in *. destruct (depth_height (size k) Hs) as [(_ & _ & _ & Hpow) _].
  assert (index = idx k) as ->.
  { apply Z.bits_inj'. intros t Ht. destruct (Z.lt_ge_cases t (depth (size k))) as [Hlt | Hge].
    - by rewrite Bi, Hbits by done.
    - pose proof (Hidx k Hk). rewrite !(testbit_high (depth (size k))) by lia. done. }
  exists masked. split; [done|done|..].
  - exists s'. split; [done|]. intros out buf Ho Hb. destruct (Hsend out buf ltac:(lia) Hb) as (leaves & E & Z & F).
    exists leaves. split; [done|]. split; [lia|]. intros j Hj. apply F. lia.
  - exists r'. split; [done|]. split; [done|]. intros out Ho. destruct (Hrecv out ltac:(lia)) as (leaves & E & Z & F).
    exists leaves. split; [done|]. split; [lia|]. intros j Hj. rewrite F by lia. unfold leaf_r. apply plevel_at.
    pose proof (Hidx k Hk). lia.
Qed.

Context (masked : Z -> list Z).
Hypothesis Hdata : forall k, 0 <= k < N -> fixed_data k (masked k).

Lemma masked_ok k : 0 <= k < N -> vsize (masked k) = depth (size k) /\
  forall t, 0 <= t < depth (size k) -> 0 <= blk (masked k) t < 2 ^ 128.
Proof. intros Hk. split; [by apply fd_size, Hdata|]. intros t. by apply (fd_range k _ (Hdata k Hk)). Qed.

Lemma fixed_bounds b i : 0 <= b < SB -> 0 <= i < bound p b ->
  fixed_begin bl b i = (16 * b + i) * bl /\ fixed_end p bl ll b i = (16 * b + i) * bl + depth (size (16 * b + i)).
Proof.
  intros Hb Hi. destruct (batch_idx_eq p Hp b i Hb Hi) as [E Hlt]. destruct (size_depth p Hp (16 * b + i)) as (_ & _ & Hd).
  destruct (transfers_fit h p s r l lr bits Hp Hstep Hots (16 * b + i) ltac:(lia)) as (H1 & H2 & H3).
  unfold fixed_end, fixed_begin. rewrite E, length_at_eq by done. by rewrite (u64_small (_ * bl)), u64_small by lia.
Qed.

Lemma send_tree_run b i span gm : 0 <= b < SB -> 0 <= i < bound p b -> vsize span = tree_size (16 * b + i) ->
  msg_length p bl ll b <= vsize gm -> parts p masked b i gm ->
  exists leaves gm', send_fixed_tree rp h p bl ll s seeds b i (tree_size (16 * b + i)) span gm = Val (leaves, gm') /\
    vsize leaves = tree_size (16 * b + i) /\ holds leaves (size (16 * b + i)) (leaf_s (16 * b + i)) /\
    vsize gm' = vsize gm /\ parts p masked b (i + 1) gm'.
Proof.
  intros Hb Hi Hspan Hgm Hparts. destruct (batch_idx_eq p Hp b i Hb Hi) as [Eb Hlt].
  destruct (tree_size_ok (16 * b + i)) as (Hn & _). destruct (fixed_bounds b i Hb Hi) as [E1 E2].
  destruct (part_fits p Hp b i Hb Hi) as [Hf0 Hf]. destruct (size_depth p Hp (16 * b + i)) as (_ & _ & Hd).
  unfold send_fixed_tree. rewrite E1, E2, length_at_eq by done.
  destruct (fd_send _ _ (Hdata (16 * b + i) ltac:(lia))) as (s' & -> & Hs). cbn [mbind res_bind].
  unfold read_span. replace (_ && _ && _) with true by lia. cbn [access mbind res_bind]. rewrite Eb.
  unfold u32. rewrite Z.mod_small by lia.
  destruct (Hs span _ Hspan (proj1 (blk_part gm (i * bl) (depth (size (16 * b + i))) 0 ltac:(lia) ltac:(lia) ltac:(lia))))
    as (leaves & -> & Zl & Fl). cbn [mbind res_bind].
  destruct (write_part p Hp masked masked_ok b i gm Hb Hi Hgm Hparts) as (gm' & -> & Zg & Pg).
  by exists leaves, gm'.
Qed.

Lemma recv_tree_run b i span indexes : 0 <= b < SB -> 0 <= i < bound p b -> vsize span = tree_size (16 * b + i) -> vsize indexes = N ->
  exists leaves, recv_fixed_tree rp h p bl ll r b i (tree_size (16 * b + i)) span (message p masked b) indexes =
      Val (leaves, <[Z.to_nat (16 * b + i) := idx (16 * b + i)]> indexes) /\
    vsize leaves = tree_size (16 * b + i) /\ holds leaves (size (16 * b + i)) (leaf_r (16 * b + i)).
Proof.
  intros Hb Hi Hspan Hz. destruct (batch_idx_eq p Hp b i Hb Hi) as [Eb Hlt].
  destruct (tree_size_ok (16 * b + i)) as (Hn & _). destruct (fixed_bounds b i Hb Hi) as [E1 E2].
  destruct (fd_recv _ _ (Hdata (16 * b + i) ltac:(lia))) as (r' & Er & Ei & Hr).
  destruct (Hr span Hspan) as (leaves & El & Zl & Fl). exists leaves. split; [|done].
  unfold recv_fixed_tree. rewrite E1, E2, length_at_eq by done. rewrite Er. cbn [mbind res_bind].
  assert (Hparts : parts p masked b (i + 1) (message p masked b)).
  { intros i' t Hi' Ht. apply (message_parts p Hp masked b Hb); [lia|done]. }
  rewrite (read_part p Hp masked masked_ok b i _ Hb Hi ltac:(rewrite vsize_message by done; lia) Hparts).
  cbn [access mbind res_bind]. rewrite Ei. cbn [mbind res_bind]. rewrite Eb, vget_blk by lia. cbn [access mbind res_bind].
  pose proof (Hidx (16 * b + i) ltac:(lia)) as Hx. pose proof (size_bounds p Hp (16 * b + i)). unfold u32.
  rewrite !Z.mod_small by lia. 
  assert (E : (if blk indexes (16 * b + i) =? idx (16 * b + i) then Val indexes
               else access (vset indexes (16 * b + i) (idx (16 * b + i)))) = Val (<[Z.to_nat (16 * b + i) := idx (16 * b + i)]> indexes)).
  { destruct (Z.eqb_spec (blk indexes (16 * b + i)) (idx (16 * b + i))) as [<- | Hne]; [|by rewrite vset_Some by lia].
    f_equal. symmetry. apply list_insert_id. rewrite vget_nat, Z2Nat.id by lia. apply vget_blk. lia. }
  rewrite E. cbn [mbind res_bind]. by rewrite El.
Qed.
(** *** Hashing and storing *)

Lemma hash_low_run n leaves f : 0 <= n <= vsize leaves -> holds leaves n f ->
  exists hashed, hash_low rp n leaves = Val hashed /\ vsize hashed = vsize leaves /\
    holds hashed n (fun j => CrHash_128 rp (f j)).
Proof.
  intros Hn Hf. unfold hash_low. destruct (subspan_part leaves 0 n) as (part & E & Z); [lia..|]. rewrite E. cbn [mbind res_bind].
  destruct (write_ok leaves 0 (ParaCrHashInplace_128 rp part)) as [hashed Eh]; [lia|rewrite vsize_hashed; lia|].
  exists hashed. rewrite Eh. split; [done|]. split; [by destruct (blk_write _ _ _ _ 0 Eh) as (_ & _ & -> & _)|].
  intros j Hj. destruct (blk_write _ _ _ _ j Eh) as (_ & _ & _ & ->). rewrite vsize_hashed, Z.
  replace ((0 <=? j) && _) with true by lia. rewrite Z.sub_0_r.
  unfold subspan in E. replace (0 <=? vsize leaves) with true in E by lia. cbn [OtStore.enforce mbind res_bind] in E. injection E as <-.
  destruct (blk_part leaves 0 n j ltac:(lia) ltac:(lia) ltac:(lia)) as [Zp Bp].
  rewrite (holds_hashed rp _ n f); [done|lia| |done]. intros t Ht.
  destruct (blk_part leaves 0 n t ltac:(lia) ltac:(lia) ltac:(lia)) as [_ ->]; [|done]. by apply Hf.
Qed.

Section Store.
Context (leaf : Z -> Z -> Z) (init : Z -> Z) (out0 : list Z).
Hypothesis Hout : mp_vole_size_ p <= vsize out0.

Lemma store_low_run b i hashed out sums : 0 <= b < SB -> 0 <= i < bound p b -> wide = false -> size (16 * b + i) <= vsize hashed ->
  holds hashed (size (16 * b + i)) (fun j => CrHash_128 rp (leaf (16 * b + i) j)) ->
  progress p op (val rp leaf wide) init out0 (16 * b + i) out sums ->
  exists out' sums', store_low p op b i hashed out sums = Some (out', sums') /\
    progress p op (val rp leaf wide) init out0 (16 * b + (i + 1)) out' sums'.
Proof.
  intros Hb Hi Ew Hz Hh P. destruct (batch_idx_eq p Hp b i Hb Hi) as [Eb Hlt]. pose proof (size_bounds p Hp (16 * b + i)).
  pose proof (ok_size p Hp). unfold store_low. rewrite Eb, size_at_eq, (offset_u64 p Hp) by (done || lia).
  set (low := take (Z.to_nat (size (16 * b + i))) (drop (Z.to_nat 0) hashed)).
  assert (E0 : read_span hashed 0 (size (16 * b + i)) = Some low).
  { unfold read_span. by replace (_ && _ && _) with true by lia. }
  rewrite E0. cbn [mbind option_bind]. assert (Hlow : vsize low = size (16 * b + i)) by (apply (blk_part hashed 0 _ 0); lia).
  destruct (progress_step p op Hp (val rp leaf wide) init out0 (16 * b + i) out sums (u64 <$> low) Hout ltac:(lia) P)
    as (out' & sums' & -> & E2 & E3 & P').
  - unfold vsize in *. rewrite length_fmap. lia.
  - intros j Hj. rewrite blk_map by lia. unfold val, to_word. rewrite Ew. rewrite <- Hh by done. f_equal. unfold low.
    destruct (blk_part hashed 0 (size (16 * b + i)) j ltac:(lia) ltac:(lia) ltac:(lia)) as [_ Hb']. by rewrite Hb', Z.add_0_l.
  - cbn [mbind option_bind]. rewrite E2. cbn [mbind option_bind]. rewrite E3. exists out', sums'. split; [done|].
    by replace (16 * b + (i + 1)) with (16 * b + i + 1) by lia.
Qed.

Lemma store_128_run b i leaves out sums : 0 <= b < SB -> 0 <= i < bound p b -> wide = true -> vsize leaves = size (16 * b + i) ->
  holds leaves (size (16 * b + i)) (leaf (16 * b + i)) -> progress p op (val rp leaf wide) init out0 (16 * b + i) out sums ->
  exists out' sums', write_span out ((16 * b + i) * sp) (ParaCrHashInplace_128 rp leaves) = Some out' /\
    add_sum op (16 * b + i) (ParaCrHashInplace_128 rp leaves) sums = Some sums' /\
    progress p op (val rp leaf wide) init out0 (16 * b + (i + 1)) out' sums'.
Proof.
  intros Hb Hi Ew Hz Hh P. destruct (batch_idx_eq p Hp b i Hb Hi) as [_ Hlt].
  destruct (progress_step p op Hp (val rp leaf wide) init out0 (16 * b + i) out sums (ParaCrHashInplace_128 rp leaves) Hout ltac:(lia) P)
    as (out' & sums' & E1 & _ & E2 & P').
  - by rewrite vsize_hashed.
  - rewrite Ew. by apply holds_hashed; [lia|].
  - exists out', sums'. split; [done|]. split; [done|]. by replace (16 * b + (i + 1)) with (16 * b + i + 1) by lia.
Qed.
End Store.

(** *** The bodies of the loops *)

Section Bodies.
Context (w out_s out_r : list Z).
Hypothesis Hos : mp_vole_size_ p <= vsize out_s.
Hypothesis Hor : mp_vole_size_ p <= vsize out_r.

Definition sending (b i : Z) (gm out sums : list Z) : Prop :=
  vsize gm = 15 * bl + ll /\ parts p masked b i gm /\
  progress p op (val rp leaf_s wide) (fun k => op_sub op 0 (blk w k)) out_s (16 * b + i) out sums.

Definition receiving (b i : Z) (indexes out sums : list Z) : Prop :=
  vsize indexes = N /\ (forall k, 0 <= k < 16 * b + i -> blk indexes k = idx k) /\
  progress p op (val rp leaf_r wide) (fun _ => 0) out_r (16 * b + i) out sums.

Lemma set_index b i indexes : 0 <= b < SB -> 0 <= i < bound p b -> vsize indexes = N ->
  (forall k, 0 <= k < 16 * b + i -> blk indexes k = idx k) ->
  let indexes' := <[Z.to_nat (16 * b + i) := idx (16 * b + i)]> indexes in
  vsize indexes' = N /\ (forall k, 0 <= k < 16 * b + (i + 1) -> blk indexes' k = idx k).
Proof.
  intros Hb Hi Hz Hx. destruct (batch_idx_eq p Hp b i Hb Hi) as [_ Hlt]. cbn zeta. rewrite vsize_insert. split; [done|].
  intros k Hk. rewrite blk_insert by lia. destruct (Z.eqb_spec k (16 * b + i)) as [-> | Hne]; [done|]. apply Hx. lia.
Qed.

Lemma span_128 b i out : 0 <= b < SB -> 0 <= i < bound p b -> wide = true -> mp_vole_size_ p <= vsize out ->
  exists span, subspan out (u64 (batch_idx b i * sp)) (size_at p b i) = Val span /\ vsize span = tree_size (16 * b + i) /\
    u64 (batch_idx b i * sp) = (16 * b + i) * sp /\ size_at p b i = tree_size (16 * b + i) /\
    tree_size (16 * b + i) = size (16 * b + i).
Proof.
  intros Hb Hi Ew Ho. destruct (batch_idx_eq p Hp b i Hb Hi) as [Eb Hlt]. pose proof (ok_size p Hp).
  assert (Et : tree_size (16 * b + i) = size (16 * b + i)) by (unfold tree_size; by rewrite Ew).
  rewrite Eb, size_at_eq, (offset_u64 p Hp), Et by (done || lia).
  pose proof (interval_fits p Hp (16 * b + i) ltac:(lia)). pose proof (size_bounds p Hp (16 * b + i)).
  destruct (subspan_part out ((16 * b + i) * sp) (size (16 * b + i))) as (span & E & Z); [apply Z.mul_nonneg_nonneg; lia|lia|lia|].
  by exists span.
Qed.

Lemma span_64 b i dpf : 0 <= b < SB -> 0 <= i < bound p b -> wide = false -> vsize dpf = 2 ^ ll ->
  exists span, full_size p bl ll b i = Some (tree_size (16 * b + i)) /\ subspan dpf 0 (tree_size (16 * b + i)) = Val span /\
    vsize span = tree_size (16 * b + i) /\ tree_size (16 * b + i) <= vsize dpf.
Proof.
  intros Hb Hi Ew Hz. destruct (tree_size_ok (16 * b + i)) as (Hn & _ & _ & Hlt). specialize (Hlt Ew).
  assert (Et : tree_size (16 * b + i) = 2 ^ depth (size (16 * b + i))) by (unfold tree_size; by rewrite Ew).
  assert (Hle : tree_size (16 * b + i) <= vsize dpf).
  { rewrite Et, Hz. pose proof (lengths p Hp). apply Z.pow_le_mono_r; [lia|]. unfold this_size. destruct (_ =? _); lia. }
  destruct (subspan_part dpf 0 (tree_size (16 * b + i))) as (span & E & Z); [lia..|]. exists span.
  unfold full_size. rewrite length_at_eq by done. replace (_ <? 31) with true by lia. by rewrite Et in *.
Qed.

Lemma send_body_128 b i gm out sums : 0 <= b < SB -> 0 <= i < bound p b -> wide = true -> sending b i gm out sums ->
  exists gm' out' sums', send_fixed_128 rp h p op bl ll s seeds b i (gm, out, sums) = Val (gm', out', sums') /\
    sending b (i + 1) gm' out' sums'.
Proof.
  intros Hb Hi Ew (Zg & Pg & P). pose proof (pr_size _ _ _ _ _ _ _ _ P) as Ho. destruct (batch_idx_eq p Hp b i Hb Hi) as [Eb _].
  destruct (span_128 b i out Hb Hi Ew ltac:(lia)) as (span & E & Z & Eo & Es & Et). unfold send_fixed_128. rewrite E. cbn [mbind res_bind].
  rewrite Es. destruct (send_tree_run b i span gm Hb Hi Z ltac:(pose proof (msg_fits p Hp b Hb); lia) Pg)
    as (leaves & gm' & -> & Zl & Fl & Zg' & Pg'). cbn [mbind res_bind]. rewrite Eo, Eb.
  destruct (store_128_run leaf_s _ out_s Hos b i leaves out sums Hb Hi Ew ltac:(lia) Fl P) as (out' & sums' & -> & E2 & P').
  cbn [mbind option_bind]. rewrite E2. exists gm', out', sums'. split; [done|]. split; [lia|]. done.
Qed.

Lemma recv_body_128 b i indexes out sums : 0 <= b < SB -> 0 <= i < bound p b -> wide = true -> receiving b i indexes out sums ->
  exists indexes' out' sums', recv_fixed_128 rp h p op bl ll r (message p masked b) b i (indexes, out, sums) = Val (indexes', out', sums') /\
    receiving b (i + 1) indexes' out' sums'.
Proof.
  intros Hb Hi Ew (Zx & Fx & P). pose proof (pr_size _ _ _ _ _ _ _ _ P) as Ho. destruct (batch_idx_eq p Hp b i Hb Hi) as [Eb _].
  destruct (span_128 b i out Hb Hi Ew ltac:(lia)) as (span & E & Z & Eo & Es & Et). unfold recv_fixed_128. rewrite E. cbn [mbind res_bind].
  rewrite Es. destruct (recv_tree_run b i span indexes Hb Hi Z Zx) as (leaves & -> & Zl & Fl). cbn [mbind res_bind]. rewrite Eo, Eb.
  destruct (store_128_run leaf_r _ out_r Hor b i leaves out sums Hb Hi Ew ltac:(lia) Fl P) as (out' & sums' & -> & E2 & P').
  cbn [mbind option_bind]. rewrite E2. eexists _, out', sums'. split; [done|]. destruct (set_index b i indexes Hb Hi Zx Fx). done.
Qed.

Lemma send_body_64 b i gm dpf out sums : 0 <= b < SB -> 0 <= i < bound p b -> wide = false -> vsize dpf = 2 ^ ll -> sending b i gm out sums ->
  exists gm' dpf' out' sums', send_fixed_64 rp h p op bl ll s seeds b i (gm, dpf, out, sums) = Val (gm', dpf', out', sums') /\
    vsize dpf' = 2 ^ ll /\ sending b (i + 1) gm' out' sums'.
Proof.
  intros Hb Hi Ew Zd (Zg & Pg & P). destruct (span_64 b i dpf Hb Hi Ew Zd) as (span & Ef & E & Z & Hle).
  destruct (tree_size_ok (16 * b + i)) as (Hn & Hsz & _). pose proof (size_bounds p Hp (16 * b + i)). pose proof (ok_size p Hp).
  unfold send_fixed_64. rewrite Ef. cbn [access mbind res_bind]. rewrite E. cbn [mbind res_bind].
  destruct (send_tree_run b i span gm Hb Hi Z ltac:(pose proof (msg_fits p Hp b Hb); lia) Pg)
    as (leaves & gm' & -> & Zl & Fl & Zg' & Pg'). cbn [mbind res_bind]. rewrite size_at_eq by done.
  destruct (hash_low_run (size (16 * b + i)) leaves _ ltac:(lia) Fl) as (hashed & -> & Zh & Fh). cbn [mbind res_bind].
  destruct (write_ok dpf 0 hashed) as [dpf' Ed]; [lia|lia|]. rewrite Ed. cbn [mbind option_bind].
  destruct (store_low_run leaf_s _ out_s Hos b i hashed out sums Hb Hi Ew ltac:(lia) Fh P) as (out' & sums' & -> & P').
  exists gm', dpf', out', sums'. split; [done|]. split; [by destruct (blk_write _ _ _ _ 0 Ed) as (_ & _ & -> & _)|]. split; [lia|]. done.
Qed.

Lemma recv_body_64 b i indexes dpf out sums : 0 <= b < SB -> 0 <= i < bound p b -> wide = false -> vsize dpf = 2 ^ ll ->
  receiving b i indexes out sums ->
  exists indexes' dpf' out' sums', recv_fixed_64 rp h p op bl ll r (message p masked b) b i (indexes, dpf, out, sums) =
      Val (indexes', dpf', out', sums') /\ vsize dpf' = 2 ^ ll /\ receiving b (i + 1) indexes' out' sums'.
Proof.
  intros Hb Hi Ew Zd (Zx & Fx & P). destruct (span_64 b i dpf Hb Hi Ew Zd) as (span & Ef & E & Z & Hle).
  destruct (tree_size_ok (16 * b + i)) as (Hn & Hsz & _). pose proof (size_bounds p Hp (16 * b + i)). pose proof (ok_size p Hp).
  unfold recv_fixed_64. rewrite Ef. cbn [access mbind res_bind]. rewrite E. cbn [mbind res_bind].
  destruct (recv_tree_run b i span indexes Hb Hi Z Zx) as (leaves & -> & Zl & Fl). cbn [mbind res_bind]. rewrite size_at_eq by done.
  destruct (hash_low_run (size (16 * b + i)) leaves _ ltac:(lia) Fl) as (hashed & -> & Zh & Fh). cbn [mbind res_bind].
  destruct (write_ok dpf 0 hashed) as [dpf' Ed]; [lia|lia|]. rewrite Ed. cbn [mbind option_bind].
  destruct (store_low_run leaf_r _ out_r Hor b i hashed out sums Hb Hi Ew ltac:(lia) Fh P) as (out' & sums' & -> & P').
  eexists _, dpf', out', sums'. split; [done|]. split; [by destruct (blk_write _ _ _ _ 0 Ed) as (_ & _ & -> & _)|].
  destruct (set_index b i indexes Hb Hi Zx Fx). done.
Qed.
End Bodies.

(** *** The loops over super batches *)

Context (ph : list Z) (nm : bytes) (k0 rr a b0 : Z).
Hypothesis Hnd : NoDup ph.
Hypothesis Hph : vsize ph = 2.
Hypothesis Hrr : rr = 0 \/ rr = 1.
Hypothesis Hb0 : 0 <= b0.
Hypothesis Hb0' : b0 + SB < 2 ^ 31 - 1.
Context (S : slot -> option bytes).
Hypothesis HS : forall b, 0 <= b < SB -> S (slot2 ph nm rr (b0 + b)) = Some (array_bytes 16 (message p masked b)).

Definition sent_at (b : Z) (c0 : Context) : Context := Nat.iter (Z.to_nat b) (p2p_next (1 - rr) rr) c0.

Lemma sent_at_next b c0 : 0 <= b -> sent_at (b + 1) c0 = p2p_next (1 - rr) rr (sent_at b c0).
Proof using Type. intros Hb. clear -Hb. unfold sent_at. by replace (Z.to_nat (b + 1)) with (Datatypes.S (Z.to_nat b)) by lia. Qed.

Lemma sent_at_ok b c0 rank : 0 <= b -> member ph nm k0 rank c0 -> exchanged rr a b0 c0 ->
  member ph nm k0 rank (sent_at b c0) /\ exchanged rr a (b0 + b) (sent_at b c0).
Proof using Type.
  intros Hb Hm Hx. clear -Hb Hm Hx. pattern b. revert b Hb. apply natlike_ind.
  - unfold sent_at. cbn. by rewrite Z.add_0_r.
  - intros b Hb [H1 [H2 H3]]. rewrite <- Z.add_1_r, sent_at_next by lia. split; [by apply member_p2p|].
    split; rewrite p2p_count_next, ?H2, ?H3; [rewrite bool_decide_eq_false_2 by (intros [=]; lia)|rewrite bool_decide_eq_true_2 by done]; cbn; lia.
Qed.

Lemma batch_end b : 0 <= b < SB -> 16 * b + bound p b = Z.min (16 * (b + 1)) N.
Proof using Hp. intros Hb. rewrite (bound_min p Hp) by done. clear -Hb. lia. Qed.

Lemma batch_start b : 0 <= b < SB -> Z.min (16 * b) N = 16 * b + 0 /\ 0 < bound p b.
Proof using Hp. intros Hb. rewrite (bound_min p Hp) by done. pose proof (super_batches p Hp) as H. clear -Hb H. lia. Qed.

Section Send.
Context {St : Type} (body : Z -> Z -> St -> res St) (msgs : St -> list Z) (K : Z -> St -> Prop).
Hypothesis Hbody : forall b i t, 0 <= b < SB -> 0 <= i < bound p b -> parts p masked b i (msgs t) -> K (16 * b + i) t ->
  exists t', body b i t = Val t' /\ parts p masked b (i + 1) (msgs t') /\ K (16 * b + (i + 1)) t'.
Hypothesis Hmsgs : forall k t, K k t -> vsize (msgs t) = 15 * bl + ll.

Lemma send_supers t0 st c0 : K 0 t0 -> ctx st = c0 -> member ph nm k0 (1 - rr) c0 -> exchanged rr a b0 c0 ->
  runs S (blk ph (1 - rr)) (for_prog (Z.to_nat SB) 0 (send_super p bl ll body msgs) t0) st
    (mjoin ((fun b => [Sent (slot2 ph nm rr (b0 + b))]) <$> seqZ 0 SB)) (sent_at SB c0) (K N).
Proof using Hp Hph Hrr Hb0' HS Hbody Hmsgs.
  intros Hk Hst Hm Hx. clear Hsmall. pose proof (super_batches p Hp) as HSB. pose proof (ok_num p Hp) as HN.
  pose proof (runs_for S (blk ph (1 - rr)) (Z.to_nat SB) 0 (send_super p bl ll body msgs)
    (fun b => [Sent (slot2 ph nm rr (b0 + b))]) (fun b => sent_at b c0) (fun b => K (Z.min (16 * b) N)) t0 st) as H.
  rewrite Z2Nat.id, Z.add_0_l in H by lia. replace (Z.min (16 * SB) N) with N in H by lia. apply H; clear H.
  - by replace (Z.min (16 * 0) N) with 0 by lia.
  - done.
  - intros b t st' Hb Ht Hst'. destruct (batch_start b ltac:(lia)) as [E0 Hbd]. rewrite E0 in Ht.
    destruct (for_res_inv (fun i t => parts p masked b i (msgs t) /\ K (16 * b + i) t) (body b) (Z.to_nat (bound p b)) 0 t)
      as (t' & E & Hparts & Ht').
    { split; [|done]. intros i' q Hi'. lia. }
    { intros i u Hi [Hu1 Hu2]. apply (Hbody b i u); [lia|lia|done|done]. }
    rewrite Z2Nat.id, Z.add_0_l in Hparts, Ht' by lia. rewrite batch_end in Ht' by lia.
    destruct (sent_at_ok b c0 _ ltac:(lia) Hm Hx) as [Hmb [_ Hcb]].
    pose proof (other_rank ph nm k0 (1 - rr) _ Hmb Hph ltac:(lia)) as Hnext. replace (1 - (1 - rr)) with rr in Hnext by lia.
    unfold send_super. runs_lifts st' Hst' E.
    eapply runs_lift; [|exact Hst'|].
    { rewrite (parts_message p Hp masked b (msgs t')); [done|lia| |done]. rewrite (Hmsgs _ _ Ht').
      pose proof (msg_fits p Hp b ltac:(lia)). lia. }
    next_session st' Hst'. runs_reads_ctx st' Hst'. rewrite Hnext. runs_sends st' Hst' Hcb (HS b ltac:(lia)).
    apply runs_ret; [|done]. by rewrite sent_at_next by lia.
Qed.
End Send.

Section Recv.
Context {St : Type} (body : list Z -> Z -> Z -> St -> res St) (K : Z -> St -> Prop).
Hypothesis Hbody : forall b i t, 0 <= b < SB -> 0 <= i < bound p b -> K (16 * b + i) t ->
  exists t', body (message p masked b) b i t = Val t' /\ K (16 * b + (i + 1)) t'.

Lemma recv_supers t0 st c0 : K 0 t0 -> ctx st = c0 -> member ph nm k0 rr c0 -> exchanged rr a b0 c0 ->
  runs S (blk ph rr) (for_prog (Z.to_nat SB) 0 (recv_super p bl ll body) t0) st
    (mjoin ((fun b => [Received (slot2 ph nm rr (b0 + b))]) <$> seqZ 0 SB)) (sent_at SB c0) (K N).
Proof using Hp Hdata Hph Hrr Hb0' HS Hbody.
  intros Hk Hst Hm Hx. clear Hsmall. pose proof (super_batches p Hp) as HSB. pose proof (ok_num p Hp) as HN.
  pose proof (runs_for S (blk ph rr) (Z.to_nat SB) 0 (recv_super p bl ll body)
    (fun b => [Received (slot2 ph nm rr (b0 + b))]) (fun b => sent_at b c0) (fun b => K (Z.min (16 * b) N)) t0 st) as H.
  rewrite Z2Nat.id, Z.add_0_l in H by lia. replace (Z.min (16 * SB) N) with N in H by lia. apply H; clear H.
  - by replace (Z.min (16 * 0) N) with 0 by lia.
  - done.
  - intros b t st' Hb Ht Hst'. destruct (batch_start b ltac:(lia)) as [E0 Hbd]. rewrite E0 in Ht.
    destruct (for_res_inv (fun i => K (16 * b + i)) (body (message p masked b) b) (Z.to_nat (bound p b)) 0 t Ht) as (t' & E & Ht').
    { intros i u Hi Hu. apply (Hbody b i u); [lia|lia|done]. }
    rewrite Z2Nat.id, Z.add_0_l in Ht' by lia. rewrite batch_end in Ht' by lia.
    destruct (sent_at_ok b c0 _ ltac:(lia) Hm Hx) as [Hmb [_ Hcb]].
    pose proof (other_rank ph nm k0 rr _ Hmb Hph Hrr) as Hnext. pose proof (vsize_message p Hp masked b ltac:(lia)) as Hz.
    unfold recv_super. runs_reads_ctx st' Hst'. rewrite Hnext. runs_receives st' Hst' Hcb (HS b ltac:(lia)).
    eapply runs_check; [rewrite vsize_array, Hz; lia|exact Hst'|]. next_session st' Hst'.
    eapply runs_lift; [|exact Hst'|].
    { rewrite <- Hz, read_array_bytes; [done|]. intros t1 Ht1. apply (message_range p Hp masked masked_ok b t1); [lia|done]. }
    next_session st' Hst'. rewrite E. apply runs_ret; [|done]. by rewrite sent_at_next by lia.
Qed.
End Recv.
End Fixed.
