(* ===== verification/MpfssTheorems.v ===== *)
(** Multi-point function secret sharing as a protocol: whatever the schedule, both
    parties return, with outputs that are equal except at one index of every
    interval, where the receiver's is short of the sender's by its value. *)

From Stdlib Require Import ZArith Lia ZifyBool Bool Sorted.
From stdpp Require Import base numbers list option gmap.
From S2P Require Import Prelude BitBlock BitSet BitSetFacts BitSetOps BitSetGrow BitSetString.
From S2P Require Import ChannelKeys OtStore OtStoreFacts OtStoreTheorems CrHash TwoParty.
From S2P Require Import LinkProgram Context LinkGroup Collectives CollectivesFacts ContextTheorems TwoParty.
From S2P Require Import Sgrr SgrrFacts SgrrTheorems Gywz GywzFacts GywzTheorems.
From S2P Require Import Mpfss MpfssFacts MpfssRuns MpfssFixedRuns.

Local Open Scope Z_scope.

(** *** Both parties, for the indexes of the choices *)

Section FixedParties.
Context (rp : Z -> Z) (fresh : Z -> list Z) (h : heap) (p : MpFssParam) (op : MpfssOp).
Context (s : OtSendStore) (r : OtRecvStore) (l lr : list Z) (bits : dynamic_bitset) (seeds : Z -> Z) (idx : Z -> Z).
Hypothesis Hp : param_ok p.
Hypothesis Hfresh : forall k, 0 <= k -> vsize (fresh k) = k.
Hypothesis Hrp : forall z, 0 <= z < 2 ^ 128 -> 0 <= rp z < 2 ^ 128.
Hypothesis Hseeds : forall i, 0 <= seeds i < 2 ^ 128.
Hypothesis Hstep : in_step h s r l lr bits.
Hypothesis Hdelta : 0 < send_delta s < 2 ^ 128.
Hypothesis Hots : require_ot_num_ p <= OtRecv.Size r.
Context (wide : bool) (w out_s out_r : list Z).
Context `{!WordGroup (word_bits wide) op}.
Hypothesis Hsmall : wide = true \/ last_sp_vole_size_ p <= 2 ^ 30.
Hypothesis Hw : noise_num_ p <= vsize w.
Hypothesis Hwr : forall i, 0 <= i < noise_num_ p -> 0 <= blk w i < 2 ^ word_bits wide.
Hypothesis Hos : mp_vole_size_ p <= vsize out_s.
Hypothesis Hor : mp_vole_size_ p <= vsize out_r.
Hypothesis Hidx : forall k, 0 <= k < noise_num_ p -> 0 <= idx k < this_size p k.
Hypothesis Hsize : vsize (indexes_ p) = noise_num_ p.
Context (ph : list Z) (nm : bytes) (k0 rr a b : Z).
Hypothesis Hnd : NoDup ph.
Hypothesis Hph : vsize ph = 2.
Hypothesis Hrr : rr = 0 \/ rr = 1.
Hypothesis Hb : 0 <= b.
Hypothesis Hbn : b + super_batch_num p < 2 ^ 31 - 1.
Context (masked : Z -> list Z) (S : slot -> option bytes).
Hypothesis Hdata : forall k, 0 <= k < noise_num_ p -> fixed_data rp h p s r seeds idx wide k (masked k).
Hypothesis HS : forall q, 0 <= q < super_batch_num p -> S (slot2 ph nm rr (b + q)) = Some (array_bytes 16 (message p masked q)).
Hypothesis HSf : S (slot2 ph nm rr (b + super_batch_num p)) =
  Some (array_bytes (word_bytes wide) (sent_sums rp p op s seeds w wide)).
Local Abbreviation N := (noise_num_ p).
Local Abbreviation SB := (super_batch_num p).
Local Abbreviation bl := (depth (sp_vole_size_ p)).
Local Abbreviation ll := (depth (last_sp_vole_size_ p)).

Definition fixed_slots : list slot := (seqZ 0 SB ≫= fun q => [slot2 ph nm rr (b + q)]) ++ [slot2 ph nm rr (b + SB)].

Definition fixed_ctx (c0 : Context) : Context := p2p_next (1 - rr) rr (sent_at rr SB c0).

Definition mpfss_send_fixed (ws : bool) : LinkM (list Z) :=
  if ws then MpfssSend_fixed_index_128 rp fresh h p op s seeds w out_s else MpfssSend_fixed_index_64 rp fresh h p op s seeds w out_s.
Definition mpfss_recv_fixed (ws : bool) : LinkM (list Z * MpFssParam) :=
  if ws then MpfssRecv_fixed_index_128 rp h p op r out_r else MpfssRecv_fixed_index_64 rp fresh h p op r out_r.

Lemma fixed_calls : calls_of (blk ph rr) fixed_slots = mjoin ((fun q => [Received (slot2 ph nm rr (b + q))]) <$> seqZ 0 SB) ++ [Received (slot2 ph nm rr (b + SB))] /\
  calls_of (blk ph (1 - rr)) fixed_slots = mjoin ((fun q => [Sent (slot2 ph nm rr (b + q))]) <$> seqZ 0 SB) ++ [Sent (slot2 ph nm rr (b + SB))].
Proof.
  unfold fixed_slots. rewrite !calls_of_app, !calls_of_bind.
  split; f_equal; try (apply slot2_calls; done); f_equal; apply list_fmap_ext; intros; apply slot2_calls; done.
Qed.

Lemma lengths_ok : Log2Ceil (sp_vole_size_ p) = Val bl /\ Log2Ceil (last_sp_vole_size_ p) = Val ll.
Proof.
  pose proof (ok_last p Hp). pose proof (ok_size p Hp). split; apply depth_height; lia.
Qed.

Lemma buffers_ok : vsize (gywz_send_buffer fresh bl ll) = 15 * bl + ll /\
  (wide = false -> exists buf, full_buffer fresh bl ll = Some buf /\ vsize buf = 2 ^ ll).
Proof.
  pose proof (lengths p Hp) as Hl. unfold gywz_send_buffer, full_buffer, kSuperBatch. split.
  - rewrite u64_small, Hfresh by lia. lia.
  - intros Ew. destruct (tree_size_ok p Hp wide Hsmall (N - 1)) as (_ & _ & _ & Hlt). specialize (Hlt Ew).
    unfold this_size in Hlt. rewrite Z.eqb_refl in Hlt. replace (Z.max bl ll) with ll by lia. replace (ll <? 31) with true by lia.
    eexists. split; [done|]. rewrite Hfresh by (apply Z.pow_nonneg; lia). done.
Qed.

Lemma fixed_send st c0 : ctx st = c0 -> member ph nm k0 (1 - rr) c0 -> exchanged rr a b c0 ->
  runs S (blk ph (1 - rr)) (mpfss_send_fixed wide) st (calls_of (blk ph (1 - rr)) fixed_slots) (fixed_ctx c0)
    (finished rp p wide (leaf_s rp p s seeds) out_s).
Proof.
  intros Hst Hm Hx. pose proof (ok_num p Hp) as HN. destruct (vsize_negated p op Hp w Hw) as [Zn Fn].
  pose proof (super_batches p Hp) as HSB. destruct lengths_ok as [El Ell]. destruct buffers_ok as [Zg Hbuf].
  destruct (sent_at_ok ph nm k0 rr a b SB c0 _ ltac:(lia) Hm Hx) as [HmN [_ HbN]].
  assert (Hss : require_ot_num_ p <= OtSend.Size s) by (pose proof (in_step_correlated _ _ _ _ _ _ Hstep) as [-> _]; done).
  pose proof (other_rank ph nm k0 (1 - rr) _ HmN Hph ltac:(lia)) as Hnext. replace (1 - (1 - rr)) with rr in Hnext by lia.
  pose proof (ok_assumption p Hp) as Has. rewrite (proj2 fixed_calls).
  pose proof (progress_start p op (val rp (leaf_s rp p s seeds) wide) _ out_s _ Zn Fn) as P0.
  destruct wide eqn:Ew.
  - unfold mpfss_send_fixed, MpfssSend_fixed_index_128. do 4 (runs_checks st Hst). runs_lifts st Hst El. runs_lifts st Hst Ell.
    eapply runs_bind.
    { apply (send_supers p Hp masked ph nm k0 rr a b Hph Hrr Hbn S HS (send_fixed_128 rp h p op bl ll s seeds) (fun t => fst (fst t))
        (fun k t => vsize t.1.1 = 15 * bl + ll /\ progress p op (val rp (leaf_s rp p s seeds) true) (fun k => op_sub op 0 (blk w k)) out_s k t.1.2 t.2));
        try done; [|by intros k t []].
      intros q i [[gm out] sums] Hq Hi Hparts [Zm P].
      destruct (send_body_128 rp h p op s r l lr bits seeds idx Hp Hstep Hots true Hsmall masked Hdata w out_s Hos q i gm out sums Hq Hi eq_refl)
        as (gm' & out' & sums' & E & Z' & Pa & P'); [done|]. by exists (gm', out', sums'). }
    clear st Hst. intros [[gm out] sums] st [_ P] Hst. cbn [fst snd] in *. rewrite (sums_are_sent rp p op s seeds Hp true w out_s _ _ P).
    runs_reads_ctx st Hst. rewrite Hnext. runs_sends st Hst HbN HSf. apply runs_ret; [done|]. by eapply progress_finished.
  - destruct (Hbuf eq_refl) as (buf & Eb & Zb).
    unfold mpfss_send_fixed, MpfssSend_fixed_index_64. do 4 (runs_checks st Hst). runs_lifts st Hst El. runs_lifts st Hst Ell.
    eapply runs_lift; [by rewrite Eb|exact Hst|]. next_session st Hst. eapply runs_bind.
    { apply (send_supers p Hp masked ph nm k0 rr a b Hph Hrr Hbn S HS (send_fixed_64 rp h p op bl ll s seeds) (fun t => fst (fst (fst t)))
        (fun k t => vsize t.1.1.1 = 15 * bl + ll /\ vsize t.1.1.2 = 2 ^ ll /\
           progress p op (val rp (leaf_s rp p s seeds) false) (fun k => op_sub op 0 (blk w k)) out_s k t.1.2 t.2));
        try done; [|by intros k t []].
      intros q i [[[gm dpf] out] sums] Hq Hi Hparts (Zm & Zd & P).
      destruct (send_body_64 rp h p op s r l lr bits seeds idx Hp Hstep Hots false Hsmall masked Hdata w out_s Hos q i gm dpf out sums Hq Hi eq_refl Zd)
        as (gm' & dpf' & out' & sums' & E & Zd' & Z' & Pa & P'); [done|]. by exists (gm', dpf', out', sums'). }
    clear st Hst. intros [[[gm dpf] out] sums] st (_ & _ & P) Hst. cbn [fst snd] in *. rewrite (sums_are_sent rp p op s seeds Hp false w out_s _ _ P).
    runs_reads_ctx st Hst. rewrite Hnext. runs_sends st Hst HbN HSf. apply runs_ret; [done|]. by eapply progress_finished.
Qed.

Definition with_indexes : MpFssParam := set_indexes (idx <$> seqZ 0 N) p.

Lemma indexes_are indexes : vsize indexes = N -> (forall k, 0 <= k < N -> blk indexes k = idx k) -> set_indexes indexes p = with_indexes.
Proof. intros Hz Hx. unfold with_indexes. f_equal. by apply holds_map. Qed.

Lemma fixed_recv st c0 : ctx st = c0 -> member ph nm k0 rr c0 -> exchanged rr a b c0 ->
  runs S (blk ph rr) (mpfss_recv_fixed wide) st (calls_of (blk ph rr) fixed_slots) (fixed_ctx c0)
    (fun x => corrected rp p op s seeds idx wide w out_r x.1 /\ x.2 = with_indexes).
Proof.
  intros Hst Hm Hx. pose proof (ok_num p Hp) as HN. destruct (vsize_zeros p Hp) as [Zn Fn].
  pose proof (super_batches p Hp) as HSB. destruct lengths_ok as [El Ell]. destruct buffers_ok as [_ Hbuf].
  destruct (sent_at_ok ph nm k0 rr a b SB c0 _ ltac:(lia) Hm Hx) as [HmN [_ HbN]].
  pose proof (other_rank ph nm k0 rr _ HmN Hph Hrr) as Hnext. pose proof (ok_assumption p Hp) as Has. rewrite (proj1 fixed_calls).
  pose proof (progress_start p op (val rp (leaf_r rp p s seeds idx) wide) _ out_r _ Zn Fn) as P0.
  assert (Hsz : vsize (array_bytes (word_bytes wide) (sent_sums rp p op s seeds w wide)) = u64 (N * Z.of_nat (word_bytes wide))).
  { rewrite vsize_array, vsize_sent, u64_small by (done || destruct wide; cbn; lia). lia. }
  pose proof (read_sent rp p op s seeds idx Hp Hrp Hseeds Hdelta wide w Hwr) as Hread.
  pose proof (correct_finished rp p op s seeds idx Hp Hrp Hseeds Hdelta wide w out_r Hwr Hor Hidx) as Hcor.
  destruct wide eqn:Ew; cbn [word_bytes] in *.
  - change (Z.of_nat 16) with 16 in Hsz. unfold mpfss_recv_fixed, MpfssRecv_fixed_index_128. do 3 (runs_checks st Hst).
    runs_lifts st Hst El. runs_lifts st Hst Ell. eapply runs_bind.
    { apply (recv_supers rp h p s r seeds idx Hp true masked Hdata ph nm k0 rr a b Hph Hrr Hbn S HS (recv_fixed_128 rp h p op bl ll r)
        (fun k t => vsize t.1.1 = N /\ (forall k', 0 <= k' < k -> blk t.1.1 k' = idx k') /\
           progress p op (val rp (leaf_r rp p s seeds idx) true) (fun _ => 0) out_r k t.1.2 t.2)); try done; [|split; [done|split; [lia|done]]].
      intros q i [[ixs out] sums] Hq Hi P.
      destruct (recv_body_128 rp h p op s r l lr bits seeds idx Hp Hstep Hots true Hsmall Hidx masked Hdata out_r Hor q i ixs out sums Hq Hi eq_refl P)
        as (ixs' & out' & sums' & E & P'). by exists (ixs', out', sums'). }
    clear st Hst. intros [[ixs out] sums] st (Zx & Fx & P) Hst. cbn [fst snd] in *.
    destruct (Hcor out sums ixs Zx Fx P) as (out' & E & HQ).
    runs_reads_ctx st Hst. rewrite Hnext. runs_receives st Hst HbN HSf.
    eapply runs_check; [rewrite Hsz; apply Z.eqb_refl|exact Hst|]. next_session st Hst.
    eapply runs_lift; [by rewrite Hread|exact Hst|]. next_session st Hst.
    eapply runs_lift; [by rewrite E|exact Hst|]. next_session st Hst. apply runs_ret; [done|]. split; [done|by apply indexes_are].
  - destruct (Hbuf eq_refl) as (buf & Eb & Zb).
    change (Z.of_nat 8) with 8 in Hsz. unfold mpfss_recv_fixed, MpfssRecv_fixed_index_64. do 3 (runs_checks st Hst).
    runs_lifts st Hst El. runs_lifts st Hst Ell. eapply runs_lift; [by rewrite Eb|exact Hst|]. next_session st Hst. eapply runs_bind.
    { apply (recv_supers rp h p s r seeds idx Hp false masked Hdata ph nm k0 rr a b Hph Hrr Hbn S HS (recv_fixed_64 rp h p op bl ll r)
        (fun k t => vsize t.1.1.2 = 2 ^ ll /\ vsize t.1.1.1 = N /\ (forall k', 0 <= k' < k -> blk t.1.1.1 k' = idx k') /\
           progress p op (val rp (leaf_r rp p s seeds idx) false) (fun _ => 0) out_r k t.1.2 t.2)); try done; [|split; [done|split; [done|split; [lia|done]]]].
      intros q i [[[ixs dpf] out] sums] Hq Hi [Zd P].
      destruct (recv_body_64 rp h p op s r l lr bits seeds idx Hp Hstep Hots false Hsmall Hidx masked Hdata out_r Hor q i ixs dpf out sums Hq Hi eq_refl Zd P)
        as (ixs' & dpf' & out' & sums' & E & Zd' & P'). by exists (ixs', dpf', out', sums'). }
    clear st Hst. intros [[[ixs dpf] out] sums] st (_ & Zx & Fx & P) Hst. cbn [fst snd] in *.
    destruct (Hcor out sums ixs Zx Fx P) as (out' & E & HQ).
    runs_reads_ctx st Hst. rewrite Hnext. runs_receives st Hst HbN HSf.
    eapply runs_check; [rewrite Hsz; apply Z.eqb_refl|exact Hst|]. next_session st Hst.
    eapply runs_lift; [by rewrite Hread|exact Hst|]. next_session st Hst.
    eapply runs_lift; [by rewrite E|exact Hst|]. next_session st Hst. apply runs_ret; [done|]. split; [done|by apply indexes_are].
Qed.
End FixedParties.

(** *** Slots and values *)

Section Slots.
Context (ph : list Z) (nm : bytes) (rr a b : Z).
Hypothesis Hnd : NoDup ph.
Hypothesis Hph : vsize ph = 2.
Hypothesis Hrr : rr = 0 \/ rr = 1.
Hypothesis Ha : 0 <= a.
Hypothesis Hb : 0 <= b.

Lemma slot1_inj c c' : 0 <= c < 2 ^ 32 -> 0 <= c' < 2 ^ 32 -> slot1 ph nm rr c = slot1 ph nm rr c' -> c = c'.
Proof. intros Hc Hc' [= E]. apply p2p_id_inj in E as (E & _); lia. Qed.

Lemma slot2_inj c c' : 0 <= c < 2 ^ 32 -> 0 <= c' < 2 ^ 32 -> slot2 ph nm rr c = slot2 ph nm rr c' -> c = c'.
Proof. intros Hc Hc' [= E]. apply p2p_id_inj in E as (E & _); lia. Qed.

Lemma slot12_ne c c' : slot1 ph nm rr c <> slot2 ph nm rr c'.
Proof. intros [= E _ _]. by apply (blk_parties ph rr Hnd Hph Hrr) in E. Qed.

Lemma elem_of_upto (i n : Z) : i ∈ seqZ 0 n -> 0 <= i < n.
Proof. intros Hi. apply elem_of_seqZ in Hi. lia. Qed.

Lemma slots_nodup (f : Z -> list slot) (n last : Z) : 0 <= n -> b + last < 2 ^ 32 -> 0 <= last ->
  (forall i, 0 <= i < n -> NoDup (f i)) ->
  (forall i i' m, 0 <= i < n -> 0 <= i' < n -> m ∈ f i -> m ∈ f i' -> i = i') ->
  (forall i, 0 <= i < n -> slot2 ph nm rr (b + last) ∉ f i) ->
  NoDup ((seqZ 0 n ≫= f) ++ [slot2 ph nm rr (b + last)]).
Proof.
  intros Hn Hl Hl' H1 H2 H3. apply NoDup_app. split; [|split; [|apply NoDup_singleton]].
  - apply NoDup_bind; [|intros i Hi; apply H1; by apply elem_of_upto|apply NoDup_seqZ].
    intros i i' m Hi Hi' Hm Hm'. apply elem_of_upto in Hi, Hi'. by eapply H2.
  - intros m Hm Hm'. apply list_elem_of_singleton in Hm' as ->. apply list_elem_of_bind in Hm as (i & Hm & Hi).
    apply elem_of_upto in Hi. by apply (H3 i).
Qed.

Lemma chosen_nodup p : param_ok p -> a + noise_num_ p < 2 ^ 31 -> b + noise_num_ p < 2 ^ 31 -> NoDup (chosen_slots p ph nm rr a b).
Proof.
  intros Hp H1 H2. pose proof (ok_num p Hp). apply slots_nodup; [lia|lia|lia|..].
  - intros i Hi. unfold interval_slots. apply NoDup_cons. split; [|apply NoDup_singleton].
    rewrite list_elem_of_singleton. apply slot12_ne.
  - intros i i' m Hi Hi' Hm Hm'. unfold interval_slots in *. rewrite !elem_of_cons in Hm, Hm'.
    destruct Hm as [-> | [-> | Hm]]; [| |by apply not_elem_of_nil in Hm];
      (destruct Hm' as [E | [E | Hm']]; [| |by apply not_elem_of_nil in Hm']).
    + apply slot1_inj in E; lia.
    + by apply slot12_ne in E.
    + symmetry in E. by apply slot12_ne in E.
    + apply slot2_inj in E; lia.
  - intros i Hi Hm. unfold interval_slots in Hm. rewrite !elem_of_cons in Hm. destruct Hm as [E | [E | Hm]].
    + symmetry in E. by apply slot12_ne in E.
    + apply slot2_inj in E; lia.
    + by apply not_elem_of_nil in Hm.
Qed.

Lemma fixed_nodup p : param_ok p -> b + super_batch_num p < 2 ^ 31 -> NoDup (fixed_slots p ph nm rr b).
Proof.
  intros Hp H. pose proof (ok_num p Hp). pose proof (super_batches p Hp). apply slots_nodup; [lia|lia|lia|..].
  - intros i Hi. apply NoDup_singleton.
  - intros i i' m Hi Hi' Hm Hm'. apply list_elem_of_singleton in Hm as ->. apply list_elem_of_singleton in Hm'.
    apply slot2_inj in Hm'; lia.
  - intros i Hi Hm. apply list_elem_of_singleton in Hm. apply slot2_inj in Hm; lia.
Qed.
End Slots.

Lemma fst_bind {A B} (js : list Z) (f : Z -> list (A * B)) (g : Z -> list A) : (forall i, (f i).*1 = g i) -> (js ≫= f).*1 = js ≫= g.
Proof. intros H. induction js as [|i js IH]; [done|]. cbn [mbind list_bind]. by rewrite fmap_app, H, <- IH. Qed.

Lemma elem_of_rounds {A} (f : Z -> list A) n i x : 0 <= i < n -> x ∈ f i -> x ∈ seqZ 0 n ≫= f.
Proof. intros Hi Hx. apply list_elem_of_bind. exists i. split; [done|]. apply elem_of_seqZ. lia. Qed.

(** *** Both parties together *)

Section Together.
Context (rp : Z -> Z) (fresh : Z -> list Z) (h : heap) (p : MpFssParam) (op : MpfssOp).
Context (s : OtSendStore) (r : OtRecvStore) (seeds idx : Z -> Z) (fixed wide : bool) (w out_s out_r : list Z).

(** The party of rank [rr] receives, the other one sends. *)
Definition mpfss_programs (rr : Z) (ss : list session) : list (prog (list Z * MpFssParam * session)) :=
  let recv := if fixed then mpfss_recv_fixed rp fresh h p op r out_r wide
              else out ← mpfss_recv rp fresh h p op r out_r wide; mret (out, p) in
  let send := out ← (if fixed then mpfss_send_fixed rp fresh h p op s seeds w out_s wide
                     else mpfss_send rp fresh h p op s seeds w out_s wide); mret (out, p) in
  imap (fun i st => if Z.of_nat i =? rr then recv st else send st) ss.

(** The messages of the sender besides the last one. *)
Definition rounds : Z := if fixed then super_batch_num p else noise_num_ p.

(** What the party of rank [i] has at the end. *)
Definition shared (ph : list Z) nm k rr a b (i : Z) (ret : list Z * MpFssParam * session) : Prop :=
  (if i =? rr
   then corrected rp p op s seeds idx wide w out_r ret.1.1 /\ ret.1.2 = (if fixed then with_indexes p idx else p)
   else finished rp p wide (leaf_s rp p s seeds) out_s ret.1.1 /\ ret.1.2 = p) /\
  member ph nm k i (ctx ret.2) /\
  exchanged rr (a + if fixed then 0 else noise_num_ p) (b + rounds + 1) (ctx ret.2).

(** Where the indexes come from. *)
Definition indexes_ok (lr : list Z) (bits : dynamic_bitset) : Prop :=
  vsize (indexes_ p) = noise_num_ p /\ (forall i, 0 <= i < noise_num_ p -> 0 <= idx i < this_size p i) /\
  if fixed
  then (wide = true \/ last_sp_vole_size_ p <= 2 ^ 30) /\
       forall i t, 0 <= i < noise_num_ p -> 0 <= t < depth (this_size p i) ->
         Z.testbit (idx i) t = choice_of (recv_type r) lr bits (i * depth (sp_vole_size_ p) + t)
  else forall i, 0 <= i < noise_num_ p -> blk (indexes_ p) i = idx i.

Lemma shared_runs (S : slot -> option bytes) ph nm k rr a b ss slots after :
  group ph nm k ss -> vsize ph = 2 -> rr = 0 \/ rr = 1 -> (forall st, st ∈ ss -> exchanged rr a b (ctx st)) ->
  NoDup slots -> (forall m, m ∈ slots -> m.1.1 = blk ph rr \/ m.1.1 = blk ph (1 - rr)) ->
  (forall rank c0, member ph nm k rank c0 -> exchanged rr a b c0 -> member ph nm k rank (after c0) /\
     exchanged rr (a + if fixed then 0 else noise_num_ p) (b + rounds + 1) (after c0)) ->
  (forall st c0, ctx st = c0 -> member ph nm k rr c0 -> exchanged rr a b c0 ->
     if fixed
     then runs S (blk ph rr) (mpfss_recv_fixed rp fresh h p op r out_r wide) st (calls_of (blk ph rr) slots) (after c0)
       (fun x => corrected rp p op s seeds idx wide w out_r x.1 /\ x.2 = with_indexes p idx)
     else runs S (blk ph rr) (mpfss_recv rp fresh h p op r out_r wide) st (calls_of (blk ph rr) slots) (after c0)
       (corrected rp p op s seeds idx wide w out_r)) ->
  (forall st c0, ctx st = c0 -> member ph nm k (1 - rr) c0 -> exchanged rr a b c0 ->
     runs S (blk ph (1 - rr)) (if fixed then mpfss_send_fixed rp fresh h p op s seeds w out_s wide
                               else mpfss_send rp fresh h p op s seeds w out_s wide) st (calls_of (blk ph (1 - rr)) slots) (after c0)
       (finished rp p wide (leaf_s rp p s seeds) out_s)) ->
  all_return ph (mpfss_programs rr ss) (shared ph nm k rr a b).
Proof.
  intros Hg Hph Hrr Hex Hsl Hside Hafter Hr Hs.
  pose proof (group_parties _ _ _ _ Hg) as Hnd. pose proof (group_size _ _ _ _ Hg) as Hlen.
  destruct (two_sessions ph nm k ss rr Hg Hph Hrr) as (sr & sd & Er & Ed & Mr & Md & Ir & Id).
  specialize (Hr sr (ctx sr) eq_refl Mr (Hex sr Ir)). specialize (Hs sd (ctx sd) eq_refl Md (Hex sd Id)).
  assert (Hs' : runs S (blk ph (1 - rr)) (out ← (if fixed then mpfss_send_fixed rp fresh h p op s seeds w out_s wide
      else mpfss_send rp fresh h p op s seeds w out_s wide); mret (out, p)) sd (calls_of (blk ph (1 - rr)) slots) (after (ctx sd))
      (fun x => finished rp p wide (leaf_s rp p s seeds) out_s x.1 /\ x.2 = p)).
  { rewrite <- (app_nil_r (calls_of _ _)). eapply runs_bind; [exact Hs|]. intros out st HQ Hst. by apply runs_ret. }
  assert (Hr' : runs S (blk ph rr) (if fixed then mpfss_recv_fixed rp fresh h p op r out_r wide
      else out ← mpfss_recv rp fresh h p op r out_r wide; mret (out, p)) sr (calls_of (blk ph rr) slots) (after (ctx sr))
      (fun x => corrected rp p op s seeds idx wide w out_r x.1 /\ x.2 = (if fixed then with_indexes p idx else p))).
  { destruct fixed; [exact Hr|]. rewrite <- (app_nil_r (calls_of _ _)). eapply runs_bind; [exact Hr|]. intros out st HQ Hst. by apply runs_ret. }
  destruct Hs' as (xs & (sd' & Ts & Cs) & Qs). destruct Hr' as (xr & (sr' & Tr & Cr) & Qr).
  destruct (Hafter _ _ Mr (Hex sr Ir)) as [Mr' Xr']. destruct (Hafter _ _ Md (Hex sd Id)) as [Md' Xd'].
  eapply (dialogue_return ph _ S slots rr); [done|done|done| | | |done|done|eexists; split; [exact Tr|]|eexists; split; [exact Ts|]].
  - unfold mpfss_programs, vsize in *. rewrite length_imap. lia.
  - unfold mpfss_programs. rewrite vget_imap, Er. cbn. by rewrite Z2Nat.id, Z.eqb_refl by lia.
  - unfold mpfss_programs. rewrite vget_imap, Ed. cbn. rewrite Z2Nat.id by lia. by replace (1 - rr =? rr) with false by lia.
  - unfold shared. cbn [fst snd]. rewrite Z.eqb_refl, Cr. done.
  - unfold shared. cbn [fst snd]. replace (1 - rr =? rr) with false by lia. rewrite Cs. done.
Qed.
End Together.

(** After the last message. *)
Lemma exchanged_last ph nm k rank rr a b c0 : rr = 0 \/ rr = 1 -> member ph nm k rank c0 -> exchanged rr a b c0 ->
  member ph nm k rank (p2p_next (1 - rr) rr c0) /\ exchanged rr a (b + 1) (p2p_next (1 - rr) rr c0).
Proof.
  intros Hrr Hm [H1 H2]. split; [by apply member_p2p|].
  split; rewrite p2p_count_next, ?H1, ?H2; [rewrite bool_decide_eq_false_2 by (intros [=]; lia)|rewrite bool_decide_eq_true_2 by done]; cbn; lia.
Qed.

Section Shares.
Context (rp : Z -> Z) (fresh : Z -> list Z) (h : heap) (p : MpFssParam) (op : MpfssOp).
Context (s : OtSendStore) (r : OtRecvStore) (l lr : list Z) (bits : dynamic_bitset) (seeds idx : Z -> Z) (wide : bool) (w out_s out_r : list Z).
Context `{!WordGroup (word_bits wide) op}.
Hypothesis Hp : param_ok p.
Hypothesis Hfresh : forall k, 0 <= k -> vsize (fresh k) = k.
Hypothesis Hrp : forall z, 0 <= z < 2 ^ 128 -> 0 <= rp z < 2 ^ 128.
Hypothesis Hseeds : forall i, 0 <= seeds i < 2 ^ 128.
Hypothesis Hstep : in_step h s r l lr bits.
Hypothesis Hdelta : 0 < send_delta s < 2 ^ 128.
Hypothesis Hlr : forall i, 0 <= i < vsize lr -> 0 <= blk lr i < 2 ^ 128.
Hypothesis Hots : require_ot_num_ p <= OtRecv.Size r.
Hypothesis Hw : noise_num_ p <= vsize w.
Hypothesis Hwr : forall i, 0 <= i < noise_num_ p -> 0 <= blk w i < 2 ^ word_bits wide.
Hypothesis Hos : mp_vole_size_ p <= vsize out_s.
Hypothesis Hor : mp_vole_size_ p <= vsize out_r.
Context (ph : list Z) (nm : bytes) (k : Z) (ss : list session) (rr a b : Z).
Hypothesis Hg : group ph nm k ss.
Hypothesis Hph : vsize ph = 2.
Hypothesis Hrr : rr = 0 \/ rr = 1.
Hypothesis Ha : 0 <= a.
Hypothesis Hb : 0 <= b.
Hypothesis Hex : forall st, st ∈ ss -> exchanged rr a b (ctx st).
Local Abbreviation N := (noise_num_ p).
Local Abbreviation final := (array_bytes (word_bytes wide) (sent_sums rp p op s seeds w wide)).

Lemma chosen_shares : indexes_ok p r idx false wide lr bits -> a + N < 2 ^ 31 - 1 -> b + N < 2 ^ 31 - 1 ->
  all_return ph (mpfss_programs rp fresh h p op s r seeds false wide w out_s out_r rr ss)
    (shared rp p op s seeds idx false wide w out_s out_r ph nm k rr a b).
Proof.
  intros (Hz & Hrange & Hidx) Han Hbn. pose proof (group_parties _ _ _ _ Hg) as Hnd. pose proof (ok_num p Hp) as HN.
  destruct (choose_upto ([], []) (fun i m => forall S, S (slot1 ph nm rr (a + i)) = Some m.1 -> S (slot2 ph nm rr (b + i)) = Some m.2 ->
    tree_does p ph nm k rr a b S (blk ph rr) i (recv_tree rp h p r) (leaf_r rp p s seeds idx) rr /\
    tree_does p ph nm k rr a b S (blk ph (1 - rr)) i (send_tree rp fresh h p s seeds) (leaf_s rp p s seeds) (1 - rr)) N) as [f Hf].
  { intros i Hi. eapply (interval_messages rp fresh h p s r l lr bits seeds idx); try done; try lia; [|by apply Hrange].
    rewrite vget_blk, Hidx by lia. done. }
  set (round := fun i => [(slot1 ph nm rr (a + i), (f i).1); (slot2 ph nm rr (b + i), (f i).2)]).
  set (msgs := (seqZ 0 N ≫= round) ++ [(slot2 ph nm rr (b + N), final)]).
  assert (Hm : msgs.*1 = chosen_slots p ph nm rr a b).
  { unfold msgs, chosen_slots. rewrite fmap_app. f_equal. by apply fst_bind. }
  assert (Hsl : NoDup msgs.*1) by (rewrite Hm; apply chosen_nodup; done || lia).
  assert (HS : forall m v, (m, v) ∈ msgs -> values_of msgs m = Some v) by (intros m v; by apply values_of_elem).
  assert (Htrees : forall i, 0 <= i < N ->
    tree_does p ph nm k rr a b (values_of msgs) (blk ph rr) i (recv_tree rp h p r) (leaf_r rp p s seeds idx) rr /\
    tree_does p ph nm k rr a b (values_of msgs) (blk ph (1 - rr)) i (send_tree rp fresh h p s seeds) (leaf_s rp p s seeds) (1 - rr)).
  { intros i Hi. apply Hf; [done|apply HS, elem_of_app; left..]; apply (elem_of_rounds round N i); try done; unfold round; set_solver. }
  assert (Hfin : values_of msgs (slot2 ph nm rr (b + N)) = Some final) by (apply HS, elem_of_app; right; set_solver).
  eapply (shared_runs rp fresh h p op s r seeds idx false wide w out_s out_r (values_of msgs) ph nm k rr a b ss
    (chosen_slots p ph nm rr a b) (chosen_ctx p rr) Hg Hph Hrr Hex); [by rewrite <- Hm| | | |].
  - intros m Hmm. unfold chosen_slots, interval_slots in Hmm. apply elem_of_app in Hmm as [Hmm | Hmm].
    + apply list_elem_of_bind in Hmm as (i & Hmm & _). rewrite !elem_of_cons in Hmm.
      destruct Hmm as [-> | [-> | Hmm]]; [by left|by right|by apply not_elem_of_nil in Hmm].
    + apply list_elem_of_singleton in Hmm as ->. by right.
  - intros rank c0 Hm0 Hx0. destruct (ctx_at_ok ph nm k rr a b Hrr N c0 rank ltac:(lia) Hm0 Hx0) as [H1 H2].
    unfold chosen_ctx, rounds. by apply exchanged_last.
  - intros st c0 Hst Hm0 Hx0. eapply chosen_recv; try done; [split; [done|]; intros i Hi; split; [by apply Hidx|by apply Hrange]|].
    intros i Hi. by apply Htrees.
  - intros st c0 Hst Hm0 Hx0. eapply chosen_send; try done. intros i Hi. by apply Htrees.
Qed.

Lemma fixed_shares : indexes_ok p r idx true wide lr bits -> b + super_batch_num p < 2 ^ 31 - 1 ->
  all_return ph (mpfss_programs rp fresh h p op s r seeds true wide w out_s out_r rr ss)
    (shared rp p op s seeds idx true wide w out_s out_r ph nm k rr a b).
Proof.
  intros (Hz & Hrange & Hsmall & Hbits) Hbn. pose proof (group_parties _ _ _ _ Hg) as Hnd. pose proof (ok_num p Hp) as HN.
  pose proof (super_batches p Hp) as HSB.
  destruct (choose_upto [] (fixed_data rp h p s r seeds idx wide) N) as [masked Hdata].
  { intros i Hi. by eapply (fixed_interval rp h p s r l lr bits seeds idx). }
  set (round := fun q => [(slot2 ph nm rr (b + q), array_bytes 16 (message p masked q))]).
  set (msgs := (seqZ 0 (super_batch_num p) ≫= round) ++ [(slot2 ph nm rr (b + super_batch_num p), final)]).
  assert (Hm : msgs.*1 = fixed_slots p ph nm rr b).
  { unfold msgs, fixed_slots. rewrite fmap_app. f_equal. by apply fst_bind. }
  assert (Hsl : NoDup msgs.*1) by (rewrite Hm; apply fixed_nodup; done || lia).
  assert (HS : forall m v, (m, v) ∈ msgs -> values_of msgs m = Some v) by (intros m v; by apply values_of_elem).
  assert (Hmsg : forall q, 0 <= q < super_batch_num p ->
    values_of msgs (slot2 ph nm rr (b + q)) = Some (array_bytes 16 (message p masked q))).
  { intros q Hq. apply HS, elem_of_app. left. apply (elem_of_rounds round _ q); [done|]. unfold round. set_solver. }
  assert (Hfin : values_of msgs (slot2 ph nm rr (b + super_batch_num p)) = Some final) by (apply HS, elem_of_app; right; set_solver).
  eapply (shared_runs rp fresh h p op s r seeds idx true wide w out_s out_r (values_of msgs) ph nm k rr a b ss
    (fixed_slots p ph nm rr b) (fixed_ctx p rr) Hg Hph Hrr Hex); [by rewrite <- Hm| | | |].
  - intros m Hmm. unfold fixed_slots in Hmm. apply elem_of_app in Hmm as [Hmm | Hmm].
    + apply list_elem_of_bind in Hmm as (i & Hmm & _). apply list_elem_of_singleton in Hmm as ->. by right.
    + apply list_elem_of_singleton in Hmm as ->. by right.
  - intros rank c0 Hm0 Hx0. destruct (sent_at_ok ph nm k rr a b (super_batch_num p) c0 rank ltac:(lia) Hm0 Hx0) as [H1 H2].
    unfold fixed_ctx, rounds. rewrite Z.add_0_r. by apply exchanged_last.
  - intros st c0 Hst Hm0 Hx0. by eapply fixed_recv.
  - intros st c0 Hst Hm0 Hx0. by eapply fixed_send.
Qed.
End Shares.



(** *** Concrete runs *)

(** Two intervals of two and three words, with the indexes 1 and 2. *)
Definition demo_param : MpFssParam := mk_param 2 2 2 3 5 3 RegularNoise [1; 2] false.

Lemma demo_param_ok : param_ok demo_param.
Proof. split; cbn; done || lia. Qed.

(** A permutation of the words. *)
Definition demo_rp (z : Z) : Z := (z + 1) mod 2 ^ 128.


