(* ===== verification/Ferret.v ===== *)
(** Ferret, silent extension of correlated transfers
    (src/yacl/kernel/algorithms/ferret_ote.cc, ferret_ote_rn.h, and the seed
    exchange of src/yacl/crypto/tools/common.h): from compact transfers the parties
    make noisy vectors with single-point protocols, one for every bin of the output,
    and add the encodings of a short correlated vector; the end of a batch is the
    input of the next one. With [mal] the receiver checks every batch.

    Outside code is a parameter as in [Gywz]; [aes] is the keyed permutation of the
    linear code, [blake3] the hash, [WordSerializer] the message format of words. The
    random draws are those of the trees (by batch and bin), of the checks (by batch)
    and of the code. The words of an output are a list, written back to a store at
    the end: an output store and the base transfers have different buffers. *)

From Stdlib Require Import ZArith Lia ZifyBool Bool.
From stdpp Require Import base numbers list option gmap.
From S2P Require Import Prelude BitBlock BitSet ChannelKeys OtStore CrHash TwoParty LinkProgram Context Sgrr.
From S2P Require Import LinearCode GaloisField Gywz Mpfss.

Local Open Scope Z_scope.

(** The serialization of a 128-bit word, which reads back. *)
Class WordSerializer := {
  SerializeUint128 : Z -> bytes;
  DeserializeUint128 : bytes -> option Z;
  deserialize_word x : 0 <= x < 2 ^ 128 -> DeserializeUint128 (SerializeUint128 x) = Some x
}.

(** Unpacking another message throws. *)
Definition unpack_word `{WordSerializer} (b : bytes) : res Z :=
  match DeserializeUint128 b with Some x => Val x | None => Err end.

(** *** Parameters *)

Record LpnParam := mk_lpn { lpn_n : Z; lpn_k : Z; lpn_t : Z; noise_asm : LpnNoiseAsm }.

Definition GetDefault : LpnParam := mk_lpn 10485760 452000 1280 RegularNoise.

(** A division by zero is undefined. *)
Definition udiv (x y : Z) : res Z := if y =? 0 then Bad else Val (x / y).

Definition MpCotRNHelper (idx_num idx_range : Z) (mal : bool) : res Z :=
  batch_size ← udiv (u64 (u64 (idx_range + idx_num) - 1)) idx_num;
  let last_size := u64 (idx_range - u64 (batch_size * u64 (idx_num - 1))) in
  let check_size := if mal then 128 else 0 in
  len ← Log2Ceil batch_size;
  last ← Log2Ceil last_size;
  Val (u64 (u64 (u64 (len * u64 (idx_num - 1)) + last) + check_size)).

Definition FerretCotHelper (p : LpnParam) (ot_num : Z) (mal : bool) : res Z :=
  mpcot_cot ← (match noise_asm p with
               | RegularNoise => MpCotRNHelper (lpn_t p) (lpn_n p) false
               | UniformNoise => Err
               end);
  let check_cot := if mal then 128 else 0 in
  Val (u64 (u64 (lpn_k p + mpcot_cot) + check_cot)).

(** *** The seed exchange *)

Section Ferret.
Context `{WordSerializer} (rp : Z -> Z) (aes : Z -> Z -> Z) (blake3 : bytes -> bytes) (fresh : Z -> list Z).

Definition SyncSeedSend (seed : Z) : LinkM Z :=
  c ← the_ctx;
  _ ← SendAsync (NextRank c 1) (SerializeUint128 seed);
  mret seed.

Definition SyncSeedRecv : LinkM Z :=
  c ← the_ctx;
  buf ← Recv (NextRank c 1);
  lift (unpack_word buf).

(** *** Multi-point correlated transfers with regular noise *)

(** The bins of an output: their number, the size of the last one, and the
    transfers a bin and the last bin take. *)
Record bins := mk_bins { bin_num : Z; last_size : Z; batch_length : Z; last_length : Z }.

Definition split_bins (idx_range idx_num spcot_size : Z) : res bins :=
  (if (spcot_size =? 0) && negb (idx_range =? 0) then Bad else Val ());;
  let batch_num := DivCeil idx_range spcot_size in
  OtStore.enforce (batch_num <=? idx_num);;
  OtStore.enforce (1 <=? batch_num);;
  let last_size := u64 (idx_range - u64 (u64 (batch_num - 1) * spcot_size)) in
  batch_length ← Log2Ceil spcot_size;
  last_length ← Log2Ceil last_size;
  Val (mk_bins batch_num last_size batch_length last_length).

(** [f] applied to the words of a subspan. *)
Definition at_subspan (out : list Z) (pos len : Z) (f : list Z -> LinkM (list Z)) : LinkM (list Z) :=
  span ← lift (subspan out pos len);
  span' ← f span;
  lift (access (write_span out pos span')).

Section Mpcot.
Context (h : heap) (spcot_size : Z) (b : bins).

(** Bin [i]. *)
Definition send_bin (cot : OtSendStore) (seeds : Z -> Z) (i : Z) (out : list Z) : LinkM (list Z) :=
  cot_slice ← lift (OtSend.Slice h cot (u64 (i * batch_length b)) (u64 (u64 (i * batch_length b) + batch_length b)));
  at_subspan out (u64 (i * spcot_size)) spcot_size (GywzOtExtSend_ferret rp fresh h cot_slice (u32 spcot_size) (seeds i)).

Definition recv_bin (cot : OtRecvStore) (i : Z) (out : list Z) : LinkM (list Z) :=
  cot_slice ← lift (OtRecv.Slice h cot (u64 (i * batch_length b)) (u64 (u64 (i * batch_length b) + batch_length b)));
  at_subspan out (u64 (i * spcot_size)) spcot_size (GywzOtExtRecv_ferret rp h cot_slice (u32 spcot_size)).

(** The last bin, which starts at these transfers and words. *)
Definition last_cot : Z := u64 (u64 (bin_num b - 1) * batch_length b).
Definition last_pos : Z := u64 (u64 (bin_num b - 1) * spcot_size).

Definition send_last (cot : OtSendStore) (seeds : Z -> Z) (out : list Z) : LinkM (list Z) :=
  if last_size b =? 1
  then x ← lift (OtSend.GetBlock h cot last_cot 0); lift (access (vset out last_pos x))
  else cot_slice ← lift (OtSend.Slice h cot last_cot (u64 (last_cot + last_length b)));
       at_subspan out last_pos (last_size b)
         (GywzOtExtSend_ferret rp fresh h cot_slice (u32 (last_size b)) (seeds (bin_num b - 1))).

Definition recv_last (cot : OtRecvStore) (out : list Z) : LinkM (list Z) :=
  if last_size b =? 1
  then x ← lift (OtRecv.GetBlock h cot last_cot); lift (access (vset out last_pos x))
  else cot_slice ← lift (OtRecv.Slice h cot last_cot (u64 (last_cot + last_length b)));
       at_subspan out last_pos (last_size b) (GywzOtExtRecv_ferret rp h cot_slice (u32 (last_size b))).

(** The consistency check, on the 128 transfers after those of the bins. *)
Definition check_first : Z := u64 (u64 (batch_length b * u64 (bin_num b - 1)) + last_length b).

Definition send_check (cot : OtSendStore) (rnd_check : Z) (out : list Z) : LinkM () :=
  check_cot ← lift (OtSend.Slice h cot check_first (u64 (check_first + 128)));
  seed ← SyncSeedSend rnd_check;
  let uhash := UniversalHash Gf128Mul seed out in
  c ← the_ctx;
  recv_buf ← Recv (NextRank c 1);
  word ← lift (unpack_word recv_buf);
  empty ← lift (access (Bitset.ctor_value 128 0 0));
  choices ← lift (access (Bitset.append_block 128 empty word));
  check_cot_data ← lift (mapM (fun i => t ← access (Bitset.test 128 choices i); OtSend.GetBlock h check_cot i (Z.b2z t))
                           (seqZ 0 128));
  diff ← lift (Gf128Pack check_cot_data);
  _ ← SendAsync (NextRank c 1) (blake3 (SerializeUint128 (Z.lxor uhash diff)));
  mret ().

(** The positions of the odd words. *)
Definition punctured_indexes (out : list Z) : list Z :=
  filter (fun i => Z.land (blk out i) 1 <> 0) (seqZ 0 (vsize out)).

Definition recv_check (cot : OtRecvStore) (out : list Z) : LinkM () :=
  check_cot ← lift (OtRecv.Slice h cot check_first (u64 (check_first + 128)));
  seed ← SyncSeedRecv;
  let uhash := UniversalHash Gf128Mul seed out in
  bits ← lift (OtRecv.CopyBitBuf h check_cot);
  choices ← lift (access (vget (m_blocks bits) 0));
  check_cot_data ← lift (OtRecv.CopyBlkBuf h check_cot);
  diff ← lift (Gf128Pack check_cot_data);
  coef ← lift (ExtractHashCoef Gf128Mul seed (punctured_indexes out));
  c ← the_ctx;
  _ ← SendAsync (NextRank c 1) (SerializeUint128 (foldl Z.lxor choices coef));
  let hash := blake3 (SerializeUint128 (Z.lxor uhash diff)) in
  buf ← Recv (NextRank c 1);
  enforce (bool_decide (hash = buf)).
End Mpcot.

Definition MpCotRNSend (h : heap) (cot : OtSendStore) (idx_range idx_num spcot_size : Z) (seeds : Z -> Z) (rnd_check : Z)
    (out : list Z) (mal : bool) : LinkM (list Z) :=
  b ← lift (split_bins idx_range idx_num spcot_size);
  out1 ← for_prog (Z.to_nat (bin_num b - 1)) 0 (send_bin h spcot_size b cot seeds) out;
  out2 ← send_last h spcot_size b cot seeds out1;
  _ ← (if mal then send_check h b cot rnd_check out2 else mret ());
  mret out2.

Definition MpCotRNRecv (h : heap) (cot : OtRecvStore) (idx_range idx_num spcot_size : Z) (out : list Z) (mal : bool)
  : LinkM (list Z) :=
  b ← lift (split_bins idx_range idx_num spcot_size);
  out1 ← for_prog (Z.to_nat (bin_num b - 1)) 0 (recv_bin h spcot_size b cot) out;
  out2 ← recv_last h spcot_size b cot out1;
  _ ← (if mal then recv_check h b cot out2 else mret ());
  mret out2.

(** *** Batches *)

Section Batches.
Context (p : LpnParam) (mal : bool) (ot_num : Z).

(** The number of transfers of the noise, the words a batch keeps, and the number
    of batches. *)
Record batches := mk_batches { mpcot_cot_num : Z; batch_size : Z; batch_num : Z }.

Definition plan_batches : res batches :=
  mpcot ← MpCotRNHelper (lpn_t p) (lpn_n p) mal;
  let cache_size := u64 (lpn_k p + mpcot) in
  let batch_size := u64 (lpn_n p - cache_size) in
  batch_num ← udiv (u64 (u64 (ot_num + batch_size) - 1)) batch_size;
  Val (mk_batches mpcot batch_size batch_num).

Context (code : LocalLinearCode) (pl : batches).

(** The words left at batch [i]; when more than [n] are left, another batch follows. *)
Definition remaining (i : Z) : Z := u64 (ot_num - u64 (i * batch_size pl)).
Definition batch_ot_num (i : Z) : Z := Z.min (lpn_n p) (remaining i).

(** The words at the end of a batch: the next vector to encode and the next
    transfers of the noise. *)
Definition next_seed (working : list Z) : res (list Z) := access (read_span working (batch_size pl) (lpn_k p)).
Definition next_mpcot (working : list Z) : res (list Z) :=
  access (read_span working (u64 (batch_size pl + lpn_k p)) (mpcot_cot_num pl)).

Record send_state := mk_send_state { st_heap : heap; st_cot : OtSendStore; st_v : list Z; st_out : list Z }.
Record recv_state := mk_recv_state { rt_heap : heap; rt_cot : OtRecvStore; rt_w : list Z; rt_out : list Z }.

(** A batch; the boolean is false after the last one. *)
Definition send_batch (base_cot : OtSendStore) (rnd_trees : Z -> Z -> Z) (rnd_checks : Z -> Z) (i : Z) (st : send_state)
  : LinkM (send_state * bool) :=
  spcot_size ← lift (udiv (lpn_n p) (lpn_t p));
  working_s ← lift (subspan (st_out st) (u64 (i * batch_size pl)) (batch_ot_num i));
  working_s ← (match noise_asm p with
               | RegularNoise => MpCotRNSend (st_heap st) (st_cot st) (batch_ot_num i) (lpn_t p) spcot_size (rnd_trees i)
                                   (rnd_checks i) working_s mal
               | UniformNoise => fail Thrown
               end);
  working_s ← lift (Encode_128 aes fresh 10 code (st_v st) working_s);
  out ← lift (access (write_span (st_out st) (u64 (i * batch_size pl)) working_s));
  if batch_ot_num i <? remaining i
  then working_v ← lift (next_seed working_s);
       mpcot_data ← lift (next_mpcot working_s);
       delta ← lift (OtSend.GetDelta base_cot);
       made ← lift (MakeCompactOtSendStore (st_heap st) mpcot_data delta);
       mret (mk_send_state (fst made) (snd made) working_v out, true)
  else mret (mk_send_state (st_heap st) (st_cot st) (st_v st) out, false).

Definition recv_batch (i : Z) (st : recv_state) : LinkM (recv_state * bool) :=
  spcot_size ← lift (udiv (lpn_n p) (lpn_t p));
  working_r ← lift (subspan (rt_out st) (u64 (i * batch_size pl)) (batch_ot_num i));
  working_r ← (match noise_asm p with
               | RegularNoise => MpCotRNRecv (rt_heap st) (rt_cot st) (batch_ot_num i) (lpn_t p) spcot_size working_r mal
               | UniformNoise => fail Thrown
               end);
  working_r ← lift (Encode_128 aes fresh 10 code (rt_w st) working_r);
  out ← lift (access (write_span (rt_out st) (u64 (i * batch_size pl)) working_r));
  if batch_ot_num i <? remaining i
  then working_w ← lift (next_seed working_r);
       mpcot_data ← lift (next_mpcot working_r);
       made ← lift (MakeCompactOtRecvStore (rt_heap st) mpcot_data);
       mret (mk_recv_state (fst made) (snd made) working_w out, true)
  else mret (mk_recv_state (rt_heap st) (rt_cot st) (rt_w st) out, false).

(** At most [batch_num] batches. *)
Fixpoint batch_loop {St} (batch : Z -> St -> LinkM (St * bool)) (n : nat) (i : Z) (st : St) : LinkM St :=
  match n with
  | O => mret st
  | S n' => r ← batch i st;
            if (snd r : bool) then batch_loop batch n' (i + 1) (fst r) else mret (fst r)
  end.
End Batches.

(** *** The protocol *)

Section Protocol.
Context (h : heap) (p : LpnParam) (ot_num : Z) (mal : bool) (rnd_trees : Z -> Z -> Z) (rnd_checks : Z -> Z) (rnd_code : Z).

(** The batches of both parties, from the slices of the base transfers to the
    words of the output [span]. *)
Definition send_batches (base_cot cot_mpcot cot_seed : OtSendStore) (pl : batches) (span : LinkM (list Z))
  : LinkM send_state :=
  working_v ← lift (OtSend.CopyCotBlkBuf h cot_seed);
  seed ← SyncSeedSend rnd_code;
  llc ← lift (access (new_LocalLinearCode seed (lpn_n p) (lpn_k p)));
  out_span ← span;
  batch_loop (send_batch p mal ot_num llc pl base_cot rnd_trees rnd_checks) (Z.to_nat (batch_num pl)) 0
    (mk_send_state h cot_mpcot working_v out_span).

Definition recv_batches (cot_mpcot cot_seed : OtRecvStore) (pl : batches) (span : LinkM (list Z)) : LinkM recv_state :=
  working_w ← lift (OtRecv.CopyBlkBuf h cot_seed);
  seed ← SyncSeedRecv;
  llc ← lift (access (new_LocalLinearCode seed (lpn_n p) (lpn_k p)));
  out_span ← span;
  batch_loop (recv_batch p mal ot_num llc pl) (Z.to_nat (batch_num pl)) 0
    (mk_recv_state h cot_mpcot working_w out_span).

(** The checks the forms share. *)
Definition check_send_base (base_cot : OtSendStore) : LinkM () :=
  c ← the_ctx;
  _ ← enforce (WorldSize c =? 2);
  _ ← enforce (bool_decide (send_type base_cot = Compact));
  need ← lift (FerretCotHelper p ot_num false);
  enforce (need <=? OtSend.Size base_cot).

Definition check_recv_base (base_cot : OtRecvStore) : LinkM () :=
  c ← the_ctx;
  _ ← enforce (WorldSize c =? 2);
  _ ← enforce (bool_decide (recv_type base_cot = Compact));
  need ← lift (FerretCotHelper p ot_num false);
  enforce (need <=? OtRecv.Size base_cot).

(** The words of a span over the start of a buffer are written back to it. *)
Definition put_span (h : heap) (ptr : option nat) (span : list Z) : res heap :=
  l ← deref_blk h ptr;
  Val (put_blk h ptr (span ++ drop (length span) l)).

(** Into a store: its heap and the store. *)
Definition FerretOtExtSend (base_cot out : OtSendStore) : LinkM (heap * OtSendStore) :=
  _ ← check_send_base base_cot;
  _ ← enforce (u64 (2 * lpn_t p) <=? ot_num);
  _ ← enforce (bool_decide (send_type out = Compact));
  _ ← enforce (OtSend.Size out =? ot_num);
  pl ← lift (plan_batches p mal ot_num);
  delta ← lift (OtSend.GetDelta base_cot);
  out ← lift (OtSend.SetDelta out delta);
  cot_mpcot ← lift (OtSend.Slice h base_cot 0 (mpcot_cot_num pl));
  cot_seed ← lift (OtSend.Slice h base_cot (mpcot_cot_num pl) (u64 (mpcot_cot_num pl + lpn_k p)));
  st ← send_batches base_cot cot_mpcot cot_seed pl (lift (OtSend.GetBlkBufSpan h out));
  h' ← lift (put_span (st_heap st) (send_blk_buf out) (st_out st));
  mret (h', out).

Definition FerretOtExtRecv (base_cot out : OtRecvStore) : LinkM (heap * OtRecvStore) :=
  _ ← check_recv_base base_cot;
  _ ← enforce (u64 (2 * lpn_t p) <=? ot_num);
  _ ← enforce (bool_decide (recv_type out = Compact));
  _ ← enforce (OtRecv.Size out =? ot_num);
  pl ← lift (plan_batches p mal ot_num);
  cot_mpcot ← lift (OtRecv.Slice h base_cot 0 (mpcot_cot_num pl));
  cot_seed ← lift (OtRecv.Slice h base_cot (mpcot_cot_num pl) (u64 (mpcot_cot_num pl + lpn_k p)));
  st ← recv_batches cot_mpcot cot_seed pl (lift (OtRecv.GetBlkBufSpan h out));
  h' ← lift (put_span (rt_heap st) (recv_blk_buf out) (rt_out st));
  mret (h', out).

(** A new store. *)
Definition FerretOtExtSend_new (base_cot : OtSendStore) : LinkM (heap * OtSendStore) :=
  _ ← check_send_base base_cot;
  _ ← enforce (u64 (2 * lpn_t p) <=? ot_num);
  pl ← lift (plan_batches p mal ot_num);
  delta ← lift (OtSend.GetDelta base_cot);
  cot_mpcot ← lift (OtSend.Slice h base_cot 0 (mpcot_cot_num pl));
  cot_seed ← lift (OtSend.Slice h base_cot (mpcot_cot_num pl) (u64 (mpcot_cot_num pl + lpn_k p)));
  st ← send_batches base_cot cot_mpcot cot_seed pl (mret (fresh ot_num));
  lift (MakeCompactOtSendStore (st_heap st) (st_out st) delta).

Definition FerretOtExtRecv_new (base_cot : OtRecvStore) : LinkM (heap * OtRecvStore) :=
  _ ← check_recv_base base_cot;
  _ ← enforce (u64 (2 * lpn_t p) <=? ot_num);
  pl ← lift (plan_batches p mal ot_num);
  cot_mpcot ← lift (OtRecv.Slice h base_cot 0 (mpcot_cot_num pl));
  cot_seed ← lift (OtRecv.Slice h base_cot (mpcot_cot_num pl) (u64 (mpcot_cot_num pl + lpn_k p)));
  st ← recv_batches cot_mpcot cot_seed pl (mret (fresh ot_num));
  lift (MakeCompactOtRecvStore (rt_heap st) (rt_out st)).

(** Into a span: the vector to encode comes first in the base transfers. *)
Definition FerretOtExtSend_cheetah (base_cot : OtSendStore) (out : list Z) : LinkM (list Z) :=
  _ ← check_send_base base_cot;
  pl ← lift (plan_batches p mal ot_num);
  cot_seed ← lift (OtSend.Slice h base_cot 0 (lpn_k p));
  cot_mpcot ← lift (OtSend.Slice h base_cot (lpn_k p) (u64 (lpn_k p + mpcot_cot_num pl)));
  st ← send_batches base_cot cot_mpcot cot_seed pl (_ ← enforce (vsize out =? ot_num); mret out);
  mret (st_out st).

Definition FerretOtExtRecv_cheetah (base_cot : OtRecvStore) (out : list Z) : LinkM (list Z) :=
  _ ← check_recv_base base_cot;
  pl ← lift (plan_batches p mal ot_num);
  cot_seed ← lift (OtRecv.Slice h base_cot 0 (lpn_k p));
  cot_mpcot ← lift (OtRecv.Slice h base_cot (lpn_k p) (u64 (lpn_k p + mpcot_cot_num pl)));
  st ← recv_batches cot_mpcot cot_seed pl (_ ← enforce (vsize out =? ot_num); mret out);
  mret (rt_out st).
End Protocol.
End Ferret.
