(* ===== verification/FerretFacts.v ===== *)
(** Correlated words, and compact stores in the heaps of the two parties; the
    single-point protocol of a bin, under [converse]: two compact stores give
    correlated words, and the receiver's words are odd at one index; the loop over
    the bins of a batch. *)

From Stdlib Require Import ZArith Lia ZifyBool Bool.
From stdpp Require Import base numbers list option gmap.
From S2P Require Import Prelude BitBlock BitSet BitSetFacts BitSetString ChannelKeys OtStore OtStoreFacts OtStoreTheorems SparseXor LinkProgram Context.
From S2P Require Import LinkGroup Collectives CollectivesFacts CrHash TwoParty Dialogue Sgrr SgrrFacts SgrrTheorems Gywz GywzFacts GywzTheorems.
From S2P Require Import Mpfss MpfssFacts Ferret.

Local Open Scope Z_scope.

(** *** Pairs of words *)

Definition odd_word (x : Z) : bool := Z.testbit x 0.

Definition paired (delta x y : Z) : Prop :=
  0 <= x < 2 ^ 128 /\ odd_word x = false /\ y = Z.lxor x (if odd_word y then delta else 0).

Lemma lxor_word x y : 0 <= x < 2 ^ 128 -> 0 <= y < 2 ^ 128 -> 0 <= Z.lxor x y < 2 ^ 128.
Proof.
  intros Hx Hy. assert (0 <= Z.lxor x y) by (apply Z.lxor_nonneg; lia). split; [done|]. apply bits_bound; [lia|done|].
  intros j Hj. by rewrite Z.lxor_spec, (testbit_high 128 x), (testbit_high 128 y) by lia.
Qed.

Lemma paired_zero delta : paired delta 0 0.
Proof. split; [lia|done]. Qed.
Section Paired.
Context (delta : Z).
Hypothesis Hodd : odd_word delta = true.
Hypothesis Hdelta : 0 <= delta < 2 ^ 128.

Lemma paired_choice x (u : bool) : 0 <= x < 2 ^ 128 -> odd_word x = false ->
  odd_word (Z.lxor x (if u then delta else 0)) = u /\ paired delta x (Z.lxor x (if u then delta else 0)).
Proof using All.
  intros Hx Hp. assert (E : odd_word (Z.lxor x (if u then delta else 0)) = u).
  { unfold odd_word in *. rewrite Z.lxor_spec, Hp. destruct u; [by rewrite Hodd|by rewrite Z.bits_0]. }
  split; [done|]. unfold paired. by rewrite E.
Qed.

Lemma paired_word x y : paired delta x y -> 0 <= y < 2 ^ 128.
Proof using All. intros (Hx & _ & ->). apply lxor_word; [done|]. destruct (odd_word y); lia. Qed.

Lemma paired_xor x y x' y' : paired delta x y -> paired delta x' y' -> paired delta (Z.lxor x x') (Z.lxor y y').
Proof using All.
  intros (Hx & Px & Ey) (Hx' & Px' & Ey').
  assert (E : Z.lxor y y' = Z.lxor (Z.lxor x x') (if xorb (odd_word y) (odd_word y') then delta else 0)).
  { rewrite Ey at 1. rewrite Ey' at 1. rewrite xor_swap. f_equal.
    destruct (odd_word y), (odd_word y'); rewrite ?Z.lxor_nilpotent, ?Z.lxor_0_r, ?Z.lxor_0_l; done. }
  rewrite E. apply paired_choice; [by apply lxor_word|]. unfold odd_word in *. by rewrite Z.lxor_spec, Px, Px'.
Qed.

End Paired.

(** *** Vectors *)

Definition pairs (delta : Z) : list Z -> list Z -> Prop := Forall2 (paired delta).

Lemma Forall2_blk (P : Z -> Z -> Prop) l l' :
  Forall2 P l l' <-> vsize l = vsize l' /\ forall i, 0 <= i < vsize l -> P (blk l i) (blk l' i).
Proof.
  split.
  - intros H. pose proof (Forall2_length _ _ _ H) as Hl. split; [unfold vsize; lia|]. intros i Hi.
    pose proof (vget_blk l i Hi) as E. pose proof (vget_blk l' i ltac:(unfold vsize in *; lia)) as E'.
    unfold vget in E, E'. replace (0 <=? i) with true in E, E' by lia. by eapply Forall2_lookup_lr.
  - intros [Hl H]. apply Forall2_same_length_lookup_2; [unfold vsize in Hl; lia|]. intros i x y Hx Hy.
    rewrite vget_nat in Hx, Hy. assert (Hi : 0 <= Z.of_nat i < vsize l) by (apply vget_Some_iff; by eexists).
    rewrite vget_blk in Hx, Hy by lia. injection Hx as <-. injection Hy as <-. by apply H.
Qed.

Lemma pairs_size delta l l' : pairs delta l l' -> vsize l = vsize l'.
Proof. intros H. by apply Forall2_blk in H as [? _]. Qed.

Lemma pairs_blk delta l l' i : pairs delta l l' -> paired delta (blk l i) (blk l' i).
Proof.
  intros H. apply Forall2_blk in H as [E H]. destruct (decide (0 <= i < vsize l)); [by apply H|].
  rewrite !blk_outside by lia. apply paired_zero.
Qed.

Lemma pairs_span delta l l' pos len a b : pairs delta l l' -> read_span l pos len = Some a -> read_span l' pos len = Some b -> pairs delta a b.
Proof.
  unfold read_span. intros H Ha Hb. destruct (_ && _) in Ha; [|done]. destruct (_ && _) in Hb; [|done]. simplify_eq.
  by apply Forall2_take, Forall2_drop.
Qed.
Section Pairs.
Context (delta : Z).
Hypothesis Hodd : odd_word delta = true.
Hypothesis Hdelta : 0 <= delta < 2 ^ 128.

(** Encodings of correlated vectors into correlated vectors. *)
Lemma pairs_encode col v w s r : pairs delta v w -> pairs delta s r ->
  pairs delta (encode_with col v s) (encode_with col w r).
Proof using All.
  intros Hv Hs. pose proof (pairs_size _ _ _ Hs) as E. apply Forall2_blk. rewrite !vsize_encode_with. split; [done|].
  intros i Hi. rewrite !blk_encode_with by lia. apply paired_xor; [done|done|by apply pairs_blk|].
  induction (col i) as [|j js IH]; [apply paired_zero|]. cbn. apply paired_xor; [done|done|by apply pairs_blk|exact IH].
Qed.

End Pairs.

(** The part of two vectors that is correlated so far. *)
Definition pairs_below (delta q : Z) (l l' : list Z) : Prop :=
  vsize l = vsize l' /\ forall i, 0 <= i < q -> paired delta (blk l i) (blk l' i).

Lemma pairs_below_all delta l l' : pairs_below delta (vsize l) l l' -> pairs delta l l'.
Proof. intros H. by apply Forall2_blk. Qed.

(** Correlated words written after, or over the end of, the correlated part. *)
Lemma pairs_below_write delta q l l' pos a b m m' : pairs_below delta q l l' -> pairs delta a b -> pos <= q ->
  write_span l pos a = Some m -> write_span l' pos b = Some m' -> pairs_below delta (Z.max q (pos + vsize a)) m m'.
Proof.
  intros [E H] Hab Hq W W'. pose proof (pairs_size _ _ _ Hab) as Es.
  destruct (blk_write _ _ _ _ 0 W) as (P0 & P1 & Z & _). destruct (blk_write _ _ _ _ 0 W') as (_ & _ & Z' & _).
  split; [lia|]. intros i Hi. destruct (blk_write _ _ _ _ i W) as (_ & _ & _ & B). destruct (blk_write _ _ _ _ i W') as (_ & _ & _ & B').
  rewrite B, B', <- Es. destruct ((pos <=? i) && (i <? pos + vsize a)) eqn:In.
  - by apply pairs_blk.
  - apply H. lia.
Qed.

(** *** Compact stores of the two parties *)

Record cot_pair (hs hr : heap) (s : OtSendStore) (r : OtRecvStore) (l lr : list Z) (delta : Z) : Prop := {
  pair_send : blk_at hs (send_blk_buf s) l;
  pair_recv : blk_at hr (recv_blk_buf r) lr;
  pair_send_type : send_type s = Compact;
  pair_recv_type : recv_type r = Compact;
  pair_delta : send_delta s = delta;
  pair_slice : send_slice s = recv_slice r;
  pair_ok : slice_ok (recv_slice r) (vsize lr);
  pair_words : pairs delta l lr
}.

Section Stores.
Context (hs hr : heap) (s : OtSendStore) (r : OtRecvStore) (l lr : list Z) (delta : Z).
Hypothesis Hp : cot_pair hs hr s r l lr delta.
Hypothesis Hodd : odd_word delta = true.
Hypothesis Hdelta : 0 <= delta < 2 ^ 128.
Local Abbreviation ctr := (internal_use_ctr_ (recv_slice r)).

Lemma pair_views : send_view hs s l /\ recv_view hr r lr Bitset.ctor_empty.
Proof using All.
  destruct Hp as [Bs Br Ts Tr D E O W]. pose proof (pairs_size _ _ _ W) as Z.
  split; split; [done|by rewrite E, Z|unfold aligned; by rewrite Ts|done|done|by rewrite Tr].
Qed.

Lemma delta_nonzero : delta <> 0.
Proof using All. intros E. rewrite E in Hodd. done. Qed.

Lemma pair_GetDelta : OtSend.GetDelta s = Val delta.
Proof using All.
  unfold OtSend.GetDelta. rewrite (pair_delta _ _ _ _ _ _ _ Hp). pose proof delta_nonzero.
  by replace (delta =? 0) with false by lia.
Qed.

Lemma pair_sizes : OtSend.Size s = OtRecv.Size r.
Proof using All. destruct Hp as [Bs Br Ts Tr D E O W]. unfold OtSend.Size, OtRecv.Size. by rewrite Ts, E. Qed.

(** The messages and the choices of transfer [i]. *)
Lemma pair_blocks i : 0 <= i < OtRecv.Size r ->
  OtRecv.GetBlock hr r i = Val (blk lr (ctr + i)) /\
  OtRecv.GetChoice hr r i = Val (Z.b2z (odd_word (blk lr (ctr + i)))) /\
  forall m, OtSend.GetBlock hs s i (Z.b2z m) = Val (Z.lxor (blk l (ctr + i)) (if m then delta else 0)).
Proof using All.
  intros Hi. destruct pair_views as [Vs Vr]. pose proof pair_sizes as Sz. pose proof (pair_ok _ _ _ _ _ _ _ Hp) as [].
  rewrite (recv_GetBlock hr r lr _ Vr), (recv_GetChoice hr r lr _ Vr) by lia. replace (i <? OtRecv.Size r) with true by lia.
  split; [done|]. split; [by rewrite (pair_recv_type _ _ _ _ _ _ _ Hp)|]. intros m. pose proof delta_nonzero as Hne.
  unfold OtRecv.Size in Hi.
  rewrite (send_GetBlock hs s l Vs) by (rewrite ?(pair_delta _ _ _ _ _ _ _ Hp); done || lia || (destruct m; auto)).
  replace (i <? OtSend.Size s) with true by (unfold OtRecv.Size in Sz; lia). unfold message_at, OtSend.ot_blk_num.
  rewrite (pair_delta _ _ _ _ _ _ _ Hp), (pair_send_type _ _ _ _ _ _ _ Hp), (pair_slice _ _ _ _ _ _ _ Hp), Z.mul_1_l.
  replace (delta =? 0) with false by lia. f_equal. f_equal. destruct m; cbn [Z.b2z]; rewrite ?Z.mul_0_r, ?Z.mul_1_r; [|done].
  by apply Z.mod_small.
Qed.

(** A slice: its bounds are positions in the buffers. *)
Definition window (first last : Z) : SliceBase := mk_slice first (last - first) first last.

Lemma pair_slices first last : 0 <= first < last -> last <= vsize lr ->
  exists s' r', OtSend.Slice hs s first last = Val s' /\ OtRecv.Slice hr r first last = Val r' /\
    cot_pair hs hr s' r' l lr delta /\ recv_slice r' = window first last.
Proof using All.
  intros Hf Hl. destruct pair_views as [Vs Vr]. pose proof (pair_ok _ _ _ _ _ _ _ Hp) as Hok. pose proof Hok as [].
  pose proof Hp as [Bs Br Ts Tr D E O W]. pose proof (pairs_size _ _ _ W) as Z.
  assert (Kr : slice_ok (window first last) (vsize lr)) by (split; cbn; lia).
  assert (Ks : slice_ok (window first last) (vsize l)) by (by rewrite Z).
  pose proof (recv_make_window hr r lr _ Vr _ Kr) as Er. pose proof (send_make_window hs s l Vs _ Ks) as Es.
  unfold OtSend.Slice, OtRecv.Slice, OtSend.ot_blk_num. rewrite Ts in Es |- *. rewrite !Z.mul_1_r.
  rewrite !(u64_small first), !(u64_small last), !(u64_small (last - first)) by lia.
  cbn [window internal_use_ctr_ internal_use_size_ internal_buf_ctr_ internal_buf_size_] in Er, Es. rewrite Er, Es.
  eexists _, _. split; [done|]. split; [done|]. split; [|done]. by split.
Qed.

(** The words of a slice, copied. *)
Lemma pair_copies first last : recv_slice r = window first last ->
  exists v w, OtSend.CopyCotBlkBuf hs s = Val v /\ OtRecv.CopyBlkBuf hr r = Val w /\ pairs delta v w /\
    vsize w = last - first /\ forall i, 0 <= i < last - first -> blk w i = blk lr (first + i) /\ blk v i = blk l (first + i).
Proof using All.
  intros Hw. pose proof (pair_ok _ _ _ _ _ _ _ Hp) as Hok. pose proof Hp as [Bs Br Ts Tr D E O W]. pose proof (pairs_size _ _ _ W) as Z.
  rewrite Hw in Hok. destruct Hok as [K1 K2 K3 K4 K5 K6]. cbn in K1, K2, K3, K4, K5.
  unfold OtSend.CopyCotBlkBuf, OtRecv.CopyBlkBuf. rewrite Ts, E, Hw, (deref_blk_at _ _ _ Bs), (deref_blk_at _ _ _ Br).
  cbn [mbind res_bind window internal_use_ctr_ internal_use_size_ internal_buf_ctr_]. unfold OtRecv.copy_range.
  replace (_ && _ && (first + (last - first) <=? vsize l)) with true by lia.
  replace (_ && _ && (first + (last - first) <=? vsize lr)) with true by lia.
  eexists _, _. split; [done|]. split; [done|]. split; [by apply Forall2_take, Forall2_drop|].
  split; [apply (blk_part lr first (last - first) 0); lia|]. intros i Hi.
  split; [apply (blk_part lr first (last - first) i)|apply (blk_part l first (last - first) i)]; lia.
Qed.
End Stores.

(** A heap that keeps the buffers of another one. *)
Definition extends (h h' : heap) : Prop :=
  (next_loc h <= next_loc h')%nat /\ forall loc, (loc < next_loc h)%nat -> blk_bufs h' !! loc = blk_bufs h !! loc.

#[export] Instance extends_preorder : PreOrder extends.
Proof.
  split; [by intros h|]. intros h1 h2 h3 [H1 E1] [H2 E2]. split; [lia|]. intros loc Hl. rewrite E2 by lia. by apply E1.
Qed.

Lemma extends_new h l : extends h (fst (new_blk h l)).
Proof. split; [cbn; lia|]. intros loc Hl. cbn. by rewrite lookup_insert_ne by lia. Qed.

(** New stores of correlated words. *)
Lemma pair_new hs hr l lr delta : odd_word delta = true -> 0 <= delta < 2 ^ 128 -> pairs delta l lr -> 0 < vsize lr < 2 ^ 62 ->
  exists hs' hr' s r, MakeCompactOtSendStore hs l delta = Val (hs', s) /\ MakeCompactOtRecvStore hr lr = Val (hr', r) /\
    cot_pair hs' hr' s r l lr delta /\ recv_slice r = window 0 (vsize lr) /\ extends hs hs' /\ extends hr hr'.
Proof.
  intros Hodd Hdelta W Hz. pose proof (pairs_size _ _ _ W) as Z. unfold MakeCompactOtSendStore, MakeCompactOtRecvStore, new_blk.
  set (hs' := mk_heap (<[next_loc hs := l]> _) _ _). set (hr' := mk_heap (<[next_loc hr := lr]> _) _ _).
  assert (Bs : blk_at hs' (Some (next_loc hs)) l) by (exists (next_loc hs); split; [done|apply lookup_insert_eq]).
  assert (Br : blk_at hr' (Some (next_loc hr)) lr) by (exists (next_loc hr); split; [done|apply lookup_insert_eq]).
  assert (K : slice_ok (window 0 (vsize lr)) (vsize lr)) by (split; cbn; lia).
  set (s := mk_send (window 0 (vsize lr)) Compact delta (Some (next_loc hs))).
  set (r := mk_recv (window 0 (vsize lr)) Compact None (Some (next_loc hr))).
  assert (C : cot_pair hs' hr' s r l lr delta) by (by split).
  destruct (pair_views hs' hr' s r l lr delta C Hodd Hdelta) as [Vs Vr].
  pose proof (recv_make_window hr' r lr _ Vr _ K) as Er. pose proof (send_make_window hs' s l Vs (window 0 (vsize lr)) ltac:(by rewrite Z)) as Es.
  cbn in Er, Es. rewrite Z.sub_0_r in Er, Es. rewrite Z, Er, Es. cbn [mbind res_bind].
  exists hs', hr', s, r. unfold s, r, window. rewrite Z.sub_0_r. split; [done|]. split; [done|].
  split; [|split; [done|split; apply extends_new]].
  unfold s, r, window in C. by rewrite Z.sub_0_r in C.
Qed.

Lemma even_word x : Z.land x even_mask = x -> 0 <= x < 2 ^ 128 /\ odd_word x = false.
Proof.
  intros <-. split; [apply land_one_range; unfold even_mask; lia|].
  unfold odd_word. rewrite Z.land_spec, testbit_even by lia. apply andb_false_r.
Qed.

Section Tree.
Context (rp : Z -> Z) (fresh : Z -> list Z) (hs hr : heap) (s : OtSendStore) (r : OtRecvStore) (l lr : list Z) (delta n seed : Z).
Hypothesis Hfresh : forall m, 0 <= m -> vsize (fresh m) = m.
Hypothesis Hp : cot_pair hs hr s r l lr delta.
Hypothesis Hodd : odd_word delta = true.
Hypothesis Hdelta : 0 <= delta < 2 ^ 128.
Hypothesis Hn : 1 < n <= 2 ^ 31.
Hypothesis Hsize : OtRecv.Size r = depth n.
Local Abbreviation L := (depth n).
Local Abbreviation ctr := (internal_use_ctr_ (recv_slice r)).
Local Abbreviation g := (glevel rp even_mask (Z.land delta even_mask) (Z.land seed even_mask) L).

Lemma delta_odd : Z.lor delta 1 = delta.
Proof using All.
  apply Z.bits_inj'. intros q Hq. rewrite Z.lor_spec. destruct (Z.eqb_spec q 0) as [-> | Hne].
  - change (Z.testbit delta 0) with (odd_word delta). by rewrite Hodd.
  - change 1 with (2 ^ 0). rewrite testbit_pow2 by lia. replace (q =? 0) with false by lia. apply orb_false_r.
Qed.

Lemma leaf_even j : Z.land (g j) even_mask = g j.
Proof using Type. apply gnode_masked; by rewrite <- Z.land_assoc, Z.land_diag. Qed.

(** What both parties compute: the message is the same whatever their outputs held. *)
Lemma ferret_tree : exists index sums masked_sums sib,
  choices_index hr r L = Val index /\ 0 <= index < 2 ^ L /\
  for_res (Z.to_nat L) 0 (mask_sums (fun i => b ← OtSend.GetBlock hs s i 1; Val (Z.land b even_mask))) sums = Val masked_sums /\
  vsize masked_sums = L /\ (forall t, 0 <= t < L -> 0 <= blk masked_sums t < 2 ^ 128) /\
  for_res (Z.to_nat L) 0 (mask_sums (fun i => b ← OtRecv.GetBlock hr r i; Val (Z.land b even_mask))) masked_sums = Val sib /\
  (forall out, n <= vsize out -> exists leaves,
     CggmFullEval rp (Z.land delta even_mask) (Z.land seed even_mask) n out (fresh L) even_mask = Val (leaves, sums) /\
     vsize leaves = vsize out /\ holds leaves n g) /\
  (forall out, n <= vsize out -> exists punctured,
     CggmPuncFullEval rp index sib n out even_mask = Val punctured /\
     vsize punctured = vsize out /\ holds punctured n (plevel rp even_mask (Z.land delta even_mask) (Z.land seed even_mask) index L)).
Proof using All.
  destruct (depth_height n Hn) as [HL _]. pose proof HL as (_ & HL31 & _).
  pose proof (pair_blocks hs hr s r l lr delta Hp Hodd Hdelta) as HB. rewrite Hsize in HB.
  destruct (choices_index_bits hr r L (fun i => odd_word (blk lr (ctr + i)))) as (index & Ei & Hi & Bi); [lia|intros i Hi; by apply HB|].
  assert (Heven : 0 <= even_mask < 2 ^ 128) by (unfold even_mask; lia).
  destruct (tree_runs rp n seed delta Hn even_mask index
    (fun i => b ← OtSend.GetBlock hs s i 1; Val (Z.land b even_mask)) (fun i => b ← OtRecv.GetBlock hr r i; Val (Z.land b even_mask))
    (fun i => Z.land (Z.lxor (blk l (ctr + i)) delta) even_mask) (fun i => Z.land (blk lr (ctr + i)) even_mask) Heven)
    as (sums & masked_sums & sib & E2 & Z3 & E3 & E4 & Hfull & Hpunc).
  { intros i Hi'. destruct (HB i Hi') as (_ & _ & Es). specialize (Es true). change (Z.b2z true) with 1 in Es. rewrite Es.
    split; [done|by apply land_one_range]. }
  { intros i Hi'. destruct (HB i Hi') as (-> & _). split; [done|]. rewrite Bi by done.
    destruct (pairs_blk _ _ _ (ctr + i) (pair_words _ _ _ _ _ _ _ Hp)) as (_ & _ & E). rewrite E at 1.
    apply Z.bits_inj'. intros q Hq. destruct (odd_word (blk lr (ctr + i)));
      rewrite ?Z.lxor_spec, ?Z.land_spec, ?Z.lxor_spec, ?Z.bits_0;
      destruct (Z.testbit (blk l (ctr + i)) q), (Z.testbit delta q), (Z.testbit even_mask q); done. }
  exists index, sums, masked_sums, sib. do 6 (split; [done|]). split; [|done].
  intros out Ho. rewrite full_eval_masked. apply Hfull; [done|]. apply Hfresh. lia.
Qed.

(** The words of both parties. *)
Definition bin_words (a b : list Z) : Prop :=
  pairs delta a b /\ vsize a = n /\ (n = 2 ^ L -> exists j, 0 <= j < n /\ odd_word (blk b j) = true).

Lemma punctured_pairs index leaves punctured : 0 <= index < 2 ^ L ->
  vsize leaves = n -> holds leaves n g -> vsize punctured = n ->
  holds punctured n (plevel rp even_mask (Z.land delta even_mask) (Z.land seed even_mask) index L) ->
  exists out, (if index <? n
      then access (y ← vget punctured index; vset punctured index (Z.lor y (2 ^ 128 - 1 - even_mask))) else Val punctured) = Val out /\
    bin_words leaves out.
Proof using All.
  intros Hi Zl Fl Zp Fp.
  assert (HE : exists out, (if index <? n
      then access (y ← vget punctured index; vset punctured index (Z.lor y (2 ^ 128 - 1 - even_mask))) else Val punctured) = Val out /\
    vsize out = n /\ holds out n (fun j => Z.lxor (g j) (if j =? index then delta else 0))).
  { assert (Hpl : forall j, plevel rp even_mask (Z.land delta even_mask) (Z.land seed even_mask) index L j =
      Z.lxor (g j) (if j =? index then Z.land delta even_mask else 0)) by (intros j; unfold plevel; by rewrite Z.mod_small).
    destruct (Z.ltb_spec index n) as [Hlt | Hge].
    - rewrite vget_blk, Fp, Hpl by lia. cbn [mbind option_bind]. rewrite vset_Some by lia. eexists. split; [done|].
      rewrite vsize_insert. split; [done|]. intros j Hj. rewrite blk_insert by lia. destruct (Z.eqb_spec j index) as [-> | Hne].
      + rewrite Z.eqb_refl, (odd_delta delta Hdelta) by apply leaf_even. by rewrite delta_odd.
      + rewrite Fp, Hpl by done. by replace (j =? index) with false by lia.
    - exists punctured. split; [done|]. split; [done|]. intros j Hj. rewrite Fp, Hpl by done.
      by replace (j =? index) with false by lia. }
  destruct HE as (out & E & Zo & Fo). exists out. split; [done|]. split; [|split; [done|]].
  - apply Forall2_blk. split; [lia|]. intros j Hj. rewrite Fl, Fo by lia. destruct (even_word _ (leaf_even j)) as [Hw He].
    destruct (paired_choice delta Hodd Hdelta _ (j =? index) Hw He) as [_ H]. by destruct (j =? index).
  - intros Hpow. exists index. split; [lia|]. rewrite Fo, Z.eqb_refl by lia. destruct (even_word _ (leaf_even index)) as [Hw He].
    by destruct (paired_choice delta Hodd Hdelta _ true Hw He) as [H _].
Qed.

Context (ph : list Z) (nm : bytes) (k rr : Z).
Hypothesis Hnd : NoDup ph.
Hypothesis Hph : vsize ph = 2.
Hypothesis Hrr : rr = 0 \/ rr = 1.

Lemma ferret_converse out_s out_r : vsize out_s = n -> vsize out_r = n ->
  converse ph nm k rr 0 1 (GywzOtExtSend_ferret rp fresh hs s n seed out_s) (GywzOtExtRecv_ferret rp hr r n out_r) bin_words.
Proof using All.
  intros Hos Hor. destruct (depth_height n Hn) as [_ HLog]. pose proof (pair_sizes hs hr s r l lr delta Hp Hodd Hdelta) as Sz.
  destruct ferret_tree as (index & sums & masked_sums & sib & Ei & Hi & E2 & Z3 & E3 & E4 & Hfull & Hpunc).
  destruct (Hfull out_s) as (leaves & E1 & Zl & Fl); [lia|]. destruct (Hpunc out_r) as (punctured & E5 & Zp & Fp); [lia|].
  destruct (punctured_pairs index leaves punctured Hi ltac:(lia) Fl ltac:(lia) Fp) as (out & E6 & HQ).
  unfold GywzOtExtSend_ferret, GywzOtExtRecv_ferret.
  sender_lifts HLog. receiver_lifts HLog. sender_checks. receiver_checks. sender_checks. receiver_checks.
  pose proof (pair_send_type _ _ _ _ _ _ _ Hp) as Ts. pose proof (pair_recv_type _ _ _ _ _ _ _ Hp) as Tr.
  sender_checks. receiver_checks. receiver_lifts Ei. sender_lifts (pair_GetDelta hs hr s r l lr delta Hp Hodd Hdelta).
  sender_lifts E1. cbn [snd fst]. sender_lifts E2. sender_ctx. receiver_ctx. change 1%N with (1 + 0)%N. sends_down.
  eapply converse_lift_r; [assumption..|by rewrite (read_sums_words L masked_sums Z3 E3)|]. receiver_lifts E4. receiver_lifts E5.
  assert (HR : forall M : LinkM (list Z), M = mret out -> converse ph nm k rr 0 0 (mret leaves) M bin_words).
  { intros M ->. by apply converse_ret. }
  apply HR. destruct (index <? n); [by rewrite E6|]. by injection E6 as ->.
Qed.
End Tree.

(** *** Arithmetic of the bins *)

(** The transfers of a bin of [m] words. *)
Definition bin_length (m : Z) : Z := if m =? 1 then 0 else depth m.

Lemma log2ceil_length m : 1 <= m <= 2 ^ 31 -> Log2Ceil m = Val (bin_length m).
Proof.
  intros Hm. unfold bin_length. destruct (Z.eqb_spec m 1) as [-> | Hne]; [done|]. by apply depth_height; lia.
Qed.

Lemma depth_bounds m : 1 < m <= 2 ^ 31 -> 1 <= depth m <= 31.
Proof. intros Hm. destruct (depth_height m Hm) as [(_ & H & _) _]. unfold depth in *. pose proof (Z.log2_nonneg (m - 1)). lia. Qed.

Lemma length_mono m n : 1 <= m <= n -> 1 < n -> n <= 2 ^ 31 -> 0 <= bin_length m <= depth n.
Proof.
  intros Hm Hn Hn31. unfold bin_length. pose proof (depth_bounds n ltac:(lia)). destruct (Z.eqb_spec m 1); [lia|].
  pose proof (depth_mono m n ltac:(lia)). pose proof (depth_bounds m ltac:(lia)). lia.
Qed.

(** The number of bins and the size of the last one. *)
Record bins_of (R B num last : Z) : Prop := {
  bins_total : R = (num - 1) * B + last;
  bins_num : 1 <= num;
  bins_last : 1 <= last <= B
}.

Lemma div_ceil_bins R B : 1 <= R -> 1 <= B -> bins_of R B (DivCeil R B) (R - (DivCeil R B - 1) * B).
Proof.
  intros HR HB. unfold DivCeil. replace (R =? 0) with false by lia.
  pose proof (Z.div_mod (R - 1) B ltac:(lia)). pose proof (Z.mod_pos_bound (R - 1) B ltac:(lia)).
  pose proof (Z.div_pos (R - 1) B ltac:(lia) ltac:(lia)). split; lia.
Qed.

Lemma split_bins_run R B T : 1 <= R <= 2 ^ 31 -> 1 < B <= 2 ^ 31 -> DivCeil R B <= T ->
  exists num last, bins_of R B num last /\ num <= T /\
    split_bins R T B = Val (mk_bins num last (depth B) (bin_length last)).
Proof.
  intros HR HB HT. pose proof (div_ceil_bins R B ltac:(lia) ltac:(lia)) as [E1 E2 E3].
  exists (DivCeil R B), (R - (DivCeil R B - 1) * B). split; [by split|]. split; [done|]. unfold split_bins.
  replace ((B =? 0) && _) with false by lia. cbn [mbind res_bind].
  replace (DivCeil R B <=? T) with true by lia. replace (1 <=? DivCeil R B) with true by lia. cbn [OtStore.enforce mbind res_bind].
  assert (0 <= (DivCeil R B - 1) * B) by (apply Z.mul_nonneg_nonneg; lia).
  assert (DivCeil R B - 1 <= (DivCeil R B - 1) * B) by nia.
  rewrite (u64_small (DivCeil R B - 1)) by lia. rewrite (u64_small ((DivCeil R B - 1) * B)) by lia. rewrite u64_small by lia.
  rewrite (proj2 (depth_height B ltac:(lia))). cbn [mbind res_bind]. by rewrite log2ceil_length by lia.
Qed.

(** *** Subspans *)

Section Spans.
Context (ph : list Z) (nm : bytes) (k rr : Z).
Hypothesis Hnd : NoDup ph.
Hypothesis Hph : vsize ph = 2.
Hypothesis Hrr : rr = 0 \/ rr = 1.

Lemma at_subspan_converse da db out_s out_r pos len (fs fr : list Z -> LinkM (list Z)) (Q : list Z -> list Z -> Prop) :
  0 <= pos -> 0 <= len -> pos + len <= vsize out_s -> vsize out_r = vsize out_s ->
  (forall a b, vsize a = len -> vsize b = len -> converse ph nm k rr da db (fs a) (fr b) Q) ->
  (forall a b, Q a b -> vsize a = len /\ vsize b = len) ->
  converse ph nm k rr da db (at_subspan out_s pos len fs) (at_subspan out_r pos len fr)
    (fun o o' => exists a b, Q a b /\ write_span out_s pos a = Some o /\ write_span out_r pos b = Some o').
Proof using All.
  intros H1 H2 H3 H4 Hf HQ. unfold at_subspan, subspan.
  replace (pos <=? vsize out_s) with true by lia. replace (pos <=? vsize out_r) with true by lia. cbn [OtStore.enforce mbind res_bind].
  eapply converse_lift_l; [done..|]. eapply converse_lift_r; [done..|].
  eapply (converse_then _ _ _ _ Hnd Hph Hrr); [apply Hf; apply (blk_part _ pos len 0); lia|].
  intros a b Hab. destruct (HQ a b Hab) as [Za Zb].
  destruct (write_ok out_s pos a) as [o Eo]; [lia|lia|]. destruct (write_ok out_r pos b) as [o' Eo']; [lia|lia|].
  rewrite Eo, Eo'. apply converse_ret; [done..|]. by exists a, b.
Qed.
End Spans.

(** *** Filling the bins *)

Section Bins.
Context (rp : Z -> Z) (fresh : Z -> list Z) (hs hr : heap) (s : OtSendStore) (r : OtRecvStore) (l lr : list Z) (delta : Z).
Context (seeds : Z -> Z) (R B T num last : Z).
Hypothesis Hfresh : forall m, 0 <= m -> vsize (fresh m) = m.
Hypothesis Hp : cot_pair hs hr s r l lr delta.
Hypothesis Hodd : odd_word delta = true.
Hypothesis Hdelta : 0 <= delta < 2 ^ 128.
Hypothesis HR : 1 <= R <= 2 ^ 31.
Hypothesis HB : 1 < B <= 2 ^ 31.
Hypothesis Hbins : bins_of R B num last.
Hypothesis HT : num <= T.
Hypothesis Hcots : T * depth B <= OtRecv.Size r.
Context (ph : list Z) (nm : bytes) (k rr : Z).
Hypothesis Hnd : NoDup ph.
Hypothesis Hph : vsize ph = 2.
Hypothesis Hrr : rr = 0 \/ rr = 1.
Local Abbreviation len := (depth B).
Local Abbreviation b := (mk_bins num last len (bin_length last)).

Lemma cots_fit : 1 <= len <= 31 /\ (num - 1) * len + len <= OtRecv.Size r /\ OtRecv.Size r <= vsize lr < 2 ^ 62 /\
  0 <= (num - 1) * B <= R /\ 0 <= (num - 1) * len /\ num <= 2 ^ 31.
Proof using All.
  pose proof (depth_bounds B HB) as HL. destruct Hbins as [E1 E2 E3]. pose proof (pair_ok _ _ _ _ _ _ _ Hp) as [].
  assert (0 <= (num - 1) * B) by (apply Z.mul_nonneg_nonneg; lia). assert (0 <= (num - 1) * len) by (apply Z.mul_nonneg_nonneg; lia).
  assert (num * len <= T * len) by (apply Z.mul_le_mono_nonneg_r; lia).
  assert (num - 1 <= (num - 1) * B) by nia. unfold OtRecv.Size in *. split_and!; lia.
Qed.

(** The words of the first [i] bins, and an odd word in the second one. *)
Definition filled (i : Z) (o o' : list Z) : Prop :=
  pairs_below delta (i * B) o o' /\ vsize o = R /\
  (1 < i -> B = 2 ^ len -> exists j, B <= j < 2 * B /\ odd_word (blk o' j) = true).

Lemma filled_next i o o' a a' m m' : 0 <= i -> filled i o o' -> write_span o (i * B) a = Some m ->
  write_span o' (i * B) a' = Some m' -> bin_words delta B a a' -> filled (i + 1) m m'.
Proof using All.
  intros Hi (P & Z & Q) W W' (Pa & Za & Qa). pose proof (pairs_below_write delta (i * B) o o' (i * B) a a' m m' P Pa ltac:(lia) W W') as P'.
  destruct (blk_write _ _ _ _ 0 W) as (_ & _ & Zm & _). pose proof (pairs_size _ _ _ Pa) as Za'.
  split; [|split; [lia|]].
  - replace ((i + 1) * B) with (Z.max (i * B) (i * B + vsize a)) by lia. done.
  - intros H1 Hpow. destruct (Z.eqb_spec i 1) as [-> | Hne].
    + destruct (Qa Hpow) as (j & Hj & Oj). exists (B + j). split; [lia|].
      destruct (blk_write _ _ _ _ (B + j) W') as (_ & _ & _ & ->). replace (_ && _) with true by lia.
      rewrite <- Oj. f_equal. f_equal. lia.
    + destruct (Q ltac:(lia) Hpow) as (j & Hj & Oj). exists j. split; [lia|].
      destruct (blk_write _ _ _ _ j W') as (_ & _ & _ & ->). assert (2 * B <= i * B) by (apply Z.mul_le_mono_nonneg_r; lia).
      by replace (_ && _) with false by lia.
Qed.

(** A single-point protocol on the transfers from [first] fills [m] words. *)
Lemma slice_converse first m seed : 0 <= first -> 1 < m <= 2 ^ 31 -> first + depth m <= vsize lr ->
  exists s' r', OtSend.Slice hs s first (first + depth m) = Val s' /\ OtRecv.Slice hr r first (first + depth m) = Val r' /\
    forall a a', vsize a = m -> vsize a' = m ->
      converse ph nm k rr 0 1 (GywzOtExtSend_ferret rp fresh hs s' (u32 m) seed a) (GywzOtExtRecv_ferret rp hr r' (u32 m) a')
        (bin_words delta m).
Proof using All.
  intros Hf Hm Hl. pose proof (depth_bounds m Hm).
  destruct (pair_slices hs hr s r l lr delta Hp Hodd Hdelta first (first + depth m)) as (s' & r' & Es & Er & Hp' & Hw); [lia|lia|].
  exists s', r'. split; [done|]. split; [done|]. intros a a' Za Za'. unfold u32. rewrite Z.mod_small by lia.
  apply (ferret_converse rp fresh hs hr s' r' l lr delta m seed Hfresh Hp' Hodd Hdelta Hm); try done.
  unfold OtRecv.Size. rewrite Hw. cbn. lia.
Qed.

Lemma bin_converse i o o' : 0 <= i < num - 1 -> filled i o o' ->
  converse ph nm k rr 0 1 (send_bin rp fresh hs B b s seeds i o) (recv_bin rp hr B b r i o') (filled (i + 1)).
Proof using All.
  intros Hi HF. destruct cots_fit as (HL & H1 & H2 & H3 & H4 & H5). unfold send_bin, recv_bin. cbn [batch_length].
  assert (0 <= i * len) by (apply Z.mul_nonneg_nonneg; lia). assert (i * len <= (num - 1) * len) by (apply Z.mul_le_mono_nonneg_r; lia).
  assert (0 <= i * B) by (apply Z.mul_nonneg_nonneg; lia). assert ((i + 1) * B <= (num - 1) * B) by (apply Z.mul_le_mono_nonneg_r; lia).
  rewrite (u64_small (i * len)), (u64_small (i * len + len)), (u64_small (i * B)) by lia.
  destruct (slice_converse (i * len) B (seeds i)) as (s' & r' & Es & Er & Hc); [lia|lia|lia|].
  sender_lifts Es. receiver_lifts Er. pose proof HF as ((Zo & _) & ZR & _).
  eapply (converse_weaken _ _ _ _ Hnd Hph Hrr); [eapply (at_subspan_converse ph nm k rr Hnd Hph Hrr _ _ o o' (i * B) B _ _ (bin_words delta B)); [lia|lia|lia|lia|exact Hc|]|..].
  - intros a a' (Pa & Za & _). pose proof (pairs_size _ _ _ Pa). lia.
  - lia.
  - lia.
  - intros m m' (a & a' & HQ & W & W'). eapply filled_next; [|done..]. lia.
Qed.

(** The words of all bins. *)
Definition mpcot_words (o o' : list Z) : Prop :=
  pairs delta o o' /\ vsize o = R /\ (B = 2 ^ len -> 2 * B < R -> exists j, B <= j < R /\ odd_word (blk o' j) = true).

Lemma mpcot_intro m m' : pairs_below delta R m m' -> vsize m = R ->
  (1 < num - 1 -> B = 2 ^ len -> exists j, B <= j < 2 * B /\ odd_word (blk m' j) = true) -> mpcot_words m m'.
Proof using All.
  intros P Z Q. destruct Hbins as [E1 E2 E3]. split; [|split; [done|]].
  - apply pairs_below_all. by rewrite Z.
  - intros Hpow HR2. destruct Q as (j & Hj & Oj); [|done|].
    + destruct (Z.leb_spec (num - 1) 1); [exfalso|lia]. assert ((num - 1) * B <= 1 * B) by (apply Z.mul_le_mono_nonneg_r; lia). lia.
    + exists j. split; [lia|done].
Qed.

(** The last bin: a single word is a transfer itself. *)
Lemma last_converse o o' : filled (num - 1) o o' ->
  converse ph nm k rr 0 1 (send_last rp fresh hs B b s seeds o) (recv_last rp hr B b r o') mpcot_words.
Proof using All.
  intros HF. pose proof HF as (P & ZR & Q). pose proof P as [Zo _]. destruct cots_fit as (HL & H1 & H2 & H3 & H4 & H5).
  pose proof Hbins as [E1 E2 E3]. pose proof (length_mono last B ltac:(lia) ltac:(lia) ltac:(lia)) as HLl.
  unfold send_last, recv_last, last_cot, last_pos. cbn [bin_num last_size batch_length last_length].
  rewrite (u64_small (num - 1)), (u64_small ((num - 1) * len)), (u64_small ((num - 1) * B)) by lia.
  assert (Hend : forall a a' m m', write_span o ((num - 1) * B) a = Some m -> write_span o' ((num - 1) * B) a' = Some m' ->
    pairs delta a a' -> vsize a = last -> mpcot_words m m').
  { intros a a' m m' W W' Pa Za.
    pose proof (pairs_below_write delta _ o o' ((num - 1) * B) a a' m m' P Pa ltac:(lia) W W') as P'.
    destruct (blk_write _ _ _ _ 0 W) as (_ & _ & Zm & _). apply mpcot_intro; [|lia|].
    - replace R with (Z.max ((num - 1) * B) ((num - 1) * B + vsize a)) by lia. done.
    - intros Hnum Hpow. destruct (Q Hnum Hpow) as (j & Hj & Oj). exists j. split; [done|].
      destruct (blk_write _ _ _ _ j W') as (_ & _ & _ & ->). assert (2 * B <= (num - 1) * B) by (apply Z.mul_le_mono_nonneg_r; lia).
      by replace (_ && _) with false by lia. }
  destruct (Z.eqb_spec last 1) as [Hone | Hne].
  - destruct (pair_blocks hs hr s r l lr delta Hp Hodd Hdelta ((num - 1) * len) ltac:(lia)) as (Eb & _ & Es). specialize (Es false).
    change (Z.b2z false) with 0 in Es. rewrite Z.lxor_0_r in Es. sender_lifts Es. receiver_lifts Eb.
    set (x := blk l _). set (y := blk lr _).
    assert (Hxy : paired delta x y) by apply (pairs_blk _ _ _ _ (pair_words _ _ _ _ _ _ _ Hp)).
    assert (HW : forall u (z : Z), vsize u = R -> write_span u ((num - 1) * B) [z] = vset u ((num - 1) * B) z).
    { intros u z Hu. unfold write_span. change (vsize [z]) with 1. replace ((0 <=? _) && _) with true by lia.
      rewrite vset_Some by lia. f_equal. symmetry. rewrite insert_take_drop by (unfold vsize in Hu; lia). cbn [app]. do 3 f_equal. lia. }
    destruct (write_ok o ((num - 1) * B) [x]) as [m W]; [lia|change (vsize [x]) with 1; lia|].
    destruct (write_ok o' ((num - 1) * B) [y]) as [m' W']; [lia|change (vsize [y]) with 1; lia|].
    rewrite <- (HW o x ZR), <- (HW o' y ltac:(congruence)), W, W'. eapply (converse_weaken _ _ _ _ Hnd Hph Hrr); [apply converse_ret; [done..|]|lia|lia|intros ?? HQ; exact HQ].
    apply (Hend [x] [y] m m' W W'); [by constructor|]. change (vsize [x]) with 1. lia.
  - rewrite (u64_small (_ + bin_length last)) by lia. unfold bin_length in *. replace (last =? 1) with false in * by lia.
    destruct (slice_converse ((num - 1) * len) last (seeds (num - 1))) as (s' & r' & Es & Er & Hc); [lia|lia|lia|].
    sender_lifts Es. receiver_lifts Er.
    eapply (converse_weaken _ _ _ _ Hnd Hph Hrr); [eapply (at_subspan_converse ph nm k rr Hnd Hph Hrr _ _ o o' _ last _ _ (bin_words delta last)); [lia|lia|lia|lia|exact Hc|]|..].
    + intros a a' (Pa & Za & _). pose proof (pairs_size _ _ _ Pa). lia.
    + lia.
    + lia.
    + intros m m' (a & a' & (Pa & Za & _) & W & W'). by apply (Hend a a' m m' W W').
Qed.

(** All bins. *)
Lemma bins_converse {A C} da db out_s out_r (fs : list Z -> LinkM A) (fr : list Z -> LinkM C) Q : vsize out_s = R -> vsize out_r = R ->
  (forall o o', mpcot_words o o' -> converse ph nm k rr da db (fs o) (fr o') Q) ->
  converse ph nm k rr da (Z.to_N num + db)%N
    (out1 ← for_prog (Z.to_nat (num - 1)) 0 (send_bin rp fresh hs B b s seeds) out_s; out2 ← send_last rp fresh hs B b s seeds out1; fs out2)
    (out1 ← for_prog (Z.to_nat (num - 1)) 0 (recv_bin rp hr B b r) out_r; out2 ← recv_last rp hr B b r out1; fr out2) Q.
Proof using All.
  intros Zs Zr Hf. pose proof (bins_num _ _ _ _ Hbins) as Hnum.
  pose proof (converse_for ph nm k rr Hnd Hph Hrr 0 1 (Z.to_nat (num - 1)) 0 (send_bin rp fresh hs B b s seeds) (recv_bin rp hr B b r)
    filled out_s out_r) as HFor.
  rewrite Z2Nat.id, Z.add_0_l in HFor by lia.
  eapply (converse_weaken _ _ _ _ Hnd Hph Hrr); [eapply (converse_bind _ _ _ _ Hnd Hph Hrr); [apply HFor|]|..].
  - split; [|split; [lia|lia]]. split; [lia|]. intros i Hi. lia.
  - intros j x y Hj. apply bin_converse. lia.
  - intros o o' HF. eapply (converse_bind _ _ _ _ Hnd Hph Hrr); [by apply last_converse|exact Hf].
  - lia.
  - lia.
  - done.
Qed.
End Bins.
