(* ===== verification/FerretRuns.v ===== *)
(** The consistency check of a batch of Ferret accepts honest parties; the batches
    and the loop over them, under [converse]. *)

From Stdlib Require Import ZArith Lia ZifyBool Bool.
From stdpp Require Import base numbers list option gmap.
From S2P Require Import Prelude BitBlock BitSet BitSetFacts BitSetOps BitSetGrow BitSetString ChannelKeys OtStore OtStoreFacts OtStoreTheorems SparseXor.
From S2P Require Import LinkProgram Context LinkGroup Collectives CollectivesFacts CrHash TwoParty Dialogue Sgrr SgrrFacts SgrrTheorems LinearCode.
From S2P Require Import LinearCodeFacts LinearCodeTheorems GaloisField GaloisTheorems Gywz GywzFacts GywzTheorems Mpfss MpfssFacts Ferret FerretFacts.

Local Open Scope Z_scope.
Local Notation "x ⊕ y" := (Z.lxor x y) (at level 50, left associativity).

(** *** Hashes of correlated words *)

(** The position of the last odd word. *)
Lemma last_position (P : Z -> Prop) `{!forall i, Decision (P i)} (n : nat) j : 0 <= j < Z.of_nat n -> P j ->
  let l := filter P (seqZ 0 (Z.of_nat n)) in
  exists back, vget l (vsize l - 1) = Some back /\ back ∈ l /\ forall i, i ∈ l -> i <= back.
Proof.
  induction n as [|n IH]; intros Hj Hp; [lia|].
  assert (E : seqZ 0 (Z.of_nat (S n)) = seqZ 0 (Z.of_nat n) ++ [Z.of_nat n]).
  { replace (Z.of_nat (S n)) with (Z.of_nat n + 1) by lia. by rewrite seqZ_app by lia. }
  rewrite E, filter_app. cbn zeta. destruct (decide (P (Z.of_nat n))) as [Hn|Hn].
  - rewrite (filter_cons_True P (Z.of_nat n) []), filter_nil by done. set (l := filter P (seqZ 0 _)).
    exists (Z.of_nat n). split; [|split; [set_solver|]].
    + rewrite vsize_app. change (vsize [Z.of_nat n]) with 1. replace (vsize l + 1 - 1) with (vsize l) by lia.
      unfold vget, vsize. replace (0 <=? _) with true by lia. by rewrite Nat2Z.id, lookup_app_r, Nat.sub_diag by lia.
    + intros i Hi. apply elem_of_app in Hi as [Hi|Hi]; [|apply list_elem_of_singleton in Hi; lia].
      apply list_elem_of_filter in Hi as [_ Hi]. apply elem_of_seqZ in Hi. lia.
  - rewrite (filter_cons_False P (Z.of_nat n) []), filter_nil, app_nil_r by done. apply IH; [|done].
    destruct (decide (j = Z.of_nat n)) as [-> | Hne]; [done|lia].
Qed.

Section Hash.
Context (mul : Z -> Z -> Z) `{!GfLaws 128 mul} (delta : Z).
Hypothesis Hdelta : word 128 delta.

(** The powers of the seed at the odd words. *)
Fixpoint odd_powers (seed k : Z) (l : list Z) : Z :=
  match l with
  | [] => 0
  | y :: l' => (if odd_word y then gpow mul seed (k + 1) else 0) ⊕ odd_powers seed (k + 1) l'
  end.

Lemma odd_powers_word seed k l : word 128 seed -> word 128 (odd_powers seed k l).
Proof using All.
  intros Hs. revert k. induction l as [|y l IH]; intros k; cbn [odd_powers]; [by apply (zero_elem 128 mul)|].
  apply (xor_elem 128 mul); [|apply IH]. destruct (odd_word y); [by apply (gpow_elem 128 mul)|by apply (zero_elem 128 mul)].
Qed.

Lemma mul_delta x (u : bool) : word 128 x -> mul x (if u then delta else 0) = mul delta (if u then x else 0).
Proof using All.
  intros Hx. destruct u; [by apply gf_comm|]. by rewrite !(mul_zero_r 128 mul).
Qed.

Lemma if_word (u : bool) x : word 128 x -> word 128 (if u then x else 0).
Proof using All. intros Hx. destruct u; [done|]. by apply (zero_elem 128 mul). Qed.

Lemma hash_pairs seed k l l' : word 128 seed -> pairs delta l l' ->
  hash_sum mul seed k l' = hash_sum mul seed k l ⊕ mul delta (odd_powers seed k l').
Proof using All.
  intros Hs H. revert k. induction H as [|x y l l' (Hx & _ & E) Hl IH]; intros k; cbn [hash_sum odd_powers].
  { by rewrite (mul_zero_r 128 mul). }
  assert (Hp : word 128 (gpow mul seed (k + 1))) by (by apply (gpow_elem 128 mul)).
  rewrite IH. rewrite E at 1. rewrite (gf_distr (mul := mul)) by (done || by apply if_word).
  rewrite (gf_distr (mul := mul)) by (done || (by apply if_word) || by apply odd_powers_word).
  rewrite mul_delta by done. apply xor_swap.
Qed.

(** The coefficients of the odd words. *)
Lemma fold_coefs c l : foldl Z.lxor c l = c ⊕ foldr Z.lxor 0 l.
Proof using All.
  revert c. induction l as [|x l IH]; intros c; cbn; [by rewrite Z.lxor_0_r|]. by rewrite IH, Z.lxor_assoc.
Qed.

Lemma odd_positions seed pre l :
  foldr Z.lxor 0 ((fun j => gpow mul seed (j + 1)) <$>
    filter (fun i => Z.land (blk (pre ++ l) i) 1 <> 0) (seqZ (vsize pre) (vsize l))) = odd_powers seed (vsize pre) l.
Proof using All.
  revert pre. induction l as [|x l IH]; intros pre; [done|]. rewrite vsize_cons, seqZ_cons by (pose proof (vsize_nonneg l); lia).
  replace (Z.pred (vsize l + 1)) with (vsize l) by lia. cbn [odd_powers].
  specialize (IH (pre ++ [x])). rewrite vsize_app in IH. change (vsize [x]) with 1 in IH.
  rewrite <- app_assoc in IH. cbn [app] in IH. replace (Z.succ (vsize pre)) with (vsize pre + 1) by lia. rewrite <- IH.
  assert (Hx : blk (pre ++ x :: l) (vsize pre) = x).
  { rewrite blk_app. replace (vsize pre <? vsize pre) with false by lia. by rewrite Z.sub_diag. }
  rewrite filter_cons. rewrite Hx, land_one. fold (odd_word x).
  destruct (odd_word x); cbn [Z.b2z]; case_decide; try done; cbn [fmap list_fmap foldr]; by rewrite ?Z.lxor_0_l.
Qed.

Lemma coefs_run seed l j : word 128 seed -> 2 <= j < vsize l -> vsize l < 2 ^ 62 -> odd_word (blk l j) = true ->
  exists coef, ExtractHashCoef mul seed (punctured_indexes l) = Val coef /\ forall c, foldl Z.lxor c coef = c ⊕ odd_powers seed 0 l.
Proof using All.
  intros Hs Hj Hl Ho. unfold punctured_indexes.
  destruct (last_position (fun i => Z.land (blk l i) 1 <> 0) (length l) j) as (back & Hv & Hin & Hmax).
  { unfold vsize in Hj. lia. }
  { rewrite land_one. unfold odd_word in Ho. by rewrite Ho. }
  fold (vsize l) in Hv, Hin, Hmax. set (idx := filter _ _) in *.
  assert (Hr : forall i, i ∈ idx -> 0 <= i < vsize l).
  { intros i Hi. apply list_elem_of_filter in Hi as [_ Hi]. apply elem_of_seqZ in Hi. lia. }
  assert (Hjb : j <= back).
  { apply Hmax, list_elem_of_filter. split; [rewrite land_one; unfold odd_word in Ho; by rewrite Ho|]. apply elem_of_seqZ. lia. }
  pose proof (Hr back Hin) as Hb. exists ((fun j => gpow mul seed (j + 1)) <$> idx). split.
  - apply (extract_run 128 mul seed idx back Hs Hv); [lia|]. intros i Hi. pose proof (Hr i Hi). pose proof (Hmax i Hi). lia.
  - intros c. rewrite fold_coefs. f_equal. exact (odd_positions seed [] l).
Qed.

(** *** Packed transfers *)

Lemma dot_snoc a b x y : vsize a = vsize b -> dot mul (a ++ [x]) (b ++ [y]) = dot mul a b ⊕ mul x y.
Proof using All.
  revert b. induction a as [|c a IH]; intros [|d b] H; try done; cbn; [apply Z.lxor_comm|].
  unfold vsize in *. rewrite IH by (cbn in H; lia). by rewrite Z.lxor_assoc.
Qed.

Definition basis (m : nat) : list Z := Z.shiftl 1 <$> seqZ 0 (Z.of_nat m).

Lemma dot_pairs (f g : Z -> Z) (C : Z) (m : nat) : Z.of_nat m <= 128 -> word 128 C ->
  (forall i, 0 <= i < Z.of_nat m -> word 128 (f i) /\ g i = f i ⊕ (if Z.testbit C i then delta else 0)) ->
  dot mul (g <$> seqZ 0 (Z.of_nat m)) (basis m) =
  dot mul (f <$> seqZ 0 (Z.of_nat m)) (basis m) ⊕ mul delta (bits_sum m (fun i => 2 ^ i) C).
Proof using All.
  intros Hm HC. induction m as [|m IH]; intros H; [by rewrite (mul_zero_r 128 mul)|].
  assert (E : forall h : Z -> Z, h <$> seqZ 0 (Z.of_nat (S m)) = (h <$> seqZ 0 (Z.of_nat m)) ++ [h (Z.of_nat m)]).
  { intros h. replace (Z.of_nat (S m)) with (Z.of_nat m + 1) by lia. by rewrite seqZ_app, fmap_app by lia. }
  assert (Zm : forall h : Z -> Z, vsize (h <$> seqZ 0 (Z.of_nat m)) = Z.of_nat m).
  { intros h. unfold vsize. rewrite length_fmap, length_seqZ. lia. }
  unfold basis in *. rewrite !E, !dot_snoc by (by rewrite !Zm). rewrite IH by (lia || intros i Hi; apply H; lia). cbn [bits_sum].
  assert (Hb : word 128 (2 ^ Z.of_nat m)) by (apply word_pow; lia). rewrite Z.shiftl_1_l.
  destruct (H (Z.of_nat m) ltac:(lia)) as [Hf ->].
  assert (Wb : word 128 (bits_sum m (fun i => 2 ^ i) C)) by (apply bits_sum_word; [lia|]; intros i Hi; apply word_pow; lia).
  rewrite (gf_distr (mul := mul) delta) by (done || by apply if_word).
  rewrite (gf_comm (mul := mul) (f _ ⊕ _)) by (done || (apply (xor_elem 128 mul); [done|by apply if_word])).
  rewrite (gf_distr (mul := mul)), mul_delta by (done || by apply if_word).
  rewrite (gf_comm (mul := mul) _ (f (Z.of_nat m))) by done. apply xor_swap.
Qed.
End Hash.

Lemma dot_ext mul mul' x y : (forall a b, word 128 a -> word 128 b -> mul a b = mul' a b) ->
  Forall (word 128) x -> Forall (word 128) y -> dot mul x y = dot mul' x y.
Proof.
  intros H Hx. revert y. induction Hx as [|a x Ha Hx IH]; intros y Hy; [done|]. destruct Hy as [|b y Hb Hy]; [done|]. cbn.
  by rewrite H, IH.
Qed.

Lemma basis_words m : Z.of_nat m <= 128 -> Forall (word 128) (basis m).
Proof.
  intros Hm. apply Forall_fmap, Forall_forall. intros i Hi. apply elem_of_seqZ in Hi. cbn. rewrite Z.shiftl_1_l.
  apply word_pow. lia.
Qed.

Lemma vsize_fun (f : Z -> Z) n : 0 <= n -> vsize (f <$> seqZ 0 n) = n.
Proof. intros Hn. unfold vsize. rewrite length_fmap, length_seqZ. lia. Qed.

Lemma pack_run f : (forall i, 0 <= i < 128 -> word 128 (f i)) ->
  Gf128Pack (f <$> seqZ 0 128) = Val (dot Gf128Mul (f <$> seqZ 0 128) (basis 128)).
Proof.
  intros Hf. assert (Wf : Forall (word 128) (f <$> seqZ 0 128)).
  { apply Forall_fmap, Forall_forall. intros i Hi. apply elem_of_seqZ in Hi. apply Hf. lia. }
  pose proof (basis_words 128 ltac:(done)) as Wb. unfold Gf128Pack. rewrite vsize_fun by lia. change (128 <=? 128) with true. cbn [OtStore.enforce mbind res_bind].
  rewrite take_ge by (unfold kGf128Basis; rewrite !length_fmap; done). change kGf128Basis with (basis 128).
  rewrite gf128_mul_span_run by done. f_equal. apply dot_ext; [|done|done]. intros a b Ha Hb. symmetry. by apply gf128_mul_run.
Qed.

Lemma pack_pairs delta (f g : Z -> Z) (C : Z) : word 128 delta -> word 128 C ->
  (forall i, 0 <= i < 128 -> word 128 (f i) /\ g i = f i ⊕ (if Z.testbit C i then delta else 0)) ->
  exists a b, Gf128Pack (f <$> seqZ 0 128) = Val a /\ Gf128Pack (g <$> seqZ 0 128) = Val b /\ b = a ⊕ Gf128Mul delta C.
Proof.
  intros Hd HC H. eexists _, _. split; [apply pack_run; intros i Hi; by apply H|]. split.
  - apply pack_run. intros i Hi. destruct (H i Hi) as [Hf ->]. apply word_xor; [lia|done|]. destruct (Z.testbit C i); [done|by apply zero_word].
  - pose proof (dot_pairs Gf128Mul delta Hd f g C 128 ltac:(done) HC H) as E.
    pose proof (bits_sum_id 128 C HC) as B. rewrite B in E. exact E.
Qed.

(** *** The check *)

(** The choices of 128 transfers, as a word. *)
Lemma check_choices hr r lr first : recv_slice r = window first (first + 128) ->
  recv_view hr r lr Bitset.ctor_empty -> recv_type r = Compact ->
  exists bits ch, OtRecv.CopyBitBuf hr r = Val bits /\ vget (m_blocks bits) 0 = Some ch /\ word 128 ch /\
    forall i, 0 <= i < 128 -> Z.testbit ch i = odd_word (blk lr (first + i)).
Proof.
  intros Hw V Ht. destruct (recv_CopyBitBuf hr r lr _ V) as (bits & E & W & N & B). exists bits, (value 128 bits).
  assert (Sz : OtRecv.Size r = 128) by (unfold OtRecv.Size; rewrite Hw; cbn; lia). rewrite Sz in *.
  destruct (one_block bits W ltac:(lia)) as (_ & Eb & Hv). split; [done|]. split; [done|]. split; [done|].
  intros i Hi. rewrite B by lia. replace (i <? 128) with true by lia. rewrite Ht, Hw. done.
Qed.

(** The word of choices as the sender reads it. *)
Lemma read_choice_word x : word 128 x -> exists empty bits, Bitset.ctor_value 128 0 0 = Some empty /\
  Bitset.append_block 128 empty x = Some bits /\ forall i, 0 <= i < 128 -> Bitset.test 128 bits i = Some (Z.testbit x i).
Proof.
  intros Hx. destruct (append_block_refines 128 Bitset.ctor_empty x (wf_ctor_empty 128) Hx) as (bits & E & W & N & V).
  exists Bitset.ctor_empty, bits. split; [done|]. split; [done|]. intros i Hi.
  change (m_bits_number Bitset.ctor_empty) with 0 in N, V. rewrite (test_spec 128) by (done || lia). rewrite V. unfold append_spec.
  change (value 128 Bitset.ctor_empty) with 0. by rewrite Z.shiftl_0_r, Z.lor_0_l.
Qed.

Lemma mapM_val {A B} (f : A -> res B) (g : A -> B) l : (forall x, x ∈ l -> f x = Val (g x)) -> mapM f l = Val (g <$> l).
Proof.
  induction l as [|x l IH]; intros H; [done|]. cbn [mapM]. rewrite H by left. cbn [mbind res_bind].
  rewrite IH by (intros y Hy; apply H; by right). done.
Qed.

Section Check.
Context `{WordSerializer} (blake3 : bytes -> bytes) (ph : list Z) (nm : bytes) (k rr : Z).
Hypothesis Hnd : NoDup ph.
Hypothesis Hph : vsize ph = 2.
Hypothesis Hrr : rr = 0 \/ rr = 1.

Lemma unpack_serialized x : word 128 x -> unpack_word (SerializeUint128 x) = Val x.
Proof using Type. intros Hx. unfold unpack_word. by rewrite deserialize_word. Qed.

Lemma sync_converse x : word 128 x -> converse ph nm k rr 0 1 (SyncSeedSend x) SyncSeedRecv (fun a b => a = x /\ b = x).
Proof using All.
  intros Hx. unfold SyncSeedSend, SyncSeedRecv. sender_ctx. receiver_ctx. change 1%N with (1 + 0)%N. sends_down.
  rewrite unpack_serialized by done. by apply converse_ret.
Qed.

Context (hs hr : heap) (s : OtSendStore) (r : OtRecvStore) (l lr : list Z) (delta : Z) (b : bins) (o o' : list Z) (rnd j : Z).
Hypothesis Hp : cot_pair hs hr s r l lr delta.
Hypothesis Hodd : odd_word delta = true.
Hypothesis Hdelta : 0 <= delta < 2 ^ 128.
Hypothesis Hfirst : 0 <= check_first b.
Hypothesis Hlast : check_first b + 128 <= vsize lr.
Hypothesis Hwords : pairs delta o o'.
Hypothesis Hj : 2 <= j < vsize o'.
Hypothesis Hsize : vsize o' < 2 ^ 62.
Hypothesis Hoj : odd_word (blk o' j) = true.
Hypothesis Hrnd : word 128 rnd.

Lemma check_converse :
  converse ph nm k rr 1 2 (send_check blake3 hs b s rnd o) (recv_check blake3 hr b r o') (fun _ _ => True).
Proof using All.
  set (F := check_first b) in *. pose proof (pair_ok _ _ _ _ _ _ _ Hp) as [_ _ _ _ _ Hfit].
  destruct (pair_slices hs hr s r l lr delta Hp Hodd Hdelta F (F + 128)) as (s' & r' & Es & Er & Hp' & Hw); [lia|lia|].
  unfold send_check, recv_check. fold F. rewrite (u64_small (F + 128)) by lia. sender_lifts Es. receiver_lifts Er.
  change 2%N with (1 + (1 + 0))%N. change 1%N with (0 + (1 + 0))%N at 1.
  eapply (converse_bind _ _ _ _ Hnd Hph Hrr); [by apply sync_converse|]. intros ? ? [-> ->]. cbn zeta.
  destruct (pair_views _ _ _ _ _ _ _ Hp' Hodd Hdelta) as [_ Vr].
  destruct (check_choices hr r' lr F Hw Vr (pair_recv_type _ _ _ _ _ _ _ Hp')) as (bits & ch & E1 & E2 & Wch & Bch).
  destruct (pair_copies _ _ _ _ _ _ _ Hp' Hodd Hdelta F (F + 128) Hw) as (v & w & _ & E3 & _ & Zw & Bw).
  replace (F + 128 - F) with 128 in Zw, Bw by lia.
  destruct (coefs_run Gf128Mul delta Hdelta rnd o' j Hrnd Hj Hsize Hoj) as (coef & E4 & Hcoef).
  set (C := odd_powers Gf128Mul rnd 0 o') in *.
  assert (WC : word 128 C) by (by apply (odd_powers_word Gf128Mul delta)).
  assert (Wch' : word 128 (ch ⊕ C)) by (apply word_xor; done || lia).
  set (f := fun i => blk l (F + i) ⊕ (if Z.testbit (ch ⊕ C) i then delta else 0)). set (g := fun i => blk lr (F + i)).
  assert (Ew : w = g <$> seqZ 0 128) by (apply holds_map; [lia|]; intros i Hi; by apply Bw).
  assert (Hfg : forall i, 0 <= i < 128 -> word 128 (f i) /\ g i = f i ⊕ (if Z.testbit C i then delta else 0)).
  { intros i Hi. destruct (pairs_blk _ _ _ (F + i) (pair_words _ _ _ _ _ _ _ Hp)) as (Hx & _ & E). unfold f, g. split.
    - apply word_xor; [lia|done|]. destruct (Z.testbit _ i); [done|by apply zero_word].
    - rewrite E at 1. rewrite <- Bch, Z.lxor_spec by done. rewrite Z.lxor_assoc. f_equal.
      destruct (Z.testbit ch i), (Z.testbit C i); cbn [xorb]; rewrite ?Z.lxor_nilpotent, ?Z.lxor_0_r, ?Z.lxor_0_l; done. }
  destruct (pack_pairs delta f g C Hdelta WC Hfg) as (ps & pr & E5 & E6 & E7). rewrite <- Ew in E6.
  receiver_lifts E1. eapply converse_lift_r; [assumption..|by rewrite E2|]. receiver_lifts E3. receiver_lifts E6. receiver_lifts E4.
  rewrite Hcoef. sender_ctx. receiver_ctx. sends_up. eapply converse_lift_l; [assumption..|by apply unpack_serialized|].
  destruct (read_choice_word _ Wch') as (empty & cbits & E8 & E9 & Bt).
  eapply converse_lift_l; [assumption..|by rewrite E8|]. eapply converse_lift_l; [assumption..|by rewrite E9|].
  eapply converse_lift_l; [assumption..|apply (mapM_val _ f)|].
  { intros i Hi. apply elem_of_seqZ in Hi. rewrite Bt by lia. cbn [access mbind res_bind].
    assert (Sz : OtRecv.Size r' = 128) by (unfold OtRecv.Size; rewrite Hw; cbn; lia).
    destruct (pair_blocks _ _ _ _ _ _ _ Hp' Hodd Hdelta i ltac:(lia)) as (_ & _ & ->). by rewrite Hw. }
  sender_lifts E5. sends_down.
  assert (Eh : UniversalHash Gf128Mul rnd o ⊕ ps = UniversalHash Gf128Mul rnd o' ⊕ pr).
  { assert (Wo : Forall (word 128) o /\ Forall (word 128) o').
    { split; apply Forall_forall; intros x Hx; apply list_elem_of_lookup in Hx as [i Hi].
      - destruct (Forall2_lookup_l _ _ _ _ _ Hwords Hi) as (y & _ & Hxy & _). done.
      - destruct (Forall2_lookup_r _ _ _ _ _ Hwords Hi) as (y & _ & Hxy). exact (paired_word delta Hodd Hdelta _ _ Hxy). }
    destruct Wo as [Wo Wo']. rewrite (universal_hash_sum 128 Gf128Mul rnd o Hrnd Wo), (universal_hash_sum 128 Gf128Mul rnd o' Hrnd Wo').
    rewrite (hash_pairs Gf128Mul delta Hdelta rnd 0 o o' Hrnd Hwords).
    fold C. rewrite E7. xor_ring. }
  rewrite Eh, bool_decide_eq_true_2 by done. by apply converse_ret.
Qed.
End Check.

(** *** Multi-point transfers *)

Section Mpcot.
Context `{WordSerializer} (rp : Z -> Z) (blake3 : bytes -> bytes) (fresh : Z -> list Z) (hs hr : heap).
Context (s : OtSendStore) (r : OtRecvStore) (l lr : list Z) (delta : Z) (seeds : Z -> Z) (rnd R B T : Z) (mal : bool).
Hypothesis Hfresh : forall m, 0 <= m -> vsize (fresh m) = m.
Hypothesis Hp : cot_pair hs hr s r l lr delta.
Hypothesis Hodd : odd_word delta = true.
Hypothesis Hdelta : 0 <= delta < 2 ^ 128.
Hypothesis HR : 1 <= R <= 2 ^ 31.
Hypothesis HB : 1 < B <= 2 ^ 31.
Hypothesis HT : DivCeil R B <= T.
Hypothesis Hcots : T * depth B + (if mal then 128 else 0) <= OtRecv.Size r.
Hypothesis Hmal : mal = true -> B = 2 ^ depth B /\ 2 * B < R.
Hypothesis Hrnd : 0 <= rnd < 2 ^ 128.
Context (ph : list Z) (nm : bytes) (k rr : Z).
Hypothesis Hnd : NoDup ph.
Hypothesis Hph : vsize ph = 2.
Hypothesis Hrr : rr = 0 \/ rr = 1.

Lemma mpcot_converse out_s out_r : vsize out_s = R -> vsize out_r = R ->
  converse ph nm k rr 1 (Z.to_N T + 2) (MpCotRNSend rp blake3 fresh hs s R T B seeds rnd out_s mal)
    (MpCotRNRecv rp blake3 hr r R T B out_r mal) (fun o o' => pairs delta o o' /\ vsize o = R).
Proof using All.
  intros Zs Zr. destruct (split_bins_run R B T HR HB HT) as (num & last & Hbins & Hnum & Eb).
  assert (Hc : T * depth B <= OtRecv.Size r) by (destruct mal; lia).
  unfold MpCotRNSend, MpCotRNRecv. sender_lifts Eb. receiver_lifts Eb. cbn [bin_num].
  destruct (cots_fit rp fresh hs hr s r l lr delta seeds R B T num last Hfresh Hp Hodd Hdelta HR HB Hbins Hnum Hc ph nm k rr Hnd Hph Hrr)
    as (HL & H1 & H2 & H3 & H4 & H5).
  pose proof Hbins as [_ B1 B2]. pose proof (length_mono last B ltac:(lia) ltac:(lia) ltac:(lia)) as HLl.
  eapply (converse_weaken _ _ _ _ Hnd Hph Hrr 1 (Z.to_N num + 2)); [|lia|lia|intros ?? HQ; exact HQ].
  apply (bins_converse rp fresh hs hr s r l lr delta seeds R B T num last Hfresh Hp Hodd Hdelta HR HB Hbins Hnum Hc ph nm k rr Hnd Hph Hrr);
    [done|done|].
  intros o o' (Po & Zo & Qo). pose proof (pairs_size _ _ _ Po) as Zo'.
  apply (converse_then _ _ _ _ Hnd Hph Hrr _ _ _ _ _ _ (fun _ _ => True)); [|intros; by apply converse_ret].
  destruct mal; [|apply (converse_weaken _ _ _ _ Hnd Hph Hrr 0 0 1 2 _ _ (fun _ _ => True)); [by apply converse_ret|done..]].
  destruct (Hmal eq_refl) as [Hpow H2B]. destruct (Qo Hpow H2B) as (j & Hj & Oj).
  assert (num * depth B <= T * depth B) by (apply Z.mul_le_mono_nonneg_r; lia).
  assert (Ec : check_first (mk_bins num last (depth B) (bin_length last)) = (num - 1) * depth B + bin_length last).
  { unfold check_first. cbn [bin_num batch_length last_length]. rewrite (u64_small (num - 1)), (Z.mul_comm (depth B)) by lia.
    rewrite (u64_small (_ * _)), u64_small by lia. done. }
  apply (check_converse blake3 ph nm k rr Hnd Hph Hrr hs hr s r l lr delta _ o o' rnd j); try done; rewrite ?Ec; lia.
Qed.
End Mpcot.

(** *** Parameters *)

Definition spcot (p : LpnParam) : Z := lpn_n p / lpn_t p.

(** The transfers of the noise of a batch. *)
Definition noise_cots (p : LpnParam) (mal : bool) : Z := lpn_t p * depth (spcot p) + (if mal then 128 else 0).

(** Bins of equal size, of at least two words, and room for more than the input of
    the next batch; for the check, bins whose size is a power of two and an input
    of at least two of them. *)
Record lpn_ok (p : LpnParam) (mal : bool) : Prop := {
  lpn_regular : noise_asm p = RegularNoise;
  lpn_noise : 1 <= lpn_t p;
  lpn_bins : lpn_n p = lpn_t p * spcot p;
  lpn_bin : 1 < spcot p;
  lpn_max : lpn_n p < 2 ^ 31;
  lpn_secret : 1 <= lpn_k p;
  lpn_room : lpn_k p + noise_cots p mal < lpn_n p;
  lpn_mal : mal = true -> spcot p = 2 ^ depth (spcot p) /\ 2 * spcot p <= lpn_k p + noise_cots p mal
}.

(** The words a batch keeps. *)
Definition kept (p : LpnParam) (mal : bool) : Z := lpn_n p - (lpn_k p + noise_cots p mal).

Section Params.
Context (p : LpnParam) (mal : bool).
Hypothesis Hp : lpn_ok p mal.

Lemma lpn_bounds : 1 <= lpn_t p <= lpn_n p /\ 1 < spcot p <= lpn_n p /\ 1 <= depth (spcot p) <= 31 /\
  lpn_t p <= lpn_t p * depth (spcot p) /\ 1 <= kept p mal < lpn_n p /\ 1 <= noise_cots p mal < lpn_n p /\ 1 <= lpn_k p < lpn_n p.
Proof using All.
  destruct Hp as [_ H1 H2 H3 H4 H5 H6 _].
  assert (lpn_t p * 1 <= lpn_t p * spcot p) by (apply Z.mul_le_mono_nonneg_l; lia).
  assert (1 * spcot p <= lpn_t p * spcot p) by (apply Z.mul_le_mono_nonneg_r; lia).
  pose proof (depth_bounds (spcot p) ltac:(lia)).
  assert (lpn_t p * 1 <= lpn_t p * depth (spcot p)) by (apply Z.mul_le_mono_nonneg_l; lia).
  unfold kept, noise_cots in *. destruct mal; split_and!; lia.
Qed.

Lemma helper_run m : MpCotRNHelper (lpn_t p) (lpn_n p) m = Val (noise_cots p m).
Proof using All.
  destruct lpn_bounds as (H1 & H2 & H3 & H4 & _). pose proof (lpn_max p mal Hp) as H5. pose proof (lpn_bins p mal Hp) as H6.
  unfold MpCotRNHelper, udiv. replace (lpn_t p =? 0) with false by lia.
  rewrite (u64_small (lpn_n p + lpn_t p)), (u64_small (lpn_n p + lpn_t p - 1)) by lia.
  assert (E : (lpn_n p + lpn_t p - 1) / lpn_t p = spcot p).
  { rewrite H6. replace (lpn_t p * spcot p + lpn_t p - 1) with (lpn_t p - 1 + spcot p * lpn_t p) by lia.
    rewrite Z.div_add, Z.div_small by lia. lia. }
  cbn [mbind res_bind]. rewrite E. assert (0 <= spcot p * (lpn_t p - 1) <= lpn_n p) by nia.
  rewrite (u64_small (lpn_t p - 1)) by lia. rewrite (u64_small (spcot p * (lpn_t p - 1))) by lia.
  replace (lpn_n p - spcot p * (lpn_t p - 1)) with (spcot p) by lia. rewrite (u64_small (spcot p)) by lia.
  rewrite (proj2 (depth_height (spcot p) ltac:(lia))). cbn [mbind res_bind]. f_equal. unfold noise_cots.
  assert (lpn_t p * depth (spcot p) <= lpn_n p * 31) by (apply Z.mul_le_mono_nonneg; lia).
  assert (0 <= depth (spcot p) * (lpn_t p - 1)) by (apply Z.mul_nonneg_nonneg; lia).
  rewrite (u64_small (depth (spcot p) * (lpn_t p - 1))) by lia.
  rewrite (u64_small (depth (spcot p) * (lpn_t p - 1) + depth (spcot p))) by lia.
  rewrite u64_small by (destruct m; lia). lia.
Qed.

Definition batch_count (ot_num : Z) : Z := (ot_num + kept p mal - 1) / kept p mal.

Lemma plan_run ot_num : 1 <= ot_num < 2 ^ 62 ->
  plan_batches p mal ot_num = Val (mk_batches (noise_cots p mal) (kept p mal) (batch_count ot_num)).
Proof using All.
  intros Ho. destruct lpn_bounds as (H1 & H2 & H3 & H4 & H5 & H6 & H7). pose proof (lpn_max p mal Hp) as H8. pose proof (lpn_room p mal Hp).
  unfold plan_batches. rewrite helper_run. cbn [mbind res_bind]. rewrite (u64_small (lpn_k p + _)) by lia.
  fold (kept p mal). rewrite (u64_small (kept p mal)) by lia.
  rewrite (u64_small (ot_num + kept p mal)), (u64_small (ot_num + kept p mal - 1)) by lia. unfold udiv. by replace (kept p mal =? 0) with false by lia.
Qed.

(** There are batches as long as words are left. *)
Lemma batches_left ot_num i : 0 <= i -> i * kept p mal < ot_num -> i < batch_count ot_num.
Proof using All.
  intros Hi Hl. destruct lpn_bounds as (_ & _ & _ & _ & H5 & _). unfold batch_count.
  apply Z.lt_le_trans with (i + 1); [lia|]. apply Z.div_le_lower_bound; lia.
Qed.
End Params.

(** *** Batches *)

Section Batches.
Context `{WordSerializer} (rp : Z -> Z) (aes : Z -> Z -> Z) (blake3 : bytes -> bytes) (fresh : Z -> list Z).
Context (p : LpnParam) (mal : bool) (ot_num seed delta : Z) (base : OtSendStore) (rnd_trees : Z -> Z -> Z) (rnd_checks : Z -> Z).
Context (hs0 hr0 : heap) (N : Z).
Hypothesis HN : ot_num <= N.
Hypothesis Hfresh : forall m, 0 <= m -> vsize (fresh m) = m.
Hypothesis Hp : lpn_ok p mal.
Hypothesis Hot : 1 <= ot_num < 2 ^ 62.
Hypothesis Hodd : odd_word delta = true.
Hypothesis Hdelta : 0 <= delta < 2 ^ 128.
Hypothesis Hbase : OtSend.GetDelta base = Val delta.
Hypothesis Hchecks : forall i, 0 <= rnd_checks i < 2 ^ 128.
Context (ph : list Z) (nm : bytes) (k rr : Z).
Hypothesis Hnd : NoDup ph.
Hypothesis Hph : vsize ph = 2.
Hypothesis Hrr : rr = 0 \/ rr = 1.
Local Abbreviation M := (noise_cots p mal).
Local Abbreviation K := (kept p mal).
Local Abbreviation pl := (mk_batches M K (batch_count p mal ot_num)).
Local Abbreviation code := (local_code seed (lpn_n p) (lpn_k p)).

(** The states before batch [i]. *)
Record ready (i : Z) (st : send_state) (rt : recv_state) : Prop := {
  ready_cots : exists l lr, cot_pair (st_heap st) (rt_heap rt) (st_cot st) (rt_cot rt) l lr delta;
  ready_num : M <= OtRecv.Size (rt_cot rt);
  ready_seed : pairs delta (st_v st) (rt_w rt);
  ready_len : vsize (rt_w rt) = lpn_k p;
  ready_words : pairs_below delta (i * K) (st_out st) (rt_out rt);
  ready_size : vsize (rt_out rt) = N;
  ready_left : i * K < ot_num;
  ready_mal : mal = true -> 2 * spcot p < ot_num - i * K;
  ready_heaps : extends hs0 (st_heap st) /\ extends hr0 (rt_heap rt)
}.

(** The states at the end. *)
Record finished (st : send_state) (rt : recv_state) : Prop := {
  fin_words : pairs_below delta ot_num (st_out st) (rt_out rt);
  fin_size : vsize (rt_out rt) = N;
  fin_heaps : extends hs0 (st_heap st) /\ extends hr0 (rt_heap rt)
}.

Lemma remaining_run i : 0 <= i -> i * K < ot_num -> remaining ot_num pl i = ot_num - i * K.
Proof using All.
  intros Hi Hl. destruct (lpn_bounds p mal Hp) as (_ & _ & _ & _ & HK & _). unfold remaining. cbn [batch_size].
  assert (0 <= i * K) by (apply Z.mul_nonneg_nonneg; lia). by rewrite (u64_small (i * K)), u64_small by lia.
Qed.

Lemma encode_run v s : vsize v = lpn_k p -> vsize s <= 2 ^ 31 ->
  Encode_128 aes fresh 10 code v s = Val (encode_with (local_column aes 10 seed (lpn_k p)) v s).
Proof using All.
  intros Hv Hs. destruct (lpn_bounds p mal Hp) as (_ & _ & _ & _ & _ & _ & HK). pose proof (lpn_max p mal Hp).
  apply encode_128_run; [done|lia|lia|done|]. unfold kLcBatchSize. lia.
Qed.

(** The words at the end of a full batch. *)
Lemma next_run s r : pairs delta s r -> vsize s = lpn_n p ->
  exists v w c d, next_seed p pl s = Val v /\ next_seed p pl r = Val w /\ next_mpcot p pl s = Val c /\ next_mpcot p pl r = Val d /\
    pairs delta v w /\ vsize w = lpn_k p /\ pairs delta c d /\ vsize d = M.
Proof using All.
  intros Hsr Hs. pose proof (pairs_size _ _ _ Hsr) as Hz. destruct (lpn_bounds p mal Hp) as (_ & _ & _ & _ & HK & HM & Hk).
  pose proof (lpn_max p mal Hp). assert (EK : K + lpn_k p + M = lpn_n p) by (unfold kept; lia).
  unfold next_seed, next_mpcot, read_span. cbn [batch_size mpcot_cot_num]. rewrite (u64_small (K + lpn_k p)) by lia.
  replace (_ && (K + lpn_k p <=? vsize s)) with true by lia. replace (_ && (K + lpn_k p <=? vsize r)) with true by lia.
  replace (_ && (K + lpn_k p + M <=? vsize s)) with true by lia. replace (_ && (K + lpn_k p + M <=? vsize r)) with true by lia.
  eexists _, _, _, _. do 4 (split; [done|]). split; [by apply Forall2_take, Forall2_drop|].
  split; [apply (blk_part r K (lpn_k p) 0); lia|]. split; [by apply Forall2_take, Forall2_drop|].
  apply (blk_part r (K + lpn_k p) M 0); lia.
Qed.

Lemma batch_converse i st rt : 0 <= i -> ready i st rt ->
  converse ph nm k rr 1 (Z.to_N (lpn_t p) + 2)
    (send_batch rp aes blake3 fresh p mal ot_num code pl base rnd_trees rnd_checks i st)
    (recv_batch rp aes blake3 fresh p mal ot_num code pl i rt)
    (fun x y => x.2 = y.2 /\ if (x.2 : bool) then ready (i + 1) x.1 y.1 else finished x.1 y.1).
Proof using All.
  intros Hi [(l & lr & Hc) Hnum Hsd Hlen Hw Hsz Hleft Hm [Xs Xr]].
  destruct (lpn_bounds p mal Hp) as (Ht & Hsp & Hd & Htd & HK & HM & Hk). pose proof (lpn_max p mal Hp) as Hmax.
  pose proof (lpn_bins p mal Hp) as Hbins. pose proof (remaining_run i Hi Hleft) as Er.
  assert (0 <= i * K) by (apply Z.mul_nonneg_nonneg; lia). pose proof Hw as [Zo _].
  unfold send_batch, recv_batch, batch_ot_num. rewrite Er. cbn [batch_size]. rewrite (lpn_regular p mal Hp).
  set (R := Z.min (lpn_n p) (ot_num - i * K)). rewrite (u64_small (i * K)) by lia.
  assert (Hu : udiv (lpn_n p) (lpn_t p) = Val (spcot p)) by (unfold udiv; by replace (lpn_t p =? 0) with false by lia).
  sender_lifts Hu. receiver_lifts Hu. unfold subspan. replace (i * K <=? vsize (st_out st)) with true by lia.
  replace (i * K <=? vsize (rt_out rt)) with true by lia. cbn [OtStore.enforce mbind res_bind].
  eapply converse_lift_l; [assumption..|reflexivity|]. eapply converse_lift_r; [assumption..|reflexivity|].
  eapply (converse_then _ _ _ _ Hnd Hph Hrr).
  { eapply (mpcot_converse rp blake3 fresh _ _ _ _ l lr delta (rnd_trees i) (rnd_checks i) R (spcot p) (lpn_t p) mal); try done.
    - lia.
    - lia.
    - unfold DivCeil. replace (R =? 0) with false by lia. enough ((R - 1) / spcot p < lpn_t p) by lia.
      apply Z.div_lt_upper_bound; lia.
    - intros E. destruct (lpn_mal p mal Hp E) as [L1 L2]. split; [done|]. pose proof (Hm E). pose proof (lpn_room p mal Hp). lia.
    - apply (blk_part _ (i * K) R 0); lia.
    - apply (blk_part _ (i * K) R 0); lia. }
  intros s r [Psr Zs]. pose proof (pairs_size _ _ _ Psr) as Zr. pose proof (pairs_size _ _ _ Hsd) as Zv.
  assert (Es : Encode_128 aes fresh 10 code (st_v st) s = Val (encode_with (local_column aes 10 seed (lpn_k p)) (st_v st) s)) by (apply encode_run; lia).
  assert (Ew : Encode_128 aes fresh 10 code (rt_w rt) r = Val (encode_with (local_column aes 10 seed (lpn_k p)) (rt_w rt) r)) by (apply encode_run; lia).
  sender_lifts Es. receiver_lifts Ew.
  pose proof (pairs_encode delta Hodd Hdelta (local_column aes 10 seed (lpn_k p)) _ _ _ _ Hsd Psr) as Pe.
  set (es := encode_with _ _ s) in *. set (er := encode_with _ _ r) in *.
  assert (Ze : vsize es = R) by (unfold es; by rewrite vsize_encode_with).
  assert (Zer : vsize er = R) by (unfold er; rewrite vsize_encode_with; lia).
  destruct (write_ok (st_out st) (i * K) es) as [os Ws]; [lia|lia|]. destruct (write_ok (rt_out rt) (i * K) er) as [or Wr]; [lia|lia|].
  eapply converse_lift_l; [assumption..|by rewrite Ws|]. eapply converse_lift_r; [assumption..|by rewrite Wr|].
  pose proof (pairs_below_write delta (i * K) _ _ (i * K) es er os or Hw Pe ltac:(lia) Ws Wr) as Pw. rewrite Ze in Pw.
  destruct (blk_write _ _ _ _ 0 Wr) as (_ & _ & Zor & _).
  destruct (Z.ltb_spec R (ot_num - i * K)) as [Hmore | Hdone].
  - assert (HR : R = lpn_n p) by lia. destruct (next_run es er Pe ltac:(lia)) as (v & w & c & d & E1 & E2 & E3 & E4 & Pv & Zw & Pc & Zd).
    sender_lifts E1. receiver_lifts E2. sender_lifts E3. receiver_lifts E4. sender_lifts Hbase.
    destruct (pair_new (st_heap st) (rt_heap rt) c d delta Hodd Hdelta Pc ltac:(lia)) as (hs' & hr' & s' & r' & E5 & E6 & Hc' & Hwin & X1 & X2).
    sender_lifts E5. receiver_lifts E6. apply converse_ret; [assumption..|]. cbn [fst snd]. split; [done|].
    assert (Hrest : K < lpn_n p) by lia. split; cbn [st_heap st_cot st_v st_out rt_heap rt_cot rt_w rt_out]; try done.
    + by exists c, d.
    + unfold OtRecv.Size. rewrite Hwin. cbn. lia.
    + destruct Pw as [Zp Pw]. split; [lia|]. intros q Hq. apply Pw. lia.
    + lia.
    + lia.
    + intros E. destruct (lpn_mal p mal Hp E) as [_ L2]. unfold kept in *. lia.
    + split; [by transitivity (st_heap st)|by transitivity (rt_heap rt)].
  - apply converse_ret; [assumption..|]. cbn [fst snd]. split; [done|]. split; cbn [st_heap st_out rt_heap rt_out]; [|lia|done].
    destruct Pw as [Zp Pw]. split; [lia|]. intros q Hq. apply Pw. lia.
Qed.

Lemma loop_converse fuel i st rt : 0 <= i -> i + Z.of_nat fuel = batch_count p mal ot_num -> ready i st rt ->
  converse ph nm k rr (N.of_nat fuel) (N.of_nat fuel * (Z.to_N (lpn_t p) + 2))
    (batch_loop (send_batch rp aes blake3 fresh p mal ot_num code pl base rnd_trees rnd_checks) fuel i st)
    (batch_loop (recv_batch rp aes blake3 fresh p mal ot_num code pl) fuel i rt) finished.
Proof using All.
  revert i st rt. induction fuel as [|fuel IH]; intros i st rt Hi Hf Hr.
  - pose proof (batches_left p mal Hp ot_num i Hi (ready_left _ _ _ Hr)). lia.
  - cbn [batch_loop]. replace (N.of_nat (S fuel)) with (1 + N.of_nat fuel)%N by lia. rewrite N.mul_add_distr_r, N.mul_1_l.
    eapply (converse_bind _ _ _ _ Hnd Hph Hrr); [by apply batch_converse|].
    intros [st' more] [rt' more'] [E HQ]. cbn [fst snd] in *. subst more'. destruct more.
    + apply IH; [lia|lia|done].
    + apply (converse_weaken _ _ _ _ Hnd Hph Hrr 0 0 _ _ _ _ finished); [by apply converse_ret|apply N.le_0_l|apply N.le_0_l|done].
Qed.
End Batches.
