(* ===== verification/FerretTheorems.v ===== *)
(** Ferret as a protocol: from compact correlated transfers both parties get
    [ot_num] correlated transfers with the same delta, whatever the schedule, in
    the forms that fill a store, make a store or fill a span, with and without the
    consistency checks. *)

From Stdlib Require Import ZArith Lia ZifyBool Bool.
From stdpp Require Import base numbers list option gmap.
From S2P Require Import Prelude BitBlock BitSet BitSetFacts BitSetString ChannelKeys OtStore OtStoreFacts OtStoreTheorems SparseXor.
From S2P Require Import CrHash TwoParty LinkProgram Context LinkGroup Collectives CollectivesFacts Dialogue.
From S2P Require Import Sgrr SgrrFacts SgrrTheorems LinearCode LinearCodeFacts LinearCodeTheorems GaloisField.
From S2P Require Import Gywz GywzFacts GywzTheorems Mpfss MpfssFacts Ferret FerretFacts FerretRuns.

Local Open Scope Z_scope.

(** *** Results *)

Inductive result := SendStore (h : heap) (s : OtSendStore) | RecvStore (h : heap) (r : OtRecvStore) | Words (l : list Z).

(** The transfers of two compact stores, or of two vectors: the receiver has the
    sender's block, plus delta when its choice is 1, which is its lowest bit. *)
Definition extended (delta n : Z) (x y : result) : Prop :=
  match x, y with
  | SendStore hs s, RecvStore hr r =>
      send_type s = Compact /\ recv_type r = Compact /\ OtSend.Size s = n /\ OtRecv.Size r = n /\ OtSend.GetDelta s = Val delta /\
      forall i, 0 <= i < n -> exists b (c : bool),
        OtSend.GetBlock hs s i 0 = Val b /\ OtSend.GetBlock hs s i 1 = Val (Z.lxor b delta) /\
        OtRecv.GetChoice hr r i = Val (Z.b2z c) /\ OtRecv.GetBlock hr r i = Val (Z.lxor b (if c then delta else 0))
  | Words a, Words b => vsize a = n /\ pairs delta a b
  | _, _ => False
  end.

Lemma extended_pair hs hr s r l lr delta n : odd_word delta = true -> 0 <= delta < 2 ^ 128 ->
  cot_pair hs hr s r l lr delta -> OtRecv.Size r = n -> extended delta n (SendStore hs s) (RecvStore hr r).
Proof.
  intros Hodd Hdelta Hp Hn. cbn. split; [apply Hp|]. split; [apply Hp|].
  rewrite (pair_sizes hs hr s r l lr delta Hp Hodd Hdelta). split; [done|]. split; [done|].
  split; [exact (pair_GetDelta hs hr s r l lr delta Hp Hodd Hdelta)|]. intros i Hi.
  destruct (pair_blocks hs hr s r l lr delta Hp Hodd Hdelta i ltac:(lia)) as (E1 & E2 & E3).
  set (q := internal_use_ctr_ (recv_slice r) + i) in *. exists (blk l q), (odd_word (blk lr q)).
  pose proof (E3 false) as F0. pose proof (E3 true) as F1. cbn [Z.b2z] in F0, F1. rewrite Z.lxor_0_r in F0.
  split; [done|]. split; [done|]. split; [done|]. rewrite E1. f_equal.
  apply (pairs_blk _ _ _ q (pair_words _ _ _ _ _ _ _ Hp)).
Qed.

(** *** The forms of the protocol *)

Inductive form := IntoStores (out_s : OtSendStore) (out_r : OtRecvStore) | NewStores | IntoSpans (out_s out_r : list Z).

Section Programs.
Context `{WordSerializer} (rp : Z -> Z) (aes : Z -> Z -> Z) (blake3 : bytes -> bytes) (fresh : Z -> list Z).
Context (hs hr : heap) (p : LpnParam) (ot_num : Z) (mal : bool) (rnd_trees : Z -> Z -> Z) (rnd_checks : Z -> Z) (rnd_code : Z).

Definition ferret_send (f : form) (s : OtSendStore) : LinkM result :=
  match f with
  | IntoStores out _ =>
      x ← FerretOtExtSend rp aes blake3 fresh hs p ot_num mal rnd_trees rnd_checks rnd_code s out; mret (SendStore (fst x) (snd x))
  | NewStores =>
      x ← FerretOtExtSend_new rp aes blake3 fresh hs p ot_num mal rnd_trees rnd_checks rnd_code s; mret (SendStore (fst x) (snd x))
  | IntoSpans out _ =>
      x ← FerretOtExtSend_cheetah rp aes blake3 fresh hs p ot_num mal rnd_trees rnd_checks rnd_code s out; mret (Words x)
  end.

Definition ferret_recv (f : form) (r : OtRecvStore) : LinkM result :=
  match f with
  | IntoStores _ out => x ← FerretOtExtRecv rp aes blake3 fresh hr p ot_num mal r out; mret (RecvStore (fst x) (snd x))
  | NewStores => x ← FerretOtExtRecv_new rp aes blake3 fresh hr p ot_num mal r; mret (RecvStore (fst x) (snd x))
  | IntoSpans _ out => x ← FerretOtExtRecv_cheetah rp aes blake3 fresh hr p ot_num mal r out; mret (Words x)
  end.

(** Stores to fill: compact, of [ot_num] blocks, over buffers of their own. *)
Definition whole_at (h : heap) (ptr base : option nat) (n : Z) : Prop :=
  ptr <> base /\ exists loc l, ptr = Some loc /\ (loc < next_loc h)%nat /\ blk_bufs h !! loc = Some l /\ vsize l = n.

Definition form_ok (f : form) (s : OtSendStore) (r : OtRecvStore) : Prop :=
  match f with
  | IntoStores out_s out_r =>
      2 * lpn_t p <= ot_num /\ send_type out_s = Compact /\ recv_type out_r = Compact /\
      send_slice out_s = window 0 ot_num /\ recv_slice out_r = window 0 ot_num /\
      whole_at hs (send_blk_buf out_s) (send_blk_buf s) ot_num /\ whole_at hr (recv_blk_buf out_r) (recv_blk_buf r) ot_num
  | NewStores => 2 * lpn_t p <= ot_num
  | IntoSpans out_s out_r => vsize out_s = ot_num /\ vsize out_r = ot_num
  end.

(** *** Both parties *)

Context (s : OtSendStore) (r : OtRecvStore) (l lr : list Z) (delta : Z).
Hypothesis Hfresh : forall m, 0 <= m -> vsize (fresh m) = m.
Hypothesis Hp : lpn_ok p mal.
Hypothesis Hot : 1 <= ot_num < 2 ^ 62.
Hypothesis Hmal : mal = true -> 2 * spcot p < ot_num.
Hypothesis Hpair : cot_pair hs hr s r l lr delta.
Hypothesis Hodd : odd_word delta = true.
Hypothesis Hdelta : 0 <= delta < 2 ^ 128.
Hypothesis Hcots : lpn_k p + noise_cots p mal <= OtRecv.Size r.
Hypothesis Hchecks : forall i, 0 <= rnd_checks i < 2 ^ 128.
Hypothesis Hcode : 0 <= rnd_code < 2 ^ 128.
Context (ph : list Z) (nm : bytes) (k rr : Z).
Hypothesis Hnd : NoDup ph.
Hypothesis Hph : vsize ph = 2.
Hypothesis Hrr : rr = 0 \/ rr = 1.
Local Abbreviation M := (noise_cots p mal).
Local Abbreviation pl := (mk_batches M (kept p mal) (batch_count p mal ot_num)).
Local Abbreviation rounds := (Z.to_N (batch_count p mal ot_num)).

Lemma base_fits : lpn_k p + M <= vsize lr < 2 ^ 62 /\ 1 <= M < lpn_n p /\ 1 <= lpn_k p < lpn_n p /\ lpn_n p < 2 ^ 31 /\ 0 <= batch_count p mal ot_num.
Proof using All.
  destruct (lpn_bounds p mal Hp) as (_ & _ & _ & _ & HK & HM & Hk). pose proof (lpn_max p mal Hp).
  pose proof (pair_ok _ _ _ _ _ _ _ Hpair) as []. unfold OtRecv.Size in Hcots.
  pose proof (Z.div_pos (ot_num + kept p mal - 1) (kept p mal) ltac:(lia) ltac:(lia)). unfold batch_count. split_and!; lia.
Qed.

Lemma base_converse {A B} da db (fs : () -> LinkM A) (fr : () -> LinkM B) Q : converse ph nm k rr da db (fs ()) (fr ()) Q ->
  converse ph nm k rr da db (check_send_base p ot_num s ≫= fs) (check_recv_base p ot_num r ≫= fr) Q.
Proof using All.
  intros Hc. destruct base_fits as (H1 & H2 & H3 & H4 & _). destruct (lpn_bounds p mal Hp) as (T1 & _ & _ & T2 & _).
  eapply (converse_after _ _ _ _ Hnd Hph Hrr _ _ _ _ _ _ (fun _ _ => True)); [|by intros [] [] _].
  unfold check_send_base, check_recv_base. eapply converse_ctx_l; [assumption..|intros c _ ->; reflexivity|].
  eapply converse_ctx_r; [assumption..|intros c _ ->; reflexivity|]. sender_checks. receiver_checks.
  pose proof (pair_send_type _ _ _ _ _ _ _ Hpair) as Ts. pose proof (pair_recv_type _ _ _ _ _ _ _ Hpair) as Tr.
  sender_checks. receiver_checks.
  assert (E : FerretCotHelper p ot_num false = Val (lpn_k p + noise_cots p false)).
  { unfold FerretCotHelper. rewrite (lpn_regular p mal Hp), (helper_run p mal Hp). cbn [mbind res_bind]. f_equal.
    rewrite (u64_small (lpn_k p + _)), Z.add_0_r, u64_small; unfold noise_cots in *; destruct mal; lia. }
  sender_lifts E. receiver_lifts E.
  pose proof (pair_sizes hs hr s r l lr delta Hpair Hodd Hdelta) as Sz.
  assert (lpn_k p + noise_cots p false <= OtRecv.Size r) by (unfold noise_cots in *; destruct mal; lia).
  replace (_ <=? OtSend.Size s) with true by lia. replace (_ <=? OtRecv.Size r) with true by lia. by apply converse_ret.
Qed.

(** From slices of the base transfers to the words of the output. *)
Lemma expand_converse cot_s cot_r seed_s seed_r first (span_s span_r : LinkM (list Z)) out_s out_r :
  cot_pair hs hr cot_s cot_r l lr delta -> M <= OtRecv.Size cot_r ->
  cot_pair hs hr seed_s seed_r l lr delta -> recv_slice seed_r = window first (first + lpn_k p) ->
  (forall st, span_s st = Ret (out_s, st)) -> (forall st, span_r st = Ret (out_r, st)) -> vsize out_s = ot_num -> vsize out_r = ot_num ->
  converse ph nm k rr rounds (1 + rounds * (Z.to_N (lpn_t p) + 2))
    (send_batches rp aes blake3 fresh hs p ot_num mal rnd_trees rnd_checks rnd_code s cot_s seed_s pl span_s)
    (recv_batches rp aes blake3 fresh hr p ot_num mal cot_r seed_r pl span_r)
    (finished ot_num delta hs hr ot_num).
Proof using All.
  intros Hc Hnum Hs Hw Hss Hsr Zs Zr. destruct base_fits as (H1 & H2 & H3 & H4 & H5).
  destruct (pair_copies _ _ _ _ _ _ _ Hs Hodd Hdelta first _ Hw) as (v & w & E1 & E2 & Pv & Zw & _).
  unfold send_batches, recv_batches. sender_lifts E1. receiver_lifts E2.
  rewrite <- (N.add_0_l rounds) at 1. eapply (converse_bind _ _ _ _ Hnd Hph Hrr); [by apply sync_converse|]. intros ? ? [-> ->].
  pose proof (new_local_code rnd_code (lpn_n p) (lpn_k p) ltac:(lia)) as El.
  eapply converse_lift_l; [assumption..|by rewrite El|]. eapply converse_lift_r; [assumption..|by rewrite El|].
  eapply converse_pure_l; [assumption..|exact Hss|]. eapply converse_pure_r; [assumption..|exact Hsr|]. cbn [batch_num].
  replace rounds with (N.of_nat (Z.to_nat (batch_count p mal ot_num))) by lia.
  apply (loop_converse rp aes blake3 fresh p mal ot_num rnd_code delta s rnd_trees rnd_checks hs hr ot_num ltac:(lia) Hfresh Hp Hot Hodd Hdelta
    (pair_GetDelta hs hr s r l lr delta Hpair Hodd Hdelta) Hchecks ph nm k rr Hnd Hph Hrr); [done|lia|].
  split; cbn [st_heap st_cot st_v st_out rt_heap rt_cot rt_w rt_out]; try done; try lia.
  - by exists l, lr.
  - split; [lia|]. intros q Hq. lia.
Qed.

(** The base transfers split into those of the noise and those of the seed. *)
Lemma base_slices : exists cot_s cot_r seed_s seed_r,
  OtSend.Slice hs s 0 M = Val cot_s /\ OtRecv.Slice hr r 0 M = Val cot_r /\
  OtSend.Slice hs s M (M + lpn_k p) = Val seed_s /\ OtRecv.Slice hr r M (M + lpn_k p) = Val seed_r /\
  cot_pair hs hr cot_s cot_r l lr delta /\ M <= OtRecv.Size cot_r /\
  cot_pair hs hr seed_s seed_r l lr delta /\ recv_slice seed_r = window M (M + lpn_k p).
Proof using All.
  destruct base_fits as (H1 & H2 & H3 & H4 & _).
  destruct (pair_slices hs hr s r l lr delta Hpair Hodd Hdelta 0 M) as (cs & cr & E1 & E2 & P1 & W1); [lia|lia|].
  destruct (pair_slices hs hr s r l lr delta Hpair Hodd Hdelta M (M + lpn_k p)) as (ss & sr & E3 & E4 & P2 & W2); [lia|lia|].
  exists cs, cr, ss, sr. do 5 (split; [done|]). split; [|done]. unfold OtRecv.Size. rewrite W1. cbn. lia.
Qed.

(** The words at the end as transfers. *)
Lemma finished_pairs st rt : finished ot_num delta hs hr ot_num st rt -> pairs delta (st_out st) (rt_out rt) /\ vsize (rt_out rt) = ot_num.
Proof using All.
  intros [Pw Zw _]. pose proof Pw as [E _]. split; [|done]. apply pairs_below_all. by rewrite E, Zw.
Qed.

Lemma new_converse : 2 * lpn_t p <= ot_num ->
  converse ph nm k rr rounds (1 + rounds * (Z.to_N (lpn_t p) + 2)) (ferret_send NewStores s) (ferret_recv NewStores r) (extended delta ot_num).
Proof using All.
  intros H2t. destruct base_fits as (H1 & H2 & H3 & H4 & H5).
  destruct base_slices as (cs & cr & ss & sr & E1 & E2 & E3 & E4 & P1 & N1 & P2 & W2).
  unfold ferret_send, ferret_recv.
  eapply (converse_then _ _ _ _ Hnd Hph Hrr _ _ _ _ _ _ (fun x y => extended delta ot_num (SendStore x.1 x.2) (RecvStore y.1 y.2)));
    [|intros x y HQ; by apply converse_ret].
  unfold FerretOtExtSend_new, FerretOtExtRecv_new. apply base_converse.
  destruct (lpn_bounds p mal Hp) as (T1 & _). assert (Hu : (u64 (2 * lpn_t p) <=? ot_num) = true) by (rewrite u64_small; lia).
  apply converse_check_l; [assumption..|]. apply converse_check_r; [assumption..|].
  pose proof (plan_run p mal Hp ot_num Hot) as Ep. sender_lifts Ep. receiver_lifts Ep. cbn [mpcot_cot_num]. rewrite (u64_small (M + lpn_k p)) by lia.
  sender_lifts (pair_GetDelta hs hr s r l lr delta Hpair Hodd Hdelta). sender_lifts E1. receiver_lifts E2. sender_lifts E3. receiver_lifts E4.
  eapply (converse_then _ _ _ _ Hnd Hph Hrr).
  { apply (expand_converse cs cr ss sr M _ _ (fresh ot_num) (fresh ot_num)); try done; apply Hfresh; lia. }
  intros st rt HF. destruct (finished_pairs st rt HF) as [Pw Zw].
  destruct (pair_new (st_heap st) (rt_heap rt) _ _ delta Hodd Hdelta Pw ltac:(lia)) as (hs' & hr' & s' & r' & E5 & E6 & Hc' & Hwin & _).
  rewrite E5, E6. apply converse_ret; [assumption..|]. cbn [fst snd].
  apply (extended_pair hs' hr' s' r' _ _ delta ot_num Hodd Hdelta Hc'). unfold OtRecv.Size. rewrite Hwin. cbn. lia.
Qed.

Lemma spans_converse out_s out_r : vsize out_s = ot_num -> vsize out_r = ot_num ->
  converse ph nm k rr rounds (1 + rounds * (Z.to_N (lpn_t p) + 2)) (ferret_send (IntoSpans out_s out_r) s)
    (ferret_recv (IntoSpans out_s out_r) r) (extended delta ot_num).
Proof using All.
  intros Zs Zr. destruct base_fits as (H1 & H2 & H3 & H4 & H5).
  destruct (pair_slices hs hr s r l lr delta Hpair Hodd Hdelta 0 (lpn_k p)) as (ss & sr & E3 & E4 & P2 & W2); [lia|lia|].
  destruct (pair_slices hs hr s r l lr delta Hpair Hodd Hdelta (lpn_k p) (lpn_k p + M)) as (cs & cr & E1 & E2 & P1 & W1); [lia|lia|].
  unfold ferret_send, ferret_recv.
  eapply (converse_then _ _ _ _ Hnd Hph Hrr _ _ _ _ _ _ (fun x y => extended delta ot_num (Words x) (Words y)));
    [|intros x y HQ; by apply converse_ret].
  unfold FerretOtExtSend_cheetah, FerretOtExtRecv_cheetah. apply base_converse.
  pose proof (plan_run p mal Hp ot_num Hot) as Ep. sender_lifts Ep. receiver_lifts Ep. cbn [mpcot_cot_num]. rewrite (u64_small (lpn_k p + M)) by lia.
  sender_lifts E3. receiver_lifts E4. sender_lifts E1. receiver_lifts E2.
  eapply (converse_then _ _ _ _ Hnd Hph Hrr).
  { apply (expand_converse cs cr ss sr 0 _ _ out_s out_r); try done.
    - unfold OtRecv.Size. rewrite W1. cbn. lia.
    - intros st. by replace (vsize out_s =? ot_num) with true by lia.
    - intros st. by replace (vsize out_r =? ot_num) with true by lia. }
  intros st rt HF. destruct (finished_pairs st rt HF) as [Pw Zw]. apply converse_ret; [assumption..|]. split; [|done].
  by rewrite (pairs_size _ _ _ Pw).
Qed.

(** The words written back to the buffer of a store. *)
Lemma put_span_run h h' ptr base out : whole_at h ptr base ot_num -> extends h h' -> vsize out = ot_num ->
  (exists l0, deref_blk h ptr = Val l0 /\ take (Z.to_nat ot_num) l0 = l0 /\ vsize l0 = ot_num) /\
  exists h'', put_span h' ptr out = Val h'' /\ blk_at h'' ptr out.
Proof using All.
  intros (_ & loc & l0 & -> & Hl & E & Z) [_ X] Zo. split.
  - exists l0. unfold deref_blk. cbn. rewrite E. split; [done|]. split; [|done]. apply take_ge. unfold vsize in Z. lia.
  - unfold put_span, deref_blk. cbn. rewrite X, E by done. cbn. rewrite drop_ge by (unfold vsize in *; lia). rewrite app_nil_r.
    eexists. split; [done|]. exists loc. split; [done|]. apply lookup_insert_eq.
Qed.

Lemma stores_converse out_s out_r : form_ok (IntoStores out_s out_r) s r ->
  converse ph nm k rr rounds (1 + rounds * (Z.to_N (lpn_t p) + 2)) (ferret_send (IntoStores out_s out_r) s)
    (ferret_recv (IntoStores out_s out_r) r) (extended delta ot_num).
Proof using All.
  intros (H2t & Ts & Tr & Ss & Sr & Bs & Br). destruct base_fits as (H1 & H2 & H3 & H4 & H5).
  destruct base_slices as (cs & cr & ss & sr & E1 & E2 & E3 & E4 & P1 & N1 & P2 & W2).
  assert (Zf : vsize (fresh ot_num) = ot_num) by (apply Hfresh; lia).
  destruct (put_span_run hs hs _ _ _ Bs (reflexivity hs) Zf) as [(ls & Ds & Tks & Zs) _].
  destruct (put_span_run hr hr _ _ _ Br (reflexivity hr) Zf) as [(lr0 & Dr & Tkr & Zr) _].
  unfold ferret_send, ferret_recv.
  eapply (converse_then _ _ _ _ Hnd Hph Hrr _ _ _ _ _ _ (fun x y => extended delta ot_num (SendStore x.1 x.2) (RecvStore y.1 y.2)));
    [|intros x y HQ; by apply converse_ret].
  unfold FerretOtExtSend, FerretOtExtRecv. apply base_converse.
  destruct (lpn_bounds p mal Hp) as (T1 & _). assert (Hu : (u64 (2 * lpn_t p) <=? ot_num) = true) by (rewrite u64_small; lia).
  apply converse_check_l; [assumption..|]. apply converse_check_r; [assumption..|]. sender_checks. receiver_checks.
  assert (Os : (OtSend.Size out_s =? ot_num) = true) by (unfold OtSend.Size; rewrite Ts, Ss; cbn; lia).
  assert (Or : (OtRecv.Size out_r =? ot_num) = true) by (unfold OtRecv.Size; rewrite Sr; cbn; lia).
  apply converse_check_l; [assumption..|]. apply converse_check_r; [assumption..|].
  pose proof (plan_run p mal Hp ot_num Hot) as Ep. sender_lifts Ep. receiver_lifts Ep. cbn [mpcot_cot_num]. rewrite (u64_small (M + lpn_k p)) by lia.
  sender_lifts (pair_GetDelta hs hr s r l lr delta Hpair Hodd Hdelta).
  set (out := mk_send (send_slice out_s) (send_type out_s) delta (send_blk_buf out_s)).
  assert (Ed : OtSend.SetDelta out_s delta = Val out).
  { unfold OtSend.SetDelta. pose proof (delta_nonzero hs hr s r l lr delta Hpair Hodd Hdelta). by replace (delta =? 0) with false by lia. }
  sender_lifts Ed. sender_lifts E1. receiver_lifts E2. sender_lifts E3. receiver_lifts E4.
  eapply (converse_then _ _ _ _ Hnd Hph Hrr).
  { apply (expand_converse cs cr ss sr M _ _ ls lr0); try done.
    - unfold OtSend.GetBlkBufSpan, out. cbn [send_slice send_blk_buf]. rewrite Ss, Ds. cbn [IsSliced window internal_buf_ctr_ internal_buf_size_].
      cbn [Z.eqb negb OtStore.enforce mbind res_bind]. by rewrite Tks.
    - unfold OtRecv.GetBlkBufSpan. rewrite Sr, Dr. cbn [IsSliced window internal_buf_ctr_ internal_buf_size_].
      cbn [Z.eqb negb OtStore.enforce mbind res_bind]. by rewrite Tkr. }
  intros st rt HF. destruct (finished_pairs st rt HF) as [Pw Zw]. pose proof (pairs_size _ _ _ Pw) as Zp. destruct (fin_heaps _ _ _ _ _ _ _ HF) as [Xs Xr].
  destruct (put_span_run hs (st_heap st) _ _ (st_out st) Bs Xs ltac:(lia)) as [_ (hs' & Es & As)].
  destruct (put_span_run hr (rt_heap rt) _ _ (rt_out rt) Br Xr ltac:(lia)) as [_ (hr' & Er & Ar)].
  change (send_blk_buf out) with (send_blk_buf out_s). sender_lifts Es. receiver_lifts Er. apply converse_ret; [assumption..|]. cbn [fst snd].
  apply (extended_pair hs' hr' out out_r (st_out st) (rt_out rt) delta ot_num Hodd Hdelta); [|unfold OtRecv.Size; rewrite Sr; cbn; lia].
  split; unfold out; cbn [send_blk_buf send_type send_delta send_slice]; try done; [by rewrite Ss, Sr|]. rewrite Sr, Zw. split; cbn; lia.
Qed.

Lemma form_converse f : form_ok f s r ->
  converse ph nm k rr rounds (1 + rounds * (Z.to_N (lpn_t p) + 2)) (ferret_send f s) (ferret_recv f r) (extended delta ot_num).
Proof using All.
  destruct f as [out_s out_r| |out_s out_r]; [apply stores_converse|apply new_converse|]. intros [Zs Zr]. by apply spans_converse.
Qed.
End Programs.

(** The programs of the two parties. *)
Definition ferret_programs `{WordSerializer} rp aes blake3 fresh hs hr p ot_num mal rnd_trees rnd_checks rnd_code (f : form)
    (s : OtSendStore) (r : OtRecvStore) (rr : Z) (ss : list session) : list (prog (result * session)) :=
  imap (fun i st => (if Z.of_nat i =? rr then ferret_recv rp aes blake3 fresh hr p ot_num mal f r
                     else ferret_send rp aes blake3 fresh hs p ot_num mal rnd_trees rnd_checks rnd_code f s) st) ss.


(** *** Concrete runs *)

(** Sixteen bins of sixteen words, and two words to encode. *)
Definition demo_lpn : LpnParam := mk_lpn 256 2 16 RegularNoise.

Lemma demo_lpn_ok : lpn_ok demo_lpn true.
Proof. split; try done; vm_compute; intuition congruence. Qed.

(** The default parameters, with and without the checks. *)
Lemma default_lpn_ok mal : lpn_ok GetDefault mal.
Proof. destruct mal; split; try done; vm_compute; intuition congruence. Qed.

(** Words as their bytes. *)
Definition demo_words : WordSerializer.
Proof.
  refine {| SerializeUint128 := le_bytes 16; DeserializeUint128 b := Some (le_value b) |}.
  intros x Hx. by rewrite (le_roundtrip 16 x Hx).
Defined.


(** *** What the forms share and where they differ *)

(** A slice of a slice is a slice of the buffer: the noise of the version for spans
    takes the first transfers of the base store, which are also the ones it encodes. *)
Lemma slice_of_slice h r first last begin end_ r' : OtRecv.Slice h r first last = Val r' ->
  OtRecv.Slice h r' begin end_ = OtRecv.Slice h r begin end_.
Proof.
  unfold OtRecv.Slice at 1. unfold OtRecv.make. destruct (OtRecv.ConsistencyCheck _ _) as [[]| |]; cbn [mbind res_bind]; try done.
  intros [= <-]. done.
Qed.

Example cheetah_reuses_transfers :
  let h := mk_heap (<[0%nat := [4; 13; 4; 13; 4; 13]]> ∅) ∅ 1 in
  let r := mk_recv (mk_slice 0 6 0 6) Compact None (Some 0%nat) in
  (seed ← OtRecv.Slice h r 0 4; OtRecv.CopyBlkBuf h seed) = Val [4; 13; 4; 13] /\
  (noise ← OtRecv.Slice h r 4 6; bin ← OtRecv.Slice h noise 0 2; OtRecv.CopyBlkBuf h bin) = Val [4; 13].
Proof. vm_compute. split; reflexivity. Qed.

(** The bins of ten words for three indexes are one too many. *)
Example uneven_bins : split_bins 10 3 (10 / 3) = Err.
Proof. reflexivity. Qed.

(** A last bin of one word takes the first transfer of the check. *)
Lemma single_word_reuses_check b : last_length b = 0 -> batch_length b * (bin_num b - 1) < 2 ^ 64 -> 1 <= bin_num b <= 2 ^ 64 -> 0 <= batch_length b ->
  last_cot b = check_first b.
Proof.
  intros E H1 H2 H3. unfold last_cot, check_first. assert (0 <= batch_length b * (bin_num b - 1)) by (apply Z.mul_nonneg_nonneg; lia).
  rewrite E, (u64_small (bin_num b - 1)), Z.mul_comm, Z.add_0_r by lia. by rewrite !u64_small by (rewrite ?u64_small; lia).
Qed.
