(* ===== verification/OtExtension.v ===== *)
(** The extensions of oblivious transfers with a matrix of bits: IKNP
    (src/yacl/kernel/algorithms/iknp_ote.h, iknp_ote.cc) and KOS, which adds a
    consistency check (kos_ote.h, kos_ote.cc). The sender holds 128 base transfers as
    their receiver; both parties expand the base messages to columns of a matrix, and
    the rows of its transpose are the messages of the new transfers.

    Outside code is a parameter: [prg] and [prg64] are [PrgAesCtr] on words of 128 and
    of 64 bits (the seed, the number of words), [rp] the permutation of the hash, [gen]
    the random bits of the receiver. The processor and the contents of arrays that are
    not initialised are as in [Transpose]; [fresh] is such an array. *)

From Stdlib Require Import ZArith Lia ZifyBool Bool.
From stdpp Require Import base numbers list option gmap.
From S2P Require Import Prelude BitBlock BitSet ChannelKeys OtStore CrHash LinkProgram Context TwoParty.
From S2P Require Import GaloisField Transpose Mpfss Ferret.

Local Open Scope Z_scope.

Definition kBatchSize : Z := 128.
Definition kKappa : Z := 128.
Definition kS : Z := 64.

Section Extension.
Context (rp : Z -> Z) (prg prg64 : Z -> Z -> list Z) (p : cpu) (a b : Z * Z) (fresh : Z -> list Z).

Definition transposed (m : list Z) : res (list Z) := access (MatrixTranspose128 p a b m).

(** Element [i] of column [k] of an array of vectors. *)
Definition column_at (ts : list (list Z)) (k i : Z) : option Z := t ← vget ts k; vget t i.

(** [(n + kBatchSize - 1) / kBatchSize], and the blocks of that many batches. *)
Definition batches_for (n : Z) : Z := u64 (u64 (n + kBatchSize) - 1) / kBatchSize.
Definition blocks_for (n : Z) : Z := u64 (batches_for n * kBatchSize) / 128.

(** The words of batch [i] that are used. *)
Definition batch_limit (n i : Z) : Z := Z.min kBatchSize (u64 (n - u64 (i * kBatchSize))).

(** The first block of a copy of the choices. *)
Definition delta_of (h : heap) (base_ot : OtRecvStore) : res Z :=
  tmp_choice ← OtRecv.CopyBitBuf h base_ot; access (vget (m_blocks tmp_choice) 0).

(** *** IKNP *)

Definition XorBatchedBlock (l : list Z) (block : Z) : option (list Z) :=
  for_up (length l) 0 (fun i res => x ← vget l i; vset res i (Z.lxor x block)) (fresh kBatchSize).

(** [memcpy] of the whole message over an array of 128 words that is not initialised. *)
Definition copy_message (buf : bytes) : res (list Z) :=
  if vsize buf <=? 16 * kBatchSize
  then access (read_array 16 kBatchSize (buf ++ drop (length buf) (words_bytes (fresh kBatchSize)))) else Bad.

(** The columns the sender knows. *)
Definition send_columns (h : heap) (base_ot : OtRecvStore) (block_num : Z) : res (list (list Z)) :=
  mapM (fun k => seed ← OtRecv.GetBlock h base_ot k; Val (prg seed block_num)) (seqZ 0 kKappa).

(** A batch of the sender, from its message. *)
Definition send_matrix (h : heap) (base_ot : OtRecvStore) (ts : list (list Z)) (i : Z) (batch0 : list Z) : res (list Z) :=
  for_res (Z.to_nat kKappa) 0 (fun k batch0 =>
    c ← OtRecv.GetChoice h base_ot k;
    t ← access (column_at ts k (i * kBatchSize / 128));
    x ← access (vget batch0 k);
    access (vset batch0 k (if c =? 0 then t else Z.lxor x t))) batch0.

Definition send_batch (h : heap) (base_ot : OtRecvStore) (cot : bool) (ts : list (list Z)) (i : Z) (send_blocks : list (Z * Z))
  : LinkM (list (Z * Z)) :=
  c ← the_ctx;
  buf ← Recv (NextRank c 1);
  batch0 ← lift (copy_message buf);
  batch0 ← lift (send_matrix h base_ot ts i batch0);
  batch0 ← lift (transposed batch0);
  delta ← lift (delta_of h base_ot);
  batch1 ← lift (access (XorBatchedBlock batch0 delta));
  let batch0 := if cot then batch0 else ParaCrHashInplace_128 rp batch0 in
  let batch1 := if cot then batch1 else ParaCrHashInplace_128 rp batch1 in
  lift (access (for_up (Z.to_nat (batch_limit (vsize send_blocks) i)) 0 (fun j out =>
    x ← vget batch0 j; y ← vget batch1 j; vset out (i * kBatchSize + j) (x, y)) send_blocks)).

Definition IknpOtExtSend (h : heap) (base_ot : OtRecvStore) (send_blocks : list (Z * Z)) (cot : bool) : LinkM (list (Z * Z)) :=
  c ← the_ctx;
  _ ← enforce (WorldSize c =? 2);
  _ ← enforce (OtRecv.Size base_ot =? kKappa);
  _ ← enforce (negb (vsize send_blocks =? 0));
  _ ← enforce (negb (IsSliced (recv_slice base_ot)));
  let block_num := blocks_for (vsize send_blocks) in
  ts ← lift (send_columns h base_ot block_num);
  for_prog (Z.to_nat block_num) 0 (send_batch h base_ot cot ts) send_blocks.

(** The two columns of every base transfer. *)
Definition recv_columns (h : heap) (base_ot : OtSendStore) (msg block_num : Z) : res (list (list Z)) :=
  mapM (fun k => seed ← OtSend.GetBlock h base_ot k msg; Val (prg seed block_num)) (seqZ 0 kKappa).

(** [u] and [t] of batch [i]. *)
Definition recv_matrices (t0 t1 : list (list Z)) (i batch_choice : Z) : option (list Z * list Z) :=
  for_up (Z.to_nat kKappa) 0 (fun k '(batch_data, batch) =>
    x0 ← column_at t0 k (i * kBatchSize / 128);
    x1 ← column_at t1 k (i * kBatchSize / 128);
    batch_data' ← vset batch_data k (Z.lxor (Z.lxor x0 x1) batch_choice);
    batch' ← vset batch k x0;
    Some (batch_data', batch')) (fresh kKappa, fresh kKappa).

Definition recv_batch (cot : bool) (t0 t1 : list (list Z)) (choices_copy : dynamic_bitset) (i : Z) (recv_blocks : list Z)
  : LinkM (list Z) :=
  batch_choice ← lift (access (vget (m_blocks choices_copy) i));
  '(batch_data, batch) ← lift (access (recv_matrices t0 t1 i batch_choice));
  c ← the_ctx;
  _ ← SendAsync (NextRank c 1) (words_bytes batch_data);
  batch ← lift (transposed batch);
  let batch := if cot then batch else ParaCrHashInplace_128 rp batch in
  lift (access (for_up (Z.to_nat (batch_limit (vsize recv_blocks) i)) 0 (fun j out =>
    x ← vget batch j; vset out (i * kBatchSize + j) x) recv_blocks)).

Definition IknpOtExtRecv (h : heap) (base_ot : OtSendStore) (choices : dynamic_bitset) (recv_blocks : list Z) (cot : bool)
  : LinkM (list Z) :=
  c ← the_ctx;
  _ ← enforce (WorldSize c =? 2);
  _ ← enforce (OtSend.Size base_ot =? kKappa);
  _ ← enforce (vsize recv_blocks =? Bitset.size choices);
  _ ← enforce (negb (vsize recv_blocks =? 0));
  _ ← enforce (negb (IsSliced (send_slice base_ot)));
  let batch_num := batches_for (vsize recv_blocks) in
  let block_num := blocks_for (vsize recv_blocks) in
  t0 ← lift (recv_columns h base_ot 0 block_num);
  t1 ← lift (recv_columns h base_ot 1 block_num);
  choices_copy ← lift (access (Bitset.resize 128 choices (u64 (batch_num * kBatchSize)) false));
  for_prog (Z.to_nat batch_num) 0 (recv_batch cot t0 t1 choices_copy) recv_blocks.

(** *** KOS *)

Record CheckMsg := mk_check { check_x : Z; check_t : list Z }.

Definition Pack (m : CheckMsg) : bytes := array_bytes 8 [check_x m] ++ array_bytes 8 (check_t m).

(** The copies do not look at the size of the buffer. *)
Definition Unpack (buf : bytes) : res CheckMsg :=
  x ← access (elem_at 8 buf 0);
  t ← access (read_array 8 kKappa (drop 8 buf));
  Val (mk_check x t).

Definition VecXorMonochrome (l : list Z) (block : Z) : list Z := (fun x => Z.lxor x block) <$> l.

Definition ExtendBaseOt_send (h : heap) (base_ot : OtSendStore) (block_num : Z) : res (list (list Z) * list (list Z)) :=
  cols ← mapM (fun k => x0 ← OtSend.GetBlock h base_ot k 0;
                        x1 ← OtSend.GetBlock h base_ot k 1;
                        Val (prg x0 block_num, prg x1 block_num)) (seqZ 0 (OtSend.Size base_ot));
  Val (cols.*1, cols.*2).

Definition ExtendBaseOt_recv (h : heap) (base_ot : OtRecvStore) (block_num : Z) : res (list (list Z)) :=
  mapM (fun k => x ← OtRecv.GetBlock h base_ot k; Val (prg x block_num)) (seqZ 0 (OtRecv.Size base_ot)).

Definition ExtendChoice (gen : Z -> bool) (choices : dynamic_bitset) (final_size : Z) : option dynamic_bitset :=
  choices_ext ← for_up (Z.to_nat kS) 0 (fun i c => Bitset.push_back 128 c (gen i)) choices;
  Bitset.resize 128 choices_ext final_size false.

(** The words of a vector as 64-bit words. *)
Definition halves64 (l : list Z) : list Z := l ≫= fun x => [lane64 x 0; lane64 x 1].

(** [absl::MakeSpan(reinterpret_cast<uint64_t*>(l.data()), n)]. *)
Definition span64 (l : list Z) (n : Z) : res (list Z) :=
  if n <=? 2 * vsize l then Val (take (Z.to_nat n) (halves64 l)) else Bad.

(** The columns after batch [i]: [ot_ext[k][offset] ^= recv_msg[k]] where the choice is set. *)
Definition add_message (h : heap) (base_ot : OtRecvStore) (i : Z) (buf : bytes) (ot_ext : list (list Z)) : res (list (list Z)) :=
  for_res (Z.to_nat kKappa) 0 (fun k ot_ext =>
    c ← OtRecv.GetChoice h base_ot k;
    if c =? 0 then Val ot_ext
    else
      let offset := i * kBatchSize / 128 in
      col ← access (vget ot_ext k);
      x ← access (vget col offset);
      y ← access (word_at buf k);
      col' ← access (vset col offset (Z.lxor x y));
      access (vset ot_ext k col')) ot_ext.

Definition send_messages (h : heap) (base_ot : OtRecvStore) (i : Z) (ot_ext : list (list Z)) : LinkM (list (list Z)) :=
  c ← the_ctx;
  buf ← Recv (NextRank c 1);
  lift (add_message h base_ot i buf ot_ext).

(** The sum of a column with the random coefficients. *)
Definition check_sum (rand_samples : list Z) (batch_num : Z) (l : list Z) : res Z :=
  s ← span64 l (2 * batch_num); Gf64Mul_span rand_samples s.

Definition check_columns (rand_samples : list Z) (batch_num : Z) (cols : list (list Z)) : res (list Z) :=
  mapM (fun k => l ← access (vget cols k); check_sum rand_samples batch_num l) (seqZ 0 kKappa).

Definition verify (h : heap) (base_ot : OtRecvStore) (m : CheckMsg) (q_check : list Z) : res () :=
  for_res (Z.to_nat kKappa) 0 (fun k _ =>
    c ← OtRecv.GetChoice h base_ot k;
    t ← access (vget (check_t m) k);
    q ← access (vget q_check k);
    OtStore.enforce ((if c =? 0 then t else Z.lxor t (check_x m)) =? q)) ().

(** The rows of the transposed columns, batch by batch. *)
Definition column_batch (cols : list (list Z)) (i : Z) : option (list Z) :=
  for_up (Z.to_nat kKappa) 0 (fun k m => x ← column_at cols k (i * kBatchSize / 128); vset m k x) (fresh kKappa).

Definition rows_of (cols : list (list Z)) (num_ext batch_num : Z) (rows : list Z) : res (list Z) :=
  for_res (Z.to_nat batch_num) 0 (fun i rows =>
    m ← access (column_batch cols i);
    m ← transposed m;
    access (for_up (Z.to_nat (batch_limit num_ext i)) 0 (fun j rows => x ← vget m j; vset rows (i * kBatchSize + j) x) rows)) rows.

Context `{WordSerializer}.

Definition KosOtExtSend (h : heap) (base_ot : OtRecvStore) (rnd_seed : Z) (send_blocks : list (Z * Z)) (cot : bool)
  : LinkM (list (Z * Z)) :=
  c ← the_ctx;
  _ ← enforce (WorldSize c =? 2);
  _ ← enforce (OtRecv.Size base_ot =? kKappa);
  _ ← enforce (negb (vsize send_blocks =? 0));
  let ot_num_valid := vsize send_blocks in
  let ot_num_ext := u64 (ot_num_valid + kS) in
  let batch_num := batches_for ot_num_ext in
  let block_num := blocks_for ot_num_ext in
  ot_ext ← lift (ExtendBaseOt_recv h base_ot block_num);
  ot_ext ← for_prog (Z.to_nat batch_num) 0 (send_messages h base_ot) ot_ext;
  seed ← SyncSeedSend rnd_seed;
  let rand_samples := prg64 seed (u64 (batch_num * 2)) in
  q_check ← lift (check_columns rand_samples batch_num ot_ext);
  buf ← Recv (NextRank c 1);
  check_msgs ← lift (Unpack buf);
  _ ← lift (verify h base_ot check_msgs q_check);
  q_ext ← lift (rows_of ot_ext ot_num_ext batch_num (replicate (Z.to_nat ot_num_ext) 0));
  delta ← lift (delta_of h base_ot);
  let batch0 := vresize q_ext ot_num_valid 0 in
  let batch1 := VecXorMonochrome batch0 delta in
  let batch0 := if cot then batch0 else ParaCrHashInplace_128 rp batch0 in
  let batch1 := if cot then batch1 else ParaCrHashInplace_128 rp batch1 in
  lift (access (for_up (Z.to_nat ot_num_valid) 0 (fun i out =>
    x ← vget batch0 i; y ← vget batch1 i; vset out i (x, y)) send_blocks)).

(** The message of batch [i]. *)
Definition recv_message (ot_ext0 ot_ext1 : list (list Z)) (choice_ext : dynamic_bitset) (i : Z) : option (list Z) :=
  choice_slice ← vget (m_blocks choice_ext) (i * kBatchSize / 128);
  for_up (Z.to_nat kKappa) 0 (fun k msg =>
    x0 ← column_at ot_ext0 k (i * kBatchSize / 128);
    x1 ← column_at ot_ext1 k (i * kBatchSize / 128);
    vset msg k (Z.lxor (Z.lxor x0 x1) choice_slice)) (fresh kKappa).

Definition recv_messages (ot_ext0 ot_ext1 : list (list Z)) (choice_ext : dynamic_bitset) (i : Z) (_ : ()) : LinkM () :=
  send_msg ← lift (access (recv_message ot_ext0 ot_ext1 choice_ext i));
  c ← the_ctx;
  _ ← SendAsync (NextRank c 1) (words_bytes send_msg);
  mret ().

Definition KosOtExtRecv (h : heap) (base_ot : OtSendStore) (gen : Z -> bool) (choices : dynamic_bitset) (recv_blocks : list Z)
    (cot : bool) : LinkM (list Z) :=
  c ← the_ctx;
  _ ← enforce (WorldSize c =? 2);
  _ ← enforce (OtSend.Size base_ot =? kKappa);
  _ ← enforce (vsize recv_blocks =? Bitset.size choices);
  _ ← enforce (negb (vsize recv_blocks =? 0));
  let ot_num_valid := vsize recv_blocks in
  let ot_num_ext := u64 (ot_num_valid + kS) in
  let batch_num := batches_for ot_num_ext in
  let block_num := blocks_for ot_num_ext in
  choice_ext ← lift (access (ExtendChoice gen choices (u64 (batch_num * kBatchSize))));
  ot_ext ← lift (ExtendBaseOt_send h base_ot block_num);
  _ ← for_prog (Z.to_nat batch_num) 0 (recv_messages ot_ext.1 ot_ext.2 choice_ext) ();
  seed ← SyncSeedRecv;
  let rand_samples := prg64 seed (u64 (batch_num * 2)) in
  x ← lift (check_sum rand_samples batch_num (m_blocks choice_ext));
  t ← lift (check_columns rand_samples batch_num ot_ext.1);
  _ ← SendAsync (NextRank c 1) (Pack (mk_check x t));
  t_ext ← lift (rows_of ot_ext.1 ot_num_ext batch_num (replicate (Z.to_nat ot_num_ext) 0));
  let t_ext := vresize t_ext ot_num_valid 0 in
  let t_ext := if cot then t_ext else ParaCrHashInplace_128 rp t_ext in
  lift (access (for_up (Z.to_nat ot_num_valid) 0 (fun i out => x ← vget t_ext i; vset out i x) recv_blocks)).

(** *** Into stores *)

(** The store of a sender, with its delta when the transfers are correlated. *)
Definition send_store (h : heap) (base_ot : OtRecvStore) (cot : bool) (blocks : list (Z * Z)) : res (heap * OtSendStore) :=
  '(h1, ret) ← MakeOtSendStore h blocks;
  if cot then delta ← delta_of h1 base_ot; ret' ← OtSend.SetDelta ret delta; Val (h1, ret') else Val (h1, ret).

Definition IknpOtExtSend_store (h : heap) (base_ot : OtRecvStore) (ot_num : Z) (cot : bool) : LinkM (heap * OtSendStore) :=
  blocks ← IknpOtExtSend h base_ot (replicate (Z.to_nat ot_num) (0, 0)) cot;
  lift (send_store h base_ot cot blocks).

Definition IknpOtExtRecv_store (h : heap) (base_ot : OtSendStore) (choices : dynamic_bitset) (ot_num : Z) (cot : bool)
  : LinkM (heap * OtRecvStore) :=
  blocks ← IknpOtExtRecv h base_ot choices (replicate (Z.to_nat ot_num) 0) cot;
  lift (MakeOtRecvStore h choices blocks).

Definition KosOtExtSend_store (h : heap) (base_ot : OtRecvStore) (rnd_seed ot_num : Z) (cot : bool) : LinkM (heap * OtSendStore) :=
  blocks ← KosOtExtSend h base_ot rnd_seed (replicate (Z.to_nat ot_num) (0, 0)) cot;
  lift (send_store h base_ot cot blocks).

Definition KosOtExtRecv_store (h : heap) (base_ot : OtSendStore) (gen : Z -> bool) (choices : dynamic_bitset) (ot_num : Z) (cot : bool)
  : LinkM (heap * OtRecvStore) :=
  blocks ← KosOtExtRecv h base_ot gen choices (replicate (Z.to_nat ot_num) 0) cot;
  lift (MakeOtRecvStore h choices blocks).
End Extension.
