(* ===== verification/OtExtensionFacts.v ===== *)
(** The extensions of transfers, step by step: loops that fill arrays, the matrices of
    the two parties and their transposes, the base transfers, and the runs of IKNP and
    KOS under [converse]. *)

From Stdlib Require Import ZArith Lia ZifyBool Bool.
From stdpp Require Import base numbers list option gmap.
From S2P Require Import Prelude BitBlock BitSet BitSetFacts BitSetOps BitSetGrow BitSetString ChannelKeys OtStore OtStoreFacts OtStoreTheorems.
From S2P Require Import CrHash LinkProgram Context LinkGroup TwoParty Dialogue Transpose TransposeFacts TransposeSquares TransposeTheorems.
From S2P Require Import GaloisField GaloisTheorems Sgrr SgrrFacts Mpfss Ferret FerretRuns OtExtension.

Local Open Scope Z_scope.

(** *** Loops that fill arrays *)

Lemma Val_inj {A} (x y : A) : Val x = Val y -> x = y.
Proof. congruence. Qed.

Lemma vget_insert {A} (l : list A) i x j : 0 <= i < vsize l ->
  vget (<[Z.to_nat i := x]> l) j = if j =? i then Some x else vget l j.
Proof.
  unfold vget, vsize. intros Hi. destruct (Z.eqb_spec j i) as [-> | Hne].
  - destruct (Z.leb_spec 0 i); [|lia]. by rewrite list_lookup_insert_eq by lia.
  - destruct (Z.leb_spec 0 j); [|done]. by rewrite list_lookup_insert_ne by lia.
Qed.

Lemma vget_seqZ {A} (g : Z -> A) n j : 0 <= j < n -> vget (g <$> seqZ 0 n) j = Some (g j).
Proof.
  intros Hj. unfold vget. replace (0 <=? j) with true by lia. rewrite list_lookup_fmap, lookup_seqZ_lt by lia. cbn. f_equal. f_equal. lia.
Qed.

Lemma vget_ext {A} (l l' : list A) : vsize l = vsize l' -> (forall j, 0 <= j < vsize l -> vget l j = vget l' j) -> l = l'.
Proof.
  intros Hs H. apply list_eq. intros i. destruct (decide (i < length l)%nat) as [Hi|Hi].
  - rewrite !vget_nat. apply H. unfold vsize. lia.
  - unfold vsize in Hs. rewrite !lookup_ge_None_2 by lia. done.
Qed.

(** The loop [out[base + k] = g(k)]. *)
Lemma copy_loop {A} (g : Z -> A) n base step l : 0 <= base -> 0 <= n -> base + n <= vsize l ->
  (forall k l', 0 <= k < n -> vsize l' = vsize l -> step k l' = vset l' (base + k) (g k)) ->
  exists l', for_up (Z.to_nat n) 0 step l = Some l' /\ vsize l' = vsize l /\
    forall q, vget l' q = if (base <=? q) && (q <? base + n) then Some (g (q - base)) else vget l q.
Proof.
  intros Hb Hn Hl Hstep.
  destruct (for_up_inv (fun k l' => vsize l' = vsize l /\
    forall q, vget l' q = if (base <=? q) && (q <? base + k) then Some (g (q - base)) else vget l q) step (Z.to_nat n) 0 l) as (l' & E & L & B).
  - split; [done|]. intros q. by replace ((base <=? q) && (q <? base + 0)) with false by lia.
  - intros k l1 Hk [L1 B1]. rewrite Hstep by (done || lia). rewrite vset_Some by lia. eexists. split; [reflexivity|].
    split; [by rewrite vsize_insert|]. intros q. rewrite vget_insert, B1 by lia. destruct (Z.eqb_spec q (base + k)) as [-> |].
    + replace ((base <=? base + k) && (base + k <? base + (k + 1))) with true by lia. do 2 f_equal. lia.
    + by replace (q <? base + (k + 1)) with (q <? base + k) by lia.
  - exists l'. split; [done|]. split; [done|]. intros q. rewrite B. by replace (0 + Z.of_nat (Z.to_nat n)) with n by lia.
Qed.

Lemma fill_loop {A} (g : Z -> A) n step l : 0 <= n -> vsize l = n ->
  (forall k l', 0 <= k < n -> vsize l' = n -> step k l' = vset l' k (g k)) -> for_up (Z.to_nat n) 0 step l = Some (g <$> seqZ 0 n).
Proof.
  intros Hn Hl Hstep. destruct (copy_loop g n 0 step l) as (l' & E & L & B); [lia|lia|lia| |].
  - intros k l1 Hk H1. rewrite Z.add_0_l. apply Hstep; [done|lia].
  - rewrite E. f_equal. apply vget_ext; [rewrite vsize_seqZ; lia|]. intros j Hj. rewrite B, vget_seqZ by lia.
    replace ((0 <=? j) && (j <? 0 + n)) with true by lia. do 2 f_equal. lia.
Qed.

(** *** The matrices of a batch *)

Definition choose (c : bool) (x : Z) : Z := if c then x else 0.

Lemma choose_word c x : 0 <= x < 2 ^ 128 -> 0 <= choose c x < 2 ^ 128.
Proof. destruct c; cbn; lia. Qed.

Lemma xor_word128 x y : 0 <= x < 2 ^ 128 -> 0 <= y < 2 ^ 128 -> 0 <= Z.lxor x y < 2 ^ 128.
Proof. intros Hx Hy. apply (word_xor 128); done || lia. Qed.

Lemma matrix_columns g : (forall k, 0 <= k < 128 -> 0 <= g k < 2 ^ 128) -> matrix (g <$> seqZ 0 128).
Proof.
  intros Hg. split; [by rewrite vsize_seqZ|]. intros r Hr. rewrite blk_seqZ by done. by apply Hg.
Qed.

(** Columns that differ by a row vector where the choice is set are, transposed, rows
    that differ by the choices where the row vector is set. *)
Lemma transposed_difference T Q (c : Z -> bool) R delta T' Q' :
  transpose_of T T' -> transpose_of Q Q' -> (forall k, 0 <= k < 128 -> blk Q k = Z.lxor (blk T k) (choose (c k) R)) ->
  (forall k, 0 <= k < 128 -> Z.testbit delta k = c k) -> 0 <= delta < 2 ^ 128 ->
  forall j, 0 <= j < 128 -> blk T' j = Z.lxor (blk Q' j) (choose (Z.testbit R j) delta).
Proof.
  intros [[_ WT] BT] [[_ WQ] BQ] HQ Hd Wd j Hj. apply (bits_eq 128); [by apply WT|by apply xor_word128; [apply WQ|apply choose_word]|].
  intros k Hk. rewrite Z.lxor_spec. pose proof (BT j k Hj Hk) as E1. pose proof (BQ j k Hj Hk) as E2. unfold mbit in *.
  rewrite E1, E2, HQ, Z.lxor_spec by done. unfold choose. rewrite xorb_assoc.
  replace (xorb _ (Z.testbit (if Z.testbit R j then delta else 0) k)) with false; [by rewrite xorb_false_r|].
  specialize (Hd k Hk). destruct (c k), (Z.testbit R j) eqn:ER; rewrite ?Hd, ?Z.bits_0, ?ER; done.
Qed.

(** A transfer: the sender's two messages and the receiver's message. *)
Definition transfer (hash : Z -> Z) (delta : Z) (c : bool) (x : Z * Z) (y : Z) : Prop :=
  exists q, 0 <= q < 2 ^ 128 /\ x = (hash q, hash (Z.lxor q delta)) /\ y = hash (Z.lxor q (choose c delta)).

Lemma transfer_chosen hash delta c x y : transfer hash delta c x y -> y = if c then x.2 else x.1.
Proof. intros (q & _ & -> & ->). destruct c; cbn; [done|by rewrite Z.lxor_0_r]. Qed.

(** *** Arrays of columns *)

Lemma insert_seqZ {A} (g : Z -> A) n k x : 0 <= k < n ->
  <[Z.to_nat k := x]> (g <$> seqZ 0 n) = (fun j => if j =? k then x else g j) <$> seqZ 0 n.
Proof.
  intros Hk. apply vget_ext; [rewrite vsize_insert, !vsize_seqZ; lia|]. rewrite vsize_insert, vsize_seqZ by lia. intros j Hj.
  rewrite vget_insert, !vget_seqZ by (rewrite ?vsize_seqZ; lia). by destruct (j =? k).
Qed.

Lemma seqZ_fmap_ext {A} (f g : Z -> A) n : (forall j, 0 <= j < n -> f j = g j) -> f <$> seqZ 0 n = g <$> seqZ 0 n.
Proof. intros H. apply list_fmap_ext. intros i x Hx. apply H. apply lookup_seqZ in Hx. lia. Qed.

Lemma as_seqZ (l : list Z) n : vsize l = n -> l = blk l <$> seqZ 0 n.
Proof.
  intros <-. apply vget_ext; [rewrite vsize_seqZ; [done|apply vsize_nonneg]|]. intros j Hj. by rewrite vget_blk, vget_seqZ.
Qed.

(** Sums of columns with coefficients. *)
Lemma halves_words l : Forall (word 64) (halves64 l).
Proof.
  unfold halves64. induction l as [|x l IH]; [constructor|]. cbn [mbind list_bind]. apply Forall_app. split; [|exact IH].
  apply Forall_cons_2; [apply lane64_word|]. apply Forall_cons_2; [apply lane64_word|apply Forall_nil_2].
Qed.

Lemma vsize_halves l : vsize (halves64 l) = 2 * vsize l.
Proof.
  unfold halves64, vsize. induction l as [|x l IH]; [done|]. cbn [mbind list_bind]. rewrite length_app. cbn [length].
  cbn [mbind list_bind] in IH. lia.
Qed.

Lemma dot_xor_halves mul `{!GfLaws 64 mul} chi (f g : Z -> Z) l : Forall (word 64) chi ->
  dot mul chi (halves64 ((fun q => Z.lxor (f q) (g q)) <$> l)) =
    Z.lxor (dot mul chi (halves64 (f <$> l))) (dot mul chi (halves64 (g <$> l))).
Proof.
  intros Hchi. revert chi Hchi. induction l as [|q l IH]; intros chi Hchi.
  - cbn. destruct chi; by rewrite Z.lxor_0_r.
  - change (halves64 (?h <$> q :: l)) with (lane64 (h q) 0 :: lane64 (h q) 1 :: halves64 (h <$> l)). cbv beta.
    rewrite !lane64_xor by lia. destruct Hchi as [|x0 chi H0 Hchi]; [cbn; by rewrite Z.lxor_0_r|].
    pose proof lane64_word as Wl. cbn [dot]. rewrite (gf_distr x0) by (done || apply Wl). destruct Hchi as [|x1 chi H1 Hchi]; cbn [dot].
    + rewrite !Z.lxor_0_r. done.
    + rewrite (gf_distr x1) by (done || apply Wl). rewrite IH by done. xor_ring.
Qed.

Lemma dot_zero_halves chi l : dot (gmul 64 kGfMod64) chi (halves64 ((fun _ : Z => 0) <$> l)) = 0.
Proof.
  revert chi. induction l as [|y l IH]; intros chi; [by destruct chi|].
  change (halves64 ((fun _ : Z => 0) <$> y :: l)) with (0 :: 0 :: halves64 ((fun _ : Z => 0) <$> l)).
  destruct chi as [|x0 [|x1 chi]]; cbn [dot]; [done|..].
  - by rewrite (gmul_zero_r 64 kGfMod64) by (lia || apply mod64_word).
  - rewrite !(gmul_zero_r 64 kGfMod64) by (lia || apply mod64_word). by rewrite IH.
Qed.

Lemma check_sum_run chi B l : Forall (word 64) chi -> vsize chi = 2 * B -> vsize l = B ->
  check_sum chi B l = Val (dot (gmul 64 kGfMod64) chi (halves64 l)).
Proof.
  intros Hchi Lchi Ll. unfold check_sum, span64. rewrite Ll, Z.leb_refl. cbn [mbind res_bind].
  rewrite take_ge by (pose proof (vsize_halves l); unfold vsize in *; lia). apply gf64_mul_span_run; [done|apply halves_words|].
  rewrite vsize_halves. lia.
Qed.

#[export] Instance gmul64_laws : GfLaws 64 (gmul 64 kGfMod64).
Proof. apply (ring_laws 64 kGfMod64); [lia|apply mod64_word|done]. Qed.

(** The message of the check is read back. *)
Lemma unpack_check x t : word 64 x -> Forall (word 64) t -> vsize t = 128 -> Unpack (Pack (mk_check x t)) = Val (mk_check x t).
Proof.
  intros Hx Ht Lt. unfold Pack, Unpack. cbn [check_x check_t].
  assert (E : array_bytes 8 [x] = le_bytes 8 x) by (unfold array_bytes; cbn [mbind list_bind]; apply app_nil_r). rewrite E.
  assert (E0 : elem_at 8 (le_bytes 8 x ++ array_bytes 8 t) 0 = Some x) by (apply (elem_at_array 8 (x :: t) 0 x); [done|exact Hx]).
  rewrite E0. cbn [access mbind res_bind]. rewrite drop_app_length' by (by rewrite length_le_bytes).
  pose proof (read_array_bytes 8 t) as Er. rewrite Lt in Er. unfold kKappa. rewrite Er; [done|].
  intros i Hi. change (256 ^ Z.of_nat 8) with (2 ^ 64). pose proof (proj1 (blk_Forall (word 64) t) Ht i) as Hw. apply Hw. lia.
Qed.

(** Blocks of a bitset that was made longer. *)
Lemma resized_blocks choices n' : wf 128 choices -> m_bits_number choices <= n' ->
  exists b, Bitset.resize 128 choices n' false = Some b /\ wf 128 b /\ m_bits_number b = n' /\
    forall p, 0 <= p -> Z.testbit (value 128 b) p = Z.testbit (value 128 choices) p.
Proof.
  intros H Hn. pose proof (wf_size _ _ H) as H0. destruct (resize_refines 128 choices n' false H ltac:(lia)) as (b & E & W & N & V).
  exists b. split; [done|]. split; [done|]. split; [done|]. intros p Hp. pose proof (value_range 128 choices H).
  rewrite V, testbit_resize_spec by (assumption || lia).
  destruct (Z.ltb_spec p n'); cbn [andb].
  - destruct (Z.ltb_spec p (m_bits_number choices)); [done|]. by rewrite (value_high 128) by (done || lia).
  - by rewrite (value_high 128) by (done || lia).
Qed.

Lemma block_bits b i j : wf 128 b -> 0 <= i -> 0 <= j < 128 -> Z.testbit (blk (m_blocks b) i) j = Z.testbit (value 128 b) (128 * i + j).
Proof.
  intros W Hi Hj. rewrite (testbit_value 128) by (done || lia). unfold bit. destruct (div_mod_split 128 i j Hj) as [D M].
  replace (128 * i + j) with (i * 128 + j) by lia. by rewrite D, M.
Qed.

(** The choices of the check follow those of the caller. *)
Lemma extend_choice_run gen choices final : wf 128 choices -> m_bits_number choices + 64 <= final ->
  exists ce, ExtendChoice gen choices final = Some ce /\ wf 128 ce /\ m_bits_number ce = final /\
    forall q, 0 <= q < m_bits_number choices -> Z.testbit (value 128 ce) q = chosen choices q.
Proof.
  intros Wc Hf. unfold ExtendChoice, kS.
  destruct (for_up_inv (fun i b => wf 128 b /\ m_bits_number b = m_bits_number choices + i /\
    forall q, 0 <= q < m_bits_number choices -> Z.testbit (value 128 b) q = chosen choices q)
    (fun i b => Bitset.push_back 128 b (gen i)) (Z.to_nat 64) 0 choices) as (b & E & Wb & Nb & Bb).
  - split; [done|]. split; [lia|]. done.
  - intros i b Hi (Wb & Nb & Bb). destruct (push_back_bits 128 b (gen i) Wb) as (b' & E & W' & N' & B'). exists b'. split; [done|].
    split; [done|]. split; [lia|]. intros q Hq. rewrite B' by lia. replace (q =? m_bits_number b) with false by lia. by apply Bb.
  - rewrite E. cbn [mbind option_bind]. destruct (resized_blocks b final Wb ltac:(lia)) as (ce & Ece & Wce & Nce & Bce).
    exists ce. split; [done|]. split; [done|]. split; [done|]. intros q Hq. rewrite Bce by lia. by apply Bb.
Qed.

(** *** Base transfers *)

(** 128 transfers whose messages are [key k 0] and [key k 1]: the sender of the
    extension is their receiver, with the choices [c]. *)
Record base_ots (hs : heap) (r : OtRecvStore) (hr : heap) (s : OtSendStore) (c : Z -> bool) (key : Z -> bool -> Z) : Prop := {
  base_recv_wf : recv_wf hs r;
  base_recv_size : OtRecv.Size r = 128;
  base_send_size : OtSend.Size s = 128;
  base_recv_whole : IsSliced (recv_slice r) = false;
  base_send_whole : IsSliced (send_slice s) = false;
  base_choice k : 0 <= k < 128 -> OtRecv.GetChoice hs r k = Val (Z.b2z (c k));
  base_received k : 0 <= k < 128 -> OtRecv.GetBlock hs r k = Val (key k (c k));
  base_sent k m : 0 <= k < 128 -> OtSend.GetBlock hr s k (Z.b2z m) = Val (key k m)
}.

(** The choices as one word. *)
Lemma base_delta hs r hr s c key : base_ots hs r hr s c key ->
  exists delta, delta_of hs r = Val delta /\ 0 <= delta < 2 ^ 128 /\ forall k, 0 <= k < 128 -> Z.testbit delta k = c k.
Proof.
  intros [(l & b & V) Hsz _ _ _ Hch _ _]. destruct (recv_CopyBitBuf hs r l b V) as (out & E & W & N & B).
  exists (blk (m_blocks out) 0). unfold delta_of. rewrite E. cbn [mbind res_bind]. rewrite Hsz in N, B.
  pose proof W as [_ L O _]. rewrite N in L. change (blocks_required 128 128) with 1 in L. rewrite vget_blk by lia. split; [done|].
  split; [by apply (blk_range 128)|]. intros k Hk. specialize (B k ltac:(lia)). rewrite (testbit_value 128) in B by (done || lia).
  unfold bit in B. rewrite Z.div_small, Z.mod_small in B by lia. rewrite B. replace (k <? 128) with true by lia. cbn [andb].
  specialize (Hch k Hk). rewrite (recv_GetChoice hs r l b V) in Hch by lia. rewrite Hsz in Hch. replace (k <? 128) with true in Hch by lia.
  injection Hch as Hch. by apply Z.b2z_inj in Hch.
Qed.

(** *** Sizes *)

Lemma batches_small n : 0 < n < 2 ^ 62 -> batches_for n = (n + 127) / 128 /\ blocks_for n = (n + 127) / 128 /\
  128 * ((n + 127) / 128) < n + 128 /\ n <= 128 * ((n + 127) / 128) /\ 0 < (n + 127) / 128 < 2 ^ 56.
Proof.
  intros Hn. unfold blocks_for, batches_for, kBatchSize. rewrite (u64_small (n + 128)), (u64_small (n + 128 - 1)) by lia.
  replace (n + 128 - 1) with (n + 127) by lia. pose proof (Z.div_mod (n + 127) 128 ltac:(lia)). pose proof (Z.mod_pos_bound (n + 127) 128 ltac:(lia)).
  set (B := (n + 127) / 128) in *. rewrite u64_small, Z.div_mul by lia. lia.
Qed.

Lemma limit_small n i : 0 < n < 2 ^ 62 -> 0 <= i < (n + 127) / 128 -> batch_limit n i = Z.min 128 (n - 128 * i) /\ 0 < n - 128 * i.
Proof.
  intros Hn Hi. destruct (batches_small n Hn) as (_ & _ & H1 & H2 & H3). set (B := (n + 127) / 128) in *.
  unfold batch_limit, kBatchSize. assert (128 * i <= 128 * (B - 1)) by lia. rewrite (u64_small (i * 128)), u64_small by lia. lia.
Qed.

Lemma offset_small i : i * kBatchSize / 128 = i.
Proof. apply Z.div_mul. lia. Qed.

(** *** The columns *)

Section Extension.
Context (rp : Z -> Z) (prg prg64 : Z -> Z -> list Z) (p : cpu) (a b : Z * Z) (fresh : Z -> list Z).
Hypothesis Hwa : pair_words a.
Hypothesis Hwb : pair_words b.
Hypothesis Hfresh : forall n, 0 <= n -> vsize (fresh n) = n.
Hypothesis Hprg : forall seed n, 0 <= n -> vsize (prg seed n) = n /\ forall i, 0 <= i < n -> 0 <= blk (prg seed n) i < 2 ^ 128.
Context (hs : heap) (r : OtRecvStore) (hr : heap) (s : OtSendStore) (c : Z -> bool) (key : Z -> bool -> Z) (delta : Z).
Hypothesis Hbase : base_ots hs r hr s c key.
Hypothesis Hdelta : delta_of hs r = Val delta.
Hypothesis Wdelta : 0 <= delta < 2 ^ 128.
Hypothesis Bdelta : forall k, 0 <= k < 128 -> Z.testbit delta k = c k.

(** Word [i] of the column of message [m] of base transfer [k], among [B] words. *)
Definition expanded (B k : Z) (m : bool) (i : Z) : Z := blk (prg (key k m) B) i.

Lemma expanded_word B k m i : 0 <= i < B -> 0 <= expanded B k m i < 2 ^ 128.
Proof using Hprg. intros Hi. apply Hprg; lia. Qed.

Lemma columns_at B (m : Z -> bool) k i : 0 <= k < 128 -> 0 <= i < B ->
  column_at ((fun k => prg (key k (m k)) B) <$> seqZ 0 128) k i = Some (expanded B k (m k) i).
Proof using Hprg.
  intros Hk Hi. unfold column_at. rewrite vget_seqZ by done. cbn [mbind option_bind]. destruct (Hprg (key k (m k)) B) as [L _]; [lia|].
  by rewrite vget_blk by lia.
Qed.

Lemma transposed_ok m : matrix m -> exists m', transposed p a b m = Val m' /\ transpose_of m m'.
Proof using Hwa Hwb.
  intros Hm. destruct (matrix_transposes p a b m Hm Hwa Hwb) as (m' & E & H). exists m'. unfold transposed. by rewrite E.
Qed.

(** The receiver's matrix of a batch, and the sender's. *)
Definition t_matrix (B i : Z) : list Z := (fun k => expanded B k false i) <$> seqZ 0 128.
Definition q_matrix (B i R : Z) : list Z := (fun k => Z.lxor (expanded B k false i) (choose (c k) R)) <$> seqZ 0 128.
Definition u_matrix (B i R : Z) : list Z := (fun k => Z.lxor (Z.lxor (expanded B k false i) (expanded B k true i)) R) <$> seqZ 0 128.

Lemma u_words B i R k : 0 <= i < B -> 0 <= R < 2 ^ 128 -> 0 <= k < vsize (u_matrix B i R) -> 0 <= blk (u_matrix B i R) k < 2 ^ 128.
Proof using Hprg.
  intros Hi HR Hk. unfold u_matrix in *. rewrite vsize_seqZ in Hk by lia. rewrite blk_seqZ by done.
  apply xor_word128; [apply xor_word128; by apply expanded_word|done].
Qed.

(** The rows of the transposed matrices. *)
Lemma batch_rows B i R : 0 <= i < B -> 0 <= R < 2 ^ 128 ->
  exists T Q, transposed p a b (t_matrix B i) = Val T /\ transposed p a b (q_matrix B i R) = Val Q /\
    vsize T = 128 /\ vsize Q = 128 /\ forall j, 0 <= j < 128 -> 0 <= blk Q j < 2 ^ 128 /\ blk T j = Z.lxor (blk Q j) (choose (Z.testbit R j) delta).
Proof using All.
  intros Hi HR. destruct (transposed_ok (t_matrix B i)) as (T & ET & HT); [apply matrix_columns; intros; by apply expanded_word|].
  destruct (transposed_ok (q_matrix B i R)) as (Q & EQ & HQ).
  { apply matrix_columns. intros k Hk. apply xor_word128; [by apply expanded_word|by apply choose_word]. }
  exists T, Q. split; [done|]. split; [done|]. split; [apply HT|]. split; [apply HQ|]. intros j Hj. split; [by apply HQ|].
  apply (transposed_difference (t_matrix B i) (q_matrix B i R) c R delta); try done.
  intros k Hk. unfold q_matrix, t_matrix. by rewrite !blk_seqZ.
Qed.

(** *** IKNP *)

Lemma send_columns_run B : 0 <= B -> send_columns prg hs r B = Val ((fun k => prg (key k (c k)) B) <$> seqZ 0 128).
Proof using Hbase.
  intros HB. unfold send_columns, kKappa. apply mapM_val. intros k Hk%elem_of_seqZ. rewrite (base_received _ _ _ _ _ _ Hbase) by lia. done.
Qed.

Lemma recv_columns_run B m : 0 <= B -> recv_columns prg hr s (Z.b2z m) B = Val ((fun k => prg (key k m) B) <$> seqZ 0 128).
Proof using Hbase.
  intros HB. unfold recv_columns, kKappa. apply mapM_val. intros k Hk%elem_of_seqZ. rewrite (base_sent _ _ _ _ _ _ Hbase) by lia. done.
Qed.

Lemma recv_matrices_run B i R : 0 <= i < B ->
  recv_matrices fresh ((fun k => prg (key k false) B) <$> seqZ 0 128) ((fun k => prg (key k true) B) <$> seqZ 0 128) i R =
    Some (u_matrix B i R, t_matrix B i).
Proof using Hprg Hfresh.
  intros Hi. unfold recv_matrices, kKappa.
  match goal with |- for_up _ _ ?f _ = _ =>
    destruct (for_up_inv (fun k s => vsize s.1 = 128 /\ vsize s.2 = 128 /\ forall q, 0 <= q < k ->
      vget s.1 q = vget (u_matrix B i R) q /\ vget s.2 q = vget (t_matrix B i) q) f (Z.to_nat 128) 0 (fresh 128, fresh 128)) as ([u t] & E & Lu & Lt & H) end.
  - split; [by apply Hfresh|]. split; [by apply Hfresh|]. lia.
  - intros k [u t] Hk (Lu & Lt & H). cbn [fst snd] in *. rewrite offset_small.
    rewrite (columns_at B (fun _ => false)), (columns_at B (fun _ => true)) by lia. cbn [mbind option_bind].
    rewrite vset_Some by lia. cbn [mbind option_bind]. rewrite vset_Some by lia. cbn [mbind option_bind]. eexists. split; [reflexivity|].
    cbn [fst snd]. split; [by rewrite vsize_insert|]. split; [by rewrite vsize_insert|]. intros q Hq. rewrite !vget_insert by lia.
    destruct (Z.eqb_spec q k) as [-> |]; [|apply H; lia]. unfold u_matrix, t_matrix. by rewrite !vget_seqZ by lia.
  - rewrite E. cbn [fst snd] in *. unfold u_matrix, t_matrix in *.
    f_equal. f_equal; apply vget_ext; rewrite ?vsize_seqZ by lia; try done; intros q Hq; apply H; lia.
Qed.

Lemma copy_message_run B i R : 0 <= i < B -> 0 <= R < 2 ^ 128 -> copy_message fresh (words_bytes (u_matrix B i R)) = Val (u_matrix B i R).
Proof using Hprg Hfresh.
  intros Hi HR. assert (Lu : vsize (u_matrix B i R) = 128) by (unfold u_matrix; by rewrite vsize_seqZ).
  unfold copy_message, kBatchSize. rewrite vsize_words, Lu. cbn [Z.leb Z.compare]. change (16 * 128 <=? 16 * 128) with true. cbv iota.
  rewrite drop_ge, app_nil_r.
  - unfold words_bytes. pose proof (read_array_bytes 16 (u_matrix B i R)) as E. rewrite Lu in E. rewrite E; [done|].
    intros k Hk. change (256 ^ Z.of_nat 16) with (2 ^ 128). apply u_words; [done|done|by rewrite Lu].
  - pose proof (vsize_words (fresh 128)) as E. rewrite Hfresh in E by lia. pose proof (vsize_words (u_matrix B i R)) as E'. rewrite Lu in E'.
    unfold vsize in E, E'. lia.
Qed.

Lemma send_matrix_run B i R : 0 <= i < B ->
  send_matrix hs r ((fun k => prg (key k (c k)) B) <$> seqZ 0 128) i (u_matrix B i R) = Val (q_matrix B i R).
Proof using Hprg Hbase.
  intros Hi. unfold send_matrix, kKappa.
  match goal with |- for_res _ _ ?f _ = _ =>
    destruct (for_res_inv (fun k m => vsize m = 128 /\ forall q, 0 <= q < 128 ->
      vget m q = if q <? k then vget (q_matrix B i R) q else vget (u_matrix B i R) q) f (Z.to_nat 128) 0 (u_matrix B i R)) as (m & E & L & H) end.
  - split; [unfold u_matrix; by rewrite vsize_seqZ|]. intros q Hq. by replace (q <? 0) with false by lia.
  - intros k m Hk [L H]. rewrite (base_choice _ _ _ _ _ _ Hbase) by lia. cbn [mbind res_bind]. rewrite offset_small, columns_at by lia.
    cbn [access mbind res_bind]. rewrite (H k ltac:(lia)). replace (k <? k) with false by lia. unfold u_matrix at 1. rewrite vget_seqZ by lia.
    cbn [access mbind res_bind]. rewrite vset_Some by lia. cbn [access]. eexists. split; [reflexivity|]. split; [by rewrite vsize_insert|].
    intros q Hq. rewrite vget_insert by lia. destruct (Z.eqb_spec q k) as [-> |].
    + replace (k <? k + 1) with true by lia. unfold q_matrix. rewrite vget_seqZ by lia. f_equal. unfold choose.
      destruct (c k); cbn [Z.b2z Z.eqb].
      * rewrite Z.lxor_assoc, (Z.lxor_comm R), <- Z.lxor_assoc. rewrite (Z.lxor_assoc (expanded B k false i)), Z.lxor_nilpotent, Z.lxor_0_r. done.
      * by rewrite Z.lxor_0_r.
    + rewrite H by done. by replace (q <? k + 1) with (q <? k) by lia.
  - rewrite E. f_equal. apply vget_ext; [unfold q_matrix; rewrite vsize_seqZ; lia|]. intros q Hq. rewrite H by lia.
    by replace (q <? 0 + Z.of_nat (Z.to_nat 128)) with true by lia.
Qed.

Lemma xor_batched_run l d : vsize l = 128 -> XorBatchedBlock fresh l d = Some ((fun k => Z.lxor (blk l k) d) <$> seqZ 0 128).
Proof using Hfresh.
  intros Hl. unfold XorBatchedBlock, kBatchSize. replace (length l) with (Z.to_nat 128) by (unfold vsize in Hl; lia).
  apply (fill_loop (fun k => Z.lxor (blk l k) d)); [lia|by apply Hfresh|]. intros k l' Hk Hl'. by rewrite vget_blk by lia.
Qed.

(** The hash of the messages. *)
Definition hashed (cot : bool) (x : Z) : Z := if cot then x else CrHash_128 rp x.

Lemma hashed_list (cot : bool) l : (if cot then l else ParaCrHashInplace_128 rp l) = hashed cot <$> l.
Proof. destruct cot; [by rewrite list_fmap_id|apply para_cr_inplace_map]. Qed.

Lemma hashed_at cot l j : 0 <= j < vsize l -> vget (hashed cot <$> l) j = Some (hashed cot (blk l j)).
Proof. intros Hj. rewrite vget_blk by (rewrite vsize_map; lia). by rewrite blk_map. Qed.

Context (choices : dynamic_bitset) (n : Z).
Hypothesis Hchoices : wf 128 choices.
Hypothesis Hn : m_bits_number choices = n.
Hypothesis Hnr : 0 < n < 2 ^ 62.
Context (cot : bool).
Local Abbreviation B := ((n + 127) / 128).

(** The transfers below [m]. *)
Definition transfers_below (m : Z) (xs : list (Z * Z)) (ys : list Z) : Prop :=
  vsize xs = n /\ vsize ys = n /\ forall q, 0 <= q < n -> q < m ->
    exists x y, vget xs q = Some x /\ vget ys q = Some y /\ transfer (hashed cot) delta (chosen choices q) x y.

(** Writing the messages of a batch. *)
Lemma write_batch i T Q R (l1 : list Z) xs ys : 0 <= i < B -> vsize T = 128 -> vsize Q = 128 ->
  (forall j, 0 <= j < 128 -> 0 <= blk Q j < 2 ^ 128 /\ blk T j = Z.lxor (blk Q j) (choose (Z.testbit R j) delta)) ->
  (forall j, 0 <= j < 128 -> 128 * i + j < n -> Z.testbit R j = chosen choices (128 * i + j)) ->
  l1 = (fun k => Z.lxor (blk Q k) delta) <$> seqZ 0 128 -> transfers_below (128 * i) xs ys ->
  exists xs' ys',
    for_up (Z.to_nat (batch_limit (vsize xs) i)) 0 (fun j out => x ← vget (hashed cot <$> Q) j; y ← vget (hashed cot <$> l1) j;
      vset out (i * kBatchSize + j) (x, y)) xs = Some xs' /\
    for_up (Z.to_nat (batch_limit (vsize ys) i)) 0 (fun j out => x ← vget (hashed cot <$> T) j; vset out (i * kBatchSize + j) x) ys = Some ys' /\
    transfers_below (128 * (i + 1)) xs' ys'.
Proof using Hnr.
  intros Hi LT LQ Hrows HR -> (Lx & Ly & Hbelow). rewrite Lx, Ly. destruct (limit_small n i Hnr Hi) as [-> Hpos].
  set (lim := Z.min 128 (n - 128 * i)). unfold kBatchSize.
  destruct (copy_loop (fun j => (hashed cot (blk Q j), hashed cot (Z.lxor (blk Q j) delta))) lim (i * 128)
    (fun j out => x ← vget (hashed cot <$> Q) j; y ← vget (hashed cot <$> ((fun k => Z.lxor (blk Q k) delta) <$> seqZ 0 128)) j;
      vset out (i * 128 + j) (x, y)) xs) as (xs' & E1 & L1 & V1); [lia|lia|lia| |].
  { intros j out Hj _. rewrite !hashed_at by (rewrite ?vsize_seqZ; lia). cbn [mbind option_bind]. by rewrite blk_seqZ by lia. }
  destruct (copy_loop (fun j => hashed cot (blk T j)) lim (i * 128)
    (fun j out => x ← vget (hashed cot <$> T) j; vset out (i * 128 + j) x) ys) as (ys' & E2 & L2 & V2); [lia|lia|lia| |].
  { intros j out Hj _. by rewrite hashed_at by lia. }
  exists xs', ys'. split; [done|]. split; [done|]. split; [lia|]. split; [lia|]. intros q Hq Hq'. rewrite V1, V2.
  destruct (Z.lt_ge_cases q (128 * i)) as [Hlt|Hge].
  - replace ((i * 128 <=? q) && (q <? i * 128 + lim)) with false by lia. by apply Hbelow.
  - replace ((i * 128 <=? q) && (q <? i * 128 + lim)) with true by lia. eexists _, _. split; [done|]. split; [done|].
    destruct (Hrows (q - i * 128)) as [HQ HT]; [lia|]. exists (blk Q (q - i * 128)). split; [done|]. split; [done|]. rewrite HT. do 3 f_equal.
    rewrite HR by lia. f_equal. lia.
Qed.

Section Programs.
Context (ph : list Z) (nm : bytes) (kk rr : Z).
Hypothesis Hnd : NoDup ph.
Hypothesis Hph : vsize ph = 2.
Hypothesis Hrr : rr = 0 \/ rr = 1.

Lemma iknp_batch_converse i cc xs ys : 0 <= i < B -> wf 128 cc -> vsize (m_blocks cc) = B ->
  (forall q, 0 <= q -> Z.testbit (value 128 cc) q = chosen choices q) -> transfers_below (128 * i) xs ys ->
  converse ph nm kk rr 1 0 (send_batch rp p a b fresh hs r cot ((fun k => prg (key k (c k)) B) <$> seqZ 0 128) i xs)
    (recv_batch rp p a b fresh cot ((fun k => prg (key k false) B) <$> seqZ 0 128) ((fun k => prg (key k true) B) <$> seqZ 0 128) cc i ys)
    (transfers_below (128 * (i + 1))).
Proof using All.
  intros Hi Wcc Lcc Hcc Hinv. unfold send_batch, recv_batch. set (R := blk (m_blocks cc) i).
  assert (HR : 0 <= R < 2 ^ 128) by (apply (blk_range 128); apply Wcc).
  eapply converse_lift_r; [assumption..|rewrite vget_blk by lia; reflexivity|]. fold R.
  eapply converse_lift_r; [assumption..|rewrite recv_matrices_run by lia; reflexivity|].
  sender_ctx. receiver_ctx. change 1%N with (1 + 0)%N. sends_up.
  eapply converse_lift_l; [assumption..|by apply copy_message_run|]. eapply converse_lift_l; [assumption..|by apply send_matrix_run|].
  destruct (batch_rows B i R Hi HR) as (T & Q & ET & EQ & LT & LQ & Hrows). sender_lifts EQ. receiver_lifts ET. sender_lifts Hdelta.
  eapply converse_lift_l; [assumption..|by rewrite xor_batched_run|]. cbv zeta. rewrite !hashed_list.
  destruct (write_batch i T Q R ((fun k => Z.lxor (blk Q k) delta) <$> seqZ 0 128) xs ys Hi LT LQ Hrows) as (xs' & ys' & E1 & E2 & H'); [|reflexivity|done|].
  { intros j Hj _. unfold R. rewrite (block_bits cc) by (done || lia). apply Hcc. lia. }
  rewrite E1, E2. by apply converse_ret.
Qed.

Lemma iknp_converse xs ys : vsize xs = n -> vsize ys = n ->
  converse ph nm kk rr (Z.to_N B) 0 (IknpOtExtSend rp prg p a b fresh hs r xs cot) (IknpOtExtRecv rp prg p a b fresh hr s choices ys cot)
    (transfers_below n).
Proof using All.
  intros Lx Ly. destruct (batches_small n Hnr) as (E1 & E2 & H1 & H2 & H3). unfold IknpOtExtSend, IknpOtExtRecv.
  eapply (converse_ctx_l _ _ _ _ Hnd Hph Hrr); [intros cx _ ->; reflexivity|]. eapply (converse_ctx_r _ _ _ _ Hnd Hph Hrr); [intros cx _ ->; reflexivity|].
  pose proof (base_recv_size _ _ _ _ _ _ Hbase) as S1. pose proof (base_send_size _ _ _ _ _ _ Hbase) as S2.
  pose proof (base_recv_whole _ _ _ _ _ _ Hbase) as W1. pose proof (base_send_whole _ _ _ _ _ _ Hbase) as W2.
  rewrite Lx, Ly, S1, S2, W1, W2, E1, E2. unfold kKappa, Bitset.size. rewrite Hn.
  do 4 (apply converse_check_l; [assumption..|lia|]). do 5 (apply converse_check_r; [assumption..|lia|]).
  eapply converse_lift_l; [assumption..|apply send_columns_run; lia|].
  eapply converse_lift_r; [assumption..|apply (recv_columns_run B false); lia|].
  eapply converse_lift_r; [assumption..|apply (recv_columns_run B true); lia|].
  unfold kBatchSize. rewrite u64_small by lia.
  destruct (resized_blocks choices (B * 128) Hchoices ltac:(lia)) as (cc & Ecc & Wcc & Ncc & Bcc).
  eapply converse_lift_r; [assumption..|rewrite Ecc; reflexivity|].
  assert (Lcc : vsize (m_blocks cc) = B).
  { destruct Wcc as [_ L _ _]. rewrite L, Ncc. destruct (blocks_required_bound 128 (B * 128)) as [_ H]; [lia|]. lia. }
  eapply (converse_weaken _ _ _ _ Hnd Hph Hrr).
  - eapply (converse_for _ _ _ _ Hnd Hph Hrr 1 0 _ 0 _ _ (fun i => transfers_below (128 * i)) xs ys); [split; [done|]; split; [done|]; lia|].
    intros i xs' ys' Hi Hinv. apply iknp_batch_converse; try done. lia.
  - lia.
  - lia.
  - intros xs' ys' (Lx' & Ly' & H). split; [done|]. split; [done|]. intros q Hq _. apply H; lia.
Qed.

(** *** KOS *)

Section Kos.
Context (gen : Z -> bool) (ce : dynamic_bitset).
Local Abbreviation ne := (n + 64).
Local Abbreviation Bk := ((n + 64 + 127) / 128).
Hypothesis Hne : n + 64 < 2 ^ 62.
Hypothesis Wce : wf 128 ce.
Hypothesis Nce : m_bits_number ce = Bk * 128.
Hypothesis Bce : forall q, 0 <= q < n -> Z.testbit (value 128 ce) q = chosen choices q.

(** The extended choices of batch [i]. *)
Local Abbreviation R i := (blk (m_blocks ce) i).

Lemma ext_word i : 0 <= R i < 2 ^ 128.
Proof using Wce. apply (blk_range 128). apply Wce. Qed.

Lemma ext_size : vsize (m_blocks ce) = Bk.
Proof using Wce Nce Hnr Hne.
  destruct Wce as [_ L _ _]. rewrite L, Nce. destruct (batches_small ne ltac:(lia)) as (_ & _ & H1 & H2 & H3).
  destruct (blocks_required_bound 128 (Bk * 128)) as [_ H]; [lia|]. lia.
Qed.

(** The sender's columns when the messages of [i] batches were added. *)
Definition kos_column (i k : Z) : list Z :=
  (fun q => if q <? i then Z.lxor (expanded Bk k false q) (choose (c k) (R q)) else expanded Bk k (c k) q) <$> seqZ 0 Bk.
Definition kos_columns (i : Z) : list (list Z) := kos_column i <$> seqZ 0 128.
Definition t_columns : list (list Z) := (fun k => expanded Bk k false <$> seqZ 0 Bk) <$> seqZ 0 128.

Lemma prg_column k m : 0 < Bk -> prg (key k m) Bk = expanded Bk k m <$> seqZ 0 Bk.
Proof using Hprg. intros HB. apply as_seqZ. apply Hprg. lia. Qed.

Lemma extend_recv_run : ExtendBaseOt_recv prg hs r Bk = Val (kos_columns 0).
Proof using Hbase Hprg Hnr Hne.
  destruct (batches_small ne ltac:(lia)) as (_ & _ & H1 & H2 & H3). unfold ExtendBaseOt_recv. rewrite (base_recv_size _ _ _ _ _ _ Hbase).
  rewrite (mapM_val _ (kos_column 0)); [done|]. intros k Hk%elem_of_seqZ. rewrite (base_received _ _ _ _ _ _ Hbase) by lia. cbn [mbind res_bind].
  f_equal. rewrite prg_column by lia. apply seqZ_fmap_ext. intros j Hj. by replace (j <? 0) with false by lia.
Qed.

Lemma extend_send_run : ExtendBaseOt_send prg hr s Bk = Val (t_columns, (fun k => expanded Bk k true <$> seqZ 0 Bk) <$> seqZ 0 128).
Proof using Hbase Hprg Hnr Hne.
  destruct (batches_small ne ltac:(lia)) as (_ & _ & H1 & H2 & H3). unfold ExtendBaseOt_send. rewrite (base_send_size _ _ _ _ _ _ Hbase).
  rewrite (mapM_val _ (fun k => (expanded Bk k false <$> seqZ 0 Bk, expanded Bk k true <$> seqZ 0 Bk))).
  - cbn [mbind res_bind]. unfold t_columns. by rewrite <- !list_fmap_compose.
  - intros k Hk%elem_of_seqZ. change 0 with (Z.b2z false) at 1. change 1 with (Z.b2z true) at 1.
    rewrite (base_sent _ _ _ _ _ _ Hbase k false), (base_sent _ _ _ _ _ _ Hbase k true) by lia. cbn [mbind res_bind].
    by rewrite !prg_column by lia.
Qed.

Lemma kos_column_at i k q : 0 <= q < Bk -> vget (kos_column i k) q =
  Some (if q <? i then Z.lxor (expanded Bk k false q) (choose (c k) (R q)) else expanded Bk k (c k) q).
Proof. intros Hq. unfold kos_column. by rewrite vget_seqZ. Qed.

Lemma kos_column_next i k : 0 <= i < Bk ->
  kos_column (i + 1) k = <[Z.to_nat i := Z.lxor (expanded Bk k false i) (choose (c k) (R i))]> (kos_column i k).
Proof.
  intros Hi. unfold kos_column at 2. rewrite insert_seqZ by lia. apply seqZ_fmap_ext. intros j Hj.
  destruct (Z.eqb_spec j i) as [-> |]; [by replace (i <? i + 1) with true by lia|]. by replace (j <? i + 1) with (j <? i) by lia.
Qed.

Lemma add_message_run i : 0 <= i < Bk -> add_message hs r i (words_bytes (u_matrix Bk i (R i))) (kos_columns i) = Val (kos_columns (i + 1)).
Proof using Hbase Hprg Wce.
  intros Hi. unfold add_message, kKappa. rewrite offset_small.
  match goal with |- for_res _ _ ?f _ = _ =>
    destruct (for_res_inv (fun k cols => cols = (fun j => if j <? k then kos_column (i + 1) j else kos_column i j) <$> seqZ 0 128)
      f (Z.to_nat 128) 0 (kos_columns i)) as (cols & E & ->) end.
  - apply seqZ_fmap_ext. intros j Hj. by replace (j <? 0) with false by lia.
  - intros k cols Hk ->. rewrite (base_choice _ _ _ _ _ _ Hbase) by lia. cbn [mbind res_bind]. cbv zeta.
    assert (En : forall x, x = kos_column (i + 1) k -> (fun j => if j =? k then x else if j <? k then kos_column (i + 1) j else kos_column i j) <$> seqZ 0 128 =
      (fun j => if j <? k + 1 then kos_column (i + 1) j else kos_column i j) <$> seqZ 0 128).
    { intros x ->. apply seqZ_fmap_ext. intros j Hj. destruct (Z.eqb_spec j k) as [-> |]; [by replace (k <? k + 1) with true by lia|].
      by replace (j <? k + 1) with (j <? k) by lia. }
    destruct (c k) eqn:Eck; cbn [Z.b2z Z.eqb].
    + rewrite vget_seqZ by lia. replace (k <? k) with false by lia. cbn [access mbind res_bind]. rewrite kos_column_at by done.
      replace (i <? i) with false by lia. cbn [access mbind res_bind].
      assert (Lu : vsize (u_matrix Bk i (R i)) = 128) by (unfold u_matrix; by rewrite vsize_seqZ).
      rewrite (word_at_words _ _ (blk (u_matrix Bk i (R i)) k)); [|apply vget_blk; lia|apply u_words; [done|apply ext_word|lia]].
      cbn [access mbind res_bind]. unfold u_matrix at 1. rewrite blk_seqZ by lia.
      rewrite vset_Some by (unfold kos_column; rewrite vsize_seqZ; lia). cbn [access mbind res_bind].
      rewrite vset_Some by (rewrite vsize_seqZ; lia). cbn [access]. eexists. split; [reflexivity|]. rewrite insert_seqZ by lia. apply En.
      rewrite kos_column_next by done. rewrite !Eck. unfold choose. f_equal. xor_ring.
    + eexists. split; [reflexivity|]. rewrite <- (En (kos_column (i + 1) k)) by done. apply seqZ_fmap_ext. intros j Hj.
      destruct (Z.eqb_spec j k) as [-> |]; [|done]. replace (k <? k) with false by lia. rewrite kos_column_next by done. rewrite Eck. unfold choose.
      rewrite Z.lxor_0_r. symmetry. apply list_insert_id. rewrite vget_nat, Z2Nat.id by lia. rewrite kos_column_at by done.
      by rewrite Z.ltb_irrefl, Eck.
  - rewrite E. apply (f_equal Val), seqZ_fmap_ext. intros j Hj. by replace (j <? 0 + Z.of_nat (Z.to_nat 128)) with true by lia.
Qed.

Lemma t_columns_at (m : bool) k i : 0 <= k < 128 -> 0 <= i < Bk ->
  column_at ((fun k => expanded Bk k m <$> seqZ 0 Bk) <$> seqZ 0 128) k i = Some (expanded Bk k m i).
Proof. intros Hk Hi. unfold column_at. rewrite vget_seqZ by done. cbn [mbind option_bind]. by rewrite vget_seqZ. Qed.

Lemma recv_message_run i : 0 <= i < Bk ->
  recv_message fresh t_columns ((fun k => expanded Bk k true <$> seqZ 0 Bk) <$> seqZ 0 128) ce i = Some (u_matrix Bk i (R i)).
Proof using Hfresh Wce Nce Hnr Hne.
  intros Hi. pose proof ext_size as Hs. unfold recv_message, kKappa. rewrite offset_small, vget_blk by lia. cbn [mbind option_bind].
  apply (fill_loop (fun k => Z.lxor (Z.lxor (expanded Bk k false i) (expanded Bk k true i)) (R i))); [lia|by apply Hfresh|].
  intros k l' Hk Hl'. unfold t_columns. by rewrite !t_columns_at by done.
Qed.

(** The matrices that are transposed at the end. *)
Lemma t_batch i : 0 <= i < Bk -> column_batch fresh t_columns i = Some (t_matrix Bk i).
Proof using Hfresh.
  intros Hi. unfold column_batch, kKappa. rewrite offset_small.
  apply (fill_loop (fun k => expanded Bk k false i)); [lia|by apply Hfresh|]. intros k l' Hk Hl'. unfold t_columns. by rewrite t_columns_at by done.
Qed.

Lemma q_batch i : 0 <= i < Bk -> column_batch fresh (kos_columns Bk) i = Some (q_matrix Bk i (R i)).
Proof using Hfresh.
  intros Hi. unfold column_batch, kKappa. rewrite offset_small.
  apply (fill_loop (fun k => Z.lxor (expanded Bk k false i) (choose (c k) (R i)))); [lia|by apply Hfresh|]. intros k l' Hk Hl'.
  unfold kos_columns, column_at. rewrite vget_seqZ by done. cbn [mbind option_bind]. rewrite kos_column_at by done.
  by replace (i <? Bk) with true by lia.
Qed.

Definition val_or {A} (d : A) (x : res A) : A := match x with Val y => y | _ => d end.

Lemma rows_run cols (M : Z -> list Z) : (forall i, 0 <= i < Bk -> column_batch fresh cols i = Some (M i)) ->
  (forall i, 0 <= i < Bk -> exists T, transposed p a b (M i) = Val T /\ vsize T = 128) ->
  exists rows, rows_of p a b fresh cols ne Bk (replicate (Z.to_nat ne) 0) = Val rows /\ vsize rows = ne /\
    forall i j, 0 <= i < Bk -> 0 <= j < 128 -> 128 * i + j < ne -> blk rows (128 * i + j) = blk (val_or [] (transposed p a b (M i))) j.
Proof using Hnr Hne.
  intros HM HT. destruct (batches_small ne ltac:(lia)) as (_ & _ & H1 & H2 & H3). unfold rows_of.
  match goal with |- exists rows, for_res ?n0 ?i0 ?f ?s0 = _ /\ _ =>
    destruct (for_res_inv (fun m rows => vsize rows = ne /\ forall i j, 0 <= i < Bk -> i < m -> 0 <= j < 128 -> 128 * i + j < ne ->
      blk rows (128 * i + j) = blk (val_or [] (transposed p a b (M i))) j) f n0 i0 s0) as (rows & E & L & H) end.
  - split; [rewrite vsize_replicate; lia|]. lia.
  - intros i rows Hi [L H]. rewrite HM by lia. cbn [access mbind res_bind]. destruct (HT i ltac:(lia)) as (T & ET & LT). rewrite ET. cbn [mbind res_bind].
    destruct (limit_small ne i) as [-> Hpos]; [lia|lia|]. set (lim := Z.min 128 (ne - 128 * i)). unfold kBatchSize.
    destruct (copy_loop (fun j => blk T j) lim (i * 128) (fun j rows => x ← vget T j; vset rows (i * 128 + j) x) rows) as (rows' & E' & L' & V');
      [lia|lia|lia|intros j l' Hj _; by rewrite vget_blk by lia|].
    rewrite E'. cbn [access]. exists rows'. split; [done|]. split; [lia|]. intros i' j Hi' Him Hj Hlt. unfold blk at 1. rewrite V'.
    destruct (Z.eq_dec i' i) as [-> | Hne'].
    + replace ((i * 128 <=? 128 * i + j) && (128 * i + j <? i * 128 + lim)) with true by lia. rewrite ET. by replace (128 * i + j - i * 128) with j by lia.
    + replace ((i * 128 <=? 128 * i' + j) && (128 * i' + j <? i * 128 + lim)) with false by lia. apply H; lia.
  - exists rows. split; [exact E|]. split; [done|]. intros i j Hi Hj Hlt. apply H; lia.
Qed.

(** The rows both parties get. *)
Lemma kos_rows : exists q_ext t_ext,
  rows_of p a b fresh (kos_columns Bk) ne Bk (replicate (Z.to_nat ne) 0) = Val q_ext /\
  rows_of p a b fresh t_columns ne Bk (replicate (Z.to_nat ne) 0) = Val t_ext /\ vsize q_ext = ne /\ vsize t_ext = ne /\
  forall q, 0 <= q < n -> 0 <= blk q_ext q < 2 ^ 128 /\ blk t_ext q = Z.lxor (blk q_ext q) (choose (chosen choices q) delta).
Proof using All.
  destruct (batches_small ne ltac:(lia)) as (_ & _ & H1 & H2 & H3).
  destruct (rows_run (kos_columns Bk) (fun i => q_matrix Bk i (R i)) q_batch) as (q_ext & EQ & LQ & HQ).
  { intros i Hi. destruct (batch_rows Bk i (R i) Hi (ext_word i)) as (T & Q & _ & E & _ & L & _). by exists Q. }
  destruct (rows_run t_columns (t_matrix Bk) t_batch) as (t_ext & ET & LT & HT).
  { intros i Hi. destruct (batch_rows Bk i (R i) Hi (ext_word i)) as (T & Q & E & _ & L & _ & _). by exists T. }
  exists q_ext, t_ext. split; [done|]. split; [done|]. split; [done|]. split; [done|]. intros q Hq.
  pose proof (Z.div_mod q 128 ltac:(lia)) as Hdm. pose proof (Z.mod_pos_bound q 128 ltac:(lia)) as Hm.
  assert (Hi : 0 <= q / 128 < Bk) by (split; [apply Z.div_pos|apply Z.div_lt_upper_bound]; lia).
  destruct (batch_rows Bk (q / 128) (R (q / 128)) Hi (ext_word _)) as (T & Q & E1 & E2 & L1 & L2 & Hrows).
  destruct (Hrows (q mod 128) Hm) as [WQ HTQ]. specialize (HQ (q / 128) (q mod 128) Hi Hm ltac:(lia)). specialize (HT (q / 128) (q mod 128) Hi Hm ltac:(lia)).
  rewrite <- Hdm in HQ, HT. rewrite E2 in HQ. rewrite E1 in HT. cbn [val_or] in HQ, HT. rewrite HQ, HT. split; [done|]. rewrite HTQ. do 2 f_equal.
  rewrite (block_bits ce), <- Hdm by (done || lia). by apply Bce.
Qed.

Lemma check_columns_run chi (col : Z -> list Z) : Forall (word 64) chi -> vsize chi = 2 * Bk -> (forall k, 0 <= k < 128 -> vsize (col k) = Bk) ->
  check_columns chi Bk (col <$> seqZ 0 128) = Val ((fun k => dot (gmul 64 kGfMod64) chi (halves64 (col k))) <$> seqZ 0 128).
Proof.
  intros Hchi Lchi Hcol. unfold check_columns, kKappa. apply mapM_val. intros k Hk%elem_of_seqZ. rewrite vget_seqZ by lia. cbn [access mbind res_bind].
  apply check_sum_run; [done|done|apply Hcol; lia].
Qed.

(** The check accepts an honest receiver. *)
Lemma verify_run chi x t q : Forall (word 64) chi -> vsize chi = 2 * Bk ->
  check_sum chi Bk (m_blocks ce) = Val x -> check_columns chi Bk t_columns = Val t -> check_columns chi Bk (kos_columns Bk) = Val q ->
  verify hs r (mk_check x t) q = Val ().
Proof using All.
  intros Hchi Lchi Ex Et Eq. destruct (batches_small ne ltac:(lia)) as (_ & _ & H1 & H2 & H3).
  rewrite check_sum_run in Ex by (done || apply ext_size). apply Val_inj in Ex as <-.
  unfold t_columns in Et. rewrite check_columns_run in Et by (done || intros; rewrite vsize_seqZ; lia). apply Val_inj in Et as <-.
  unfold kos_columns in Eq. rewrite check_columns_run in Eq by (done || intros; unfold kos_column; rewrite vsize_seqZ; lia). apply Val_inj in Eq as <-.
  unfold verify, kKappa. cbn [check_x check_t].
  match goal with |- for_res ?n0 ?i0 ?f ?s0 = _ => destruct (for_res_inv (fun _ _ => True) f n0 i0 s0) as ([] & E & _); [done| |exact E] end.
  intros k _ Hk _. rewrite (base_choice _ _ _ _ _ _ Hbase) by lia. cbn [mbind res_bind]. rewrite !vget_seqZ by lia. cbn [access mbind res_bind].
  exists (). split; [|done].
  assert (E : kos_column Bk k = (fun q => Z.lxor (expanded Bk k false q) (choose (c k) (R q))) <$> seqZ 0 Bk).
  { apply seqZ_fmap_ext. intros j Hj. by replace (j <? Bk) with true by lia. }
  rewrite E, dot_xor_halves by (done || apply _). destruct (c k); cbn [Z.b2z Z.eqb].
  - replace ((fun q => choose true (R q)) <$> seqZ 0 Bk) with (m_blocks ce) by (apply as_seqZ, ext_size). by rewrite Z.eqb_refl.
  - change ((fun q => choose false (R q)) <$> seqZ 0 Bk) with ((fun _ : Z => 0) <$> seqZ 0 Bk). rewrite dot_zero_halves, Z.lxor_0_r. by rewrite Z.eqb_refl.
Qed.

Lemma kos_messages_converse :
  converse ph nm kk rr (Z.to_N Bk) 0 (for_prog (Z.to_nat Bk) 0 (send_messages hs r) (kos_columns 0))
    (for_prog (Z.to_nat Bk) 0 (recv_messages fresh t_columns ((fun k => expanded Bk k true <$> seqZ 0 Bk) <$> seqZ 0 128) ce) ())
    (fun cols _ => cols = kos_columns Bk).
Proof using All.
  destruct (batches_small ne ltac:(lia)) as (_ & _ & H1 & H2 & H3).
  eapply (converse_weaken _ _ _ _ Hnd Hph Hrr).
  - eapply (converse_for _ _ _ _ Hnd Hph Hrr 1 0 _ 0 _ _ (fun i cols _ => cols = kos_columns i)); [done|].
    intros i cols [] Hi ->. unfold send_messages, recv_messages. eapply converse_lift_r; [assumption..|rewrite recv_message_run by lia; reflexivity|].
    sender_ctx. receiver_ctx. change 1%N with (1 + 0)%N.
    sends_up. rewrite add_message_run by lia. by apply converse_ret.
  - lia.
  - lia.
  - intros cols [] ->. f_equal. lia.
Qed.
End Kos.

(** The sum of words is a word. *)
Lemma dot64_word x y : Forall (word 64) x -> Forall (word 64) y -> word 64 (dot (gmul 64 kGfMod64) x y).
Proof.
  intros Hx. revert y. induction Hx as [|u x Hu Hx IH]; intros y Hy; [by destruct y|]. destruct Hy as [|v y Hv Hy]; [done|].
  cbn [dot]. apply word_xor; [lia| |by apply IH]. by apply gf_closed.
Qed.

(** Writing the messages at the end. *)
Lemma write_all Q T xs ys : vsize Q = n -> vsize T = n -> vsize xs = n -> vsize ys = n ->
  (forall q, 0 <= q < n -> 0 <= blk Q q < 2 ^ 128 /\ blk T q = Z.lxor (blk Q q) (choose (chosen choices q) delta)) ->
  exists xs' ys',
    for_up (Z.to_nat n) 0 (fun i out => x ← vget (hashed cot <$> Q) i; y ← vget (hashed cot <$> VecXorMonochrome Q delta) i; vset out i (x, y)) xs = Some xs' /\
    for_up (Z.to_nat n) 0 (fun i out => x ← vget (hashed cot <$> T) i; vset out i x) ys = Some ys' /\ transfers_below n xs' ys'.
Proof using Hnr.
  intros LQ LT Lx Ly Hrows. exists ((fun i => (hashed cot (blk Q i), hashed cot (Z.lxor (blk Q i) delta))) <$> seqZ 0 n), ((fun i => hashed cot (blk T i)) <$> seqZ 0 n).
  split; [apply fill_loop; [lia|done|]|split; [apply fill_loop; [lia|done|]|]].
  - intros i out Hi _. unfold VecXorMonochrome. rewrite !hashed_at by (rewrite ?vsize_map; lia). cbn [mbind option_bind]. by rewrite blk_map by lia.
  - intros i out Hi _. by rewrite hashed_at by lia.
  - split; [apply vsize_seqZ; lia|]. split; [apply vsize_seqZ; lia|]. intros q Hq _. rewrite !vget_seqZ by lia. eexists _, _. split; [done|]. split; [done|].
    destruct (Hrows q Hq) as [W E]. exists (blk Q q). split; [done|]. split; [done|]. by rewrite E.
Qed.

Context `{WordSerializer} (rnd_seed : Z) (gen : Z -> bool).
Hypothesis Hseed : word 128 rnd_seed.
Hypothesis Hprg64 : forall seed m, 0 <= m -> vsize (prg64 seed m) = m /\ Forall (word 64) (prg64 seed m).
Hypothesis Hroom : n + 64 < 2 ^ 62.
Local Abbreviation Bk := ((n + 64 + 127) / 128).

Lemma kos_converse xs ys : vsize xs = n -> vsize ys = n ->
  converse ph nm kk rr (Z.to_N Bk + 1) 1 (KosOtExtSend rp prg prg64 p a b fresh hs r rnd_seed xs cot)
    (KosOtExtRecv rp prg prg64 p a b fresh hr s gen choices ys cot) (transfers_below n).
Proof using All.
  intros Lx Ly. destruct (batches_small (n + 64) ltac:(lia)) as (E1 & E2 & H1 & H2 & H3). unfold KosOtExtSend, KosOtExtRecv.
  eapply (converse_ctx_l _ _ _ _ Hnd Hph Hrr); [intros cx -> ->; reflexivity|]. eapply (converse_ctx_r _ _ _ _ Hnd Hph Hrr); [intros cx -> ->; reflexivity|].
  cbv zeta. rewrite Lx, Ly, (base_recv_size _ _ _ _ _ _ Hbase), (base_send_size _ _ _ _ _ _ Hbase). unfold kS.
  rewrite (u64_small (n + 64)), E1, E2 by lia. unfold kKappa, kBatchSize, Bitset.size. rewrite Hn, (u64_small (Bk * 128)), (u64_small (Bk * 2)) by lia.
  do 3 (apply converse_check_l; [assumption..|lia|]). do 4 (apply converse_check_r; [assumption..|lia|]).
  destruct (extend_choice_run gen choices (Bk * 128) Hchoices ltac:(lia)) as (ce & Ece & Wce & Nce & Bce). rewrite Hn in Bce.
  eapply converse_lift_r; [assumption..|rewrite Ece; reflexivity|].
  eapply converse_lift_l; [assumption..|by apply (extend_recv_run ce)|]. eapply converse_lift_r; [assumption..|by apply extend_send_run|]. cbn [fst snd].
  change 1%N with (0 + 1)%N at 2. eapply (converse_bind _ _ _ _ Hnd Hph Hrr); [by apply kos_messages_converse|]. intros cols [] ->.
  change 1%N with (0 + 1)%N at 1. change 1%N with (1 + 0)%N at 2.
  eapply (converse_bind _ _ _ _ Hnd Hph Hrr); [by apply sync_converse|]. intros ? ? [-> ->].
  destruct (Hprg64 rnd_seed (Bk * 2)) as [Lchi Wchi]; [lia|]. set (chi := prg64 rnd_seed (Bk * 2)) in *. rewrite Z.mul_comm in Lchi.
  assert (Ex := check_sum_run chi Bk (m_blocks ce) Wchi Lchi (ext_size ce Hroom Wce Nce)).
  assert (Et := check_columns_run chi (fun k => expanded Bk k false <$> seqZ 0 Bk) Wchi Lchi ltac:(intros; cbv beta; rewrite vsize_seqZ; lia)).
  assert (Eq := check_columns_run chi (kos_column ce Bk) Wchi Lchi ltac:(intros; unfold kos_column; rewrite vsize_seqZ; lia)).
  assert (Ev := verify_run gen ce Hroom Wce Nce Bce chi _ _ _ Wchi Lchi Ex Et Eq).
  sender_lifts Eq. receiver_lifts Ex. receiver_lifts Et. change 1%N with (1 + 0)%N. sends_up.
  rewrite unpack_check; [|apply dot64_word; [done|apply halves_words]| |by rewrite vsize_seqZ].
  2:{ apply Forall_fmap, Forall_true. intros k. apply dot64_word; [done|apply halves_words]. }
  eapply converse_lift_l; [assumption..|reflexivity|]. sender_lifts Ev.
  destruct (kos_rows gen ce Hroom Wce Nce Bce) as (Q & T & EQ & ET & LQ & LT & Hrows). sender_lifts EQ. receiver_lifts ET. sender_lifts Hdelta.
  rewrite !hashed_list.
  destruct (write_all (vresize Q n 0) (vresize T n 0) xs ys) as (xs' & ys' & Exs & Eys & HT'); try done; try (apply vsize_resize; lia).
  { intros q Hq. rewrite !blk_resize, LQ, LT by lia. replace (q <? n + 64) with true by lia. by apply Hrows. }
  rewrite Exs, Eys. by apply converse_ret.
Qed.
End Programs.
End Extension.
