(* ===== verification/PrgTheorems.v ===== *)
(** The generators against the key stream of their block cipher: the blocks of the
    counters from 0. Whatever the size of its batches, a generator gives the elements of
    the stream one after the other, and every operation draws blocks that were not used
    before. The generator of bits starts with bits that no key has touched, and the
    extensions of transfers take theirs from those. Reductions modulo the Mersenne
    primes. *)

From Stdlib Require Import ZArith Lia ZifyBool Bool.
From stdpp Require Import base numbers list option.
From S2P Require Import Prelude BitBlock BitSet BitSetFacts BitSetOps BitSetGrow BitSetString ChannelKeys OtStore OtStoreFacts.
From S2P Require Import LinkProgram TwoParty Sgrr SgrrFixed Prg GaloisField FerretRuns OtExtension OtExtensionFacts.

Local Open Scope Z_scope.

(** What OpenSSL documents of a cipher in ECB mode: a context encrypts whole blocks,
    each by the block cipher under the key it was made with. *)
Class EcbCipher `{CipherContexts} := {
  block_cipher : CryptoType -> Z -> Z -> Z;
  ecb_ready : CryptoType -> Z -> cipher_ctx -> Prop;
  block_cipher_word t k x : 0 <= block_cipher t k x < 2 ^ 128;
  ecb_init t k iv : is_ecb t = true -> exists c, CipherInit t k iv true = Some c /\ ecb_ready t k c;
  ecb_init_dec t k iv : is_ecb t = true -> is_Some (CipherInit t k iv false);
  ecb_padding t k c n : ecb_ready t k c -> ecb_ready t k (set_padding c n);
  ecb_update t k c l : ecb_ready t k c -> Forall (word 128) l ->
    exists c', CipherUpdate c (words_bytes l) = Some (c', words_bytes (block_cipher t k <$> l)) /\ ecb_ready t k c'
}.

(** *** Arrays of words in memory *)

Lemma array_bytes_app k l1 l2 : array_bytes k (l1 ++ l2) = array_bytes k l1 ++ array_bytes k l2.
Proof. apply bind_app. Qed.

Lemma take_array k l j : take (k * j) (array_bytes k l) = array_bytes k (take j l).
Proof.
  revert l. induction j as [|j IH]; intros l; [by rewrite Nat.mul_0_r, !take_0|].
  destruct l as [|x l]; [rewrite take_nil; change (array_bytes k []) with (@nil Z); by rewrite take_nil|]. replace (k * S j)%nat with (k + k * j)%nat by lia.
  change (array_bytes k (x :: l)) with (le_bytes k x ++ array_bytes k l).
  rewrite take_app_add' by (by rewrite length_le_bytes). by rewrite IH.
Qed.

Lemma vsize_le_bytes k x : vsize (le_bytes k x) = Z.of_nat k.
Proof. unfold vsize. by rewrite length_le_bytes. Qed.

Lemma words_bytes_one x : words_bytes [x] = le_bytes 16 x.
Proof. apply app_nil_r. Qed.

Lemma length_words l : length (words_bytes l) = (16 * length l)%nat.
Proof. pose proof (vsize_words l). unfold vsize in *. lia. Qed.

Lemma put_bytes_mid a b c x : length x = length b -> put_bytes (a ++ b ++ c) (vsize a) x = Some (a ++ x ++ c).
Proof.
  intros E. rewrite put_bytes_run; [|apply vsize_nonneg|rewrite !vsize_app; unfold vsize; lia].
  unfold vsize. rewrite Nat2Z.id, take_app_length. do 3 f_equal.
  replace (Z.to_nat _) with (length a + length b)%nat by lia. by rewrite <- drop_drop, drop_app_length, drop_app_length.
Qed.

(** *** The key stream *)

Section KeyStream.
Context `{EcbCipher} (t : CryptoType) (key : Z).
Local Abbreviation E := (block_cipher t key).

Definition stream_byte (p : Z) : Z := E (p / 16) / 256 ^ (p mod 16) mod 256.
Definition stream_bytes (p n : Z) : bytes := stream_byte <$> seqZ p n.

Lemma stream_bytes_app p a b : 0 <= a -> 0 <= b -> stream_bytes p (a + b) = stream_bytes p a ++ stream_bytes (p + a) b.
Proof. intros Ha Hb. unfold stream_bytes. by rewrite seqZ_app, fmap_app by lia. Qed.

Lemma vsize_stream p n : 0 <= n -> vsize (stream_bytes p n) = n.
Proof. intros Hn. unfold stream_bytes, vsize. rewrite length_fmap, length_seqZ. lia. Qed.

Lemma take_stream p m n : 0 <= m <= n -> take (Z.to_nat m) (stream_bytes p n) = stream_bytes p m.
Proof.
  intros Hm. replace n with (m + (n - m)) by lia. rewrite stream_bytes_app by lia. apply take_app_length'.
  pose proof (vsize_stream p m). unfold vsize in *. lia.
Qed.

Lemma drop_stream p m n : 0 <= m <= n -> drop (Z.to_nat m) (stream_bytes p n) = stream_bytes (p + m) (n - m).
Proof.
  intros Hm. replace n with (m + (n - m)) at 1 by lia. rewrite stream_bytes_app by lia. apply drop_app_length'.
  pose proof (vsize_stream p m). unfold vsize in *. lia.
Qed.

Lemma le_bytes_seq k x : le_bytes k x = (fun j => x / 256 ^ j mod 256) <$> seqZ 0 (Z.of_nat k).
Proof.
  revert x. induction k as [|k IH]; intros x; [done|]. cbn [le_bytes]. rewrite Nat2Z.inj_succ, seqZ_cons, Z.pred_succ by lia. cbn [fmap list_fmap].
  rewrite Z.pow_0_r, Z.div_1_r. f_equal. rewrite IH.
  replace (seqZ (Z.succ 0) (Z.of_nat k)) with (Z.add 1 <$> seqZ 0 (Z.of_nat k)) by (by rewrite fmap_add_seqZ).
  rewrite <- list_fmap_compose.
  apply list_fmap_ext. intros i j Hj. apply lookup_seqZ in Hj as [-> Hj]. cbn.
  by rewrite Z.div_div, <- (Z.pow_add_r 256 1) by lia.
Qed.

Lemma block_stream i : le_bytes 16 (E i) = stream_bytes (16 * i) 16.
Proof.
  rewrite le_bytes_seq. unfold stream_bytes. replace (seqZ (16 * i) 16) with ((fun j => 16 * i + j) <$> seqZ 0 16)
    by (rewrite fmap_add_seqZ; f_equal; lia).
  rewrite <- list_fmap_compose. apply list_fmap_ext. intros k j Hj. apply lookup_seqZ in Hj as [-> Hj]. cbn. unfold stream_byte. rewrite Z.add_0_l.
  replace ((16 * i + Z.of_nat k) / 16) with i by (Z.to_euclidean_division_equations; lia).
  by replace ((16 * i + Z.of_nat k) mod 16) with (Z.of_nat k) by (Z.to_euclidean_division_equations; lia).
Qed.

(** The blocks of the counters. *)
Lemma counters_stream count n : 0 <= count -> 0 <= n -> count + n <= 2 ^ 128 ->
  words_bytes (E <$> EcbMakeContentBlocks count n) = stream_bytes (16 * count) (16 * n).
Proof.
  intros Hc Hn. revert n Hn. apply (natlike_ind (fun n => count + n <= 2 ^ 128 -> _)); [done|]. intros n Hn IH Hle.
  unfold EcbMakeContentBlocks, words_bytes. rewrite <- Z.add_1_r, seqZ_app, !fmap_app, array_bytes_app by lia.
  replace (16 * (n + 1)) with (16 * n + 16) by lia. rewrite stream_bytes_app by lia. f_equal; [apply IH; lia|].
  change (seqZ (0 + n) 1) with [n]. cbn [fmap list_fmap]. change (array_bytes 16 ?l) with (words_bytes l). rewrite words_bytes_one. unfold u128.
  rewrite Z.mod_small by lia. rewrite block_stream. f_equal. lia.
Qed.

Lemma counters_words count n : Forall (word 128) (EcbMakeContentBlocks count n).
Proof. unfold EcbMakeContentBlocks. apply Forall_fmap, Forall_forall. intros i _. apply Z.mod_pos_bound. lia. Qed.

Lemma vsize_counters count n : 0 <= n -> vsize (EcbMakeContentBlocks count n) = n.
Proof. intros Hn. unfold EcbMakeContentBlocks, vsize. rewrite length_fmap, length_seqZ. lia. Qed.
End KeyStream.

Section Ciphers.
Context `{EcbCipher} (t : CryptoType) (key : Z).
Hypothesis Ht : is_ecb t = true.
Local Abbreviation E := (block_cipher t key).

(** *** Encryption in ECB mode *)

(** The state of the loop after [j] blocks of [l]. *)
Definition ecb_state (src : option bytes) (l : list Z) (j : nat) (out : bytes) : Prop :=
  exists rest, out = words_bytes (E <$> take j l) ++ rest /\ length rest = (16 * (length l - j))%nat /\
    (src = Some (words_bytes l) \/ src = None /\ rest = words_bytes (drop j l)).

Lemma ecb_reads src l j m out : ecb_state src l j out -> (j + m <= length l)%nat ->
  subspan (default out src) (16 * Z.of_nat j) (16 * Z.of_nat m) = words_bytes (take m (drop j l)).
Proof using All.
  intros (rest & -> & Hr & Hsrc) Hm. unfold subspan.
  replace (Z.to_nat (16 * Z.of_nat j)) with (16 * j)%nat by lia. replace (Z.to_nat (16 * Z.of_nat m)) with (16 * m)%nat by lia.
  destruct Hsrc as [->|[-> ->]]; cbn [default from_option id].
  - unfold words_bytes. by rewrite drop_array, take_array.
  - rewrite drop_app_length' by (rewrite length_words, length_fmap, length_take; lia). unfold words_bytes. by rewrite take_array.
Qed.

Lemma ecb_writes src l j m out : ecb_state src l j out -> (j + m <= length l)%nat ->
  exists out', put_bytes out (16 * Z.of_nat j) (words_bytes (E <$> take m (drop j l))) = Some out' /\ ecb_state src l (j + m) out' /\
    vsize out' = vsize out.
Proof using All.
  intros (rest & -> & Hr & Hsrc) Hm. set (a := words_bytes (E <$> take j l)).
  assert (La : vsize a = 16 * Z.of_nat j) by (unfold a; rewrite vsize_words; unfold vsize; rewrite length_fmap, length_take; lia).
  assert (Lx : length (words_bytes (E <$> take m (drop j l))) = (16 * m)%nat) by (rewrite length_words, length_fmap, length_take, length_drop; lia).
  exists (a ++ words_bytes (E <$> take m (drop j l)) ++ drop (16 * m) rest).
  rewrite <- La, <- (take_drop (16 * m) rest) at 1.
  rewrite put_bytes_mid by (rewrite Lx, length_take; lia). split; [done|]. split.
  - exists (drop (16 * m) rest). split; [|split].
    + unfold a. rewrite (assoc_L app). f_equal. unfold words_bytes. rewrite <- array_bytes_app, <- fmap_app. do 2 f_equal.
      by rewrite <- take_take_drop.
    + rewrite length_drop. lia.
    + destruct Hsrc as [?|[? ->]]; [by left|]. right. split; [done|]. unfold words_bytes. by rewrite drop_array, drop_drop.
  - rewrite !vsize_app. unfold vsize. rewrite Lx, length_drop. lia.
Qed.

Lemma update_steps_ecb src l : Forall (word 128) l -> forall fuel ctx out j, ecb_ready t key ctx -> ecb_state src l j out -> (j <= length l)%nat ->
  vsize out = 16 * vsize l -> 16 * (vsize l - Z.of_nat j) <= Z.of_nat fuel * limit ->
  exists ctx', update_steps fuel ctx src out (16 * Z.of_nat j) (16 * Z.of_nat j) = Val (ctx', words_bytes (E <$> l), 16 * vsize l) /\
    ecb_ready t key ctx'.
Proof using All.
  intros Hl. induction fuel as [|fuel IH]; intros ctx out j Hc Hst Hj Hout Hf; unfold update_steps; fold update_steps; rewrite Hout.
  - unfold vsize in *. assert (j = length l) as -> by lia. destruct (Z.ltb_spec (16 * Z.of_nat (length l)) (16 * Z.of_nat (length l))); [lia|].
    destruct Hst as (rest & -> & Hr & _). rewrite firstn_all. destruct rest; [|cbn in Hr; lia]. rewrite app_nil_r. by exists ctx.
  - destruct (Z.ltb_spec (16 * Z.of_nat j) (16 * vsize l)) as [Hlt|Hge].
    + set (m := Z.to_nat (Z.min (vsize l - Z.of_nat j) (2 ^ 27 - 1))).
      assert (Em : Z.min (16 * vsize l - 16 * Z.of_nat j) limit = 16 * Z.of_nat m) by (unfold m, limit, BlockSize; lia).
      assert (Hm : (j + m <= length l)%nat) by (unfold m, vsize in *; lia). rewrite Em, (ecb_reads src l j m out Hst Hm).
      destruct (ecb_update t key ctx (take m (drop j l)) Hc) as (c' & -> & Hc'); [by apply Forall_take, Forall_drop|].
      cbn [succeeds mbind res_bind]. destruct (ecb_writes src l j m out Hst Hm) as (out' & -> & Hst' & Ho').
      cbn [access mbind res_bind]. 
      assert (vsize (words_bytes (E <$> take m (drop j l))) = 16 * Z.of_nat m) as ->
        by (unfold vsize; rewrite length_words, length_fmap, length_take, length_drop; lia). rewrite <- Z.mul_add_distr_l, <- Nat2Z.inj_add.
      apply IH; [done|done|lia|lia|]. unfold limit, BlockSize in *. unfold m in *. lia.
    + unfold vsize in *. assert (j = length l) as -> by lia. destruct Hst as (rest & -> & Hr & _). rewrite firstn_all.
      destruct rest; [|cbn in Hr; lia]. rewrite app_nil_r. by exists ctx.
Qed.

(** A cipher object that is ready. *)
Definition crypto_ready (c : SymmetricCrypto) : Prop := type_ c = t /\ ecb_ready t key (enc_ctx_ c).

Lemma new_crypto_ready iv : exists c, new_SymmetricCrypto t key iv = Val c /\ crypto_ready c.
Proof using All.
  unfold new_SymmetricCrypto, SetupEVPCipherCtx. destruct (ecb_init t key iv Ht) as (e & -> & He). destruct (ecb_init_dec t key iv Ht) as [d ->].
  eexists. split; [reflexivity|]. split; [done|]. by apply ecb_padding.
Qed.

Lemma encrypt_ecb c src l dst : crypto_ready c -> Forall (word 128) l -> vsize dst = 16 * vsize l ->
  (src = Some (words_bytes l) \/ src = None /\ dst = words_bytes l) ->
  exists c', Encrypt c src dst = Val (c', words_bytes (E <$> l)) /\ crypto_ready c'.
Proof using All.
  intros [Et Hc] Hl Hd Hsrc. unfold Encrypt, crypt.
  assert (Hin : vsize (default dst src) = 16 * vsize l) by (destruct Hsrc as [->|[-> ->]]; cbn; by rewrite ?vsize_words).
  rewrite Hin, Hd. unfold BlockSize. replace (16 * vsize l mod 16) with 0 by (rewrite Z.mul_comm, Z.mod_mul; lia).
  rewrite orb_true_r. replace (16 * vsize l =? 16 * vsize l) with true by lia. cbn [OtStore.enforce mbind res_bind].
  destruct (update_steps_ecb src l Hl (update_fuel (16 * vsize l)) (set_padding (enc_ctx_ c) 0) dst 0) as (ctx' & Eu & Hc').
  - by apply ecb_padding.
  - exists dst. rewrite take_0, drop_0. split; [done|]. unfold vsize in Hd. split; [lia|]. done.
  - lia.
  - done.
  - unfold update_fuel, limit, BlockSize, vsize. pose proof (Z.div_mod (16 * Z.of_nat (length l)) (2 ^ 31 - 16)).
    pose proof (Z.mod_pos_bound (16 * Z.of_nat (length l)) (2 ^ 31 - 16)). pose proof (Z.div_pos (16 * Z.of_nat (length l)) (2 ^ 31 - 16)). lia.
  - change (16 * Z.of_nat 0) with 0 in Eu. rewrite Eu. cbn. eexists. split; [reflexivity|]. by split.
Qed.


Lemma encrypt_counters_ecb c count n : crypto_ready c -> 0 <= count -> 0 <= n -> count + n <= 2 ^ 128 ->
  exists c', encrypt_counters c count n = Val (c', stream_bytes t key (16 * count) (16 * n)) /\ crypto_ready c'.
Proof using Ht.
  intros Hc H1 H2 H3. unfold encrypt_counters. rewrite <- counters_stream by lia.
  apply encrypt_ecb; [done|apply counters_words|apply vsize_words|by right].
Qed.

Lemma encrypt_word_ecb stack c x : crypto_ready c -> word 128 x -> exists c', Encrypt_word stack c x = Val (c', E x).
Proof using Ht.
  intros Hc Hx. unfold Encrypt_word. destruct (encrypt_ecb c (Some (le_bytes 16 x)) [x] (le_bytes 16 stack) Hc) as (c' & -> & _).
  - by constructor.
  - apply vsize_le_bytes.
  - left. by rewrite words_bytes_one.
  - exists c'. cbn [mbind res_bind fmap list_fmap]. rewrite words_bytes_one, le_roundtrip; [done|apply block_cipher_word].
Qed.

(** The blocks of [n] bytes. *)
Definition blocks (n : Z) : Z := (n + 15) / 16.

Lemma nblocks_small n : 0 <= n < 2 ^ 60 -> nblocks n = blocks n.
Proof. intros Hn. unfold nblocks, blocks, BlockSize. rewrite (u64_small (n + 16)), u64_small by lia. f_equal. lia. Qed.

Lemma fill_ecb stack iv count buf : 0 <= count -> vsize buf < 2 ^ 60 -> count + blocks (vsize buf) <= 2 ^ 64 ->
  FillPRand stack t key iv count buf = Val (stream_bytes t key (16 * count) (vsize buf), u64 (count + blocks (vsize buf))).
Proof using Ht.
  intros Hc Hs Hle. pose proof (vsize_nonneg buf) as Hb. unfold FillPRand. rewrite nblocks_small by lia.
  assert (Hctr : is_ctr t = false) by (by destruct t). rewrite Hctr, Ht. unfold BlockSize.
  set (n := vsize buf) in *. assert (Hnb : n = 16 * (blocks n - 1) + ((n - 1) mod 16 + 1)) by (unfold blocks; Z.to_euclidean_division_equations; lia).
  assert (H128 : (2 ^ 64 < 2 ^ 128)) by lia. assert (0 <= blocks n) by (unfold blocks; apply Z.div_pos; lia).
  destruct (new_crypto_ready iv) as (c & -> & Hr). cbn [mbind res_bind].
  destruct (Z.eqb_spec (n mod 16) 0) as [E0|E0].
  - destruct (encrypt_counters_ecb c count (blocks n) Hr) as (c' & -> & _); [lia..|]. cbn [mbind res_bind].
    by replace (16 * blocks n) with n by (unfold blocks; Z.to_euclidean_division_equations; lia).
  - set (q := blocks n - 1). assert (Hn : n = 16 * q + n mod 16) by (unfold q, blocks; Z.to_euclidean_division_equations; lia).
    pose proof (Z.mod_pos_bound n 16 ltac:(lia)) as Hp.
    assert (exists c' , (if 1 <? blocks n then encrypt_counters c count q else Val (c, []))
      = Val (c', stream_bytes t key (16 * count) (16 * q)) /\ crypto_ready c') as (c' & -> & Hr').
    { destruct (Z.ltb_spec 1 (blocks n)); [apply encrypt_counters_ecb; try done; lia|]. exists c. split; [|done].
      assert (q = 0) as -> by (unfold q; lia). done. }
    cbn [mbind res_bind].
    assert (u64 (u64 (count + blocks n) - 1) = count + q) as ->.
    { unfold u64, q. rewrite Zminus_mod_idemp_l, Z.mod_small; lia. }
    assert (Hlen : length (drop (Z.to_nat (16 * q)) buf) = Z.to_nat (n mod 16)) by (rewrite length_drop; unfold n, vsize in *; lia).
    rewrite put_bytes_run by (rewrite ?vsize_stream; lia). rewrite take_0, vsize_stream, Z.add_0_l by lia. cbn [app access mbind res_bind].
    destruct (encrypt_word_ecb stack c' (count + q) Hr') as (c'' & ->); [unfold word; lia|]. cbn [mbind res_bind].
    rewrite <- (app_nil_r (drop (Z.to_nat (16 * q)) buf)).
    pose proof (put_bytes_mid (stream_bytes t key (16 * count) (16 * q)) (drop (Z.to_nat (16 * q)) buf) [] (take (Z.to_nat (n mod 16)) (le_bytes 16 (E (count + q))))) as Hput.
    rewrite vsize_stream in Hput by lia. rewrite Hput by (rewrite Hlen, length_take, length_le_bytes; lia).
    cbn [access mbind res_bind]. rewrite app_nil_r, block_stream. do 2 f_equal. transitivity (stream_bytes t key (16 * count) (16 * q + n mod 16)); [|by rewrite <- Hn]. rewrite stream_bytes_app by lia. f_equal.
    rewrite take_stream by lia. f_equal. lia.
Qed.
End Ciphers.

(** *** Generators *)

(** The operations of a generator, and what they return. *)
Inductive prg_op := Next | FillOp (out : bytes) | SeedOp (seed : Z) | StatusOp (seed counter : Z).
Inductive prg_out := Elem (x : Z) | Filled (b : bytes) | Done.

Section Stream.
Context `{EcbCipher} (stack : Z) (w : nat) (B : Z) (mode : PRG_MODE).
Local Abbreviation ty := (mode_type mode).

Definition prg_step (g : Prg) (o : prg_op) : res (Prg * prg_out) :=
  match o with
  | Next => '(g, x) ← next stack w B g; Val (g, Elem x)
  | FillOp out => '(g, b) ← Fill stack g out; Val (g, Filled b)
  | SeedOp seed => Val (SetSeed g seed, Done)
  | StatusOp seed counter => Val (SetStatus g seed counter, Done)
  end.

Fixpoint prg_run (g : Prg) (ops : list prg_op) : res (list prg_out) :=
  match ops with
  | [] => Val []
  | o :: ops => '(g, x) ← prg_step g o; l ← prg_run g ops; Val (x :: l)
  end.

(** [n] elements of the stream of [seed] from byte [p]. *)
Definition stream_elem (seed p : Z) : Z := le_value (stream_bytes ty seed p (Z.of_nat w)).
Definition stream_elems (seed p n : Z) : list Z := (fun i => stream_elem seed (p + Z.of_nat w * i)) <$> seqZ 0 n.

(** The abstract generator: the blocks from [sp_pos] have not been drawn, [sp_pending]
    are drawn and not returned. It gives no answer when the counter would pass 64 bits. *)
Record stream_state := mk_stream { sp_seed : Z; sp_pos : Z; sp_pending : list Z }.

Definition draw (s : stream_state) (n : Z) : option Z :=
  let pos := sp_pos s + blocks n in if pos <? 2 ^ 64 then Some pos else None.

Definition stream_step (s : stream_state) (o : prg_op) : option (stream_state * prg_out) :=
  match o with
  | Next =>
      '(pos, l) ← match sp_pending s with
                  | [] => pos ← draw s (B * Z.of_nat w); Some (pos, stream_elems (sp_seed s) (16 * sp_pos s) B)
                  | l => Some (sp_pos s, l)
                  end;
      match l with x :: l => Some (mk_stream (sp_seed s) pos l, Elem x) | [] => None end
  | FillOp out =>
      pos ← draw s (vsize out);
      Some (mk_stream (sp_seed s) pos (sp_pending s), Filled (stream_bytes ty (sp_seed s) (16 * sp_pos s) (vsize out)))
  | SeedOp seed => Some (mk_stream seed 0 (sp_pending s), Done)
  | StatusOp seed counter => Some (mk_stream seed (u64 counter) (sp_pending s), Done)
  end.

Fixpoint stream_run (s : stream_state) (ops : list prg_op) : option (list prg_out) :=
  match ops with
  | [] => Some []
  | o :: ops => '(s, x) ← stream_step s o; l ← stream_run s ops; Some (x :: l)
  end.

Hypothesis HB : 0 < B.
Hypothesis Hw : (0 < w)%nat.
Hypothesis Hsize : B * Z.of_nat w < 2 ^ 60.

(** Element [i] of the budget. *)
Definition budget_elem (b : bytes) (i : Z) : Z := le_value (take w (drop (Z.to_nat (Z.of_nat w * i)) b)).

Record follows (s : stream_state) (g : Prg) : Prop := {
  fol_seed : seed_ g = sp_seed s;
  fol_mode : mode_ g = mode;
  fol_pos : 0 <= sp_pos s < 2 ^ 64;
  fol_counter : u64 (counter_ g) = sp_pos s;
  fol_size : vsize (cipher_budget_ g) = B * Z.of_nat w;
  fol_consumed : 0 <= num_consumed_ g <= B;
  fol_pending : sp_pending s = budget_elem (cipher_budget_ g) <$> seqZ (num_consumed_ g) (B - num_consumed_ g)
}.

Lemma elem_at_budget b i : vsize b = B * Z.of_nat w -> 0 <= i < B -> elem_at w b i = Some (budget_elem b i).
Proof using All. intros Hb Hi. unfold elem_at. rewrite Hb. by replace ((0 <=? i) && _) with true by nia. Qed.

Lemma budget_elem_stream seed p i : 0 <= i < B -> budget_elem (stream_bytes ty seed p (B * Z.of_nat w)) i = stream_elem seed (p + Z.of_nat w * i).
Proof using All.
  intros Hi. assert (0 <= Z.of_nat w * i /\ Z.of_nat w * i + Z.of_nat w <= B * Z.of_nat w) by nia.
  unfold budget_elem, stream_elem. rewrite drop_stream by lia. rewrite <- (Nat2Z.id w) at 1. by rewrite take_stream by lia.
Qed.

Lemma fill_draws s g buf pos : follows s g -> vsize buf < 2 ^ 60 -> draw s (vsize buf) = Some pos ->
  FillPRand stack (mode_type (mode_ g)) (seed_ g) kInitVector (u64 (counter_ g)) buf
  = Val (stream_bytes ty (sp_seed s) (16 * sp_pos s) (vsize buf), pos) /\ 0 <= pos < 2 ^ 64.
Proof using All.
  intros [] Hs Hd. unfold draw in Hd. destruct (Z.ltb_spec (sp_pos s + blocks (vsize buf)) (2 ^ 64)); [|done]. injection Hd as <-.
  assert (0 <= blocks (vsize buf)) by (apply Z.div_pos; unfold vsize; lia).
  rewrite fol_mode0, fol_seed0, fol_counter0. rewrite fill_ecb by (by destruct mode) || lia. rewrite u64_small by lia. split; [done|lia].
Qed.

Lemma step_follows s g o s' x : follows s g -> match o with FillOp out => vsize out < 2 ^ 60 | _ => True end ->
  stream_step s o = Some (s', x) -> exists g', prg_step g o = Val (g', x) /\ follows s' g'.
Proof using All.
  intros F Ho E. pose proof F as []. destruct o as [|out|seed|seed counter]; cbn [stream_step prg_step] in *.
  - unfold next. destruct (sp_pending s) as [|y l] eqn:Ep.
    + assert (Ec : num_consumed_ g = B).
      { destruct (Z.eq_dec (num_consumed_ g) B) as [|Hne]; [done|]. rewrite seqZ_cons in fol_pending0 by lia. done. }
      rewrite Ec, Z.eqb_refl. unfold GenerateBudgets. rewrite <- fol_size0 in E.
      destruct (draw s (vsize (cipher_budget_ g))) as [pos|] eqn:Ed; [|done].
      destruct (fill_draws s g (cipher_budget_ g) pos F ltac:(lia) Ed) as [-> Hpos]. cbn [mbind option_bind res_bind] in *.
      unfold stream_elems in E. rewrite seqZ_cons in E by lia. cbn [fmap list_fmap] in E. injection E as <- <-.
      cbn [num_consumed_ cipher_budget_]. rewrite fol_size0, elem_at_budget by (rewrite ?vsize_stream; lia).
      cbn [access mbind res_bind]. rewrite budget_elem_stream by lia. eexists. split; [reflexivity|].
      split; cbn; try done; [by rewrite u64_small|rewrite vsize_stream; lia|lia|].
      apply list_fmap_ext. intros k i Hi. apply lookup_seqZ in Hi as [-> Hi]. rewrite budget_elem_stream by lia. done.
    + destruct (Z.eqb_spec (num_consumed_ g) B) as [Ec|Ec]; [rewrite Ec, Z.sub_diag in fol_pending0; done|].
      cbn [mbind option_bind res_bind] in *. injection E as <- <-. rewrite elem_at_budget by lia. cbn [access mbind res_bind].
      rewrite seqZ_cons in fol_pending0 by lia. cbn [fmap list_fmap] in fol_pending0. injection fol_pending0 as -> ->.
      eexists. split; [reflexivity|]. split; cbn; try done; [lia|]. f_equal. f_equal; lia.
  - destruct (draw s (vsize out)) as [pos|] eqn:Ed; [|done]. cbn [mbind option_bind] in E. injection E as <- <-.
    unfold Fill. destruct (fill_draws s g out pos F Ho Ed) as [-> Hpos]. cbn [mbind res_bind]. eexists. split; [reflexivity|].
    split; cbn; try done. by rewrite u64_small.
  - injection E as <- <-. eexists. split; [reflexivity|]. by split.
  - injection E as <- <-. eexists. split; [reflexivity|]. split; cbn; try done. apply Z.mod_pos_bound. lia.
Qed.

Definition fills_small (ops : list prg_op) : Prop := Forall (fun o => match o with FillOp out => vsize out < 2 ^ 60 | _ => True end) ops.

Lemma run_follows ops s g outs : follows s g -> fills_small ops -> stream_run s ops = Some outs -> prg_run g ops = Val outs.
Proof using All.
  revert s g outs. induction ops as [|o ops IH]; intros s g outs F Ho E; cbn [stream_run prg_run] in *; [by simplify_eq|].
  inversion_clear Ho as [|? ? Ho1 Ho2]. destruct (stream_step s o) as [[s' x]|] eqn:Es; [|done]. cbn [mbind option_bind] in E.
  destruct (stream_run s' ops) as [l|] eqn:El; [|done]. cbn in E. injection E as <-.
  destruct (step_follows s g o s' x F Ho1 Es) as (g' & -> & F'). cbn [mbind res_bind]. by rewrite (IH s' g' l).
Qed.

Lemma new_follows seed : follows (mk_stream seed 0 []) (new_Prg w B seed mode).
Proof using All.
  split; cbn; try done; [|lia|by rewrite Z.sub_diag]. rewrite vsize_replicate. nia.
Qed.

Lemma stream_elems_cons seed p n : 0 < n -> stream_elems seed p n = stream_elem seed p :: stream_elems seed (p + Z.of_nat w) (n - 1).
Proof using All.
  intros Hn. unfold stream_elems. rewrite seqZ_cons by lia. cbn [fmap list_fmap]. f_equal; [f_equal; lia|].
  replace (seqZ (Z.succ 0) (Z.pred n)) with (Z.add 1 <$> seqZ 0 (n - 1)) by (rewrite fmap_add_seqZ; f_equal; lia).
  rewrite <- list_fmap_compose. apply list_fmap_ext. intros k i _. cbn. f_equal. lia.
Qed.

Hypothesis Hblocks : B * Z.of_nat w mod 16 = 0.

(** Elements only: they are those of the stream, for every size of the batches. *)
Lemma stream_nexts n : forall seed pos i m, 0 <= m -> 0 <= i -> 16 * pos = Z.of_nat w * (i + m) ->
  Z.of_nat w * (i + Z.of_nat n + B) < 2 ^ 64 ->
  stream_run (mk_stream seed pos (stream_elems seed (Z.of_nat w * i) m)) (replicate n Next)
  = Some (Elem <$> stream_elems seed (Z.of_nat w * i) (Z.of_nat n)).
Proof using All.
  induction n as [|n IH]; intros seed pos i m Hm Hi Hpos Hle; [done|]. cbn [replicate stream_run stream_step sp_pending sp_seed sp_pos].
  assert (Hstep : exists pos' m', 0 <= m' /\ 16 * pos' = Z.of_nat w * (i + 1 + m') /\
    match stream_elems seed (Z.of_nat w * i) m with
    | [] => pos0 ← draw (mk_stream seed pos (stream_elems seed (Z.of_nat w * i) m)) (B * Z.of_nat w); Some (pos0, stream_elems seed (16 * pos) B)
    | l => Some (pos, l)
    end = Some (pos', stream_elem seed (Z.of_nat w * i) :: stream_elems seed (Z.of_nat w * (i + 1)) m')).
  { destruct (Z.eq_dec m 0) as [->|Hne].
    - change (stream_elems seed (Z.of_nat w * i) 0) with (@nil Z). unfold draw. cbn [sp_pos].
      assert (Hq : 16 * blocks (B * Z.of_nat w) = B * Z.of_nat w) by (unfold blocks; Z.to_euclidean_division_equations; lia).
      replace (pos + blocks (B * Z.of_nat w) <? 2 ^ 64) with true by nia. cbn [mbind option_bind].
      exists (pos + blocks (B * Z.of_nat w)), (B - 1). split; [lia|]. split; [lia|].
      rewrite Hpos, Z.add_0_r, stream_elems_cons by lia. repeat f_equal. lia.
    - exists pos, (m - 1). split; [lia|]. split; [lia|]. rewrite stream_elems_cons by lia. repeat f_equal. lia. }
  destruct Hstep as (pos' & m' & Hm' & Hpos' & ->). cbn [mbind option_bind].
  rewrite IH by (try done; lia). cbn [mbind option_bind]. rewrite Nat2Z.inj_succ, (stream_elems_cons _ _ (Z.succ _)) by lia.
  cbn [fmap list_fmap]. repeat f_equal; lia.
Qed.

Lemma prg_nexts n seed : Z.of_nat w * (Z.of_nat n + B) < 2 ^ 64 ->
  prg_run (new_Prg w B seed mode) (replicate n Next) = Val (Elem <$> stream_elems seed 0 (Z.of_nat n)).
Proof using All.
  intros Hn. eapply run_follows; [apply new_follows| |].
  - unfold fills_small. by apply Forall_replicate.
  - pose proof (stream_nexts n seed 0 0 0) as Hs. rewrite !Z.mul_0_r in Hs. apply Hs; lia.
Qed.
End Stream.

(** An element of 16 bytes is a block. *)
Lemma stream_elem_block `{EcbCipher} mode seed i : stream_elem 16 mode seed (16 * i) = block_cipher (mode_type mode) seed i.
Proof. unfold stream_elem. change (Z.of_nat 16) with 16. rewrite <- block_stream, le_roundtrip; [done|apply block_cipher_word]. Qed.


(** A new seed does not empty the budget: the elements after [SetSeed] are those of the
    old seed, up to the end of the batch. *)
Lemma set_seed_is_late `{EcbCipher} stack s1 s2 mode :
  prg_run stack 16 16 (new_Prg 16 16 s1 mode) [Next; SeedOp s2; Next]
  = Val [Elem (block_cipher (mode_type mode) s1 0); Done; Elem (block_cipher (mode_type mode) s1 1)].
Proof.
  eapply run_follows; [..|apply new_follows|by repeat constructor|]; [done || lia..|].
  rewrite <- (stream_elem_block mode s1 0), <- (stream_elem_block mode s1 1). reflexivity.
Qed.

(** *** The generator of bits *)

Section BitStream.
Context `{EcbCipher} (stack seed : Z) (mode : PRG_MODE).
Local Abbreviation E := (block_cipher (mode_type mode) seed).

Fixpoint bits_run (n : nat) (g : PrgBool) : res (list bool) :=
  match n with
  | O => Val []
  | S n => '(g, x) ← next_bool stack 16 g; l ← bits_run n g; Val (x :: l)
  end.

(** [c] blocks are drawn, the last is [cur], [j] of its bits are consumed. *)
Definition bits_state (c cur j : Z) : PrgBool := mk_prg_bool seed c (mk_bitset [cur] 128) j mode.

Lemma one_block_test cur j : word 128 cur -> 0 <= j < 128 -> Bitset.test 128 (mk_bitset [cur] 128) j = Some (Z.testbit cur j).
Proof using Type.
  intros Hc Hj. unfold Bitset.test, Bitset.size, block_index. cbn [m_bits_number m_blocks].
  replace (j <? 128) with true by lia. rewrite Z.div_small by done. change (vget [cur] 0) with (Some cur).
  cbn [mbind option_bind]. rewrite (land_bit_mask_test 128), negb_involutive. unfold bit_index. by rewrite Z.mod_small.
Qed.

Lemma next_bool_inside c cur j : word 128 cur -> 0 <= j < 128 ->
  next_bool stack 16 (bits_state c cur j) = Val (bits_state c cur (j + 1), Z.testbit cur j).
Proof using Type.
  intros Hc Hj. unfold next_bool, bits_state, Bitset.size. cbn [bconsumed_ bbudget_ m_bits_number].
  replace (j =? 128) with false by lia. cbn [mbind res_bind bconsumed_ bbudget_]. by rewrite one_block_test.
Qed.

Lemma next_bool_refill c cur : word 128 cur -> 0 <= c < 2 ^ 64 - 1 ->
  next_bool stack 16 (bits_state c cur 128) = Val (bits_state (c + 1) (E c) 1, Z.testbit (E c) 0).
Proof using Type.
  intros Hcur Hc. unfold next_bool, GenerateBudgets_bool, bits_state, Bitset.size, subspan.
  cbn [bconsumed_ bbudget_ m_bits_number m_blocks bseed_ bcounter_ bmode_]. rewrite Z.eqb_refl, words_bytes_one, drop_0, u64_small by lia.
  rewrite take_ge by (rewrite length_le_bytes; lia).
  pose proof (vsize_le_bytes 16 cur) as Hs. change (Z.of_nat 16) with 16 in Hs.
  rewrite fill_ecb; [|by destruct mode|lia|lia|rewrite Hs; change (blocks 16) with 1; lia]. rewrite Hs. change (blocks 16) with 1.
  cbn [mbind res_bind]. rewrite <- block_stream.
  rewrite put_bytes_run by (unfold vsize; rewrite ?length_le_bytes; lia). rewrite take_0, vsize_le_bytes, drop_ge, app_nil_r
    by (rewrite length_le_bytes; lia). cbn [app access mbind res_bind].
  pose proof (block_cipher_word (mode_type mode) seed c) as Hw.
  rewrite <- words_bytes_one. unfold words_bytes. rewrite (read_array_bytes 16 [E c]).
  - rewrite u64_small by lia. cbn [access mbind res_bind bconsumed_ bbudget_]. by rewrite one_block_test by done.
  - intros i Hi. assert (i = 0) as -> by (unfold vsize in Hi; cbn in Hi; lia). exact Hw.
Qed.

(** Bit [i] after a state. *)
Definition bit_after (c cur j i : Z) : bool :=
  if j + i <? 128 then Z.testbit cur (j + i) else Z.testbit (E (c + (j + i - 128) / 128)) ((j + i) mod 128).

Lemma bits_after n : forall c cur j, word 128 cur -> 0 <= c -> 0 <= j <= 128 -> c + Z.of_nat n < 2 ^ 64 ->
  bits_run n (bits_state c cur j) = Val (bit_after c cur j <$> seqZ 0 (Z.of_nat n)).
Proof using Type.
  induction n as [|n IH]; intros c cur j Hcur Hc Hj Hn; [done|]. cbn [bits_run].
  assert (Hstep : exists c' cur' j', next_bool stack 16 (bits_state c cur j) = Val (bits_state c' cur' j', bit_after c cur j 0) /\
    word 128 cur' /\ 0 <= c' <= c + 1 /\ 0 <= j' <= 128 /\ forall i, 0 <= i -> bit_after c' cur' j' i = bit_after c cur j (i + 1)).
  { unfold bit_after. rewrite Z.add_0_r. destruct (Z.ltb_spec j 128).
    - exists c, cur, (j + 1). split; [apply next_bool_inside; [done|lia]|]. split; [done|]. split; [lia|]. split; [lia|]. intros i Hi.
      by replace (j + 1 + i) with (j + (i + 1)) by lia.
    - assert (j = 128) as -> by lia. exists (c + 1), (E c), 1. change ((128 - 128) / 128) with 0. rewrite Z.add_0_r. change (128 mod 128) with 0.
      split; [apply next_bool_refill; [done|lia]|]. split; [apply block_cipher_word|]. split; [lia|]. split; [lia|]. intros i Hi.
      destruct (Z.ltb_spec (1 + i) 128), (Z.ltb_spec (128 + (i + 1)) 128); try lia.
      + f_equal; [f_equal|]; Z.to_euclidean_division_equations; lia.
      + f_equal; [f_equal|]; Z.to_euclidean_division_equations; lia. }
  destruct Hstep as (c' & cur' & j' & -> & W & Hc' & Hj' & Hb). cbn [mbind res_bind]. rewrite IH by (done || lia). cbn [mbind res_bind].
  rewrite Nat2Z.inj_succ, (seqZ_cons 0 (Z.succ (Z.of_nat n))), Z.pred_succ by lia. cbn [fmap list_fmap]. do 2 f_equal.
  replace (seqZ (Z.succ 0) (Z.of_nat n)) with (Z.add 1 <$> seqZ 0 (Z.of_nat n)) by (by rewrite fmap_add_seqZ).
  rewrite <- list_fmap_compose. apply list_fmap_ext. intros k i Hi. apply lookup_seqZ in Hi as [-> Hi]. cbn.
  rewrite Hb by lia. f_equal. lia.
Qed.

Lemma new_PrgBool_state : new_PrgBool 16 seed mode = Val (bits_state 0 0 16).
Proof using Type. reflexivity. Qed.
End BitStream.

(** Bit [i] of the stream of [seed]. *)
Definition stream_bit `{EcbCipher} (mode : PRG_MODE) (seed i : Z) : bool :=
  Z.testbit (block_cipher (mode_type mode) seed (i / 128)) (i mod 128).

(** C21: the generator of bits. Its first 112 bits are 0, whatever the seed and the cipher: the
    budget starts with 16 of its 128 bits consumed, and nothing has been written to it; the
    following bits are those of the key stream. *)
Theorem prg_bool_bits `{EcbCipher} stack seed mode n : Z.of_nat n < 2 ^ 60 ->
  exists g, new_PrgBool 16 seed mode = Val g /\
    bits_run stack n g = Val ((fun i => if i <? 112 then false else stream_bit mode seed (i - 112)) <$> seqZ 0 (Z.of_nat n)).
Proof.
  intros Hn. exists (bits_state seed mode 0 0 16). split; [apply new_PrgBool_state|].
  rewrite bits_after by (unfold word; lia). f_equal. apply list_fmap_ext. intros k i Hi. apply lookup_seqZ in Hi as [-> Hi].
  unfold bit_after, stream_bit. rewrite Z.testbit_0_l.
  destruct (Z.ltb_spec (16 + (0 + Z.of_nat k)) 128), (Z.ltb_spec (0 + Z.of_nat k) 112); try lia.
  f_equal; [f_equal|]; Z.to_euclidean_division_equations; lia.
Qed.

(** The bits that hide the choices in the check of KOS and of SoftSpoken are the first 64
    of a new generator: the choices are extended with zeros only. *)
Lemma check_bits_are_zero `{EcbCipher} stack gen g choices final :
  new_PrgBool 16 0 kAesEcb = Val g -> bits_run stack 64 g = Val (gen <$> seqZ 0 64) ->
  wf 128 choices -> m_bits_number choices + 64 <= final ->
  ExtendChoice gen choices final = Bitset.resize 128 choices final false.
Proof.
  intros Eg Eb Wc Hf. rewrite new_PrgBool_state in Eg. injection Eg as <-. rewrite bits_after in Eb by (unfold word; lia).
  assert (Hgen : forall i, 0 <= i < 64 -> gen i = false).
  { intros i Hi. apply (f_equal (fun r : res (list bool) => match r with Val l => l !! Z.to_nat i | _ => None end)) in Eb. cbv beta iota in Eb.
    rewrite !list_lookup_fmap, !lookup_seqZ_lt in Eb by lia. rewrite Z2Nat.id, Z.add_0_l in Eb by lia. cbn in Eb. injection Eb as <-.
    unfold bit_after. replace (16 + i <? 128) with true by lia. apply Z.testbit_0_l. }
  unfold ExtendChoice, kS.
  destruct (for_up_inv (fun i b => wf 128 b /\ m_bits_number b = m_bits_number choices + i /\
    forall q, 0 <= q -> Z.testbit (value 128 b) q = Z.testbit (value 128 choices) q)
    (fun i b => Bitset.push_back 128 b (gen i)) (Z.to_nat 64) 0 choices) as (b & -> & Wb & Nb & Bb).
  - split; [done|]. split; [lia|done].
  - intros i b Hi (Wb & Nb & Bb). destruct (push_back_bits 128 b (gen i) Wb) as (b' & E & W' & N' & B'). exists b'. split; [done|].
    split; [done|]. split; [lia|]. intros q Hq. rewrite B', Hgen by lia. destruct (Z.eqb_spec q (m_bits_number b)) as [->|]; [|by apply Bb].
    rewrite <- Bb by lia. symmetry. pose proof (value_range 128 b Wb). apply (testbit_high (m_bits_number b)); [done|lia].
  - cbn [mbind option_bind]. destruct (resized_blocks b final Wb ltac:(lia)) as (b1 & -> & W1 & N1 & B1).
    destruct (resized_blocks choices final Wc ltac:(lia)) as (b2 & -> & W2 & N2 & B2). f_equal.
    apply (wf_value_inj 128); [done|done|lia|]. apply Z.bits_inj'. intros q Hq. rewrite B1, Bb, B2 by lia. done.
Qed.

(** *** Mersenne primes *)

Lemma mask_ones ty : GetMersennePrimeMask ty = 2 ^ GetMersennePrimeBitWidth ty - 1 /\ 7 <= GetMersennePrimeBitWidth ty <= 127.
Proof. by destruct ty. Qed.

Lemma land_mask ty x : Z.land x (GetMersennePrimeMask ty) = x mod 2 ^ GetMersennePrimeBitWidth ty.
Proof.
  destruct (mask_ones ty) as [-> H]. rewrite <- Z.land_ones by lia. f_equal. rewrite Z.ones_equiv. lia.
Qed.

(** The high bits added to the low ones keep the residue. *)
Lemma fold_residue p q x : q = p + 1 -> 0 < p -> (x mod q + x / q) mod p = x mod p.
Proof.
  intros -> Hp. replace (x mod (p + 1) + x / (p + 1)) with (x + (- (x / (p + 1))) * p); [by apply Z.mod_add; lia|].
  pose proof (Z.div_mod x (p + 1)). lia.
Qed.

Lemma mersenne_rounds_mod ty fuel : forall a, 0 <= a < 2 ^ 128 -> a < 2 ^ (GetMersennePrimeBitWidth ty * Z.of_nat fuel) -> (0 < fuel)%nat ->
  mersenne_rounds fuel ty a = Val (a mod GetMersennePrimeMask ty).
Proof.
  destruct (mask_ones ty) as [Hm Hw]. set (bw := GetMersennePrimeBitWidth ty) in *. set (m := GetMersennePrimeMask ty) in *.
  assert (Hq : 2 ^ 7 <= 2 ^ bw) by (apply Z.pow_le_mono_r; lia).
  induction fuel as [|fuel IH]; intros a Ha Hlt Hf; [lia|]. cbn [mersenne_rounds]. rewrite land_mask. fold bw m.
  rewrite Z.shiftr_div_pow2 by lia. pose proof (fold_residue m (2 ^ bw) a ltac:(lia) ltac:(lia)) as Hres.
  pose proof (Z.div_mod a (2 ^ bw) ltac:(lia)) as Hdm. pose proof (Z.mod_pos_bound a (2 ^ bw) ltac:(lia)). pose proof (Z.div_pos a (2 ^ bw) ltac:(lia) ltac:(lia)).
  assert (Hi : a mod 2 ^ bw + a / 2 ^ bw <= a) by nia. unfold u128. rewrite Z.mod_small by lia.
  set (i := a mod 2 ^ bw + a / 2 ^ bw) in *.
  assert (Hr : exists r, (if m <=? i then i - m else i) = r /\ 0 <= r /\ r mod m = a mod m /\ (r < m \/ r <= a / 2 ^ bw)).
  { eexists. split; [reflexivity|]. destruct (Z.leb_spec m i); [|split; [lia|]; split; [done|by left]].
    split; [lia|]. split; [|right; lia]. rewrite <- Hres. replace i with (i - m + 1 * m) at 2 by lia. by rewrite Z.mod_add by lia. }
  destruct Hr as (r & -> & Hr0 & Hrm & Hr). destruct (Z.leb_spec m r) as [Hge|Hlt'].
  - destruct Hr as [?|Hr]; [lia|]. destruct fuel as [|fuel].
    + exfalso. rewrite Z.mul_1_r in Hlt. rewrite Z.div_small in Hr by lia. lia.
    + rewrite IH, Hrm; [done|lia| |lia]. apply Z.le_lt_trans with (a / 2 ^ bw); [done|]. apply Z.div_lt_upper_bound; [lia|].
      rewrite <- Z.pow_add_r by lia. replace (bw + bw * Z.of_nat (S fuel)) with (bw * Z.of_nat (S (S fuel))) by lia. done.
  - by rewrite <- Hrm, Z.mod_small by lia.
Qed.

Definition is_byte (x : Z) : Prop := 0 <= x < 256.

Lemma le_value_range b : Forall is_byte b -> 0 <= le_value b < 256 ^ vsize b.
Proof.
  unfold vsize. induction 1 as [|x b Hx _ IH]; [cbn; lia|]. cbn [le_value length]. rewrite Nat2Z.inj_succ, Z.pow_succ_r by lia.
  unfold is_byte in Hx. lia.
Qed.

Lemma stream_is_bytes `{EcbCipher} ty key p n : Forall is_byte (stream_bytes ty key p n).
Proof. apply Forall_fmap, Forall_forall. intros i _. apply Z.mod_pos_bound. lia. Qed.

(** The residue of a buffer: all its bytes for the short types; for the long ones the
    masked first word and the 40 bits after it. *)
Definition mersenne_input (ty : MersenneType) (buf : bytes) : Z :=
  if wide ty then le_value (take (sizeof ty) buf) mod 2 ^ GetMersennePrimeBitWidth ty + le_value (drop (sizeof ty) buf) else le_value buf.

(** The short types: the rounds reach the residue. *)
Lemma mersenne_mod_short ty buf : wide ty = false -> vsize buf = required_size ty -> Forall is_byte buf ->
  MersennePrimeMod ty buf = Val (le_value buf mod GetMersennePrimeMask ty).
Proof.
  intros Hwide Hs Hb. pose proof (le_value_range buf Hb) as Hv. unfold MersennePrimeMod. unfold required_size in Hs. rewrite Hs in *.
  rewrite Z.eqb_refl. cbn [OtStore.enforce mbind res_bind].
  destruct ty; try done; rewrite mersenne_rounds_mod; try (unfold mersenne_fuel; lia);
    try (change (256 ^ Z.of_nat (sizeof U32 + kStatBytes)) with (2 ^ 72) in Hv; change (256 ^ Z.of_nat (sizeof U8 + kStatBytes)) with (2 ^ 48) in Hv; lia);
    try (apply Z.lt_trans with (2 ^ 80); [|done];
      change (256 ^ Z.of_nat (sizeof U32 + kStatBytes)) with (2 ^ 72) in Hv; change (256 ^ Z.of_nat (sizeof U8 + kStatBytes)) with (2 ^ 48) in Hv; lia).
  - cbn [OtStore.enforce mbind res_bind]. change (GetMersennePrimeMask U32) with (2 ^ 31 - 1).
    change (256 ^ Z.of_nat (sizeof U32)) with (2 ^ 32). pose proof (Z.mod_pos_bound (le_value buf) (2 ^ 31 - 1)).
    cbn [Z.leb]. by rewrite Z.mod_small by lia.
  - cbn [OtStore.enforce mbind res_bind]. change (GetMersennePrimeMask U8) with 127.
    change (256 ^ Z.of_nat (sizeof U8)) with 256. pose proof (Z.mod_pos_bound (le_value buf) 127). by rewrite Z.mod_small by lia.
Qed.

(** The long types: one round, which leaves the prime itself as it is. *)
Lemma mersenne_mod_long ty buf : wide ty = true -> vsize buf = required_size ty -> Forall is_byte buf ->
  MersennePrimeMod ty buf =
    Val (if GetMersennePrimeMask ty <? mersenne_input ty buf then mersenne_input ty buf - GetMersennePrimeMask ty else mersenne_input ty buf) /\
  0 <= mersenne_input ty buf < 2 * GetMersennePrimeMask ty.
Proof.
  intros Hwide Hs Hb. unfold MersennePrimeMod, mersenne_input. unfold required_size in Hs. rewrite Hs, Z.eqb_refl, Hwide. cbn [OtStore.enforce mbind res_bind].
  assert (Ld : vsize (drop (sizeof ty) buf) = 5) by (unfold vsize in *; rewrite length_drop; unfold kStatBytes in Hs; lia).
  pose proof (le_value_range (drop (sizeof ty) buf) (Forall_drop _ _ _ Hb)) as Hd. rewrite Ld in Hd.
  pose proof (Z.mod_pos_bound (le_value (take (sizeof ty) buf)) (2 ^ GetMersennePrimeBitWidth ty) ltac:(by destruct ty)) as Hr.
  rewrite land_mask, (take_ge (drop (sizeof ty) buf)) by (unfold vsize, kStatBytes in *; lia).
  assert (Hm : 2 ^ GetMersennePrimeBitWidth ty + 256 ^ 5 <= 256 ^ Z.of_nat (sizeof ty) /\ 2 ^ GetMersennePrimeBitWidth ty = GetMersennePrimeMask ty + 1 /\
    256 ^ 5 <= GetMersennePrimeMask ty) by (by destruct ty).
  rewrite Z.mod_small by lia. destruct ty; try done; (split; [done|lia]).
Qed.

(** The long types do not reduce the prime itself, and drop the bits of the first word
    above the mask: this buffer stands for a number whose residue is 0. *)
Lemma mersenne_long_unreduced : exists buf, le_value buf mod GetMersennePrimeMask U64 = 0 /\
  MersennePrimeMod U64 buf = Val (GetMersennePrimeMask U64).
Proof. exists (le_bytes 8 (2 ^ 61 - 1) ++ replicate 5 0). by vm_compute. Qed.

Section Fills.
Context `{EcbCipher} (stack : Z) (t : CryptoType) (seed count : Z).
Hypothesis Ht : is_ecb t = true.
Hypothesis Hcount : 0 <= count.

(** The bytes drawn for an element, and the element. *)
Definition draw_size (ty : MersenneType) : Z := if wide ty then Z.of_nat (sizeof ty) else required_size ty.
Definition mersenne_draw (ty : MersenneType) (i : Z) : Z :=
  let x := le_value (stream_bytes t seed (16 * count + draw_size ty * i) (draw_size ty)) in
  (if wide ty then x mod 2 ^ GetMersennePrimeBitWidth ty else x) mod GetMersennePrimeMask ty.

Lemma stream_part p k n i : 0 <= k -> 0 <= i < n ->
  take (Z.to_nat k) (drop (Z.to_nat (k * i)) (stream_bytes t seed p (k * n))) = stream_bytes t seed (p + k * i) k.
Proof using Type.
  clear Ht. intros Hk Hi. assert (0 <= k * i /\ k * i + k <= k * n) by nia. rewrite drop_stream by lia. by rewrite take_stream by lia.
Qed.

Lemma read_array_stream k p n : 0 <= n ->
  read_array k n (stream_bytes t seed p (Z.of_nat k * n))
  = Some ((fun i => le_value (stream_bytes t seed (p + Z.of_nat k * i) (Z.of_nat k))) <$> seqZ 0 n).
Proof using Type.
  clear Ht. intros Hn. apply mapM_Some_2, Forall2_fmap_r, Forall_Forall2_diag, list.Forall_forall. intros i Hi. apply elem_of_seqZ in Hi.
  unfold elem_at. rewrite vsize_stream by nia. replace ((0 <=? i) && _) with true by nia.
  pose proof (stream_part p (Z.of_nat k) n i ltac:(lia) Hi) as Es. rewrite Nat2Z.id in Es. by rewrite Es.
Qed.

Lemma mask_residue ty e : wide ty = true -> mersenne_mask ty e = e mod 2 ^ GetMersennePrimeBitWidth ty mod GetMersennePrimeMask ty.
Proof using Type.
  clear Ht. intros Hw. unfold mersenne_mask. rewrite land_mask. destruct (mask_ones ty) as [Hm Hb].
  assert (1 < 2 ^ GetMersennePrimeBitWidth ty) by (by destruct ty).
  pose proof (Z.mod_pos_bound e (2 ^ GetMersennePrimeBitWidth ty) ltac:(lia)).
  destruct (Z.eqb_spec (e mod 2 ^ GetMersennePrimeBitWidth ty) (GetMersennePrimeMask ty)) as [->|]; [by rewrite Z.mod_same by lia|].
  by rewrite (Z.mod_small (_ mod _) (GetMersennePrimeMask ty)) by lia.
Qed.

Lemma mersenne_fill ty iv out : vsize out * draw_size ty < 2 ^ 60 -> count + blocks (vsize out * draw_size ty) <= 2 ^ 64 ->
  FillPRandWithMersennePrime stack ty t seed iv count out
  = Val (mersenne_draw ty <$> seqZ 0 (vsize out), u64 (count + blocks (vsize out * draw_size ty))).
Proof using Ht Hcount.
  pose proof (vsize_nonneg out) as Hn. intros Hs Hle. unfold FillPRandWithMersennePrime, mersenne_draw, draw_size in *. destruct (wide ty) eqn:Hw.
  - rewrite fill_ecb; rewrite ?vsize_array, ?(Z.mul_comm (Z.of_nat (sizeof ty))); try done. cbn [mbind res_bind].
    rewrite (Z.mul_comm (vsize out) (Z.of_nat _)), read_array_stream by lia. cbn [access mbind res_bind].
    rewrite <- list_fmap_compose. do 2 f_equal. apply list_fmap_ext. intros k i _. cbn. by rewrite mask_residue.
  - assert (Hr : 0 <= required_size ty) by (unfold required_size; lia).
    assert (Hv : vsize (replicate (Z.to_nat (vsize out * required_size ty)) (stack mod 256)) = required_size ty * vsize out)
      by (rewrite vsize_replicate; nia).
    rewrite fill_ecb by (rewrite ?Hv, ?(Z.mul_comm (required_size ty)); done || lia). rewrite Hv. cbn [mbind res_bind]. unfold mersenne_parts.
    rewrite (mapM_val _ (fun i => le_value (stream_bytes t seed (16 * count + required_size ty * i) (required_size ty)) mod GetMersennePrimeMask ty)).
    + cbn [mbind res_bind]. by rewrite (Z.mul_comm (required_size ty)).
    + intros i Hi. apply elem_of_seqZ in Hi. unfold subspan.
      rewrite (Z.mul_comm i), stream_part by lia. apply mersenne_mod_short; [done|by apply vsize_stream|apply stream_is_bytes].
Qed.
End Fills.


(** *** A cipher to compute with *)

Definition toy_block (key x : Z) : Z := u128 (5 * x + key).

#[local] Instance toy_contexts : CipherContexts := {
  cipher_ctx := Z;
  CipherInit _ key _ _ := Some key;
  set_padding c _ := c;
  CipherUpdate key b := l ← read_array 16 (vsize b / 16) b; Some (key, words_bytes (toy_block key <$> l));
  CipherFinal c := Some (c, [])
}.

#[local] Program Instance toy_cipher : EcbCipher := {
  block_cipher _ key x := toy_block key x;
  ecb_ready _ key c := c = key
}.
Next Obligation. intros t k x. apply Z.mod_pos_bound. lia. Qed.
Next Obligation. intros t k iv _. by exists k. Qed.
Next Obligation. intros t k iv _. by exists k. Qed.
Next Obligation. intros t k c n Hc. exact Hc. Qed.
Next Obligation.
  intros t k c l -> Hl. exists k. split; [|done]. cbn [CipherUpdate toy_contexts].
  replace (vsize (words_bytes l) / 16) with (vsize l) by (rewrite vsize_words, Z.mul_comm, Z.div_mul; lia).
  unfold words_bytes at 1. rewrite read_array_bytes; [done|]. intros i Hi.
  rewrite Forall_lookup in Hl. apply (Hl (Z.to_nat i)). rewrite vget_nat, Z2Nat.id by lia. by apply vget_blk.
Qed.


Lemma prg_bool_bits_witness : exists g, new_PrgBool 16 9 kAesEcb = Val g /\
  bits_run 0 116 g = Val ((fun i => if i <? 112 then false else stream_bit kAesEcb 9 (i - 112)) <$> seqZ 0 116).
Proof. apply (prg_bool_bits 0 9 kAesEcb 116). done. Defined.

