(* ===== verification/OtExtensionTheorems.v ===== *)
(** IKNP and KOS as protocols: from 128 transfers both parties get the transfers of the
    receiver's choices, into spans or into stores, whatever the schedule; and what the
    consistency check of KOS accepts. *)

From Stdlib Require Import ZArith Lia ZifyBool Bool.
From stdpp Require Import base numbers list option gmap.
From S2P Require Import Prelude BitBlock BitSet BitSetFacts BitSetString ChannelKeys OtStore OtStoreFacts OtStoreTheorems.
From S2P Require Import CrHash LinkProgram Context LinkGroup TwoParty Collectives CollectivesFacts Dialogue Transpose TransposeFacts TransposeTheorems.
From S2P Require Import GaloisField GaloisTheorems Sgrr SgrrFacts SgrrTheorems Mpfss Ferret FerretFacts FerretRuns FerretTheorems OtExtension OtExtensionFacts.

Local Open Scope Z_scope.

(** *** The two protocols and their forms *)

Inductive protocol := Iknp | Kos (rnd_seed : Z) (gen : Z -> bool).
Inductive output := ToSpans (xs : list (Z * Z)) (ys : list Z) | ToStores.
Inductive outcome := Pairs (xs : list (Z * Z)) | Blocks (ys : list Z) | Sender (h : heap) (s : OtSendStore) | Receiver (h : heap) (r : OtRecvStore).

(** What the extensions need of the generator and of arrays. *)
Record outside (prg prg64 : Z -> Z -> list Z) (fresh : Z -> list Z) (a b : Z * Z) : Prop := {
  out_prg seed n : 0 <= n -> vsize (prg seed n) = n /\ forall i, 0 <= i < n -> 0 <= blk (prg seed n) i < 2 ^ 128;
  out_prg64 seed n : 0 <= n -> vsize (prg64 seed n) = n /\ Forall (word 64) (prg64 seed n);
  out_fresh n : 0 <= n -> vsize (fresh n) = n;
  out_a : TransposeSquares.pair_words a;
  out_b : TransposeSquares.pair_words b
}.

(** [n] transfers of [choices] under [delta]. *)
Definition transferred (hash : Z -> Z) (delta : Z) (choices : dynamic_bitset) (n : Z) (cot : bool) (x y : outcome) : Prop :=
  match x, y with
  | Pairs xs, Blocks ys =>
      vsize xs = n /\ vsize ys = n /\ forall q, 0 <= q < n ->
        exists u v, vget xs q = Some u /\ vget ys q = Some v /\ transfer hash delta (chosen choices q) u v
  | Sender hs s, Receiver hr r =>
      OtSend.Size s = n /\ OtRecv.Size r = n /\ (cot = true -> OtSend.GetDelta s = Val delta) /\ forall q, 0 <= q < n ->
        OtRecv.GetChoice hr r q = Val (Z.b2z (chosen choices q)) /\
        exists u v, OtSend.GetBlock hs s q 0 = Val u.1 /\ OtSend.GetBlock hs s q 1 = Val u.2 /\ OtRecv.GetBlock hr r q = Val v /\
          transfer hash delta (chosen choices q) u v
  | _, _ => False
  end.

(** The copy of the choices reads the buffers of the store only. *)
Lemma delta_of_heap h h' r loc : recv_blk_buf r = Some loc -> bit_bufs h' = bit_bufs h -> blk_bufs h' !! loc = blk_bufs h !! loc ->
  delta_of h' r = delta_of h r.
Proof.
  intros E Hb Hl. unfold delta_of, OtRecv.CopyBitBuf, deref_bit. rewrite Hb. destruct (recv_type r); [done|]. f_equal.
  destruct (access (Bitset.ctor_value 128 (OtRecv.Size r) 0)) as [out| |]; try done. cbn [mbind res_bind].
  generalize (Z.to_nat (OtRecv.Size r)) as m, 0 as i. intros m. revert out. induction m as [|m IH]; intros out i; [done|].
  cbn [OtRecv.copy_bits_loop]. unfold OtRecv.GetBlock, read_blk, deref_blk at 1 2. rewrite E. cbn. rewrite Hl.
  repeat (match goal with |- (?x ≫= _) = (?x ≫= _) => destruct x; cbn [mbind res_bind]; [|done..] end). apply IH.
Qed.

(** A store made from a list, with a delta. *)
Definition made_store (h : heap) (n d : Z) : OtSendStore := mk_send (whole (n * 2)) Normal d (Some (next_loc h)).

Lemma made_send h xs n : vsize xs = n -> 0 < n < 2 ^ 60 ->
  MakeOtSendStore h xs = Val (fst (new_blk h (xs ≫= fun x => [fst x; snd x])), made_store h n 0) /\ (forall d, OtSend.Size (made_store h n d) = n) /\
  forall d q x0 x1, 0 <= d < 2 ^ 128 -> 0 <= q < n -> vget xs q = Some (x0, x1) -> (d <> 0 -> x1 = Z.lxor x0 d) ->
    OtSend.GetBlock (fst (new_blk h (xs ≫= fun x => [fst x; snd x]))) (made_store h n d) q 0 = Val x0 /\
    OtSend.GetBlock (fst (new_blk h (xs ≫= fun x => [fst x; snd x]))) (made_store h n d) q 1 = Val x1.
Proof.
  intros Lx Hn. unfold MakeOtSendStore, new_blk. rewrite Lx, (u64_small (n * 2)) by lia.
  set (bl := xs ≫= _). assert (Hbl : vsize bl = n * 2) by (subst bl; rewrite vsize_pairs; lia). cbn [fst]. set (h1 := mk_heap _ _ _).
  destruct (make_send_whole h1 (next_loc h) bl 0 Normal (n * 2)) as [-> V0]; [by apply lookup_insert_eq|done|lia|intros _; apply Z.mod_mul; lia|].
  split; [done|]. assert (Hsz : forall d, OtSend.Size (made_store h n d) = n) by (intros; apply Z.div_mul; lia). split; [done|].
  intros d q x0 x1 Hd Hq Hx Hcot. assert (V : send_view h1 (made_store h n d) bl) by (by destruct V0 as [V1 V2 V3]; split).
  rewrite !(send_GetBlock _ _ _ V), Hsz by (done || lia || auto). replace (q <? n) with true by lia.
  unfold made_store. cbn [send_delta send_slice whole internal_use_ctr_ OtSend.ot_blk_num send_type]. unfold vget in Hx. replace (0 <=? q) with true in Hx by lia.
  unfold message_at. replace (0 + 2 * q) with (2 * q + 0) by lia. subst bl. destruct (Z.eqb_spec d 0) as [E0|E0].
  - rewrite !Z.add_0_r, <- (Z.add_0_r (2 * q)) at 1. rewrite !blk_pairs, Hx by (lia || auto). done.
  - rewrite !blk_pairs, Hx, (Hcot E0) by (lia || auto). cbn. rewrite Z.mul_0_r, Z.mul_1_r.
    unfold u128. rewrite (Z.mod_small d) by lia. by rewrite Z.lxor_0_r.
Qed.

Lemma made_recv h choices n ys : wf 128 choices -> m_bits_number choices = n -> 0 < n < 2 ^ 60 -> vsize ys = n ->
  exists h' st, MakeOtRecvStore h choices ys = Val (h', st) /\ recv_wf h' st /\ OtRecv.Size st = n /\ recv_slice st = whole n /\
    (forall loc, recv_blk_buf st = Some loc -> (loc < next_loc h')%nat) /\
    forall q, 0 <= q < n -> OtRecv.GetChoice h' st q = Val (Z.b2z (chosen choices q)) /\ OtRecv.GetBlock h' st q = Val (blk ys q).
Proof.
  intros Hw Hn Hnr Ly. unfold MakeOtRecvStore, new_bit, new_blk. unfold Bitset.size. rewrite Hn. cbn [next_loc blk_bufs bit_bufs]. set (h2 := mk_heap _ _ _).
  destruct (make_recv_whole h2 (S (next_loc h)) (Some (next_loc h)) ys choices Normal n) as [-> V]; [by apply lookup_insert_eq|done|lia| |].
  { intros _. split; [|done]. eexists. split; [done|]. by apply lookup_insert_eq. }
  cbn [mbind res_bind]. eexists _, _. split; [done|]. split; [by eexists _, _|]. split; [done|]. split; [done|]. split; [intros loc [= <-]; cbn; lia|].
  intros q Hq. rewrite (recv_GetChoice _ _ _ _ V), (recv_GetBlock _ _ _ _ V) by lia. cbn [OtRecv.Size recv_slice whole internal_use_size_ internal_use_ctr_ recv_type choice_of].
  by replace (q <? n) with true by lia.
Qed.

(** Base transfers made from lists. *)
Lemma base_made h h' choices (key : Z -> bool -> Z) : wf 128 choices -> m_bits_number choices = 128 ->
  exists hs r hr s, MakeOtRecvStore h choices ((fun k => key k (chosen choices k)) <$> seqZ 0 128) = Val (hs, r) /\
    MakeOtSendStore h' ((fun k => (key k false, key k true)) <$> seqZ 0 128) = Val (hr, s) /\
    base_ots hs r hr s (chosen choices) key /\ forall loc, recv_blk_buf r = Some loc -> (loc < next_loc hs)%nat.
Proof.
  intros Hw Hn. destruct (made_recv h choices 128 ((fun k => key k (chosen choices k)) <$> seqZ 0 128) Hw Hn) as (hs & r & E1 & W1 & S1 & I1 & L1 & B1); [lia|by rewrite vsize_seqZ|].
  destruct (made_send h' ((fun k => (key k false, key k true)) <$> seqZ 0 128) 128) as (E2 & S2 & B2); [by rewrite vsize_seqZ|lia|].
  eexists hs, r, _, _. split; [done|]. split; [exact E2|]. split; [|done]. split; try done.
  - by rewrite I1.
  - intros k Hk. by apply B1.
  - intros k Hk. destruct (B1 k Hk) as [_ ->]. by rewrite blk_seqZ.
  - intros k m Hk. destruct (B2 0 k (key k false) (key k true)) as [F0 F1]; [lia|done|by rewrite vget_seqZ|done|]. by destruct m.
Qed.

Section Programs.
Context `{WordSerializer} (rp : Z -> Z) (prg prg64 : Z -> Z -> list Z) (p : cpu) (a b : Z * Z) (fresh : Z -> list Z).
Context (hs hr : heap) (r : OtRecvStore) (s : OtSendStore) (choices : dynamic_bitset) (n : Z) (cot : bool).

Definition ote_send (m : protocol) (f : output) : LinkM outcome :=
  match f, m with
  | ToSpans xs _, Iknp => x ← IknpOtExtSend rp prg p a b fresh hs r xs cot; mret (Pairs x)
  | ToSpans xs _, Kos seed _ => x ← KosOtExtSend rp prg prg64 p a b fresh hs r seed xs cot; mret (Pairs x)
  | ToStores, Iknp => x ← IknpOtExtSend_store rp prg p a b fresh hs r n cot; mret (Sender (fst x) (snd x))
  | ToStores, Kos seed _ => x ← KosOtExtSend_store rp prg prg64 p a b fresh hs r seed n cot; mret (Sender (fst x) (snd x))
  end.

Definition ote_recv (m : protocol) (f : output) : LinkM outcome :=
  match f, m with
  | ToSpans _ ys, Iknp => y ← IknpOtExtRecv rp prg p a b fresh hr s choices ys cot; mret (Blocks y)
  | ToSpans _ ys, Kos _ gen => y ← KosOtExtRecv rp prg prg64 p a b fresh hr s gen choices ys cot; mret (Blocks y)
  | ToStores, Iknp => y ← IknpOtExtRecv_store rp prg p a b fresh hr s choices n cot; mret (Receiver (fst y) (snd y))
  | ToStores, Kos _ gen => y ← KosOtExtRecv_store rp prg prg64 p a b fresh hr s gen choices n cot; mret (Receiver (fst y) (snd y))
  end.

(** Party [rr] receives the transfers. *)
Definition ote_programs (m : protocol) (f : output) (rr : Z) (ss : list session) : list (prog (outcome * session)) :=
  imap (fun i st => (if Z.of_nat i =? rr then ote_recv m f else ote_send m f) st) ss.

(** The messages of the receiver and of the sender. *)
Definition ups (m : protocol) : N := match m with Iknp => Z.to_N ((n + 127) / 128) | Kos _ _ => Z.to_N ((n + 64 + 127) / 128) + 1 end.
Definition downs (m : protocol) : N := match m with Iknp => 0 | Kos _ _ => 1 end.

(** The seed is a word; the spans have [n] elements; the size of stores is a [uint32_t], and a store of correlated transfers has
    a delta, which is not zero. *)
Definition ote_ok (c : Z -> bool) (m : protocol) (f : output) : Prop :=
  match m with Iknp => True | Kos seed _ => 0 <= seed < 2 ^ 128 end /\
  match f with
  | ToSpans xs ys => vsize xs = n /\ vsize ys = n
  | ToStores => n < 2 ^ 32 /\ (forall loc, recv_blk_buf r = Some loc -> (loc < next_loc hs)%nat) /\ (cot = true -> exists k, 0 <= k < 128 /\ c k = true)
  end.

Context (c : Z -> bool) (key : Z -> bool -> Z) (delta : Z).
Hypothesis Hout : outside prg prg64 fresh a b.
Hypothesis Hbase : base_ots hs r hr s c key.
Hypothesis Hdelta : delta_of hs r = Val delta.
Hypothesis Wdelta : 0 <= delta < 2 ^ 128.
Hypothesis Bdelta : forall k, 0 <= k < 128 -> Z.testbit delta k = c k.
Hypothesis Hchoices : wf 128 choices.
Hypothesis Hn : m_bits_number choices = n.
Hypothesis Hnr : 0 < n < 2 ^ 60.
Context (ph : list Z) (nm : bytes) (kk rr : Z).
Hypothesis Hnd : NoDup ph.
Hypothesis Hph : vsize ph = 2.
Hypothesis Hrr : rr = 0 \/ rr = 1.

(** Both protocols into spans, as words. *)
Lemma words_run m xs ys : ote_ok c m (ToSpans xs ys) ->
  converse ph nm kk rr (ups m) (downs m)
    match m with Iknp => IknpOtExtSend rp prg p a b fresh hs r xs cot | Kos seed _ => KosOtExtSend rp prg prg64 p a b fresh hs r seed xs cot end
    match m with Iknp => IknpOtExtRecv rp prg p a b fresh hr s choices ys cot | Kos _ gen => KosOtExtRecv rp prg prg64 p a b fresh hr s gen choices ys cot end
    (transfers_below rp delta choices n cot n).
Proof using All.
  intros (Hm & Lx & Ly). destruct Hout as [O1 O2 O3 O4 O5]. destruct m as [|seed gen]; cbn [ups downs].
  - eapply (iknp_converse rp prg prg64 p a b fresh O4 O5 O3 O1); done || lia.
  - eapply (kos_converse rp prg prg64 p a b fresh O4 O5 O3 O1); done || lia.
Qed.

(** The sender's store. *)
Lemma send_store_run xs : vsize xs = n -> (forall loc, recv_blk_buf r = Some loc -> (loc < next_loc hs)%nat) -> (cot = true -> delta <> 0) ->
  exists hs' st, send_store hs r cot xs = Val (hs', st) /\ OtSend.Size st = n /\ (cot = true -> OtSend.GetDelta st = Val delta) /\
    forall q x0 x1, 0 <= q < n -> vget xs q = Some (x0, x1) -> (cot = true -> x1 = Z.lxor x0 delta) ->
      OtSend.GetBlock hs' st q 0 = Val x0 /\ OtSend.GetBlock hs' st q 1 = Val x1.
Proof using All.
  intros Lx Hloc Hd0. destruct (made_send hs xs n Lx ltac:(lia)) as (E & Sz & HB). unfold send_store. rewrite E. cbn [mbind res_bind].
  set (h1 := fst _) in *. set (d := if cot then delta else 0). exists h1, (made_store hs n d).
  assert (Hh : delta_of h1 r = delta_of hs r).
  { destruct (base_recv_wf _ _ _ _ _ _ Hbase) as (l & b0 & [(loc & E0 & L) _ _]). apply (delta_of_heap _ _ _ loc); [done|done|].
    cbn. specialize (Hloc loc E0). by rewrite lookup_insert_ne by lia. }
  split; [|split; [done|split]].
  - subst d. destruct cot; [|done]. rewrite Hh, Hdelta. cbn [mbind res_bind]. unfold OtSend.SetDelta. specialize (Hd0 eq_refl). by replace (delta =? 0) with false by lia.
  - intros Ec. unfold OtSend.GetDelta, made_store, d. cbn [send_delta]. rewrite Ec. specialize (Hd0 Ec). by replace (delta =? 0) with false by lia.
  - intros q x0 x1 Hq Hx Hcot. apply HB; [unfold d; destruct cot; lia|done|done|]. intros Hne. subst d. destruct cot; [by apply Hcot|done].
Qed.

Lemma stores_agree xs ys : transfers_below rp delta choices n cot n xs ys ->
  (forall loc, recv_blk_buf r = Some loc -> (loc < next_loc hs)%nat) -> (cot = true -> delta <> 0) ->
  exists x y, send_store hs r cot xs = Val x /\ MakeOtRecvStore hr choices ys = Val y /\
    transferred (hashed rp cot) delta choices n cot (Sender x.1 x.2) (Receiver y.1 y.2).
Proof using All.
  intros (Lx & Ly & HT) Hloc Hd0. destruct (send_store_run xs Lx Hloc Hd0) as (hs' & st & E1 & S1 & G1 & B1).
  destruct (made_recv hr choices n ys Hchoices Hn Hnr Ly) as (hr' & rt & E2 & _ & S2 & _ & _ & B2). exists (hs', st), (hr', rt). split; [done|]. split; [done|].
  split; [done|]. split; [done|]. split; [done|]. intros q Hq. cbn [fst snd]. destruct (B2 q Hq) as [C2 V2]. split; [done|].
  destruct (HT q Hq ltac:(lia)) as ([x0 x1] & v & Ex & Ev & Htr). destruct (B1 q x0 x1 Hq Ex) as [F0 F1].
  { intros ->. destruct Htr as (w & _ & Eu & _). by injection Eu as -> ->. }
  exists (x0, x1), v. split; [done|]. split; [done|]. split; [|done]. rewrite V2. unfold blk. by rewrite Ev.
Qed.

Lemma ote_run m f : ote_ok c m f ->
  converse ph nm kk rr (ups m) (downs m) (ote_send m f) (ote_recv m f) (transferred (hashed rp cot) delta choices n cot).
Proof using All.
  intros Hok. destruct f as [xs ys|].
  - pose proof (words_run m xs ys Hok) as HW. destruct m; cbn [ote_send ote_recv];
      (eapply (converse_then _ _ _ _ Hnd Hph Hrr); [exact HW|intros x y (L1 & L2 & HT); apply converse_ret; [done..|]]);
      (split; [done|]; split; [done|]; intros q Hq; apply HT; lia).
  - destruct Hok as (Hm & _ & Hloc & Hc). assert (Hd0 : cot = true -> delta <> 0).
    { intros E. destruct (Hc E) as (k & Hk & Eck). intros E0. rewrite <- Bdelta, E0, Z.bits_0 in Eck by done. done. }
    assert (HW := words_run m (replicate (Z.to_nat n) (0, 0)) (replicate (Z.to_nat n) 0) ltac:(split; [done|]; rewrite !vsize_replicate; lia)).
    destruct m; cbn [ote_send ote_recv]; unfold IknpOtExtSend_store, IknpOtExtRecv_store, KosOtExtSend_store, KosOtExtRecv_store;
      (eapply (converse_then _ _ _ _ Hnd Hph Hrr _ _ _ _ _ _ (fun x y => transferred (hashed rp cot) delta choices n cot (Sender x.1 x.2) (Receiver y.1 y.2)));
        [|intros x y HQ; by apply converse_ret]);
      (eapply (converse_then _ _ _ _ Hnd Hph Hrr); [exact HW|]; intros xs ys HT;
        destruct (stores_agree xs ys HT Hloc Hd0) as (x & y & E1 & E2 & HQ); rewrite E1, E2; by apply converse_ret).
Qed.
End Programs.

(** *** The protocols *)


(** *** What the check of KOS accepts *)

Local Abbreviation gmul64 := (gmul 64 kGfMod64).

Lemma mul64_distr_l x y z : word 64 x -> word 64 y -> word 64 z -> gmul64 (Z.lxor x y) z = Z.lxor (gmul64 x z) (gmul64 y z).
Proof.
  intros Hx Hy Hz. rewrite !(gf_comm (mul := gmul64) _ z) by (done || apply word_xor; done || lia). by apply (gf_distr (mul := gmul64)).
Qed.

Lemma lxor_inj_l x y z : Z.lxor x y = Z.lxor x z -> y = z.
Proof.
  intros E. rewrite <- (Z.lxor_0_l y), <- (Z.lxor_nilpotent x), Z.lxor_assoc, E, <- Z.lxor_assoc, Z.lxor_nilpotent. apply Z.lxor_0_l.
Qed.

(** The field has no zero divisors. *)
Lemma mul64_cancel d x y : word 64 d -> word 64 x -> word 64 y -> d <> 0 -> gmul64 d x = gmul64 d y -> x = y.
Proof.
  intros Hd Hx Hy Hne E. rewrite <- !gf64_mul_run in E by done. destruct (gf64_inverse d Hd) as [Wi Ei]. replace (d =? 0) with false in Ei by lia.
  rewrite (gf_comm (mul := Gf64Mul)) in Ei by done.
  rewrite <- (gf_one (mul := Gf64Mul) x), <- (gf_one (mul := Gf64Mul) y), <- Ei by done. by rewrite <- !(gf_assoc (mul := Gf64Mul)), E by done.
Qed.

(** Another coefficient. *)
Lemma dot_insert (chi y : list Z) j u w v : Forall (word 64) chi -> Forall (word 64) y -> word 64 w ->
  chi !! j = Some u -> y !! j = Some v -> dot gmul64 (<[j := w]> chi) y = Z.lxor (dot gmul64 chi y) (gmul64 (Z.lxor u w) v).
Proof.
  intros Hchi. revert y j. induction Hchi as [|a chi Ha Hchi IH]; intros y j Hy Hw Hu Hv; [done|]. destruct Hy as [|b y Hb Hy]; [done|].
  destruct j as [|j]; cbn in Hu, Hv.
  - injection Hu as ->. injection Hv as ->. change (<[0%nat := w]> (u :: chi)) with (w :: chi). cbn [dot]. rewrite mul64_distr_l by done. xor_ring.
  - change (<[S j := w]> (a :: chi)) with (a :: <[j := w]> chi). cbn [dot]. rewrite (IH y j) by done. xor_ring.
Qed.

Section Check.
Context (h : heap) (r : OtRecvStore) (c : Z -> bool) (chi : list Z) (B : Z) (t R : Z -> list Z).
Hypothesis Hc : forall k, 0 <= k < 128 -> OtRecv.GetChoice h r k = Val (Z.b2z (c k)).
Hypothesis Hchi : Forall (word 64) chi.
Hypothesis Lchi : vsize chi = 2 * B.
Hypothesis HtR : forall k, 0 <= k < 128 -> vsize (t k) = B /\ vsize (R k) = B.

(** The columns of the sender when the receiver used the choices [R k] for column [k]. *)
Definition sent_column (k : Z) : list Z := (fun i => Z.lxor (blk (t k) i) (choose (c k) (blk (R k) i))) <$> seqZ 0 B.
Definition check_of (l : list Z) : Z := dot gmul64 chi (halves64 l).

Lemma sent_sum k : 0 <= k < 128 -> check_of (sent_column k) = Z.lxor (check_of (t k)) (choose (c k) (check_of (R k))).
Proof using Hchi HtR.
  intros Hk. destruct (HtR k Hk) as [Lt LR]. unfold check_of, sent_column. rewrite (dot_xor_halves gmul64) by done. f_equal.
  - by rewrite <- as_seqZ.
  - destruct (c k); unfold choose; [by rewrite <- as_seqZ|apply dot_zero_halves].
Qed.

Lemma for_res_all (f : Z -> res ()) (P : Z -> Prop) (m : nat) i : (forall k, i <= k < i + Z.of_nat m -> f k = Val () <-> P k) ->
  for_res m i (fun k _ => f k) () = Val () <-> forall k, i <= k < i + Z.of_nat m -> P k.
Proof.
  revert i. induction m as [|m IH]; intros i Hf; [split; [intros _ k Hk; lia|done]|]. cbn [for_res].
  pose proof (Hf i ltac:(lia)) as [H1 H2]. specialize (IH (i + 1) ltac:(intros k Hk; apply Hf; lia)). split.
  - intros E k Hk. destruct (f i) as [[]| |] eqn:Ei; [|done..]. cbn [mbind res_bind] in E. destruct (Z.eq_dec k i) as [-> |]; [by apply H1|].
    apply IH; [done|lia].
  - intros HP. rewrite H2 by (apply HP; lia). cbn [mbind res_bind]. apply IH. intros k Hk. apply HP. lia.
Qed.

Lemma verify_iff x T Q : vsize T = 128 -> Q = (fun k => check_of (sent_column k)) <$> seqZ 0 128 ->
  verify h r (mk_check x T) Q = Val () <-> forall k, 0 <= k < 128 -> blk T k = Z.lxor (check_of (t k)) (choose (c k) (Z.lxor x (check_of (R k)))).
Proof using All.
  intros LT ->. unfold verify, kKappa. cbn [check_t check_x]. rewrite (for_res_all _ (fun k => blk T k = Z.lxor (check_of (t k)) (choose (c k) (Z.lxor x (check_of (R k)))))).
  - split; intros HP k Hk; apply HP; lia.
  - intros k Hk. rewrite Hc by lia. cbn [mbind res_bind]. rewrite (vget_blk T) by lia. rewrite vget_seqZ by lia. rewrite sent_sum by lia. cbn [access mbind res_bind].
    assert (Ee : forall e, OtStore.enforce e = Val () <-> e = true) by (intros []; by split). rewrite Ee, Z.eqb_eq. destruct (c k); cbn [Z.b2z Z.eqb choose].
    + split; intros E; [|rewrite E; xor_ring]. rewrite <- (Z.lxor_0_r (blk T k)), <- (Z.lxor_nilpotent x), <- Z.lxor_assoc, E. xor_ring.
    + by rewrite !Z.lxor_0_r.
Qed.
End Check.

(** C19: the consistency check of KOS binds the receiver. Let the receiver send messages that
    stand for the choices [R k] in column [k], one vector per column, and any check
    message [x], [T]. The sender accepts exactly when [T k] is the sum of [t k], plus
    [x] and the sum of [R k] where its secret bit [c k] is 1; so in every column whose
    sum is not [x] the receiver has guessed [c k]. Two columns that used different choices
    have equal sums for at most one value of the coefficient at which they differ, the others
    being fixed. *)
Theorem kos_check_binds h r c chi B t R x T :
  (forall k, 0 <= k < 128 -> OtRecv.GetChoice h r k = Val (Z.b2z (c k))) -> Forall (word 64) chi -> vsize chi = 2 * B ->
  (forall k, 0 <= k < 128 -> vsize (t k) = B /\ vsize (R k) = B) -> vsize T = 128 ->
  (exists Q, check_columns chi B (sent_column c B t R <$> seqZ 0 128) = Val Q /\
    (verify h r (mk_check x T) Q = Val () <->
      forall k, 0 <= k < 128 -> blk T k = Z.lxor (check_of chi (t k)) (choose (c k) (Z.lxor x (check_of chi (R k))))) /\
    (verify h r (mk_check x T) Q = Val () ->
      forall k, 0 <= k < 128 -> x <> check_of chi (R k) -> c k = negb (blk T k =? check_of chi (t k)))) /\
  forall k k' j w, 0 <= k < 128 -> 0 <= k' < 128 -> (j < length chi)%nat -> word 64 w ->
    halves64 (R k) !! j <> halves64 (R k') !! j -> check_of chi (R k) = check_of chi (R k') ->
    check_of (<[j := w]> chi) (R k) = check_of (<[j := w]> chi) (R k') -> <[j := w]> chi = chi.
Proof.
  intros Hc Hchi Lchi HtR LT. split.
  - exists ((fun k => check_of chi (sent_column c B t R k)) <$> seqZ 0 128). pose proof (verify_iff h r c chi B t R Hc Hchi Lchi HtR x T _ LT eq_refl) as HV.
    split; [|split; [exact HV|]].
    + unfold check_columns, kKappa. apply mapM_val. intros k Hk%elem_of_seqZ. rewrite vget_seqZ by lia. cbn [access mbind res_bind].
      apply check_sum_run; [done|done|]. destruct (HtR k ltac:(lia)) as [<- _]. apply vsize_seqZ, vsize_nonneg.
    + intros E k Hk Hne. rewrite (proj1 HV E k Hk). destruct (c k); cbn [choose].
      * destruct (Z.eqb_spec (Z.lxor (check_of chi (t k)) (Z.lxor x (check_of chi (R k)))) (check_of chi (t k))) as [E0|]; [|done].
        exfalso. apply Hne. apply Z.lxor_eq. apply (lxor_inj_l (check_of chi (t k))). by rewrite Z.lxor_0_r.
      * by rewrite Z.lxor_0_r, Z.eqb_refl.
  - intros k k' j w Hk Hk' Hj Hw Hne E E'. destruct (HtR k Hk) as [_ LR]. destruct (HtR k' Hk') as [_ LR'].
    assert (Lh : length (halves64 (R k)) = length chi) by (pose proof (vsize_halves (R k)); unfold vsize in *; lia).
    assert (Lh' : length (halves64 (R k')) = length chi) by (pose proof (vsize_halves (R k')); unfold vsize in *; lia).
    destruct (lookup_lt_is_Some_2 chi j Hj) as [u Hu]. destruct (lookup_lt_is_Some_2 (halves64 (R k)) j ltac:(lia)) as [v Hv].
    destruct (lookup_lt_is_Some_2 (halves64 (R k')) j ltac:(lia)) as [v' Hv']. rewrite Hv, Hv' in Hne. unfold check_of in *.
    rewrite (dot_insert _ _ j u w v), (dot_insert _ _ j u w v'), E in E' by (done || apply halves_words).
    assert (Wv : word 64 v) by (exact (proj1 (Forall_lookup _ _) (halves_words (R k)) j v Hv)).
    assert (Wv' : word 64 v') by (exact (proj1 (Forall_lookup _ _) (halves_words (R k')) j v' Hv')).
    assert (Wu : word 64 u) by (exact (proj1 (Forall_lookup _ _) Hchi j u Hu)).
    apply lxor_inj_l in E'. destruct (Z.eq_dec (Z.lxor u w) 0) as [E0|E0].
    + apply Z.lxor_eq in E0 as ->. by apply list_insert_id.
    + exfalso. apply Hne. f_equal. apply (mul64_cancel (Z.lxor u w)); try done. apply word_xor; done || lia.
Qed.

(** *** Concrete runs *)

(** The base choices 1, 0, 1, 1, 0, ..., 0 and counters as generators. *)
Definition demo_base : dynamic_bitset := mk_bitset [0xD] 128.
Definition counter (w seed n : Z) : list Z := (fun i => (seed + i) mod 2 ^ w) <$> seqZ 0 n.
Definition zeros (n : Z) : list Z := replicate (Z.to_nat n) 0.

Lemma demo_base_wf : wf 128 demo_base.
Proof.
  split; [done|done|repeat constructor; lia|]. intros p Hp. cbn in Hp. unfold bit, demo_base. cbn [m_blocks].
  assert (1 <= p / 128) by (apply Z.div_le_lower_bound; lia). unfold blk, vget. replace (0 <=? p / 128) with true by lia.
  rewrite lookup_ge_None_2 by (cbn; lia). apply Z.bits_0.
Qed.

Lemma demo_outside : outside (counter 128) (counter 64) zeros (0, 1) (2, 3).
Proof.
  split; try done.
  - intros seed n Hn. unfold counter. split; [by apply vsize_seqZ|]. intros i Hi. rewrite blk_seqZ by done. by apply Z.mod_pos_bound.
  - intros seed n Hn. unfold counter. split; [by apply vsize_seqZ|]. apply Forall_fmap, Forall_true. intros i. by apply Z.mod_pos_bound.
  - intros n Hn. unfold zeros. rewrite vsize_replicate. lia.
Qed.


(** A receiver that is honest in every column, with two coefficients. *)
Lemma kos_check_binds_witness :
  exists hs r Q, check_columns [3; 5] 1 (sent_column (chosen demo_base) 1 (fun k => [k]) (fun _ => [0x2D]) <$> seqZ 0 128) = Val Q /\
    verify hs r (mk_check (check_of [3; 5] [0x2D]) ((fun k => check_of [3; 5] [k]) <$> seqZ 0 128)) Q = Val ().
Proof.
  destruct (base_made demo_heap0 demo_heap0 demo_base (fun k m => 2 * k + Z.b2z m) demo_base_wf eq_refl) as (hs & r & hr & s & _ & _ & Hb & _).
  exists hs, r. destruct (kos_check_binds hs r (chosen demo_base) [3; 5] 1 (fun k => [k]) (fun _ => [0x2D]) (check_of [3; 5] [0x2D])
    ((fun k => check_of [3; 5] [k]) <$> seqZ 0 128)) as [(Q & E & HV & _) _].
  - apply Hb.
  - repeat constructor; lia.
  - done.
  - done.
  - by rewrite vsize_seqZ.
  - exists Q. split; [exact E|]. apply HV. intros k Hk. rewrite blk_seqZ by done. rewrite Z.lxor_nilpotent. destruct (chosen demo_base k); cbn [choose]; by rewrite Z.lxor_0_r.
Defined.

(** *** Edges *)

(** The store of correlated transfers of a sender whose base choices are all zero: [SetDelta] refuses the zero delta. *)
Lemma zero_delta_refused h r xs h1 st : MakeOtSendStore h xs = Val (h1, st) -> delta_of h1 r = Val 0 -> send_store h r true xs = Err.
Proof. intros E Ed. unfold send_store. rewrite E. cbn [mbind res_bind]. by rewrite Ed. Qed.

(** A message of IKNP that is longer than a batch is copied past the array. *)
Lemma long_message_overflows fresh buf : 16 * kBatchSize < vsize buf -> copy_message fresh buf = Bad.
Proof. intros Hl. unfold copy_message. by replace (vsize buf <=? 16 * kBatchSize) with false by lia. Qed.

(** A check message of KOS that is shorter than the message is read past its end. *)
Lemma short_check_overreads buf : vsize buf < 8 -> Unpack buf = Bad.
Proof. intros Hl. unfold Unpack, elem_at. by replace ((0 <=? 0) && (Z.of_nat 8 * (0 + 1) <=? vsize buf)) with false by lia. Qed.
