(* ===== verification/Softspoken.v ===== *)
(** The SoftSpoken extension of oblivious transfers (src/yacl/kernel/algorithms/
    softspoken_ote.h, softspoken_ote.cc): 128 base transfers become punctured trees of
    [2 ^ k] leaves, and the leaves, hashed with a counter, one vector of correlated words per
    batch; the rest is the matrix of [OtExtension], whose check message and extended
    choices this file repeats.

    Outside code is a parameter, as in [Sgrr] and [OtExtension]: the permutations [prf] and
    [rp], [blake3], the generator [prg64], the processor [p] and what arrays hold before
    they are written ([a], [b], [fresh], [fresh_bytes]); [seeds] are the random roots of the
    trees, [BaseOtRecv] and [BaseOtSend] the base transfers of an object that is used before
    its set-up, [SecureRandBits] the draws of choices. *)

From Stdlib Require Import ZArith Lia ZifyBool Bool.
From stdpp Require Import base numbers list option gmap.
From S2P Require Import Prelude BitBlock BitSet ChannelKeys OtStore CrHash LinkProgram Context TwoParty.
From S2P Require Import GaloisField Transpose Sgrr Mpfss Ferret OtExtension.

Local Open Scope Z_scope.

(** A part of an array. *)
Definition subspan (l : list Z) (pos n : Z) : option (list Z) :=
  assert! (0 <=? pos) && (0 <=? n) && (pos + n <=? vsize l); Some (take (Z.to_nat n) (drop (Z.to_nat pos) l)).

(** [absl::Span::subspan], which checks the position and cuts the length. *)
Definition absl_subspan (l : list Z) (pos n : Z) : res (list Z) :=
  OtStore.enforce (pos <=? vsize l);; Val (take (Z.to_nat n) (drop (Z.to_nat pos) l)).

(** *** Reduction of blocks of words *)

Definition XorBlock (l out : list Z) (block : Z) : res (list Z) :=
  OtStore.enforce (vsize l <=? vsize out);;
  access (for_up (length l) 0 (fun i out => x ← vget l i; vset out i (Z.lxor x block)) out).

(** The block at [i] of level [depth], in place. *)
Definition xor_group (depth i : Z) (inout : list Z) : option (list Z) :=
  let stride := Z.shiftl 1 (depth - 1) in
  inout1 ← for_up (Z.to_nat depth) 0 (fun j inout =>
    x ← vget inout (i + j); y ← vget inout (i + j + stride); vset inout (i + j) (Z.lxor x y)) inout;
  x ← vget inout1 (i + stride);
  vset inout1 (i + depth) x.

Definition xor_level (depth : Z) (inout : list Z) : option (list Z) :=
  let stride := Z.shiftl 1 (depth - 1) in
  for_up (Z.to_nat ((vsize inout + 2 * stride - 1) / (2 * stride))) 0 (fun t => xor_group depth (2 * stride * t)) inout.

(** The template and the loop. *)
Fixpoint XorReduce_template (k : nat) (inout : list Z) : option (list Z) :=
  match k with
  | O => Some inout
  | S k' => inout1 ← XorReduce_template k' inout; xor_level (Z.of_nat k) inout1
  end.

Definition XorReduce (k : Z) (inout : list Z) : res (list Z) :=
  OtStore.enforce (k <=? 64);; access (for_up (Z.to_nat k) 1 xor_level inout).

Definition XorReduceImpl (k : Z) (inout : list Z) : res (list Z) :=
  if (1 <=? k) && (k <=? 8) then access (XorReduce_template (Z.to_nat k) inout) else XorReduce k inout.

(** *** The objects *)

Record Sender := mk_sender {
  s_counter : Z;
  s_inited : bool;
  s_k : Z;
  s_pprf_num : Z;
  s_pprf_range : Z;
  s_punctured_leaves : list Z;
  s_punctured_idx : list Z;
  s_delta : Z;
  s_mask : list Z;
  s_compress : list Z;
  s_step : Z;
  s_mal : bool;
  s_compact : bool
}.

Record Receiver := mk_receiver {
  r_counter : Z;
  r_inited : bool;
  r_k : Z;
  r_pprf_num : Z;
  r_pprf_range : Z;
  r_leaves : list Z;
  r_step : Z;
  r_mal : bool;
  r_compact : bool
}.

Definition default_step (k step : Z) : Z :=
  if step =? 0 then if k <=? 2 then 64 else if k <=? 4 then 32 else 16 else step.

(** [pprf_num_], [pprf_range_] and the number of leaves; a shift by the width of its operand
    or more is undefined. *)
Definition pprf_shape (k : Z) : res (Z * Z * Z) :=
  if (k =? 0) || (64 <=? k) then Bad
  else
    let pprf_num := u64 (u64 (kKappa + k) - 1) / k in
    let pprf_range := 2 ^ k in
    let last := u64 (kKappa - u64 ((pprf_num - 1) * k)) in
    if 31 <=? last then Bad
    else
      let empty_num := u64 (pprf_range - 2 ^ last) in
      Val (pprf_num, pprf_range, u64 (u64 (pprf_num * pprf_range) - empty_num)).

(** The plan of the batches. *)
Record plan := mk_plan { expand_numOt : Z; super_batch_num : Z; batch_offset : Z; batch_num : Z; all_batch_num : Z }.

Definition ss_plan (step numOt : Z) : res plan :=
  let super_batch_size := u64 (step * kBatchSize) in
  if super_batch_size =? 0 then Bad
  else
    let expand := u64 (u64 (u64 (u64 (numOt + kS) + kBatchSize) - 1) / kBatchSize * kBatchSize) in
    let super_num := numOt / super_batch_size in
    let offset := u64 (super_num * super_batch_size) in
    let batches := u64 (u64 (u64 (expand - offset) + kBatchSize) - 1) / kBatchSize in
    let all := u64 (u64 (super_num * step) + batches) in
    OtStore.enforce (u64 (all * kBatchSize) =? expand);;
    Val (mk_plan expand super_num offset batches all).

Definition set_counter (st : Sender) (counter : Z) : Sender :=
  mk_sender counter (s_inited st) (s_k st) (s_pprf_num st) (s_pprf_range st) (s_punctured_leaves st) (s_punctured_idx st)
    (s_delta st) (s_mask st) (s_compress st) (s_step st) (s_mal st) (s_compact st).
Definition set_step (st : Sender) (step : Z) : Sender :=
  mk_sender (s_counter st) (s_inited st) (s_k st) (s_pprf_num st) (s_pprf_range st) (s_punctured_leaves st) (s_punctured_idx st)
    (s_delta st) (s_mask st) (s_compress st) step (s_mal st) (s_compact st).
Definition set_counter_r (st : Receiver) (counter : Z) : Receiver :=
  mk_receiver counter (r_inited st) (r_k st) (r_pprf_num st) (r_pprf_range st) (r_leaves st) (r_step st) (r_mal st) (r_compact st).
Definition set_step_r (st : Receiver) (step : Z) : Receiver :=
  mk_receiver (r_counter st) (r_inited st) (r_k st) (r_pprf_num st) (r_pprf_range st) (r_leaves st) step (r_mal st) (r_compact st).

Definition mask_of (c : bool) : Z := if c then 2 ^ 128 - 1 else 0.

Section Softspoken.
Context (prf : bool -> Z -> Z) (rp : Z -> Z) (blake3 : bytes -> bytes) (prg64 : Z -> Z -> list Z).
Context (p : cpu) (a b : Z * Z) (fresh : Z -> list Z) (fresh_bytes : Z -> bytes).

Definition SoftspokenOtExtSender (k step : Z) (mal compact : bool) : res Sender :=
  '(num, range, total) ← pprf_shape k;
  Val (mk_sender 0 false k num range (fresh total) (fresh num) 0 (fresh 128) (fresh (total - num)) (default_step k step) mal compact).

Definition SoftspokenOtExtReceiver (k step : Z) (mal compact : bool) : res Receiver :=
  '(num, range, total) ← pprf_shape k;
  Val (mk_receiver 0 false k num range (fresh total) (default_step k step) mal compact).

(** *** Set-up *)

Definition k_limit_at (k i : Z) : Z := Z.min k (u64 (kKappa - u64 (i * k))).

Definition corr_size (pprf_num : Z) (mal : bool) : Z := 128 * 2 * 16 + pprf_num * (if mal then 64 else 0).

(** The masks of a punctured index. *)
Definition set_masks (k k_limit i idx : Z) (mask : list Z) : option (list Z) :=
  for_up (Z.to_nat k_limit) 0 (fun j mask =>
    assert! j <? 31; vset mask (i * k + j) (mask_of (negb (Z.land idx (Z.shiftl 1 j) =? 0)))) mask.

(** The leaves but the first; the first takes the place of the punctured one. *)
Definition compress (range_limit idx : Z) (leaves c_leaves : list Z) : option (list Z * list Z) :=
  x ← vget leaves 0;
  leaves1 ← vset leaves idx x;
  c_leaves1 ← for_up (Z.to_nat (range_limit - 1)) 0 (fun j c => y ← vget leaves1 (j + 1); vset c j y) c_leaves;
  leaves2 ← vset leaves1 idx 0;
  Some (leaves2, c_leaves1).

Definition setup_tree_send (h : heap) (single_buf_size : Z) (recv_span : bytes) (i : Z) (s : OtRecvStore * Sender)
  : res (OtRecvStore * Sender) :=
  let '(dup_base_ot, st) := s in
  let k := s_k st in
  let k_limit := k_limit_at k i in
  let range_limit := 2 ^ k_limit in
  '(sub_ot, dup_base_ot) ← OtRecv.NextSlice h dup_base_ot k_limit;
  bits ← OtRecv.CopyBitBuf h sub_ot;
  idx ← access (vget (m_blocks bits) 0);
  punctured_idx ← access (vset (s_punctured_idx st) i idx);
  leaves ← access (subspan (s_punctured_leaves st) (i * s_pprf_range st) range_limit);
  cur_buf_size ← SgrrOtExtHelper range_limit (s_mal st);
  cur_recv_buf ← absl_subspan recv_span (single_buf_size * i) cur_buf_size;
  leaves ← recv_fixed_index prf rp blake3 h sub_ot range_limit leaves cur_recv_buf (s_mal st);
  mask ← access (set_masks k k_limit i idx (s_mask st));
  c_leaves ← access (subspan (s_compress st) (i * (s_pprf_range st - 1)) (range_limit - 1));
  '(leaves, c_leaves) ← access (compress range_limit idx leaves c_leaves);
  compress_leaves ← access (put_bytes (s_compress st) (i * (s_pprf_range st - 1)) c_leaves);
  punctured_leaves ← access (put_bytes (s_punctured_leaves st) (i * s_pprf_range st) leaves);
  Val (dup_base_ot, mk_sender (s_counter st) (s_inited st) k (s_pprf_num st) (s_pprf_range st) punctured_leaves punctured_idx
         (s_delta st) mask compress_leaves (s_step st) (s_mal st) (s_compact st)).

(** The copy of the store shares its buffers: the first transfer of the caller is changed. *)
Definition compact_base_recv (h : heap) (base_ot : OtRecvStore) (compact : bool) : res heap :=
  if compact then h1 ← OtRecv.SetBlock h base_ot 0 0; OtRecv.SetChoice h1 base_ot 0 true else Val h.

Definition OneTimeSetup_send (h : heap) (base_ot : OtRecvStore) (st : Sender) : LinkM (heap * Sender) :=
  if s_inited st then mret (h, st)
  else
    _ ← enforce (OtRecv.Size base_ot =? kKappa);
    h ← lift (compact_base_recv h base_ot (s_compact st));
    delta ← lift (delta_of h base_ot);
    c ← the_ctx;
    recv_buf ← Recv (NextRank c 1);
    _ ← enforce (vsize recv_buf =? corr_size (s_pprf_num st) (s_mal st));
    single_buf_size ← lift (SgrrOtExtHelper (s_pprf_range st) (s_mal st));
    s ← lift (for_res (Z.to_nat (s_pprf_num st)) 0 (setup_tree_send h single_buf_size recv_buf)
      (base_ot, mk_sender (s_counter st) (s_inited st) (s_k st) (s_pprf_num st) (s_pprf_range st) (s_punctured_leaves st)
        (s_punctured_idx st) delta (s_mask st) (s_compress st) (s_step st) (s_mal st) (s_compact st)));
    let st := s.2 in
    mret (h, mk_sender (s_counter st) true (s_k st) (s_pprf_num st) (s_pprf_range st) (s_punctured_leaves st)
      (s_punctured_idx st) (s_delta st) (s_mask st) (s_compress st) (s_step st) (s_mal st) (s_compact st)).

Definition compact_base_send (h : heap) (base_ot : OtSendStore) (compact : bool) : res heap :=
  if compact then h1 ← OtSend.SetNormalBlock h base_ot 0 0 0; OtSend.SetNormalBlock h1 base_ot 0 1 0 else Val h.

Definition setup_tree_recv (h : heap) (k pprf_range : Z) (mal : bool) (single_buf_size : Z) (seeds : Z -> Z) (i : Z)
    (s : OtSendStore * list Z * bytes) : res (OtSendStore * list Z * bytes) :=
  let '(dup_base_ot, all_leaves, send_buf) := s in
  let k_limit := k_limit_at k i in
  let range_limit := 2 ^ k_limit in
  '(sub_ot, dup_base_ot) ← OtSend.NextSlice h dup_base_ot k_limit;
  leaves ← access (subspan all_leaves (i * pprf_range) range_limit);
  cur_buf_size ← SgrrOtExtHelper range_limit mal;
  cur_send_span ← absl_subspan send_buf (i * single_buf_size) cur_buf_size;
  '(leaves, cur_send_span) ← send_fixed_index prf rp blake3 h sub_ot range_limit (seeds i) leaves cur_send_span mal;
  all_leaves ← access (put_bytes all_leaves (i * pprf_range) leaves);
  send_buf ← access (put_bytes send_buf (i * single_buf_size) cur_send_span);
  Val (dup_base_ot, all_leaves, send_buf).

Definition OneTimeSetup_recv (h : heap) (base_ot : OtSendStore) (seeds : Z -> Z) (st : Receiver) : LinkM (heap * Receiver) :=
  if r_inited st then mret (h, st)
  else
    _ ← enforce (OtSend.Size base_ot =? kKappa);
    h ← lift (compact_base_send h base_ot (r_compact st));
    single_buf_size ← lift (SgrrOtExtHelper (r_pprf_range st) (r_mal st));
    s ← lift (for_res (Z.to_nat (r_pprf_num st)) 0 (setup_tree_recv h (r_k st) (r_pprf_range st) (r_mal st) single_buf_size seeds)
      (base_ot, r_leaves st, fresh_bytes (corr_size (r_pprf_num st) (r_mal st))));
    c ← the_ctx;
    _ ← SendAsync (NextRank c 1) s.2;
    mret (h, mk_receiver (r_counter st) true (r_k st) (r_pprf_num st) (r_pprf_range st) s.1.2 (r_step st) (r_mal st) (r_compact st)).

(** *** Small-field VOLE *)

(** The hashed leaves in their places, with 0 at the punctured index. *)
Definition place_leaves (st : Sender) (hash_buff xor_buff : list Z) : option (list Z) :=
  let range := s_pprf_range st - 1 in
  for_up (Z.to_nat (s_pprf_num st)) 0 (fun i xor_buff =>
    let hash_offset := i * range in
    let xor_offset := i * s_pprf_range st in
    let limit := Z.min range (u64 (vsize hash_buff - hash_offset)) in
    xor_buff ← for_up (Z.to_nat limit) 0 (fun j xor_buff =>
      x ← vget hash_buff (hash_offset + j); vset xor_buff (xor_offset + 1 + j) x) xor_buff;
    xor_buff ← vset xor_buff xor_offset 0;
    idx ← vget (s_punctured_idx st) i;
    x ← vget xor_buff xor_offset;
    y ← vget xor_buff (xor_offset + idx);
    xor_buff ← vset xor_buff xor_offset y;
    vset xor_buff (xor_offset + idx) x) xor_buff.

(** The words of the sender. *)
Definition sender_words (st : Sender) (xor_buff u V : list Z) : option (list Z * list Z) :=
  for_up (Z.to_nat (s_pprf_num st)) 0 (fun i '(u, V) =>
    let V_offset := i * s_k st in
    let xor_offset := i * s_pprf_range st in
    x ← vget u i;
    y ← vget xor_buff xor_offset;
    let ui := Z.lxor x y in
    u ← vset u i ui;
    let k_limit := Z.min (s_k st) (u64 (kKappa - V_offset)) in
    V ← for_up (Z.to_nat k_limit) 0 (fun j V =>
      x ← vget xor_buff (xor_offset + 1 + j);
      m ← vget (s_mask st) (V_offset + j);
      vset V (V_offset + j) (Z.lxor x (Z.land ui m))) V;
    Some (u, V)) (u, V).

(** The state, [hash_buff], [xor_buff] and [V] afterwards. *)
Definition GenSfVole_send (st : Sender) (hash_buff xor_buff u V : list Z) : res (Sender * list Z * list Z * list Z) :=
  OtStore.enforce (vsize V =? 128);;
  hash_buff ← XorBlock (s_compress st) hash_buff (s_counter st);
  let st' := set_counter st (u128 (s_counter st + 1)) in
  let hash_buff := ParaCrHashInplace_128 rp hash_buff in
  xor_buff ← access (place_leaves st hash_buff xor_buff);
  xor_buff ← XorReduceImpl (s_k st) xor_buff;
  '(_, V) ← access (sender_words st xor_buff u V);
  V ← (if s_compact st then access (vset V 0 0) else Val V);
  Val (st', hash_buff, xor_buff, V).

(** The words of the receiver. *)
Definition receiver_words (st : Receiver) (choice : Z) (xor_buff u W : list Z) : option (list Z * list Z) :=
  for_up (Z.to_nat (r_pprf_num st)) 0 (fun i '(u, W) =>
    let W_offset := i * r_k st in
    let xor_offset := i * r_pprf_range st in
    y ← vget xor_buff xor_offset;
    u ← vset u i (Z.lxor choice y);
    let k_limit := Z.min (r_k st) (u64 (kKappa - W_offset)) in
    W ← for_up (Z.to_nat k_limit) 0 (fun j W => x ← vget xor_buff (xor_offset + 1 + j); vset W (W_offset + j) x) W;
    Some (u, W)) (u, W).

Definition GenSfVole_recv (st : Receiver) (choice : Z) (xor_buff u W : list Z) : res (Receiver * list Z * list Z * list Z) :=
  OtStore.enforce (vsize W =? 128);;
  head ← absl_subspan xor_buff 0 (vsize (r_leaves st));
  head ← XorBlock (r_leaves st) head (r_counter st);
  let st' := set_counter_r st (u128 (r_counter st + 1)) in
  let head := ParaCrHashInplace_128 rp head in
  xor_buff ← access (put_bytes xor_buff 0 head);
  xor_buff ← XorReduceImpl (r_k st) xor_buff;
  '(u, W) ← access (receiver_words st choice xor_buff u W);
  W ← (if r_compact st then access (vset W 0 choice) else Val W);
  Val (st', xor_buff, u, W).

(** *** The messages of a batch *)

(** What is done with the transposed matrix of a batch at [pos]: the matrix and the output
    afterwards. *)
Definition emit_pairs (delta : Z) (cot : bool) (V : list Z) (pos limit : Z) (send_blocks : list (Z * Z)) : res (list Z * list (Z * Z)) :=
  V_xor_delta ← XorBlock V (fresh 128) delta;
  let V := if cot then V else ParaCrHashInplace_128 rp V in
  let V_xor_delta := if cot then V_xor_delta else ParaCrHashInplace_128 rp V_xor_delta in
  send_blocks ← access (for_up (Z.to_nat limit) 0 (fun j out =>
    x ← vget V j; y ← vget V_xor_delta j; vset out (pos + j) (x, y)) send_blocks);
  Val (V, send_blocks).

Definition emit_compact (out : OtSendStore) (V : list Z) (pos limit : Z) (h : heap) : res (list Z * heap) :=
  h ← for_res (Z.to_nat limit) 0 (fun j h => x ← access (vget V j); OtSend.SetCompactBlock h out (pos + j) x) h;
  Val (V, h).

Definition emit_blocks (cot : bool) (W : list Z) (pos limit : Z) (recv_blocks : list Z) : res (list Z * list Z) :=
  let W := if cot then W else ParaCrHashInplace_128 rp W in
  recv_blocks ← access (for_up (Z.to_nat limit) 0 (fun j out => x ← vget W j; vset out (pos + j) x) recv_blocks);
  Val (W, recv_blocks).

Definition emit_store (out : OtRecvStore) (W : list Z) (pos limit : Z) (h : heap) : res (list Z * heap) :=
  h ← for_res (Z.to_nat limit) 0 (fun j h => x ← access (vget W j); OtRecv.SetBlock h out (pos + j) x) h;
  Val (W, h).

(** The words of batches as a message. *)
Definition read_words (buf : bytes) : option (list Z) := read_array 16 (vsize buf / 16) buf.

Section Batches.
Context {O : Type} (emit : list Z -> Z -> Z -> O -> res (list Z * O)) (numOt : Z) (pl : plan).

Record send_vars := mk_send_vars {
  sv_sender : Sender;
  sv_hash : list Z;
  sv_xor : list Z;
  sv_all : list (list Z);
  sv_V : list (list Z);
  sv_out : O
}.

(** A vector in [V[slot]], kept for the check. *)
Definition send_vole (u : list Z) (slot at_ : Z) (s : send_vars) : res send_vars :=
  V ← access (vget (sv_V s) slot);
  '(st, hash_buff, xor_buff, V) ← GenSfVole_send (sv_sender s) (sv_hash s) (sv_xor s) u V;
  VV ← access (vset (sv_V s) slot V);
  all ← (if s_mal st then access (vset (sv_all s) at_ V) else Val (sv_all s));
  Val (mk_send_vars st hash_buff xor_buff all VV (sv_out s)).

Definition send_emit (slot pos limit : Z) (s : send_vars) : res send_vars :=
  V ← access (vget (sv_V s) slot);
  V ← transposed p a b V;
  '(V, out) ← emit V pos limit (sv_out s);
  VV ← access (vset (sv_V s) slot V);
  Val (mk_send_vars (sv_sender s) (sv_hash s) (sv_xor s) (sv_all s) VV out).

Definition send_super (t : Z) (s : send_vars) : LinkM send_vars :=
  let step := s_step (sv_sender s) in
  let num := s_pprf_num (sv_sender s) in
  c ← the_ctx;
  recv_buff ← Recv (NextRank c 1);
  recv_U ← lift (access (read_words recv_buff));
  _ ← enforce (vsize recv_U =? u64 (step * num));
  lift (for_res (Z.to_nat step) 0 (fun i s =>
    u ← access (subspan recv_U (i * num) num);
    s ← send_vole u i (t * step + i) s;
    send_emit i (t * (step * kBatchSize) + i * kBatchSize) kBatchSize s) s).

Definition send_normal (t : Z) (s : send_vars) : LinkM send_vars :=
  let num := s_pprf_num (sv_sender s) in
  c ← the_ctx;
  recv_buff ← Recv (NextRank c 1);
  recv_U ← lift (access (read_words recv_buff));
  _ ← enforce (vsize recv_U =? num);
  s ← lift (send_vole recv_U t (super_batch_num pl * s_step (sv_sender s) + t) s);
  if batch_offset pl + t * kBatchSize <? numOt
  then lift (send_emit t (batch_offset pl + t * kBatchSize) (Z.min kBatchSize (numOt - batch_offset pl - t * kBatchSize)) s)
  else mret s.

(** The sums of the columns of all batches, as products before the reduction. *)
Definition column_sums (rand_samples : list Z) (all : list (list Z)) : res (list Z) :=
  for_res (Z.to_nat (all_batch_num pl)) 0 (fun i t =>
    for_res (Z.to_nat kKappa) 0 (fun k t =>
      rand ← access (subspan rand_samples (i * 2) 2);
      col ← access (vget all i);
      x ← access (vget col k);
      m ← Gf64ClMul_span rand [lane64 x 0; lane64 x 1];
      y ← access (vget t k);
      access (vset t k (Z.lxor y m))) t) (replicate (Z.to_nat kKappa) 0).

Context `{WordSerializer}.

Definition send_check (rnd_seed : Z) (s : send_vars) : LinkM () :=
  seed ← SyncSeedSend rnd_seed;
  let rand_samples := prg64 seed (u64 (all_batch_num pl * 2)) in
  t ← lift (column_sums rand_samples (sv_all s));
  let check_vals := Gf64Reduce <$> t in
  c ← the_ctx;
  buf ← Recv (NextRank c 1);
  msgs ← lift (Unpack buf);
  lift (for_res (Z.to_nat kKappa) 0 (fun k _ =>
    t ← access (vget (check_t msgs) k);
    m ← access (vget (s_mask (sv_sender s)) k);
    v ← access (vget check_vals k);
    OtStore.enforce (Z.lxor t (Z.land m (check_x msgs)) =? v)) ()).

Definition send_batches (rnd_seed : Z) (st : Sender) (out : O) : LinkM (Sender * O) :=
  s ← for_prog (Z.to_nat (super_batch_num pl)) 0 send_super
    (mk_send_vars st (fresh (vsize (s_compress st))) (replicate (Z.to_nat (s_pprf_num st * s_pprf_range st)) 0)
      (replicate (Z.to_nat (all_batch_num pl)) (fresh kKappa)) (replicate (Z.to_nat (s_step st + 1)) (fresh kKappa)) out);
  s ← for_prog (Z.to_nat (batch_num pl)) 0 send_normal s;
  _ ← (if s_mal st then send_check rnd_seed s else mret ());
  mret (sv_sender s, sv_out s).

Record recv_vars := mk_recv_vars {
  rv_receiver : Receiver;
  rv_xor : list Z;
  rv_U : list Z;
  rv_all : list (list Z);
  rv_W : list (list Z);
  rv_out : O
}.

(** A vector in [W[slot]], with the masked choices in [U] from [first]. *)
Definition recv_vole (choice_ext : dynamic_bitset) (first size slot at_ : Z) (s : recv_vars) : res recv_vars :=
  choice ← access (vget (m_blocks choice_ext) at_);
  u ← access (subspan (rv_U s) first size);
  W ← access (vget (rv_W s) slot);
  '(st, xor_buff, u, W) ← GenSfVole_recv (rv_receiver s) choice (rv_xor s) u W;
  U ← access (put_bytes (rv_U s) first u);
  WW ← access (vset (rv_W s) slot W);
  all ← (if r_mal st then access (vset (rv_all s) at_ W) else Val (rv_all s));
  Val (mk_recv_vars st xor_buff U all WW (rv_out s)).

Definition recv_emit (slot pos limit : Z) (s : recv_vars) : res recv_vars :=
  W ← access (vget (rv_W s) slot);
  W ← transposed p a b W;
  '(W, out) ← emit W pos limit (rv_out s);
  WW ← access (vset (rv_W s) slot W);
  Val (mk_recv_vars (rv_receiver s) (rv_xor s) (rv_U s) (rv_all s) WW out).

Definition recv_super (choice_ext : dynamic_bitset) (t : Z) (s : recv_vars) : LinkM recv_vars :=
  let step := r_step (rv_receiver s) in
  let num := r_pprf_num (rv_receiver s) in
  s ← lift (for_res (Z.to_nat step) 0 (fun i s => recv_vole choice_ext (i * num) num i (t * step + i) s) s);
  c ← the_ctx;
  _ ← SendAsync (NextRank c 1) (words_bytes (rv_U s));
  lift (for_res (Z.to_nat step) 0 (fun i s => recv_emit i (t * (step * kBatchSize) + i * kBatchSize) kBatchSize s) s).

Definition recv_normal (choice_ext : dynamic_bitset) (t : Z) (s : recv_vars) : LinkM recv_vars :=
  let num := r_pprf_num (rv_receiver s) in
  s ← lift (recv_vole choice_ext 0 (vsize (rv_U s)) t (super_batch_num pl * r_step (rv_receiver s) + t) s);
  c ← the_ctx;
  _ ← SendAsync (NextRank c 1) (words_bytes (take (Z.to_nat num) (rv_U s)));
  if batch_offset pl + t * kBatchSize <? numOt
  then lift (recv_emit t (batch_offset pl + t * kBatchSize) (Z.min kBatchSize (numOt - batch_offset pl - t * kBatchSize)) s)
  else mret s.

Definition recv_check (choice_ext : dynamic_bitset) (s : recv_vars) : LinkM () :=
  seed ← SyncSeedRecv;
  let rand_samples := prg64 seed (u64 (all_batch_num pl * 2)) in
  choice_span ← lift (span64 (m_blocks choice_ext) (all_batch_num pl * 2));
  x ← lift (Gf64ClMul_span rand_samples choice_span);
  t ← lift (column_sums rand_samples (rv_all s));
  c ← the_ctx;
  _ ← SendAsync (NextRank c 1) (Pack (mk_check (Gf64Reduce x) (Gf64Reduce <$> t)));
  mret ().

Definition recv_batches (choice_ext : dynamic_bitset) (st : Receiver) (out : O) : LinkM (Receiver * O) :=
  s ← for_prog (Z.to_nat (super_batch_num pl)) 0 (recv_super choice_ext)
    (mk_recv_vars st (replicate (Z.to_nat (r_pprf_num st * r_pprf_range st)) 0) (fresh (r_pprf_num st * r_step st))
      (replicate (Z.to_nat (all_batch_num pl)) (fresh kKappa)) (replicate (Z.to_nat (r_step st + 1)) (fresh kKappa)) out);
  s ← for_prog (Z.to_nat (batch_num pl)) 0 (recv_normal choice_ext) s;
  _ ← (if r_mal st then recv_check choice_ext s else mret ());
  mret (rv_receiver s, rv_out s).
End Batches.

(** *** Sending and receiving *)

Context `{WordSerializer}.
Context (BaseOtRecv : heap -> dynamic_bitset -> Z -> LinkM (heap * OtRecvStore)) (BaseOtSend : heap -> Z -> LinkM (heap * OtSendStore)).
Context (base_choices : dynamic_bitset) (seeds : Z -> Z) (rnd_seed : Z) (gen : Z -> bool).

(** Set-up at the first use, with base transfers of its own. *)
Definition ready_send (h : heap) (st : Sender) : LinkM (heap * Sender) :=
  if s_inited st then mret (h, st)
  else '(h, base_ot) ← BaseOtRecv h base_choices kKappa; OneTimeSetup_send h base_ot st.

Definition ready_recv (h : heap) (st : Receiver) : LinkM (heap * Receiver) :=
  if r_inited st then mret (h, st)
  else '(h, base_ot) ← BaseOtSend h kKappa; OneTimeSetup_recv h base_ot seeds st.

Definition Send_span (h : heap) (st : Sender) (send_blocks : list (Z * Z)) (cot : bool) : LinkM (heap * Sender * list (Z * Z)) :=
  '(h, st) ← ready_send h st;
  pl ← lift (ss_plan (s_step st) (vsize send_blocks));
  '(st, out) ← send_batches (emit_pairs (s_delta st) cot) (vsize send_blocks) pl rnd_seed st send_blocks;
  mret (h, st, out).

Definition Send_store (h : heap) (st : Sender) (out : OtSendStore) : LinkM (heap * Sender * OtSendStore) :=
  _ ← enforce (bool_decide (send_type out = Compact));
  '(h, st) ← ready_send h st;
  pl ← lift (ss_plan (s_step st) (OtSend.Size out));
  out ← lift (OtSend.SetDelta out (s_delta st));
  '(st, h) ← send_batches (emit_compact out) (OtSend.Size out) pl rnd_seed st h;
  mret (h, st, out).

Definition Recv_store (h : heap) (st : Receiver) (choices : dynamic_bitset) (out : OtRecvStore) : LinkM (heap * Receiver) :=
  _ ← enforce (bool_decide (recv_type out = Compact));
  '(h, st) ← ready_recv h st;
  _ ← enforce (Bitset.size choices =? OtRecv.Size out);
  pl ← lift (ss_plan (r_step st) (OtRecv.Size out));
  choice_ext ← lift (access (ExtendChoice gen choices (expand_numOt pl)));
  '(st, h) ← recv_batches (emit_store out) (OtRecv.Size out) pl choice_ext st h;
  mret (h, st).

Definition Recv_span (h : heap) (st : Receiver) (choices : dynamic_bitset) (recv_blocks : list Z) (cot : bool)
  : LinkM (heap * Receiver * list Z) :=
  '(h, st) ← ready_recv h st;
  _ ← enforce (Bitset.size choices =? vsize recv_blocks);
  pl ← lift (ss_plan (r_step st) (vsize recv_blocks));
  choice_ext ← lift (access (ExtendChoice gen choices (expand_numOt pl)));
  '(st, out) ← recv_batches (emit_blocks cot) (vsize recv_blocks) pl choice_ext st recv_blocks;
  mret (h, st, out).

(** *** Stores of transfers *)

(** Random transfers, copied into a store. *)
Definition GenRot_send (h : heap) (st : Sender) (num_ot : Z) (out : OtSendStore) : LinkM (heap * Sender) :=
  _ ← enforce (OtSend.Size out =? num_ot);
  _ ← enforce (bool_decide (send_type out = Normal));
  '(h, st, send_blocks) ← Send_span h st (replicate (Z.to_nat num_ot) (0, 0)) false;
  h ← lift (for_res (Z.to_nat num_ot) 0 (fun i h =>
    x ← access (vget send_blocks i);
    h ← OtSend.SetNormalBlock h out i 0 x.1;
    OtSend.SetNormalBlock h out i 1 x.2) h);
  mret (h, st).

Definition GenCot_send (h : heap) (st : Sender) (num_ot : Z) (out : OtSendStore) : LinkM (heap * Sender * OtSendStore) :=
  _ ← enforce (OtSend.Size out =? num_ot);
  _ ← enforce (bool_decide (send_type out = Compact));
  '(h, st, send_blocks) ← Send_span h st (replicate (Z.to_nat num_ot) (0, 0)) true;
  out ← lift (OtSend.SetDelta out (s_delta st));
  h ← lift (for_res (Z.to_nat num_ot) 0 (fun i h =>
    x ← access (vget send_blocks i); OtSend.SetCompactBlock h out i x.1) h);
  mret (h, st, out).

Definition GenRot_send_new (h : heap) (st : Sender) (num_ot : Z) : LinkM (heap * Sender * OtSendStore) :=
  '(h, out) ← lift (OtSend.make_empty h num_ot Normal);
  '(h, st) ← GenRot_send h st num_ot out;
  mret (h, st, out).

Definition GenCot_send_new (h : heap) (st : Sender) (num_ot : Z) : LinkM (heap * Sender * OtSendStore) :=
  '(h, out) ← lift (OtSend.make_empty h num_ot Compact);
  GenCot_send h st num_ot out.

(** Blocks and, unless the store is compact, choices. *)
Definition fill_recv (with_choices : bool) (num_ot : Z) (choices : dynamic_bitset) (out : OtRecvStore) (recv_blocks : list Z) (h : heap) : res heap :=
  for_res (Z.to_nat num_ot) 0 (fun i h =>
    x ← access (vget recv_blocks i);
    h ← OtRecv.SetBlock h out i x;
    if with_choices then c ← choice_at choices i; OtRecv.SetChoice h out i c else Val h) h.

Definition GenRot_recv (h : heap) (st : Receiver) (choices : dynamic_bitset) (out : OtRecvStore) : LinkM (heap * Receiver) :=
  let num_ot := Bitset.size choices in
  _ ← enforce (OtRecv.Size out =? num_ot);
  _ ← enforce (bool_decide (recv_type out = Normal));
  '(h, st, recv_blocks) ← Recv_span h st choices (replicate (Z.to_nat num_ot) 0) false;
  h ← lift (fill_recv true num_ot choices out recv_blocks h);
  mret (h, st).

Definition GenCot_recv (h : heap) (st : Receiver) (choices : dynamic_bitset) (out : OtRecvStore) : LinkM (heap * Receiver) :=
  let num_ot := Bitset.size choices in
  _ ← enforce (OtRecv.Size out =? num_ot);
  _ ← enforce (bool_decide (recv_type out = if r_compact st then Compact else Normal));
  '(h, st, recv_blocks) ← Recv_span h st choices (replicate (Z.to_nat num_ot) 0) true;
  h ← lift (fill_recv (negb (r_compact st)) num_ot choices out recv_blocks h);
  mret (h, st).

Definition GenRot_recv_new (h : heap) (st : Receiver) (choices : dynamic_bitset) : LinkM (heap * Receiver * OtRecvStore) :=
  '(h, out) ← lift (OtRecv.make_empty h (Bitset.size choices) Normal);
  '(h, st) ← GenRot_recv h st choices out;
  mret (h, st, out).

Definition GenCot_recv_new (h : heap) (st : Receiver) (choices : dynamic_bitset) : LinkM (heap * Receiver * OtRecvStore) :=
  '(h, out) ← lift (OtRecv.make_empty h (Bitset.size choices) Normal);
  '(h, out) ← lift (if r_compact st then OtRecv.make_empty h (Bitset.size choices) Compact else Val (h, out));
  '(h, st) ← GenCot_recv h st choices out;
  mret (h, st, out).

(** The forms that draw the choices. *)
Context (SecureRandBits : Z -> dynamic_bitset).

Definition GenRot_recv_rand (h : heap) (st : Receiver) (num_ot : Z) (out : OtRecvStore) : LinkM (heap * Receiver) :=
  _ ← enforce (OtRecv.Size out =? num_ot);
  _ ← enforce (bool_decide (recv_type out = Normal));
  let choices := SecureRandBits num_ot in
  '(h, st, recv_blocks) ← Recv_span h st choices (replicate (Z.to_nat num_ot) 0) false;
  h ← lift (fill_recv true num_ot choices out recv_blocks h);
  mret (h, st).

Definition GenCot_recv_rand (h : heap) (st : Receiver) (num_ot : Z) (out : OtRecvStore) : LinkM (heap * Receiver) :=
  GenCot_recv h st (SecureRandBits num_ot) out.

Definition GenRot_recv_rand_new (h : heap) (st : Receiver) (num_ot : Z) : LinkM (heap * Receiver * OtRecvStore) :=
  '(h, out) ← lift (OtRecv.make_empty h num_ot Normal);
  '(h, st) ← GenRot_recv_rand h st num_ot out;
  mret (h, st, out).

Definition GenCot_recv_rand_new (h : heap) (st : Receiver) (num_ot : Z) : LinkM (heap * Receiver * OtRecvStore) :=
  '(h, out) ← lift (OtRecv.make_empty h num_ot Normal);
  '(h, out) ← lift (if r_compact st then OtRecv.make_empty h num_ot Compact else Val (h, out));
  '(h, st) ← GenCot_recv_rand h st num_ot out;
  mret (h, st, out).

(** *** The interface *)

Definition SoftspokenOtExtSend (h : heap) (base_ot : OtRecvStore) (out : OtSendStore) (k step : Z) (mal : bool)
  : LinkM (heap * Sender * OtSendStore) :=
  st ← lift (SoftspokenOtExtSender k step mal (bool_decide (send_type out = Compact)));
  '(h, st) ← OneTimeSetup_send h base_ot st;
  Send_store h st out.

Definition SoftspokenOtExtRecv (h : heap) (base_ot : OtSendStore) (choices : dynamic_bitset) (out : OtRecvStore) (k step : Z) (mal : bool)
  : LinkM (heap * Receiver) :=
  st ← lift (SoftspokenOtExtReceiver k step mal (bool_decide (recv_type out = Compact)));
  '(h, st) ← OneTimeSetup_recv h base_ot seeds st;
  Recv_store h st choices out.

Definition SoftspokenOtExtSend_span (h : heap) (base_ot : OtRecvStore) (send_blocks : list (Z * Z)) (k : Z) (cot mal compact : bool)
  : LinkM (heap * Sender * list (Z * Z)) :=
  st ← lift (SoftspokenOtExtSender k 0 mal compact);
  '(h, st) ← OneTimeSetup_send h base_ot st;
  Send_span h st send_blocks cot.

Definition SoftspokenOtExtRecv_span (h : heap) (base_ot : OtSendStore) (choices : dynamic_bitset) (recv_blocks : list Z) (k : Z)
    (cot mal compact : bool) : LinkM (heap * Receiver * list Z) :=
  st ← lift (SoftspokenOtExtReceiver k 0 mal compact);
  '(h, st) ← OneTimeSetup_recv h base_ot seeds st;
  Recv_span h st choices recv_blocks cot.
End Softspoken.
