(* ===== verification/SoftspokenFacts.v ===== *)
(** SoftSpoken, step by step: the reduction of blocks of words, the words of a batch on both
    sides, the punctured trees of the set-up, and the batches under [converse]. *)

From Stdlib Require Import ZArith Lia ZifyBool Bool.
From stdpp Require Import base numbers list option gmap.
From S2P Require Import Prelude BitBlock BitSet BitSetFacts BitSetOps BitSetGrow BitSetString ChannelKeys OtStore OtStoreFacts OtStoreTheorems.
From S2P Require Import CrHash LinkProgram Context LinkGroup TwoParty Dialogue Transpose TransposeFacts TransposeSquares TransposeTheorems.
From S2P Require Import GaloisField GaloisTheorems Sgrr SgrrFacts SgrrTheorems SgrrFixed Mpfss Ferret FerretRuns OtExtension OtExtensionFacts Softspoken.

Local Open Scope Z_scope.

(** *** Sums of words *)

Fixpoint xsum (f : Z -> Z) (n : nat) : Z := match n with O => 0 | S n' => Z.lxor (xsum f n') (f (Z.of_nat n')) end.

Lemma xsum_ext f g n : (forall x, 0 <= x < Z.of_nat n -> f x = g x) -> xsum f n = xsum g n.
Proof. induction n as [|n IH]; intros H; [done|]. cbn [xsum]. rewrite IH, H by (lia || intros; apply H; lia). done. Qed.

Lemma xsum_app f n m : xsum f (n + m) = Z.lxor (xsum f n) (xsum (fun x => f (Z.of_nat n + x)) m).
Proof.
  induction m as [|m IH]; [by rewrite Nat.add_0_r, Z.lxor_0_r|]. rewrite Nat.add_succ_r. cbn [xsum]. rewrite IH, Z.lxor_assoc. do 2 f_equal. f_equal. lia.
Qed.

Lemma xsum_xor f g n : xsum (fun x => Z.lxor (f x) (g x)) n = Z.lxor (xsum f n) (xsum g n).
Proof. induction n as [|n IH]; [done|]. cbn [xsum]. rewrite IH. xor_ring. Qed.

Lemma xsum_zero n : xsum (fun _ => 0) n = 0.
Proof. induction n as [|n IH]; [done|]. cbn [xsum]. by rewrite IH. Qed.

(** One summand. *)
Lemma xsum_single f n i : 0 <= i < Z.of_nat n -> xsum (fun x => if x =? i then f x else 0) n = f i.
Proof.
  induction n as [|n IH]; intros Hi; [lia|]. cbn [xsum]. destruct (Z.eqb_spec (Z.of_nat n) i) as [E|E].
  - rewrite (xsum_ext _ (fun _ => 0)), xsum_zero; [by rewrite E|]. intros x Hx. by replace (x =? i) with false by lia.
  - rewrite IH by lia. apply Z.lxor_0_r.
Qed.

Lemma xsum_word f n : (forall x, 0 <= x < Z.of_nat n -> 0 <= f x < 2 ^ 128) -> 0 <= xsum f n < 2 ^ 128.
Proof. induction n as [|n IH]; intros H; [done|]. cbn [xsum]. apply xor_word128; [apply IH; intros; apply H; lia|apply H; lia]. Qed.

Definition pow2n (d : nat) : nat := Z.to_nat (2 ^ Z.of_nat d).
Lemma pow2n_val d : Z.of_nat (pow2n d) = 2 ^ Z.of_nat d.
Proof. unfold pow2n. rewrite Z2Nat.id; [done|]. apply Z.pow_nonneg. lia. Qed.
Lemma pow2n_succ d : pow2n (S d) = (pow2n d + pow2n d)%nat.
Proof. apply Nat2Z.inj. rewrite Nat2Z.inj_add, !pow2n_val, Nat2Z.inj_succ, Z.pow_succ_r by lia. lia. Qed.
Lemma pow2_grows d : Z.of_nat d + 1 <= 2 ^ Z.of_nat d.
Proof. induction d as [|d IH]; [done|]. rewrite Nat2Z.inj_succ, Z.pow_succ_r by lia. lia. Qed.

(** *** The reduction *)

(** What a level makes of a word. *)
Definition level_word (d : nat) (v : list Z) (q : Z) : Z :=
  let i := q / 2 ^ Z.of_nat (S d) * 2 ^ Z.of_nat (S d) in
  if q - i <? Z.of_nat (S d) then Z.lxor (blk v q) (blk v (q + 2 ^ Z.of_nat d))
  else if q - i =? Z.of_nat (S d) then blk v (i + 2 ^ Z.of_nat d) else blk v q.

(** A loop that writes [g k] at [base + k], by words. *)
Lemma copy_words (g : Z -> Z) n base step l : 0 <= base -> 0 <= n -> base + n <= vsize l ->
  (forall k l', 0 <= k < n -> vsize l' = vsize l -> (forall q, blk l' q = if (base <=? q) && (q <? base + k) then g (q - base) else blk l q) ->
    step k l' = vset l' (base + k) (g k)) ->
  exists l', for_up (Z.to_nat n) 0 step l = Some l' /\ vsize l' = vsize l /\
    forall q, blk l' q = if (base <=? q) && (q <? base + n) then g (q - base) else blk l q.
Proof.
  intros Hb Hn Hl Hstep.
  destruct (for_up_inv (fun k l' => vsize l' = vsize l /\
    forall q, blk l' q = if (base <=? q) && (q <? base + k) then g (q - base) else blk l q) step (Z.to_nat n) 0 l) as (l' & E & L & B).
  - split; [done|]. intros q. by replace ((base <=? q) && (q <? base + 0)) with false by lia.
  - intros k l1 Hk [L1 B1]. rewrite Hstep by (done || lia). rewrite vset_Some by lia. eexists. split; [reflexivity|].
    split; [by rewrite vsize_insert|]. intros q. destruct (Z.eqb_spec q (base + k)) as [-> | Hne].
    + rewrite blk_insert by lia. rewrite Z.eqb_refl. replace ((base <=? base + k) && (base + k <? base + (k + 1))) with true by lia. f_equal. lia.
    + rewrite blk_insert by lia. replace (q =? base + k) with false by lia. rewrite B1. by replace (q <? base + (k + 1)) with (q <? base + k) by lia.
  - exists l'. split; [done|]. split; [done|]. intros q. rewrite B. by replace (0 + Z.of_nat (Z.to_nat n)) with n by lia.
Qed.

Lemma xor_group_run (d : nat) i v : 0 <= i -> i + 2 ^ Z.of_nat (S d) <= vsize v ->
  exists v', xor_group (Z.of_nat (S d)) i v = Some v' /\ vsize v' = vsize v /\
    forall q, blk v' q = if (i <=? q) && (q <? i + Z.of_nat (S d)) then Z.lxor (blk v q) (blk v (q + 2 ^ Z.of_nat d))
      else if q =? i + Z.of_nat (S d) then blk v (i + 2 ^ Z.of_nat d) else blk v q.
Proof.
  intros Hi Hv. pose proof (pow2_grows d) as Hd. pose proof (pow2_grows (S d)) as Hd'. rewrite (Nat2Z.inj_succ d), Z.pow_succ_r in Hv by lia.
  unfold xor_group. replace (Z.of_nat (S d) - 1) with (Z.of_nat d) by lia. rewrite Z.shiftl_1_l. set (S2 := 2 ^ Z.of_nat d) in *.
  match goal with |- exists v', mbind _ (for_up _ _ ?f _) = _ /\ _ =>
    destruct (copy_words (fun j => Z.lxor (blk v (i + j)) (blk v (i + j + S2))) (Z.of_nat (S d)) i f v) as (v1 & E1 & L1 & B1) end; [lia|lia|lia| |].
  { intros j l' Hj L' B'. rewrite !vget_blk by lia. cbn [mbind option_bind]. rewrite !B'.
    replace ((i <=? i + j) && (i + j <? i + j)) with false by lia. by replace ((i <=? i + j + S2) && (i + j + S2 <? i + j)) with false by lia. }
  rewrite E1. cbn [mbind option_bind]. rewrite vget_blk by lia. cbn [mbind option_bind]. rewrite vset_Some by lia. eexists. split; [reflexivity|].
  split; [by rewrite vsize_insert|]. intros q. rewrite blk_insert by lia. rewrite !B1.
  replace ((i <=? i + S2) && (i + S2 <? i + Z.of_nat (S d))) with false by lia.
  destruct (Z.eqb_spec q (i + Z.of_nat (S d))) as [-> | Hne].
  - by replace ((i <=? i + Z.of_nat (S d)) && (i + Z.of_nat (S d) <? i + Z.of_nat (S d))) with false by lia.
  - replace (i + (q - i)) with q by lia. done.
Qed.

Lemma level_words d i q v : 0 <= i -> i mod 2 ^ Z.of_nat (S d) = 0 -> i <= q < i + 2 ^ Z.of_nat (S d) ->
  level_word d v q = if q <? i + Z.of_nat (S d) then Z.lxor (blk v q) (blk v (q + 2 ^ Z.of_nat d))
    else if q =? i + Z.of_nat (S d) then blk v (i + 2 ^ Z.of_nat d) else blk v q.
Proof.
  intros Hi Hm Hq. unfold level_word. set (G := 2 ^ Z.of_nat (S d)) in *. apply Z.mod_divide in Hm as [g ->]; [|lia].
  replace (q / G) with g by (apply (Z.div_unique q G g (q - g * G)); lia).
  replace (q - g * G <? Z.of_nat (S d)) with (q <? g * G + Z.of_nat (S d)) by lia.
  by replace (q - g * G =? Z.of_nat (S d)) with (q =? g * G + Z.of_nat (S d)) by lia.
Qed.

Lemma xor_level_run (d : nat) v : vsize v mod 2 ^ Z.of_nat (S d) = 0 ->
  exists v', xor_level (Z.of_nat (S d)) v = Some v' /\ vsize v' = vsize v /\ forall q, 0 <= q < vsize v -> blk v' q = level_word d v q.
Proof.
  intros Hm. pose proof (pow2_grows (S d)) as Hd. pose proof (pow2_grows d) as Hd0. unfold xor_level. replace (Z.of_nat (S d) - 1) with (Z.of_nat d) by lia. rewrite Z.shiftl_1_l.
  replace (2 * 2 ^ Z.of_nat d) with (2 ^ Z.of_nat (S d)) by (rewrite (Nat2Z.inj_succ d), Z.pow_succ_r by lia; lia).
  set (G := 2 ^ Z.of_nat (S d)) in *. apply Z.mod_divide in Hm as [g Hg]; [|lia]. pose proof (vsize_nonneg v) as Hv. assert (Hg0 : 0 <= g) by nia.
  replace ((vsize v + G - 1) / G) with g by (apply (Z.div_unique _ _ _ (G - 1)); lia).
  match goal with |- exists v', for_up _ _ ?f _ = _ /\ _ =>
    destruct (for_up_inv (fun t v' => vsize v' = vsize v /\ forall q, 0 <= q < vsize v -> blk v' q = if q <? G * t then level_word d v q else blk v q)
      f (Z.to_nat g) 0 v) as (v' & E & L & B) end.
  - split; [done|]. intros q Hq. by replace (q <? G * 0) with false by lia.
  - intros t v1 Ht [L1 B1]. assert (Hb : 0 <= G * t /\ G * t + G <= vsize v) by nia.
    destruct (xor_group_run d (G * t) v1) as (v2 & E2 & L2 & B2); [lia|fold G; lia|]. exists v2. split; [exact E2|]. split; [lia|]. intros q Hq.
    assert (Hlo : forall x, G * t <= x < vsize v -> blk v1 x = blk v x) by (intros x Hx; rewrite B1 by lia; by replace (x <? G * t) with false by lia).
    rewrite B2. destruct (Z.lt_ge_cases q (G * t)) as [Hlt|Hge].
    + replace ((G * t <=? q) && (q <? G * t + Z.of_nat (S d))) with false by lia. replace (q =? G * t + Z.of_nat (S d)) with false by lia.
      rewrite B1 by lia. replace (q <? G * t) with true by lia. by replace (q <? G * (t + 1)) with true by lia.
    + assert (HG : G = 2 * 2 ^ Z.of_nat d) by (unfold G; rewrite (Nat2Z.inj_succ d), Z.pow_succ_r by lia; lia).
      destruct (Z.lt_ge_cases q (G * t + G)) as [Hin|Hout].
      * replace (q <? G * (t + 1)) with true by lia. rewrite (level_words d (G * t)) by (fold G; done || lia || (rewrite Z.mul_comm; apply Z.mod_mul; lia)).
        replace (G * t <=? q) with true by lia. cbn [andb]. destruct (Z.ltb_spec q (G * t + Z.of_nat (S d))); [by rewrite !Hlo by lia|].
        destruct (Z.eqb_spec q (G * t + Z.of_nat (S d))); by rewrite Hlo by lia.
      * replace (q <? G * (t + 1)) with false by lia. replace (q <? G * t + Z.of_nat (S d)) with false by lia.
        rewrite andb_false_r. replace (q =? G * t + Z.of_nat (S d)) with false by lia. apply Hlo. lia.
  - exists v'. split; [exact E|]. split; [done|]. intros q Hq. rewrite B by done. by replace (q <? G * (0 + Z.of_nat (Z.to_nat g))) with true by nia.
Qed.

(** The sums of the blocks of [2 ^ d] words: all words, and the words whose index has bit [j]. *)
Definition group_sum (d : nat) (v : list Z) (i : Z) : Z := xsum (fun x => blk v (i + x)) (pow2n d).
Definition bit_sum (d : nat) (v : list Z) (i j : Z) : Z := xsum (fun x => choose (Z.testbit x j) (blk v (i + x))) (pow2n d).

Definition reduced (d : nat) (v v' : list Z) : Prop :=
  vsize v' = vsize v /\ forall i, 0 <= i -> i mod 2 ^ Z.of_nat d = 0 -> i + 2 ^ Z.of_nat d <= vsize v ->
    blk v' i = group_sum d v i /\ forall j, 0 <= j < Z.of_nat d -> blk v' (i + 1 + j) = bit_sum d v i j.

Lemma group_sum_double d v i : group_sum (S d) v i = Z.lxor (group_sum d v i) (group_sum d v (i + 2 ^ Z.of_nat d)).
Proof.
  unfold group_sum. rewrite pow2n_succ, xsum_app. f_equal. apply xsum_ext. intros x Hx. f_equal. rewrite pow2n_val. lia.
Qed.

Lemma testbit_upper d x j : 0 <= x < 2 ^ Z.of_nat d -> 0 <= j ->
  Z.testbit (2 ^ Z.of_nat d + x) j = if j <? Z.of_nat d then Z.testbit x j else j =? Z.of_nat d.
Proof.
  intros Hx Hj. destruct (Z.ltb_spec j (Z.of_nat d)) as [Hlt|Hge].
  - rewrite <- (Z.mod_pow2_bits_low _ (Z.of_nat d)) by lia. rewrite Z.add_mod, Z.mod_same, Z.add_0_l, Z.mod_mod, Z.mod_small by lia. done.
  - destruct (Z.eqb_spec j (Z.of_nat d)) as [-> | Hne].
    + apply Z.testbit_true; [lia|]. replace ((2 ^ Z.of_nat d + x) / 2 ^ Z.of_nat d) with 1; [done|]. apply (Z.div_unique _ _ _ x); lia.
    + apply (testbit_high (Z.of_nat d + 1)); [|lia]. rewrite Z.pow_add_r by lia. lia.
Qed.

Lemma bit_sum_double d v i j : 0 <= j -> bit_sum (S d) v i j =
  if j <? Z.of_nat d then Z.lxor (bit_sum d v i j) (bit_sum d v (i + 2 ^ Z.of_nat d) j)
  else if j =? Z.of_nat d then group_sum d v (i + 2 ^ Z.of_nat d) else 0.
Proof.
  intros Hj. unfold bit_sum, group_sum. rewrite pow2n_succ, xsum_app.
  assert (E : xsum (fun x => choose (Z.testbit (Z.of_nat (pow2n d) + x) j) (blk v (i + (Z.of_nat (pow2n d) + x)))) (pow2n d) =
    xsum (fun x => choose (if j <? Z.of_nat d then Z.testbit x j else j =? Z.of_nat d) (blk v (i + 2 ^ Z.of_nat d + x))) (pow2n d)).
  { apply xsum_ext. intros x Hx. rewrite pow2n_val in *. rewrite testbit_upper by lia. do 2 f_equal. lia. }
  rewrite E. destruct (Z.ltb_spec j (Z.of_nat d)) as [Hlt|Hge]; [done|].
  rewrite (xsum_ext (fun x => choose (Z.testbit x j) _) (fun _ => 0)), xsum_zero, Z.lxor_0_l.
  - destruct (j =? Z.of_nat d); [done|apply xsum_zero].
  - intros x Hx. rewrite pow2n_val in Hx. by rewrite (testbit_high (Z.of_nat d)) by lia.
Qed.

Lemma reduced_step d v v1 v2 : vsize v mod 2 ^ Z.of_nat (S d) = 0 -> reduced d v v1 ->
  vsize v2 = vsize v1 -> (forall q, 0 <= q < vsize v1 -> blk v2 q = level_word d v1 q) -> reduced (S d) v v2.
Proof.
  intros Hm [L1 R1] L2 B2. split; [lia|]. intros i Hi Hmi Hin. pose proof (pow2_grows d) as Hd. pose proof (pow2_grows (S d)) as HdS.
  assert (HG : 2 ^ Z.of_nat (S d) = 2 * 2 ^ Z.of_nat d) by (rewrite (Nat2Z.inj_succ d), Z.pow_succ_r by lia; lia).
  assert (Hmd : i mod 2 ^ Z.of_nat d = 0).
  { apply Z.mod_divide; [lia|]. apply Z.mod_divide in Hmi as [g ->]; [|lia]. rewrite HG. exists (g * 2). lia. }
  assert (Hmd' : (i + 2 ^ Z.of_nat d) mod 2 ^ Z.of_nat d = 0) by (rewrite Z.add_mod, Hmd, Z.mod_same by lia; done).
  destruct (R1 i Hi Hmd ltac:(lia)) as [A0 A1]. destruct (R1 (i + 2 ^ Z.of_nat d) ltac:(lia) Hmd' ltac:(lia)) as [C0 C1]. split.
  - rewrite B2, (level_words d i) by lia. replace (i <? i + Z.of_nat (S d)) with true by lia. by rewrite group_sum_double, A0, C0.
  - intros j Hj. rewrite B2, (level_words d i) by lia. rewrite bit_sum_double by lia.
    destruct (Z.ltb_spec j (Z.of_nat d)) as [Hlt|Hge].
    + replace (i + 1 + j <? i + Z.of_nat (S d)) with true by lia. rewrite A1 by lia.
      replace (i + 1 + j + 2 ^ Z.of_nat d) with (i + 2 ^ Z.of_nat d + 1 + j) by lia. by rewrite C1 by lia.
    + replace (i + 1 + j <? i + Z.of_nat (S d)) with false by lia. replace (i + 1 + j =? i + Z.of_nat (S d)) with true by lia.
      replace (j =? Z.of_nat d) with true by lia. exact C0.
Qed.

(** Words that are 0 up to the end of a block stay 0. *)
Definition zeros_on (lo hi : Z) (v : list Z) : Prop := forall q, lo <= q < hi -> blk v q = 0.

Lemma zeros_step d lo hi v1 v2 : 0 <= lo -> hi mod 2 ^ Z.of_nat (S d) = 0 -> hi <= vsize v1 ->
  (forall q, 0 <= q < vsize v1 -> blk v2 q = level_word d v1 q) -> zeros_on lo hi v1 -> zeros_on lo hi v2.
Proof.
  intros Hlo Hhi Hsz B2 Hz q Hq. rewrite B2 by lia. pose proof (pow2_grows d) as Hd. pose proof (pow2_grows (S d)) as HdS.
  assert (HG : 2 ^ Z.of_nat (S d) = 2 * 2 ^ Z.of_nat d) by (rewrite (Nat2Z.inj_succ d), Z.pow_succ_r by lia; lia).
  set (G := 2 ^ Z.of_nat (S d)) in *. apply Z.mod_divide in Hhi as [g Hg]; [|lia].
  pose proof (Z.div_mod q G ltac:(lia)) as Hdm. pose proof (Z.mod_pos_bound q G ltac:(lia)) as Hmb.
  assert (Hqg : q / G < g) by (apply Z.div_lt_upper_bound; lia). assert (Hend : G * (q / G) + G <= hi) by nia.
  assert (Hi0 : 0 <= q / G) by (apply Z.div_pos; lia).
  rewrite (level_words d (G * (q / G))) by (fold G; nia || (rewrite Z.mul_comm; apply Z.mod_mul; lia)).
  destruct (Z.ltb_spec q (G * (q / G) + Z.of_nat (S d))); [by rewrite !Hz by lia|].
  destruct (Z.eqb_spec q (G * (q / G) + Z.of_nat (S d))); by rewrite Hz by lia.
Qed.

Lemma reduced_0 v : reduced 0 v v.
Proof.
  split; [done|]. intros i Hi _ Hin. split; [|lia]. unfold group_sum. change (pow2n 0) with 1%nat. cbn [xsum]. by rewrite Z.add_0_r.
Qed.

Lemma divides_smaller n d d' : (d' <= d)%nat -> n mod 2 ^ Z.of_nat d = 0 -> n mod 2 ^ Z.of_nat d' = 0.
Proof.
  intros Hd Hm. apply Z.mod_divide in Hm as [g ->]; [|lia]. apply Z.mod_divide; [lia|].
  exists (g * 2 ^ Z.of_nat (d - d')). replace (Z.of_nat d) with (Z.of_nat (d - d') + Z.of_nat d') by lia. rewrite Z.pow_add_r by lia. lia.
Qed.

Lemma for_up_app {St} (f : Z -> St -> option St) n m i s : for_up (n + m) i f s = for_up n i f s ≫= for_up m (i + Z.of_nat n) f.
Proof.
  revert i s. induction n as [|n IH]; intros i s; [cbn [for_up Nat.add mbind option_bind]; f_equal; lia|]. cbn [for_up Nat.add].
  destruct (f i s) as [s'|]; [|done]. cbn [mbind option_bind]. rewrite IH. by replace (i + 1 + Z.of_nat n) with (i + Z.of_nat (S n)) by lia.
Qed.

Lemma template_loop k v : XorReduce_template k v = for_up k 1 xor_level v.
Proof.
  induction k as [|k IH]; [done|]. cbn [XorReduce_template]. rewrite IH. transitivity (for_up (k + 1) 1 xor_level v); [|f_equal; lia].
  rewrite for_up_app. destruct (for_up k 1 xor_level v) as [v1|]; [|done]. cbn [mbind option_bind for_up].
  replace (1 + Z.of_nat k) with (Z.of_nat (S k)) by lia. by destruct (xor_level (Z.of_nat (S k)) v1).
Qed.

(** The reduction, on blocks of [2 ^ k] words. *)
Lemma xor_reduce_run k v lo : 0 <= k <= 64 -> 0 <= lo -> vsize v mod 2 ^ k = 0 -> zeros_on lo (vsize v) v ->
  exists v', XorReduceImpl k v = Val v' /\ reduced (Z.to_nat k) v v' /\ zeros_on lo (vsize v) v'.
Proof.
  intros Hk Hlo Hm Hz. set (d := Z.to_nat k). replace k with (Z.of_nat d) in * by lia.
  assert (exists v', for_up d 1 xor_level v = Some v' /\ reduced d v v' /\ zeros_on lo (vsize v) v') as (v' & E & H).
  { destruct (for_up_inv (fun t v' => reduced (Z.to_nat (t - 1)) v v' /\ zeros_on lo (vsize v) v') xor_level d 1 v) as (v' & E & H).
    - change (Z.to_nat (1 - 1)) with 0%nat. split; [apply reduced_0|done].
    - intros t v1 Ht [R1 Z1]. destruct (Z.to_nat t) as [|d'] eqn:Ed; [lia|]. replace (Z.to_nat (t - 1)) with d' in R1 by lia.
      replace t with (Z.of_nat (S d')) in * by lia. pose proof (proj1 R1) as L1.
      assert (Hm' : vsize v mod 2 ^ Z.of_nat (S d') = 0) by (apply (divides_smaller _ d); [lia|done]).
      destruct (xor_level_run d' v1) as (v2 & E2 & L2 & B2); [by rewrite L1|]. exists v2. split; [done|].
      replace (Z.to_nat (Z.of_nat (S d') + 1 - 1)) with (S d') by lia. split; [by apply (reduced_step d' v v1 v2)|].
      apply (zeros_step d' lo (vsize v) v1 v2); try done; lia.
    - exists v'. replace (Z.to_nat (1 + Z.of_nat d - 1)) with d in H by lia. done. }
  exists v'. split; [|done]. unfold XorReduceImpl, XorReduce. rewrite template_loop, Nat2Z.id, E.
  destruct (_ && _); [done|]. by replace (Z.of_nat d <=? 64) with true by lia.
Qed.

(** *** The shape of the trees *)

Section Shape.
Context (k : Z).
Hypothesis Hk : 1 <= k <= 30.

Definition trees : Z := (127 + k) / k.
(** The depth of tree [i]; only the last can have fewer than [k] levels. *)
Definition depth_of (i : Z) : Z := Z.min k (128 - i * k).
Definition total : Z := (trees - 1) * 2 ^ k + 2 ^ depth_of (trees - 1).

Lemma trees_bounds : 1 <= trees <= 128 /\ (trees - 1) * k < 128 /\ 128 <= trees * k.
Proof using Hk.
  unfold trees. pose proof (Z.div_mod (127 + k) k ltac:(lia)) as H1. pose proof (Z.mod_pos_bound (127 + k) k ltac:(lia)) as H2.
  assert (1 <= (127 + k) / k) by (apply Z.div_le_lower_bound; lia). nia.
Qed.

Lemma depth_of_bounds i : 0 <= i < trees -> 1 <= depth_of i <= k /\ i * k + depth_of i <= 128 /\ (i < trees - 1 -> depth_of i = k) /\
  2 <= 2 ^ depth_of i <= 2 ^ k /\ 2 ^ k <= 2 ^ 30.
Proof using Hk.
  intros Hi. destruct trees_bounds as (H1 & H2 & H3). unfold depth_of. assert (i * k <= (trees - 1) * k) by nia.
  assert (1 <= Z.min k (128 - i * k) <= k) by lia. split; [done|]. split; [lia|]. split; [intros; nia|].
  split; [split; [change 2 with (2 ^ 1) at 1|]; apply Z.pow_le_mono_r; lia|apply Z.pow_le_mono_r; lia].
Qed.

Lemma k_limit_run i : 0 <= i < trees -> k_limit_at k i = depth_of i.
Proof using Hk.
  intros Hi. destruct trees_bounds as (H1 & H2 & H3). assert (0 <= i * k <= (trees - 1) * k) by nia. unfold k_limit_at, depth_of, kKappa.
  by rewrite (u64_small (i * k)), u64_small by lia.
Qed.

Lemma shape_run : pprf_shape k = Val (trees, 2 ^ k, total).
Proof using Hk.
  destruct trees_bounds as (H1 & H2 & H3). destruct (depth_of_bounds (trees - 1) ltac:(lia)) as (D1 & D2 & _ & D3 & D4).
  unfold pprf_shape, kKappa. replace ((k =? 0) || (64 <=? k)) with false by lia. rewrite (u64_small (128 + k)), (u64_small (128 + k - 1)) by lia.
  replace (128 + k - 1) with (127 + k) by lia. fold trees. cbv zeta. assert (Hl : u64 (128 - u64 ((trees - 1) * k)) = depth_of (trees - 1)).
  { rewrite (u64_small ((trees - 1) * k)), u64_small by nia. unfold depth_of. lia. }
  rewrite Hl. replace (31 <=? depth_of (trees - 1)) with false by lia. rewrite (u64_small (2 ^ k - _)), (u64_small (trees * 2 ^ k)) by nia.
  rewrite u64_small; [|nia]. do 2 f_equal. unfold total. nia.
Qed.

Lemma total_bounds : 2 <= total <= trees * 2 ^ k /\ trees * 2 ^ k <= 2 ^ 37.
Proof using Hk.
  destruct trees_bounds as (H1 & _). destruct (depth_of_bounds (trees - 1) ltac:(lia)) as (_ & _ & _ & D3 & D4). unfold total. nia.
Qed.

Lemma leaf_inside i x : 0 <= i < trees -> 0 <= x < 2 ^ k -> (i * 2 ^ k + x < total <-> x < 2 ^ depth_of i).
Proof using Hk.
  intros Hi Hx. destruct (depth_of_bounds i Hi) as (_ & _ & Dk & D3 & _). unfold total. destruct (Z.eq_dec i (trees - 1)) as [-> | Hne]; [lia|].
  rewrite Dk in * by lia. destruct (depth_of_bounds (trees - 1) ltac:(lia)) as (_ & _ & _ & D4 & _). split; [lia|]. intros _. nia.
Qed.

Lemma trees_index q : 0 <= q < trees * 2 ^ k -> 0 <= q / 2 ^ k < trees /\ 0 <= q mod 2 ^ k < 2 ^ k /\ q = q / 2 ^ k * 2 ^ k + q mod 2 ^ k.
Proof using Hk.
  intros Hq. assert (0 < 2 ^ k) by (apply Z.pow_pos_nonneg; lia). pose proof (Z.mod_pos_bound q (2 ^ k) ltac:(lia)). pose proof (Z.div_mod q (2 ^ k) ltac:(lia)).
  split; [split; [apply Z.div_pos; lia|apply Z.div_lt_upper_bound; lia]|]. split; [done|lia].
Qed.

(** The word [q] of a vector comes from bit [q mod k] of tree [q / k]. *)
Lemma column_tree q : 0 <= q < 128 -> 0 <= q / k < trees /\ 0 <= q mod k < depth_of (q / k) /\ q = q / k * k + q mod k.
Proof using Hk.
  intros Hq. destruct trees_bounds as (H1 & H2 & H3). pose proof (Z.mod_pos_bound q k ltac:(lia)). pose proof (Z.div_mod q k ltac:(lia)).
  assert (0 <= q / k < trees) by (split; [apply Z.div_pos; lia|apply Z.div_lt_upper_bound; lia]). split; [done|]. unfold depth_of. split; [lia|lia].
Qed.

(** A nested loop over the trees and their bits fills a vector. *)
Lemma fill_columns (g : Z -> Z) (h : Z -> Z) (body : Z -> list Z * list Z -> option (list Z * list Z)) u V :
  trees <= vsize u -> vsize V = 128 ->
  (forall i u' V', 0 <= i < trees -> vsize u' = vsize u -> vsize V' = 128 -> (forall q, i <= q -> blk u' q = blk u q) ->
    exists V'', body i (u', V') = Some (<[Z.to_nat i := h i]> u', V'') /\ vsize V'' = 128 /\
      forall q, blk V'' q = if (i * k <=? q) && (q <? i * k + depth_of i) then g q else blk V' q) ->
  exists u' V', for_up (Z.to_nat trees) 0 body (u, V) = Some (u', V') /\ vsize u' = vsize u /\ vsize V' = 128 /\
    (forall i, 0 <= i -> blk u' i = if i <? trees then h i else blk u i) /\ forall q, 0 <= q < 128 -> blk V' q = g q.
Proof using Hk.
  intros Hu HV Hbody. destruct trees_bounds as (H1 & H2 & H3).
  destruct (for_up_inv (fun i s => vsize s.1 = vsize u /\ vsize s.2 = 128 /\ (forall j, 0 <= j -> blk s.1 j = if j <? i then h j else blk u j) /\
    forall q, 0 <= q < 128 -> q < i * k -> blk s.2 q = g q) body (Z.to_nat trees) 0 (u, V)) as ([u' V'] & E & L1 & L2 & B1 & B2).
  - cbn [fst snd]. split; [done|]. split; [done|]. split; [|lia]. intros j Hj. by replace (j <? 0) with false by lia.
  - intros i [u1 V1] Hi (L1 & L2 & B1 & B2). cbn [fst snd] in *.
    destruct (Hbody i u1 V1 ltac:(lia) L1 L2) as (V2 & E2 & L3 & B3); [intros q Hq; rewrite B1 by lia; by replace (q <? i) with false by lia|].
    eexists. split; [exact E2|]. cbn [fst snd]. split; [by rewrite vsize_insert|]. split; [done|]. split.
    + intros j Hj. rewrite blk_insert by lia. destruct (Z.eqb_spec j i) as [-> |]; [by replace (i <? i + 1) with true by lia|].
      rewrite B1 by lia. by replace (j <? i + 1) with (j <? i) by lia.
    + intros q Hq Hlt. rewrite B3. destruct (Z.lt_ge_cases q (i * k)).
      * replace (i * k <=? q) with false by lia. cbn [andb]. by apply B2.
      * replace ((i * k <=? q) && (q <? i * k + depth_of i)) with true by (unfold depth_of; lia). done.
  - exists u', V'. cbn [fst snd] in *. split; [done|]. split; [done|]. split; [done|]. split.
    + intros i Hi. rewrite B1 by done. by replace (0 + Z.of_nat (Z.to_nat trees)) with trees by lia.
    + intros q Hq. apply B2; [done|]. rewrite Z2Nat.id by lia. lia.
Qed.
End Shape.

(** *** The words of a batch *)

Lemma blk_drop_at (l : list Z) n q : 0 <= n -> 0 <= q -> blk (drop (Z.to_nat n) l) q = blk l (n + q).
Proof.
  intros Hn Hq. unfold blk, vget. replace (0 <=? q) with true by lia. replace (0 <=? n + q) with true by lia. rewrite lookup_drop. do 2 f_equal. lia.
Qed.

Lemma blk_take_at (l : list Z) n q : 0 <= q < n -> blk (take (Z.to_nat n) l) q = blk l q.
Proof. intros Hq. unfold blk, vget. replace (0 <=? q) with true by lia. by rewrite lookup_take_lt by lia. Qed.

Lemma xor_block_run l out x : vsize l <= vsize out ->
  exists out', XorBlock l out x = Val out' /\ vsize out' = vsize out /\ forall q, 0 <= q -> blk out' q = if q <? vsize l then Z.lxor (blk l q) x else blk out q.
Proof.
  intros Hl. unfold XorBlock. replace (vsize l <=? vsize out) with true by lia. cbn [OtStore.enforce mbind res_bind].
  replace (length l) with (Z.to_nat (vsize l)) by (unfold vsize; lia).
  destruct (copy_words (fun j => Z.lxor (blk l j) x) (vsize l) 0 (fun i out => y ← vget l i; vset out i (Z.lxor y x)) out) as (out' & E & L & B);
    [lia|apply vsize_nonneg|lia| |].
  - intros j l' Hj _ _. by rewrite vget_blk by lia.
  - rewrite E. exists out'. split; [done|]. split; [done|]. intros q Hq. rewrite B, Z.add_0_l, Z.sub_0_r. by replace (0 <=? q) with true by lia.
Qed.

Lemma hash_block_run rp l q : 0 <= q < vsize l -> vsize (ParaCrHashInplace_128 rp l) = vsize l /\ blk (ParaCrHashInplace_128 rp l) q = CrHash_128 rp (blk l q).
Proof. intros Hq. rewrite para_cr_inplace_map. split; [apply vsize_map|by apply blk_map]. Qed.

Lemma mask_word (t : bool) x : 0 <= x < 2 ^ 128 -> Z.land x (mask_of t) = choose t x.
Proof.
  intros Hx. destruct t; cbn [mask_of choose]; [|apply Z.land_0_r]. change (2 ^ 128 - 1) with (Z.ones 128). rewrite Z.land_ones by lia. by apply Z.mod_small.
Qed.

Section Vole.
Context (rp : Z -> Z) (k : Z) (L : Z -> Z -> Z) (alpha : Z -> Z) (c : Z -> bool) (compact : bool).
Hypothesis Hrp : forall x, 0 <= x < 2 ^ 128 -> 0 <= rp x < 2 ^ 128.
Hypothesis Hk : 1 <= k <= 30.
Hypothesis Halpha : forall i, 0 <= i < trees k -> 0 <= alpha i < 2 ^ depth_of k i.
Hypothesis Hbits : forall i j, 0 <= i < trees k -> 0 <= j < depth_of k i -> Z.testbit (alpha i) j = c (i * k + j).
Hypothesis Hcompact : compact = true -> c 0 = true.
Hypothesis HL : forall i x, 0 <= i < trees k -> 0 <= x < 2 ^ depth_of k i -> 0 <= L i x < 2 ^ 128.

(** Leaf [x] of tree [i], hashed with the counter. *)
Definition hashed_leaf (ctr i x : Z) : Z := if x <? 2 ^ depth_of k i then CrHash_128 rp (Z.lxor (L i x) ctr) else 0.
Definition tree_sum (ctr i : Z) : Z := xsum (hashed_leaf ctr i) (pow2n (Z.to_nat k)).
Definition tree_bit (ctr i j : Z) : Z := xsum (fun x => choose (Z.testbit x j) (hashed_leaf ctr i x)) (pow2n (Z.to_nat k)).

(** Word [q] of the receiver, and of the sender. *)
Definition w_word (ctr choice q : Z) : Z := if compact && (q =? 0) then choice else tree_bit ctr (q / k) (q mod k).
Definition v_word (ctr choice q : Z) : Z := Z.lxor (w_word ctr choice q) (choose (c q) choice).

Lemma leaf_word ctr i x : 0 <= ctr < 2 ^ 128 -> 0 <= i < trees k -> 0 <= x -> 0 <= hashed_leaf ctr i x < 2 ^ 128.
Proof using All.
  intros Hc Hi Hx. unfold hashed_leaf. destruct (Z.ltb_spec x (2 ^ depth_of k i)); [|done]. unfold CrHash_128.
  assert (0 <= Z.lxor (L i x) ctr < 2 ^ 128) by (apply xor_word128; [by apply HL|done]). apply xor_word128; [by apply Hrp|done].
Qed.

Lemma w_word_range ctr choice q : 0 <= ctr < 2 ^ 128 -> 0 <= choice < 2 ^ 128 -> 0 <= q < 128 -> 0 <= w_word ctr choice q < 2 ^ 128.
Proof using All.
  intros Hct Hc Hq. unfold w_word. destruct (_ && _); [done|]. destruct (column_tree k Hk q Hq) as (H1 & _).
  apply xsum_word. intros x Hx. apply choose_word, leaf_word; done || lia.
Qed.

Lemma v_word_range ctr choice q : 0 <= ctr < 2 ^ 128 -> 0 <= choice < 2 ^ 128 -> 0 <= q < 128 -> 0 <= v_word ctr choice q < 2 ^ 128.
Proof using All. intros Hct Hc Hq. apply xor_word128; [by apply w_word_range|by apply choose_word]. Qed.

(** A buffer of the leaves of all trees, seen tree by tree. *)
Definition by_trees (f : Z -> Z -> Z) (v : list Z) : Prop :=
  vsize v = trees k * 2 ^ k /\ forall i x, 0 <= i < trees k -> 0 <= x < 2 ^ k -> blk v (i * 2 ^ k + x) = f i x.

Lemma reduce_trees f v : by_trees f v -> zeros_on (total k) (trees k * 2 ^ k) v ->
  exists v', XorReduceImpl k v = Val v' /\ vsize v' = trees k * 2 ^ k /\ zeros_on (total k) (trees k * 2 ^ k) v' /\
    forall i, 0 <= i < trees k -> blk v' (i * 2 ^ k) = xsum (f i) (pow2n (Z.to_nat k)) /\
      forall j, 0 <= j < k -> blk v' (i * 2 ^ k + 1 + j) = xsum (fun x => choose (Z.testbit x j) (f i x)) (pow2n (Z.to_nat k)).
Proof using All.
  intros [Lv Bv] Hz. destruct (total_bounds k Hk) as (T1 & T2). assert (H2k : 0 < 2 ^ k) by (apply Z.pow_pos_nonneg; lia).
  destruct (xor_reduce_run k v (total k)) as (v' & E & [L' R'] & Z'); [lia|lia|rewrite Lv; apply Z.mod_mul; lia|by rewrite Lv|].
  exists v'. split; [done|]. split; [lia|]. rewrite Lv in Z'. split; [done|]. intros i Hi. replace (Z.of_nat (Z.to_nat k)) with k in R' by lia.
  destruct (R' (i * 2 ^ k)) as [R0 R1]; [nia|apply Z.mod_mul; lia|nia|].
  assert (Hp : forall x, 0 <= x < Z.of_nat (pow2n (Z.to_nat k)) -> 0 <= x < 2 ^ k) by (intros x; rewrite pow2n_val; by replace (Z.of_nat (Z.to_nat k)) with k by lia).
  split.
  - rewrite R0. apply xsum_ext. intros x Hx. by apply Bv, Hp.
  - intros j Hj. rewrite R1 by done. apply xsum_ext. intros x Hx. by rewrite Bv by (done || by apply Hp).
Qed.

(** *** The receiver *)

Record receiver_ready (st : Receiver) (ctr : Z) : Prop := {
  rr_counter : r_counter st = ctr;
  rr_inited : r_inited st = true;
  rr_k : r_k st = k;
  rr_num : r_pprf_num st = trees k;
  rr_range : r_pprf_range st = 2 ^ k;
  rr_compact : r_compact st = compact;
  rr_size : vsize (r_leaves st) = total k;
  rr_leaves i x : 0 <= i < trees k -> 0 <= x < 2 ^ depth_of k i -> blk (r_leaves st) (i * 2 ^ k + x) = L i x
}.

Definition xor_ready (v : list Z) : Prop := vsize v = trees k * 2 ^ k /\ zeros_on (total k) (trees k * 2 ^ k) v.

Lemma receiver_words_run st ctr choice v u W : receiver_ready st ctr -> vsize v = trees k * 2 ^ k -> trees k <= vsize u -> vsize W = 128 ->
  (forall i, 0 <= i < trees k -> blk v (i * 2 ^ k) = tree_sum ctr i /\ forall j, 0 <= j < k -> blk v (i * 2 ^ k + 1 + j) = tree_bit ctr i j) ->
  exists u' W', receiver_words st choice v u W = Some (u', W') /\ vsize u' = vsize u /\ vsize W' = 128 /\
    (forall i, 0 <= i -> blk u' i = if i <? trees k then Z.lxor choice (tree_sum ctr i) else blk u i) /\
    forall q, 0 <= q < 128 -> blk W' q = tree_bit ctr (q / k) (q mod k).
Proof using All.
  intros [_ _ E1 E2 E3 _ _ _] Lv Lu LW Bv. unfold receiver_words. rewrite E1, E2, E3. assert (H2k : 0 < 2 ^ k) by (apply Z.pow_pos_nonneg; lia).
  destruct (trees_bounds k Hk) as (T1 & T2 & _).
  apply (fill_columns k Hk (fun q => tree_bit ctr (q / k) (q mod k)) (fun i => Z.lxor choice (tree_sum ctr i))); [done|done|].
  intros i u' W' Hi Lu' LW' _. destruct (depth_of_bounds k Hk i Hi) as (D1 & D2 & _). destruct (Bv i Hi) as [B0 B1].
  rewrite vget_blk by nia. cbn [mbind option_bind]. rewrite B0, vset_Some by lia. cbn [mbind option_bind].
  assert (Hkl : Z.min k (u64 (kKappa - i * k)) = depth_of k i) by (unfold kKappa, depth_of; rewrite u64_small by nia; done). rewrite Hkl.
  assert (Hsz : 1 + k <= 2 ^ k) by (pose proof (pow2_grows (Z.to_nat k)) as H; replace (Z.of_nat (Z.to_nat k)) with k in H by lia; lia).
  destruct (copy_words (fun j => tree_bit ctr i j) (depth_of k i) (i * k) (fun j W => x ← vget v (i * 2 ^ k + 1 + j); vset W (i * k + j) x) W')
    as (W'' & E & L'' & B''); [nia|lia|lia| |].
  { intros j l' Hj _ _. rewrite vget_blk by nia. by rewrite B1 by lia. }
  rewrite E. exists W''. split; [done|]. split; [lia|]. intros q. rewrite B''. destruct (_ && _) eqn:Eq; [|done].
  apply andb_prop in Eq as [Q1 Q2]. f_equal; [apply (Z.div_unique q k i (q - i * k)); lia|apply (Z.mod_unique q k i (q - i * k)); lia].
Qed.

Lemma gen_recv st ctr choice v u W : receiver_ready st ctr -> xor_ready v -> trees k <= vsize u -> vsize W = 128 ->
  exists st' v' u' W', GenSfVole_recv rp st choice v u W = Val (st', v', u', W') /\ st' = set_counter_r st (u128 (ctr + 1)) /\ xor_ready v' /\
    vsize u' = vsize u /\ (forall i, 0 <= i -> blk u' i = if i <? trees k then Z.lxor choice (tree_sum ctr i) else blk u i) /\
    vsize W' = 128 /\ forall q, 0 <= q < 128 -> blk W' q = w_word ctr choice q.
Proof using All.
  intros Hst [Lv Zv] Lu LW. pose proof Hst as [E0 _ E1 _ _ E4 E5 E6]. destruct (total_bounds k Hk) as (T1 & T2). unfold GenSfVole_recv.
  rewrite LW. cbn [Z.eqb OtStore.enforce mbind res_bind]. change (128 =? 128) with true. cbn [OtStore.enforce mbind res_bind].
  unfold absl_subspan. replace (0 <=? vsize v) with true by lia. cbn [OtStore.enforce mbind res_bind]. rewrite drop_0, E5, E0, E1.
  set (head := take (Z.to_nat (total k)) v). assert (Lh : vsize head = total k) by (unfold head, vsize in *; rewrite length_take; lia).
  destruct (xor_block_run (r_leaves st) head ctr) as (x1 & X1 & X2 & X3); [lia|]. rewrite X1. cbn [mbind res_bind].
  set (x2 := ParaCrHashInplace_128 rp x1). assert (Lx2 : vsize x2 = total k) by (unfold x2; rewrite (proj1 (hash_block_run rp x1 0 ltac:(lia))); lia).
  rewrite put_bytes_run by lia. cbn [access mbind res_bind]. rewrite Z.add_0_l, Lx2. change (take (Z.to_nat 0) v) with (@nil Z). cbn [app].
  set (v1 := x2 ++ drop (Z.to_nat (total k)) v).
  assert (Lv1 : vsize v1 = trees k * 2 ^ k) by (unfold v1; rewrite vsize_app, Lx2; unfold vsize in *; rewrite length_drop; lia).
  assert (Bv1 : forall q, 0 <= q < trees k * 2 ^ k -> blk v1 q = if q <? total k then CrHash_128 rp (Z.lxor (blk (r_leaves st) q) ctr) else 0).
  { intros q Hq. unfold v1. rewrite blk_app, Lx2. destruct (Z.ltb_spec q (total k)) as [Hlt|Hge].
    - unfold x2. rewrite (proj2 (hash_block_run rp x1 q ltac:(lia))), X3 by lia. by replace (q <? vsize (r_leaves st)) with true by lia.
    - rewrite blk_drop_at by lia. apply Zv. lia. }
  destruct (reduce_trees (hashed_leaf ctr) v1) as (v2 & R1 & R2 & R3 & R4).
  - split; [done|]. intros i x Hi Hx. assert (H2k : 0 < 2 ^ k) by lia. rewrite Bv1 by nia. pose proof (leaf_inside k Hk i x Hi Hx) as Hin. unfold hashed_leaf.
    destruct (Z.ltb_spec x (2 ^ depth_of k i)).
    + replace (i * 2 ^ k + x <? total k) with true by lia. by rewrite E6 by lia.
    + by replace (i * 2 ^ k + x <? total k) with false by lia.
  - intros q Hq. rewrite Bv1 by lia. by replace (q <? total k) with false by lia.
  - rewrite R1. cbn [mbind res_bind]. destruct (receiver_words_run st ctr choice v2 u W Hst R2 Lu LW R4) as (u' & W' & W1 & W2 & W3 & W4 & W5).
    rewrite W1. cbn [access mbind res_bind]. rewrite E4. unfold w_word. destruct compact; cbn [andb].
    + rewrite vset_Some by lia. cbn [access mbind res_bind]. eexists _, _, _, _. split; [done|]. split; [done|]. split; [by split|]. split; [done|].
      split; [done|]. split; [by rewrite vsize_insert|]. intros q Hq. rewrite blk_insert by lia. destruct (q =? 0); [done|by apply W5].
    + eexists _, _, _, _. split; [done|]. split; [done|]. split; [by split|]. split; [done|]. split; [done|]. split; [done|]. done.
Qed.

(** *** The sender *)

Record sender_ready (st : Sender) (ctr : Z) : Prop := {
  sr_counter : s_counter st = ctr;
  sr_ctr : 0 <= ctr < 2 ^ 128;
  sr_inited : s_inited st = true;
  sr_k : s_k st = k;
  sr_num : s_pprf_num st = trees k;
  sr_range : s_pprf_range st = 2 ^ k;
  sr_compact : s_compact st = compact;
  sr_idx_size : vsize (s_punctured_idx st) = trees k;
  sr_idx i : 0 <= i < trees k -> blk (s_punctured_idx st) i = alpha i;
  sr_mask_size : vsize (s_mask st) = 128;
  sr_mask q : 0 <= q < 128 -> blk (s_mask st) q = mask_of (c q);
  sr_size : vsize (s_compress st) = total k - trees k;
  sr_leaves i j : 0 <= i < trees k -> 0 <= j < 2 ^ depth_of k i - 1 ->
    blk (s_compress st) (i * (2 ^ k - 1) + j) = if j + 1 =? alpha i then L i 0 else L i (j + 1)
}.

(** The leaves without the punctured ones. *)
Definition known (ctr i x : Z) : Z := if x =? alpha i then 0 else hashed_leaf ctr i x.

Lemma known_sum ctr i : 0 <= i < trees k -> xsum (known ctr i) (pow2n (Z.to_nat k)) = Z.lxor (tree_sum ctr i) (hashed_leaf ctr i (alpha i)).
Proof using All.
  intros Hi. destruct (depth_of_bounds k Hk i Hi) as (_ & _ & _ & D & _). specialize (Halpha i Hi).
  assert (Hp : Z.of_nat (pow2n (Z.to_nat k)) = 2 ^ k) by (rewrite pow2n_val; by replace (Z.of_nat (Z.to_nat k)) with k by lia).
  rewrite <- (xsum_single (hashed_leaf ctr i) (pow2n (Z.to_nat k)) (alpha i)) by lia. unfold tree_sum. rewrite <- xsum_xor. apply xsum_ext. intros x _. unfold known.
  destruct (x =? alpha i); [by rewrite Z.lxor_nilpotent|by rewrite Z.lxor_0_r].
Qed.

Lemma known_bit ctr i j : 0 <= i < trees k -> xsum (fun x => choose (Z.testbit x j) (known ctr i x)) (pow2n (Z.to_nat k)) =
  Z.lxor (tree_bit ctr i j) (choose (Z.testbit (alpha i) j) (hashed_leaf ctr i (alpha i))).
Proof using All.
  intros Hi. destruct (depth_of_bounds k Hk i Hi) as (_ & _ & _ & D & _). specialize (Halpha i Hi).
  assert (Hp : Z.of_nat (pow2n (Z.to_nat k)) = 2 ^ k) by (rewrite pow2n_val; by replace (Z.of_nat (Z.to_nat k)) with k by lia).
  pose proof (xsum_single (fun x => choose (Z.testbit x j) (hashed_leaf ctr i x)) (pow2n (Z.to_nat k)) (alpha i) ltac:(lia)) as E. cbv beta in E.
  rewrite <- E. unfold tree_bit. rewrite <- xsum_xor. apply xsum_ext. intros x _. unfold known.
  destruct (x =? alpha i); [destruct (Z.testbit x j); cbn [choose]; by rewrite ?Z.lxor_nilpotent|by rewrite Z.lxor_0_r].
Qed.

Lemma compressed_size i : 0 <= i < trees k ->
  Z.min (2 ^ k - 1) (u64 (total k - trees k - i * (2 ^ k - 1))) = 2 ^ depth_of k i - 1 /\
  i * (2 ^ k - 1) + (2 ^ depth_of k i - 1) <= total k - trees k.
Proof using All.
  intros Hi. destruct (trees_bounds k Hk) as (T1 & _). destruct (total_bounds k Hk) as (T2 & T3).
  destruct (depth_of_bounds k Hk i Hi) as (_ & _ & Dk & D & _). destruct (depth_of_bounds k Hk (trees k - 1) ltac:(lia)) as (_ & _ & _ & D' & _).
  assert (Ht : total k - trees k = (trees k - 1) * (2 ^ k - 1) + (2 ^ depth_of k (trees k - 1) - 1)) by (unfold total; lia). rewrite Ht.
  destruct (Z.eq_dec i (trees k - 1)) as [-> | Hne].
  - rewrite u64_small by nia. lia.
  - rewrite Dk by lia. assert ((i + 1) * (2 ^ k - 1) <= (trees k - 1) * (2 ^ k - 1)) by nia. rewrite u64_small by nia. nia.
Qed.

(** The leaves of one tree put in their places. *)
Lemma place_tree ctr i hash v : 0 <= i < trees k -> vsize hash = total k - trees k ->
  (forall j, 0 <= j < 2 ^ depth_of k i - 1 -> blk hash (i * (2 ^ k - 1) + j) = if j + 1 =? alpha i then hashed_leaf ctr i 0 else hashed_leaf ctr i (j + 1)) ->
  xor_ready v ->
  exists v1 v2 v3 v4, for_up (Z.to_nat (2 ^ depth_of k i - 1)) 0 (fun j v => x ← vget hash (i * (2 ^ k - 1) + j); vset v (i * 2 ^ k + 1 + j) x) v = Some v1 /\
    vset v1 (i * 2 ^ k) 0 = Some v2 /\ vget v2 (i * 2 ^ k) = Some 0 /\ vget v2 (i * 2 ^ k + alpha i) = Some (blk v2 (i * 2 ^ k + alpha i)) /\
    vset v2 (i * 2 ^ k) (blk v2 (i * 2 ^ k + alpha i)) = Some v3 /\ vset v3 (i * 2 ^ k + alpha i) 0 = Some v4 /\ vsize v4 = vsize v /\
    forall q, 0 <= q < trees k * 2 ^ k -> blk v4 q = if (i * 2 ^ k <=? q) && (q <? i * 2 ^ k + 2 ^ depth_of k i) then known ctr i (q - i * 2 ^ k) else blk v q.
Proof using All.
  intros Hi Lh Bh [Lv Zv]. destruct (trees_bounds k Hk) as (T1 & _). destruct (depth_of_bounds k Hk i Hi) as (_ & _ & _ & D & _). specialize (Halpha i Hi) as Ha.
  assert (Hend : i * 2 ^ k + 2 ^ depth_of k i <= trees k * 2 ^ k) by nia. assert (H0 : 0 <= i * 2 ^ k) by nia.
  destruct (copy_words (fun j => blk hash (i * (2 ^ k - 1) + j)) (2 ^ depth_of k i - 1) (i * 2 ^ k + 1)
    (fun j v => x ← vget hash (i * (2 ^ k - 1) + j); vset v (i * 2 ^ k + 1 + j) x) v) as (v1 & E1 & L1 & B1); [lia|lia|lia| |].
  { intros j l' Hj _ _. destruct (compressed_size i Hi) as [_ Hc]. by rewrite vget_blk by nia. }
  eexists v1, _, _, _. split; [exact E1|]. split; [apply vset_Some; lia|]. set (v2 := <[Z.to_nat (i * 2 ^ k) := 0]> v1).
  assert (L2 : vsize v2 = vsize v) by (unfold v2; rewrite vsize_insert; lia).
  assert (B2 : forall q, 0 <= q -> blk v2 q = if q =? i * 2 ^ k then 0 else blk v1 q) by (intros q Hq; unfold v2; apply blk_insert; lia).
  split; [rewrite vget_blk, B2, Z.eqb_refl by lia; done|]. split; [apply vget_blk; lia|].
  assert (Ey : blk v2 (i * 2 ^ k + alpha i) = if alpha i =? 0 then 0 else hashed_leaf ctr i 0).
  { rewrite B2 by lia. destruct (Z.eqb_spec (alpha i) 0) as [-> | Hne]; [by replace (i * 2 ^ k + 0 =? i * 2 ^ k) with true by lia|].
    replace (i * 2 ^ k + alpha i =? i * 2 ^ k) with false by lia. rewrite B1.
    replace ((i * 2 ^ k + 1 <=? i * 2 ^ k + alpha i) && (i * 2 ^ k + alpha i <? i * 2 ^ k + 1 + (2 ^ depth_of k i - 1))) with true by lia.
    rewrite Bh by lia. by replace (i * 2 ^ k + alpha i - (i * 2 ^ k + 1) + 1 =? alpha i) with true by lia. }
  rewrite Ey. split; [apply vset_Some; lia|]. split; [apply vset_Some; rewrite ?vsize_insert; fold v2; lia|]. split; [rewrite !vsize_insert; fold v2; lia|].
  intros q Hq. rewrite blk_insert by (rewrite ?vsize_insert; lia). rewrite blk_insert by (fold v2; lia). fold v2. rewrite B2, B1 by lia. unfold known.
  destruct ((i * 2 ^ k <=? q) && (q <? i * 2 ^ k + 2 ^ depth_of k i)) eqn:Ein.
  - destruct (Z.eqb_spec q (i * 2 ^ k + alpha i)) as [-> | Hq1]; [by replace (i * 2 ^ k + alpha i - i * 2 ^ k =? alpha i) with true by lia|].
    replace (q - i * 2 ^ k =? alpha i) with false by lia. destruct (Z.eqb_spec q (i * 2 ^ k)) as [-> | Hq2].
    + rewrite Z.sub_diag. by replace (alpha i =? 0) with false by lia.
    + replace ((i * 2 ^ k + 1 <=? q) && (q <? i * 2 ^ k + 1 + (2 ^ depth_of k i - 1))) with true by lia. rewrite Bh by lia.
      replace (q - (i * 2 ^ k + 1) + 1) with (q - i * 2 ^ k) by lia. by replace (q - i * 2 ^ k =? alpha i) with false by lia.
  - replace (q =? i * 2 ^ k + alpha i) with false by lia. replace (q =? i * 2 ^ k) with false by lia.
    by replace ((i * 2 ^ k + 1 <=? q) && (q <? i * 2 ^ k + 1 + (2 ^ depth_of k i - 1))) with false by lia.
Qed.

Lemma place_run st ctr hash v : sender_ready st ctr -> vsize hash = total k - trees k ->
  (forall i j, 0 <= i < trees k -> 0 <= j < 2 ^ depth_of k i - 1 ->
    blk hash (i * (2 ^ k - 1) + j) = if j + 1 =? alpha i then hashed_leaf ctr i 0 else hashed_leaf ctr i (j + 1)) ->
  xor_ready v ->
  exists v', place_leaves st hash v = Some v' /\ by_trees (known ctr) v' /\ zeros_on (total k) (trees k * 2 ^ k) v'.
Proof using All.
  intros [_ _ _ _ E2 E3 _ Li Bi _ _ _ _] Lh Bh [Lv Zv]. destruct (trees_bounds k Hk) as (T1 & _). destruct (total_bounds k Hk) as (T2 & T3).
  unfold place_leaves. rewrite E2, E3, Lh.
  match goal with |- exists v', for_up _ _ ?f _ = _ /\ _ =>
    destruct (for_up_inv (fun i v' => xor_ready v' /\ forall i' x, 0 <= i' < trees k -> i' < i -> 0 <= x < 2 ^ k -> blk v' (i' * 2 ^ k + x) = known ctr i' x)
      f (Z.to_nat (trees k)) 0 v) as (v' & E & [Lv' Zv'] & B) end.
  - split; [by split|]. lia.
  - intros i v1 Hi [Rv1 B1]. assert (Hi' : 0 <= i < trees k) by lia. destruct (compressed_size i Hi') as [-> _].
    destruct (place_tree ctr i hash v1 Hi' Lh (fun j Hj => Bh i j Hi' Hj) Rv1) as (x1 & x2 & x3 & x4 & F1 & F2 & F3 & F4 & F5 & F6 & F7 & F8).
    rewrite F1. cbn [mbind option_bind]. rewrite F2. cbn [mbind option_bind]. rewrite (vget_blk (s_punctured_idx st) i) by lia; rewrite Bi by lia. cbn [mbind option_bind].
    rewrite F3. cbn [mbind option_bind]. rewrite F4. cbn [mbind option_bind]. rewrite F5. cbn [mbind option_bind]. rewrite F6.
    eexists. split; [reflexivity|]. destruct Rv1 as [L1 Z1]. destruct (depth_of_bounds k Hk i Hi') as (_ & _ & _ & D & _).
    assert (Htail : forall q, total k <= q < trees k * 2 ^ k -> q < i * 2 ^ k \/ i * 2 ^ k + 2 ^ depth_of k i <= q).
    { intros q Hq. destruct (trees_index k Hk q ltac:(lia)) as (Q1 & Q2 & Q3). destruct (Z.lt_trichotomy (q / 2 ^ k) i) as [Hlt|[Heq|Hgt]].
      - left. nia.
      - right. pose proof (leaf_inside k Hk (q / 2 ^ k) (q mod 2 ^ k) Q1 Q2). rewrite Heq in *. lia.
      - right. nia. }
    split; [split; [lia|]|].
    + intros q Hq. rewrite F8 by lia. destruct (Htail q Hq); [replace (i * 2 ^ k <=? q) with false by lia; by apply Z1|].
      replace (q <? i * 2 ^ k + 2 ^ depth_of k i) with false by lia. rewrite andb_false_r. by apply Z1.
    + intros i' x Hi1 Hlt Hx. rewrite F8 by nia. destruct (Z.eq_dec i' i) as [-> | Hne].
      * replace (i * 2 ^ k + x - i * 2 ^ k) with x by lia. replace (i * 2 ^ k <=? i * 2 ^ k + x) with true by lia. cbn [andb].
        destruct (Z.ltb_spec (i * 2 ^ k + x) (i * 2 ^ k + 2 ^ depth_of k i)) as [|Hge]; [done|].
        pose proof (leaf_inside k Hk i x Hi' Hx). rewrite Z1 by nia. unfold known, hashed_leaf. specialize (Halpha i Hi').
        replace (x =? alpha i) with false by lia. by replace (x <? 2 ^ depth_of k i) with false by lia.
      * assert (Hlo : i' * 2 ^ k + x < i * 2 ^ k) by nia. replace (i * 2 ^ k <=? i' * 2 ^ k + x) with false by lia. cbn [andb]. apply B1; lia.
  - exists v'. split; [exact E|]. split; [|done]. split; [done|]. intros i x Hi Hx. apply B; lia.
Qed.

Lemma sender_words_run st ctr choice v u V : sender_ready st ctr -> vsize v = trees k * 2 ^ k -> trees k <= vsize u -> vsize V = 128 -> 0 <= choice < 2 ^ 128 ->
  (forall i, 0 <= i < trees k -> blk u i = Z.lxor choice (tree_sum ctr i)) ->
  (forall i, 0 <= i < trees k -> blk v (i * 2 ^ k) = xsum (known ctr i) (pow2n (Z.to_nat k)) /\
    forall j, 0 <= j < k -> blk v (i * 2 ^ k + 1 + j) = xsum (fun x => choose (Z.testbit x j) (known ctr i x)) (pow2n (Z.to_nat k))) ->
  exists u' V', sender_words st v u V = Some (u', V') /\ vsize V' = 128 /\
    forall q, 0 <= q < 128 -> blk V' q = Z.lxor (tree_bit ctr (q / k) (q mod k)) (choose (c q) choice).
Proof using All.
  intros [_ Wctr _ E1 E2 E3 _ _ _ Lm Bm _ _] Lv Lu LV Wc Bu Bv. unfold sender_words. rewrite E1, E2, E3. destruct (trees_bounds k Hk) as (T1 & T2 & _).
  destruct (fill_columns k Hk (fun q => Z.lxor (tree_bit ctr (q / k) (q mod k)) (choose (c q) choice))
    (fun i => Z.lxor choice (hashed_leaf ctr i (alpha i)))
    (fun i '(u, V) => x ← vget u i; y ← vget v (i * 2 ^ k); u ← vset u i (Z.lxor x y);
       V ← for_up (Z.to_nat (Z.min k (u64 (kKappa - i * k)))) 0 (fun j V => x0 ← vget v (i * 2 ^ k + 1 + j); m ← vget (s_mask st) (i * k + j);
         vset V (i * k + j) (Z.lxor x0 (Z.land (Z.lxor x y) m))) V; Some (u, V)) u V Lu LV) as (u' & V' & E & _ & L' & _ & B');
    [|by exists u', V'].
  intros i u1 V1 Hi Lu1 LV1 Hu1. destruct (depth_of_bounds k Hk i Hi) as (D1 & D2 & _ & D3 & _). destruct (Bv i Hi) as [B0 B1].
  assert (H2k : 0 < 2 ^ k) by lia. rewrite (vget_blk u1 i) by lia. cbn [mbind option_bind]. rewrite Hu1 by lia. rewrite Bu by done.
  rewrite (vget_blk v (i * 2 ^ k)) by nia. cbn [mbind option_bind]. rewrite B0, known_sum by done.
  replace (Z.lxor (Z.lxor choice (tree_sum ctr i)) (Z.lxor (tree_sum ctr i) (hashed_leaf ctr i (alpha i)))) with (Z.lxor choice (hashed_leaf ctr i (alpha i))) by xor_ring.
  rewrite vset_Some by lia. cbn [mbind option_bind].
  assert (Hkl : Z.min k (u64 (kKappa - i * k)) = depth_of k i) by (unfold kKappa, depth_of; rewrite u64_small by nia; done). rewrite Hkl.
  assert (Hsz : 1 + k <= 2 ^ k) by (pose proof (pow2_grows (Z.to_nat k)) as H; replace (Z.of_nat (Z.to_nat k)) with k in H by lia; lia).
  destruct (copy_words (fun j => Z.lxor (tree_bit ctr i j) (choose (c (i * k + j)) choice)) (depth_of k i) (i * k)
    (fun j V => x0 ← vget v (i * 2 ^ k + 1 + j); m ← vget (s_mask st) (i * k + j);
       vset V (i * k + j) (Z.lxor x0 (Z.land (Z.lxor choice (hashed_leaf ctr i (alpha i))) m))) V1) as (V2 & E & L2 & B2); [nia|lia|lia| |].
  { intros j l' Hj _ _. rewrite (vget_blk v) by nia. cbn [mbind option_bind]. rewrite (vget_blk (s_mask st)) by nia. cbn [mbind option_bind]. rewrite B1, known_bit, Bm by lia.
    rewrite mask_word by (apply xor_word128; [done|apply leaf_word; [done..|apply Halpha; done]]). rewrite (Hbits i j Hi Hj). f_equal.
    destruct (c (i * k + j)); cbn [choose]; [xor_ring|by rewrite !Z.lxor_0_r]. }
  rewrite E. exists V2. split; [done|]. split; [lia|]. intros q. rewrite B2. destruct (_ && _) eqn:Eq; [|done].
  apply andb_prop in Eq as [Q1 Q2]. replace (i * k + (q - i * k)) with q by lia.
  replace (q / k) with i by (apply (Z.div_unique q k i (q - i * k)); lia). by replace (q mod k) with (q - i * k) by (apply (Z.mod_unique q k i (q - i * k)); lia).
Qed.

Lemma gen_send st ctr choice hash v u V : sender_ready st ctr -> vsize hash = total k - trees k -> xor_ready v -> trees k <= vsize u -> vsize V = 128 ->
  0 <= choice < 2 ^ 128 -> (forall i, 0 <= i < trees k -> blk u i = Z.lxor choice (tree_sum ctr i)) ->
  exists st' hash' v' V', GenSfVole_send rp st hash v u V = Val (st', hash', v', V') /\ st' = set_counter st (u128 (ctr + 1)) /\
    vsize hash' = total k - trees k /\ xor_ready v' /\ vsize V' = 128 /\ forall q, 0 <= q < 128 -> blk V' q = v_word ctr choice q.
Proof using All.
  intros Hst Lh Hv Lu LV Wc Bu. pose proof Hst as [E0 _ _ E1 E2 E3 E4 _ _ _ _ E5 E6]. destruct (trees_bounds k Hk) as (T1 & _). destruct (total_bounds k Hk) as (T2 & T3).
  unfold GenSfVole_send. rewrite LV. change (128 =? 128) with true. cbn [OtStore.enforce mbind res_bind]. rewrite E0, E1.
  destruct (xor_block_run (s_compress st) hash ctr) as (x1 & X1 & X2 & X3); [lia|]. rewrite X1. cbn [mbind res_bind].
  set (x2 := ParaCrHashInplace_128 rp x1).
  assert (Lx2 : vsize x2 = total k - trees k).
  { unfold x2. rewrite para_cr_inplace_map, vsize_map. lia. }
  destruct (place_run st ctr x2 v Hst Lx2) as (v1 & P1 & P2 & P3); [|done|].
  { intros i j Hi Hj. destruct (compressed_size i Hi) as [_ Hc]. destruct (depth_of_bounds k Hk i Hi) as (_ & _ & _ & D & _). unfold x2.
    rewrite (proj2 (hash_block_run rp x1 (i * (2 ^ k - 1) + j) ltac:(nia))), X3 by nia. replace (i * (2 ^ k - 1) + j <? vsize (s_compress st)) with true by lia.
    rewrite E6 by lia. unfold hashed_leaf. replace (0 <? 2 ^ depth_of k i) with true by lia. replace (j + 1 <? 2 ^ depth_of k i) with true by lia.
    by destruct (j + 1 =? alpha i). }
  rewrite P1. cbn [access mbind res_bind]. destruct (reduce_trees (known ctr) v1 P2 P3) as (v2 & R1 & R2 & R3 & R4). rewrite R1. cbn [mbind res_bind].
  destruct (sender_words_run st ctr choice v2 u V Hst R2 Lu LV Wc Bu R4) as (u' & V' & W1 & W2 & W3). rewrite W1. cbn [access mbind res_bind]. rewrite E4.
  unfold v_word, w_word. destruct compact; cbn [andb].
  - rewrite vset_Some by lia. cbn [access mbind res_bind]. eexists _, _, _, _. split; [done|]. split; [done|]. split; [done|]. split; [by split|].
    split; [by rewrite vsize_insert|]. intros q Hq. rewrite blk_insert by lia. destruct (Z.eqb_spec q 0) as [-> |]; [|by apply W3].
    rewrite Hcompact by done. cbn [choose]. by rewrite Z.lxor_nilpotent.
  - eexists _, _, _, _. split; [done|]. split; [done|]. split; [done|]. split; [by split|]. done.
Qed.
End Vole.
