(* ===== verification/SoftspokenRuns.v ===== *)
(** The batches of SoftSpoken: the vectors of both parties, the interface of the outputs, and
    the loops and the consistency check under [converse]. *)

From Stdlib Require Import ZArith Lia ZifyBool Bool.
From stdpp Require Import base numbers list option gmap.
From S2P Require Import Prelude BitBlock BitSet BitSetFacts BitSetOps BitSetGrow BitSetString ChannelKeys OtStore OtStoreFacts OtStoreTheorems.
From S2P Require Import CrHash LinkProgram Context LinkGroup TwoParty Dialogue Transpose TransposeFacts TransposeSquares TransposeTheorems.
From S2P Require Import GaloisField GaloisTheorems Sgrr SgrrFacts SgrrTheorems SgrrFixed Mpfss Ferret FerretRuns OtExtension OtExtensionFacts.
From S2P Require Import Softspoken SoftspokenFacts.

Local Open Scope Z_scope.

(** Two loops in step. *)
Lemma for_res_pair {A B} (P : Z -> A -> B -> Prop) (f : Z -> A -> res A) (g : Z -> B -> res B) n i x y :
  P i x y -> (forall j x y, i <= j < i + Z.of_nat n -> P j x y -> exists x' y', f j x = Val x' /\ g j y = Val y' /\ P (j + 1) x' y') ->
  exists x' y', for_res n i f x = Val x' /\ for_res n i g y = Val y' /\ P (i + Z.of_nat n) x' y'.
Proof.
  revert i x y. induction n as [|n IH]; intros i x y H0 Hs; [exists x, y; by rewrite Z.add_0_r|]. cbn [for_res].
  destruct (Hs i x y ltac:(lia) H0) as (x1 & y1 & -> & -> & H1). cbn [mbind res_bind].
  destruct (IH (i + 1) x1 y1 H1) as (x2 & y2 & E1 & E2 & H2); [intros; apply Hs; [lia|done]|].
  exists x2, y2. split; [done|]. split; [done|]. by replace (i + Z.of_nat (S n)) with (i + 1 + Z.of_nat n) by lia.
Qed.

Lemma subspan_run l pos n : 0 <= pos -> 0 <= n -> pos + n <= vsize l ->
  exists s, subspan l pos n = Some s /\ vsize s = n /\ forall q, 0 <= q < n -> blk s q = blk l (pos + q).
Proof.
  intros H1 H2 H3. unfold subspan. replace ((0 <=? pos) && (0 <=? n) && (pos + n <=? vsize l)) with true by lia. eexists. split; [reflexivity|].
  split; [unfold vsize in *; rewrite length_take, length_drop; lia|]. intros q Hq. by rewrite blk_take_at, blk_drop_at by lia.
Qed.

Lemma put_run dst pos src : 0 <= pos -> pos + vsize src <= vsize dst ->
  exists d, put_bytes dst pos src = Some d /\ vsize d = vsize dst /\
    forall q, 0 <= q -> blk d q = if (pos <=? q) && (q <? pos + vsize src) then blk src (q - pos) else blk dst q.
Proof.
  intros H1 H2. rewrite put_bytes_run by done. pose proof (vsize_nonneg src) as H0. eexists. split; [reflexivity|].
  assert (Lt : vsize (take (Z.to_nat pos) dst) = pos) by (unfold vsize in *; rewrite length_take; lia).
  split; [rewrite !vsize_app, Lt; unfold vsize in *; rewrite length_drop; lia|]. intros q Hq. rewrite !blk_app, Lt.
  destruct (Z.ltb_spec q pos); [by replace (pos <=? q) with false by lia; rewrite blk_take_at by lia|]. replace (pos <=? q) with true by lia. cbn [andb].
  replace (q - pos <? vsize src) with (q <? pos + vsize src) by lia. destruct (q <? pos + vsize src) eqn:E; [done|].
  rewrite blk_drop_at by lia. f_equal. lia.
Qed.

Lemma read_words_run l : (forall i, 0 <= i < vsize l -> 0 <= blk l i < 2 ^ 128) -> read_words (words_bytes l) = Some l.
Proof.
  intros Hl. unfold read_words. rewrite vsize_words. replace (16 * vsize l / 16) with (vsize l) by (rewrite Z.mul_comm, Z.div_mul; lia).
  unfold words_bytes. apply read_array_bytes. intros i Hi. change (256 ^ Z.of_nat 16) with (2 ^ 128). by apply Hl.
Qed.

Lemma dot_app mul x x' y y' : length x = length y -> dot mul (x ++ x') (y ++ y') = Z.lxor (dot mul x y) (dot mul x' y').
Proof.
  revert y. induction x as [|u x IH]; intros [|v y] Hl; try done. cbn [app dot]. rewrite IH by (by injection Hl). by rewrite Z.lxor_assoc.
Qed.

(** *** The state between batches *)

Section Runs.
Context (rp : Z -> Z) (prg64 : Z -> Z -> list Z) (p : cpu) (a b : Z * Z) (fresh : Z -> list Z).
Context (k : Z) (L : Z -> Z -> Z) (alpha : Z -> Z) (c : Z -> bool) (compact mal : bool) (delta ctr0 step n : Z).
Context (choices ce : dynamic_bitset) (pl : plan).
Hypothesis Hwa : pair_words a.
Hypothesis Hwb : pair_words b.
Hypothesis Hrp : forall x, 0 <= x < 2 ^ 128 -> 0 <= rp x < 2 ^ 128.
Hypothesis Hk : 1 <= k <= 30.
Hypothesis Halpha : forall i, 0 <= i < trees k -> 0 <= alpha i < 2 ^ depth_of k i.
Hypothesis Hbits : forall i j, 0 <= i < trees k -> 0 <= j < depth_of k i -> Z.testbit (alpha i) j = c (i * k + j).
Hypothesis Hcompact : compact = true -> c 0 = true.
Hypothesis HL : forall i x, 0 <= i < trees k -> 0 <= x < 2 ^ depth_of k i -> 0 <= L i x < 2 ^ 128.
Hypothesis Wdelta : 0 <= delta < 2 ^ 128.
Hypothesis Bdelta : forall q, 0 <= q < 128 -> Z.testbit delta q = c q.
Hypothesis Hstep : 1 <= step < 2 ^ 24.
Hypothesis Hn : 0 < n < 2 ^ 60.
Hypothesis Wce : wf 128 ce.
Hypothesis Nce : m_bits_number ce = all_batch_num pl * 128.
Hypothesis Bce : forall q, 0 <= q < n -> Z.testbit (value 128 ce) q = chosen choices q.
Local Abbreviation A := (all_batch_num pl).
Hypothesis HA : 0 < A < 2 ^ 56.
Hypothesis HAn : n <= 128 * A.

Local Abbreviation sready := (sender_ready k L alpha c compact).
Local Abbreviation rready := (receiver_ready k L compact).

(** The choices, the counter and the vectors of batch [g]. *)
Local Abbreviation R g := (blk (m_blocks ce) g).
Definition ctr_at (g : Z) : Z := u128 (ctr0 + g).
Definition W_of (g : Z) : list Z := w_word rp k L compact (ctr_at g) (R g) <$> seqZ 0 128.
Definition V_of (g : Z) : list Z := v_word rp k L c compact (ctr_at g) (R g) <$> seqZ 0 128.

Lemma ctr_next g : u128 (ctr_at g + 1) = ctr_at (g + 1).
Proof using All. unfold ctr_at, u128. rewrite Zplus_mod_idemp_l. f_equal. lia. Qed.

Lemma ctr_word g : 0 <= ctr_at g < 2 ^ 128.
Proof using All. apply Z.mod_pos_bound. lia. Qed.

Lemma R_word g : 0 <= R g < 2 ^ 128.
Proof using All. apply (blk_range 128). apply Wce. Qed.

Lemma ce_size : vsize (m_blocks ce) = A.
Proof using All.
  destruct Wce as [_ E _ _]. rewrite E, Nce. destruct (blocks_required_bound 128 (A * 128)) as [_ H]; [lia|]. lia.
Qed.

Lemma W_matrix g : matrix (W_of g).
Proof using All. apply matrix_columns. intros q Hq. apply (w_word_range rp k L alpha c compact); try done; [apply ctr_word|apply R_word]. Qed.

Lemma V_matrix g : matrix (V_of g).
Proof using All. apply matrix_columns. intros q Hq. apply (v_word_range rp k L alpha c compact); try done; [apply ctr_word|apply R_word]. Qed.

(** The rows of the two matrices. *)
Lemma rows_agree g : exists T Q, transposed p a b (W_of g) = Val T /\ transposed p a b (V_of g) = Val Q /\ vsize T = 128 /\ vsize Q = 128 /\
  forall j, 0 <= j < 128 -> 0 <= blk Q j < 2 ^ 128 /\ blk T j = Z.lxor (blk Q j) (choose (Z.testbit (R g) j) delta) /\
    (compact = true -> Z.testbit (blk Q j) 0 = false).
Proof using All.
  destruct (transposed_ok p a b Hwa Hwb (W_of g) (W_matrix g)) as (T & ET & HT). destruct (transposed_ok p a b Hwa Hwb (V_of g) (V_matrix g)) as (Q & EQ & HQ).
  exists T, Q. split; [done|]. split; [done|]. split; [apply HT|]. split; [apply HQ|]. intros j Hj. split; [by apply HQ|]. split.
  - apply (transposed_difference (W_of g) (V_of g) c (R g) delta); try done. intros q Hq. unfold W_of, V_of. by rewrite !blk_seqZ.
  - intros Hc. destruct HQ as (_ & HQ). specialize (HQ j 0 Hj ltac:(lia)). unfold mbit in HQ. rewrite HQ. unfold V_of. rewrite blk_seqZ by lia. unfold v_word, w_word. rewrite Hc, Hcompact by done. cbn [andb choose Z.eqb].
    by rewrite Z.lxor_nilpotent, Z.bits_0.
Qed.

Context {Os Or : Type}.

Record sender_at (g : Z) (s : send_vars (O := Os)) : Prop := {
  sa_ready : sready (sv_sender s) (ctr_at g);
  sa_mal : s_mal (sv_sender s) = mal;
  sa_step : s_step (sv_sender s) = step;
  sa_hash : vsize (sv_hash s) = total k - trees k;
  sa_xor : xor_ready k (sv_xor s);
  sa_all : vsize (sv_all s) = A;
  sa_V : vsize (sv_V s) = step + 1;
  sa_slots j : 0 <= j < step + 1 -> exists V, vget (sv_V s) j = Some V /\ vsize V = 128;
  sa_kept g' : mal = true -> 0 <= g' < g -> vget (sv_all s) g' = Some (V_of g');
  sa_delta : s_delta (sv_sender s) = delta
}.

Record receiver_at (g : Z) (s : recv_vars (O := Or)) : Prop := {
  ra_ready : rready (rv_receiver s) (ctr_at g);
  ra_mal : r_mal (rv_receiver s) = mal;
  ra_step : r_step (rv_receiver s) = step;
  ra_xor : xor_ready k (rv_xor s);
  ra_U : vsize (rv_U s) = trees k * step;
  ra_all : vsize (rv_all s) = A;
  ra_W : vsize (rv_W s) = step + 1;
  ra_slots j : 0 <= j < step + 1 -> exists W, vget (rv_W s) j = Some W /\ vsize W = 128;
  ra_kept g' : mal = true -> 0 <= g' < g -> vget (rv_all s) g' = Some (W_of g')
}.

(** The masked choices of batch [g]. *)
Definition masked (g i : Z) : Z := Z.lxor (R g) (tree_sum rp k L (ctr_at g) i).

Lemma masked_word g i : 0 <= i < trees k -> 0 <= masked g i < 2 ^ 128.
Proof using All.
  intros Hi. apply xor_word128; [apply R_word|]. apply xsum_word. intros x Hx. apply (leaf_word rp k L alpha c compact); try done; [apply ctr_word|lia].
Qed.

Lemma set_slot {B} (l : list B) i x j : 0 <= i < vsize l -> vget (<[Z.to_nat i := x]> l) j = if j =? i then Some x else vget l j.
Proof using All. apply vget_insert. Qed.

Lemma ready_counter st ctr ctr' : 0 <= ctr' < 2 ^ 128 -> sready st ctr -> sready (set_counter st ctr') ctr'.
Proof using All. intros Hc []. by split. Qed.

Lemma ready_counter_r st ctr ctr' : rready st ctr -> rready (set_counter_r st ctr') ctr'.
Proof using All. intros []. by split. Qed.

Lemma send_vole_run g s u slot : sender_at g s -> 0 <= g < A -> 0 <= slot < step + 1 -> trees k <= vsize u ->
  (forall i, 0 <= i < trees k -> blk u i = masked g i) ->
  exists s', send_vole rp u slot g s = Val s' /\ sender_at (g + 1) s' /\ sv_out s' = sv_out s /\ vget (sv_V s') slot = Some (V_of g).
Proof using All.
  intros [S1 S2 S3 S4 S5 S6 S7 S8 S9 S10] Hg Hslot Lu Bu. unfold send_vole. destruct (S8 slot Hslot) as (V & EV & LV). rewrite EV. cbn [access mbind res_bind].
  destruct (gen_send rp k L alpha c compact Hrp Hk Halpha Hbits Hcompact HL (sv_sender s) (ctr_at g) (R g) (sv_hash s) (sv_xor s) u V S1 S4 S5 Lu LV (R_word g) Bu)
    as (st' & hash' & v' & V' & E & -> & Lh & Rv & LV' & BV). rewrite E. cbn [mbind res_bind].
  assert (EV' : V' = V_of g) by (apply blk_ext; [unfold V_of; rewrite vsize_seqZ; lia|]; intros q Hq; unfold V_of; rewrite blk_seqZ by lia; apply BV; lia).
  rewrite (vset_Some (sv_V s)) by lia. cbn [access mbind res_bind s_mal set_counter]. rewrite S2, ctr_next.
  set (all' := if mal then <[Z.to_nat g := V']> (sv_all s) else sv_all s).
  assert (Ea : (if mal then access (vset (sv_all s) g V') else Val (sv_all s)) = Val all') by (unfold all'; destruct mal; [rewrite vset_Some by lia|]; done).
  rewrite Ea. cbn [mbind res_bind]. eexists. split; [reflexivity|]. split; [|split; [done|]].
  - split; cbn [sv_sender sv_hash sv_xor sv_all sv_V s_mal s_step set_counter]; try done.
    + apply ready_counter with (ctr_at g); [apply ctr_word|done].
    + unfold all'. destruct mal; [by rewrite vsize_insert|done].
    + by rewrite vsize_insert.
    + intros j Hj. rewrite set_slot by lia. destruct (j =? slot); [by exists V'|by apply S8].
    + intros g' Hm Hg'. unfold all'. rewrite Hm. rewrite set_slot by lia. destruct (Z.eqb_spec g' g) as [-> |]; [by rewrite EV'|apply S9; [done|lia]].
  - cbn [sv_V]. rewrite set_slot, Z.eqb_refl by lia. by rewrite EV'.
Qed.

Lemma recv_vole_run g s first size slot : receiver_at g s -> 0 <= g < A -> 0 <= slot < step + 1 -> 0 <= first -> trees k <= size -> first + size <= trees k * step ->
  exists s', recv_vole rp ce first size slot g s = Val s' /\ receiver_at (g + 1) s' /\ rv_out s' = rv_out s /\
    (forall j, vget (rv_W s') j = if j =? slot then Some (W_of g) else vget (rv_W s) j) /\
    forall q, 0 <= q -> blk (rv_U s') q = if (first <=? q) && (q <? first + trees k) then masked g (q - first) else blk (rv_U s) q.
Proof using All.
  intros [S1 S2 S3 S5 SU S6 S7 S8 S9] Hg Hslot Hf Hs1 Hs2. destruct (trees_bounds k Hk) as (T1 & _). pose proof ce_size as Hce. unfold recv_vole.
  rewrite (vget_blk (m_blocks ce)) by lia. cbn [access mbind res_bind].
  destruct (subspan_run (rv_U s) first size) as (u & Eu & Lu & Bu); [lia|lia|lia|]. rewrite Eu. cbn [access mbind res_bind].
  destruct (S8 slot Hslot) as (W & EW & LW). rewrite EW. cbn [access mbind res_bind].
  destruct (gen_recv rp k L alpha c compact Hrp Hk Halpha Hbits Hcompact HL (rv_receiver s) (ctr_at g) (R g) (rv_xor s) u W S1 S5 ltac:(lia) LW)
    as (st' & v' & u' & W' & E & -> & Rv & Lu' & Bu' & LW' & BW). rewrite E. cbn [mbind res_bind].
  assert (EW' : W' = W_of g) by (apply blk_ext; [unfold W_of; rewrite vsize_seqZ; lia|]; intros q Hq; unfold W_of; rewrite blk_seqZ by lia; apply BW; lia).
  destruct (put_run (rv_U s) first u') as (U' & EU & LU & BU); [lia|lia|]. rewrite EU. cbn [access mbind res_bind].
  rewrite (vset_Some (rv_W s)) by lia. cbn [access mbind res_bind r_mal set_counter_r]. rewrite S2, ctr_next.
  set (all' := if mal then <[Z.to_nat g := W']> (rv_all s) else rv_all s).
  assert (Ea : (if mal then access (vset (rv_all s) g W') else Val (rv_all s)) = Val all') by (unfold all'; destruct mal; [rewrite vset_Some by lia|]; done).
  rewrite Ea. cbn [mbind res_bind]. eexists. split; [reflexivity|]. split; [|split; [done|split]].
  - split; cbn [rv_receiver rv_xor rv_U rv_all rv_W r_mal r_step set_counter_r]; try done.
    + by apply ready_counter_r with (ctr_at g).
    + lia.
    + unfold all'. destruct mal; [by rewrite vsize_insert|done].
    + by rewrite vsize_insert.
    + intros j Hj. rewrite set_slot by lia. destruct (j =? slot); [by exists W'|by apply S8].
    + intros g' Hm Hg'. unfold all'. rewrite Hm. rewrite set_slot by lia. destruct (Z.eqb_spec g' g) as [-> |]; [by rewrite EW'|apply S9; [done|lia]].
  - cbn [rv_W]. intros j. rewrite set_slot by lia. by rewrite EW'.
  - cbn [rv_U]. intros q Hq. rewrite BU, Lu', Lu by lia. destruct ((first <=? q) && (q <? first + size)) eqn:Ein.
    + apply andb_prop in Ein as [I1 I2]. rewrite Bu' by lia. replace (first <=? q) with true by lia. cbn [andb].
      replace (q - first <? trees k) with (q <? first + trees k) by lia. destruct (q <? first + trees k); [done|]. rewrite Bu by lia. f_equal. lia.
    + by replace ((first <=? q) && (q <? first + trees k)) with false by lia.
Qed.

(** *** The outputs *)

Context (es : list Z -> Z -> Z -> Os -> res (list Z * Os)) (er : list Z -> Z -> Z -> Or -> res (list Z * Or)) (Done : Z -> Os -> Or -> Prop).

(** The interface of the outputs: writing the rows of a batch advances what is done. *)
Definition emits : Prop := forall pos lim Q T os or_, Done pos os or_ -> 0 <= pos -> 0 < lim <= 128 -> pos + lim <= n -> vsize Q = 128 -> vsize T = 128 ->
  (forall j, 0 <= j < lim -> 0 <= blk Q j < 2 ^ 128 /\ blk T j = Z.lxor (blk Q j) (choose (chosen choices (pos + j)) delta) /\
    (compact = true -> Z.testbit (blk Q j) 0 = false)) ->
  exists Q' T' os' or', es Q pos lim os = Val (Q', os') /\ er T pos lim or_ = Val (T', or') /\ vsize Q' = 128 /\ vsize T' = 128 /\ Done (pos + lim) os' or'.
Hypothesis Hemit : emits.

Lemma emit_both G G' g slot slot' lim s r : sender_at G s -> receiver_at G' r -> 0 <= g < A -> 0 <= slot < step + 1 -> 0 <= slot' < step + 1 ->
  0 < lim <= 128 -> 128 * g + lim <= n -> Done (128 * g) (sv_out s) (rv_out r) ->
  vget (sv_V s) slot = Some (V_of g) -> vget (rv_W r) slot' = Some (W_of g) ->
  exists s' r', send_emit p a b es slot (128 * g) lim s = Val s' /\ recv_emit p a b er slot' (128 * g) lim r = Val r' /\
    sender_at G s' /\ receiver_at G' r' /\ Done (128 * g + lim) (sv_out s') (rv_out r') /\
    (forall j, j <> slot' -> vget (rv_W r') j = vget (rv_W r) j) /\ rv_U r' = rv_U r.
Proof using All.
  intros HS HR Hg Hs Hs' Hlim Hpos HD EV EW. destruct (rows_agree g) as (T & Q & ET & EQ & LT & LQ & Hrows).
  destruct (Hemit (128 * g) lim Q T (sv_out s) (rv_out r) HD ltac:(lia) Hlim Hpos LQ LT) as (Q' & T' & os' & or' & E1 & E2 & L1 & L2 & HD').
  { intros j Hj. destruct (Hrows j ltac:(lia)) as (WQ & -> & HC). split; [done|]. split; [|done]. do 2 f_equal. rewrite (block_bits ce) by (done || lia). apply Bce. lia. }
  unfold send_emit, recv_emit. rewrite EV, EW. cbn [access mbind res_bind]. rewrite EQ, ET. cbn [mbind res_bind]. rewrite E1, E2. cbn [mbind res_bind].
  pose proof (sa_V _ _ HS) as LV. pose proof (ra_W _ _ HR) as LW. rewrite !vset_Some by lia. cbn [access mbind res_bind].
  eexists _, _. split; [reflexivity|]. split; [reflexivity|]. split; [|split; [|split; [done|split; [|done]]]].
  - destruct HS as [S1 S2 S3 S4 S5 S6 S7 S8 S9 S10]. split; cbn [sv_sender sv_hash sv_xor sv_all sv_V]; try done; [by rewrite vsize_insert|].
    intros j Hj. rewrite set_slot by lia. destruct (j =? slot); [by exists Q'|by apply S8].
  - destruct HR as [S1 S2 S3 S5 SU S6 S7 S8 S9]. split; cbn [rv_receiver rv_xor rv_U rv_all rv_W]; try done; [by rewrite vsize_insert|].
    intros j Hj. rewrite set_slot by lia. destruct (j =? slot'); [by exists T'|by apply S8].
  - cbn [rv_W]. intros j Hj. rewrite set_slot by lia. by replace (j =? slot') with false by lia.
Qed.

(** *** The loops *)

(** Both parties after [g] batches. *)
Definition batches_done (g : Z) (s : send_vars) (r : recv_vars) : Prop :=
  sender_at g s /\ receiver_at g r /\ Done (Z.min n (128 * g)) (sv_out s) (rv_out r).

Lemma recv_voles t r : receiver_at (t * step) r -> 0 <= t -> (t + 1) * step <= A ->
  exists r', for_res (Z.to_nat step) 0 (fun i s => recv_vole rp ce (i * trees k) (trees k) i (t * step + i) s) r = Val r' /\
    receiver_at ((t + 1) * step) r' /\ rv_out r' = rv_out r /\ (forall j, 0 <= j < step -> vget (rv_W r') j = Some (W_of (t * step + j))) /\
    forall i j, 0 <= i < step -> 0 <= j < trees k -> blk (rv_U r') (i * trees k + j) = masked (t * step + i) j.
Proof using All.
  intros HR Ht HtA. destruct (trees_bounds k Hk) as (T1 & _).
  destruct (for_res_inv (fun i r' => receiver_at (t * step + i) r' /\ rv_out r' = rv_out r /\ (forall j, 0 <= j < i -> vget (rv_W r') j = Some (W_of (t * step + j))) /\
    forall i' j, 0 <= i' < i -> 0 <= j < trees k -> blk (rv_U r') (i' * trees k + j) = masked (t * step + i') j)
    (fun i s => recv_vole rp ce (i * trees k) (trees k) i (t * step + i) s) (Z.to_nat step) 0 r) as (r' & E & H1 & H2 & H3 & H4).
  - rewrite Z.add_0_r. split; [done|]. split; [done|]. split; lia.
  - intros i r1 Hi (H1 & H2 & H3 & H4). assert (0 <= t * step) by nia.
    destruct (recv_vole_run (t * step + i) r1 (i * trees k) (trees k) i H1 ltac:(nia) ltac:(lia) ltac:(nia) ltac:(lia) ltac:(nia)) as (r2 & E2 & R2 & O2 & W2 & U2).
    exists r2. split; [exact E2|]. split; [by replace (t * step + (i + 1)) with (t * step + i + 1) by lia|]. split; [by rewrite O2|]. split.
    + intros j Hj. rewrite W2. destruct (Z.eqb_spec j i) as [-> |]; [done|apply H3; lia].
    + intros i' j Hi' Hj. rewrite U2 by nia. destruct (Z.eq_dec i' i) as [-> | Hne].
      * replace ((i * trees k <=? i * trees k + j) && (i * trees k + j <? i * trees k + trees k)) with true by lia. f_equal. lia.
      * assert (i' * trees k + j < i * trees k) by nia. replace (i * trees k <=? i' * trees k + j) with false by lia. cbn [andb]. apply H4; lia.
  - rewrite Z2Nat.id, Z.add_0_l in * by lia. exists r'. split; [exact E|]. split; [by replace ((t + 1) * step) with (t * step + step) by lia|].
    split; [done|]. split; [intros j Hj; apply H3; lia|]. intros i j Hi Hj. apply H4; lia.
Qed.

Context (ph : list Z) (nm : bytes) (kk rr : Z).
Hypothesis Hnd : NoDup ph.
Hypothesis Hph : vsize ph = 2.
Hypothesis Hrr : rr = 0 \/ rr = 1.
Hypothesis Hsuper : 0 <= super_batch_num pl /\ 128 * (super_batch_num pl * step) <= n /\ super_batch_num pl * step <= A.

Lemma super_converse t s r : 0 <= t < super_batch_num pl -> batches_done (t * step) s r ->
  converse ph nm kk rr 1 0 (send_super rp p a b es t s) (recv_super rp p a b er ce t r) (batches_done ((t + 1) * step)).
Proof using All.
  intros Ht (HS & HR & HD). destruct (trees_bounds k Hk) as (T1 & _). assert (Hb : 0 <= t * step /\ (t + 1) * step <= A /\ 128 * ((t + 1) * step) <= n) by nia.
  replace (Z.min n (128 * (t * step))) with (128 * (t * step)) in HD by lia.
  unfold send_super, recv_super. rewrite (sa_step _ _ HS), (ra_step _ _ HR), (sr_num _ _ _ _ _ _ _ (sa_ready _ _ HS)), (rr_num _ _ _ _ _ (ra_ready _ _ HR)).
  destruct (recv_voles t r HR ltac:(lia) ltac:(lia)) as (r1 & E1 & R1 & O1 & W1 & U1). receiver_lifts E1. sender_ctx. receiver_ctx. change 1%N with (1 + 0)%N. sends_up.
  pose proof (ra_U _ _ R1) as LU.
  assert (HU : forall q, 0 <= q < vsize (rv_U r1) -> 0 <= blk (rv_U r1) q < 2 ^ 128).
  { intros q Hq. rewrite LU in Hq. pose proof (Z.div_mod q (trees k) ltac:(lia)) as Dm. pose proof (Z.mod_pos_bound q (trees k) ltac:(lia)) as Mb.
    rewrite Dm, (Z.mul_comm (trees k)), U1; [apply masked_word| |]; [done| |done]. split; [apply Z.div_pos; lia|apply Z.div_lt_upper_bound; lia]. }
  eapply converse_lift_l; [assumption..|by rewrite read_words_run|]. rewrite LU. apply converse_check_l; [assumption..|rewrite u64_small by nia; lia|].
  match goal with |- converse _ _ _ _ _ _ (lift (for_res ?m0 ?i0 ?f0 ?s0)) (lift (for_res ?m0 ?i0 ?f1 ?s1)) _ =>
    destruct (for_res_pair (fun i s' r' => sender_at (t * step + i) s' /\ receiver_at ((t + 1) * step) r' /\ Done (128 * (t * step + i)) (sv_out s') (rv_out r') /\
      (forall j, i <= j < step -> vget (rv_W r') j = Some (W_of (t * step + j)))) f0 f1 m0 i0 s0 s1) as (s2 & r2 & F1 & F2 & S2 & R2 & D2 & _) end.
  - rewrite Z.add_0_r, O1. split; [done|]. split; [done|]. split; [done|]. intros j Hj. apply W1. lia.
  - intros i s' r' Hi (S' & R' & D' & W'). destruct (subspan_run (rv_U r1) (i * trees k) (trees k)) as (u & Eu & Lu & Bu); [nia|lia|nia|].
    rewrite Eu. cbn [access mbind res_bind].
    destruct (send_vole_run (t * step + i) s' u i S' ltac:(nia) ltac:(lia) ltac:(lia)) as (s3 & E3 & S3 & O3 & V3); [intros j Hj; rewrite Bu, U1 by lia; done|].
    rewrite E3. cbn [mbind res_bind]. unfold kBatchSize. replace (t * (step * 128) + i * 128) with (128 * (t * step + i)) by lia. rewrite <- O3 in D'.
    destruct (emit_both _ _ (t * step + i) i i 128 s3 r' S3 R' ltac:(nia) ltac:(lia) ltac:(lia) ltac:(lia) ltac:(nia) D' V3 (W' i ltac:(lia)))
      as (s4 & r4 & F3 & F4 & S4 & R4 & D4 & W4 & _).
    exists s4, r4. split; [done|]. split; [done|]. split; [by replace (t * step + (i + 1)) with (t * step + i + 1) by lia|]. split; [done|].
    split; [by replace (128 * (t * step + (i + 1))) with (128 * (t * step + i) + 128) by lia|]. intros j Hj. rewrite W4 by lia. apply W'. lia.
  - rewrite F1, F2. apply converse_ret; [assumption..|]. rewrite Z2Nat.id, Z.add_0_l in * by lia.
    replace (t * step + step) with ((t + 1) * step) in * by lia. split; [done|]. split; [done|]. by replace (Z.min n (128 * ((t + 1) * step))) with (128 * ((t + 1) * step)) by lia.
Qed.

Hypothesis Hoffset : batch_offset pl = 128 * (super_batch_num pl * step).
Hypothesis Hbatches : 0 <= batch_num pl <= step + 1 /\ A = super_batch_num pl * step + batch_num pl.

Lemma normal_converse t s r : 0 <= t < batch_num pl -> batches_done (super_batch_num pl * step + t) s r ->
  converse ph nm kk rr 1 0 (send_normal rp p a b es n pl t s) (recv_normal rp p a b er n pl ce t r) (batches_done (super_batch_num pl * step + (t + 1))).
Proof using All.
  intros Ht (HS & HR & HD). destruct (trees_bounds k Hk) as (T1 & _). set (g := super_batch_num pl * step + t) in *. assert (Hg : 0 <= g < A) by nia.
  unfold send_normal, recv_normal. rewrite (sa_step _ _ HS), (ra_step _ _ HR), (sr_num _ _ _ _ _ _ _ (sa_ready _ _ HS)), (rr_num _ _ _ _ _ (ra_ready _ _ HR)).
  rewrite (ra_U _ _ HR). fold g.
  destruct (recv_vole_run g r 0 (trees k * step) t HR Hg ltac:(lia) ltac:(lia) ltac:(nia) ltac:(lia)) as (r1 & E1 & R1 & O1 & W1 & U1). receiver_lifts E1.
  sender_ctx. receiver_ctx. change 1%N with (1 + 0)%N. sends_up. pose proof (ra_U _ _ R1) as LU. set (u := take (Z.to_nat (trees k)) (rv_U r1)).
  assert (Lu : vsize u = trees k) by (unfold u, vsize in *; rewrite length_take; nia).
  assert (Bu : forall i, 0 <= i < trees k -> blk u i = masked g i).
  { intros i Hi. unfold u. rewrite blk_take_at, U1 by lia. replace ((0 <=? i) && (i <? 0 + trees k)) with true by lia. by rewrite Z.sub_0_r. }
  eapply converse_lift_l; [assumption..|rewrite read_words_run; [reflexivity|]|]. { intros i Hi. rewrite Bu by lia. apply masked_word. lia. }
  apply converse_check_l; [assumption..|lia|].
  destruct (send_vole_run g s u t HS Hg ltac:(lia) ltac:(lia) Bu) as (s1 & E2 & S1 & O2 & V1). sender_lifts E2.
  unfold kBatchSize. rewrite Hoffset. replace (128 * (super_batch_num pl * step) + t * 128) with (128 * g) by lia.
  replace (super_batch_num pl * step + (t + 1)) with (g + 1) by lia. rewrite <- O1, <- O2 in HD. specialize (W1 t) as W1'. rewrite Z.eqb_refl in W1'.
  destruct (Z.ltb_spec (128 * g) n) as [Hlt|Hge].
  - replace (n - 128 * (super_batch_num pl * step) - t * 128) with (n - 128 * g) by lia. set (lim := Z.min 128 (n - 128 * g)).
    replace (Z.min n (128 * g)) with (128 * g) in HD by lia.
    destruct (emit_both _ _ g t t lim s1 r1 S1 R1 Hg ltac:(lia) ltac:(lia) ltac:(lia) ltac:(lia) HD V1 W1') as (s2 & r2 & F1 & F2 & S2 & R2 & D2 & _).
    rewrite F1, F2. apply converse_ret; [assumption..|]. split; [done|]. split; [done|]. by replace (Z.min n (128 * (g + 1))) with (128 * g + lim) by lia.
  - apply converse_ret; [assumption..|]. split; [done|]. split; [done|]. replace (Z.min n (128 * (g + 1))) with n by lia. by replace (Z.min n (128 * g)) with n in HD by lia.
Qed.

Lemma supers_converse s r : batches_done 0 s r ->
  converse ph nm kk rr (Z.to_N (super_batch_num pl)) 0
    (for_prog (Z.to_nat (super_batch_num pl)) 0 (send_super rp p a b es) s) (for_prog (Z.to_nat (super_batch_num pl)) 0 (recv_super rp p a b er ce) r)
    (batches_done (super_batch_num pl * step)).
Proof using All.
  intros H0. eapply (converse_weaken _ _ _ _ Hnd Hph Hrr).
  - eapply (converse_for _ _ _ _ Hnd Hph Hrr 1 0 _ 0 _ _ (fun t => batches_done (t * step)) s r); [done|]. intros t s' r' Ht Hd. apply super_converse; [lia|done].
  - lia.
  - lia.
  - intros s' r' Hd. rewrite Z.add_0_l, Z2Nat.id in Hd by lia. exact Hd.
Qed.

Lemma normals_converse s r : batches_done (super_batch_num pl * step) s r ->
  converse ph nm kk rr (Z.to_N (batch_num pl)) 0
    (for_prog (Z.to_nat (batch_num pl)) 0 (send_normal rp p a b es n pl) s) (for_prog (Z.to_nat (batch_num pl)) 0 (recv_normal rp p a b er n pl ce) r)
    (batches_done A).
Proof using All.
  intros H0. eapply (converse_weaken _ _ _ _ Hnd Hph Hrr).
  - eapply (converse_for _ _ _ _ Hnd Hph Hrr 1 0 _ 0 _ _ (fun t => batches_done (super_batch_num pl * step + t)) s r); [by rewrite Z.add_0_r|].
    intros t s1 r1 Ht Hd1. apply normal_converse; [lia|done].
  - lia.
  - lia.
  - intros s1 r1 Hd1. rewrite Z.add_0_l, Z2Nat.id in Hd1 by lia. by replace A with (super_batch_num pl * step + batch_num pl) by lia.
Qed.

(** *** The check *)

(** Column [q] of all batches. *)
Definition column_of (M : Z -> list Z) (q : Z) : list Z := (fun g => blk (M g) q) <$> seqZ 0 A.

Lemma column_sums_run chi all M : Forall (word 64) chi -> vsize chi = 2 * A -> (forall g, 0 <= g < A -> vget all g = Some (M g) /\ vsize (M g) = 128) ->
  exists t, column_sums pl chi all = Val t /\ vsize t = 128 /\
    forall q, 0 <= q < 128 -> Gf64Reduce (blk t q) = dot (gmul 64 kGfMod64) chi (halves64 (column_of M q)).
Proof using All.
  intros Hchi Lchi HM. unfold column_sums, kKappa.
  assert (Htail : take (Z.to_nat (2 * A)) chi = chi) by (unfold vsize in Lchi; apply take_ge; lia).
  match goal with |- exists t, for_res ?m0 ?i0 ?f ?s0 = _ /\ _ =>
    destruct (for_res_inv (fun g t => vsize t = 128 /\ forall q, 0 <= q < 128 -> word 128 (blk t q) /\
      Gf64Reduce (blk t q) = dot (gmul 64 kGfMod64) (take (Z.to_nat (2 * g)) chi) (halves64 ((fun g => blk (M g) q) <$> seqZ 0 g))) f m0 i0 s0) as (t & E & Lt & Bt) end.
  - split; [by rewrite vsize_replicate|]. intros q Hq. rewrite blk_replicate by lia. split; [by vm_compute|]. by change (Z.to_nat (2 * 0)) with 0%nat.
  - intros g t Hg [Lt Bt]. assert (Hg' : 0 <= g < A) by lia. destruct (HM g Hg') as [EM LM].
    destruct (subspan_run chi (g * 2) 2) as (rand & Er & Lr & Br); [lia|lia|lia|].
    assert (Hrand : rand = [blk chi (2 * g); blk chi (2 * g + 1)]).
    { apply blk_ext; [done|]. intros q Hq. rewrite Br by lia. replace (g * 2) with (2 * g) by lia. assert (q = 0 \/ q = 1) as [-> | ->] by lia; [by rewrite Z.add_0_r|done]. }
    assert (Wr : Forall (word 64) [blk chi (2 * g); blk chi (2 * g + 1)]).
    { pose proof (proj1 (blk_Forall (word 64) chi) Hchi) as HF. repeat constructor; apply HF; lia. }
    match goal with |- exists t', for_res ?m0 ?i0 ?f ?s0 = _ /\ _ =>
      destruct (for_res_inv (fun q t' => vsize t' = 128 /\ forall j, 0 <= j < 128 -> blk t' j = if j <? q
        then Z.lxor (blk t j) (clmul_sum64 rand [lane64 (blk (M g) j) 0; lane64 (blk (M g) j) 1] 0) else blk t j) f m0 i0 s0) as (t' & E' & Lt' & Bt') end.
    { split; [done|]. intros j Hj. by replace (j <? 0) with false by lia. }
    { intros q t' Hq [L' B']. rewrite Er. cbn [access mbind res_bind]. rewrite EM. cbn [access mbind res_bind]. rewrite (vget_blk (M g)) by lia. cbn [access mbind res_bind].
      unfold Gf64ClMul_span. rewrite Lr. cbn [OtStore.enforce mbind res_bind]. change (2 =? vsize [lane64 (blk (M g) q) 0; lane64 (blk (M g) q) 1]) with true.
      cbn [OtStore.enforce mbind res_bind]. rewrite (vget_blk t') by lia. cbn [access mbind res_bind]. rewrite vset_Some by lia. cbn [access]. eexists. split; [reflexivity|].
      split; [by rewrite vsize_insert|]. intros j Hj. rewrite blk_insert by lia. destruct (Z.eqb_spec j q) as [-> |].
      - rewrite B' by lia. replace (q <? q) with false by lia. by replace (q <? q + 1) with true by lia.
      - rewrite B' by lia. by replace (j <? q + 1) with (j <? q) by lia. }
    exists t'. split; [exact E'|]. split; [done|]. intros q Hq. rewrite Bt' by done. replace (q <? 0 + Z.of_nat (Z.to_nat 128)) with true by lia.
    destruct (Bt q Hq) as [W0 D0]. set (x := blk (M g) q).
    destruct (clmul_sum64_run 2 rand [lane64 x 0; lane64 x 1] 0) as [W1 D1]; [by rewrite Hrand|by rewrite Hrand|repeat constructor; apply lane64_word|by rewrite Hrand|by vm_compute|].
    split; [apply word_xor; done || lia|]. rewrite reduce64_xor, D0, D1. change (Gf64Reduce 0) with 0. rewrite Z.lxor_0_l.
    replace (Z.to_nat (2 * (g + 1))) with (Z.to_nat (2 * g) + 2)%nat by lia. rewrite <- take_take_drop. rewrite seqZ_app by lia. rewrite fmap_app.
    assert (Eh : forall l l', halves64 (l ++ l') = halves64 l ++ halves64 l') by (intros l l'; unfold halves64; apply bind_app). rewrite Eh.
    rewrite dot_app by (pose proof (vsize_halves ((fun g0 => blk (M g0) q) <$> seqZ 0 g)) as Hv; rewrite vsize_seqZ in Hv by lia; unfold vsize in *; rewrite length_take; lia).
    f_equal. rewrite Z.add_0_l. change (seqZ g 1) with [g]. cbn [fmap list_fmap]. fold x.
    assert (Ed : take 2 (drop (Z.to_nat (2 * g)) chi) = rand); [|by rewrite Ed].
    { unfold subspan in Er. replace ((0 <=? g * 2) && (0 <=? 2) && (g * 2 + 2 <=? vsize chi)) with true in Er by lia. injection Er as <-. by replace (g * 2) with (2 * g) by lia. }
  - exists t. split; [exact E|]. split; [done|]. intros q Hq. destruct (Bt q Hq) as [_ ->]. rewrite Z.add_0_l, Z2Nat.id by lia. by rewrite Htail.
Qed.

Lemma columns_differ q : 0 <= q < 128 -> column_of V_of q = (fun g => Z.lxor (blk (W_of g) q) (choose (c q) (R g))) <$> seqZ 0 A.
Proof using All. intros Hq. apply seqZ_fmap_ext. intros g Hg. unfold V_of, W_of. by rewrite !blk_seqZ. Qed.

Context `{WordSerializer} (rnd_seed : Z).
Hypothesis Hseed : word 128 rnd_seed.
Hypothesis Hprg64 : forall seed m, 0 <= m -> vsize (prg64 seed m) = m /\ Forall (word 64) (prg64 seed m).

Lemma check_converse_ss s r : mal = true -> batches_done A s r ->
  converse ph nm kk rr 1 1 (send_check prg64 pl rnd_seed s) (recv_check prg64 pl ce r) (fun _ _ => True).
Proof using All.
  intros Hm (HS & HR & _). unfold send_check, recv_check. change 1%N with (0 + 1)%N at 1. change 1%N with (1 + 0)%N at 2.
  eapply (converse_bind _ _ _ _ Hnd Hph Hrr); [by apply sync_converse|]. intros ? ? [-> ->]. cbv zeta. rewrite (u64_small (A * 2)) by lia.
  destruct (Hprg64 rnd_seed (A * 2)) as [Lchi Wchi]; [lia|]. set (chi := prg64 rnd_seed (A * 2)) in *. rewrite Z.mul_comm in Lchi.
  destruct (column_sums_run chi (sv_all s) V_of Wchi Lchi) as (tv & Ev & Lv & Bv).
  { intros g Hg. split; [by apply (sa_kept _ _ HS)|apply (V_matrix g)]. }
  destruct (column_sums_run chi (rv_all r) W_of Wchi Lchi) as (tw & Ew & Lw & Bw).
  { intros g Hg. split; [by apply (ra_kept _ _ HR)|apply (W_matrix g)]. }
  sender_lifts Ev. pose proof ce_size as Lce. unfold span64. replace (A * 2 <=? 2 * vsize (m_blocks ce)) with true by lia. eapply converse_lift_r; [assumption..|reflexivity|].
  rewrite take_ge by (pose proof (vsize_halves (m_blocks ce)); unfold vsize in *; lia).
  unfold Gf64ClMul_span at 1. rewrite vsize_halves. replace (vsize chi =? 2 * vsize (m_blocks ce)) with true by lia. eapply converse_lift_r; [assumption..|reflexivity|].
  receiver_lifts Ew. sender_ctx. receiver_ctx. change 1%N with (1 + 0)%N. sends_up.
  set (x := Gf64Reduce (clmul_sum64 chi (halves64 (m_blocks ce)) 0)).
  assert (Ex : x = dot (gmul 64 kGfMod64) chi (halves64 (m_blocks ce))).
  { unfold x. destruct (clmul_sum64_run (length chi) chi (halves64 (m_blocks ce)) 0) as [_ ->]; [done|done|apply halves_words|rewrite vsize_halves; lia|by vm_compute|]. apply Z.lxor_0_l. }
  assert (Wx : word 64 x) by (rewrite Ex; apply dot64_word; [done|apply halves_words]).
  rewrite unpack_check; [|done| |rewrite vsize_map; done].
  2:{ apply blk_Forall. intros q Hq. rewrite vsize_map in Hq. rewrite blk_map by done. rewrite Bw by lia. apply dot64_word; [done|apply halves_words]. }
  eapply converse_lift_l; [assumption..|reflexivity|]. cbn [check_x check_t]. unfold kKappa.
  match goal with |- converse _ _ _ _ _ _ (lift (for_res ?m0 ?i0 ?f0 ?s0)) _ _ => destruct (for_res_inv (fun _ _ => True) f0 m0 i0 s0) as ([] & EE & _); [done| |] end.
  - intros q _ Hq _. exists (). split; [|done]. rewrite (vget_blk (Gf64Reduce <$> tw)) by (rewrite vsize_map; lia). cbn [access mbind res_bind].
    pose proof (sr_mask_size _ _ _ _ _ _ _ (sa_ready _ _ HS)) as Lmask. rewrite (vget_blk (s_mask _)) by lia. cbn [access mbind res_bind].
    rewrite (vget_blk (Gf64Reduce <$> tv)) by (rewrite vsize_map; lia). cbn [access mbind res_bind]. rewrite !blk_map, Bv, Bw by lia.
    rewrite (sr_mask _ _ _ _ _ _ _ (sa_ready _ _ HS)) by lia. rewrite Z.land_comm, mask_word by (unfold word in Wx; lia).
    rewrite columns_differ by lia. rewrite (dot_xor_halves (gmul 64 kGfMod64)) by done. unfold column_of.
    assert (Ec : dot (gmul 64 kGfMod64) chi (halves64 ((fun g => choose (c q) (R g)) <$> seqZ 0 A)) = choose (c q) x).
    { rewrite Ex. destruct (c q); cbn [choose]; [by rewrite <- as_seqZ|apply dot_zero_halves]. }
    rewrite Ec, Z.eqb_refl. done.
  - rewrite EE. by apply converse_ret.
Qed.

(** *** All batches *)

Hypothesis Hfresh : forall m, 0 <= m -> vsize (fresh m) = m.

Lemma start_send st os : sready st (ctr_at 0) -> s_mal st = mal -> s_step st = step -> s_delta st = delta ->
  sender_at 0 (mk_send_vars st (fresh (vsize (s_compress st))) (replicate (Z.to_nat (s_pprf_num st * s_pprf_range st)) 0)
    (replicate (Z.to_nat A) (fresh kKappa)) (replicate (Z.to_nat (s_step st + 1)) (fresh kKappa)) os).
Proof using All.
  intros H1 H2 H3 H4. destruct (total_bounds k Hk) as (B1 & B2). destruct (trees_bounds k Hk) as (T1 & _). pose proof H1 as [_ _ _ _ E1 E2 _ _ _ _ _ E3 _].
  split; cbn [sv_sender sv_hash sv_xor sv_all sv_V]; try done.
  - rewrite Hfresh by apply vsize_nonneg. done.
  - rewrite E1, E2. split; [rewrite vsize_replicate; lia|]. intros q Hq. apply blk_replicate. lia.
  - rewrite vsize_replicate. lia.
  - rewrite vsize_replicate, H3. lia.
  - intros j Hj. exists (fresh kKappa). split; [|by apply Hfresh]. unfold vget. replace (0 <=? j) with true by lia. apply lookup_replicate_2. lia.
  - lia.
Qed.

Lemma start_recv st or_ : rready st (ctr_at 0) -> r_mal st = mal -> r_step st = step ->
  receiver_at 0 (mk_recv_vars st (replicate (Z.to_nat (r_pprf_num st * r_pprf_range st)) 0) (fresh (r_pprf_num st * r_step st))
    (replicate (Z.to_nat A) (fresh kKappa)) (replicate (Z.to_nat (r_step st + 1)) (fresh kKappa)) or_).
Proof using All.
  intros H1 H2 H3. destruct (total_bounds k Hk) as (B1 & B2). destruct (trees_bounds k Hk) as (T1 & _). pose proof H1 as [_ _ _ E1 E2 _ _ _].
  split; cbn [rv_receiver rv_xor rv_U rv_all rv_W]; try done.
  - rewrite E1, E2. split; [rewrite vsize_replicate; lia|]. intros q Hq. apply blk_replicate. lia.
  - rewrite E1, H3, Hfresh by nia. done.
  - rewrite vsize_replicate. lia.
  - rewrite vsize_replicate, H3. lia.
  - intros j Hj. exists (fresh kKappa). split; [|by apply Hfresh]. unfold vget. replace (0 <=? j) with true by lia. apply lookup_replicate_2. lia.
  - lia.
Qed.

(** What the parties keep: counters that agree. *)
Definition kept (x : Sender * Os) (y : Receiver * Or) : Prop :=
  sready x.1 (ctr_at A) /\ s_mal x.1 = mal /\ s_step x.1 = step /\ s_delta x.1 = delta /\ rready y.1 (ctr_at A) /\ r_mal y.1 = mal /\ r_step y.1 = step /\ Done n x.2 y.2.

Lemma batches_converse st rt os or_ : sready st (ctr_at 0) -> s_mal st = mal -> s_step st = step -> s_delta st = delta -> rready rt (ctr_at 0) -> r_mal rt = mal -> r_step rt = step ->
  Done 0 os or_ ->
  converse ph nm kk rr (Z.to_N (super_batch_num pl + batch_num pl + Z.b2z mal)) (Z.to_N (Z.b2z mal))
    (send_batches rp prg64 p a b fresh es n pl rnd_seed st os) (recv_batches rp prg64 p a b fresh er n pl ce rt or_) kept.
Proof using All.
  intros S1 S2 S3 S4 R1 R2 R3 HD. unfold send_batches, recv_batches. rewrite S2, R2.
  replace (Z.to_N (super_batch_num pl + batch_num pl + Z.b2z mal)) with (Z.to_N (super_batch_num pl) + (Z.to_N (batch_num pl) + (Z.to_N (Z.b2z mal) + 0)))%N by lia.
  replace (Z.to_N (Z.b2z mal)) with (0 + (0 + (Z.to_N (Z.b2z mal) + 0)))%N at 2 by lia.
  eapply (converse_bind _ _ _ _ Hnd Hph Hrr).
  - apply supers_converse. split; [by apply start_send|]. split; [by apply start_recv|]. by replace (Z.min n (128 * 0)) with 0 by lia.
  - intros s r Hd. eapply (converse_bind _ _ _ _ Hnd Hph Hrr); [by apply normals_converse|]. intros s1 r1 Hd1.
    eapply (converse_bind _ _ _ _ Hnd Hph Hrr _ _ _ _ _ _ _ _ (fun _ _ => True)).
    + destruct mal eqn:Em; [by apply check_converse_ss|]. by apply converse_ret.
    + intros ? ? _. apply converse_ret; [done..|]. destruct Hd1 as (HS & HR & Hd1). replace (Z.min n (128 * A)) with n in Hd1 by lia.
      destruct HS, HR. by split_and!.
Qed.
End Runs.
