(* ===== verification/SoftspokenSetup.v ===== *)
(** The set-up of SoftSpoken: from 128 base transfers both parties make the same punctured trees,
    the receiver with all leaves, the sender with all but one of each tree; one message. *)

From Stdlib Require Import ZArith Lia ZifyBool Bool.
From stdpp Require Import base numbers list option gmap.
From S2P Require Import Prelude BitBlock BitSet BitSetFacts BitSetOps BitSetGrow BitSetString ChannelKeys OtStore OtStoreFacts OtStoreTheorems.
From S2P Require Import CrHash LinkProgram Context LinkGroup TwoParty Dialogue Transpose.
From S2P Require Import GaloisField Sgrr SgrrFacts SgrrTheorems SgrrFixed Mpfss Ferret FerretRuns OtExtension OtExtensionFacts.
From S2P Require Import Softspoken SoftspokenFacts SoftspokenRuns.

Local Open Scope Z_scope.

(** *** Base transfers *)

(** 128 random transfers in whole stores, and the contents of their buffers. *)
Record rots (hs : heap) (r : OtRecvStore) (hr : heap) (s : OtSendStore) (lr : list Z) (br : dynamic_bitset) (ls : list Z) : Prop := {
  rots_recv : recv_view hs r lr br;
  rots_send : send_view hr s ls;
  rots_recv_type : recv_type r = Normal;
  rots_send_type : send_type s = Normal;
  rots_send_delta : send_delta s = 0;
  rots_recv_whole : recv_slice r = whole 128;
  rots_send_whole : send_slice s = whole 256;
  rots_words q : 0 <= q < 256 -> 0 <= blk ls q < 2 ^ 128;
  rots_agree q : 0 <= q < 128 -> blk lr q = blk ls (2 * q + Z.b2z (chosen br q))
}.

(** The choices as a word. *)
Definition delta_word (b : dynamic_bitset) : Z := value 128 b mod 2 ^ 128.

Lemma delta_word_bits b q : 0 <= q < 128 -> Z.testbit (delta_word b) q = chosen b q.
Proof. intros Hq. unfold delta_word. rewrite testbit_mod by lia. by replace (q <? 128) with true by lia. Qed.

Lemma rots_sizes hs r hr s lr br ls : rots hs r hr s lr br ls -> OtRecv.Size r = 128 /\ OtSend.Size s = 128 /\ 128 <= vsize lr /\ 256 <= vsize ls.
Proof.
  intros [V1 V2 T1 T2 _ W1 W2 _ _]. unfold OtRecv.Size, OtSend.Size, OtSend.ot_blk_num. rewrite T2, W1, W2.
  pose proof (view_slice _ _ _ _ V1) as S1. pose proof (send_view_slice _ _ _ V2) as S2. rewrite W1 in S1. rewrite W2 in S2. destruct S1, S2. cbn in *. split; [done|]. split; [done|lia].
Qed.

Lemma rots_delta hs r hr s lr br ls : rots hs r hr s lr br ls -> delta_of hs r = Val (delta_word br).
Proof.
  intros H. destruct (rots_sizes _ _ _ _ _ _ _ H) as (Z1 & _). destruct H as [V1 _ T1 _ _ W1 _ _ _].
  destruct (recv_CopyBitBuf hs r lr br V1) as (out & E & W & N & B). unfold delta_of. rewrite E. cbn [mbind res_bind]. rewrite Z1 in N, B.
  pose proof W as [_ Lo O _]. rewrite N in Lo. change (blocks_required 128 128) with 1 in Lo. rewrite vget_blk by lia. cbn [access]. f_equal. apply Z.bits_inj'.
  intros q Hq. unfold delta_word. rewrite testbit_mod by lia. specialize (B q Hq). rewrite (testbit_value 128) in B by done. unfold bit in B.
  rewrite T1, W1 in B. cbn [whole internal_use_ctr_ choice_of] in B. rewrite Z.add_0_l in B. destruct (Z.ltb_spec q 128) as [Hlt|Hge].
  - by rewrite Z.div_small, Z.mod_small in B by lia.
  - cbn [andb]. apply (testbit_high 128); [by apply (blk_range 128)|lia].
Qed.

(** Writes that keep the sizes of buffers keep every store well-formed. *)
Lemma put_blk_send h p l l' o : blk_at h p l -> vsize l' = vsize l -> send_wf h o -> send_wf (put_blk h p l') o.
Proof.
  intros Hp Hl (lo & [B S A]). exists (if decide (p = send_blk_buf o) then l' else lo). split; [by apply blk_at_put| |done].
  case_decide as D; [|done]. subst p. by rewrite Hl, (blk_at_inj _ _ _ _ Hp B).
Qed.

Lemma put_blk_recv h p l l' o : blk_at h p l -> vsize l' = vsize l -> recv_wf h o -> recv_wf (put_blk h p l') o.
Proof.
  intros Hp Hl (lo & bo & [B S N]). exists (if decide (p = recv_blk_buf o) then l' else lo), bo. split; [by apply blk_at_put| |].
  - case_decide as D; [|done]. subst p. by rewrite Hl, (blk_at_inj _ _ _ _ Hp B).
  - intros Ht. destruct (N Ht) as (N1 & N2 & N3). split; [by apply bit_at_put_blk|]. split; [done|]. rewrite N3.
    case_decide as D; [|done]. subst p. by rewrite Hl, (blk_at_inj _ _ _ _ Hp B).
Qed.

Lemma put_bit_send h p b o : send_wf h o -> send_wf (put_bit h p b) o.
Proof. intros (lo & [B S A]). exists lo. split; [by apply blk_at_put_bit|done|done]. Qed.

(** A message of the base transfers. *)
Lemma set_normal h s l m x : send_view h s l -> send_type s = Normal -> send_slice s = whole 256 -> m = 0 \/ m = 1 ->
  OtSend.SetNormalBlock h s 0 m x = Val (put_blk h (send_blk_buf s) (<[Z.to_nat m := x]> l)) /\
  send_view (put_blk h (send_blk_buf s) (<[Z.to_nat m := x]> l)) s (<[Z.to_nat m := x]> l).
Proof.
  intros [B S A] Ht Hw Hm. unfold OtSend.SetNormalBlock. rewrite Ht. replace ((m =? 0) || (m =? 1)) with true by lia. cbn [OtStore.enforce mbind res_bind].
  rewrite (u64_small (0 * 2 + m)), (GetBufIdx_ok _ _ _ S) by (rewrite ?Hw; cbn; lia). cbn [mbind res_bind]. rewrite Hw. cbn [whole internal_use_ctr_].
  pose proof (use_in_buf _ _ S) as U1. pose proof (buf_size_ok _ _ S) as U2. rewrite Hw in U1, U2. cbn [whole internal_use_ctr_ internal_use_size_ internal_buf_size_] in U1, U2.
  replace (0 + (0 * 2 + m)) with m by lia. rewrite (write_blk_at _ _ _ _ _ B) by lia. split; [done|]. split; [|by rewrite vsize_insert|done].
  pose proof (blk_at_put h (send_blk_buf s) (<[Z.to_nat m := x]> l) _ _ B) as H. by rewrite decide_True in H.
Qed.

(** The first transfer is (0, 0), with choice 1, in compact mode. *)
Lemma compact_prepared hs r hr s lr br ls (compact : bool) : rots hs r hr s lr br ls ->
  exists hs' hr' lr' br' ls', compact_base_recv hs r compact = Val hs' /\ compact_base_send hr s compact = Val hr' /\ rots hs' r hr' s lr' br' ls' /\
    (forall q, 0 <= q < 128 -> chosen br' q = if compact && (q =? 0) then true else chosen br q) /\
    (forall o, send_wf hs o -> send_wf hs' o) /\ (forall o, recv_wf hr o -> recv_wf hr' o).
Proof.
  intros HR. destruct (rots_sizes _ _ _ _ _ _ _ HR) as (Z1 & Z2 & Z3 & Z4). pose proof HR as [V1 V2 T1 T2 D2 W1 W2 HW HA]. unfold compact_base_recv, compact_base_send.
  destruct compact; cbn [andb]; [|by exists hs, hr, lr, br, ls].
  rewrite (recv_SetBlock _ _ _ _ V1) by lia. rewrite Z1. change (0 <? 128) with true. cbn [mbind res_bind]. rewrite W1. cbn [whole internal_use_ctr_]. rewrite Z.add_0_l.
  destruct (view_put_blk hs r lr br r lr br 0 0 V1 V1 ltac:(lia)) as [V3 _]. rewrite decide_True in V3 by done. set (lr' := <[Z.to_nat 0 := 0]> lr) in *.
  set (h1 := put_blk hs (recv_blk_buf r) lr') in *. destruct (recv_SetChoice h1 r lr' br V3 0 true T1 ltac:(lia)) as (br' & E3 & W3 & N3 & X3). rewrite E3.
  destruct (view_put_bit h1 r lr' br r lr' br br' V3 T1 V3 W3 N3) as [V4 _]. rewrite decide_True in V4 by done.
  destruct (set_normal hr s ls 0 0 V2 T2 W2 ltac:(lia)) as [-> V5]. cbn [mbind res_bind]. set (ls1 := <[Z.to_nat 0 := 0]> ls) in *. set (h2 := put_blk hr _ ls1) in *.
  destruct (set_normal h2 s ls1 1 0 V5 T2 W2 ltac:(lia)) as [-> V6]. set (ls2 := <[Z.to_nat 1 := 0]> ls1) in *.
  assert (L1 : vsize ls1 = vsize ls) by (unfold ls1; apply vsize_insert). assert (L2 : vsize ls2 = vsize ls) by (unfold ls2; rewrite vsize_insert; done).
  assert (Lr : vsize lr' = vsize lr) by (unfold lr'; apply vsize_insert).
  assert (B2 : forall q, 0 <= q -> blk ls2 q = if q <? 2 then 0 else blk ls q).
  { intros q Hq. unfold ls2, ls1. rewrite !blk_insert by (rewrite ?vsize_insert; lia). destruct (Z.ltb_spec q 2).
    - destruct (Z.eqb_spec q 1); [done|]. by replace (q =? 0) with true by lia.
    - replace (q =? 1) with false by lia. by replace (q =? 0) with false by lia. }
  rewrite W1 in X3. cbn [whole internal_use_ctr_] in X3.
  assert (Bc : forall q, 0 <= q -> chosen br' q = if q =? 0 then true else chosen br q) by (intros q Hq; unfold chosen; rewrite X3; apply testbit_set_bit; lia).
  eexists _, _, lr', br', ls2. split; [done|]. split; [done|]. split; [|split; [|split]].
  - split; try done.
    + intros q Hq. rewrite B2 by lia. destruct (q <? 2); [lia|by apply HW].
    + intros q Hq. unfold lr'. rewrite blk_insert, Bc, B2 by (lia || (destruct (if _ : bool then _ else _); cbn; lia)). destruct (Z.eqb_spec q 0) as [-> |]; [done|].
      rewrite HA by done. by replace (2 * q + Z.b2z (chosen br q) <? 2) with false by (destruct (chosen br q); cbn; lia).
  - intros q Hq. apply Bc. lia.
  - intros o Ho. apply put_bit_send. by apply (put_blk_send _ _ lr lr'); [apply V1| |].
  - intros o Ho. apply (put_blk_recv _ _ ls1 ls2); [apply V5|lia|]. by apply (put_blk_recv _ _ ls ls1); [apply V2| |].
Qed.

(** *** The trees *)

Section Trees.
Context (prf : bool -> Z -> Z) (rp : Z -> Z) (blake3 : bytes -> bytes) (seeds : Z -> Z).
Context (hs : heap) (r : OtRecvStore) (hr : heap) (s : OtSendStore) (lr : list Z) (br : dynamic_bitset) (ls : list Z).
Context (k : Z) (mal : bool).
Hypothesis Hblake : forall d, length (blake3 d) = 32%nat.
Hypothesis Hprf : forall d z, 0 <= prf d z < 2 ^ 128.
Hypothesis Hrp : forall x, 0 <= x < 2 ^ 128 -> 0 <= rp x < 2 ^ 128.
Hypothesis Hseeds : forall i, 0 <= seeds i < 2 ^ 128.
Hypothesis Hk : 1 <= k <= 30.
Hypothesis HR : rots hs r hr s lr br ls.
Local Abbreviation T := (trees k).
Local Abbreviation d i := (depth_of k i).

(** Leaf [x] of tree [i], and its punctured index. *)
Definition Lf (i x : Z) : Z := leaf prf rp (seeds i) (2 ^ d i) mal x.
Definition alpha (i : Z) : Z := Z.shiftr (delta_word br) (i * k) mod 2 ^ d i.

Lemma tree_depth e : 1 <= e -> depth (2 ^ e) = e.
Proof using All.
  intros He. unfold depth. rewrite (Z.log2_unique (2 ^ e - 1) (e - 1)); [lia|lia|].
  replace (Z.succ (e - 1)) with e by lia. assert (2 ^ e = 2 * 2 ^ (e - 1)) as -> by (rewrite <- Z.pow_succ_r by lia; f_equal; lia).
  assert (0 < 2 ^ (e - 1)) by (apply Z.pow_pos_nonneg; lia). lia.
Qed.

Lemma alpha_range i : 0 <= i < T -> 0 <= alpha i < 2 ^ d i.
Proof using Hk. intros Hi. destruct (depth_of_bounds k Hk i Hi) as (_ & _ & _ & D & _). apply Z.mod_pos_bound. lia. Qed.

Lemma alpha_bits i j : 0 <= i < T -> 0 <= j < d i -> Z.testbit (alpha i) j = chosen br (i * k + j).
Proof using Hk.
  intros Hi Hj. destruct (depth_of_bounds k Hk i Hi) as (D1 & D2 & _). unfold alpha. rewrite testbit_mod by lia. replace (j <? d i) with true by lia. cbn [andb].
  rewrite Z.shiftr_spec by lia. rewrite Z.add_comm. apply delta_word_bits. nia.
Qed.

Lemma Lf_word i x : 0 <= i < T -> 0 <= x < 2 ^ d i -> 0 <= Lf i x < 2 ^ 128.
Proof using Hprf Hrp Hseeds Hk.
  intros Hi Hx. unfold Lf, leaf. set (m := Z.to_nat _). pose proof (node_range prf (seeds i) Hprf (Hseeds i) m x) as Hw. destruct mal; [|done]. unfold CrHash_128. apply xor_word128; [by apply Hrp|done].
Qed.

(** The stores at a position, and the slices of a tree. *)
Definition pos (i : Z) : Z := Z.min 128 (i * k).
Definition cur_r (q : Z) : OtRecvStore := mk_recv (mk_slice 0 128 q 128) Normal (recv_bit_buf r) (recv_blk_buf r).
Definition cur_s (q : Z) : OtSendStore := mk_send (mk_slice 0 256 (2 * q) 256) Normal 0 (send_blk_buf s).
Definition sub_r (i : Z) : OtRecvStore := mk_recv (mk_slice (i * k) (d i) (i * k) (i * k + d i)) Normal (recv_bit_buf r) (recv_blk_buf r).
Definition sub_s (i : Z) : OtSendStore := mk_send (mk_slice (2 * (i * k)) (d i * 2) (2 * (i * k)) (2 * (i * k) + d i * 2)) Normal 0 (send_blk_buf s).

Lemma pos_at i : 0 <= i < T -> pos i = i * k /\ pos (i + 1) = i * k + d i.
Proof using All. intros Hi. destruct (trees_bounds k Hk) as (T1 & T2 & T3). unfold pos, depth_of. split; nia. Qed.

Lemma cur_views q : 0 <= q <= 128 -> recv_view hs (cur_r q) lr br /\ send_view hr (cur_s q) ls.
Proof using All.
  intros Hq. destruct (rots_sizes _ _ _ _ _ _ _ HR) as (_ & _ & Z3 & Z4). pose proof HR as [[B1 [_ _ _ _ _ F1] N1] [B2 [_ _ _ _ _ F2] _] T1 _ _ _ _ _ _]. split.
  - split; [done|split; cbn; lia|]. intros _. by apply N1.
  - split; [done|split; cbn; lia|]. intros _. cbn. dlia.
Qed.

Lemma slices i : 0 <= i < T ->
  OtRecv.NextSlice hs (cur_r (pos i)) (d i) = Val (sub_r i, cur_r (pos (i + 1))) /\ OtSend.NextSlice hr (cur_s (pos i)) (d i) = Val (sub_s i, cur_s (pos (i + 1))) /\
  recv_view hs (sub_r i) lr br /\ send_view hr (sub_s i) ls.
Proof using All.
  intros Hi. destruct (depth_of_bounds k Hk i Hi) as (D1 & D2 & _). destruct (pos_at i Hi) as [P1 P2]. assert (Hq : 0 <= pos i <= 128) by (rewrite P1; nia).
  destruct (cur_views (pos i) Hq) as [V1 V2]. rewrite (recv_NextSlice _ _ _ _ V1), (send_NextSlice _ _ _ V2) by lia.
  cbn [cur_r cur_s recv_slice send_slice internal_buf_size_ internal_buf_ctr_ OtSend.ot_blk_num send_type]. replace ((0 <? d i) && (d i <=? 128 - pos i)) with true by lia.
  replace ((0 <? d i) && (d i * 2 <=? 256 - 2 * pos i)) with true by lia.
  destruct (recv_next_views _ _ _ _ V1 (d i)) as [V3 _]; [cbn; lia|]. destruct (send_next_views _ _ _ V2 (d i)) as [V4 _]; [lia|cbn; lia|].
  assert (E1 : recv_next_out (cur_r (pos i)) (d i) = sub_r i) by (unfold recv_next_out, sub_r, cur_r; cbn; by rewrite P1).
  assert (E2 : send_next_out (cur_s (pos i)) (d i) = sub_s i) by (unfold send_next_out, sub_s, cur_s; cbn; by rewrite P1).
  assert (E3 : recv_next_left (cur_r (pos i)) (d i) = cur_r (pos (i + 1))) by (unfold recv_next_left, cur_r; cbn; by rewrite P1, P2).
  assert (E4 : send_next_left (cur_s (pos i)) (d i) = cur_s (pos (i + 1))) by (unfold send_next_left, cur_s; cbn; rewrite P1, P2; do 2 f_equal; lia).
  rewrite E1, E3, E2, E4 in *. done.
Qed.

(** The transfers of a tree. *)
Lemma tree_transfers i : 0 <= i < T -> transfers hr (sub_s i) hs (sub_r i) (depth (2 ^ d i)) (fun t => chosen br (i * k + t))
  (fun t => blk lr (i * k + t)) (fun t => blk ls (2 * (i * k + t) + Z.b2z (negb (chosen br (i * k + t))))).
Proof using All.
  intros Hi. destruct (depth_of_bounds k Hk i Hi) as (D1 & D2 & _). destruct (slices i Hi) as (_ & _ & V1 & V2). pose proof HR as [_ _ _ _ _ _ _ HW HA]. rewrite tree_depth by lia.
  assert (S1 : OtRecv.Size (sub_r i) = d i) by done. assert (S2 : OtSend.Size (sub_s i) = d i) by (unfold OtSend.Size; cbn; apply Z.div_mul; lia).
  assert (G : forall t m, 0 <= t < d i -> OtSend.GetBlock hr (sub_s i) t (Z.b2z m) = Val (blk ls (2 * (i * k + t) + Z.b2z m))).
  { intros t m Ht. rewrite (send_GetBlock _ _ _ V2) by (done || lia || (destruct m; cbn; lia)). rewrite S2. replace (t <? d i) with true by lia. cbn. do 2 f_equal.
    unfold message_at. cbn. f_equal. lia. }
  split; [lia|lia|..].
  - intros t Ht. rewrite (recv_GetChoice _ _ _ _ V1), S1 by lia. by replace (t <? d i) with true by lia.
  - intros t Ht. rewrite (recv_GetBlock _ _ _ _ V1), S1 by lia. by replace (t <? d i) with true by lia.
  - intros t Ht. rewrite G by lia. rewrite HA by nia. split; [done|]. apply HW. destruct (chosen br (i * k + t)); cbn; nia.
  - intros t Ht. rewrite G by lia. split; [done|]. apply HW. destruct (chosen br (i * k + t)); cbn; nia.
Qed.

(** The index of a tree. *)
Lemma tree_index i : 0 <= i < T -> exists bits, OtRecv.CopyBitBuf hs (sub_r i) = Val bits /\ wf 128 bits /\ m_bits_number bits = d i /\
  vget (m_blocks bits) 0 = Some (alpha i) /\ value 128 bits = alpha i.
Proof using All.
  intros Hi. destruct (depth_of_bounds k Hk i Hi) as (D1 & D2 & _ & D3 & _). destruct (slices i Hi) as (_ & _ & V1 & _).
  destruct (recv_CopyBitBuf hs (sub_r i) lr br V1) as (bits & E & W & N & B). exists bits. split; [done|]. split; [done|]. split; [done|].
  cbn [OtRecv.Size sub_r recv_slice internal_use_size_ internal_use_ctr_ recv_type choice_of] in N, B.
  assert (EV : value 128 bits = alpha i).
  { apply Z.bits_inj'. intros j Hj. rewrite B by done. destruct (Z.ltb_spec j (d i)); [cbn [andb]; by rewrite alpha_bits by lia|].
    symmetry. apply (testbit_high (d i)); [by apply alpha_range|lia]. }
  split; [|done]. pose proof W as [_ Lo O _]. change (vsize (m_blocks bits) = blocks_required 128 (m_bits_number bits)) in Lo. rewrite N in Lo.
  destruct (blocks_required_bound 128 (d i)) as [Q1 Q2]; [lia|]. assert (vsize (m_blocks bits) = 1) by nia.
  rewrite vget_blk by lia. f_equal. rewrite <- EV. apply Z.bits_inj'. intros j Hj. rewrite (testbit_value 128) by done. unfold bit.
  destruct (Z.lt_ge_cases j 128); [by rewrite Z.div_small, Z.mod_small by lia|].
  rewrite (testbit_high 128 (blk (m_blocks bits) 0)) by (by apply (blk_range 128) || lia). rewrite blk_outside; [by rewrite Z.bits_0|].
  right. assert (1 <= j / 128) by (apply Z.div_le_lower_bound; lia). lia.
Qed.

(** *** The messages *)

Local Abbreviation pad := (if mal then 64 else 0).
Local Abbreviation single := (k * 32 + pad).
Local Abbreviation bsz i := (d i * 32 + pad).

Lemma tree_helper e : 1 <= e <= 30 -> SgrrOtExtHelper (2 ^ e) mal = Val (e * 32 + pad) /\ buf_size (2 ^ e) mal = e * 32 + pad.
Proof using All.
  intros He. assert (1 < 2 ^ e <= 2 ^ 31) by (split; [apply Z.pow_gt_1; lia|apply Z.pow_le_mono_r; lia]).
  assert (E : buf_size (2 ^ e) mal = e * 32 + pad) by (unfold buf_size; rewrite tree_depth by lia; destruct mal; lia).
  destruct (helper_size (2 ^ e) mal ltac:(lia)) as [_ ->]. by rewrite E.
Qed.

(** A buffer from which the sender of the extension gets the tree. *)
Definition answers (i : Z) (buf : bytes) : Prop := vsize buf = bsz i /\ forall out_r, 2 ^ d i <= vsize out_r ->
  exists out, recv_fixed_index prf rp blake3 hs (sub_r i) (2 ^ d i) out_r buf mal = Val out /\ vsize out = vsize out_r /\
    forall j, 0 <= j < 2 ^ d i -> blk out j = if j =? alpha i then 0 else Lf i j.

Lemma tree_pair i out_s buf : 0 <= i < T -> 2 ^ d i <= vsize out_s -> vsize buf = bsz i ->
  exists leaves buf', send_fixed_index prf rp blake3 hr (sub_s i) (2 ^ d i) (seeds i) out_s buf mal = Val (leaves, buf') /\
    vsize leaves = vsize out_s /\ (forall x, 0 <= x < 2 ^ d i -> blk leaves x = Lf i x) /\ answers i buf'.
Proof using All.
  intros Hi Ho Hb. destruct (depth_of_bounds k Hk i Hi) as (D1 & D2 & _ & D3 & D4). destruct (tree_index i Hi) as (bits & E & W & N & _ & EV).
  pose proof (alpha_range i Hi) as Ha. assert (H31 : 2 ^ 30 < 2 ^ 31) by lia. destruct (tree_helper (d i) ltac:(lia)) as [_ EB].
  destruct (fixed_pair prf rp blake3 (seeds i) hr hs (sub_s i) (sub_r i) (2 ^ d i) mal _ _ _ Hblake Hprf (Hseeds i) ltac:(lia) (tree_transfers i Hi) bits out_s buf E W N)
    as (leaves & buf' & E1 & Zb & Zl & Bl & Hrecv); [|done|by rewrite EB|].
  { intros t Ht. rewrite tree_depth in Ht by lia. rewrite EV. by apply alpha_bits. }
  exists leaves, buf'. split; [exact E1|]. split; [done|]. split; [exact Bl|]. split; [lia|]. intros out_r Hr. specialize (Hrecv out_r Hr). cbv zeta in Hrecv.
  rewrite tree_depth, EV, Z.mod_small in Hrecv by lia. replace (alpha i <? 2 ^ d i) with true in Hrecv by lia. exact Hrecv.
Qed.

Definition buf_at (buf : bytes) (i : Z) : bytes := take (Z.to_nat (bsz i)) (drop (Z.to_nat (i * single)) buf).

Lemma buf_inside i : 0 <= i < T -> 0 <= i * single /\ 0 <= bsz i /\ i * single + bsz i <= corr_size T mal /\ bsz i <= single.
Proof using All.
  intros Hi. destruct (trees_bounds k Hk) as (T1 & T2 & T3). destruct (depth_of_bounds k Hk i Hi) as (D1 & D2 & D3 & _). unfold corr_size.
  destruct mal; (split; [nia|]; split; [lia|]; split; [|lia]).
  - assert (i * (k * 32 + 64) + (d i * 32 + 64) = 32 * (i * k + d i) + 64 * (i + 1)) as -> by ring. nia.
  - assert (i * (k * 32 + 0) + (d i * 32 + 0) = 32 * (i * k + d i)) as -> by ring. lia.
Qed.

Lemma buf_span buf i : 0 <= i < T -> vsize buf = corr_size T mal -> absl_subspan buf (i * single) (bsz i) = Val (buf_at buf i) /\ vsize (buf_at buf i) = bsz i /\
  forall q, 0 <= q < bsz i -> blk (buf_at buf i) q = blk buf (i * single + q).
Proof using All.
  intros Hi Hb. destruct (buf_inside i Hi) as (B1 & B2 & B3 & _). unfold absl_subspan. replace (i * single <=? vsize buf) with true by lia. split; [done|].
  split; [unfold buf_at, vsize in *; rewrite length_take, length_drop; lia|]. intros q Hq. unfold buf_at. by rewrite blk_take_at, blk_drop_at by lia.
Qed.

(** The buffer of one tree written. *)
Lemma buf_put buf i x : 0 <= i < T -> vsize buf = corr_size T mal -> vsize x = bsz i -> exists buf', put_bytes buf (i * single) x = Some buf' /\
  vsize buf' = corr_size T mal /\ buf_at buf' i = x /\ forall i', 0 <= i' < i -> buf_at buf' i' = buf_at buf i'.
Proof using All.
  intros Hi Hb Hx. destruct (buf_inside i Hi) as (B1 & B2 & B3 & _). destruct (put_run buf (i * single) x) as (buf' & E & L' & B'); [lia|lia|].
  rewrite Hb in L'. exists buf'. split; [done|]. split; [done|]. split.
  - destruct (buf_span buf' i Hi L') as (_ & S2 & S3). apply blk_ext; [lia|]. intros q Hq. rewrite S3, B' by lia.
    replace ((i * single <=? i * single + q) && (i * single + q <? i * single + vsize x)) with true by lia. f_equal. lia.
  - intros i' Hi'. destruct (buf_span buf' i' ltac:(lia) L') as (_ & S2 & S3). destruct (buf_span buf i' ltac:(lia) Hb) as (_ & S4 & S5). apply blk_ext; [lia|].
    intros q Hq. destruct (buf_inside i' ltac:(lia)) as (B4 & B5 & B6 & B7). assert (i' * single + single <= i * single) by nia.
    rewrite S3, S5, B' by lia. by replace (i * single <=? i' * single + q) with false by lia.
Qed.

Lemma setup_recv_run i leaves buf : 0 <= i < T -> vsize leaves = total k -> vsize buf = corr_size T mal ->
  exists leaves' buf', setup_tree_recv prf rp blake3 hr k (2 ^ k) mal single seeds i (cur_s (pos i), leaves, buf) = Val (cur_s (pos (i + 1)), leaves', buf') /\
    vsize leaves' = total k /\ vsize buf' = corr_size T mal /\ answers i (buf_at buf' i) /\ (forall i', 0 <= i' < i -> buf_at buf' i' = buf_at buf i') /\
    forall q, 0 <= q -> blk leaves' q = if (i * 2 ^ k <=? q) && (q <? i * 2 ^ k + 2 ^ d i) then Lf i (q - i * 2 ^ k) else blk leaves q.
Proof using All.
  intros Hi Ll Lb. destruct (depth_of_bounds k Hk i Hi) as (D1 & D2 & _ & D3 & D4). destruct (trees_bounds k Hk) as (T1 & _).
  assert (Hin : i * 2 ^ k + 2 ^ d i <= total k) by (pose proof (leaf_inside k Hk i (2 ^ d i - 1) Hi ltac:(lia)); lia).
  destruct (slices i Hi) as (_ & E1 & _). destruct (tree_helper (d i) ltac:(lia)) as [E2 _]. destruct (buf_span buf i Hi Lb) as (E3 & S3 & _).
  unfold setup_tree_recv. rewrite (k_limit_run k Hk i Hi), E1. cbn [mbind res_bind].
  destruct (subspan_run leaves (i * 2 ^ k) (2 ^ d i)) as (sp & E4 & L4 & _); [nia|lia|lia|]. rewrite E4. cbn [access mbind res_bind]. rewrite E2. cbn [mbind res_bind].
  rewrite E3. cbn [mbind res_bind]. destruct (tree_pair i sp (buf_at buf i) Hi ltac:(lia) S3) as (lv & b' & E5 & L5 & B5 & A5). rewrite E5. cbn [mbind res_bind].
  destruct (put_run leaves (i * 2 ^ k) lv) as (leaves' & E6 & L6 & B6); [nia|lia|]. rewrite E6. cbn [access mbind res_bind].
  destruct (buf_put buf i b' Hi Lb (proj1 A5)) as (buf' & E7 & L7 & B7 & B8). rewrite E7. cbn [access mbind res_bind].
  exists leaves', buf'. split; [done|]. split; [lia|]. split; [done|]. split; [by rewrite B7|]. split; [done|]. intros q Hq. rewrite B6 by done.
  rewrite L5, L4. destruct (_ && _) eqn:Eq; [|done]. apply B5. lia.
Qed.

Lemma recv_trees leaves0 buf0 : vsize leaves0 = total k -> vsize buf0 = corr_size T mal ->
  exists leaves buf, for_res (Z.to_nat T) 0 (setup_tree_recv prf rp blake3 hr k (2 ^ k) mal single seeds) (cur_s (pos 0), leaves0, buf0) = Val (cur_s (pos T), leaves, buf) /\
    vsize leaves = total k /\ vsize buf = corr_size T mal /\ (forall i, 0 <= i < T -> answers i (buf_at buf i)) /\
    forall i x, 0 <= i < T -> 0 <= x < 2 ^ d i -> blk leaves (i * 2 ^ k + x) = Lf i x.
Proof using All.
  intros Ll Lb. destruct (trees_bounds k Hk) as (T1 & _).
  destruct (for_res_inv (fun i st => st.1.1 = cur_s (pos i) /\ vsize st.1.2 = total k /\ vsize st.2 = corr_size T mal /\
      (forall i', 0 <= i' < i -> answers i' (buf_at st.2 i')) /\ forall i' x, 0 <= i' < i -> 0 <= x < 2 ^ d i' -> blk st.1.2 (i' * 2 ^ k + x) = Lf i' x)
    (setup_tree_recv prf rp blake3 hr k (2 ^ k) mal single seeds) (Z.to_nat T) 0 (cur_s (pos 0), leaves0, buf0)) as ([[st leaves] buf] & E & H1 & H2 & H3 & H4 & H5).
  - cbn [fst snd]. split; [done|]. split; [done|]. split; [done|]. split; lia.
  - intros i [[st leaves] buf] Hi (H1 & H2 & H3 & H4 & H5). cbn [fst snd] in *. subst st.
    destruct (setup_recv_run i leaves buf ltac:(lia) H2 H3) as (leaves' & buf' & E & L1 & L2 & A1 & A2 & B1). eexists. split; [exact E|]. cbn [fst snd].
    split; [done|]. split; [done|]. split; [done|]. split.
    + intros i' Hi'. destruct (Z.eq_dec i' i) as [-> |]; [done|]. rewrite A2 by lia. apply H4. lia.
    + intros i' x Hi' Hx. destruct (depth_of_bounds k Hk i' ltac:(lia)) as (_ & _ & _ & D3 & _). rewrite B1 by nia. destruct (Z.eq_dec i' i) as [-> |].
      * replace ((i * 2 ^ k <=? i * 2 ^ k + x) && (i * 2 ^ k + x <? i * 2 ^ k + 2 ^ d i)) with true by lia. f_equal. lia.
      * assert (i' * 2 ^ k + x < i * 2 ^ k) by nia. replace (i * 2 ^ k <=? i' * 2 ^ k + x) with false by lia. apply H5; lia.
  - cbn [fst snd] in *. rewrite Z.add_0_l, Z2Nat.id in * by lia. subst st. by exists leaves, buf.
Qed.

(** *** The sender *)

Lemma land_bit x j : 0 <= j -> negb (Z.land x (Z.shiftl 1 j) =? 0) = Z.testbit x j.
Proof using All.
  intros Hj. assert (E : Z.land x (Z.shiftl 1 j) = if Z.testbit x j then 2 ^ j else 0).
  { rewrite Z.shiftl_1_l. apply Z.bits_inj'. intros q Hq. rewrite Z.land_spec, testbit_pow2 by lia. destruct (Z.eqb_spec q j) as [-> |Hne].
    - rewrite andb_true_r. destruct (Z.testbit x j); [by rewrite Z.pow2_bits_true by lia|by rewrite Z.bits_0].
    - rewrite andb_false_r. destruct (Z.testbit x j); [rewrite Z.pow2_bits_false by lia|rewrite Z.bits_0]; done. }
  rewrite E. assert (0 < 2 ^ j) by (apply Z.pow_pos_nonneg; lia). destruct (Z.testbit x j); [by replace (2 ^ j =? 0) with false by lia|done].
Qed.

Lemma set_masks_run i mask : 0 <= i < T -> vsize mask = 128 -> exists mask', set_masks k (d i) i (alpha i) mask = Some mask' /\ vsize mask' = 128 /\
  forall q, blk mask' q = if (i * k <=? q) && (q <? i * k + d i) then mask_of (chosen br q) else blk mask q.
Proof using All.
  intros Hi Lm. destruct (depth_of_bounds k Hk i Hi) as (D1 & D2 & _). unfold set_masks.
  match goal with |- exists mask', for_up _ _ ?f _ = _ /\ _ => destruct (copy_words (fun j => mask_of (chosen br (i * k + j))) (d i) (i * k) f mask) as (m' & E & L' & B'); [nia|lia|lia| |] end.
  - intros j l' Hj _ _. cbv beta. replace (j <? 31) with true by lia. by rewrite land_bit, alpha_bits by lia.
  - exists m'. split; [exact E|]. split; [lia|]. intros q. rewrite B'. destruct (_ && _); [|done]. do 2 f_equal. lia.
Qed.

Lemma compress_run i leaves c0 : 0 <= i < T -> vsize leaves = 2 ^ d i -> (forall j, 0 <= j < 2 ^ d i -> blk leaves j = if j =? alpha i then 0 else Lf i j) ->
  vsize c0 = 2 ^ d i - 1 ->
  exists leaves' c', compress (2 ^ d i) (alpha i) leaves c0 = Some (leaves', c') /\ vsize leaves' = 2 ^ d i /\ vsize c' = 2 ^ d i - 1 /\
    forall j, 0 <= j < 2 ^ d i - 1 -> blk c' j = if j + 1 =? alpha i then Lf i 0 else Lf i (j + 1).
Proof using All.
  intros Hi Ll Bl Lc. destruct (depth_of_bounds k Hk i Hi) as (_ & _ & _ & D3 & _). pose proof (alpha_range i Hi) as Ha. unfold compress.
  rewrite (vget_blk leaves) by lia. cbn [mbind option_bind]. rewrite (vset_Some leaves) by lia. cbn [mbind option_bind]. set (l1 := <[_ := _]> leaves).
  assert (L1 : vsize l1 = 2 ^ d i) by (unfold l1; rewrite vsize_insert; lia).
  destruct (copy_words (fun j => blk l1 (j + 1)) (2 ^ d i - 1) 0 (fun j c => y ← vget l1 (j + 1); vset c j y) c0) as (c' & E & L' & B'); [lia|lia|lia| |].
  { intros j l' Hj _ _. rewrite (vget_blk l1) by lia. done. }
  rewrite E. cbn [mbind option_bind]. rewrite (vset_Some l1) by lia. eexists _, c'. split; [reflexivity|]. split; [by rewrite vsize_insert|]. split; [lia|].
  intros j Hj. rewrite B', Z.add_0_l, Z.sub_0_r. replace ((0 <=? j) && (j <? 2 ^ d i - 1)) with true by lia. unfold l1. rewrite blk_insert by lia.
  destruct (Z.eqb_spec (j + 1) (alpha i)) as [E0|E0].
  - rewrite Bl by lia. by replace (0 =? alpha i) with false by lia.
  - rewrite Bl by lia. by replace (j + 1 =? alpha i) with false by lia.
Qed.

Context (delta step : Z) (compact : bool).

(** The sender after [i] trees. *)
Record planted (i : Z) (st : Sender) : Prop := {
  pl_counter : s_counter st = 0;
  pl_k : s_k st = k;
  pl_num : s_pprf_num st = T;
  pl_range : s_pprf_range st = 2 ^ k;
  pl_delta : s_delta st = delta;
  pl_step : s_step st = step;
  pl_mal : s_mal st = mal;
  pl_compact : s_compact st = compact;
  pl_leaves_size : vsize (s_punctured_leaves st) = total k;
  pl_idx_size : vsize (s_punctured_idx st) = T;
  pl_idx i' : 0 <= i' < i -> blk (s_punctured_idx st) i' = alpha i';
  pl_mask_size : vsize (s_mask st) = 128;
  pl_mask q : 0 <= q < pos i -> blk (s_mask st) q = mask_of (chosen br q);
  pl_size : vsize (s_compress st) = total k - T;
  pl_leaves i' j : 0 <= i' < i -> 0 <= j < 2 ^ d i' - 1 -> blk (s_compress st) (i' * (2 ^ k - 1) + j) = if j + 1 =? alpha i' then Lf i' 0 else Lf i' (j + 1)
}.

Lemma compress_inside i : 0 <= i < T -> i * (2 ^ k - 1) + (2 ^ d i - 1) <= total k - T.
Proof using All.
  intros Hi. destruct (depth_of_bounds k Hk i Hi) as (_ & _ & Dk & D & _). destruct (trees_bounds k Hk) as (T1 & _). unfold total.
  destruct (Z.eq_dec i (T - 1)) as [-> |Hne]; [lia|]. rewrite Dk in * by lia. destruct (depth_of_bounds k Hk (T - 1) ltac:(lia)) as (_ & _ & _ & D' & _). nia.
Qed.

Lemma setup_send_run i st buf : 0 <= i < T -> planted i st -> vsize buf = corr_size T mal -> answers i (buf_at buf i) ->
  exists st', setup_tree_send prf rp blake3 hs single buf i (cur_r (pos i), st) = Val (cur_r (pos (i + 1)), st') /\ planted (i + 1) st'.
Proof using All.
  intros Hi [P1 P2 P3 P4 P5 P6 P7 P8 P9 P10 P11 P12 P13 P14 P15] Lb Ha. destruct (depth_of_bounds k Hk i Hi) as (D1 & D2 & _ & D3 & D4). destruct (trees_bounds k Hk) as (T1 & _).
  assert (Hin : i * 2 ^ k + 2 ^ d i <= total k) by (pose proof (leaf_inside k Hk i (2 ^ d i - 1) Hi ltac:(lia)); lia). pose proof (compress_inside i Hi) as Hci.
  destruct (slices i Hi) as (E1 & _). destruct (tree_index i Hi) as (bits & E2 & _ & _ & E3 & _). unfold setup_tree_send. rewrite P2, P4, P7.
  rewrite (k_limit_run k Hk i Hi), E1. cbn [mbind res_bind]. rewrite E2. cbn [mbind res_bind]. rewrite E3. cbn [access mbind res_bind].
  rewrite (vset_Some (s_punctured_idx st)) by lia. cbn [access mbind res_bind].
  destruct (subspan_run (s_punctured_leaves st) (i * 2 ^ k) (2 ^ d i)) as (sp & E4 & L4 & _); [nia|lia|lia|]. rewrite E4. cbn [access mbind res_bind].
  destruct (tree_helper (d i) ltac:(lia)) as [E5 _]. rewrite E5. cbn [mbind res_bind]. rewrite (Z.mul_comm single i).
  destruct (buf_span buf i Hi Lb) as (E6 & _). rewrite E6. cbn [mbind res_bind]. destruct Ha as [_ Ha]. destruct (Ha sp ltac:(lia)) as (lv & E7 & L7 & B7). rewrite E7. cbn [mbind res_bind].
  destruct (set_masks_run i (s_mask st) Hi P12) as (mask' & E8 & L8 & B8). rewrite E8. cbn [access mbind res_bind].
  destruct (subspan_run (s_compress st) (i * (2 ^ k - 1)) (2 ^ d i - 1)) as (cs & E9 & L9 & _); [nia|lia|lia|]. rewrite E9. cbn [access mbind res_bind].
  destruct (compress_run i lv cs Hi ltac:(lia) B7 L9) as (lv' & cs' & E10 & L10 & L11 & B11). rewrite E10. cbn [access mbind res_bind].
  destruct (put_run (s_compress st) (i * (2 ^ k - 1)) cs') as (comp & E12 & L12 & B12); [nia|lia|]. rewrite E12. cbn [access mbind res_bind].
  destruct (put_run (s_punctured_leaves st) (i * 2 ^ k) lv') as (pls & E13 & L13 & _); [nia|lia|]. rewrite E13. cbn [access mbind res_bind].
  eexists. split; [reflexivity|]. destruct (pos_at i Hi) as [Q1 Q2]. split; cbn; try done.
  - lia.
  - by rewrite vsize_insert.
  - intros i' Hi'. rewrite blk_insert by lia. destruct (Z.eqb_spec i' i) as [-> |]; [done|apply P11; lia].
  - intros q Hq. rewrite B8. destruct (Z.lt_ge_cases q (i * k)); [replace (i * k <=? q) with false by lia; apply P13; lia|].
    by replace ((i * k <=? q) && (q <? i * k + d i)) with true by lia.
  - lia.
  - intros i' j Hi' Hj. destruct (depth_of_bounds k Hk i' ltac:(lia)) as (_ & _ & _ & D' & _). rewrite B12, L11 by nia. destruct (Z.eq_dec i' i) as [-> |].
    + replace ((i * (2 ^ k - 1) <=? i * (2 ^ k - 1) + j) && (i * (2 ^ k - 1) + j <? i * (2 ^ k - 1) + (2 ^ d i - 1))) with true by lia.
      replace (i * (2 ^ k - 1) + j - i * (2 ^ k - 1)) with j by lia. by apply B11.
    + assert (i' * (2 ^ k - 1) + j < i * (2 ^ k - 1)) by nia. replace (i * (2 ^ k - 1) <=? i' * (2 ^ k - 1) + j) with false by lia. apply P15; lia.
Qed.

Lemma send_trees st0 buf : planted 0 st0 -> vsize buf = corr_size T mal -> (forall i, 0 <= i < T -> answers i (buf_at buf i)) ->
  exists st, for_res (Z.to_nat T) 0 (setup_tree_send prf rp blake3 hs single buf) (cur_r (pos 0), st0) = Val (cur_r (pos T), st) /\ planted T st.
Proof using All.
  intros H0 Lb Ha. destruct (trees_bounds k Hk) as (T1 & _).
  destruct (for_res_inv (fun i x => x.1 = cur_r (pos i) /\ planted i x.2) (setup_tree_send prf rp blake3 hs single buf) (Z.to_nat T) 0 (cur_r (pos 0), st0)) as ([q st] & E & H1 & H2).
  - done.
  - intros i [q st] Hi [H1 H2]. cbn [fst snd] in *. subst q. destruct (setup_send_run i st buf ltac:(lia) H2 Lb (Ha i ltac:(lia))) as (st' & E & H'). by eexists.
  - cbn [fst snd] in *. rewrite Z.add_0_l, Z2Nat.id in * by lia. subst q. by exists st.
Qed.
End Trees.

(** *** The message of the set-up *)

Section Setup.
Context (prf : bool -> Z -> Z) (rp : Z -> Z) (blake3 : bytes -> bytes) (seeds : Z -> Z) (fresh : Z -> list Z) (fresh_bytes : Z -> bytes).
Hypothesis Hblake : forall d, length (blake3 d) = 32%nat.
Hypothesis Hprf : forall d z, 0 <= prf d z < 2 ^ 128.
Hypothesis Hrp : forall x, 0 <= x < 2 ^ 128 -> 0 <= rp x < 2 ^ 128.
Hypothesis Hseeds : forall i, 0 <= seeds i < 2 ^ 128.
Hypothesis Hfresh : forall m, 0 <= m -> vsize (fresh m) = m.
Hypothesis Hfresh_bytes : forall m, 0 <= m -> vsize (fresh_bytes m) = m.
Context (ph : list Z) (nm : bytes) (kk rr : Z).
Hypothesis Hnd : NoDup ph.
Hypothesis Hph : vsize ph = 2.
Hypothesis Hrr : rr = 0 \/ rr = 1.
Context (k step : Z) (mal compact : bool).
Hypothesis Hk : 1 <= k <= 30.

(** Both parties with the same trees and counters. *)
Record synced (br : dynamic_bitset) (ctr : Z) (st : Sender) (rt : Receiver) : Prop := {
  su_sender : sender_ready k (Lf prf rp seeds k mal) (alpha br k) (chosen br) compact st ctr;
  su_sender_mal : s_mal st = mal;
  su_sender_step : s_step st = default_step k step;
  su_delta : s_delta st = delta_word br;
  su_receiver : receiver_ready k (Lf prf rp seeds k mal) compact rt ctr;
  su_receiver_mal : r_mal rt = mal;
  su_receiver_step : r_step rt = default_step k step
}.

Lemma corr_size_pos : 0 <= corr_size (trees k) mal.
Proof using All. destruct (trees_bounds k Hk) as (T1 & _). unfold corr_size. destruct mal; lia. Qed.

Lemma setup_converse hs r hr s lr br ls hs' hr' lr' br' ls' : rots hs r hr s lr br ls ->
  compact_base_recv hs r compact = Val hs' -> compact_base_send hr s compact = Val hr' -> rots hs' r hr' s lr' br' ls' ->
  exists st0 rt0, SoftspokenOtExtSender fresh k step mal compact = Val st0 /\ SoftspokenOtExtReceiver fresh k step mal compact = Val rt0 /\
    converse ph nm kk rr 1 0 (OneTimeSetup_send prf rp blake3 hs r st0) (OneTimeSetup_recv prf rp blake3 fresh_bytes hr s seeds rt0)
      (fun x y => x.1 = hs' /\ y.1 = hr' /\ synced br' 0 x.2 y.2).
Proof using All.
  intros HR Es Er HR'. destruct (trees_bounds k Hk) as (T1 & T2 & T3). destruct (total_bounds k Hk) as (B1 & B2). destruct (rots_sizes _ _ _ _ _ _ _ HR) as (Z1 & Z2 & _).
  assert (Htt : trees k <= total k) by (pose proof (compress_inside prf rp blake3 seeds hs' r hr' s lr' br' ls' k mal Hblake Hprf Hrp Hseeds Hk HR' 0 0 compact 0 ltac:(lia));
    destruct (depth_of_bounds k Hk 0 ltac:(lia)) as (_ & _ & _ & D & _); lia).
  unfold SoftspokenOtExtSender, SoftspokenOtExtReceiver. rewrite (shape_run k Hk). cbn [mbind res_bind]. eexists _, _. split; [reflexivity|]. split; [reflexivity|].
  unfold OneTimeSetup_send, OneTimeSetup_recv. cbn [s_inited r_inited s_compact r_compact s_pprf_num r_pprf_num s_pprf_range r_pprf_range s_mal r_mal r_k r_leaves].
  rewrite Z1, Z2. apply converse_check_l; [assumption..|done|]. apply converse_check_r; [assumption..|done|]. sender_lifts Es. receiver_lifts Er.
  eapply converse_lift_l; [assumption..|by apply (rots_delta _ _ _ _ _ _ _ HR')|]. sender_ctx.
  destruct (tree_helper prf rp blake3 seeds hs' r hr' s lr' br' ls' k mal Hblake Hprf Hrp Hseeds Hk HR' k Hk) as [Eh _]. receiver_lifts Eh.
  destruct (recv_trees prf rp blake3 seeds hs' r hr' s lr' br' ls' k mal Hblake Hprf Hrp Hseeds Hk HR' (fresh (total k)) (fresh_bytes (corr_size (trees k) mal)))
    as (leaves & buf & E1 & L1 & L2 & A1 & A2); [apply Hfresh; lia|apply Hfresh_bytes, corr_size_pos|].
  assert (Ecs : cur_s s (pos k 0) = s) by (destruct HR' as [_ _ _ F1 F2 _ F3 _ _]; destruct s as [sl ty de bu]; cbn in *; subst; done).
  assert (Ecr : cur_r r (pos k 0) = r) by (destruct HR' as [_ _ F1 _ _ F2 _ _ _]; destruct r as [sl ty bi bu]; cbn in *; subst; done).
  rewrite Ecs in E1. receiver_lifts E1. receiver_ctx. change 1%N with (1 + 0)%N. sends_up. cbn [snd fst].
  rewrite L2. apply converse_check_l; [assumption..|apply Z.eqb_refl|]. sender_lifts Eh.
  destruct (send_trees prf rp blake3 seeds hs' r hr' s lr' br' ls' k mal Hblake Hprf Hrp Hseeds Hk HR' (delta_word br') (default_step k step) compact
    (mk_sender 0 false k (trees k) (2 ^ k) (fresh (total k)) (fresh (trees k)) (delta_word br') (fresh 128) (fresh (total k - trees k)) (default_step k step) mal compact)
    buf) as (st & E2 & P2); [|done|done|].
  { split; cbn; try done; [apply Hfresh; lia|apply Hfresh; lia|lia|apply Hfresh; lia|unfold pos; lia|apply Hfresh; lia|lia]. }
  rewrite Ecr in E2. sender_lifts E2. apply converse_ret; [assumption..|]. cbn [fst snd s_counter s_k]. split; [done|]. split; [done|].
  destruct P2 as [P1 P2 P3 P4 P5 P6 P7 P8 P9 P10 P11 P12 P13 P14 P15]. split; cbn; try done.
  split; cbn; try done. intros q Hq. apply P13. unfold pos. lia.
Qed.
End Setup.
