(* ===== verification/SoftspokenTheorems.v ===== *)
(** SoftSpoken as a protocol: from 128 base transfers both parties get the transfers of the
    receiver's choices, into spans, into compact stores or into the stores of random and
    correlated transfers, whatever the schedule. *)

From Stdlib Require Import ZArith Lia ZifyBool Bool.
From stdpp Require Import base numbers list option gmap.
From S2P Require Import Prelude BitBlock BitSet BitSetFacts BitSetOps BitSetGrow BitSetString ChannelKeys OtStore OtStoreFacts OtStoreTheorems.
From S2P Require Import CrHash LinkProgram Context LinkGroup TwoParty Collectives CollectivesFacts Dialogue Transpose TransposeFacts TransposeTheorems.
From S2P Require Import GaloisField GaloisTheorems Sgrr SgrrFacts SgrrTheorems SgrrFixed Mpfss Ferret FerretFacts FerretRuns FerretTheorems.
From S2P Require Import OtExtension OtExtensionFacts OtExtensionTheorems Softspoken SoftspokenFacts SoftspokenRuns SoftspokenSetup.

Local Open Scope Z_scope.

(** *** The plan *)

Record planned (step n : Z) (pl : plan) : Prop := {
  plan_all : all_batch_num pl = (n + 191) / 128;
  plan_expand : expand_numOt pl = all_batch_num pl * 128;
  plan_super : super_batch_num pl = n / (step * 128);
  plan_inside : 0 <= super_batch_num pl /\ 128 * (super_batch_num pl * step) <= n /\ super_batch_num pl * step <= all_batch_num pl;
  plan_offset : batch_offset pl = 128 * (super_batch_num pl * step);
  plan_batches : 0 <= batch_num pl <= step + 1 /\ all_batch_num pl = super_batch_num pl * step + batch_num pl;
  plan_sizes : 0 < all_batch_num pl < 2 ^ 56 /\ n + 64 <= expand_numOt pl /\ n <= 128 * all_batch_num pl
}.

Lemma ss_plan_run step n : 1 <= step < 2 ^ 24 -> 0 < n < 2 ^ 60 -> exists pl, ss_plan step n = Val pl /\ planned step n pl.
Proof.
  intros Hs Hn. unfold ss_plan, kBatchSize, kS. rewrite (u64_small (step * 128)) by lia. replace (step * 128 =? 0) with false by lia. cbv zeta.
  rewrite (u64_small (n + 64)), (u64_small (n + 64 + 128)), (u64_small (n + 64 + 128 - 1)) by lia. replace (n + 64 + 128 - 1) with (n + 191) by lia.
  set (A := (n + 191) / 128). assert (HA : 128 * A <= n + 191 < 128 * A + 128) by (unfold A; dlia). rewrite (u64_small (A * 128)) by lia.
  set (sp := n / (step * 128)).
  assert (Hsp : 0 <= sp /\ sp * (step * 128) <= n < (sp + 1) * (step * 128)).
  { unfold sp. pose proof (Z.div_mod n (step * 128) ltac:(lia)). pose proof (Z.mod_pos_bound n (step * 128) ltac:(lia)). split; [apply Z.div_pos; lia|lia]. }
  assert (Hst : 0 <= sp * step) by nia. assert (Hin : 128 * (sp * step) <= n /\ n < 128 * (sp * step) + 128 * step) by lia.
  assert (HB : sp * step <= A /\ A - sp * step <= step + 1) by lia.
  rewrite (u64_small (sp * (step * 128))), (u64_small (A * 128 - _)) by lia. rewrite (u64_small (A * 128 - _ + 128)), (u64_small (A * 128 - _ + 128 - 1)) by lia.
  assert (Eb : (A * 128 - sp * (step * 128) + 128 - 1) / 128 = A - sp * step).
  { replace (A * 128 - sp * (step * 128) + 128 - 1) with ((A - sp * step) * 128 + 127) by lia. rewrite Z.div_add_l by lia. rewrite Z.div_small by lia. lia. }
  rewrite Eb, (u64_small (sp * step)), (u64_small (sp * step + _)) by lia. replace (sp * step + (A - sp * step)) with A by lia. rewrite (u64_small (A * 128)) by lia.
  rewrite Z.eqb_refl. cbn [OtStore.enforce mbind res_bind]. eexists. split; [reflexivity|]. split; cbn; try done || lia.
Qed.

(** *** The outputs *)

Section Spans.
Context (rp : Z -> Z) (fresh : Z -> list Z) (delta : Z) (choices : dynamic_bitset) (n : Z) (cot compact : bool).
Hypothesis Hfresh : forall m, 0 <= m -> vsize (fresh m) = m.

(** The transfers below [m]; in compact mode correlated ones have first messages whose lowest bit is 0. *)
Definition even_below (m : Z) (xs : list (Z * Z)) : Prop :=
  compact = true -> cot = true -> forall q, 0 <= q < m -> exists x, vget xs q = Some x /\ Z.testbit x.1 0 = false.
Definition spanned (m : Z) (xs : list (Z * Z)) (ys : list Z) : Prop := transfers_below rp delta choices n cot m xs ys /\ even_below m xs.

Lemma spans_emit : emits compact delta n choices (emit_pairs rp fresh delta cot) (emit_blocks rp cot) spanned.
Proof using All.
  intros pos lim Q T xs ys ((Lx & Ly & Hbelow) & Heven) Hpos Hlim Hin LQ LT Hrows. unfold emit_pairs, emit_blocks.
  destruct (xor_block_run Q (fresh 128) delta) as (D & ED & LD & BD); [rewrite Hfresh by lia; lia|]. rewrite ED. cbn [mbind res_bind].
  rewrite Hfresh in LD by lia. rewrite !(hashed_list rp).
  destruct (copy_loop (fun j => (hashed rp cot (blk Q j), hashed rp cot (Z.lxor (blk Q j) delta))) lim pos
    (fun j out => x ← vget (hashed rp cot <$> Q) j; y ← vget (hashed rp cot <$> D) j; vset out (pos + j) (x, y)) xs) as (xs' & E1 & L1 & V1); [lia|lia|lia| |].
  { intros j out Hj _. rewrite !hashed_at by lia. cbn [mbind option_bind]. rewrite BD by lia. by replace (j <? vsize Q) with true by lia. }
  destruct (copy_loop (fun j => hashed rp cot (blk T j)) lim pos (fun j out => x ← vget (hashed rp cot <$> T) j; vset out (pos + j) x) ys) as (ys' & E2 & L2 & V2); [lia|lia|lia| |].
  { intros j out Hj _. by rewrite hashed_at by lia. }
  rewrite E1, E2. cbn [access mbind res_bind]. eexists _, _, _, _. split; [done|]. split; [done|]. rewrite !vsize_map. split; [done|]. split; [done|]. split.
  2:{ intros Ec Et q Hq. rewrite V1. destruct (Z.lt_ge_cases q pos).
    - replace ((pos <=? q) && (q <? pos + lim)) with false by lia. apply Heven; done || lia.
    - replace ((pos <=? q) && (q <? pos + lim)) with true by lia. eexists. split; [done|]. rewrite Et. destruct (Hrows (q - pos) ltac:(lia)) as (_ & _ & HC). by apply HC. }
  split; [lia|]. split; [lia|]. intros q Hq Hlt. rewrite V1, V2. destruct (Z.lt_ge_cases q pos).
  - replace ((pos <=? q) && (q <? pos + lim)) with false by lia. by apply Hbelow.
  - replace ((pos <=? q) && (q <? pos + lim)) with true by lia. eexists _, _. split; [done|]. split; [done|]. destruct (Hrows (q - pos) ltac:(lia)) as (W & ET & _).
    exists (blk Q (q - pos)). split; [done|]. split; [done|]. rewrite ET. replace (pos + (q - pos)) with q by lia. done.
Qed.
End Spans.

Section Stores.
Context (delta : Z) (choices : dynamic_bitset) (n : Z) (o : OtSendStore) (ro : OtRecvStore).
Hypothesis Hot : send_type o = Compact.
Hypothesis Hrt : recv_type ro = Compact.
Hypothesis Hos : OtSend.Size o = n.
Hypothesis Hrs : OtRecv.Size ro = n.

(** The first [m] transfers are in the stores. *)
Definition stored (m : Z) (hs hr : heap) : Prop := exists l lr b, send_view hs o l /\ recv_view hr ro lr b /\ forall q, 0 <= q < m ->
  let x := blk l (internal_use_ctr_ (send_slice o) + q) in
  0 <= x < 2 ^ 128 /\ Z.testbit x 0 = false /\ blk lr (internal_use_ctr_ (recv_slice ro) + q) = Z.lxor x (choose (chosen choices q) delta).

Lemma send_size_compact : internal_use_size_ (send_slice o) = n.
Proof using Hot Hos. rewrite <- Hos. unfold OtSend.Size, OtSend.ot_blk_num. by rewrite Hot. Qed.

Lemma set_compact_run h l i x : send_view h o l -> 0 <= i < n ->
  OtSend.SetCompactBlock h o i x = Val (put_blk h (send_blk_buf o) (<[Z.to_nat (internal_use_ctr_ (send_slice o) + i) := x]> l)) /\
  send_view (put_blk h (send_blk_buf o) (<[Z.to_nat (internal_use_ctr_ (send_slice o) + i) := x]> l)) o (<[Z.to_nat (internal_use_ctr_ (send_slice o) + i) := x]> l).
Proof using Hot Hos.
  intros [B S A] Hi. pose proof send_size_compact as Hz. unfold OtSend.SetCompactBlock. rewrite Hot, (GetBufIdx_ok _ _ _ S) by lia. cbn [mbind res_bind]. destruct S as [S1 S2 S3 S4 S5 S6].
  rewrite (write_blk_at _ _ _ _ _ B) by lia. split; [done|]. split; [|rewrite vsize_insert; by split|done].
  pose proof (blk_at_put h (send_blk_buf o) (<[Z.to_nat (internal_use_ctr_ (send_slice o) + i) := x]> l) _ _ B) as H. by rewrite decide_True in H.
Qed.

(** A loop of writes through each store. *)
Lemma sets_compact V pos lim h l : send_view h o l -> 0 <= pos -> 0 <= lim -> pos + lim <= n -> lim <= vsize V ->
  exists h' l', for_res (Z.to_nat lim) 0 (fun j h => x ← access (vget V j); OtSend.SetCompactBlock h o (pos + j) x) h = Val h' /\ send_view h' o l' /\
    forall q, 0 <= q < n -> blk l' (internal_use_ctr_ (send_slice o) + q) = if (pos <=? q) && (q <? pos + lim) then blk V (q - pos) else blk l (internal_use_ctr_ (send_slice o) + q).
Proof using Hot Hos.
  intros Hv Hp Hl Hin LV. pose proof send_size_compact as Hz. set (cs := internal_use_ctr_ (send_slice o)).
  match goal with |- exists h' l', for_res ?m0 ?i0 ?f ?s0 = _ /\ _ =>
    destruct (for_res_inv (fun j h' => exists l', send_view h' o l' /\ forall q, 0 <= q < n -> blk l' (cs + q) = if (pos <=? q) && (q <? pos + j) then blk V (q - pos) else blk l (cs + q))
      f m0 i0 s0) as (h' & E & l' & V' & B') end.
  - exists l. split; [done|]. intros q Hq. by replace ((pos <=? q) && (q <? pos + 0)) with false by lia.
  - intros j h1 Hj (l1 & V1 & B1). rewrite (vget_blk V) by lia. cbn [access mbind res_bind]. destruct (set_compact_run h1 l1 (pos + j) (blk V j) V1 ltac:(lia)) as [E2 V2].
    eexists. split; [exact E2|]. eexists. split; [exact V2|]. intros q Hq. pose proof (send_view_slice _ _ _ V1) as [S1 S2 S3 S4 S5 S6]. fold cs in S1, S3. fold cs.
    rewrite blk_insert by lia. destruct (Z.eqb_spec (cs + q) (cs + (pos + j))) as [E0|E0].
    + replace ((pos <=? q) && (q <? pos + (j + 1))) with true by lia. f_equal. lia.
    + rewrite B1 by lia. by replace ((pos <=? q) && (q <? pos + (j + 1))) with ((pos <=? q) && (q <? pos + j)) by lia.
  - exists h', l'. split; [exact E|]. split; [done|]. intros q Hq. rewrite B' by done. by replace (0 + Z.of_nat (Z.to_nat lim)) with lim by lia.
Qed.

Lemma sets_block W pos lim h l b : recv_view h ro l b -> 0 <= pos -> 0 <= lim -> pos + lim <= n -> lim <= vsize W ->
  exists h' l', for_res (Z.to_nat lim) 0 (fun j h => x ← access (vget W j); OtRecv.SetBlock h ro (pos + j) x) h = Val h' /\ recv_view h' ro l' b /\
    forall q, 0 <= q < n -> blk l' (internal_use_ctr_ (recv_slice ro) + q) = if (pos <=? q) && (q <? pos + lim) then blk W (q - pos) else blk l (internal_use_ctr_ (recv_slice ro) + q).
Proof using Hrs.
  intros Hv Hp Hl Hin LW. set (cs := internal_use_ctr_ (recv_slice ro)). assert (Hz : internal_use_size_ (recv_slice ro) = n) by done.
  match goal with |- exists h' l', for_res ?m0 ?i0 ?f ?s0 = _ /\ _ =>
    destruct (for_res_inv (fun j h' => exists l', recv_view h' ro l' b /\ forall q, 0 <= q < n -> blk l' (cs + q) = if (pos <=? q) && (q <? pos + j) then blk W (q - pos) else blk l (cs + q))
      f m0 i0 s0) as (h' & E & l' & V' & B') end.
  - exists l. split; [done|]. intros q Hq. by replace ((pos <=? q) && (q <? pos + 0)) with false by lia.
  - intros j h1 Hj (l1 & V1 & B1). rewrite (vget_blk W) by lia. cbn [access mbind res_bind]. rewrite (recv_SetBlock _ _ _ _ V1) by lia. rewrite Hrs.
    replace (pos + j <? n) with true by lia. pose proof (view_slice _ _ _ _ V1) as [S1 S2 S3 S4 S5 S6]. fold cs in S1, S3. fold cs. eexists. split; [reflexivity|].
    destruct (view_put_blk h1 ro l1 b ro l1 b (cs + (pos + j)) (blk W j) V1 V1 ltac:(lia)) as [V2 _]. rewrite decide_True in V2 by done.
    eexists. split; [exact V2|]. intros q Hq. rewrite blk_insert by lia. destruct (Z.eqb_spec (cs + q) (cs + (pos + j))) as [E0|E0].
    + replace ((pos <=? q) && (q <? pos + (j + 1))) with true by lia. f_equal. lia.
    + rewrite B1 by lia. by replace ((pos <=? q) && (q <? pos + (j + 1))) with ((pos <=? q) && (q <? pos + j)) by lia.
  - exists h', l'. split; [exact E|]. split; [done|]. intros q Hq. rewrite B' by done. by replace (0 + Z.of_nat (Z.to_nat lim)) with lim by lia.
Qed.

Lemma stores_emit : emits true delta n choices (emit_compact o) (emit_store ro) stored.
Proof using All.
  intros pos lim Q T hs hr (l & lr & b & V1 & V2 & Hst) Hpos Hlim Hin LQ LT Hrows. unfold emit_compact, emit_store.
  destruct (sets_compact Q pos lim hs l V1) as (hs' & l' & E1 & V1' & B1); [lia..|].
  destruct (sets_block T pos lim hr lr b V2) as (hr' & lr' & E2 & V2' & B2); [lia..|].
  rewrite E1, E2. cbn [mbind res_bind]. exists Q, T, hs', hr'. split; [done|]. split; [done|]. split; [done|]. split; [done|].
  exists l', lr', b. split; [done|]. split; [done|]. intros q Hq. cbv zeta. rewrite B1, B2 by lia. destruct (Z.lt_ge_cases q pos).
  - replace ((pos <=? q) && (q <? pos + lim)) with false by lia. apply Hst. lia.
  - replace ((pos <=? q) && (q <? pos + lim)) with true by lia. destruct (Hrows (q - pos) ltac:(lia)) as (W & ET & HC).
    split; [done|]. split; [by apply HC|]. rewrite ET. by replace (pos + (q - pos)) with q by lia.
Qed.
End Stores.

(** *** Stores filled from spans *)

Lemma for_res_ext {A} (f g : Z -> A -> res A) n i x : (forall j y, i <= j < i + Z.of_nat n -> f j y = g j y) -> for_res n i f x = for_res n i g x.
Proof.
  revert i x. induction n as [|n IH]; intros i x Hfg; [done|]. cbn [for_res]. rewrite Hfg by lia. destruct (g i x) as [y| |]; try done. cbn [mbind res_bind]. apply IH. intros; apply Hfg; lia.
Qed.

Lemma vget_some {A} (l : list A) i : 0 <= i < vsize l -> is_Some (vget l i).
Proof. intros Hi. unfold vget. replace (0 <=? i) with true by lia. apply lookup_lt_is_Some_2. unfold vsize in Hi. lia. Qed.

Lemma vget_fmap {A B} (f : A -> B) (l : list A) i : vget (f <$> l) i = f <$> vget l i.
Proof. unfold vget. destruct (0 <=? i); [apply list_lookup_fmap|done]. Qed.

Lemma empty_send h n ty : 0 < n < 2 ^ 60 -> exists h' o, OtSend.make_empty h n ty = Val (h', o) /\ send_wf h' o /\ send_type o = ty /\ OtSend.Size o = n /\ send_delta o = 0 /\
  internal_use_ctr_ (send_slice o) = 0.
Proof.
  intros Hn. unfold OtSend.make_empty, new_blk. set (m := match ty with Normal => u64 (n * 2) | Compact => n end).
  assert (Hm : m = match ty with Normal => n * 2 | Compact => n end) by (unfold m; destruct ty; [rewrite u64_small by lia|]; done).
  set (h1 := mk_heap _ _ _). destruct (make_send_whole h1 (next_loc h) (replicate (Z.to_nat m) 0) 0 ty m) as [E V].
  - apply lookup_insert_eq.
  - rewrite vsize_replicate. destruct ty; lia.
  - destruct ty; lia.
  - intros ->. rewrite Hm. apply Z.mod_mul. lia.
  - rewrite E. eexists _, _. split; [reflexivity|]. split; [by eexists|]. split; [done|]. split; [|done].
    unfold OtSend.Size, OtSend.ot_blk_num. cbn. rewrite Hm. destruct ty; [apply Z.div_mul; lia|done].
Qed.

Lemma empty_recv h n ty : 0 < n < 2 ^ 60 -> exists h' o, OtRecv.make_empty h n ty = Val (h', o) /\ recv_wf h' o /\ recv_type o = ty /\ OtRecv.Size o = n /\
  internal_use_ctr_ (recv_slice o) = 0.
Proof.
  intros Hn. unfold OtRecv.make_empty. destruct ty; cbn [new_bit new_blk].
  - destruct (ctor_value_refines 128 n 0) as (bs & -> & W & N & _); [lia|lia|]. cbn [access mbind res_bind new_bit new_blk].
    match goal with |- context [OtRecv.make ?h2 ?q (Some ?p) 0 n 0 n Normal] => destruct (make_recv_whole h2 p q (replicate (Z.to_nat n) 0) bs Normal n) as [E V] end.
    + apply lookup_insert_eq.
    + rewrite vsize_replicate. lia.
    + lia.
    + intros _. split; [|done]. eexists. split; [done|]. cbn. apply lookup_insert_eq.
    + rewrite E. eexists _, _. split; [reflexivity|]. split; [by eexists _, _|]. done.
  - cbn [mbind res_bind new_blk].
    match goal with |- context [OtRecv.make ?h2 ?q (Some ?p) 0 n 0 n Compact] => destruct (make_recv_whole h2 p q (replicate (Z.to_nat n) 0) (mk_bitset [] 0) Compact n) as [E V] end.
    + apply lookup_insert_eq.
    + rewrite vsize_replicate. lia.
    + lia.
    + done.
    + rewrite E. eexists _, _. split; [reflexivity|]. split; [by eexists _, _|]. done.
Qed.

Lemma normal_cell h o l i m x n : send_view h o l -> send_type o = Normal -> OtSend.Size o = n -> internal_use_ctr_ (send_slice o) = 0 -> n < 2 ^ 60 -> 0 <= i < n -> m = 0 \/ m = 1 ->
  2 * n <= vsize l /\ OtSend.SetNormalBlock h o i m x = Val (put_blk h (send_blk_buf o) (<[Z.to_nat (2 * i + m) := x]> l)) /\
  send_view (put_blk h (send_blk_buf o) (<[Z.to_nat (2 * i + m) := x]> l)) o (<[Z.to_nat (2 * i + m) := x]> l).
Proof.
  intros Hv Ht Hs Hc Hn Hi Hm. pose proof (send_size _ _ _ Hv) as Hz. pose proof Hv as [B S A]. unfold OtSend.ot_blk_num in Hz. rewrite Ht, Hs in Hz. pose proof S as [S1 S2 S3 S4 S5 S6].
  split; [lia|]. unfold OtSend.SetNormalBlock. rewrite Ht. replace ((m =? 0) || (m =? 1)) with true by lia. cbn [OtStore.enforce mbind res_bind].
  rewrite (u64_small (i * 2 + m)), (GetBufIdx_ok _ _ _ S), Hc by lia. cbn [mbind res_bind]. replace (0 + (i * 2 + m)) with (2 * i + m) by lia.
  rewrite (write_blk_at _ _ _ _ _ B) by lia. split; [done|]. split; [|by rewrite vsize_insert|done].
  pose proof (blk_at_put h (send_blk_buf o) (<[Z.to_nat (2 * i + m) := x]> l) _ _ B) as H. by rewrite decide_True in H.
Qed.

(** Pairs of random messages in a normal store. *)
Lemma rot_fill h o xs n : send_wf h o -> send_type o = Normal -> send_delta o = 0 -> OtSend.Size o = n -> internal_use_ctr_ (send_slice o) = 0 -> 0 < n < 2 ^ 60 -> vsize xs = n ->
  exists h', for_res (Z.to_nat n) 0 (fun i h => x ← access (vget xs i); h ← OtSend.SetNormalBlock h o i 0 x.1; OtSend.SetNormalBlock h o i 1 x.2) h = Val h' /\
    forall q x, 0 <= q < n -> vget xs q = Some x -> OtSend.GetBlock h' o q 0 = Val x.1 /\ OtSend.GetBlock h' o q 1 = Val x.2.
Proof.
  intros (l0 & V0) Ht Hd Hs Hc Hn Lx.
  match goal with |- exists h', for_res ?m0 ?i0 ?f ?s0 = _ /\ _ =>
    destruct (for_res_inv (fun j h' => exists l', send_view h' o l' /\ forall q x, 0 <= q < j -> vget xs q = Some x -> blk l' (2 * q) = x.1 /\ blk l' (2 * q + 1) = x.2)
      f m0 i0 s0) as (h' & E & l' & V' & B') end.
  - exists l0. split; [done|]. lia.
  - intros j h1 Hj (l1 & V1 & B1). destruct (vget_some xs j ltac:(lia)) as [x Ex]. rewrite Ex. cbn [access mbind res_bind].
    destruct (normal_cell h1 o l1 j 0 x.1 n V1 Ht Hs Hc ltac:(lia) ltac:(lia) ltac:(lia)) as (Z1 & -> & V2). cbn [mbind res_bind]. rewrite Z.add_0_r in *.
    set (l2 := <[Z.to_nat (2 * j) := x.1]> l1) in *. set (h2 := put_blk _ _ l2) in *.
    destruct (normal_cell h2 o l2 j 1 x.2 n V2 Ht Hs Hc ltac:(lia) ltac:(lia) ltac:(lia)) as (Z2 & E2 & V3). eexists. split; [exact E2|]. eexists. split; [exact V3|].
    assert (BB : forall q, 0 <= q -> blk (<[Z.to_nat (2 * j + 1) := x.2]> l2) q = if q =? 2 * j + 1 then x.2 else if q =? 2 * j then x.1 else blk l1 q).
    { intros q Hq. unfold l2. rewrite !blk_insert by (rewrite ?vsize_insert; lia). done. }
    intros q y Hq Ey. rewrite !BB by lia. destruct (Z.eq_dec q j) as [-> | Hne].
    + rewrite Ex in Ey. injection Ey as <-. replace (2 * j =? 2 * j + 1) with false by lia. by rewrite !Z.eqb_refl.
    + replace (2 * q =? 2 * j + 1) with false by lia. replace (2 * q =? 2 * j) with false by lia. replace (2 * q + 1 =? 2 * j + 1) with false by lia.
      replace (2 * q + 1 =? 2 * j) with false by lia. apply B1; [lia|done].
  - exists h'. split; [exact E|]. intros q x Hq Ex. destruct (B' q x ltac:(lia) Ex) as [B0 B1]. rewrite !(send_GetBlock _ _ _ V') by (done || lia || auto).
    rewrite Hs. replace (q <? n) with true by lia. rewrite Hd, Hc. unfold OtSend.ot_blk_num, message_at. rewrite Ht. cbn [Z.eqb]. rewrite Z.add_0_l, Z.add_0_r, B0, B1. done.
Qed.

(** What a compact store with a delta returns. *)
Lemma compact_messages h o l delta q n : send_view h o l -> send_type o = Compact -> send_delta o = delta -> delta <> 0 -> 0 <= delta < 2 ^ 128 -> OtSend.Size o = n -> n < 2 ^ 60 -> 0 <= q < n ->
  OtSend.GetBlock h o q 0 = Val (blk l (internal_use_ctr_ (send_slice o) + q)) /\
  OtSend.GetBlock h o q 1 = Val (Z.lxor (blk l (internal_use_ctr_ (send_slice o) + q)) delta).
Proof.
  intros V Ht Hd Hne Wd Hs Hn Hq. rewrite !(send_GetBlock _ _ _ V) by (lia || auto || congruence). rewrite Hs, Hd. replace (q <? n) with true by lia.
  unfold message_at, OtSend.ot_blk_num. rewrite Ht. replace (delta =? 0) with false by lia. rewrite Z.mul_1_l, Z.mul_0_r, Z.mul_1_r. unfold u128.
  by rewrite Z.mod_0_l, Z.lxor_0_r, Z.mod_small by lia.
Qed.

(** Blocks, and choices where the store has them. *)
Lemma recv_fill h o choices ys n (wc : bool) : recv_wf h o -> recv_type o = (if wc then Normal else Compact) -> OtRecv.Size o = n -> internal_use_ctr_ (recv_slice o) = 0 ->
  wf 128 choices -> m_bits_number choices = n -> 0 < n < 2 ^ 60 -> vsize ys = n ->
  exists h', fill_recv wc n choices o ys h = Val h' /\ forall q, 0 <= q < n -> OtRecv.GetBlock h' o q = Val (blk ys q) /\
    OtRecv.GetChoice h' o q = Val (Z.b2z (if wc then chosen choices q else Z.testbit (blk ys q) 0)).
Proof.
  intros (l0 & b0 & V0) Ht Hs Hc Wc Nc Hn Ly. unfold fill_recv.
  match goal with |- exists h', for_res ?m0 ?i0 ?f ?s0 = _ /\ _ =>
    destruct (for_res_inv (fun j h' => exists l' b', recv_view h' o l' b' /\ forall q, 0 <= q < j -> blk l' q = blk ys q /\ (wc = true -> chosen b' q = chosen choices q))
      f m0 i0 s0) as (h' & E & l' & b' & V' & B') end.
  - exists l0, b0. split; [done|]. lia.
  - intros j h1 Hj (l1 & b1 & V1 & B1). rewrite (vget_blk ys) by lia. cbn [access mbind res_bind]. rewrite (recv_SetBlock _ _ _ _ V1), Hs, Hc by lia. replace (j <? n) with true by lia. rewrite Z.add_0_l.
    cbn [mbind res_bind]. pose proof (view_slice _ _ _ _ V1) as [S1 S2 S3 S4 S5 S6]. assert (Hz : internal_use_size_ (recv_slice o) = n) by done.
    destruct (view_put_blk h1 o l1 b1 o l1 b1 j (blk ys j) V1 V1 ltac:(lia)) as [V2 _]. rewrite decide_True in V2 by done. set (l2 := <[Z.to_nat j := blk ys j]> l1) in *.
    assert (B2 : forall q, 0 <= q < j + 1 -> blk l2 q = blk ys q) by (intros q Hq; unfold l2; rewrite blk_insert by lia; destruct (Z.eqb_spec q j) as [-> |]; [done|apply B1; lia]).
    destruct wc.
    + unfold choice_at. rewrite (test_spec 128) by (done || lia). cbn [access mbind res_bind].
      destruct (recv_SetChoice _ o l2 b1 V2 j (Z.testbit (value 128 choices) j) Ht ltac:(lia)) as (b2 & -> & W2 & N2 & X2). rewrite Hc, Z.add_0_l in X2.
      destruct (view_put_bit _ o l2 b1 o l2 b1 b2 V2 Ht V2 W2 N2) as [V3 _]. rewrite decide_True in V3 by done. eexists. split; [done|]. eexists _, _. split; [exact V3|].
      intros q Hq. split; [by apply B2|]. intros _. unfold chosen. rewrite X2, testbit_set_bit by lia. destruct (Z.eqb_spec q j) as [-> |]; [done|]. by apply B1; [lia|].
    + eexists. split; [done|]. eexists _, _. split; [exact V2|]. intros q Hq. split; [by apply B2|done].
  - exists h'. split; [exact E|]. intros q Hq. destruct (B' q ltac:(lia)) as [B0 B1]. rewrite (recv_GetBlock _ _ _ _ V'), (recv_GetChoice _ _ _ _ V'), Hs, Hc, Ht by lia.
    replace (q <? n) with true by lia. rewrite Z.add_0_l, B0. split; [done|]. destruct wc; cbn [choice_of]; [|by rewrite B0]. fold (chosen b' q). by rewrite B1.
Qed.

(** A last step of the receiver that only returns. *)
Lemma converse_map_r ph nm kk rr : NoDup ph -> vsize ph = 2 -> rr = 0 \/ rr = 1 -> forall {A B C} da db (ms : LinkM A) (mr : LinkM B) (f : B -> LinkM C) (g : B -> C) (Q : A -> B -> Prop) (R : A -> C -> Prop),
  converse ph nm kk rr da db ms mr Q -> (forall y st, f y st = Ret (g y, st)) -> (forall x y, Q x y -> R x (g y)) -> converse ph nm kk rr da db ms (mr ≫= f) R.
Proof.
  intros Hnd Hph Hrr A B C da db ms mr f g Q R H Hf HR a b H1 H2 H3 H4. destruct (H a b H1 H2 H3 H4) as (a' & b' & x & y & msgs & E1 & E2 & [N B0 S0 R0] & HQ).
  exists a', b', x, (g y), msgs. split; [done|]. split; [done|]. split; [|by apply HR]. split; [done|done|done|]. rewrite <- (app_nil_r msgs).
  eapply (party_runs_bind _ _ _ _ Hnd Hph Hrr); [exact R0|]. intros S HS st Hst. exists st. by rewrite Hf.
Qed.

(** *** Sessions *)

(** What SoftSpoken needs of outside code and of arrays. *)
Record ss_outside (prf : bool -> Z -> Z) (rp : Z -> Z) (blake3 : bytes -> bytes) (prg64 : Z -> Z -> list Z) (seeds : Z -> Z)
    (fresh : Z -> list Z) (fresh_bytes : Z -> bytes) (a b : Z * Z) : Prop := {
  so_prf d z : 0 <= prf d z < 2 ^ 128;
  so_rp x : 0 <= x < 2 ^ 128 -> 0 <= rp x < 2 ^ 128;
  so_blake3 d : length (blake3 d) = 32%nat;
  so_prg64 seed m : 0 <= m -> vsize (prg64 seed m) = m /\ Forall (word 64) (prg64 seed m);
  so_seeds i : 0 <= seeds i < 2 ^ 128;
  so_fresh m : 0 <= m -> vsize (fresh m) = m;
  so_fresh_bytes m : 0 <= m -> vsize (fresh_bytes m) = m;
  so_a : TransposeSquares.pair_words a;
  so_b : TransposeSquares.pair_words b
}.

Section Sessions.
Context `{WordSerializer} (prf : bool -> Z -> Z) (rp : Z -> Z) (blake3 : bytes -> bytes) (prg64 : Z -> Z -> list Z).
Context (p : cpu) (a b : Z * Z) (fresh : Z -> list Z) (fresh_bytes : Z -> bytes).
Context (BaseOtRecv : heap -> dynamic_bitset -> Z -> LinkM (heap * OtRecvStore)) (BaseOtSend : heap -> Z -> LinkM (heap * OtSendStore)).
Context (base_choices : dynamic_bitset) (seeds : Z -> Z) (rnd_seed : Z) (gen : Z -> bool).
Hypothesis Hout : ss_outside prf rp blake3 prg64 seeds fresh fresh_bytes a b.
Hypothesis Hseed : word 128 rnd_seed.
Context (ph : list Z) (nm : bytes) (kk rr : Z).
Hypothesis Hnd : NoDup ph.
Hypothesis Hph : vsize ph = 2.
Hypothesis Hrr : rr = 0 \/ rr = 1.
Context (k step0 : Z) (mal compact : bool) (br : dynamic_bitset).
Local Abbreviation step := (default_step k step0).
Local Abbreviation delta := (delta_word br).
Local Abbreviation insync := (synced prf rp seeds k step0 mal compact br).
Hypothesis Hk : 1 <= k <= 30.
Hypothesis Hstep : 1 <= step < 2 ^ 24.
Hypothesis Hcompact : compact = true -> chosen br 0 = true.

(** The messages of the receiver for [n] transfers, and those of the sender. *)
Definition ss_ups (n : Z) : N := Z.to_N (n / (step * 128) + ((n + 191) / 128 - n / (step * 128) * step) + Z.b2z mal).
Definition ss_downs : N := Z.to_N (Z.b2z mal).

Lemma extension_session {Os Or} es er (Done : Z -> Os -> Or -> Prop) ctr st rt choices n os or_ : insync ctr st rt -> emits compact delta n choices es er Done ->
  wf 128 choices -> m_bits_number choices = n -> 0 < n < 2 ^ 60 -> Done 0 os or_ ->
  exists pl ce, ss_plan step n = Val pl /\ ExtendChoice gen choices (expand_numOt pl) = Some ce /\
    converse ph nm kk rr (ss_ups n) ss_downs (send_batches rp prg64 p a b fresh es n pl rnd_seed st os) (recv_batches rp prg64 p a b fresh er n pl ce rt or_)
      (fun x y => (exists ctr', insync ctr' x.1 y.1) /\ Done n x.2 y.2).
Proof using All.
  intros Hsy Hem Wc Nc Hn HD. destruct (ss_plan_run step n Hstep Hn) as (pl & Ep & [P1 P2 P3 P4 P5 P6 (P7 & P8 & P9)]).
  destruct (extend_choice_run gen choices (expand_numOt pl) Wc ltac:(lia)) as (ce & Ece & Wce & Nce & Bce). exists pl, ce. split; [done|]. split; [done|].
  pose proof Hsy as [S1 S2 S3 S4 R1 R2 R3]. destruct Hout as [O1 O2 O3 O4 O5 O6 O7 O8 O9]. pose proof (sr_ctr _ _ _ _ _ _ _ S1) as Wctr.
  assert (E0 : ctr_at ctr 0 = ctr) by (unfold ctr_at; rewrite Z.add_0_r; by apply Z.mod_small).
  assert (Ha : forall i, 0 <= i < trees k -> 0 <= alpha br k i < 2 ^ depth_of k i) by (intros; by apply alpha_range).
  assert (Hb : forall i j, 0 <= i < trees k -> 0 <= j < depth_of k i -> Z.testbit (alpha br k i) j = chosen br (i * k + j)) by (intros; by apply alpha_bits).
  assert (HL : forall i x, 0 <= i < trees k -> 0 <= x < 2 ^ depth_of k i -> 0 <= Lf prf rp seeds k mal i x < 2 ^ 128) by (intros; by apply Lf_word).
  assert (Wd : 0 <= delta < 2 ^ 128) by (apply Z.mod_pos_bound; lia).
  eapply (converse_weaken _ _ _ _ Hnd Hph Hrr).
  - apply (batches_converse rp prg64 p a b fresh k (Lf prf rp seeds k mal) (alpha br k) (chosen br) compact mal delta ctr step n choices ce pl O8 O9 O2 Hk
      Ha Hb Hcompact HL Wd (delta_word_bits br) Hstep Hn Wce ltac:(lia) ltac:(rewrite <- Nc; exact Bce) P7 P9 es er Done Hem ph nm kk rr Hnd Hph Hrr P4 P5 P6 rnd_seed Hseed O4 O6 st rt os or_);
      by rewrite ?E0.
  - unfold ss_ups. rewrite <- P1, <- P3. lia.
  - done.
  - intros x y (K1 & K2 & K3 & K4 & K5 & K6 & K7 & K8). split; [|done]. eexists. by split.
Qed.

(** Objects that are set up go on at once. *)
Lemma ready_converse {A B} ctr st rt hs hr da db (f : heap * Sender -> LinkM A) (g : heap * Receiver -> LinkM B) Q : insync ctr st rt ->
  converse ph nm kk rr da db (f (hs, st)) (g (hr, rt)) Q ->
  converse ph nm kk rr da db (ready_send prf rp blake3 BaseOtRecv base_choices hs st ≫= f) (ready_recv prf rp blake3 fresh_bytes BaseOtSend seeds hr rt ≫= g) Q.
Proof using All.
  intros Hsy HC. unfold ready_send, ready_recv. rewrite (sr_inited _ _ _ _ _ _ _ (su_sender _ _ _ _ _ _ _ _ _ _ _ Hsy)), (rr_inited _ _ _ _ _ (su_receiver _ _ _ _ _ _ _ _ _ _ _ Hsy)).
  eapply converse_pure_l; [assumption..|done|]. eapply converse_pure_r; [assumption..|done|]. exact HC.
Qed.

Lemma span_session hs hr ctr st rt choices n xs ys cot : insync ctr st rt -> wf 128 choices -> m_bits_number choices = n -> 0 < n < 2 ^ 60 -> vsize xs = n -> vsize ys = n ->
  converse ph nm kk rr (ss_ups n) ss_downs
    (Send_span prf rp blake3 prg64 p a b fresh BaseOtRecv base_choices rnd_seed hs st xs cot)
    (Recv_span prf rp blake3 prg64 p a b fresh fresh_bytes BaseOtSend seeds gen hr rt choices ys cot)
    (fun x y => x.1.1 = hs /\ y.1.1 = hr /\ (exists ctr', insync ctr' x.1.2 y.1.2) /\ spanned rp delta choices n cot compact n x.2 y.2).
Proof using All.
  intros Hsy Wc Nc Hn Lx Ly. pose proof Hsy as [_ _ S3 S4 _ _ S7]. unfold Send_span, Recv_span. eapply ready_converse; [exact Hsy|]. cbv beta iota. rewrite S3, S4, S7, Lx, Ly. unfold Bitset.size. rewrite Nc.
  apply converse_check_r; [assumption..|apply Z.eqb_refl|].
  destruct (extension_session (emit_pairs rp fresh delta cot) (emit_blocks rp cot) (spanned rp delta choices n cot compact) ctr st rt choices n xs ys Hsy) as (pl & ce & E1 & E2 & HC); try done.
  { apply spans_emit. apply Hout. }
  { split; [split; [done|]; split; [done|]; lia|]. intros _ _ q Hq. lia. }
  sender_lifts E1. receiver_lifts E1. eapply converse_lift_r; [assumption..|by rewrite E2|].
  eapply (converse_then _ _ _ _ Hnd Hph Hrr); [exact HC|]. intros [st' xs'] [rt' ys'] [Hsy' HD]. by apply converse_ret.
Qed.

Lemma store_session hs hr ctr st rt choices n o ro : insync ctr st rt -> compact = true -> wf 128 choices -> m_bits_number choices = n -> 0 < n < 2 ^ 60 ->
  send_wf hs o -> send_type o = Compact -> OtSend.Size o = n -> recv_wf hr ro -> recv_type ro = Compact -> OtRecv.Size ro = n ->
  converse ph nm kk rr (ss_ups n) ss_downs
    (Send_store prf rp blake3 prg64 p a b fresh BaseOtRecv base_choices rnd_seed hs st o)
    (Recv_store prf rp blake3 prg64 p a b fresh fresh_bytes BaseOtSend seeds gen hr rt choices ro)
    (fun x y => (exists ctr', insync ctr' x.1.2 y.2) /\ transferred (hashed rp true) delta choices n true (OtExtensionTheorems.Sender x.1.1 x.2) (OtExtensionTheorems.Receiver y.1 ro)).
Proof using All.
  intros Hsy Ec Wc Nc Hn Hwo Hto Hso Hwr Htr Hsr. pose proof Hsy as [_ _ S3 S4 _ _ S7]. unfold Send_store, Recv_store.
  apply converse_check_l; [assumption..|by apply bool_decide_eq_true_2|]. apply converse_check_r; [assumption..|by apply bool_decide_eq_true_2|].
  eapply ready_converse; [exact Hsy|]. cbv beta iota. rewrite S3, S4, S7, Hso, Hsr. unfold Bitset.size. rewrite Nc. apply converse_check_r; [assumption..|apply Z.eqb_refl|].
  assert (Hd0 : delta <> 0) by (intros E0; specialize (Hcompact Ec); rewrite <- delta_word_bits, E0, Z.bits_0 in Hcompact by lia; done).
  assert (Wd : 0 <= delta < 2 ^ 128) by (apply Z.mod_pos_bound; lia).
  set (o' := mk_send (send_slice o) (send_type o) delta (send_blk_buf o)).
  destruct (extension_session (emit_compact o') (emit_store ro) (stored delta choices o' ro) ctr st rt choices n hs hr Hsy) as (pl & ce & E1 & E2 & HC); try done.
  { rewrite Ec. by apply stores_emit. }
  { destruct Hwo as (l & [B S A]). destruct Hwr as (lr & b0 & Vr). exists l, lr, b0. split; [by split|]. split; [done|]. lia. }
  sender_lifts E1. receiver_lifts E1. eapply converse_lift_r; [assumption..|by rewrite E2|].
  eapply converse_lift_l; [assumption..| |]. { unfold OtSend.SetDelta. by replace (delta =? 0) with false by lia. } fold o'. replace (OtSend.Size o') with n.
  eapply (converse_then _ _ _ _ Hnd Hph Hrr); [exact HC|]. intros [st' hs'] [rt' hr'] [Hsy' (l & lr & b0 & V1 & V2 & HD)]. apply converse_ret; [assumption..|].
  split; [done|]. split; [done|]. split; [done|]. split; [intros _; unfold OtSend.GetDelta; cbn; by replace (delta =? 0) with false by lia|].
  intros q Hq. destruct (HD q Hq) as (W & B0 & Er). cbn [fst snd] in *. set (x := blk l _) in *.
  destruct (compact_messages hs' o' l delta q n V1 Hto eq_refl Hd0 Wd Hso ltac:(lia) Hq) as [G0 G1]. fold x in G0, G1.
  rewrite (recv_GetChoice _ _ _ _ V2), (recv_GetBlock _ _ _ _ V2), Hsr, Htr by lia. replace (q <? n) with true by lia. cbn [choice_of]. rewrite Er. split.
  - do 2 f_equal. rewrite Z.lxor_spec, B0. destruct (chosen choices q); cbn [choose]; [rewrite delta_word_bits by lia; by rewrite Hcompact|by rewrite Z.bits_0].
  - exists (x, Z.lxor x delta), (Z.lxor x (choose (chosen choices q) delta)). cbn [fst snd]. split; [done|]. split; [done|]. split; [done|]. exists x. done.
Qed.

(** Random transfers in new stores. *)
Lemma rot_session hs hr ctr st rt choices n : insync ctr st rt -> wf 128 choices -> m_bits_number choices = n -> 0 < n < 2 ^ 60 ->
  converse ph nm kk rr (ss_ups n) ss_downs
    (GenRot_send_new prf rp blake3 prg64 p a b fresh BaseOtRecv base_choices rnd_seed hs st n)
    (GenRot_recv_new prf rp blake3 prg64 p a b fresh fresh_bytes BaseOtSend seeds gen hr rt choices)
    (fun x y => (exists ctr', insync ctr' x.1.2 y.1.2) /\ transferred (hashed rp false) delta choices n false (OtExtensionTheorems.Sender x.1.1 x.2) (OtExtensionTheorems.Receiver y.1.1 y.2)).
Proof using All.
  intros Hsy Wc Nc Hn. assert (Esz : Bitset.size choices = n) by done. unfold GenRot_send_new, GenRot_recv_new. rewrite Esz.
  destruct (empty_send hs n Normal Hn) as (hs1 & o & Eo & Wo & To & So & Do & Co). destruct (empty_recv hr n Normal Hn) as (hr1 & ro & Er & Wr & Tr & Sr & Cr).
  sender_lifts Eo. receiver_lifts Er.
  eapply (converse_then _ _ _ _ Hnd Hph Hrr _ _ _ _ _ _
    (fun x y => (exists ctr', insync ctr' x.2 y.2) /\ transferred (hashed rp false) delta choices n false (OtExtensionTheorems.Sender x.1 o) (OtExtensionTheorems.Receiver y.1 ro))).
  - unfold GenRot_send, GenRot_recv. cbv zeta. rewrite Esz. apply converse_check_l; [assumption..|lia|]. apply converse_check_l; [assumption..|by apply bool_decide_eq_true_2|].
    apply converse_check_r; [assumption..|lia|]. apply converse_check_r; [assumption..|by apply bool_decide_eq_true_2|].
    eapply (converse_then _ _ _ _ Hnd Hph Hrr); [apply (span_session hs1 hr1 ctr st rt choices n); try done; rewrite vsize_replicate; lia|].
    intros [[h1 st'] xs] [[h2 rt'] ys] (Eh1 & Eh2 & Hsy' & (Lx & Ly & HT) & _). cbn [fst snd] in *. subst h1 h2.
    destruct (rot_fill hs1 o xs n Wo To Do So Co Hn Lx) as (hs2 & E1 & G1). destruct (recv_fill hr1 ro choices ys n true Wr Tr Sr Cr Wc Nc Hn Ly) as (hr2 & E2 & G2).
    sender_lifts E1. receiver_lifts E2. apply converse_ret; [assumption..|]. split; [done|]. split; [done|]. split; [done|]. split; [done|]. intros q Hq.
    destruct (G2 q Hq) as [F1 F2]. split; [done|]. destruct (HT q Hq ltac:(lia)) as (u & v & Eu & Ev & Htr). destruct (G1 q u Hq Eu) as [F3 F4].
    exists u, v. split; [done|]. split; [done|]. split; [|done]. cbn [fst]. rewrite F1. unfold blk. by rewrite Ev.
  - intros [h1 st'] [h2 rt'] HQ. by apply converse_ret.
Qed.

(** Correlated transfers in new stores, compact ones in compact mode. *)
Lemma cot_session hs hr ctr st rt choices n : insync ctr st rt -> wf 128 choices -> m_bits_number choices = n -> 0 < n < 2 ^ 60 -> delta <> 0 ->
  converse ph nm kk rr (ss_ups n) ss_downs
    (GenCot_send_new prf rp blake3 prg64 p a b fresh BaseOtRecv base_choices rnd_seed hs st n)
    (GenCot_recv_new prf rp blake3 prg64 p a b fresh fresh_bytes BaseOtSend seeds gen hr rt choices)
    (fun x y => (exists ctr', insync ctr' x.1.2 y.1.2) /\ transferred (hashed rp true) delta choices n true (OtExtensionTheorems.Sender x.1.1 x.2) (OtExtensionTheorems.Receiver y.1.1 y.2)).
Proof using All.
  intros Hsy Wc Nc Hn Hd0. assert (Wd : 0 <= delta < 2 ^ 128) by (apply Z.mod_pos_bound; lia). assert (Esz : Bitset.size choices = n) by done. unfold GenCot_send_new, GenCot_recv_new. rewrite Esz.
  destruct (empty_send hs n Compact Hn) as (hs1 & o & Eo & Wo & To & So & _ & Co). destruct (empty_recv hr n Normal Hn) as (hr0 & ro0 & Er0 & Wr0 & Tr0 & Sr0 & Cr0).
  pose proof (rr_compact _ _ _ _ _ (su_receiver _ _ _ _ _ _ _ _ _ _ _ Hsy)) as Ecm.
  assert (exists hr1 ro, (if r_compact rt then OtRecv.make_empty hr0 n Compact else Val (hr0, ro0)) = Val (hr1, ro) /\ recv_wf hr1 ro /\
    recv_type ro = (if negb compact then Normal else Compact) /\ OtRecv.Size ro = n /\ internal_use_ctr_ (recv_slice ro) = 0) as (hr1 & ro & Er & Wr & Tr & Sr & Cr).
  { rewrite Ecm. destruct compact; cbn [negb]; [|by exists hr0, ro0]. destruct (empty_recv hr0 n Compact Hn) as (hr1 & ro & ?). by exists hr1, ro. }
  sender_lifts Eo. receiver_lifts Er0. receiver_lifts Er. set (o' := mk_send (send_slice o) (send_type o) delta (send_blk_buf o)).
  assert (HC : converse ph nm kk rr (ss_ups n) ss_downs (GenCot_send prf rp blake3 prg64 p a b fresh BaseOtRecv base_choices rnd_seed hs1 st n o)
    (GenCot_recv prf rp blake3 prg64 p a b fresh fresh_bytes BaseOtSend seeds gen hr1 rt choices ro)
    (fun x y => (exists ctr', insync ctr' x.1.2 y.2) /\ transferred (hashed rp true) delta choices n true (OtExtensionTheorems.Sender x.1.1 x.2) (OtExtensionTheorems.Receiver y.1 ro))).
  { unfold GenCot_send, GenCot_recv. cbv zeta. rewrite Esz. apply converse_check_l; [assumption..|lia|]. apply converse_check_l; [assumption..|by apply bool_decide_eq_true_2|].
    apply converse_check_r; [assumption..|lia|].
    apply converse_check_r; [assumption..|apply bool_decide_eq_true_2; rewrite Tr, Ecm; by destruct compact|].
    eapply (converse_then _ _ _ _ Hnd Hph Hrr); [apply (span_session hs1 hr1 ctr st rt choices n); try done; rewrite vsize_replicate; lia|].
    intros [[h1 st'] xs] [[h2 rt'] ys] (Eh1 & Eh2 & Hsy' & (Lx & Ly & HT) & Hev). cbn [fst snd] in *. subst h1 h2.
    assert (s_delta st' = delta /\ r_compact rt' = compact) as [Eds Ecm'] by (destruct Hsy' as (c' & [_ _ _ Q1 Q2 _ _]); split; [done|by apply Q2]).
    eapply converse_lift_l; [assumption..| |]. { rewrite Eds. unfold OtSend.SetDelta. by replace (delta =? 0) with false by lia. } fold o'.
    assert (exists hs2 l2, for_res (Z.to_nat n) 0 (fun i h => x ← access (vget xs i); OtSend.SetCompactBlock h o' i x.1) hs1 = Val hs2 /\ send_view hs2 o' l2 /\
      forall q x, 0 <= q < n -> vget xs q = Some x -> blk l2 q = x.1) as (hs2 & l2 & E1 & V2 & B2).
    { destruct Wo as (l0 & [B0 S0 A0]). destruct (sets_compact n o' To So (fst <$> xs) 0 n hs1 l0) as (hs2 & l2 & E1 & V2 & B2); [by split|lia|lia|lia|rewrite vsize_map; lia|].
      exists hs2, l2. split; [|split; [done|]].
      - rewrite <- E1. apply for_res_ext. intros j y Hj. rewrite vget_fmap. destruct (vget xs j); done.
      - intros q x Hq Ex. specialize (B2 q Hq). cbn [o' send_slice] in B2. rewrite Co in B2. rewrite Z.add_0_l in B2. replace ((0 <=? q) && (q <? 0 + n)) with true in B2 by lia.
        rewrite Z.sub_0_r in B2. rewrite B2. unfold blk. rewrite vget_fmap, Ex. reflexivity. }
    destruct (recv_fill hr1 ro choices ys n (negb compact) Wr Tr Sr Cr Wc Nc Hn Ly) as (hr2 & E2 & G2). rewrite <- Ecm' in E2.
    sender_lifts E1. receiver_lifts E2. apply converse_ret; [assumption..|]. split; [done|]. split; [done|]. split; [done|].
    split; [intros _; unfold OtSend.GetDelta; cbn; by replace (delta =? 0) with false by lia|]. intros q Hq. cbn [fst snd].
    destruct (G2 q Hq) as [F1 F2]. destruct (HT q Hq ltac:(lia)) as (u & v & Eu & Ev & w & Ww & Euw & Evw). cbn [hashed] in Euw, Evw.
    assert (Eb : blk ys q = v) by (unfold blk; by rewrite Ev).
    destruct (compact_messages hs2 o' l2 delta q n V2 To eq_refl Hd0 Wd So ltac:(lia) Hq) as [F3 F4]. cbn [o' send_slice] in F3, F4. rewrite Co, Z.add_0_l, (B2 q u Hq Eu), Euw in F3, F4. cbn [fst] in F3, F4.
    split.
    - rewrite F2. do 2 f_equal. rewrite Eb. destruct compact; cbn [negb]; [|done]. destruct (Hev eq_refl eq_refl q Hq) as (u' & Eu' & Hb0).
      rewrite Eu in Eu'. injection Eu' as <-. rewrite Euw in Hb0. cbn [fst] in Hb0. rewrite Evw, Z.lxor_spec, Hb0.
      destruct (chosen choices q); cbn [choose]; [rewrite delta_word_bits by lia; by rewrite Hcompact|by rewrite Z.bits_0].
    - exists u, v. rewrite Euw. cbn [fst snd]. split; [done|]. split; [done|]. split; [by rewrite F1, Eb|]. exists w. done. }
  eapply (converse_map_r _ _ _ _ Hnd Hph Hrr _ _ _ _ _ (fun y => (y, ro))); [exact HC|by intros []|]. intros x [h2 rt'] HQ. exact HQ.
Qed.
End Sessions.

(** *** Uses of the protocol *)

(** One call with two objects that are set up: its choices, which [SecureRandBits] draws where [drawn] says so, and the form of its transfers. *)
Inductive job := JobSpans (choices : dynamic_bitset) (xs : list (Z * Z)) (ys : list Z) (cot : bool) | JobRot (drawn : bool) (choices : dynamic_bitset) | JobCot (drawn : bool) (choices : dynamic_bitset).

Definition wanted (j : job) : dynamic_bitset * bool :=
  match j with JobSpans choices _ _ cot => (choices, cot) | JobRot _ choices => (choices, false) | JobCot _ choices => (choices, true) end.

(** The functions that set up and extend once, or a session of calls with the same objects. *)
Inductive use :=
  | OneSpans (choices : dynamic_bitset) (xs : list (Z * Z)) (ys : list Z) (cot compact : bool)
  | OneStores (choices : dynamic_bitset) (o : OtSendStore) (ro : OtRecvStore) (step : Z)
  | Session (step : Z) (compact : bool) (jobs : list job).

Definition all_wanted (u : use) : list (dynamic_bitset * bool) :=
  match u with OneSpans choices _ _ cot _ => [(choices, cot)] | OneStores choices _ _ _ => [(choices, true)] | Session _ _ jobs => wanted <$> jobs end.
Definition use_compact (u : use) : bool := match u with OneSpans _ _ _ _ compact => compact | OneStores _ _ _ _ => true | Session _ compact _ => compact end.
Definition use_step (u : use) : Z := match u with OneSpans _ _ _ _ _ => 0 | OneStores _ _ _ step => step | Session step _ _ => step end.

(** Every call gave the transfers of its choices. *)
Definition all_transferred (rp : Z -> Z) (delta : Z) : list (dynamic_bitset * bool) -> list outcome -> list outcome -> Prop :=
  Forall3 (fun w => transferred (hashed rp w.2) delta w.1 (Bitset.size w.1) w.2).

Section Uses.
Context `{WordSerializer} (prf : bool -> Z -> Z) (rp : Z -> Z) (blake3 : bytes -> bytes) (prg64 : Z -> Z -> list Z).
Context (p : cpu) (a b : Z * Z) (fresh : Z -> list Z) (fresh_bytes : Z -> bytes).
Context (BaseOtRecv : heap -> dynamic_bitset -> Z -> LinkM (heap * OtRecvStore)) (BaseOtSend : heap -> Z -> LinkM (heap * OtSendStore)).
Context (base_choices : dynamic_bitset) (seeds : Z -> Z) (rnd_seed : Z) (gen : Z -> bool).

Definition job_send (h : heap) (st : Sender) (j : job) : LinkM (heap * Sender * outcome) :=
  match j with
  | JobSpans _ xs _ cot => '(h, st, x) ← Send_span prf rp blake3 prg64 p a b fresh BaseOtRecv base_choices rnd_seed h st xs cot; mret (h, st, Pairs x)
  | JobRot _ choices => '(h, st, o) ← GenRot_send_new prf rp blake3 prg64 p a b fresh BaseOtRecv base_choices rnd_seed h st (Bitset.size choices);
      mret (h, st, OtExtensionTheorems.Sender h o)
  | JobCot _ choices => '(h, st, o) ← GenCot_send_new prf rp blake3 prg64 p a b fresh BaseOtRecv base_choices rnd_seed h st (Bitset.size choices);
      mret (h, st, OtExtensionTheorems.Sender h o)
  end.

Definition job_recv (h : heap) (st : Receiver) (j : job) : LinkM (heap * Receiver * outcome) :=
  match j with
  | JobSpans choices _ ys cot => '(h, st, y) ← Recv_span prf rp blake3 prg64 p a b fresh fresh_bytes BaseOtSend seeds gen h st choices ys cot; mret (h, st, Blocks y)
  | JobRot drawn choices =>
      '(h, st, o) ← (if drawn then GenRot_recv_rand_new prf rp blake3 prg64 p a b fresh fresh_bytes BaseOtSend seeds gen (fun _ => choices) h st (Bitset.size choices)
        else GenRot_recv_new prf rp blake3 prg64 p a b fresh fresh_bytes BaseOtSend seeds gen h st choices); mret (h, st, OtExtensionTheorems.Receiver h o)
  | JobCot drawn choices =>
      '(h, st, o) ← (if drawn then GenCot_recv_rand_new prf rp blake3 prg64 p a b fresh fresh_bytes BaseOtSend seeds gen (fun _ => choices) h st (Bitset.size choices)
        else GenCot_recv_new prf rp blake3 prg64 p a b fresh fresh_bytes BaseOtSend seeds gen h st choices); mret (h, st, OtExtensionTheorems.Receiver h o)
  end.

Fixpoint jobs_send (h : heap) (st : Sender) (js : list job) : LinkM (list outcome) :=
  match js with [] => mret [] | j :: js => '(h, st, x) ← job_send h st j; xs ← jobs_send h st js; mret (x :: xs) end.
Fixpoint jobs_recv (h : heap) (st : Receiver) (js : list job) : LinkM (list outcome) :=
  match js with [] => mret [] | j :: js => '(h, st, y) ← job_recv h st j; ys ← jobs_recv h st js; mret (y :: ys) end.

Context (hs hr : heap) (r : OtRecvStore) (s : OtSendStore) (k : Z) (mal : bool).

Definition use_send (u : use) : LinkM (list outcome) :=
  match u with
  | OneSpans _ xs _ cot compact => x ← SoftspokenOtExtSend_span prf rp blake3 prg64 p a b fresh BaseOtRecv base_choices rnd_seed hs r xs k cot mal compact; mret [Pairs x.2]
  | OneStores _ o _ step => x ← SoftspokenOtExtSend prf rp blake3 prg64 p a b fresh BaseOtRecv base_choices rnd_seed hs r o k step mal; mret [OtExtensionTheorems.Sender x.1.1 x.2]
  | Session step compact jobs =>
      st ← lift (SoftspokenOtExtSender fresh k step mal compact); '(h, st) ← OneTimeSetup_send prf rp blake3 hs r st; jobs_send h st jobs
  end.

Definition use_recv (u : use) : LinkM (list outcome) :=
  match u with
  | OneSpans choices _ ys cot compact =>
      y ← SoftspokenOtExtRecv_span prf rp blake3 prg64 p a b fresh fresh_bytes BaseOtSend seeds gen hr s choices ys k cot mal compact; mret [Blocks y.2]
  | OneStores choices _ ro step =>
      y ← SoftspokenOtExtRecv prf rp blake3 prg64 p a b fresh fresh_bytes BaseOtSend seeds gen hr s choices ro k step mal; mret [OtExtensionTheorems.Receiver y.1 ro]
  | Session step compact jobs =>
      st ← lift (SoftspokenOtExtReceiver fresh k step mal compact); '(h, st) ← OneTimeSetup_recv prf rp blake3 fresh_bytes hr s seeds st; jobs_recv h st jobs
  end.

(** Party [rr] receives the transfers. *)
Definition use_programs (u : use) (rr : Z) (ss : list session) : list (prog (list outcome * session)) :=
  imap (fun i st => (if Z.of_nat i =? rr then use_recv u else use_send u) st) ss.

(** The messages of the receiver and of the sender. *)
Definition use_ups (u : use) : N := 1 + foldr (fun w m => ss_ups k (use_step u) mal (Bitset.size w.1) + m)%N 0%N (all_wanted u).
Definition use_downs (u : use) : N := foldr (fun _ m => ss_downs mal + m)%N 0%N (all_wanted u).

(** The spans have one element for each choice; stores have a delta, which is not zero. *)
Definition job_ok (nonzero : Prop) (j : job) : Prop :=
  match j with JobSpans choices xs ys _ => vsize xs = Bitset.size choices /\ vsize ys = Bitset.size choices | JobRot _ _ => True | JobCot _ _ => nonzero end.

Definition use_ok (br : dynamic_bitset) (u : use) : Prop :=
  Forall (fun w => wf 128 w.1 /\ 0 < Bitset.size w.1 < 2 ^ 60) (all_wanted u) /\ 1 <= k <= 30 /\ 0 <= use_step u < 2 ^ 24 /\ word 128 rnd_seed /\
  match u with
  | OneSpans choices xs ys _ _ => vsize xs = Bitset.size choices /\ vsize ys = Bitset.size choices
  | OneStores choices o ro _ => send_wf hs o /\ recv_wf hr ro /\ send_type o = Compact /\ recv_type ro = Compact /\ OtSend.Size o = Bitset.size choices /\ OtRecv.Size ro = Bitset.size choices
  | Session _ compact jobs => Forall (job_ok (exists q, 0 <= q < 128 /\ (compact && (q =? 0) || chosen br q) = true)) jobs
  end.

Lemma default_step_range step : 0 <= step < 2 ^ 24 -> 1 <= default_step k step < 2 ^ 24.
Proof using All. intros Hs. unfold default_step. destruct (step =? 0) eqn:E; [|lia]. destruct (k <=? 2); [lia|]. destruct (k <=? 4); lia. Qed.

Context (ph : list Z) (nm : bytes) (kk rr : Z).
Hypothesis Hnd : NoDup ph.
Hypothesis Hph : vsize ph = 2.
Hypothesis Hrr : rr = 0 \/ rr = 1.
Hypothesis Hout : ss_outside prf rp blake3 prg64 seeds fresh fresh_bytes a b.
Hypothesis Hseed : word 128 rnd_seed.
Hypothesis Hk : 1 <= k <= 30.

Section Jobs.
Context (step : Z) (compact : bool) (br : dynamic_bitset).
Local Abbreviation delta := (delta_word br).
Local Abbreviation insync := (synced prf rp seeds k step mal compact br).
Hypothesis Hstep : 0 <= step < 2 ^ 24.
Hypothesis Hcompact : compact = true -> chosen br 0 = true.

Lemma job_run ctr st rt h h' j : insync ctr st rt -> wf 128 (wanted j).1 /\ 0 < Bitset.size (wanted j).1 < 2 ^ 60 -> job_ok (delta <> 0) j ->
  converse ph nm kk rr (ss_ups k step mal (Bitset.size (wanted j).1)) (ss_downs mal) (job_send h st j) (job_recv h' rt j)
    (fun x y => (exists ctr', insync ctr' x.1.2 y.1.2) /\ transferred (hashed rp (wanted j).2) delta (wanted j).1 (Bitset.size (wanted j).1) (wanted j).2 x.2 y.2).
Proof using All.
  intros Hsy [Wc Hn] Hok. pose proof (default_step_range step Hstep) as Hst. destruct j as [choices xs ys cot|drawn choices|drawn choices]; cbn [wanted fst snd job_ok] in *; cbn [job_send job_recv].
  - eapply (converse_then _ _ _ _ Hnd Hph Hrr); [apply (span_session prf rp blake3 prg64 p a b fresh fresh_bytes BaseOtRecv BaseOtSend base_choices seeds rnd_seed gen Hout Hseed ph nm kk rr Hnd Hph Hrr
      k step mal compact br Hk Hst Hcompact h h' ctr st rt choices (Bitset.size choices) xs ys cot); done || apply Hok|].
    intros [[h1 st'] x] [[h2 rt'] y] (_ & _ & Hsy' & (Lx & Ly & HT) & _). cbn [fst snd] in *. apply converse_ret; [assumption..|]. split; [done|]. split; [done|]. split; [done|].
    intros q Hq. apply HT; [done|lia].
  - assert (Ed : (if drawn then GenRot_recv_rand_new prf rp blake3 prg64 p a b fresh fresh_bytes BaseOtSend seeds gen (fun _ => choices) h' rt (Bitset.size choices)
      else GenRot_recv_new prf rp blake3 prg64 p a b fresh fresh_bytes BaseOtSend seeds gen h' rt choices) = GenRot_recv_new prf rp blake3 prg64 p a b fresh fresh_bytes BaseOtSend seeds gen h' rt choices) by (by destruct drawn).
    rewrite Ed. eapply (converse_then _ _ _ _ Hnd Hph Hrr); [apply (rot_session prf rp blake3 prg64 p a b fresh fresh_bytes BaseOtRecv BaseOtSend base_choices seeds rnd_seed gen Hout Hseed ph nm kk rr Hnd Hph Hrr
      k step mal compact br Hk Hst Hcompact h h' ctr st rt choices (Bitset.size choices)); done|].
    intros [[h1 st'] o] [[h2 rt'] ro] HQ. by apply converse_ret.
  - assert (Ed : (if drawn then GenCot_recv_rand_new prf rp blake3 prg64 p a b fresh fresh_bytes BaseOtSend seeds gen (fun _ => choices) h' rt (Bitset.size choices)
      else GenCot_recv_new prf rp blake3 prg64 p a b fresh fresh_bytes BaseOtSend seeds gen h' rt choices) = GenCot_recv_new prf rp blake3 prg64 p a b fresh fresh_bytes BaseOtSend seeds gen h' rt choices) by (by destruct drawn).
    rewrite Ed. eapply (converse_then _ _ _ _ Hnd Hph Hrr); [apply (cot_session prf rp blake3 prg64 p a b fresh fresh_bytes BaseOtRecv BaseOtSend base_choices seeds rnd_seed gen Hout Hseed ph nm kk rr Hnd Hph Hrr
      k step mal compact br Hk Hst Hcompact h h' ctr st rt choices (Bitset.size choices)); done|].
    intros [[h1 st'] o] [[h2 rt'] ro] HQ. by apply converse_ret.
Qed.

Lemma jobs_run js ctr st rt h h' : insync ctr st rt -> Forall (fun w => wf 128 w.1 /\ 0 < Bitset.size w.1 < 2 ^ 60) (wanted <$> js) -> Forall (job_ok (delta <> 0)) js ->
  converse ph nm kk rr (foldr (fun w m => ss_ups k step mal (Bitset.size w.1) + m)%N 0%N (wanted <$> js)) (foldr (fun _ m => ss_downs mal + m)%N 0%N (wanted <$> js))
    (jobs_send h st js) (jobs_recv h' rt js) (all_transferred rp delta (wanted <$> js)).
Proof using All.
  intros Hsy HF HJ. revert ctr st rt h h' Hsy. induction js as [|j js IH]; intros ctr st rt h h' Hsy.
  - apply converse_ret; [assumption..|]. constructor.
  - rewrite fmap_cons in HF |- *. apply Forall_cons_1 in HF as [HF1 HF2]. apply Forall_cons_1 in HJ as [HJ1 HJ2]. cbn [foldr jobs_send jobs_recv].
    eapply (converse_bind _ _ _ _ Hnd Hph Hrr); [by apply (job_run ctr)|]. intros [[h1 st'] x] [[h2 rt'] y] [[ctr' Hsy'] HT]. cbn [fst snd] in *.
    eapply (converse_then _ _ _ _ Hnd Hph Hrr); [by apply (IH HF2 HJ2 ctr')|]. intros xs ys HTs. apply converse_ret; [assumption..|]. by constructor.
Qed.
End Jobs.

Lemma use_run lr br ls u : rots hs r hr s lr br ls -> use_ok br u ->
  exists delta, 0 <= delta < 2 ^ 128 /\ (forall q, 0 <= q < 128 -> Z.testbit delta q = use_compact u && (q =? 0) || chosen br q) /\
    converse ph nm kk rr (use_ups u) (use_downs u) (use_send u) (use_recv u) (all_transferred rp delta (all_wanted u)).
Proof using All.
  intros HR (HF & _ & Hstep & _ & Hu). destruct (compact_prepared hs r hr s lr br ls (use_compact u) HR) as (hs' & hr' & lr' & br' & ls' & Es & Er & HR' & Hbits & Ws & Wr).
  pose proof Hout as [O1 O2 O3 O4 O5 O6 O7 O8 O9].
  destruct (setup_converse prf rp blake3 seeds fresh fresh_bytes O3 O1 O2 O5 O6 O7 ph nm kk rr Hnd Hph Hrr k (use_step u) mal (use_compact u) Hk hs r hr s lr br ls hs' hr' lr' br' ls' HR Es Er HR')
    as (st0 & rt0 & E1 & E2 & HC).
  assert (Hbits' : forall q, 0 <= q < 128 -> chosen br' q = use_compact u && (q =? 0) || chosen br q) by (intros q Hq; rewrite Hbits by done; by destruct (_ && _)).
  assert (Hcompact : use_compact u = true -> chosen br' 0 = true) by (intros E; rewrite Hbits by lia; by rewrite E).
  pose proof (default_step_range (use_step u) Hstep) as Hst. exists (delta_word br'). split; [apply Z.mod_pos_bound; lia|]. split; [intros q Hq; rewrite delta_word_bits by done; by apply Hbits'|].
  unfold use_ups, use_downs. destruct u as [choices xs ys cot compact|choices o ro step|step compact jobs]; cbn [use_compact use_step all_wanted foldr use_send use_recv fst snd] in *.
  - apply Forall_singleton in HF as [Wc Hn]. cbn [fst] in *. rewrite !N.add_0_r. unfold SoftspokenOtExtSend_span, SoftspokenOtExtRecv_span.
    eapply (converse_then _ _ _ _ Hnd Hph Hrr).
    + sender_lifts E1. receiver_lifts E2. rewrite <- (N.add_0_l (ss_downs mal)). eapply (converse_bind _ _ _ _ Hnd Hph Hrr); [exact HC|]. intros [h1 st] [h2 rt] (F1 & F2 & Hsy). cbn [fst snd] in *. subst h1 h2.
      apply (span_session prf rp blake3 prg64 p a b fresh fresh_bytes BaseOtRecv BaseOtSend base_choices seeds rnd_seed gen Hout Hseed ph nm kk rr Hnd Hph Hrr
        k 0 mal compact br' Hk Hst Hcompact hs' hr' 0 st rt choices (Bitset.size choices) xs ys cot Hsy); done || apply Hu.
    + intros [[h1 st'] x] [[h2 rt'] y] (_ & _ & _ & (Lx & Ly & HT) & _). cbn [fst snd] in *. apply converse_ret; [assumption..|]. constructor; [|constructor]. split; [done|]. split; [done|]. intros q Hq. apply HT; [done|cbn in *; lia].
  - apply Forall_singleton in HF as [Wc Hn]. cbn [fst] in *. rewrite !N.add_0_r. unfold SoftspokenOtExtSend, SoftspokenOtExtRecv. destruct Hu as (U1 & U2 & U3 & U4 & U5 & U6).
    rewrite !bool_decide_eq_true_2 by done. eapply (converse_then _ _ _ _ Hnd Hph Hrr).
    + sender_lifts E1. receiver_lifts E2. rewrite <- (N.add_0_l (ss_downs mal)). eapply (converse_bind _ _ _ _ Hnd Hph Hrr); [exact HC|]. intros [h1 st] [h2 rt] (F1 & F2 & Hsy). cbn [fst snd] in *. subst h1 h2.
      apply (store_session prf rp blake3 prg64 p a b fresh fresh_bytes BaseOtRecv BaseOtSend base_choices seeds rnd_seed gen Hout Hseed ph nm kk rr Hnd Hph Hrr
        k step mal true br' Hk Hst Hcompact hs' hr' 0 st rt choices (Bitset.size choices) o ro Hsy); try done; [by apply Ws|by apply Wr].
    + intros [[h1 st'] o'] [h2 rt'] (_ & HT). apply converse_ret; [assumption..|]. constructor; [exact HT|constructor].
  - sender_lifts E1. receiver_lifts E2. rewrite <- (N.add_0_l (foldr (fun _ m => (ss_downs mal + m)%N) 0%N (wanted <$> jobs))).
    eapply (converse_bind _ _ _ _ Hnd Hph Hrr); [exact HC|]. intros [h1 st] [h2 rt] (F1 & F2 & Hsy). cbn [fst snd] in *. subst h1 h2.
    apply (jobs_run step compact br' Hstep Hcompact jobs 0); [done|done|]. eapply Forall_impl; [exact Hu|]. intros [? ? ? ?|? ?|? ?]; cbn [job_ok]; try done.
    intros (q & Hq & Eq) E0. rewrite <- (Hbits' q Hq), <- delta_word_bits, E0, Z.bits_0 in Eq by done. done.
Qed.
End Uses.

(** *** The protocol *)


(** *** A concrete session *)

(** Base transfers made from lists. *)
Lemma rots_made h h' choices (key : Z -> bool -> Z) : wf 128 choices -> m_bits_number choices = 128 -> (forall q m, 0 <= key q m < 2 ^ 128) ->
  exists hs r hr s lr ls, MakeOtRecvStore h choices ((fun q => key q (chosen choices q)) <$> seqZ 0 128) = Val (hs, r) /\
    MakeOtSendStore h' ((fun q => (key q false, key q true)) <$> seqZ 0 128) = Val (hr, s) /\ rots hs r hr s lr choices ls.
Proof.
  intros Hw Hn Hk. set (ys := (fun q => key q (chosen choices q)) <$> seqZ 0 128). set (xs := (fun q => (key q false, key q true)) <$> seqZ 0 128).
  assert (Ly : vsize ys = 128) by (unfold ys; by rewrite vsize_seqZ). assert (Lx : vsize xs = 128) by (unfold xs; by rewrite vsize_seqZ).
  unfold MakeOtRecvStore, MakeOtSendStore, new_bit, new_blk, Bitset.size. rewrite Hn, Lx, (u64_small (128 * 2)) by lia. cbn [next_loc blk_bufs bit_bufs].
  set (h2 := mk_heap (<[S (next_loc h) := ys]> (blk_bufs h)) _ _). set (ls := xs ≫= _). set (h1 := mk_heap (<[next_loc h' := ls]> (blk_bufs h')) _ _).
  assert (Ll : vsize ls = 256) by (unfold ls; rewrite vsize_pairs; lia).
  destruct (make_recv_whole h2 (S (next_loc h)) (Some (next_loc h)) ys choices Normal 128) as [E1 V1]; [by apply lookup_insert_eq|done|lia| |].
  { intros _. split; [|done]. eexists. split; [done|]. by apply lookup_insert_eq. }
  destruct (make_send_whole h1 (next_loc h') ls 0 Normal 256) as [E2 V2]; [by apply lookup_insert_eq|done|lia|done|].
  change (128 * 2) with 256. rewrite E1, E2. cbn [mbind res_bind]. eexists _, _, _, _, ys, ls. split; [done|]. split; [done|].
  assert (Bl : forall q (m : bool), 0 <= q < 128 -> blk ls (2 * q + Z.b2z m) = key q m).
  { intros q m Hq. pose proof (vget_seqZ (fun q => (key q false, key q true)) 128 q Hq) as Ex. fold xs in Ex. unfold vget in Ex. replace (0 <=? q) with true in Ex by lia.
    unfold ls. rewrite blk_pairs by (lia || (destruct m; cbn; lia)). rewrite Ex. by destruct m. }
  split; try done.
  - intros q Hq. pose proof (Z.div_mod q 2 ltac:(lia)). pose proof (Z.mod_pos_bound q 2 ltac:(lia)). replace q with (2 * (q / 2) + Z.b2z (q mod 2 =? 1)).
    + rewrite Bl by lia. apply Hk.
    + destruct (Z.eqb_spec (q mod 2) 1); cbn [Z.b2z]; lia.
  - intros q Hq. rewrite Bl by lia. unfold ys. by rewrite blk_seqZ.
Qed.

Lemma demo_ss_outside : ss_outside demo_prf (fun x => Z.lxor x 1) demo_hash (counter 64) (fun _ => 9) zeros zeros (0, 1) (2, 3).
Proof.
  split; try done.
  - intros d z. apply Z.mod_pos_bound. lia.
  - intros x Hx. apply xor_word128; [done|lia].
  - intros d. unfold demo_hash. rewrite length_take, length_app, length_replicate. lia.
  - apply demo_outside.
  - intros m Hm. unfold zeros. rewrite vsize_replicate. lia.
  - intros m Hm. unfold zeros. rewrite vsize_replicate. lia.
Qed.

(** Three calls with the same objects, in compact mode against malicious parties. *)
Definition demo_jobs : list job := [JobCot false demo_choices; JobRot true demo_choices; JobSpans demo_choices (replicate 6 (0, 0)) (replicate 6 0) true].

